(* ===== verification/_CoqProject ===== *)
-Q . S2P
Prelude.v
TimeManager.v
Text.v
PoolTx.v
PendingPool.v
ReadyPool.v
TxPool.v
Printer.v
PrinterScan.v
PrinterSpec.v
PrinterFlat.v
Shrink.v
Cheatcodes.v
CheatSpec.v
PrankSpec.v
RevertHandlers.v
RevertSpec.v
Mocks.v
StateDiff.v
ZkRecorder.v
ZkTracer.v
ZkTracerSpec.v
ZkContracts.v
ZkBatch.v
ZkVm.v
ZkVmSpec.v
ValueTrees.v
DynSol.v
Mutators.v
FsPermissions.v
Fees.v
Linker.v
CastBase.v
MultiFork.v
MultiForkSpec.v
Bytecode.v
FuzzDict.v
FuzzParam.v
FuzzParamSpec.v
Targets.v
TargetsSpec.v
CallGen.v
Corpus.v
InvariantRun.v
InvariantSpec.v
FuzzRun.v
FuzzRunSpec.v
CorpusSpec.v
Coverage.v
CoverageSpec.v
CoverageItems.v
FoldedStack.v
Assertions.v
Retry.v
StateDb.v
BackendMerge.v
Backend.v
BackendSpec.v
BackendSafe.v
BackendRequests.v
BackendIsolation.v
BlockStates.v
BlockStatesSpec.v
Chain.v
ChainSpec.v
Validation.v
Executor.v
ExecutorSpec.v
Node.v
NodeSpec.v
Miner.v
MinerSpec.v
EstimateGas.v
Api.v
ApiSpec.v
