(* ===== verification/Prelude.v ===== *)
(** * Verification of foundry-zksync

    A library that models parts of foundry-zksync ([src/foundry-zksync]), the
    Ethereum development toolkit with its zkSync extension, and proves what
    makes them correct.  All paths below are relative to
    [src/foundry-zksync/crates].

    ** The program

    [forge] runs tests and scripts in an EVM that an inspector ([cheatcodes])
    changes and observes; [evm/fuzz] and [evm/evm] generate inputs and call
    sequences for those tests and shrink the failing ones; [evm/coverage] and
    [evm/traces] record what the code under test did; [anvil] is a node with a
    transaction pool, a clock, a fee market and a chain; [fmt] formats Solidity;
    [cast] converts numbers and calls; [config] says what all of them may do.
    [zksync] and [strategy/zksync] run calls in the zkSync virtual machine over
    the state of the EVM.  The components modelled here are the ones that carry
    logic of their own.  Many meet in the program through plain values; four
    groups are composed here as in the code: the node ([TimeManager], [Fees],
    the pool, the databases and the chain, the executor, joined in [Node],
    [Miner] and [Api]), the backend of tests with its forks ([MultiFork],
    [BackendMerge], [Backend]), fuzz tests ([FuzzRun] over the inputs of
    [Corpus], those over the generators and mutators), and the zkSync machine
    ([ZkRecorder], [ZkTracer], [StateDiff]).

    ** The files

    - [Prelude] (this file): results, panics and monads; machine integers with
      their wrap-around; lists; the class [HashIter] of orders in which a hash
      table is iterated, which the theorems quantify over; the hint database
      [rust].
    - [TimeManager]: [anvil/src/eth/backend/time.rs].  [TimeManager] is the
      struct with its offset (i128), last and next timestamps and interval
      (u64); [step] runs any request, [mined] lists the timestamps of the
      blocks of a request sequence.
    - [PoolTx], [PendingPool], [ReadyPool], [TxPool]:
      [anvil/src/eth/pool/transactions.rs] and [mod.rs], with the markers that
      [eth/api.rs] gives a transaction.  [PoolInner] is the pair of queues;
      [Pool] adds the listeners; [Pool.serve] runs any request of the node.
      [None] is a panic of the code (an [expect] or an index), so that a
      theorem that concludes [Some] excludes it.
    - [Text], [Printer]: [fmt/src/pp]: the ring buffer, the scanning and the
      printing half of the pretty printer, and the requests of the formatter.
      [PrinterScan] proves the invariant of the scanning half against the
      interface [PrintInv]; [PrinterSpec] and [PrinterFlat] instantiate it.
    - [Shrink]: [evm/evm/src/executors/invariant/shrink.rs] and the parts of
      [invariant/mod.rs] it runs candidates with.  The EVM is a parameter;
      Module [Clock] instantiates it with a contract that reads the clock.
    - [Cheatcodes]: [cheatcodes/src/evm/prank.rs], [test/expect.rs] and the
      hooks of [inspector.rs] for calls, creates and logs.  [CheatSpec] holds
      the theorems about calls and emits, [PrankSpec] those about pranks, over
      trees of nested calls.
    - [RevertHandlers], [RevertSpec]: [cheatcodes/src/test/revert_handlers.rs],
      [test/assume.rs] and the hooks that handle expected reverts.
    - [StateDiff]: the recording of state differences in [inspector.rs] and the
      cheatcodes of [cheatcodes/src/evm.rs] that return it.
    - [ZkRecorder], [ZkTracer], [ZkTracerSpec]: [zksync/core/src/vm]: the
      accesses that a run of the zkSync machine is seen to make, its view of the
      storage, what its tracer does on a far call (the calls of [Cheatcodes] it
      counts, the ones of [Mocks] it answers, the values of the block it
      replaces), and how its records reach those of [StateDiff].
    - [ZkContracts]: [zksync/compilers/src/dual_compiled_contracts.rs].
    - [ZkBatch]: the batches of dependencies of [zksync/core/src/vm/inspect.rs].
    - [ZkVm], [ZkVmSpec]: the switch between the two machines over one state
      ([zksync/core], [strategy/zksync/src/cheatcode]), behind the classes
      [Journal] and [ZkLayout] with their laws.
    - [MultiFork], [MultiForkSpec]: [evm/core/src/fork/multi.rs]: the service of
      forks that several backends share.
    - [BackendMerge], [Backend], [BackendSpec], [BackendSafe],
      [BackendRequests], [BackendIsolation]: [evm/core/src/backend/mod.rs] and
      [strategy.rs]: the database of a test with its forks, over the interfaces
      [ForkService] (which [MultiFork] implements) and [BackendStrategy].
      [BackendSafe] is a calculus of the operations that do not panic,
      [BackendIsolation] one of those that keep away from a fork.
    - [ValueTrees]: [evm/fuzz/src/strategies/uint.rs] and [int.rs].  The class
      [Bisection] is what a value tree promises to the search that drives it;
      both trees are instances of it.
    - [DynSol]: the dynamic Solidity types and values, the monad [Gen] of code
      that draws from a source of randomness [R], its rules [yields] (returns,
      with a property) and [only] (what it returns has the property), and the
      interfaces of the sources: [Rng] for [rand], [Proptest] for strategies.
    - [Mutators]: [evm/fuzz/src/strategies/mutators.rs]; Gaussian noise
      computes in IEEE arithmetic.  Mutators of bytes are instances of
      [SliceMutator], which carries them to integers, addresses and words.
    - [FuzzDict]: [evm/fuzz/src/strategies/state.rs]: the fuzz dictionary, what
      it collects from accounts, calls and logs, and its revert.
    - [FuzzParam], [FuzzParamSpec]: [param.rs] and [calldata.rs]: values of
      every type from scratch, from fixtures, from the dictionary and by
      mutation, and the calldata made of them.
    - [Targets], [TargetsSpec]: [evm/fuzz/src/invariant] and the selection of
      [evm/evm/src/executors/invariant/mod.rs]: who calls what in an invariant
      test.
    - [CallGen]: [strategies/invariants.rs], [invariant/call_override.rs] and
      [inspector.rs]: the calls of an invariant test, the reentrant calls that
      are injected and their replay.
    - [Corpus], [CorpusSpec]: [evm/evm/src/executors/corpus.rs]: the inputs that
      reached new code, their mutation and eviction, and the files through which
      workers share them.
    - [FuzzRun], [FuzzRunSpec]: [evm/evm/src/executors/fuzz]: the workers of a
      fuzz test, for all interleavings, over the interface [FuzzInputs] with the
      laws [InputLaws], which [CorpusSpec] discharges for [Corpus].
    - [InvariantRun], [InvariantSpec]: [evm/evm/src/executors/invariant/mod.rs],
      [result.rs] and [error.rs]: the runs of an invariant test, over the class
      [CallSource].
    - [FsPermissions]: [config/src/fs_permissions.rs].
    - [Fees]: [anvil/src/eth/fees.rs].
    - [Linker]: [linking/src/lib.rs]: the libraries a contract needs, and the
      order in which they are linked and deployed.
    - [CastBase]: [cast/src/base.rs]: numbers with a base, their detection,
      parsing and printing, over the digits of Rust's integer formats.
    - [Bytecode]: [evm/core/src/bytecode.rs] and [ic.rs]: the instructions of a
      code and the maps between program counters and instruction counters.
    - [Coverage]: [evm/coverage/src] with the collector of [inspector.rs], the
      anchors, the items and the report.  [CoverageSpec] follows the hits from
      the executed steps to the report; [CoverageItems] holds the theorems
      about items, anchors and summaries.
    - [FoldedStack]: [evm/traces/src/folded_stack_trace.rs]: gas profiles.
    - [Mocks]: the mock cheatcodes and the calls they answer, in the EVM and in
      the zkSync virtual machine.
    - [Assertions]: [cheatcodes/src/test/assert.rs] and the verdict of
      [evm/evm/src/executors/mod.rs] on a test.
    - [Retry]: [common/src/retry.rs] and the averages of [common/src/calc.rs].
    - [StateDb]: the databases of the node that can be taken into a snapshot
      and back ([anvil/src/eth/backend/db.rs], [in_memory_db.rs], [fork_db.rs],
      [evm/core/src/fork/database.rs]), behind the class [LawfulDatabase], and
      the numbered snapshots of [evm/core/src/state_snapshot.rs].
    - [BlockStates], [BlockStatesSpec]: the states of past blocks in memory and
      on disk ([anvil/src/eth/backend/mem/storage.rs], [cache.rs]), over any
      [LawfulDatabase] and any [LawfulFileSystem].
    - [Chain], [ChainSpec]: [BlockchainStorage] and the operations of [Backend]
      on it: mining, snapshots, reverts, rollbacks, queries at a block.
    - [Validation]: the checks of a transaction of [anvil/src/eth/backend/mem/mod.rs]
      with the cheats of [cheats.rs].
    - [Executor], [ExecutorSpec]: [anvil/src/eth/backend/executor.rs]; the EVM
      is the class [Executes], with the laws [EvmLaws].
    - [Node], [NodeSpec]: the operations of [Backend] of [mem/mod.rs] that join
      the chain, the environment, the fees, the clock and the executor:
      [do_mine_block], the pending block, snapshots, rollbacks and setters.
      [NodeSpec] follows any sequence of them.
    - [Miner], [MinerSpec]: [anvil/src/eth/miner.rs] and [anvil/src/service.rs].
    - [EstimateGas]: the search for a gas limit of [anvil/src/eth/api.rs].
    - [Api], [ApiSpec]: the handlers of [anvil/src/eth/api.rs] that change the
      node, over [Node], [TxPool] and [Miner].

    ** What is shown

    - Safety of stateful parts: no sequence of requests makes the pool panic
      or breaks its invariant ([TxPool.Pool.requests_safe]); no request takes
      the clock out of its integer types ([TimeManager]); no request of a test
      makes the backend with its forks panic
      ([BackendRequests.requests_never_panic]); identifiers of forks are handed
      out once and everyone who asks is answered once ([MultiForkSpec]); a fork
      is as it was left when it is selected again, whatever requests were
      served on others ([BackendIsolation]), apart from the persistent accounts,
      which follow every selection ([BackendSpec]).
    - The node as a whole: whatever sequence of operations it serves, its
      blocks form a chain as long as reverts go to snapshots of the chain it has
      and the clock is not set back behind the last block; the base fee of each
      follows from its parent, and the transactions of a block are found
      afterwards with their receipts ([NodeSpec]); a block is made of the
      attempts at its transactions, within the limits on gas, and no
      transaction is executed twice as long as no nonce is lowered between
      blocks ([ExecutorSpec]); the service mines its batches as if one after the other
      ([MinerSpec]); blocks mined on request come on schedule and a
      reorganisation keeps the height of the chain ([ApiSpec]); a transaction
      is validated exactly when it meets the rules ([Validation]).
    - The zkSync machine: its records are those of the execution, its view of
      the storage refines a plain store, and its tracer panics only on malformed
      calldata of calls to system contracts ([ZkRecorder], [ZkTracerSpec]); a
      change to the machine and back keeps the balance and nonce of every
      account and the storage outside of the system contracts ([ZkVmSpec]); the
      batches of a deployment hold its dependencies, each within the limit
      ([ZkBatch]), and the dependencies are the reachable ones ([ZkContracts]).
    - Functional behaviour: what importing a transaction does to both queues,
      on success and for each error;
      which transactions a marker unlocks; when a set of expected calls, emits
      and reverts is accepted, as an if-and-only-if over the calls and logs of
      a test; which calls a prank changes; which blocks the fee history
      holds; when a path may be accessed.
    - Generated inputs: mutation keeps the type of a value; a call of an
      invariant test goes to a function that may be fuzzed, with calldata that
      encodes, from an allowed sender; what a run adds to the dictionary and
      to the targets is gone after it; recorded inner calls are replayed.
      These hold for every source of randomness.
    - Tests as a whole: a counterexample that an invariant test reports does
      break the invariant when its calls are executed with the delays of the
      calls that were left out of it, a test that passes made
      all of its runs and calls, and every test ends ([InvariantSpec]); whatever
      the interleaving of its workers, a fuzz test that succeeds made all runs,
      one that fails has an input on which the test fails, and it ends
      ([FuzzRunSpec]); its corpus never panics ([CorpusSpec]).
    - Refinement and equivalence: the printer prints exactly the text it is
      given, and a document that fits its margin as the flat rendering; the
      handling of expected reverts agrees with a counting reference.
    - End to end: an item of a coverage report is hit exactly when a test
      executed an instruction it is anchored at ([CoverageSpec]); a query at a
      past block is answered from the database the node had at that block
      ([ChainSpec.past_states], over the interfaces of [BlockStates]).
    - Round trips: numbers printed and parsed, code disassembled and assembled,
      databases through snapshots, the chain through a snapshot and its revert.
    - Termination and liveness: retries end, a loop that may go on for ever
      returns as soon as it can, inserting a state ends when one may be kept;
      the search for a gas limit ends and finds the least one that is enough
      ([EstimateGas]); the loop of the service ends exactly when the miner has
      less than a full block to mine.
    - Results of searches: the shrunk call sequence still fails and, given
      enough runs, no call of it can be left out; a shrunk integer is exactly
      the threshold of the failure; the linker finds exactly the libraries
      that are reachable, and deploys each after those it refers to.
    - Where the code does not do what it is meant to, a theorem states what it
      does at a concrete input: these are the theorems that end in words such
      as [lost], [survives], [merges], [outgrows], [forgets] or [breaks_chain],
      and the examples next to the witnesses of a file.

    ** Bounds and fuel

    - [TxPool.PoolInner.add_ready_loop] has one more unit of fuel than there
      are waiting transactions: every turn takes one transaction that left the
      waiting queue, and [add_ready_loop_spec] shows that it never runs out.
    - [ReadyPool]'s iterators and removals, and the loops of [Printer], have
      the size of the map or of the buffer they consume as fuel, with the same
      kind of lemma.
    - [Shrink.shrink_loop] has the [shrink_run_limit] of the code as fuel: its
      exhaustion is the code's own stop.
    - [Linker.collect_dependencies] has one more unit of fuel than there are
      artifacts, each of which is entered once; [Linker.create2_loop] has the
      number of libraries.
    - [ValueTrees.search] has fuel 258: an interval of 256 bits is halved in
      every move, and the theorems state that the result is reached.
    - [Bytecode.with_pc] has the length of the code as fuel, every instruction
      consumes a byte; [CastBase]'s and [Text]'s digit loops the value they
      divide; [FoldedStack.process_call_node] the number of nodes, each of
      which is entered once in a well-formed arena.
    - [Retry.run] has one unit more than the retries; the fuel of
      [run_async_until_break] is arbitrary, the theorem says when it is enough.
    - [BlockStates.memory_loop] and [disk_loop] have one unit more than the
      queue they shorten; that the first does not end for a limit of zero is
      shown for every fuel.  [StateDb.remove_from] has the numbers it visits.
    - [Mutators.draw_other] and [CallGen.until_allowed] loop until they draw
      something else: their fuel is arbitrary, [bound_returns] says when the
      first returns, and [CallGen.leaves] is the assumption on the source under
      which the second does.  [FuzzParam.first_other] has one unit more than
      the libraries it avoids; [FuzzDict.chunks_exact] the length of the data.
    - [InvariantRun.run_loop] has [turns], the depth and the rejects of a run:
      every turn adds to one of them; the fuel of [campaign_loop] is arbitrary,
      and [campaign_ends] says that the number of runs is enough.
      [Corpus.trim_end_matches] has the length of the text.  Runs of [FuzzRun]
      are sequences of parts, [fuzz_ends] bounds them.
    - [EstimateGas.search] has 66 rounds: the interval between the limits is of
      64 bits and halves in all rounds but one; [estimate_ends] is that they
      are enough.
    - [Executor]'s rounds are the transactions of the batch, each is taken
      once.  [Miner.poll]'s fuel is arbitrary: [poll_ends_iff] says for which
      pools some fuel is enough.  The iterators that the miner collects are run
      for at most [limit] transactions, an arbitrary bound of the model.
    - [ZkContracts.fetch] has one unit of fuel for each dependency that can be
      visited; [fetch_runs] is that it never runs out.
    - [u64] counters that grow by one per call, log, fork or transaction are not
      wrapped; every other arithmetic wraps or saturates as in the code.  The
      cost of blobs wraps, as it does in release builds.

    ** What is not modelled

    - Third-party code: revm, alloy's codecs and fee formulas, the zkSync
      machine and compilers, proptest, solar's syntax trees, the wall clock and
      the file system.  They are arguments or classes, with what is needed of
      them as named hypotheses.
    - Locks (every operation that holds one for its whole body is one step),
      wakers, logging, texts of messages, floating-point statistics.
    - Of the node: filters, traces, call simulation, the queries of the RPC,
      resets, the dump format of states, and a node that itself forks: these
      translate between types of alloy and revm, or ask a provider.
    - Of the tests: the driving of revm by the executor, the replay of
      counterexamples for display, traces for gas reports, the texts of reports;
      the analysis of sources that finds coverage items, the
      decoding of traces and the identification of storage slots, which read
      compiler artifacts; the formatter's walk over the syntax tree, which
      issues the requests that [Printer] serves.
    - The zkSync linker repeats the search of [Linker] over other artifacts.
      The configuration is a composition of third-party providers and derived
      decoders.
    - Command lines, scripts, compiler drivers, the debugger, chisel, doc, lint,
      verify and wallets are glue around third-party services. *)
From Stdlib Require Export ZArith Lia Ascii.
From stdpp Require Export base gmap strings list fin_maps sets sorting.

Declare Scope rust_scope.
Delimit Scope rust_scope with rust.

(** ** Results and panics

    A Rust [Result<A, E>] is [result E A].  A computation that may panic
    ([unwrap], [expect], [assert!], an index out of range) returns an
    [option]: [None] is the panic.  Both are monads in stdpp's sense, so the
    code's [?] and its sequencing are written [x ← m; k]. *)
Inductive result (E A : Type) : Type :=
| Ok (a : A)
| Err (e : E).
Arguments Ok {E A} a.
Arguments Err {E A} e.

#[export] Instance result_ret E : MRet (result E) := λ A a, Ok a.
#[export] Instance result_bind E : MBind (result E) := λ A B f m,
  match m with Ok a => f a | Err e => Err e end.
#[export] Instance result_fmap E : FMap (result E) := λ A B f m,
  match m with Ok a => Ok (f a) | Err e => Err e end.

Definition is_ok {E A} (r : result E A) : bool :=
  match r with Ok _ => true | Err _ => false end.

(** ** Machine integers

    A [w]-bit integer is its mathematical value in [Z].  The release profile
    of the workspace keeps overflow checks off, so plain arithmetic wraps. *)
Section machine_integers.
Local Open Scope Z_scope.

Definition umax (w : Z) : Z := 2 ^ w - 1.
Definition imax (w : Z) : Z := 2 ^ (w - 1) - 1.
Definition imin (w : Z) : Z := - 2 ^ (w - 1).

Definition in_u (w x : Z) : Prop := 0 <= x <= umax w.
Definition in_i (w x : Z) : Prop := imin w <= x <= imax w.

(** [x as uW] and wrapping arithmetic. *)
Definition wrap (w x : Z) : Z := x mod 2 ^ w.
(** The two's complement reading of a wrapped value, [x as iW]. *)
Definition swrap (w x : Z) : Z :=
    let y := x mod 2 ^ w in if y <=? imax w then y else y - 2 ^ w.

Definition u_saturating_add (w x y : Z) : Z := Z.min (umax w) (x + y).
Definition u_saturating_sub (x y : Z) : Z := Z.max 0 (x - y).
Definition i_saturating_add (w x y : Z) : Z :=
    Z.max (imin w) (Z.min (imax w) (x + y)).

Lemma wrap_id w x : 0 <= w -> in_u w x -> wrap w x = x.
Proof. unfold in_u, umax, wrap. intros. apply Z.mod_small. lia. Qed.

Lemma wrap_in_u w x : 0 <= w -> in_u w (wrap w x).
Proof.
    unfold in_u, umax, wrap. intros.
    pose proof (Z.mod_pos_bound x (2 ^ w)).
    pose proof (Z.pow_pos_nonneg 2 w). lia.
Qed.

Lemma u_saturating_add_in_u w x y :
    0 <= w -> 0 <= x -> 0 <= y -> in_u w (u_saturating_add w x y).
Proof.
    unfold in_u, u_saturating_add, umax. intros.
    pose proof (Z.pow_pos_nonneg 2 w). lia.
Qed.

Lemma i_saturating_add_in_i w x y : 0 < w -> in_i w (i_saturating_add w x y).
Proof.
    unfold in_i, i_saturating_add, imin, imax. intros.
    pose proof (Z.pow_pos_nonneg 2 (w - 1)). lia.
Qed.
End machine_integers.

Create HintDb rust.
Create Rewrite HintDb rust.
#[export] Hint Resolve wrap_in_u u_saturating_add_in_u i_saturating_add_in_i : rust.

(** Closes a goal about concrete widths. *)
Ltac width_unfold :=
  unfold in_u, in_i, umax, imax, imin, wrap, swrap, u_saturating_add,
    u_saturating_sub, i_saturating_add in *.
Ltac width_lia :=
  width_unfold;
  repeat match goal with
  | |- context [2 ^ ?n] => let v := eval vm_compute in (2 ^ n)%Z in change (2 ^ n)%Z with v
  | H : context [2 ^ ?n] |- _ => let v := eval vm_compute in (2 ^ n)%Z in change (2 ^ n)%Z with v in H
  end; lia.

(** Case analysis on a comparison of integers in the goal. *)
Ltac z_case :=
  match goal with
  | |- context [(?a <? ?b)%Z] => destruct (Z.ltb_spec a b)
  | |- context [(?a <=? ?b)%Z] => destruct (Z.leb_spec a b)
  | |- context [(?a =? ?b)%Z] => destruct (Z.eqb_spec a b)
  end.

(** ** Lists *)

(** A loop whose body may panic: [for x in l { s = f(s, x)? }]. *)
Fixpoint fold_opt {S A} (f : S → A → option S) (s : S) (l : list A) : option S :=
  match l with
  | [] => Some s
  | x :: l => s' ← f s x; fold_opt f s' l
  end.

Lemma fold_opt_app {S A} (f : S → A → option S) s l1 l2 :
  fold_opt f s (l1 ++ l2) = (s' ← fold_opt f s l1; fold_opt f s' l2).
Proof. revert s. induction l1; intros s; simpl; [done|]. destruct (f s a); simpl; auto. Qed.

(** An invariant of the loop body is an invariant of the loop; the loop
    does not panic when the body does not. *)
Lemma fold_opt_inv {S A} (I : S → Prop) (f : S → A → option S) l s :
  I s → (∀ s x, I s → x ∈ l → ∃ s', f s x = Some s' ∧ I s') →
  ∃ s', fold_opt f s l = Some s' ∧ I s'.
Proof.
  revert s. induction l as [|x l IH]; intros s Hs Hf; simpl; [eauto|].
  destruct (Hf s x) as (s' & -> & Hs'); [done|left|]. simpl.
  apply IH; [done|]. intros s'' y Hs'' Hy. apply Hf; [done|by right].
Qed.

Lemma fold_opt_some {S A} (I : S → Prop) (f : S → A → option S) l s s' :
  (∀ s x s', I s → x ∈ l → f s x = Some s' → I s') → fold_opt f s l = Some s' → I s → I s'.
Proof.
  revert s. induction l as [|x l IH]; intros s Hf; simpl; [by intros [= ->]|].
  intros (s1 & Hs1 & Hl)%bind_Some Hs. eapply IH; [|done|].
  - intros s2 y s3 Hs2 Hy. apply Hf; [done|by right].
  - eapply Hf; [exact Hs|left|done].
Qed.

(** [Vec::swap_remove]: the last element takes the place of the removed one.
    The callers only pass indices in range. *)
Definition swap_remove {A} (i : nat) (l : list A) : list A :=
  match last l with
  | Some x => <[i := x]> (take (pred (length l)) l)
  | None => []
  end.

Lemma swap_remove_perm {A} (i : nat) (l : list A) x :
  l !! i = Some x → l ≡ₚ x :: swap_remove i l.
Proof.
  intros Hi. unfold swap_remove.
  destruct l as [|z l' _] using rev_ind; [done|].
  rewrite last_snoc, length_app, Nat.add_comm. simpl. rewrite take_app_length.
  destruct (decide (i < length l')) as [Hlt|Hge].
  - rewrite lookup_app_l in Hi by done.
    rewrite insert_take_drop by done.
    rewrite <-(take_drop_middle _ _ _ Hi) at 1.
    rewrite <-Permutation_cons_append. rewrite <-!Permutation_middle.
    apply Permutation_swap.
  - rewrite list_insert_ge by lia.
    assert (i = length l') as ->.
    { apply lookup_lt_Some in Hi. rewrite length_app in Hi. simpl in Hi. lia. }
    rewrite list_lookup_middle in Hi by done. simplify_eq.
    by rewrite <-Permutation_cons_append.
Qed.

(** [if let Some(idx) = v.iter().position(|i| i == &x) { v.swap_remove(idx); }] *)
Definition unlink `{EqDecision A} (x : A) (l : list A) : list A :=
  match list_find (eq x) l with
  | Some (i, _) => swap_remove i l
  | None => l
  end.

Lemma unlink_perm `{EqDecision A} (x : A) l :
  x ∈ l → l ≡ₚ x :: unlink x l.
Proof.
  intros Hx. unfold unlink.
  destruct (list_find (eq x) l) as [[i y]|] eqn:Hf.
  - apply list_find_Some in Hf as (Hi & <- & _). by apply swap_remove_perm.
  - apply list_find_None in Hf. rewrite Forall_forall in Hf. by destruct (Hf x).
Qed.

Lemma unlink_absent `{EqDecision A} (x : A) l : x ∉ l → unlink x l = l.
Proof.
  intros Hx. unfold unlink. destruct (list_find (eq x) l) as [[i y]|] eqn:Hf; [|done].
  apply list_find_Some in Hf as (Hi & <- & _). destruct Hx.
  by eapply list_elem_of_lookup_2.
Qed.

(** The iteration order of a [HashSet] is not specified by the code: the
    model takes any enumeration of the set. *)
Class HashIter := {
  hash_iter : ∀ {K} `{Countable K}, gset K → list K;
  hash_iter_perm : ∀ {K} `{Countable K} (s : gset K), hash_iter s ≡ₚ elements s;
}.

Lemma elem_of_hash_iter `{HashIter} `{Countable K} (s : gset K) x :
  x ∈ hash_iter s ↔ x ∈ s.
Proof. by rewrite hash_iter_perm, elem_of_elements. Qed.

Lemma NoDup_hash_iter `{HashIter} `{Countable K} (s : gset K) : NoDup (hash_iter s).
Proof. rewrite hash_iter_perm. apply NoDup_elements. Qed.

(** One such enumeration, for concrete runs. *)
Definition elements_iter : HashIter :=
  {| hash_iter := λ K _ _ s, elements s; hash_iter_perm := λ K _ _ s, reflexivity _ |}.

(** ** Bytes *)

(** [to_le_bytes] and [to_be_bytes] of an [n]-byte integer. *)
Fixpoint le_bytes (n : nat) (x : Z) : list Z :=
  match n with
  | O => []
  | S n => (x mod 256)%Z :: le_bytes n (x / 256)%Z
  end.
Definition be_bytes (n : nat) (x : Z) : list Z := rev (le_bytes n x).
(** [from_be_bytes] *)
Definition of_be_bytes (l : list Z) : Z := foldl (λ acc b, acc * 256 + b)%Z 0%Z l.

Lemma le_bytes_length n x : length (le_bytes n x) = n.
Proof. revert x. induction n; intros; simpl; auto. Qed.

Lemma le_bytes_inj n x y :
  (0 <= x < 256 ^ Z.of_nat n)%Z → (0 <= y < 256 ^ Z.of_nat n)%Z →
  le_bytes n x = le_bytes n y → x = y.
Proof.
  revert x y. induction n as [|n IH]; intros x y Hx Hy Heq; [simpl in *; lia|].
  rewrite Nat2Z.inj_succ, Z.pow_succ_r in Hx, Hy by lia.
  simpl in Heq. injection Heq as Hm Hd.
  apply IH in Hd; [|split; [apply Z.div_pos; lia|apply Z.div_lt_upper_bound; lia]..].
  rewrite (Z.div_mod x 256), (Z.div_mod y 256) by lia. congruence.
Qed.

Lemma be_bytes_inj n x y :
  (0 <= x < 256 ^ Z.of_nat n)%Z → (0 <= y < 256 ^ Z.of_nat n)%Z →
  be_bytes n x = be_bytes n y → x = y.
Proof.
  intros Hx Hy Heq. apply (le_bytes_inj n); [done..|].
  rewrite <-(rev_involutive (le_bytes n x)), <-(rev_involutive (le_bytes n y)).
  by apply (f_equal (@rev Z)).
Qed.

(** ** Strings

    [str::to_lowercase] on the ASCII range; the characters outside it whose
    lower case is an ASCII letter do not occur in the names the code matches. *)
Definition ascii_lower (c : Ascii.ascii) : Ascii.ascii :=
  let n := Ascii.nat_of_ascii c in
  if (65 <=? n)%nat && (n <=? 90)%nat then Ascii.ascii_of_nat (n + 32) else c.
Fixpoint to_lowercase (s : string) : string :=
  match s with
  | EmptyString => EmptyString
  | String c s => String (ascii_lower c) (to_lowercase s)
  end.

(** A partial map with a left inverse keeps lists duplicate free. *)
Lemma fmap_omap_sublist {A B} (g : A → option B) (f : B → A) (l : list A) :
  (∀ x y, g x = Some y → f y = x) → f <$> omap g l `sublist_of` l.
Proof.
  intros Hgf. induction l as [|x l IH]; simpl; [done|].
  destruct (g x) as [y|] eqn:Hx; simpl.
  - rewrite (Hgf _ _ Hx). by apply sublist_skip.
  - by apply sublist_cons.
Qed.

Lemma omap_ext_in {A B} (f g : A → option B) (l : list A) :
  (∀ x, x ∈ l → f x = g x) → omap f l = omap g l.
Proof.
  induction l as [|x l IH]; intros Hfg; [done|]. simpl.
  rewrite Hfg by left.
  destruct (g x); [f_equal|]; apply IH; intros; apply Hfg; by right.
Qed.

Lemma omap_fmap {A B C} (f : B → option C) (g : A → B) (l : list A) :
  omap f (g <$> l) = omap (λ x, f (g x)) l.
Proof. induction l as [|x l IH]; [done|]. csimpl. by rewrite IH. Qed.

(** ** Work lists

    [while let Some(a) = stack.pop() { .. stack.append(more) .. }].  A step
    either adds nothing ([None]) or appends a list of new items ([Some]); only
    the second kind consumes fuel, so a bound on the number of productive
    steps is enough fuel.  The head of the list is the top of the stack. *)
Section worklist.
Context {St A : Type} (step : A → St → option (option (list A) * St)).

Fixpoint worklist (fuel : nat) : list A → St → option St :=
  fix go (stack : list A) (s : St) : option St :=
    match stack with
    | [] => Some s
    | a :: rest =>
        '(more, s') ← step a s;
        match more with
        | None => go rest s'
        | Some more =>
            match fuel with
            | O => None
            | S fuel => worklist fuel (rev more ++ rest) s'
            end
        end
    end.

(** The loop terminates without a panic and ends in a state that satisfies
    the invariant, when productive steps decrease the measure. *)
Lemma worklist_inv (I : list A → St → Prop) (μ : St → nat) fuel stack s :
  (∀ a rest s, I (a :: rest) s → ∃ more s', step a s = Some (more, s') ∧
     match more with
     | None => μ s' ≤ μ s ∧ I rest s'
     | Some more => μ s' < μ s ∧ I (rev more ++ rest) s'
     end) →
  μ s ≤ fuel → I stack s → ∃ s', worklist fuel stack s = Some s' ∧ I [] s'.
Proof.
  intros Hstep. revert stack s.
  induction fuel as [|fuel IHf]; intros stack; induction stack as [|a rest IHs];
    intros s Hμ HI; simpl; eauto.
  all: destruct (Hstep _ _ _ HI) as (more & s' & -> & Hm); simpl.
  all: destruct more as [more|]; destruct Hm as [? ?].
  - lia.
  - apply IHs; [lia|done].
  - apply IHf; [lia|done].
  - apply IHs; [lia|done].
Qed.
End worklist.

(** ** Ordered sets

    A [BTreeSet] is the strictly increasing list of its elements; elements
    that compare equal are the same element for the set. *)
Section ordered_set.
Context {A : Type} (cmp : A → A → comparison).

(** Keeps the old element when an equal one is present. *)
Fixpoint oset_insert (x : A) (l : list A) : list A :=
  match l with
  | [] => [x]
  | y :: l' =>
      match cmp x y with
      | Lt => x :: l
      | Eq => l
      | Gt => y :: oset_insert x l'
      end
  end.

Fixpoint oset_remove (x : A) (l : list A) : list A :=
  match l with
  | [] => []
  | y :: l' => match cmp x y with Eq => l' | _ => y :: oset_remove x l' end
  end.

Definition oset_sorted : list A → Prop := StronglySorted (λ x y, cmp x y = Lt).

Lemma elem_of_oset_insert x y l : y ∈ oset_insert x l → y = x ∨ y ∈ l.
Proof.
  induction l as [|z l IH]; simpl; [set_solver|].
  destruct (cmp x z); set_solver.
Qed.

Lemma elem_of_oset_remove x y l : y ∈ oset_remove x l → y ∈ l.
Proof.
  induction l as [|z l IH]; simpl; [set_solver|].
  destruct (cmp x z); set_solver.
Qed.

Lemma oset_remove_keep x y l : cmp x y ≠ Eq → y ∈ l → y ∈ oset_remove x l.
Proof.
  intros Hne. induction l as [|z l IH]; simpl; [done|].
  intros [->|?]%elem_of_cons; [destruct (cmp x z); [done|left..]|].
  destruct (cmp x z); [done|right; auto..].
Qed.

Lemma oset_insert_mono x y l : y ∈ l → y ∈ oset_insert x l.
Proof.
  induction l as [|z l IH]; simpl; [set_solver|].
  destruct (cmp x z); set_solver.
Qed.

Section laws.
Hypothesis cmp_opp : ∀ x y, cmp y x = CompOpp (cmp x y).
Hypothesis cmp_trans : ∀ x y z, cmp x y = Lt → cmp y z = Lt → cmp x z = Lt.

Lemma oset_insert_sorted x l : oset_sorted l → oset_sorted (oset_insert x l).
Proof.
  induction 1 as [|y l Hl IH Hy]; simpl; [repeat constructor|].
  destruct (cmp x y) eqn:Hc; [by constructor| |].
  - constructor; [by constructor|]. constructor; [done|].
    eapply Forall_impl; [exact Hy|]. intros z ?. by eapply cmp_trans.
  - constructor; [done|]. rewrite Forall_forall in *. intros z Hz.
    apply elem_of_oset_insert in Hz as [->|?]; [|auto].
    by rewrite cmp_opp, Hc.
Qed.

Lemma oset_remove_sorted x l : oset_sorted l → oset_sorted (oset_remove x l).
Proof.
  induction 1 as [|y l Hl IH Hy]; simpl; [constructor|].
  destruct (cmp x y); [done|..]; (constructor; [done|]);
    rewrite Forall_forall in *; intros z ?%elem_of_oset_remove; auto.
Qed.

(** The last element is the maximum. *)
Lemma oset_last_max l x : oset_sorted l → last l = Some x → ∀ y, y ∈ l → y = x ∨ cmp y x = Lt.
Proof.
  intros Hs. induction Hs as [|y l Hl IH Hy]; [done|].
  intros [l0 Hl0]%last_Some z Hz. destruct l0 as [|y' l0]; simplify_eq/=.
  - apply list_elem_of_singleton in Hz. by left.
  - apply elem_of_cons in Hz as [->|Hz].
    + right. rewrite Forall_forall in Hy. apply Hy. set_solver.
    + apply IH; [|done]. apply last_snoc.
Qed.
End laws.
End ordered_set.

Lemma elem_of_rev {A} (x : A) (l : list A) : x ∈ rev l ↔ x ∈ l.
Proof. by rewrite <-Permutation_rev. Qed.

Lemma filter_all {A} (P : A → Prop) `{!∀ x, Decision (P x)} (l : list A) :
  (∀ x, x ∈ l → P x) → filter P l = l.
Proof.
  induction l as [|x l IH]; intros Hl; [done|].
  rewrite filter_cons_True by (apply Hl; left). f_equal. apply IH. intros y ?. apply Hl. by right.
Qed.

Lemma filter_none {A} (P : A → Prop) `{!∀ x, Decision (P x)} (l : list A) :
  (∀ x, x ∈ l → ¬ P x) → filter P l = [].
Proof.
  induction l as [|x l IH]; intros Hl; [done|].
  rewrite filter_cons_False by (apply Hl; left). apply IH. intros y ?. apply Hl. by right.
Qed.

Lemma filter_ext {A} (P Q : A → Prop) `{!∀ x, Decision (P x), !∀ x, Decision (Q x)} (l : list A) :
  (∀ x, P x ↔ Q x) → filter P l = filter Q l.
Proof. intros HPQ. apply list_filter_iff. exact HPQ. Qed.

(** ** Sums and counts *)

Fixpoint zsum {A} (f : A → Z) (l : list A) : Z :=
  match l with [] => 0 | x :: l => f x + zsum f l end%Z.

Lemma zsum_app {A} (f : A → Z) l1 l2 : zsum f (l1 ++ l2) = (zsum f l1 + zsum f l2)%Z.
Proof. induction l1; simpl; lia. Qed.

Lemma zsum_perm {A} (f : A → Z) l1 l2 : l1 ≡ₚ l2 → zsum f l1 = zsum f l2.
Proof. induction 1; simpl; lia. Qed.

Lemma zsum_fmap {A B} (f : B → Z) (g : A → B) l : zsum f (g <$> l) = zsum (λ x, f (g x)) l.
Proof. induction l as [|x l IH]; [done|]. rewrite fmap_cons. simpl. by rewrite IH. Qed.

Lemma zsum_ext {A} (f g : A → Z) l : (∀ x, x ∈ l → f x = g x) → zsum f l = zsum g l.
Proof.
  induction l as [|x l IH]; intros Hfg; simpl; [done|].
  rewrite Hfg by left. rewrite IH; [done|]. intros y ?. apply Hfg. by right.
Qed.

Lemma zsum_zero {A} (f : A → Z) l : (∀ x, x ∈ l → f x = 0%Z) → zsum f l = 0%Z.
Proof.
  induction l as [|x l IH]; intros Hf; simpl; [done|].
  rewrite Hf by left. rewrite IH; [done|]. intros y ?. apply Hf. by right.
Qed.

Lemma zsum_nonneg {A} (f : A → Z) l : (∀ x, x ∈ l → 0 <= f x)%Z → (0 <= zsum f l)%Z.
Proof.
  induction l as [|x l IH]; intros Hf; simpl; [lia|].
  pose proof (Hf x (list_elem_of_here x l)). 
  assert (∀ y, y ∈ l → 0 <= f y)%Z as Hl by (intros; apply Hf; by right). specialize (IH Hl). lia.
Qed.

Lemma zsum_mono {A} (f g : A → Z) l :
  (∀ x, x ∈ l → f x <= g x)%Z → (zsum f l <= zsum g l)%Z.
Proof.
  induction l as [|x l IH]; intros Hfg; simpl; [lia|].
  pose proof (Hfg x (list_elem_of_here x l)).
  assert (∀ y, y ∈ l → f y <= g y)%Z as Hl by (intros; apply Hfg; by right). specialize (IH Hl). lia.
Qed.

(** A sum of non-negative terms is positive when one of them is. *)
Lemma zsum_pos {A} (f : A → Z) l :
  (∀ x, x ∈ l → 0 <= f x)%Z → (0 < zsum f l ↔ ∃ x, x ∈ l ∧ 0 < f x)%Z.
Proof.
  induction l as [|x l IH]; intros Hf; simpl.
  { split; [lia|]. by intros (y & ?%elem_of_nil & _). }
  assert (∀ y, y ∈ l → 0 <= f y)%Z as Hl by (intros; apply Hf; by right).
  pose proof (Hf x (list_elem_of_here x l)) as Hx. pose proof (zsum_nonneg f l Hl) as Hn.
  split.
  - intros Hpos. destruct (decide (0 < f x)%Z) as [?|?]; [exists x; split; [left|done]|].
    destruct (proj1 (IH Hl)) as (y & Hy & ?); [lia|]. exists y. split; [by right|done].
  - intros (y & [->|Hy]%elem_of_cons & Hpos); [lia|].
    assert (0 < zsum f l)%Z by (apply (IH Hl); eauto). lia.
Qed.

(** The only term that is not zero. *)
Lemma zsum_single `{EqDecision A} (f : A → Z) (x : A) l :
  NoDup l → zsum (λ y, if decide (y = x) then f y else 0%Z) l = (if decide (x ∈ l) then f x else 0%Z).
Proof.
  induction 1 as [|y l Hy _ IH]; simpl; [done|]. rewrite IH.
  destruct (decide (y = x)) as [->|Hne].
  - rewrite (decide_False (P := x ∈ l)) by done. rewrite decide_True by left. lia.
  - destruct (decide (x ∈ l)); [rewrite decide_True by (by right)|rewrite decide_False by set_solver]; lia.
Qed.

(** How many elements satisfy a test. *)
Definition zcount {A} (P : A → bool) (l : list A) : Z := zsum (λ x, if P x then 1%Z else 0%Z) l.

Lemma zcount_pos {A} (P : A → bool) l : (0 < zcount P l)%Z ↔ ∃ x, x ∈ l ∧ P x = true.
Proof.
  unfold zcount. rewrite zsum_pos by (intros x _; destruct (P x); lia).
  split; intros (x & ? & Hx); exists x; (split; [done|]); destruct (P x); (done || lia).
Qed.

Lemma zcount_nonneg {A} (P : A → bool) l : (0 <= zcount P l)%Z.
Proof. apply zsum_nonneg. intros x _. destruct (P x); lia. Qed.

Lemma wrap_add_l w x y : wrap w (wrap w x + y) = wrap w (x + y).
Proof. apply Zplus_mod_idemp_l. Qed.
Lemma wrap_add_r w x y : wrap w (x + wrap w y) = wrap w (x + y).
Proof. apply Zplus_mod_idemp_r. Qed.
