(* ===== verification/TimeManager.v ===== *)
(** * anvil's block clock

    Models [crates/anvil/src/eth/backend/time.rs]: the state of [TimeManager]
    and every operation of it.  The wall clock ([duration_since_unix_epoch])
    is the argument [now] of the operations that read it. *)
From S2P Require Import Prelude.
Local Open Scope Z_scope.

Module TimeManager.

(** The fields of [struct TimeManager]; each sits behind its own lock. *)
Record TimeManager := mkTimeManager {
  offset : Z;                          (* i128 *)
  last_timestamp : Z;                  (* u64 *)
  next_exact_timestamp : option Z;     (* u64 *)
  interval : option Z;                 (* u64 *)
}.

(** [BlockchainError::TimestampError]; the message is not modelled. *)
Inductive BlockchainError := TimestampError (timestamp : Z).

Definition reset (now : Z) (start_timestamp : Z) (tm : TimeManager) : TimeManager :=
  {| last_timestamp := start_timestamp;
     offset := start_timestamp - now;
     next_exact_timestamp := None;
     interval := interval tm |}.

Definition new (now : Z) (start_timestamp : Z) : TimeManager :=
  reset now start_timestamp
    {| offset := 0; last_timestamp := 0; next_exact_timestamp := None; interval := None |}.

Definition set_offset (o : Z) (tm : TimeManager) : TimeManager :=
  {| offset := o; last_timestamp := last_timestamp tm;
     next_exact_timestamp := next_exact_timestamp tm; interval := interval tm |}.

Definition add_offset (o : Z) (tm : TimeManager) : Z * TimeManager :=
  let next := i_saturating_add 128 (offset tm) o in
  (next, set_offset next tm).

Definition increase_time (seconds : Z) (tm : TimeManager) : Z * TimeManager :=
  add_offset seconds tm.

Definition set_next_block_timestamp (timestamp : Z) (tm : TimeManager)
    : result BlockchainError unit * TimeManager :=
  if timestamp <? last_timestamp tm then (Err (TimestampError timestamp), tm)
  else (Ok tt,
        {| offset := offset tm; last_timestamp := last_timestamp tm;
           next_exact_timestamp := Some timestamp; interval := interval tm |}).

Definition set_block_timestamp_interval (i : Z) (tm : TimeManager) : TimeManager :=
  {| offset := offset tm; last_timestamp := last_timestamp tm;
     next_exact_timestamp := next_exact_timestamp tm; interval := Some i |}.

Definition remove_block_timestamp_interval (tm : TimeManager) : bool * TimeManager :=
  match interval tm with
  | Some _ =>
      (true, {| offset := offset tm; last_timestamp := last_timestamp tm;
                next_exact_timestamp := next_exact_timestamp tm; interval := None |})
  | None => (false, tm)
  end.

Definition compute_next_timestamp (now : Z) (tm : TimeManager) : Z * option Z :=
  let last := last_timestamp tm in
  let '(next, update_offset) :=
    match next_exact_timestamp tm with
    | Some next => (next, true)
    | None =>
        match interval tm with
        | Some i => (u_saturating_add 64 last i, false)
        | None => (wrap 64 (i_saturating_add 128 now (offset tm)), false)
        end
    end in
  let next := if next <? last then wrap 64 (last + 1) else next in
  (next, if update_offset : bool then Some (next - now) else None).

Definition next_timestamp (now : Z) (tm : TimeManager) : Z * TimeManager :=
  let '(next, next_offset) := compute_next_timestamp now tm in
  (next,
   {| offset := default (offset tm) next_offset;
      last_timestamp := next;
      next_exact_timestamp := None;
      interval := interval tm |}).

Definition current_call_timestamp (now : Z) (tm : TimeManager) : Z :=
  fst (compute_next_timestamp now tm).

(** ** Well-formed states *)

(** Every field is in the range of its Rust type. *)
Record wf (tm : TimeManager) : Prop := {
  wf_offset : in_i 128 (offset tm);
  wf_last : in_u 64 (last_timestamp tm);
  wf_next : ∀ t, next_exact_timestamp tm = Some t → in_u 64 t;
  wf_interval : ∀ i, interval tm = Some i → in_u 64 i;
}.

(** A request to the clock, with the wall clock at which it is served. *)
Inductive op :=
| Reset (start_timestamp : Z)
| IncreaseTime (seconds : Z)
| SetNext (timestamp : Z)
| SetInterval (i : Z)
| RemoveInterval
| Next.

Definition op_in_range (o : op) : Prop :=
  match o with
  | Reset t | IncreaseTime t | SetNext t | SetInterval t => in_u 64 t
  | RemoveInterval | Next => True
  end.

(** One request: the new state and the timestamp it mined a block with. *)
Definition step (now : Z) (o : op) (tm : TimeManager) : TimeManager * option Z :=
  match o with
  | Reset t => (reset now t tm, None)
  | IncreaseTime s => (snd (increase_time s tm), None)
  | SetNext t => (snd (set_next_block_timestamp t tm), None)
  | SetInterval i => (set_block_timestamp_interval i tm, None)
  | RemoveInterval => (snd (remove_block_timestamp_interval tm), None)
  | Next => let '(t, tm') := next_timestamp now tm in (tm', Some t)
  end.

(** The timestamps of the blocks mined while serving a list of requests. *)
Fixpoint mined (ops : list (Z * op)) (tm : TimeManager) : list Z :=
  match ops with
  | [] => []
  | (now, o) :: ops =>
      let '(tm', t) := step now o tm in
      match t with Some t => t :: mined ops tm' | None => mined ops tm' end
  end.

Definition is_reset (o : op) : bool := if o is Reset _ then true else false.

(** ** Lemmas *)

Lemma compute_next_in_u64 now tm :
  wf tm → in_u 64 (fst (compute_next_timestamp now tm)).
Proof.
  intros [? ? Hn Hi]. unfold compute_next_timestamp.
  destruct (next_exact_timestamp tm) as [n|]; [specialize (Hn n eq_refl)|
    destruct (interval tm) as [i|]; [specialize (Hi i eq_refl)|]]; simpl;
    (destruct (_ <? _); [by apply wrap_in_u|]); try done; [|by apply wrap_in_u].
  apply u_saturating_add_in_u; unfold in_u in *; lia.
Qed.

Lemma compute_next_ge_last now tm :
  wf tm → last_timestamp tm < umax 64 →
  last_timestamp tm <= fst (compute_next_timestamp now tm).
Proof.
  intros [? [] ? ?] Hlt. unfold compute_next_timestamp.
  destruct (next_exact_timestamp tm) as [n|]; [|destruct (interval tm)]; simpl;
    (z_case; [|simpl; lia]); simpl;
    (rewrite wrap_id; [lia|lia|unfold in_u; lia]).
Qed.

Lemma next_timestamp_last now tm :
  last_timestamp (snd (next_timestamp now tm)) = fst (next_timestamp now tm).
Proof. unfold next_timestamp. by destruct (compute_next_timestamp now tm). Qed.

Lemma next_timestamp_fst now tm :
  fst (next_timestamp now tm) = fst (compute_next_timestamp now tm).
Proof. unfold next_timestamp. by destruct (compute_next_timestamp now tm). Qed.

Lemma compute_next_offset now tm o :
  snd (compute_next_timestamp now tm) = Some o →
  o = fst (compute_next_timestamp now tm) - now.
Proof.
  unfold compute_next_timestamp.
  destruct (next_exact_timestamp tm), (interval tm); simpl; by intros [= <-].
Qed.

Lemma step_keeps_last now o tm t tm' :
  step now o tm = (tm', t) → is_reset o = false →
  last_timestamp tm' = default (last_timestamp tm) t.
Proof.
  destruct o; simpl; intros Hs Hr; simplify_eq/=; try done.
  - unfold set_next_block_timestamp. by destruct (_ <? _).
  - unfold remove_block_timestamp_interval. by destruct (interval tm).
  - pose proof (next_timestamp_last now tm).
    destruct (next_timestamp now tm); by simplify_eq/=.
Qed.

(** ** Properties *)

(** Every request keeps the clock well formed: the offset stays an i128
    and the timestamps stay u64 values, whatever the wall clock. *)
Theorem step_wf now o tm :
  in_u 64 now → op_in_range o → wf tm → wf (fst (step now o tm)).
Proof.
  intros Hnow Ho Hwf. pose proof Hwf as [Hof Hl Hn Hi].
  destruct o; simpl in *.
  - constructor; simpl; try done. width_lia.
  - constructor; simpl; try done. by apply i_saturating_add_in_i.
  - unfold set_next_block_timestamp. destruct (_ <? _); [done|].
    constructor; simpl; try done. by intros ? [= <-].
  - constructor; simpl; try done. by intros ? [= <-].
  - unfold remove_block_timestamp_interval.
    destruct (interval tm) eqn:?; [constructor|]; naive_solver.
  - pose proof (compute_next_in_u64 now tm Hwf) as Hin.
    pose proof (compute_next_offset now tm) as Hoff.
    unfold next_timestamp. destruct (compute_next_timestamp now tm) as [n [o|]];
      simpl in *; constructor; simpl; try done.
    rewrite (Hoff o eq_refl). width_lia.
Qed.

Lemma step_wf_witness :
  wf (fst (step 1700000000 (SetNext 1800000000) (new 1700000000 42))).
Proof.
  apply step_wf; [by split | by split |].
  constructor; simpl; [split; vm_compute; discriminate | by split | done | done].
Defined.

(** Block timestamps never go backwards: without a reset, the timestamps
    mined by any sequence of requests are sorted and at least the last one,
    as long as the clock stays below the end of the u64 range. *)
Theorem mined_sorted ops tm :
  wf tm → Forall (λ '(now, o), in_u 64 now ∧ op_in_range o ∧ is_reset o = false) ops →
  Forall (λ t, t < umax 64) (last_timestamp tm :: mined ops tm) →
  Sorted Z.le (last_timestamp tm :: mined ops tm).
Proof.
  revert tm. induction ops as [|[now o] ops IH]; intros tm Hwf Hops Hb; simpl.
  { by repeat constructor. }
  apply Forall_cons in Hops as [(Hnow & Ho & Hr) Hops].
  apply Forall_cons in Hb as [Hlast Hb]. simpl in Hb.
  destruct (step now o tm) as [tm' t] eqn:Hs.
  assert (wf tm') as Hwf'.
  { replace tm' with (fst (step now o tm)) by by rewrite Hs. by apply step_wf. }
  pose proof (step_keeps_last _ _ _ _ _ Hs Hr) as Hk.
  specialize (IH tm' Hwf' Hops). rewrite Hk in IH.
  destruct t as [t|]; simpl in *; [|by apply IH; constructor].
  constructor; [by apply IH|]. constructor.
  destruct o; simplify_eq/=.
  pose proof (compute_next_ge_last now tm Hwf Hlast) as Hge.
  rewrite <-next_timestamp_fst in Hge.
  by destruct (next_timestamp now tm); simplify_eq/=.
Qed.

Lemma mined_sorted_witness :
  Sorted Z.le (42 :: mined [(100, SetNext 90); (100, Next); (107, Next); (107, SetInterval 0); (1, Next)]
                           (new 100 42)).
Proof.
  apply (mined_sorted _ (new 100 42)).
  - constructor; simpl; [split; vm_compute; discriminate | by split | done | done].
  - repeat constructor; vm_compute; discriminate.
  - repeat constructor; vm_compute; reflexivity.
Defined.

(** An accepted exact timestamp is the next block's, and from then on the
    clock runs on from it: [d] seconds later, without an interval, the next
    block is at [t + d].  The last block's own timestamp is accepted. *)
Theorem set_next_then_next now d t tm :
  wf tm → in_u 64 t → in_u 64 now → 0 <= d → t + d <= umax 64 → last_timestamp tm <= t →
  let '(r, tm1) := set_next_block_timestamp t tm in
  let '(t1, tm2) := next_timestamp now tm1 in
  r = Ok tt ∧ t1 = t ∧
  (interval tm = None → fst (next_timestamp (now + d) tm2) = t + d) ∧
  (∀ i, interval tm = Some i → fst (next_timestamp (now + d) tm2) = Z.min (umax 64) (t + i)).
Proof.
  intros Hwf Ht Hnow Hd Htd Hle. unfold set_next_block_timestamp.
  destruct (Z.ltb_spec t (last_timestamp tm)); [lia|].
  unfold next_timestamp, compute_next_timestamp; simpl.
  destruct (Z.ltb_spec t (last_timestamp tm)); [lia|]. simpl.
  split_and!; [done|done| |].
  - intros ->. simpl. unfold i_saturating_add.
    replace (now + d + (t - now)) with (t + d) by lia.
    replace (Z.max _ _) with (t + d) by (clear -Ht Hd Htd; width_lia).
    rewrite wrap_id by (unfold in_u in *; lia).
    destruct (Z.ltb_spec (t + d) t); simpl; lia.
  - intros i Hi. pose proof (wf_interval _ Hwf _ Hi) as Hii. rewrite Hi. simpl.
    unfold u_saturating_add. unfold in_u in *.
    destruct (Z.ltb_spec (Z.min (umax 64) (t + i)) t); simpl; lia.
Qed.

Lemma set_next_then_next_witness :
  let '(r, tm1) := set_next_block_timestamp 42 (new 100 42) in
  let '(t1, tm2) := next_timestamp 100 tm1 in
  r = Ok tt ∧ t1 = 42 ∧
  (@None Z = None → fst (next_timestamp (100 + 7) tm2) = 42 + 7) ∧
  (∀ i, None = Some i → fst (next_timestamp (100 + 7) tm2) = Z.min (umax 64) (42 + i)).
Proof.
  apply (set_next_then_next 100 7 42 (new 100 42));
    [ | split; vm_compute; discriminate | split; vm_compute; discriminate
    | vm_compute; discriminate .. ].
  constructor; simpl; [split; vm_compute; discriminate | by split | done | done].
Defined.

End TimeManager.
