(* ===== verification/Text.v ===== *)
(** * Text

    A Rust [String] is the list of its Unicode scalar values; [len] is the
    length of its UTF-8 encoding.  What the modelled code uses of [str]. *)
From S2P Require Import Prelude.
Local Open Scope Z_scope.

Abbreviation char := Z.
Abbreviation str := (list char).

(** A literal of ASCII characters. *)
Fixpoint lit (s : string) : str :=
  match s with
  | EmptyString => []
  | String c s => Z.of_N (N_of_ascii c) :: lit s
  end.

Definition len_utf8 (c : char) : Z :=
  if c <? 128 then 1 else if c <? 2048 then 2 else if c <? 65536 then 3 else 4.

Fixpoint str_len (s : str) : Z :=
  match s with [] => 0 | c :: s => len_utf8 c + str_len s end.

(** [char::is_whitespace], the property White_Space. *)
Definition is_whitespace (c : char) : bool :=
  (9 <=? c) && (c <=? 13) || (c =? 32) || (c =? 133) || (c =? 160) || (c =? 5760) ||
  (8192 <=? c) && (c <=? 8202) || (c =? 8232) || (c =? 8233) || (c =? 8239) || (c =? 8287) ||
  (c =? 12288).

Definition newline : char := 10.
Definition tab : char := 9.
Definition blank : char := 32.

(** [s.trim().is_empty()] *)
Definition trim_is_empty (s : str) : bool := forallb is_whitespace s.

Definition ends_with (c : char) (s : str) : bool := bool_decide (last s = Some c).

(** What follows the last occurrence of [c], everything when there is none. *)
Fixpoint after_last (c : char) (s : str) : str :=
  match s with
  | [] => []
  | x :: s' => if bool_decide (c ∈ s') then after_last c s'
               else if x =? c then s' else x :: s'
  end.

Fixpoint trim_start_matches (c : char) (s : str) : str :=
  match s with
  | x :: s' => if x =? c then trim_start_matches c s' else s
  | [] => []
  end.

Definition starts_with (p s : str) : bool := bool_decide (p `prefix_of` s).

(** [std::iter::repeat_n] *)
Definition repeat_n (c : char) (n : Z) : str := replicate (Z.to_nat n) c.

(** [char::from_digit] in lower case. *)
Definition digit_char (d : Z) : char := if d <? 10 then 48 + d else 87 + d.

(** The digits of [n], most significant first, in front of [acc]. *)
Fixpoint digits_acc (fuel : nat) (r n : Z) (acc : str) : str :=
  match fuel with
  | O => acc
  | S fuel =>
      let acc := digit_char (n mod r) :: acc in
      if n <? r then acc else digits_acc fuel r (n / r) acc
  end.
Definition digits (r n : Z) : str := digits_acc (S (S (Z.to_nat (Z.log2 n)))) r n [].
#[global] Arguments digits : simpl never.

(** [[..].join(sep)] *)
Fixpoint join (sep : str) (l : list str) : str :=
  match l with
  | [] => []
  | [s] => s
  | s :: l => s ++ sep ++ join sep l
  end.

Lemma len_utf8_pos c : 1 <= len_utf8 c.
Proof. unfold len_utf8. repeat z_case; lia. Qed.

Lemma str_len_nonneg s : 0 <= str_len s.
Proof. induction s as [|c s IH]; simpl; [lia|]. pose proof (len_utf8_pos c). lia. Qed.

Lemma str_len_app s t : str_len (s ++ t) = str_len s + str_len t.
Proof. induction s as [|c s IH]; simpl; lia. Qed.
#[export] Hint Resolve str_len_nonneg : rust.
#[export] Hint Rewrite str_len_app : rust.

Lemma after_last_skip c s t : c ∉ t → after_last c (s ++ c :: t) = t.
Proof.
  intros Ht. induction s as [|x s IH]; simpl.
  - rewrite bool_decide_eq_false_2 by done. by rewrite Z.eqb_refl.
  - rewrite bool_decide_eq_true_2 by (apply elem_of_app; right; left). done.
Qed.

Lemma after_last_absent c s : c ∉ s → after_last c s = s.
Proof.
  destruct s as [|x s]; [done|]. intros [Hx Hs]%not_elem_of_cons. simpl.
  rewrite bool_decide_eq_false_2 by done.
  destruct (Z.eqb_spec x c); [by subst|done].
Qed.
