(* ===== verification/PoolTx.v ===== *)
(** * Transactions of anvil's pool

    Models the data of [crates/anvil/src/eth/pool/transactions.rs] that both
    queues of the pool share: markers, priorities and pool transactions, and
    the way the RPC layer ([crates/anvil/src/eth/api.rs]) derives the markers
    of a transaction from its nonce and sender. *)
From S2P Require Import Prelude.
Local Open Scope Z_scope.

(** 32-byte hashes and 20-byte addresses, as their big-endian value. *)
Abbreviation TxHash := Z (only parsing).
Abbreviation Address := Z (only parsing).
Abbreviation TxMarker := (list Z) (only parsing).

(** The unique identifier of a [(nonce, sender)] pair: 8 little-endian bytes
    of the nonce, then the 20 bytes of the address. *)
Definition to_marker (nonce : Z) (from : Address) : TxMarker :=
  le_bytes 8 nonce ++ be_bytes 20 from.

(** [FoundryTxEnvelope] with the values that its accessors give for the variant:
    what the pool, the executor and the validation read of a transaction. *)
Inductive TxVariant := Legacy | Eip2930 | Eip1559 | Eip4844 | Eip7702 | Deposit | Tempo.
Record FoundryTxEnvelope := mkEnvelope {
  env_variant : TxVariant;
  env_ty : Z;                             (* u8 *)
  env_nonce : Z;                          (* u64 *)
  env_gas_limit : Z;                      (* u64 *)
  env_max_fee_per_gas : Z;                (* u128 *)
  env_max_priority_fee_per_gas : option Z;
  env_chain_id : option Z;                (* u64 *)
  env_to : option Z;                      (* None: a creation *)
  env_value : Z;                          (* U256 *)
  env_input_len : Z;                      (* usize *)
  env_blob_count : Z;                     (* blob hashes, of Eip4844 *)
  env_blob_gas_used : option Z;           (* u64 *)
  env_max_fee_per_blob_gas : option Z;    (* u128 *)
  env_mint : Z;                           (* u128, of Deposit *)
}.
(** An EIP-1559 transfer. *)
Definition transfer (nonce fee : Z) : FoundryTxEnvelope :=
  mkEnvelope Eip1559 2 nonce 21000 fee (Some 0) (Some 1) (Some 7) 0 0 0 None None 0.

Record PendingTransaction := {
  pt_transaction : FoundryTxEnvelope;
  pt_sender : Address;
  pt_hash : TxHash;
}.

Definition TransactionPriority := Z.

Inductive TransactionOrder := Fifo | Fees.

Definition TransactionOrder_priority (order : TransactionOrder) (tx : FoundryTxEnvelope)
    : TransactionPriority :=
  match order with
  | Fifo => 0
  | Fees => env_max_fee_per_gas tx
  end.

Definition TransactionOrder_from_str (s : string) : result string TransactionOrder :=
  let s := to_lowercase s in
  if decide (s = "fees"%string) then Ok Fees
  else if decide (s = "fifo"%string) then Ok Fifo
  else Err ("Unknown TransactionOrder: `" +:+ s +:+ "`")%string.

Record PoolTransaction := mkPoolTransaction {
  pending_transaction : PendingTransaction;
  requires : list TxMarker;
  provides : list TxMarker;
  priority : TransactionPriority;
}.

Definition PoolTransaction_new (transaction : PendingTransaction) : PoolTransaction :=
  {| pending_transaction := transaction; requires := []; provides := []; priority := 0 |}.

Definition hash (tx : PoolTransaction) : TxHash := pt_hash (pending_transaction tx).
Definition max_fee_per_gas (tx : PoolTransaction) : Z :=
  env_max_fee_per_gas (pt_transaction (pending_transaction tx)).
Definition tx_type (tx : PoolTransaction) : Z :=
  env_ty (pt_transaction (pending_transaction tx)).

Inductive PoolError :=
| CyclicTransaction
| ReplacementUnderpriced (tx : PoolTransaction)
| AlreadyImported (tx : PoolTransaction).

(** ** Markers from nonces, as the RPC layer computes them *)

Definition required_marker (provided_nonce on_chain_nonce : Z) (from : Address) : list TxMarker :=
  if provided_nonce =? on_chain_nonce then []
  else
    let prev_nonce := u_saturating_sub provided_nonce 1 in
    if on_chain_nonce <=? prev_nonce then [to_marker prev_nonce from] else [].

(** The pool transaction [send_transaction] and [eth_sendRawTransaction]
    submit for a transaction with this nonce. *)
Definition rpc_pool_transaction (order : TransactionOrder) (ptx : PendingTransaction)
    (nonce on_chain_nonce : Z) : PoolTransaction :=
  {| pending_transaction := ptx;
     requires := required_marker nonce on_chain_nonce (pt_sender ptx);
     provides := [to_marker nonce (pt_sender ptx)];
     priority := TransactionOrder_priority order (pt_transaction ptx) |}.

(** What the pool needs of the markers of a transaction: no marker is
    provided twice, and none is both provided and required. *)
Record markers_ok (tx : PoolTransaction) : Prop := {
  provides_nodup : NoDup (provides tx);
  provides_not_required : ∀ m, m ∈ provides tx → m ∉ requires tx;
}.

(** ** Lemmas *)

Lemma to_marker_length nonce from : length (to_marker nonce from) = 28%nat.
Proof.
  unfold to_marker, be_bytes. by rewrite length_app, length_rev, !le_bytes_length.
Qed.

(** The marker identifies the (nonce, sender) pair. *)
Lemma to_marker_inj n1 a1 n2 a2 :
  in_u 64 n1 → in_u 64 n2 → in_u 160 a1 → in_u 160 a2 →
  to_marker n1 a1 = to_marker n2 a2 → n1 = n2 ∧ a1 = a2.
Proof.
  unfold to_marker, in_u, umax. intros Hn1 Hn2 Ha1 Ha2 Heq.
  apply app_inj_1 in Heq as [Hn Ha]; [|by rewrite !le_bytes_length].
  split.
  - apply (le_bytes_inj 8); [..|done]; change (256 ^ Z.of_nat 8) with (2 ^ 64); lia.
  - apply (be_bytes_inj 20); [..|done]; change (256 ^ Z.of_nat 20) with (2 ^ 160); lia.
Qed.

(** The markers the RPC layer derives from a transaction's nonce are well
    formed, a transaction at or below the account's nonce requires nothing,
    and one above it requires exactly the marker of the previous nonce. *)
Theorem rpc_markers order ptx nonce on_chain :
  in_u 64 nonce → in_u 64 on_chain → in_u 160 (pt_sender ptx) →
  let tx := rpc_pool_transaction order ptx nonce on_chain in
  markers_ok tx ∧
  requires tx =
    (if nonce <=? on_chain then [] else [to_marker (nonce - 1) (pt_sender ptx)]).
Proof.
  intros Hn Ho Hs.
  assert (Hreq : required_marker nonce on_chain (pt_sender ptx) =
      (if nonce <=? on_chain then [] else [to_marker (nonce - 1) (pt_sender ptx)])).
  { unfold required_marker, u_saturating_sub, in_u in *.
    repeat z_case; try lia; try done. repeat f_equal; lia. }
  split; [|done]. simpl. constructor; simpl; [apply NoDup_singleton|].
  intros m ->%list_elem_of_singleton. rewrite Hreq. z_case; [apply not_elem_of_nil|].
  intros Hm%list_elem_of_singleton. apply to_marker_inj in Hm; unfold in_u in *; lia.
Qed.

Lemma rpc_markers_witness :
  let ptx := {| pt_transaction := transfer 7 5;
                pt_sender := 255; pt_hash := 1 |} in
  let tx := rpc_pool_transaction Fees ptx 7 3 in
  markers_ok tx ∧ requires tx = (if 7 <=? 3 then [] else [to_marker (7 - 1) 255]).
Proof.
  apply (rpc_markers Fees {| pt_transaction := transfer 7 5;
    pt_sender := 255; pt_hash := 1 |} 7 3); vm_compute; split; discriminate.
Defined.
