(* ===== verification/PendingPool.v ===== *)
(** * Transactions waiting for their markers

    Models [PendingPoolTransaction] and [PendingTransactions] of
    [crates/anvil/src/eth/pool/transactions.rs]: the queue of transactions
    that still require markers, and the index from a missing marker to the
    transactions that wait for it.  The insertion instant is not modelled. *)
From S2P Require Import Prelude PoolTx.

Record PendingPoolTransaction := mkPendingPoolTransaction {
  transaction : PoolTransaction;
  missing_markers : gset TxMarker;
}.

Definition PendingPoolTransaction_new (tx : PoolTransaction)
    (provided : gmap TxMarker TxHash) : PendingPoolTransaction :=
  {| transaction := tx;
     missing_markers := list_to_set (filter (λ marker, provided !! marker = None) (requires tx)) |}.

(** Removes the required marker. *)
Definition mark (marker : TxMarker) (tx : PendingPoolTransaction) : PendingPoolTransaction :=
  {| transaction := transaction tx; missing_markers := missing_markers tx ∖ {[marker]} |}.

Definition is_ready (tx : PendingPoolTransaction) : bool :=
  bool_decide (missing_markers tx = ∅).

Record PendingTransactions := mkPendingTransactions {
  required_markers : gmap TxMarker (gset TxHash);
  waiting_markers : gmap (list TxMarker) TxHash;
  waiting_queue : gmap TxHash PendingPoolTransaction;
}.

Definition set_required_markers r (p : PendingTransactions) : PendingTransactions :=
  {| required_markers := r; waiting_markers := waiting_markers p; waiting_queue := waiting_queue p |}.
Definition set_waiting_queue q (p : PendingTransactions) : PendingTransactions :=
  {| required_markers := required_markers p; waiting_markers := waiting_markers p; waiting_queue := q |}.

Definition pending_default : PendingTransactions :=
  {| required_markers := ∅; waiting_markers := ∅; waiting_queue := ∅ |}.

Module PendingTransactions.

Definition len (p : PendingTransactions) : nat := size (waiting_queue p).
Definition is_empty (p : PendingTransactions) : bool := bool_decide (waiting_queue p = ∅).
Definition clear (p : PendingTransactions) : PendingTransactions := pending_default.

Definition contains (h : TxHash) (p : PendingTransactions) : bool :=
  bool_decide (is_Some (waiting_queue p !! h)).
Definition get (h : TxHash) (p : PendingTransactions) : option PendingPoolTransaction :=
  waiting_queue p !! h.

(** [entry(marker).or_default().insert(hash)] for every missing marker. *)
Definition require (h : TxHash) (marker : TxMarker) (r : gmap TxMarker (gset TxHash))
    : gmap TxMarker (gset TxHash) :=
  <[marker := {[h]} ∪ default ∅ (r !! marker)]> r.

(** The transaction the new one would replace, if it is underpriced. *)
Definition underpriced (tx : PendingPoolTransaction) (p : PendingTransactions) : bool :=
  match waiting_markers p !! provides (transaction tx) ≫= λ h, waiting_queue p !! h with
  | Some replace =>
      (max_fee_per_gas (transaction tx) <? max_fee_per_gas (transaction replace))%Z
  | None => false
  end.

Section hash_order.
Context `{HashIter}.

(** All transactions in the waiting pool, in the map's iteration order. *)
Definition transactions (p : PendingTransactions) : list PoolTransaction :=
  omap (λ h, transaction <$> waiting_queue p !! h) (hash_iter (dom (waiting_queue p))).

Definition add_transaction (tx : PendingPoolTransaction) (p : PendingTransactions)
    : option (result PoolError unit * PendingTransactions) :=
  let h := hash (transaction tx) in
  if is_ready tx then None                   (* assert!(!tx.is_ready()) *)
  else if contains h p then None             (* assert!: already added *)
  else if underpriced tx p then
    Some (Err (ReplacementUnderpriced (transaction tx)), p)
  else
    Some (Ok tt,
      {| required_markers :=
           foldl (λ r marker, require h marker r) (required_markers p)
             (hash_iter (missing_markers tx));
         waiting_markers := <[provides (transaction tx) := h]> (waiting_markers p);
         waiting_queue := <[h := tx]> (waiting_queue p) |}).

(** One waiting transaction gets a marker; it leaves the queue if it was
    the last it missed. *)
Definition unlock_one (marker : TxMarker)
    (s : PendingTransactions * list PendingPoolTransaction) (h : TxHash)
    : option (PendingTransactions * list PendingPoolTransaction) :=
  let '(p, unlocked_ready) := s in
  tx ← waiting_queue p !! h;                 (* expect("tx is included;") *)
  let tx := mark marker tx in
  if is_ready tx then
    Some ({| required_markers := required_markers p;
             waiting_markers := delete (provides (transaction tx)) (waiting_markers p);
             waiting_queue := delete h (waiting_queue p) |},
          unlocked_ready ++ [tx])
  else Some (set_waiting_queue (<[h := tx]> (waiting_queue p)) p, unlocked_ready).

Definition unlock_marker (s : PendingTransactions * list PendingPoolTransaction)
    (marker : TxMarker) : option (PendingTransactions * list PendingPoolTransaction) :=
  let '(p, unlocked_ready) := s in
  match required_markers p !! marker with
  | None => Some s
  | Some tx_hashes =>
      let p := set_required_markers (delete marker (required_markers p)) p in
      fold_opt (unlock_one marker) (p, unlocked_ready) (hash_iter tx_hashes)
  end.

Definition mark_and_unlock (markers : list TxMarker) (p : PendingTransactions)
    : option (PendingTransactions * list PendingPoolTransaction) :=
  fold_opt unlock_marker (p, []) markers.

(** Takes [h] out of the set that waits for [marker]. *)
Definition unrequire (h : TxHash) (r : gmap TxMarker (gset TxHash)) (marker : TxMarker)
    : gmap TxMarker (gset TxHash) :=
  match r !! marker with
  | Some required =>
      let required := required ∖ {[h]} in
      let r := <[marker := required]> r in
      if decide (required = ∅) then delete marker r else r
  | None => r
  end.

Definition remove_one (s : PendingTransactions * list PoolTransaction) (h : TxHash)
    : PendingTransactions * list PoolTransaction :=
  let '(p, removed) := s in
  match waiting_queue p !! h with
  | Some waiting_tx =>
      ({| waiting_queue := delete h (waiting_queue p);
          waiting_markers := delete (provides (transaction waiting_tx)) (waiting_markers p);
          required_markers :=
            foldl (unrequire h) (required_markers p) (hash_iter (missing_markers waiting_tx)) |},
       removed ++ [transaction waiting_tx])
  | None => s
  end.

Definition remove (hashes : list TxHash) (p : PendingTransactions)
    : PendingTransactions * list PoolTransaction :=
  foldl remove_one (p, []) hashes.

(** ** The invariant of the queue

    The index is exact: a hash is listed under a marker if and only if its
    transaction waits for that marker, and no index entry is empty. *)
Definition waits_for (p : PendingTransactions) (h : TxHash) (m : TxMarker) : Prop :=
  ∃ tx, waiting_queue p !! h = Some tx ∧ m ∈ missing_markers tx.

Record inv (p : PendingTransactions) : Prop := {
  inv_index : ∀ m h, h ∈ default ∅ (required_markers p !! m) ↔ waits_for p h m;
  inv_nonempty : ∀ m hs, required_markers p !! m = Some hs → hs ≠ ∅;
  inv_queue : ∀ h tx, waiting_queue p !! h = Some tx →
    hash (transaction tx) = h ∧ missing_markers tx ≠ ∅;
  inv_waiting : ∀ ps h, waiting_markers p !! ps = Some h →
    ∃ tx, waiting_queue p !! h = Some tx ∧ provides (transaction tx) = ps;
}.

(** ** The index *)

Lemma elem_of_require h ms r m h' :
  h' ∈ default ∅ (foldl (λ r marker, require h marker r) r ms !! m) ↔
  h' ∈ default ∅ (r !! m) ∨ (h' = h ∧ m ∈ ms).
Proof.
  revert r. induction ms as [|m0 ms IH]; intros r; simpl; [set_solver|].
  rewrite IH. unfold require. rewrite lookup_insert.
  case_decide; subst; simpl; set_solver.
Qed.

Lemma require_nonempty h ms r :
  (∀ m hs, r !! m = Some hs → hs ≠ ∅) →
  ∀ m hs, foldl (λ r marker, require h marker r) r ms !! m = Some hs → hs ≠ ∅.
Proof.
  revert r. induction ms as [|m0 ms IH]; intros r Hr; simpl; [done|].
  apply IH. intros m hs. unfold require. rewrite lookup_insert.
  case_decide; [intros [= <-]; set_solver|by apply Hr].
Qed.

Lemma elem_of_unrequire h ms r m h' :
  h' ∈ default ∅ (foldl (unrequire h) r ms !! m) ↔
  h' ∈ default ∅ (r !! m) ∧ ¬ (h' = h ∧ m ∈ ms).
Proof.
  revert r. induction ms as [|m0 ms IH]; intros r; simpl; [set_solver|].
  rewrite IH. unfold unrequire.
  destruct (r !! m0) as [hs|] eqn:Hm0; simpl.
  - case_decide as He; [rewrite delete_insert_eq, lookup_delete|rewrite lookup_insert];
      (destruct (decide (m0 = m)) as [<-|]; simpl; rewrite ?Hm0; simpl; set_solver).
  - destruct (decide (m = m0)) as [->|]; [rewrite Hm0; simpl|]; set_solver.
Qed.

Lemma unrequire_nonempty h ms r :
  (∀ m hs, r !! m = Some hs → hs ≠ ∅) →
  ∀ m hs, foldl (unrequire h) r ms !! m = Some hs → hs ≠ ∅.
Proof.
  revert r. induction ms as [|m0 ms IH]; intros r Hr; simpl; [done|].
  apply IH. intros m hs. unfold unrequire.
  destruct (r !! m0) as [hs0|]; [|apply Hr].
  case_decide; [rewrite delete_insert_eq, lookup_delete|rewrite lookup_insert];
    case_decide; naive_solver.
Qed.

(** ** Handing out markers *)

(** The waiting transaction after it got the markers [ms]. *)
Definition mark_all (ms : list TxMarker) (tx : PendingPoolTransaction) : PendingPoolTransaction :=
  {| transaction := transaction tx; missing_markers := missing_markers tx ∖ list_to_set ms |}.

(** What stays in the queue of it, and what leaves. *)
Definition still_waiting (ms : list TxMarker) (tx : PendingPoolTransaction) :=
  if is_ready (mark_all ms tx) then None else Some (mark_all ms tx).
Definition now_ready (ms : list TxMarker) (tx : PendingPoolTransaction) :=
  if is_ready (mark_all ms tx) then Some (mark_all ms tx) else None.

Lemma is_ready_true tx : is_ready tx = true ↔ missing_markers tx = ∅.
Proof. apply bool_decide_eq_true. Qed.
Lemma is_ready_false tx : is_ready tx = false ↔ missing_markers tx ≠ ∅.
Proof. apply bool_decide_eq_false. Qed.

Lemma mark_all_nil tx : mark_all [] tx = tx.
Proof. unfold mark_all. destruct tx; simpl. by rewrite difference_empty_L. Qed.

Lemma mark_is_mark_all m tx : mark m tx = mark_all [m] tx.
Proof. unfold mark, mark_all. simpl. f_equal. set_solver. Qed.

Lemma mark_all_cons m ms tx : mark_all (m :: ms) tx = mark_all ms (mark_all [m] tx).
Proof. unfold mark_all. simpl. f_equal. set_solver. Qed.

Lemma mark_all_irrelevant m tx : m ∉ missing_markers tx → mark_all [m] tx = tx.
Proof.
  intros. unfold mark_all. destruct tx; simpl in *. f_equal. set_solver.
Qed.

Lemma still_waiting_cons m ms tx :
  still_waiting (m :: ms) tx = still_waiting [m] tx ≫= still_waiting ms.
Proof.
  unfold still_waiting. rewrite mark_all_cons.
  destruct (is_ready (mark_all [m] tx)) eqn:Hr; simpl; [|done].
  apply is_ready_true in Hr.
  assert (is_ready (mark_all ms (mark_all [m] tx)) = true) as ->; [|done].
  apply is_ready_true. unfold mark_all in *; simpl in *. set_solver.
Qed.

(** A transaction becomes ready with the first marker or with a later one. *)
Lemma now_ready_cons m ms tx tx' :
  now_ready (m :: ms) tx = Some tx' ↔
  now_ready [m] tx = Some tx' ∨
  ∃ tx1, still_waiting [m] tx = Some tx1 ∧ now_ready ms tx1 = Some tx'.
Proof.
  unfold now_ready, still_waiting. rewrite mark_all_cons.
  destruct (is_ready (mark_all [m] tx)) eqn:Hr; [|naive_solver].
  assert (mark_all ms (mark_all [m] tx) = mark_all [m] tx) as ->.
  { apply is_ready_true in Hr. unfold mark_all in *; simpl in *. f_equal. set_solver. }
  rewrite Hr. naive_solver.
Qed.

(** Every identifying marker list leads to a transaction of the queue. *)
Definition waiting_ok (p : PendingTransactions) : Prop := ∀ ps h,
  waiting_markers p !! ps = Some h →
  ∃ tx, waiting_queue p !! h = Some tx ∧ provides (transaction tx) = ps.

Lemma unlock_one_spec m p out h tx :
  waiting_queue p !! h = Some tx → waiting_ok p →
  ∃ p1, unlock_one m (p, out) h =
      Some (p1, out ++ match now_ready [m] tx with Some t => [t] | None => [] end) ∧
    required_markers p1 = required_markers p ∧
    (∀ h', waiting_queue p1 !! h' =
       if decide (h' = h) then still_waiting [m] tx else waiting_queue p !! h') ∧
    waiting_ok p1.
Proof.
  intros Htx Hw. unfold unlock_one. rewrite Htx. simpl.
  rewrite mark_is_mark_all. unfold now_ready, still_waiting.
  destruct (is_ready (mark_all [m] tx)); eexists; (split; [rewrite ?app_nil_r; done|]);
    simpl; (split; [done|]); split.
  - intros h'. rewrite lookup_delete. repeat case_decide; naive_solver.
  - intros ps h'. simpl. rewrite lookup_delete. case_decide as Hps; [done|].
    intros (tx' & Htx' & Hp)%Hw. exists tx'. split; [|done].
    rewrite lookup_delete_ne; [done|]. naive_solver.
  - intros h'. rewrite lookup_insert. repeat case_decide; naive_solver.
  - intros ps h' (tx' & Htx' & Hp)%Hw. simpl. rewrite lookup_insert.
    case_decide; subst; [|eauto]. simplify_eq. eauto.
Qed.

Lemma unlock_loop m hs p out :
  NoDup hs → (∀ h, h ∈ hs → is_Some (waiting_queue p !! h)) → waiting_ok p →
  ∃ p', fold_opt (unlock_one m) (p, out) hs =
      Some (p', out ++ omap (λ h, waiting_queue p !! h ≫= now_ready [m]) hs) ∧
    required_markers p' = required_markers p ∧
    (∀ h, waiting_queue p' !! h =
       if decide (h ∈ hs) then waiting_queue p !! h ≫= still_waiting [m]
       else waiting_queue p !! h) ∧
    waiting_ok p'.
Proof.
  revert p out. induction hs as [|h hs IH]; intros p out Hnd Hin Hw.
  { exists p. simpl. by rewrite app_nil_r. }
  apply NoDup_cons in Hnd as [Hh Hnd].
  destruct (Hin h) as [tx Htx]; [left|].
  cbn [fold_opt].
  destruct (unlock_one_spec m p out h tx) as (p1 & -> & Hr1 & Hq1 & Hw1); [done..|].
  assert (Hne : ∀ h', h' ∈ hs → waiting_queue p1 !! h' = waiting_queue p !! h').
  { intros h' ?. rewrite Hq1. case_decide; [by subst|done]. }
  cbn [mbind option_bind].
  edestruct (IH p1) as (p' & -> & Hr & Hq & Hw'); [done| |done|].
  { intros h' Hh'. rewrite Hne by done. apply Hin. by right. }
  exists p'. split_and!; [|congruence| |done].
  - rewrite <-app_assoc. do 3 f_equal.
    rewrite (omap_ext_in _ (λ h, waiting_queue p !! h ≫= now_ready [m]))
      by (intros h' ?; by rewrite Hne).
    simpl. rewrite Htx. simpl. by destruct (now_ready [m] tx).
  - intros h'. rewrite Hq, Hq1. destruct (decide (h' = h)) as [->|].
    + rewrite (decide_False (P := h ∈ hs)), (decide_True (P := h ∈ h :: hs)), Htx by first [done|left].
      done.
    + pose proof (elem_of_cons hs h' h). repeat case_decide; naive_solver.
Qed.

(** ** [mark_and_unlock] *)

(** What handing out one marker or a list of markers does to the queue. *)
Record unlocks (ms : list TxMarker) (p p' : PendingTransactions)
    (new : list PendingPoolTransaction) : Prop := {
  unlocks_inv : inv p';
  unlocks_queue h : waiting_queue p' !! h = waiting_queue p !! h ≫= still_waiting ms;
  unlocks_new tx' : tx' ∈ new ↔ ∃ h tx, waiting_queue p !! h = Some tx ∧ now_ready ms tx = Some tx';
  unlocks_nodup : NoDup ((hash ∘ transaction) <$> new);
  unlocks_required m : required_markers p' !! m =
    if decide (m ∈ ms) then None else required_markers p !! m;
}.

Lemma not_waiting_still p m :
  inv p → required_markers p !! m = None → ∀ h tx,
  waiting_queue p !! h = Some tx → m ∉ missing_markers tx.
Proof.
  intros Hi Hm h tx Htx Hin.
  assert (h ∈ default ∅ (required_markers p !! m)) as Hh by (apply Hi; by exists tx).
  rewrite Hm in Hh. set_solver.
Qed.

Lemma still_waiting_irrelevant m tx :
  missing_markers tx ≠ ∅ → m ∉ missing_markers tx →
  still_waiting [m] tx = Some tx ∧ now_ready [m] tx = None.
Proof.
  intros. unfold still_waiting, now_ready. rewrite mark_all_irrelevant by done.
  assert (is_ready tx = false) as -> by by apply is_ready_false. done.
Qed.

Lemma now_ready_hash ms tx tx' : now_ready ms tx = Some tx' → transaction tx' = transaction tx.
Proof. unfold now_ready. case_match; naive_solver. Qed.

Lemma still_waiting_Some ms tx tx' :
  still_waiting ms tx = Some tx' ↔ tx' = mark_all ms tx ∧ missing_markers tx' ≠ ∅.
Proof.
  unfold still_waiting. destruct (is_ready (mark_all ms tx)) eqn:Hr.
  - apply is_ready_true in Hr. naive_solver.
  - apply is_ready_false in Hr. naive_solver.
Qed.

Lemma unlock_marker_inv m p q :
  inv p → waiting_ok q →
  required_markers q = delete m (required_markers p) →
  (∀ h, waiting_queue q !! h = waiting_queue p !! h ≫= still_waiting [m]) →
  inv q.
Proof.
  intros Hi Hw Hr Hq. constructor.
  - intros m' h. rewrite Hr, lookup_delete. case_decide as Hm.
    + subst m'. split; [set_solver|]. intros (tx & Htx & Hin). rewrite Hq in Htx.
      apply bind_Some in Htx as (tx0 & _ & [-> _]%still_waiting_Some).
      unfold mark_all in Hin. set_solver.
    + rewrite (inv_index _ Hi). unfold waits_for. setoid_rewrite Hq. split.
      * intros (tx & Htx & Hin). exists (mark_all [m] tx). rewrite Htx. simpl.
        assert (m' ∈ missing_markers (mark_all [m] tx)) by (simpl; set_solver).
        split; [|done]. apply still_waiting_Some. split; [done|set_solver].
      * intros (tx & (tx0 & Htx0 & [-> _]%still_waiting_Some)%bind_Some & Hin).
        exists tx0. split; [done|]. simpl in Hin. set_solver.
  - intros m' hs. rewrite Hr, lookup_delete. case_decide; [done|]. apply Hi.
  - intros h tx. rewrite Hq. intros (tx0 & Htx0 & [-> Hne]%still_waiting_Some)%bind_Some.
    split; [|done]. by apply Hi in Htx0 as [? _].
  - done.
Qed.

Lemma unlock_marker_spec m p out :
  inv p →
  ∃ p' new, unlock_marker (p, out) m = Some (p', out ++ new) ∧ unlocks [m] p p' new.
Proof.
  intros Hi. unfold unlock_marker.
  destruct (required_markers p !! m) as [hs|] eqn:Hm.
  - assert (Hin : ∀ h, h ∈ hash_iter hs ↔ waits_for p h m).
    { intros h. rewrite elem_of_hash_iter, <-(inv_index _ Hi), Hm. done. }
    edestruct (unlock_loop m (hash_iter hs)
      (set_required_markers (delete m (required_markers p)) p) out)
      as (p' & -> & Hr & Hq & Hw).
    { apply NoDup_hash_iter. }
    { intros h (tx & Htx & _)%Hin. simpl. eauto. }
    { intros ps h ?. by apply (inv_waiting _ Hi). }
    simpl in Hr, Hq.
    assert (Hq' : ∀ h, waiting_queue p' !! h = waiting_queue p !! h ≫= still_waiting [m]).
    { intros h. rewrite Hq. case_decide as Hd; [done|].
      destruct (waiting_queue p !! h) as [tx|] eqn:Htx; [|done]. simpl.
      apply (inv_queue _ Hi) in Htx as Hne. destruct Hne as [_ Hne].
      edestruct (still_waiting_irrelevant m tx) as [-> _]; [done| |done].
      intros ?. apply Hd, Hin. by exists tx. }
    eexists p', _. split; [done|]. constructor; [|done| | |].
    + by eapply unlock_marker_inv.
    + intros tx'. rewrite list_elem_of_omap. simpl. setoid_rewrite Hin. split.
      * intros (h & _ & (tx & ? & ?)%bind_Some). eauto.
      * intros (h & tx & Htx & Hn). exists h. rewrite Htx. split; [|done].
        exists tx. split; [done|].
        apply (inv_queue _ Hi) in Htx as [_ Hne].
        destruct (decide (m ∈ missing_markers tx)); [done|].
        edestruct (still_waiting_irrelevant m tx); [done..|]. congruence.
    + eapply sublist_NoDup; [|apply fmap_omap_sublist]; [apply NoDup_hash_iter|].
      intros h tx' (tx & Htx & Hn)%bind_Some. simpl.
      apply now_ready_hash in Hn as ->. by apply (inv_queue _ Hi) in Htx as [? _].
    + intros m'. rewrite Hr, lookup_delete. repeat case_decide; set_solver.
  - exists p, []. rewrite app_nil_r. split; [done|].
    pose proof (not_waiting_still _ _ Hi Hm) as Hn.
    constructor; [done| | |constructor|].
    + intros h. destruct (waiting_queue p !! h) as [tx|] eqn:Htx; [|done]. simpl.
      symmetry. eapply still_waiting_irrelevant; [by eapply Hi|by eapply Hn].
    + intros tx'. split; [by intros ?%not_elem_of_nil|]. intros (h & tx & Htx & Hnow).
      edestruct (still_waiting_irrelevant m tx); [by eapply Hi|by eapply Hn|]. congruence.
    + intros m'. case_decide; [|done]. set_solver.
Qed.

Lemma mark_and_unlock_loop ms p out :
  inv p →
  ∃ p' new, fold_opt unlock_marker (p, out) ms = Some (p', out ++ new) ∧ unlocks ms p p' new.
Proof.
  revert p out. induction ms as [|m ms IH]; intros p out Hi.
  { exists p, []. rewrite app_nil_r. split; [done|].
    assert (Hs : ∀ h tx, waiting_queue p !! h = Some tx →
                 still_waiting [] tx = Some tx ∧ now_ready [] tx = None).
    { intros h tx [_ Hne]%(inv_queue _ Hi). unfold still_waiting, now_ready.
      rewrite mark_all_nil. by apply is_ready_false in Hne as ->. }
    constructor; [done| | |constructor|].
    - intros h. destruct (waiting_queue p !! h) as [tx|] eqn:Htx; [|done]. simpl.
      symmetry. by apply (Hs h).
    - intros tx'. split; [by intros ?%not_elem_of_nil|].
      intros (h & tx & Htx & ?). apply Hs in Htx as []. congruence.
    - intros m. case_decide; [set_solver|done]. }
  cbn [fold_opt].
  destruct (unlock_marker_spec m p out Hi) as (p1 & n1 & -> & [Hi1 Hq1 Hn1 Hd1 Hr1]).
  cbn [mbind option_bind].
  destruct (IH p1 (out ++ n1) Hi1) as (p2 & n2 & -> & [Hi2 Hq2 Hn2 Hd2 Hr2]).
  exists p2, (n1 ++ n2). rewrite app_assoc. split; [done|]. constructor.
  - done.
  - intros h. rewrite Hq2, Hq1. destruct (waiting_queue p !! h); simpl; [|done].
    symmetry. apply still_waiting_cons.
  - intros tx'. rewrite elem_of_app, Hn1, Hn2. split.
    + intros [(h & tx & ? & ?)|(h & tx1 & Htx1 & ?)].
      * exists h, tx. split; [done|]. apply now_ready_cons. by left.
      * rewrite Hq1 in Htx1. apply bind_Some in Htx1 as (tx & ? & ?).
        exists h, tx. split; [done|]. apply now_ready_cons. eauto.
    + intros (h & tx & Htx & [?|(tx1 & ? & ?)]%now_ready_cons); [by left; eauto|].
      right. exists h, tx1. rewrite Hq1, Htx. done.
  - rewrite fmap_app. apply NoDup_app. split_and!; [done| |done].
    intros h (t1 & -> & (h1 & tx1 & Htx1 & Hr)%Hn1)%list_elem_of_fmap
      (t2 & He & (h2 & tx2 & Htx2 & Hr')%Hn2)%list_elem_of_fmap. simpl in He.
    apply now_ready_hash in Hr as Ht1. apply now_ready_hash in Hr' as Ht2.
    pose proof (inv_queue _ Hi _ _ Htx1) as [Hh1 _].
    pose proof (inv_queue _ Hi1 _ _ Htx2) as [Hh2 _].
    assert (h1 = h2) as <- by congruence.
    rewrite Hq1, Htx1 in Htx2. simpl in Htx2.
    apply still_waiting_Some in Htx2 as [-> Hne].
    unfold now_ready in Hr. destruct (is_ready (mark_all [m] tx1)) eqn:Hrd; [|done].
    by apply is_ready_true in Hrd.
  - intros m'. rewrite Hr2, Hr1. repeat case_decide; set_solver.
Qed.

Lemma mark_and_unlock_unlocks ms p :
  inv p → ∃ p' new, mark_and_unlock ms p = Some (p', new) ∧ unlocks ms p p' new.
Proof. apply mark_and_unlock_loop. Qed.


(** The hashes that leave the queue, and their number. *)
Lemma unlocks_hashes ms p q new h :
  inv p → unlocks ms p q new →
  h ∈ (hash ∘ transaction) <$> new ↔
  ∃ tx, waiting_queue p !! h = Some tx ∧ now_ready ms tx ≠ None.
Proof.
  intros Hi Hu. rewrite list_elem_of_fmap. setoid_rewrite (unlocks_new _ _ _ _ Hu). split.
  - intros (t & -> & h' & tx & Htx & Hn). exists tx. simpl.
    rewrite (now_ready_hash _ _ _ Hn). apply (inv_queue _ Hi) in Htx as Hh.
    destruct Hh as [-> _]. by rewrite Hn.
  - intros (tx & Htx & Hn). destruct (now_ready ms tx) as [t|] eqn:Ht; [|done].
    exists t. simpl. rewrite (now_ready_hash _ _ _ Ht).
    apply (inv_queue _ Hi) in Htx as Hh. destruct Hh as [-> _]. eauto.
Qed.

Lemma still_waiting_now_ready ms tx : still_waiting ms tx = None ↔ now_ready ms tx ≠ None.
Proof. unfold still_waiting, now_ready. by destruct (is_ready _). Qed.

Lemma unlocks_size ms p q new :
  inv p → unlocks ms p q new →
  length new + size (waiting_queue q) = size (waiting_queue p).
Proof.
  intros Hi Hu. set (ns := list_to_set ((hash ∘ transaction) <$> new) : gset Z).
  assert (Hns : ∀ h, h ∈ ns ↔ ∃ tx, waiting_queue p !! h = Some tx ∧ now_ready ms tx ≠ None).
  { intros h. unfold ns. by rewrite elem_of_list_to_set, (unlocks_hashes ms p q). }
  assert (Hsz : size ns = length new).
  { unfold ns. rewrite size_list_to_set by apply Hu. apply length_fmap. }
  assert (Hdom : dom (waiting_queue q) = dom (waiting_queue p) ∖ ns).
  { apply set_eq. intros h. rewrite elem_of_difference, !elem_of_dom, Hns.
    rewrite (unlocks_queue _ _ _ _ Hu).
    destruct (waiting_queue p !! h) as [tx|] eqn:Htx; simpl; [|rewrite is_Some_alt; naive_solver].
    pose proof (still_waiting_now_ready ms tx). destruct (still_waiting ms tx); naive_solver. }
  assert (Hsub : ns ⊆ dom (waiting_queue p)).
  { intros h (tx & ? & _)%Hns. apply elem_of_dom. by exists tx. }
  rewrite <-!size_dom, Hdom, size_difference by done.
  apply subseteq_size in Hsub. lia.
Qed.

(** Markers nobody waits for change nothing. *)
Lemma mark_and_unlock_none ms p :
  (∀ m, m ∈ ms → required_markers p !! m = None) → mark_and_unlock ms p = Some (p, []).
Proof.
  unfold mark_and_unlock. induction ms as [|m ms IH]; intros Hm; [done|].
  cbn [fold_opt unlock_marker]. rewrite Hm by left. cbn [mbind option_bind].
  apply IH. intros. apply Hm. by right.
Qed.

(** ** [add_transaction] and [remove] *)

Lemma contains_false h p : contains h p = false ↔ waiting_queue p !! h = None.
Proof. unfold contains. rewrite bool_decide_eq_false, eq_None_not_Some. done. Qed.

Lemma pending_inv_default : inv pending_default.
Proof.
  constructor; simpl; [|intros ?? Hl; by rewrite lookup_empty in Hl..].
  intros m h. rewrite lookup_empty. simpl. split; [set_solver|].
  intros (tx & Htx & _). simpl in Htx. by rewrite lookup_empty in Htx.
Qed.

Lemma pending_add_spec tx p :
  inv p → is_ready tx = false → contains (hash (transaction tx)) p = false →
  ∃ r p', add_transaction tx p = Some (r, p') ∧ inv p' ∧
    match r with
    | Ok _ => waiting_queue p' = <[hash (transaction tx) := tx]> (waiting_queue p)
    | Err e => p' = p ∧ e = ReplacementUnderpriced (transaction tx)
    end.
Proof.
  intros Hi Hr Hc. unfold add_transaction. rewrite Hr, Hc.
  destruct (underpriced tx p); [by eexists _, _|].
  eexists _, _. split; [done|]. split; [|done].
  apply contains_false in Hc. apply is_ready_false in Hr. constructor; simpl.
  - intros m h. rewrite elem_of_require, elem_of_hash_iter, (inv_index _ Hi).
    unfold waits_for. simpl. setoid_rewrite lookup_insert. split.
    + intros [(t & Ht & ?)|[-> ?]].
      * exists t. rewrite decide_False; [done|congruence].
      * exists tx. by rewrite decide_True.
    + intros (t & Ht & ?). case_decide; [right|left]; naive_solver.
  - apply require_nonempty, Hi.
  - intros h t. rewrite lookup_insert. case_decide; [|apply Hi]. naive_solver.
  - intros ps h. rewrite !lookup_insert. case_decide as Hps.
    + intros [= <-]. rewrite decide_True by done. eauto.
    + intros Hp. destruct (inv_waiting _ Hi _ _ Hp) as (t & Ht & ?).
      rewrite decide_False by congruence. eauto.
Qed.

Lemma remove_one_spec p out h :
  inv p →
  ∃ p', remove_one (p, out) h =
      (p', out ++ match waiting_queue p !! h with Some tx => [transaction tx] | None => [] end) ∧
    inv p' ∧ waiting_queue p' = delete h (waiting_queue p) ∧
    (∀ m, required_markers p !! m = None → required_markers p' !! m = None).
Proof.
  intros Hi. unfold remove_one. destruct (waiting_queue p !! h) as [tx|] eqn:Htx; last first.
  { exists p. rewrite app_nil_r, delete_id; done. }
  eexists. split; [done|]. simpl.
  assert (Hidx : ∀ m h', h' ∈ default ∅
      (foldl (unrequire h) (required_markers p) (hash_iter (missing_markers tx)) !! m) ↔
      h' ≠ h ∧ waits_for p h' m).
  { intros m h'. rewrite elem_of_unrequire, elem_of_hash_iter, (inv_index _ Hi).
    unfold waits_for. split; [|naive_solver].
    intros [(t & Ht & ?) Hn]. split; [|eauto]. intros ->. simplify_eq. by apply Hn. }
  assert (Hne := unrequire_nonempty h (hash_iter (missing_markers tx)) _ (inv_nonempty _ Hi)).
  split_and!; [constructor; simpl|done|].
  - intros m h'. rewrite Hidx. unfold waits_for; simpl. setoid_rewrite lookup_delete.
    split.
    + intros (? & t & ? & ?). exists t. by rewrite decide_False by congruence.
    + intros (t & Ht & ?). case_decide; naive_solver.
  - done.
  - intros h' t. rewrite lookup_delete. case_decide; [done|apply Hi].
  - intros ps h'. rewrite lookup_delete. case_decide as Hps; [done|].
    intros (t & Ht & ?)%(inv_waiting _ Hi). exists t. split; [|done].
    rewrite lookup_delete_ne by naive_solver. done.
  - intros m Hm. destruct (foldl _ _ _ !! m) as [hs|] eqn:Hhs; [|done].
    destruct (Hne _ _ Hhs). apply set_eq. intros h'. specialize (Hidx m h').
    rewrite Hhs in Hidx. simpl in Hidx. rewrite Hidx, <-(inv_index _ Hi), Hm. set_solver.
Qed.

Lemma remove_loop hs p out :
  inv p →
  ∃ p' new, foldl remove_one (p, out) hs = (p', out ++ new) ∧ inv p' ∧
    (∀ h, waiting_queue p' !! h = if decide (h ∈ hs) then None else waiting_queue p !! h) ∧
    (∀ t, t ∈ new ↔ ∃ h tx, h ∈ hs ∧ waiting_queue p !! h = Some tx ∧ t = transaction tx) ∧
    (∀ m, required_markers p !! m = None → required_markers p' !! m = None).
Proof.
  revert p out. induction hs as [|h hs IH]; intros p out Hi.
  { exists p, []. simpl. rewrite app_nil_r. split_and!; try done; [].
    intros t. split; [by intros ?%not_elem_of_nil|]. by intros (? & ? & ?%not_elem_of_nil & _). }
  cbn [foldl]. destruct (remove_one_spec p out h Hi) as (p1 & -> & Hi1 & Hq1 & Hr1).
  destruct (IH p1 (out ++ match waiting_queue p !! h with
                    | Some tx => [transaction tx] | None => [] end) Hi1)
    as (p2 & new & -> & Hi2 & Hq2 & Hn2 & Hr2).
  eexists p2, _. rewrite <-app_assoc. split_and!; [done|done| | |auto].
  - intros h'. rewrite Hq2, Hq1, lookup_delete. pose proof (elem_of_cons hs h' h).
    repeat case_decide; naive_solver.
  - intros t. rewrite elem_of_app, Hn2, Hq1. setoid_rewrite elem_of_cons.
    setoid_rewrite lookup_delete. split.
    + intros [Ht|(h' & tx & ? & Htx & ?)].
      * destruct (waiting_queue p !! h) as [tx|] eqn:Htx; [|set_solver].
        apply list_elem_of_singleton in Ht. eauto 6.
      * case_decide; [done|]. eauto 6.
    + intros (h' & tx & Hin & Htx & ->). destruct (decide (h = h')) as [->|].
      * left. rewrite Htx. left.
      * right. exists h', tx. rewrite decide_False by done. naive_solver.
Qed.

(** ** Properties *)

(** Handing out markers unlocks exactly the waiting transactions whose
    missing markers are all among them; each leaves the queue once and is
    returned once; every other transaction stays and misses the rest; and
    the code's [expect] on the index never fires. *)
Theorem mark_and_unlock_exact ms p :
  inv p →
  ∃ p' new, mark_and_unlock ms p = Some (p', new) ∧ inv p' ∧
    NoDup ((hash ∘ transaction) <$> new) ∧
    (∀ h tx, waiting_queue p !! h = Some tx → missing_markers tx ⊆ list_to_set ms →
       waiting_queue p' !! h = None ∧
       {| transaction := transaction tx; missing_markers := ∅ |} ∈ new) ∧
    (∀ h tx, waiting_queue p !! h = Some tx → ¬ missing_markers tx ⊆ list_to_set ms →
       waiting_queue p' !! h = Some {| transaction := transaction tx;
         missing_markers := missing_markers tx ∖ list_to_set ms |}) ∧
    (∀ t, t ∈ new → ∃ tx, waiting_queue p !! hash (transaction t) = Some tx ∧
       transaction t = transaction tx ∧ missing_markers tx ⊆ list_to_set ms).
Proof.
  intros Hi. destruct (mark_and_unlock_unlocks ms p Hi) as (p' & new & Hm & [Hi' Hq Hn Hd _]).
  assert (Hsub : ∀ tx, is_ready (mark_all ms tx) = true ↔ missing_markers tx ⊆ list_to_set ms).
  { intros tx. rewrite is_ready_true. simpl.
    split; [|apply subseteq_empty_difference_L].
    intros He m Hmem. destruct (decide (m ∈ (list_to_set ms : gset TxMarker))); [done|].
    assert (m ∈ missing_markers tx ∖ list_to_set ms) by (by apply elem_of_difference).
    set_solver. }
  exists p', new. split_and!; [done..| | |].
  - intros h tx Htx Hs. rewrite Hq, Hn, Htx. apply Hsub in Hs as Hr. simpl.
    unfold still_waiting. rewrite Hr. split; [done|]. exists h, tx. split; [done|].
    unfold now_ready. rewrite Hr. unfold mark_all. do 2 f_equal.
    by apply subseteq_empty_difference_L.
  - intros h tx Htx Hs. rewrite Hq, Htx. simpl. unfold still_waiting.
    destruct (is_ready _) eqn:Hr; [by apply Hsub in Hr|done].
  - intros t (h & tx & Htx & Hr)%Hn. pose proof (now_ready_hash _ _ _ Hr) as Ht.
    exists tx. rewrite Ht. apply (inv_queue _ Hi) in Htx as Hh. destruct Hh as [-> _].
    split_and!; [done..|]. apply Hsub. unfold now_ready in Hr. by destruct (is_ready _).
Qed.

End hash_order.

(** A concrete queue: 7 waits for two markers, 8 for one of them. *)
Definition ex_tx (h fee : Z) (req prov : list (list Z)) : PoolTransaction :=
  {| pending_transaction := {| pt_transaction := transfer 7 fee;
       pt_sender := 1; pt_hash := h |};
     requires := req; provides := prov; priority := fee |}.
Definition ex_waiting (h : Z) (req prov : list (list Z)) : PendingPoolTransaction :=
  PendingPoolTransaction_new (ex_tx h 5 req prov) ∅.

Section example_queue.
Local Existing Instance elements_iter.
Definition ex_queue : option PendingTransactions :=
  s ← add_transaction (ex_waiting 7 [[1]; [2]]%Z [[3]]%Z) pending_default;
  s ← add_transaction (ex_waiting 8 [[1]]%Z [[4]]%Z) (snd s);
  Some (snd s).

Lemma ex_queue_inv : ∃ p, ex_queue = Some p ∧ inv p.
Proof.
  unfold ex_queue.
  destruct (pending_add_spec (ex_waiting 7 [[1]; [2]]%Z [[3]]%Z) pending_default)
    as (r1 & p1 & -> & Hi1 & Hq1); [apply pending_inv_default|by vm_compute..|].
  destruct (pending_add_spec (ex_waiting 8 [[1]]%Z [[4]]%Z) p1)
    as (r2 & p2 & Hs & Hi2 & _); [done|by vm_compute| |].
  - destruct r1; [|by destruct Hq1 as [-> _]]. apply contains_false. by rewrite Hq1.
  - exists p2. cbn [mbind option_bind snd]. by rewrite Hs.
Qed.

Lemma mark_and_unlock_exact_witness :
  ∃ p p' new, ex_queue = Some p ∧ mark_and_unlock [[1]]%Z p = Some (p', new) ∧ inv p'.
Proof.
  destruct ex_queue_inv as (p & He & Hi).
  destruct (mark_and_unlock_exact [[1]]%Z p Hi) as (p' & new & Hm & Hi' & _).
  by exists p, p', new.
Defined.
End example_queue.
End PendingTransactions.
