(* ===== verification/ReadyPool.v ===== *)
(** * Transactions ready for a block

    Models [PoolTransactionRef], [ReadyTransaction], [ReadyTransactions] and
    [TransactionsIterator] of [crates/anvil/src/eth/pool/transactions.rs].
    The [Arc<RwLock<..>>] around the map is not modelled: every operation is
    one step. *)
From S2P Require Import Prelude PoolTx PendingPool.

Record PoolTransactionRef := mkPoolTransactionRef {
  ref_transaction : PoolTransaction;
  ref_id : Z;                              (* u64 *)
}.

(** By priority, then the older transaction (the smaller id) is the greater. *)
Definition ref_cmp (a b : PoolTransactionRef) : comparison :=
  match (priority (ref_transaction a) ?= priority (ref_transaction b))%Z with
  | Eq => (ref_id b ?= ref_id a)%Z
  | c => c
  end.

Record ReadyTransaction := mkReadyTransaction {
  rt_transaction : PoolTransactionRef;
  unlocks : list TxHash;
  requires_offset : nat;
}.

Definition rt_tx (rt : ReadyTransaction) : PoolTransaction := ref_transaction (rt_transaction rt).
Definition rt_provides (rt : ReadyTransaction) : list TxMarker := provides (rt_tx rt).
Definition rt_max_fee_per_gas (rt : ReadyTransaction) : Z := max_fee_per_gas (rt_tx rt).

Definition set_unlocks u (rt : ReadyTransaction) : ReadyTransaction :=
  {| rt_transaction := rt_transaction rt; unlocks := u; requires_offset := requires_offset rt |}.
Definition bump_offset (rt : ReadyTransaction) : ReadyTransaction :=
  {| rt_transaction := rt_transaction rt; unlocks := unlocks rt;
     requires_offset := S (requires_offset rt) |}.

Record ReadyTransactions := mkReadyTransactions {
  next : Z;                                (* the field [id], u64 *)
  provided_markers : gmap TxMarker TxHash;
  ready_tx : gmap TxHash ReadyTransaction;
  independent_transactions : list PoolTransactionRef;   (* BTreeSet *)
}.

Definition ready_default : ReadyTransactions :=
  {| next := 0; provided_markers := ∅; ready_tx := ∅; independent_transactions := [] |}.

(** A local snapshot of the queue, consumed in order of priority. *)
Record TransactionsIterator := mkTransactionsIterator {
  all : gmap TxHash ReadyTransaction;
  awaiting : gmap TxHash (nat * PoolTransactionRef);
  independent : list PoolTransactionRef;
}.

Module TransactionsIterator.

Definition independent_or_awaiting (satisfied : nat) (tx_ref : PoolTransactionRef)
    (it : TransactionsIterator) : TransactionsIterator :=
  if decide (length (requires (ref_transaction tx_ref)) ≤ satisfied) then
    {| all := all it; awaiting := awaiting it;
       independent := oset_insert ref_cmp tx_ref (independent it) |}
  else
    {| all := all it;
       awaiting := <[hash (ref_transaction tx_ref) := (satisfied, tx_ref)]> (awaiting it);
       independent := independent it |}.

(** One hash of [unlocks]: first the local awaiting set, then the pool. *)
Definition unlock (it : TransactionsIterator) (h : TxHash) : TransactionsIterator :=
  match awaiting it !! h with
  | Some (satisfied, tx_ref) =>
      independent_or_awaiting (S satisfied) tx_ref
        {| all := all it; awaiting := delete h (awaiting it); independent := independent it |}
  | None =>
      match all it !! h with
      | Some nx => independent_or_awaiting (requires_offset nx + 1) (rt_transaction nx) it
      | None => it
      end
  end.

Definition set_independent i (it : TransactionsIterator) : TransactionsIterator :=
  {| all := all it; awaiting := awaiting it; independent := i |}.

(** The loop body of [next] takes the best independent transaction; it is
    skipped when the snapshot does not hold it. *)
Fixpoint next_loop (fuel : nat) (it : TransactionsIterator)
    : option PoolTransaction * TransactionsIterator :=
  match last (independent it), fuel with
  | None, _ | _, O => (None, it)
  | Some best, S fuel =>
      let it := set_independent (oset_remove ref_cmp best (independent it)) it in
      match all it !! hash (ref_transaction best) with
      | None => next_loop fuel it
      | Some ready => (Some (ref_transaction best), foldl unlock it (unlocks ready))
      end
  end.

(** Every turn of the loop takes one element out of [independent]. *)
Definition next (it : TransactionsIterator) : option PoolTransaction * TransactionsIterator :=
  next_loop (length (independent it)) it.

(** The first [n] transactions the iterator yields. *)
Fixpoint take_n (n : nat) (it : TransactionsIterator) : list PoolTransaction :=
  match n with
  | O => []
  | S n => match next it with
           | (None, _) => []
           | (Some tx, it) => tx :: take_n n it
           end
  end.
End TransactionsIterator.

Module ReadyTransactions.

Definition get_transactions (s : ReadyTransactions) : TransactionsIterator :=
  {| all := ready_tx s; awaiting := ∅; independent := independent_transactions s |}.

Definition clear (s : ReadyTransactions) : ReadyTransactions :=
  {| next := next s; provided_markers := ∅; ready_tx := ∅; independent_transactions := [] |}.

Definition contains (h : TxHash) (s : ReadyTransactions) : bool :=
  bool_decide (is_Some (ready_tx s !! h)).
Definition len (s : ReadyTransactions) : nat := size (ready_tx s).
Definition is_empty (s : ReadyTransactions) : bool := bool_decide (ready_tx s = ∅).
Definition get (h : TxHash) (s : ReadyTransactions) : option ReadyTransaction := ready_tx s !! h.

Definition next_id (s : ReadyTransactions) : Z * ReadyTransactions :=
  (next s,
   {| next := wrap 64 (next s + 1); provided_markers := provided_markers s;
      ready_tx := ready_tx s; independent_transactions := independent_transactions s |}).

(** ** Removal with dependents *)

(** The provider of [mark], if it is still here, no longer unlocks [h]. *)
Definition unlink_provider (provided : gmap TxMarker TxHash) (h : TxHash)
    (ready : gmap TxHash ReadyTransaction) (mark : TxMarker) : gmap TxHash ReadyTransaction :=
  match provided !! mark ≫= λ provider_hash, (λ tx, (provider_hash, tx)) <$> ready !! provider_hash with
  | Some (provider_hash, provider_tx) =>
      <[provider_hash := set_unlocks (unlink h (unlocks provider_tx)) provider_tx]> ready
  | None => ready
  end.

(** The marks that go with a removal: those the filter does not name. *)
Definition invalidates (marker_filter : option (gset TxMarker)) (m : TxMarker) : Prop :=
  match marker_filter with Some f => m ∉ f | None => True end.
#[export] Instance invalidates_dec marker_filter m : Decision (invalidates marker_filter m).
Proof. destruct marker_filter; apply _. Defined.

Definition remove_step (marker_filter : option (gset TxMarker)) (h : TxHash)
    (s : list PoolTransaction * ReadyTransactions)
    : option (option (list TxHash) * (list PoolTransaction * ReadyTransactions)) :=
  let '(removed, s) := s in
  match ready_tx s !! h with
  | None => Some (None, (removed, s))
  | Some tx =>
      let ready := delete h (ready_tx s) in
      let invalidated := filter (invalidates marker_filter) (rt_provides tx) in
      let provided := foldl (λ pm m, delete m pm) (provided_markers s) invalidated in
      let ready := foldl (unlink_provider provided h) ready (requires (rt_tx tx)) in
      let independent := oset_remove ref_cmp (rt_transaction tx) (independent_transactions s) in
      let more := match invalidated with [] => [] | _ => unlocks tx end in
      Some (Some more,
        (removed ++ [rt_tx tx],
         {| next := next s; provided_markers := provided; ready_tx := ready;
            independent_transactions := independent |}))
  end.

(** Each productive step takes a transaction out of the queue. *)
Definition remove_with_markers (tx_hashes : list TxHash) (marker_filter : option (gset TxMarker))
    (s : ReadyTransactions) : option (list PoolTransaction * ReadyTransactions) :=
  worklist (remove_step marker_filter) (size (ready_tx s)) (rev tx_hashes) ([], s).

Definition clear_transactions (tx_hashes : list TxHash) (s : ReadyTransactions) :=
  remove_with_markers tx_hashes None s.

(** ** Insertion and replacement *)

Section hash_order.
Context `{HashIter}.

(** Collects what the replaced transactions unlock, and rejects the
    replacement of one with the same markers that pays no less. *)
Fixpoint collect_unlocked (tx : PoolTransaction) (to_remove : list ReadyTransaction)
    (unlocked_tx : list TxHash) : result PoolError (list TxHash) :=
  match to_remove with
  | [] => Ok unlocked_tx
  | rt :: to_remove =>
      if bool_decide (rt_provides rt = provides tx) &&
         (max_fee_per_gas tx <=? rt_max_fee_per_gas rt)%Z
      then Err (ReplacementUnderpriced tx)
      else collect_unlocked tx to_remove (unlocked_tx ++ unlocks rt)
  end.

Definition replaced_transactions (tx : PoolTransaction) (s : ReadyTransactions)
    : option (result PoolError (list PoolTransaction * list TxHash) * ReadyTransactions) :=
  let remove_hashes : gset TxHash :=
    list_to_set (omap (λ m, provided_markers s !! m) (provides tx)) in
  if decide (remove_hashes = ∅) then Some (Ok ([], []), s)
  else
    match collect_unlocked tx (omap (λ h, ready_tx s !! h) (hash_iter remove_hashes)) [] with
    | Err e => Some (Err e, s)
    | Ok unlocked_tx =>
        '(removed_tx, s) ←
          remove_with_markers (hash_iter remove_hashes) (Some (list_to_set (provides tx))) s;
        Some (Ok (removed_tx, unlocked_tx), s)
    end.

(** Links the new transaction to the providers of what it requires; counts
    the requirements that nobody in the queue provides. *)
Definition link_step (provided : gmap TxMarker TxHash) (h : TxHash)
    (s : gmap TxHash ReadyTransaction * bool * nat) (mark : TxMarker)
    : option (gmap TxHash ReadyTransaction * bool * nat) :=
  let '(ready, independent, requires_offset) := s in
  match provided !! mark with
  | Some other =>
      tx ← ready !! other;                 (* expect("hash included;") *)
      Some (<[other := set_unlocks (unlocks tx ++ [h]) tx]> ready, false, requires_offset)
  | None => Some (ready, independent, S requires_offset)
  end.

Definition add_transaction (tx : PendingPoolTransaction) (s : ReadyTransactions)
    : option (result PoolError (list PoolTransaction) * ReadyTransactions) :=
  if negb (is_ready tx) then None          (* assert!(tx.is_ready()) *)
  else if contains (hash (transaction tx)) s then None  (* assert!: already included *)
  else
    let tx := transaction tx in
    '(r, s) ← replaced_transactions tx s;
    match r with
    | Err e => Some (Err e, s)
    | Ok (replaced_tx, unlocks) =>
        let '(id, s) := next_id s in
        let h := hash tx in
        '(ready, independent, requires_offset) ←
          fold_opt (link_step (provided_markers s) h) (ready_tx s, true, 0) (requires tx);
        let provided := foldl (λ pm m, <[m := h]> pm) (provided_markers s) (provides tx) in
        let tx_ref := {| ref_transaction := tx; ref_id := id |} in
        Some (Ok replaced_tx,
          {| next := next s;
             provided_markers := provided;
             ready_tx := <[h := {| rt_transaction := tx_ref; unlocks := unlocks;
                                   requires_offset := requires_offset |}]> ready;
             independent_transactions :=
               if independent : bool
               then oset_insert ref_cmp tx_ref (independent_transactions s)
               else independent_transactions s |})
    end.
End hash_order.

(** ** Pruning *)

(** [previous_markers]: the provider of a marker the pruned transaction
    required no longer unlocks it; if it unlocks nothing else, its markers
    are to be pruned too. *)
Definition previous_markers (provided : gmap TxMarker TxHash) (h : TxHash)
    (s : gmap TxHash ReadyTransaction * list TxMarker) (marker : TxMarker)
    : gmap TxHash ReadyTransaction * list TxMarker :=
  let '(ready, more) := s in
  match provided !! marker ≫= λ prev_hash, (λ tx, (prev_hash, tx)) <$> ready !! prev_hash with
  | None => s
  | Some (prev_hash, tx2) =>
      let tx2 := set_unlocks (unlink h (unlocks tx2)) tx2 in
      (<[prev_hash := tx2]> ready,
       more ++ (if decide (unlocks tx2 = []) then rt_provides tx2 else []))
  end.

(** A transaction the pruned one unlocked has one more requirement met. *)
Definition unlock_pruned (s : gmap TxHash ReadyTransaction * list PoolTransactionRef) (h : TxHash)
    : gmap TxHash ReadyTransaction * list PoolTransactionRef :=
  let '(ready, independent) := s in
  match ready !! h with
  | None => s
  | Some tx =>
      let tx := bump_offset tx in
      (<[h := tx]> ready,
       if decide (requires_offset tx = length (requires (rt_tx tx)))
       then oset_insert ref_cmp (rt_transaction tx) independent else independent)
  end.

(** [provided_markers.remove(marker)] and the [assert_eq!] that goes with it. *)
Definition unprovide (current_marker : TxMarker) (h : TxHash)
    (provided : gmap TxMarker TxHash) (marker : TxMarker) : option (gmap TxMarker TxHash) :=
  if decide (provided !! marker = if decide (current_marker = marker) then None else Some h)
  then Some (delete marker provided) else None.

Definition prune_step (marker : TxMarker) (s : list PoolTransaction * ReadyTransactions)
    : option (option (list TxMarker) * (list PoolTransaction * ReadyTransactions)) :=
  let '(removed_tx, s) := s in
  let provided := delete marker (provided_markers s) in
  let s0 := {| next := next s; provided_markers := provided; ready_tx := ready_tx s;
               independent_transactions := independent_transactions s |} in
  match provided_markers s !! marker with
  | None => Some (None, (removed_tx, s0))
  | Some h0 =>
      match ready_tx s !! h0 with
      | None => Some (None, (removed_tx, s0))
      | Some rt =>
          let ready := delete h0 (ready_tx s) in
          let independent := oset_remove ref_cmp (rt_transaction rt) (independent_transactions s) in
          let tx := rt_tx rt in
          let h := hash tx in
          let '(ready, more) := foldl (previous_markers provided h) (ready, []) (requires tx) in
          let '(ready, independent) := foldl unlock_pruned (ready, independent) (unlocks rt) in
          provided ← fold_opt (unprovide marker h) provided (provides tx);
          Some (Some more,
            (removed_tx ++ [tx],
             {| next := next s; provided_markers := provided; ready_tx := ready;
                independent_transactions := independent |}))
      end
  end.

(** Each productive step takes a transaction out of the queue. *)
Definition prune_tags (marker : TxMarker) (s : ReadyTransactions)
    : option (list PoolTransaction * ReadyTransactions) :=
  worklist prune_step (size (ready_tx s)) [marker] ([], s).

(** ** The invariant of the queue

    The marker index is exact: a marker is mapped to a hash if and only if the
    transaction of that hash is in the queue and provides the marker.  While
    a transaction is replaced, the index may still name the replaced one under
    the markers [F] of its replacement. *)
Definition txs (s : ReadyTransactions) : gmap TxHash PoolTransaction := rt_tx <$> ready_tx s.

Record inv_except (F : gset TxMarker) (s : ReadyTransactions) : Prop := {
  inv_hash h tx : txs s !! h = Some tx → hash tx = h;
  inv_markers h tx : txs s !! h = Some tx → markers_ok tx;
  inv_provider h tx m : txs s !! h = Some tx → m ∈ provides tx → provided_markers s !! m = Some h;
  inv_provided m h : provided_markers s !! m = Some h → m ∉ F →
    ∃ tx, txs s !! h = Some tx ∧ m ∈ provides tx;
}.
Abbreviation inv := (inv_except ∅).

Lemma ready_inv_default : inv ready_default.
Proof. constructor; unfold txs; simpl; intros *; rewrite ?fmap_empty, ?lookup_empty; done. Qed.

Lemma lookup_txs s h : txs s !! h = rt_tx <$> ready_tx s !! h.
Proof. apply lookup_fmap. Qed.
Lemma size_txs s : size (txs s) = size (ready_tx s).
Proof. apply map_size_fmap. Qed.

Lemma foldl_delete_lookup {V} (l : list TxMarker) (pm : gmap TxMarker V) m :
  foldl (λ pm m, delete m pm) pm l !! m = if decide (m ∈ l) then None else pm !! m.
Proof.
  revert pm. induction l as [|x l IH]; intros pm; cbn [foldl]; [done|].
  rewrite IH, lookup_delete. pose proof (elem_of_cons l m x).
  repeat case_decide; naive_solver.
Qed.

Lemma foldl_insert_lookup {V} (v : V) (l : list TxMarker) (pm : gmap TxMarker V) m :
  foldl (λ pm m, <[m := v]> pm) pm l !! m = if decide (m ∈ l) then Some v else pm !! m.
Proof.
  revert pm. induction l as [|x l IH]; intros pm; cbn [foldl]; [done|].
  rewrite IH, lookup_insert. pose proof (elem_of_cons l m x).
  repeat case_decide; naive_solver.
Qed.

(** Changing the bookkeeping of an entry leaves the transactions alone. *)
Lemma fmap_insert_same (r : gmap TxHash ReadyTransaction) h rt rt' :
  r !! h = Some rt → rt_tx rt' = rt_tx rt → rt_tx <$> <[h := rt']> r = rt_tx <$> r.
Proof.
  intros Hh Ht. rewrite fmap_insert, Ht. apply insert_id. by rewrite lookup_fmap, Hh.
Qed.

Lemma foldl_unlink_provider provided h l r :
  rt_tx <$> foldl (unlink_provider provided h) r l = rt_tx <$> r.
Proof.
  revert r. induction l as [|m l IH]; intros r; cbn [foldl]; [done|]. rewrite IH.
  unfold unlink_provider.
  destruct (provided !! m ≫= _) as [[ph ptx]|] eqn:Hp; [|done].
  apply bind_Some in Hp as (ph' & _ & (ptx' & Hr & [= -> ->])%fmap_Some).
  by eapply fmap_insert_same.
Qed.

#[local] Arguments remove_step : simpl never.
#[local] Arguments prune_step : simpl never.

(** ** Removal *)

Lemma invalidates_default mf m : invalidates mf m ↔ m ∉ default ∅ mf.
Proof. destruct mf; simpl; set_solver. Qed.

Lemma remove_step_spec mf removed s h tx :
  let F := default ∅ mf in
  inv_except F s → txs s !! h = Some tx →
  ∃ more s', remove_step mf h (removed, s) = Some (Some more, (removed ++ [tx], s')) ∧
    txs s' = delete h (txs s) ∧ inv_except F s' ∧ next s' = next s ∧
    (∀ m, provided_markers s' !! m =
       if decide (m ∈ provides tx ∧ m ∉ F) then None else provided_markers s !! m).
Proof.
  intros F Hi Htx. rewrite lookup_txs in Htx.
  apply fmap_Some in Htx as (rt & Hrt & ->). unfold remove_step. rewrite Hrt.
  eexists _, _. split; [done|].
  match goal with |- txs ?s' = _ ∧ _ => assert (Htxs : txs s' = delete h (txs s)) end.
  { unfold txs; simpl. rewrite foldl_unlink_provider. apply fmap_delete. }
  split; [exact Htxs|].
  match goal with |- inv_except _ ?s' ∧ _ => set (s1 := s') in * end.
  assert (Hpm : ∀ m, provided_markers s1 !! m =
       if decide (m ∈ provides (rt_tx rt) ∧ m ∉ F) then None else provided_markers s !! m).
  { intros m. simpl. rewrite foldl_delete_lookup.
    pose proof (list_elem_of_filter (invalidates mf) (rt_provides rt) m) as Hf.
    rewrite invalidates_default in Hf. unfold rt_provides in *.
    repeat case_decide; naive_solver. }
  assert (Hh : txs s !! h = Some (rt_tx rt)) by by rewrite lookup_txs, Hrt.
  split; [|done]. constructor; rewrite Htxs.
  1,2: intros h' t; rewrite lookup_delete; case_decide; [done|apply Hi].
  - intros h' t m. rewrite lookup_delete. case_decide; [done|]. intros Ht Hm. rewrite Hpm.
    pose proof (inv_provider _ _ Hi _ _ _ Ht Hm) as Hp. rewrite decide_False; [done|].
    intros [Hm' _]. pose proof (inv_provider _ _ Hi _ _ _ Hh Hm'). congruence.
  - intros m h'. rewrite Hpm. case_decide as Hd; [done|]. intros Hp Hm.
    destruct (inv_provided _ _ Hi _ _ Hp Hm) as (t & Ht & ?). exists t.
    rewrite lookup_delete_ne; [done|]. intros <-. apply Hd. naive_solver.
Qed.

(** What a run of removals did to the queue. *)
Record removes (F : gset TxMarker) (s : ReadyTransactions) (removed : list PoolTransaction)
    (s' : ReadyTransactions) : Prop := {
  removes_inv : inv_except F s';
  removes_txs h : txs s' !! h = if decide (h ∈ hash <$> removed) then None else txs s !! h;
  removes_removed t : t ∈ removed → txs s !! hash t = Some t;
  removes_nodup : NoDup (hash <$> removed);
  removes_next : next s' = next s;
  removes_provided m h : provided_markers s' !! m = Some h → provided_markers s !! m = Some h;
}.

Lemma removes_refl F s : inv_except F s → removes F s [] s.
Proof. intros. constructor; simpl; try done; [set_solver|constructor]. Qed.

Lemma removes_snoc F s removed s1 h tx s' :
  removes F s removed s1 → txs s1 !! h = Some tx → txs s' = delete h (txs s1) →
  inv_except F s' → next s' = next s1 →
  (∀ m k, provided_markers s' !! m = Some k → provided_markers s1 !! m = Some k) →
  removes F s (removed ++ [tx]) s'.
Proof.
  intros [Hi1 Ht1 Hr1 Hn1 Hx1 Hp1] Htx Htxs Hi' Hx' Hp'.
  pose proof (inv_hash _ _ Hi1 _ _ Htx) as Hh. pose proof Htx as Htx0. rewrite Ht1 in Htx0.
  case_decide as Hin; [done|]. constructor.
  - done.
  - intros k. rewrite Htxs, lookup_delete, Ht1, fmap_app. simpl.
    pose proof (elem_of_app (hash <$> removed) [hash tx] k) as He.
    rewrite list_elem_of_singleton in He. repeat case_decide; naive_solver.
  - intros t [?| ->%list_elem_of_singleton]%elem_of_app; [auto|congruence].
  - rewrite fmap_app. apply NoDup_app. split_and!; [done| |apply NoDup_singleton].
    intros k Hk ->%list_elem_of_singleton. congruence.
  - congruence.
  - auto.
Qed.

Lemma remove_with_markers_spec hs mf s :
  let F := default ∅ mf in
  inv_except F s →
  ∃ removed s', remove_with_markers hs mf s = Some (removed, s') ∧ removes F s removed s' ∧
    (∀ h, h ∈ hs → txs s' !! h = None).
Proof.
  intros F Hi. unfold remove_with_markers.
  pose (I (stack : list TxHash) (st : list PoolTransaction * ReadyTransactions) :=
    removes F s st.1 st.2 ∧ ∀ h, h ∈ hs → h ∈ stack ∨ txs st.2 !! h = None).
  destruct (worklist_inv (remove_step mf) I (λ st, size (ready_tx st.2))
    (size (ready_tx s)) (rev hs) ([], s)) as ([removed s'] & -> & Hr & Hout).
  - intros h rest [removed s1] [Hr Hst]. simpl in *.
    destruct (txs s1 !! h) as [tx|] eqn:Htx.
    + destruct (remove_step_spec mf removed s1 h tx) as (more & s2 & Hs & Ht & Hi2 & Hx & Hp);
        [apply Hr|done|].
      eexists _, _. split; [exact Hs|]. simpl. split.
      * rewrite <-!size_txs, Ht. rewrite map_size_delete_Some by eauto.
        assert (size (txs s1) ≠ 0); [|lia]. intros Hz%map_size_empty_inv.
        by rewrite Hz, lookup_empty in Htx.
      * split; simpl.
        -- eapply removes_snoc; try done. intros m k. rewrite Hp. by case_decide.
        -- intros k Hk. rewrite Ht, lookup_delete. destruct (Hst k Hk) as [Hk'|Hk'].
           ++ apply elem_of_cons in Hk' as [->|]; [right; by rewrite decide_True|].
              left. set_solver.
           ++ right. rewrite Hk'. by case_decide.
    + rewrite lookup_txs in Htx. apply fmap_None in Htx as Hnone.
      exists None, (removed, s1). split; [by cbv beta iota delta [remove_step]; rewrite Hnone|].
      split; [done|]. split; [done|].
      intros k Hk. destruct (Hst k Hk) as [[->|]%elem_of_cons|]; [right|left|right]; try done.
      rewrite lookup_txs. simpl. by rewrite Hnone.
  - done.
  - split; [by apply removes_refl|]. intros h ?. left. simpl.
    by apply elem_of_rev.
  - exists removed, s'. split_and!; [done..|]. simpl in *. intros h Hh.
    destruct (Hout h Hh) as [?%not_elem_of_nil|]; done.
Qed.

Lemma removes_lookup F s removed s' h t :
  removes F s removed s' → txs s' !! h = Some t → txs s !! h = Some t ∧ h ∉ hash <$> removed.
Proof. intros Hr. rewrite (removes_txs _ _ _ _ Hr). by case_decide. Qed.

Lemma inv_weaken F s : inv s → inv_except F s.
Proof. intros [? ? ? Hp]. constructor; try done. intros m h Hm _. by apply Hp. Qed.

(** ** Insertion *)

Section hash_order.
Context `{HashIter}.

Lemma collect_unlocked_err tx rts acc e :
  collect_unlocked tx rts acc = Err e →
  e = ReplacementUnderpriced tx ∧ ∃ rt, rt ∈ rts ∧ rt_provides rt = provides tx.
Proof.
  revert acc. induction rts as [|rt rts IH]; intros acc; simpl; [done|].
  destruct (_ && _) eqn:Hb.
  - intros [= <-]. split; [done|]. exists rt. split; [left|].
    apply andb_true_iff in Hb as [Hb _]. by apply bool_decide_eq_true in Hb.
  - intros (? & rt' & ? & ?)%IH. split; [done|]. exists rt'. split; [by right|done].
Qed.

Lemma replaced_transactions_spec tx s :
  inv s →
  ∃ r s1, replaced_transactions tx s = Some (r, s1) ∧
    match r with
    | Err e => s1 = s ∧ e = ReplacementUnderpriced tx ∧
        ∀ m, m ∈ provides tx → is_Some (provided_markers s !! m)
    | Ok (removed, _) =>
        removes (list_to_set (provides tx)) s removed s1 ∧
        ∀ m h t, m ∈ provides tx → txs s1 !! h = Some t → m ∉ provides t
    end.
Proof.
  intros Hi. unfold replaced_transactions.
  set (rh := list_to_set (omap _ _) : gset Z).
  assert (Hrh : ∀ m h t, m ∈ provides tx → txs s !! h = Some t → m ∈ provides t → h ∈ rh).
  { intros m h t Hm Ht Hmt. unfold rh. apply elem_of_list_to_set, list_elem_of_omap.
    exists m. split; [done|]. by apply (inv_provider _ _ Hi _ _ _ Ht). }
  case_decide as Hemp.
  { eexists _, _. split; [done|]. split; [by apply removes_refl, inv_weaken|].
    intros m h t Hm Ht Hmt. specialize (Hrh _ _ _ Hm Ht Hmt). set_solver. }
  destruct (collect_unlocked _ _ _) as [unl|e] eqn:Hc; last first.
  { eexists _, _. split; [done|]. split; [done|].
    apply collect_unlocked_err in Hc as (-> & rt & Hin & Hrt). split; [done|].
    intros m Hm. apply list_elem_of_omap in Hin as (h & _ & Hh). exists h.
    apply (inv_provider _ _ Hi _ (rt_tx rt)); [by rewrite lookup_txs, Hh|].
    unfold rt_provides in Hrt. by rewrite Hrt. }
  destruct (remove_with_markers_spec (hash_iter rh) (Some (list_to_set (provides tx))) s)
    as (removed & s1 & -> & Hr & Hout); [by apply inv_weaken|].
  eexists _, _. split; [done|]. split; [done|]. intros m h t Hm Ht Hmt.
  destruct (removes_lookup _ _ _ _ _ _ Hr Ht) as [Ht0 _].
  rewrite Hout in Ht; [done|]. apply elem_of_hash_iter. eauto.
Qed.

Lemma link_loop provided h l ready ind off :
  (∀ m other, m ∈ l → provided !! m = Some other → is_Some (ready !! other)) →
  ∃ ready', fold_opt (link_step provided h) (ready, ind, off) l =
      Some (ready', ind && forallb (λ m, bool_decide (provided !! m = None)) l,
            off + length (filter (λ m, provided !! m = None) l)) ∧
    rt_tx <$> ready' = rt_tx <$> ready.
Proof.
  revert ready ind off. induction l as [|m l IH]; intros ready ind off Hl.
  { exists ready. simpl. by rewrite andb_true_r, Nat.add_0_r. }
  cbn [fold_opt link_step forallb]. destruct (provided !! m) as [other|] eqn:Hm.
  - destruct (Hl m other) as [rt Hrt]; [left|done|]. rewrite Hrt. cbn [mbind option_bind].
    edestruct (IH (<[other := set_unlocks (unlocks rt ++ [h]) rt]> ready) false off)
      as (ready' & -> & Ht).
    { intros m' o ? ?. rewrite lookup_insert. case_decide; [done|].
      apply (Hl m'); [by right|done]. }
    exists ready'. rewrite bool_decide_eq_false_2, andb_false_r by done.
    rewrite filter_cons_False by by rewrite Hm. split; [done|].
    rewrite Ht. by eapply fmap_insert_same.
  - cbn [mbind option_bind]. edestruct (IH ready ind (S off)) as (ready' & -> & Ht).
    { intros m' o ? ?. apply (Hl m'); [by right|done]. }
    exists ready'. rewrite bool_decide_eq_true_2 by done.
    rewrite filter_cons_True by done. split; [|done]. simpl. by rewrite Nat.add_succ_r.
Qed.

(** What inserting a transaction did to the queue. *)
Record inserts (tx : PoolTransaction) (s : ReadyTransactions) (removed : list PoolTransaction)
    (s' : ReadyTransactions) : Prop := {
  inserts_inv : inv s';
  inserts_txs h : txs s' !! h =
    if decide (h = hash tx) then Some tx
    else if decide (h ∈ hash <$> removed) then None else txs s !! h;
  inserts_removed t : t ∈ removed → txs s !! hash t = Some t;
  inserts_nodup : NoDup (hash <$> removed);
  inserts_provided m h : provided_markers s' !! m = Some h →
    m ∈ provides tx ∨ provided_markers s !! m = Some h;
}.

Lemma insert_entry tx s removed s1 ready rt nx ind :
  removes (list_to_set (provides tx)) s removed s1 →
  (∀ m h t, m ∈ provides tx → txs s1 !! h = Some t → m ∉ provides t) →
  markers_ok tx → txs s !! hash tx = None → rt_tx rt = tx → rt_tx <$> ready = txs s1 →
  inserts tx s removed
    {| next := nx;
       provided_markers := foldl (λ pm m, <[m := hash tx]> pm) (provided_markers s1) (provides tx);
       ready_tx := <[hash tx := rt]> ready; independent_transactions := ind |}.
Proof.
  intros Hr Hno Hok Hnew Hrt Hready. pose proof (removes_inv _ _ _ _ Hr) as Hi.
  set (s' := {| next := nx |}).
  assert (Ht : txs s' = <[hash tx := tx]> (txs s1)).
  { unfold txs. simpl. by rewrite fmap_insert, Hrt, Hready. }
  assert (Hp : ∀ m, provided_markers s' !! m =
      if decide (m ∈ provides tx) then Some (hash tx) else provided_markers s1 !! m).
  { intros m. apply foldl_insert_lookup. }
  assert (Hnew1 : txs s1 !! hash tx = None).
  { destruct (txs s1 !! hash tx) eqn:Hx; [|done].
    eapply removes_lookup in Hx as [Hx _]; [|done]. congruence. }
  constructor; [constructor| | | |]; rewrite ?Ht.
  - intros h t. rewrite lookup_insert. case_decide; [naive_solver|apply Hi].
  - intros h t. rewrite lookup_insert. case_decide; [naive_solver|apply Hi].
  - intros h t m. rewrite lookup_insert, Hp. case_decide as Hh.
    + intros [= <-] ?. rewrite decide_True by done. by subst.
    + intros Hht Hm. rewrite decide_False; [by eapply inv_provider|].
      intros ?. by eapply Hno.
  - intros m h. rewrite Hp. setoid_rewrite lookup_insert. case_decide as Hm.
    + intros [= <-] _. exists tx. by rewrite decide_True.
    + intros Hmh _. destruct (inv_provided _ _ Hi _ _ Hmh) as (t & Hht & ?).
      { by rewrite elem_of_list_to_set. }
      exists t. rewrite decide_False; [done|]. intros <-. congruence.
  - intros h. rewrite lookup_insert, (removes_txs _ _ _ _ Hr).
    repeat case_decide; congruence.
  - apply Hr.
  - apply Hr.
  - intros m h. rewrite Hp. case_decide; [by left|]. intros ?. right.
    by apply (removes_provided _ _ _ _ Hr).
Qed.

Lemma contains_txs h s : contains h s = false ↔ txs s !! h = None.
Proof.
  unfold contains. rewrite bool_decide_eq_false, lookup_txs, fmap_None, eq_None_not_Some. done.
Qed.

Lemma ready_add_spec ptx s :
  let tx := transaction ptx in
  inv s → is_ready ptx = true → txs s !! hash tx = None → markers_ok tx →
  ∃ r s', add_transaction ptx s = Some (r, s') ∧
    match r with
    | Err e => s' = s ∧ e = ReplacementUnderpriced tx ∧
        ∀ m, m ∈ provides tx → is_Some (provided_markers s !! m)
    | Ok removed => inserts tx s removed s'
    end.
Proof.
  intros tx Hi Hrdy Hnew Hok. unfold add_transaction. fold tx. rewrite Hrdy.
  rewrite (proj2 (contains_txs _ _) Hnew). simpl negb. cbv iota.
  destruct (replaced_transactions_spec tx s Hi) as (r & s1 & -> & Hr).
  cbn [mbind option_bind]. destruct r as [[removed unl]|e]; last first.
  { by exists (Err e), s1. }
  destruct Hr as [Hr Hno]. cbn [next_id provided_markers ready_tx].
  destruct (link_loop (provided_markers s1) (hash tx) (requires tx) (ready_tx s1) true 0)
    as (ready & -> & Hready).
  { intros m other Hm Ho. destruct (inv_provided _ _ (removes_inv _ _ _ _ Hr) _ _ Ho) as (t & Ht & _).
    - rewrite elem_of_list_to_set. intros ?. by eapply provides_not_required.
    - rewrite lookup_txs in Ht. apply fmap_Some in Ht as (rt & -> & _). done. }
  cbn [mbind option_bind]. eexists (Ok removed), _. split; [done|]. by eapply insert_entry.
Qed.
End hash_order.

(** ** Pruning *)

Lemma foldl_previous_markers provided h l ready more :
  rt_tx <$> (foldl (previous_markers provided h) (ready, more) l).1 = rt_tx <$> ready.
Proof.
  revert ready more. induction l as [|m l IH]; intros ready more; [done|].
  cbn [foldl previous_markers].
  destruct (provided !! m ≫= _) as [[ph ptx]|] eqn:Hp; [|apply IH].
  rewrite IH. apply bind_Some in Hp as (ph' & _ & (ptx' & Hr & [= -> ->])%fmap_Some).
  by eapply fmap_insert_same.
Qed.

Lemma foldl_unlock_pruned l ready ind :
  rt_tx <$> (foldl unlock_pruned (ready, ind) l).1 = rt_tx <$> ready.
Proof.
  revert ready ind. induction l as [|h l IH]; intros ready ind; [done|].
  cbn [foldl unlock_pruned]. destruct (ready !! h) as [rt|] eqn:Hh; [|apply IH].
  rewrite IH. by eapply fmap_insert_same.
Qed.

Lemma unprovide_loop cur h l pm :
  NoDup l → (∀ m, m ∈ l → pm !! m = if decide (cur = m) then None else Some h) →
  ∃ pm', fold_opt (unprovide cur h) pm l = Some pm' ∧
    ∀ m, pm' !! m = if decide (m ∈ l) then None else pm !! m.
Proof.
  revert pm. induction l as [|x l IH]; intros pm Hnd Hl.
  { by exists pm. }
  apply NoDup_cons in Hnd as [Hx Hnd]. cbn [fold_opt].
  assert (unprovide cur h pm x = Some (delete x pm)) as ->.
  { unfold unprovide. rewrite decide_True; [done|]. apply Hl. left. }
  cbn [mbind option_bind].
  destruct (IH (delete x pm) Hnd) as (pm' & -> & Hpm').
  { intros m Hm. rewrite lookup_delete_ne by (by intros ->). apply Hl. by right. }
  exists pm'. split; [done|]. intros m. rewrite Hpm', lookup_delete.
  pose proof (elem_of_cons l m x). repeat case_decide; naive_solver.
Qed.

Lemma prune_step_spec m removed s h tx :
  inv s → provided_markers s !! m = Some h → txs s !! h = Some tx → m ∈ provides tx →
  ∃ more s', prune_step m (removed, s) = Some (Some more, (removed ++ [tx], s')) ∧
    txs s' = delete h (txs s) ∧ inv s' ∧ next s' = next s ∧
    (∀ k, provided_markers s' !! k =
       if decide (k ∈ provides tx) then None else provided_markers s !! k).
Proof.
  intros Hi Hp Htx Hm. pose proof (inv_hash _ _ Hi _ _ Htx) as Hh.
  pose proof Htx as Hrt. rewrite lookup_txs in Hrt. apply fmap_Some in Hrt as (rt & Hrt & ->).
  unfold prune_step. rewrite Hp, Hrt.
  pose proof (foldl_previous_markers (delete m (provided_markers s)) (hash (rt_tx rt))
    (requires (rt_tx rt)) (delete h (ready_tx s)) []) as Hr1.
  destruct (foldl (previous_markers _ _) _ _) as [r1 more]. cbn [fst] in Hr1.
  match goal with |- context [foldl unlock_pruned (r1, ?i) ?l] =>
    pose proof (foldl_unlock_pruned l r1 i) as Hr2; destruct (foldl unlock_pruned (r1, i) l) as [r2 ind] end.
  cbn [fst] in Hr2.
  destruct (unprovide_loop m (hash (rt_tx rt)) (provides (rt_tx rt)) (delete m (provided_markers s)))
    as (pm & -> & Hpm).
  { by eapply provides_nodup, inv_markers. }
  { intros k Hk. rewrite lookup_delete. case_decide; [done|]. rewrite Hh.
    by eapply inv_provider. }
  cbn [mbind option_bind]. eexists _, _. split; [done|].
  match goal with |- txs ?s' = _ ∧ _ => set (s1 := s') end.
  assert (Ht : txs s1 = delete h (txs s)).
  { unfold txs. simpl. by rewrite Hr2, Hr1, fmap_delete. }
  assert (Hpm' : ∀ k, provided_markers s1 !! k =
       if decide (k ∈ provides (rt_tx rt)) then None else provided_markers s !! k).
  { intros k. simpl. rewrite Hpm. case_decide; [done|].
    rewrite lookup_delete_ne; [done|by intros ->]. }
  split; [done|]. split; [|done]. constructor; rewrite Ht.
  1,2: intros h' t; rewrite lookup_delete; case_decide; [done|apply Hi].
  - intros h' t k. rewrite lookup_delete, Hpm'. case_decide; [done|]. intros Ht' Hk.
    pose proof (inv_provider _ _ Hi _ _ _ Ht' Hk) as Hk'. rewrite decide_False; [done|].
    intros Hk2. pose proof (inv_provider _ _ Hi _ _ _ Htx Hk2). congruence.
  - intros k h'. rewrite Hpm'. case_decide as Hk; [done|]. intros Hk' _.
    destruct (inv_provided _ _ Hi _ _ Hk') as (t & Ht' & ?); [set_solver|].
    exists t. rewrite lookup_delete_ne; [done|]. intros <-. apply Hk. naive_solver.
Qed.

Lemma prune_tags_spec m s :
  inv s →
  ∃ removed s', prune_tags m s = Some (removed, s') ∧ removes ∅ s removed s' ∧
    provided_markers s' !! m = None.
Proof.
  intros Hi. unfold prune_tags.
  pose (I (stack : list TxMarker) (st : list PoolTransaction * ReadyTransactions) :=
    removes ∅ s st.1 st.2 ∧ (m ∈ stack ∨ provided_markers st.2 !! m = None)).
  destruct (worklist_inv prune_step I (λ st, size (ready_tx st.2))
    (size (ready_tx s)) [m] ([], s)) as ([removed s'] & -> & Hr & Hout).
  - intros k rest [removed s1] [Hr Hst]. simpl in *.
    pose proof (removes_inv _ _ _ _ Hr) as Hi1.
    destruct (provided_markers s1 !! k) as [h|] eqn:Hk.
    + destruct (inv_provided _ _ Hi1 _ _ Hk) as (tx & Htx & Hin); [set_solver|].
      destruct (prune_step_spec k removed s1 h tx) as (more & s2 & Hs & Ht & Hi2 & Hx & Hp);
        [done..|].
      eexists _, _. split; [exact Hs|]. simpl. split.
      * rewrite <-!size_txs, Ht. rewrite map_size_delete_Some by eauto.
        assert (size (txs s1) ≠ 0); [|lia]. intros Hz%map_size_empty_inv.
        by rewrite Hz, lookup_empty in Htx.
      * split; simpl.
        -- eapply removes_snoc; try done. intros k' k''. rewrite Hp. by case_decide.
        -- rewrite Hp. case_decide as Hd; [by right|].
           destruct Hst as [[->|]%elem_of_cons|]; [done|left; set_solver|by right].
    + eexists None, (removed, _). unfold prune_step. rewrite Hk. split; [done|].
      rewrite delete_id by done. destruct s1; simpl in *. split; [done|].
      split; [done|]. simpl. destruct Hst as [[->|]%elem_of_cons|]; auto.
  - done.
  - split; [by apply removes_refl|]. left. left.
  - exists removed, s'. split_and!; [done..|]. by destruct Hout as [?%not_elem_of_nil|].
Qed.

End ReadyTransactions.
