(* ===== verification/TxPool.v ===== *)
(** * The transaction pool

    Models [crates/anvil/src/eth/pool/mod.rs]: [PoolInner], which keeps the
    ready and the pending queue, and the [Pool] in front of it with its
    listeners.  Locks are not modelled: every method of [Pool] holds the lock
    of [inner] for its whole body and is one step. *)
From S2P Require Import Prelude PoolTx PendingPool ReadyPool.

Record PoolInner := mkPoolInner {
  ready_transactions : ReadyTransactions;
  pending_transactions : PendingTransactions;
}.

Definition pool_default : PoolInner :=
  {| ready_transactions := ready_default; pending_transactions := pending_default |}.

(** [struct ReadyTransaction] of this file: the outcome of an addition. *)
Record ReadyAdded := mkReadyAdded {
  ra_hash : TxHash;
  promoted : list TxHash;
  discarded : list TxHash;
  removed : list PoolTransaction;
}.

Definition ReadyAdded_new (h : TxHash) : ReadyAdded :=
  {| ra_hash := h; promoted := []; discarded := []; removed := [] |}.

Inductive AddedTransaction :=
| Ready (tx : ReadyAdded)
| Pending (h : TxHash).

Definition AddedTransaction_hash (a : AddedTransaction) : TxHash :=
  match a with Ready tx => ra_hash tx | Pending h => h end.

Record PruneResult := mkPruneResult {
  pr_promoted : list AddedTransaction;
  failed : list TxHash;
  pruned : list PoolTransaction;
}.

Record TxpoolStatus := { status_pending : Z; status_queued : Z }.

Module PoolInner.

Definition set_ready r (p : PoolInner) : PoolInner :=
  {| ready_transactions := r; pending_transactions := pending_transactions p |}.
Definition set_pending q (p : PoolInner) : PoolInner :=
  {| ready_transactions := ready_transactions p; pending_transactions := q |}.

Definition clear (p : PoolInner) : PoolInner :=
  {| ready_transactions := ReadyTransactions.clear (ready_transactions p);
     pending_transactions := PendingTransactions.clear (pending_transactions p) |}.

Definition get_transaction (h : TxHash) (p : PoolInner) : option PendingTransaction :=
  match PendingTransactions.get h (pending_transactions p) with
  | Some pending => Some (pending_transaction (transaction pending))
  | None =>
      (λ rt, pending_transaction (rt_tx rt)) <$> ReadyTransactions.get h (ready_transactions p)
  end.

Definition contains (h : TxHash) (p : PoolInner) : bool :=
  PendingTransactions.contains h (pending_transactions p) ||
  ReadyTransactions.contains h (ready_transactions p).

Section hash_order.
Context `{HashIter}.

(** The loop of [add_ready_transaction]: every turn takes one transaction
    off the queue, and what it unlocks leaves the pending queue, so the
    length of the queue and the pending transactions bound the turns. *)
Fixpoint add_ready_loop (fuel : nat) (is_new_tx : bool) (tx_queue : list PendingPoolTransaction)
    (ready : ReadyAdded) (p : PoolInner) : option (result PoolError ReadyAdded * PoolInner) :=
  match tx_queue, fuel with
  | [], _ => Some (Ok ready, p)
  | _, O => None
  | current_tx :: tx_queue, S fuel =>
      '(pending, unlocked) ←
        PendingTransactions.mark_and_unlock (provides (transaction current_tx)) (pending_transactions p);
      let tx_queue := tx_queue ++ unlocked in
      let current_hash := hash (transaction current_tx) in
      '(r, ready_txs) ← ReadyTransactions.add_transaction current_tx (ready_transactions p);
      let p := {| ready_transactions := ready_txs; pending_transactions := pending |} in
      match r with
      | Ok replaced_transactions =>
          add_ready_loop fuel false tx_queue
            {| ra_hash := ra_hash ready;
               promoted := if is_new_tx then promoted ready else promoted ready ++ [current_hash];
               discarded := discarded ready;
               removed := removed ready ++ replaced_transactions |} p
      | Err err =>
          if is_new_tx then Some (Err err, p)
          else add_ready_loop fuel false tx_queue
                 {| ra_hash := ra_hash ready; promoted := promoted ready;
                    discarded := discarded ready ++ [current_hash];
                    removed := removed ready |} p
      end
  end.

Definition add_ready_transaction (tx : PendingPoolTransaction) (p : PoolInner)
    : option (result PoolError AddedTransaction * PoolInner) :=
  let h := hash (transaction tx) in
  '(r, p) ← add_ready_loop (S (size (waiting_queue (pending_transactions p)))) true [tx]
              (ReadyAdded_new h) p;
  match r with
  | Err err => Some (Err err, p)
  | Ok ready =>
      (* importing the transaction led to its own replacement *)
      if existsb (λ t, bool_decide (hash t = h)) (removed ready) then
        '(_, ready_txs) ← ReadyTransactions.clear_transactions (promoted ready) (ready_transactions p);
        Some (Err CyclicTransaction, set_ready ready_txs p)
      else Some (Ok (Ready ready), p)
  end.

Definition add_transaction (tx : PoolTransaction) (p : PoolInner)
    : option (result PoolError AddedTransaction * PoolInner) :=
  if contains (hash tx) p then Some (Err (AlreadyImported tx), p)
  else
    let ptx := PendingPoolTransaction_new tx (provided_markers (ready_transactions p)) in
    if negb (is_ready ptx) then
      let h := hash (transaction ptx) in
      '(r, pending) ← PendingTransactions.add_transaction ptx (pending_transactions p);
      Some (match r with Ok _ => Ok (Pending h) | Err e => Err e end, set_pending pending p)
    else add_ready_transaction ptx p.

Definition prune_marker (s : list PendingPoolTransaction * list PoolTransaction * PoolInner)
    (marker : TxMarker)
    : option (list PendingPoolTransaction * list PoolTransaction * PoolInner) :=
  let '(imports, pruned, p) := s in
  '(pending, unlocked) ← PendingTransactions.mark_and_unlock [marker] (pending_transactions p);
  '(pr, ready) ← ReadyTransactions.prune_tags marker (ready_transactions p);
  Some (imports ++ unlocked, pruned ++ pr,
        {| ready_transactions := ready; pending_transactions := pending |}).

Definition import_one (s : list AddedTransaction * list TxHash * PoolInner)
    (tx : PendingPoolTransaction) : option (list AddedTransaction * list TxHash * PoolInner) :=
  let '(prom, fail, p) := s in
  '(r, p) ← add_ready_transaction tx p;
  match r with
  | Ok res => Some (prom ++ [res], fail, p)
  | Err _ => Some (prom, fail ++ [hash (transaction tx)], p)
  end.

Definition prune_markers (markers : list TxMarker) (p : PoolInner) : option (PruneResult * PoolInner) :=
  '(imports, pruned, p) ← fold_opt prune_marker ([], [], p) markers;
  '(promoted, failed, p) ← fold_opt import_one ([], [], p) imports;
  Some ({| pr_promoted := promoted; failed := failed; pruned := pruned |}, p).

(** The common tail of [remove_invalid] and [remove_transactions_by_address]. *)
Definition remove_hashes (tx_hashes : list TxHash) (p : PoolInner)
    : option (list PoolTransaction * PoolInner) :=
  match tx_hashes with
  | [] => Some ([], p)
  | _ =>
      '(removed, ready) ←
        ReadyTransactions.remove_with_markers tx_hashes None (ready_transactions p);
      let '(pending, removed') := PendingTransactions.remove tx_hashes (pending_transactions p) in
      Some (removed ++ removed',
            {| ready_transactions := ready; pending_transactions := pending |})
  end.

Definition remove_invalid (tx_hashes : list TxHash) (p : PoolInner) := remove_hashes tx_hashes p.

(** The transactions of a sender: those of the pending queue, then those the
    ready iterator yields, of which the first [n] are taken. *)
Definition transactions_by_sender (n : nat) (sender : Address) (p : PoolInner)
    : list PoolTransaction :=
  filter (λ tx, pt_sender (pending_transaction tx) = sender)
    (PendingTransactions.transactions (pending_transactions p)) ++
  filter (λ tx, pt_sender (pending_transaction tx) = sender)
    (TransactionsIterator.take_n n (ReadyTransactions.get_transactions (ready_transactions p))).

Definition remove_transactions_by_address (n : nat) (sender : Address) (p : PoolInner) :=
  remove_hashes (hash <$> transactions_by_sender n sender p) p.

(** ** The invariant of the pool

    Both queues are well formed, they share no transaction, and no pending
    transaction waits for a marker that the ready queue provides. *)
Record inv (p : PoolInner) : Prop := {
  inv_ready : ReadyTransactions.inv (ready_transactions p);
  inv_pending : PendingTransactions.inv (pending_transactions p);
  inv_disjoint h : is_Some (ReadyTransactions.txs (ready_transactions p) !! h) →
    waiting_queue (pending_transactions p) !! h = None;
  inv_settled m : is_Some (provided_markers (ready_transactions p) !! m) →
    required_markers (pending_transactions p) !! m = None;
  inv_pending_markers h tx : waiting_queue (pending_transactions p) !! h = Some tx →
    markers_ok (transaction tx);
}.

Lemma pool_inv_default : inv pool_default.
Proof.
  constructor; simpl.
  - apply ReadyTransactions.ready_inv_default.
  - apply PendingTransactions.pending_inv_default.
  - intros h _. apply lookup_empty.
  - intros m _. apply lookup_empty.
  - intros h tx. by rewrite lookup_empty.
Qed.

Lemma inv_clear p : inv (clear p).
Proof.
  constructor; simpl; try apply pool_inv_default.
  destruct (ReadyTransactions.ready_inv_default) as [? ? ? ?]. by constructor.
Qed.

(** The hashes of the transactions the pool holds. *)
Definition in_pool (h : TxHash) (p : PoolInner) : Prop :=
  is_Some (ReadyTransactions.txs (ready_transactions p) !! h) ∨
  is_Some (waiting_queue (pending_transactions p) !! h).

Lemma contains_spec h p : contains h p = true ↔ in_pool h p.
Proof.
  unfold contains, in_pool, PendingTransactions.contains, ReadyTransactions.contains.
  rewrite orb_true_iff, !bool_decide_eq_true, ReadyTransactions.lookup_txs, fmap_is_Some.
  tauto.
Qed.

(** A transaction on its way to the ready queue. *)
Record importable (p : PoolInner) (tx : PendingPoolTransaction) : Prop := {
  imp_ready : is_ready tx = true;
  imp_markers : markers_ok (transaction tx);
  imp_fresh : ¬ in_pool (hash (transaction tx)) p;
}.

(** The invariant of the loop of [add_ready_transaction]. *)
Record loop_inv (fuel : nat) (tx_queue : list PendingPoolTransaction) (p : PoolInner) : Prop := {
  li_inv : inv p;
  li_queue : Forall (importable p) tx_queue;
  li_nodup : NoDup ((hash ∘ transaction) <$> tx_queue);
  li_fuel : length tx_queue + size (waiting_queue (pending_transactions p)) ≤ fuel;
}.

(** What unlocking does to a pool whose ready queue is not touched yet. *)
Lemma unlock_pool ms p :
  inv p →
  ∃ q new, PendingTransactions.mark_and_unlock ms (pending_transactions p) = Some (q, new) ∧
    inv (set_pending q p) ∧
    Forall (importable (set_pending q p)) new ∧
    NoDup ((hash ∘ transaction) <$> new) ∧
    (∀ h, in_pool h p ↔ in_pool h (set_pending q p) ∨ h ∈ (hash ∘ transaction) <$> new) ∧
    length new + size (waiting_queue q) = size (waiting_queue (pending_transactions p)) ∧
    (∀ m, m ∈ ms → required_markers q !! m = None).
Proof.
  intros Hi. pose proof (inv_pending _ Hi) as Hip.
  destruct (PendingTransactions.mark_and_unlock_unlocks ms _ Hip) as (q & new & Hm & Hu).
  pose proof (PendingTransactions.unlocks_queue _ _ _ _ Hu) as Hq.
  pose proof (PendingTransactions.unlocks_required _ _ _ _ Hu) as Hr.
  exists q, new. split_and!; [done| | | | | |].
  - constructor; simpl.
    + apply Hi.
    + apply Hu.
    + intros h Hh. rewrite Hq. by rewrite (inv_disjoint _ Hi _ Hh).
    + intros m Hs. rewrite Hr. case_decide; [done|]. by apply (inv_settled _ Hi).
    + intros h tx. rewrite Hq. intros (tx0 & Htx0 & Hst)%bind_Some.
      apply PendingTransactions.still_waiting_Some in Hst as [-> _].
      simpl. by apply (inv_pending_markers _ Hi h tx0).
  - apply Forall_forall. intros t Ht.
    apply (PendingTransactions.unlocks_new _ _ _ _ Hu) in Ht as (h & tx & Htx & Hn).
    pose proof (PendingTransactions.now_ready_hash _ _ _ Hn) as Htt.
    pose proof (PendingTransactions.inv_queue _ Hip _ _ Htx) as [Hh _].
    constructor; rewrite ?Htt.
    + unfold PendingTransactions.now_ready in Hn. by case_match; simplify_eq.
    + by apply (inv_pending_markers _ Hi h).
    + rewrite Hh. intros [Hin|Hin]; simpl in Hin.
      * apply (inv_disjoint _ Hi) in Hin. congruence.
      * rewrite Hq, Htx in Hin. simpl in Hin.
        assert (PendingTransactions.still_waiting ms tx = None) as Hs; [|rewrite Hs in Hin; by inversion Hin].
        apply PendingTransactions.still_waiting_now_ready. congruence.
  - apply Hu.
  - intros h. rewrite (PendingTransactions.unlocks_hashes _ _ _ _ _ Hip Hu). unfold in_pool; simpl.
    rewrite Hq. setoid_rewrite <-PendingTransactions.still_waiting_now_ready.
    destruct (waiting_queue (pending_transactions p) !! h) as [tx|] eqn:Htx; simpl.
    + split; [intros [?|?]; [auto|]|intros [[?|?]|?]; eauto].
      destruct (PendingTransactions.still_waiting ms tx) eqn:?; eauto.
    + split; [tauto|]. by intros [?|(? & ? & _)].
  - by apply (PendingTransactions.unlocks_size ms).
  - intros m Hm'. rewrite Hr. by rewrite decide_True.
Qed.

(** What inserting into the ready queue does to the pool. *)
Lemma insert_pool cur p removed ready' :
  let p' := set_ready ready' p in
  inv p → importable p cur →
  (∀ m, m ∈ provides (transaction cur) → required_markers (pending_transactions p) !! m = None) →
  ReadyTransactions.inserts (transaction cur) (ready_transactions p) removed ready' →
  inv p' ∧
  (∀ h, in_pool h p' → in_pool h p ∨ h = hash (transaction cur)) ∧
  (∀ h, in_pool h p → in_pool h p' ∨ h ∈ hash <$> removed).
Proof.
  intros p' Hi [_ _ Hf] Hreq [Hir Ht _ _ Hp].
  assert (Hfr : ReadyTransactions.txs (ready_transactions p) !! hash (transaction cur) = None ∧
                waiting_queue (pending_transactions p) !! hash (transaction cur) = None).
  { unfold in_pool in Hf. rewrite !eq_None_not_Some. tauto. }
  split_and!; [constructor; simpl| |].
  - done.
  - apply Hi.
  - intros h. rewrite Ht. repeat case_decide; [subst; intros _; tauto|by intros []|apply Hi].
  - intros m [h [?|?]%Hp]; [by apply Hreq|]. apply (inv_settled _ Hi). eauto.
  - apply Hi.
  - intros h. unfold in_pool; simpl. rewrite Ht. repeat case_decide; naive_solver.
  - intros h. unfold in_pool; simpl. rewrite Ht. repeat case_decide; naive_solver.
Qed.

(** The state of the loop after the current transaction unlocked others. *)
Lemma loop_unlock fuel cur rest p :
  loop_inv (S fuel) (cur :: rest) p →
  ∃ q new,
    PendingTransactions.mark_and_unlock (provides (transaction cur)) (pending_transactions p) =
      Some (q, new) ∧
    loop_inv fuel (rest ++ new) (set_pending q p) ∧
    importable (set_pending q p) cur ∧
    ¬ hash (transaction cur) ∈ ((hash ∘ transaction) <$> (rest ++ new)) ∧
    (∀ m, m ∈ provides (transaction cur) → required_markers q !! m = None) ∧
    (∀ h, in_pool h p ↔ in_pool h (set_pending q p) ∨ h ∈ (hash ∘ transaction) <$> new).
Proof.
  intros [Hi Hq Hnd Hfuel].
  apply Forall_cons in Hq as [Hcur Hrest].
  rewrite fmap_cons in Hnd. apply NoDup_cons in Hnd as [Hc Hnd].
  destruct (unlock_pool (provides (transaction cur)) p Hi)
    as (q & new & Hm & Hi' & Himp & Hnd' & Hin & Hsz & Hr).
  exists q, new.
  assert (Hold : ∀ tx, importable p tx → importable (set_pending q p) tx ∧
            hash (transaction tx) ∉ (hash ∘ transaction) <$> new).
  { intros tx [? ? Hf]. rewrite Hin in Hf. split; [constructor|]; tauto. }
  split_and!; [done| |by apply Hold| |done|done].
  - constructor; [done| | |].
    + apply Forall_app. split; [|done]. eapply Forall_impl; [exact Hrest|]. apply Hold.
    + rewrite fmap_app. apply NoDup_app. split_and!; [done| |done].
      intros h (tx & -> & Htx)%list_elem_of_fmap. rewrite Forall_forall in Hrest.
      by apply Hold, Hrest.
    + rewrite length_app. simpl in *. lia.
  - rewrite fmap_app, not_elem_of_app. split; [done|]. by apply Hold.
Qed.

(** The result of the loop. *)
Record loop_result (tx_queue : list PendingPoolTransaction) (p : PoolInner) (acc : ReadyAdded)
    (p' : PoolInner) (acc' : ReadyAdded) : Prop := {
  lr_inv : inv p';
  lr_hash : ra_hash acc' = ra_hash acc;
  lr_kept h : in_pool h p ∨ h ∈ (hash ∘ transaction) <$> tx_queue →
    in_pool h p' ∨ h ∈ hash <$> removed acc' ∨ h ∈ discarded acc';
  lr_ready h : is_Some (ReadyTransactions.txs (ready_transactions p) !! h) →
    is_Some (ReadyTransactions.txs (ready_transactions p') !! h) ∨ h ∈ hash <$> removed acc';
  lr_origin h : in_pool h p' → in_pool h p ∨ h ∈ (hash ∘ transaction) <$> tx_queue;
  lr_removed t : t ∈ removed acc → t ∈ removed acc';
  lr_discarded h : h ∈ discarded acc → h ∈ discarded acc';
  lr_gone h : h ∈ hash <$> removed acc' → h ∈ hash <$> removed acc ∨ ¬ in_pool h p';
}.

Lemma loop_result_nil p acc : inv p → loop_result [] p acc p acc.
Proof. intros. constructor; simpl; try done; naive_solver set_solver. Qed.

(** One turn in front of the rest of the loop. *)
Lemma loop_result_step cur rest new p q p1 acc acc1 p' acc' :
  (∀ h, in_pool h p ↔ in_pool h (set_pending q p) ∨ h ∈ (hash ∘ transaction) <$> new) →
  (∀ h, in_pool h p1 → in_pool h (set_pending q p) ∨ h = hash (transaction cur)) →
  (∀ h, in_pool h (set_pending q p) ∨ h = hash (transaction cur) →
     in_pool h p1 ∨ h ∈ hash <$> removed acc1 ∨ h ∈ discarded acc1) →
  (∀ h, is_Some (ReadyTransactions.txs (ready_transactions p) !! h) →
     is_Some (ReadyTransactions.txs (ready_transactions p1) !! h) ∨ h ∈ hash <$> removed acc1) →
  ra_hash acc1 = ra_hash acc → removed acc ⊆ removed acc1 → discarded acc ⊆ discarded acc1 →
  (∀ h, h ∈ hash <$> removed acc1 → h ∈ hash <$> removed acc ∨
     (is_Some (ReadyTransactions.txs (ready_transactions p) !! h) ∧ ¬ in_pool h p1)) →
  (∀ h, h ∈ (hash ∘ transaction) <$> (rest ++ new) → ¬ is_Some (ReadyTransactions.txs (ready_transactions p) !! h)) →
  loop_result (rest ++ new) p1 acc1 p' acc' →
  loop_result (cur :: rest) p acc p' acc'.
Proof.
  intros Hin Horig Hkept Hready Hh Hr Hd Hgone Hfresh [Hi Hh' Hk Hrd Ho Hr' Hd' Hg'].
  assert (Hup : ∀ h, h ∈ hash <$> removed acc1 → h ∈ hash <$> removed acc').
  { intros h (t & -> & ?)%list_elem_of_fmap. apply list_elem_of_fmap. eauto. }
  constructor; [done|congruence| | | |auto|auto|].
  - intros h. rewrite Hin, fmap_cons, elem_of_cons. intros Hc.
    assert (in_pool h (set_pending q p) ∨ h = hash (transaction cur) ∨
      h ∈ (hash ∘ transaction) <$> (rest ++ new)) as Hc'.
    { rewrite fmap_app, elem_of_app. simpl in Hc. tauto. }
    destruct Hc' as [?|[?|?]].
    1,2: destruct (Hkept h) as [?|[?|?]]; [tauto|apply Hk; tauto|auto|auto].
    apply Hk. tauto.
  - intros h Hs. destruct (Hready h Hs); [by apply Hrd|auto].
  - intros h [?%Horig|Hq]%Ho; [rewrite Hin, fmap_cons, elem_of_cons; simpl; tauto|].
    rewrite fmap_app, elem_of_app in Hq. rewrite Hin, fmap_cons, elem_of_cons. tauto.
  - intros h [[?|[Hs Hn]]%Hgone|?]%Hg'; [by left| |by right]. right. intros [?|Hq]%Ho; [done|]. by apply (Hfresh h).
Qed.

Lemma add_ready_loop_spec fuel is_new tx_queue acc p :
  loop_inv fuel tx_queue p →
  ∃ r p', add_ready_loop fuel is_new tx_queue acc p = Some (r, p') ∧
    match r with
    | Err e => is_new = true ∧ p' = p ∧
        ∃ cur rest, tx_queue = cur :: rest ∧ e = ReplacementUnderpriced (transaction cur)
    | Ok acc' => loop_result tx_queue p acc p' acc' ∧
        (is_new = true → ∀ cur rest, tx_queue = cur :: rest →
           is_Some (ReadyTransactions.txs (ready_transactions p') !! hash (transaction cur)) ∨
           hash (transaction cur) ∈ hash <$> removed acc')
    end.
Proof.
  revert is_new tx_queue acc p. induction fuel as [|fuel IH]; intros is_new tx_queue acc p Hli.
  { destruct tx_queue; [|destruct Hli; simpl in *; lia].
    eexists _, _. split; [done|]. split; [|done]. by apply loop_result_nil, (li_inv _ _ _ Hli). }
  destruct tx_queue as [|cur rest].
  { eexists _, _. split; [done|]. split; [|done]. by apply loop_result_nil, (li_inv _ _ _ Hli). }
  pose proof (li_inv _ _ _ Hli) as Hi.
  destruct (loop_unlock _ _ _ _ Hli) as (q & new & Hmark & Hli' & Hcur & Hne & Hreq & Hin).
  cbn [add_ready_loop]. rewrite Hmark. cbn [mbind option_bind].
  destruct (ReadyTransactions.ready_add_spec cur (ready_transactions p))
    as (r & ready' & -> & Hr).
  { apply Hi. } { apply Hcur. }
  { apply eq_None_not_Some. intros ?. apply (imp_fresh _ _ Hcur). by left. }
  { apply Hcur. }
  cbn [mbind option_bind]. destruct r as [repl|e].
  - destruct (insert_pool cur (set_pending q p) repl ready') as (Hi1 & Ho1 & Hk1);
      [apply Hli'|done..|].
    assert (Hli1 : loop_inv fuel (rest ++ new)
      {| ready_transactions := ready'; pending_transactions := q |}).
    { destruct Hli' as [_ Hq Hnd Hfu]. constructor; [done| |done|done].
      apply Forall_forall. intros tx Htx. rewrite Forall_forall in Hq.
      destruct (Hq tx Htx) as [? ? Hf]. constructor; [done..|].
      intros [?|He]%Ho1; [done|]. apply Hne. rewrite <-He. apply list_elem_of_fmap. eauto. }
    match goal with |- context [add_ready_loop fuel false _ ?a _] => set (acc1 := a) end.
    destruct (IH false _ acc1 _ Hli1) as (r & p' & -> & Hr').
    eexists _, _. split; [done|]. destruct r as [acc'|e]; [|by destruct Hr'].
    destruct Hr' as [Hres _].
    assert (Hrd : ∀ h, is_Some (ReadyTransactions.txs (ready_transactions p) !! h) ∨
        h = hash (transaction cur) →
      is_Some (ReadyTransactions.txs ready' !! h) ∨ h ∈ hash <$> repl).
    { intros h. rewrite (ReadyTransactions.inserts_txs _ _ _ _ Hr).
      repeat case_decide; naive_solver. }
    assert (Hrepl : ∀ h, h ∈ hash <$> repl → h ∈ hash <$> removed acc1).
    { intros h ?. simpl. rewrite fmap_app, elem_of_app. by right. }
    assert (Hnew : ∀ h, h ∈ (hash ∘ transaction) <$> (rest ++ new) →
      ¬ is_Some (ReadyTransactions.txs (ready_transactions p) !! h)).
    { intros h (t & -> & Ht)%list_elem_of_fmap Hs. destruct Hli' as [_ Hq' _ _]. rewrite Forall_forall in Hq'.
      apply (imp_fresh _ _ (Hq' t Ht)). by left. }
    split.
    + eapply (loop_result_step cur rest new p q _ acc acc1); try done.
      * intros h Hh. destruct Hh as [Hh| ->].
        -- destruct (Hk1 h Hh); [by left|right; left; auto].
        -- destruct (Hrd (hash (transaction cur))); [by right|by left; left|right; left; auto].
      * intros h Hh. destruct (Hrd h); [by left|by left|right; auto].
      * simpl. set_solver.
      * intros h. simpl. rewrite fmap_app, elem_of_app. intros [?|Hre]; [by left|right].
        apply list_elem_of_fmap in Hre as (t & -> & Ht). pose proof (ReadyTransactions.inserts_removed _ _ _ _ Hr t Ht) as Hat.
        assert (is_Some (ReadyTransactions.txs (ready_transactions p) !! hash t)) as Hs by by eexists.
        split; [exact Hs|]. intros [Hin'|Hin']; simpl in Hin'.
        -- rewrite (ReadyTransactions.inserts_txs _ _ _ _ Hr) in Hin'.
           rewrite decide_False, decide_True in Hin'; [by inversion Hin'|apply list_elem_of_fmap; eauto|].
           intros He. apply (imp_fresh _ _ Hcur). left. simpl. by rewrite <-He.
        -- pose proof (inv_disjoint _ (li_inv _ _ _ Hli') (hash t) Hs) as Hd. simpl in Hd.
           rewrite Hd in Hin'. by inversion Hin'.
    + intros _ cur' rest' [= <- <-].
      destruct (Hrd (hash (transaction cur))) as [Hs|Hs]; [by right| |].
      * by apply (lr_ready _ _ _ _ _ Hres).
      * right. apply Hrepl in Hs. apply list_elem_of_fmap in Hs as (t & -> & ?).
        apply list_elem_of_fmap. exists t. split; [done|]. by apply (lr_removed _ _ _ _ _ Hres).
  - destruct Hr as (-> & -> & Hprov). destruct is_new.
    + eexists _, _. split; [done|]. split; [done|]. split; [|by exists cur, rest].
      rewrite PendingTransactions.mark_and_unlock_none in Hmark; last first.
      { intros m Hm. by apply (inv_settled _ Hi), Hprov. }
      injection Hmark as <- <-. by destruct p.
    + match goal with |- context [add_ready_loop fuel false _ ?a _] => set (acc1 := a) end.
      destruct (IH false (rest ++ new) acc1 (set_pending q p) Hli') as (r & p' & Hrun & Hr').
      eexists _, _. split; [exact Hrun|]. destruct r as [acc'|e]; [|by destruct Hr'].
      destruct Hr' as [Hres _]. split; [|done].
      eapply (loop_result_step cur rest new p q _ acc acc1); try done.
      * by left.
      * intros h [?| ->]; [by left|right; right]. simpl. set_solver.
      * by left.
      * simpl. set_solver.
      * by left.
      * intros h (t & -> & Ht)%list_elem_of_fmap Hs. destruct Hli' as [_ Hq' _ _]. rewrite Forall_forall in Hq'.
        apply (imp_fresh _ _ (Hq' t Ht)). by left.
Qed.

(** Removing from the ready queue keeps the invariant of the pool. *)
Lemma shrink_ready p removed ready' :
  inv p → ReadyTransactions.removes ∅ (ready_transactions p) removed ready' →
  inv (set_ready ready' p) ∧ (∀ h, in_pool h (set_ready ready' p) → in_pool h p).
Proof.
  intros Hi Hr.
  assert (Hsub : ∀ h, is_Some (ReadyTransactions.txs ready' !! h) →
                 is_Some (ReadyTransactions.txs (ready_transactions p) !! h)).
  { intros h [t Ht]. exists t. by eapply ReadyTransactions.removes_lookup. }
  split; [constructor; simpl|].
  - apply Hr.
  - apply Hi.
  - intros h ?%Hsub. by apply Hi.
  - intros m [h Hm]. apply (inv_settled _ Hi). exists h.
    by apply (ReadyTransactions.removes_provided _ _ _ _ Hr).
  - apply Hi.
  - intros h. unfold in_pool. simpl. intros [?|?]; auto.
Qed.

Lemma add_ready_transaction_spec tx p :
  inv p → importable p tx →
  ∃ r p', add_ready_transaction tx p = Some (r, p') ∧ inv p' ∧
    (∀ h, in_pool h p' → in_pool h p ∨ h = hash (transaction tx)) ∧
    match r with
    | Err e => (e = CyclicTransaction ∧ ¬ in_pool (hash (transaction tx)) p') ∨
        (p' = p ∧ e = ReplacementUnderpriced (transaction tx))
    | Ok (Ready ready) =>
        loop_result [tx] p (ReadyAdded_new (hash (transaction tx))) p' ready ∧
        is_Some (ReadyTransactions.txs (ready_transactions p') !! hash (transaction tx))
    | Ok (Pending _) => False
    end.
Proof.
  intros Hi Himp. unfold add_ready_transaction.
  destruct (add_ready_loop_spec (S (size (waiting_queue (pending_transactions p)))) true [tx]
    (ReadyAdded_new (hash (transaction tx))) p) as (r & p1 & -> & Hr).
  { constructor; [done|by constructor|apply NoDup_singleton|simpl; lia]. }
  cbn [mbind option_bind]. destruct r as [ready|e]; last first.
  { destruct Hr as (_ & -> & cur & rest & [= <- <-] & ->).
    eexists _, _. split; [done|]. split; [done|]. split; [by left|by right]. }
  destruct Hr as [Hres Hhead].
  assert (Horig : ∀ h, in_pool h p1 → in_pool h p ∨ h = hash (transaction tx)).
  { intros h [?|Hh]%(lr_origin _ _ _ _ _ Hres); [by left|right].
    by apply list_elem_of_singleton in Hh. }
  destruct (existsb _ _) eqn:Hex.
  - destruct (ReadyTransactions.remove_with_markers_spec (promoted ready) None (ready_transactions p1))
      as (rem & ready' & Hrm & Hrems & _); [apply Hres|].
    unfold ReadyTransactions.clear_transactions. rewrite Hrm. cbn [mbind option_bind].
    destruct (shrink_ready p1 rem ready') as [Hi' Hsub]; [apply Hres|done|].
    eexists _, _. split; [done|]. split; [done|]. split; [auto|]. left. split; [done|].
    intros Hin%Hsub. apply existsb_exists in Hex as (t & Ht & Heq%bool_decide_eq_true).
    destruct (lr_gone _ _ _ _ _ Hres (hash (transaction tx))) as [Hn|Hn]; [|by apply not_elem_of_nil in Hn|done].
    apply list_elem_of_fmap. exists t. split; [done|]. by apply list_elem_of_In.
  - eexists _, _. split; [done|]. split; [apply Hres|]. split; [done|]. split; [done|].
    destruct (Hhead eq_refl tx []) as [?|Hin]; [done|done|].
    apply list_elem_of_fmap in Hin as (t & Ht & Hin).
    assert (existsb (λ t, bool_decide (hash t = hash (transaction tx))) (removed ready) = true) as Hx;
      [|congruence].
    apply existsb_exists. exists t. split; [by apply list_elem_of_In|].
    by apply bool_decide_eq_true.
Qed.

Lemma pending_new_missing tx provided m :
  m ∈ missing_markers (PendingPoolTransaction_new tx provided) ↔
  m ∈ requires tx ∧ provided !! m = None.
Proof. simpl. rewrite elem_of_list_to_set, list_elem_of_filter. tauto. Qed.

Lemma add_transaction_spec tx p :
  inv p → markers_ok tx →
  ∃ r p', add_transaction tx p = Some (r, p') ∧ inv p' ∧
    match r with
    | Ok (Ready ready) =>
        let ptx := PendingPoolTransaction_new tx (provided_markers (ready_transactions p)) in
        is_ready ptx = true ∧ ¬ in_pool (hash tx) p ∧
        loop_result [ptx] p (ReadyAdded_new (hash tx)) p' ready ∧
        is_Some (ReadyTransactions.txs (ready_transactions p') !! hash tx)
    | Ok (Pending h) => h = hash tx ∧ ¬ in_pool (hash tx) p ∧
        is_Some (waiting_queue (pending_transactions p') !! h) ∧
        ∀ k, in_pool k p' ↔ in_pool k p ∨ k = h
    | Err e => (e = CyclicTransaction ∧ ¬ in_pool (hash tx) p' ∧ ∀ h, in_pool h p' → in_pool h p) ∨
        (p' = p ∧ e ≠ CyclicTransaction)
    end.
Proof.
  intros Hi Hok. unfold add_transaction.
  destruct (contains (hash tx) p) eqn:Hc.
  { eexists _, _. split; [done|]. split; [done|right]. by split. }
  assert (Hf : ¬ in_pool (hash tx) p) by (rewrite <-contains_spec; by destruct (contains _ _)).
  set (ptx := PendingPoolTransaction_new tx (provided_markers (ready_transactions p))).
  destruct (is_ready ptx) eqn:Hrdy; simpl negb; cbv iota.
  - destruct (add_ready_transaction_spec ptx p Hi) as (r & p' & Hrun & Hi' & Horig & Hr); [done|].
    eexists _, _. split; [exact Hrun|]. split; [done|].
    destruct r as [[ready|]|e]; [by destruct Hr|done|]. destruct Hr as [[He Hn]|[-> ->]]; [|by right].
    left. split_and!; [done..|]. intros h Hh. destruct (Horig h Hh) as [?| ->]; done.
  - destruct (PendingTransactions.pending_add_spec ptx (pending_transactions p))
      as (r & q & Hrun & Hiq & Hr); [apply Hi|done| |].
    { apply PendingTransactions.contains_false, eq_None_not_Some. intros ?. apply Hf. by right. }
    rewrite Hrun. cbn [mbind option_bind]. eexists _, _. split; [done|].
    destruct r as [u|e]; last first.
    { destruct Hr as [Hq He]. assert (set_pending q p = p) as -> by (rewrite Hq; by destruct p).
      split; [done|right]. split; [done|]. by rewrite He. }
    change (hash (transaction ptx)) with (hash tx) in *.
    assert (Hpool : ∀ k, in_pool k (set_pending q p) ↔ in_pool k p ∨ k = hash tx).
    { intros k. unfold in_pool; simpl. rewrite Hr, lookup_insert. case_decide; naive_solver. }
    split; [|split_and!; [done|done| |done]]; last first.
    { simpl. by rewrite Hr, lookup_insert_eq. }
    constructor; simpl.
    + apply Hi.
    + done.
    + intros h Hh. rewrite Hr, lookup_insert_ne; [by apply Hi|].
      intros He. apply Hf. left. by rewrite He.
    + intros m Hm. destruct (required_markers q !! m) as [hs|] eqn:Hhs; [|done].
      destruct (PendingTransactions.inv_nonempty _ Hiq _ _ Hhs). apply set_eq. intros h.
      pose proof (PendingTransactions.inv_index _ Hiq m h) as Hidx. rewrite Hhs in Hidx.
      simpl in Hidx. rewrite Hidx. split; [|set_solver].
      intros (t & Ht & Hmt). exfalso. rewrite Hr, lookup_insert in Ht. case_decide.
      * simplify_eq. apply pending_new_missing in Hmt as [_ Hn].
        rewrite Hn in Hm. by inversion Hm.
      * assert (Hin : h ∈ default ∅ (required_markers (pending_transactions p) !! m)).
        { apply (PendingTransactions.inv_index _ (inv_pending _ Hi)). by exists t. }
        rewrite (inv_settled _ Hi) in Hin by done. set_solver.
    + intros h t. rewrite Hr, lookup_insert. case_decide; [|by apply Hi].
      intros [= <-]. done.
Qed.

Lemma remove_hashes_spec hs p :
  inv p →
  ∃ out p', remove_hashes hs p = Some (out, p') ∧ inv p' ∧
    (∀ h, in_pool h p' → in_pool h p ∧ h ∉ hs).
Proof.
  intros Hi. unfold remove_hashes. destruct hs as [|h0 hs0] eqn:Hhs.
  { exists [], p. split; [done|]. split; [done|]. intros h ?. split; [done|apply not_elem_of_nil]. }
  rewrite <-Hhs. clear Hhs.
  destruct (ReadyTransactions.remove_with_markers_spec hs None (ready_transactions p))
    as (rm & ready' & -> & Hr & Hgone); [apply Hi|]. cbn [mbind option_bind].
  destruct (shrink_ready p rm ready' Hi Hr) as [Hi1 Hsub].
  unfold PendingTransactions.remove.
  destruct (PendingTransactions.remove_loop hs (pending_transactions p) [] (inv_pending _ Hi))
    as (q & out & -> & Hiq & Hq & _ & Hreq).
  eexists _, _. split; [done|].
  assert (Hqs : ∀ h, is_Some (waiting_queue q !! h) →
     is_Some (waiting_queue (pending_transactions p) !! h) ∧ h ∉ hs).
  { intros h. rewrite Hq. case_decide; [by intros []|done]. }
  split; [constructor; simpl|].
  - apply Hr.
  - done.
  - intros h Hh. pose proof (inv_disjoint _ Hi1 h Hh) as Hn. simpl in Hn.
    rewrite Hq. by case_decide.
  - intros m Hm. apply Hreq. by apply (inv_settled _ Hi1).
  - intros h tx. rewrite Hq. case_decide; [done|apply Hi].
  - intros h [Hh|Hh]; simpl in Hh.
    + split; [apply Hsub; by left|]. intros Hin. rewrite (Hgone _ Hin) in Hh. by inversion Hh.
    + apply Hqs in Hh as [? ?]. split; [by right|done].
Qed.

(** The transactions unlocked so far, on their way to the ready queue. *)
Record imports_ok (imports : list PendingPoolTransaction) (p : PoolInner) : Prop := {
  io_inv : inv p;
  io_imports : Forall (importable p) imports;
  io_nodup : NoDup ((hash ∘ transaction) <$> imports);
}.

Lemma importable_anti p p' tx :
  (∀ h, in_pool h p' → in_pool h p) → importable p tx → importable p' tx.
Proof. intros Hsub [? ? Hf]. constructor; auto. Qed.

Lemma prune_marker_spec imports pr p m :
  imports_ok imports p →
  ∃ imports' pr' p', prune_marker (imports, pr, p) m = Some (imports', pr', p') ∧
    imports_ok imports' p' ∧
    (∀ h, in_pool h p' ∨ h ∈ (hash ∘ transaction) <$> imports' →
          in_pool h p ∨ h ∈ (hash ∘ transaction) <$> imports) ∧
    (∀ h, in_pool h p ∨ h ∈ (hash ∘ transaction) <$> imports →
          in_pool h p' ∨ h ∈ (hash ∘ transaction) <$> imports' ∨ h ∈ hash <$> pr') ∧
    (∀ t, t ∈ pr → t ∈ pr') ∧ provided_markers (ready_transactions p') !! m = None.
Proof.
  intros [Hi Himp Hnd]. unfold prune_marker.
  destruct (unlock_pool [m] p Hi) as (q & new & -> & Hi1 & Himp1 & Hnd1 & Hin & _).
  cbn [mbind option_bind].
  destruct (ReadyTransactions.prune_tags_spec m (ready_transactions p))
    as (rm & ready' & -> & Hr & Hm); [apply Hi|]. cbn [mbind option_bind].
  destruct (shrink_ready (set_pending q p) rm ready' Hi1 Hr) as [Hi2 Hsub].
  eexists _, _, _. split; [done|].
  split; [|split_and!].
  - constructor; [done| |].
    + apply Forall_app. split; eapply Forall_impl; [exact Himp| |exact Himp1|].
      * intros tx Htx. eapply importable_anti, Htx. intros h ?%Hsub. apply Hin. by left.
      * intros tx Htx. by eapply importable_anti, Htx.
    + rewrite fmap_app. apply NoDup_app. split_and!; [done| |done].
      intros h (tx & -> & Htx)%list_elem_of_fmap Hh. rewrite Forall_forall in Himp.
      apply (imp_fresh _ _ (Himp _ Htx)). apply Hin. by right.
  - intros h. rewrite fmap_app, elem_of_app, Hin. intros [?%Hsub|?]; tauto.
  - intros h. rewrite !fmap_app, !elem_of_app, Hin. intros [[Hh|?]|?]; [|tauto..].
    destruct Hh as [Hh|Hh]; [|left; by right]. simpl in Hh.
    destruct (decide (h ∈ hash <$> rm)); [tauto|]. left. left. simpl.
    rewrite (ReadyTransactions.removes_txs _ _ _ _ Hr). by rewrite decide_False.
  - intros t ?. apply elem_of_app. by left.
  - done.
Qed.

Lemma import_one_spec prom fail p tx rest :
  imports_ok (tx :: rest) p →
  ∃ prom' fail' p', import_one (prom, fail, p) tx = Some (prom', fail', p') ∧ imports_ok rest p'.
Proof.
  intros [Hi Himp Hnd]. apply Forall_cons in Himp as [Htx Hrest].
  rewrite fmap_cons in Hnd. apply NoDup_cons in Hnd as [Hne Hnd]. unfold import_one.
  destruct (add_ready_transaction_spec tx p Hi Htx) as (r & p' & -> & Hi' & Horig & _).
  cbn [mbind option_bind].
  assert (Hok : imports_ok rest p').
  { constructor; [done| |done]. apply Forall_forall. intros t Ht.
    rewrite Forall_forall in Hrest. destruct (Hrest t Ht) as [? ? Hf].
    constructor; [done..|]. intros [?|He]%Horig; [done|]. apply Hne. simpl. rewrite <-He.
    apply list_elem_of_fmap. eauto. }
  destruct r; eauto 6.
Qed.

Lemma prune_markers_spec ms p :
  inv p → ∃ res p', prune_markers ms p = Some (res, p') ∧ inv p'.
Proof.
  intros Hi. unfold prune_markers.
  destruct (fold_opt_inv (λ '(imports, _, p), imports_ok imports p) prune_marker ms ([], [], p))
    as ([[imports pr] p1] & -> & Hok).
  - constructor; [done|constructor|constructor].
  - intros [[im pr] p0] m Hok _.
    destruct (prune_marker_spec im pr p0 m Hok) as (im' & pr' & p' & -> & ? & _). by eexists.
  - cbn [mbind option_bind].
    assert (Hloop : ∀ l prom fail p, imports_ok l p →
      ∃ prom' fail' p', fold_opt import_one (prom, fail, p) l = Some (prom', fail', p') ∧ inv p').
    { intros l. induction l as [|tx l IH]; intros prom fail p0 Hl.
      - eexists _, _, _. split; [done|]. apply Hl.
      - cbn [fold_opt]. destruct (import_one_spec prom fail p0 tx l Hl) as (? & ? & ? & -> & ?).
        by apply IH. }
    destruct (Hloop imports [] [] p1 Hok) as (? & ? & p2 & -> & ?). cbn [mbind option_bind].
    by eexists _, _.
Qed.

(** C2: a transaction that is in the pool already or underpriced is rejected and
    leaves the pool exactly as it was.  One that is accepted is in the pool, where
    [get_transaction] finds it, and no transaction the pool held is lost: each is
    still there, or was replaced, or is reported as discarded.  One that is
    rejected because a transaction it unlocks replaces it is not in the pool
    afterwards, and nothing else has entered it; transactions that it replaced or
    unlocked may have left the pool, which the error does not report
    ([cyclic_loses_transactions]). *)
Theorem add_transaction_outcome tx p :
  inv p → markers_ok tx →
  ∃ r p', add_transaction tx p = Some (r, p') ∧ inv p' ∧
    match r with
    | Err CyclicTransaction =>
        contains (hash tx) p' = false ∧ ∀ h, contains h p' = true → contains h p = true
    | Err (ReplacementUnderpriced _) | Err (AlreadyImported _) => p' = p
    | Ok added =>
        AddedTransaction_hash added = hash tx ∧ contains (hash tx) p = false ∧
        contains (hash tx) p' = true ∧ is_Some (get_transaction (hash tx) p') ∧
        ∀ h, contains h p = true → contains h p' = true ∨
          match added with
          | Ready ready => h ∈ hash <$> removed ready ∨ h ∈ discarded ready
          | Pending _ => False
          end
    end.
Proof.
  intros Hi Hok. destruct (add_transaction_spec tx p Hi Hok) as (r & p' & Hrun & Hi' & Hr).
  exists r, p'. split; [done|]. split; [done|].
  assert (Hget : in_pool (hash tx) p' → is_Some (get_transaction (hash tx) p')).
  { unfold in_pool, get_transaction, PendingTransactions.get, ReadyTransactions.get.
    rewrite ReadyTransactions.lookup_txs, fmap_is_Some.
    destruct (waiting_queue _ !! _); [by eexists|].
    intros [[rt Hrt]|[? [=]]]. rewrite Hrt. by eexists. }
  assert (Hno : ∀ p, ¬ in_pool (hash tx) p → contains (hash tx) p = false).
  { intros q. rewrite <-contains_spec. by destruct (contains _ _). }
  destruct r as [[ready|h]|e]; cycle 2.
  { destruct Hr as [(-> & Hn & Hsub)|[-> Hne]].
    - split; [by apply Hno|]. intros h Hh%contains_spec. by apply contains_spec, Hsub.
    - by destruct e. }
  - destruct Hr as (_ & Hf & Hres & Hs).
    assert (in_pool (hash tx) p') as Hin by by left.
    pose proof (lr_hash _ _ _ _ _ Hres) as Hh. split_and!; [exact Hh|auto|by apply contains_spec|auto|].
    intros h Hk%contains_spec. destruct (lr_kept _ _ _ _ _ Hres h) as [?|?]; [by left| |by right].
    left. by apply contains_spec.
  - destruct Hr as (-> & Hf & Hs & Hpool).
    assert (in_pool (hash tx) p') as Hin by by right.
    split_and!; [done|auto|by apply contains_spec|auto|].
    intros h Hh%contains_spec. left. apply contains_spec, Hpool. by left.
Qed.

End hash_order.

(** A transaction that needs nothing and provides the marker of nonce 7. *)
Definition ex_tx : PoolTransaction :=
  rpc_pool_transaction Fees
    {| pt_transaction := transfer 7 5;
       pt_sender := 255; pt_hash := 1 |} 7 7.

Lemma ex_tx_markers : markers_ok ex_tx.
Proof.
  constructor.
  - apply NoDup_singleton.
  - intros m Hm%list_elem_of_singleton. subst. by intros ?%not_elem_of_nil.
Qed.

(** A transaction that unlocks its own replacement: the second one provides
    both markers the first one needs and provides, and is replaced as soon as
    it promotes it.  Neither is in the pool in the end; the comment of
    [add_ready_transaction] says the transaction moves back to the pending
    queue. *)
Example cyclic_loses_transactions :
  let ex := PendingTransactions.ex_tx in
  let waiting := (ex 2 9 [[1]] [[2]])%Z in
  let cyclic := (ex 1 5 [] [[1]; [2]])%Z in
  match @add_transaction elements_iter waiting pool_default with
  | Some (Ok (Pending h), p) =>
      h = 2%Z ∧ contains 2 p = true ∧
      match @add_transaction elements_iter cyclic p with
      | Some (Err CyclicTransaction, p) => contains 1 p = false ∧ contains 2 p = false
      | _ => False
      end
  | _ => False
  end.
Proof. by vm_compute. Qed.

Lemma add_transaction_outcome_witness :
  inv pool_default ∧ markers_ok ex_tx ∧
  ∃ r p', @add_transaction elements_iter ex_tx pool_default = Some (r, p') ∧ inv p'.
Proof.
  split; [apply pool_inv_default|]. split; [apply ex_tx_markers|].
  destruct (@add_transaction_outcome elements_iter ex_tx pool_default pool_inv_default ex_tx_markers)
    as (r & p' & Hrun & Hi & _).
  by exists r, p'.
Defined.
End PoolInner.

(** ** The pool in front of it *)

Module Pool.
Section hash_order.
Context `{HashIter}.

Definition pending_transactions (p : PoolInner) : list PoolTransaction :=
  PendingTransactions.transactions (pending_transactions p).

(** [usize] to [u64]. *)
Definition txpool_status (p : PoolInner) : TxpoolStatus :=
  {| status_pending := Z.of_nat (ReadyTransactions.len (ready_transactions p));
     status_queued := Z.of_nat (PendingTransactions.len (TxPool.pending_transactions p)) |}.

(** The outcome of a mined block: its transactions, and those found invalid. *)
Record MinedBlockOutcome := mkMinedBlockOutcome {
  block_number : Z;
  included : list PoolTransaction;
  invalid : list PoolTransaction;
}.

Definition on_mined_block (outcome : MinedBlockOutcome) (p : PoolInner)
    : option (PruneResult * PoolInner) :=
  '(_, p) ← PoolInner.remove_invalid (hash <$> invalid outcome) p;
  PoolInner.prune_markers (mjoin (provides <$> included outcome)) p.

Definition drop_transaction (tx : TxHash) (p : PoolInner)
    : option (option PoolTransaction * PoolInner) :=
  '(removed, ready) ← ReadyTransactions.remove_with_markers [tx] None (ready_transactions p);
  Some (snd <$> list_find (λ t, hash t = tx) removed, PoolInner.set_ready ready p).

(** *** Request sequences *)

Inductive request :=
| AddTransaction (tx : PoolTransaction)
| PruneMarkers (markers : list TxMarker)
| RemoveInvalid (tx_hashes : list TxHash)
| RemoveByAddress (n : nat) (sender : Address)
| MinedBlock (outcome : MinedBlockOutcome)
| DropTransaction (tx : TxHash)
| Clear.

(** The pool after a request; [None] is a panic. *)
Definition serve (p : PoolInner) (r : request) : option PoolInner :=
  match r with
  | AddTransaction tx => snd <$> PoolInner.add_transaction tx p
  | PruneMarkers markers => snd <$> PoolInner.prune_markers markers p
  | RemoveInvalid tx_hashes => snd <$> PoolInner.remove_invalid tx_hashes p
  | RemoveByAddress n sender => snd <$> PoolInner.remove_transactions_by_address n sender p
  | MinedBlock outcome => snd <$> on_mined_block outcome p
  | DropTransaction tx => snd <$> drop_transaction tx p
  | Clear => Some (PoolInner.clear p)
  end.

Definition request_ok (r : request) : Prop :=
  match r with AddTransaction tx => markers_ok tx | _ => True end.

Lemma drop_transaction_spec tx p :
  PoolInner.inv p → ∃ r p', drop_transaction tx p = Some (r, p') ∧ PoolInner.inv p' ∧
    ReadyTransactions.txs (ready_transactions p') !! tx = None.
Proof.
  intros Hi. unfold drop_transaction.
  destruct (ReadyTransactions.remove_with_markers_spec [tx] None (ready_transactions p))
    as (rm & ready' & -> & Hr & Hgone); [apply Hi|]. cbn [mbind option_bind].
  eexists _, _. split; [done|]. split; [by eapply PoolInner.shrink_ready|].
  apply Hgone. left.
Qed.

Lemma serve_inv p r :
  PoolInner.inv p → request_ok r → ∃ p', serve p r = Some p' ∧ PoolInner.inv p'.
Proof.
  intros Hi Hr. destruct r as [tx|ms|hs|n sender|outcome|tx|]; simpl.
  - destruct (PoolInner.add_transaction_spec tx p Hi Hr) as (? & p' & -> & ? & _). by exists p'.
  - destruct (PoolInner.prune_markers_spec ms p Hi) as (? & p' & -> & ?). by exists p'.
  - destruct (PoolInner.remove_hashes_spec hs p Hi) as (? & p' & Hrun & ? & _).
    unfold PoolInner.remove_invalid. rewrite Hrun. by exists p'.
  - unfold PoolInner.remove_transactions_by_address.
    match goal with |- context [PoolInner.remove_hashes ?hs p] =>
      destruct (PoolInner.remove_hashes_spec hs p Hi) as (? & p' & -> & ? & _) end.
    by exists p'.
  - unfold on_mined_block, PoolInner.remove_invalid.
    destruct (PoolInner.remove_hashes_spec (hash <$> invalid outcome) p Hi)
      as (? & p1 & -> & Hi1 & _). cbn [mbind option_bind].
    destruct (PoolInner.prune_markers_spec (mjoin (provides <$> included outcome)) p1 Hi1)
      as (? & p' & -> & ?). by exists p'.
  - destruct (drop_transaction_spec tx p Hi) as (? & p' & -> & ? & _). by exists p'.
  - eexists. split; [done|]. apply PoolInner.inv_clear.
Qed.

(** C1: no sequence of requests makes the pool panic, whatever order the hash
    sets are iterated in, and the pool stays well formed: no transaction is in
    both queues, a pending transaction never waits for a marker a ready
    transaction provides, and every map of the two queues agrees with the
    transactions they hold. *)
Theorem requests_safe rs :
  Forall request_ok rs → ∃ p, fold_opt serve pool_default rs = Some p ∧ PoolInner.inv p.
Proof.
  intros Hrs. apply (fold_opt_inv PoolInner.inv); [apply PoolInner.pool_inv_default|].
  intros p r Hi Hr. apply serve_inv; [done|]. rewrite Forall_forall in Hrs. by apply Hrs.
Qed.
End hash_order.

Lemma requests_safe_witness :
  ∃ p, fold_opt (@serve elements_iter) pool_default
    [AddTransaction PoolInner.ex_tx; DropTransaction 1; AddTransaction PoolInner.ex_tx;
     MinedBlock {| block_number := 1; included := [PoolInner.ex_tx]; invalid := [] |}] = Some p ∧
    PoolInner.inv p.
Proof.
  apply (@requests_safe elements_iter).
  repeat apply Forall_cons_2; try apply Forall_nil_2; try exact I; apply PoolInner.ex_tx_markers.
Defined.

(** The hashes [notify_ready] sends for an addition, in order. *)
Definition notify_ready (tx : AddedTransaction) : list TxHash :=
  match tx with
  | Ready ready => ra_hash ready :: promoted ready
  | Pending _ => []
  end.

(** *** Listeners

    A channel's [try_send] is a parameter: it delivers the hash, finds the
    buffer full, or finds the receiver gone. *)
Inductive send_result := Sent | Full | Disconnected.

Section listeners.
Context {Sender : Type} (try_send : TxHash → Sender → send_result * Sender).

(** One turn of the loop for index [n]. *)
Definition notify_one (h : TxHash) (listener : list Sender) (n : nat) : option (list Sender) :=
  listener_tx ← listener !! n;                      (* swap_remove panics out of range *)
  let listener := swap_remove n listener in
  let '(res, listener_tx) := try_send h listener_tx in
  let retain := match res with Sent | Full => true | Disconnected => false end in
  Some (if retain : bool then listener ++ [listener_tx] else listener).

Definition notify_listener (h : TxHash) (listener : list Sender) : option (list Sender) :=
  fold_opt (notify_one h) listener (rev (seq 0 (length listener))).

(** What one visit leaves of a listener. *)
Definition visited (h : TxHash) (listener_tx : Sender) : option Sender :=
  match try_send h listener_tx with
  | (Disconnected, _) => None
  | (_, listener_tx) => Some listener_tx
  end.

(** The turn for the last listener not visited yet. *)
Lemma notify_one_spec h todo x seen :
  ∃ l, notify_one h (todo ++ x :: seen) (length todo) = Some (todo ++ l) ∧
    l ≡ₚ omap (visited h) [x] ++ seen.
Proof.
  unfold notify_one. rewrite list_lookup_middle by done. cbn [mbind option_bind].
  assert (Hrest : ∃ seen', swap_remove (length todo) (todo ++ x :: seen) = todo ++ seen' ∧
    seen' ≡ₚ seen).
  { unfold swap_remove. destruct seen as [|z seen _] using rev_ind.
    - rewrite last_snoc. exists []. split; [|done]. rewrite length_app. simpl.
      rewrite Nat.add_1_r. simpl. rewrite app_nil_r, take_app_length.
      by rewrite list_insert_ge.
    - change (x :: seen ++ [z]) with ((x :: seen) ++ [z]). rewrite app_assoc, last_snoc.
      exists (z :: seen). split; [|by rewrite <-Permutation_cons_append].
      rewrite length_app. simpl. rewrite Nat.add_1_r. simpl. rewrite take_app_length.
      by rewrite insert_app_r_alt, Nat.sub_diag by done. }
  destruct Hrest as (seen' & -> & Hp). unfold visited. simpl.
  destruct (try_send h x) as [[] x']; simpl.
  1,2: exists (seen' ++ [x']); split; [by rewrite app_assoc|];
    by rewrite <-Permutation_cons_append, Hp.
  by exists seen'.
Qed.

(** Notifying the listeners never indexes out of range, although it
    swap-removes from the vector it pushes to: it visits every listener once
    and keeps, in the state their [try_send] leaves them, exactly those that
    are still connected. *)
Theorem notify_listener_visits h listener :
  ∃ listener', notify_listener h listener = Some listener' ∧
    listener' ≡ₚ omap (visited h) listener.
Proof.
  unfold notify_listener.
  assert (Hgen : ∀ todo seen, ∃ l,
    fold_opt (notify_one h) (todo ++ seen) (rev (seq 0 (length todo))) = Some l ∧
    l ≡ₚ omap (visited h) todo ++ seen).
  { intros todo. induction todo as [|x todo IH] using rev_ind; intros seen.
    { by exists seen. }
    rewrite length_app, seq_app, rev_app_distr. simpl length. simpl seq. simpl rev.
    rewrite <-app_assoc. simpl app.
    destruct (notify_one_spec h todo x seen) as (l & Hl & Hp).
    cbn [fold_opt]. rewrite Hl. cbn [mbind option_bind].
    destruct (IH l) as (l' & -> & Hp'). exists l'. split; [done|].
    rewrite Hp', Hp, omap_app, <-app_assoc. done. }
  destruct (Hgen listener []) as (l & Hl & Hp). rewrite app_nil_r in Hl, Hp. eauto.
Qed.
End listeners.
End Pool.
