(* ===== verification/Printer.v ===== *)
(** * The pretty printer of forge fmt

    Models [crates/fmt/src/pp]: [ring.rs] (Module [Ring]), the scanning and
    printing halves of [mod.rs] and the convenience operations of
    [convenience.rs] and [helpers.rs] (Module [Printer]).  The printer is
    Oppen's algorithm with the extensions of [rustc_ast_pretty] and
    [prettyplease].  Modelled as built without [FMT_DEBUG]: the marks
    printed when [DEBUG] is set are not. *)
From S2P Require Import Prelude Text.
Local Open Scope Z_scope.

Definition MIN_SPACE : Z := 40.
Definition SIZE_INFINITY : Z := 65535.

Inductive Breaks := Consistent | Inconsistent.

Inductive IndentStyle :=
| Visual
| Block (offset : Z).

Record BreakToken := mkBreakToken {
  break_off : Z;                (* the field [offset] *)
  blank_space : Z;
  pre_break : option str;
  post_break : option str;
  if_nonempty : bool;
  never_break : bool;
}.

(** [BreakToken::default()] with its offset and width set. *)
Definition plain_break (n off : Z) : BreakToken :=
  {| break_off := off; blank_space := n; pre_break := None; post_break := None;
     if_nonempty := false; never_break := false |}.

Record BeginToken := mkBeginToken {
  begin_indent : IndentStyle;
  begin_breaks : Breaks;
}.

Inductive Token :=
| TString (s : str)
| TBreak (t : BreakToken)
| TBegin (t : BeginToken)
| TEnd.

Inductive PrintFrame :=
| Fits (b : Breaks)
| Broken (indent : Z) (b : Breaks).

Record BufEntry := mkBufEntry { entry_token : Token; entry_size : Z }.

(** ** The ring buffer *)

Record RingBuffer (T : Type) := mkRing { ring_data : list T; ring_offset : nat }.
Arguments mkRing {T} _ _.
Arguments ring_data {T} _.
Arguments ring_offset {T} _.

Module Ring.
Section ring.
Context {T : Type}.
Implicit Types r : RingBuffer T.

Definition new : RingBuffer T := mkRing [] 0.
Definition is_empty r : bool := match ring_data r with [] => true | _ => false end.
Definition len r : nat := length (ring_data r).
Definition push (value : T) r : nat * RingBuffer T :=
  ((ring_offset r + length (ring_data r))%nat, mkRing (ring_data r ++ [value]) (ring_offset r)).
Definition clear r : RingBuffer T := mkRing [] (ring_offset r).
Definition index_range r : list nat := seq (ring_offset r) (length (ring_data r)).
Definition first r : option T := ring_data r !! 0%nat.
Definition pop_first r : option (T * RingBuffer T) :=
  match ring_data r with
  | x :: data => Some (x, mkRing data (S (ring_offset r)))
  | [] => None
  end.
Definition last r : option T := list.last (ring_data r).
Definition pop_last r : option (RingBuffer T) :=
  match ring_data r with
  | [] => None
  | data => Some (mkRing (take (pred (length data)) data) (ring_offset r))
  end.
Definition second_last r : option T :=
  if decide (2 ≤ length (ring_data r))%nat then ring_data r !! (length (ring_data r) - 2)%nat
  else None.
(** [buf[index]], which panics out of range. *)
Definition index (i : nat) r : option T :=
  if decide (ring_offset r ≤ i)%nat then ring_data r !! (i - ring_offset r)%nat else None.
(** [let entry = &mut buf[index]; .. *entry = f(entry)] *)
Definition update (i : nat) (f : T → T) r : option (RingBuffer T) :=
  _ ← index i r;
  Some (mkRing (alter f (i - ring_offset r)%nat (ring_data r)) (ring_offset r)).
End ring.
End Ring.

(** ** The printer

    Stacks: [scan_stack] is the deque from front to back, [print_stack] the
    [Vec] with its last element first.  [None] is a panic. *)
Record Printer := mkPrinter {
  out : str;
  space : Z;
  buf : RingBuffer BufEntry;
  left_total : Z;
  right_total : Z;
  scan_stack : list nat;
  print_stack : list PrintFrame;
  indent : Z;
  pending_indentation : Z;
  last_printed : option Token;
  margin : Z;
  indent_config : option Z;
}.

Definition with_out o p := mkPrinter o (space p) (buf p) (left_total p) (right_total p)
  (scan_stack p) (print_stack p) (indent p) (pending_indentation p) (last_printed p) (margin p)
  (indent_config p).
Definition with_space s p := mkPrinter (out p) s (buf p) (left_total p) (right_total p)
  (scan_stack p) (print_stack p) (indent p) (pending_indentation p) (last_printed p) (margin p)
  (indent_config p).
Definition with_buf b p := mkPrinter (out p) (space p) b (left_total p) (right_total p)
  (scan_stack p) (print_stack p) (indent p) (pending_indentation p) (last_printed p) (margin p)
  (indent_config p).
Definition with_left l p := mkPrinter (out p) (space p) (buf p) l (right_total p)
  (scan_stack p) (print_stack p) (indent p) (pending_indentation p) (last_printed p) (margin p)
  (indent_config p).
Definition with_right r p := mkPrinter (out p) (space p) (buf p) (left_total p) r
  (scan_stack p) (print_stack p) (indent p) (pending_indentation p) (last_printed p) (margin p)
  (indent_config p).
Definition with_scan s p := mkPrinter (out p) (space p) (buf p) (left_total p) (right_total p)
  s (print_stack p) (indent p) (pending_indentation p) (last_printed p) (margin p)
  (indent_config p).
Definition with_frames f i p := mkPrinter (out p) (space p) (buf p) (left_total p) (right_total p)
  (scan_stack p) f i (pending_indentation p) (last_printed p) (margin p) (indent_config p).
Definition with_pending n p := mkPrinter (out p) (space p) (buf p) (left_total p) (right_total p)
  (scan_stack p) (print_stack p) (indent p) n (last_printed p) (margin p) (indent_config p).
Definition with_last t p := mkPrinter (out p) (space p) (buf p) (left_total p) (right_total p)
  (scan_stack p) (print_stack p) (indent p) (pending_indentation p) t (margin p)
  (indent_config p).

(** *** [impl Token] *)

Definition is_neverbreak (t : Token) : bool :=
  match t with TBreak b => never_break b | _ => false end.

Definition is_hardbreak (t : Token) : bool :=
  match t with
  | TBreak b => (blank_space b =? SIZE_INFINITY) && negb (never_break b)
  | _ => false
  end.

Definition is_space (t : Token) : bool :=
  match t with
  | TBreak b => (break_off b =? 0) && (blank_space b =? 1)
  | TString s => ends_with blank s
  | _ => false
  end.

Module Printer.

Definition new (m : Z) (use_tab_with_size : option Z) : Printer :=
  let margin := Z.min (Z.max (swrap 64 m) MIN_SPACE) (SIZE_INFINITY - 1) in
  {| out := []; space := margin; buf := Ring.new; left_total := 0; right_total := 0;
     scan_stack := []; print_stack := []; indent := 0; pending_indentation := 0;
     last_printed := None; margin := margin; indent_config := use_tab_with_size |}.

(** *** Printing *)

Definition get_top (p : Printer) : PrintFrame :=
  match print_stack p with [] => Broken 0 Inconsistent | f :: _ => f end.

Definition indentation (config : option Z) (n : Z) : option str :=
  match config with
  | Some tab_width =>
      if tab_width =? 0 then None                      (* division by zero *)
      else Some (repeat_n tab (n / tab_width) ++ repeat_n blank (n mod tab_width))
  | None => Some (repeat_n blank n)
  end.

Definition print_indent (p : Printer) : option Printer :=
  ind ← indentation (indent_config p) (pending_indentation p);
  Some (with_pending 0 (with_out (out p ++ ind) p)).

(** [usize::try_from(n).unwrap()] *)
Definition try_usize (n : Z) : option Z := if 0 <=? n then Some n else None.

Definition print_begin (token : BeginToken) (size : Z) (p : Printer) : option Printer :=
  if space p <? size then
    ind ← match begin_indent token with
          | Block offset => try_usize (indent p + offset)
          | Visual => Some (wrap 64 (margin p - space p))
          end;
    Some (with_frames (Broken (indent p) (begin_breaks token) :: print_stack p) ind p)
  else Some (with_frames (Fits (begin_breaks token) :: print_stack p) (indent p) p).

Definition print_end (p : Printer) : option Printer :=
  match print_stack p with
  | Broken ind _ :: frames => Some (with_frames frames ind p)
  | Fits _ :: frames => Some (with_frames frames (indent p) p)
  | [] => None
  end.

Definition push_str (s : str) (p : Printer) : Printer := with_out (out p ++ s) p.

Definition print_break (token : BreakToken) (size : Z) (p : Printer) : option Printer :=
  let fits := never_break token ||
    match get_top p with
    | Fits _ => true
    | Broken _ Consistent => false
    | Broken _ Inconsistent => size <=? space p
    end in
  if fits then
    Some (with_pending (pending_indentation p + blank_space token)
            (with_space (space p - blank_space token) p))
  else
    p ← match pre_break token with
        | Some pre_break => push_str pre_break <$> print_indent p
        | None => Some p
        end;
    let p := push_str [newline] p in
    let ind := indent p + break_off token in
    pending ← try_usize ind;
    let p := with_space (Z.max (margin p - ind) MIN_SPACE) (with_pending pending p) in
    match post_break token with
    | Some post_break =>
        p ← print_indent p;
        Some (with_space (space p - str_len post_break) (push_str post_break p))
    | None => Some p
    end.

Definition print_string (s : str) (p : Printer) : option Printer :=
  p ← print_indent p;
  Some (with_space (space p - str_len s) (push_str s p)).

(** *** Scanning *)

(** One turn of the loop of [advance_left]. *)
Definition print_left (entry : BufEntry) (p : Printer) : option Printer :=
  p ← match entry_token entry with
      | TString s => print_string s (with_left (left_total p + entry_size entry) p)
      | TBreak token =>
          print_break token (entry_size entry) (with_left (left_total p + blank_space token) p)
      | TBegin token => print_begin token (entry_size entry) p
      | TEnd => print_end p
      end;
  Some (with_last (Some (entry_token entry)) p).

(** Every turn takes one entry off the buffer. *)
Fixpoint advance_left_loop (fuel : nat) (p : Printer) : option Printer :=
  first ← Ring.first (buf p);
  match fuel with
  | O => None
  | S fuel =>
      if 0 <=? entry_size first then
        '(entry, b) ← Ring.pop_first (buf p);
        p ← print_left entry (with_buf b p);
        if Ring.is_empty (buf p) then Some p else advance_left_loop fuel p
      else Some p
  end.

Definition advance_left (p : Printer) : option Printer :=
  advance_left_loop (S (Ring.len (buf p))) p.

(** [scan_stack] from back to front. *)
Fixpoint check_stack_loop (right_total : Z) (stack : list nat) (depth : nat)
    (b : RingBuffer BufEntry) : option (list nat * RingBuffer BufEntry) :=
  match stack with
  | [] => Some ([], b)
  | index :: rest =>
      entry ← Ring.index index b;
      let grow e := mkBufEntry (entry_token e) (entry_size e + right_total) in
      match entry_token entry with
      | TBegin _ =>
          match depth with
          | O => Some (index :: rest, b)
          | S depth => b ← Ring.update index grow b; check_stack_loop right_total rest depth b
          end
      | TEnd =>
          b ← Ring.update index (λ e, mkBufEntry (entry_token e) 1) b;
          check_stack_loop right_total rest (S depth) b
      | _ =>
          b ← Ring.update index grow b;
          match depth with
          | O => Some (rest, b)
          | _ => check_stack_loop right_total rest depth b
          end
      end
  end.

Definition check_stack (depth : nat) (p : Printer) : option Printer :=
  '(stack, b) ← check_stack_loop (right_total p) (rev (scan_stack p)) depth (buf p);
  Some (with_buf b (with_scan (rev stack) p)).

(** Every turn prints at least one entry of the buffer. *)
Fixpoint check_stream_loop (fuel : nat) (p : Printer) : option Printer :=
  if space p <? right_total p - left_total p then
    match fuel with
    | O => None
    | S fuel =>
        front ← head (scan_stack p);
        p ← (if decide (front = ring_offset (buf p)) then
               b ← Ring.update front (λ e, mkBufEntry (entry_token e) SIZE_INFINITY) (buf p);
               Some (with_buf b (with_scan (tail (scan_stack p)) p))
             else Some p);
        p ← advance_left p;
        if Ring.is_empty (buf p) then Some p else check_stream_loop fuel p
    end
  else Some p.

Definition check_stream (p : Printer) : option Printer :=
  check_stream_loop (S (Ring.len (buf p))) p.

Definition scan_eof (p : Printer) : option Printer :=
  match scan_stack p with
  | [] => Some p
  | _ => p ← check_stack 0 p; advance_left p
  end.

(** The start of a new buffer. *)
Definition reset_totals (p : Printer) : Printer :=
  with_buf (Ring.clear (buf p)) (with_right 1 (with_left 1 p)).

(** Push an entry whose size is known later, and remember it. *)
Definition push_unsized (token : Token) (size : Z) (p : Printer) : Printer :=
  let '(index, b) := Ring.push (mkBufEntry token size) (buf p) in
  with_scan (scan_stack p ++ [index]) (with_buf b p).

Definition scan_begin (token : BeginToken) (p : Printer) : option Printer :=
  let p := match scan_stack p with [] => reset_totals p | _ => p end in
  Some (push_unsized (TBegin token) (- right_total p) p).

Definition pop_scan (p : Printer) : Printer :=
  with_scan (take (pred (length (scan_stack p))) (scan_stack p)) p.

Definition push_end (p : Printer) : Printer := push_unsized TEnd (-1) p.

Definition scan_end (p : Printer) : option Printer :=
  match scan_stack p with
  | [] => print_end p
  | _ =>
      match entry_token <$> Ring.last (buf p) with
      | Some (TBreak break_token) =>
          match entry_token <$> Ring.second_last (buf p) with
          | Some (TBegin _) =>
              b ← Ring.pop_last (buf p);
              b ← Ring.pop_last b;
              let p := pop_scan (pop_scan (with_buf b p)) in
              Some (with_right (right_total p - blank_space break_token) p)
          | _ =>
              if if_nonempty break_token then
                b ← Ring.pop_last (buf p);
                let p := pop_scan (with_buf b p) in
                Some (push_end (with_right (right_total p - blank_space break_token) p))
              else Some (push_end p)
          end
      | _ => Some (push_end p)
      end
  end.

Definition scan_break (token : BreakToken) (p : Printer) : option Printer :=
  p ← match scan_stack p with
      | [] => Some (reset_totals p)
      | _ => check_stack 0 p
      end;
  let p := push_unsized (TBreak token) (- right_total p) p in
  Some (with_right (right_total p + blank_space token) p).

Definition scan_string (s : str) (p : Printer) : option Printer :=
  match scan_stack p with
  | [] => print_string s p
  | _ =>
      let len := str_len s in
      let '(_, b) := Ring.push (mkBufEntry (TString s) len) (buf p) in
      check_stream (with_right (right_total p + len) (with_buf b p))
  end.

(** *** Looking at and editing what was scanned *)

Definition last_token_still_buffered (p : Printer) : option Token :=
  entry_token <$> Ring.last (buf p).

Definition last_token (p : Printer) : option Token :=
  match last_token_still_buffered p with Some t => Some t | None => last_printed p end.

Definition set_token (t : Token) (e : BufEntry) : BufEntry := mkBufEntry t (entry_size e).

(** The index of the last entry; [None] when the buffer is empty. *)
Definition last_index (p : Printer) : option nat := list.last (Ring.index_range (buf p)).

Definition replace_last_token_still_buffered (token : Token) (p : Printer) : option Printer :=
  i ← last_index p;
  b ← Ring.update i (set_token token) (buf p);
  Some (with_buf b p).

(** The first index from the back whose token is not [End]. *)
Fixpoint last_not_end (indices : list nat) (b : RingBuffer BufEntry) : option (nat * Token) :=
  match indices with
  | [] => None
  | i :: indices =>
      match entry_token <$> Ring.index i b with
      | Some TEnd => last_not_end indices b
      | Some t => Some (i, t)
      | None => None
      end
  end.

Definition find_and_replace_last_token_still_buffered (new_token : Token)
    (predicate : Token → bool) (p : Printer) : option Printer :=
  match last_not_end (rev (Ring.index_range (buf p))) (buf p) with
  | Some (i, t) =>
      if predicate t then
        b ← Ring.update i (set_token new_token) (buf p);
        Some (with_buf b p)
      else Some p
  | None => Some p
  end.

Definition space_left (p : Printer) : Z :=
  let current := if space p <? 0 then margin p else space p in
  match last_not_end (rev (Ring.index_range (buf p))) (buf p) with
  | Some (_, TBreak b) =>
      if (SIZE_INFINITY <=? blank_space b) && negb (never_break b) then margin p else current
  | _ => current
  end.

Definition add_offset (off : Z) (b : BreakToken) : BreakToken :=
  {| break_off := break_off b + off; blank_space := blank_space b; pre_break := pre_break b;
     post_break := post_break b; if_nonempty := if_nonempty b; never_break := never_break b |}.

Definition offset (off : Z) (p : Printer) : option Printer :=
  i ← last_index p;
  last ← Ring.last (buf p);
  match entry_token last with
  | TBreak token =>
      b ← Ring.update i (set_token (TBreak (add_offset off token))) (buf p);
      Some (with_buf b p)
  | TBegin _ => Some p
  | TString _ | TEnd => None                            (* unreachable!() *)
  end.

(** The last string still in the buffer. *)
Fixpoint last_string (tokens : list Token) : option str :=
  match tokens with
  | [] => None
  | t :: tokens =>
      match last_string tokens, t with
      | Some s, _ => Some s
      | None, TString s => Some s
      | None, _ => None
      end
  end.

Definition tokens (p : Printer) : list Token := entry_token <$> ring_data (buf p).

Definition ends_with (ch : char) (p : Printer) : bool :=
  match last_string (tokens p) with
  | Some token => Text.ends_with ch token
  | None => Text.ends_with ch (out p)
  end.

(** *** [convenience.rs] *)

Definition rbox (ind : Z) (breaks : Breaks) : Printer → option Printer :=
  scan_begin {| begin_indent := Block ind; begin_breaks := breaks |}.
Definition ibox (ind : Z) := rbox ind Inconsistent.
Definition cbox (ind : Z) := rbox ind Consistent.
Definition visual_align : Printer → option Printer :=
  scan_begin {| begin_indent := Visual; begin_breaks := Consistent |}.
Definition break_offset (n off : Z) : Printer → option Printer := scan_break (plain_break n off).
Definition end_ : Printer → option Printer := scan_end.
Definition eof (p : Printer) : option str := out <$> scan_eof p.
Definition word (w : str) : Printer → option Printer := scan_string w.
Definition spaces (n : Z) := break_offset n 0.
Definition zerobreak := spaces 0.
Definition space_ := spaces 1.
Definition hardbreak := spaces SIZE_INFINITY.

Definition last_token_is_neverbreak (p : Printer) : bool :=
  match last_token p with Some token => is_neverbreak token | None => false end.

Definition last_token_is_break (p : Printer) : bool :=
  match last_token p with Some (TBreak _) => true | _ => false end.

Definition last_token_is_space (p : Printer) : bool :=
  match last_token p with
  | Some token => is_space token || Text.ends_with blank (out p)
  | None => Text.ends_with blank (out p)
  end.

Definition is_beginning_of_line (p : Printer) : bool :=
  match last_token p with
  | Some last_token => is_hardbreak last_token
  | None => bool_decide (out p = []) || Text.ends_with newline (out p)
  end.

Definition token_has_non_whitespace_content (t : Token) : bool :=
  match t with
  | TString s => negb (trim_is_empty s)
  | TBreak {| pre_break := Some s |} => negb (trim_is_empty s)
  | _ => false
  end.

(** The tokens from the last one backwards. *)
Fixpoint bol_in_buffer (tokens_rev : list Token) : option bool :=
  match tokens_rev with
  | [] => None
  | token :: rest =>
      if is_hardbreak token then Some true
      else if token_has_non_whitespace_content token then Some false
      else bol_in_buffer rest
  end.

Definition is_bol_or_only_ind (p : Printer) : bool :=
  match bol_in_buffer (rev (tokens p)) with
  | Some b => b
  | None => trim_is_empty (after_last newline (out p))
  end.

Definition hardbreak_tok_offset (off : Z) : Token := TBreak (plain_break SIZE_INFINITY off).

Definition hardbreak_if_nonempty : Printer → option Printer :=
  scan_break {| break_off := 0; blank_space := SIZE_INFINITY; pre_break := None;
                post_break := None; if_nonempty := true; never_break := false |}.

Definition neverbreak : Printer → option Printer :=
  scan_break {| break_off := 0; blank_space := 0; pre_break := None; post_break := None;
                if_nonempty := false; never_break := true |}.

(** *** [helpers.rs] *)

Definition word_space (w : str) (p : Printer) : option Printer := p ← word w p; space_ p.

Definition hardbreak_if_not_bol (p : Printer) : option Printer :=
  if is_bol_or_only_ind p then Some p
  else match last_token_still_buffered p with
       | Some (TBreak last) =>
           if break_off last =? 0 then hardbreak p
           else replace_last_token_still_buffered (hardbreak_tok_offset (break_off last)) p
       | _ => hardbreak p
       end.

Definition space_if_not_bol (p : Printer) : option Printer :=
  if is_bol_or_only_ind p then Some p else space_ p.

Definition nbsp : Printer → option Printer := word [blank].
Definition space_or_nbsp (breaks : bool) : Printer → option Printer :=
  if breaks then space_ else nbsp.
Definition word_nbsp (w : str) (p : Printer) : option Printer := p ← word w p; nbsp p.

End Printer.
