(* ===== verification/PrinterScan.v ===== *)
(** * The scanning half of the printer

    What the ring buffer, the scan stack and the running totals keep
    invariant, proved once against an interface: a predicate of the printing
    half that the printing functions preserve entry by entry
    (Class [PrintInv]).  The scan stack holds exactly the indices of the
    entries whose size is not known yet, so the invariant speaks of the
    buffer only. *)
From S2P Require Import Prelude Text Printer.
Import Printer.
Local Open Scope Z_scope.

Definition width (t : Token) : Z :=
  match t with TString s => str_len s | TBreak b => blank_space b | _ => 0 end.

Fixpoint widths (l : list BufEntry) : Z :=
  match l with [] => 0 | e :: l => width (entry_token e) + widths l end.

Definition unknown (e : BufEntry) : Prop := entry_size e < 0.
#[export] Instance unknown_dec e : Decision (unknown e) := _.

(** The indices, from [off], of the entries of unknown size. *)
Fixpoint unsized (off : nat) (l : list BufEntry) : list nat :=
  match l with
  | [] => []
  | e :: l => if decide (unknown e) then off :: unsized (S off) l else unsized (S off) l
  end.

(** Every entry of unknown size holds minus the total to its left; a string's
    size is its width. *)
Fixpoint sizes_ok (acc : Z) (l : list BufEntry) : Prop :=
  match l with
  | [] => True
  | e :: l =>
      0 ≤ width (entry_token e) ∧
      (unknown e → entry_size e = match entry_token e with TEnd => -1 | _ => - acc end) ∧
      (∀ s, entry_token e = TString s → entry_size e = str_len s) ∧
      sizes_ok (acc + width (entry_token e)) l
  end.

Lemma widths_app l1 l2 : widths (l1 ++ l2) = widths l1 + widths l2.
Proof. induction l1; simpl; lia. Qed.

Lemma sizes_ok_app acc l1 l2 :
  sizes_ok acc (l1 ++ l2) ↔ sizes_ok acc l1 ∧ sizes_ok (acc + widths l1) l2.
Proof.
  revert acc. induction l1 as [|e l1 IH]; intros acc; simpl.
  - rewrite Z.add_0_r. tauto.
  - rewrite IH, Z.add_assoc. tauto.
Qed.

Lemma sizes_ok_widths acc l : sizes_ok acc l → 0 ≤ widths l.
Proof.
  revert acc. induction l as [|e l IH]; intros acc; simpl; [lia|].
  intros (? & _ & _ & ?%IH). lia.
Qed.

Lemma unsized_app off l1 l2 :
  unsized off (l1 ++ l2) = unsized off l1 ++ unsized (off + length l1) l2.
Proof.
  revert off. induction l1 as [|e l1 IH]; intros off; simpl; [by rewrite Nat.add_0_r|].
  rewrite IH, Nat.add_succ_r. by case_decide.
Qed.

Lemma unsized_known off l : Forall (λ e, ¬ unknown e) l → unsized off l = [].
Proof.
  revert off. induction l as [|e l IH]; intros off; simpl; [done|].
  intros [??]%Forall_cons. rewrite decide_False by done. by apply IH.
Qed.

Lemma unsized_nil off l : unsized off l = [] → Forall (λ e, ¬ unknown e) l.
Proof.
  revert off. induction l as [|e l IH]; intros off; simpl; [done|].
  case_decide; [done|]. intros ?. constructor; eauto.
Qed.

Lemma unsized_ge off l i : i ∈ unsized off l → (off ≤ i)%nat.
Proof.
  revert off. induction l as [|e l IH]; intros off; simpl; [by intros ?%not_elem_of_nil|].
  case_decide; [intros [->|?%IH]%elem_of_cons; lia|intros ?%IH; lia].
Qed.

(** ** Settling the sizes *)

Definition sized (e : BufEntry) (s : Z) : BufEntry := mkBufEntry (entry_token e) s.

(** [check_stack] on the buffer, from its last entry backwards. *)
Fixpoint settle (total : Z) (depth : nat) (l : list BufEntry) : list BufEntry :=
  match l with
  | [] => []
  | e :: l =>
      if decide (unknown e) then
        match entry_token e, depth with
        | TBegin _, O => e :: l
        | TBegin _, S depth => sized e (entry_size e + total) :: settle total depth l
        | TEnd, _ => sized e 1 :: settle total (S depth) l
        | _, O => sized e (entry_size e + total) :: l
        | _, _ => sized e (entry_size e + total) :: settle total depth l
        end
      else e :: settle total depth l
  end.

Lemma index_middle {A} off (l1 l2 : list A) x :
  Ring.index (off + length l1)%nat (mkRing (l1 ++ x :: l2) off) = Some x.
Proof.
  unfold Ring.index. simpl. rewrite decide_True by lia.
  rewrite Nat.add_comm, Nat.add_sub. by apply list_lookup_middle.
Qed.

Lemma update_middle {A} off (l1 l2 : list A) x f :
  Ring.update (off + length l1)%nat f (mkRing (l1 ++ x :: l2) off) =
    Some (mkRing (l1 ++ f x :: l2) off).
Proof.
  unfold Ring.update. rewrite index_middle. simpl. do 2 f_equal.
  rewrite Nat.add_comm, Nat.add_sub. by rewrite alter_app_r_alt, Nat.sub_diag by lia.
Qed.

(** The sizes that settling computes are not negative. *)
Definition can_settle (total : Z) (e : BufEntry) : Prop :=
  unknown e → entry_token e ≠ TEnd → 0 ≤ entry_size e + total.

Lemma unsized_rev_known off e l :
  ¬ unknown e → unsized off (rev (e :: l)) = unsized off (rev l).
Proof.
  intros He. simpl. rewrite unsized_app. simpl. by rewrite decide_False, app_nil_r by done.
Qed.

Lemma rev_cons_app {A} (x : A) l suf : rev (x :: l) ++ suf = rev l ++ x :: suf.
Proof. simpl. by rewrite <-app_assoc. Qed.

Lemma check_stack_loop_settle total off depth pre suf :
  Forall (can_settle total) pre →
  check_stack_loop total (rev (unsized off pre)) depth (mkRing (pre ++ suf) off) =
    Some (rev (unsized off (rev (settle total depth (rev pre)))),
          mkRing (rev (settle total depth (rev pre)) ++ suf) off).
Proof.
  revert depth suf. induction pre as [|e pre IH] using rev_ind; intros depth suf Hs; [done|].
  rewrite Forall_app, Forall_singleton in Hs. destruct Hs as [Hs He]. unfold can_settle in He.
  rewrite unsized_app, rev_app_distr, (rev_app_distr pre), <-app_assoc. simpl rev. simpl app.
  cbn [settle unsized]. destruct (decide (unknown e)) as [Hu|Hu].
  - simpl. rewrite index_middle. cbn [mbind option_bind].
    destruct (entry_token e) eqn:Ht; [| |destruct depth|]; rewrite ?update_middle;
      cbn [mbind option_bind]; fold (sized e (entry_size e + total)) (sized e 1);
      rewrite <-?Ht; fold (sized e (entry_size e + total)) (sized e 1).
    1,2: specialize (He Hu ltac:(done)); destruct depth; rewrite ?IH by done;
      rewrite unsized_rev_known, rev_cons_app, ?rev_involutive by (unfold unknown, sized; simpl; lia);
      done.
    + simpl. rewrite rev_involutive, <-app_assoc, unsized_app. simpl.
      rewrite decide_True by done. by rewrite rev_app_distr.
    + rewrite IH by done. rewrite unsized_rev_known, rev_cons_app; [done|].
      specialize (He Hu). unfold unknown, sized; simpl. intros ?.
      pose proof (He ltac:(done)). lia.
    + rewrite IH by done. rewrite unsized_rev_known, rev_cons_app; [done|].
      unfold unknown, sized; simpl. lia.
  - rewrite IH by done. simpl. rewrite unsized_app. simpl.
    rewrite decide_False by done. by rewrite app_nil_r, <-app_assoc.
Qed.

(** A predicate of the buffer that survives one entry getting its size
    survives [check_stack]. *)
Lemma settle_preserves (Q : list BufEntry → Prop) acc total depth pre suf :
  (∀ l1 e l2 s, Q (l1 ++ e :: l2) → unknown e →
     s = match entry_token e with TEnd => 1 | _ => widths (e :: l2) end →
     Q (l1 ++ sized e s :: l2)) →
  sizes_ok acc pre → total = acc + widths (pre ++ suf) →
  Q (pre ++ suf) → Q (rev (settle total depth (rev pre)) ++ suf).
Proof.
  intros HQ. revert depth suf. induction pre as [|e pre IH] using rev_ind;
    intros depth suf Hs Ht HQs; [done|].
  apply sizes_ok_app in Hs as [Hs (_ & Hu & _)].
  rewrite rev_app_distr. simpl rev at 2. simpl app. cbn [settle].
  rewrite <-app_assoc in HQs, Ht. simpl in HQs, Ht.
  assert (Hstop : ∀ s, unknown e →
    s = match entry_token e with TEnd => 1 | _ => widths (e :: suf) end →
    Q (rev (sized e s :: rev pre) ++ suf)).
  { intros s Hun Hsz. rewrite rev_cons_app, rev_involutive. by apply HQ. }
  assert (Hstep : ∀ s d, unknown e →
    s = match entry_token e with TEnd => 1 | _ => widths (e :: suf) end →
    Q (rev (sized e s :: settle total d (rev pre)) ++ suf)).
  { intros s d Hun Hsz. rewrite rev_cons_app. apply IH; [done| |by apply HQ].
    rewrite widths_app in *. simpl in *. lia. }
  assert (Hgrow : unknown e → entry_token e ≠ TEnd →
    entry_size e + total = widths (e :: suf)).
  { intros Hun He. specialize (Hu Hun). rewrite widths_app in Ht. simpl in *.
    destruct (entry_token e); simpl in *; [..|done]; lia. }
  destruct (decide (unknown e)) as [Hun|Hun]; last first.
  { rewrite rev_cons_app. apply IH; [done|by rewrite Ht|done]. }
  specialize (Hgrow Hun). destruct (entry_token e) eqn:Htok.
  1,2: rewrite Hgrow by done; destruct depth; [by apply Hstop|by apply Hstep].
  - destruct depth; [by rewrite rev_cons_app, rev_involutive|].
    rewrite Hgrow by done. by apply Hstep.
  - by apply Hstep.
Qed.

(** ** The shape of the scan stack *)

Inductive kind := KBreak | KBegin | KEnd.

Definition entry_kind (e : BufEntry) : kind :=
  match entry_token e with TBegin _ => KBegin | TEnd => KEnd | _ => KBreak end.

(** The kinds of the entries of unknown size. *)
Definition kinds (l : list BufEntry) : list kind :=
  omap (λ e, if decide (unknown e) then Some (entry_kind e) else None) l.

(** What [check_stack] leaves of the stack. *)
Fixpoint drain (depth : nat) (ks : list kind) : list kind :=
  match ks, depth with
  | [], _ => []
  | KBegin :: _, O => ks
  | KBegin :: ks, S depth => drain depth ks
  | KEnd :: ks, _ => drain (S depth) ks
  | KBreak :: ks, O => ks
  | KBreak :: ks, _ => drain depth ks
  end.

(** A stack with [n] open boxes: at every level, [check_stack] leaves nothing
    above the box the level is in. *)
Fixpoint shape (n : nat) (ks : list kind) : Prop :=
  match n with
  | O => drain 0 ks = []
  | S n => ∃ ks', drain 0 ks = KBegin :: ks' ∧ shape n ks'
  end.

Lemma shape_ext n ks ks' : drain 0 ks = drain 0 ks' → shape n ks → shape n ks'.
Proof. destruct n; simpl; intros He; rewrite He; done. Qed.

Lemma drain_nil_deeper d ks : drain d ks = [] → drain (S d) ks = [].
Proof.
  revert d. induction ks as [|[] ks IH]; intros d; simpl; [done| | |apply IH].
  - destruct d; [by intros ->|apply IH].
  - destruct d; [done|apply IH].
Qed.

Lemma drain_begin_deeper d ks ks' : drain d ks = KBegin :: ks' → drain (S d) ks = drain 0 ks'.
Proof.
  revert d. induction ks as [|[] ks IH]; intros d; simpl; [done| | |apply IH].
  - destruct d; [by intros ->|apply IH].
  - destruct d; [by intros [= ->]|apply IH].
Qed.

Lemma drain_app d ks k : drain d ks ≠ [] → drain d (ks ++ [k]) = drain d ks ++ [k].
Proof.
  revert d. induction ks as [|[] ks IH]; intros d; simpl; [done|..|apply IH].
  all: destruct d; [done|apply IH].
Qed.

Lemma shape_begin n ks : shape n ks → shape (S n) (KBegin :: ks).
Proof. intros ?. by exists ks. Qed.

Lemma shape_end n ks : shape n ks → shape (pred n) (KEnd :: ks).
Proof.
  destruct n as [|n]; [apply drain_nil_deeper|]. intros (ks' & Hd%drain_begin_deeper & Hs).
  by eapply shape_ext.
Qed.

Lemma shape_drain n ks : shape n ks → shape n (drain 0 ks) ∧ shape n (KBreak :: drain 0 ks).
Proof.
  destruct n as [|n]; [by intros Hs; rewrite Hs|].
  intros (ks' & -> & Hs). split; by exists ks'.
Qed.

Lemma shape_drop_box n ks :
  shape n (KBreak :: KBegin :: ks) → ∃ m, n = S m ∧ shape m ks.
Proof. destruct n as [|n]; [done|]. intros (ks' & [= <-] & Hs). by exists n. Qed.

Lemma shape_drop_break n ks : shape n (KBreak :: ks) → shape n ks.
Proof.
  destruct n as [|n]; simpl; [by intros ->|]. intros (ks' & -> & Hs). by exists ks'.
Qed.

(** Dropping the oldest entry closes at most one box. *)
Lemma shape_oldest n ks k : shape n (ks ++ [k]) → ∃ m, (m ≤ n)%nat ∧ shape m ks.
Proof.
  revert ks. induction n as [|n IH]; intros ks Hs; destruct (decide (drain 0 ks = [])) as [He|He].
  1,3: exists 0%nat; split; [lia|done].
  - simpl in Hs. rewrite drain_app in Hs by done. by destruct (drain 0 ks).
  - destruct Hs as (r & Hd & Hr). rewrite drain_app in Hd by done.
    destruct (drain 0 ks) as [|k' r'] eqn:Hk; [done|]. injection Hd as -> <-.
    destruct (IH _ Hr) as (m & ? & ?). exists (S m). split; [lia|]. by exists r'.
Qed.

Lemma kinds_app l1 l2 : kinds (l1 ++ l2) = kinds l1 ++ kinds l2.
Proof. apply omap_app. Qed.

Lemma kinds_settle total depth l :
  Forall (can_settle total) l → kinds (settle total depth l) = drain depth (kinds l).
Proof.
  revert depth. induction l as [|e l IH]; intros depth; [done|].
  intros [He Hl]%Forall_cons. unfold can_settle in He. cbn [settle].
  assert (Hsz : ∀ s r, 0 ≤ s → kinds (sized e s :: r) = kinds r).
  { intros s r Hs. unfold kinds. simpl. rewrite decide_False; [done|].
    unfold unknown. simpl. lia. }
  destruct (decide (unknown e)) as [Hu|Hu].
  - unfold kinds at 2. simpl. rewrite decide_True by done. fold (kinds l).
    unfold entry_kind. specialize (He Hu). destruct (entry_token e) eqn:Ht; [| |destruct depth|].
    1,2: destruct depth; rewrite Hsz by (by apply He); [done|by apply IH].
    + unfold kinds. simpl. rewrite decide_True by done. unfold entry_kind. by rewrite Ht.
    + rewrite Hsz by (by apply He). by apply IH.
    + rewrite Hsz by lia. by apply IH.
  - unfold kinds. simpl. rewrite decide_False by done. by apply IH.
Qed.

(** ** The trailing boxes and breaks *)

Definition is_begin (e : BufEntry) : Prop :=
  match entry_token e with TBegin _ => True | _ => False end.

(** From the last entry backwards: a break or an opened box at the end of the
    buffer still waits for its size, and so does something below the box. *)
Fixpoint fresh (l : list BufEntry) : Prop :=
  match l with
  | [] => True
  | e :: l =>
      match entry_token e with
      | TBreak _ => unknown e ∧ match l with e2 :: _ => is_begin e2 → fresh l | [] => True end
      | TBegin _ => unknown e ∧ (Forall (λ e, ¬ unknown e) l → l = []) ∧ fresh l
      | _ => True
      end
  end.

Lemma fresh_break total l e b :
  fresh l → unknown e → entry_token e = TBreak b → fresh (e :: settle total 0 l).
Proof.
  intros Hl He Ht. simpl. rewrite Ht. split; [done|].
  destruct l as [|e2 l2]; [done|]. cbn [settle]. simpl in Hl. unfold is_begin.
  destruct (decide (unknown e2)); destruct (entry_token e2) eqn:H2; simpl; rewrite ?H2;
    try done; naive_solver.
Qed.

(** ** The interface to the printing half *)

(** The fields that the printing functions read and write. *)
Definition same_print (p q : Printer) : Prop :=
  out p = out q ∧ space p = space q ∧ print_stack p = print_stack q ∧ indent p = indent q ∧
  pending_indentation p = pending_indentation q ∧ margin p = margin q ∧
  indent_config p = indent_config q.

(** The size an entry may be pushed with. *)
Definition push_size (t : Token) (s : Z) : Prop :=
  match t with TString v => s = str_len v | TEnd => True | _ => s < 0 end.

(** What the scanning half needs of a predicate of the printing half, [pinv],
    that relates the requests made so far (a state [C] of the client), the
    tokens that wait in the buffer and the printer. *)
Class PrintInv (C : Type) := {
  client_step : C → Token → option C;
  client_depth : C → nat;
  pinv : C → list BufEntry → Printer → Prop;
  step_width c t c' : client_step c t = Some c' → 0 ≤ width t;
  step_depth c t c' : client_step c t = Some c' →
    match t with
    | TBegin _ => client_depth c' = S (client_depth c)
    | TEnd => client_depth c = S (client_depth c')
    | _ => client_depth c' = client_depth c
    end;
  pinv_same c l p q : same_print p q → pinv c l p → pinv c l q;
  pinv_push c t c' l s p :
    client_step c t = Some c' → push_size t s → pinv c l p → pinv c' (l ++ [mkBufEntry t s]) p;
  pinv_print c e l p :
    pinv c (e :: l) p → 0 ≤ entry_size e → ∃ p', print_left e p = Some p' ∧ pinv c l p';
  pinv_size c l1 e l2 s p :
    pinv c (l1 ++ e :: l2) p → unknown e →
    s = match entry_token e with TEnd => 1 | _ => widths (e :: l2) end →
    pinv c (l1 ++ sized e s :: l2) p;
  pinv_infinity c e l p :
    pinv c (e :: l) p → unknown e → space p < widths (e :: l) →
    pinv c (sized e SIZE_INFINITY :: l) p;
  pinv_drop_box c c' l e1 e2 b p :
    client_step c TEnd = Some c' → is_begin e1 → entry_token e2 = TBreak b →
    pinv c (l ++ [e1; e2]) p → pinv c' l p;
  pinv_drop_break c c' l e b p :
    client_step c TEnd = Some c' → entry_token e = TBreak b → if_nonempty b = true →
    pinv c (l ++ [e]) p → pinv c l p;
}.

Section scanning.
Context {C : Type} `{!PrintInv C}.
Implicit Types (c : C) (p : Printer).

Record scan_inv c p : Prop := {
  si_stack : scan_stack p = unsized (ring_offset (buf p)) (ring_data (buf p));
  si_sizes : sizes_ok (left_total p) (ring_data (buf p));
  si_left : ring_data (buf p) ≠ [] → 1 ≤ left_total p;
  si_total : right_total p = left_total p + widths (ring_data (buf p));
  si_shape : ∃ n, (n ≤ client_depth c)%nat ∧ shape n (kinds (rev (ring_data (buf p))));
  si_print : pinv c (ring_data (buf p)) p;
}.

(** Between requests, entries wait only for a size. *)
Definition settled p : Prop := scan_stack p = [] → ring_data (buf p) = [].

Lemma print_left_scan e p p' :
  print_left e p = Some p' → (∀ s, entry_token e = TString s → entry_size e = str_len s) →
  buf p' = buf p ∧ scan_stack p' = scan_stack p ∧ right_total p' = right_total p ∧
  left_total p' = left_total p + width (entry_token e).
Proof.
  unfold print_left. intros Hp Hs. apply bind_Some in Hp as (q & Hq & [= <-]). simpl.
  destruct (entry_token e) as [s|b|t|] eqn:Ht; simpl.
  - rewrite (Hs s) in Hq by done. unfold print_string, print_indent in Hq.
    apply bind_Some in Hq as (q1 & (i & _ & [= <-])%bind_Some & [= <-]). by simpl.
  - unfold print_break in Hq. revert Hq. case_match; [intros [= <-]; by simpl|]. clear.
    intros (q1 & H1 & (i & _ & H2)%bind_Some)%bind_Some.
    assert (H1' : buf q1 = buf p ∧ scan_stack q1 = scan_stack p ∧ right_total q1 = right_total p
      ∧ left_total q1 = left_total p + blank_space b).
    { destruct (pre_break b); simplify_eq/=; [|done].
      apply fmap_Some in H1 as (q2 & (j & _ & [= <-])%bind_Some & ->). by simpl. }
    destruct (post_break b); simplify_eq/=; [|done].
    apply bind_Some in H2 as (q2 & (j & _ & [= <-])%bind_Some & [= <-]). by simpl.
  - unfold print_begin in Hq. case_match; simplify_eq/=; [|by rewrite Z.add_0_r].
    apply bind_Some in Hq as (i & _ & [= <-]). by rewrite Z.add_0_r.
  - unfold print_end in Hq. destruct (print_stack p) as [|[] ?]; simplify_eq/=;
      by rewrite Z.add_0_r.
Qed.

(** Printing the first entry. *)
Lemma print_left_spec c p e l :
  scan_inv c p → ring_data (buf p) = e :: l → ¬ unknown e →
  ∃ p', print_left e (with_buf (mkRing l (S (ring_offset (buf p)))) p) = Some p' ∧
    ring_data (buf p') = l ∧ scan_inv c p'.
Proof.
  intros [Hst Hsz Hl Ht Hsh Hp] Hd He. rewrite Hd in *.
  set (p1 := with_buf _ p).
  destruct (pinv_print c e l p1) as (p' & Hrun & Hp').
  { by eapply pinv_same, Hp. } { unfold unknown in He. lia. }
  destruct Hsz as (Hw & _ & Hs & Hsz). specialize (Hl ltac:(done)). simpl in Ht, Hst.
  rewrite decide_False in Hst by done.
  destruct (print_left_scan _ _ _ Hrun Hs) as (Hb & Hst' & Hr' & Hl').
  exists p'. split; [done|]. rewrite Hb. split; [done|].
  constructor; rewrite ?Hb, ?Hst', ?Hr', ?Hl'; simpl; [done|done|lia|lia| |done].
  - destruct Hsh as (n & ? & Hsh). exists n. split; [done|]. simpl in Hsh.
    rewrite kinds_app in Hsh. unfold kinds at 2 in Hsh. simpl in Hsh.
    by rewrite decide_False, app_nil_r in Hsh.
Qed.

Lemma settled_head p e l :
  scan_stack p = unsized (ring_offset (buf p)) (ring_data (buf p)) →
  ring_data (buf p) = e :: l → unknown e → settled p.
Proof. intros Hs Hd He. unfold settled. rewrite Hs, Hd. simpl. by rewrite decide_True. Qed.

Lemma advance_left_spec c p e l :
  scan_inv c p → ring_data (buf p) = e :: l → ¬ unknown e →
  ∃ p', advance_left p = Some p' ∧ scan_inv c p' ∧ settled p' ∧
    (∃ l1, l = l1 ++ ring_data (buf p')) ∧
    (Forall (λ e, ¬ unknown e) l → ring_data (buf p') = []).
Proof.
  intros Hi Hd He. unfold advance_left, Ring.len. rewrite Hd. simpl length.
  revert p e Hi Hd He.
  assert (Hgen : ∀ fuel l p e, scan_inv c p → ring_data (buf p) = e :: l → ¬ unknown e →
    (length l < fuel)%nat →
    ∃ p', advance_left_loop fuel p = Some p' ∧ scan_inv c p' ∧ settled p' ∧
    (∃ l1, l = l1 ++ ring_data (buf p')) ∧
    (Forall (λ e, ¬ unknown e) l → ring_data (buf p') = [])).
  { clear l. induction fuel as [|fuel IH]; intros l p e Hi Hd He Hf; [lia|].
    cbn [advance_left_loop]. unfold Ring.first, Ring.pop_first. rewrite Hd.
    cbn [lookup list_lookup mbind option_bind].
    unfold unknown in He. rewrite (proj2 (Z.leb_le _ _)) by lia.
    destruct (print_left_spec c p e l Hi Hd) as (p1 & -> & Hd1 & Hi1); [done|].
    cbn [mbind option_bind]. unfold Ring.is_empty. rewrite Hd1.
    destruct l as [|e1 l1].
    { exists p1. unfold settled. rewrite Hd1. split_and!; try done. by exists []. }
    destruct (decide (unknown e1)) as [Hu|Hu].
    - destruct fuel as [|fuel]; [simpl in Hf; lia|]. cbn [advance_left_loop].
      unfold Ring.first. rewrite Hd1. cbn [lookup list_lookup mbind option_bind].
      rewrite (proj2 (Z.leb_gt _ _)) by done. exists p1. split_and!; [done|done| | |].
      + by eapply settled_head; [apply Hi1|..].
      + by exists [].
      + intros [??]%Forall_cons. done.
    - destruct (IH l1 p1 e1 Hi1 Hd1 Hu) as (p' & -> & Hi' & Hs & (l2 & ->) & Hall);
        [simpl in Hf; lia|].
      exists p'. split_and!; [done..|by exists (e1 :: l2)|]. intros [??]%Forall_cons. auto. }
  intros p e Hi Hd He. apply (Hgen _ l p e); auto with lia.
Qed.

Lemma sizes_can_settle acc total l :
  sizes_ok acc l → acc + widths l ≤ total → Forall (can_settle total) l.
Proof.
  revert acc. induction l as [|e l IH]; intros acc; [constructor|].
  intros Hs Ht. pose proof (sizes_ok_widths _ _ Hs) as Hw. destruct Hs as (Hw1 & Hu & _ & Hs).
  simpl in *. constructor; [|apply (IH (acc + width (entry_token e))); [done|lia]].
  intros Hun He. rewrite Hu by done. destruct (entry_token e); [..|done]; lia.
Qed.

Lemma check_stack_spec c p :
  scan_inv c p →
  ∃ d, check_stack 0 p = Some (with_buf (mkRing d (ring_offset (buf p)))
      (with_scan (unsized (ring_offset (buf p)) d) p)) ∧
    rev d = settle (right_total p) 0 (rev (ring_data (buf p))) ∧
    sizes_ok (left_total p) d ∧ widths d = widths (ring_data (buf p)) ∧ pinv c d p ∧
    length d = length (ring_data (buf p)) ∧
    kinds (rev d) = drain 0 (kinds (rev (ring_data (buf p)))).
Proof.
  intros [Hst Hsz Hl Ht Hsh Hp]. set (data := ring_data (buf p)) in *.
  assert (Hcs : Forall (can_settle (right_total p)) data).
  { eapply sizes_can_settle; [done|lia]. }
  exists (rev (settle (right_total p) 0 (rev data))).
  pose proof (settle_preserves (λ l, sizes_ok (left_total p) l ∧ widths l = widths data ∧
    pinv c l p ∧ length l = length data) (left_total p) (right_total p) 0 data []) as Hset.
  rewrite !app_nil_r in Hset. destruct Hset as (? & ? & ? & ?); [|done|done|done|].
  { intros l1 e l2 s (Hs & Hw & Hpi & Hln) Hu He. split_and!.
    - apply sizes_ok_app in Hs as [Hs1 (Hw1 & Hu1 & Hv & Hs2)]. apply sizes_ok_app.
      split; [done|]. simpl. split; [done|].
      pose proof (sizes_ok_widths _ _ Hs2) as Hw2. unfold unknown in *. simpl in *.
      split_and!; [destruct (entry_token e); lia| |done].
      intros v Hev. specialize (Hv v Hev). pose proof (str_len_nonneg v). lia.
    - by rewrite <-Hw, !widths_app.
    - by apply pinv_size.
    - by rewrite <-Hln, !length_app. }
  split_and!; try done.
  - unfold check_stack. rewrite Hst. fold data. destruct (buf p) as [b off] eqn:Hb.
    pose proof (check_stack_loop_settle (right_total p) off 0 data [] Hcs) as Hc.
    rewrite !app_nil_r in Hc. simpl in Hc |- *. change b with data. rewrite Hc.
    cbn [mbind option_bind]. by rewrite rev_involutive.
  - by rewrite rev_involutive.
  - rewrite rev_involutive. apply kinds_settle. apply Forall_forall. intros e He.
    rewrite Forall_forall in Hcs. apply Hcs. by apply elem_of_rev.
Qed.

Lemma check_stack_inv c p :
  scan_inv c p →
  ∃ p1, check_stack 0 p = Some p1 ∧ scan_inv c p1 ∧ left_total p1 = left_total p ∧
    rev (ring_data (buf p1)) = settle (right_total p) 0 (rev (ring_data (buf p))) ∧
    length (ring_data (buf p1)) = length (ring_data (buf p)) ∧
    kinds (rev (ring_data (buf p1))) = drain 0 (kinds (rev (ring_data (buf p)))).
Proof.
  intros Hi. destruct (check_stack_spec c p Hi) as (d & -> & Hd & Hsz & Hw & Hp & Hlen & Hk).
  eexists. split; [done|]. split_and!; [constructor|..]; simpl; try done.
  - intros Hne. apply (si_left _ _ Hi). intros He. apply Hne. by rewrite He in Hlen; destruct d.
  - rewrite Hw. apply Hi.
  - destruct (si_shape _ _ Hi) as (n & Hn & [Hsh _]%shape_drain). exists n. by rewrite Hk.
  - by eapply pinv_same, Hp.
Qed.

(** Printing whatever the buffer cannot hold. *)
Lemma check_stream_loop_spec fuel c p :
  scan_inv c p → settled p → ring_data (buf p) ≠ [] →
  (length (ring_data (buf p)) < fuel)%nat →
  ∃ p', check_stream_loop fuel p = Some p' ∧ scan_inv c p' ∧ settled p' ∧
    ∃ l1, ring_data (buf p) = l1 ++ ring_data (buf p').
Proof.
  revert p. induction fuel as [|fuel IH]; intros p Hi Hse Hne Hf; [lia|].
  cbn [check_stream_loop]. destruct (Z.ltb_spec (space p) (right_total p - left_total p)) as [Hlt|];
    [|exists p; split_and!; try done; by exists []].
  destruct (ring_data (buf p)) as [|e l] eqn:Hd; [done|]. clear Hne.
  destruct (scan_stack p) as [|front stack] eqn:Hst; [by rewrite (Hse Hst) in Hd|].
  cbn [head mbind option_bind].
  assert (Hp1 : ∃ p1 e1,
    (if decide (front = ring_offset (buf p)) then
       b ← Ring.update front (λ e, mkBufEntry (entry_token e) SIZE_INFINITY) (buf p);
       Some (with_buf b (with_scan (tail (front :: stack)) p))
     else Some p) = Some p1 ∧ scan_inv c p1 ∧ ring_data (buf p1) = e1 :: l ∧ ¬ unknown e1).
  { pose proof Hi as [Hs Hsz Hl Ht Hsh Hp]. rewrite Hd in Hs, Hsz, Hl, Ht, Hsh, Hp. rewrite Hst in Hs.
    simpl in Hs. case_decide as Hu.
    - injection Hs as -> Hs. rewrite decide_True by done.
      destruct (buf p) as [b off] eqn:Hb. simpl in *. subst b.
      pose proof (update_middle off [] l e (λ e, mkBufEntry (entry_token e) SIZE_INFINITY)) as Hup.
      simpl in Hup. rewrite Nat.add_0_r in Hup. rewrite Hup. cbn [mbind option_bind].
      eexists _, (sized e SIZE_INFINITY). split; [done|].
      assert (Hk : ¬ unknown (sized e SIZE_INFINITY)) by (unfold unknown; simpl; done).
      split; [|done]. constructor; simpl; [done| |by intros _; apply Hl|done| |].
      + destruct Hsz as (? & _ & Hv & ?). split_and!; try done.
        intros v Hev. specialize (Hv v Hev). pose proof (str_len_nonneg v).
        unfold unknown in Hu. lia.
      + destruct Hsh as (n & ? & Hsh). rewrite kinds_app in Hsh |- *.
        unfold kinds at 2 in Hsh. simpl in Hsh. rewrite decide_True in Hsh by done.
        apply shape_oldest in Hsh as (m & ? & Hsh). exists m. split; [lia|].
        unfold kinds at 2. simpl. by rewrite app_nil_r.
      + eapply pinv_same; [|by apply pinv_infinity; [exact Hp|done|simpl in *; lia]]. done.
    - exists p, e. split_and!; [|done..].
      rewrite decide_False; [done|]. intros ->.
      assert (Hin : ring_offset (buf p) ∈ unsized (S (ring_offset (buf p))) l).
      { rewrite <-Hs. left. }
      apply unsized_ge in Hin. lia. }
  destruct Hp1 as (p1 & e1 & -> & Hi1 & Hd1 & Hk). cbn [mbind option_bind].
  destruct (advance_left_spec c p1 e1 l Hi1 Hd1 Hk) as (p2 & -> & Hi2 & Hse2 & (l1 & Hl1) & _).
  cbn [mbind option_bind]. unfold Ring.is_empty.
  destruct (ring_data (buf p2)) as [|e2 l2] eqn:Hd2.
  { exists p2. split_and!; [done..|]. exists (e :: l). by rewrite Hd2, app_nil_r. }
  destruct (IH p2 Hi2 Hse2) as (p' & -> & Hi' & Hse' & (l3 & Hl3)).
  { by rewrite Hd2. } { rewrite Hl1 in Hf. rewrite Hd2. simpl in *. rewrite length_app in Hf. simpl in Hf. lia. }
  exists p'. split_and!; [done..|]. exists (e :: l1 ++ l3).
  rewrite Hl1, <-Hd2, Hl3. simpl. by rewrite app_assoc.
Qed.

(** ** The requests *)

Record inv c p : Prop := {
  inv_scan : scan_inv c p;
  inv_settled : settled p;
  inv_fresh : fresh (rev (ring_data (buf p)));
}.

(** Pushing an entry of unknown size. *)
Lemma push_spec c t c' p p' :
  let s := match t with TEnd => -1 | _ => - right_total p end in
  scan_inv c p → 1 ≤ left_total p → client_step c t = Some c' →
  (∀ v, t ≠ TString v) →
  buf p' = mkRing (ring_data (buf p) ++ [mkBufEntry t s]) (ring_offset (buf p)) →
  scan_stack p' = scan_stack p ++ [(ring_offset (buf p) + length (ring_data (buf p)))%nat] →
  left_total p' = left_total p → right_total p' = right_total p + width t →
  same_print p p' →
  (∃ n, (n ≤ client_depth c')%nat ∧
     shape n (entry_kind (mkBufEntry t s) :: kinds (rev (ring_data (buf p))))) →
  scan_inv c' p' ∧ settled p'.
Proof.
  intros s [Hst Hsz Hl Ht Hsh Hp] Hleft Hstep Hstr Hb Hst' Hl' Hr' Hsame Hsh'.
  pose proof (sizes_ok_widths _ _ Hsz) as Hw. pose proof (step_width _ _ _ Hstep) as Hwt.
  assert (Hs : s < 0) by (subst s; destruct t; lia).
  split; [constructor; rewrite ?Hb, ?Hst', ?Hl', ?Hr'; simpl|].
  - rewrite unsized_app, <-Hst. simpl. by rewrite decide_True.
  - apply sizes_ok_app. split; [done|]. simpl. split_and!; [done| | |done].
    + intros _. subst s. destruct t; [|lia|lia|done]. by destruct (Hstr s).
    + intros v Hv. by destruct (Hstr v).
  - done.
  - rewrite widths_app. simpl. lia.
  - rewrite rev_app_distr. simpl. unfold kinds. simpl. by rewrite decide_True.
  - eapply pinv_same; [done|]. apply (pinv_push c); [done| |done].
    subst s. destruct t as [v| | |]; simpl; [by destruct (Hstr v)|lia|lia|done].
  - unfold settled. rewrite Hst'. by destruct (scan_stack p).
Qed.

Lemma reset_spec c p :
  inv c p → scan_stack p = [] →
  scan_inv c (reset_totals p) ∧ fresh (rev (ring_data (buf (reset_totals p)))) ∧
  ring_data (buf (reset_totals p)) = [] ∧ left_total (reset_totals p) = 1.
Proof.
  intros [[Hst Hsz Hl Ht Hsh Hp] Hse Hfr] Hs. specialize (Hse Hs).
  rewrite Hse in *. split_and!; [constructor; simpl; try done|done..].
  by eapply pinv_same, Hp.
Qed.

Lemma inv_left c p : inv c p → scan_stack p ≠ [] → 1 ≤ left_total p.
Proof.
  intros [Hi _ _] Hs. apply (si_left _ _ Hi). intros Hd. apply Hs.
  by rewrite (si_stack _ _ Hi), Hd.
Qed.

Lemma scan_begin_spec c p b c' :
  inv c p → client_step c (TBegin b) = Some c' →
  ∃ p', scan_begin b p = Some p' ∧ inv c' p'.
Proof.
  intros Hi Hstep. unfold scan_begin.
  set (p1 := match scan_stack p with [] => reset_totals p | _ => p end).
  assert (H1 : scan_inv c p1 ∧ fresh (rev (ring_data (buf p1))) ∧ 1 ≤ left_total p1 ∧
    (Forall (λ e, ¬ unknown e) (rev (ring_data (buf p1))) → rev (ring_data (buf p1)) = [])).
  { subst p1. destruct (scan_stack p) eqn:Hs.
    - destruct (reset_spec c p Hi Hs) as (? & ? & _ & Hl). rewrite Hl. done.
    - split_and!; [apply Hi..| |].
      + eapply inv_left; [done|by rewrite Hs].
      + intros Hk. pose proof (si_stack _ _ (inv_scan _ _ Hi)) as Hst.
        apply List.Forall_rev in Hk. rewrite rev_involutive in Hk.
        by rewrite unsized_known, Hs in Hst. }
  destruct H1 as (Hi1 & Hf1 & Hl1 & Hk1). eexists. split; [done|].
  destruct (push_spec c (TBegin b) c' p1 (push_unsized (TBegin b) (- right_total p1) p1))
    as [? ?]; try done; simpl; [lia| |].
  { destruct (si_shape _ _ Hi1) as (n & Hn & Hsh). exists (S n).
    split; [|by apply shape_begin]. pose proof (step_depth _ _ _ Hstep) as Hd. simpl in Hd. lia. }
  constructor; [done..|]. simpl. rewrite rev_app_distr. simpl. split_and!; [|done..].
  unfold unknown. simpl. pose proof (si_total _ _ Hi1).
  pose proof (sizes_ok_widths _ _ (si_sizes _ _ Hi1)). lia.
Qed.

Lemma scan_break_spec c p b c' :
  inv c p → client_step c (TBreak b) = Some c' →
  ∃ p', scan_break b p = Some p' ∧ inv c' p' ∧
    ∃ d, ring_data (buf p') = d ++ [mkBufEntry (TBreak b) (- (right_total p' - blank_space b))].
Proof.
  intros Hi Hstep. unfold scan_break.
  assert (H1 : ∃ p1, match scan_stack p with [] => Some (reset_totals p) | _ => check_stack 0 p end
      = Some p1 ∧ scan_inv c p1 ∧ 1 ≤ left_total p1 ∧
      (∀ e, unknown e → entry_token e = TBreak b → fresh (e :: rev (ring_data (buf p1)))) ∧
      ∃ n, (n ≤ client_depth c)%nat ∧ shape n (KBreak :: kinds (rev (ring_data (buf p1))))).
  { destruct (scan_stack p) as [|i st] eqn:Hs.
    - destruct (reset_spec c p Hi Hs) as (? & _ & Hd & Hl). eexists. split; [done|].
      rewrite Hl, Hd. split_and!; [done|done| |].
      + intros e He Ht. simpl. by rewrite Ht.
      + exists 0%nat. split; [lia|done].
    - destruct (check_stack_inv c p (inv_scan _ _ Hi)) as (p1 & -> & Hi1 & Hl & Hd & _ & Hk).
      exists p1. rewrite Hl, Hd. split_and!; [done|done| | |].
      + eapply inv_left; [done|by rewrite Hs].
      + intros e He Ht. apply (fresh_break _ _ _ b); [apply Hi|done|done].
      + destruct (si_shape _ _ (inv_scan _ _ Hi)) as (n & Hn & [_ Hsh]%shape_drain).
        exists n. by rewrite <-Hd, Hk. }
  destruct H1 as (p1 & -> & Hi1 & Hl1 & Hf1 & Hsh1). cbn [mbind option_bind].
  eexists. split; [done|].
  match goal with |- inv _ ?q ∧ _ => destruct (push_spec c (TBreak b) c' p1 q) as [? ?] end;
    try done; simpl; [|].
  { pose proof (step_depth _ _ _ Hstep) as Hd. simpl in Hd. rewrite Hd. done. }
  split; [constructor; [done..|]|].
  - simpl. rewrite rev_app_distr. simpl app. apply Hf1; [|done]. unfold unknown. simpl.
    pose proof (si_total _ _ Hi1). pose proof (sizes_ok_widths _ _ (si_sizes _ _ Hi1)). lia.
  - simpl. eexists. repeat f_equal. lia.
Qed.

Lemma scan_string_spec c p s c' :
  inv c p → client_step c (TString s) = Some c' →
  ∃ p', scan_string s p = Some p' ∧ inv c' p'.
Proof.
  intros Hi Hstep. pose proof Hi as [[Hst Hsz Hl Ht Hsh Hp] Hse Hfr]. unfold scan_string.
  pose proof (pinv_push c (TString s) c' _ (str_len s) p Hstep ltac:(done) Hp) as Hp1.
  pose proof (step_depth _ _ _ Hstep) as Hdep. simpl in Hdep.
  destruct (scan_stack p) as [|i st] eqn:Hs.
  - specialize (Hse Hs). rewrite Hse in *. simpl in Hp1.
    destruct (pinv_print c' _ _ _ Hp1) as (p1 & Hrun & Hp2); [apply str_len_nonneg|].
    unfold print_left in Hrun. simpl in Hrun.
    apply bind_Some in Hrun as (q & Hq & [= <-]).
    unfold print_string, print_indent in Hq |- *. simpl in Hq.
    destruct (indentation _ _) as [ind|]; [|done]. simpl in Hq |- *.
    injection Hq as <-. eexists. split; [done|].
    constructor; [constructor|..]; unfold settled; simpl; rewrite ?Hse; try done.
    + exists 0%nat. split; [lia|done].
    + by eapply pinv_same, Hp2.
  - cbv zeta. unfold Ring.push. cbv iota beta.
    match goal with |- context [check_stream ?q] => set (p1 := q) end.
    unfold check_stream.
    assert (Hne : ring_data (buf p1) ≠ []) by (simpl; by destruct (ring_data (buf p))).
    destruct (check_stream_loop_spec (S (Ring.len (buf p1))) c' p1) as (p' & -> & Hi' & Hse' & Hd);
      [|unfold settled; simpl; by rewrite Hs|done|unfold Ring.len; lia|].
    { assert (Hk : ¬ unknown (mkBufEntry (TString s) (str_len s))).
      { unfold unknown. simpl. pose proof (str_len_nonneg s). lia. }
      constructor; simpl.
      - rewrite Hs, Hst, unsized_app. simpl. rewrite decide_False by done. by rewrite app_nil_r.
      - apply sizes_ok_app. split; [done|]. simpl.
        split_and!; [apply str_len_nonneg|done|by intros v [= ->]|done].
      - intros _. eapply inv_left; [done|by rewrite Hs].
      - rewrite widths_app. simpl. lia.
      - rewrite rev_app_distr. simpl. unfold kinds. simpl. rewrite decide_False by done.
        by rewrite Hdep.
      - by eapply pinv_same, Hp1. }
    exists p'. split; [done|]. constructor; [done..|]. destruct Hd as (l1 & Hd). simpl in Hd.
    destruct (ring_data (buf p')) as [|e d _] using rev_ind; [done|].
    rewrite app_assoc in Hd. apply app_inj_tail in Hd as [_ <-]. by rewrite rev_app_distr.
Qed.

(** Moving the offset of the break just scanned is scanning it with the
    offset moved. *)
Lemma scan_break_offset b o p q :
  scan_break b p = Some q → Printer.offset o q = scan_break (add_offset o b) p.
Proof.
  unfold scan_break. intros (p1 & -> & [= <-])%bind_Some. cbn [mbind option_bind].
  unfold Printer.offset, last_index, Ring.last, Ring.index_range. simpl.
  rewrite length_app, seq_app. simpl. rewrite !last_snoc. cbn [mbind option_bind].
  unfold Ring.update, Ring.index. simpl. rewrite decide_True by lia.
  rewrite Nat.add_comm, Nat.add_sub, list_lookup_middle by done. cbn [mbind option_bind].
  rewrite alter_app_r_alt, Nat.sub_diag by done. done.
Qed.

Lemma pop_scan_snoc p l i : scan_stack p = l ++ [i] → scan_stack (pop_scan p) = l.
Proof.
  intros Hs. unfold pop_scan. simpl. rewrite Hs, length_app. simpl.
  rewrite Nat.add_1_r. simpl. apply take_app_length.
Qed.

Lemma pop_last_snoc {A} (d : list A) x off :
  Ring.pop_last (mkRing (d ++ [x]) off) = Some (mkRing d off).
Proof.
  unfold Ring.pop_last. simpl. destruct d as [|y d]; [done|]. simpl.
  rewrite length_app, Nat.add_1_r. simpl. by rewrite take_app_length.
Qed.

Lemma second_last_snoc {A} (d : list A) x y off :
  Ring.second_last (mkRing (d ++ [x; y]) off) = Some x.
Proof.
  unfold Ring.second_last. simpl. rewrite length_app. simpl.
  rewrite decide_True by lia. rewrite Nat.add_sub. by apply list_lookup_middle.
Qed.

(** Closing a box that is not empty. *)
Lemma push_end_spec c p c' :
  scan_inv c p → 1 ≤ left_total p → client_step c TEnd = Some c' →
  inv c' (push_end p).
Proof.
  intros Hi Hl Hstep.
  destruct (push_spec c TEnd c' p (push_end p)) as [? ?]; try done; simpl; [lia| |].
  { destruct (si_shape _ _ Hi) as (n & Hn & Hsh). exists (pred n).
    split; [|by apply shape_end]. pose proof (step_depth _ _ _ Hstep) as Hd. simpl in Hd. lia. }
  constructor; [done..|]. simpl. rewrite rev_app_distr. done.
Qed.

(** Taking entries of unknown size back from the end of the buffer. *)
Lemma unpush_spec c c' p data l off q :
  scan_inv c p → buf p = mkRing (data ++ l) off → Forall unknown l →
  buf q = mkRing data off → scan_stack p = scan_stack q ++ unsized (off + length data) l →
  left_total q = left_total p → right_total q = right_total p - widths l →
  1 ≤ left_total p → same_print p q → pinv c' data p →
  (∃ n, (n ≤ client_depth c')%nat ∧ shape n (kinds (rev data))) → scan_inv c' q.
Proof.
  intros [Hst Hsz Hl Ht Hsh Hp] Hb Hun Hbq Hsq Hlq Hrq Hleft Hsame Hpq Hshq.
  rewrite Hb in *. simpl in *.
  constructor; rewrite ?Hbq, ?Hlq, ?Hrq; simpl; [..|done|by eapply pinv_same].
  - rewrite Hst, unsized_app in Hsq. by apply app_inv_tail in Hsq.
  - by apply sizes_ok_app in Hsz as [? _].
  - done.
  - rewrite Ht, widths_app. lia.
Qed.

(** A buffer that ends with a break. *)
Lemma last_break c p data e b off :
  inv c p → buf p = mkRing (data ++ [e]) off → entry_token e = TBreak b →
  unknown e ∧ scan_stack p = unsized off data ++ [(off + length data)%nat] ∧
  (∀ e2 data2, data = data2 ++ [e2] → is_begin e2 →
     unknown e2 ∧ fresh (rev data2) ∧ (Forall (λ e, ¬ unknown e) data2 → data2 = []) ∧
     unsized off data = unsized off data2 ++ [(off + length data2)%nat]) ∧
  ∃ n, (n ≤ client_depth c)%nat ∧ shape n (KBreak :: kinds (rev data)).
Proof.
  intros [[Hst _ _ _ (n & Hn & Hsh) _] _ Hfr] Hb He. rewrite Hb in *. simpl in *.
  rewrite rev_app_distr in Hfr, Hsh. simpl in Hfr, Hsh. rewrite He in Hfr.
  destruct Hfr as [Hu Hfr]. unfold kinds in Hsh. simpl in Hsh.
  rewrite decide_True in Hsh by done. unfold entry_kind at 1 in Hsh. rewrite He in Hsh.
  split_and!; [done| | |by exists n].
  - rewrite Hst, unsized_app. simpl. by rewrite decide_True.
  - intros e2 data2 -> Hbeg. rewrite rev_app_distr in Hfr. simpl in Hfr.
    specialize (Hfr Hbeg). unfold is_begin in Hbeg.
    destruct (entry_token e2); try done. destruct Hfr as (Hu2 & Hne & Hfr).
    split_and!; [done|done| |].
    { intros Hk. rewrite <-(rev_involutive data2), Hne; [done|]. by apply List.Forall_rev. }
    rewrite unsized_app. simpl. by rewrite decide_True.
Qed.

Lemma drop_break_spec c c' p data e b off :
  inv c p → buf p = mkRing (data ++ [e]) off → entry_token e = TBreak b →
  if_nonempty b = true → 1 ≤ left_total p → client_step c TEnd = Some c' →
  inv c' (push_end (with_right (right_total p - blank_space b)
                      (pop_scan (with_buf (mkRing data off) p)))).
Proof.
  intros Hi Hb He Hne Hleft Hstep.
  destruct (last_break c p data e b off Hi Hb He) as (Hu & Hst & _ & (n & Hn & Hsh)).
  apply (push_end_spec c); [|done|done].
  eapply (unpush_spec c c p data [e]); try done; try apply Hi.
  - by apply Forall_singleton.
  - change (scan_stack (with_right ?r ?q)) with (scan_stack q).
    erewrite pop_scan_snoc by (simpl; exact Hst). rewrite Hst. simpl.
    by rewrite decide_True.
  - simpl. rewrite He. simpl. lia.
  - apply (pinv_drop_break c c' data e b p); [done..|].
    pose proof (si_print _ _ (inv_scan _ _ Hi)) as Hp. by rewrite Hb in Hp.
  - exists n. split; [done|]. by apply shape_drop_break.
Qed.

Lemma drop_box_spec c c' p data e1 e2 b off :
  inv c p → buf p = mkRing (data ++ [e1; e2]) off → is_begin e1 → entry_token e2 = TBreak b →
  1 ≤ left_total p → client_step c TEnd = Some c' →
  inv c' (with_right (right_total p - blank_space b)
            (pop_scan (pop_scan (with_buf (mkRing data off) p)))).
Proof.
  intros Hi Hb He1 He2 Hleft Hstep.
  assert (Hb' : buf p = mkRing ((data ++ [e1]) ++ [e2]) off) by by rewrite <-app_assoc.
  destruct (last_break c p _ e2 b off Hi Hb' He2) as (Hu2 & Hst & Hbox & (n & Hn & Hsh)).
  destruct (Hbox e1 data eq_refl He1) as (Hu1 & Hfr & Hne & Hst1). rewrite Hst1 in Hst.
  assert (Hst' : scan_stack (with_right (right_total p - blank_space b)
    (pop_scan (pop_scan (with_buf (mkRing data off) p)))) = unsized off data).
  { change (scan_stack (with_right ?r ?q)) with (scan_stack q).
    eapply pop_scan_snoc, pop_scan_snoc. simpl. exact Hst. }
  constructor.
  - eapply (unpush_spec c c' p data [e1; e2]); try done; try apply Hi.
    + by repeat constructor.
    + rewrite Hst', Hst. simpl. rewrite !decide_True by done.
      rewrite length_app, <-app_assoc. simpl. do 3 f_equal. lia.
    + simpl. rewrite He2. unfold is_begin in He1. destruct (entry_token e1); try done. simpl. lia.
    + apply (pinv_drop_box c c' data e1 e2 b p); [done..|].
      pose proof (si_print _ _ (inv_scan _ _ Hi)) as Hp. by rewrite Hb in Hp.
    + rewrite rev_app_distr in Hsh. simpl in Hsh. unfold kinds in Hsh. simpl in Hsh.
      rewrite decide_True in Hsh by done. unfold entry_kind at 1 in Hsh. unfold is_begin in He1.
      destruct (entry_token e1); try done. apply shape_drop_box in Hsh as (m & -> & Hsh).
      exists m. split; [|done]. pose proof (step_depth _ _ _ Hstep) as Hd. simpl in Hd. lia.
  - unfold settled. rewrite Hst'. simpl. intros ?%unsized_nil. auto.
  - done.
Qed.

Lemma scan_end_spec c p c' :
  inv c p → client_step c TEnd = Some c' → ∃ p', scan_end p = Some p' ∧ inv c' p'.
Proof.
  intros Hi Hstep. unfold scan_end. destruct (scan_stack p) as [|i st] eqn:Hs.
  { destruct Hi as [[Hst Hsz Hl Ht Hsh Hp] Hse Hfr]. specialize (Hse Hs). rewrite Hse in *.
    pose proof (pinv_push c TEnd c' _ 1 p Hstep ltac:(done) Hp) as Hp1.
    destruct (pinv_print c' _ _ _ Hp1) as (p1 & Hrun & Hp2); [done|].
    unfold print_left in Hrun. simpl in Hrun.
    apply bind_Some in Hrun as (q & Hq & [= <-]). exists q. split; [done|].
    assert (Hsame : buf q = buf p ∧ scan_stack q = scan_stack p ∧ left_total q = left_total p ∧
      right_total q = right_total p).
    { unfold print_end in Hq. destruct (print_stack p) as [|[] ?]; by simplify_eq/=. }
    destruct Hsame as (Hb & Hsq & Hlq & Hrq).
    constructor; [constructor|..]; unfold settled; rewrite ?Hb, ?Hsq, ?Hlq, ?Hrq, ?Hse; try done.
    - exists 0%nat. split; [lia|done].
    - by eapply pinv_same, Hp2. }
  assert (Hleft : 1 ≤ left_total p) by (eapply inv_left; [done|by rewrite Hs]).
  assert (Hend : ∃ p', Some (push_end p) = Some p' ∧ inv c' p').
  { eexists. split; [done|]. eapply push_end_spec; [apply Hi|done..]. }
  destruct (buf p) as [data off] eqn:Hb. unfold Ring.last. simpl ring_data.
  destruct data as [|e data _] using rev_ind; [done|]. rewrite last_snoc. simpl.
  destruct (entry_token e) as [|b| |] eqn:He; [done| |done..].
  rewrite pop_last_snoc. cbn [mbind option_bind].
  assert (Hdrop : ∃ p', (if if_nonempty b then Some (push_end
      (with_right (right_total p - blank_space b) (pop_scan (with_buf (mkRing data off) p))))
      else Some (push_end p)) = Some p' ∧ inv c' p').
  { destruct (if_nonempty b) eqn:Hne; [|done]. eexists. split; [done|].
    by eapply drop_break_spec. }
  destruct data as [|e1 data _] using rev_ind; [done|].
  rewrite <-app_assoc in *. simpl app in *. rewrite second_last_snoc. simpl.
  destruct (entry_token e1) eqn:He1; [done..| |done].
  rewrite pop_last_snoc. cbn [mbind option_bind]. eexists. split; [done|].
  eapply drop_box_spec; try done. unfold is_begin. by rewrite He1.
Qed.

Lemma scan_eof_spec c p :
  inv c p → client_depth c = 0%nat → ∃ p', scan_eof p = Some p' ∧ pinv c [] p'.
Proof.
  intros [Hi Hse Hfr] Hd. unfold scan_eof. destruct (scan_stack p) as [|i st] eqn:Hs.
  { exists p. split; [done|]. specialize (Hse Hs). pose proof (si_print _ _ Hi) as Hp.
    by rewrite Hse in Hp. }
  destruct (check_stack_inv c p Hi) as (p1 & -> & Hi1 & _ & _ & Hlen & Hk).
  cbn [mbind option_bind].
  assert (Hknown : Forall (λ e, ¬ unknown e) (ring_data (buf p1))).
  { destruct (si_shape _ _ Hi) as (n & Hn & Hsh). rewrite Hd in Hn.
    assert (n = 0%nat) as -> by lia. simpl in Hsh. rewrite Hsh in Hk.
    apply Forall_forall. intros e He Hu. apply elem_of_rev in He.
    assert (entry_kind e ∈ kinds (rev (ring_data (buf p1)))) as Hin.
    { apply list_elem_of_omap. exists e. split; [done|]. by rewrite decide_True. }
    rewrite Hk in Hin. by apply not_elem_of_nil in Hin. }
  destruct (ring_data (buf p1)) as [|e l] eqn:Hd1.
  { assert (Hnil : ring_data (buf p) = []) by (by destruct (ring_data (buf p))).
    pose proof (si_stack _ _ Hi) as Hst. rewrite Hnil, Hs in Hst. done. }
  apply Forall_cons in Hknown as [He Hl].
  destruct (advance_left_spec c p1 e l Hi1 Hd1 He) as (p2 & -> & Hi2 & _ & _ & Hnil).
  exists p2. split; [done|]. rewrite <-(Hnil Hl). apply Hi2.
Qed.
End scanning.
