(* ===== verification/PrinterSpec.v ===== *)
(** * What the printer guarantees

    The requests a formatter makes of the printer and, from the first instance
    of [PrintInv], that with balanced boxes and offsets that cannot lead left
    of the margin the printer never panics and prints exactly the text it was
    given. *)
From S2P Require Import Prelude Text Printer PrinterScan.
Import Printer.
Local Open Scope Z_scope.

(** ** Requests *)

Inductive request :=
| Box (t : BeginToken)
| Close
| Break (t : BreakToken)
| BreakOffset (t : BreakToken) (off : Z)      (* a break, then [offset] *)
| Word (s : str).

Definition request_token (r : request) : Token :=
  match r with
  | Box t => TBegin t
  | Close => TEnd
  | Break t => TBreak t
  | BreakOffset t off => TBreak (add_offset off t)
  | Word s => TString s
  end.

Definition serve (p : Printer) (r : request) : option Printer :=
  match r with
  | Box t => scan_begin t p
  | Close => end_ p
  | Break t => scan_break t p
  | BreakOffset t off => p ← scan_break t p; Printer.offset off p
  | Word s => word s p
  end.

(** A whole document. *)
Definition print (m : Z) (config : option Z) (rs : list request) : option str :=
  p ← fold_opt serve (new m config) rs; eof p.

Section serving.
Context {C : Type} `{!PrintInv C}.

Fixpoint client_run (c : C) (l : list Token) : option C :=
  match l with [] => Some c | t :: l => c ← client_step c t; client_run c l end.

Lemma scan_break_some b p q o :
  scan_break (add_offset o b) p = Some q → is_Some (scan_break b p).
Proof. unfold scan_break. intros (p1 & -> & _)%bind_Some. by eexists. Qed.

Lemma serve_spec c p r c' :
  inv c p → client_step c (request_token r) = Some c' → ∃ p', serve p r = Some p' ∧ inv c' p'.
Proof.
  intros Hi Hstep. destruct r; simpl in *.
  - by eapply scan_begin_spec.
  - by eapply scan_end_spec.
  - destruct (scan_break_spec _ _ _ _ Hi Hstep) as (p' & ? & ? & _). eauto.
  - destruct (scan_break_spec _ _ _ _ Hi Hstep) as (p' & Hp' & ? & _).
    destruct (scan_break_some _ _ _ _ Hp') as [q Hq]. rewrite Hq. simpl.
    rewrite (scan_break_offset _ _ _ _ Hq). eauto.
  - by eapply scan_string_spec.
Qed.

Lemma serve_all_spec rs c p c' :
  inv c p → client_run c (request_token <$> rs) = Some c' →
  ∃ p', fold_opt serve p rs = Some p' ∧ inv c' p'.
Proof.
  revert c p. induction rs as [|r rs IH]; intros c p Hi; simpl.
  - intros [= <-]. eauto.
  - intros (c1 & Hc1 & Hrun)%bind_Some.
    destruct (serve_spec c p r c1 Hi Hc1) as (p1 & -> & Hi1). simpl. eauto.
Qed.

Lemma new_inv c m config : pinv c [] (new m config) → inv c (new m config).
Proof.
  intros Hp. constructor; [constructor|done..]; simpl; try done.
  exists 0%nat. split; [lia|done].
Qed.

Lemma print_spec m config rs c c' :
  pinv c [] (new m config) → client_run c (request_token <$> rs) = Some c' →
  client_depth c' = 0%nat →
  ∃ p, print m config rs = Some (out p) ∧ pinv c' [] p.
Proof.
  intros Hp Hrun Hd. unfold print, eof.
  destruct (serve_all_spec rs c _ c' (new_inv _ _ _ Hp) Hrun) as (p1 & -> & Hi1).
  cbn [mbind option_bind].
  destruct (scan_eof_spec c' p1 Hi1 Hd) as (p2 & -> & Hp2). by exists p2.
Qed.
End serving.

(** ** Boxes and offsets

    The offsets of the boxes that are open, the innermost first.  A break may
    lead back by at most the offset of its own box. *)
Definition walk1 (boxes : list Z) (t : Token) : option (list Z) :=
  match t with
  | TString _ => Some boxes
  | TBreak b =>
      if (0 <=? blank_space b) && (0 <=? hd 0 boxes + break_off b) then Some boxes else None
  | TBegin b =>
      match begin_indent b with
      | Block o => if 0 <=? o then Some (o :: boxes) else None
      | Visual => Some (0 :: boxes)
      end
  | TEnd => match boxes with [] => None | _ :: boxes => Some boxes end
  end.

Definition walk (boxes : list Z) (l : list Token) : option (list Z) := fold_opt walk1 boxes l.

Definition toks (l : list BufEntry) : list Token := entry_token <$> l.

Lemma walk1_width boxes t boxes' : walk1 boxes t = Some boxes' → 0 ≤ width t.
Proof.
  destruct t as [s|b|b|]; simpl; intros H; [apply str_len_nonneg| |done..].
  case_match eqn:Hb; [|done]. apply andb_true_iff in Hb as [?%Z.leb_le _]. done.
Qed.

Lemma walk1_depth boxes t boxes' : walk1 boxes t = Some boxes' →
  match t with
  | TBegin _ => length boxes' = S (length boxes)
  | TEnd => length boxes = S (length boxes')
  | _ => length boxes' = length boxes
  end.
Proof.
  destruct t as [s|b|b|]; simpl; [by intros [= ->]| | |].
  - case_match; by intros [= ->].
  - destruct (begin_indent b); [by intros [= <-]|]. case_match; by intros [= <-].
  - destruct boxes; [done|]. by intros [= ->].
Qed.

Lemma walk_snoc boxes l t : walk boxes (l ++ [t]) = b ← walk boxes l; walk1 b t.
Proof.
  unfold walk. rewrite fold_opt_app. destruct (fold_opt walk1 boxes l); simpl; [|done].
  by destruct (walk1 _ _).
Qed.

Lemma walk_drop_break boxes l b b' :
  walk boxes (l ++ [TBreak b]) = Some b' → walk boxes l = Some b'.
Proof.
  rewrite walk_snoc. intros (b1 & -> & Hb)%bind_Some. simpl in Hb.
  by destruct (_ && _); simplify_eq.
Qed.

Lemma walk_drop_begin boxes l b b1 b' :
  walk boxes (l ++ [TBegin b]) = Some b1 → walk1 b1 TEnd = Some b' → walk boxes l = Some b'.
Proof.
  rewrite walk_snoc. intros (b0 & -> & Hb)%bind_Some Hend. simpl in *.
  destruct b1; [done|]. simplify_eq. destruct (begin_indent b); [by simplify_eq|].
  by destruct (_ <=? _); simplify_eq.
Qed.

(** The frames of the printing half agree with the boxes: a broken box is
    indented by at least its offset. *)
Fixpoint frames_ok (ind : Z) (frames : list PrintFrame) (boxes : list Z) : Prop :=
  0 ≤ ind ∧
  match frames, boxes with
  | [], [] => True
  | Fits _ :: frames, _ :: boxes => frames_ok ind frames boxes
  | Broken prev _ :: frames, o :: boxes => o ≤ ind ∧ frames_ok prev frames boxes
  | _, _ => False
  end.

Lemma frames_ok_indent ind frames boxes : frames_ok ind frames boxes → 0 ≤ ind.
Proof. destruct frames; simpl; tauto. Qed.

(** ** Text *)

(** What is left of a text without spaces, tabs and newlines. *)
Definition visible (s : str) : str :=
  filter (λ c, c ≠ blank ∧ c ≠ tab ∧ c ≠ newline) s.

Definition visible_opt (s : option str) : str := visible (default [] s).

(** [shows l v]: the tokens print the visible text [v].  A string prints
    itself; a break prints nothing, or what it says to print when it breaks. *)
Inductive shows : list Token → str → Prop :=
| shows_nil : shows [] []
| shows_string s l v : shows l v → shows (TString s :: l) (visible s ++ v)
| shows_flat b l v : shows l v → shows (TBreak b :: l) v
| shows_broken b l v : shows l v →
    shows (TBreak b :: l) (visible_opt (pre_break b) ++ visible_opt (post_break b) ++ v)
| shows_begin b l v : shows l v → shows (TBegin b :: l) v
| shows_end l v : shows l v → shows (TEnd :: l) v.

Lemma shows_app l1 v1 l2 v2 : shows l1 v1 → shows l2 v2 → shows (l1 ++ l2) (v1 ++ v2).
Proof.
  intros H1 H2. induction H1; simpl; rewrite <-?app_assoc; try by constructor.
  done.
Qed.

Lemma shows_split l1 l2 v :
  shows (l1 ++ l2) v → ∃ v1 v2, v = v1 ++ v2 ∧ shows l1 v1 ∧ shows l2 v2.
Proof.
  revert v. induction l1 as [|t l1 IH]; simpl; intros v Hv.
  { exists [], v. split_and!; [done|constructor|done]. }
  inversion Hv as [|? ? w Hw|? ? w Hw|? ? w Hw|? ? w Hw|? w Hw]; subst;
    apply IH in Hw as (v1 & v2 & -> & ? & ?).
  1,3: eexists _, v2; rewrite !app_assoc; split_and!; [done| |done]; rewrite <-?app_assoc;
    by constructor.
  all: eexists _, v2; split_and!; [done|by constructor|done].
Qed.

(** No word is lost: with breaks that print nothing, the visible text is the
    words in order. *)
Fixpoint words (l : list Token) : str :=
  match l with
  | [] => []
  | TString s :: l => visible s ++ words l
  | _ :: l => words l
  end.

Lemma shows_words l v :
  Forall (λ t, match t with TBreak b => pre_break b = None ∧ post_break b = None | _ => True end) l →
  shows l v → v = words l.
Proof.
  intros Hl Hs. induction Hs; simpl; try apply Forall_cons in Hl as [Hb Hl]; auto.
  - by rewrite IHHs.
  - destruct Hb as [-> ->]. simpl. auto.
Qed.

Lemma visible_app s t : visible (s ++ t) = visible s ++ visible t.
Proof. apply filter_app. Qed.

Lemma visible_repeat c n : c = blank ∨ c = tab → visible (repeat_n c n) = [].
Proof.
  intros Hc. unfold visible, repeat_n.
  induction (Z.to_nat n) as [|k IH]; [done|].
  simpl replicate. rewrite filter_cons_False; [done|].
  destruct Hc as [-> | ->]; unfold blank, tab, newline; tauto.
Qed.

Definition config_ok (config : option Z) : Prop :=
  match config with Some w => 0 < w | None => True end.

Lemma indentation_ok config n :
  config_ok config → ∃ s, indentation config n = Some s ∧ visible s = [].
Proof.
  intros Hc. unfold indentation. destruct config as [w|]; simpl in Hc.
  - destruct (Z.eqb_spec w 0); [lia|]. eexists. split; [done|].
    rewrite visible_app, !visible_repeat; auto.
  - eexists. split; [done|]. apply visible_repeat. auto.
Qed.

(** *** The text invariant *)

Record text_inv (c : list Z * list Token) (l : list BufEntry) (p : Printer) : Prop := {
  tx_boxes : ∃ boxes, frames_ok (indent p) (print_stack p) boxes ∧
    walk boxes (toks l) = Some c.1;
  tx_space : space p ≤ margin p;
  tx_margin : MIN_SPACE ≤ margin p;
  tx_pending : 0 ≤ pending_indentation p;
  tx_config : config_ok (indent_config p);
  tx_text v : shows (toks l) v → shows c.2 (visible (out p) ++ v);
}.

Definition text_step (c : list Z * list Token) (t : Token) : option (list Z * list Token) :=
  (λ boxes, (boxes, c.2 ++ [t])) <$> walk1 c.1 t.

Lemma text_step_inv c t c' :
  text_step c t = Some c' → walk1 c.1 t = Some c'.1 ∧ c'.2 = c.2 ++ [t].
Proof. unfold text_step. by intros (b & -> & ->)%fmap_Some. Qed.

Lemma visible_newline : visible [newline] = [].
Proof. done. Qed.

(** Printing the pending indentation. *)
Lemma print_indent_spec p :
  config_ok (indent_config p) →
  ∃ o, print_indent p = Some (with_pending 0 (with_out (out p ++ o) p)) ∧ visible o = [].
Proof.
  intros Hc. destruct (indentation_ok (indent_config p) (pending_indentation p) Hc) as (o & Ho & ?).
  exists o. unfold print_indent. by rewrite Ho.
Qed.

(** A break that breaks: what it prints, and where the next line starts. *)
Lemma print_break_broken b size p :
  config_ok (indent_config p) → 0 ≤ indent p + break_off b →
  never_break b || match get_top p with
    | Fits _ => true | Broken _ Consistent => false | Broken _ Inconsistent => size <=? space p
    end = false →
  ∃ p', print_break b size p = Some p' ∧
    visible (out p') = visible (out p) ++ visible_opt (pre_break b) ++ visible_opt (post_break b) ∧
    space p' ≤ Z.max (margin p) MIN_SPACE ∧
    0 ≤ pending_indentation p' ∧ margin p' = margin p ∧ indent p' = indent p ∧
    print_stack p' = print_stack p ∧ indent_config p' = indent_config p.
Proof.
  intros Hc Hind Hfits. unfold print_break. rewrite Hfits.
  assert (Hpre : ∃ p1, match pre_break b with
      | Some pre_break => push_str pre_break <$> print_indent p | None => Some p end = Some p1 ∧
    visible (out p1) = visible (out p) ++ visible_opt (pre_break b) ∧ margin p1 = margin p ∧
    indent p1 = indent p ∧ print_stack p1 = print_stack p ∧ indent_config p1 = indent_config p).
  { destruct (pre_break b) as [s|].
    - destruct (print_indent_spec p Hc) as (o & -> & Ho). eexists. split; [done|]. simpl.
      by rewrite !visible_app, Ho, app_nil_r.
    - eexists. split; [done|]. by rewrite app_nil_r. }
  destruct Hpre as (p1 & -> & Ho1 & Hm1 & Hi1 & Hs1 & Hc1). cbn [mbind option_bind].
  unfold try_usize. simpl. rewrite Hi1, (proj2 (Z.leb_le _ _)) by done. cbn [mbind option_bind].
  destruct (post_break b) as [s|].
  - match goal with |- context [print_indent ?q] => destruct (print_indent_spec q) as (o & -> & Ho) end.
    { simpl. by rewrite Hc1. }
    cbn [mbind option_bind]. eexists. split; [done|]. simpl. rewrite Hm1.
    pose proof (str_len_nonneg s). split_and!; try done; [|lia].
    by rewrite !visible_app, Ho, Ho1, visible_newline, !app_nil_r, <-app_assoc.
  - eexists. split; [done|]. simpl. rewrite Hm1. split_and!; try done; [|lia].
    by rewrite visible_app, Ho1, visible_newline, !app_nil_r.
Qed.

Lemma text_print c e l p :
  text_inv c (e :: l) p → 0 ≤ entry_size e → ∃ p', print_left e p = Some p' ∧ text_inv c l p'.
Proof.
  intros [(boxes & Hf & Hw) Hsp Hm Hpe Hc Htx] Hsz. unfold toks, walk in *. simpl in Hw, Htx.
  apply bind_Some in Hw as (b1 & Hb1 & Hw). pose proof (frames_ok_indent _ _ _ Hf) as Hind.
  unfold print_left. destruct (entry_token e) as [s|b|b|].
  - unfold print_string. set (q := with_left _ p).
    destruct (print_indent_spec q Hc) as (o & -> & Ho). simpl in Hb1. simplify_eq.
    eexists. split; [done|]. pose proof (str_len_nonneg s).
    constructor; simpl; [by exists b1|lia|done..|].
    intros v Hv. rewrite !visible_app, Ho, app_nil_r, <-app_assoc. apply Htx. by constructor.
  - simpl in Hb1. destruct (Z.leb_spec 0 (blank_space b)) as [Hbl|]; [|done].
    destruct (Z.leb_spec 0 (hd 0 boxes + break_off b)) as [Hoff|]; [|done].
    simpl in Hb1. simplify_eq. set (q := with_left _ p).
    match goal with |- context [print_break b ?s q] =>
      destruct (never_break b || match get_top q with
        | Fits _ => true | Broken _ Consistent => false | Broken _ Inconsistent => s <=? space q
        end) eqn:Hfits end.
    + unfold print_break. rewrite Hfits. eexists. split; [done|].
      constructor; simpl; [by exists b1|lia|done|lia|done|].
      intros v Hv. apply Htx. by constructor.
    + destruct (print_break_broken b (entry_size e) q Hc) as
        (p' & -> & Ho & Hs & Hp & Hmm & Hi & Hst & Hcc); [|done|].
      { simpl. unfold get_top in Hfits. simpl in Hfits.
        destruct (print_stack p) as [|[] ?], b1; simpl in Hf, Hoff; try tauto; try lia. }
      eexists. split; [done|].
      constructor; simpl; rewrite ?Hi, ?Hst, ?Hmm, ?Hcc; simpl; [by exists b1| |done..|].
      * simpl in Hs. lia.
      * intros v Hv. rewrite Ho, <-!app_assoc. apply Htx. by constructor.
  - unfold print_begin.
    assert (Htx' : ∀ v, shows (entry_token <$> l) v → shows c.2 (visible (out p) ++ v)).
    { intros v Hv. apply Htx. by constructor. }
    destruct (Z.ltb_spec (space p) (entry_size e)).
    + assert (Hn : ∃ n, match begin_indent b with Block offset => try_usize (indent p + offset)
          | Visual => Some (wrap 64 (margin p - space p)) end = Some n ∧ 0 ≤ n ∧
          ∃ o, b1 = o :: boxes ∧ o ≤ n).
      { simpl in Hb1. destruct (begin_indent b) as [|o].
        - eexists. split; [done|]. pose proof (wrap_in_u 64 (margin p - space p) ltac:(lia)) as [? _].
          split; [done|]. exists 0. by simplify_eq.
        - destruct (Z.leb_spec 0 o); [|done]. simplify_eq. unfold try_usize.
          rewrite (proj2 (Z.leb_le _ _)) by lia. eexists. split; [done|]. split; [lia|].
          exists o. split; [done|lia]. }
      destruct Hn as (n & -> & Hn & o & -> & Ho). cbn [mbind option_bind]. eexists. split; [done|].
      constructor; simpl; try done. exists (o :: boxes). simpl. done.
    + eexists. split; [done|]. constructor; simpl; try done. exists b1. split; [|done].
      simpl in Hb1. assert (∃ o, b1 = o :: boxes) as [o ->].
      { destruct (begin_indent b); [by simplify_eq; eexists|].
        destruct (_ <=? _); simplify_eq. by eexists. }
      done.
  - simpl in Hb1. destruct boxes as [|o boxes]; [done|]. simplify_eq.
    unfold print_end. assert (Htx' : ∀ v, shows (entry_token <$> l) v → shows c.2 (visible (out p) ++ v)).
    { intros v Hv. apply Htx. by constructor. }
    destruct (print_stack p) as [|[fb|prev fb] frames]; simpl in Hf; [tauto|..].
    + eexists. split; [done|]. constructor; simpl; try done. exists b1. tauto.
    + eexists. split; [done|]. constructor; simpl; try done. exists b1. tauto.
Qed.

Lemma text_same c l p q : same_print p q → text_inv c l p → text_inv c l q.
Proof.
  intros (Ho & Hs & Hf & Hi & Hp & Hm & Hc) [Hb H1 H2 H3 H4 H5].
  rewrite Ho, Hs, Hf, Hi, Hp, Hm, Hc in *. by constructor.
Qed.

Lemma text_push c t c' l s p :
  text_step c t = Some c' → text_inv c l p → text_inv c' (l ++ [mkBufEntry t s]) p.
Proof.
  intros [Hw Ht]%text_step_inv [(boxes & Hf & Hb) H1 H2 H3 H4 H5].
  constructor; try done; unfold toks in *; rewrite fmap_app; simpl.
  - exists boxes. split; [done|]. by rewrite walk_snoc, Hb.
  - intros v Hv. rewrite Ht. apply shows_split in Hv as (v1 & v2 & -> & ? & ?).
    rewrite app_assoc. apply shows_app; auto.
Qed.

Lemma text_drop c c' l d p :
  text_inv c (l ++ d) p → shows (toks d) [] → (∀ b, walk b (toks (l ++ d)) = Some c.1 →
    walk b (toks l) = Some c'.1) → (∀ v, shows c.2 v → shows c'.2 v) → text_inv c' l p.
Proof.
  intros [(boxes & Hf & Hb) H1 H2 H3 H4 H5] Hd Hw Hc. constructor; try done.
  - exists boxes. eauto.
  - intros v Hv. apply Hc, H5. unfold toks. rewrite fmap_app, <-(app_nil_r v).
    by apply shows_app.
Qed.

#[local] Instance text_print_inv : PrintInv (list Z * list Token).
Proof.
  refine {| client_step := text_step; client_depth c := length c.1; pinv := text_inv |}.
  - intros c t c' [Hw _]%text_step_inv. by eapply walk1_width.
  - intros c t c' [Hw _]%text_step_inv. apply walk1_depth in Hw. by destruct t.
  - apply text_same.
  - intros c t c' l s p Hs _. by apply text_push.
  - apply text_print.
  - intros c l1 e l2 s p [Hb H1 H2 H3 H4 H5] _ _. unfold toks in *.
    rewrite fmap_app in Hb, H5. constructor; try done; unfold toks; by rewrite fmap_app.
  - intros c e l p [Hb H1 H2 H3 H4 H5] _ _. by constructor.
  - intros c c' l e1 e2 b p [Hend Ht]%text_step_inv He1 He2 Hp. unfold is_begin in He1.
    destruct (entry_token e1) as [| |b1|] eqn:H1; try done.
    apply (text_drop c c' l [e1; e2] p Hp).
    + simpl. rewrite H1, He2. by repeat constructor.
    + intros boxes Hw. unfold toks in *. rewrite fmap_app in Hw. simpl in Hw.
      rewrite H1, He2 in Hw.
      change [TBegin b1; TBreak b] with ([TBegin b1] ++ [TBreak b]) in Hw.
      rewrite app_assoc in Hw. apply walk_drop_break in Hw. by eapply walk_drop_begin.
    + intros v Hv. rewrite Ht, <-(app_nil_r v). apply shows_app; [done|]. by repeat constructor.
  - intros c c' l e b p _ He _ Hp. apply (text_drop c c l [e] p Hp); [|..|done].
    + simpl. rewrite He. by repeat constructor.
    + intros boxes Hw. unfold toks in *. rewrite fmap_app in Hw. simpl in Hw.
      rewrite He in Hw. by eapply walk_drop_break.
Defined.

Lemma new_margin m config : MIN_SPACE ≤ margin (new m config) < SIZE_INFINITY.
Proof. unfold new, MIN_SPACE, SIZE_INFINITY. simpl. lia. Qed.

Lemma text_new m config :
  config_ok config → text_inv ([], []) [] (new m config).
Proof.
  intros Hc. constructor; simpl; try done.
  - by exists [].
  - apply (proj1 (new_margin m config)).
Qed.

Lemma text_run_walk boxes l c0 boxes' :
  walk boxes l = Some boxes' → client_run (boxes, c0) l = Some (boxes', c0 ++ l).
Proof.
  revert boxes c0. induction l as [|t l IH]; intros boxes c0; unfold walk; simpl.
  { intros [= ->]. by rewrite app_nil_r. }
  intros (b & Hb & Hl)%bind_Some. unfold text_step. simpl. rewrite Hb. simpl.
  rewrite (IH b (c0 ++ [t]) Hl). by rewrite <-app_assoc.
Qed.

(** C30: printing a document with balanced boxes, whose breaks lead back by at
    most the offset of their box, never panics and never drops or reorders
    text: what [eof] returns shows every string, and of the breaks only what
    they print when they break. *)
Theorem print_shows m config rs :
  config_ok config → walk [] (request_token <$> rs) = Some [] →
  ∃ s, print m config rs = Some s ∧ shows (request_token <$> rs) (visible s).
Proof.
  intros Hc Hw.
  destruct (print_spec m config rs ([], []) ([], request_token <$> rs)) as (p & Hp & Htx).
  - by apply text_new.
  - exact (text_run_walk _ _ [] _ Hw).
  - done.
  - exists (out p). split; [done|]. rewrite <-(app_nil_r (visible (out p))).
    apply (tx_text _ _ _ Htx []). constructor.
Qed.

Definition ex_box (o : Z) (b : Breaks) : BeginToken := mkBeginToken (Block o) b.

(** A call that does not fit forty columns. *)
Definition ex_call : list request :=
  [Box (ex_box 4 Consistent); Word (lit "function transfer("); Break (plain_break 0 0);
   Word (lit "address recipient,"); Break (plain_break 1 0); Word (lit "uint256 amount");
   BreakOffset (plain_break 0 0) (-4); Word (lit ")"); Close].

Example ex_call_printed :
  print 40 None ex_call = Some (lit "function transfer(" ++ [newline] ++
    lit "    address recipient," ++ [newline] ++ lit "    uint256 amount" ++ [newline] ++ lit ")").
Proof. vm_compute. reflexivity. Qed.

Lemma print_shows_witness :
  ∃ s, print 40 None ex_call = Some s ∧ shows (request_token <$> ex_call) (visible s).
Proof. apply print_shows; [exact I|vm_compute; reflexivity]. Defined.
