(* ===== verification/PrinterFlat.v ===== *)
(** * Documents that fit the margin

    The second instance of [PrintInv]: when the widths of a document add up
    to no more than the margin, every box fits, no break breaks, and the
    output is the flat one.  And two runs of [hardbreak_if_not_bol], which
    replaces a break without correcting the running total. *)
From S2P Require Import Prelude Text Printer PrinterScan PrinterSpec.
Import Printer.
Local Open Scope Z_scope.

Fixpoint total_width (l : list Token) : Z :=
  match l with [] => 0 | t :: l => width t + total_width l end.

Lemma total_width_app l1 l2 : total_width (l1 ++ l2) = total_width l1 + total_width l2.
Proof. induction l1; simpl; lia. Qed.

Lemma total_width_toks l : total_width (toks l) = widths l.
Proof. induction l as [|e l IH]; [done|].
  change (toks (e :: l)) with (entry_token e :: toks l). simpl. by rewrite IH.
Qed.

(** No break directly before the end of its box. *)
Fixpoint no_break_end (l : list Token) : bool :=
  match l with
  | TBreak _ :: ((TEnd :: _) as l) => false
  | _ :: l => no_break_end l
  | [] => true
  end.

Section flat.
Context (config : option Z) (Hconfig : config_ok config).

(** Indentation waits until text follows it. *)
Definition flat_step (s : str * Z) (t : Token) : str * Z :=
  match t with
  | TString v => (s.1 ++ default [] (indentation config s.2) ++ v, 0)
  | TBreak b => (s.1, s.2 + blank_space b)
  | _ => s
  end.

(** The document on one line. *)
Definition flat (l : list Token) : str := (foldl flat_step ([], 0) l).1.

(** A size that is known fits into what follows. *)
Fixpoint sizes_fit (l : list BufEntry) : Prop :=
  match l with
  | [] => True
  | e :: l => (entry_token e = TEnd ∨ entry_size e ≤ widths (e :: l)) ∧ sizes_fit l
  end.

Variable m : Z.        (* the margin *)

Definition is_break (t : Token) : bool := match t with TBreak _ => true | _ => false end.

Record flat_inv (c : list Z * list Token) (l : list BufEntry) (p : Printer) : Prop := {
  fl_suffix : ∃ printed, c.2 = printed ++ toks l;
  fl_out : foldl flat_step (out p, pending_indentation p) (toks l) = foldl flat_step ([], 0) c.2;
  fl_width : total_width c.2 ≤ m;
  fl_space : space p = m - total_width c.2 + widths l;
  fl_sizes : sizes_fit l;
  fl_frames : Forall (λ f, match f with Fits _ => True | Broken _ _ => False end) (print_stack p);
  fl_boxes : ∃ boxes, length boxes = length (print_stack p) ∧ walk boxes (toks l) = Some c.1;
  fl_config : indent_config p = config;
}.

Definition flat_client_step (c : list Z * list Token) (t : Token) : option (list Z * list Token) :=
  boxes ← walk1 c.1 t;
  if (total_width (c.2 ++ [t]) <=? m) &&
     match t, last c.2 with TEnd, Some (TBreak _) => false | _, _ => true end
  then Some (boxes, c.2 ++ [t]) else None.

Lemma flat_client_step_inv c t c' :
  flat_client_step c t = Some c' →
  walk1 c.1 t = Some c'.1 ∧ c'.2 = c.2 ++ [t] ∧ total_width c'.2 ≤ m ∧
  (t = TEnd → ∀ b l, c.2 ≠ l ++ [TBreak b]).
Proof.
  unfold flat_client_step. intros (b & -> & Hc)%bind_Some.
  destruct (Z.leb_spec (total_width (c.2 ++ [t])) m); simpl in Hc; [|done].
  split; [|split; [|split]].
  1-3: by destruct t, (last c.2) as [[]|]; simplify_eq.
  intros -> b0 l Hl. rewrite Hl, last_snoc in Hc. done.
Qed.

Lemma sizes_fit_app l1 e l2 s :
  sizes_fit (l1 ++ e :: l2) → (entry_token e = TEnd ∨ s ≤ widths (e :: l2)) →
  sizes_fit (l1 ++ sized e s :: l2).
Proof.
  induction l1 as [|e1 l1 IH]; simpl; [tauto|]. intros [H1 H2] Hs. split; [|by apply IH].
  by rewrite widths_app in *.
Qed.

Lemma sizes_fit_snoc l t s :
  sizes_fit l → 0 ≤ width t → (t = TEnd ∨ s ≤ width t) → sizes_fit (l ++ [mkBufEntry t s]).
Proof.
  intros Hl Ht Hs. induction l as [|e l IH]; simpl in *.
  - rewrite Z.add_0_r. tauto.
  - destruct Hl as [[?|?] Hl]; (split; [|by apply IH]); [by left|right].
    rewrite widths_app. simpl. lia.
Qed.

Lemma flat_print c e l p :
  flat_inv c (e :: l) p → 0 ≤ entry_size e → ∃ p', print_left e p = Some p' ∧ flat_inv c l p'.
Proof.
  intros [(pr & Hpr) Ho Hw Hsp [Hsz Hszs] Hf (boxes & Hlen & Hb) Hcfg] Hs.
  assert (Hw0 : 0 ≤ widths l).
  { unfold walk in Hb. unfold toks in Hb. simpl in Hb. apply bind_Some in Hb as (b1 & _ & Hb).
    clear -Hb. revert b1 Hb. induction l as [|e l IH]; simpl; intros b1; [done|].
    intros (b2 & Hb2%walk1_width & Hb)%bind_Some. specialize (IH _ Hb). lia. }
  assert (Hpr' : ∃ printed, c.2 = printed ++ toks l).
  { exists (pr ++ [entry_token e]). by rewrite <-app_assoc. }
  unfold toks, walk in Hb, Ho. simpl in Hb, Ho. apply bind_Some in Hb as (b1 & Hb1 & Hb).
  pose proof (walk1_depth _ _ _ Hb1) as Hdep. unfold print_left. simpl in Hsp, Hsz.
  destruct (entry_token e) as [v|b|b|]; simpl in *.
  - unfold print_string, print_indent. simpl. rewrite Hcfg.
    destruct (indentation_ok config (pending_indentation p) Hconfig) as (ind & Hind & _).
    rewrite Hind. simpl. eexists. split; [done|]. constructor; simpl; try done.
    + rewrite Hind in Ho. simpl in Ho. by rewrite <-app_assoc.
    + lia.
    + exists b1. split; [congruence|done].
  - unfold print_break. set (q := with_left _ p).
    assert (never_break b || match get_top q with
        | Fits _ => true | Broken _ Consistent => false
        | Broken _ Inconsistent => entry_size e <=? space q end = true) as ->.
    { apply orb_true_iff. right. unfold get_top. simpl.
      destruct (print_stack p) as [|f fs]; [|apply Forall_cons in Hf as [? _]; by destruct f].
      destruct Hsz as [|]; [done|]. simpl. apply Z.leb_le. lia. }
    eexists. split; [done|]. constructor; simpl; try done; [lia|]. exists b1. split; [congruence|done].
  - unfold print_begin. rewrite (proj2 (Z.ltb_ge _ _)) by (destruct Hsz; [done|lia]).
    eexists. split; [done|]. constructor; simpl; try done; [by constructor|].
    exists b1. split; [lia|done].
  - unfold print_end. destruct (print_stack p) as [|f fs]; [by destruct boxes|].
    apply Forall_cons in Hf as [Hf Hfs]. destruct f; [|done].
    eexists. split; [done|]. constructor; simpl; try done.
    exists b1. simpl in Hlen. split; [lia|done].
Qed.

#[local] Instance flat_print_inv : PrintInv (list Z * list Token).
Proof.
  refine {| client_step := flat_client_step; client_depth c := length c.1; pinv := flat_inv |}.
  - intros c t c' (Hw & _)%flat_client_step_inv. by eapply walk1_width.
  - intros c t c' (Hw & _)%flat_client_step_inv. apply walk1_depth in Hw. by destruct t.
  - intros c l p q (Ho & Hs & Hf & Hi & Hp & Hm & Hc) [H1 H2 H3 H4 H5 H6 H7 H8].
    rewrite Ho, Hs, Hf, Hp, Hc in *. by constructor.
  - intros c t c' l s p (Hw & Ht & Hm & _)%flat_client_step_inv Hs
      [(pr & Hpr) H2 H3 H4 H5 H6 (boxes & Hlen & Hb) H8].
    pose proof (walk1_width _ _ _ Hw) as Hw0.
    assert (Htk : toks (l ++ [mkBufEntry t s]) = toks l ++ [t]) by (unfold toks; by rewrite fmap_app).
    constructor; try done; rewrite ?Htk, ?Ht.
    + exists pr. by rewrite Hpr, app_assoc.
    + by rewrite !foldl_app, H2.
    + rewrite total_width_app, widths_app. simpl. lia.
    + apply sizes_fit_snoc; [done..|]. destruct t; simpl in *; try lia; auto.
    + exists boxes. split; [done|]. by rewrite walk_snoc, Hb.
  - apply flat_print.
  - intros c l1 e l2 s p [H1 H2 H3 H4 H5 H6 H7 H8] Hu Hs. unfold toks in *.
    rewrite fmap_app in H1, H2, H7. rewrite widths_app in H4.
    constructor; try done; unfold toks; rewrite ?fmap_app, ?widths_app; try done.
    apply sizes_fit_app; [done|]. destruct (entry_token e) eqn:He; auto; right; lia.
  - intros c e l p [_ _ H3 H4 _ _ _ _] _ Hlt. lia.
  - intros c c' l e1 e2 b p (_ & _ & _ & Hno)%flat_client_step_inv He1 He2 [(pr & Hpr) _ _ _ _ _ _ _].
    exfalso. apply (Hno eq_refl b (pr ++ toks (l ++ [e1]))). unfold toks in *.
    rewrite Hpr, !fmap_app. simpl. rewrite He2, <-!app_assoc. done.
  - intros c c' l e b p (_ & _ & _ & Hno)%flat_client_step_inv He _ [(pr & Hpr) _ _ _ _ _ _ _].
    exfalso. apply (Hno eq_refl b (pr ++ toks l)). unfold toks in *.
    rewrite Hpr, fmap_app. simpl. by rewrite He, app_assoc.
Defined.
End flat.

Lemma no_break_end_app l1 b l2 : no_break_end (l1 ++ TBreak b :: TEnd :: l2) = false.
Proof.
  induction l1 as [|t l1 IH]; [done|]. simpl. destruct t; try done.
  destruct l1 as [|[] ?]; try done.
Qed.

Lemma walk_total_width boxes l boxes' : walk boxes l = Some boxes' → 0 ≤ total_width l.
Proof.
  revert boxes. induction l as [|t l IH]; intros boxes; unfold walk; simpl; [done|].
  intros (b & Hb%walk1_width & Hl%IH)%bind_Some. lia.
Qed.

Lemma flat_run config (Hc : config_ok config) m boxes l c0 boxes' :
  walk boxes l = Some boxes' → no_break_end (c0 ++ l) = true → total_width (c0 ++ l) ≤ m →
  @client_run _ (flat_print_inv config Hc m) (boxes, c0) l = Some (boxes', c0 ++ l).
Proof.
  revert boxes c0. induction l as [|t l IH]; intros boxes c0; unfold walk; simpl.
  { intros [= ->]. by rewrite app_nil_r. }
  intros (b & Hb & Hl)%bind_Some Hno Hw. unfold flat_client_step. simpl. rewrite Hb. simpl.
  pose proof (walk_total_width _ _ _ Hl) as Hl0.
  rewrite (proj2 (Z.leb_le _ _)); last first.
  { change (t :: l) with ([t] ++ l) in Hw. rewrite app_assoc, total_width_app in Hw. lia. }
  assert (match t, last c0 with TEnd, Some (TBreak _) => false | _, _ => true end = true) as ->.
  { destruct t; [done..|]. destruct c0 as [|t0 c0 _] using rev_ind; [done|].
    rewrite last_snoc. destruct t0; try done. rewrite <-app_assoc in Hno. simpl in Hno.
    by rewrite no_break_end_app in Hno. }
  simpl. rewrite (IH b (c0 ++ [t]) Hl); by rewrite <-app_assoc.
Qed.

(** A document that fits the margin is printed on one line, whatever its
    boxes and their breaking styles are: every break becomes its blanks, and
    blanks at the end are not printed. *)
Theorem print_flat m config rs :
  config_ok config → walk [] (request_token <$> rs) = Some [] →
  no_break_end (request_token <$> rs) = true →
  total_width (request_token <$> rs) ≤ margin (new m config) →
  print m config rs = Some (flat config (request_token <$> rs)).
Proof.
  intros Hc Hw Hno Hm.
  destruct (@print_spec _ (flat_print_inv config Hc (margin (new m config))) m config rs
    ([], []) ([], request_token <$> rs)) as (p & Hp & Hf).
  - constructor; simpl; try done.
    + by exists [].
    + pose proof (new_margin m config). unfold MIN_SPACE in *. simpl in *. lia.
    + lia.
    + by exists [].
  - exact (flat_run config Hc _ [] _ [] [] Hw Hno Hm).
  - done.
  - rewrite Hp. f_equal. pose proof (fl_out _ _ _ _ _ Hf) as Ho. simpl in Ho.
    unfold flat. by rewrite <-Ho.
Qed.

Lemma print_flat_witness :
  print 100 None ex_call = Some (flat None (request_token <$> ex_call)) ∧
  flat None (request_token <$> ex_call) =
    lit "function transfer(address recipient, uint256 amount)".
Proof.
  split; [|vm_compute; reflexivity].
  apply print_flat; [exact I|vm_compute; reflexivity|vm_compute; reflexivity|vm_compute; discriminate].
Defined.

(** ** [hardbreak_if_not_bol]

    It turns the break scanned last into a hard break, whose width is
    [SIZE_INFINITY], and leaves [right_total] at the width of the old one. *)

(** After [hardbreak_if_not_bol] on a break with an offset, closing the
    empty box takes 65535 off the total instead of the 1 that was added: the
    enclosing box gets a negative size, it never reaches the left of the
    buffer, and [eof] returns nothing of the document.  Without the call the
    document is printed. *)
Theorem hardbreak_if_not_bol_drops_text :
  let doc hard := [cbox 0; word (lit "a"); cbox 0; break_offset 1 4; hard; end_;
                   word (lit "b"); space_; word (lit "c"); end_] in
  let render ops := p ← fold_opt (λ p op, op p) (new 80 None) ops; eof p in
  render (doc hardbreak_if_not_bol) = Some [] ∧
  render (doc Some) = Some (lit "ab c").
Proof. vm_compute. split; reflexivity. Qed.

(** Nor does the break it asked for break: the box around it is measured
    with the width of the soft break, so it fits, and the hard break is
    printed as 65535 blanks. *)
Theorem hardbreak_if_not_bol_stays_flat :
  let ops := [cbox 0; word (lit "a"); break_offset 1 4; hardbreak_if_not_bol;
              word (lit "b"); end_] in
  match p ← fold_opt (λ p op, op p) (new 80 None) ops; eof p with
  | Some s => bool_decide (s = lit "a" ++ repeat_n blank SIZE_INFINITY ++ lit "b")
  | None => false
  end = true.
Proof. vm_compute. reflexivity. Qed.
