(* ===== verification/Shrink.v ===== *)
(** * Shrinking a failing call sequence

    Models [crates/evm/evm/src/executors/invariant/shrink.rs] with
    [execute_tx], [call_invariant_function] and [call_after_invariant_function]
    of [invariant/mod.rs].  The EVM behind the executor ([call_raw], [commit],
    [is_raw_call_mut_success]) and [I256::try_from_be_slice] are parameters;
    the executor is the block environment, the cheatcode inspector's block and
    a backend of any type.  The bit set of proptest is used through its
    interface (Class [BitSetLike]).  The progress bar is not modelled, and the
    early exit flag is what each turn reads of it. *)
From S2P Require Import Prelude.
Local Open Scope Z_scope.

(** ** Bit sets *)

Class BitSetLike (B : Type) := {
  saturated : nat → B;
  test : B → nat → bool;
  set : nat → B → B;
  clear : nat → B → B;
  count : B → nat;
  test_saturated n i : test (saturated n) i = bool_decide (i < n)%nat;
  test_set b i j : test (set i b) j = bool_decide (i = j) || test b j;
  test_clear b i j : test (clear i b) j = negb (bool_decide (i = j)) && test b j;
  count_test b n : (∀ i, test b i = true → (i < n)%nat) →
    count b = length (filter (λ i, test b i = true) (seq 0 n));
}.

#[export] Instance gset_bits : BitSetLike (gset nat).
Proof.
  refine {| saturated n := list_to_set (seq 0 n); test b i := bool_decide (i ∈ b);
            set i b := {[ i ]} ∪ b; clear i b := b ∖ {[ i ]}; count b := size b |}.
  - intros n i. apply bool_decide_ext. rewrite elem_of_list_to_set, elem_of_seq. lia.
  - intros b i j. rewrite <-bool_decide_or. apply bool_decide_ext. set_solver.
  - intros b i j. rewrite <-bool_decide_not, <-bool_decide_and. apply bool_decide_ext. set_solver.
  - intros b n Hb. unfold size, set_size. simpl. apply Permutation_length.
    apply NoDup_Permutation; [apply NoDup_elements|apply NoDup_filter, NoDup_seq|].
    intros i. rewrite elem_of_elements, list_elem_of_filter, elem_of_seq.
    specialize (Hb i). rewrite bool_decide_eq_true in *. naive_solver lia.
Defined.

(** ** Calls and executors *)

Abbreviation U256 := Z.
Abbreviation Address := Z.
Abbreviation Bytes := (list Z).

Record CallDetails := mkCallDetails { target : Address; calldata : Bytes }.

Record BasicTxDetails := mkBasicTxDetails {
  warp : option U256;
  roll : option U256;
  sender : Address;
  call_details : CallDetails;
}.

Record BlockEnv := mkBlockEnv { timestamp : U256; number : U256 }.

(** [cheatcodes] is the inspector's [cheatcodes.block], when it has
    cheatcodes at all. *)
Record Executor (Backend : Type) := mkExecutor {
  block_env : BlockEnv;
  cheatcodes : option (option BlockEnv);
  backend : Backend;
}.
Arguments mkExecutor {Backend} _ _ _.
Arguments block_env {Backend} _.
Arguments cheatcodes {Backend} _.
Arguments backend {Backend} _.

Record RawCallResult (Changes : Type) := mkRawCallResult {
  reverted : bool;
  output : Bytes;                      (* the field [result] *)
  changes : Changes;
}.
Arguments mkRawCallResult {Changes} _ _ _.
Arguments reverted {Changes} _.
Arguments output {Changes} _.

Record InvariantConfig := { shrink_run_limit : Z; fail_on_revert : bool }.

Record InvariantContract := {
  address : Address;
  selector : Bytes;                    (* of the invariant function *)
  call_after_invariant : bool;
}.

Definition CALLER : Address := 0x1804c8AB1F12E6bbf3894d4083f33e07309d1f38.

Fixpoint ascii_bytes (s : string) : Bytes :=
  match s with EmptyString => [] | String c s => Z.of_N (N_of_ascii c) :: ascii_bytes s end.
Definition MAGIC_ASSUME : Bytes := ascii_bytes "FOUNDRY::ASSUME".

(** [U256]'s [+=] wraps. *)
Definition u256_add (x y : U256) : U256 := wrap 256 (x + y).

Definition advance_block (w r : U256) (b : BlockEnv) : BlockEnv :=
  {| timestamp := u256_add (timestamp b) w; number := u256_add (number b) r |}.

(** Applies accumulated warp/roll to a call, returning a modified copy. *)
Definition apply_warp_roll (call : BasicTxDetails) (w r : U256) : BasicTxDetails :=
  {| warp := if 0 <? w then Some w else warp call;
     roll := if 0 <? r then Some r else roll call;
     sender := sender call; call_details := call_details call |}.

Section executor.
Context {Backend Changes EvmError : Type}.
Implicit Types (executor : Executor Backend) (calls kept : list BasicTxDetails).

Definition apply_warp_roll_to_env executor (w r : U256) : Executor Backend :=
  if (0 <? w) || (0 <? r) then
    let block := advance_block w r (block_env executor) in
    {| block_env := block;
       cheatcodes := match cheatcodes executor with
                     | Some (Some b) => Some (Some (advance_block w r b))
                     | Some None => Some (Some block)
                     | None => None
                     end;
       backend := backend executor |}
  else executor.

Variable call_raw : Executor Backend → Address → Address → Bytes → U256 →
  result EvmError (RawCallResult Changes).
Variable commit : Executor Backend → RawCallResult Changes → Executor Backend.
Variable is_raw_call_mut_success :
  Executor Backend → Address → RawCallResult Changes → bool → RawCallResult Changes * bool.
Variable after_invariant_selector : Bytes.
Variable i256_try_from_be_slice : Bytes → option Z.

Definition execute_tx executor (tx : BasicTxDetails)
    : result EvmError (RawCallResult Changes * Executor Backend) :=
  let executor :=
    apply_warp_roll_to_env executor (default 0 (warp tx)) (default 0 (roll tx)) in
  call_result ← call_raw executor (sender tx) (target (call_details tx))
                  (calldata (call_details tx)) 0;
  Ok (call_result, executor).

Definition call_invariant_function executor (addr : Address) (data : Bytes)
    : result EvmError (RawCallResult Changes * bool) :=
  call_result ← call_raw executor CALLER addr data 0;
  Ok (is_raw_call_mut_success executor addr call_result false).

Definition call_after_invariant_function executor (addr : Address)
    : result EvmError (RawCallResult Changes * bool) :=
  call_invariant_function executor addr after_invariant_selector.

(** ** Checking a candidate *)

(** An index out of range is a panic: the outer [option]. *)
Fixpoint check_calls executor (calls : list BasicTxDetails) (sequence : list nat)
    (fail_on_revert : bool) : option (result EvmError (option (Executor Backend))) :=
  match sequence with
  | [] => Some (Ok (Some executor))
  | call_index :: sequence =>
      tx ← calls !! call_index;
      match execute_tx executor tx with
      | Err e => Some (Err e)
      | Ok (call_result, executor) =>
          let executor := commit executor call_result in
          if reverted call_result && fail_on_revert &&
             negb (bool_decide (output call_result = MAGIC_ASSUME))
          then Some (Ok None)
          else check_calls executor calls sequence fail_on_revert
      end
  end.

Definition check_sequence executor (calls : list BasicTxDetails) (sequence : list nat)
    (test_address : Address) (data : Bytes) (fail_on_revert call_after_invariant : bool)
    : option (result EvmError (bool * bool)) :=
  applied ← check_calls executor calls sequence fail_on_revert;
  Some match applied with
       | Err e => Err e
       | Ok None => Ok (false, false)
       | Ok (Some executor) =>
           '(_, success) ← call_invariant_function executor test_address data;
           if success && call_after_invariant then
             '(_, success) ← call_after_invariant_function executor test_address;
             Ok (success, true)
           else Ok (success, true)
       end.

(** The loop of [check_sequence_value] from call [idx] on. *)
Fixpoint value_calls executor (idx : nat) (calls : list BasicTxDetails) (sequence : list nat)
    (w r : U256) : result EvmError (Executor Backend * U256 * U256) :=
  match calls with
  | [] => Ok (executor, w, r)
  | tx :: calls =>
      let w := u256_add w (default 0 (warp tx)) in
      let r := u256_add r (default 0 (roll tx)) in
      if bool_decide (head sequence = Some idx) then
        '(call_result, executor) ← execute_tx executor (apply_warp_roll tx w r);
        let executor := if reverted call_result then executor else commit executor call_result in
        value_calls executor (S idx) calls (tail sequence) 0 0
      else value_calls executor (S idx) calls sequence w r
  end.

Definition check_sequence_value executor (calls : list BasicTxDetails) (sequence : list nat)
    (test_address : Address) (data : Bytes) : result EvmError (option Z) :=
  '(executor, w, r) ← value_calls executor 0 calls sequence 0 0;
  let executor := apply_warp_roll_to_env executor w r in
  '(inv_result, success) ← call_invariant_function executor test_address data;
  if success && bool_decide (32 ≤ length (output inv_result))%nat then
    Ok (i256_try_from_be_slice (take 32 (output inv_result)))
  else Ok None.

(** ** The shrinker *)

Context {B : Type} `{!BitSetLike B}.

Record CallSequenceShrinker := mkShrinker {
  call_sequence_len : nat;
  included_calls : B;
}.

Definition CallSequenceShrinker_new (len : nat) : CallSequenceShrinker :=
  {| call_sequence_len := len; included_calls := saturated len |}.

Definition with_included (b : B) (s : CallSequenceShrinker) : CallSequenceShrinker :=
  {| call_sequence_len := call_sequence_len s; included_calls := b |}.

Definition current (s : CallSequenceShrinker) : list nat :=
  filter (λ i, test (included_calls s) i = true) (seq 0 (call_sequence_len s)).

Definition next_index (s : CallSequenceShrinker) (call_idx : nat) : nat :=
  if bool_decide (call_idx + 1 = call_sequence_len s)%nat then 0%nat else (call_idx + 1)%nat.

Variable should_stop : nat → bool.        (* what the turn with so many left reads *)

(** [fuel] turns are left. *)
Fixpoint shrink_loop (check : list nat → option (result EvmError (bool * bool))) (fuel : nat)
    (call_idx : nat) (shrinker : CallSequenceShrinker) : option CallSequenceShrinker :=
  match fuel with
  | O => Some shrinker
  | S fuel =>
      if should_stop fuel then Some shrinker
      else
        let shrinker := with_included (clear call_idx (included_calls shrinker)) shrinker in
        checked ← check (current shrinker);
        let continue shrinker :=
          shrink_loop check fuel (next_index shrinker call_idx) shrinker in
        match checked with
        | Ok (false, _) =>
            if bool_decide (count (included_calls shrinker) = 1%nat) then Some shrinker
            else continue shrinker
        | Ok (true, _) =>
            continue (with_included (set call_idx (included_calls shrinker)) shrinker)
        | Err _ => continue shrinker
        end
  end.

Definition shrink_sequence (config : InvariantConfig) (contract : InvariantContract)
    (calls : list BasicTxDetails) executor : option (result EvmError (list BasicTxDetails)) :=
  match call_invariant_function executor (address contract) (selector contract) with
  | Err e => Some (Err e)
  | Ok (_, false) => Some (Ok [])
  | Ok (_, true) =>
      let check sequence := check_sequence executor calls sequence (address contract)
        (selector contract) (fail_on_revert config) (call_after_invariant contract) in
      shrinker ← shrink_loop check (Z.to_nat (shrink_run_limit config)) 0
                   (CallSequenceShrinker_new (length calls));
      kept ← mapM (λ idx, calls !! idx) (current shrinker);
      Some (Ok kept)
  end.

Fixpoint shrink_value_loop (check : list nat → result EvmError (option Z)) (target_value : Z)
    (fuel : nat) (call_idx : nat) (shrinker : CallSequenceShrinker)
    : result EvmError CallSequenceShrinker :=
  match fuel with
  | O => Ok shrinker
  | S fuel =>
      if should_stop fuel then Ok shrinker
      else
        let shrinker := with_included (clear call_idx (included_calls shrinker)) shrinker in
        value ← check (current shrinker);
        let continue shrinker :=
          shrink_value_loop check target_value fuel (next_index shrinker call_idx) shrinker in
        if bool_decide (value = Some target_value) then
          if bool_decide (count (included_calls shrinker) = 1%nat) then Ok shrinker
          else continue shrinker
        else continue (with_included (set call_idx (included_calls shrinker)) shrinker)
  end.

(** The final sequence: removed calls leave their warp and roll to the next
    kept one. *)
Fixpoint accumulate (included : B) (idx : nat) (calls : list BasicTxDetails) (w r : U256)
    : list BasicTxDetails :=
  match calls with
  | [] => []
  | call :: calls =>
      let w := u256_add w (default 0 (warp call)) in
      let r := u256_add r (default 0 (roll call)) in
      if test included idx then apply_warp_roll call w r :: accumulate included (S idx) calls 0 0
      else accumulate included (S idx) calls w r
  end.

Definition shrink_sequence_value (config : InvariantConfig) (contract : InvariantContract)
    (calls : list BasicTxDetails) executor (target_value : Z)
    : result EvmError (list BasicTxDetails) :=
  let check sequence :=
    check_sequence_value executor calls sequence (address contract) (selector contract) in
  value ← check [];
  if bool_decide (value = Some target_value) then Ok []
  else
    shrinker ← shrink_value_loop check target_value (Z.to_nat (shrink_run_limit config)) 0
                 (CallSequenceShrinker_new (length calls));
    Ok (accumulate (included_calls shrinker) 0 calls 0 0).

(** ** What shrinking keeps *)

(** The kept calls, in order. *)
Fixpoint keep (included : nat → bool) (idx : nat) (calls : list BasicTxDetails)
    : list BasicTxDetails :=
  match calls with
  | [] => []
  | call :: calls =>
      if included idx then call :: keep included (S idx) calls else keep included (S idx) calls
  end.

Lemma keep_sublist included idx calls : keep included idx calls `sublist_of` calls.
Proof.
  revert idx. induction calls as [|c calls IH]; intros idx; simpl; [done|].
  destruct (included idx); by constructor.
Qed.

Lemma keep_pick included calls :
  mapM (λ idx, calls !! idx) (filter (λ i, included i = true) (seq 0 (length calls))) =
    Some (keep included 0 calls).
Proof.
  assert (Hgen : ∀ pre rest, pre ++ rest = calls →
    mapM (λ idx, calls !! idx) (filter (λ i, included i = true) (seq (length pre) (length rest))) =
      Some (keep included (length pre) rest)).
  { intros pre rest. revert pre. induction rest as [|c rest IH]; intros pre Hc; [done|].
    specialize (IH (pre ++ [c])). rewrite length_app, Nat.add_1_r in IH.
    rewrite <-app_assoc in IH. specialize (IH Hc). cbn [seq length keep].
    rewrite filter_cons. destruct (included (length pre)) eqn:Hi; simpl; [|done].
    rewrite IH. rewrite <-Hc, list_lookup_middle by done. done. }
  by apply (Hgen []).
Qed.

(** Checking a sequence only looks at the calls it picks. *)
Fixpoint check_txs executor (txs : list BasicTxDetails) (fail_on_revert : bool)
    : result EvmError (option (Executor Backend)) :=
  match txs with
  | [] => Ok (Some executor)
  | tx :: txs =>
      '(call_result, executor) ← execute_tx executor tx;
      let executor := commit executor call_result in
      if reverted call_result && fail_on_revert &&
         negb (bool_decide (output call_result = MAGIC_ASSUME))
      then Ok None
      else check_txs executor txs fail_on_revert
  end.

Lemma check_calls_txs executor calls sequence kept f :
  mapM (λ idx, calls !! idx) sequence = Some kept →
  check_calls executor calls sequence f = Some (check_txs executor kept f).
Proof.
  revert executor kept. induction sequence as [|i l IH]; intros executor kept; simpl.
  { by intros [= <-]. }
  intros (tx & Hi & (kept' & Hk & [= <-])%bind_Some)%bind_Some. rewrite Hi. simpl.
  destruct (execute_tx executor tx) as [[res ex]|e]; simpl; [|done].
  destruct (_ && _ && _); [done|]. by apply IH.
Qed.

Lemma all_indices calls : mapM (λ idx, calls !! idx) (seq 0 (length calls)) = Some calls.
Proof.
  pose proof (keep_pick (λ _, true) calls) as Hk.
  rewrite filter_all in Hk by done.
  rewrite Hk. f_equal. clear Hk. generalize 0%nat.
  induction calls as [|c calls IH]; intros n; simpl; [done|]. by rewrite IH.
Qed.

(** Replaying the picked calls as a sequence of their own. *)
Lemma check_sequence_pick executor calls sequence kept a d f c :
  mapM (λ idx, calls !! idx) sequence = Some kept →
  check_sequence executor calls sequence a d f c =
    check_sequence executor kept (seq 0 (length kept)) a d f c.
Proof.
  intros Hk. unfold check_sequence.
  by rewrite (check_calls_txs _ _ _ _ _ Hk), (check_calls_txs _ _ _ _ _ (all_indices kept)).
Qed.

Lemma current_filter s :
  current s = filter (λ i, test (included_calls s) i = true) (seq 0 (call_sequence_len s)).
Proof. done. Qed.

(** The loop only depends on what the checks of its candidates return; an
    invariant of one turn is an invariant of the loop. *)
Lemma shrink_loop_inv (I : nat → nat → CallSequenceShrinker → Prop)
    (E : CallSequenceShrinker → Prop) check fuel idx s :
  (∀ fuel idx s, I (S fuel) idx s → should_stop fuel = true → E s) →
  (∀ idx s, I 0%nat idx s → E s) →
  (∀ fuel idx s, I (S fuel) idx s → should_stop fuel = false →
     let s1 := with_included (clear idx (included_calls s)) s in
     ∃ r, check (current s1) = Some r ∧
     match r with
     | Ok (false, _) => if bool_decide (count (included_calls s1) = 1%nat) then E s1
                        else I fuel (next_index s1 idx) s1
     | Ok (true, _) =>
         let s2 := with_included (set idx (included_calls s1)) s1 in I fuel (next_index s2 idx) s2
     | Err _ => I fuel (next_index s1 idx) s1
     end) →
  I fuel idx s → ∃ s', shrink_loop check fuel idx s = Some s' ∧ E s'.
Proof.
  intros Hstop Hend Hstep. revert idx s. induction fuel as [|fuel IH]; intros idx s Hi.
  { exists s. split; [done|]. by eapply Hend. }
  cbn [shrink_loop]. destruct (should_stop fuel) eqn:Hs.
  { exists s. split; [done|]. by eapply Hstop. }
  destruct (Hstep fuel idx s Hi Hs) as (r & -> & Hr). cbn [mbind option_bind].
  destruct r as [[[] b]|e]; [by apply IH| |by apply IH].
  destruct (bool_decide _); [eauto|by apply IH].
Qed.

Section candidates.
Variable executor : Executor Backend.
Variable calls : list BasicTxDetails.
Variable config : InvariantConfig.
Variable contract : InvariantContract.

Definition candidate (sequence : list nat) : option (result EvmError (bool * bool)) :=
  check_sequence executor calls sequence (address contract) (selector contract)
    (fail_on_revert config) (call_after_invariant contract).

(** The calls [included] alone break the invariant. *)
Definition breaks (included : B) : Prop :=
  ∃ b, candidate (filter (λ i, test included i = true) (seq 0 (length calls))) = Some (Ok (false, b)).

(** Executing a candidate does not fail. *)
Definition no_errors : Prop := ∀ included e,
  candidate (filter (λ i, test included i = true) (seq 0 (length calls))) ≠ Some (Err e).

Lemma candidate_some included :
  ∃ r, candidate (filter (λ i, test included i = true) (seq 0 (length calls))) = Some r.
Proof.
  unfold candidate, check_sequence.
  rewrite (check_calls_txs _ _ _ _ _ (keep_pick (test included) calls)). by eexists.
Qed.

Lemma filter_saturated (n : nat) :
  filter (λ i, test (saturated n) i = true) (seq 0 n) = seq 0 n.
Proof.
  apply filter_all. intros i Hi%elem_of_seq. rewrite test_saturated.
  apply bool_decide_eq_true. lia.
Qed.

Lemma breaks_ext b1 b2 : (∀ i, test b1 i = test b2 i) → breaks b1 → breaks b2.
Proof.
  intros He [b Hb]. exists b. rewrite <-Hb. f_equal. apply filter_ext. intros i. by rewrite He.
Qed.

Lemma test_restore b idx i :
  test b idx = true → test (set idx (clear idx b)) i = test b i.
Proof.
  intros Hb. rewrite test_set, test_clear. case_bool_decide; simpl; [congruence|done].
Qed.

Lemma test_clear_absent b idx i : test b idx = false → test (clear idx b) i = test b i.
Proof. intros Hb. rewrite test_clear. case_bool_decide; simpl; [congruence|done]. Qed.

(** One turn, when the calls kept so far break the invariant. *)
Lemma turn_breaks included idx :
  no_errors → breaks included →
  let b1 := clear idx included in
  breaks b1 ∧ (∃ b, candidate (filter (λ i, test b1 i = true) (seq 0 (length calls))) =
      Some (Ok (false, b))) ∨
  ¬ breaks b1 ∧ test included idx = true ∧
    (∃ b, candidate (filter (λ i, test b1 i = true) (seq 0 (length calls))) = Some (Ok (true, b))).
Proof.
  intros Hno Hbr b1. destruct (candidate_some b1) as [[[[] b]|e] Hc].
  - right. assert (Hnb : ¬ breaks b1) by (intros [b' Hb']; congruence).
    split_and!; [done| |by exists b].
    destruct (test included idx) eqn:Ht; [done|]. destruct Hnb.
    eapply breaks_ext, Hbr. intros i. symmetry. by apply test_clear_absent.
  - left. split; by exists b.
  - by destruct (Hno b1 e).
Qed.

Lemma shrunk_breaks fuel :
  no_errors → breaks (saturated (length calls)) →
  ∃ s, shrink_loop candidate fuel 0 (CallSequenceShrinker_new (length calls)) = Some s ∧
    call_sequence_len s = length calls ∧ breaks (included_calls s).
Proof.
  intros Hno Hall.
  apply (shrink_loop_inv
    (λ _ _ s, call_sequence_len s = length calls ∧ breaks (included_calls s))); [tauto|tauto| |].
  - intros k idx s [Hlen Hbr] _. simpl. rewrite current_filter. simpl. rewrite Hlen.
    destruct (turn_breaks _ idx Hno Hbr) as [[Hb1 (b & ->)]|(Hnb & Ht & (b & ->))];
      (eexists; split; [done|]).
    + by destruct (bool_decide _).
    + simpl. split; [done|]. eapply breaks_ext, Hbr. intros i. by rewrite test_restore.
  - done.
Qed.

(** C31: shrinking returns, in order, some of the calls it was given, and
    replayed as a sequence of their own they still break the invariant. *)
Theorem shrunk_sequence_breaks b :
  no_errors →
  candidate (seq 0 (length calls)) = Some (Ok (false, b)) →
  ∃ kept b', shrink_sequence config contract calls executor = Some (Ok kept) ∧
    kept `sublist_of` calls ∧
    check_sequence executor kept (seq 0 (length kept)) (address contract) (selector contract)
      (fail_on_revert config) (call_after_invariant contract) = Some (Ok (false, b')).
Proof.
  intros Hno Hb. unfold shrink_sequence.
  pose proof (Hno (saturated 0)) as H0.
  rewrite filter_none in H0; last first.
  { intros i _. rewrite test_saturated, bool_decide_eq_true. lia. }
  unfold candidate, check_sequence in H0. simpl in H0.
  destruct (call_invariant_function executor (address contract) (selector contract))
    as [[res [|]]|e] eqn:Hinv; simpl in H0.
  - destruct (shrunk_breaks (Z.to_nat (shrink_run_limit config)) Hno) as (s & Hs & Hlen & b' & Hbr).
    { exists b. by rewrite filter_saturated. }
    unfold candidate in Hs. rewrite Hs. cbn [mbind option_bind].
    unfold current. rewrite Hlen, keep_pick. simpl.
    eexists _, b'. split; [done|]. split; [apply keep_sublist|].
    rewrite <-Hbr. unfold candidate. symmetry. apply check_sequence_pick, keep_pick.
  - exists [], true. split_and!; [done|apply sublist_nil_l|].
    unfold check_sequence. simpl. by rewrite Hinv.
  - by destruct (H0 e).
Qed.

(** *** One-minimality

    [since idx p]: how many turns ago the loop tried call [p], when it is
    about to try [idx]. *)
Definition since (idx p : nat) : nat :=
  if decide (p < idx)%nat then (idx - 1 - p)%nat else (idx + length calls - 1 - p)%nat.

Definition bounded (included : B) : Prop :=
  ∀ i, test included i = true → (i < length calls)%nat.

Definition needed (included : B) (i : nat) : Prop :=
  test included i = true → ¬ breaks (clear i included).

Lemma count_ext b1 b2 : (∀ i, test b1 i = test b2 i) → bounded b1 → count b1 = count b2.
Proof.
  intros He Hb. rewrite (count_test b1 (length calls)), (count_test b2 (length calls)); [|..|done].
  - f_equal. apply filter_ext. intros i. by rewrite He.
  - intros i. rewrite <-He. apply Hb.
Qed.

Lemma count_clear b i :
  bounded b → test b i = true → count b = S (count (clear i b)).
Proof.
  intros Hb Hi.
  assert (Hc : bounded (clear i b)).
  { intros j. rewrite test_clear. intros [_ ?]%andb_true_iff. auto. }
  rewrite (count_test b _ Hb), (count_test _ _ Hc).
  change (S (length ?l)) with (length (i :: l)). apply Permutation_length, NoDup_Permutation.
  - apply NoDup_filter, NoDup_seq.
  - apply NoDup_cons. split; [|apply NoDup_filter, NoDup_seq].
    rewrite list_elem_of_filter, test_clear, bool_decide_eq_true_2 by done. simpl. naive_solver.
  - intros j. rewrite elem_of_cons, !list_elem_of_filter, !elem_of_seq, test_clear.
    specialize (Hb i Hi). destruct (decide (i = j)) as [->|Hne].
    + rewrite bool_decide_eq_true_2 by done. simpl. naive_solver lia.
    + rewrite bool_decide_eq_false_2 by done. simpl. naive_solver.
Qed.

Lemma count_le b : bounded b → (count b ≤ length calls)%nat.
Proof.
  intros Hb. rewrite (count_test b _ Hb). etrans; [apply length_filter|].
  by rewrite length_seq.
Qed.

Lemma needed_ext b1 b2 i : (∀ j, test b1 j = test b2 j) → needed b1 i → needed b2 i.
Proof.
  intros He Hn Hi Hb. rewrite <-He in Hi. apply (Hn Hi).
  eapply breaks_ext, Hb. intros j. by rewrite !test_clear, He.
Qed.

(** What the turns so far say of the calls tried since the last removal. *)
Record minimizing (limit fuel idx : nat) (s : CallSequenceShrinker) : Prop := {
  mi_len : call_sequence_len s = length calls;
  mi_breaks : breaks (included_calls s);
  mi_bounded : bounded (included_calls s);
  mi_idx : (idx < length calls)%nat;
  mi_tried : ∃ tried,
    (limit - fuel ≤ (length calls - count (included_calls s)) * length calls + tried)%nat ∧
    ∀ p, (p < length calls)%nat → (since idx p < tried)%nat → needed (included_calls s) p;
}.

Definition minimal (included : B) : Prop :=
  bounded included ∧ (count included = 1%nat ∨ ∀ i, needed included i).

(** A turn that leaves the kept calls as they were. *)
Lemma minimizing_keep limit fuel idx s included :
  minimizing limit (S fuel) idx s →
  (∀ i, test (included_calls s) i = test included i) → needed included idx →
  minimizing limit fuel (next_index s idx) (with_included included s).
Proof.
  intros [Hlen Hbr Hbd Hidx (tried & Hk & Ht)] He Hn. constructor; simpl.
  - done.
  - by eapply breaks_ext.
  - intros i. rewrite <-He. apply Hbd.
  - unfold next_index. rewrite Hlen. case_bool_decide; lia.
  - exists (S tried). rewrite <-(count_ext _ _ He Hbd). split; [lia|].
    intros p Hp Hs. destruct (decide (p = idx)) as [->|Hne]; [done|].
    apply (needed_ext _ _ p He), Ht; [done|]. unfold next_index, since in *.
    rewrite Hlen in Hs. case_bool_decide; repeat case_decide; lia.
Qed.

Lemma shrunk_minimal limit :
  no_errors → breaks (saturated (length calls)) → (∀ k, should_stop k = false) →
  (0 < length calls)%nat → (length calls * length calls ≤ limit)%nat →
  ∃ s, shrink_loop candidate limit 0 (CallSequenceShrinker_new (length calls)) = Some s ∧
    call_sequence_len s = length calls ∧ minimal (included_calls s).
Proof.
  intros Hno Hall Hstop Hpos Hlim.
  apply (shrink_loop_inv (minimizing limit)).
  - intros k idx s _ Hs. by rewrite Hstop in Hs.
  - intros idx s [Hlen Hbr Hbd Hidx (tried & Hk & Ht)]. split; [done|]. split; [done|].
    destruct (decide (count (included_calls s) = 0%nat)) as [Hz|Hnz]; right; intros p Hp.
    { apply count_clear in Hp; [lia|done]. }
    pose proof (Hbd p Hp) as Hpl. apply Ht; [done| |done].
    pose proof (count_le _ Hbd). unfold since. case_decide; nia.
  - intros fuel idx s Hm _. pose proof Hm as [Hlen Hbr Hbd Hidx (tried & Hk & Ht)].
    simpl. rewrite current_filter. simpl. rewrite Hlen.
    destruct (turn_breaks _ idx Hno Hbr) as [[Hb1 (b & ->)]|(Hnb & Htest & (b & ->))];
      (eexists; split; [done|]).
    + assert (Hbd1 : bounded (clear idx (included_calls s))).
      { intros i. rewrite test_clear. intros [_ ?]%andb_true_iff. auto. }
      case_bool_decide as Hone; [split; [done|]; split; [done|by left]|].
      destruct (test (included_calls s) idx) eqn:Htest.
      * pose proof (count_clear _ _ Hbd Htest) as Hcnt. pose proof (count_le _ Hbd).
        assert (tried < length calls)%nat.
        { destruct (decide (tried < length calls)%nat) as [|Hge]; [done|]. exfalso.
          apply (Ht idx Hidx); [|done|done]. unfold since. case_decide; lia. }
        constructor; simpl; [done..| |].
        -- unfold next_index. simpl. rewrite Hlen. case_bool_decide; lia.
        -- exists 0%nat. split; [nia|]. intros p _ Hp. lia.
      * apply (minimizing_keep _ _ _ s); [done|..].
        -- intros i. symmetry. by apply test_clear_absent.
        -- intros Hi. rewrite test_clear in Hi. by rewrite bool_decide_eq_true_2 in Hi.
    + apply (minimizing_keep _ _ _ s); [done|..].
      * intros i. by rewrite test_restore.
      * intros _ Hb. apply Hnb. eapply breaks_ext, Hb. intros i.
        rewrite test_clear, test_restore, test_clear by done. done.
  - constructor; simpl; [done|done| |done|].
    + intros i. rewrite test_saturated, bool_decide_eq_true. done.
    + exists 0%nat. split; [rewrite Nat.sub_diag; apply Nat.le_0_l|]. intros p _ Hp. lia.
Qed.

(** C32: with a run limit of at least the square of the number of calls, and
    no early exit, the shrunk sequence is minimal: it is a single call, or no
    call can be left out of it. *)
Theorem shrunk_sequence_minimal b res :
  no_errors → candidate (seq 0 (length calls)) = Some (Ok (false, b)) →
  call_invariant_function executor (address contract) (selector contract) = Ok (res, true) →
  (∀ k, should_stop k = false) → calls ≠ [] →
  Z.of_nat (length calls * length calls) ≤ shrink_run_limit config →
  ∃ included, shrink_sequence config contract calls executor =
      Some (Ok (keep (test included) 0 calls)) ∧ minimal included.
Proof.
  intros Hno Hb Hinv Hstop Hne Hlim. unfold shrink_sequence. rewrite Hinv.
  destruct (shrunk_minimal (Z.to_nat (shrink_run_limit config)) Hno) as (s & Hs & Hlen & Hmin).
  - exists b. by rewrite filter_saturated.
  - done.
  - destruct calls; [done|simpl; lia].
  - lia.
  - unfold candidate in Hs. rewrite Hs. cbn [mbind option_bind].
    unfold current. rewrite Hlen, keep_pick. simpl. by exists (included_calls s).
Qed.

(** *** Optimization mode *)

(** The warp and roll that no kept call takes over. *)
Fixpoint trailing (included : B) (idx : nat) calls (w r : U256) : U256 * U256 :=
  match calls with
  | [] => (w, r)
  | call :: calls =>
      let w := u256_add w (default 0 (warp call)) in
      let r := u256_add r (default 0 (roll call)) in
      if test included idx then trailing included (S idx) calls 0 0
      else trailing included (S idx) calls w r
  end.

(** The warps and rolls are [U256] values that do not overflow in sum. *)
Fixpoint no_overflow (w r : U256) calls : Prop :=
  0 ≤ w ∧ 0 ≤ r ∧ w ≤ umax 256 ∧ r ≤ umax 256 ∧
  match calls with
  | [] => True
  | call :: calls =>
      0 ≤ default 0 (warp call) ∧ 0 ≤ default 0 (roll call) ∧
      no_overflow (w + default 0 (warp call)) (r + default 0 (roll call)) calls
  end.

Lemma no_overflow_le w r w' r' calls' :
  no_overflow w r calls' → 0 ≤ w' ≤ w → 0 ≤ r' ≤ r → no_overflow w' r' calls'.
Proof.
  revert w r w' r'. induction calls' as [|c calls' IH]; intros w r w' r'; simpl;
    intros (?&?&?&?&H) ??; [lia|]. destruct H as (?&?&?). split_and!; try lia.
  eapply IH; [done|lia|lia].
Qed.

Lemma u256_add_small x y : 0 ≤ x + y ≤ umax 256 → u256_add x y = x + y.
Proof. intros. unfold u256_add. apply wrap_id; [lia|]. unfold in_u. lia. Qed.

Lemma apply_twice call w r : apply_warp_roll (apply_warp_roll call w r) w r = apply_warp_roll call w r.
Proof. unfold apply_warp_roll. simpl. by destruct (0 <? w), (0 <? r). Qed.

(** A kept call carries what it accumulated. *)
Lemma applied_warp call w r :
  0 ≤ w → 0 ≤ r → 0 ≤ default 0 (warp call) ≤ w → 0 ≤ default 0 (roll call) ≤ r →
  default 0 (warp (apply_warp_roll call w r)) = w ∧
  default 0 (roll (apply_warp_roll call w r)) = r.
Proof.
  intros. simpl. destruct (Z.ltb_spec 0 w), (Z.ltb_spec 0 r); simpl; lia.
Qed.

Lemma value_accumulate included idx j calls' w r ex :
  no_overflow w r calls' →
  value_calls ex idx calls'
      (filter (λ i, test included i = true) (seq idx (length calls'))) w r =
    match value_calls ex j (accumulate included idx calls' w r)
            (seq j (length (accumulate included idx calls' w r))) 0 0 with
    | Ok (ex', _, _) => Ok (ex', (trailing included idx calls' w r).1,
                             (trailing included idx calls' w r).2)
    | Err e => Err e
    end.
Proof.
  revert idx j w r ex. induction calls' as [|call calls' IH]; intros idx j w r ex; [done|].
  intros (?&?&?&?&?&?&Hno). cbn [length seq accumulate trailing value_calls].
  assert (Hr : 0 ≤ w + default 0 (warp call) ≤ umax 256 ∧ 0 ≤ r + default 0 (roll call) ≤ umax 256)
    by (destruct calls'; simpl in Hno; lia).
  rewrite !u256_add_small by lia. rewrite filter_cons.
  destruct (test included idx) eqn:Ht.
  - rewrite decide_True by done. cbn [head tail length seq value_calls].
    rewrite !bool_decide_eq_true_2 by done.
    destruct (applied_warp call (w + default 0 (warp call)) (r + default 0 (roll call)))
      as [Hw' Hr']; [lia..|].
    rewrite Hw', Hr', !Z.add_0_l || (rewrite Hw', Hr').
    rewrite !u256_add_small by lia. rewrite !Z.add_0_l, apply_twice.
    destruct (execute_tx ex _) as [[res ex']|e]; simpl; [|done].
    apply IH. eapply no_overflow_le; [done|lia..].
  - rewrite decide_False by congruence. rewrite bool_decide_eq_false_2.
    + by apply IH.
    + intros Hh. apply head_Some_elem_of in Hh. apply list_elem_of_filter in Hh as [_ Hh].
      apply elem_of_seq in Hh. lia.
Qed.

Definition value_candidate (sequence : list nat) : result EvmError (option Z) :=
  check_sequence_value executor calls sequence (address contract) (selector contract).

Definition included_ids (included : B) : list nat :=
  filter (λ i, test included i = true) (seq 0 (length calls)).

Lemma accumulate_none included idx calls' w r :
  (∀ i, test included i = false) → accumulate included idx calls' w r = [].
Proof.
  intros Hi. revert idx w r. induction calls' as [|c calls' IH]; intros idx w r; [done|].
  simpl. by rewrite Hi.
Qed.

Lemma value_calls_all ex j txs ex' w r :
  value_calls ex j txs (seq j (length txs)) 0 0 = Ok (ex', w, r) → w = 0 ∧ r = 0.
Proof.
  revert ex j. induction txs as [|tx txs IH]; intros ex j; simpl; [by intros [= _ <- <-]|].
  rewrite bool_decide_eq_true_2 by done.
  destruct (execute_tx ex _) as [[res ex1]|e]; simpl; [|done]. apply IH.
Qed.

(** The loop keeps the target value. *)
Lemma shrunk_value_loop target fuel idx s s' :
  call_sequence_len s = length calls →
  value_candidate (included_ids (included_calls s)) = Ok (Some target) →
  shrink_value_loop value_candidate target fuel idx s = Ok s' →
  value_candidate (included_ids (included_calls s')) = Ok (Some target).
Proof.
  revert idx s. induction fuel as [|fuel IH]; intros idx s Hlen Hv; simpl; [by intros [= <-]|].
  destruct (should_stop fuel); [by intros [= <-]|].
  rewrite current_filter. simpl. rewrite Hlen. fold (included_ids (clear idx (included_calls s))).
  destruct (value_candidate (included_ids (clear idx (included_calls s)))) as [v|e] eqn:Hc;
    simpl; [|done].
  case_bool_decide as Ht.
  - subst v. case_bool_decide; [by intros [= <-]|]. by apply IH.
  - apply IH; [done|]. simpl. rewrite <-Hv. f_equal. unfold included_ids.
    apply filter_ext. intros i. destruct (test (included_calls s) idx) eqn:Hi.
    + by rewrite test_restore.
    + destruct Ht. assert (Hsame : included_ids (clear idx (included_calls s)) =
        included_ids (included_calls s)).
      { apply filter_ext. intros k. by rewrite test_clear_absent. }
      rewrite Hsame, Hv in Hc. by injection Hc as <-.
Qed.

Lemma shrink_value_unfold target :
  shrink_sequence_value config contract calls executor target =
    (value ← value_candidate [];
     if bool_decide (value = Some target) then Ok []
     else
       s ← shrink_value_loop value_candidate target (Z.to_nat (shrink_run_limit config)) 0
             (CallSequenceShrinker_new (length calls));
       Ok (accumulate (included_calls s) 0 calls 0 0)).
Proof. done. Qed.

(** In optimization mode, when the original sequence has the target
    value, the returned calls are the kept ones with the warps and rolls of
    the removed calls before them, and replaying them has the target value
    again, provided that no warp or roll is left behind the last kept call. *)
Theorem shrunk_value_replays target kept :
  no_overflow 0 0 calls →
  value_candidate (seq 0 (length calls)) = Ok (Some target) →
  shrink_sequence_value config contract calls executor target = Ok kept →
  ∃ included, kept = accumulate included 0 calls 0 0 ∧
    (trailing included 0 calls 0 0 = (0, 0) →
     check_sequence_value executor kept (seq 0 (length kept))
       (address contract) (selector contract) = Ok (Some target)).
Proof.
  intros Hno Hall Hshrink.
  assert (Hkept : ∃ included, kept = accumulate included 0 calls 0 0 ∧
    value_candidate (included_ids included) = Ok (Some target)).
  { rewrite shrink_value_unfold in Hshrink.
    destruct (value_candidate []) as [v|e] eqn:H0; simpl in Hshrink; [|done].
    case_bool_decide as Hv.
    - injection Hshrink as <-. exists (saturated 0). split.
      + symmetry. apply accumulate_none. intros k. by rewrite test_saturated.
      + unfold included_ids. rewrite filter_none; [by subst v|].
        intros i _. rewrite test_saturated, bool_decide_eq_true. lia.
    - destruct (shrink_value_loop value_candidate target _ 0 _) as [s|e] eqn:Hs;
        simpl in Hshrink; [|done].
      injection Hshrink as <-. exists (included_calls s). split; [done|].
      eapply shrunk_value_loop; [| |exact Hs]; [done|]. simpl. unfold included_ids.
      by rewrite filter_saturated. }
  destruct Hkept as (included & -> & Hv). exists included. split; [done|]. intros Htr.
  rewrite <-Hv. unfold value_candidate, check_sequence_value, included_ids.
  rewrite (value_accumulate included 0 0 calls 0 0 executor Hno), Htr.
  destruct (value_calls _ _ (accumulate _ _ _ _ _) _ _ _) as [[[ex w] r]|e] eqn:Hvc; simpl; [|done].
  by apply value_calls_all in Hvc as [-> ->].
Qed.
End candidates.
End executor.

(** ** A concrete executor

    Its calls always succeed and return the block timestamp as a word; the
    invariant is that the timestamp is below five. *)
Module Clock.

Definition call_raw (ex : Executor unit) (_ _ : Address) (_ : Bytes) (_ : U256)
    : result unit (RawCallResult unit) :=
  Ok (mkRawCallResult false (rev (le_bytes 32 (timestamp (block_env ex)))) tt).
Definition commit (ex : Executor unit) (_ : RawCallResult unit) : Executor unit := ex.
Definition is_success (ex : Executor unit) (_ : Address) (r : RawCallResult unit) (_ : bool) :=
  (r, timestamp (block_env ex) <? 5).
Definition from_be (b : Bytes) : option Z := Some (foldl (λ x y, x * 256 + y) 0 b).

Definition start : Executor unit := mkExecutor (mkBlockEnv 0 0) None tt.
Definition call (w : option U256) : BasicTxDetails :=
  {| warp := w; roll := None; sender := 1; call_details := {| target := 2; calldata := [] |} |}.
Definition config : InvariantConfig := {| shrink_run_limit := 5000; fail_on_revert := false |}.
Definition contract : InvariantContract :=
  {| address := 3; selector := [1; 2; 3; 4]; call_after_invariant := false |}.

Lemma never_fails calls :
  no_errors (B := gset nat) call_raw commit is_success [] start calls config contract.
Proof.
  intros included e. unfold candidate, check_sequence.
  erewrite check_calls_txs by apply keep_pick.
  generalize (keep (test included) 0 calls). intros txs.
  assert (Hx : ∀ ex, ∃ o, check_txs call_raw commit ex txs false = Ok o).
  { induction txs as [|tx txs IH]; intros ex; simpl; [by eexists|]. apply IH. }
  destruct (Hx start) as [o Ho]. simpl. rewrite Ho. destruct o as [ex|]; [|done].
  simpl. by rewrite andb_false_r.
Qed.

Definition calls : list BasicTxDetails := [call None; call (Some 7); call None].

Lemma shrunk_sequence_breaks_witness :
  ∃ kept b', shrink_sequence (B := gset nat) call_raw commit is_success [] (λ _, false)
      config contract calls start = Some (Ok kept) ∧
    kept `sublist_of` calls ∧
    check_sequence call_raw commit is_success [] start kept (seq 0 (length kept)) 3 [1; 2; 3; 4]
      false false = Some (Ok (false, b')).
Proof.
  apply (shrunk_sequence_breaks (B := gset nat) call_raw commit is_success [] from_be (λ _, false) start calls config
    contract true); [apply never_fails|vm_compute; reflexivity].
Defined.

Lemma shrunk_sequence_minimal_witness :
  ∃ included : gset nat, shrink_sequence (B := gset nat) call_raw commit is_success [] (λ _, false)
      config contract calls start = Some (Ok (keep (test included) 0 calls)) ∧
    minimal call_raw commit is_success [] start calls config contract included.
Proof.
  eapply (shrunk_sequence_minimal call_raw commit is_success [] from_be (λ _, false) start calls config
    contract true); [apply never_fails|vm_compute; reflexivity|vm_compute; reflexivity|done|done|].
  vm_compute. discriminate.
Defined.

Example shrunk_to_one :
  shrink_sequence (B := gset nat) call_raw commit is_success [] (λ _, false)
    config contract calls start = Some (Ok [call (Some 7)]).
Proof. vm_compute. reflexivity. Qed.

Definition optimum : list BasicTxDetails := [call (Some 3)].

Lemma shrunk_value_replays_witness :
  ∃ included : gset nat, [] = accumulate included 0 optimum 0 0 ∧
    (trailing included 0 optimum 0 0 = (0, 0) →
     check_sequence_value call_raw commit is_success from_be start [] [] 3 [1; 2; 3; 4] =
       Ok (Some 3)).
Proof.
  apply (shrunk_value_replays call_raw commit is_success from_be (λ _, false) start optimum config
    contract 3 []); [vm_compute; intuition discriminate|vm_compute; reflexivity|vm_compute; reflexivity].
Defined.

(** In optimization mode the result need not reproduce the value: the
    warp of a call that is removed from the end is applied while candidates
    are checked, and is in no call of the result.  The only call of this
    sequence is dropped for a target it alone reaches. *)
Theorem shrunk_value_lost :
  let shrunk := shrink_sequence_value (B := gset nat) call_raw commit is_success from_be
    (λ _, false) config contract optimum start 3 in
  let replay calls := check_sequence_value call_raw commit is_success from_be start calls
    (seq 0 (length calls)) (address contract) (selector contract) in
  replay optimum = Ok (Some 3) ∧ shrunk = Ok [] ∧ replay [] = Ok (Some 0).
Proof. vm_compute. repeat split. Qed.

(** An executor whose fuzz calls cannot be executed before block one. *)
Definition late_call_raw (ex : Executor unit) (from to : Address) (data : Bytes) (value : U256)
    : result unit (RawCallResult unit) :=
  if bool_decide (from = CALLER) || (1 <=? number (block_env ex))
  then call_raw ex from to data value else Err tt.
Definition late_success (ex : Executor unit) (_ : Address) (r : RawCallResult unit) (_ : bool) :=
  (r, timestamp (block_env ex) <? 5).
Definition roll_one : BasicTxDetails :=
  {| warp := None; roll := Some 1; sender := 1; call_details := {| target := 2; calldata := [] |} |}.
Definition advance_by (n : Z) (ex : Executor unit) (_ : RawCallResult unit) : Executor unit :=
  mkExecutor (advance_block n 0 (block_env ex)) (cheatcodes ex) tt.

(** A candidate whose execution fails counts as one that still breaks
    the invariant: the call stays removed, and the sequence returned here
    cannot be executed although the original one breaks the invariant. *)
Theorem shrunk_sequence_swallows_errors :
  let check calls := check_sequence late_call_raw (advance_by 3) late_success [] start calls
    (seq 0 (length calls)) (address contract) (selector contract) false false in
  let calls := [roll_one; call None] in
  check calls = Some (Ok (false, true)) ∧
  shrink_sequence (B := gset nat) late_call_raw (advance_by 3) late_success [] (λ _, false)
    config contract calls start = Some (Ok [call None]) ∧
  check [call None] = Some (Err tt).
Proof. vm_compute. repeat split. Qed.
End Clock.
