(* ===== verification/Cheatcodes.v ===== *)
(** * Pranks and expectations of the cheatcode inspector

    Models [crates/cheatcodes/src/evm/prank.rs], [test/expect.rs] and the
    hooks of [inspector.rs] that read what they set: how a prank is applied to
    a call and ended, how calls and logs are matched, and the checks at the
    end of calls.  The EVM journal is an argument where a cheatcode loads an
    account from it.  The texts of mismatch messages are not modelled: an
    error carries what its message is built from.  Counters are [u64]s that
    grow by one per call or log and are not wrapped. *)
From S2P Require Import Prelude.
Local Open Scope Z_scope.

Abbreviation Address := Z.
Abbreviation Bytes := (list Z).
Abbreviation U256 := Z.

(** A log's topics and data. *)
Abbreviation RawLog := (list Z * list Z)%type.
Record Log := mkLog { log_address : Address; log_data : RawLog }.

(** ** Data *)

Record Prank := mkPrank {
  prank_caller : Address;
  prank_origin : Address;
  new_caller : Address;
  new_origin : option Address;
  prank_depth : nat;
  single_call : bool;
  delegate_call : bool;
  used : bool;
}.

Inductive ExpectedCallType := NonCount | Count.
#[export] Instance ExpectedCallType_eq_dec : EqDecision ExpectedCallType.
Proof. solve_decision. Defined.

Record ExpectedCallData := mkExpectedCallData {
  ec_value : option U256;
  ec_gas : option Z;
  ec_min_gas : option Z;
  ec_count : Z;
  call_type : ExpectedCallType;
}.

Abbreviation ExpectedCallTracker := (gmap Address (gmap Bytes (ExpectedCallData * Z))).

Inductive ExpectedRevertKind :=
| DefaultRevert
| CheatcodeRevert (pending_processing : bool).

Record ExpectedRevert := mkExpectedRevert {
  reason : option Bytes;
  revert_depth : nat;
  revert_kind : ExpectedRevertKind;
  partial_match : bool;
  reverter : option Address;
  reverted_by : option Address;
  max_depth : nat;
  revert_count : Z;
  actual_count : Z;
}.

(** Why a log is not the expected one. *)
Inductive mismatch :=
| TopicsOrData (expected actual : RawLog)
| Emitter (expected actual : Address).

Record ExpectedEmit := mkExpectedEmit {
  emit_depth : nat;
  emit_log : option RawLog;
  emit_checks : list bool;               (* [bool; 5] *)
  emit_address : option Address;
  anonymous : bool;
  found : bool;
  emit_count : Z;
  mismatch_error : option mismatch;
}.

Record LogCountMap := mkLogCountMap {
  lc_checks : list bool;
  expected_log : RawLog;
  lc_map : gmap RawLog Z;
}.

Abbreviation ExpectedEmitTracker := (list (ExpectedEmit * gmap Address LogCountMap)).

Inductive CreateScheme := Create | Create2.
#[export] Instance CreateScheme_eq_dec : EqDecision CreateScheme.
Proof. solve_decision. Defined.

Record ExpectedCreate := mkExpectedCreate {
  deployer : Address;
  bytecode : Bytes;
  create_scheme : CreateScheme;
}.

Record Cheatcodes := mkCheatcodes {
  pranks : gmap nat Prank;               (* BTreeMap *)
  broadcasting : bool;                   (* broadcast.is_some() *)
  expected_revert : option ExpectedRevert;
  expected_calls : ExpectedCallTracker;
  expected_emits : ExpectedEmitTracker;
  expected_creates : list ExpectedCreate;
  allowed_mem_writes : gmap Z (list (Z * Z));
}.

Definition with_pranks v (s : Cheatcodes) := mkCheatcodes v (broadcasting s) (expected_revert s)
  (expected_calls s) (expected_emits s) (expected_creates s) (allowed_mem_writes s).
Definition with_revert v (s : Cheatcodes) := mkCheatcodes (pranks s) (broadcasting s) v
  (expected_calls s) (expected_emits s) (expected_creates s) (allowed_mem_writes s).
Definition with_calls v (s : Cheatcodes) := mkCheatcodes (pranks s) (broadcasting s)
  (expected_revert s) v (expected_emits s) (expected_creates s) (allowed_mem_writes s).
Definition with_emits v (s : Cheatcodes) := mkCheatcodes (pranks s) (broadcasting s)
  (expected_revert s) (expected_calls s) v (expected_creates s) (allowed_mem_writes s).
Definition with_creates v (s : Cheatcodes) := mkCheatcodes (pranks s) (broadcasting s)
  (expected_revert s) (expected_calls s) (expected_emits s) v (allowed_mem_writes s).
Definition with_mem_writes v (s : Cheatcodes) := mkCheatcodes (pranks s) (broadcasting s)
  (expected_revert s) (expected_calls s) (expected_emits s) (expected_creates s) v.

(** ** Pranks *)

Definition Prank_new prank_caller prank_origin new_caller new_origin depth single delegate :=
  mkPrank prank_caller prank_origin new_caller new_origin depth single delegate false.

Definition first_time_applied (p : Prank) : option Prank :=
  if used p then None
  else Some (mkPrank (prank_caller p) (prank_origin p) (new_caller p) (new_origin p)
               (prank_depth p) (single_call p) (delegate_call p) true).

(** [pranks.range(..=depth).last()] *)
Fixpoint get_prank (m : gmap nat Prank) (depth : nat) : option Prank :=
  match m !! depth, depth with
  | Some p, _ => Some p
  | None, O => None
  | None, S depth => get_prank m depth
  end.

(** What a stateful cheatcode sees of the EVM. *)
Record Ctx := mkCtx {
  cc_caller : Address;                   (* ccx.caller *)
  tx_caller : Address;                   (* ecx.tx.caller *)
  depth : nat;                           (* journaled_state.depth() *)
}.

Section cheatcodes.
(** Loads and touches an account: whether it has code. *)
Variable journaled_account : Address → result string bool.

Definition prank (ccx : Ctx) (s : Cheatcodes) (new_caller : Address) (new_origin : option Address)
    (single delegate : bool) : result string Cheatcodes :=
  has_code ← journaled_account new_caller;
  if delegate && negb has_code then Err "cannot `prank` delegate call from an EOA"%string
  else
    let overwrite :=
      match get_prank (pranks s) (depth ccx) with
      | Some p =>
          if negb (used p) then
            Err "cannot overwrite a prank until it is applied at least once"%string
          else if negb (eqb single (single_call p)) then
            Err "cannot override an ongoing prank with a single vm.prank"%string
          else Ok tt
      | None => Ok tt
      end in
    _ ← overwrite;
    let p := Prank_new (cc_caller ccx) (tx_caller ccx) new_caller new_origin (depth ccx)
               single delegate in
    if broadcasting s then Err "cannot `prank` for a broadcasted transaction"%string
    else Ok (with_pranks (<[prank_depth p := p]> (pranks s)) s).

Inductive PrankCall :=
| prank_0 (msgSender : Address)
| startPrank_0 (msgSender : Address)
| prank_1 (msgSender txOrigin : Address)
| startPrank_1 (msgSender txOrigin : Address)
| prank_2 (msgSender : Address) (delegateCall : bool)
| startPrank_2 (msgSender : Address) (delegateCall : bool)
| prank_3 (msgSender txOrigin : Address) (delegateCall : bool)
| startPrank_3 (msgSender txOrigin : Address) (delegateCall : bool)
| stopPrank.

Definition apply_prank_call (ccx : Ctx) (c : PrankCall) (s : Cheatcodes)
    : result string Cheatcodes :=
  match c with
  | prank_0 sender => prank ccx s sender None true false
  | startPrank_0 sender => prank ccx s sender None false false
  | prank_1 sender origin => prank ccx s sender (Some origin) true false
  | startPrank_1 sender origin => prank ccx s sender (Some origin) false false
  | prank_2 sender delegate => prank ccx s sender None true delegate
  | startPrank_2 sender delegate => prank ccx s sender None false delegate
  | prank_3 sender origin delegate => prank ccx s sender (Some origin) true delegate
  | startPrank_3 sender origin delegate => prank ccx s sender (Some origin) false delegate
  | stopPrank => Ok (with_pranks (delete (depth ccx) (pranks s)) s)
  end.
End cheatcodes.

(** The part of a call or create that a prank changes. *)
Record PrankedCall := mkPrankedCall {
  pc_caller : Address;
  pc_target : Address;
  pc_delegate : bool;                    (* the call scheme is DELEGATECALL *)
  pc_value : option U256;                (* the apparent value, when replaced *)
}.

(** "Apply our prank" at the target depth or deeper: the caller and
    [tx.origin], and the prank marked as used. *)
Definition apply_prank (curr_depth : nat) (p : Prank) (caller origin : Address)
    (m : gmap nat Prank) : Address * Address * gmap nat Prank :=
  if bool_decide (prank_depth p ≤ curr_depth)%nat && bool_decide (caller = prank_caller p) then
    let at_depth := bool_decide (curr_depth = prank_depth p) in
    let caller := if at_depth then new_caller p else caller in
    let '(origin, applied) :=
      match new_origin p with Some o => (o, true) | None => (origin, at_depth) end in
    let m := match first_time_applied p with
             | Some p' => if applied then <[curr_depth := p']> m else m
             | None => m
             end in
    (caller, origin, m)
  else (caller, origin, m).

(** In [create_common]. *)
Definition create_prank (curr_depth : nat) (caller origin : Address) (m : gmap nat Prank)
    : Address * Address * gmap nat Prank :=
  match get_prank m curr_depth with
  | Some p => apply_prank curr_depth p caller origin m
  | None => (caller, origin, m)
  end.

(** In [call_with_executor]; [balance] is the balance of an account. *)
Definition call_prank (balance : Address → U256) (curr_depth : nat) (call : PrankedCall)
    (origin : Address) (m : gmap nat Prank) : PrankedCall * Address * gmap nat Prank :=
  match get_prank m curr_depth with
  | Some p =>
      let '(call, origin) :=
        if delegate_call p && bool_decide (curr_depth = prank_depth p) && pc_delegate call then
          ({| pc_caller := new_caller p; pc_target := new_caller p; pc_delegate := true;
              pc_value := Some (balance (new_caller p)) |},
           match new_origin p with Some o => o | None => origin end)
        else (call, origin) in
      let '(caller, origin, m) := apply_prank curr_depth p (pc_caller call) origin m in
      ({| pc_caller := caller; pc_target := pc_target call; pc_delegate := pc_delegate call;
          pc_value := pc_value call |}, origin, m)
  | None => (call, origin, m)
  end.

(** In [call_end], for a call that is not a cheatcode. *)
Definition end_prank (curr_depth : nat) (origin : Address) (m : gmap nat Prank)
    : Address * gmap nat Prank :=
  match get_prank m curr_depth with
  | Some p =>
      if bool_decide (curr_depth = prank_depth p) then
        (prank_origin p, if single_call p then delete curr_depth m else m)
      else (origin, m)
  | None => (origin, m)
  end.

(** In [create_end_common]: a single-call prank takes all pranks with it. *)
Definition end_create_prank (curr_depth : nat) (origin : Address) (m : gmap nat Prank)
    : Address * gmap nat Prank :=
  match get_prank m curr_depth with
  | Some p =>
      if bool_decide (curr_depth = prank_depth p) then
        (prank_origin p, if single_call p then ∅ else m)
      else (origin, m)
  | None => (origin, m)
  end.

(** ** Expected calls *)

Definition positive_value_cost_stipend : Z := 2300.

Definition expect_call (s : Cheatcodes) (target : Address) (calldata : Bytes)
    (value : option U256) (gas min_gas : option Z) (count : Z) (type : ExpectedCallType)
    : result string Cheatcodes :=
  let expecteds := default ∅ (expected_calls s !! target) in
  let stipend (g : Z) :=
    if bool_decide (0 < default 0 value) then wrap 64 (g + positive_value_cost_stipend) else g in
  let gas := stipend <$> gas in
  let min_gas := stipend <$> min_gas in
  let fresh := (mkExpectedCallData value gas min_gas count type, 0) in
  let store e := Ok (with_calls (<[target := <[calldata := e]> expecteds]> (expected_calls s)) s) in
  match type, expecteds !! calldata with
  | Count, Some _ => Err "counted expected calls can only bet set once"%string
  | Count, None => store fresh
  | NonCount, Some (expected, seen) =>
      match call_type expected with
      | NonCount =>
          store (mkExpectedCallData (ec_value expected) (ec_gas expected) (ec_min_gas expected)
                   (ec_count expected + 1) NonCount, seen)
      | Count => Err "cannot overwrite a counted expectCall with a non-counted expectCall"%string
      end
  | NonCount, None => store fresh
  end.

(** A call as the matching sees it. *)
Record CallInputs := mkCallInputs {
  bytecode_address : Address;
  input : Bytes;
  transfer_value : option U256;
  gas_limit : Z;
}.

Definition call_matches (calldata : Bytes) (expected : ExpectedCallData) (call : CallInputs) : bool :=
  bool_decide (length calldata ≤ length (input call))%nat &&
  bool_decide (calldata = take (length calldata) (input call)) &&
  match ec_value expected with None => true | v => bool_decide (v = transfer_value call) end &&
  match ec_gas expected with None => true | Some gas => gas =? gas_limit call end &&
  match ec_min_gas expected with None => true | Some min_gas => min_gas <=? gas_limit call end.

(** "Match every partial/full calldata": every matching entry is counted. *)
Definition match_expected_calls (call : CallInputs) (calls : ExpectedCallTracker)
    : ExpectedCallTracker :=
  match calls !! bytecode_address call with
  | None => calls
  | Some expecteds =>
      <[bytecode_address call :=
          map_imap (λ calldata '(expected, actual_count),
            Some (expected, if call_matches calldata expected call then actual_count + 1
                            else actual_count)) expecteds]> calls
  end.

Definition call_failed (e : ExpectedCallData * Z) : bool :=
  match call_type e.1 with
  | Count => negb (ec_count e.1 =? e.2)
  | NonCount => e.2 <? ec_count e.1
  end.

(** ** Expected emits *)

Definition checks_topics_and_data (checks : list bool) (expected log : RawLog) : bool :=
  if negb (bool_decide (length log.1 = length expected.1)) then false
  else if negb (forallb (λ '(i, topic), bool_decide (expected.1 !! i = Some topic))
                  (filter (λ '(i, _), nth i checks false = true) (imap pair log.1))) then false
  else if nth 4 checks false && negb (bool_decide (expected.2 = log.2)) then false
  else true.

(** [LogCountMap::new]; the log is filled. *)
Definition LogCountMap_new (e : ExpectedEmit) : option LogCountMap :=
  log ← emit_log e;
  Some {| lc_checks := emit_checks e; expected_log := log; lc_map := ∅ |}.

Definition satisfies_checks (m : LogCountMap) (log : RawLog) : bool :=
  checks_topics_and_data (lc_checks m) (expected_log m) log.

Definition LogCountMap_insert (log : RawLog) (m : LogCountMap) : bool * LogCountMap :=
  let put n := {| lc_checks := lc_checks m; expected_log := expected_log m;
                  lc_map := <[log := n]> (lc_map m) |} in
  match lc_map m !! log with
  | Some n => (true, put (n + 1))
  | None => if satisfies_checks m log then (true, put 1) else (false, m)
  end.

Definition count_unchecked (m : LogCountMap) : Z := map_fold (λ _ n acc, n + acc) 0 (lc_map m).

Definition LogCountMap_count (m : LogCountMap) (log : RawLog) : Z :=
  if satisfies_checks m log then count_unchecked m else 0.

Definition expect_emit (s : Cheatcodes) (depth : nat) (checks : list bool)
    (address : option Address) (anonymous : bool) (count : Z) : result string Cheatcodes :=
  let expected_emit :=
    {| emit_depth := depth; emit_log := None; emit_checks := checks; emit_address := address;
       anonymous := anonymous; found := false; emit_count := count; mismatch_error := None |} in
  let emits := expected_emits s in
  let pos := match list_find (λ e, found e.1 = true) emits with
             | Some (found_emit_pos, _) => found_emit_pos
             | None => length emits
             end in
  Ok (with_emits (take pos emits ++ (expected_emit, ∅) :: drop pos emits) s).

Definition set_log log (e : ExpectedEmit) := mkExpectedEmit (emit_depth e) (Some log)
  (emit_checks e) (emit_address e) (anonymous e) (found e) (emit_count e) (mismatch_error e).
Definition set_found f m (e : ExpectedEmit) := mkExpectedEmit (emit_depth e) (emit_log e)
  (emit_checks e) (emit_address e) (anonymous e) f (emit_count e) m.

(** The failure of [handle_expect_emit]: returned, or set as the action of the
    interpreter when there is one. *)
Inductive emit_failure := NoFailure | Returned (msg : string) | Interrupted (msg : string).

Definition fail_emit (interpreter : bool) (msg : string) : emit_failure :=
  if interpreter then Interrupted msg else Returned msg.

Section hash_order.
Context `{HashIter}.

(** [count_map.values()], in the order of the hash map. *)
Definition map_values (m : gmap Address LogCountMap) : list LogCountMap :=
  omap (λ a, m !! a) (hash_iter (dom m)).

(** The closure that decides [found]. *)
Definition emit_found (e : ExpectedEmit) (expected : RawLog) (count_map : gmap Address LogCountMap)
    (log : Log) : ExpectedEmit :=
  if negb (checks_topics_and_data (emit_checks e) expected (log_data log)) then
    set_found false (Some (TopicsOrData expected (log_data log))) e
  else
    let found :=
      match emit_address e with
      | Some emitter =>
          match count_map !! emitter with
          | Some log_map => emit_count e <=? LogCountMap_count log_map (log_data log)
          | None => false
          end
      | None =>
          match list_find (λ m, satisfies_checks m (log_data log) = true) (map_values count_map) with
          | Some (_, map) => emit_count e <=? LogCountMap_count map (log_data log)
          | None => false
          end
      end in
    match emit_address e with
    | Some addr =>
        if bool_decide (addr = log_address log) then set_found found (mismatch_error e) e
        else set_found false (Some (Emitter addr (log_address log))) e
    | None => set_found found (mismatch_error e) e
    end.

(** Increment or set the count of the log. *)
Definition count_log (e : ExpectedEmit) (log : Log) (count_map : gmap Address LogCountMap)
    : option (gmap Address LogCountMap) :=
  match count_map !! log_address log with
  | Some log_count_map =>
      Some (<[log_address log := (LogCountMap_insert (log_data log) log_count_map).2]> count_map)
  | None =>
      log_count_map ← LogCountMap_new e;
      if satisfies_checks log_count_map (log_data log) then
        Some (<[log_address log := (LogCountMap_insert (log_data log) log_count_map).2]> count_map)
      else Some count_map
  end.

Definition forbidden (log : Log) (e : ExpectedEmit) : bool :=
  (emit_count e =? 0) && negb (found e) &&
  match emit_log e with
  | Some expected => checks_topics_and_data (emit_checks e) expected (log_data log)
  | None => false
  end &&
  match emit_address e with None => true | Some a => bool_decide (a = log_address log) end.

Definition handle_expect_emit (emits : ExpectedEmitTracker) (log : Log) (interpreter : bool)
    : option (emit_failure * ExpectedEmitTracker) :=
  if forallb (λ '(expected, _), found expected) emits then Some (NoFailure, emits)
  else if existsb (λ '(expected, _), forbidden log expected) emits then
    Some (fail_emit interpreter "log emitted but expected 0 times", emits)
  else
    let should_fill_logs :=
      existsb (λ '(expected, _), bool_decide (emit_log expected = None)) emits in
    let index_to_fill_or_check :=
      if should_fill_logs then
        pred match list_find (λ e, found e.1 = true) emits with
             | Some (pos, _) => pos
             | None => length emits
             end
      else match list_find (λ e, found e.1 = false ∧ 0 < emit_count e.1) emits with
           | Some (pos, _) => pos
           | None => 0%nat
           end in
    if negb should_fill_logs &&
       forallb (λ '(e, _), found e || (emit_count e =? 0)) emits then Some (NoFailure, emits)
    else
      '(event, count_map) ← emits !! index_to_fill_or_check;
      let emits := delete index_to_fill_or_check emits in
      match emit_log event with
      | None =>
          if anonymous event || negb (bool_decide ((log_data log).1 = [])) then
            let event := set_log (log_data log) event in
            Some (NoFailure, take index_to_fill_or_check emits ++ (event, count_map) ::
                             drop index_to_fill_or_check emits)
          else
            Some (fail_emit interpreter "use vm.expectEmitAnonymous to match anonymous events", emits)
      | Some expected =>
          count_map ← count_log event log count_map;
          let event := emit_found event expected count_map log in
          Some (NoFailure, if found event then emits ++ [(event, count_map)]
                           else (event, count_map) :: emits)
      end.

(** ** The checks at the end of a call *)

Inductive ExpectError :=
| NotEmitted (m : option mismatch)            (* an expected emit was not found *)
| EmitCount (seen expected : Z)               (* emitted another number of times *)
| EmitReverted                                (* the call reverted instead *)
| CallCount (target : Address) (calldata : Bytes) (expected : ExpectedCallData) (seen : Z)
| LeftoverEmits
| LeftoverCreate (c : ExpectedCreate).

Definition sum_list_Z (l : list Z) : Z := foldr Z.add 0 l.

(** How often an expected log was seen. *)
Definition emit_seen (e : ExpectedEmit) (count_map : gmap Address LogCountMap) : Z :=
  match emit_address e with
  | Some emitter =>
      match count_map !! emitter with
      | Some log_count =>
          match emit_log e with
          | Some l => LogCountMap_count log_count l
          | None => count_unchecked log_count
          end
      | None => 0
      end
  | None =>
      match emit_log e with
      | Some l => sum_list_Z ((λ m, LogCountMap_count m l) <$> map_values count_map)
      | None => sum_list_Z (count_unchecked <$> map_values count_map)
      end
  end.

(** In [call_end]; [ok] tells whether the call itself succeeded. *)
Definition check_emits (curr_depth : nat) (is_static ok : bool) (emits : ExpectedEmitTracker)
    : option ExpectError * ExpectedEmitTracker :=
  if existsb (λ '(e, _), bool_decide (emit_depth e = curr_depth)) emits && negb is_static then
    let expected_counts :=
      filter (λ '(e, seen), seen ≠ emit_count e)
        ((λ '(e, count_map), (e, emit_seen e count_map)) <$> emits) in
    match list_find (λ e, found e.1 = false ∧ 0 < emit_count e.1) emits with
    | Some (_, (e, _)) => (Some (NotEmitted (mismatch_error e)), emits)
    | None =>
        match expected_counts with
        | (e, seen) :: _ =>
            (Some (if ok : bool then EmitCount seen (emit_count e) else EmitReverted), emits)
        | [] => (None, [])
        end
    end
  else (None, emits).

(** "Match expected calls", at the end of the root call. *)
Definition check_expected_calls (calls : ExpectedCallTracker) : option ExpectError :=
  head (mjoin ((λ address,
    omap (λ calldata,
      e ← default ∅ (calls !! address) !! calldata;
      if call_failed e then Some (CallCount address calldata e.1 e.2) else None)
      (hash_iter (dom (default ∅ (calls !! address))))) <$> hash_iter (dom calls))).

(** The last part of [call_end], for a root call that did not revert. *)
Definition root_call_end (s : Cheatcodes) (ok : bool) : option ExpectError * Cheatcodes :=
  match check_expected_calls (expected_calls s) with
  | Some err => (Some err, s)
  | None =>
      let emits :=
        (λ '(e, m), (if (emit_count e =? 0) && negb (found e)
                     then set_found true (mismatch_error e) e else e, m)) <$> expected_emits s in
      let emits := filter (λ e, found e.1 = false) emits in
      let s := with_emits emits s in
      match emits with
      | _ :: _ => (Some (if ok then LeftoverEmits else EmitReverted), s)
      | [] => (LeftoverCreate <$> head (expected_creates s), s)
      end
  end.
End hash_order.

(** ** Creates, reverts and memory *)

Definition expect_create (s : Cheatcodes) (code : Bytes) (deployer : Address)
    (scheme : CreateScheme) : result string Cheatcodes :=
  Ok (with_creates (expected_creates s ++ [mkExpectedCreate deployer code scheme]) s).

(** "Match the create against expected_creates", in [create_end_common]. *)
Definition match_create (caller : Address) (scheme : CreateScheme) (code : Bytes)
    (creates : list ExpectedCreate) : list ExpectedCreate :=
  match list_find (λ c, deployer c = caller ∧ create_scheme c = scheme ∧ bytecode c = code)
          creates with
  | Some (index, _) => swap_remove index creates
  | None => creates
  end.

Definition expect_revert (s : Cheatcodes) (reason : option Bytes) (depth : nat)
    (cheatcode partial_match : bool) (reverter : option Address) (count : Z)
    : result string Cheatcodes :=
  match expected_revert s with
  | Some _ => Err "you must call another function prior to expecting a second revert"%string
  | None =>
      Ok (with_revert (Some
        {| reason := reason; revert_depth := depth;
           revert_kind := if cheatcode then CheatcodeRevert true else DefaultRevert;
           partial_match := partial_match; reverter := reverter; reverted_by := None;
           max_depth := depth; revert_count := count; actual_count := 0 |}) s)
  end.

Definition expect_safe_memory (s : Cheatcodes) (start end_ depth : Z) : result string Cheatcodes :=
  if start <? end_ then
    let offsets := default [(0, 0x60)] (allowed_mem_writes s !! depth) in
    Ok (with_mem_writes (<[depth := offsets ++ [(start, end_)]]> (allowed_mem_writes s)) s)
  else Err "memory range start is greater than end"%string.

(** ** The cheatcodes

    One constructor per [impl Cheatcode]; overloads that only differ in the
    ABI type of the revert data have one constructor each. *)
Inductive ExpectCallCall :=
| expectCall_0 (callee : Address) (data : Bytes)
| expectCall_1 (callee : Address) (data : Bytes) (count : Z)
| expectCall_2 (callee : Address) (msgValue : U256) (data : Bytes)
| expectCall_3 (callee : Address) (msgValue : U256) (data : Bytes) (count : Z)
| expectCall_4 (callee : Address) (msgValue : U256) (gas : Z) (data : Bytes)
| expectCall_5 (callee : Address) (msgValue : U256) (gas : Z) (data : Bytes) (count : Z)
| expectCallMinGas_0 (callee : Address) (msgValue : U256) (minGas : Z) (data : Bytes)
| expectCallMinGas_1 (callee : Address) (msgValue : U256) (minGas : Z) (data : Bytes) (count : Z).

Definition apply_expect_call (c : ExpectCallCall) (s : Cheatcodes) : result string Cheatcodes :=
  match c with
  | expectCall_0 callee data => expect_call s callee data None None None 1 NonCount
  | expectCall_1 callee data count => expect_call s callee data None None None count Count
  | expectCall_2 callee v data => expect_call s callee data (Some v) None None 1 NonCount
  | expectCall_3 callee v data count => expect_call s callee data (Some v) None None count Count
  | expectCall_4 callee v gas data => expect_call s callee data (Some v) (Some gas) None 1 NonCount
  | expectCall_5 callee v gas data count =>
      expect_call s callee data (Some v) (Some gas) None count Count
  | expectCallMinGas_0 callee v min_gas data =>
      expect_call s callee data (Some v) None (Some min_gas) 1 NonCount
  | expectCallMinGas_1 callee v min_gas data count =>
      expect_call s callee data (Some v) None (Some min_gas) count Count
  end.

Inductive ExpectEmitCall :=
| expectEmit_0 (t1 t2 t3 d : bool)
| expectEmit_1 (t1 t2 t3 d : bool) (emitter : Address)
| expectEmit_2
| expectEmit_3 (emitter : Address)
| expectEmit_4 (t1 t2 t3 d : bool) (count : Z)
| expectEmit_5 (t1 t2 t3 d : bool) (emitter : Address) (count : Z)
| expectEmit_6 (count : Z)
| expectEmit_7 (emitter : Address) (count : Z).

Definition apply_expect_emit (depth : nat) (c : ExpectEmitCall) (s : Cheatcodes)
    : result string Cheatcodes :=
  let all := [true; true; true; true; true] in
  match c with
  | expectEmit_0 t1 t2 t3 d => expect_emit s depth [true; t1; t2; t3; d] None false 1
  | expectEmit_1 t1 t2 t3 d emitter =>
      expect_emit s depth [true; t1; t2; t3; d] (Some emitter) false 1
  | expectEmit_2 => expect_emit s depth all None false 1
  | expectEmit_3 emitter => expect_emit s depth all (Some emitter) false 1
  | expectEmit_4 t1 t2 t3 d count => expect_emit s depth [true; t1; t2; t3; d] None false count
  | expectEmit_5 t1 t2 t3 d emitter count =>
      expect_emit s depth [true; t1; t2; t3; d] (Some emitter) false count
  | expectEmit_6 count => expect_emit s depth all None false count
  | expectEmit_7 emitter count => expect_emit s depth all (Some emitter) false count
  end.

Inductive ExpectEmitAnonymousCall :=
| expectEmitAnonymous_0 (t0 t1 t2 t3 d : bool)
| expectEmitAnonymous_1 (t0 t1 t2 t3 d : bool) (emitter : Address)
| expectEmitAnonymous_2
| expectEmitAnonymous_3 (emitter : Address).

Definition apply_expect_emit_anonymous (depth : nat) (c : ExpectEmitAnonymousCall) (s : Cheatcodes)
    : result string Cheatcodes :=
  let all := [true; true; true; true; true] in
  match c with
  | expectEmitAnonymous_0 t0 t1 t2 t3 d => expect_emit s depth [t0; t1; t2; t3; d] None true 1
  | expectEmitAnonymous_1 t0 t1 t2 t3 d emitter =>
      expect_emit s depth [t0; t1; t2; t3; d] (Some emitter) true 1
  | expectEmitAnonymous_2 => expect_emit s depth all None true 1
  | expectEmitAnonymous_3 emitter => expect_emit s depth all (Some emitter) true 1
  end.

Inductive ExpectCreateCall :=
| expectCreate (bytecode : Bytes) (deployer : Address)
| expectCreate2 (bytecode : Bytes) (deployer : Address).

Definition apply_expect_create (c : ExpectCreateCall) (s : Cheatcodes) : result string Cheatcodes :=
  match c with
  | expectCreate code deployer => expect_create s code deployer Create
  | expectCreate2 code deployer => expect_create s code deployer Create2
  end.

Inductive ExpectRevertCall :=
| expectRevert_0
| expectRevert_1 (revertData : Bytes)
| expectRevert_2 (revertData : Bytes)
| expectRevert_3 (reverter : Address)
| expectRevert_4 (revertData : Bytes) (reverter : Address)
| expectRevert_5 (revertData : Bytes) (reverter : Address)
| expectRevert_6 (count : Z).

Definition apply_expect_revert (depth : nat) (c : ExpectRevertCall) (s : Cheatcodes)
    : result string Cheatcodes :=
  match c with
  | expectRevert_0 => expect_revert s None depth false false None 1
  | expectRevert_1 data | expectRevert_2 data =>
      expect_revert s (Some data) depth false false None 1
  | expectRevert_3 reverter => expect_revert s None depth false false (Some reverter) 1
  | expectRevert_4 data reverter | expectRevert_5 data reverter =>
      expect_revert s (Some data) depth false false (Some reverter) 1
  | expectRevert_6 count => expect_revert s None depth false false None count
  end.

Inductive ExpectRevertCountCall :=
| expectRevert_7 (revertData : Bytes) (count : Z)
| expectRevert_8 (revertData : Bytes) (count : Z)
| expectRevert_9 (reverter : Address) (count : Z)
| expectRevert_10 (revertData : Bytes) (reverter : Address) (count : Z)
| expectRevert_11 (revertData : Bytes) (reverter : Address) (count : Z)
| expectPartialRevert_0 (revertData : Bytes)
| expectPartialRevert_1 (revertData : Bytes) (reverter : Address)
| _expectCheatcodeRevert_0
| _expectCheatcodeRevert_1 (revertData : Bytes)
| _expectCheatcodeRevert_2 (revertData : Bytes).

Definition apply_expect_revert_count (depth : nat) (c : ExpectRevertCountCall) (s : Cheatcodes)
    : result string Cheatcodes :=
  match c with
  | expectRevert_7 data count | expectRevert_8 data count =>
      expect_revert s (Some data) depth false false None count
  | expectRevert_9 reverter count => expect_revert s None depth false false (Some reverter) count
  | expectRevert_10 data reverter count | expectRevert_11 data reverter count =>
      expect_revert s (Some data) depth false false (Some reverter) count
  | expectPartialRevert_0 data => expect_revert s (Some data) depth false true None 1
  | expectPartialRevert_1 data reverter =>
      expect_revert s (Some data) depth false true (Some reverter) 1
  | _expectCheatcodeRevert_0 => expect_revert s None depth true false None 1
  | _expectCheatcodeRevert_1 data | _expectCheatcodeRevert_2 data =>
      expect_revert s (Some data) depth true false None 1
  end.

Inductive SafeMemoryCall :=
| expectSafeMemory (min max : Z)
| stopExpectSafeMemory
| expectSafeMemoryCall (min max : Z).

Definition apply_safe_memory (depth : nat) (c : SafeMemoryCall) (s : Cheatcodes)
    : result string Cheatcodes :=
  match c with
  | expectSafeMemory min max => expect_safe_memory s min max (Z.of_nat depth)
  | stopExpectSafeMemory =>
      Ok (with_mem_writes (delete (Z.of_nat depth) (allowed_mem_writes s)) s)
  | expectSafeMemoryCall min max => expect_safe_memory s min max (Z.of_nat depth + 1)
  end.
