(* ===== verification/CheatSpec.v ===== *)
(** * What expected calls and emits promise

    Calls are counted exactly; emits are matched in the order they were
    declared, as a subsequence of the logs. *)
From S2P Require Import Prelude Cheatcodes.
Local Open Scope Z_scope.

(** ** Expected calls *)

Definition entry (t : ExpectedCallTracker) (target : Address) (calldata : Bytes)
    : option (ExpectedCallData * Z) := default ∅ (t !! target) !! calldata.

Definition matching (target : Address) (calldata : Bytes) (e : ExpectedCallData) (c : CallInputs)
    : Prop := bytecode_address c = target ∧ call_matches calldata e c = true.
#[export] Instance matching_dec target calldata e c : Decision (matching target calldata e c) := _.

Lemma entry_match c t target calldata :
  entry (match_expected_calls c t) target calldata =
    (λ '(e, n), (e, if decide (matching target calldata e c) then n + 1 else n)) <$>
      entry t target calldata.
Proof.
  unfold entry, match_expected_calls.
  destruct (decide (bytecode_address c = target)) as [<-|Hne].
  - destruct (t !! bytecode_address c) as [m|] eqn:Ht; simpl.
    + rewrite lookup_insert_eq. simpl. rewrite map_lookup_imap.
      destruct (m !! calldata) as [[e n]|]; simpl; [|done].
      do 2 f_equal. case_decide as Hm; unfold matching in Hm.
      * by rewrite (proj2 Hm).
      * destruct (call_matches calldata e c); [|done]. by destruct Hm.
    + rewrite Ht. simpl. by rewrite lookup_empty.
  - assert (Hno : ∀ e n, (if decide (matching target calldata e c) then n + 1 else n) = n).
    { intros e n. apply decide_False. by intros [? _]. }
    destruct (t !! bytecode_address c) as [m|] eqn:Ht.
    + rewrite lookup_insert_ne by done.
      destruct (_ !! calldata) as [[e n]|]; simpl; by rewrite ?Hno.
    + destruct (default ∅ (t !! target) !! calldata) as [[e n]|]; simpl; by rewrite ?Hno.
Qed.

Definition count_calls (cs : list CallInputs) (t : ExpectedCallTracker) : ExpectedCallTracker :=
  foldl (λ t c, match_expected_calls c t) t cs.

Lemma entry_count cs t target calldata :
  entry (count_calls cs t) target calldata =
    (λ '(e, n), (e, n + Z.of_nat (length (filter (matching target calldata e) cs)))) <$>
      entry t target calldata.
Proof.
  revert t. induction cs as [|c cs IH]; intros t; simpl.
  { destruct (entry t target calldata) as [[e n]|]; simpl; [|done]. by rewrite Z.add_0_r. }
  fold (count_calls cs (match_expected_calls c t)). rewrite IH, entry_match.
  destruct (entry t target calldata) as [[e n]|]; simpl; [|done].
  do 2 f_equal. rewrite filter_cons. case_decide; simpl; lia.
Qed.

Lemma head_None {A} (l : list A) : head l = None ↔ ∀ x, x ∉ l.
Proof.
  destruct l as [|y l]; simpl; split; try done.
  - intros _ x. apply not_elem_of_nil.
  - intros Hx. destruct (Hx y). left.
Qed.

Lemma check_expected_calls_spec `{HashIter} t :
  check_expected_calls t = None ↔
  ∀ target calldata e, entry t target calldata = Some e → call_failed e = false.
Proof.
  unfold check_expected_calls. rewrite head_None. split.
  - intros Hx target calldata e He. apply not_true_is_false. intros Hf.
    apply (Hx (CallCount target calldata e.1 e.2)).
    apply list_elem_of_join. eexists. split; [|apply list_elem_of_fmap; exists target; split; [done|]].
    + apply list_elem_of_omap. exists calldata. unfold entry in He. split.
      * apply elem_of_hash_iter, elem_of_dom. by exists e.
      * rewrite He. simpl. by rewrite Hf.
    + apply elem_of_hash_iter, elem_of_dom. unfold entry in He.
      destruct (t !! target); [by eexists|]. simpl in He. by rewrite lookup_empty in He.
  - intros Hall err (l & Hl & (target & -> & _)%list_elem_of_fmap)%list_elem_of_join.
    apply list_elem_of_omap in Hl as (calldata & _ & Hc).
    destruct (default ∅ (t !! target) !! calldata) as [e|] eqn:He; simpl in Hc; [|done].
    by rewrite (Hall target calldata e He) in Hc.
Qed.

(** Whatever calls a test makes, the check at its end accepts them if
    and only if every counted expectation was matched by exactly its count of
    calls and every other one by at least its count; calls to other targets,
    or that differ in the selector, value or gas asked for, do not count. *)
Theorem expected_calls_exact `{HashIter} t cs :
  (∀ target calldata e n, entry t target calldata = Some (e, n) → n = 0) →
  check_expected_calls (count_calls cs t) = None ↔
  ∀ target calldata e n, entry t target calldata = Some (e, n) →
    let seen := Z.of_nat (length (filter (matching target calldata e) cs)) in
    match call_type e with Count => seen = ec_count e | NonCount => ec_count e ≤ seen end.
Proof.
  intros H0. rewrite check_expected_calls_spec. split.
  - intros Hx target calldata e n He seen.
    specialize (Hx target calldata). rewrite entry_count, He in Hx. simpl in Hx.
    specialize (Hx _ eq_refl). rewrite (H0 _ _ _ _ He) in Hx. unfold call_failed in Hx.
    simpl in Hx. fold seen in Hx. destruct (call_type e); lia.
  - intros Hx target calldata [e n'] He. rewrite entry_count in He.
    destruct (entry t target calldata) as [[e0 n]|] eqn:He0; simpl in He; [|done].
    injection He as <- <-. specialize (Hx _ _ _ _ He0). rewrite (H0 _ _ _ _ He0).
    unfold call_failed. simpl in *. destruct (call_type e0); lia.
Qed.

Definition no_cheats : Cheatcodes :=
  {| pranks := ∅; broadcasting := false; expected_revert := None; expected_calls := ∅;
     expected_emits := []; expected_creates := []; allowed_mem_writes := ∅ |}.

Definition ex_calls : ExpectedCallTracker :=
  match apply_expect_call (expectCall_1 7 [1; 2] 2) no_cheats with
  | Ok s => expected_calls s
  | Err _ => ∅
  end.

Lemma ex_calls_entry target calldata e :
  entry ex_calls target calldata = Some e →
  target = 7 ∧ calldata = [1; 2] ∧ e = (mkExpectedCallData None None None 2 Count, 0).
Proof.
  assert (ex_calls = {[ 7 := {[ [1; 2] := (mkExpectedCallData None None None 2 Count, 0) ]} ]})
    as -> by reflexivity.
  unfold entry. rewrite lookup_singleton. case_decide; simpl; [|by rewrite lookup_empty].
  rewrite lookup_singleton. case_decide; [|done]. by intros [= <-].
Qed.

Lemma expected_calls_exact_witness :
  @check_expected_calls elements_iter (count_calls
    [mkCallInputs 7 [1; 2; 3] None 0; mkCallInputs 8 [1; 2] None 0; mkCallInputs 7 [1; 2] None 0]
    ex_calls) = None.
Proof.
  apply (@expected_calls_exact elements_iter).
  - intros target calldata e n He. by apply ex_calls_entry in He as (_ & _ & [= _ ->]).
  - intros target calldata e n He. apply ex_calls_entry in He as (-> & -> & [= -> _]).
    vm_compute. reflexivity.
Defined.

(** A second [expectCall] of the same calldata with another value is not
    recorded as such: the two are merged into two expected calls with the
    first value, and the calls that were announced are rejected. *)
Theorem expect_call_merges_values :
  let both := s ← apply_expect_call (expectCall_2 7 1 [9]) no_cheats;
              apply_expect_call (expectCall_2 7 2 [9]) s in
  match both with
  | Ok s => bool_decide (@check_expected_calls elements_iter (count_calls
      [mkCallInputs 7 [9] (Some 1) 0; mkCallInputs 7 [9] (Some 2) 0] (expected_calls s)) = None)
  | Err _ => true
  end = false.
Proof. vm_compute. reflexivity. Qed.

(** ** Expected emits *)

(** An expectation whose log is filled, as far as matching is concerned. *)
Record pattern := mkPattern {
  pat_checks : list bool;
  pat_log : RawLog;
  pat_address : option Address;
}.

Definition pat_matches (p : pattern) (log : Log) : Prop :=
  checks_topics_and_data (pat_checks p) (pat_log p) (log_data log) = true ∧
  match pat_address p with None => True | Some a => a = log_address log end.
#[export] Instance pat_matches_dec p log : Decision (pat_matches p log).
Proof. unfold pat_matches. destruct (pat_address p); apply _. Defined.

(** Matching the patterns in order, each with the first log it can have. *)
Fixpoint greedy (ps : list pattern) (logs : list Log) : list pattern :=
  match logs, ps with
  | [], _ => ps
  | _, [] => []
  | log :: logs, p :: ps' =>
      if decide (pat_matches p log) then greedy ps' logs else greedy ps logs
  end.

Lemma greedy_nil logs : greedy [] logs = [].
Proof. by destruct logs. Qed.

(** It succeeds whenever the logs have a matching subsequence. *)
Lemma greedy_complete ps logs :
  greedy ps logs = [] ↔ ∃ sub, sub `sublist_of` logs ∧ Forall2 pat_matches ps sub.
Proof.
  split.
  - revert ps. induction logs as [|log logs IH]; intros ps; simpl.
    + intros ->. exists []. split; constructor.
    + destruct ps as [|p ps]; [intros _; exists []; split; [apply sublist_nil_l|constructor]|].
      case_decide.
      * intros (sub & ? & ?)%IH. exists (log :: sub). split; by constructor.
      * intros (sub & ? & ?)%IH. exists sub. split; [by constructor|done].
  - intros (sub & Hsub & Hm). revert ps Hm.
    assert (Hgen : ∀ ps ps1, ps1 `suffix_of` ps → Forall2 pat_matches ps sub → greedy ps1 logs = []).
    { induction Hsub as [|x l1 l2 Hsub IH|x l1 l2 Hsub IH]; intros ps ps1 Hsuf Hm; simpl.
      - inversion Hm. subst. by apply suffix_nil_inv in Hsuf.
      - destruct ps1 as [|p1 ps1]; [done|].
        apply Forall2_cons_inv_r in Hm as (p & ps' & Hp & Hm & ->).
        apply suffix_cons_inv in Hsuf as [[= -> ->]|Hsuf].
        + rewrite decide_True by done. by apply (IH ps').
        + case_decide; [|by apply (IH ps')].
          apply (IH ps'); [|done]. etrans; [|exact Hsuf]. by eexists [_].
      - destruct ps1 as [|p1 ps1]; [done|]. case_decide; [|by apply (IH ps)].
        apply (IH ps); [|done]. etrans; [|exact Hsuf]. by eexists [_]. }
    intros ps Hm. by apply (Hgen ps ps).
Qed.

(** An expectation that still waits for the log it was filled with. *)
Record waits (p : pattern) (em : ExpectedEmit * gmap Address LogCountMap) : Prop := {
  w_log : emit_log em.1 = Some (pat_log p);
  w_checks : emit_checks em.1 = pat_checks p;
  w_address : emit_address em.1 = pat_address p;
  w_found : found em.1 = false;
  w_count : emit_count em.1 = 1;
  w_unseen : match pat_address p with None => em.2 = ∅ | Some a => em.2 !! a = None end;
}.

(** An expectation that was matched. *)
Record matched `{HashIter} (em : ExpectedEmit * gmap Address LogCountMap) : Prop := {
  m_found : found em.1 = true;
  m_count : emit_count em.1 = 1;
  m_filled : emit_log em.1 ≠ None;
  m_seen : emit_seen em.1 em.2 = 1;
}.

Section hash_order.
Context `{HashIter}.

Lemma map_values_singleton a m : map_values {[ a := m ]} = [m].
Proof.
  unfold map_values. assert (hash_iter (dom ({[ a := m ]} : gmap Address LogCountMap)) = [a]) as ->.
  { apply Permutation_singleton_r. rewrite hash_iter_perm, dom_singleton_L.
    by rewrite elements_singleton. }
  simpl. by rewrite lookup_singleton_eq.
Qed.

Lemma checks_refl checks l : checks_topics_and_data checks l l = true.
Proof.
  unfold checks_topics_and_data. rewrite bool_decide_eq_true_2 by done. simpl.
  assert (forallb (λ '(i, topic), bool_decide (l.1 !! i = Some topic))
    (filter (λ '(i, _), nth i checks false = true) (imap pair l.1)) = true) as ->.
  { apply forallb_forall. intros [i topic] [_ Hi]%list_elem_of_In%list_elem_of_filter.
    apply list_elem_of_lookup in Hi as [k Hk]. rewrite list_lookup_imap in Hk.
    apply fmap_Some in Hk as (t & Ht & [= -> ->]). by rewrite bool_decide_eq_true_2. }
  simpl. rewrite bool_decide_eq_true_2 by done. by rewrite andb_false_r.
Qed.

Lemma insert_fresh_count log m :
  satisfies_checks m log = true → lc_map m = ∅ →
  LogCountMap_count (LogCountMap_insert log m).2 log = 1 ∧
  LogCountMap_count (LogCountMap_insert log m).2 (expected_log m) = 1.
Proof.
  intros Hs Hm. unfold LogCountMap_insert. rewrite Hm, lookup_empty, Hs. simpl.
  unfold LogCountMap_count. unfold satisfies_checks in *. simpl. rewrite Hs, checks_refl.
  unfold count_unchecked. simpl. by rewrite insert_empty, map_fold_singleton.
Qed.

Lemma insert_fresh_checks log m :
  satisfies_checks (LogCountMap_insert log m).2 = satisfies_checks m.
Proof.
  unfold LogCountMap_insert. destruct (lc_map m !! log); [done|]. by destruct (satisfies_checks m log).
Qed.

(** What a log does to the expectation it is checked against. *)
Lemma count_and_find p em log :
  waits p em →
  ∃ m, count_log em.1 log em.2 = Some m ∧
    let e := emit_found em.1 (pat_log p) m log in
    if decide (pat_matches p log) then matched (e, m) else waits p (e, m).
Proof.
  intros [Hl Hc Ha Hf Hn Hu]. destruct em as [e cm]. simpl in *.
  unfold count_log, LogCountMap_new. rewrite Hl. simpl.
  set (lm := {| lc_checks := emit_checks e; expected_log := pat_log p; lc_map := ∅ |}).
  assert (Hsat : satisfies_checks lm (log_data log) =
      checks_topics_and_data (pat_checks p) (pat_log p) (log_data log)).
  { unfold satisfies_checks. simpl. by rewrite Hc. }
  assert (Hfresh : satisfies_checks lm (log_data log) = true →
    LogCountMap_count (LogCountMap_insert (log_data log) lm).2 (log_data log) = 1 ∧
    LogCountMap_count (LogCountMap_insert (log_data log) lm).2 (pat_log p) = 1).
  { intros ?. by apply (insert_fresh_count _ lm). }
  unfold emit_found. rewrite Hc, Ha.
  destruct (checks_topics_and_data (pat_checks p) (pat_log p) (log_data log)) eqn:Ht; simpl.
  - rewrite Hsat.
    destruct (pat_address p) as [a|] eqn:Hpa.
    + destruct (decide (a = log_address log)) as [->|Hne].
      * rewrite Hu. eexists. split; [done|].
        rewrite decide_True by (unfold pat_matches; rewrite Hpa; done).
        rewrite lookup_insert_eq, bool_decide_eq_true_2 by done.
        rewrite (proj1 (Hfresh ltac:(done))), Hn. simpl. constructor; simpl; [done|done|by rewrite Hl|].
        unfold emit_seen. simpl. rewrite Ha, Hl, lookup_insert_eq. by apply Hfresh.
      * assert (Hnm : ¬ pat_matches p log) by (unfold pat_matches; rewrite Hpa; naive_solver).
        destruct (cm !! log_address log) as [lm'|]; (eexists; split; [done|]);
          rewrite decide_False by done; rewrite bool_decide_eq_false_2 by done;
          constructor; simpl; rewrite ?Hpa; try done; by rewrite lookup_insert_ne.
    + rewrite Hu, lookup_empty. eexists. split; [done|].
      rewrite decide_True by (unfold pat_matches; rewrite Hpa; done).
      rewrite insert_empty, map_values_singleton. cbn [list_find].
      rewrite insert_fresh_checks, decide_True by by rewrite Hsat.
      simpl. rewrite (proj1 (Hfresh ltac:(done))), Hn. simpl. constructor; simpl; [done|done|by rewrite Hl|].
      unfold emit_seen. simpl. rewrite Ha, Hl, map_values_singleton. simpl.
      rewrite (proj2 (Hfresh ltac:(done))). done.
  - assert (Hnm : ¬ pat_matches p log) by (unfold pat_matches; rewrite Ht; naive_solver).
    rewrite Hsat. destruct (cm !! log_address log) as [lm'|] eqn:Hcm; (eexists; split; [done|]);
      rewrite decide_False by done; constructor; simpl; try done.
    destruct (pat_address p) as [a|]; [|by rewrite Hu, lookup_empty in Hcm].
    rewrite lookup_insert_ne; [done|]. intros <-. congruence.
Qed.

Definition at_depth (depth : nat) (e : ExpectedEmit * gmap Address LogCountMap) : Prop :=
  emit_depth e.1 = depth.

(** The queue: what is still waited for, in order, then what was matched. *)
Record queue (d : nat) (ps : list pattern) (emits : ExpectedEmitTracker) : Prop := {
  q_split : ∃ todo done, emits = todo ++ done ∧ Forall2 waits ps todo ∧ Forall matched done;
  q_depth : Forall (at_depth d) emits;
}.

Lemma find_found todo done ps :
  Forall2 waits ps todo → Forall matched done →
  match list_find (λ e : ExpectedEmit * gmap Address LogCountMap, found e.1 = true) (todo ++ done) with
  | Some (pos, _) => pos
  | None => length (todo ++ done)
  end = length todo.
Proof.
  intros Ht Hd.
  assert (Hnone : list_find (λ e : ExpectedEmit * gmap Address LogCountMap, found e.1 = true) todo
                  = None).
  { apply list_find_None, Forall_forall. intros e He.
    apply (Forall2_Forall_r _ (λ e, found e.1 ≠ true)) with (k := todo) in Ht.
    - by rewrite Forall_forall in Ht; apply Ht.
    - apply Forall_true. intros p e' [_ _ _ Hf _ _]. by rewrite Hf. }
  rewrite list_find_app_r by done. destruct Hd as [|d done Hd ?]; simpl.
  - by rewrite app_nil_r.
  - rewrite decide_True by apply Hd. simpl. lia.
Qed.

Lemma waits_forall (Q : ExpectedEmit * gmap Address LogCountMap → Prop) ps todo :
  (∀ p e, waits p e → Q e) → Forall2 waits ps todo → Forall Q todo.
Proof. intros HQ Ht. eapply Forall2_Forall_r; [exact Ht|]. apply Forall_true. naive_solver. Qed.

(** One log against the queue. *)
Lemma queue_log d ps emits log interpreter :
  queue d ps emits →
  ∃ emits', handle_expect_emit emits log interpreter = Some (NoFailure, emits') ∧
    queue d (greedy ps [log]) emits'.
Proof.
  intros [(todo & done & -> & Ht & Hd) Hdep].
  unfold handle_expect_emit. rewrite !forallb_app.
  assert (Hdf : forallb (λ '((expected, _) : ExpectedEmit * gmap Address LogCountMap),
    found expected) done = true).
  { apply forallb_forall. intros [e m] He%list_elem_of_In. rewrite Forall_forall in Hd.
    apply (Hd _ He). }
  rewrite Hdf. destruct Ht as [|p e ps todo He Ht].
  { eexists. split; [done|]. constructor; [by exists [], done|done]. }
  assert (Hlen := find_found (e :: todo) done (p :: ps) ltac:(by constructor) Hd).
  destruct (count_and_find p e log He) as (m & Hcount & Hfound).
  destruct e as [e cm]. pose proof He as [Hl Hc Ha Hf Hn Hu]. simpl in Hl, Hc, Ha, Hf, Hn, Hu, Hcount, Hfound.
  assert (Hall : Forall (λ e : ExpectedEmit * gmap Address LogCountMap,
      emit_count e.1 = 1 ∧ emit_log e.1 ≠ None) (((e, cm) :: todo) ++ done)).
  { apply Forall_app. split.
    - apply (waits_forall _ (p :: ps)); [|by constructor]. intros p' e' [Hl' _ _ _ Hn' _].
      by rewrite Hl'.
    - eapply Forall_impl; [exact Hd|]. by intros e' [_ ? ? _]. }
  cbn [forallb]. rewrite Hf. cbn [andb].
  assert (existsb (λ '(expected, _), forbidden log expected) (((e, cm) :: todo) ++ done) = false) as ->.
  { apply not_true_iff_false. intros ([e' m'] & He'%list_elem_of_In & Hfb)%existsb_exists.
    rewrite Forall_forall in Hall. destruct (Hall _ He') as [Hn' _]. simpl in Hn'.
    unfold forbidden in Hfb. by rewrite Hn' in Hfb. }
  assert (existsb (λ '(expected, _), bool_decide (emit_log expected = None))
    (((e, cm) :: todo) ++ done) = false) as ->.
  { apply not_true_iff_false. intros ([e' m'] & He'%list_elem_of_In & Hfb)%existsb_exists.
    rewrite Forall_forall in Hall. destruct (Hall _ He') as [_ Hl']. simpl in Hl'.
    by rewrite bool_decide_eq_true in Hfb. }
  cbn [app forallb negb andb list_find]. rewrite ?Hf, ?Hn. cbn [orb andb].
  rewrite decide_True by (simpl; split; [done|lia]).
  assert (Hdep' : at_depth d (emit_found e (pat_log p) m log, m)).
  { assert (He' : emit_depth e = d) by by inversion Hdep.
    unfold at_depth, emit_found. simpl. repeat (case_match || destruct (negb _)); done. }
  cbn [lookup list_lookup mbind option_bind delete list_delete]. rewrite Hl.
  cbn [Z.eqb]. rewrite Hcount. cbn [mbind option_bind].
  eexists. split; [done|]. cbn [greedy]. case_decide as Hm.
  - destruct Hfound as [Hf' Hn' Hl' Hs'].
    simpl in Hf'. rewrite Hf'. constructor.
    + exists todo, (done ++ [(emit_found e (pat_log p) m log, m)]).
      rewrite app_assoc. split; [done|]. destruct ps; (split; [done|]);
      apply Forall_app; (split; [done|]); apply Forall_singleton; by constructor.
    + apply Forall_app. split; [by inversion Hdep|]. by constructor.
  - pose proof (w_found _ _ Hfound) as Hf'. simpl in Hf'. rewrite Hf'. constructor.
    + eexists (_ :: todo), done. split; [done|]. split; [|done]. by constructor.
    + inversion Hdep. by constructor.
Qed.

(** Every log of a list, one after the other; a failure ends the call. *)
Fixpoint logs_seen (logs : list Log) (emits : ExpectedEmitTracker) : option ExpectedEmitTracker :=
  match logs with
  | [] => Some emits
  | log :: logs =>
      match handle_expect_emit emits log true with
      | Some (NoFailure, emits) => logs_seen logs emits
      | _ => None
      end
  end.

Lemma greedy_cons ps log logs : greedy ps (log :: logs) = greedy (greedy ps [log]) logs.
Proof.
  destruct ps as [|p ps]; simpl; [by rewrite greedy_nil|]. case_decide; simpl; [|done].
  by destruct ps.
Qed.

Lemma queue_logs d ps emits logs :
  queue d ps emits →
  ∃ emits', logs_seen logs emits = Some emits' ∧ queue d (greedy ps logs) emits'.
Proof.
  revert ps emits. induction logs as [|log logs IH]; intros ps emits Hq.
  { exists emits. split; [done|]. by destruct ps. }
  destruct (queue_log d ps emits log true Hq) as (emits' & Hs & Hq'). cbn [logs_seen]. rewrite Hs.
  rewrite greedy_cons. by apply IH.
Qed.

(** The pattern of an [expectEmit] without a count, and of the log emitted
    after it as a template. *)
Definition emit_pattern (c : ExpectEmitCall) (template : Log) : option pattern :=
  let all := [true; true; true; true; true] in
  match c with
  | expectEmit_0 t1 t2 t3 d => Some (mkPattern [true; t1; t2; t3; d] (log_data template) None)
  | expectEmit_1 t1 t2 t3 d emitter =>
      Some (mkPattern [true; t1; t2; t3; d] (log_data template) (Some emitter))
  | expectEmit_2 => Some (mkPattern all (log_data template) None)
  | expectEmit_3 emitter => Some (mkPattern all (log_data template) (Some emitter))
  | _ => None
  end.

(** [vm.expectEmit(..); emit Template(..);], several times. *)
Fixpoint declare_all (depth : nat) (ds : list (ExpectEmitCall * Log)) (s : Cheatcodes)
    : option Cheatcodes :=
  match ds with
  | [] => Some s
  | (c, template) :: ds =>
      match apply_expect_emit depth c s with
      | Ok s =>
          match handle_expect_emit (expected_emits s) template true with
          | Some (NoFailure, emits) => declare_all depth ds (with_emits emits s)
          | _ => None
          end
      | Err _ => None
      end
  end.

Lemma declare_step depth c template p ps s :
  emit_pattern c template = Some p → (log_data template).1 ≠ [] →
  Forall2 waits ps (expected_emits s) →
  ∃ s1 e, apply_expect_emit depth c s = Ok s1 ∧
    handle_expect_emit (expected_emits s1) template true = Some (NoFailure, expected_emits s ++ [e]) ∧
    waits p e ∧ at_depth depth e.
Proof.
  intros Hp Htop Hw.
  assert (Happ : apply_expect_emit depth c s =
      expect_emit s depth (pat_checks p) (pat_address p) false 1 ∧ pat_log p = log_data template).
  { by destruct c; simplify_eq/=. }
  destruct Happ as [-> Hlog]. unfold expect_emit. cbv zeta.
  pose proof (find_found (expected_emits s) [] ps Hw ltac:(done)) as Hpos.
  rewrite app_nil_r in Hpos. rewrite Hpos, take_ge, drop_ge by done. eexists _, (_, ∅). split; [done|]. cbn [expected_emits with_emits].
  set (e := {| emit_depth := depth |}).
  unfold handle_expect_emit. rewrite forallb_app, andb_false_r.
  assert (existsb (λ '(expected, _), forbidden template expected) (expected_emits s ++ [(e, ∅)])
    = false) as ->.
  { rewrite existsb_app. apply orb_false_intro; [|done].
    apply not_true_iff_false. intros ([e' m'] & He'%list_elem_of_In & Hfb)%existsb_exists.
    eapply (waits_forall (λ e, emit_count e.1 = 1)) in Hw; [|by intros ?? []].
    rewrite Forall_forall in Hw. specialize (Hw _ He'). simpl in Hw.
    unfold forbidden in Hfb. by rewrite Hw in Hfb. }
  rewrite existsb_app. cbn [existsb]. rewrite bool_decide_eq_true_2 by done. rewrite orb_true_r.
  cbn [negb andb].
  assert (match list_find (λ e : ExpectedEmit * gmap Address LogCountMap, found e.1 = true)
      (expected_emits s ++ [(e, ∅)]) with
    | Some (pos, _) => pos | None => length (expected_emits s ++ [(e, ∅)]) end
    = S (length (expected_emits s))) as ->.
  { rewrite list_find_app_r.
    - simpl. rewrite length_app. simpl. lia.
    - apply list_find_None. eapply (waits_forall (λ e, found e.1 ≠ true)); [|exact Hw].
      intros p' e' [_ _ _ Hf _ _]. by rewrite Hf. }
  cbn [pred]. rewrite list_lookup_middle by done. cbn [mbind option_bind emit_log e].
  rewrite bool_decide_eq_false_2 by done. cbn [negb orb anonymous].
  rewrite delete_middle, app_nil_r, take_ge, drop_ge by done.
  split; [done|]. split; [|done].
  constructor; simpl; try done; [by rewrite Hlog|]. by destruct (pat_address p).
Qed.

Lemma declare_all_waits depth ds ps ps0 s :
  Forall2 (λ '(c, template) p, emit_pattern c template = Some p ∧ (log_data template).1 ≠ []) ds ps →
  Forall2 waits ps0 (expected_emits s) → Forall (at_depth depth) (expected_emits s) →
  ∃ s', declare_all depth ds s = Some s' ∧ Forall2 waits (ps0 ++ ps) (expected_emits s') ∧
    Forall (at_depth depth) (expected_emits s').
Proof.
  intros Hds. revert ps0 s. induction Hds as [|[c t] p ds ps [Hp Ht] Hds IH]; intros ps0 s Hw Hd.
  { exists s. rewrite app_nil_r. done. }
  destruct (declare_step depth c t p ps0 s Hp Ht Hw) as (s1 & e & Ha & Hh & He & Hde).
  cbn [declare_all]. rewrite Ha, Hh.
  destruct (IH (ps0 ++ [p]) (with_emits (expected_emits s ++ [e]) s1)) as (s' & Hs' & Hw' & Hd').
  - apply Forall2_app; [done|]. by constructor.
  - apply Forall_app. split; [done|]. by constructor.
  - exists s'. by rewrite <-app_assoc in Hw'.
Qed.

Lemma check_queue d ps emits :
  queue d ps emits → check_emits d false true emits = (None, []) ↔ ps = [].
Proof.
  intros [(todo & done & -> & Ht & Hd) Hdep]. unfold check_emits.
  destruct Ht as [|p e ps todo He Ht]; simpl.
  - cbn [app] in *. destruct Hd as [|e done He Hd]; [done|]. split; [done|intros _].
    assert (existsb (λ '(e, _), bool_decide (emit_depth e = d)) (e :: done) = true) as ->.
    { apply existsb_exists. exists e. split; [by left|]. destruct e.
      apply bool_decide_eq_true. by inversion Hdep. }
    assert (Hm : Forall matched (e :: done)) by by constructor.
    cbn [negb andb].
    assert (list_find (λ e : ExpectedEmit * gmap Address LogCountMap,
      found e.1 = false ∧ 0 < emit_count e.1) (e :: done) = None) as ->.
    { apply list_find_None. eapply Forall_impl; [exact Hm|].
      intros e' [Hf _ _ _] [Hf' _]. by rewrite Hf in Hf'. }
    rewrite filter_none; [done|].
    intros [e' n] Hx. apply list_elem_of_fmap in Hx as ([e'' m] & Hx & Hin). cbv beta iota in Hx. simplify_eq.
    rewrite Forall_forall in Hm.
    destruct (Hm _ Hin) as [_ Hn _ Hs]. simpl in Hn, Hs. rewrite Hn, Hs. by intros [].
  - split; [|done]. intros Hc. exfalso. destruct e as [e m].
    assert (He' : emit_depth e = d) by by inversion Hdep.
    destruct He as [_ _ _ Hf Hn _]. cbn [app existsb list_find] in Hc.
    rewrite bool_decide_eq_true_2 in Hc by done. cbn [orb negb andb] in Hc.
    rewrite decide_True in Hc by (split; [done|lia]). done.
Qed.

(** C40: a test declares emits, each with its template, and then makes a call:
    nothing panics, no log is rejected, and the check when the call returns
    accepts if and only if the logs of the call have a subsequence that
    matches the declared emits in the order of their declaration. *)
Theorem expect_emits_in_order d ds ps logs :
  Forall2 (λ '(c, template) p, emit_pattern c template = Some p ∧ (log_data template).1 ≠ []) ds ps →
  ∃ s emits, declare_all d ds no_cheats = Some s ∧ logs_seen logs (expected_emits s) = Some emits ∧
    (check_emits d false true emits = (None, []) ↔
     ∃ sub, sub `sublist_of` logs ∧ Forall2 pat_matches ps sub).
Proof.
  intros Hds. destruct (declare_all_waits d ds ps [] no_cheats Hds) as (s & Hs & Hw & Hd); [done..|].
  destruct (queue_logs d ps (expected_emits s) logs) as (emits & Hl & Hq).
  { constructor; [|done]. exists (expected_emits s), []. by rewrite app_nil_r. }
  exists s, emits. do 2 (split; [done|]). by rewrite (check_queue d _ _ Hq), greedy_complete.
Qed.
End hash_order.

Definition ex_log a x : Log := mkLog a ([x], [x]).

Lemma expect_emits_in_order_witness :
  ∃ s emits, @declare_all elements_iter 1
      [(expectEmit_3 7, ex_log 1 5); (expectEmit_0 false false false false, ex_log 1 6)] no_cheats
      = Some s ∧
    @logs_seen elements_iter [ex_log 7 5; ex_log 9 4; ex_log 9 6] (expected_emits s) = Some emits ∧
    (@check_emits elements_iter 1 false true emits = (None, []) ↔
     ∃ sub, sub `sublist_of` [ex_log 7 5; ex_log 9 4; ex_log 9 6] ∧
       Forall2 pat_matches
         [mkPattern [true; true; true; true; true] ([5], [5]) (Some 7);
          mkPattern [true; false; false; false; false] ([6], [6]) None] sub).
Proof. apply (@expect_emits_in_order elements_iter). repeat constructor; done. Defined.

(** An emit expected twice from any emitter is not found when two
    emitters emit it once each, although it was seen twice: the emits are
    counted per emitter while they are matched, and summed at the end. *)
Theorem expect_emit_counts_per_emitter :
  let s := default no_cheats (@declare_all elements_iter 1 [(expectEmit_6 2, ex_log 1 5)] no_cheats) in
  let after logs := default [] (@logs_seen elements_iter logs (expected_emits s)) in
  let two_emitters := after [ex_log 7 5; ex_log 9 5] in
  let one_emitter := after [ex_log 7 5; ex_log 7 5] in
  (λ '(e, m), (found e, @emit_seen elements_iter e m)) <$> two_emitters = [(false, 2)] ∧
  (@check_emits elements_iter 1 false true two_emitters).1 = Some (NotEmitted None) ∧
  (λ '(e, m), (found e, @emit_seen elements_iter e m)) <$> one_emitter = [(true, 2)] ∧
  (@check_emits elements_iter 1 false true one_emitter).1 = None.
Proof. vm_compute. done. Qed.
