(* ===== verification/PrankSpec.v ===== *)
(** * What pranks promise

    The hooks of [Cheatcodes] run over a tree of nested calls: which caller
    and [tx.origin] each call is seen with, and what is left of a prank
    afterwards. *)
From S2P Require Import Prelude Cheatcodes.
Local Open Scope Z_scope.

(** A call and the calls made while it runs. *)
Inductive call_tree := Node (call : PrankedCall) (subs : list call_tree).

Section call_tree_ind.
Variable P : call_tree → Prop.
Hypothesis Hnode : ∀ call subs, Forall P subs → P (Node call subs).
Fixpoint call_tree_ind' (t : call_tree) : P t :=
  match t with
  | Node call subs => Hnode call subs
      ((fix all ts : Forall P ts :=
          match ts with
          | [] => Forall_nil_2 P
          | t :: ts => Forall_cons_2 P t ts (call_tree_ind' t) (all ts)
          end) subs)
  end.
End call_tree_ind.

(** How a callee sees a call: depth, [msg.sender], callee and [tx.origin]. *)
Record seen := mkSeen {
  seen_depth : nat;
  seen_sender : Address;
  seen_target : Address;
  seen_origin : Address;
}.

Section trees.
Variable balance : Address → U256.

(** The hooks around a call and its nested calls. *)
Fixpoint run_call (depth : nat) (t : call_tree) (origin : Address) (m : gmap nat Prank)
    : list seen * Address * gmap nat Prank :=
  match t with
  | Node call subs =>
      let '(call, origin, m) := call_prank balance depth call origin m in
      let '(below, origin', m) :=
        (fix run_all ts o m :=
           match ts with
           | [] => ([], o, m)
           | t :: ts =>
               let '(l1, o, m) := run_call (S depth) t o m in
               let '(l2, o, m) := run_all ts o m in
               (l1 ++ l2, o, m)
           end) subs origin m in
      let '(after, m) := end_prank depth origin' m in
      (mkSeen depth (pc_caller call) (pc_target call) origin :: below, after, m)
  end.

Fixpoint run_calls (depth : nat) (ts : list call_tree) (o : Address) (m : gmap nat Prank)
    : list seen * Address * gmap nat Prank :=
  match ts with
  | [] => ([], o, m)
  | t :: ts =>
      let '(l1, o, m) := run_call depth t o m in
      let '(l2, o, m) := run_calls depth ts o m in
      (l1 ++ l2, o, m)
  end.

(** What is seen when no prank applies. *)
Fixpoint plain (depth : nat) (origin : Address) (t : call_tree) : list seen :=
  match t with
  | Node call subs =>
      mkSeen depth (pc_caller call) (pc_target call) origin ::
      flat_map (plain (S depth) origin) subs
  end.

Lemma run_call_node depth call subs origin m :
  run_call depth (Node call subs) origin m =
    let '(call, origin, m) := call_prank balance depth call origin m in
    let '(below, origin', m) := run_calls (S depth) subs origin m in
    let '(after, m) := end_prank depth origin' m in
    (mkSeen depth (pc_caller call) (pc_target call) origin :: below, after, m).
Proof.
  cbn [run_call]. destruct (call_prank balance depth call origin m) as [[call' o] m1].
  match goal with
  | |- (let '(_, _) := ?f subs o m1 in _) = _ =>
      assert (Hf : ∀ ts o m, f ts o m = run_calls (S depth) ts o m)
  end.
  { intros ts. induction ts as [|t ts IH]; intros o' m'; [done|]. cbn [run_calls].
    destruct (run_call (S depth) t o' m') as [[? ?] ?]. by rewrite IH. }
  by rewrite Hf.
Qed.

(** No prank at this depth or below. *)
Definition above_clear (d : nat) (m : gmap nat Prank) : Prop := ∀ k, (d ≤ k)%nat → m !! k = None.

Lemma get_prank_at d p m k :
  above_clear d m → (d ≤ k)%nat → get_prank (<[d := p]> m) k = Some p.
Proof.
  intros Hc. induction k as [|k IH]; intros Hk; simpl.
  - assert (d = 0%nat) as -> by lia. by rewrite lookup_insert_eq.
  - destruct (decide (d = S k)) as [->|]; [by rewrite lookup_insert_eq|].
    rewrite lookup_insert_ne by lia. rewrite Hc by lia. apply IH. lia.
Qed.

Section below.
(** A used prank, seen from the calls nested in the pranked one. *)
Context (d : nat) (p : Prank) (m : gmap nat Prank) (o : Address).
Hypothesis Hclear : above_clear d m.
Hypothesis Hdepth : prank_depth p = d.
Hypothesis Hused : used p = true.
Hypothesis Ho : match new_origin p with Some o' => o' = o | None => True end.

Lemma call_prank_below k call :
  (d < k)%nat → call_prank balance k call o (<[d := p]> m) = (call, o, <[d := p]> m).
Proof.
  intros Hk. unfold call_prank. rewrite get_prank_at by (done || lia).
  rewrite Hdepth, (bool_decide_eq_false_2 (k = d)) by lia. rewrite andb_false_r. cbn [andb].
  unfold apply_prank. rewrite Hdepth, (bool_decide_eq_false_2 (k = d)) by lia.
  unfold first_time_applied. rewrite Hused.
  destruct call as [c t del v]. cbn [pc_caller pc_target pc_delegate pc_value].
  destruct (_ && _); [|done]. destruct (new_origin p); [by subst|done].
Qed.

Lemma end_prank_below k o' :
  (d < k)%nat → end_prank k o' (<[d := p]> m) = (o', <[d := p]> m).
Proof.
  intros Hk. unfold end_prank. rewrite get_prank_at by (done || lia).
  by rewrite Hdepth, bool_decide_eq_false_2 by lia.
Qed.

Lemma run_call_below t k :
  (d < k)%nat → run_call k t o (<[d := p]> m) = (plain k o t, o, <[d := p]> m).
Proof.
  revert k. induction t as [call subs IH] using call_tree_ind'. intros k Hk.
  rewrite run_call_node, call_prank_below by done.
  assert (Hsubs : run_calls (S k) subs o (<[d := p]> m) =
    (flat_map (plain (S k) o) subs, o, <[d := p]> m)).
  { induction IH as [|t ts Ht _ IHts]; [done|]. cbn [run_calls]. rewrite Ht by lia. by rewrite IHts. }
  by rewrite Hsubs, end_prank_below.
Qed.

Lemma run_calls_below ts k :
  (d < k)%nat → run_calls k ts o (<[d := p]> m) = (flat_map (plain k o) ts, o, <[d := p]> m).
Proof.
  intros Hk. induction ts as [|t ts IH]; [done|]. cbn [run_calls].
  by rewrite run_call_below, IH by done.
Qed.
End below.

Definition as_sender (a : Address) (t : call_tree) : call_tree :=
  match t with
  | Node call subs =>
      Node {| pc_caller := a; pc_target := pc_target call; pc_delegate := pc_delegate call;
              pc_value := pc_value call |} subs
  end.

Definition sender (t : call_tree) : Address :=
  match t with Node call _ => pc_caller call end.

Definition mark_used (p : Prank) : Prank := default p (first_time_applied p).

Lemma mark_used_eq p :
  mark_used p = mkPrank (prank_caller p) (prank_origin p) (new_caller p) (new_origin p)
    (prank_depth p) (single_call p) (delegate_call p) true.
Proof. unfold mark_used, first_time_applied. destruct p as [? ? ? ? ? ? ? []]; done. Qed.

(** A call of the pranking contract at the depth of the prank. *)
Lemma run_call_pranked d p m t o :
  above_clear d m → prank_depth p = d → delegate_call p = false → sender t = prank_caller p →
  let o' := default o (new_origin p) in
  run_call d t o (<[d := p]> m) =
    (plain d o' (as_sender (new_caller p) t), prank_origin p,
     if single_call p then m else <[d := mark_used p]> m).
Proof.
  intros Hclear Hd Hdel Hs o'. destruct t as [call subs]. simpl in Hs.
  rewrite run_call_node. unfold call_prank. rewrite get_prank_at by done.
  rewrite Hdel. cbn [andb]. unfold apply_prank.
  rewrite Hd, (bool_decide_eq_true_2 (d ≤ d)%nat), (bool_decide_eq_true_2 (pc_caller call = _)) by done.
  cbn [andb]. rewrite bool_decide_eq_true_2 by done.
  assert (Hm : (match first_time_applied p with
     | Some p' => <[d := p']> (<[d := p]> m) | None => <[d := p]> m end) = <[d := mark_used p]> m).
  { unfold mark_used. destruct (first_time_applied p); simpl; [by rewrite insert_insert_eq|done]. }
  assert (Hend : end_prank d o' (<[d := mark_used p]> m) =
    (prank_origin p, if single_call p then m else <[d := mark_used p]> m)).
  { unfold end_prank. rewrite get_prank_at, mark_used_eq by done. cbn [prank_depth prank_origin single_call].
    rewrite Hd, bool_decide_eq_true_2 by done. destruct (single_call p); [|done].
    rewrite delete_insert_id; [done|]. by apply Hclear. }
  assert (Hsub : run_calls (S d) subs o' (<[d := mark_used p]> m) =
    (flat_map (plain (S d) o') subs, o', <[d := mark_used p]> m)).
  { apply run_calls_below; [done|by rewrite mark_used_eq|by rewrite mark_used_eq| |lia].
    rewrite mark_used_eq. simpl. unfold o'. by destruct (new_origin p). }
  unfold o' in *. destruct (new_origin p) as [no|]; cbn [default from_option id] in *; cbv zeta;
    rewrite Hm, Hsub, Hend; done.
Qed.

Variable journaled_account : Address → result string bool.

Lemma prank_ok ccx s a origin single s' :
  prank journaled_account ccx s a origin single false = Ok s' →
  pranks s' = <[depth ccx := Prank_new (cc_caller ccx) (tx_caller ccx) a origin (depth ccx)
                 single false]> (pranks s).
Proof.
  unfold prank. intros Hp.
  destruct (journaled_account a); simpl in Hp; [|done].
  destruct (match get_prank _ _ with Some _ => _ | None => _ end); simpl in Hp; [|done].
  destruct (broadcasting s); [done|]. by injection Hp as <-.
Qed.

(** A single-call prank changes the sender of the next call of its
    contract, and the [tx.origin] of that call and of all calls nested in it;
    nested calls keep their own senders, and afterwards the origin and the
    pranks are what they were before the prank. *)
Theorem prank_covers_one_call ccx s a origin s' t :
  above_clear (depth ccx) (pranks s) →
  prank journaled_account ccx s a origin true false = Ok s' →
  sender t = cc_caller ccx →
  run_call (depth ccx) t (tx_caller ccx) (pranks s') =
    (plain (depth ccx) (default (tx_caller ccx) origin) (as_sender a t), tx_caller ccx, pranks s).
Proof.
  intros Hclear Hp Hs. rewrite (prank_ok _ _ _ _ _ _ Hp). by rewrite run_call_pranked.
Qed.

(** A started prank changes the sender of every call of its contract at
    that depth until it is stopped, which brings back the pranks of before. *)
Theorem start_prank_until_stop ccx s a origin s' ts :
  above_clear (depth ccx) (pranks s) →
  prank journaled_account ccx s a origin false false = Ok s' →
  Forall (λ t, sender t = cc_caller ccx) ts →
  ∃ m, run_calls (depth ccx) ts (tx_caller ccx) (pranks s') =
    (flat_map (λ t, plain (depth ccx) (default (tx_caller ccx) origin) (as_sender a t)) ts,
     tx_caller ccx, m) ∧
  pranks <$> apply_prank_call journaled_account ccx stopPrank (with_pranks m s') = Ok (pranks s).
Proof.
  intros Hclear Hp Hts. rewrite (prank_ok _ _ _ _ _ _ Hp).
  set (p := Prank_new _ _ _ _ _ _ _).
  assert (Hgen : ∀ p', p' = p ∨ p' = mark_used p → ∃ m,
    run_calls (depth ccx) ts (tx_caller ccx) (<[depth ccx := p']> (pranks s)) =
      (flat_map (λ t, plain (depth ccx) (default (tx_caller ccx) origin) (as_sender a t)) ts,
       tx_caller ccx, m) ∧ delete (depth ccx) m = pranks s).
  { induction Hts as [|t ts Ht Hts IH]; intros p' Hp'.
    - eexists. split; [done|]. rewrite delete_insert_id; [done|]. by apply Hclear.
    - destruct (IH (mark_used p)) as (m & Hm & Hdel); [by right|].
      exists m. split; [|done]. cbn [run_calls flat_map].
      rewrite run_call_pranked; [|done|destruct Hp' as [->| ->]; by rewrite ?mark_used_eq..].
      assert (mark_used p' = mark_used p) as Hmu by (destruct Hp' as [->| ->]; by rewrite ?mark_used_eq).
      rewrite Hmu. destruct Hp' as [->| ->]; rewrite ?mark_used_eq; cbn [single_call];
        rewrite ?mark_used_eq in Hm; simpl in *; by rewrite Hm. }
  destruct (Hgen p) as (m & Hm & Hdel); [by left|]. exists m. split; [done|].
  simpl. by rewrite Hdel.
Qed.
End trees.

(** ** Examples *)
Module PrankExamples.

Definition no_cheats : Cheatcodes :=
  {| pranks := ∅; broadcasting := false; expected_revert := None; expected_calls := ∅;
     expected_emits := []; expected_creates := []; allowed_mem_writes := ∅ |}.
(** Every account has code and no balance. *)
Definition has_code (_ : Address) : result string bool := Ok true.
Definition no_balance (_ : Address) : U256 := 0.
Definition plain_call (caller target : Address) : PrankedCall := mkPrankedCall caller target false None.

(** The test contract 1, run by 100 at depth 1. *)
Definition test_ctx : Ctx := {| cc_caller := 1; tx_caller := 100; depth := 1 |}.
Definition call_2_3 : call_tree := Node (plain_call 1 2) [Node (plain_call 2 3) []].
Definition pranked (single : bool) : Cheatcodes :=
  match prank has_code test_ctx no_cheats 50 (Some 60) single false with
  | Ok s => s
  | Err _ => no_cheats
  end.

Lemma prank_covers_one_call_witness :
  run_call no_balance 1 call_2_3 100 (pranks (pranked true)) =
    ([mkSeen 1 50 2 60; mkSeen 2 2 3 60], 100, ∅).
Proof.
  apply (prank_covers_one_call no_balance has_code test_ctx no_cheats 50 (Some 60)).
  - intros k _. apply lookup_empty.
  - reflexivity.
  - reflexivity.
Defined.

Lemma start_prank_until_stop_witness :
  ∃ m, run_calls no_balance 1 [call_2_3; call_2_3] 100 (pranks (pranked false)) =
    ([mkSeen 1 50 2 60; mkSeen 2 2 3 60; mkSeen 1 50 2 60; mkSeen 2 2 3 60], 100, m) ∧
  pranks <$> apply_prank_call has_code test_ctx stopPrank (with_pranks m (pranked false)) = Ok ∅.
Proof.
  apply (start_prank_until_stop no_balance has_code test_ctx no_cheats 50 (Some 60)
           (pranked false) [call_2_3; call_2_3]).
  - intros k _. apply lookup_empty.
  - reflexivity.
  - repeat constructor.
Defined.

(** A single-call prank with an origin does not end with the next call
    when that is a delegatecall whose code calls on: the prank is recorded
    again at the deeper depth, where nothing removes it, and it changes the
    [tx.origin] of later calls, for good. *)
Theorem prank_survives_delegatecall :
  let lib := mkPrankedCall 100 1 true None in
  let delegated := Node lib [Node (plain_call 1 3) []] in
  match run_call no_balance 1 delegated 100 (pranks (pranked true)) with
  | (_, origin, m) =>
      origin = 100 ∧ m !! 1%nat = None ∧ is_Some (m !! 2%nat) ∧
      (run_call no_balance 1 delegated origin m).1 =
        ([mkSeen 1 100 1 100; mkSeen 2 1 3 60], 60)
  end.
Proof. vm_compute. repeat split. by eexists. Qed.

(** A prank used up by a [create] ends every other prank too: when the
    call pranked at a shallower depth then returns, its prank is gone and the
    [tx.origin] it had set stays.  Used up by a call, the outer prank is left
    and the origin comes back. *)
Theorem create_ends_all_pranks :
  let '(call, origin, m) := call_prank no_balance 1 (plain_call 1 2) 100 (pranks (pranked true)) in
  let deeper := {| cc_caller := 2; tx_caller := origin; depth := 2 |} in
  match prank has_code deeper (with_pranks m no_cheats) 70 None true false with
  | Ok s =>
      let '(caller, origin, m) := create_prank 2 2 origin (pranks s) in
      let '(origin_create, m_create) := end_create_prank 2 origin m in
      let '(origin_call, m_call) := end_prank 2 origin m in
      caller = 70 ∧ m_create = ∅ ∧
      (end_prank 1 origin_create m_create).1 = 60 ∧
      end_prank 1 origin_call m_call = (100, ∅)
  | Err _ => False
  end.
Proof. vm_compute. done. Qed.
End PrankExamples.
