(* ===== verification/RevertHandlers.v ===== *)
(** * Expected and assumed reverts

    Models [crates/cheatcodes/src/test/revert_handlers.rs], [test/assume.rs],
    and what the hooks of [inspector.rs] do with [expected_revert] and
    [assume_no_revert] when a call or a create ends.  ABI and hex codecs, the
    revert decoder built from known contracts and the ABI encoding of errors
    are arguments.  An [InstructionResult] is kept by the class revm gives it:
    [return_ok!], [is_revert()] or neither (a halt such as running out of
    gas). *)
From S2P Require Import Prelude Text Cheatcodes.
Local Open Scope Z_scope.

Inductive InstructionResult := Stop | Return | Revert | OtherRevert | Halt.

(** [return_ok!] *)
Definition return_ok (r : InstructionResult) : bool :=
  match r with Stop | Return => true | _ => false end.
Definition is_revert (r : InstructionResult) : bool :=
  match r with Revert | OtherRevert => true | _ => false end.

Record AcceptableRevertParameters := mkAcceptable {
  acc_reason : Bytes;
  acc_partial_match : bool;
  acc_reverter : option Address;
}.

Record AssumeNoRevert := mkAssumeNoRevert {
  assume_depth : nat;
  reasons : list AcceptableRevertParameters;
  assume_reverted_by : option Address;
}.

Class RevertParameters (A : Type) := {
  expected_reverter : A → option Address;
  expected_reason : A → option Bytes;
  is_partial_match : A → bool;
}.

#[export] Instance acceptable_parameters : RevertParameters AcceptableRevertParameters := {
  expected_reverter := acc_reverter;
  expected_reason p := Some (acc_reason p);
  is_partial_match := acc_partial_match;
}.

#[export] Instance expected_parameters : RevertParameters ExpectedRevert := {
  expected_reverter := reverter;
  expected_reason := reason;
  is_partial_match := partial_match;
}.

(** An error, by what its message says. *)
Inductive revert_error :=
| Reverter (actual expected : Address)
| WithoutData
| Mismatch (actual expected : str)
| LowerDepth
| ExpectedNotToRevert
| ZeroReverts (reason : option str) (from : option Address)
| RevertedWith (actual : str) (by_from : option (Address * option str * Address))
| DidNotRevert
| Raw (data : Bytes).                       (* the revert data itself *)

(** [memchr::memmem::find(haystack, needle).is_some()] *)
Fixpoint memmem (haystack needle : Bytes) : bool :=
  bool_decide (needle `prefix_of` haystack) ||
  match haystack with [] => false | _ :: haystack => memmem haystack needle end.

Definition is_ascii (data : Bytes) : bool := forallb (λ b, b <? 128) data.

(** [data.get(..4)] *)
Definition get4 (data : Bytes) : option Bytes :=
  if bool_decide (4 ≤ length data)%nat then Some (take 4 data) else None.

Definition DUMMY_CALL_OUTPUT : Bytes := replicate (Z.to_nat 8192) 0.
Definition DUMMY_CREATE_ADDRESS : Address := 1.

Section handlers.
(** The codecs: [String::abi_decode], [hex::encode_prefixed], the selectors of
    [CheatcodeError] and [Revert], [Vec::<u8>::abi_decode], the decoding of
    [Error(string)], [String::from_utf8_lossy] and the [RevertDecoder] of the
    known contracts, when there are some. *)
Variable abi_decode_string : Bytes → option str.
Variable hex_encode_prefixed : Bytes → str.
Variable error_selectors : list Bytes.
Variable abi_decode_bytes : Bytes → option Bytes.
Variable decode_error_string : Bytes → option str.
Variable from_utf8_lossy : Bytes → str.
Variable known_decoder : option (Bytes → InstructionResult → str).

Definition stringify (data : Bytes) : str :=
  match abi_decode_string data with
  | Some s => s
  | None => if is_ascii data then data else hex_encode_prefixed data
  end.

Definition decode_revert (revert : Bytes) : Bytes :=
  match get4 revert with
  | Some selector =>
      if bool_decide (selector ∈ error_selectors) then default revert (abi_decode_bytes (drop 4 revert))
      else revert
  | None => revert
  end.

Definition handle_revert `{RevertParameters A} (is_cheatcode : bool) (revert_params : A)
    (status : InstructionResult) (retdata : Bytes) (reverter : option Address)
    : result revert_error unit :=
  let check :=
    match expected_reverter revert_params, reverter with
    | Some e, Some a => if bool_decide (e = a) then Ok tt else Err (Reverter a e)
    | _, _ => Ok tt
    end in
  _ ← check;
  match expected_reason revert_params with
  | None => Ok tt
  | Some reason =>
      if negb (bool_decide (reason = [])) && bool_decide (retdata = []) then Err WithoutData
      else if is_partial_match revert_params && bool_decide (get4 retdata = get4 reason) then Ok tt
      else
        let actual_revert := decode_revert retdata in
        if bool_decide (actual_revert = reason) || (is_cheatcode && memmem actual_revert reason) then
          Ok tt
        else if bool_decide (decode_error_string reason = Some (from_utf8_lossy actual_revert)) then
          Ok tt
        else
          let '(actual, expected) :=
            match known_decoder with
            | Some decode => (decode actual_revert status, decode reason status)
            | None => (stringify actual_revert, stringify reason)
            end in
          if bool_decide (expected = actual) then Ok tt else Err (Mismatch actual expected)
  end.

Definition handle_assume_no_revert (a : AssumeNoRevert) (status : InstructionResult)
    (retdata : Bytes) : result revert_error unit :=
  match reasons a with
  | [] => Ok tt
  | reasons =>
      if existsb (λ r, is_ok (handle_revert false r status retdata (assume_reverted_by a))) reasons
      then Ok tt
      else Err (Raw retdata)
  end.

Definition success_return (is_create : bool) : option Address * Bytes :=
  if is_create then (Some DUMMY_CREATE_ADDRESS, []) else (None, DUMMY_CALL_OUTPUT).

(** The branch for [count = 0] with a reason or a reverter, after a revert. *)
Definition zero_count_error (e : ExpectedRevert) (retdata : Bytes) : revert_error :=
  let reverter_match :=
    match reverter e with
    | Some r => Some (bool_decide (reverted_by e = Some r))
    | None => None
    end in
  let reason_match :=
    match reason e with
    | Some r => Some (bool_decide (decode_revert retdata = r))
    | None => None
    end in
  match reason_match, reverter_match with
  | Some true, Some true | Some true, None | None, Some true =>
      ZeroReverts (stringify <$> reason e) (reverter e)
  | _, _ =>
      RevertedWith (stringify (decode_revert retdata))
        (match reverter e with
         | Some r => Some (default 0 (reverted_by e), stringify <$> reason e, r)
         | None => None
         end)
  end.

Definition handle_expect_revert (is_cheatcode is_create internal_expect_revert : bool)
    (e : ExpectedRevert) (status : InstructionResult) (retdata : Bytes)
    : result revert_error (option Address * Bytes) :=
  if negb is_cheatcode && negb internal_expect_revert &&
     negb (bool_decide (revert_depth e < max_depth e)%nat) then Err LowerDepth
  else if revert_count e =? 0 then
    if bool_decide (reverter e = None) && bool_decide (reason e = None) then
      if return_ok status then Ok (success_return is_create) else Err ExpectedNotToRevert
    else if negb (return_ok status) then Err (zero_count_error e retdata)
    else Ok (success_return is_create)
  else if return_ok status then Err DidNotRevert
  else
    _ ← handle_revert is_cheatcode e status retdata (reverted_by e);
    Ok (success_return is_create).

(** ** The cheatcodes of [assume.rs] *)

(** Of the inspector: what is expected and assumed. *)
Record RevertState := mkRevertState {
  rs_expected : option ExpectedRevert;
  rs_assume : option AssumeNoRevert;
}.

Record PotentialRevert := mkPotentialRevert {
  pr_reverter : Address;
  partialMatch : bool;
  revertData : Bytes;
}.

Definition Acceptable_from (p : PotentialRevert) : AcceptableRevertParameters :=
  mkAcceptable (revertData p) (partialMatch p)
    (if pr_reverter p =? 0 then None else Some (pr_reverter p)).

Definition assume_no_revert (s : RevertState) (depth : nat)
    (parameters : list AcceptableRevertParameters) : result string RevertState :=
  match rs_assume s with
  | Some _ =>
      Err "you must make another external call prior to calling assumeNoRevert again"%string
  | None => Ok (mkRevertState (rs_expected s) (Some (mkAssumeNoRevert depth parameters None)))
  end.

Inductive AssumeCall :=
| assume (condition : bool)
| assumeNoRevert_0
| assumeNoRevert_1 (potentialRevert : PotentialRevert)
| assumeNoRevert_2 (potentialReverts : list PotentialRevert).

Definition MAGIC_ASSUME : string := "FOUNDRY::ASSUME".

Definition apply_assume (depth : nat) (c : AssumeCall) (s : RevertState)
    : result string RevertState :=
  match c with
  | assume condition => if condition then Ok s else Err MAGIC_ASSUME
  | assumeNoRevert_0 => assume_no_revert s depth []
  | assumeNoRevert_1 p => assume_no_revert s depth [Acceptable_from p]
  | assumeNoRevert_2 ps => assume_no_revert s depth (Acceptable_from <$> ps)
  end.

(** ** The hooks *)

Record Outcome := mkOutcome {
  out_result : InstructionResult;
  output : Bytes;
  out_address : option Address;          (* of a create *)
}.

(** [error.abi_encode()], and that of [Error::from(MAGIC_ASSUME)]. *)
Variable abi_encode : revert_error → Bytes.
Variable magic_assume_encoded : Bytes.

Definition set_reverted_by r (e : ExpectedRevert) := mkExpectedRevert (reason e) (revert_depth e)
  (revert_kind e) (partial_match e) (reverter e) r (max_depth e) (revert_count e) (actual_count e).
Definition set_kind k (e : ExpectedRevert) := mkExpectedRevert (reason e) (revert_depth e)
  k (partial_match e) (reverter e) (reverted_by e) (max_depth e) (revert_count e) (actual_count e).
Definition set_max_depth n (e : ExpectedRevert) := mkExpectedRevert (reason e) (revert_depth e)
  (revert_kind e) (partial_match e) (reverter e) (reverted_by e) n (revert_count e) (actual_count e).
Definition set_actual_count n (e : ExpectedRevert) := mkExpectedRevert (reason e) (revert_depth e)
  (revert_kind e) (partial_match e) (reverter e) (reverted_by e) (max_depth e) (revert_count e) n.

(** In the [call] hook: the callee executes one deeper. *)
Definition call_depth (curr_depth : nat) (s : RevertState) : RevertState :=
  mkRevertState ((λ e, set_max_depth (Nat.max (S curr_depth) (max_depth e)) e) <$> rs_expected s)
    (rs_assume s).

(** In [initialize_interp]. *)
Definition interp_depth (depth : nat) (s : RevertState) : RevertState :=
  mkRevertState ((λ e, set_max_depth (Nat.max depth (max_depth e)) e) <$> rs_expected s)
    (rs_assume s).

(** The expectation after an expected revert was seen, if more are. *)
Definition count_revert (e : ExpectedRevert) : option ExpectedRevert :=
  let e := set_actual_count (actual_count e + 1) e in
  if actual_count e <? revert_count e then Some e else None.

(** "Handle assume no revert cheatcode", in [call_end]; the flag tells whether
    the hook returns here. *)
Definition call_end_assume (curr_depth : nat) (cheatcode_call : bool) (target : Address)
    (s : RevertState) (o : Outcome) : bool * RevertState * Outcome :=
  match rs_assume s with
  | None => (false, s, o)
  | Some a =>
      let a :=
        if is_revert (out_result o) && bool_decide (assume_reverted_by a = None) then
          mkAssumeNoRevert (assume_depth a) (reasons a) (Some target)
        else a in
      if bool_decide (curr_depth ≤ assume_depth a)%nat && negb cheatcode_call then
        let s := mkRevertState (rs_expected s) None in
        if is_revert (out_result o) then
          match handle_assume_no_revert a (out_result o) (output o) with
          | Ok _ => (true, s, mkOutcome (out_result o) magic_assume_encoded (out_address o))
          | Err err => (true, s, mkOutcome Revert (abi_encode err) (out_address o))
          end
        else (false, s, o)
      else (false, mkRevertState (rs_expected s) (Some a), o)
  end.

(** "Handle expected reverts", in [call_end]. *)
Definition call_end_revert (internal_expect_revert : bool) (curr_depth : nat)
    (cheatcode_call : bool) (target : Address) (s : RevertState) (o : Outcome)
    : bool * RevertState * Outcome :=
  match rs_expected s with
  | None => (false, s, o)
  | Some e =>
      let e :=
        if is_revert (out_result o) && negb (bool_decide (reverter e = None)) &&
           (bool_decide (reverted_by e = None) || (1 <? revert_count e))
        then set_reverted_by (Some target) e else e in
      if bool_decide (curr_depth ≤ revert_depth e)%nat then
        let needs_processing :=
          match revert_kind e with
          | DefaultRevert => negb cheatcode_call
          | CheatcodeRevert pending_processing => cheatcode_call && negb pending_processing
          end in
        if needs_processing then
          match handle_expect_revert cheatcode_call false internal_expect_revert e
                  (out_result o) (output o) with
          | Err error =>
              (true, mkRevertState None (rs_assume s),
               mkOutcome Revert (abi_encode error) (out_address o))
          | Ok (_, retdata) =>
              (true, mkRevertState (count_revert e) (rs_assume s),
               mkOutcome Return retdata (out_address o))
          end
        else
          let e :=
            match revert_kind e with
            | CheatcodeRevert _ => set_kind (CheatcodeRevert false) e
            | DefaultRevert => e
            end in
          (false, mkRevertState (Some e) (rs_assume s), o)
      else (false, mkRevertState (Some e) (rs_assume s), o)
  end.

(** Both, in the order of [call_end]. *)
Definition call_end (internal_expect_revert : bool) (curr_depth : nat) (cheatcode_call : bool)
    (target : Address) (s : RevertState) (o : Outcome) : RevertState * Outcome :=
  let '(returned, s, o) := call_end_assume curr_depth cheatcode_call target s o in
  if returned then (s, o)
  else
    let '(_, s, o) := call_end_revert internal_expect_revert curr_depth cheatcode_call target s o in
    (s, o).

(** "Handle expected reverts", in [create_end_common]. *)
Definition create_end_revert (internal_expect_revert : bool) (curr_depth : nat)
    (s : RevertState) (o : Outcome) : RevertState * Outcome :=
  match rs_expected s with
  | None => (s, o)
  | Some e =>
      if bool_decide (curr_depth ≤ revert_depth e)%nat &&
         (match revert_kind e with DefaultRevert => true | _ => false end) then
        match handle_expect_revert false true internal_expect_revert e (out_result o) (output o) with
        | Ok (address, retdata) =>
            (mkRevertState (count_revert e) (rs_assume s), mkOutcome Return retdata address)
        | Err err =>
            (mkRevertState None (rs_assume s), mkOutcome Revert (abi_encode err) (out_address o))
        end
      else (s, o)
  end.
End handlers.
