(* ===== verification/RevertSpec.v ===== *)
(** * What expected and assumed reverts promise

    An expectation of [n] reverts turns the next [n] matching reverts into
    successes and then is gone; an expectation of none accepts exactly the
    calls that succeed; an assumption rejects the run on the listed reverts. *)
From S2P Require Import Prelude Text Cheatcodes RevertHandlers.
Local Open Scope Z_scope.

Section specs.
Variable abi_decode_string : Bytes → option str.
Variable hex_encode_prefixed : Bytes → str.
Variable error_selectors : list Bytes.
Variable abi_decode_bytes : Bytes → option Bytes.
Variable decode_error_string : Bytes → option str.
Variable from_utf8_lossy : Bytes → str.
Variable known_decoder : option (Bytes → InstructionResult → str).
Variable abi_encode : revert_error → Bytes.
Variable magic_assume_encoded : Bytes.

#[local] Abbreviation handle_revert := (handle_revert abi_decode_string hex_encode_prefixed error_selectors
  abi_decode_bytes decode_error_string from_utf8_lossy known_decoder).
#[local] Abbreviation call_end := (call_end abi_decode_string hex_encode_prefixed error_selectors
  abi_decode_bytes decode_error_string from_utf8_lossy known_decoder abi_encode magic_assume_encoded).
#[local] Abbreviation handle_assume_no_revert := (handle_assume_no_revert abi_decode_string
  hex_encode_prefixed error_selectors abi_decode_bytes decode_error_string from_utf8_lossy
  known_decoder).

(** A call made at the depth of the cheatcode, without nested calls that
    revert: the [call] hook, then [call_end]. *)
Definition next_call (internal : bool) (d : nat) (target : Address) (o : Outcome) (s : RevertState)
    : RevertState * Outcome :=
  call_end internal d false target (call_depth d s) o.

Fixpoint next_calls (internal : bool) (d : nat) (cs : list (Address * Outcome)) (s : RevertState)
    : list Outcome * RevertState :=
  match cs with
  | [] => ([], s)
  | (target, o) :: cs =>
      let '(s, o) := next_call internal d target o s in
      let '(os, s) := next_calls internal d cs s in
      (o :: os, s)
  end.

(** What is said of one revert. *)
Definition verdict (e : ExpectedRevert) (target : Address) (o : Outcome) : result revert_error unit :=
  if return_ok (out_result o) then Err DidNotRevert
  else handle_revert false e (out_result o) (output o) (Some target).

(** The reference: [k] reverts are still expected. *)
Fixpoint expecting (e : ExpectedRevert) (k : nat) (cs : list (Address * Outcome))
    : list Outcome * nat :=
  match cs, k with
  | [], _ => ([], k)
  | _, O => (cs.*2, O)
  | (target, o) :: cs, S k =>
      match verdict e target o with
      | Ok _ =>
          let '(os, k) := expecting e k cs in
          (mkOutcome Return DUMMY_CALL_OUTPUT (out_address o) :: os, k)
      | Err err => (mkOutcome Revert (abi_encode err) (out_address o) :: cs.*2, O)
      end
  end.

(** The expectation of [vm.expectRevert] and its variants with a count. *)
Record awaits (d : nat) (e0 e : ExpectedRevert) (k : nat) : Prop := {
  aw_reason : reason e = reason e0;
  aw_partial : partial_match e = partial_match e0;
  aw_reverter : reverter e = reverter e0;
  aw_kind : revert_kind e = DefaultRevert;
  aw_depth : revert_depth e = d;
  aw_count : revert_count e = revert_count e0;
  aw_left : actual_count e + Z.of_nat k = revert_count e0;
  aw_actual : 0 ≤ actual_count e;
  aw_reverted_by : reverted_by e = None ∨ 1 < revert_count e0;
}.

(** The revert that is looked at depends on these fields only. *)
Lemma handle_revert_eq e0 e target o r :
  reason e = reason e0 → partial_match e = partial_match e0 → reverter e = reverter e0 →
  r = Some target ∨ reverter e0 = None →
  handle_revert false e (out_result o) (output o) r =
  handle_revert false e0 (out_result o) (output o) (Some target).
Proof.
  intros Hr Hp Hv Hs. unfold RevertHandlers.handle_revert. simpl. rewrite Hr, Hp, Hv.
  destruct Hs as [->| ->]; [done|]. by destruct r.
Qed.

Lemma next_call_none internal d target o :
  next_call internal d target o (mkRevertState None None) = (mkRevertState None None, o).
Proof. done. Qed.

Lemma next_calls_none internal d cs :
  next_calls internal d cs (mkRevertState None None) = (cs.*2, mkRevertState None None).
Proof.
  induction cs as [|[t o] cs IH]; [done|]. cbn [next_calls]. rewrite next_call_none. by rewrite IH.
Qed.

Lemma next_call_awaits internal d e0 e k target o :
  awaits d e0 e (S k) → out_result o ≠ Halt →
  match verdict e0 target o with
  | Ok _ => ∃ s, next_call internal d target o (mkRevertState (Some e) None) =
      (s, mkOutcome Return DUMMY_CALL_OUTPUT (out_address o)) ∧
      rs_assume s = None ∧
      match k with
      | O => rs_expected s = None
      | _ => ∃ e', rs_expected s = Some e' ∧ awaits d e0 e' k
      end
  | Err err => next_call internal d target o (mkRevertState (Some e) None) =
      (mkRevertState None None, mkOutcome Revert (abi_encode err) (out_address o))
  end.
Proof.
  intros [Hr Hp Hv Hk Hd Hc Hl Ha Hb] Hhalt.
  unfold next_call, RevertHandlers.call_end. simpl. unfold call_end_revert. simpl.
  set (e1 := if is_revert _ && _ && _ then _ else _).
  assert (He1 : reason e1 = reason e0 ∧ partial_match e1 = partial_match e0 ∧
    reverter e1 = reverter e0 ∧ revert_kind e1 = DefaultRevert ∧ revert_depth e1 = d ∧
    revert_count e1 = revert_count e0 ∧ actual_count e1 = actual_count e ∧
    max_depth e1 = Nat.max (S d) (max_depth e) ∧ (reverted_by e1 = reverted_by e ∨
      reverted_by e1 = Some target) ∧
    (is_revert (out_result o) = true → reverted_by e1 = Some target ∨ reverter e0 = None)).
  { subst e1. unfold set_max_depth, set_reverted_by. simpl. rewrite Hv, Hc.
    destruct (is_revert (out_result o)); simpl; [|by repeat split; try left].
    destruct (reverter e0) as [rv|] eqn:Hrv; simpl; [|repeat split; auto].
    assert (bool_decide (reverted_by e = None) || (1 <? revert_count e0) = true) as ->.
    { apply orb_true_iff. destruct Hb as [->|Hb]; [left|right]; [done|lia]. }
    simpl. repeat split; auto; congruence. }
  destruct He1 as (Hr1 & Hp1 & Hv1 & Hk1 & Hd1 & Hc1 & Ha1 & Hm1 & Hb1 & Hby).
  rewrite Hd1, bool_decide_eq_true_2, Hk1 by done. cbn [negb].
  unfold handle_expect_revert. rewrite Hd1, Hm1, Hc1.
  rewrite (bool_decide_eq_true_2 (d < _)%nat) by lia. cbn [negb]. rewrite andb_false_r.
  assert ((revert_count e0 =? 0) = false) as -> by lia.
  unfold verdict. destruct (return_ok (out_result o)) eqn:Hok; [done|].
  assert (Hrev : is_revert (out_result o) = true) by (destruct (out_result o); done).
  rewrite (handle_revert_eq e0 e1 target o (reverted_by e1)) by auto.
  destruct (handle_revert false e0 _ _ _) as [[]|err]; simpl; [|done].
  eexists. split; [done|]. split; [done|]. simpl.
  unfold count_revert. cbn [actual_count revert_count set_actual_count]. rewrite Hc1, Ha1.
  destruct k as [|k].
  - by rewrite (proj2 (Z.ltb_ge _ _)) by lia.
  - rewrite (proj2 (Z.ltb_lt _ _)) by lia. eexists. split; [done|].
    constructor; simpl; auto; [lia|lia|right; lia].
Qed.

(** An expectation of [n] reverts, whatever reason and reverter it asks
    for, turns the next [n] calls into successes as long as each is a matching
    revert of the reverter, and leaves later calls alone; the first call that
    succeeds or reverts otherwise fails, which ends the expectation. *)
Theorem expect_revert_counts internal d s0 r p v e n cs :
  expected_revert <$> expect_revert s0 r d false p v (Z.of_nat (S n)) = Ok (Some e) →
  Forall (λ c, out_result c.2 ≠ Halt) cs →
  let '(os, s) := next_calls internal d cs (mkRevertState (Some e) None) in
  os = (expecting e (S n) cs).1 ∧ (rs_expected s = None ↔ (expecting e (S n) cs).2 = 0%nat).
Proof.
  intros He Hcs.
  assert (He' : awaits d e e (S n)).
  { unfold expect_revert in He. destruct (expected_revert s0); [done|].
    injection He as <-. constructor; simpl; auto; lia. }
  clear He. rename He' into He.
  assert (Hgen : ∀ k e', awaits d e e' (S k) →
    let '(os, s) := next_calls internal d cs (mkRevertState (Some e') None) in
    os = (expecting e (S k) cs).1 ∧ (rs_expected s = None ↔ (expecting e (S k) cs).2 = 0%nat));
    [|by apply Hgen].
  clear He. induction Hcs as [|[t o] cs Ho Hcs IH]; intros k e' He; [done|]. simpl in Ho.
  pose proof (next_call_awaits internal d e e' k t o He Ho) as Hnext.
  cbn [next_calls expecting]. destruct (verdict e t o) as [[]|err].
  - destruct Hnext as (s & -> & Has & Hs). destruct s as [x y]. simpl in Has, Hs. subst y.
    destruct k as [|k].
    + subst x. rewrite next_calls_none. by destruct cs as [|[]].
    + destruct Hs as (e1 & -> & He1). specialize (IH k e1 He1).
      destruct (next_calls _ _ cs _) as [os s]. destruct (expecting e (S k) cs) as [os' l].
      simpl in *. destruct IH as [-> Hi]. done.
  - rewrite Hnext, next_calls_none. done.
Qed.

(** An expectation of zero reverts is met exactly by a call that
    succeeds, whatever reason or reverter it names; but then too the output
    of the call is replaced by zeros, and what the call returned is lost. *)
Theorem expect_zero_reverts internal d s0 r p v e target o :
  expected_revert <$> expect_revert s0 r d false p v 0 = Ok (Some e) →
  let '(s, o') := next_call internal d target o (mkRevertState (Some e) None) in
  rs_expected s = None ∧ out_address o' = out_address o ∧
  if return_ok (out_result o) then out_result o' = Return ∧ output o' = DUMMY_CALL_OUTPUT
  else out_result o' = Revert ∧ ∃ err, output o' = abi_encode err.
Proof.
  intros He. unfold expect_revert in He. destruct (expected_revert s0); [done|].
  injection He as <-.
  unfold next_call, RevertHandlers.call_end. simpl. unfold call_end_revert. simpl.
  set (e1 := if is_revert _ && _ && _ then _ else _).
  assert (He1 : revert_kind e1 = DefaultRevert ∧ revert_depth e1 = d ∧ revert_count e1 = 0 ∧
    max_depth e1 = Nat.max (S d) d ∧ count_revert e1 = None).
  { subst e1. destruct (_ && _ && _); by repeat split. }
  clearbody e1. destruct He1 as (Hk1 & Hd1 & Hc1 & Hm1 & Hn1).
  rewrite Hd1, bool_decide_eq_true_2, Hk1 by done. cbn [negb].
  unfold handle_expect_revert. rewrite Hd1, Hm1, Hc1.
  rewrite (bool_decide_eq_true_2 (d < _)%nat) by lia. cbn [negb]. rewrite andb_false_r. cbn [Z.eqb].
  destruct (return_ok (out_result o)), (bool_decide (reverter e1 = None) && bool_decide (reason e1 = None));
    simpl; rewrite ?Hn1; eauto 6.
Qed.

Lemma assume_spec d target status retdata params :
  let a := mkAssumeNoRevert d params (Some target) in
  let matches r := handle_revert false r status retdata (Some target) = Ok tt in
  match handle_assume_no_revert a status retdata with
  | Ok _ => params = [] ∨ Exists matches params
  | Err err => err = Raw retdata ∧ params ≠ [] ∧ ¬ Exists matches params
  end.
Proof.
  intros a matches. unfold RevertHandlers.handle_assume_no_revert. cbn [reasons assume_reverted_by a].
  assert (Hx : ∀ l : list AcceptableRevertParameters,
    existsb (λ r, is_ok (handle_revert false r status retdata (Some target))) l = true ↔
    Exists matches l).
  { intros l. unfold matches. rewrite existsb_exists, Exists_exists. setoid_rewrite list_elem_of_In.
    split; intros (r & Hin & Hm); exists r; (split; [done|]).
    - by destruct (handle_revert _ _ _ _ _) as [[]|].
    - by rewrite Hm. }
  destruct params as [|r params]; [by left|].
  match goal with |- context [existsb ?f ?l] => destruct (existsb f l) eqn:He end; cbv iota.
  - right. by apply Hx.
  - do 2 (split; [done|]). intros Hex. apply Hx in Hex. congruence.
Qed.

(** A call that reverts under [assumeNoRevert], at the depth it was
    called at, rejects the run if no reasons were given or one of them
    matches, and otherwise reverts with its own data; a call that succeeds is
    left alone.  In every case the assumption is gone. *)
Theorem assume_no_revert_discards internal d target o params s1 :
  assume_no_revert (mkRevertState None None) d params = Ok s1 →
  let '(s, o') := call_end internal d false target s1 o in
  let matches r := handle_revert false r (out_result o) (output o) (Some target) = Ok tt in
  s = mkRevertState None None ∧
  (is_revert (out_result o) = false → o' = o) ∧
  (is_revert (out_result o) = true → params = [] ∨ Exists matches params →
   o' = mkOutcome (out_result o) magic_assume_encoded (out_address o)) ∧
  (is_revert (out_result o) = true → params ≠ [] → Forall (λ r, ¬ matches r) params →
   o' = mkOutcome Revert (abi_encode (Raw (output o))) (out_address o)).
Proof.
  intros [= <-]. unfold RevertHandlers.call_end, RevertHandlers.call_end_assume. simpl.
  destruct (is_revert (out_result o)) eqn:Hr; simpl; rewrite bool_decide_eq_true_2 by done;
    simpl; [|by repeat split].
  pose proof (assume_spec d target (out_result o) (output o) params) as Ha. cbv zeta in Ha.
  destruct (handle_assume_no_revert _ _ _) as [u|err]; simpl.
  - do 2 (split; [done|]). split; [done|]. intros _ Hnil Hall. destruct Ha as [Ha|Ha]; [done|].
    apply Forall_Exists_neg in Hall. by destruct Hall.
  - destruct Ha as (-> & Hnil & Hex). do 2 (split; [done|]). split; [|done].
    intros _ [?|?]; [done|by destruct Hex].
Qed.
End specs.

(** ** Examples, with codecs that decode nothing *)
Module RevertExamples.

Definition no_text (_ : Bytes) : option str := None.
Definition no_cheats : Cheatcodes :=
  {| pranks := ∅; broadcasting := false; expected_revert := None; expected_calls := ∅;
     expected_emits := []; expected_creates := []; allowed_mem_writes := ∅ |}.
Definition encode (err : revert_error) : Bytes :=
  match err with Reverter a e => [4; a; e] | DidNotRevert => [5] | _ => [6] end.
Definition ends := call_end no_text id [] no_text no_text id None encode [7].

(** The expectation a cheatcode at depth 1 leaves. *)
Definition expect (r : result string Cheatcodes) : RevertState :=
  match r with
  | Ok s => mkRevertState (expected_revert s) None
  | Err _ => mkRevertState None None
  end.

Definition reverts (data : Bytes) : Outcome := mkOutcome Revert data None.
Definition dummy : Outcome := mkOutcome Return DUMMY_CALL_OUTPUT None.

Lemma expect_revert_counts_witness :
  let '(os, s) := next_calls no_text id [] no_text no_text id None encode [7] false 1
    [(9, reverts [1; 2]); (9, reverts [1; 2]); (9, reverts [1; 2])]
    (expect (apply_expect_revert_count 1 (expectRevert_10 [1; 2] 9 2) no_cheats)) in
  os = [dummy; dummy; reverts [1; 2]] ∧ (rs_expected s = None ↔ 0%nat = 0%nat).
Proof.
  apply (expect_revert_counts no_text id [] no_text no_text id None encode [7] false 1
    no_cheats (Some [1; 2]) false (Some 9)
    (mkExpectedRevert (Some [1; 2]) 1 DefaultRevert false (Some 9) None 1 2 0) 1
    [(9, reverts [1; 2]); (9, reverts [1; 2]); (9, reverts [1; 2])]).
  - reflexivity.
  - repeat constructor; discriminate.
Defined.

Lemma expect_zero_reverts_witness :
  let '(s, o) := next_call no_text id [] no_text no_text id None encode [7] false 1 9
    (mkOutcome Return [42] None)
    (expect (apply_expect_revert 1 (expectRevert_6 0) no_cheats)) in
  rs_expected s = None ∧ out_address o = None ∧ out_result o = Return ∧ output o = DUMMY_CALL_OUTPUT.
Proof.
  apply (expect_zero_reverts no_text id [] no_text no_text id None encode [7] false 1
    no_cheats None false None
    (mkExpectedRevert None 1 DefaultRevert false None None 1 0 0) 9 (mkOutcome Return [42] None)).
  reflexivity.
Defined.

Lemma assume_no_revert_discards_witness :
  let s1 := mkRevertState None (Some (mkAssumeNoRevert 1 [] None)) in
  let '(s, o') := ends false 1 false 9 s1 (reverts [3]) in
  let matches (r : AcceptableRevertParameters) := handle_revert no_text id [] no_text no_text id None false r Revert [3] (Some 9) = Ok tt in
  s = mkRevertState None None ∧
  (true = false → o' = reverts [3]) ∧
  (true = true → @nil AcceptableRevertParameters = [] ∨ Exists matches [] → o' = mkOutcome Revert [7] None) ∧
  (true = true → @nil AcceptableRevertParameters ≠ [] → Forall (λ r, ¬ matches r) [] →
   o' = mkOutcome Revert [6] None).
Proof.
  apply (assume_no_revert_discards no_text id [] no_text no_text id None encode [7] false 1 9
    (reverts [3]) []).
  reflexivity.
Defined.

(** An inner call 9 reverts and then the outer call 8 that made it.  The
    reverter of the outer call is 9 when one revert is expected, the first
    that reverted, and 8 when two are, the last; and when the outer call
    halts, without a revert, any reverter is accepted. *)
Theorem reverter_depends_on_count :
  let one := expect (apply_expect_revert 1 (expectRevert_3 9) no_cheats) in
  let two := expect (apply_expect_revert_count 1 (expectRevert_9 9 2) no_cheats) in
  let nested s :=
    let '(s, _) := ends false 2 false 9 (call_depth 2 (call_depth 1 s)) (reverts []) in
    (ends false 1 false 8 s (reverts [])).2 in
  nested one = dummy ∧ nested two = reverts [4; 8; 9] ∧
  (ends false 1 false 8 (call_depth 1 one) (reverts [])).2 = reverts [4; 8; 9] ∧
  (ends false 1 false 8 (call_depth 1 one) (mkOutcome Halt [] None)).2 = dummy.
Proof. vm_compute. done. Qed.
End RevertExamples.
