(* ===== verification/Mocks.v ===== *)
(** * Mocked calls and functions

    [cheatcodes/src/evm/mock.rs] and [cheatcodes/common/src/mock.rs], the part
    of the call hook in [cheatcodes/src/inspector.rs] that answers a mocked
    call, the redirection of mocked functions in
    [evm/evm/src/inspectors/stack.rs], and the same for the zkSync virtual
    machine in [zksync/core/src/vm/tracers/cheatcode.rs]. *)
From S2P Require Import Prelude.
Local Open Scope Z_scope.

Abbreviation bytes := (list Z).
Abbreviation address := Z.

(** [InstructionResult], the two values that mocks use. *)
Inductive InstructionResult := Return | Revert.

Record MockCallDataContext := { calldata : bytes; value : option Z }.
Record MockCallReturnData := { ret_type : InstructionResult; data : bytes }.

#[export] Instance InstructionResult_eq_dec : EqDecision InstructionResult.
Proof. solve_decision. Defined.
#[export] Instance MockCallDataContext_eq_dec : EqDecision MockCallDataContext.
Proof. solve_decision. Defined.

(** ** The order of the mocks *)

Fixpoint bytes_cmp (a b : bytes) : comparison :=
  match a, b with
  | [], [] => Eq
  | [], _ :: _ => Lt
  | _ :: _, [] => Gt
  | x :: a, y :: b => match x ?= y with Eq => bytes_cmp a b | c => c end
  end.

Definition value_cmp (a b : option Z) : comparison :=
  match a, b with
  | None, None => Eq
  | None, Some _ => Lt
  | Some _, None => Gt
  | Some a, Some b => a ?= b
  end.

(** [Ord for MockCallDataContext] *)
Definition ctx_cmp (a b : MockCallDataContext) : comparison :=
  match CompOpp (bytes_cmp (calldata a) (calldata b)) with
  | Eq => CompOpp (value_cmp (value a) (value b))
  | c => c
  end.

(** [BTreeMap<MockCallDataContext, VecDeque<MockCallReturnData>>]: sorted, one
    entry per key. *)
Abbreviation Queue := (list MockCallReturnData).
Abbreviation MockMap := (list (MockCallDataContext * Queue)).

Fixpoint mocks_insert (k : MockCallDataContext) (q : Queue) (m : MockMap) : MockMap :=
  match m with
  | [] => [(k, q)]
  | (k', q') :: m' =>
      match ctx_cmp k k' with
      | Lt => (k, q) :: m
      | Eq => (k', q) :: m'
      | Gt => (k', q') :: mocks_insert k q m'
      end
  end.

Fixpoint mocks_get (k : MockCallDataContext) (m : MockMap) : option Queue :=
  match m with
  | [] => None
  | (k', q) :: m => match ctx_cmp k k' with Eq => Some q | _ => mocks_get k m end
  end.

(** Writing through the reference that a lookup returned. *)
Fixpoint mocks_set (k : MockCallDataContext) (q : Queue) (m : MockMap) : MockMap :=
  match m with
  | [] => []
  | (k', q') :: m => if decide (k' = k) then (k', q) :: m else (k', q') :: mocks_set k q m
  end.

(** ** The cheatcodes

    [code] is the code of the loaded accounts; loading may fail. *)
Record State := {
  mocked_calls : gmap address MockMap;
  mocked_functions : gmap address (gmap bytes address);
}.
Definition State_default : State := {| mocked_calls := ∅; mocked_functions := ∅ |}.

Definition Journal : Type := gmap address bytes.
Inductive DatabaseError := LoadFailed.

Definition EMPTY_CODE_ZKSYNC : bytes := replicate 32 0.

Definition make_acc_non_empty (load_fails : address → bool) (callee : address) (j : Journal) :
    result DatabaseError Journal :=
  if load_fails callee then Err LoadFailed
  else match j !! callee with
       | None | Some [] => Ok (<[callee := EMPTY_CODE_ZKSYNC]> j)
       | Some _ => Ok j
       end.

Definition mock_calls (state : State) (callee : address) (cdata : bytes) (value : option Z)
    (rdata_vec : list bytes) (ret_type : InstructionResult) : State :=
  let mocks := default [] (mocked_calls state !! callee) in
  {| mocked_calls :=
       <[callee := mocks_insert {| calldata := cdata; value := value |}
                     ((λ rdata, {| ret_type := ret_type; data := rdata |}) <$> rdata_vec) mocks]>
         (mocked_calls state);
     mocked_functions := mocked_functions state |}.

Definition mock_call (state : State) (callee : address) (cdata : bytes) (value : option Z)
    (rdata : bytes) (ret_type : InstructionResult) : State :=
  mock_calls state callee cdata value [rdata] ret_type.

(** The cheatcodes of the file; the variants 2 and 3 take four bytes of call
    data. *)
Inductive Cheat :=
| clearMockedCalls
| mockCall_0 (callee : address) (data returnData : bytes)
| mockCall_1 (callee : address) (msgValue : Z) (data returnData : bytes)
| mockCall_2 (callee : address) (data returnData : bytes)
| mockCall_3 (callee : address) (msgValue : Z) (data returnData : bytes)
| mockCalls_0 (callee : address) (data : bytes) (returnData : list bytes)
| mockCalls_1 (callee : address) (msgValue : Z) (data : bytes) (returnData : list bytes)
| mockCallRevert_0 (callee : address) (data revertData : bytes)
| mockCallRevert_1 (callee : address) (msgValue : Z) (data revertData : bytes)
| mockCallRevert_2 (callee : address) (data revertData : bytes)
| mockCallRevert_3 (callee : address) (msgValue : Z) (data revertData : bytes)
| mockFunction (callee target : address) (data : bytes).

Definition apply_cheat (load_fails : address → bool) (c : Cheat) (state : State) (j : Journal) :
    result DatabaseError (State * Journal) :=
  let stateful callee f :=
    j ← make_acc_non_empty load_fails callee j; mret (f : State, j) in
  match c with
  | clearMockedCalls => Ok ({| mocked_calls := ∅; mocked_functions := mocked_functions state |}, j)
  | mockCall_0 callee data ret => stateful callee (mock_call state callee data None ret Return)
  | mockCall_1 callee v data ret => stateful callee (mock_call state callee data (Some v) ret Return)
  | mockCall_2 callee data ret => stateful callee (mock_call state callee data None ret Return)
  | mockCall_3 callee v data ret => stateful callee (mock_call state callee data (Some v) ret Return)
  | mockCalls_0 callee data ret => stateful callee (mock_calls state callee data None ret Return)
  | mockCalls_1 callee v data ret => stateful callee (mock_calls state callee data (Some v) ret Return)
  | mockCallRevert_0 callee data rev => stateful callee (mock_call state callee data None rev Revert)
  | mockCallRevert_1 callee v data rev =>
      stateful callee (mock_call state callee data (Some v) rev Revert)
  | mockCallRevert_2 callee data rev => stateful callee (mock_call state callee data None rev Revert)
  | mockCallRevert_3 callee v data rev =>
      stateful callee (mock_call state callee data (Some v) rev Revert)
  | mockFunction callee target data =>
      Ok ({| mocked_calls := mocked_calls state;
             mocked_functions :=
               <[callee := <[data := target]> (default ∅ (mocked_functions state !! callee))]>
                 (mocked_functions state) |}, j)
  end.

(** ** The call hook

    [transfer_value] is [None] for a delegate call. *)
Definition covers (input : bytes) (transfer_value : option Z) (mock : MockCallDataContext) : bool :=
  bool_decide (calldata mock `prefix_of` input) &&
  match value mock with
  | None => true
  | Some v => bool_decide (Some v = transfer_value)
  end.

(** The entry whose queue answers the call. *)
Definition select (mocks : MockMap) (input : bytes) (transfer_value : option Z) :
    option (MockCallDataContext * Queue) :=
  let ctx := {| calldata := input; value := transfer_value |} in
  match mocks_get ctx mocks with
  | Some queue => Some (ctx, queue)
  | None => snd <$> list_find (λ e, covers input transfer_value e.1 = true) mocks
  end.

(** A queue of one element keeps it. *)
Definition take_front (queue : Queue) : option MockCallReturnData * Queue :=
  if (length queue =? 1)%nat then (head queue, queue) else (head queue, tail queue).

(** The outcome is [None] when the call is not mocked. *)
Definition mocked_call (state : State) (callee : address) (input : bytes)
    (transfer_value : option Z) : option MockCallReturnData * State :=
  match mocked_calls state !! callee with
  | None => (None, state)
  | Some mocks =>
      match select mocks input transfer_value with
      | None => (None, state)
      | Some (k, queue) =>
          let '(r, queue) := take_front queue in
          (r, {| mocked_calls := <[callee := mocks_set k queue mocks]> (mocked_calls state);
                 mocked_functions := mocked_functions state |})
      end
  end.

(** [inspectors/stack.rs]: where the code of a call is taken from. *)
Definition mocked_function_target (state : State) (bytecode_address : address) (input : bytes) :
    address :=
  match mocked_functions state !! bytecode_address with
  | None => bytecode_address
  | Some mocks =>
      match mocks !! input with
      | Some target => target
      | None =>
          if (4 <=? length input)%nat then default bytecode_address (mocks !! take 4 input)
          else bytecode_address
      end
  end.

(** ** The zkSync virtual machine

    The tracer of one zkEVM execution starts from a copy of the mocks; what it
    returns immediately to the caller is only the data. *)
Definition zk_mocked_call (state : State) (callee : address) (input : bytes) (call_value : Z) :
    option bytes * State :=
  let '(r, state) := mocked_call state callee input (Some call_value) in (data <$> r, state).

(** The far calls of one execution, and the mocks the inspector is left with. *)
Definition zk_execute (state : State) (calls : list (address * bytes * Z)) :
    list (option bytes) * State :=
  ((foldl (λ s c, let '(rs, tracer) := s in
                  let '(r, tracer) := zk_mocked_call tracer c.1.1 c.1.2 c.2 in (rs ++ [r], tracer))
      ([], state) calls).1, state).

(** ** The order is total *)

Lemma bytes_cmp_refl a : bytes_cmp a a = Eq.
Proof. induction a as [|x a IH]; simpl; [done|]. by rewrite Z.compare_refl. Qed.

Lemma bytes_cmp_eq a b : bytes_cmp a b = Eq ↔ a = b.
Proof.
  split; [|intros ->; apply bytes_cmp_refl].
  revert b. induction a as [|x a IH]; intros [|y b]; simpl; try done.
  destruct (Z.compare_spec x y) as [->| |]; try done. intros ?%IH. by subst.
Qed.

Lemma bytes_cmp_opp a b : bytes_cmp b a = CompOpp (bytes_cmp a b).
Proof.
  revert b. induction a as [|x a IH]; intros [|y b]; simpl; try done.
  rewrite (Z.compare_antisym x y). destruct (x ?= y); simpl; auto.
Qed.

Lemma bytes_cmp_trans a b c : bytes_cmp a b = Lt → bytes_cmp b c = Lt → bytes_cmp a c = Lt.
Proof.
  revert b c. induction a as [|x a IH]; intros [|y b] [|z c]; simpl; try done.
  destruct (Z.compare_spec x y), (Z.compare_spec y z), (Z.compare_spec x z);
    intros; subst; try done; try lia. by eapply IH.
Qed.

(** A proper prefix is smaller. *)
Lemma bytes_cmp_prefix a b : bytes_cmp a (a ++ b) = match b with [] => Eq | _ => Lt end.
Proof. induction a as [|x a IH]; simpl; [by destruct b|]. by rewrite Z.compare_refl. Qed.

Lemma value_cmp_opp a b : value_cmp b a = CompOpp (value_cmp a b).
Proof. destruct a as [a|], b as [b|]; simpl; try done. apply Z.compare_antisym. Qed.

Lemma value_cmp_eq a b : value_cmp a b = Eq ↔ a = b.
Proof.
  destruct a as [a|], b as [b|]; simpl; try done. rewrite Z.compare_eq_iff.
  split; [by intros ->|by intros [= ->]].
Qed.

Lemma value_cmp_trans a b c : value_cmp a b = Lt → value_cmp b c = Lt → value_cmp a c = Lt.
Proof. destruct a, b, c; simpl; try done. rewrite !Z.compare_lt_iff. lia. Qed.

Lemma CompOpp_lt c : CompOpp c = Lt ↔ c = Gt.
Proof. by destruct c. Qed.

Lemma ctx_cmp_opp a b : ctx_cmp b a = CompOpp (ctx_cmp a b).
Proof.
  unfold ctx_cmp. rewrite (bytes_cmp_opp (calldata a)), (value_cmp_opp (value a)).
  by destruct (bytes_cmp _ _), (value_cmp _ _).
Qed.

Lemma ctx_cmp_eq a b : ctx_cmp a b = Eq ↔ a = b.
Proof.
  unfold ctx_cmp. split.
  - destruct (bytes_cmp (calldata a) (calldata b)) eqn:Hb; simpl; try done.
    destruct (value_cmp (value a) (value b)) eqn:Hv; simpl; try done. intros _.
    apply bytes_cmp_eq in Hb. apply value_cmp_eq in Hv. destruct a, b. simpl in *. by subst.
  - intros ->. rewrite bytes_cmp_refl. simpl.
    by rewrite (proj2 (value_cmp_eq (value b) (value b)) eq_refl).
Qed.

(** [a] comes first: its calldata is larger, or the same with a larger value. *)
Lemma ctx_cmp_lt a b :
  ctx_cmp a b = Lt ↔
  bytes_cmp (calldata b) (calldata a) = Lt ∨
  calldata a = calldata b ∧ value_cmp (value b) (value a) = Lt.
Proof.
  unfold ctx_cmp. rewrite (bytes_cmp_opp (calldata a)), (value_cmp_opp (value a)).
  destruct (bytes_cmp (calldata a) (calldata b)) eqn:Hb; simpl.
  - apply bytes_cmp_eq in Hb. naive_solver.
  - split; [done|]. intros [?|[He _]]; [done|]. rewrite He, bytes_cmp_refl in Hb. done.
  - split; auto.
Qed.

Lemma ctx_cmp_trans a b c : ctx_cmp a b = Lt → ctx_cmp b c = Lt → ctx_cmp a c = Lt.
Proof.
  rewrite !ctx_cmp_lt. intros [H1|[H1 H1']] [H2|[H2 H2']].
  - left. by eapply bytes_cmp_trans.
  - left. by rewrite <-H2.
  - left. by rewrite H1.
  - right. split; [congruence|]. by eapply value_cmp_trans.
Qed.

(** ** Sorted maps *)

Definition sorted (m : MockMap) : Prop := StronglySorted (λ a b, ctx_cmp a.1 b.1 = Lt) m.

Lemma elem_of_mocks_insert k q m x : x ∈ (mocks_insert k q m).*1 → x = k ∨ x ∈ m.*1.
Proof.
  induction m as [|[k' q'] m IH]; simpl; [set_solver|].
  destruct (ctx_cmp k k') eqn:Hc; csimpl; [|set_solver..].
  apply ctx_cmp_eq in Hc as ->. set_solver.
Qed.

Lemma sorted_fst (m : MockMap) : sorted m ↔ StronglySorted (λ a b, ctx_cmp a b = Lt) m.*1.
Proof.
  unfold sorted. induction m as [|e m IH]; csimpl; [split; constructor|].
  split; intros [Hs Hf]%StronglySorted_inv; constructor; try tauto;
    [by apply Forall_fmap|by apply Forall_fmap in Hf].
Qed.

Lemma mocks_insert_sorted k q m : sorted m → sorted (mocks_insert k q m).
Proof.
  rewrite !sorted_fst. induction m as [|[k' q'] m IH]; simpl; [repeat constructor|].
  intros [Hs Hf]%StronglySorted_inv. destruct (ctx_cmp k k') eqn:Hc; csimpl.
  - by constructor.
  - constructor; [by constructor|]. constructor; [done|].
    eapply Forall_impl; [exact Hf|]. intros x ?. by eapply ctx_cmp_trans.
  - constructor; [by apply IH|]. rewrite Forall_forall in *. intros x Hx.
    apply elem_of_mocks_insert in Hx as [->|?]; [|auto]. by rewrite ctx_cmp_opp, Hc.
Qed.

Lemma mocks_set_fst k q m : (mocks_set k q m).*1 = m.*1.
Proof.
  induction m as [|[k' q'] m IH]; simpl; [done|]. case_decide; csimpl; congruence.
Qed.

Lemma mocks_set_sorted k q m : sorted m → sorted (mocks_set k q m).
Proof. rewrite !sorted_fst. by rewrite mocks_set_fst. Qed.

Lemma mocks_get_Some k m q : mocks_get k m = Some q → (k, q) ∈ m.
Proof.
  induction m as [|[k' q'] m IH]; simpl; [done|].
  destruct (ctx_cmp k k') eqn:Hc; [|right; auto..].
  apply ctx_cmp_eq in Hc as ->. intros [= ->]. left.
Qed.

Lemma mocks_get_insert k q m : sorted m → mocks_get k (mocks_insert k q m) = Some q.
Proof.
  intros _. induction m as [|[k' q'] m IH]; simpl.
  - by rewrite (proj2 (ctx_cmp_eq k k) eq_refl).
  - destruct (ctx_cmp k k') eqn:Hc; simpl; rewrite ?Hc; [done| |done].
    by rewrite (proj2 (ctx_cmp_eq k k) eq_refl).
Qed.

(** Every reachable state keeps its maps sorted. *)
Definition state_wf (s : State) : Prop := ∀ a m, mocked_calls s !! a = Some m → sorted m.

Lemma mock_calls_wf s callee cdata v rs t : state_wf s → state_wf (mock_calls s callee cdata v rs t).
Proof.
  intros Hs a m. simpl. intros [[<- <-]|[_ Hm]]%lookup_insert_Some; [|by eapply Hs].
  apply mocks_insert_sorted. destruct (mocked_calls s !! callee) eqn:Hc; [by eapply Hs|constructor].
Qed.

Lemma apply_cheat_wf fails c s j s' j' :
  apply_cheat fails c s j = Ok (s', j') → state_wf s → state_wf s'.
Proof.
  unfold apply_cheat. intros Hc Hs.
  destruct c; try (destruct (make_acc_non_empty fails callee j) as [j1|]; [|done];
    injection Hc as <- <-; by apply mock_calls_wf).
  - injection Hc as <- <-. intros a m. simpl. by rewrite lookup_empty.
  - by injection Hc as <- <-.
Qed.

Lemma mocked_call_wf s callee input tv :
  state_wf s → state_wf (mocked_call s callee input tv).2.
Proof.
  intros Hs. unfold mocked_call. destruct (mocked_calls s !! callee) as [mocks|] eqn:Hm; [|done].
  destruct (select mocks input tv) as [[k q]|]; [|done]. unfold take_front.
  destruct (length q =? 1)%nat; intros a m; simpl;
    (intros [[<- <-]|[_ Ha]]%lookup_insert_Some; [apply mocks_set_sorted; by eapply Hs|by eapply Hs]).
Qed.

(** ** The most specific mock answers *)

(** A longer prefix of the call data comes before a shorter one, and a given
    value before any value. *)
Definition more_specific (k k' : MockCallDataContext) : Prop :=
  (length (calldata k') < length (calldata k))%nat ∨
  calldata k = calldata k' ∧ value k' = None ∧ is_Some (value k).

Lemma covers_spec input tv k :
  covers input tv k = true ↔
  calldata k `prefix_of` input ∧ (value k = None ∨ value k = tv ∧ is_Some tv).
Proof.
  unfold covers. rewrite andb_true_iff, bool_decide_eq_true. destruct (value k) as [v|].
  - rewrite bool_decide_eq_true. naive_solver.
  - naive_solver.
Qed.

(** Among the keys that cover a call, the order of the map is specificity. *)
Lemma covers_order input tv k k' :
  covers input tv k = true → covers input tv k' = true → ctx_cmp k k' = Lt → more_specific k k'.
Proof.
  rewrite !covers_spec, ctx_cmp_lt. intros [[r Hk] Hv] [[r' Hk'] Hv'] [Hc|[Heq Hc]].
  - left. destruct (prefix_weak_total (calldata k) (calldata k') input) as [[t Ht]|[t Ht]];
      [by exists r|by exists r'| |].
    + rewrite Ht, (bytes_cmp_opp (calldata k)), bytes_cmp_prefix in Hc. by destruct t.
    + rewrite Ht, length_app. rewrite Ht, bytes_cmp_prefix in Hc. destruct t; [done|simpl; lia].
  - right. split; [done|]. destruct Hv as [Hv|[Hv [v ->]]]; rewrite Hv in Hc.
    + by destruct (value k').
    + rewrite Hv. destruct Hv' as [Hv'|[Hv' _]]; [eauto|]. rewrite Hv' in Hc. simpl in Hc.
      rewrite Z.compare_refl in Hc. done.
Qed.

Lemma sorted_before m i k q k' q' :
  sorted m → m !! i = Some (k, q) → (k', q') ∈ m →
  k' = k ∨ ctx_cmp k k' = Lt ∨ ∃ j, (j < i)%nat ∧ m !! j = Some (k', q').
Proof.
  intros Hs. revert i. induction Hs as [|e m Hs IH He]; intros i Hi Hin; [done|].
  apply elem_of_cons in Hin as [<-|Hin]; destruct i as [|i]; simplify_eq/=.
  - by left.
  - right. right. exists 0%nat. split; [lia|done].
  - right. left. rewrite Forall_forall in He. by apply (He (k', q')).
  - destruct (IH i Hi Hin) as [?|[?|(j & Hj & Hl)]]; auto.
    right. right. exists (S j). split; [lia|done].
Qed.

(** A call is answered by the most specific mock that covers it: the one
    with the longest matching call data, and among those with the same data
    the one that asks for the value of the call; it is not mocked when no mock
    covers it. *)
Theorem select_most_specific m input tv :
  sorted m →
  match select m input tv with
  | Some (k, q) =>
      (k, q) ∈ m ∧ covers input tv k = true ∧
      ∀ k' q', (k', q') ∈ m → covers input tv k' = true → k' = k ∨ more_specific k k'
  | None => ∀ k q, (k, q) ∈ m → covers input tv k = false
  end.
Proof.
  intros Hs. unfold select. destruct (mocks_get _ m) as [q|] eqn:Hget.
  - apply mocks_get_Some in Hget. set (k := {| calldata := input; value := tv |}) in *.
    assert (covers input tv k = true) as Hk.
    { apply covers_spec. split; [done|]. destruct tv; [right; simpl; eauto|by left]. }
    split; [done|]. split; [done|]. intros k' q' Hin Hk'.
    destruct (ctx_cmp k k') eqn:Hc.
    + apply ctx_cmp_eq in Hc as ->. by left.
    + right. by eapply covers_order.
    + assert (ctx_cmp k' k = Lt) as Hlt by by rewrite ctx_cmp_opp, Hc.
      destruct (covers_order _ _ _ _ Hk' Hk Hlt) as [Hlen|(_ & Hv & [v Hv'])].
      * apply covers_spec in Hk' as [[r Hr] _]. simpl in Hlen.
        rewrite Hr, length_app in Hlen. lia.
      * apply covers_spec in Hk' as [_ [?|[Hv2 _]]]; [congruence|]. simpl in Hv. congruence.
  - destruct (list_find _ m) as [[i [k q]]|] eqn:Hfind; simpl.
    + apply list_find_Some in Hfind as (Hi & Hk & Hfirst). simpl in Hk.
      split; [by eapply list_elem_of_lookup_2|]. split; [done|]. intros k' q' Hin Hk'.
      destruct (sorted_before _ _ _ _ _ _ Hs Hi Hin) as [?|[Hlt|(j & Hj & Hl)]]; [by left| |].
      * right. by eapply covers_order.
      * destruct (Hfirst _ _ Hl Hj). done.
    + apply list_find_None in Hfind. intros k q Hin. rewrite Forall_forall in Hfind.
      destruct (covers input tv k) eqn:Hk; [|done]. by destruct (Hfind (k, q) Hin).
Qed.

(** ** Answers come in order *)

Definition Call : Type := address * bytes * option Z.
Definition serve_call (s : State) (c : Call) : option MockCallReturnData * State :=
  mocked_call s c.1.1 c.1.2 c.2.
Fixpoint serve (s : State) (calls : list Call) : list (option MockCallReturnData) :=
  match calls with
  | [] => []
  | c :: calls => let '(r, s) := serve_call s c in r :: serve s calls
  end.

(** The mock that answers a call: its address and key. *)
Definition chosen (s : State) (c : Call) : option MockCallDataContext :=
  m ← mocked_calls s !! c.1.1; fst <$> select m c.1.2 c.2.

Lemma mocks_get_fst k m : is_Some (mocks_get k m) ↔ k ∈ m.*1.
Proof.
  induction m as [|[k' q] m IH]; simpl.
  - split; [by intros [? ?]|by intros ?%elem_of_nil].
  - csimpl. rewrite elem_of_cons, <-IH, <-(ctx_cmp_eq k k').
    destruct (ctx_cmp k k'); naive_solver.
Qed.

(** The choice depends on the keys only. *)
Lemma select_keys m input tv :
  fst <$> select m input tv =
  let ctx := {| calldata := input; value := tv |} in
  if decide (ctx ∈ m.*1) then Some ctx
  else snd <$> list_find (λ k, covers input tv k = true) m.*1.
Proof.
  unfold select. simpl. case_decide as Hin.
  - apply mocks_get_fst in Hin as [q ->]. done.
  - rewrite <-mocks_get_fst in Hin. destruct (mocks_get _ m); [by destruct Hin|].
    rewrite list_find_fmap, <-!option_fmap_compose. by destruct (list_find _ m) as [[??]|].
Qed.

Lemma mocked_call_keys s callee input tv a :
  (λ m : MockMap, m.*1) <$> (mocked_calls (mocked_call s callee input tv).2 !! a) =
  (λ m : MockMap, m.*1) <$> (mocked_calls s !! a).
Proof.
  unfold mocked_call. destruct (mocked_calls s !! callee) as [mocks|] eqn:Hm; [|done].
  destruct (select mocks input tv) as [[k q]|]; [|done]. destruct (take_front q) as [r q'].
  simpl. destruct (decide (a = callee)) as [->|].
  - rewrite lookup_insert_eq, Hm. simpl. by rewrite mocks_set_fst.
  - by rewrite lookup_insert_ne.
Qed.

Lemma chosen_keys s s' c :
  (∀ a, (λ m : MockMap, m.*1) <$> (mocked_calls s' !! a) =
        (λ m : MockMap, m.*1) <$> (mocked_calls s !! a)) →
  chosen s' c = chosen s c.
Proof.
  intros Hkeys. unfold chosen. specialize (Hkeys c.1.1).
  destruct (mocked_calls s' !! c.1.1) as [m'|], (mocked_calls s !! c.1.1) as [m|]; try done.
  simpl in *. injection Hkeys as Hkeys. rewrite !select_keys. simpl. by rewrite Hkeys.
Qed.

Definition queue (s : State) (callee : address) (k : MockCallDataContext) : option Queue :=
  m ← mocked_calls s !! callee; mocks_get k m.

Lemma mocks_get_set k k' q m :
  mocks_get k (mocks_set k' q m) = (if decide (k = k') then (λ _, q) <$> mocks_get k m else mocks_get k m).
Proof.
  induction m as [|[k1 q1] m IH]; simpl; [by case_decide|].
  destruct (decide (k1 = k')) as [->|Hne]; simpl.
  - destruct (decide (k = k')) as [->|Hne'].
    + by rewrite (proj2 (ctx_cmp_eq k' k') eq_refl).
    + by destruct (ctx_cmp k k') eqn:Hc; [apply ctx_cmp_eq in Hc|..].
  - destruct (ctx_cmp k k1) eqn:Hc; [|by rewrite IH..].
    apply ctx_cmp_eq in Hc as ->. by rewrite decide_False.
Qed.

Lemma sorted_get m k q : sorted m → (k, q) ∈ m → mocks_get k m = Some q.
Proof.
  induction 1 as [|[k1 q1] m _ IH Hf]; [by intros ?%elem_of_nil|].
  intros [[= -> ->]|Hin]%elem_of_cons; simpl.
  - by rewrite (proj2 (ctx_cmp_eq k1 k1) eq_refl).
  - rewrite Forall_forall in Hf. specialize (Hf _ Hin). simpl in Hf.
    rewrite (ctx_cmp_opp k1), Hf. simpl. auto.
Qed.

(** One call. *)
Lemma serve_call_queue s c callee k q :
  state_wf s → queue s callee k = Some q →
  let '(r, s') := serve_call s c in
  if decide (c.1.1 = callee ∧ chosen s c = Some k)
  then r = head q ∧ queue s' callee k = Some (take_front q).2
  else queue s' callee k = Some q.
Proof.
  intros Hwf Hq. unfold serve_call, mocked_call. destruct c as [[a input] tv]. simpl.
  assert (mocked_calls s !! a = None ∨ ∃ m, mocked_calls s !! a = Some m) as [Ha|[m Ha]]
    by (destruct (mocked_calls s !! a); eauto).
  { rewrite Ha. rewrite decide_False; [done|]. unfold chosen. simpl. rewrite Ha. naive_solver. }
  rewrite Ha. assert (chosen s (a, input, tv) = fst <$> select m input tv) as Hch.
  { unfold chosen. simpl. by rewrite Ha. }
  pose proof (select_most_specific m input tv (Hwf _ _ Ha)) as Hsel.
  assert (∀ k1 q1, select m input tv = Some (k1, q1) → mocks_get k1 m = Some q1) as Hget.
  { intros k1 q1 Hs. unfold select in Hs. destruct (mocks_get _ m) as [q2|] eqn:Hg; [by simplify_eq|].
    apply fmap_Some in Hs as ([i [k2 q2]] & Hf & [= -> ->]). apply list_find_Some in Hf as (Hi & _).
    apply list_elem_of_lookup_2 in Hi. eapply sorted_get; [by eapply Hwf|done]. }
  destruct (select m input tv) as [[k1 q1]|] eqn:Hs; rewrite Hch; simpl.
  - specialize (Hget _ _ eq_refl). unfold take_front.
    assert (∀ q2, queue {| mocked_calls := <[a := mocks_set k1 q2 m]> (mocked_calls s);
                      mocked_functions := mocked_functions s |} callee k =
              if decide (a = callee ∧ Some k1 = Some k) then Some q2 else Some q) as Hset.
    { intros q2. unfold queue in Hq |- *. simpl. destruct (decide (a = callee)) as [->|Hne].
      - rewrite lookup_insert_eq. rewrite Ha in Hq. simpl in Hq |- *. rewrite mocks_get_set, Hq.
        repeat case_decide; naive_solver.
      - rewrite lookup_insert_ne, Hq by done. rewrite decide_False; naive_solver. }
    assert (a = callee ∧ Some k1 = Some k → q1 = q) as Hqq.
    { intros [-> [= ->]]. unfold queue in Hq. rewrite Ha in Hq. simpl in Hq. congruence. }
    destruct (length q1 =? 1)%nat eqn:Hlen; rewrite Hset; case_decide as Hd; try done;
      rewrite (Hqq Hd) in *; rewrite ?Hlen; done.
  - rewrite decide_False; [done|naive_solver].
Qed.

(** The [n] answers of a queue: each in turn, the last one for ever. *)
Definition answers (n : nat) (q : Queue) : list MockCallReturnData :=
  omap (λ i, q !! Nat.min i (length q - 1)) (seq 0 n).

Lemma answers_S n q : q ≠ [] → answers (S n) q = option_list (head q) ++ answers n (take_front q).2.
Proof.
  intros Hq. unfold answers. rewrite <-cons_seq, <-fmap_S_seq. simpl.
  destruct q as [|r q]; [done|]. simpl. f_equal.
  unfold take_front. simpl. rewrite omap_fmap.
  destruct q as [|r' q]; simpl; apply omap_ext_in; intros i _; simpl.
  - by rewrite !Nat.min_0_r.
  - destruct (Nat.min_spec i (length q)) as [[? ->]|[? ->]]; simpl; rewrite ?Nat.sub_0_r.
    + by rewrite Nat.min_l by lia.
    + by rewrite Nat.min_r by lia.
Qed.

Lemma take_front_nonempty q : q ≠ [] → (take_front q).2 ≠ [].
Proof. unfold take_front. destruct q as [|r [|r' q]]; done. Qed.

Lemma serve_call_chosen s c c' : chosen (serve_call s c).2 c' = chosen s c'.
Proof. apply chosen_keys. intros a. apply mocked_call_keys. Qed.

(** Mocked answers come in the order in which they were given, whatever
    other calls are made in between: the calls that a mock answers get its
    answers one after the other, and the last one again and again. *)
Theorem mocked_in_order s callee k q calls :
  state_wf s → queue s callee k = Some q → q ≠ [] →
  omap (λ p, if decide (p.1.1.1 = callee ∧ chosen s p.1 = Some k) then p.2 else None)
    (zip calls (serve s calls)) =
  answers (length (filter (λ c, c.1.1 = callee ∧ chosen s c = Some k) calls)) q.
Proof.
  intros Hwf Hq Hne.
  enough (∀ s0, (∀ c, chosen s c = chosen s0 c) →
    omap (λ p, if decide (p.1.1.1 = callee ∧ chosen s0 p.1 = Some k) then p.2 else None)
      (zip calls (serve s calls)) =
    answers (length (filter (λ c, c.1.1 = callee ∧ chosen s0 c = Some k) calls)) q) by auto.
  intros s0 Hch. revert s q Hwf Hq Hne Hch.
  induction calls as [|c calls IH]; intros s q Hwf Hq Hne Hch; [done|].
  pose proof (serve_call_queue s c callee k q Hwf Hq) as Hstep.
  pose proof (mocked_call_wf s c.1.1 c.1.2 c.2 Hwf) as Hwf'.
  assert (∀ c', chosen (serve_call s c).2 c' = chosen s0 c') as Hch'
    by (intros; by rewrite serve_call_chosen).
  change (mocked_call s c.1.1 c.1.2 c.2) with (serve_call s c) in Hwf'.
  cbn [serve]. destruct (serve_call s c) as [r s']. simpl in *.
  rewrite Hch in Hstep. rewrite filter_cons.
  case_decide as Hc; simpl.
  - destruct Hstep as [-> Hq']. rewrite answers_S by done.
    pose proof (IH s' _ Hwf' Hq' (take_front_nonempty _ Hne) Hch') as HIH.
    destruct q as [|r q]; [done|]. exact (f_equal (cons r) HIH).
  - exact (IH s' q Hwf' Hstep Hne Hch').
Qed.

(** ** Concrete inputs *)

Definition ctx (d : bytes) (v : option Z) : MockCallDataContext := {| calldata := d; value := v |}.
Definition ret (d : bytes) : MockCallReturnData := {| ret_type := Return; data := d |}.
Definition sample : State :=
  mock_calls (mock_call (mock_call State_default 7 [1; 2] None [50] Return) 7 [1] (Some 9) [60] Return)
    7 [1; 2; 3; 4] None [[10]; [11]; [12]] Return.

Lemma sample_wf : state_wf sample.
Proof. repeat apply mock_calls_wf. intros a m. simpl. by rewrite lookup_empty. Qed.

Lemma select_most_specific_witness :
  ∃ m, mocked_calls sample !! 7 = Some m ∧ sorted m ∧
    fst <$> select m [1; 2; 3] (Some 9) = Some (ctx [1; 2] None) ∧
  match select m [1; 2; 3] (Some 9) with
  | Some (k, q) =>
      (k, q) ∈ m ∧ covers [1; 2; 3] (Some 9) k = true ∧
      ∀ k' q', (k', q') ∈ m → covers [1; 2; 3] (Some 9) k' = true → k' = k ∨ more_specific k k'
  | None => ∀ k q, (k, q) ∈ m → covers [1; 2; 3] (Some 9) k = false
  end.
Proof.
  destruct (mocked_calls sample !! 7) as [m|] eqn:Hm; [|discriminate].
  pose proof (sample_wf _ _ Hm) as Hs. exists m. split; [reflexivity|]. split; [exact Hs|].
  split; [|exact (select_most_specific m [1; 2; 3] (Some 9) Hs)].
  vm_compute in Hm. injection Hm as <-. reflexivity.
Defined.

Definition sample_calls : list Call :=
  [(7, [1; 2; 3; 4; 5], Some 0); (7, [1; 2], Some 0); (7, [1; 2; 3; 4], None);
   (7, [1; 2; 3; 4], Some 3); (7, [1; 2; 3; 4], Some 3)].

Lemma mocked_in_order_witness :
  (state_wf sample ∧ queue sample 7 (ctx [1; 2; 3; 4] None) = Some [ret [10]; ret [11]; ret [12]] ∧
   [ret [10]; ret [11]; ret [12]] ≠ []) ∧
  serve sample sample_calls =
    [Some (ret [10]); Some (ret [50]); Some (ret [11]); Some (ret [12]); Some (ret [12])] ∧
  omap (λ p, if decide (p.1.1.1 = 7 ∧ chosen sample p.1 = Some (ctx [1; 2; 3; 4] None)) then p.2 else None)
    (zip sample_calls (serve sample sample_calls)) =
  answers (length (filter (λ c, c.1.1 = 7 ∧ chosen sample c = Some (ctx [1; 2; 3; 4] None)) sample_calls))
    [ret [10]; ret [11]; ret [12]].
Proof.
  assert (queue sample 7 (ctx [1; 2; 3; 4] None) = Some [ret [10]; ret [11]; ret [12]]) as Hq
    by (vm_compute; reflexivity).
  assert ([ret [10]; ret [11]; ret [12]] ≠ []) as Hne by discriminate.
  split; [exact (conj sample_wf (conj Hq Hne))|]. split; [vm_compute; reflexivity|].
  exact (mocked_in_order sample 7 (ctx [1; 2; 3; 4] None) _ sample_calls sample_wf Hq Hne).
Defined.

(** ** The zkSync virtual machine *)

(** A mocked revert reverts in the EVM; in the zkSync virtual machine its data
    is returned as if the call had succeeded. *)
Lemma zk_mocked_revert_returns callee cdata rdata v :
  let s := mock_call State_default callee cdata None rdata Revert in
  (mocked_call s callee cdata (Some v)).1 = Some {| ret_type := Revert; data := rdata |} ∧
  (zk_mocked_call s callee cdata v).1 =
  (zk_mocked_call (mock_call State_default callee cdata None rdata Return) callee cdata v).1.
Proof.
  assert (∀ t, (mocked_call (mock_call State_default callee cdata None rdata t) callee cdata (Some v)).1
               = Some {| ret_type := t; data := rdata |}) as Hmock.
  { intros t. unfold mocked_call, mock_call, mock_calls. simpl. rewrite lookup_insert_eq, lookup_empty.
    unfold select. simpl. unfold ctx_cmp. simpl. rewrite bytes_cmp_refl. simpl.
    assert (covers cdata (Some v) {| calldata := cdata; value := None |} = true) as Hc
      by (apply covers_spec; simpl; auto).
    by rewrite decide_True. }
  split; [apply Hmock|]. unfold zk_mocked_call.
  pose proof (Hmock Revert) as H1. pose proof (Hmock Return) as H2.
  do 2 destruct (mocked_call _ _ _ _) as [? ?]. simpl in *. by subst.
Qed.

(** Every execution in the zkSync virtual machine starts with the first answer
    again: what it used up is not taken from the inspector's queue. *)
Lemma zk_answers_start_over s calls : (zk_execute s calls).2 = s.
Proof. done. Qed.
Example zk_first_answer_again :
  let s := mock_calls State_default 7 [1] None [[10]; [11]] Return in
  let '(r1, s1) := zk_execute s [(7, [1], 0)] in
  let '(r2, _) := zk_execute s1 [(7, [1], 0)] in r1 = [Some [10]] ∧ r2 = [Some [10]].
Proof. done. Qed.
