(* ===== verification/StateDiff.v ===== *)
(** * Recording of state differences

    Models the recording that [startStateDiffRecording] turns on: the hooks of
    [crates/cheatcodes/src/inspector.rs] that note calls, creations, storage
    accesses and reads of accounts, and the cheatcodes of
    [crates/cheatcodes/src/evm.rs] that return the record or sum it up.

    What the hooks read of the EVM (the depth, the accounts they load, the
    values of slots) is in the events.  The vectors of accesses are kept with
    the last one first. *)
From S2P Require Import Prelude.
From stdpp Require Import strings.
Local Open Scope Z_scope.

(** ** Data *)

Inductive AccountAccessKind :=
| Call | DelegateCall | CallCode | StaticCall | Create | SelfDestruct | Resume
| Balance | Extcodesize | Extcodehash | Extcodecopy.
#[export] Instance AccountAccessKind_eq_dec : EqDecision AccountAccessKind.
Proof. solve_decision. Defined.

Record StorageAccess := mkStorage {
  sa_account : Z;
  slot : Z;
  isWrite : bool;
  previousValue : Z;
  newValue : Z;
  sa_reverted : bool;
}.

Record ChainInfo := mkChain { forkId : Z; chainId : Z }.

Record AccountAccess := mkAccess {
  chainInfo : ChainInfo;
  kind : AccountAccessKind;
  account : Z;
  accessor : Z;
  initialized : bool;
  oldBalance : Z;
  newBalance : Z;
  deployedCode : list Z;
  value : Z;
  data : list Z;
  reverted : bool;
  storageAccesses : list StorageAccess;
  depth : Z;
  oldNonce : Z;
  newNonce : Z;
}.

Definition set_storage (l : list StorageAccess) (a : AccountAccess) : AccountAccess :=
  mkAccess (chainInfo a) (kind a) (account a) (accessor a) (initialized a) (oldBalance a)
    (newBalance a) (deployedCode a) (value a) (data a) (reverted a) l (depth a)
    (oldNonce a) (newNonce a).
Definition set_new (balance nonce : Z) (code : list Z) (a : AccountAccess) : AccountAccess :=
  mkAccess (chainInfo a) (kind a) (account a) (accessor a) (initialized a) (oldBalance a)
    balance code (value a) (data a) (reverted a) (storageAccesses a) (depth a)
    (oldNonce a) nonce.

(** What [load_account] returns of an account. *)
Record Loaded := mkLoaded { exists_ : bool; balance : Z; nonce : Z; original_code : list Z }.
Definition loaded_or_default (acc : option Loaded) : Loaded :=
  default (mkLoaded false 0 0 []) acc.

(** ** The hooks *)

(** The frames that are open, the innermost first. *)
Definition Frames : Type := list (list AccountAccess).

Record CallInputs := mkCall {
  caller : Z;
  bytecode_address : Z;
  scheme : AccountAccessKind;
  call_value : Z;
  input : list Z;
}.

(** The record a call starts with; [acc] is the account of its target address. *)
Definition call_access (chain : ChainInfo) (d : Z) (acc : option Loaded) (call : CallInputs)
    : AccountAccess :=
  let l := loaded_or_default acc in
  mkAccess chain (scheme call) (bytecode_address call) (caller call) (exists_ l) (balance l) 0 []
    (call_value call) (input call) false [] d (nonce l) 0.

Definition create_access (chain : ChainInfo) (d address by_ value : Z) (init_code : list Z)
    : AccountAccess :=
  mkAccess chain Create address by_ true 0 0 [] value init_code false [] d 0 1.

(** [element.reverted = true], with all its storage accesses. *)
Definition mark_storage (s : StorageAccess) : StorageAccess :=
  mkStorage (sa_account s) (slot s) (isWrite s) (previousValue s) (newValue s) true.
Definition mark_reverted (a : AccountAccess) : AccountAccess :=
  mkAccess (chainInfo a) (kind a) (account a) (accessor a) (initialized a) (oldBalance a)
    (newBalance a) (deployedCode a) (value a) (data a) true (mark_storage <$> storageAccesses a)
    (depth a) (oldNonce a) (newNonce a).

(** The frame [last_depth] is merged into the one below it, or put back. *)
Definition merge_down (last_depth : list AccountAccess) (rest : Frames) : Frames :=
  match last_depth, rest with
  | [], _ => rest
  | _, [] => [last_depth]
  | _, last :: rest => (last ++ last_depth) :: rest
  end.

(** The end of a frame: [finish] updates its first record when the depth is
    that of the record. *)
Definition frame_end (d : Z) (is_revert : bool) (finish : AccountAccess → AccountAccess)
    (frames : Frames) : Frames :=
  match frames with
  | [] => []
  | last_depth :: rest =>
      if 0 <? d then
        let last_depth := if is_revert then mark_reverted <$> last_depth else last_depth in
        let last_depth :=
          match last_depth with
          | [] => []
          | a :: l => (if depth a =? d then finish a else a) :: l
          end in
        merge_down last_depth rest
      else frames
  end.

(** The account of the target when the call ended. *)
Definition finish_call (acc : option Loaded) (a : AccountAccess) : AccountAccess :=
  match acc with Some l => set_new (balance l) (nonce l) (deployedCode a) a | None => a end.
(** The created account, when there is one. *)
Definition finish_create (acc : option Loaded) (a : AccountAccess) : AccountAccess :=
  match acc with Some l => set_new (balance l) (nonce l) (original_code l) a | None => a end.

Definition append_storage_access (records : list AccountAccess) (s : StorageAccess) (storage_depth : Z)
    : list AccountAccess :=
  match records with
  | [] => []
  | entry :: tail =>
      if depth entry <? storage_depth then
        match last tail with
        | None => [set_storage (storageAccesses entry ++ [s]) entry]
        | Some last_record =>
            if decide (kind last_record = Resume) then
              entry :: removelast tail ++
                [set_storage (storageAccesses last_record ++ [s]) last_record]
            else
              records ++ [mkAccess (chainInfo entry) Resume (account entry) (accessor entry)
                         (initialized entry) 0 0 [] 0 [] (reverted entry) [s] (depth entry) 0 0]
        end
      else records
  end.

(** [SLOAD] and [SSTORE] at a depth. *)
Definition record_storage (d : Z) (s : StorageAccess) (frames : Frames) : Frames :=
  match frames with
  | [] => []
  | last :: rest => append_storage_access last s d :: rest
  end.

(** [BALANCE] and the [EXTCODE] instructions. *)
Definition ext_access (chain : ChainInfo) (d : Z) (k : AccountAccessKind) (from address : Z)
    (acc : option Loaded) : AccountAccess :=
  let l := loaded_or_default acc in
  mkAccess chain k address from (exists_ l) (balance l) (balance l) [] 0 [] false [] d
    (nonce l) (nonce l).
Definition record_ext (a : AccountAccess) (frames : Frames) : Frames :=
  match frames with [] => [[a]] | last :: rest => (last ++ [a]) :: rest end.

(** [SELFDESTRUCT]; the context that the recording was started in is left out. *)
Definition destruct_access (chain : ChainInfo) (d from target v : Z) (acc : option Loaded)
    : AccountAccess :=
  let l := loaded_or_default acc in
  mkAccess chain SelfDestruct target from (exists_ l) (balance l) (wrap 256 (balance l + v)) []
    v [] false [] d (nonce l) (nonce l).
Definition record_selfdestruct (a : AccountAccess) (frames : Frames) : Frames :=
  match frames with [] => [] | last :: rest => (last ++ [a]) :: rest end.

(** What the hooks see.  The end of a frame may leave the hook before the
    recording, when an expected or an assumed revert is handled. *)
Inductive Event :=
| CallBegin (chain : ChainInfo) (d : Z) (acc : option Loaded) (call : CallInputs)
| CallEnd (d : Z) (returned_early is_revert : bool) (acc : option Loaded)
| CreateBegin (chain : ChainInfo) (d address by_ value : Z) (init_code : list Z)
| CreateEnd (d : Z) (returned_early is_revert : bool) (created : option Loaded)
| Storage (d : Z) (s : StorageAccess)
| Ext (a : AccountAccess)
| Destruct (a : AccountAccess).

Definition step (frames : Frames) (e : Event) : Frames :=
  match e with
  | CallBegin chain d acc call => [call_access chain d acc call] :: frames
  | CallEnd d early is_revert acc =>
      if early then frames else frame_end d is_revert (finish_call acc) frames
  | CreateBegin chain d address by_ v init_code =>
      [create_access chain d address by_ v init_code] :: frames
  | CreateEnd d early is_revert acc =>
      if early then frames else frame_end d is_revert (finish_create acc) frames
  | Storage d s => record_storage d s frames
  | Ext a => record_ext a frames
  | Destruct a => record_selfdestruct a frames
  end.

(** [None]: nothing is recorded. *)
Definition hook (recorded : option Frames) (e : Event) : option Frames :=
  (λ frames, step frames e) <$> recorded.

(** ** The cheatcodes *)

Definition startStateDiffRecording (recorded : option Frames) : option Frames := Some [].

(** [get_state_diff]: the frames from the outermost, and what is recorded next. *)
Definition get_state_diff (recorded : option Frames) : list AccountAccess * option Frames :=
  (mjoin (rev (default [] recorded)), Some []).

(** *** The sum of the changes *)

Record AccountStateDiffs := mkDiffs {
  label : option string;
  contract : option string;
  balance_diff : option (Z * Z);
  nonce_diff : option (Z * Z);
  state_diff : gmap Z (Z * Z);
}.

(** The addresses whose contracts are looked up. *)
Definition lookups_of (a : AccountAccess) : list Z :=
  if negb (bool_decide (storageAccesses a = [])) || negb (oldBalance a =? newBalance a) then
    account a :: (sa_account <$> filter (λ s, isWrite s = true ∧ sa_reverted s = false) (storageAccesses a))
  else [].
Definition addresses_to_lookup (recorded : option Frames) : list Z :=
  match recorded with
  | Some frames => mjoin (rev frames) ≫= lookups_of
  | None => []
  end.

Section diffs.
(** The labels and the names of contracts of addresses. *)
Context (labels contract_names : Z → option string).

Definition new_diffs (a : Z) : AccountStateDiffs := mkDiffs (labels a) (contract_names a) None None ∅.

(** The first value is kept, the last one replaced. *)
Definition update_diff (o : option (Z * Z)) (previous new : Z) : Z * Z :=
  match o with Some (p, _) => (p, new) | None => (previous, new) end.

Definition with_balance (a : AccountAccess) (d : AccountStateDiffs) : AccountStateDiffs :=
  mkDiffs (label d) (contract d)
    (Some (update_diff (balance_diff d) (oldBalance a) (newBalance a))) (nonce_diff d) (state_diff d).
Definition with_nonce (a : AccountAccess) (d : AccountStateDiffs) : AccountStateDiffs :=
  mkDiffs (label d) (contract d) (balance_diff d)
    (Some (update_diff (nonce_diff d) (oldNonce a) (newNonce a))) (state_diff d).
Definition with_slot (s : StorageAccess) (d : AccountStateDiffs) : AccountStateDiffs :=
  mkDiffs (label d) (contract d) (balance_diff d) (nonce_diff d)
    (<[slot s := update_diff (state_diff d !! slot s) (previousValue s) (newValue s)]> (state_diff d)).

Definition entry_or_insert (a : Z) (f : AccountStateDiffs → AccountStateDiffs)
    (m : gmap Z AccountStateDiffs) : gmap Z AccountStateDiffs :=
  <[a := f (default (new_diffs a) (m !! a))]> m.

Definition survives (s : StorageAccess) : bool := isWrite s && negb (sa_reverted s).

Definition changes (a : AccountAccess) : bool :=
  negb (bool_decide (storageAccesses a = [])) || negb (oldBalance a =? newBalance a) ||
  negb (oldNonce a =? newNonce a).

Definition add_storage (m : gmap Z AccountStateDiffs) (s : StorageAccess)
    : gmap Z AccountStateDiffs :=
  if survives s then entry_or_insert (sa_account s) (with_slot s) m else m.

Definition add_access (m : gmap Z AccountStateDiffs) (a : AccountAccess)
    : gmap Z AccountStateDiffs :=
  if changes a then
    let m := if oldBalance a =? newBalance a then m
             else entry_or_insert (account a) (with_balance a) m in
    let m := if oldNonce a =? newNonce a then m
             else entry_or_insert (account a) (with_nonce a) m in
    foldl add_storage m (storageAccesses a)
  else m.

End diffs.

(** [contract_data]: the artifact of an address, [get_contract_data]. *)
Definition get_recorded_state_diffs (labels contract_data : Z → option string)
    (recorded : option Frames) : gmap Z AccountStateDiffs :=
  let contract_names a :=
    if decide (a ∈ addresses_to_lookup recorded) then contract_data a else None in
  match recorded with
  | Some frames => foldl (add_access labels contract_names) ∅ (mjoin (rev frames))
  | None => ∅
  end.

(** ** Executions

    What a frame does, as a tree: reads and writes of slots, reads of accounts,
    and the frames it opens.  No frame leaves its end hook early. *)

Inductive Op :=
| OStorage (s : StorageAccess)
| OExt (chain : ChainInfo) (k : AccountAccessKind) (from address : Z) (acc : option Loaded)
| ODestruct (chain : ChainInfo) (from target v : Z) (acc : option Loaded)
| OCall (chain : ChainInfo) (acc : option Loaded) (call : CallInputs) (body : list Op)
    (is_revert : bool) (after : option Loaded)
| OCreate (chain : ChainInfo) (address by_ v : Z) (init_code : list Z) (body : list Op)
    (is_revert : bool) (created : option Loaded).

Section op_ind.
Context (P : Op → Prop)
  (Hstorage : ∀ s, P (OStorage s)) (Hext : ∀ c k f a acc, P (OExt c k f a acc))
  (Hdestruct : ∀ c f t v acc, P (ODestruct c f t v acc))
  (Hcall : ∀ c acc call body r after, Forall P body → P (OCall c acc call body r after))
  (Hcreate : ∀ c a b v i body r created, Forall P body → P (OCreate c a b v i body r created)).

Fixpoint Op_ind' (o : Op) : P o :=
  let all := fix all (l : list Op) : Forall P l :=
    match l with
    | [] => Forall_nil_2 P
    | o :: l => Forall_cons_2 P o l (Op_ind' o) (all l)
    end in
  match o with
  | OStorage s => Hstorage s
  | OExt c k f a acc => Hext c k f a acc
  | ODestruct c f t v acc => Hdestruct c f t v acc
  | OCall c acc call body r after => Hcall c acc call body r after (all body)
  | OCreate c a b v i body r created => Hcreate c a b v i body r created (all body)
  end.
End op_ind.

(** The hooks an execution at depth [d] runs. *)
Fixpoint events (d : Z) (o : Op) : list Event :=
  match o with
  | OStorage s => [Storage d s]
  | OExt c k f a acc => [Ext (ext_access c d k f a acc)]
  | ODestruct c f t v acc => [Destruct (destruct_access c d f t v acc)]
  | OCall c acc call body r after =>
      CallBegin c d acc call :: mbind (events (d + 1)) body ++ [CallEnd d false r after]
  | OCreate c a b v i body r created =>
      CreateBegin c d a b v i :: mbind (events (d + 1)) body ++ [CreateEnd d false r created]
  end.

Definition op_ok_here (o : Op) : Prop :=
  match o with
  | OExt _ k _ _ _ => k ≠ Resume
  | OCall _ _ call _ _ _ => scheme call ≠ Resume
  | _ => True
  end.
Fixpoint op_ok (o : Op) : Prop :=
  op_ok_here o ∧
  match o with
  | OCall _ _ _ body _ _ | OCreate _ _ _ _ _ body _ _ =>
      (fix all (l : list Op) : Prop := match l with [] => True | o :: l => op_ok o ∧ all l end) body
  | _ => True
  end.
Lemma op_ok_body (l : list Op) :
  (fix all (l : list Op) : Prop := match l with [] => True | o :: l => op_ok o ∧ all l end) l ↔
  Forall op_ok l.
Proof. induction l as [|o l IH]; [by rewrite Forall_nil|]. by rewrite Forall_cons, IH. Qed.

(** What happened, in the order of time: an account was accessed, as its record
    says in the end, or a slot was. *)
Inductive Atom := Access (a : AccountAccess) | Slot (s : StorageAccess).
Definition mark_atom (x : Atom) : Atom :=
  match x with Access a => Access (mark_reverted a) | Slot s => Slot (mark_storage s) end.
Definition undone (is_revert : bool) (l : list Atom) : list Atom :=
  if is_revert then mark_atom <$> l else l.

Fixpoint trace (d : Z) (o : Op) : list Atom :=
  match o with
  | OStorage s => [Slot s]
  | OExt c k f a acc => [Access (ext_access c d k f a acc)]
  | ODestruct c f t v acc => [Access (destruct_access c d f t v acc)]
  | OCall c acc call body r after =>
      undone r (Access (finish_call after (call_access c d acc call)) :: mbind (trace (d + 1)) body)
  | OCreate c a b v i body r created =>
      undone r (Access (finish_create created (create_access c d a b v i)) ::
                mbind (trace (d + 1)) body)
  end.

(** The record read in the same way: a [Resume] only carries slots. *)
Definition record_atoms (a : AccountAccess) : list Atom :=
  (if decide (kind a = Resume) then [] else [Access (set_storage [] a)]) ++
  (Slot <$> storageAccesses a).
Definition atoms (l : list AccountAccess) : list Atom := mbind record_atoms l.

Lemma atoms_app l1 l2 : atoms (l1 ++ l2) = atoms l1 ++ atoms l2.
Proof. apply bind_app. Qed.
Lemma atoms_single a : kind a ≠ Resume → storageAccesses a = [] → atoms [a] = [Access a].
Proof.
  intros Hk Hs. unfold atoms, record_atoms. csimpl. rewrite decide_False by done.
  rewrite Hs. csimpl. f_equal. destruct a; cbn in *. by subst.
Qed.

Lemma atoms_mark l : atoms (mark_reverted <$> l) = mark_atom <$> atoms l.
Proof.
  induction l as [|a l IH]; [done|]. unfold atoms in *. csimpl. rewrite IH, fmap_app. f_equal.
  unfold record_atoms. cbn [kind mark_reverted storageAccesses].
  rewrite fmap_app, <-!list_fmap_compose. by destruct (decide _).
Qed.

(** *** Storage accesses *)

Lemma append_storage_atoms e tail s d :
  depth e < d →
  atoms (append_storage_access (e :: tail) s d) = atoms (e :: tail) ++ [Slot s] ∧
  ∃ ss tail', append_storage_access (e :: tail) s d = set_storage ss e :: tail'.
Proof.
  intros Hd. assert (He : e = set_storage (storageAccesses e) e) by by destruct e.
  assert (Hpush : ∀ r, atoms [set_storage (storageAccesses r ++ [s]) r] = atoms [r] ++ [Slot s]).
  { intros r. unfold atoms, record_atoms. csimpl.
    change (storageAccesses (set_storage (storageAccesses r ++ [s]) r)) with (storageAccesses r ++ [s]).
    change (kind (set_storage (storageAccesses r ++ [s]) r)) with (kind r).
    rewrite fmap_app, !app_nil_r, app_assoc. done. }
  unfold append_storage_access. rewrite (proj2 (Z.ltb_lt _ _) Hd).
  destruct tail as [|r tail _] using rev_ind; [split; [apply Hpush|eauto]|].
  rewrite last_snoc. destruct (decide (kind r = Resume)) as [Hr|Hr].
  - replace (removelast (tail ++ [r])) with tail by (symmetry; apply removelast_last).
    split; [|eexists (storageAccesses e), _; by rewrite <-He].
    change (e :: tail ++ [set_storage (storageAccesses r ++ [s]) r])
      with ((e :: tail) ++ [set_storage (storageAccesses r ++ [s]) r]).
    change (e :: tail ++ [r]) with ((e :: tail) ++ [r]).
    rewrite !atoms_app, Hpush. apply app_assoc.
  - split; [|eexists (storageAccesses e), _; by rewrite <-He]. rewrite atoms_app. f_equal.
Qed.

(** *** Frames *)

(** The first record of an open frame is the one it was opened with. *)
Definition frame_of (e : AccountAccess) (frame : list AccountAccess) : Prop :=
  ∃ ss tail, frame = set_storage ss e :: tail.

Lemma frame_of_app e frame l : frame_of e frame → frame_of e (frame ++ l).
Proof. intros (ss & tail & ->). by exists ss, (tail ++ l). Qed.

(** A record that a frame is opened with, and how it is finished. *)
Record opening (d : Z) (e : AccountAccess) (finish : AccountAccess → AccountAccess) : Prop := {
  opening_depth : depth e = d;
  opening_kind : kind e ≠ Resume;
  opening_storage : storageAccesses e = [];
  opening_finish_kind a : kind (finish a) = kind a;
  opening_finish_storage ss a : finish (set_storage ss a) = set_storage ss (finish a);
  opening_finish_mark a : finish (mark_reverted a) = mark_reverted (finish a);
}.

Lemma call_opening c d acc call after :
  scheme call ≠ Resume → opening d (call_access c d acc call) (finish_call after).
Proof. intros Hk. by split; try done; destruct after. Qed.
Lemma create_opening c d a b v i created :
  opening d (create_access c d a b v i) (finish_create created).
Proof. by split; try done; destruct created. Qed.

Lemma set_storage_nil a : storageAccesses a = [] → set_storage [] a = a.
Proof. destruct a; cbn. by intros ->. Qed.

Lemma storage_finish d e finish ss :
  opening d e finish → storageAccesses (finish (set_storage ss e)) = ss.
Proof. intros Ho. by rewrite (opening_finish_storage _ _ _ Ho). Qed.

(** The end of a frame hands its atoms, with the first record finished, to the
    frame below. *)
Lemma frame_end_atoms d e finish is_revert frame rest ts :
  0 < d → opening d e finish → frame_of e frame → atoms frame = Access e :: ts →
  ∃ frame', frame_end d is_revert finish (frame :: rest) = merge_down frame' rest ∧
    frame' ≠ [] ∧ atoms frame' = undone is_revert (Access (finish e) :: ts) ∧
    (∃ a tail, frame' = a :: tail ∧ depth (set_storage [] a) = depth (finish e)).
Proof.
  intros Hd Ho (ss & tail & ->) Hts. unfold frame_end. rewrite (proj2 (Z.ltb_lt _ _) Hd).
  assert (Hk : kind (finish (set_storage ss e)) ≠ Resume).
  { rewrite (opening_finish_kind _ _ _ Ho). apply (opening_kind _ _ _ Ho). }
  assert (Hfin : set_storage [] (finish (set_storage ss e)) = finish e).
  { rewrite (opening_finish_storage _ _ _ Ho).
    rewrite <-(set_storage_nil e) at 2 by apply (opening_storage _ _ _ Ho).
    rewrite (opening_finish_storage _ _ _ Ho). by destruct (finish e). }
  assert (Hall : atoms (finish (set_storage ss e) :: tail) = Access (finish e) :: ts).
  { pose proof (opening_kind _ _ _ Ho) as Hke. unfold atoms, record_atoms in *.
    csimpl. csimpl in Hts.
    change (kind (set_storage ss e)) with (kind e) in Hts.
    rewrite decide_False in Hts by done. rewrite decide_False by done.
    rewrite Hfin, (storage_finish d) by done. cbn in *. by simplify_eq. }
  destruct is_revert; cbn [fmap list_fmap undone].
  - change (depth (mark_reverted (set_storage ss e))) with (depth e).
    rewrite (opening_depth _ _ _ Ho), Z.eqb_refl, (opening_finish_mark _ _ _ Ho).
    eexists; split; [reflexivity|]. split; [done|]. split.
    + change (mark_reverted (finish (set_storage ss e)) :: (mark_reverted <$> tail))
        with (mark_reverted <$> (finish (set_storage ss e) :: tail)).
      by rewrite atoms_mark, Hall.
    + eexists _, _. split; [reflexivity|]. by rewrite <-Hfin.
  - change (depth (set_storage ss e)) with (depth e).
    rewrite (opening_depth _ _ _ Ho), Z.eqb_refl.
    eexists; split; [reflexivity|]. split; [done|]. split; [done|].
    eexists _, _. split; [reflexivity|]. by rewrite <-Hfin.
Qed.

(** ** The record is in the order of time *)

(** Running [o] adds its trace to the open frame. *)
Definition runs (o : Op) : Prop :=
  ∀ d e frame rest, 0 < d → depth e < d → frame_of e frame →
  ∃ frame', foldl step (frame :: rest) (events d o) = frame' :: rest ∧ frame_of e frame' ∧
    atoms frame' = atoms frame ++ trace d o.

Lemma body_runs body d e frame rest :
  Forall runs body → 0 < d → depth e < d → frame_of e frame →
  ∃ frame', foldl step (frame :: rest) (body ≫= events d) = frame' :: rest ∧ frame_of e frame' ∧
    atoms frame' = atoms frame ++ (body ≫= trace d).
Proof.
  intros Hb Hd He. revert frame. induction Hb as [|o body Ho Hb IH]; intros frame Hf; csimpl.
  { exists frame. by rewrite app_nil_r. }
  rewrite foldl_app. destruct (Ho d e frame rest Hd He Hf) as (f1 & -> & Hf1 & Ht1).
  destruct (IH f1 Hf1) as (f2 & -> & Hf2 & Ht2). exists f2. by rewrite Ht2, Ht1, app_assoc.
Qed.

(** A frame from its opening to its end. *)
Lemma frame_runs d e finish is_revert body frames :
  0 < d → opening d e finish → Forall runs body →
  ∃ frame', frame_end d is_revert finish (foldl step ([e] :: frames) (body ≫= events (d + 1))) =
      merge_down frame' frames ∧ frame' ≠ [] ∧
    atoms frame' = undone is_revert (Access (finish e) :: (body ≫= trace (d + 1))) ∧
    (∃ a tail, frame' = a :: tail ∧ depth (set_storage [] a) = depth (finish e)).
Proof.
  intros Hd Ho Hb.
  destruct (body_runs body (d + 1) e [e] frames) as (f & -> & Hf & Ht); [done|lia| | |].
  - rewrite (opening_depth _ _ _ Ho). lia.
  - exists [], []. by rewrite set_storage_nil by apply (opening_storage _ _ _ Ho).
  - apply frame_end_atoms; [done..|]. rewrite Ht, atoms_single by apply Ho. done.
Qed.

Lemma opened_runs (o : Op) d e finish is_revert body :
  (∀ frames, foldl step frames (events d o) =
     frame_end d is_revert finish (foldl step ([e] :: frames) (body ≫= events (d + 1)))) →
  trace d o = undone is_revert (Access (finish e) :: (body ≫= trace (d + 1))) →
  0 < d → opening d e finish → Forall runs body →
  ∀ e0 frame rest, frame_of e0 frame →
  ∃ frame', foldl step (frame :: rest) (events d o) = frame' :: rest ∧ frame_of e0 frame' ∧
    atoms frame' = atoms frame ++ trace d o.
Proof.
  intros Hev Htr Hd Ho Hb e0 frame rest Hf. rewrite Hev.
  destruct (frame_runs d e finish is_revert body (frame :: rest)) as (f & -> & Hne & Ht & _); [done..|].
  exists (frame ++ f). split; [by destruct f|]. split; [by apply frame_of_app|].
  by rewrite atoms_app, Ht, Htr.
Qed.

Lemma op_runs o : op_ok o → runs o.
Proof.
  induction o as [s|c k f a acc|c f t v acc|c acc call body r after IH|c a b v i body r created IH]
    using Op_ind'; intros [Hhere Hrest] d e frame rest Hd He Hf.
  - destruct Hf as (ss & tail & ->). cbn [events foldl step record_storage].
    destruct (append_storage_atoms (set_storage ss e) tail s d He) as (Ha & ss' & tail' & Heq).
    rewrite Heq in Ha |- *. eexists. split; [reflexivity|]. split; [by exists ss', tail'|]. exact Ha.
  - eexists. split; [reflexivity|]. split; [by apply frame_of_app|].
    by rewrite atoms_app, atoms_single.
  - eexists. split; [reflexivity|]. split; [by apply frame_of_app|].
    by rewrite atoms_app, atoms_single.
  - apply op_ok_body in Hrest.
    eapply (opened_runs _ d (call_access c d acc call) (finish_call after) r body); try done.
    + intros frames. cbn [events]. csimpl. by rewrite foldl_app.
    + by apply call_opening.
    + decompose_Forall. eauto.
  - apply op_ok_body in Hrest.
    eapply (opened_runs _ d (create_access c d a b v i) (finish_create created) r body); try done.
    + intros frames. cbn [events]. csimpl. by rewrite foldl_app.
    + apply create_opening.
    + decompose_Forall. eauto.
Qed.

(** *** A whole session *)

(** What the context that starts a recording does: its own slots are not
    recorded, and it does not destruct itself. *)
Definition session_op (o : Op) : Prop := match o with ODestruct _ _ _ _ _ => False | _ => True end.
Definition session_trace (d : Z) (o : Op) : list Atom :=
  match o with OStorage _ => [] | _ => trace d o end.

(** After some of them there is no frame or one that starts at the depth of the
    session. *)
Definition session_frames (d : Z) (frames : Frames) (ts : list Atom) : Prop :=
  frames = [] ∧ ts = [] ∨
  ∃ a tail, frames = [a :: tail] ∧ depth a = d ∧ atoms (a :: tail) = ts.

Lemma session_frame d e finish is_revert body frames ts :
  0 < d → opening d e finish → (∀ a, depth (finish a) = depth a) → Forall op_ok body →
  session_frames d frames ts →
  session_frames d (frame_end d is_revert finish (foldl step ([e] :: frames) (body ≫= events (d + 1))))
    (ts ++ undone is_revert (Access (finish e) :: (body ≫= trace (d + 1)))).
Proof.
  intros Hd Ho Hfd Hb Hs.
  destruct (frame_runs d e finish is_revert body frames) as (f & -> & Hne & Ht & a & tail & -> & Ha);
    [done..|by eapply Forall_impl, op_runs|].
  right. destruct Hs as [[-> ->]|(a0 & tail0 & -> & Hd0 & <-)].
  - exists a, tail. split; [done|]. split; [|by rewrite Ht].
    change (depth a) with (depth (set_storage [] a)). rewrite Ha, Hfd. apply (opening_depth _ _ _ Ho).
  - exists a0, (tail0 ++ a :: tail). split; [done|]. split; [done|].
    change (a0 :: tail0 ++ a :: tail) with ((a0 :: tail0) ++ a :: tail). by rewrite atoms_app, Ht.
Qed.

Lemma session_step d o frames ts :
  0 < d → op_ok o → session_op o → session_frames d frames ts →
  session_frames d (foldl step frames (events d o)) (ts ++ session_trace d o).
Proof.
  destruct o as [s|c k f a acc|c f t v acc|c acc call body r after|c a b v i body r created];
    intros Hd [Hhere Hrest] Ht Hs.
  - cbn. rewrite app_nil_r. destruct Hs as [[-> ->]|(a & tail & -> & Hda & <-)]; [by left|].
    right. exists a, tail. unfold record_storage, append_storage_access.
    by rewrite Hda, Z.ltb_irrefl.
  - cbn [events foldl step]. right. destruct Hs as [[-> ->]|(a0 & tail & -> & Hda & <-)].
    + eexists _, _. split; [reflexivity|]. split; [done|]. by apply atoms_single.
    + eexists a0, _. split; [reflexivity|]. split; [done|].
      rewrite (app_comm_cons tail), atoms_app. by rewrite atoms_single.
  - done.
  - apply op_ok_body in Hrest. cbn [events]. csimpl. rewrite foldl_app.
    apply session_frame; try done; [by apply call_opening|by destruct after].
  - apply op_ok_body in Hrest. cbn [events]. csimpl. rewrite foldl_app.
    apply session_frame; try done; [apply create_opening|by destruct created].
Qed.

Lemma session_runs d ops frames ts :
  0 < d → Forall op_ok ops → Forall session_op ops → session_frames d frames ts →
  session_frames d (foldl step frames (ops ≫= events d)) (ts ++ (ops ≫= session_trace d)).
Proof.
  intros Hd Hok. revert frames ts. induction Hok as [|o ops Ho Hok IH]; intros frames ts Hs Hf; csimpl.
  { by rewrite app_nil_r. }
  apply Forall_cons in Hs as [Ho' Hs]. rewrite foldl_app, app_assoc.
  apply IH; [done|]. by apply session_step.
Qed.

Lemma hooks_some frames es : foldl hook (Some frames) es = Some (foldl step frames es).
Proof. revert frames. induction es as [|e es IH]; intros frames; [done|]. apply IH. Qed.

Lemma session_atoms d ops recorded :
  0 < d → Forall op_ok ops → Forall session_op ops →
  atoms (get_state_diff (foldl hook (startStateDiffRecording recorded) (ops ≫= events d))).1 =
  ops ≫= session_trace d.
Proof.
  intros Hd Hok Hs. unfold startStateDiffRecording. rewrite hooks_some. unfold get_state_diff. cbn [fst default].
  destruct (session_runs d ops [] [] Hd Hok Hs (or_introl (conj eq_refl eq_refl)))
    as [[-> Hts]|(a & tail & -> & _ & Ha)]; [exact (eq_sym Hts)|].
  rewrite app_nil_l in Ha. rewrite <-Ha.
  assert (Hj : ∀ l : list AccountAccess, mjoin (rev [l]) = l) by (intros l; apply app_nil_r).
  exact (f_equal atoms (Hj _)).
Qed.

(** The accesses of a recording session are returned in the order of time:
    read from the first record to the last, they are exactly the calls,
    creations and reads of accounts and the reads and writes of slots of
    everything the session executed, each with what its frame returned, and
    marked as reverted exactly when one of the frames around it reverted. *)
Theorem recorded_in_order d ops recorded :
  0 < d → Forall op_ok ops → Forall session_op ops →
  atoms (get_state_diff (foldl hook (startStateDiffRecording recorded) (ops ≫= events d))).1 =
  ops ≫= session_trace d.
Proof. apply session_atoms. Qed.

(** ** The sum of the changes is exact *)

Section diffs_spec.
Context (labels contract_names : Z → option string).
Local Abbreviation add_access := (add_access labels contract_names).
Local Abbreviation add_storage := (add_storage labels contract_names).

(** The writes of a slot that were not reverted. *)
Definition writes_to (a k : Z) (s : StorageAccess) : bool :=
  survives s && (sa_account s =? a) && (slot s =? k).
Definition slot_writes (a k : Z) (l : list Atom) : list StorageAccess :=
  omap (λ x, match x with
    | Slot s => if writes_to a k s then Some s else None
    | Access _ => None
    end) l.

(** The value before the first and after the last of some writes. *)
Fixpoint first_last (l : list StorageAccess) : option (Z * Z) :=
  match l with
  | [] => None
  | s :: l => Some (previousValue s, match first_last l with Some (_, v) => v | None => newValue s end)
  end.

Definition slot_diff (m : gmap Z AccountStateDiffs) (a k : Z) : option (Z * Z) :=
  d ← m !! a; state_diff d !! k.

(** Writes added to what a slot has so far. *)
Definition add_writes (o : option (Z * Z)) (l : list StorageAccess) : option (Z * Z) :=
  match first_last l, o with
  | None, _ => o
  | Some (p, v), None => Some (p, v)
  | Some (_, v), Some (p, _) => Some (p, v)
  end.

Lemma add_writes_nil o : add_writes o [] = o.
Proof. done. Qed.
Lemma add_writes_cons o s l :
  add_writes o (s :: l) = add_writes (Some (update_diff o (previousValue s) (newValue s))) l.
Proof. unfold add_writes. destruct o as [[p q]|]; cbn; destruct (first_last l) as [[??]|]; done. Qed.
Lemma add_writes_app o l1 l2 : add_writes o (l1 ++ l2) = add_writes (add_writes o l1) l2.
Proof.
  revert o. induction l1 as [|s l1 IH]; intros o; [done|].
  cbn [app]. rewrite add_writes_cons, IH, <-add_writes_cons. done.
Qed.

Lemma slot_writes_app a k l1 l2 : slot_writes a k (l1 ++ l2) = slot_writes a k l1 ++ slot_writes a k l2.
Proof. apply omap_app. Qed.

Lemma slot_diff_same b f m a k :
  (∀ d, state_diff (f d) = state_diff d) →
  slot_diff (entry_or_insert labels contract_names b f m) a k = slot_diff m a k.
Proof.
  intros Hf. unfold slot_diff, entry_or_insert. destruct (decide (b = a)) as [->|Hne].
  - rewrite lookup_insert_eq. cbn. rewrite Hf. destruct (m !! a); cbn; [done|apply lookup_empty].
  - by rewrite lookup_insert_ne.
Qed.

Lemma slot_diff_storage m s a k :
  slot_diff (add_storage m s) a k = add_writes (slot_diff m a k) (slot_writes a k [Slot s]).
Proof.
  unfold slot_writes, writes_to. cbn [omap list_omap]. unfold add_storage.
  destruct (survives s) eqn:Hs; cbn [andb]; [|done].
  unfold slot_diff, entry_or_insert. destruct (Z.eqb_spec (sa_account s) a) as [<-|Ha]; cbn [andb].
  - rewrite lookup_insert_eq. cbn.
    destruct (Z.eqb_spec (slot s) k) as [<-|Hk]; [rewrite lookup_insert_eq|rewrite lookup_insert_ne by done].
    + rewrite add_writes_cons, add_writes_nil. destruct (m !! sa_account s) as [d|]; cbn; [done|].
      by rewrite lookup_empty.
    + destruct (m !! sa_account s); cbn; [done|]. by rewrite lookup_empty.
  - by rewrite lookup_insert_ne.
Qed.

Lemma slot_diff_storages l m a k :
  slot_diff (foldl add_storage m l) a k = add_writes (slot_diff m a k) (slot_writes a k (Slot <$> l)).
Proof.
  revert m. induction l as [|s l IH]; intros m; [done|]. cbn [foldl]. rewrite IH, slot_diff_storage.
  change (Slot <$> s :: l) with ([Slot s] ++ (Slot <$> l)).
  by rewrite slot_writes_app, add_writes_app.
Qed.

Lemma slot_diff_access m r a k :
  slot_diff (add_access m r) a k = add_writes (slot_diff m a k) (slot_writes a k (record_atoms r)).
Proof.
  assert (Hw : slot_writes a k (record_atoms r) = slot_writes a k (Slot <$> storageAccesses r)).
  { unfold record_atoms. rewrite slot_writes_app. by destruct (decide _). }
  rewrite Hw. unfold add_access. destruct (changes r) eqn:Hc.
  - rewrite slot_diff_storages. f_equal.
    repeat case_match; rewrite ?slot_diff_same; done.
  - unfold changes in Hc. destruct (storageAccesses r); [done|]. done.
Qed.

Lemma slot_diff_accesses l m a k :
  slot_diff (foldl add_access m l) a k = add_writes (slot_diff m a k) (slot_writes a k (atoms l)).
Proof.
  revert m. induction l as [|r l IH]; intros m; [done|]. cbn [foldl]. rewrite IH, slot_diff_access.
  change (atoms (r :: l)) with (record_atoms r ++ atoms l).
  by rewrite slot_writes_app, add_writes_app.
Qed.

End diffs_spec.

(** The summary of a session shows a slot exactly when a write to it was not
    reverted, with the value before the first of those writes and the value of
    the last of them, in the order in which they were executed. *)
Theorem slot_diffs_exact labels contract_data d ops recorded a k :
  0 < d → Forall op_ok ops → Forall session_op ops →
  slot_diff (get_recorded_state_diffs labels contract_data
    (foldl hook (startStateDiffRecording recorded) (ops ≫= events d))) a k =
  first_last (slot_writes a k (ops ≫= session_trace d)).
Proof.
  intros Hd Hok Hs. rewrite <-(session_atoms d ops recorded Hd Hok Hs).
  unfold startStateDiffRecording. rewrite hooks_some. unfold get_recorded_state_diffs, get_state_diff.
  cbn [fst default].
  rewrite slot_diff_accesses. unfold slot_diff at 1. rewrite lookup_empty.
  unfold add_writes. by destruct (first_last _) as [[??]|].
Qed.

(** ** Concrete sessions *)

Module DiffExample.
Definition chain : ChainInfo := mkChain 0 31337.
Definition acct (b : Z) : option Loaded := Some (mkLoaded true b 1 []).
Definition read (a k v : Z) : StorageAccess := mkStorage a k false v v false.
Definition write (a k p v : Z) : StorageAccess := mkStorage a k true p v false.
Definition to (from a : Z) : CallInputs := mkCall from a Call 0 [].

(** The account 10 writes a slot and calls 11, which writes and reverts, then 10
    writes again. *)
Definition nested : Op :=
  OCall chain (acct 5) (to 1 10)
    [OStorage (write 10 0 0 7);
     OCall chain (acct 6) (to 10 11) [OStorage (write 11 3 0 9)] true (acct 6);
     OStorage (write 10 0 7 8)] false (acct 4).
Definition ops : list Op := [OStorage (write 1 0 0 1); nested].

Lemma ops_ok : Forall op_ok ops ∧ Forall session_op ops.
Proof. repeat (split || constructor || discriminate). Qed.

Lemma recorded_in_order_witness :
  (kind <$> (get_state_diff (foldl hook (startStateDiffRecording None) (ops ≫= events 1))).1) =
    [Call; Call; Resume] ∧
  atoms (get_state_diff (foldl hook (startStateDiffRecording None) (ops ≫= events 1))).1 =
    (ops ≫= session_trace 1).
Proof.
  split; [reflexivity|].
  exact (recorded_in_order 1 ops None Z.lt_0_1 (proj1 ops_ok) (proj2 ops_ok)).
Defined.

Definition unnamed (_ : Z) : option string := None.
Definition diffs (es : list Event) : gmap Z AccountStateDiffs :=
  get_recorded_state_diffs unnamed unnamed (foldl hook (startStateDiffRecording None) es).

Lemma slot_diffs_exact_witness :
  slot_diff (diffs (ops ≫= events 1)) 10 0 = first_last (slot_writes 10 0 (ops ≫= session_trace 1)) ∧
  first_last (slot_writes 10 0 (ops ≫= session_trace 1)) = Some (0, 8) ∧
  slot_diff (diffs (ops ≫= events 1)) 11 3 = None.
Proof.
  split; [|split; vm_compute; reflexivity].
  exact (slot_diffs_exact unnamed unnamed 1 ops None 10 0 Z.lt_0_1 (proj1 ops_ok) (proj2 ops_ok)).
Defined.

(** *** Where the code does not do what it is meant to *)

(** A [Resume] stands for the context it carries on.  When the last thing a
    callee does is to carry on, the slots that its caller reads next are put
    into the callee's [Resume]. *)
Definition resuming : Op :=
  OCall chain (acct 0) (to 1 10)
    [OCall chain (acct 0) (to 10 11)
       [OCall chain (acct 0) (to 11 12) [] false (acct 0); OStorage (read 11 0 5)] false (acct 0);
     OStorage (read 10 0 6)] false (acct 0).
Example caller_resumes_in_callee :
  match last (get_state_diff (foldl hook (startStateDiffRecording None) (events 1 resuming))).1 with
  | Some a => Some (kind a, account a, depth a, sa_account <$> storageAccesses a)
  | None => None
  end = Some (Resume, 11, 2, [11; 10]).
Proof. reflexivity. Qed.

(** A call whose revert was expected leaves the hook before the recording: what
    it wrote is returned as not reverted, and summed up. *)
Definition expected_revert : list Event :=
  [CallBegin chain 1 (acct 0) (to 1 10); Storage 2 (write 10 0 0 7); CallEnd 1 true true (acct 0)].
Example expected_revert_survives : slot_diff (diffs expected_revert) 10 0 = Some (0, 7).
Proof. reflexivity. Qed.

(** In a delegate call the balances are those of the calling contract, under the
    address of the code: the summary shows a change of the library. *)
Definition delegated : Op :=
  OCall chain (acct 9) (to 1 10)
    [OCall chain (acct 9) (mkCall 1 77 DelegateCall 0 []) [] false (acct 4)] false (acct 4).
Example delegate_balance_misplaced :
  (diffs (events 1 delegated) !! 77) ≫= balance_diff = Some (9, 4).
Proof. reflexivity. Qed.

(** The balance of an account that only changed inside a reverted frame is
    shown as changed. *)
Definition reverted_payment : Op :=
  OCall chain (acct 0) (to 1 10)
    [OCall chain (acct 3) (to 10 11) [] false (acct 8)] true (acct 0).
Example reverted_balance_shown : (diffs (events 1 reverted_payment) !! 11) ≫= balance_diff = Some (3, 8).
Proof. reflexivity. Qed.

(** [stopAndReturnStateDiff] returns the record and starts a new one. *)
Example stop_goes_on : (get_state_diff (Some [])).2 = Some [].
Proof. reflexivity. Qed.
End DiffExample.
