(* ===== verification/ZkRecorder.v ===== *)
(** * Recording of accesses in the zkSync virtual machine

    Models [crates/zksync/core/src/vm/storage_recorder.rs]: the accesses of
    accounts and slots of a transaction in the zkSync VM, gathered from the
    starts and ends of its calls.

    Stacks are kept with their top first.  [None] is a panic. *)
From S2P Require Import Prelude.
Local Open Scope Z_scope.

(** ** Data *)

Inductive CallType := CallOf | CreateOf (bytecode_hash : Z).

Record StorageKey := mkKey { key_address : Z; key_slot : Z }.
#[export] Instance StorageKey_eq_dec : EqDecision StorageKey.
Proof. solve_decision. Defined.

Record StorageAccess := mkSlotAccess {
  sa_account : Z;
  slot : Z;
  is_write : bool;
  previous_value : Z;
  new_value : Z;
}.

Inductive AccountAccessKind := Call | Create.

Record AccountAccess := mkAccess {
  depth : Z;
  kind : AccountAccessKind;
  account : Z;
  accessor : Z;
  data : list Z;
  deployed_bytecode_hash : Z;
  value : Z;
  old_balance : Z;
  new_balance : Z;
  storage_accesses : list StorageAccess;
}.

Record CallAddresses := mkAddresses { call_account : Z; call_accessor : Z }.
#[export] Instance CallAddresses_eq_dec : EqDecision CallAddresses.
Proof. solve_decision. Defined.

Record AccountAccesses := mkAccesses {
  records : list AccountAccess;
  pending : list AccountAccess;
  records_inner : list AccountAccess;
  is_recording : bool;
  call_skip_tracker : list bool;
  skip_next_call : option (Z * CallAddresses);
}.

Definition AccountAccesses_default : AccountAccesses := mkAccesses [] [] [] false [] None.

(** [is_system_address] of [lib.rs]. *)
Definition MIN_VALID_ADDRESS : Z := 2 ^ 16.
Definition is_system_address (address : Z) : bool := address <? MIN_VALID_ADDRESS.

(** ** Operations *)

Definition get_records (s : AccountAccesses) : option (list AccountAccess) :=
  match call_skip_tracker s, skip_next_call s, pending s, records_inner s with
  | [], None, [], [] => Some (records s)
  | _, _, _, _ => None
  end.

Definition set_recording (b : bool) (s : AccountAccesses) : AccountAccesses :=
  mkAccesses (records s) (pending s) (records_inner s) b (call_skip_tracker s) (skip_next_call s).
Definition start_recording : AccountAccesses → AccountAccesses := set_recording true.
Definition stop_recording : AccountAccesses → AccountAccesses := set_recording false.

Definition add_slot (x : StorageAccess) (a : AccountAccess) : AccountAccess :=
  mkAccess (depth a) (kind a) (account a) (accessor a) (data a) (deployed_bytecode_hash a) (value a)
    (old_balance a) (new_balance a) (storage_accesses a ++ [x]).

Definition record_slot (x : StorageAccess) (s : AccountAccesses) : option AccountAccesses :=
  if negb (is_recording s) then Some s
  else if is_system_address (sa_account x) then Some s
  else
    match pending s with
    | [] => None
    | record :: rest =>
        Some (mkAccesses (records s) (add_slot x record :: rest) (records_inner s) (is_recording s)
                (call_skip_tracker s) (skip_next_call s))
    end.
Definition record_read (key : StorageKey) (v : Z) : AccountAccesses → option AccountAccesses :=
  record_slot (mkSlotAccess (key_address key) (key_slot key) false v v).
Definition record_write (key : StorageKey) (old_value new_value : Z)
    : AccountAccesses → option AccountAccesses :=
  record_slot (mkSlotAccess (key_address key) (key_slot key) true old_value new_value).

(** The arguments of [record_call_start]. *)
Record CallInfo := mkCall {
  call_type : CallType;
  from : Z;
  to : Z;
  balance : Z;
  call_data : list Z;
  call_value : Z;
}.

Definition kind_of (t : CallType) : AccountAccessKind :=
  match t with CallOf => Call | CreateOf _ => Create end.
Definition hash_of (t : CallType) : Z := match t with CallOf => 0 | CreateOf h => h end.

Definition is_system_call (c : CallInfo) : bool :=
  is_system_address (from c) || is_system_address (to c).

Definition last_depth (s : AccountAccesses) : Z :=
  match pending s with
  | record :: _ => depth record
  | [] => match last (records s) with Some record => depth record | None => 0 end
  end.

Definition new_record (c : CallInfo) (d : Z) : AccountAccess :=
  mkAccess d (kind_of (call_type c)) (to c) (from c) (call_data c) (hash_of (call_type c))
    (call_value c) (balance c) 0 [].

(** The call is the one that a creation announced. *)
Definition announced (c : CallInfo) (d : Z) (skip : option (Z * CallAddresses)) : bool :=
  match skip with
  | Some (d', a) => (d' =? d) && (call_accessor a =? from c) && (call_account a =? to c)
  | None => false
  end.

Definition record_call_start (c : CallInfo) (s : AccountAccesses) : option AccountAccesses :=
  if negb (is_recording s) then Some s
  else if is_system_call c then
    Some (mkAccesses (records s) (pending s) (records_inner s) (is_recording s)
            (true :: call_skip_tracker s) (skip_next_call s))
  else
    let new_depth := last_depth s + 1 in
    if umax 64 <? new_depth then None
    else
      let push skip :=
        mkAccesses (records s) (new_record c new_depth :: pending s) (records_inner s)
          (is_recording s) (false :: call_skip_tracker s) skip in
      match call_type c with
      | CreateOf _ =>
          Some (push (Some (u_saturating_add 64 new_depth 1, mkAddresses (to c) (from c))))
      | CallOf =>
          if announced c new_depth (skip_next_call s) then
            Some (mkAccesses (records s) (pending s) (records_inner s) (is_recording s)
                    (true :: call_skip_tracker s) None)
          else Some (push None)
      end.

Definition set_balance (b : Z) (a : AccountAccess) : AccountAccess :=
  mkAccess (depth a) (kind a) (account a) (accessor a) (data a) (deployed_bytecode_hash a) (value a)
    (old_balance a) b (storage_accesses a).

Definition record_call_end (new_balance : Z) (s : AccountAccesses) : option AccountAccesses :=
  if negb (is_recording s) then Some s
  else
    match call_skip_tracker s with
    | [] => None
    | true :: tracker =>
        Some (mkAccesses (records s) (pending s) (records_inner s) (is_recording s) tracker
                (skip_next_call s))
    | false :: tracker =>
        match pending s with
        | [] => None
        | record :: rest =>
            let record := set_balance new_balance record in
            let skip :=
              match skip_next_call s with
              | Some (d, a) => if depth record <? d then None else Some (d, a)
              | None => None
              end in
            Some (match rest with
                  | [] => mkAccesses (records s ++ record :: records_inner s) [] []
                            (is_recording s) tracker skip
                  | _ => mkAccesses (records s) rest (records_inner s ++ [record])
                           (is_recording s) tracker skip
                  end)
        end
    end.

(** What the VM reports. *)
Inductive Event :=
| StartRecording
| StopRecording
| Read (key : StorageKey) (v : Z)
| Write (key : StorageKey) (old_value new_value : Z)
| CallStart (c : CallInfo)
| CallEnd (new_balance : Z).

Definition record (s : AccountAccesses) (e : Event) : option AccountAccesses :=
  match e with
  | StartRecording => Some (start_recording s)
  | StopRecording => Some (stop_recording s)
  | Read k v => record_read k v s
  | Write k o n => record_write k o n s
  | CallStart c => record_call_start c s
  | CallEnd b => record_call_end b s
  end.

(** ** Executions *)

(** What a frame does: slots and calls with their own operations. *)
Inductive Op :=
| Get (key : StorageKey) (v : Z)
| Put (key : StorageKey) (old_value new_value : Z)
| Run (c : CallInfo) (body : list Op) (new_balance : Z).

Section op_ind.
Context (P : Op → Prop)
  (Hget : ∀ k v, P (Get k v)) (Hput : ∀ k o n, P (Put k o n))
  (Hrun : ∀ c body b, Forall P body → P (Run c body b)).

Fixpoint Op_ind' (o : Op) : P o :=
  let all := fix all (l : list Op) : Forall P l :=
    match l with
    | [] => Forall_nil_2 P
    | o :: l => Forall_cons_2 P o l (Op_ind' o) (all l)
    end in
  match o with
  | Get k v => Hget k v
  | Put k o n => Hput k o n
  | Run c body b => Hrun c body b (all body)
  end.
End op_ind.

Fixpoint events (o : Op) : list Event :=
  match o with
  | Get k v => [Read k v]
  | Put k o n => [Write k o n]
  | Run c body b => CallStart c :: mbind events body ++ [CallEnd b]
  end.

Fixpoint calls (o : Op) : Z :=
  match o with
  | Run _ body _ => 1 + zsum calls body
  | _ => 0
  end.

(** *** What the recording of an execution is *)

(** The slots a frame accesses itself, the records of the calls in it, those
    that end first in front, and the constructor call that is awaited. *)
Definition Outcome : Type := list StorageAccess * list AccountAccess * option CallAddresses.

Section sequence.
Context (f : Op → Z → option CallAddresses → Outcome).
Fixpoint sequence (l : list Op) (d : Z) (skip : option CallAddresses) : Outcome :=
  match l with
  | [] => ([], [], skip)
  | o :: l =>
      let r1 := f o d skip in
      let r2 := sequence l d r1.2 in
      (r1.1.1 ++ r2.1.1, r1.1.2 ++ r2.1.2, r2.2)
  end.
End sequence.

Definition own_slot (x : StorageAccess) : list StorageAccess :=
  if is_system_address (sa_account x) then [] else [x].

Definition awaited (c : CallInfo) (skip : option CallAddresses) : bool :=
  match call_type c with
  | CallOf => bool_decide (skip = Some (mkAddresses (to c) (from c)))
  | CreateOf _ => false
  end.
Definition awaits (c : CallInfo) : option CallAddresses :=
  match call_type c with CallOf => None | CreateOf _ => Some (mkAddresses (to c) (from c)) end.

Definition finished (c : CallInfo) (d : Z) (own : list StorageAccess) (b : Z) : AccountAccess :=
  mkAccess d (kind_of (call_type c)) (to c) (from c) (call_data c) (hash_of (call_type c))
    (call_value c) (balance c) b own.

(** In a frame whose record has the depth [d].  Calls from or to the system are
    transparent, and so is the constructor call of a creation. *)
Fixpoint in_frame (o : Op) (d : Z) (skip : option CallAddresses) : Outcome :=
  match o with
  | Get k v => (own_slot (mkSlotAccess (key_address k) (key_slot k) false v v), [], skip)
  | Put k o n => (own_slot (mkSlotAccess (key_address k) (key_slot k) true o n), [], skip)
  | Run c body b =>
      if is_system_call c then sequence in_frame body d skip
      else if awaited c skip then sequence in_frame body d None
      else
        let r := sequence in_frame body (d + 1) (awaits c) in
        ([], r.1.2 ++ [finished c (d + 1) r.1.1 b], None)
  end.

(** Outside of any recorded call: the record of a call precedes those of the
    calls in it, and its depth follows that of the last record. *)
Definition next_depth (l : list AccountAccess) : Z :=
  match last l with Some a => depth a | None => 0 end + 1.
Fixpoint at_root (so_far : list AccountAccess) (o : Op) : list AccountAccess :=
  match o with
  | Run c body b =>
      if is_system_call c then foldl at_root so_far body
      else
        let r := sequence in_frame body (next_depth so_far) (awaits c) in
        so_far ++ finished c (next_depth so_far) r.1.1 b :: r.1.2
  | _ => so_far
  end.

(** Outside of recorded calls only slots of the system are accessed. *)
Fixpoint root_ok (o : Op) : bool :=
  match o with
  | Get k _ | Put k _ _ => is_system_address (key_address k)
  | Run c body _ => if is_system_call c then forallb root_ok body else true
  end.

(** ** The recording follows the execution *)

Definition add_slots (l : list StorageAccess) (a : AccountAccess) : AccountAccess :=
  mkAccess (depth a) (kind a) (account a) (accessor a) (data a) (deployed_bytecode_hash a) (value a)
    (old_balance a) (new_balance a) (storage_accesses a ++ l).

(** A constructor call is awaited right below the frame of its creation. *)
Definition skip_at (d : Z) (skip : option CallAddresses) : option (Z * CallAddresses) :=
  (λ a, (d + 1, a)) <$> skip.

(** The state after the operations of a frame. *)
Definition after (s : AccountAccesses) (top : AccountAccess) (rest : list AccountAccess) (r : Outcome)
    : AccountAccesses :=
  mkAccesses (records s) (add_slots r.1.1 top :: rest) (records_inner s ++ r.1.2) true
    (call_skip_tracker s) (skip_at (depth top) r.2).

Lemma add_slots_nil a : add_slots [] a = a.
Proof. destruct a. unfold add_slots. cbn. by rewrite app_nil_r. Qed.
Lemma add_slots_app l1 l2 a : add_slots l2 (add_slots l1 a) = add_slots (l1 ++ l2) a.
Proof. unfold add_slots. cbn. by rewrite app_assoc. Qed.
Lemma after_nothing s top rest skip :
  is_recording s = true → pending s = top :: rest → skip_next_call s = skip_at (depth top) skip →
  s = after s top rest ([], [], skip).
Proof.
  intros Hr Hp Hs. unfold after. cbn [fst snd]. rewrite add_slots_nil, app_nil_r, <-Hs, <-Hp, <-Hr.
  by destruct s.
Qed.
Lemma after_app s top rest r1 r2 :
  after (after s top rest r1) (add_slots r1.1.1 top) rest r2 =
  after s top rest (r1.1.1 ++ r2.1.1, r1.1.2 ++ r2.1.2, r2.2).
Proof. unfold after. cbn. by rewrite add_slots_app, app_assoc. Qed.

Lemma calls_nonneg o : 0 <= calls o.
Proof.
  induction o as [| |c body b IH] using Op_ind'; cbn; try lia.
  enough (0 <= zsum calls body) by lia. apply zsum_nonneg. by apply Forall_forall.
Qed.
Lemma all_calls_nonneg l : 0 <= zsum calls l.
Proof. apply zsum_nonneg. intros. apply calls_nonneg. Qed.

(** The operation [o] of the frame [top] does what [in_frame] says. *)
Definition op_follows (o : Op) : Prop := ∀ s top rest skip,
  is_recording s = true → pending s = top :: rest → skip_next_call s = skip_at (depth top) skip →
  depth top + calls o < umax 64 →
  fold_opt record s (events o) = Some (after s top rest (in_frame o (depth top) skip)).
Definition body_follows (l : list Op) : Prop := ∀ s top rest skip,
  is_recording s = true → pending s = top :: rest → skip_next_call s = skip_at (depth top) skip →
  depth top + zsum calls l < umax 64 →
  fold_opt record s (l ≫= events) = Some (after s top rest (sequence in_frame l (depth top) skip)).

Lemma body_recorded l : Forall op_follows l → body_follows l.
Proof.
  induction 1 as [|o l Ho Hl IH]; intros s top rest skip Hr Hp Hs Hd; csimpl.
  { f_equal. by apply after_nothing. }
  change (zsum calls (o :: l)) with (calls o + zsum calls l) in Hd.
  pose proof (calls_nonneg o). pose proof (all_calls_nonneg l).
  rewrite fold_opt_app, (Ho s top rest skip) by (done || lia). cbn [mbind option_bind].
  rewrite (IH _ (add_slots (in_frame o (depth top) skip).1.1 top) rest (in_frame o (depth top) skip).2)
    by (done || cbn; lia).
  by rewrite after_app.
Qed.

Lemma slot_follows s top rest skip x :
  is_recording s = true → pending s = top :: rest → skip_next_call s = skip_at (depth top) skip →
  record_slot x s = Some (after s top rest (own_slot x, [], skip)).
Proof.
  intros Hr Hp Hs. unfold record_slot, own_slot. rewrite Hr, Hp. cbn [negb].
  destruct (is_system_address (sa_account x)); [f_equal; by apply after_nothing|].
  unfold after. cbn [fst snd]. by rewrite app_nil_r, <-Hs.
Qed.

Lemma announced_awaited c d d' skip :
  call_type c = CallOf → d' = d + 1 → announced c d' (skip_at d skip) = awaited c skip.
Proof.
  intros Ht ->. unfold announced, awaited. rewrite Ht. destruct skip as [[a1 a2]|]; cbn.
  - rewrite Z.eqb_refl. cbn [andb]. destruct (Z.eqb_spec a2 (from c)), (Z.eqb_spec a1 (to c)); cbn;
      symmetry; (apply bool_decide_eq_true_2 || apply bool_decide_eq_false_2); congruence.
  - symmetry. by apply bool_decide_eq_false_2.
Qed.

(** The start of a call that is recorded. *)
Lemma start_recorded c s d :
  is_recording s = true → is_system_call c = false → last_depth s = d → d + 1 < umax 64 →
  announced c (d + 1) (skip_next_call s) = false ∨ call_type c ≠ CallOf →
  record_call_start c s =
    Some (mkAccesses (records s) (new_record c (d + 1) :: pending s) (records_inner s) true
            (false :: call_skip_tracker s) (skip_at (d + 1) (awaits c))).
Proof.
  intros Hr Hc <- Hd Ha. unfold record_call_start. rewrite Hr, Hc. cbn [negb].
  rewrite (proj2 (Z.ltb_ge _ _)) by lia. unfold awaits. destruct (call_type c) eqn:Ht.
  - destruct Ha as [->|]; done.
  - cbn. unfold u_saturating_add. by rewrite Z.min_r by lia.
Qed.

(** A call that is not recorded leaves its body to the frame around it. *)
Lemma transparent_run c body b s s' s'' :
  record_call_start c s = Some s' → fold_opt record s' (body ≫= events) = Some s'' →
  is_recording s'' = true → call_skip_tracker s'' = true :: call_skip_tracker s →
  fold_opt record s (events (Run c body b)) =
    Some (mkAccesses (records s'') (pending s'') (records_inner s'') true (call_skip_tracker s)
            (skip_next_call s'')).
Proof.
  intros Hc Hb Hr Ht. cbn [events fold_opt record]. rewrite Hc. cbn [mbind option_bind].
  rewrite fold_opt_app, Hb. cbn [mbind option_bind fold_opt record]. unfold record_call_end.
  by rewrite Hr, Ht.
Qed.

(** A recorded call: its frame is opened, and closed with what it did. *)
Lemma recorded_run c body b s d :
  body_follows body →
  is_recording s = true → is_system_call c = false → last_depth s = d →
  d + (1 + zsum calls body) < umax 64 →
  announced c (d + 1) (skip_next_call s) = false ∨ call_type c ≠ CallOf →
  let r := sequence in_frame body (d + 1) (awaits c) in
  let a := finished c (d + 1) r.1.1 b in
  fold_opt record s (events (Run c body b)) =
    Some (match pending s with
          | [] => mkAccesses (records s ++ a :: records_inner s ++ r.1.2) [] [] true
                    (call_skip_tracker s) None
          | rest => mkAccesses (records s) rest (records_inner s ++ r.1.2 ++ [a]) true
                      (call_skip_tracker s) None
          end).
Proof.
  intros Hb Hr Hc Hl Hd Ha. pose proof (all_calls_nonneg body). cbn [events fold_opt record].
  rewrite (start_recorded c s d Hr Hc Hl) by (done || lia). cbn [mbind option_bind].
  rewrite fold_opt_app,
    (Hb _ (new_record c (d + 1)) (pending s) (awaits c)) by (done || (cbn [depth new_record]; lia)).
  cbn [mbind option_bind fold_opt record]. unfold record_call_end. cbn.
  assert (Hn : match skip_at (d + 1) (sequence in_frame body (d + 1) (awaits c)).2 with
               | Some (d0, a) => if d + 1 <? d0 then None else Some (d0, a)
               | None => None
               end = None).
  { destruct (_.2) as [x|]; cbn; [|done]. by rewrite (proj2 (Z.ltb_lt _ _)) by lia. }
  destruct (pending s) as [|p q]; cbn; [by rewrite Hn|].
  rewrite Hn. by rewrite app_assoc.
Qed.

Lemma op_recorded o : op_follows o.
Proof.
  induction o as [k v|k v w|c body b IH] using Op_ind'; intros s top rest skip Hr Hp Hs Hd.
  - cbn [events fold_opt record]. unfold record_read. by rewrite (slot_follows s top rest skip).
  - cbn [events fold_opt record]. unfold record_write. by rewrite (slot_follows s top rest skip).
  - apply body_recorded in IH. cbn [calls] in Hd. pose proof (all_calls_nonneg body).
    assert (Hl : last_depth s = depth top) by (unfold last_depth; by rewrite Hp).
    cbn [in_frame]. destruct (is_system_call c) eqn:Hc.
    { erewrite (transparent_run c body b s); [|by unfold record_call_start; rewrite Hr, Hc|..];
        [|apply (IH _ top rest skip); [done..|lia]|done..].
      done. }
    destruct (awaited c skip) eqn:Ha.
    { assert (call_type c = CallOf) as Ht by (revert Ha; unfold awaited; by destruct (call_type c)).
      rewrite <-(announced_awaited c (depth top) (depth top + 1) skip Ht eq_refl), <-Hs in Ha.
      assert (Hst : record_call_start c s = Some (mkAccesses (records s) (pending s) (records_inner s)
                      (is_recording s) (true :: call_skip_tracker s) None)).
      { unfold record_call_start. rewrite Hr, Hc, Hl, Ht. cbn [negb].
        rewrite (proj2 (Z.ltb_ge _ _)) by lia. by rewrite Ha. }
      erewrite (transparent_run c body b s _ _ Hst); [|apply (IH _ top rest None); [done..|lia]|done..].
      done. }
    rewrite (recorded_run c body b s (depth top)) by
      (done || lia || (rewrite Hs; destruct (call_type c) eqn:Ht;
         [left; by rewrite announced_awaited|by right])).
    rewrite Hp. unfold after. cbn. by rewrite add_slots_nil.
Qed.

(** *** Outside of recorded calls *)

Definition depth_at_most (n : Z) (a : AccountAccess) : Prop := depth a <= n.

Definition op_bounded (o : Op) : Prop :=
  ∀ d skip, Forall (depth_at_most (d + calls o)) (in_frame o d skip).1.2.

Lemma depth_at_most_weaken n m l : n <= m → Forall (depth_at_most n) l → Forall (depth_at_most m) l.
Proof. intros Hm Hl. eapply Forall_impl; [exact Hl|]. unfold depth_at_most. intros a. lia. Qed.

Lemma body_bounded l d skip :
  Forall op_bounded l → Forall (depth_at_most (d + zsum calls l)) (sequence in_frame l d skip).1.2.
Proof.
  intros Hl. revert skip. induction Hl as [|o l Ho Hl IH]; intros skip; cbn [sequence fst snd]; [constructor|].
  change (zsum calls (o :: l)) with (calls o + zsum calls l).
  pose proof (calls_nonneg o). pose proof (all_calls_nonneg l).
  apply Forall_app. split; [eapply depth_at_most_weaken, Ho|eapply depth_at_most_weaken, IH]; lia.
Qed.

Lemma in_frame_bounded o : op_bounded o.
Proof.
  induction o as [k v|k v w|c body b IH] using Op_ind'; intros d skip; [constructor..|].
  cbn [in_frame calls]. pose proof (all_calls_nonneg body).
  destruct (is_system_call c); [eapply depth_at_most_weaken, body_bounded; [lia|done]|].
  destruct (awaited c skip); [eapply depth_at_most_weaken, body_bounded; [lia|done]|].
  cbn [fst snd]. apply Forall_app. split.
  - eapply depth_at_most_weaken, body_bounded; [lia|done].
  - apply Forall_singleton. unfold depth_at_most. cbn. lia.
Qed.

Definition root_state (so_far : list AccountAccess) (tracker : list bool) : AccountAccesses :=
  mkAccesses so_far [] [] true tracker None.

Definition root_follows (o : Op) : Prop := ∀ so_far tracker,
  root_ok o = true → next_depth so_far + calls o <= umax 64 →
  fold_opt record (root_state so_far tracker) (events o) = Some (root_state (at_root so_far o) tracker) ∧
  next_depth (at_root so_far o) <= next_depth so_far + calls o.

Lemma roots_run l so_far tracker :
  Forall root_follows l → forallb root_ok l = true → next_depth so_far + zsum calls l <= umax 64 →
  fold_opt record (root_state so_far tracker) (l ≫= events) =
    Some (root_state (foldl at_root so_far l) tracker) ∧
  next_depth (foldl at_root so_far l) <= next_depth so_far + zsum calls l.
Proof.
  intros Hl. revert so_far. induction Hl as [|o l Ho Hl IH]; intros so_far Hok Hd; csimpl.
  { split; [done|cbn; lia]. }
  apply andb_prop in Hok as [Hok1 Hok2].
  change (zsum calls (o :: l)) with (calls o + zsum calls l) in *. pose proof (all_calls_nonneg l).
  destruct (Ho so_far tracker Hok1) as [Hs Hn]; [lia|].
  destruct (IH (at_root so_far o) Hok2) as [Hs' Hn']; [lia|].
  rewrite fold_opt_app, Hs. cbn [mbind option_bind]. split; [done|lia].
Qed.

Lemma next_depth_record so_far a l n :
  depth a <= n → Forall (depth_at_most n) l → next_depth (so_far ++ a :: l) <= n + 1.
Proof.
  intros Ha Hl. unfold next_depth. rewrite last_app_cons.
  destruct (last (a :: l)) as [x|] eqn:Hx; [|by rewrite last_cons in Hx; destruct (last l)].
  apply last_Some_elem_of in Hx. apply elem_of_cons in Hx as [->|Hx]; [lia|].
  rewrite Forall_forall in Hl. specialize (Hl x Hx). unfold depth_at_most in Hl. lia.
Qed.

Lemma root_runs o : root_follows o.
Proof.
  induction o as [k v|k v w|c body b IH] using Op_ind'; intros so_far tracker Hok Hd; cbn [root_ok calls] in *.
  1,2: cbn [events fold_opt record mbind option_bind]; unfold record_read, record_write, record_slot; cbn;
       rewrite Hok; split; [done|lia].
  pose proof (all_calls_nonneg body). cbn [at_root]. destruct (is_system_call c) eqn:Hc.
  - destruct (roots_run body so_far (true :: tracker) IH Hok) as [Hs Hn]; [lia|]. split; [|lia].
    erewrite (transparent_run c body b (root_state so_far tracker));
      [|by unfold record_call_start; cbn [is_recording root_state negb]; rewrite Hc|exact Hs|done..].
    done.
  - split.
    + rewrite (recorded_run c body b (root_state so_far tracker) (next_depth so_far - 1)) by
        (done || lia || (by left) || (by apply body_recorded, Forall_forall; intros; apply op_recorded) ||
         (unfold last_depth, next_depth; cbn; lia)).
      replace (next_depth so_far - 1 + 1) with (next_depth so_far) by lia. done.
    + etransitivity; [apply next_depth_record with (n := next_depth so_far + zsum calls body)|lia].
      * cbn. lia.
      * apply body_bounded. apply Forall_forall. intros. apply in_frame_bounded.
Qed.

(** Everything a transaction does, between the start and the end of the recording. *)
Definition session (ops : list Op) : list Event := StartRecording :: (ops ≫= events) ++ [StopRecording].

Lemma session_records ops :
  forallb root_ok ops = true → zsum calls ops < umax 64 →
  fold_opt record AccountAccesses_default (session ops) ≫= get_records = Some (foldl at_root [] ops).
Proof.
  intros Hok Hd. unfold session. cbn [fold_opt record mbind option_bind].
  change (start_recording AccountAccesses_default) with (root_state [] []).
  destruct (roots_run ops [] []) as [Hs _];
    [by apply Forall_forall; intros; apply root_runs|done|change (next_depth []) with 1; lia|].
  rewrite fold_opt_app, Hs. done.
Qed.

(** C35: Of any transaction whose storage accesses outside of recorded calls are
    those of system contracts, the recorder returns the accesses without a
    panic: each call between addresses that are not of the system once, with
    its depth, its data, its balances and the slots accessed by its own frame;
    the calls of system contracts and the constructor call of a creation are
    merged into the frame around them, and nothing is left pending. *)
Theorem records_follow_execution ops :
  forallb root_ok ops = true → zsum calls ops < umax 64 →
  fold_opt record AccountAccesses_default (session ops) ≫= get_records = Some (foldl at_root [] ops).
Proof. apply session_records. Qed.

(** ** Concrete transactions *)

Module RecorderExample.
Definition A : Z := 70000.
Definition B : Z := 70001.
Definition C : Z := 70002.
Definition deployer : Z := 32774.
Definition bootloader : Z := 32769.
Definition call (a b : Z) : CallInfo := mkCall CallOf a b 0 [] 0.

(** The bootloader lets [A] call [B], which calls [C]. *)
Definition nested : Op :=
  Run (call bootloader A)
    [Run (call A B) [Put (mkKey B 1) 0 5; Run (call B C) [Get (mkKey C 2) 9] 0; Get (mkKey B 1) 5] 3] 0.
(** [A] creates [B] through the deployer, whose constructor writes a slot. *)
Definition creation : Op :=
  Run (mkCall (CreateOf 7) A B 0 [] 0)
    [Run (call deployer 32771) [] 0; Run (call A B) [Put (mkKey B 0) 0 1] 0] 0.

Lemma records_follow_execution_witness :
  fold_opt record AccountAccesses_default (session [nested; creation]) ≫= get_records =
    Some (foldl at_root [] [nested; creation]) ∧
  ((λ a, (account a, kind a, depth a, length (storage_accesses a))) <$> foldl at_root [] [nested; creation]) =
    [(B, Call, 1, 2%nat); (C, Call, 2, 1%nat); (B, Create, 3, 1%nat)].
Proof.
  split; [apply (records_follow_execution [nested; creation]); reflexivity|vm_compute; reflexivity].
Defined.

(** Calls below a recorded call are listed when they end, not when they start. *)
Example inner_calls_in_order_of_end :
  (account <$> foldl at_root []
     [Run (call A B) [Run (call B C) [Run (call C A) [] 0] 0] 0]) = [B; A; C].
Proof. reflexivity. Qed.

(** The depth of a call outside of all others is one more than that of the call
    listed before it. *)
Example depth_of_second_call :
  (depth <$> foldl at_root [] [Run (call A B) [] 0; Run (call A B) [] 0]) = [1; 2].
Proof. reflexivity. Qed.

(** A slot of a contract read while no call is recorded stops the program. *)
Example read_without_call_panics :
  fold_opt record AccountAccesses_default [StartRecording; Read (mkKey A 0) 1] = None.
Proof. reflexivity. Qed.
End RecorderExample.
