(* ===== verification/ZkTracer.v ===== *)
(** * The tracer of the zkSync virtual machine

    Models the parts of [crates/zksync/core/src/vm] that observe a run of the
    zkSync VM: the handler of far calls ([farcall.rs]), the view of the storage
    ([storage_view.rs]) on the database of the EVM ([db.rs]), and the tracer
    that joins them ([tracers/cheatcode.rs]), which reports to the recorder of
    [ZkRecorder], counts the calls that [Cheatcodes] expects, answers those that
    [Mocks] mocks, and replaces values of the block.  How the records reach the EVM is in
    [crates/strategy/zksync/src/cheatcode/runner/mod.rs].

    The VM itself is third-party: its opcodes, the frames they leave and the
    storage they access are the events of a run.  Stacks are kept with their top
    first.  [None] is a panic. *)
From S2P Require Import Prelude.
From S2P Require Import Cheatcodes.
From S2P Require Import Mocks.
From S2P Require Import StateDiff.
From S2P Require Import ZkRecorder.
Local Open Scope Z_scope.

#[export] Instance StorageKey_countable : Countable StorageKey :=
  inj_countable' (λ k, (key_address k, key_slot k)) (λ p, mkKey p.1 p.2)
    (λ k, match k with mkKey _ _ => eq_refl end).

(** ** Actions on far calls: [farcall.rs] *)

Inductive CallAction := SetMessageSender (a : Z) | SetThisAddress (a : Z).

(** A [CallDepth] is a [u8]. *)
Definition decrement (d : Z) : Z := u_saturating_sub d 1.

Record CallActions := mkActions { immediate : list CallAction; pending_actions : list (Z * CallAction) }.

Definition push (d : Z) (a : CallAction) (c : CallActions) : CallActions :=
  if d =? 0 then mkActions (immediate c ++ [a]) (pending_actions c)
  else mkActions (immediate c) (pending_actions c ++ [(decrement d, a)]).

Definition track_one (c : CallActions) (p : Z * CallAction) : CallActions :=
  if p.1 =? 0 then mkActions (immediate c ++ [p.2]) (pending_actions c)
  else mkActions (immediate c) (pending_actions c ++ [(decrement p.1, p.2)]).
Definition track (c : CallActions) : CallActions :=
  foldl track_one (mkActions (immediate c) []) (pending_actions c).

Definition take_immediate (c : CallActions) : list CallAction * CallActions :=
  (immediate c, mkActions [] (pending_actions c)).

(** ** The calls of the transaction: [farcall.rs] *)

Inductive FarCallOpcode := Normal | Delegate | Mimic.

(** The current frame, with the calldata its registers point to. *)
Record Frame := mkFrame {
  msg_sender : Z;
  code_address : Z;
  this_address : Z;
  context_value : Z;
  calldata : list Z;
}.

Record TrackedCall := mkTracked {
  opcode_of : FarCallOpcode;
  address_of : Z;
  calldata_of : list Z;
  num_near_calls : Z;
}.

Inductive CallExecutionStatus := Started (t : TrackedCall) | Returned (t : TrackedCall).
Inductive TxExecutionStatus := Pending | Executing | Finished.

Record TxExecutionTracker := mkTracker { tracked : list TrackedCall; status : TxExecutionStatus }.

Inductive Opcode := NearCall | FarCall (o : FarCallOpcode) | Ret | OtherOpcode.

Definition SELECTOR_EXECUTE_TRANSACTION : list Z := [223; 156; 21; 137].

Definition starts_with (prefix l : list Z) : bool := bool_decide (take (length prefix) l = prefix).

Definition set_near (t : TrackedCall) (n : Z) : TrackedCall :=
  mkTracked (opcode_of t) (address_of t) (calldata_of t) n.

Definition far_called (o : FarCallOpcode) (f : Frame) : TrackedCall :=
  mkTracked o (code_address f) (calldata f) 0.

(** The result is whether the status changed and what happened to a call. *)
Definition track_tx_execution (o : Opcode) (f : Frame) (t : TxExecutionTracker)
    : option (bool * option CallExecutionStatus * TxExecutionTracker) :=
  match o, status t with
  | NearCall, Executing =>
      match tracked t with
      | [] => None
      | last :: rest =>
          if umax 64 <? num_near_calls last + 1 then None
          else Some (false, None, mkTracker (set_near last (num_near_calls last + 1) :: rest) Executing)
      end
  | FarCall k, Pending =>
      if starts_with SELECTOR_EXECUTE_TRANSACTION (calldata f) then
        Some (true, Some (Started (far_called k f)), mkTracker (far_called k f :: tracked t) Executing)
      else Some (false, None, t)
  | FarCall k, Executing =>
      Some (false, Some (Started (far_called k f)), mkTracker (far_called k f :: tracked t) Executing)
  | Ret, Executing =>
      match tracked t with
      | [] => None
      | last :: rest =>
          if num_near_calls last =? 0 then
            match rest with
            | [] => Some (true, Some (Returned last), mkTracker rest Finished)
            | _ => Some (false, Some (Returned last), mkTracker rest Executing)
            end
          else Some (false, None, mkTracker (set_near last (num_near_calls last - 1) :: rest) Executing)
      end
  | _, _ => Some (false, None, t)
  end.

Definition is_tx_executing (t : TxExecutionTracker) : bool :=
  match status t with Executing => true | _ => false end.

(** ** The view of the storage *)

(** What [zksync_types] and the EVM provide: the keys of balances, nonces and
    code, the decoding of the deployer's parameters, the addresses of created
    contracts. *)
Class ZkTypes := {
  storage_key_for_eth_balance : Z → StorageKey;
  get_nonce_key : Z → StorageKey;
  get_code_key : Z → StorageKey;
  deploy_nonce : Z → Z;
  compute_create_address : Z → Z → Z;
  compute_create2_address : Z → Z → Z → list Z → Z;
  (** Salt, hash of the bytecode and input of the constructor. *)
  decode_create : list Z → option (Z * Z * list Z);
  (** An address and its immutables by index. *)
  decode_immutables : list Z → option (Z * list (Z * Z));
}.

Definition ACCOUNT_CODE_STORAGE_ADDRESS : Z := 32770.
Definition BOOTLOADER_ADDRESS : Z := 32769.
Definition IMMUTABLE_SIMULATOR_STORAGE_ADDRESS : Z := 32773.
Definition CONTRACT_DEPLOYER_ADDRESS : Z := 32774.
Definition SYSTEM_CONTEXT_ADDRESS : Z := 32779.

(** [StorageView] over a [ZKVMData]; [reads] is the [RecordAccess] of [vm.record]. *)
Record StorageView := mkView {
  modified_storage_keys : gmap StorageKey Z;
  read_storage_keys : gmap StorageKey Z;
  initial_writes_cache : gmap StorageKey bool;
  call_tracker : list CallAddresses;
  reads : option (gmap Z (list Z));
  account_accesses : AccountAccesses;
}.

Section view.
Context `{ZkTypes}.
(** The database under the view, and the caller of the transaction. *)
Context (read_db : StorageKey → Z) (tx_caller : Z).

Definition set_accesses (a : AccountAccesses) (v : StorageView) : StorageView :=
  mkView (modified_storage_keys v) (read_storage_keys v) (initial_writes_cache v) (call_tracker v)
    (reads v) a.
Definition set_call_tracker (l : list CallAddresses) (v : StorageView) : StorageView :=
  mkView (modified_storage_keys v) (read_storage_keys v) (initial_writes_cache v) l (reads v)
    (account_accesses v).
Definition report (e : ZkRecorder.Event) (v : StorageView) : option StorageView :=
  (λ a, set_accesses a v) <$> ZkRecorder.record (account_accesses v) e.

Definition push_read (key : StorageKey) (reads : option (gmap Z (list Z))) : option (gmap Z (list Z)) :=
  (λ m, <[key_address key := default [] (m !! key_address key) ++ [key_slot key]]> m) <$> reads.

(** [ZKVMData::read_value]. *)
Definition handle_read_value (key : StorageKey) (v : StorageView) : option (Z * StorageView) :=
  let v := mkView (modified_storage_keys v) (read_storage_keys v) (initial_writes_cache v)
             (call_tracker v) (push_read key (reads v)) (account_accesses v) in
  let value := read_db key in
  (λ v, (value, v)) <$> report (Read key value) v.

Definition get_value_no_log (key : StorageKey) (v : StorageView) : option (Z * StorageView) :=
  match modified_storage_keys v !! key with
  | Some value => Some (value, v)
  | None =>
      match read_storage_keys v !! key with
      | Some value => Some (value, v)
      | None =>
          '(value, v) ← handle_read_value key v;
          Some (value, mkView (modified_storage_keys v) (<[key := value]> (read_storage_keys v))
                         (initial_writes_cache v) (call_tracker v) (reads v) (account_accesses v))
      end
  end.

Definition is_caller_code (key : StorageKey) : bool :=
  (key_address key =? ACCOUNT_CODE_STORAGE_ADDRESS) && (key_slot key =? tx_caller).

Definition read_value (key : StorageKey) (v : StorageView) : option (Z * StorageView) :=
  '(value, v) ← get_value_no_log key v;
  Some (if is_caller_code key then 0 else value, v).

(** The database says that no write is the first one of its key. *)
Definition is_write_initial (key : StorageKey) (v : StorageView) : bool * StorageView :=
  match initial_writes_cache v !! key with
  | Some b => (b, v)
  | None =>
      (false, mkView (modified_storage_keys v) (read_storage_keys v)
                (<[key := false]> (initial_writes_cache v)) (call_tracker v) (reads v)
                (account_accesses v))
  end.

Definition set_value (key : StorageKey) (value : Z) (v : StorageView) : option (Z * StorageView) :=
  '(original, v) ← get_value_no_log key v;
  v ← report (Write key original value) v;
  Some (original,
        mkView (<[key := value]> (modified_storage_keys v)) (read_storage_keys v)
          (initial_writes_cache v) (call_tracker v) (reads v) (account_accesses v)).

Definition view_call_start (is_mimic : bool) (t : CallType) (accessor account : Z) (data : list Z)
    (value : Z) (v : StorageView) : option StorageView :=
  '(b, v) ← read_value (storage_key_for_eth_balance account) v;
  let balance := if is_mimic && negb (value =? 0) then u_saturating_sub b value else b in
  let v := set_call_tracker (mkAddresses account accessor :: call_tracker v) v in
  report (CallStart (ZkRecorder.mkCall t accessor account balance data value)) v.

Definition view_call_end (v : StorageView) : option StorageView :=
  match call_tracker v with
  | [] => None
  | a :: rest =>
      '(new_balance, v) ← read_value (storage_key_for_eth_balance (call_account a))
                            (set_call_tracker rest v);
      report (CallEnd new_balance) v
  end.
End view.

(** ** The tracer: [tracers/cheatcode.rs] *)

Definition SELECTOR_CONTRACT_DEPLOYER_CREATE : list Z := [156; 77; 83; 91].
Definition SELECTOR_CONTRACT_DEPLOYER_CREATE2 : list Z := [60; 218; 51; 81].

Definition SELECTOR_ACCOUNT_VERSION : list Z := [187; 15; 214; 16].
Definition SELECTOR_SYSTEM_CONTEXT_BLOCK_NUMBER : list Z := [66; 203; 177; 92].
Definition SELECTOR_SYSTEM_CONTEXT_BLOCK_TIMESTAMP : list Z := [121; 107; 137; 185].
Definition SELECTOR_BASE_FEE : list Z := [110; 242; 92; 58].
Definition SELECTOR_BLOCK_HASH : list Z := [128; 180; 18; 70].
Definition SELECTOR_IMMUTABLE_SIMULATOR_SET : list Z := [173; 126; 35; 46].

Record CallContext := mkContext {
  ctx_tx_caller : Z;
  ctx_msg_sender : Z;
  ctx_contract : Z;
  ctx_input : option (list Z);
  delegate_as : option Z;
  block_number : Z;
  block_timestamp : Z;
  block_basefee : Z;
  is_create : bool;
  block_hashes : gmap Z (list Z);
  record_storage_accesses : bool;
}.

(** What the tracer answers and counts for the cheatcodes, and the data that
    [finish_cycle] makes the current far call return at once. *)
Record Hooks := mkHooks {
  mocks : Mocks.State;
  expected_calls : ExpectedCallTracker;
  recorded_immutables : gmap Z (gmap Z Z);
  immediate_return : option (list Z);
}.
Definition set_mocks (m : Mocks.State) (h : Hooks) : Hooks :=
  mkHooks m (expected_calls h) (recorded_immutables h) (immediate_return h).
Definition set_expected (e : ExpectedCallTracker) (h : Hooks) : Hooks :=
  mkHooks (mocks h) e (recorded_immutables h) (immediate_return h).
Definition set_immutables (m : gmap Z (gmap Z Z)) (h : Hooks) : Hooks :=
  mkHooks (mocks h) (expected_calls h) m (immediate_return h).
Definition set_return (r : option (list Z)) (h : Hooks) : Hooks :=
  mkHooks (mocks h) (expected_calls h) (recorded_immutables h) r.

Record Tracer := mkTracer {
  call_actions : CallActions;
  tx_execution_tracker : TxExecutionTracker;
  storage : StorageView;
  hooks : Hooks;
}.
Definition set_storage (v : StorageView) (t : Tracer) : Tracer :=
  mkTracer (call_actions t) (tx_execution_tracker t) v (hooks t).
Definition set_actions (a : CallActions) (t : Tracer) : Tracer :=
  mkTracer a (tx_execution_tracker t) (storage t) (hooks t).
Definition set_hooks (h : Hooks) (t : Tracer) : Tracer :=
  mkTracer (call_actions t) (tx_execution_tracker t) (storage t) h.

(** [&l[from..to]]; a panic when the slice is shorter. *)
Definition slice (l : list Z) (from_ to_ : nat) : option (list Z) :=
  if (to_ <=? length l)%nat then Some (take (to_ - from_) (drop from_ l)) else None.

Section tracer.
Context `{ZkTypes}.
Context (read_db : StorageKey → Z) (ctx : CallContext).
Local Abbreviation read_value := (read_value read_db (ctx_tx_caller ctx)).
Local Abbreviation view_call_start := (view_call_start read_db (ctx_tx_caller ctx)).
Local Abbreviation view_call_end := (view_call_end read_db (ctx_tx_caller ctx)).

(** The sender that is about to be set, or the one of the frame. *)
Fixpoint find_sender (l : list CallAction) (default_ : Z) : Z :=
  match l with
  | [] => default_
  | SetMessageSender a :: _ => a
  | SetThisAddress _ :: l => find_sender l default_
  end.

Definition is_creation (f : Frame) : bool :=
  (code_address f =? CONTRACT_DEPLOYER_ADDRESS) &&
  (starts_with SELECTOR_CONTRACT_DEPLOYER_CREATE (calldata f) ||
   starts_with SELECTOR_CONTRACT_DEPLOYER_CREATE2 (calldata f)).

(** The type of the call, its account and its data. *)
Definition classify (sender : Z) (f : Frame) (v : StorageView)
    : option (CallType * Z * list Z * StorageView) :=
  if is_creation f then
    '(salt, bytecode_hash, constructor_input) ← decode_create (drop 4 (calldata f));
    if starts_with SELECTOR_CONTRACT_DEPLOYER_CREATE (calldata f) then
      '(full_nonce, v) ← read_value (get_nonce_key sender) v;
      Some (CreateOf bytecode_hash,
            compute_create_address sender (wrap 32 (deploy_nonce full_nonce)), constructor_input, v)
    else
      Some (CreateOf bytecode_hash, compute_create2_address sender bytecode_hash salt constructor_input,
            constructor_input, v)
  else Some (CallOf, code_address f, calldata f, v).

(** The recording of accesses in [after_execution]. *)
Definition record_accesses (f : Frame) (sender : Z) (executing changed : bool) (st : TxExecutionStatus)
    (call : option CallExecutionStatus) (v : StorageView) : option StorageView :=
  if negb (record_storage_accesses ctx) then Some v
  else
    v ← (if changed then
           match st with
           | Pending => Some v
           | Executing => report StartRecording v
           | Finished =>
               v ← match call with Some (Returned _) => view_call_end v | _ => Some v end;
               report StopRecording v
           end
         else Some v);
    match executing, call with
    | true, Some call =>
        '(t, account, data, v) ← classify sender f v;
        match call with
        | Started tx =>
            view_call_start match opcode_of tx with Mimic => true | _ => false end t sender account
              data (context_value f) v
        | Returned _ => view_call_end v
        end
    | _, _ => Some v
    end.

(** The warning about calls to addresses without code reads their code. *)
Definition check_empty_code (f : Frame) (v : StorageView) : option StorageView :=
  if bool_decide (calldata f = []) && negb (context_value f =? 0) then Some v
  else '(_, v) ← read_value (get_code_key (code_address f)) v; Some v.

(** An expected call counts the calls its calldata is a prefix of, whatever
    their gas; the call that the EVM has counted already is left out. *)
Definition zk_call_matches (f : Frame) (expected_calldata : list Z) (expected : ExpectedCallData) : bool :=
  (length expected_calldata <=? length (calldata f))%nat &&
  bool_decide (expected_calldata = take (length expected_calldata) (calldata f)) &&
  match ec_value expected with Some value => value =? context_value f | None => true end.
Definition count_expected (f : Frame) (h : Hooks) : Hooks :=
  match expected_calls h !! code_address f with
  | None => h
  | Some expecteds =>
      if (code_address f =? ctx_contract ctx) && bool_decide (ctx_input ctx = Some (calldata f)) then h
      else
        set_expected
          (<[code_address f :=
              map_imap (λ expected_calldata '(expected, actual_count),
                Some (expected, if zk_call_matches f expected_calldata expected then actual_count + 1
                                else actual_count)) expecteds]> (expected_calls h)) h
  end.

(** [set_immediate_return]. *)
Definition returning (data : list Z) (t : Tracer) : Tracer := set_hooks (set_return (Some data) (hooks t)) t.

Definition record_immutable (address : Z) (m : gmap Z (gmap Z Z)) (p : Z * Z) : gmap Z (gmap Z Z) :=
  <[address := <[p.1 := p.2]> (default ∅ (m !! address))]> m.
(** The immutables of a creation are recorded; they must decode. *)
Definition record_immutables (f : Frame) (h : Hooks) : option Hooks :=
  if is_create ctx && (code_address f =? IMMUTABLE_SIMULATOR_STORAGE_ADDRESS) &&
     starts_with SELECTOR_IMMUTABLE_SIMULATOR_SET (calldata f) then
    '(address, immutables) ← decode_immutables (drop 4 (calldata f));
    Some (set_immutables (foldl (record_immutable address) (recorded_immutables h) immutables) h)
  else Some h.

(** What [after_execution] does on a far call when the accesses are recorded. *)
Definition far_call_rest (f : Frame) (t : Tracer) : option Tracer :=
  let t := set_hooks (count_expected f (hooks t)) t in
  let '(mocked, m) := zk_mocked_call (mocks (hooks t)) (code_address f) (calldata f) (context_value f) in
  let t := set_hooks (set_mocks m (hooks t)) t in
  match mocked with
  | Some data => Some (returning data t)
  | None =>
      v ← check_empty_code f (storage t);
      let t := set_storage v t in
      is_version ← (if (code_address f =? CONTRACT_DEPLOYER_ADDRESS) &&
                       starts_with SELECTOR_ACCOUNT_VERSION (calldata f)
                    then w ← slice (calldata f) 4 36;
                         Some (ctx_tx_caller ctx =? of_be_bytes (drop 12 w))
                    else Some false);
      if (is_version : bool) then Some (returning (be_bytes 32 1) t)
      else
        let t := if (msg_sender f =? BOOTLOADER_ADDRESS) &&
                    starts_with SELECTOR_EXECUTE_TRANSACTION (calldata f)
                 then set_actions (push 1 (SetMessageSender (ctx_msg_sender ctx)) (call_actions t)) t
                 else t in
        let in_context selector :=
          (code_address f =? SYSTEM_CONTEXT_ADDRESS) && starts_with selector (calldata f) in
        if in_context SELECTOR_SYSTEM_CONTEXT_BLOCK_NUMBER then
          Some (returning (be_bytes 32 (block_number ctx)) t)
        else if in_context SELECTOR_SYSTEM_CONTEXT_BLOCK_TIMESTAMP then
          Some (returning (be_bytes 32 (block_timestamp ctx)) t)
        else if in_context SELECTOR_BASE_FEE then
          Some (returning (be_bytes 32 (block_basefee ctx)) t)
        else if in_context SELECTOR_BLOCK_HASH then
          w ← slice (calldata f) 4 36;
          Some (returning (default (replicate 32 0) (block_hashes ctx !! of_be_bytes w)) t)
        else
          h ← record_immutables f (hooks t);
          let t := set_hooks h t in
          Some match delegate_as ctx with
               | Some to =>
                   if code_address f =? ctx_contract ctx
                   then set_actions (push 0 (SetThisAddress to) (call_actions t)) t else t
               | None => t
               end
  end.

Definition is_far_call (o : Opcode) : bool := match o with FarCall _ => true | _ => false end.

Definition after_execution (o : Opcode) (f : Frame) (t : Tracer) : option Tracer :=
  let a := if is_far_call o then track (call_actions t) else call_actions t in
  '(changed, call, x) ← track_tx_execution o f (tx_execution_tracker t);
  v ← record_accesses f (find_sender (immediate a) (msg_sender f)) (is_tx_executing x) changed
        (status x) call (storage t);
  let t := mkTracer a x v (hooks t) in
  if is_far_call o then far_call_rest f t else Some t.

Definition apply_action (f : Frame) (a : CallAction) : Frame :=
  match a with
  | SetMessageSender s => mkFrame s (code_address f) (this_address f) (context_value f) (calldata f)
  | SetThisAddress s => mkFrame (msg_sender f) (code_address f) s (context_value f) (calldata f)
  end.
(** The current frame after [finish_cycle], and what it returns at once. *)
Definition finish_cycle (f : Frame) (t : Tracer) : Frame * option (list Z) * Tracer :=
  let '(actions, a) := take_immediate (call_actions t) in
  (foldl apply_action f actions, immediate_return (hooks t),
   set_hooks (set_return None (hooks t)) (set_actions a t)).

(** One cycle of the VM, or an access of the storage by the opcode that runs. *)
Inductive Event :=
| Cycle (o : Opcode) (f : Frame)
| SLoad (key : StorageKey)
| SStore (key : StorageKey) (v : Z).

Definition cycle (t : Tracer) (e : Event) : option Tracer :=
  match e with
  | Cycle o f => t ← after_execution o f t; Some (finish_cycle f t).2
  | SLoad key => '(_, v) ← read_value key (storage t); Some (set_storage v t)
  | SStore key value => '(_, v) ← set_value read_db key value (storage t); Some (set_storage v t)
  end.
End tracer.

(** ** The records reach the EVM: [runner/mod.rs] *)

Definition convert_kind (k : ZkRecorder.AccountAccessKind) : StateDiff.AccountAccessKind :=
  match k with ZkRecorder.Call => StateDiff.Call | ZkRecorder.Create => StateDiff.Create end.
Definition convert_slot (s : ZkRecorder.StorageAccess) : StateDiff.StorageAccess :=
  StateDiff.mkStorage (ZkRecorder.sa_account s) (ZkRecorder.slot s) (is_write s) (previous_value s)
    (new_value s) false.
(** The code is the hash of the bytecode, when it is not zero. *)
Definition convert (chain : ChainInfo) (hash_bytes : Z → list Z) (a : ZkRecorder.AccountAccess)
    : StateDiff.AccountAccess :=
  StateDiff.mkAccess chain (convert_kind (ZkRecorder.kind a)) (ZkRecorder.account a)
    (ZkRecorder.accessor a) true (old_balance a) (new_balance a)
    (if deployed_bytecode_hash a =? 0 then [] else hash_bytes (deployed_bytecode_hash a))
    (ZkRecorder.value a) (ZkRecorder.data a) false (convert_slot <$> storage_accesses a)
    (ZkRecorder.depth a) 0 0.

Definition stack_insert_index (frames : Frames) : nat :=
  match frames with
  | _ :: parent :: _ => length parent
  | [first] => length first - 1
  | [] => 0
  end.

(** The frames, and [remove_recorded_access_at]. *)
Definition append_recorded_accesses (converted : list StateDiff.AccountAccess)
    (recorded : option Frames) (remove_at : option nat) : option Frames * option nat :=
  match recorded with
  | Some (last :: rest) =>
      (Some ((last ++ converted) :: rest), Some (stack_insert_index (last :: rest)))
  | _ => (recorded, remove_at)
  end.

Definition zksync_remove_duplicate_account_access (recorded : option Frames) (remove_at : option nat)
    : option Frames * option nat :=
  match remove_at, recorded with
  | Some index, Some (last :: rest) => (Some (delete index last :: rest), None)
  | _, _ => (recorded, None)
  end.

(** ** Transactions

    What the VM does between two cycles of a frame, as a tree; [back] is the
    frame that a call returns to. *)

Inductive VmOp :=
| VRead (key : StorageKey)
| VWrite (key : StorageKey) (v : Z)
| VOther (f : Frame)
| VNear (f : Frame) (body : list VmOp) (back : Frame)
| VFar (o : FarCallOpcode) (f : Frame) (body : list VmOp) (back : Frame).

Section op_ind.
Context (P : VmOp → Prop)
  (Hread : ∀ k, P (VRead k)) (Hwrite : ∀ k v, P (VWrite k v)) (Hother : ∀ f, P (VOther f))
  (Hnear : ∀ f body b, Forall P body → P (VNear f body b))
  (Hfar : ∀ o f body b, Forall P body → P (VFar o f body b)).

Fixpoint VmOp_ind' (o : VmOp) : P o :=
  let all := fix all (l : list VmOp) : Forall P l :=
    match l with
    | [] => Forall_nil_2 P
    | o :: l => Forall_cons_2 P o l (VmOp_ind' o) (all l)
    end in
  match o with
  | VRead k => Hread k
  | VWrite k v => Hwrite k v
  | VOther f => Hother f
  | VNear f body b => Hnear f body b (all body)
  | VFar o f body b => Hfar o f body b (all body)
  end.
End op_ind.

Fixpoint cycles (o : VmOp) : list Event :=
  match o with
  | VRead k => [SLoad k]
  | VWrite k v => [SStore k v]
  | VOther f => [Cycle OtherOpcode f]
  | VNear f body b => Cycle NearCall f :: mbind cycles body ++ [Cycle Ret b]
  | VFar o f body b => Cycle (FarCall o) f :: mbind cycles body ++ [Cycle Ret b]
  end.

Fixpoint nears (o : VmOp) : Z :=
  match o with
  | VNear _ body _ => 1 + zsum nears body
  | VFar _ _ body _ => zsum nears body
  | _ => 0
  end.

(** *** What the recorder is told of a transaction *)

(** The caches of the view, without its stack and the records. *)
Record Cache := mkCache {
  modified : gmap StorageKey Z;
  read_keys : gmap StorageKey Z;
  initial_writes : gmap StorageKey bool;
  record_reads : option (gmap Z (list Z));
}.
Definition view_of (c : Cache) (l : list CallAddresses) (a : AccountAccesses) : StorageView :=
  mkView (modified c) (read_keys c) (initial_writes c) l (record_reads c) a.

(** What a run of the tracer leaves besides its records. *)
Abbreviation Rest := (Cache * (CallActions * Hooks))%type.

Section trace.
Context `{ZkTypes}.
Context (read_db : StorageKey → Z) (ctx : CallContext).

(** The last value of a key. *)
Definition current_value (c : Cache) (key : StorageKey) : Z :=
  default (read_db key) (modified c !! key).
Definition cached (c : Cache) (key : StorageKey) : bool :=
  bool_decide (is_Some (modified c !! key)) || bool_decide (is_Some (read_keys c !! key)).

(** Only the first read of a key reaches the database, and the recorder. *)
Definition told (c : Cache) (key : StorageKey) : list ZkRecorder.Op :=
  if cached c key then [] else [Get key (read_db key)].
Definition cache_read (c : Cache) (key : StorageKey) : Cache :=
  if cached c key then c
  else mkCache (modified c) (<[key := read_db key]> (read_keys c)) (initial_writes c)
         (push_read key (record_reads c)).
Definition cache_write (c : Cache) (key : StorageKey) (v : Z) : Cache :=
  mkCache (<[key := v]> (modified c)) (read_keys c) (initial_writes c) (record_reads c).
(** The code of the caller is shown as absent. *)
Definition shown_value (c : Cache) (key : StorageKey) : Z :=
  if is_caller_code (ctx_tx_caller ctx) key then 0 else current_value c key.

Record Call := mkTraced {
  traced_type : CallType;
  traced_account : Z;
  traced_data : list Z;
  traced_key : option StorageKey;
}.
Definition classify_call (sender : Z) (f : Frame) (c : Cache) : option Call :=
  if is_creation f then
    '(salt, bytecode_hash, constructor_input) ← decode_create (drop 4 (calldata f));
    Some
      (if starts_with SELECTOR_CONTRACT_DEPLOYER_CREATE (calldata f) then
         mkTraced (CreateOf bytecode_hash)
           (compute_create_address sender (wrap 32 (deploy_nonce (shown_value c (get_nonce_key sender)))))
           constructor_input (Some (get_nonce_key sender))
       else
         mkTraced (CreateOf bytecode_hash)
           (compute_create2_address sender bytecode_hash salt constructor_input) constructor_input None)
  else Some (mkTraced CallOf (code_address f) (calldata f) None).

Definition told_opt (c : Cache) (key : option StorageKey) : list ZkRecorder.Op :=
  match key with Some key => told c key | None => [] end.
Definition cache_opt (c : Cache) (key : option StorageKey) : Cache :=
  match key with Some key => cache_read c key | None => c end.

(** The tracer is done with a far call early: it returns a mocked value, the
    version of the caller's account, or a value of the block. *)
Inductive Intercepted := Mocked | Version | Block | NotIntercepted.

(** What becomes of a far call, and of the hooks once it has been handled;
    [None] where its calldata makes the tracer panic. *)
Definition intercept (f : Frame) (h : Hooks) : option (Intercepted * Hooks) :=
  let h := count_expected ctx f h in
  let '(mocked, m) := zk_mocked_call (mocks h) (code_address f) (calldata f) (context_value f) in
  let h := set_return None (set_mocks m h) in
  let to selector a := (code_address f =? a) && starts_with selector (calldata f) in
  match mocked with
  | Some _ => Some (Mocked, h)
  | None =>
      is_version ← (if to SELECTOR_ACCOUNT_VERSION CONTRACT_DEPLOYER_ADDRESS
                    then w ← slice (calldata f) 4 36;
                         Some (ctx_tx_caller ctx =? of_be_bytes (drop 12 w))
                    else Some false);
      if (is_version : bool) then Some (Version, h)
      else if existsb (λ s, to s SYSTEM_CONTEXT_ADDRESS)
                [SELECTOR_SYSTEM_CONTEXT_BLOCK_NUMBER; SELECTOR_SYSTEM_CONTEXT_BLOCK_TIMESTAMP;
                 SELECTOR_BASE_FEE] then Some (Block, h)
      else if to SELECTOR_BLOCK_HASH SYSTEM_CONTEXT_ADDRESS then (λ _, (Block, h)) <$> slice (calldata f) 4 36
      else (λ h, (NotIntercepted, h)) <$> record_immutables ctx f h
  end.

(** The code that is read for the warning. *)
Definition warning_key (f : Frame) (i : Intercepted) : option StorageKey :=
  match i with
  | Mocked => None
  | _ => if bool_decide (calldata f = []) && negb (context_value f =? 0) then None
         else Some (get_code_key (code_address f))
  end.

(** The actions that a far call schedules. *)
Definition scheduled (f : Frame) (i : Intercepted) : list (Z * CallAction) :=
  match i with
  | Mocked | Version => []
  | _ =>
      (if (msg_sender f =? BOOTLOADER_ADDRESS) && starts_with SELECTOR_EXECUTE_TRANSACTION (calldata f)
       then [(1, SetMessageSender (ctx_msg_sender ctx))] else []) ++
      match i, delegate_as ctx with
      | NotIntercepted, Some to =>
          if code_address f =? ctx_contract ctx then [(0, SetThisAddress to)] else []
      | _, _ => []
      end
  end.
Definition push_all (l : list (Z * CallAction)) (a : CallActions) : CallActions :=
  foldl (λ a p, push p.1 p.2 a) a l.

Definition Told : Type := option (list ZkRecorder.Op * Rest).

Section body.
Context (f : VmOp → Rest → Told).
Fixpoint tell_body (l : list VmOp) (p : Rest) : Told :=
  match l with
  | [] => Some ([], p)
  | o :: l =>
      r1 ← f o p;
      r2 ← tell_body l r1.2;
      Some (r1.1 ++ r2.1, r2.2)
  end.
End body.

(** A far call: [ends] says whether the transaction goes on after it. *)
Definition tell_far (tell_body : Rest → Told) (o : FarCallOpcode) (f : Frame)
    (back : option Frame) (p : Rest) : Told :=
  let '(c, (a, h)) := p in
  let a := track a in
  let sender := find_sender (immediate a) (msg_sender f) in
  t ← classify_call sender f c;
  '(i, h) ← intercept f h;
  let c1 := cache_opt c (traced_key t) in
  let key := storage_key_for_eth_balance (traced_account t) in
  let b := shown_value c1 key in
  let balance := match o with
                 | Mimic => if context_value f =? 0 then b else u_saturating_sub b (context_value f)
                 | _ => b
                 end in
  let c2 := cache_read c1 key in
  let c3 := cache_opt c2 (warning_key f i) in
  r ← tell_body (c3, ((take_immediate (push_all (scheduled f i) a)).2, h));
  let '(c4, a4) := r.2 in
  t' ← match back with Some back => classify_call (msg_sender back) back c4
                  | None => Some (mkTraced CallOf 0 [] None) end;
  let c5 := cache_opt c4 (traced_key t') in
  Some (told_opt c (traced_key t) ++ told c1 key ++
        [Run (ZkRecorder.mkCall (traced_type t) sender (traced_account t) balance (traced_data t)
                (context_value f))
           (told_opt c2 (warning_key f i) ++ r.1 ++ told_opt c4 (traced_key t') ++ told c5 key)
           (shown_value c5 key)],
        (cache_read c5 key, a4)).

Fixpoint tell (o : VmOp) (p : Rest) : Told :=
  match o with
  | VRead k => Some (told p.1 k, (cache_read p.1 k, p.2))
  | VWrite k v => Some (told p.1 k ++ [Put k (current_value p.1 k) v],
                        (cache_write (cache_read p.1 k) k v, p.2))
  | VOther _ => Some ([], p)
  | VNear _ body _ => tell_body tell body p
  | VFar o f body back => tell_far (tell_body tell body) o f (Some back) p
  end.
End trace.
