(* ===== verification/ZkTracerSpec.v ===== *)
(** * What the tracer of the zkSync virtual machine reports

    Theorems on [ZkTracer]: the records of a transaction, the view of the
    storage as a plain store, the actions on far calls, and the way the records
    reach the EVM. *)
From S2P Require Import Prelude.
From S2P Require Import Cheatcodes.
From S2P Require Import Mocks.
From S2P Require Import StateDiff.
From S2P Require Import ZkRecorder.
From S2P Require Import ZkTracer.
Local Open Scope Z_scope.

(** ** The tracer tells the recorder what the transaction does *)

Section proofs.
Context `{ZkTypes}.
Context (read_db : StorageKey → Z) (ctx : CallContext).
Local Abbreviation told := (told read_db).
Local Abbreviation told_opt := (told_opt read_db).
Local Abbreviation cache_read := (cache_read read_db).
Local Abbreviation cache_opt := (cache_opt read_db).
Local Abbreviation shown_value := (shown_value read_db ctx).
Local Abbreviation classify_call := (classify_call read_db ctx).
Local Abbreviation tell := (tell read_db ctx).
Local Abbreviation cycle := (cycle read_db ctx).

Definition cache_ok (c : Cache) : Prop := ∀ key v, read_keys c !! key = Some v → v = read_db key.

Lemma cache_read_ok c key : cache_ok c → cache_ok (cache_read c key).
Proof.
  intros Hc k v. unfold ZkTracer.cache_read. destruct (cached c key); [apply Hc|]. cbn.
  destruct (decide (key = k)) as [->|Hne]; [rewrite lookup_insert_eq; congruence|].
  rewrite lookup_insert_ne by done. apply Hc.
Qed.
Lemma cache_opt_ok c key : cache_ok c → cache_ok (cache_opt c key).
Proof. destruct key; [apply cache_read_ok|done]. Qed.

(** A step that hands the recorder some events. *)
Lemma bind_tells {A B} (m : option A) (f : A → option B) (k1 : AccountAccesses → A)
    (k2 : AccountAccesses → B) acc es1 es2 :
  m = k1 <$> fold_opt record acc es1 → (∀ a, f (k1 a) = k2 <$> fold_opt record a es2) →
  (x ← m; f x) = k2 <$> fold_opt record acc (es1 ++ es2).
Proof.
  intros -> Hf. rewrite fold_opt_app. destruct (fold_opt record acc es1) as [a|]; cbn; [apply Hf|done].
Qed.
Lemma tells_nothing {A} (x : A) (k : AccountAccesses → A) acc :
  x = k acc → Some x = k <$> fold_opt record acc [].
Proof. by intros ->. Qed.

Lemma report_tells e c l acc :
  report e (view_of c l acc) = view_of c l <$> fold_opt record acc [e].
Proof. unfold report, view_of, set_accesses. cbn. by destruct (ZkRecorder.record acc e). Qed.

Lemma get_tells c l acc key :
  cache_ok c →
  get_value_no_log read_db key (view_of c l acc) =
    (λ a, (current_value read_db c key, view_of (cache_read c key) l a)) <$>
    fold_opt record acc (told c key ≫= events).
Proof.
  intros Hc. unfold get_value_no_log, ZkTracer.told, ZkTracer.cache_read, current_value, cached.
  unfold view_of at 1 2 3. cbn [modified_storage_keys read_storage_keys].
  destruct (modified c !! key) as [v|]; [by cbn|]. destruct (read_keys c !! key) as [v|] eqn:Hr.
  { cbn. by rewrite (Hc _ _ Hr). }
  unfold handle_read_value, report, set_accesses. cbn.
  by destruct (record_read key (read_db key) acc).
Qed.

Lemma read_tells c l acc key :
  cache_ok c →
  read_value read_db (ctx_tx_caller ctx) key (view_of c l acc) =
    (λ a, (shown_value c key, view_of (cache_read c key) l a)) <$>
    fold_opt record acc (told c key ≫= events).
Proof.
  intros Hc. unfold read_value. rewrite get_tells by done.
  by destruct (fold_opt record acc _).
Qed.

Lemma set_tells c l acc key v :
  cache_ok c →
  set_value read_db key v (view_of c l acc) =
    (λ a, (current_value read_db c key, view_of (cache_write (cache_read c key) key v) l a)) <$>
    fold_opt record acc ((told c key ++ [Put key (current_value read_db c key) v]) ≫= events).
Proof.
  intros Hc. unfold set_value. rewrite bind_app. eapply bind_tells; [by apply get_tells|].
  intros a. cbn beta iota. rewrite report_tells. cbn. by destruct (record_write _ _ _ a).
Qed.

Lemma classify_tells sender f c l acc t :
  cache_ok c → classify_call sender f c = Some t →
  classify read_db ctx sender f (view_of c l acc) =
    (λ a, (traced_type t, traced_account t, traced_data t, view_of (cache_opt c (traced_key t)) l a)) <$>
    fold_opt record acc (told_opt c (traced_key t) ≫= events).
Proof.
  intros Hc. unfold ZkTracer.classify_call, classify. destruct (is_creation f); [|by intros [= <-]].
  destruct (decode_create _) as [[[salt h] input]|]; cbn; [|done].
  destruct (starts_with _ _); [|by intros [= <-]].
  intros [= <-]. cbn. rewrite read_tells by done. by destruct (fold_opt record acc _).
Qed.

Lemma start_tells o sender account data (v : Z) t c l acc :
  cache_ok c →
  view_call_start read_db (ctx_tx_caller ctx) match o with Mimic => true | _ => false end t sender
      account data v (view_of c l acc) =
    view_of (cache_read c (storage_key_for_eth_balance account)) (mkAddresses account sender :: l) <$>
    fold_opt record acc ((told c (storage_key_for_eth_balance account) ≫= events) ++
      [CallStart (ZkRecorder.mkCall t sender account
         (let b := shown_value c (storage_key_for_eth_balance account) in
          match o with Mimic => if v =? 0 then b else u_saturating_sub b v | _ => b end) data v)]).
Proof.
  intros Hc. unfold view_call_start. eapply bind_tells; [by apply read_tells|]. intros a. cbn beta iota zeta.
  change (set_call_tracker ?x (view_of ?c ?y a)) with (view_of c x a). rewrite report_tells.
  destruct o; cbn [andb]; [done..|]. by destruct (v =? 0).
Qed.

Lemma end_tells c account sender l acc :
  cache_ok c →
  view_call_end read_db (ctx_tx_caller ctx) (view_of c (mkAddresses account sender :: l) acc) =
    view_of (cache_read c (storage_key_for_eth_balance account)) l <$>
    fold_opt record acc ((told c (storage_key_for_eth_balance account) ≫= events) ++
      [CallEnd (shown_value c (storage_key_for_eth_balance account))]).
Proof.
  intros Hc. unfold view_call_end. cbn [call_tracker view_of call_account].
  change (set_call_tracker l (view_of c _ acc)) with (view_of c l acc).
  eapply bind_tells; [by apply read_tells|]. intros a. apply report_tells.
Qed.

(** The rest of a far call, and of its cycle. *)
Lemma rest_tells f a x c l acc h :
  cache_ok c →
  (t ← far_call_rest read_db ctx f (mkTracer a x (view_of c l acc) h); Some (finish_cycle f t).2) =
    '(i, h') ← intercept ctx f h;
    (λ acc, mkTracer (take_immediate (push_all (scheduled ctx f i) a)).2 x
              (view_of (cache_opt c (warning_key f i)) l acc) h') <$>
    fold_opt record acc (told_opt c (warning_key f i) ≫= events).
Proof.
  intros Hc. unfold far_call_rest, intercept. cbn [hooks set_hooks].
  destruct (zk_mocked_call _ _ _ _) as [[mocked|] m]; [by cbn|].
  assert (Hw : ∀ i, i ≠ Mocked → check_empty_code read_db ctx f (view_of c l acc) =
    view_of (cache_opt c (warning_key f i)) l <$> fold_opt record acc (told_opt c (warning_key f i) ≫= events)).
  { intros i Hi. unfold check_empty_code, warning_key.
    destruct i; [done|..]; (destruct (_ && _); [done|]; rewrite read_tells by done; cbn;
      by destruct (fold_opt record acc _)). }
  cbn [storage set_hooks]. rewrite (Hw NotIntercepted) by done.
  assert (Hk : ∀ i, i ≠ Mocked → warning_key f i = warning_key f NotIntercepted) by (by intros []).
  destruct (fold_opt record acc (told_opt c (warning_key f NotIntercepted) ≫= events)) as [acc'|] eqn:Hf;
    cbn [fmap option_fmap option_map mbind option_bind]; cycle 1.
  { destruct (if _ && starts_with SELECTOR_ACCOUNT_VERSION _ then _ else _) as [[]|]; cbn [mbind option_bind]; [by rewrite Hk, Hf| |done].
    destruct (existsb _ _); cbn [mbind option_bind]; [by rewrite Hk, Hf|].
    destruct (_ && starts_with SELECTOR_BLOCK_HASH _).
    - destruct (slice _ _ _); cbn [mbind option_bind fmap option_fmap option_map]; [by rewrite Hk, Hf|done].
    - destruct (record_immutables _ _ _); cbn [mbind option_bind fmap option_fmap option_map]; [by rewrite Hf|done]. }
  destruct (if _ && starts_with SELECTOR_ACCOUNT_VERSION _ then _ else _) as [[]|]; cbn [mbind option_bind]; [| |done].
  { rewrite (Hk Version), Hf by done. by cbn. }
  pose proof (Hk Block) as Hb. unfold scheduled. cbn [existsb].
  set (ours := (msg_sender f =? BOOTLOADER_ADDRESS) && _).
  assert (Hi : ∀ k, record_immutables ctx f (set_return None k) = set_return None <$> record_immutables ctx f k).
  { intros k. unfold record_immutables. destruct (_ && _ && _); [|done]. by destruct (decode_immutables _) as [[]|]. }
  rewrite Hi.
  destruct (code_address f =? SYSTEM_CONTEXT_ADDRESS); cbn [andb orb].
  - destruct (starts_with SELECTOR_SYSTEM_CONTEXT_BLOCK_NUMBER _); cbn [orb mbind option_bind];
      [rewrite Hb, Hf by done; by destruct ours|].
    destruct (starts_with SELECTOR_SYSTEM_CONTEXT_BLOCK_TIMESTAMP _); cbn [orb mbind option_bind];
      [rewrite Hb, Hf by done; by destruct ours|].
    destruct (starts_with SELECTOR_BASE_FEE _); cbn [orb mbind option_bind];
      [rewrite Hb, Hf by done; by destruct ours|].
    destruct (starts_with SELECTOR_BLOCK_HASH _).
    { destruct (slice _ _ _); cbn [mbind option_bind fmap option_fmap option_map]; [|done].
      rewrite Hb, Hf by done. by destruct ours. }
    destruct ours, (delegate_as ctx), (code_address f =? ctx_contract ctx), (record_immutables ctx f _);
      cbn [mbind option_bind fmap option_fmap option_map]; rewrite ?Hf; by cbn.
  - destruct ours, (delegate_as ctx), (code_address f =? ctx_contract ctx), (record_immutables ctx f _);
      cbn [mbind option_bind fmap option_fmap option_map]; rewrite ?Hf; by cbn.
Qed.

Lemma known_tells f a x c l acc h i h' :
  cache_ok c → intercept ctx f h = Some (i, h') →
  (t ← far_call_rest read_db ctx f (mkTracer a x (view_of c l acc) h); Some (finish_cycle f t).2) =
    (λ acc, mkTracer (take_immediate (push_all (scheduled ctx f i) a)).2 x
              (view_of (cache_opt c (warning_key f i)) l acc) h') <$>
    fold_opt record acc (told_opt c (warning_key f i) ≫= events).
Proof. intros Hc Hi. rewrite rest_tells by done. by rewrite Hi. Qed.

Context (Hrecord : record_storage_accesses ctx = true).

Definition call_of (o : FarCallOpcode) (f : Frame) (sender : Z) (c1 : Cache) (t : Call) : CallInfo :=
  let b := shown_value c1 (storage_key_for_eth_balance (traced_account t)) in
  ZkRecorder.mkCall (traced_type t) sender (traced_account t)
    match o with Mimic => if context_value f =? 0 then b else u_saturating_sub b (context_value f)
               | _ => b end
    (traced_data t) (context_value f).

(** The cycle of a far call of the transaction. *)
Lemma far_cycle o f i a tr changed tks c l acc t h h' :
  let sender := find_sender (immediate (track a)) (msg_sender f) in
  let c1 := cache_opt c (traced_key t) in
  let key := storage_key_for_eth_balance (traced_account t) in
  let c2 := cache_read c1 key in
  track_tx_execution (FarCall o) f tr =
    Some (changed, Some (Started (far_called o f)), mkTracker tks Executing) →
  cache_ok c → classify_call sender f c = Some t → intercept ctx f h = Some (i, h') →
  cycle (mkTracer a tr (view_of c l acc) h) (Cycle (FarCall o) f) =
    (λ acc, mkTracer (take_immediate (push_all (scheduled ctx f i) (track a))).2
              (mkTracker tks Executing)
              (view_of (cache_opt c2 (warning_key f i)) (mkAddresses (traced_account t) sender :: l) acc) h') <$>
    fold_opt record acc
      ((if changed then [StartRecording] else []) ++ (told_opt c (traced_key t) ≫= events) ++
       (told c1 key ≫= events) ++ [CallStart (call_of o f sender c1 t)] ++
       (told_opt c2 (warning_key f i) ≫= events)).
Proof.
  intros sender c1 key c2 Ht Hc Hcl Hi.
  assert (Hr : record_accesses read_db ctx f sender true changed Executing
                 (Some (Started (far_called o f))) (view_of c l acc) =
    view_of c2 (mkAddresses (traced_account t) sender :: l) <$>
    fold_opt record acc ((if changed then [StartRecording] else []) ++
      (told_opt c (traced_key t) ≫= events) ++ (told c1 key ≫= events) ++
      [CallStart (call_of o f sender c1 t)])).
  { unfold record_accesses. rewrite Hrecord. cbn [negb].
    eapply bind_tells; [destruct changed; [apply report_tells|by apply tells_nothing]|].
    intros acc1. eapply bind_tells; [by apply classify_tells|]. intros acc2.
    cbn beta iota. apply start_tells. by apply cache_opt_ok. }
  pose proof (bind_tells _ (λ v, t ← far_call_rest read_db ctx f (mkTracer (track a) (mkTracker tks Executing) v h);
      Some (finish_cycle f t).2) _ _ acc _ _ Hr
    (λ acc', known_tells f (track a) (mkTracker tks Executing) c2 _ acc' h i h'
               (cache_read_ok _ _ (cache_opt_ok _ _ Hc)) Hi)) as Hall.
  rewrite <-!app_assoc in Hall.
  unfold ZkTracer.cycle, after_execution. cbn [is_far_call tx_execution_tracker call_actions storage hooks].
  rewrite Ht. cbn [mbind option_bind is_tx_executing status]. fold sender. cbn [mbind option_bind] in Hall.
  rewrite <-Hall. by destruct (record_accesses _ _ _ _ _ _ _ _ _).
Qed.

Lemma classify_back back c l acc t (last : TrackedCall) :
  cache_ok c → classify_call (msg_sender back) back c = Some t →
  ∀ account sender, l = mkAddresses account sender :: tail l →
  let c' := cache_opt c (traced_key t) in
  let key := storage_key_for_eth_balance account in
  record_accesses read_db ctx back (msg_sender back) true false Executing (Some (Returned last))
      (view_of c l acc) =
    view_of (cache_read c' key) (tail l) <$>
    fold_opt record acc ((told_opt c (traced_key t) ≫= events) ++ (told c' key ≫= events) ++
      [CallEnd (shown_value c' key)]).
Proof.
  intros Hc Ht account sender Hl c' key. unfold record_accesses. rewrite Hrecord. cbn [negb mbind option_bind].
  eapply bind_tells; [by apply classify_tells|]. intros acc1. cbn beta iota.
  rewrite Hl. apply end_tells. by apply cache_opt_ok.
Qed.

(** The return from a far call, when the transaction goes on. *)
Lemma ret_cycle back a last tk tks c l acc account sender t h :
  let c' := cache_opt c (traced_key t) in
  let key := storage_key_for_eth_balance account in
  immediate a = [] → immediate_return h = None → num_near_calls last = 0 →
  cache_ok c → classify_call (msg_sender back) back c = Some t →
  cycle (mkTracer a (mkTracker (last :: tk :: tks) Executing) (view_of c (mkAddresses account sender :: l) acc) h)
      (Cycle Ret back) =
    (λ acc, mkTracer a (mkTracker (tk :: tks) Executing) (view_of (cache_read c' key) l acc) h) <$>
    fold_opt record acc ((told_opt c (traced_key t) ≫= events) ++ (told c' key ≫= events) ++
      [CallEnd (shown_value c' key)]).
Proof.
  intros c' key Ha Hh Hn Hc Ht.
  pose proof (classify_back back c (mkAddresses account sender :: l) acc t last Hc Ht account sender eq_refl) as Hr.
  unfold ZkTracer.cycle, after_execution.
  cbn [is_far_call tx_execution_tracker call_actions storage hooks track_tx_execution status tracked].
  rewrite Hn. cbn [Z.eqb mbind option_bind is_tx_executing status]. rewrite Ha. cbn [find_sender].
  rewrite Hr. fold c' key. cbn [tail]. destruct (fold_opt record acc _); cbn; [|done].
  unfold set_hooks, set_return. cbn. destruct a as [im p], h. cbn in Ha, Hh. by rewrite Ha, Hh.
Qed.

(** The return from the call of the transaction itself. *)
Lemma last_ret_cycle back a last c acc account sender h :
  let key := storage_key_for_eth_balance account in
  immediate a = [] → immediate_return h = None → num_near_calls last = 0 → cache_ok c →
  cycle (mkTracer a (mkTracker [last] Executing) (view_of c [mkAddresses account sender] acc) h)
      (Cycle Ret back) =
    (λ acc, mkTracer a (mkTracker [] Finished) (view_of (cache_read c key) [] acc) h) <$>
    fold_opt record acc ((told c key ≫= events) ++ [CallEnd (shown_value c key)] ++ [StopRecording]).
Proof.
  intros key Ha Hh Hn Hc. unfold ZkTracer.cycle, after_execution.
  cbn [is_far_call tx_execution_tracker call_actions storage hooks track_tx_execution status tracked].
  rewrite Hn. cbn [Z.eqb mbind option_bind is_tx_executing status]. unfold record_accesses. rewrite Hrecord.
  cbn [negb mbind option_bind].
  pose proof (bind_tells _ (report StopRecording) _ _ acc _ _ (end_tells c account sender [] acc Hc)
    (λ acc', report_tells StopRecording _ _ acc')) as Hr.
  rewrite <-app_assoc in Hr. cbn [mbind option_bind] in Hr. rewrite Hr. fold key.
  destruct (fold_opt record acc _); cbn; [|done].
  unfold set_hooks, set_return. cbn. destruct a as [im p], h. cbn in Ha, Hh. by rewrite Ha, Hh.
Qed.
(** *** A frame of the transaction *)

Definition frame_of (p : Rest) (last : TrackedCall) (rest : list TrackedCall)
    (l : list CallAddresses) (acc : AccountAccesses) : Tracer :=
  mkTracer p.2.1 (mkTracker (last :: rest) Executing) (view_of p.1 l acc) p.2.2.

Definition p_ok (p : Rest) : Prop :=
  cache_ok p.1 ∧ immediate p.2.1 = [] ∧ immediate_return p.2.2 = None.
Lemma intercept_done f h i h' : intercept ctx f h = Some (i, h') → immediate_return h' = None.
Proof.
  unfold intercept. destruct (zk_mocked_call _ _ _ _) as [[mocked|] m]; [by intros [= _ <-]|].
  destruct (if _ && starts_with SELECTOR_ACCOUNT_VERSION _ then _ else _) as [[]|]; cbn [mbind option_bind];
    [by intros [= _ <-]| |done].
  destruct (existsb _ _); [by intros [= _ <-]|]. destruct (_ && starts_with SELECTOR_BLOCK_HASH _).
  - destruct (slice _ _ _); [by intros [= _ <-]|done].
  - unfold record_immutables. destruct (_ && _ && _); [|by intros [= _ <-]].
    by destruct (decode_immutables _) as [[]|]; [intros [= _ <-]|].
Qed.

(** A run of the tracer hands the recorder what [tell] says. *)
Definition follows (es : list Event) (n : Z) (t : Rest → Told) : Prop :=
  ∀ last rest l acc p r, p_ok p → 0 <= num_near_calls last → num_near_calls last + n <= umax 64 →
  t p = Some r →
  fold_opt cycle (frame_of p last rest l acc) es =
    frame_of r.2 last rest l <$> fold_opt record acc (r.1 ≫= events) ∧
  p_ok r.2.

Lemma nears_nonneg o : 0 <= nears o.
Proof.
  induction o as [| | |f body b IH|o f body b IH] using VmOp_ind'; cbn; try lia.
  - enough (0 <= zsum nears body) by lia. apply zsum_nonneg. by apply Forall_forall.
  - apply zsum_nonneg. by apply Forall_forall.
Qed.

Lemma fold_bind {S A} (f : S → A → option S) s e es : fold_opt f s (e :: es) = s' ← f s e; fold_opt f s' es.
Proof. done. Qed.

Lemma body_tells l :
  Forall (λ o, follows (cycles o) (nears o) (tell o)) l →
  follows (l ≫= cycles) (zsum nears l) (tell_body tell l).
Proof.
  induction 1 as [|o l Ho Hl IH]; intros last rest st acc p r Hp Hn0 Hn Ht.
  { cbn in Ht. injection Ht as <-. split; [|done]. by apply tells_nothing. }
  cbn [tell_body] in Ht. destruct (tell o p) as [r1|] eqn:H1; [|done].
  cbn [mbind option_bind] in Ht. destruct (tell_body tell l r1.2) as [r2|] eqn:H2; [|done].
  injection Ht as <-. change (zsum nears (o :: l)) with (nears o + zsum nears l) in Hn.
  pose proof (nears_nonneg o). pose proof (zsum_nonneg nears l (λ o _, nears_nonneg o)).
  destruct (Ho last rest st acc p r1) as [Hf1 Hp1]; [done|lia|lia|done|].
  split; [|by apply (IH last rest st acc r1.2 r2); [done|lia|lia|]].
  csimpl. rewrite bind_app, fold_opt_app. cbn [fst snd].
  eapply bind_tells; [exact Hf1|]. intros acc'. by apply (IH last rest st acc' r1.2 r2); [done|lia|lia|].
Qed.

(** Cycles that only move the counter of near calls. *)
Lemma quiet_cycle o f p last rest last' rest' l acc :
  is_far_call o = false → p_ok p →
  track_tx_execution o f (mkTracker (last :: rest) Executing) =
    Some (false, None, mkTracker (last' :: rest') Executing) →
  cycle (frame_of p last rest l acc) (Cycle o f) = Some (frame_of p last' rest' l acc).
Proof.
  intros Ho (_ & Ha & Hh) Ht. unfold ZkTracer.cycle, after_execution, frame_of.
  cbn [tx_execution_tracker call_actions storage hooks]. rewrite Ho, Ht.
  cbn [mbind option_bind is_tx_executing status]. unfold record_accesses. rewrite Hrecord.
  cbn [negb mbind option_bind]. unfold finish_cycle, set_hooks, set_return. cbn.
  destruct p as [c [[im a] h]]. cbn in *. rewrite Ha. destruct h. cbn in *. by rewrite Hh.
Qed.

Lemma near_tells f body b :
  follows (body ≫= cycles) (zsum nears body) (tell_body tell body) →
  follows (cycles (VNear f body b)) (nears (VNear f body b)) (tell (VNear f body b)).
Proof.
  intros IH last rest l acc p r Hp Hn0 Hn Ht. cbn [nears] in Hn. cbn [cycles].
  pose proof (zsum_nonneg nears body (λ o _, nears_nonneg o)).
  rewrite fold_bind, (quiet_cycle NearCall f p last rest (set_near last (num_near_calls last + 1)) rest)
    by (done || (cbn; by rewrite (proj2 (Z.ltb_ge _ _)) by lia)).
  cbn [mbind option_bind].
  destruct (IH (set_near last (num_near_calls last + 1)) rest l acc p r) as [Hf Hr];
    [done|cbn [num_near_calls set_near]; lia|cbn [num_near_calls set_near]; lia|done|].
  split; [|done]. rewrite fold_opt_app, Hf.
  destruct (fold_opt record acc _) as [acc'|]; cbn [mbind option_bind fmap option_fmap option_map]; [|done].
  cbn [fold_opt]. erewrite (quiet_cycle Ret b); [|done|exact Hr|].
  2:{ cbn. by rewrite (proj2 (Z.eqb_neq _ _)) by lia. }
  cbn. do 2 f_equal. unfold frame_of, set_near. cbn. destruct last. cbn. do 4 f_equal. lia.
Qed.

(** The body of a far call, once the call has started. *)
Lemma far_body_tells es n (t : Rest → Told) o f rest l acc p r :
  follows es n t → 0 <= n <= umax 64 → p_ok p → t p = Some r →
  fold_opt cycle (frame_of p (far_called o f) rest l acc) es =
    frame_of r.2 (far_called o f) rest l <$> fold_opt record acc (r.1 ≫= events) ∧
  p_ok r.2.
Proof. intros Hf Hn Hp Ht. apply Hf; [done|cbn; lia|cbn [num_near_calls far_called]; lia|done]. Qed.

Lemma events_run c body b : events (Run c body b) = CallStart c :: (body ≫= events) ++ [CallEnd b].
Proof. done. Qed.
Lemma told_events (a b d e f g : list ZkRecorder.Op) c nb :
  ((a ++ b ++ [Run c (d ++ e ++ f ++ g) nb]) ≫= events) =
  ((a ≫= events) ++ (b ≫= events) ++ [CallStart c] ++ (d ≫= events)) ++ (e ≫= events) ++
  (f ≫= events) ++ (g ≫= events) ++ [CallEnd nb].
Proof.
  rewrite !bind_app. cbn [mbind list_bind]. rewrite events_run, !bind_app, app_nil_r.
  by rewrite <-!app_assoc.
Qed.

Lemma far_tells o f body b :
  follows (body ≫= cycles) (zsum nears body) (tell_body tell body) →
  follows (cycles (VFar o f body b)) (nears (VFar o f body b)) (tell (VFar o f body b)).
Proof.
  intros IH last rest l acc [c [a h]] r (Hc & Ha & Hh) Hn0 Hn Ht. cbn [nears] in Hn. cbn [fst snd] in Hc, Ha.
  pose proof (zsum_nonneg nears body (λ o _, nears_nonneg o)) as Hpos.
  cbn [ZkTracer.tell tell_far] in Ht.
  destruct (classify_call _ f c) as [t|] eqn:Hcl; [|done]. cbn [mbind option_bind] in Ht.
  destruct (intercept ctx f h) as [[i h1]|] eqn:Hi; [|done]. cbn [mbind option_bind] in Ht.
  destruct (tell_body _ _ _) as [r1|] eqn:Hb; [|done]. cbn [mbind option_bind] in Ht.
  destruct r1.2 as [c4 [a4 h4]] eqn:Hr1. destruct (classify_call _ b c4) as [t'|] eqn:Hcl'; [|done].
  cbn [mbind option_bind] in Ht. injection Ht as <-. cbn [cycles fst snd].
  pose proof (intercept_done _ _ _ _ Hi) as Hh1.
  assert (Hc3 : p_ok r1.2).
  { eapply (far_body_tells _ _ _ o f [] [] acc _ r1 IH); [lia|split_and!|exact Hb]; cbn [fst snd]; [|done..].
    by apply cache_opt_ok, cache_read_ok, cache_opt_ok. }
  rewrite Hr1 in Hc3. destruct Hc3 as (Hc4 & Ha4 & Hh4). cbn [fst snd] in Hc4, Ha4, Hh4.
  split; [|split_and!; [by apply cache_read_ok, cache_opt_ok|done..]].
  rewrite fold_bind, told_events.
  eapply bind_tells.
  { unfold frame_of. rewrite (far_cycle o f i a _ false (far_called o f :: last :: rest) c l acc t h h1)
      by done. cbn [app]. reflexivity. }
  intros acc1. rewrite fold_opt_app. eapply bind_tells.
  { refine (proj1 (far_body_tells _ _ _ o f (last :: rest) _ acc1 _ r1 IH _ _ Hb)); [lia|].
    split_and!; cbn [fst snd]; [|done..]. by apply cache_opt_ok, cache_read_ok, cache_opt_ok. }
  intros acc2. rewrite Hr1. cbn [fold_opt fst snd]. unfold frame_of. cbn [fst snd].
  rewrite (ret_cycle b a4 (far_called o f) last rest c4 l acc2 _ _ t' h4) by done.
  match goal with |- _ = _ <$> ?m => by destruct m end.
Qed.

Lemma op_tells o : follows (cycles o) (nears o) (tell o).
Proof.
  induction o as [k|k v|f|f body b IH|o f body b IH] using VmOp_ind'.
  - intros last rest l acc p r (Hc & Ha & Hh) _ _ [= <-]. split; [|split_and!; [by apply cache_read_ok|done..]].
    cbn [cycles fold_opt ZkTracer.cycle]. unfold frame_of. cbn [storage].
    rewrite (read_tells p.1 l acc k Hc). by destruct (fold_opt record acc _).
  - intros last rest l acc p r (Hc & Ha & Hh) _ _ [= <-]. cbn [fst snd].
    split; [|split_and!; [|done..]].
    2:{ intros k' v'. apply (cache_read_ok p.1 k Hc). }
    cbn [cycles fold_opt ZkTracer.cycle]. unfold frame_of. cbn [storage].
    rewrite (set_tells p.1 l acc k v Hc). by destruct (fold_opt record acc _).
  - intros last rest l acc p r Hp Hn0 Hn [= <-]. split; [|done]. cbn [cycles fold_opt].
    by rewrite (quiet_cycle OtherOpcode f p last rest last rest).
  - apply near_tells, body_tells, IH.
  - apply far_tells, body_tells, IH.
Qed.

(** *** Calldata that the tracer can read

    The tracer slices or decodes the calldata of some calls to system contracts
    and panics when it is too short or malformed; whoever makes the call
    chooses it. *)
Definition calls_with (f : Frame) (a : Z) (selector : list Z) : bool :=
  (code_address f =? a) && starts_with selector (calldata f).
Definition decodes {A} (decode : list Z → option A) (f : Frame) : bool :=
  match decode (drop 4 (calldata f)) with Some _ => true | None => false end.

Definition calldata_ok (f : Frame) : bool :=
  implb (calls_with f CONTRACT_DEPLOYER_ADDRESS SELECTOR_ACCOUNT_VERSION ||
         calls_with f SYSTEM_CONTEXT_ADDRESS SELECTOR_BLOCK_HASH) (36 <=? length (calldata f))%nat &&
  implb (is_create ctx && calls_with f IMMUTABLE_SIMULATOR_STORAGE_ADDRESS SELECTOR_IMMUTABLE_SIMULATOR_SET)
    (decodes decode_immutables f).
Definition creation_ok (f : Frame) : bool := implb (is_creation f) (decodes decode_create f).

Fixpoint frames_ok (o : VmOp) : bool :=
  match o with
  | VNear _ body _ => forallb frames_ok body
  | VFar _ f body back => calldata_ok f && creation_ok f && forallb frames_ok body && creation_ok back
  | _ => true
  end.

Lemma intercept_total f h : calldata_ok f = true → ∃ i h', intercept ctx f h = Some (i, h').
Proof.
  intros [Hs Hd]%andb_prop. unfold intercept, calls_with in *.
  destruct (zk_mocked_call _ _ _ _) as [[mocked|] m]; [by eexists _, _|].
  set (version := _ && starts_with SELECTOR_ACCOUNT_VERSION _) in *.
  set (block := _ && starts_with SELECTOR_BLOCK_HASH _) in *.
  assert (Hw : version || block = true → ∃ w, slice (calldata f) 4 36 = Some w).
  { intros Hvb. rewrite Hvb in Hs. unfold slice. cbn [implb] in Hs. rewrite Hs. by eexists. }
  assert (Hv : ∃ b, (if version then w ← slice (calldata f) 4 36; Some (ctx_tx_caller ctx =? of_be_bytes (drop 12 w))
                     else Some false) = Some b).
  { destruct version; [|by eexists]. destruct Hw as [w ->]; by eexists. }
  destruct Hv as [[] ->]; cbn [mbind option_bind]; [by eexists _, _|].
  destruct (existsb _ _); [by eexists _, _|]. destruct block.
  { destruct Hw as [w ->]; [by destruct version|by eexists _, _]. }
  unfold record_immutables, decodes in *. rewrite <-andb_assoc.
  destruct (is_create ctx && _); [|by eexists _, _].
  by destruct (decode_immutables _) as [[]|]; [eexists _, _|].
Qed.

Lemma classify_total sender f c : creation_ok f = true → ∃ t, classify_call sender f c = Some t.
Proof.
  unfold creation_ok, decodes, ZkTracer.classify_call. destruct (is_creation f); [|by eexists].
  destruct (decode_create _) as [[[]]|]; [by eexists|done].
Qed.

Lemma far_total (tb : Rest → Told) o f back p :
  (∀ p, is_Some (tb p)) → calldata_ok f = true → creation_ok f = true →
  match back with Some b => creation_ok b = true | None => True end →
  is_Some (tell_far read_db ctx tb o f back p).
Proof.
  intros Hb Hf Hc Hback. destruct p as [c [a h]]. unfold tell_far.
  destruct (classify_total (find_sender (immediate (track a)) (msg_sender f)) f c Hc) as [t ->].
  destruct (intercept_total f h Hf) as (i & h' & ->). cbn [mbind option_bind].
  match goal with |- context [tb ?x] => destruct (Hb x) as [r ->] end. cbn [mbind option_bind].
  destruct r.2 as [c4 a4]. destruct back as [b|]; [|by eexists].
  destruct (classify_total (msg_sender b) b c4 Hback) as [t' ->]. by eexists.
Qed.

Lemma body_total l :
  Forall (λ o, frames_ok o = true → ∀ p, is_Some (tell o p)) l → forallb frames_ok l = true →
  ∀ p, is_Some (tell_body tell l p).
Proof.
  induction 1 as [|o l Ho Hl IH]; intros Hok p; [by eexists|].
  apply andb_prop in Hok as [H1 H2]. cbn [tell_body]. destruct (Ho H1 p) as [r ->]. cbn [mbind option_bind].
  destruct (IH H2 r.2) as [r' ->]. by eexists.
Qed.

Lemma tell_total o : frames_ok o = true → ∀ p, is_Some (tell o p).
Proof.
  induction o as [k|k v|f|f body b IH|o f body b IH] using VmOp_ind'; intros Hok p; [by eexists..| |].
  - by apply (body_total _ IH).
  - cbn [frames_ok] in Hok. apply andb_prop in Hok as [[[H1 H2]%andb_prop H3]%andb_prop H4].
    apply far_total; [|done..]. by apply body_total.
Qed.

(** *** Outside of the transaction nothing is recorded *)

Definition unrelated (e : Event) : bool :=
  match e with
  | Cycle (FarCall _) f => negb (starts_with SELECTOR_EXECUTE_TRANSACTION (calldata f))
  | _ => true
  end.
Definition readable (e : Event) : bool :=
  match e with Cycle (FarCall _) f => calldata_ok f | _ => true end.

Lemma silent c key acc : is_recording acc = false → fold_opt record acc (told c key ≫= events) = Some acc.
Proof.
  intros Ha. unfold ZkTracer.told. destruct (cached c key); [done|]. cbn.
  unfold record_read, record_slot. by rewrite Ha.
Qed.

(** The tracer while no transaction executes. *)
Definition idle_tracer (s : TxExecutionStatus) (p : Rest) (acc : AccountAccesses) : Tracer :=
  mkTracer p.2.1 (mkTracker [] s) (view_of p.1 [] acc) p.2.2.

Lemma outside_cycle s e p acc :
  is_recording acc = false → p_ok p → readable e = true →
  (s = Finished ∨ s = Pending ∧ unrelated e = true) →
  ∃ p', cycle (idle_tracer s p acc) e = Some (idle_tracer s p' acc) ∧ p_ok p'.
Proof.
  intros Hacc Hp He Hs. destruct p as [c [a h]]. destruct Hp as (Hc & Ha & Hh). cbn [fst snd] in *.
  unfold idle_tracer. cbn [fst snd]. destruct e as [o f|k|k v].
  - assert (Ht : track_tx_execution o f (mkTracker [] s) = Some (false, None, mkTracker [] s)).
    { destruct Hs as [->|[-> Hu]]; [by destruct o|]. destruct o; cbn in *; try done.
      by apply negb_true_iff in Hu as ->. }
    assert (Hr : ∀ sender, record_accesses read_db ctx f sender false false s None (view_of c [] acc) =
                           Some (view_of c [] acc)).
    { intros sender. unfold record_accesses. by rewrite Hrecord. }
    assert (Hx : is_tx_executing (mkTracker [] s) = false) by (by destruct Hs as [->|[-> _]]).
    unfold ZkTracer.cycle, after_execution. cbn [call_actions tx_execution_tracker storage hooks].
    rewrite Ht. cbn [mbind option_bind]. rewrite Hx. cbn [status]. rewrite Hr. cbn [mbind option_bind].
    destruct (is_far_call o) eqn:Ho.
    + assert (Hf : calldata_ok f = true) by (by destruct o).
      destruct (intercept_total f h Hf) as (i & h' & Hi).
      change (option_bind Tracer Tracer) with (@mbind option _ Tracer Tracer).
      pose proof (known_tells f (track a) (mkTracker [] s) c [] acc h i h' Hc Hi) as Hk.
      cbn [mbind option_bind] in Hk. rewrite Hk.
      assert (Hw : fold_opt record acc (told_opt c (warning_key f i) ≫= events) = Some acc)
        by (destruct (warning_key f i); [by apply silent|done]).
      rewrite Hw. eexists (cache_opt c (warning_key f i), (_, h')).
      split; [reflexivity|]. split_and!; [by apply cache_opt_ok|done|by eapply intercept_done].
    + exists (c, (a, h)). split; [|done]. unfold finish_cycle, set_hooks, set_return. cbn.
      destruct a, h. cbn in *. by rewrite Ha, Hh.
  - exists (cache_read c k, (a, h)). split; [|split_and!; [by apply cache_read_ok|done..]].
    cbn [ZkTracer.cycle storage]. by rewrite read_tells, silent.
  - exists (cache_write (cache_read c k) k v, (a, h)).
    split; [|split_and!; [intros k' v'; apply (cache_read_ok c k Hc)|done..]].
    cbn [ZkTracer.cycle storage]. rewrite set_tells, bind_app, fold_opt_app, silent by done. cbn.
    unfold record_write, record_slot. rewrite Hacc. done.
Qed.

Lemma outside_cycles s es p acc :
  is_recording acc = false → p_ok p → forallb readable es = true →
  (s = Finished ∨ s = Pending ∧ forallb unrelated es = true) →
  ∃ p', fold_opt cycle (idle_tracer s p acc) es = Some (idle_tracer s p' acc) ∧ p_ok p'.
Proof.
  intros Hacc. revert p. induction es as [|e es IH]; intros p Hp Hr Hs; [by exists p|].
  apply andb_prop in Hr as [Hr1 Hr2].
  assert (Hs' : (s = Finished ∨ s = Pending ∧ unrelated e = true) ∧
                (s = Finished ∨ s = Pending ∧ forallb unrelated es = true)).
  { destruct Hs as [->|[-> He]]; [by split; left|]. apply andb_prop in He as [He1 He2]. by split; right. }
  destruct (outside_cycle s e p acc Hacc Hp Hr1 (proj1 Hs')) as (p1 & H1 & Hp1).
  rewrite fold_bind, H1. cbn [mbind option_bind]. apply IH; [done..|apply Hs'].
Qed.

(** *** The transaction *)

Lemma transaction_tells o f body b p r acc :
  p_ok p → starts_with SELECTOR_EXECUTE_TRANSACTION (calldata f) = true →
  zsum nears body <= umax 64 →
  tell_far read_db ctx (tell_body tell body) o f None p = Some r →
  fold_opt cycle (idle_tracer Pending p acc) (cycles (VFar o f body b)) =
    idle_tracer Finished r.2 <$> fold_opt record acc (session r.1) ∧ p_ok r.2.
Proof.
  intros Hp Hf Hn Ht. pose proof (zsum_nonneg nears body (λ o _, nears_nonneg o)) as Hpos.
  destruct p as [c [a h]]. destruct Hp as (Hc & Ha & Hh). cbn [fst snd] in *.
  assert (IH : follows (body ≫= cycles) (zsum nears body) (tell_body tell body))
    by (apply body_tells, Forall_forall; intros; apply op_tells).
  unfold tell_far in Ht. destruct (classify_call _ f c) as [t|] eqn:Hcl; [|done].
  cbn [mbind option_bind] in Ht. destruct (intercept ctx f h) as [[i h1]|] eqn:Hi; [|done].
  cbn [mbind option_bind] in Ht. destruct (tell_body _ _ _) as [r1|] eqn:Hb; [|done].
  cbn [mbind option_bind] in Ht. destruct r1.2 as [c4 [a4 h4]] eqn:Hr1. injection Ht as <-. cbn [fst snd].
  assert (Hp3 : p_ok (cache_opt (cache_read (cache_opt c (traced_key t))
                 (storage_key_for_eth_balance (traced_account t))) (warning_key f i),
               ((take_immediate (push_all (scheduled ctx f i) (track a))).2, h1))).
  { split_and!; cbn [fst snd]; [|done|by eapply intercept_done]. by apply cache_opt_ok, cache_read_ok, cache_opt_ok. }
  assert (Hc3 : p_ok r1.2) by (by eapply (far_body_tells _ _ _ o f [] [] acc _ r1 IH)).
  rewrite Hr1 in Hc3. destruct Hc3 as (Hc4 & Ha4 & Hh4). cbn [fst snd] in Hc4, Ha4, Hh4.
  split; [|split_and!; [by apply cache_read_ok|done..]].
  cbn [cycles]. unfold session. rewrite <-(app_nil_l (told c4 _)), told_events, fold_bind.
  change (StartRecording :: ?x ++ [StopRecording]) with ([StartRecording] ++ x ++ [StopRecording]).
  rewrite <-(app_assoc _ _ [StopRecording]), (app_assoc [StartRecording]).
  eapply bind_tells.
  { unfold idle_tracer. rewrite (far_cycle o f i a _ true [far_called o f] c [] acc t h h1); [reflexivity| |done..].
    cbn. by rewrite Hf. }
  intros acc1. rewrite fold_opt_app, <-app_assoc. eapply bind_tells.
  { refine (proj1 (far_body_tells _ _ _ o f [] _ acc1 _ r1 IH _ _ Hb)); [lia|exact Hp3]. }
  intros acc2. rewrite Hr1. cbn [fold_opt fst snd]. unfold frame_of. cbn [fst snd].
  rewrite last_ret_cycle by done. cbn [mbind list_bind app].
  rewrite <-app_assoc. cbn [app]. match goal with |- _ = _ <$> ?m => by destruct m end.
Qed.

(** C34: A run of the VM whose only transaction is [executeTransaction] is traced
    without a panic of the tracer, provided that the calldata the tracer slices
    or decodes is well formed: that of calls for the version of an account, the
    hash of a block, the immutables of a creation, and of creations.  (A shorter
    one panics: [short_block_hash_panics].)  If the accesses of the transaction
    outside of calls between accounts are those of system contracts, the
    recorder returns the accesses of that transaction: those of the tree of far
    calls it made, the near calls left out, each call with the sender that is
    put in place of the bootloader, with the address and input of the contract
    it creates, and with the balances before and after it, and of the storage
    only what the cache of the view let through, whether the call was answered
    by a mock or by the block of the test, or not.  What the VM does before and
    after the transaction is not recorded. *)
Theorem records_of_transaction p pre o f body b post :
  p_ok p → forallb unrelated pre = true → forallb readable (pre ++ post) = true →
  starts_with SELECTOR_EXECUTE_TRANSACTION (calldata f) = true →
  calldata_ok f && creation_ok f && forallb frames_ok body = true → zsum nears body <= umax 64 →
  ∃ p1 r,
    fold_opt cycle (idle_tracer Pending p AccountAccesses_default) pre =
      Some (idle_tracer Pending p1 AccountAccesses_default) ∧
    tell_far read_db ctx (tell_body tell body) o f None p1 = Some r ∧
    (forallb root_ok r.1 = true → zsum calls r.1 < umax 64 →
      (t ← fold_opt cycle (idle_tracer Pending p AccountAccesses_default)
             (pre ++ cycles (VFar o f body b) ++ post);
       get_records (account_accesses (storage t))) = Some (foldl at_root [] r.1)).
Proof.
  intros Hp Hpre Hread Hf Hok Hn. rewrite forallb_app in Hread. apply andb_prop in Hread as [Hr1 Hr2].
  apply andb_prop in Hok as [[Hf1 Hf2]%andb_prop Hbody].
  destruct (outside_cycles Pending pre p AccountAccesses_default eq_refl Hp Hr1) as (p1 & H1 & Hp1); [by right|].
  destruct (far_total (tell_body tell body) o f None p1) as [r Hr]; [|done..|].
  { apply body_total; [|done]. apply Forall_forall. intros; by apply tell_total. }
  exists p1, r. split; [done|]. split; [done|]. intros Hroot Hcalls. rewrite !fold_opt_app, H1. cbn [mbind option_bind].
  rewrite fold_opt_app.
  destruct (transaction_tells o f body b p1 r AccountAccesses_default Hp1 Hf Hn Hr) as [-> Hp2].
  pose proof (session_records r.1 Hroot Hcalls) as Hs.
  destruct (fold_opt record AccountAccesses_default (session r.1)) as [acc|] eqn:He; [|done].
  cbn [fmap option_fmap option_map mbind option_bind] in *.
  assert (Hrec : is_recording acc = false).
  { revert He. unfold session. rewrite app_comm_cons, fold_opt_app.
    destruct (fold_opt record _ (_ :: _)); cbn; [by intros [= <-]|done]. }
  destruct (outside_cycles Finished post r.2 acc Hrec Hp2 Hr2) as (p2 & -> & _); [by left|].
  done.
Qed.
End proofs.

(** ** The view is a store *)

Section store.
Context `{ZkTypes}.
Context (read_db : StorageKey → Z) (ctx : CallContext).

(** Reads and writes of keys, with the values they return. *)
Inductive Access := ReadOf (key : StorageKey) | WriteOf (key : StorageKey) (v : Z).
Fixpoint view_accesses (l : list Access) (v : StorageView) : option (list Z * StorageView) :=
  match l with
  | [] => Some ([], v)
  | x :: l =>
      '(r, v) ← match x with
                | ReadOf key => read_value read_db (ctx_tx_caller ctx) key v
                | WriteOf key w => set_value read_db key w v
                end;
      '(rs, v) ← view_accesses l v;
      Some (r :: rs, v)
  end.

Definition write_store (m : StorageKey → Z) (key : StorageKey) (v : Z) : StorageKey → Z :=
  λ k, if decide (k = key) then v else m k.
Fixpoint store_accesses (l : list Access) (m : StorageKey → Z) : list Z * (StorageKey → Z) :=
  match l with
  | [] => ([], m)
  | x :: l =>
      let r := match x with
               | ReadOf key => if is_caller_code (ctx_tx_caller ctx) key then 0 else m key
               | WriteOf key _ => m key
               end in
      let m := match x with ReadOf _ => m | WriteOf key v => write_store m key v end in
      let r' := store_accesses l m in
      (r :: r'.1, r'.2)
  end.

Definition written (l : list Access) : gset StorageKey :=
  list_to_set (omap (λ x, match x with ReadOf _ => None | WriteOf key _ => Some key end) l).

Lemma current_read c key k :
  current_value read_db (cache_read read_db c key) k = current_value read_db c k.
Proof. unfold cache_read, current_value. by destruct (cached c key). Qed.
Lemma modified_read c key : modified (cache_read read_db c key) = modified c.
Proof. unfold cache_read. by destruct (cached c key). Qed.
Lemma current_write c key v k :
  current_value read_db (cache_write c key v) k = write_store (current_value read_db c) key v k.
Proof.
  unfold current_value, write_store. cbn. destruct (decide (k = key)) as [->|Hk].
  - by rewrite lookup_insert_eq.
  - by rewrite lookup_insert_ne.
Qed.
Lemma store_accesses_ext l m m' :
  (∀ k, m k = m' k) →
  (store_accesses l m).1 = (store_accesses l m').1 ∧ ∀ k, (store_accesses l m).2 k = (store_accesses l m').2 k.
Proof.
  revert m m'. induction l as [|[key|key v] l IH]; intros m m' Hm; [done|..]; cbn [store_accesses fst snd].
  - destruct (IH m m' Hm) as [-> H2]. by rewrite Hm.
  - destruct (IH (write_store m key v) (write_store m' key v)) as [-> H2]; [|by rewrite Hm].
    intros k. unfold write_store. by destruct (decide _).
Qed.

(** C36: The caches of the view cannot be told from a plain store: any sequence of
    reads and writes returns the values that the database, overwritten by the
    earlier writes, returns, a write returning the value it replaces; only the
    code of the caller reads as absent; and the keys that are handed back as
    modified are exactly those written, with the last value of each. *)
Theorem view_refines_store l c st acc :
  cache_ok read_db c → is_recording acc = false →
  ∃ c', view_accesses l (view_of c st acc) =
          Some ((store_accesses l (current_value read_db c)).1, view_of c' st acc) ∧
        (∀ k, current_value read_db c' k = (store_accesses l (current_value read_db c)).2 k) ∧
        dom (modified c') = dom (modified c) ∪ written l.
Proof.
  intros Hc Hacc. revert c Hc. induction l as [|x l IH]; intros c Hc.
  { exists c. split; [done|]. split; [done|]. unfold written. cbn. set_solver. }
  destruct x as [key|key v]; cbn [view_accesses store_accesses fst snd].
  - rewrite (read_tells read_db ctx) by done. rewrite silent by done. cbn [fmap option_fmap option_map mbind option_bind].
    destruct (IH (cache_read read_db c key)) as (c' & -> & Hv & Hd); [by apply cache_read_ok|].
    destruct (store_accesses_ext l (current_value read_db (cache_read read_db c key)) (current_value read_db c)
      (current_read c key)) as [-> H2].
    exists c'. split; [done|]. split; [intros k; by rewrite Hv|]. by rewrite Hd, modified_read.
  - rewrite set_tells by done. rewrite bind_app, fold_opt_app, silent by done.
    cbn [mbind option_bind list_bind]. cbn [events app fold_opt record]. unfold record_write, record_slot.
    rewrite Hacc. cbn [negb mbind option_bind fmap option_fmap option_map].
    destruct (IH (cache_write (cache_read read_db c key) key v)) as (c' & -> & Hv & Hd);
      [intros k' v'; apply (cache_read_ok read_db c key Hc)|].
    destruct (store_accesses_ext l (current_value read_db (cache_write (cache_read read_db c key) key v))
      (write_store (current_value read_db c) key v)) as [-> H2].
    { intros k. rewrite current_write. unfold write_store. destruct (decide _); [done|]. apply current_read. }
    exists c'. split; [done|]. split; [intros k; by rewrite Hv|].
    rewrite Hd. cbn. rewrite dom_insert_L, modified_read. unfold written. cbn. set_solver.
Qed.
End store.

(** ** Actions are taken by the far call they are meant for *)

Definition due (n : nat) (p : Z * CallAction) : option CallAction :=
  if p.1 =? Z.of_nat n then Some p.2 else None.
Definition later (p : Z * CallAction) : option (Z * CallAction) :=
  if p.1 =? 0 then None else Some (decrement p.1, p.2).

(** What the far calls take that schedule the actions of a list each. *)
Fixpoint taken (a : CallActions) (calls : list (list (Z * CallAction))) : list (list CallAction) :=
  match calls with
  | [] => []
  | l :: calls =>
      let r := take_immediate (push_all l (track a)) in
      r.1 :: taken r.2 calls
  end.
(** What was scheduled for the far call [n]. *)
Fixpoint due_at (calls : list (list (Z * CallAction))) (n : nat) : list CallAction :=
  match calls with
  | [] => []
  | l :: calls => omap (due n) l ++ match n with O => [] | S n => due_at calls n end
  end.

Lemma push_all_split l a :
  push_all l a = mkActions (immediate a ++ omap (due 0) l) (pending_actions a ++ omap later l).
Proof.
  revert a. induction l as [|p l IH]; intros a; [cbn; rewrite !app_nil_r; by destruct a|].
  cbn [push_all foldl]. change (foldl _ ?x l) with (push_all l x). rewrite IH.
  cbn [omap list_omap]. unfold push, due, later.
  change (Z.of_nat 0) with 0. destruct (p.1 =? 0); cbn; by rewrite <-app_assoc.
Qed.
Lemma track_split a : track a = push_all (pending_actions a) (mkActions (immediate a) []).
Proof. done. Qed.

Lemma due_later n l :
  Forall (λ p, 0 <= p.1) l → omap (due n) (omap later l) = omap (due (S n)) l.
Proof.
  induction 1 as [|p l Hp Hl IH]; [done|].
  assert (Hh : (later p ≫= due n) = due (S n) p).
  { unfold later, due, decrement, u_saturating_sub. destruct (Z.eqb_spec p.1 0) as [H0|H0]; cbn.
    - by rewrite (proj2 (Z.eqb_neq _ _)) by lia.
    - destruct (Z.eqb_spec (Z.max 0 (p.1 - 1)) (Z.of_nat n)), (Z.eqb_spec p.1 (Z.of_nat (S n))); (done || lia). }
  cbn [omap list_omap]. rewrite <-Hh. destruct (later p) as [q|]; cbn [mbind option_bind omap list_omap];
    by rewrite IH.
Qed.
Lemma later_nonneg l : Forall (λ p : Z * CallAction, 0 <= p.1) (omap later l).
Proof.
  apply Forall_forall. intros p Hp. apply list_elem_of_omap in Hp as (q & _ & Hq). revert Hq.
  unfold later. destruct (q.1 =? 0); [done|]. intros [= <-]. apply Z.le_max_l.
Qed.

Lemma taken_due calls n q :
  Forall (λ p, 0 <= p.1) q → Forall (Forall (λ p, 0 <= p.1)) calls → (n < length calls)%nat →
  taken (mkActions [] q) calls !! n = Some (omap (due n) q ++ due_at calls n).
Proof.
  intros Hq Hc. revert n q Hq. induction Hc as [|l calls Hl Hc IH]; intros n q Hq Hn; [cbn in Hn; lia|].
  cbn [taken due_at]. rewrite track_split, !push_all_split. cbn [immediate pending_actions take_immediate fst snd app].
  destruct n as [|n]; cbn [lookup list_lookup]; [by rewrite app_nil_r|].
  rewrite IH by (cbn in Hn; (lia || (apply Forall_app; split; apply later_nonneg))).
  rewrite omap_app, !due_later by done. by rewrite app_assoc.
Qed.

(** An action scheduled by a far call for [n] far calls later is taken there,
    in the order in which it was scheduled, and never again: what each far call
    takes is exactly what was scheduled for it. *)
Theorem actions_taken_when_due calls n :
  Forall (Forall (λ p, 0 <= p.1)) calls → (n < length calls)%nat →
  taken (mkActions [] []) calls !! n = Some (due_at calls n).
Proof. intros Hc Hn. by apply taken_due. Qed.

(** ** The records replace the call of the EVM *)

Section replace.
Context (converted : list StateDiff.AccountAccess).

Definition appended (is_revert : bool) : list StateDiff.AccountAccess :=
  if is_revert then mark_reverted <$> converted else converted.

Lemma replaced d is_revert finish e frames :
  0 < d →
  zksync_remove_duplicate_account_access
    (Some (frame_end d is_revert finish ((e :: converted) :: frames)))
    (Some (stack_insert_index ([e] :: frames))) =
  (Some match frames with
        | [] => [appended is_revert]
        | top :: rest => (top ++ appended is_revert) :: rest
        end, None).
Proof.
  intros Hd. unfold frame_end. rewrite (proj2 (Z.ltb_lt _ _) Hd). unfold appended.
  assert (He : ∀ e l, ∃ e', match e :: l with
                           | [] => []
                           | a :: l => (if StateDiff.depth a =? d then finish a else a) :: l
                           end = e' :: l) by (intros; eexists; reflexivity).
  destruct (He (if is_revert then mark_reverted e else e) (appended is_revert)) as [e' He'].
  assert (Hm : (if is_revert then mark_reverted <$> (e :: converted) else e :: converted) =
               (if is_revert then mark_reverted e else e) :: appended is_revert)
    by (unfold appended; by destruct is_revert).
  rewrite Hm, He'. unfold merge_down, zksync_remove_duplicate_account_access, appended.
  destruct frames as [|top rest]; cbn [stack_insert_index]; [done|].
  do 3 f_equal. rewrite delete_middle. done.
Qed.

(** When the zkSync VM has run a call or a creation that the EVM started to
    record, the records of the VM take the place of the placeholder of the
    EVM, after everything recorded before in the same frame, marked as
    reverted if the call was reverted; nothing else of the recording changes. *)
Theorem records_replace_placeholder chain d acc call address by_ v init_code is_revert after frames at_ :
  0 < d →
  let finish recorded e_end :=
    let '(recorded, at_) := append_recorded_accesses converted recorded at_ in
    zksync_remove_duplicate_account_access (hook recorded e_end) at_ in
  let result :=
    (Some match frames with
          | [] => [appended is_revert]
          | top :: rest => (top ++ appended is_revert) :: rest
          end, None) in
  finish (hook (Some frames) (CallBegin chain d acc call)) (StateDiff.CallEnd d false is_revert after) = result ∧
  finish (hook (Some frames) (CreateBegin chain d address by_ v init_code)) (CreateEnd d false is_revert after) =
    result.
Proof. intros Hd finish result. split; by apply replaced. Qed.
End replace.

(** ** Concrete runs *)

Module TracerExample.
#[export] Instance types : ZkTypes := {|
  storage_key_for_eth_balance a := mkKey 32778 a;
  get_nonce_key a := mkKey 32771 a;
  get_code_key a := mkKey 32770 a;
  deploy_nonce v := v / 2 ^ 128;
  compute_create_address a n := a + n + 1000000;
  compute_create2_address a h salt _ := a + h + salt;
  decode_create l := match l with salt :: hash :: input => Some (salt, hash, input) | _ => None end;
  decode_immutables l := match l with a :: i :: v :: _ => Some (a, [(i, v)]) | _ => None end;
|}.

Definition caller : Z := 70000.
Definition tester : Z := 70001.
Definition A : Z := 70010.
Definition B : Z := 70011.
Definition ctx : CallContext := mkContext caller tester A None None 100 1700000000 0 false ∅ true.
Definition db (k : StorageKey) : Z := if key_slot k =? 1 then 11 else 0.
Definition no_cache : Cache := mkCache ∅ ∅ ∅ None.
Definition no_hooks : Hooks := mkHooks Mocks.State_default ∅ ∅ None.
Definition at_start : Rest := (no_cache, (mkActions [] [], no_hooks)).
Definition start : Tracer := idle_tracer Pending at_start AccountAccesses_default.

Definition frame (from_ to_ : Z) (data : list Z) : Frame := mkFrame from_ to_ to_ 0 data.
(** The bootloader executes a transaction of the caller that calls [A]; [A]
    asks for the number of the block, reads a slot twice, writes it, and
    creates a contract, whose constructor the deployer calls. *)
Definition create_data : list Z := SELECTOR_CONTRACT_DEPLOYER_CREATE ++ [0; 5; 6].
Definition body : list VmOp :=
  [VFar Normal (frame caller A [1; 2; 3; 4])
     [VFar Normal (frame A SYSTEM_CONTEXT_ADDRESS SELECTOR_SYSTEM_CONTEXT_BLOCK_NUMBER) [] (frame caller A []);
      VRead (mkKey A 1); VNear (frame caller A []) [VRead (mkKey A 1)] (frame caller A []);
      VWrite (mkKey A 1) 12;
      VFar Normal (frame A CONTRACT_DEPLOYER_ADDRESS create_data)
        [VFar Mimic (frame A 1070010 [6]) [VWrite (mkKey 1070010 0) 1]
           (frame A CONTRACT_DEPLOYER_ADDRESS [])]
        (frame caller A [])]
     (frame BOOTLOADER_ADDRESS caller [])].
Definition tx : Frame := frame BOOTLOADER_ADDRESS caller (SELECTOR_EXECUTE_TRANSACTION ++ [0]).
Definition told_of_tx : list ZkRecorder.Op :=
  match tell_far db ctx (tell_body (tell db ctx) body) Normal tx None at_start with
  | Some r => r.1
  | None => []
  end.

Lemma records_of_transaction_witness :
  (t ← fold_opt (cycle db ctx) start
         ([] ++ cycles (VFar Normal tx body (frame 0 BOOTLOADER_ADDRESS [])) ++ [SLoad (mkKey A 7)]);
   get_records (account_accesses (storage t))) = Some (foldl at_root [] told_of_tx) ∧
  ((λ a, (ZkRecorder.account a, ZkRecorder.accessor a, ZkRecorder.depth a,
          (λ s, (is_write s, new_value s)) <$> storage_accesses a)) <$> foldl at_root [] told_of_tx) =
    [(A, tester, 1, [(false, 11); (true, 12)]); (1070010, A, 2, [(false, 0); (true, 1)])].
Proof.
  split; [|vm_compute; reflexivity].
  destruct (records_of_transaction db ctx eq_refl at_start [] Normal tx body
    (frame 0 BOOTLOADER_ADDRESS []) [SLoad (mkKey A 7)]) as (p1 & r & H1 & Hr & H2);
    [by split_and!|done|done|reflexivity|reflexivity|vm_compute; discriminate|].
  destruct p1 as [[m1 k1 i1 r1] [a1 h1]]. cbn [fold_opt] in H1. unfold idle_tracer, view_of in H1. cbn in H1.
  injection H1 as <- <- <- <- <- <-.
  assert (Ht : told_of_tx = r.1).
  { unfold told_of_tx, at_start, no_cache. rewrite Hr. reflexivity. }
  rewrite Ht. apply H2.
  - rewrite <-Ht. vm_compute. reflexivity.
  - rewrite <-Ht. vm_compute. reflexivity.
Defined.

(** A contract that asks for the hash of a block with nothing but the selector
    makes the tracer panic, and one that asks for the block number is answered
    with the number of the test. *)
Definition asks (selector : list Z) (argument : list Z) : option (option (list Z)) :=
  t ← after_execution db ctx (FarCall Normal) (frame A SYSTEM_CONTEXT_ADDRESS (selector ++ argument)) start;
  Some (immediate_return (hooks t)).
Example short_block_hash_panics :
  asks SELECTOR_BLOCK_HASH [] = None ∧
  asks SELECTOR_BLOCK_HASH (be_bytes 32 99) = Some (Some (replicate 32 0)) ∧
  asks SELECTOR_SYSTEM_CONTEXT_BLOCK_NUMBER [] = Some (Some (be_bytes 32 100)) ∧
  asks [1; 2; 3; 4] [] = Some None.
Proof. vm_compute. done. Qed.

(** So does a call of the deployer whose parameters do not decode, once a
    transaction executes. *)
Example malformed_creation_panics :
  let executing := mkTracer (mkActions [] []) (mkTracker [far_called Normal tx] Executing)
                     (storage start) (hooks start) in
  after_execution db ctx (FarCall Normal)
    (frame A CONTRACT_DEPLOYER_ADDRESS SELECTOR_CONTRACT_DEPLOYER_CREATE) executing = None.
Proof. vm_compute. done. Qed.

(** The second read of a slot is answered by the cache of the view, and is not
    recorded. *)
Example second_read_not_recorded :
  (storage_accesses <$> head (foldl at_root [] told_of_tx)) =
  Some [mkSlotAccess A 1 false 11 11; mkSlotAccess A 1 true 11 12].
Proof. vm_compute. reflexivity. Qed.

Lemma view_refines_store_witness :
  ∃ c', view_accesses db ctx [WriteOf (mkKey A 1) 5; ReadOf (mkKey A 1); ReadOf (mkKey 32770 caller)]
          (view_of no_cache [] AccountAccesses_default) =
          Some ([11; 5; 0], view_of c' [] AccountAccesses_default).
Proof.
  destruct (view_refines_store db ctx [WriteOf (mkKey A 1) 5; ReadOf (mkKey A 1); ReadOf (mkKey 32770 caller)]
    no_cache [] AccountAccesses_default) as (c' & H & _); [by intros k v|reflexivity|].
  exists c'. exact H.
Defined.

Lemma actions_taken_when_due_witness :
  taken (mkActions [] []) [[(1, SetMessageSender tester)]; [(0, SetThisAddress A)]; []] !! 1%nat =
    Some [SetMessageSender tester; SetThisAddress A].
Proof.
  apply (actions_taken_when_due [[(1, SetMessageSender tester)]; [(0, SetThisAddress A)]; []] 1).
  - repeat constructor; cbn; lia.
  - cbn. lia.
Defined.

Definition evm_chain : ChainInfo := mkChain 0 1.
Definition record_of (a : Z) : StateDiff.AccountAccess :=
  convert evm_chain (λ h, [h]) (ZkRecorder.mkAccess 1 ZkRecorder.Call a tester [] 0 0 0 0 []).
Lemma records_replace_placeholder_witness :
  (let '(recorded, at_) :=
     append_recorded_accesses [record_of A; record_of B]
       (hook (Some [[record_of tester]]) (CallBegin evm_chain 2 None (StateDiff.mkCall tester A StateDiff.Call 0 [])))
       None in
   zksync_remove_duplicate_account_access (hook recorded (StateDiff.CallEnd 2 false false None)) at_) =
  (Some [[record_of tester; record_of A; record_of B]], None).
Proof.
  apply (records_replace_placeholder [record_of A; record_of B] evm_chain 2 None
    (StateDiff.mkCall tester A StateDiff.Call 0 []) A tester 0 [] false None [[record_of tester]] None). lia.
Defined.
End TracerExample.
