(* ===== verification/ZkContracts.v ===== *)
(** * Contracts compiled by two compilers

    Models [crates/zksync/compilers/src/dual_compiled_contracts.rs]: the
    contracts that were compiled both for the EVM and for zkSync, the searches
    for them, and the dependencies that a deployment has to publish.

    The compilers and their artifacts are third-party: an artifact is the record
    of the fields that the code reads.  [None] is a panic where a definition
    says so. *)
From S2P Require Import Prelude.
From stdpp Require Import strings.
Local Open Scope nat_scope.

Definition bytes : Type := list Z.
Definition starts_with (l prefix : bytes) : bool := bool_decide (prefix `prefix_of` l).
Definition str_ends_with (s needle : string) : bool :=
  bool_decide (String.list_ascii_of_string needle `suffix_of` String.list_ascii_of_string s).

(** ** Data *)

Inductive ContractType := ZK | EVM.

Record Offsets := mkOffsets { offset_start : nat; offset_length : nat }.

Record DualCompiledContract := mkDual {
  zk_bytecode_hash : Z;
  zk_deployed_bytecode : bytes;
  zk_factory_deps : list bytes;
  evm_bytecode_hash : Z;
  evm_deployed_bytecode : bytes;
  evm_immutable_references : option (list (string * list Offsets));
  evm_bytecode : bytes;
}.

Record ContractInfo := mkInfo { info_name : string; info_path : option string }.
#[export] Instance ContractInfo_eq_dec : EqDecision ContractInfo.
Proof. solve_decision. Defined.
#[export] Instance ContractInfo_countable : Countable ContractInfo :=
  inj_countable' (λ i, (info_name i, info_path i)) (λ p, mkInfo p.1 p.2)
    (λ i, match i with mkInfo _ _ => eq_refl end).

Inductive FindMatchType := FullMatch | Path | Name.

Record FindBytecodeResult := mkFound {
  found_type : ContractType;
  found_info : ContractInfo;
  found_contract : DualCompiledContract;
  found_init_code : bytes;
}.

(** A path is the list of its components. *)
Record DualCompiledContracts := mkContracts {
  contracts : gmap ContractInfo DualCompiledContract;
  zk_artifact_path : list string;
  evm_artifact_path : list string;
}.

(** A slice from [n] on; [None]: out of range. *)
Definition slice_from (n : nat) (l : bytes) : option bytes :=
  if n <=? length l then Some (drop n l) else None.

Definition constructor_args (r : FindBytecodeResult) : option bytes :=
  slice_from
    (length match found_type r with
            | ZK => zk_deployed_bytecode (found_contract r)
            | EVM => evm_bytecode (found_contract r)
            end) (found_init_code r).

(** ** The collection *)

Section collection.
(** The hash of EVM code, the parser of the hashes in artifacts, and the order
    of a hash table. *)
Context `{HashIter} (keccak256 : bytes → Z) (H256_from_str : string → option Z).

(** What is read of the artifact of a contract. *)
Record SolcArtifact := mkSolc {
  solc_info : ContractInfo;
  solc_bytecode : option bytes;
  solc_deployed_bytecode : option bytes;
  solc_immutables : option (list (string * list Offsets));
}.
Record ZkArtifact := mkZk {
  zk_info : ContractInfo;
  zk_hash : option string;
  zk_bytecode : option bytes;
  zk_factory_dependencies : option (list string);
}.

Definition solc_bytecodes (output : list SolcArtifact)
    : gmap ContractInfo (bytes * bytes * option (list (string * list Offsets))) :=
  foldl (λ m a,
    match solc_bytecode a, solc_deployed_bytecode a with
    | Some b, Some d => <[solc_info a := (b, d, solc_immutables a)]> m
    | _, _ => m
    end) ∅ output.

Definition zksolc_all_bytecodes (zk_output : list ZkArtifact) : gmap string bytes :=
  foldl (λ m a,
    match zk_hash a, zk_bytecode a with Some h, Some b => <[h := b]> m | _, _ => m end) ∅ zk_output.

Fixpoint all_deps (all : gmap string bytes) (hashes : list string) : option (list bytes) :=
  match hashes with
  | [] => Some []
  | h :: hashes => b ← all !! h; l ← all_deps all hashes; Some (b :: l)
  end.

(** [None]: a dependency or its hash is missing. *)
Definition add_artifact (solc : gmap ContractInfo (bytes * bytes * option (list (string * list Offsets))))
    (all : gmap string bytes) (m : gmap ContractInfo DualCompiledContract) (a : ZkArtifact)
    : option (gmap ContractInfo DualCompiledContract) :=
  match zk_bytecode a, zk_hash a, zk_factory_dependencies a with
  | Some bytecode, Some hash, Some deps =>
      match solc !! zk_info a with
      | Some (b, d, immutables) =>
          factory_deps ← all_deps all deps;
          h ← H256_from_str hash;
          Some (<[zk_info a := mkDual h bytecode (factory_deps ++ [bytecode]) (keccak256 d) d immutables b]> m)
      | None => Some m
      end
  | _, _, _ => Some m
  end.

Definition DualCompiledContracts_new (output : list SolcArtifact) (zk_output : list ZkArtifact)
    (zk_path evm_path : list string) : option DualCompiledContracts :=
  (λ m, mkContracts m zk_path evm_path) <$>
  fold_opt (add_artifact (solc_bytecodes output) (zksolc_all_bytecodes zk_output)) ∅ zk_output.

(** In the order of the hash table. *)
Definition iter (s : DualCompiledContracts) : list (ContractInfo * DualCompiledContract) :=
  omap (λ i, pair i <$> contracts s !! i) (hash_iter (dom (contracts s))).

Definition find_by (P : DualCompiledContract → bool) (s : DualCompiledContracts)
    : option (ContractInfo * DualCompiledContract) :=
  snd <$> list_find (λ c, P c.2 = true) (iter s).

Definition find_by_zk_deployed_bytecode (s : DualCompiledContracts) (bytecode : bytes) :=
  find_by (λ c, starts_with bytecode (zk_deployed_bytecode c)) s.
Definition find_by_evm_bytecode (s : DualCompiledContracts) (bytecode : bytes) :=
  find_by (λ c, starts_with bytecode (evm_bytecode c)) s.
Definition find_by_zk_bytecode_hash (s : DualCompiledContracts) (code_hash : Z) :=
  find_by (λ c, (code_hash =? zk_bytecode_hash c)%Z) s.

(** [fill(0)]; [None]: the offset is out of bounds. *)
Definition zero_out (code : bytes) (o : Offsets) : option bytes :=
  let start := offset_start o in
  let end_ := start + offset_length o in
  if length code <? end_ then None
  else Some (take start code ++ replicate (offset_length o) 0%Z ++ drop end_ code).
Definition without_immutables (code : bytes) (immutables : list (string * list Offsets)) : option bytes :=
  fold_opt zero_out code (immutables ≫= snd).
Definition matches_deployed (bytecode : bytes) (c : DualCompiledContract) : bool :=
  match evm_immutable_references c with
  | Some immutables => bool_decide (without_immutables bytecode immutables = Some (evm_deployed_bytecode c))
  | None => bool_decide (bytecode = evm_deployed_bytecode c)
  end.
Definition find_by_evm_deployed_bytecode_with_immutables (s : DualCompiledContracts) (bytecode : bytes) :=
  find_by (matches_deployed bytecode) s.

Definition find_bytecode (s : DualCompiledContracts) (init_code : bytes) : option FindBytecodeResult :=
  match find_by_evm_bytecode s init_code, find_by_zk_deployed_bytecode s init_code with
  | Some (evm_info, evm), Some (zk_info, zk) =>
      if length (evm_bytecode evm) <=? length (zk_deployed_bytecode zk) then
        Some (mkFound ZK zk_info zk init_code)
      else Some (mkFound EVM evm_info zk init_code)
  | Some (evm_info, evm), None => Some (mkFound EVM evm_info evm init_code)
  | None, Some (zk_info, zk) => Some (mkFound ZK zk_info zk init_code)
  | None, None => None
  end.

(** *** Dependencies *)

Definition nested_deps (s : DualCompiledContracts) (dep : bytes) : list bytes :=
  match find_by_zk_deployed_bytecode s dep with
  | Some (_, c) => zk_factory_deps c
  | None => []
  end.

(** Only a dependency that was not visited takes fuel. *)
Fixpoint fetch (s : DualCompiledContracts) (fuel : nat) : list bytes → gset bytes → option (gset bytes) :=
  fix go (queue : list bytes) (visited : gset bytes) : option (gset bytes) :=
    match queue with
    | [] => Some visited
    | dep :: queue =>
        if decide (dep ∈ visited) then go queue visited
        else
          match fuel with
          | O => None
          | S fuel =>
              let visited := {[dep]} ∪ visited in
              fetch s fuel (queue ++ filter (λ d, d ∉ visited) (nested_deps s dep)) visited
          end
    end.

(** Every dependency there is. *)
Definition universe (s : DualCompiledContracts) (root : DualCompiledContract) : gset bytes :=
  list_to_set (zk_factory_deps root ++ (iter s ≫= λ c, zk_factory_deps c.2)).

Definition fetch_all_factory_deps (s : DualCompiledContracts) (root : DualCompiledContract)
    : option (list bytes) :=
  hash_iter <$> fetch s (size (universe s root)) (zk_factory_deps root) ∅.

(** *** The rest of the collection *)

Definition get_contract_type_by_artifact (s : DualCompiledContracts) (path : list string)
    : option ContractType :=
  if decide (zk_artifact_path s `prefix_of` path) then Some ZK
  else if decide (evm_artifact_path s `prefix_of` path) then Some EVM
  else None.

Definition set_contracts (m : gmap ContractInfo DualCompiledContract) (s : DualCompiledContracts)
    : DualCompiledContracts := mkContracts m (zk_artifact_path s) (evm_artifact_path s).
Definition insert_contract (info : ContractInfo) (c : DualCompiledContract) (s : DualCompiledContracts)
    : DualCompiledContracts := set_contracts (<[info := c]> (contracts s)) s.
Definition get_contract (s : DualCompiledContracts) (info : ContractInfo) : option DualCompiledContract :=
  contracts s !! info.
Definition extend (l : list (ContractInfo * DualCompiledContract)) (s : DualCompiledContracts)
    : DualCompiledContracts := foldl (λ s p, insert_contract p.1 p.2 s) s l.

Definition add_factory_deps (deps : list bytes) (c : DualCompiledContract) : DualCompiledContract :=
  mkDual (zk_bytecode_hash c) (zk_deployed_bytecode c) (zk_factory_deps c ++ deps) (evm_bytecode_hash c)
    (evm_deployed_bytecode c) (evm_immutable_references c) (evm_bytecode c).
Definition extend_factory_deps_by_hash (s : DualCompiledContracts) (target : DualCompiledContract)
    (factory_deps : list Z) : DualCompiledContract :=
  add_factory_deps
    (omap (λ h, (λ c, zk_deployed_bytecode c.2) <$> find_by_zk_bytecode_hash s h) factory_deps) target.
Definition insert_factory_deps (s : DualCompiledContracts) (target : ContractInfo)
    (factory_deps : list bytes) : option DualCompiledContract * DualCompiledContracts :=
  match contracts s !! target with
  | Some c =>
      let c := add_factory_deps factory_deps c in (Some c, insert_contract target c s)
  | None => (None, s)
  end.

Definition path_matches (path : option string) (info : ContractInfo) : bool :=
  match path, info_path info with
  | Some needle, Some contract_path => str_ends_with contract_path needle
  | _, _ => false
  end.
Definition name_matches (name : option string) (info : ContractInfo) : bool :=
  match name with Some name => bool_decide (name = info_name info) | None => false end.
Definition match_of (path name : option string) (t : FindMatchType) (info : ContractInfo) : bool :=
  match t with
  | FullMatch => path_matches path info && name_matches name info
  | Path => path_matches path info
  | Name => name_matches name info
  end.
Definition matches_of (path name : option string) (s : DualCompiledContracts) (t : FindMatchType)
    : list (FindMatchType * DualCompiledContract) :=
  (λ c, (t, c.2)) <$> filter (λ c, match_of path name t c.1 = true) (iter s).
Definition find (path name : option string) (s : DualCompiledContracts)
    : list (FindMatchType * DualCompiledContract) :=
  matches_of path name s FullMatch ++ matches_of path name s Path ++ matches_of path name s Name.
End collection.

(** ** Searches *)

Section searches.
Context `{HashIter}.

Lemma elem_of_iter s i c : (i, c) ∈ iter s ↔ contracts s !! i = Some c.
Proof.
  unfold iter. rewrite list_elem_of_omap. split.
  - intros (j & _ & Hj). destruct (contracts s !! j) eqn:E; [|done]. by injection Hj as <- <-.
  - intros Hi. exists i. rewrite elem_of_hash_iter, elem_of_dom, Hi. by split.
Qed.

(** A search returns a contract that matches, when there is one. *)
Lemma find_by_some P s i c : find_by P s = Some (i, c) → contracts s !! i = Some c ∧ P c = true.
Proof.
  unfold find_by. destruct (list_find _ _) as [[n [i' c']]|] eqn:Hf; cbn; [|done]. intros [= -> ->].
  apply list_find_Some in Hf as (Hn & HP & _). split; [|done].
  apply elem_of_iter. by eapply list_elem_of_lookup_2.
Qed.
Lemma find_by_none P s i c : find_by P s = None → contracts s !! i = Some c → P c = false.
Proof.
  unfold find_by. destruct (list_find _ _) eqn:Hf; [done|]. intros _ Hc.
  apply list_find_None in Hf. rewrite Forall_forall in Hf.
  specialize (Hf (i, c) (proj2 (elem_of_iter s i c) Hc)). cbn in Hf. by destruct (P c).
Qed.

(** A contract is found by its bytecode exactly when one matches, and the
    kind of the result is that of the longer of the two matches; the arguments
    of a constructor compiled for zkSync are then exactly what follows the
    bytecode, and so are those of an EVM constructor unless a shorter zkSync
    bytecode matches too. *)
Theorem find_bytecode_arguments s init_code :
  (find_bytecode s init_code = None ↔
     ∀ i c, contracts s !! i = Some c →
       ¬ evm_bytecode c `prefix_of` init_code ∧ ¬ zk_deployed_bytecode c `prefix_of` init_code) ∧
  ∀ r, find_bytecode s init_code = Some r →
    match found_type r with
    | ZK =>
        contracts s !! found_info r = Some (found_contract r) ∧
        ∃ args, constructor_args r = Some args ∧ init_code = zk_deployed_bytecode (found_contract r) ++ args ∧
                ∀ i c, find_by_evm_bytecode s init_code = Some (i, c) →
                       length (evm_bytecode c) ≤ length (zk_deployed_bytecode (found_contract r))
    | EVM =>
        find_by_zk_deployed_bytecode s init_code = None →
        contracts s !! found_info r = Some (found_contract r) ∧
        ∃ args, constructor_args r = Some args ∧ init_code = evm_bytecode (found_contract r) ++ args
    end.
Proof.
  assert (Hslice : ∀ p args, slice_from (length p) (p ++ args) = Some args).
  { intros p args. unfold slice_from. rewrite length_app, (proj2 (Nat.leb_le _ _)) by lia.
    by rewrite drop_app_length. }
  assert (Hpre : ∀ p l, starts_with l p = true ↔ p `prefix_of` l) by (intros; apply bool_decide_eq_true).
  unfold find_bytecode. split.
  - destruct (find_by_evm_bytecode s init_code) as [[i1 c1]|] eqn:He,
      (find_by_zk_deployed_bytecode s init_code) as [[i2 c2]|] eqn:Hz;
      try (apply find_by_some in He as [He1 He2]; apply Hpre in He2);
      try (apply find_by_some in Hz as [Hz1 Hz2]; apply Hpre in Hz2); repeat case_match; try done;
      (split; [try done|intros Hn]).
    all: try (by destruct (Hn _ _ He1)). all: try (by destruct (Hn _ _ Hz1)).
    + intros _ i c Hc. rewrite <-!Hpre.
      by rewrite (find_by_none _ _ _ _ He Hc), (find_by_none _ _ _ _ Hz Hc).
    + done.
  - intros r. destruct (find_by_evm_bytecode s init_code) as [[i1 c1]|] eqn:He,
      (find_by_zk_deployed_bytecode s init_code) as [[i2 c2]|] eqn:Hz; [|intros [= <-]; cbn..|done].
    + destruct (Nat.leb_spec (length (evm_bytecode c1)) (length (zk_deployed_bytecode c2))) as [Hl|Hl];
        intros [= <-]; cbn; [|done].
      apply find_by_some in Hz as [Hz1 [args ->]%Hpre]. split; [done|]. exists args.
      unfold constructor_args. cbn. rewrite Hslice. split; [done|]. split; [done|]. by intros ?? [= <- <-].
    + intros _. apply find_by_some in He as [He1 [args ->]%Hpre]. split; [done|]. exists args.
      unfold constructor_args. cbn. by rewrite Hslice.
    + apply find_by_some in Hz as [Hz1 [args ->]%Hpre]. split; [done|]. exists args.
      unfold constructor_args. cbn. by rewrite Hslice.
Qed.

Definition rank (t : FindMatchType) : nat := match t with FullMatch => 0 | Path => 1 | Name => 2 end.

Lemma elem_of_matches path name s t t' c :
  (t', c) ∈ matches_of path name s t ↔
  t' = t ∧ ∃ i, contracts s !! i = Some c ∧ match_of path name t i = true.
Proof.
  unfold matches_of. rewrite list_elem_of_fmap. split.
  - intros ([i c'] & [= -> ->] & [Hm Hi]%list_elem_of_filter). split; [done|]. exists i.
    by rewrite <-elem_of_iter.
  - intros (-> & i & Hi & Hm). exists (i, c). split; [done|]. apply list_elem_of_filter.
    by rewrite elem_of_iter.
Qed.

(** A search by path and name lists exactly the contracts that match in full,
    by their path and by their name, under each kind of match that applies to
    them, and every better kind before every worse one. *)
Theorem find_exact path name s :
  StronglySorted (λ a b, rank a.1 ≤ rank b.1) (find path name s) ∧
  ∀ t c, (t, c) ∈ find path name s ↔
         ∃ i, contracts s !! i = Some c ∧ match_of path name t i = true.
Proof.
  assert (Hone : ∀ (l : list (FindMatchType * DualCompiledContract)) (R : nat), (∀ x, x ∈ l → rank x.1 = R) →
            StronglySorted (λ a b : FindMatchType * DualCompiledContract, rank a.1 ≤ rank b.1) l).
  { intros l R. induction l as [|x l IH]; intros Hl; constructor.
    - apply IH. intros y Hy. apply Hl. by right.
    - apply Forall_forall. intros y Hy. rewrite (Hl x), (Hl y); [done|by right|by left]. }
  assert (Happ : ∀ l1 l2, StronglySorted (λ a b : FindMatchType * DualCompiledContract, rank a.1 ≤ rank b.1) l1 →
            StronglySorted (λ a b, rank a.1 ≤ rank b.1) l2 →
            (∀ x y, x ∈ l1 → y ∈ l2 → rank x.1 ≤ rank y.1) → StronglySorted (λ a b, rank a.1 ≤ rank b.1) (l1 ++ l2)).
  { intros l1 l2 H1 H2 H12. induction H1 as [|x l1 H1 IH Hx]; [done|]. cbn. constructor.
    - apply IH. intros ?? Hy. apply H12. by right.
    - apply Forall_app. split; [done|]. apply Forall_forall. intros y Hy. apply H12; [by left|done]. }
  assert (Hm : ∀ t x, x ∈ matches_of path name s t → rank x.1 = rank t).
  { intros t [t' c]. by rewrite elem_of_matches; intros [-> _]. }
  split.
  - unfold find. apply Happ; [by eapply Hone, Hm|apply Happ|].
    + by eapply Hone, Hm.
    + by eapply Hone, Hm.
    + intros x y Hx%Hm Hy%Hm. rewrite Hx, Hy. cbn. lia.
    + intros x y Hx%Hm _. rewrite Hx. cbn. lia.
  - intros t c. unfold find. rewrite !elem_of_app, !elem_of_matches. split.
    + intros [[-> Hi]|[[-> Hi]|[-> Hi]]]; exact Hi.
    + intros Hi. destruct t; [left|right; left|right; right]; by split.
Qed.
End searches.

(** ** Dependencies *)

Section deps.
Context `{HashIter}.
Context (s : DualCompiledContracts) (root : DualCompiledContract).

(** The dependencies of a contract, of the contracts of its dependencies, and so on. *)
Inductive needed : bytes → Prop :=
| needed_root dep : dep ∈ zk_factory_deps root → needed dep
| needed_nested dep nested : needed dep → nested ∈ nested_deps s dep → needed nested.

Lemma nested_in_universe dep d : d ∈ nested_deps s dep → d ∈ universe s root.
Proof.
  unfold nested_deps, universe. destruct (find_by_zk_deployed_bytecode s dep) as [[i c]|] eqn:Hf; [|set_solver].
  intros Hd. apply find_by_some in Hf as [Hc _]. apply elem_of_list_to_set, elem_of_app. right.
  apply list_elem_of_bind. exists (i, c). split; [done|]. by apply elem_of_iter.
Qed.

(** What is visited and what waits, during the search. *)
Definition searching (queue : list bytes) (visited : gset bytes) : Prop :=
  (∀ d, d ∈ queue ∨ d ∈ visited → needed d) ∧
  (∀ d, d ∈ queue ∨ d ∈ visited → d ∈ universe s root) ∧
  (∀ d, d ∈ zk_factory_deps root → d ∈ queue ∨ d ∈ visited) ∧
  (∀ d n, d ∈ visited → n ∈ nested_deps s d → n ∈ queue ∨ n ∈ visited).

Lemma searching_visited dep queue visited :
  dep ∈ visited → searching (dep :: queue) visited → searching queue visited.
Proof.
  intros Hv (Hn & Hu & Hr & Hc). split; [|split; [|split]].
  - intros d Hd. apply Hn. set_solver.
  - intros d Hd. apply Hu. set_solver.
  - intros d Hd. apply Hr in Hd. set_solver.
  - intros d n Hd Hn'. apply (Hc d n) in Hd; [|done]. set_solver.
Qed.
Lemma searching_new dep queue visited :
  searching (dep :: queue) visited →
  searching (queue ++ filter (λ d, d ∉ {[dep]} ∪ visited) (nested_deps s dep)) ({[dep]} ∪ visited).
Proof.
  intros (Hn & Hu & Hr & Hc).
  assert (Hdep : needed dep) by (apply Hn; left; left).
  split; [|split; [|split]].
  - intros d. rewrite elem_of_app, list_elem_of_filter, elem_of_union, elem_of_singleton.
    intros [[Hd|[_ Hd]]|[->|Hd]]; [apply Hn; left; by right|by eapply needed_nested|done|apply Hn; by right].
  - intros d. rewrite elem_of_app, list_elem_of_filter, elem_of_union, elem_of_singleton.
    intros [[Hd|[_ Hd]]|[->|Hd]]; [apply Hu; left; by right|by eapply nested_in_universe|apply Hu; left; by left|apply Hu; by right].
  - intros d Hd. apply Hr in Hd. set_solver.
  - intros d n Hd Hn'. rewrite elem_of_app, list_elem_of_filter.
    destruct (decide (n ∈ {[dep]} ∪ visited)) as [Hin|Hnot]; [by right|].
    apply elem_of_union in Hd as [->%elem_of_singleton|Hd]; [by left; right|].
    apply (Hc d n Hd) in Hn' as [[->|Hq]%elem_of_cons|Hv]; [set_solver|by left; left|set_solver].
Qed.

Lemma fetch_runs fuel queue visited :
  searching queue visited → size (universe s root ∖ visited) ≤ fuel →
  ∃ v, fetch s fuel queue visited = Some v ∧ searching [] v.
Proof.
  revert queue visited. induction fuel as [|fuel IHf]; intros queue; induction queue as [|dep queue IHq];
    intros visited Hs Hf; [by exists visited| |by exists visited|]; cbn [fetch].
  - destruct (decide (dep ∈ visited)) as [Hv|Hv]; [by apply IHq; [eapply searching_visited|]|].
    assert (Hd : dep ∈ universe s root ∖ visited) by (apply elem_of_difference; split; [apply Hs; left; left|done]).
    assert (Hz : size (universe s root ∖ visited) = 0) by lia. apply size_empty_inv in Hz. set_solver.
  - destruct (decide (dep ∈ visited)) as [Hv|Hv]; [by apply IHq; [eapply searching_visited|]|].
    apply IHf; [by apply searching_new|].
    assert (Hd : dep ∈ universe s root ∖ visited) by (apply elem_of_difference; split; [apply Hs; left; left|done]).
    enough (size (universe s root ∖ ({[dep]} ∪ visited)) < size (universe s root ∖ visited)) by lia.
    apply subset_size. split; [set_solver|]. intros Hsub. specialize (Hsub dep Hd). set_solver.
Qed.

Lemma fetch_ends :
  ∃ v, fetch s (size (universe s root)) (zk_factory_deps root) ∅ = Some v ∧ searching [] v.
Proof.
  apply fetch_runs; [|by rewrite difference_empty_L].
  split; [|split; [|split]]; [|intros d [Hd|Hd]; [|set_solver]|by left|set_solver].
  - intros d [Hd|Hd]; [by apply needed_root|set_solver].
  - unfold universe. rewrite elem_of_list_to_set. apply elem_of_app. by left.
Qed.

(** The search for the dependencies of a contract ends, and returns each
    dependency exactly once: its own, those of the contracts that its
    dependencies are the code of, and so on to any depth, also when contracts
    depend on each other. *)
Theorem fetch_all_exact :
  ∃ l, fetch_all_factory_deps s root = Some l ∧ NoDup l ∧ ∀ dep, dep ∈ l ↔ needed dep.
Proof.
  destruct fetch_ends as (v & Hv & Hn & _ & Hr & Hc).
  exists (hash_iter v). unfold fetch_all_factory_deps. rewrite Hv. split; [done|].
  split; [apply NoDup_hash_iter|]. intros dep. rewrite elem_of_hash_iter. split.
  - intros Hd. apply Hn. by right.
  - induction 1 as [dep Hd|dep nested Hd IH Hnest].
    + apply Hr in Hd as [Hd|Hd]; [by apply not_elem_of_nil in Hd|done].
    + destruct (Hc _ _ IH Hnest) as [Hx|Hx]; [by apply not_elem_of_nil in Hx|done].
Qed.
End deps.

(** ** The collection of a project *)

Section project.
Context `{HashIter} (keccak256 : bytes → Z) (H256_from_str : string → option Z).

(** Publishing the dependencies of a contract publishes its own code. *)
Definition deploys_itself (c : DualCompiledContract) : Prop := zk_deployed_bytecode c ∈ zk_factory_deps c.
Definition all_deploy (s : DualCompiledContracts) : Prop :=
  ∀ i c, contracts s !! i = Some c → deploys_itself c.

Lemma add_artifact_deploys solc all m a m' :
  (∀ i c, m !! i = Some c → deploys_itself c) → add_artifact keccak256 H256_from_str solc all m a = Some m' →
  ∀ i c, m' !! i = Some c → deploys_itself c.
Proof.
  intros Hm. unfold add_artifact. destruct (zk_bytecode a) as [b|], (zk_hash a) as [h|],
    (zk_factory_dependencies a) as [deps|]; try (by intros [= <-]).
  destruct (solc !! zk_info a) as [[[b' d] im]|]; [|by intros [= <-]].
  destruct (all_deps all deps) as [l|]; cbn; [|done]. destruct (H256_from_str h); cbn; [|done].
  intros [= <-] i c. destruct (decide (zk_info a = i)) as [<-|Hi].
  - rewrite lookup_insert_eq. intros [= <-]. unfold deploys_itself. cbn. apply elem_of_app. right. by left.
  - rewrite lookup_insert_ne by done. apply Hm.
Qed.

Lemma add_factory_deploys deps c : deploys_itself c → deploys_itself (add_factory_deps deps c).
Proof. intros Hc. unfold deploys_itself. cbn. apply elem_of_app. by left. Qed.

(** Deploying any contract of a compiled project publishes its own code: the
    dependencies collected for it contain it, in the collection the compilers'
    output gives, and after any number of dependencies were added to contracts
    of it. *)
Theorem own_code_published output zk_output zk_path evm_path added s :
  DualCompiledContracts_new keccak256 H256_from_str output zk_output zk_path evm_path = Some s →
  let s' := foldl (λ s p, (insert_factory_deps s p.1 p.2).2) s added in
  ∀ i c l, contracts s' !! i = Some c → fetch_all_factory_deps s' c = Some l → zk_deployed_bytecode c ∈ l.
Proof.
  intros Hs s'. assert (Ha : all_deploy s').
  { unfold s'. assert (H0 : all_deploy s).
    { revert Hs. unfold DualCompiledContracts_new.
      destruct (fold_opt _ _ zk_output) as [m|] eqn:Hf; cbn; [|done]. intros [= <-].
      refine (fold_opt_some (λ m, ∀ i c, m !! i = Some c → deploys_itself c) _ zk_output ∅ m _ Hf _).
      - intros m1 a m2 Hm _ Ha. by eapply add_artifact_deploys.
      - intros i c. by rewrite lookup_empty. }
    clear Hs s'. revert s H0. induction added as [|[t deps] added IH]; intros s H0; [done|].
    cbn [foldl]. apply IH. unfold insert_factory_deps. cbn [fst snd].
    destruct (contracts s !! t) as [c|] eqn:Hc; cbn; [|done].
    intros i c'. cbn. destruct (decide (t = i)) as [<-|Hi].
    - rewrite lookup_insert_eq. intros [= <-]. by apply add_factory_deploys, (H0 t).
    - rewrite lookup_insert_ne by done. apply H0. }
  intros i c l Hc Hl. destruct (fetch_ends s' c) as (v & Hv & _ & _ & Hr & _).
  unfold fetch_all_factory_deps in Hl. rewrite Hv in Hl. injection Hl as <-. rewrite elem_of_hash_iter.
  destruct (Hr (zk_deployed_bytecode c) (Ha i c Hc)) as [Hd|Hd]; [by apply not_elem_of_nil in Hd|done].
Qed.
End project.

(** ** Concrete projects *)

Module ContractsExample.
#[local] Existing Instance elements_iter.
Local Open Scope Z_scope.

Definition hash_of_code (l : bytes) : Z := zsum id l.
Definition parse (s : string) : option Z := if decide (s = "bad"%string) then None else Some (Z.of_nat (String.length s)).
Definition info (n : string) : ContractInfo := mkInfo n (Some ("src/" +:+ n +:+ ".sol")%string).

(** [A] depends on [B], and [B] on [A]. *)
Definition output : list SolcArtifact :=
  [mkSolc (info "A") (Some [1; 2; 3]) (Some [2; 3]) None; mkSolc (info "B") (Some [1; 9]) (Some [9]) None].
Definition zk_output : list ZkArtifact :=
  [mkZk (info "A") (Some "a"%string) (Some [7; 7]) (Some ["bb"%string]);
   mkZk (info "B") (Some "bb"%string) (Some [1; 8]) (Some ["a"%string])].
Definition project : option DualCompiledContracts :=
  DualCompiledContracts_new hash_of_code parse output zk_output ["zkout"%string] ["out"%string].

Lemma own_code_published_witness :
  ∃ s, project = Some s ∧
    ∀ i c l, contracts s !! i = Some c → fetch_all_factory_deps s c = Some l → zk_deployed_bytecode c ∈ l.
Proof.
  destruct project as [s|] eqn:Hs; [|vm_compute in Hs; discriminate Hs].
  exists s. split; [reflexivity|].
  exact (own_code_published hash_of_code parse output zk_output ["zkout"%string] ["out"%string] [] s Hs).
Defined.

Example project_deps :
  (s ← project; c ← get_contract s (info "A"); fetch_all_factory_deps s c) = Some [[7; 7]; [1; 8]].
Proof. vm_compute. reflexivity. Qed.

(** The code of [A] with two constructor arguments. *)
Definition with_args : bytes := [7; 7; 4; 5].
Definition found : option FindBytecodeResult := s ← project; find_bytecode s with_args.
Lemma find_bytecode_arguments_witness :
  ∃ s r, project = Some s ∧ find_bytecode s with_args = Some r ∧
    ∃ args, constructor_args r = Some args ∧ with_args = zk_deployed_bytecode (found_contract r) ++ args ∧
            args = [4; 5].
Proof.
  destruct project as [s|] eqn:Hs; [|vm_compute in Hs; discriminate Hs].
  assert (Hf : found = find_bytecode s with_args) by (unfold found; rewrite Hs; reflexivity).
  destruct (find_bytecode s with_args) as [r|] eqn:Hr; [|vm_compute in Hf; discriminate Hf].
  exists s, r. split; [reflexivity|]. split; [exact Hr|].
  pose proof (proj2 (find_bytecode_arguments s with_args) r Hr) as Ha.
  vm_compute in Hf. injection Hf as <-. cbn in Ha. destruct Ha as (_ & args & H1 & H2 & _).
  exists args. split; [exact H1|]. split; [exact H2|]. vm_compute in H1. injection H1 as <-. reflexivity.
Defined.

Lemma find_exact_witness :
  ∃ s, project = Some s ∧
    ((FullMatch, mkDual 1 [7; 7] [[1; 8]; [7; 7]] 5 [2; 3] None [1; 2; 3])
       ∈ find (Some "A.sol"%string) (Some "A"%string) s).
Proof.
  destruct project as [s|] eqn:Hs; [|vm_compute in Hs; discriminate Hs].
  exists s. split; [reflexivity|].
  apply (proj2 (find_exact (Some "A.sol"%string) (Some "A"%string) s)). exists (info "A").
  vm_compute in Hs. injection Hs as <-. split; vm_compute; reflexivity.
Defined.

(** An EVM contract whose bytecode is the longer match is returned with the
    name of that contract but the data of the zkSync contract, and the
    arguments are cut at the wrong place. *)
Definition clash : DualCompiledContracts :=
  mkContracts (<[info "A" := mkDual 1 [7] [] 0 [] None [1; 2]]>
              (<[info "B" := mkDual 2 [9] [] 0 [] None [7; 7; 7]]> ∅)) [] [].
Example longer_evm_match_wrong :
  (r ← find_bytecode clash [7; 7; 7; 5];
   args ← constructor_args r;
   Some (found_type r, info_name (found_info r), zk_bytecode_hash (found_contract r), args)) =
  Some (EVM, "B"%string, 1, [7; 5]).
Proof. vm_compute. reflexivity. Qed.
End ContractsExample.
