(* ===== verification/ZkBatch.v ===== *)
(** * Batches of dependencies

    Models the end of [crates/zksync/core/src/vm/inspect.rs]: the dependencies
    that a deployment publishes are sorted by size and packed into batches, and
    the transaction is split into one transaction per batch. *)
From S2P Require Import Prelude.
Local Open Scope nat_scope.

Definition bytes : Type := list Z.

(** [MAX_FACTORY_DEPENDENCIES_SIZE_BYTES], when the environment does not set it. *)
Definition MAX_FACTORY_DEPENDENCIES_SIZE_BYTES (env : option nat) : nat := default 100000 env.

Section batch.
Context (max_size : nat).

(** [sort_by_key(len)] keeps the order of dependencies of one length. *)
Fixpoint insert_by_len (x : bytes) (l : list bytes) : list bytes :=
  match l with
  | [] => [x]
  | y :: l => if length x <? length y then x :: y :: l else y :: insert_by_len x l
  end.
Definition sort_by_len (l : list bytes) : list bytes := foldl (λ l x, insert_by_len x l) [] l.

Record Batches := mkBatches {
  batches : list (list bytes);
  current_batch : list bytes;
  current_batch_len : nat;
}.

Definition add_dep (s : Batches) (dep : bytes) : Batches :=
  let new_len := current_batch_len s + length dep in
  let s :=
    if (max_size <? new_len) && negb (bool_decide (current_batch s = [])) then
      mkBatches (batches s ++ [current_batch s]) [] 0
    else s in
  mkBatches (batches s) (current_batch s ++ [dep]) (current_batch_len s + length dep).

Definition batch_factory_dependencies (factory_deps : list bytes) : list (list bytes) :=
  let s := foldl add_dep (mkBatches [] [] 0) (sort_by_len factory_deps) in
  if bool_decide (current_batch s = []) then batches s else batches s ++ [current_batch s].

(** The transaction: [rest] stands for the fields that the split copies
    everywhere: fee, initiator and paymaster. *)
Record L2Tx := mkTx {
  contract_address : option Z;
  calldata : list Z;
  nonce : Z;
  rest : Z;
  value : Z;
  factory_deps : list bytes;
}.

Definition empty_tx (deps : list bytes) (tx : L2Tx) : L2Tx := mkTx (Some 0%Z) [] (nonce tx) (rest tx) 0 deps.
Definition next_nonce (tx : L2Tx) : L2Tx :=
  mkTx (contract_address tx) (calldata tx) (u_saturating_add 32 (nonce tx) 1) (rest tx) (value tx)
    (factory_deps tx).
Definition set_deps (deps : list bytes) (tx : L2Tx) : L2Tx :=
  mkTx (contract_address tx) (calldata tx) (nonce tx) (rest tx) (value tx) deps.

Definition split_tx_by_factory_deps (tx : L2Tx) : list L2Tx :=
  match factory_deps tx with
  | [] => [tx]
  | deps =>
      let batched := batch_factory_dependencies deps in
      let last_deps := default [] (last batched) in
      let '(txs, tx) :=
        foldl (λ '(txs, tx) deps, (txs ++ [empty_tx deps tx], next_nonce tx)) ([], tx)
          (removelast batched) in
      txs ++ [set_deps last_deps tx]
  end.

(** ** Batches *)

Definition total (l : list bytes) : nat := sum_list_with length l.

Lemma insert_by_len_perm x l : insert_by_len x l ≡ₚ x :: l.
Proof.
  induction l as [|y l IH]; cbn [insert_by_len]; [done|]. destruct (length x <? length y); [done|].
  rewrite IH. apply Permutation_swap.
Qed.
Lemma sort_acc_perm acc l : foldl (λ l x, insert_by_len x l) acc l ≡ₚ acc ++ l.
Proof.
  revert acc. induction l as [|x l IH]; intros acc; cbn; [by rewrite app_nil_r|].
  rewrite IH, insert_by_len_perm. apply Permutation_middle.
Qed.
Lemma sort_by_len_perm l : sort_by_len l ≡ₚ l.
Proof. apply sort_acc_perm. Qed.

Definition len_le (a b : bytes) : Prop := length a ≤ length b.
Lemma insert_by_len_sorted x l : StronglySorted len_le l → StronglySorted len_le (insert_by_len x l).
Proof.
  induction 1 as [|y l Hs IH Hy]; cbn [insert_by_len]; [by repeat constructor|].
  destruct (Nat.ltb_spec (length x) (length y)) as [Hl|Hl]; constructor; [by constructor| |done|].
  - constructor; [unfold len_le; lia|]. eapply Forall_impl; [done|]. intros z. unfold len_le. lia.
  - rewrite insert_by_len_perm. by constructor.
Qed.
Lemma sort_by_len_sorted l : StronglySorted len_le (sort_by_len l).
Proof.
  unfold sort_by_len. assert (H0 : StronglySorted len_le []) by constructor. revert H0.
  generalize (@nil bytes) as acc. induction l as [|x l IH]; intros acc Hacc; [done|]. cbn.
  by apply IH, insert_by_len_sorted.
Qed.

Definition fits (b : list bytes) : Prop := b ≠ [] ∧ (total b ≤ max_size ∨ length b = 1).

(** A batch was only closed because the next dependency did not fit. *)
Fixpoint closed_when_full (l : list (list bytes)) : Prop :=
  match l with
  | b :: ((next :: _) as l) =>
      (∃ dep more, next = dep :: more ∧ max_size < total b + length dep) ∧ closed_when_full l
  | _ => True
  end.

Lemma closed_app l b b' :
  closed_when_full (l ++ [b]) → (∃ dep more, b' = dep :: more ∧ max_size < total b + length dep) →
  closed_when_full (l ++ [b; b']).
Proof.
  induction l as [|x l IH]; cbn; [by split|]. destruct l as [|y l]; cbn in *.
  - intros [H1 _] H2. by split.
  - intros [H1 H2] H3. split; [done|]. by apply IH.
Qed.
Lemma closed_extend l b dep :
  b ≠ [] → closed_when_full (l ++ [b]) → closed_when_full (l ++ [b ++ [dep]]).
Proof.
  intros Hb. induction l as [|x l IH]; cbn; [done|]. destruct l as [|y l]; cbn in *.
  - intros [(d & more & -> & Hd) _]. split; [|done]. by exists d, (more ++ [dep]).
  - intros [H1 H2]. split; [done|]. by apply IH.
Qed.

(** The batches so far, the current one last. *)
Definition packing (seen : list bytes) (s : Batches) : Prop :=
  mjoin (batches s) ++ current_batch s = seen ∧ Forall fits (batches s) ∧
  current_batch_len s = total (current_batch s) ∧
  (current_batch s = [] → batches s = []) ∧
  (current_batch s ≠ [] → fits (current_batch s) ∧ closed_when_full (batches s ++ [current_batch s])).

Lemma total_app a b : total (a ++ b) = total a + total b.
Proof. unfold total. induction a as [|x a IH]; cbn; [done|]. rewrite IH. lia. Qed.

Lemma add_dep_packs seen s dep : packing seen s → packing (seen ++ [dep]) (add_dep s dep).
Proof.
  intros (Hj & Hf & Hl & He & Hc). unfold add_dep. rewrite Hl.
  destruct (decide (current_batch s = [])) as [Hn|Hn].
  { rewrite (bool_decide_eq_true_2 _ Hn), andb_false_r. pose proof (He Hn) as Hb. clear He Hc.
    unfold packing. cbn. rewrite Hn, Hb in *. split; [by rewrite <-Hj|]. split; [done|]. split; [unfold total; rewrite Hl; cbn; lia|]. split; [done|].
    intros _. split; [|done]. split; [done|by right]. }
  rewrite (bool_decide_eq_false_2 _ Hn), andb_true_r. destruct (Hc Hn) as [Hfit Hclosed].
  destruct (Nat.ltb_spec max_size (total (current_batch s) + length dep)) as [Hm|Hm].
  - split; [|split; [|split; [|split]]]; cbn.
    + rewrite <-Hj. rewrite join_app. cbn. by rewrite app_nil_r.
    + apply Forall_app. split; [done|]. by apply Forall_singleton.
    + unfold total. cbn. lia.
    + done.
    + intros _. split; [split; [done|by right]|]. rewrite <-app_assoc. cbn.
      apply closed_app; [done|]. by exists dep, [].
  - split; [|split; [|split; [|split]]]; cbn.
    + by rewrite <-Hj, app_assoc.
    + done.
    + rewrite total_app, Hl. unfold total. cbn. lia.
    + intros Ha. by apply app_nil in Ha as [_ ?].
    + intros _. split; [|by apply closed_extend]. split; [intros Ha; by apply app_nil in Ha as [_ ?]|].
      left. rewrite total_app. unfold total at 2. cbn. lia.
Qed.

Lemma batches_pack deps :
  packing deps (foldl add_dep (mkBatches [] [] 0) deps).
Proof.
  enough (∀ l seen s, packing seen s → packing (seen ++ l) (foldl add_dep s l)) as H.
  { apply (H deps [] _). split; [done|]. split; [constructor|]. by split. }
  induction l as [|d l IH]; intros seen s Hs; [by rewrite app_nil_r|]. cbn.
  change (d :: l) with ([d] ++ l). rewrite app_assoc. by apply IH, add_dep_packs.
Qed.

Lemma batches_spec deps :
  mjoin (batch_factory_dependencies deps) = sort_by_len deps ∧
  Forall fits (batch_factory_dependencies deps) ∧ closed_when_full (batch_factory_dependencies deps).
Proof.
  unfold batch_factory_dependencies.
  destruct (batches_pack (sort_by_len deps)) as (Hj & Hf & _ & He & Hc).
  set (s := foldl add_dep _ _) in *. destruct (decide (current_batch s = [])) as [Hn|Hn].
  - rewrite (bool_decide_eq_true_2 _ Hn). pose proof (He Hn) as Hb. clear He Hc. rewrite Hb, Hn in *. done.
  - rewrite (bool_decide_eq_false_2 _ Hn). destruct (Hc Hn) as [Hfit Hclosed].
    split; [rewrite join_app; cbn; by rewrite app_nil_r|]. split; [|done].
    apply Forall_app. split; [done|]. by apply Forall_singleton.
Qed.

(** The batches hold exactly the dependencies, the smaller ones first; no
    batch is empty, none exceeds the limit unless a single dependency does, and
    each was closed only because the next dependency did not fit into it. *)
Theorem batches_exact deps :
  mjoin (batch_factory_dependencies deps) ≡ₚ deps ∧
  StronglySorted len_le (mjoin (batch_factory_dependencies deps)) ∧
  Forall fits (batch_factory_dependencies deps) ∧ closed_when_full (batch_factory_dependencies deps).
Proof.
  destruct (batches_spec deps) as (-> & Hf & Hc). split; [apply sort_by_len_perm|].
  split; [apply sort_by_len_sorted|done].
Qed.

(** ** The transactions *)

Definition bump (i : nat) (tx : L2Tx) : L2Tx :=
  mkTx (contract_address tx) (calldata tx) (u_saturating_add 32 (nonce tx) (Z.of_nat i)) (rest tx) (value tx)
    (factory_deps tx).

Lemma bump_next i tx : bump i (next_nonce tx) = bump (S i) tx.
Proof.
  unfold bump, next_nonce. cbn [nonce contract_address calldata rest value factory_deps]. f_equal.
  unfold u_saturating_add. lia.
Qed.

Lemma split_loop l tx acc :
  in_u 32 (nonce tx) →
  foldl (λ '(txs, tx) deps, (txs ++ [empty_tx deps tx], next_nonce tx)) (acc, tx) l =
  (acc ++ imap (λ i deps, empty_tx deps (bump i tx)) l, bump (length l) tx).
Proof.
  assert (Hb : ∀ tx, in_u 32 (nonce tx) → bump 0 tx = tx).
  { intros [a c n r v d] Hn. unfold bump, u_saturating_add. cbn in Hn |- *. f_equal.
    unfold in_u in Hn. lia. }
  revert tx acc. induction l as [|deps l IH]; intros tx acc Hn; cbn [foldl imap length].
  { by rewrite app_nil_r, Hb. }
  rewrite IH by (apply u_saturating_add_in_u; [lia|apply Hn|lia]).
  rewrite bump_next, <-app_assoc. cbn [app]. do 3 f_equal; [by rewrite Hb|].
  apply imap_ext. intros i x _. cbn. by rewrite bump_next.
Qed.

Lemma last_removelast {A} (l : list A) x : last l = Some x → l = removelast l ++ [x].
Proof.
  intros Hl. apply last_Some in Hl as [l' ->]. by rewrite removelast_last.
Qed.

Lemma split_unfold tx :
  factory_deps tx ≠ [] →
  split_tx_by_factory_deps tx =
    (let batched := batch_factory_dependencies (factory_deps tx) in
     let '(txs, tx) :=
       foldl (λ '(txs, tx) deps, (txs ++ [empty_tx deps tx], next_nonce tx)) ([], tx) (removelast batched) in
     txs ++ [set_deps (default [] (last batched)) tx]).
Proof. unfold split_tx_by_factory_deps. by destruct (factory_deps tx). Qed.

(** C37: A transaction with dependencies becomes a sequence of transactions with
    increasing nonces, from its own nonce on, that together publish exactly
    the dependencies, each within the limit; all but the last are empty, and
    only the last one carries its address, calldata and value. *)
Theorem split_exact tx :
  in_u 32 (nonce tx) → factory_deps tx ≠ [] →
  let txs := split_tx_by_factory_deps tx in
  mjoin (factory_deps <$> txs) ≡ₚ factory_deps tx ∧ Forall fits (factory_deps <$> txs) ∧
  ∃ front final, txs = front ++ [final] ∧
    contract_address final = contract_address tx ∧ calldata final = calldata tx ∧
    value final = value tx ∧
    Forall (λ t, contract_address t = Some 0%Z ∧ calldata t = [] ∧ value t = 0%Z) front ∧
    ∀ i t, txs !! i = Some t →
      nonce t = u_saturating_add 32 (nonce tx) (Z.of_nat i) ∧ rest t = rest tx.
Proof.
  intros Hn Hd txs. pose proof (batches_spec (factory_deps tx)) as (Hj & Hf & _).
  set (bs := batch_factory_dependencies (factory_deps tx)) in *.
  destruct (last bs) as [b|] eqn:Hb.
  2:{ apply last_None in Hb. rewrite Hb in Hj. pose proof (sort_by_len_perm (factory_deps tx)) as Hp.
      rewrite <-Hj in Hp. by apply Permutation_nil_l in Hp. }
  apply last_removelast in Hb as Hbs. set (front := removelast bs) in *.
  assert (Ht : txs = imap (λ i deps, empty_tx deps (bump i tx)) front ++ [set_deps b (bump (length front) tx)]).
  { unfold txs. rewrite split_unfold by done. cbv zeta. fold bs. rewrite Hb. fold front. by rewrite split_loop. }
  assert (Hfd : factory_deps <$> txs = bs).
  { rewrite Ht, fmap_app, Hbs at 1. f_equal. apply list_eq. intros i. rewrite list_lookup_fmap, list_lookup_imap.
    by destruct (front !! i). }
  rewrite Hfd. split; [rewrite Hj; apply sort_by_len_perm|]. split; [done|].
  eexists _, _. split; [exact Ht|]. split; [done|]. split; [done|]. split; [done|]. split.
  - apply Forall_lookup. intros i t. rewrite list_lookup_imap. by destruct (front !! i); [intros [= <-]|].
  - intros i t Hi. rewrite Ht in Hi. apply lookup_app_Some in Hi as [Hi|[Hi Hi2]].
    + rewrite list_lookup_imap in Hi. by destruct (front !! i); [injection Hi as <-|].
    + rewrite length_imap in Hi, Hi2.
      assert (i = length front) as -> by (apply lookup_lt_Some in Hi2; cbn in Hi2; lia).
      rewrite Nat.sub_diag in Hi2. injection Hi2 as <-. done.
Qed.
End batch.

Module BatchExample.
Definition dep (n : nat) : bytes := replicate n 7%Z.
Definition tx : L2Tx := mkTx (Some 5%Z) [1%Z] 8 0 3 [dep 60; dep 10; dep 50; dep 200; dep 30].

Example batches_of_tx :
  (λ b : list bytes, map length b) <$> batch_factory_dependencies 100 (factory_deps tx) =
  [[10; 30; 50]; [60]; [200]].
Proof. vm_compute. reflexivity. Qed.

Lemma split_exact_witness :
  (nonce <$> split_tx_by_factory_deps 100 tx) = [8; 9; 10]%Z ∧
  mjoin (factory_deps <$> split_tx_by_factory_deps 100 tx) ≡ₚ factory_deps tx.
Proof.
  split; [vm_compute; reflexivity|].
  apply (split_exact 100 tx).
  - split; vm_compute; discriminate.
  - discriminate.
Defined.
End BatchExample.
