(* ===== verification/ZkVm.v ===== *)
(** * Two virtual machines over one state

    Models how a run moves between the EVM and the zkSync VM:
    [crates/zksync/core/src/cheatcodes.rs] and the nonces of [lib.rs] and
    [executor/runner.rs], the switch between the machines and the choice of the
    machine of a call ([crates/strategy/zksync/src/cheatcode/runner/mod.rs],
    [context.rs], [types.rs]), the cheatcodes that steer them
    ([cheatcode_handlers.rs]), and the limits on gas of [utils.rs] and
    [inspect.rs].

    The journal of the EVM and the layout of the zkSync system contracts are
    third-party: the classes [Journal] and [ZkLayout] are what is used of them,
    [JournalLaws] and [ZkLayoutLaws] what is relied on.  Accounts and slots load
    without errors; [None] is a panic. *)
From S2P Require Import Prelude.
From S2P Require Import ZkContracts.
From stdpp Require Import strings.
Local Open Scope Z_scope.

(** ** The state *)

Record AccountInfo := mkAccount {
  balance : Z;
  nonce : Z;
  code_hash : Z;
  code : option bytes;
}.

Class Journal := {
  J : Type;
  (** The account as it loads, the value of a slot, and the original value of
      a slot that the journal holds. *)
  info_of : J → Z → AccountInfo;
  slot_of : J → Z → Z → Z;
  original_of : J → Z → Z → option Z;
  (** [load_account] with [touch]. *)
  load : Z → J → J;
  sload : Z → Z → J → Z * J;
  sstore : Z → Z → Z → J → J;
  (** Assignment of a loaded account's info, and of slots with
      [EvmStorageSlot::new]. *)
  set_info : Z → AccountInfo → J → J;
  extend_storage : Z → gmap Z Z → J → J;
}.

(** Two journals that cannot be told apart, loaded slots aside. *)
Definition same_state `{Journal} (j j' : J) : Prop :=
  (∀ a, info_of j' a = info_of j a) ∧ (∀ a k, slot_of j' a k = slot_of j a k).

Class JournalLaws `{Journal} := {
  load_same a j : same_state j (load a j);
  load_original a j b k : original_of (load a j) b k = original_of j b k;
  sload_value a k j : (sload a k j).1 = slot_of j a k;
  sload_same a k j : same_state j (sload a k j).2;
  sstore_info a k v j b : info_of (sstore a k v j) b = info_of j b;
  sstore_slot a k v j b k' :
    slot_of (sstore a k v j) b k' = if decide (b = a ∧ k' = k) then v else slot_of j b k';
  set_info_info a i j b : info_of (set_info a i j) b = if decide (b = a) then i else info_of j b;
  set_info_slot a i j b k : slot_of (set_info a i j) b k = slot_of j b k;
  extend_info a m j b : info_of (extend_storage a m j) b = info_of j b;
  extend_slot a m j b k :
    slot_of (extend_storage a m j) b k =
      if decide (b = a) then default (slot_of j b k) (m !! k) else slot_of j b k;
}.

(** The keys of [zksync_types], and its packing of nonces and of a block's
    number and time. *)
Class ZkLayout := {
  get_balance_key : Z → Z;
  get_nonce_key : Z → Z;
  get_account_code_key : Z → Z;
  block_info_key : Z;
  nonces_to_full_nonce : Z → Z → Z;
  decompose_full_nonce : Z → Z * Z;
  pack_block_info : Z → Z → Z;
  unpack_block_info : Z → Z * Z;
  hash_bytecode : bytes → Z;
}.
Class ZkLayoutLaws `{ZkLayout} := {
  balance_key_inj a b : get_balance_key a = get_balance_key b → a = b;
  nonce_key_inj a b : get_nonce_key a = get_nonce_key b → a = b;
  code_key_inj a b : get_account_code_key a = get_account_code_key b → a = b;
  full_nonce_parts t d : in_u 128 t → in_u 128 d → decompose_full_nonce (nonces_to_full_nonce t d) = (t, d);
  full_nonce_in_u n : in_u 128 (decompose_full_nonce n).1 ∧ in_u 128 (decompose_full_nonce n).2;
  block_info_parts n t : in_u 64 n → in_u 64 t → unpack_block_info (pack_block_info n t) = (n, t);
}.

(** The system contracts. *)
Definition L2_BASE_TOKEN_ADDRESS : Z := 32778.
Definition NONCE_HOLDER_ADDRESS : Z := 32771.
Definition ACCOUNT_CODE_STORAGE_ADDRESS : Z := 32770.
Definition KNOWN_CODES_STORAGE_ADDRESS : Z := 32772.
Definition SYSTEM_CONTEXT_ADDRESS : Z := 32779.

(** What the cheatcodes see of the EVM. *)
Record Ecx `{Journal} := mkEcx {
  journaled_state : J;
  block_number : Z;
  block_timestamp : Z;
  tx_caller : Z;
  persistent_accounts : list Z;
  test_contract_address : option Z;
}.
Arguments mkEcx {_}.

Section state.
Context `{Journal} `{!ZkLayout}.

Definition with_journal (j : J) (e : Ecx) : Ecx :=
  mkEcx j (block_number e) (block_timestamp e) (tx_caller e) (persistent_accounts e)
    (test_contract_address e).
Definition with_block (number timestamp : Z) (e : Ecx) : Ecx :=
  mkEcx (journaled_state e) number timestamp (tx_caller e) (persistent_accounts e)
    (test_contract_address e).

(** ** Cheatcodes on zkSync state *)

(** The low limb of a number of 256 bits. *)
Definition low_limb (x : Z) : Z := wrap 64 x.

Definition warp (timestamp : Z) (e : Ecx) : Ecx :=
  let '(info, j) := sload SYSTEM_CONTEXT_ADDRESS block_info_key
                      (load SYSTEM_CONTEXT_ADDRESS (journaled_state e)) in
  let '(number, _) := unpack_block_info info in
  let j := sstore SYSTEM_CONTEXT_ADDRESS block_info_key (pack_block_info number (low_limb timestamp)) j in
  with_block (block_number e) timestamp (with_journal j e).

Definition roll (number : Z) (e : Ecx) : Ecx :=
  let '(info, j) := sload SYSTEM_CONTEXT_ADDRESS block_info_key
                      (load SYSTEM_CONTEXT_ADDRESS (journaled_state e)) in
  let '(_, timestamp) := unpack_block_info info in
  let j := sstore SYSTEM_CONTEXT_ADDRESS block_info_key (pack_block_info (low_limb number) timestamp) j in
  with_block number (block_timestamp e) (with_journal j e).

(** The old balance is returned. *)
Definition deal (address b : Z) (j : J) : Z * J :=
  let '(old, j) := sload L2_BASE_TOKEN_ADDRESS (get_balance_key address) (load L2_BASE_TOKEN_ADDRESS j) in
  (old, sstore L2_BASE_TOKEN_ADDRESS (get_balance_key address) b j).

Definition update_nonce (address : Z) (f : Z * Z → Z * Z) (j : J) : J :=
  let '(full, j) := sload NONCE_HOLDER_ADDRESS (get_nonce_key address) (load NONCE_HOLDER_ADDRESS j) in
  let '(t, d) := f (decompose_full_nonce full) in
  sstore NONCE_HOLDER_ADDRESS (get_nonce_key address) (nonces_to_full_nonce t d) j.

Definition set_tx_nonce (address n : Z) : J → J :=
  update_nonce address (λ p, ((decompose_full_nonce n).1, p.2)).
Definition increment_tx_nonce (address : Z) : J → J :=
  update_nonce address (λ p, (u_saturating_add 256 p.1 1, p.2)).
Definition set_deployment_nonce (address n : Z) : J → J :=
  update_nonce address (λ p, (p.1, (decompose_full_nonce n).2)).

Definition get_full_nonce (address : Z) (j : J) : (Z * Z) * J :=
  let '(full, j) := sload NONCE_HOLDER_ADDRESS (get_nonce_key address) (load NONCE_HOLDER_ADDRESS j) in
  (decompose_full_nonce full, j).
Definition get_nonce (address : Z) (j : J) : Z * J :=
  let '((t, _), j) := get_full_nonce address j in (t, j).

(** [None]: the length is not a multiple of 32. *)
Definition etch (address : Z) (bytecode : bytes) (j : J) : option J :=
  if Z.of_nat (length bytecode) mod 32 =? 0 then
    let h := hash_bytecode bytecode in
    let j := load KNOWN_CODES_STORAGE_ADDRESS (load ACCOUNT_CODE_STORAGE_ADDRESS j) in
    let j := sstore ACCOUNT_CODE_STORAGE_ADDRESS (get_account_code_key address) h j in
    let j := load address (sstore KNOWN_CODES_STORAGE_ADDRESS h 0 j) in
    let i := info_of j address in
    Some (set_info address (mkAccount (balance i) (nonce i) h (Some bytecode)) j)
  else None.

Definition EMPTY_CODE : bytes := replicate 32 0.
Definition set_mocked_account (address : Z) (j : J) : J :=
  let j := load KNOWN_CODES_STORAGE_ADDRESS (load ACCOUNT_CODE_STORAGE_ADDRESS j) in
  let '(h, j) := sload ACCOUNT_CODE_STORAGE_ADDRESS (get_account_code_key address) j in
  if h =? 0 then
    let empty := hash_bytecode EMPTY_CODE in
    let j := sstore ACCOUNT_CODE_STORAGE_ADDRESS (get_account_code_key address) empty j in
    let '(known, j) := sload KNOWN_CODES_STORAGE_ADDRESS empty j in
    if known =? 0 then sstore KNOWN_CODES_STORAGE_ADDRESS empty 1 j else j
  else j.

(** [setNonce] in zkSync mode: [inl] refuses a lower nonce. *)
Definition setNonce (address new_nonce : Z) (j : J) : (Z * Z) + J :=
  let '(current, j) := get_nonce address j in
  if new_nonce <? current then inl (new_nonce, current) else inr (set_tx_nonce address new_nonce j).
Definition resetNonce (address : Z) (j : J) : J := set_tx_nonce address 0 j.
End state.

(** ** Limits on gas *)

Definition MAX_L2_GAS_LIMIT : Z := Z.shiftr (umax 32) 1 * 2.
Definition fix_l2_gas_price (gas_price : Z) : Z := Z.max gas_price 260000000.
Definition fix_l2_gas_limit (proposed_gas_limit gas_price value balance : Z) : Z :=
  let gas_limit :=
    if (gas_price =? 0) || (balance <=? value) then proposed_gas_limit
    else Z.min proposed_gas_limit (u_saturating_sub balance value / gas_price) in
  Z.min gas_limit MAX_L2_GAS_LIMIT.
Section gas.
Context `{Journal} `{!ZkLayout}.
(** The payer is the paymaster unless that is the zero address. *)
Definition gas_params (value gas_price gas_limit caller paymaster : Z) (j : J) : (Z * Z) * J :=
  let payer := if paymaster =? 0 then caller else paymaster in
  let '(b, j) := sload L2_BASE_TOKEN_ADDRESS (get_balance_key payer) (load L2_BASE_TOKEN_ADDRESS j) in
  let effective_gas_price := if gas_price =? 0 then fix_l2_gas_price gas_price else gas_price in
  ((fix_l2_gas_limit gas_limit effective_gas_price value b, effective_gas_price), j).
End gas.

(** ** The context: [context.rs], [types.rs] *)

Inductive ZkStartupMigration := Defer | Allow | Done.
Definition is_allowed (m : ZkStartupMigration) : bool := match m with Allow => true | _ => false end.

Record ZkContext := mkZkContext {
  using_zk_vm : bool;
  skip_zk_vm : bool;
  skip_zk_vm_addresses : gset Z;
  record_next_create_address : bool;
  paymaster_params : option (Z * bytes);
  dual_compiled_contracts : DualCompiledContracts;
  zk_startup_migration : ZkStartupMigration;
  zk_use_factory_deps : list string;
  persisted_factory_deps : gmap Z bytes;
  set_deployer_call_input_factory_deps : list bytes;
}.

Definition set_using (b : bool) (c : ZkContext) : ZkContext :=
  mkZkContext b (skip_zk_vm c) (skip_zk_vm_addresses c) (record_next_create_address c) (paymaster_params c)
    (dual_compiled_contracts c) (zk_startup_migration c) (zk_use_factory_deps c) (persisted_factory_deps c)
    (set_deployer_call_input_factory_deps c).
Definition set_skip (skip record : bool) (addresses : gset Z) (c : ZkContext) : ZkContext :=
  mkZkContext (using_zk_vm c) skip addresses record (paymaster_params c)
    (dual_compiled_contracts c) (zk_startup_migration c) (zk_use_factory_deps c) (persisted_factory_deps c)
    (set_deployer_call_input_factory_deps c).
Definition set_migration (m : ZkStartupMigration) (c : ZkContext) : ZkContext :=
  mkZkContext (using_zk_vm c) (skip_zk_vm c) (skip_zk_vm_addresses c) (record_next_create_address c)
    (paymaster_params c) (dual_compiled_contracts c) m (zk_use_factory_deps c) (persisted_factory_deps c)
    (set_deployer_call_input_factory_deps c).
Definition set_persisted (p : gmap Z bytes) (c : ZkContext) : ZkContext :=
  mkZkContext (using_zk_vm c) (skip_zk_vm c) (skip_zk_vm_addresses c) (record_next_create_address c)
    (paymaster_params c) (dual_compiled_contracts c) (zk_startup_migration c) (zk_use_factory_deps c) p
    (set_deployer_call_input_factory_deps c).
Definition set_inputs (paymaster : option (Z * bytes)) (deps : list string) (deployer : list bytes)
    (c : ZkContext) : ZkContext :=
  mkZkContext (using_zk_vm c) (skip_zk_vm c) (skip_zk_vm_addresses c) (record_next_create_address c)
    paymaster (dual_compiled_contracts c) (zk_startup_migration c) deps (persisted_factory_deps c) deployer.
Definition set_dual (d : DualCompiledContracts) (c : ZkContext) : ZkContext :=
  mkZkContext (using_zk_vm c) (skip_zk_vm c) (skip_zk_vm_addresses c) (record_next_create_address c)
    (paymaster_params c) d (zk_startup_migration c) (zk_use_factory_deps c) (persisted_factory_deps c)
    (set_deployer_call_input_factory_deps c).

(** [zksync_persist_factory_deps]: [extend]. *)
Definition zksync_persist_factory_deps (deps : gmap Z bytes) (c : ZkContext) : ZkContext :=
  set_persisted (deps ∪ persisted_factory_deps c) c.

Section switch.
Context `{HashIter} `{Journal} `{!ZkLayout}.
(** The hash of empty code. *)
Context (KECCAK_EMPTY : Z).

(** ** The switch: [runner/mod.rs] *)

(** The accounts that are translated. *)
Definition translated (e : Ecx) : list Z := persistent_accounts e ++ [tx_caller e].

(** What is gathered for the zkSync state. *)
Record Import := mkImport {
  import_ctx : ZkContext;
  import_journal : J;
  l2_eth_storage : gmap Z Z;
  nonce_storage : gmap Z Z;
  account_code_storage : gmap Z Z;
  known_codes_storage : gmap Z Z;
  deployed_codes : gmap Z AccountInfo;
}.

(** The deployment nonce, if the journal holds the slot of the nonce. *)
Definition deployment_nonce (j : J) (address : Z) : Z :=
  match original_of j NONCE_HOLDER_ADDRESS (get_nonce_key address) with
  | Some full => (decompose_full_nonce full).2
  | None => 0
  end.

Definition import_account (test_contract : option Z) (s : Import) (address : Z) : Import :=
  let j := load NONCE_HOLDER_ADDRESS (import_journal s) in
  let deployment := deployment_nonce j address in
  let j := load address j in
  let info := info_of j address in
  let eth := <[get_balance_key address := balance info]> (l2_eth_storage s) in
  let nonces := <[get_nonce_key address := nonces_to_full_nonce (nonce info) deployment]> (nonce_storage s) in
  match found ← code info;
        find_by_evm_deployed_bytecode_with_immutables (dual_compiled_contracts (import_ctx s)) found with
  | Some (_, contract) =>
      let codes := <[get_account_code_key address := zk_bytecode_hash contract]> (account_code_storage s) in
      let known := <[zk_bytecode_hash contract := 0]> (known_codes_storage s) in
      if decide (Some address = test_contract) then
        mkImport
          (set_persisted
             (<[zk_bytecode_hash contract := zk_deployed_bytecode contract]>
                (persisted_factory_deps (import_ctx s))) (import_ctx s))
          j eth nonces codes known (deployed_codes s)
      else
        mkImport (import_ctx s) j eth nonces codes known
          (<[address := mkAccount (balance info) (nonce info) (zk_bytecode_hash contract)
                          (Some (zk_deployed_bytecode contract))]> (deployed_codes s))
  | None =>
      mkImport (import_ctx s) j eth nonces (account_code_storage s) (known_codes_storage s)
        (deployed_codes s)
  end.

Definition extend_loaded (a : Z) (m : gmap Z Z) (j : J) : J := extend_storage a m (load a j).

(** The codes of accounts, in the order of a hash table. *)
Definition deploy_codes (m : gmap Z AccountInfo) (j : J) : J :=
  foldl (λ j a, match m !! a with Some i => set_info a i (load a j) | None => j end) j (hash_iter (dom m)).

(** [new_env]: the number and time of the block of a fork. *)
Definition select_zk_vm (new_env : option (Z * Z)) (ctx : ZkContext) (e : Ecx) : ZkContext * Ecx :=
  if using_zk_vm ctx then (ctx, e)
  else
    let '(number, timestamp) := default (block_number e, block_timestamp e) new_env in
    let block_info := pack_block_info (Z.min (umax 64) number) (Z.min (umax 64) timestamp) in
    let s := foldl (import_account (test_contract_address e))
               (mkImport (set_using true ctx) (journaled_state e) ∅ ∅ ∅ ∅ ∅) (translated e) in
    let j := extend_loaded SYSTEM_CONTEXT_ADDRESS {[block_info_key := block_info]} (import_journal s) in
    let j := extend_loaded L2_BASE_TOKEN_ADDRESS (l2_eth_storage s) j in
    let j := extend_loaded NONCE_HOLDER_ADDRESS (nonce_storage s) j in
    let j := extend_loaded ACCOUNT_CODE_STORAGE_ADDRESS (account_code_storage s) j in
    let j := extend_loaded KNOWN_CODES_STORAGE_ADDRESS (known_codes_storage s) j in
    let j := deploy_codes (deployed_codes s) j in
    (import_ctx s, with_journal j e).

(** The code of an account in the EVM, from the hash of its zkSync code. *)
Definition evm_code (d : DualCompiledContracts) (zk_hash : Z) : Z * option bytes :=
  match find_by_zk_bytecode_hash d zk_hash with
  | Some (_, c) => (evm_bytecode_hash c, Some (evm_deployed_bytecode c))
  | None => (KECCAK_EMPTY, None)
  end.

(** [None]: the nonce does not fit into 64 bits. *)
Definition export_account (d : DualCompiledContracts) (test_contract : option Z) (j : J) (address : Z)
    : option J :=
  let '(b, j) := sload L2_BASE_TOKEN_ADDRESS (get_balance_key address) j in
  let '(full_nonce, j) := sload NONCE_HOLDER_ADDRESS (get_nonce_key address) j in
  let '(tx_nonce, _) := decompose_full_nonce full_nonce in
  if umax 64 <? tx_nonce then None
  else
    let '(zk_hash, j) := sload ACCOUNT_CODE_STORAGE_ADDRESS (get_account_code_key address) j in
    let j := load address j in
    let i := info_of j address in
    let '(h, c) := if decide (test_contract = Some address) then (code_hash i, code i)
                   else evm_code d zk_hash in
    Some (set_info address (mkAccount b tx_nonce h c) j).

Definition select_evm (ctx : ZkContext) (e : Ecx) : option (ZkContext * Ecx) :=
  if negb (using_zk_vm ctx) then Some (ctx, e)
  else
    let j := load ACCOUNT_CODE_STORAGE_ADDRESS (load NONCE_HOLDER_ADDRESS
               (load L2_BASE_TOKEN_ADDRESS (load SYSTEM_CONTEXT_ADDRESS (journaled_state e)))) in
    let '(block_info, j) := sload SYSTEM_CONTEXT_ADDRESS block_info_key j in
    let '(number, timestamp) := unpack_block_info block_info in
    j ← fold_opt (export_account (dual_compiled_contracts ctx) (test_contract_address e)) j (translated e);
    Some (set_using false ctx, with_block number timestamp (with_journal j e)).

(** [is_evm]: the kind of the fork. *)
Definition select_fork_vm (is_evm : bool) (fork_env : Z * Z) (ctx : ZkContext) (e : Ecx)
    : option (ZkContext * Ecx) :=
  if is_evm then select_evm ctx e else Some (select_zk_vm (Some fork_env) ctx e).

Definition base_contract_deployed (ctx : ZkContext) : ZkContext := set_migration Allow ctx.
Definition post_initialize_interp (ctx : ZkContext) (e : Ecx) : ZkContext * Ecx :=
  if is_allowed (zk_startup_migration ctx) && negb (using_zk_vm ctx) then
    let '(ctx, e) := select_zk_vm None ctx e in (set_migration Done ctx, e)
  else (ctx, e).
End switch.

(** ** The machine of a call *)

Inductive Machine := Evm | ZkVm.

(** The address a creation would have is that of the test contract. *)
Definition try_create (creates_test_contract is_create2_deployer evm_interpreter : bool) (ctx : ZkContext)
    : Machine * ZkContext :=
  if negb (using_zk_vm ctx) then (Evm, ctx)
  else if skip_zk_vm ctx then (Evm, set_skip false true (skip_zk_vm_addresses ctx) ctx)
  else if creates_test_contract || is_create2_deployer then (Evm, ctx)
  else (ZkVm, set_inputs None (if evm_interpreter then zk_use_factory_deps ctx else [])
                (set_deployer_call_input_factory_deps ctx) ctx).

Definition try_call (target_address : Z) (is_test_contract : bool) (ctx : ZkContext)
    : Machine * list bytes * ZkContext :=
  let factory_deps := set_deployer_call_input_factory_deps ctx in
  let ctx := set_inputs (paymaster_params ctx) (zk_use_factory_deps ctx) [] ctx in
  if negb (using_zk_vm ctx) then (Evm, factory_deps, ctx)
  else
    let skip := skip_zk_vm ctx || bool_decide (target_address ∈ skip_zk_vm_addresses ctx) in
    let ctx := set_skip skip (record_next_create_address ctx) (skip_zk_vm_addresses ctx) ctx in
    if skip then
      (Evm, factory_deps, set_skip false (record_next_create_address ctx) (skip_zk_vm_addresses ctx) ctx)
    else if is_test_contract then (Evm, factory_deps, ctx)
    else (ZkVm, factory_deps, set_inputs None [] (set_deployer_call_input_factory_deps ctx) ctx).

(** When a creation has ended. *)
Definition zksync_record_create_address (created : option Z) (ctx : ZkContext) : ZkContext :=
  if record_next_create_address ctx then
    set_skip (skip_zk_vm ctx) false
      match created with
      | Some a => {[a]} ∪ skip_zk_vm_addresses ctx
      | None => skip_zk_vm_addresses ctx
      end ctx
  else ctx.

(** *** Cheatcodes: [cheatcode_handlers.rs] *)

Definition zkVmSkip (ctx : ZkContext) : ZkContext :=
  set_skip true (record_next_create_address ctx) (skip_zk_vm_addresses ctx) ctx.
Definition zkUsePaymaster (address : Z) (input : bytes) (ctx : ZkContext) : ZkContext :=
  set_inputs (Some (address, input)) (zk_use_factory_deps ctx) (set_deployer_call_input_factory_deps ctx) ctx.
Definition zkUseFactoryDep (name : string) (ctx : ZkContext) : ZkContext :=
  set_inputs (paymaster_params ctx) (zk_use_factory_deps ctx ++ [name])
    (set_deployer_call_input_factory_deps ctx) ctx.
(** [info] is [ContractInfo::new] of the name. *)
Definition zkRegisterContract `{HashIter} (info : ContractInfo) (c : DualCompiledContract)
    (ctx : ZkContext) : ZkContext :=
  match find_by (λ k, (evm_bytecode_hash k =? evm_bytecode_hash c) &&
                      (zk_bytecode_hash k =? zk_bytecode_hash c)) (dual_compiled_contracts ctx) with
  | Some _ => ctx
  | None => set_dual (insert_contract info c (dual_compiled_contracts ctx)) ctx
  end.
Definition zkVm `{HashIter} `{Journal} `{!ZkLayout} (KECCAK_EMPTY : Z) (enable : bool) (ctx : ZkContext)
    (e : Ecx) : option (ZkContext * Ecx) :=
  if enable then Some (select_zk_vm None ctx e) else select_evm KECCAK_EMPTY ctx e.
