(* ===== verification/ZkVmSpec.v ===== *)
(** * Properties of the switch between the two machines

    Theorems on [ZkVm]: what of accounts and storage a change to the zkSync VM
    and back keeps, the two nonces of an account, the machine a call runs in, and the limits on gas. *)
From S2P Require Import Prelude.
From S2P Require Import ZkContracts.
From S2P Require Import ZkVm.
Local Open Scope Z_scope.

Section proofs.
Context {Iter : HashIter} {Jn : Journal} {Jlaws : JournalLaws} {Lay : ZkLayout} {Llaws : ZkLayoutLaws}
  (KECCAK_EMPTY : Z).

Lemma same_refl (j : J) : same_state j j.
Proof. done. Qed.
Lemma same_trans (j1 j2 j3 : J) : same_state j1 j2 → same_state j2 j3 → same_state j1 j3.
Proof. intros [H1 H2] [H3 H4]. split; intros; [by rewrite H3|by rewrite H4]. Qed.

(** ** Nonces *)

Lemma full_nonce_of a j :
  (get_full_nonce a j).1 = decompose_full_nonce (slot_of j NONCE_HOLDER_ADDRESS (get_nonce_key a)).
Proof.
  unfold get_full_nonce. destruct (sload _ _ _) as [full j'] eqn:Hs. cbn.
  pose proof (sload_value NONCE_HOLDER_ADDRESS (get_nonce_key a) (load NONCE_HOLDER_ADDRESS j)) as Hv.
  rewrite Hs in Hv. cbn in Hv. rewrite Hv. f_equal. apply (load_same NONCE_HOLDER_ADDRESS j).
Qed.

Lemma full_nonce_in a j : in_u 128 (get_full_nonce a j).1.1 ∧ in_u 128 (get_full_nonce a j).1.2.
Proof. rewrite full_nonce_of. apply full_nonce_in_u. Qed.

Lemma update_nonce_spec a f j b :
  in_u 128 (f (get_full_nonce a j).1).1 → in_u 128 (f (get_full_nonce a j).1).2 →
  (get_full_nonce b (update_nonce a f j)).1 =
    if decide (b = a) then f (get_full_nonce a j).1 else (get_full_nonce b j).1.
Proof.
  rewrite !full_nonce_of. intros Ht Hd. unfold update_nonce.
  destruct (sload _ _ _) as [full j'] eqn:Hs.
  pose proof (sload_value NONCE_HOLDER_ADDRESS (get_nonce_key a) (load NONCE_HOLDER_ADDRESS j)) as Hv.
  pose proof (sload_same NONCE_HOLDER_ADDRESS (get_nonce_key a) (load NONCE_HOLDER_ADDRESS j)) as Hsame.
  rewrite Hs in Hv, Hsame. cbn in Hv, Hsame.
  rewrite (proj2 (load_same NONCE_HOLDER_ADDRESS j)) in Hv. subst full.
  destruct (f _) as [t d] eqn:Hf. rewrite sstore_slot. destruct (decide (b = a)) as [->|Hba].
  - rewrite decide_True by done. by apply full_nonce_parts.
  - rewrite decide_False by (intros [_ Hk]; by apply nonce_key_inj in Hk).
    rewrite (proj2 Hsame). by rewrite (proj2 (load_same NONCE_HOLDER_ADDRESS j)).
Qed.

(** The transaction nonce and the deployment nonce of an account share a
    slot, and each is changed without the other: setting or incrementing the
    nonce of a transaction keeps the deployment nonce, a change of the
    deployment nonce keeps that of transactions, and neither touches the
    nonces of other accounts. *)
Theorem nonces_separate a n j b :
  (get_full_nonce a j).1.1 < umax 128 →
  let full := (get_full_nonce b j).1 in
  (get_full_nonce b (set_tx_nonce a n j)).1 =
    (if decide (b = a) then ((decompose_full_nonce n).1, full.2) else full) ∧
  (get_full_nonce b (increment_tx_nonce a j)).1 =
    (if decide (b = a) then (full.1 + 1, full.2) else full) ∧
  (get_full_nonce b (set_deployment_nonce a n j)).1 =
    (if decide (b = a) then (full.1, (decompose_full_nonce n).2) else full).
Proof.
  intros Hmax full. pose proof (full_nonce_in_u n) as [Hn1 Hn2].
  pose proof (full_nonce_in a j) as [[Ht0 Ht1] Hd].
  assert (Hinc : u_saturating_add 256 (get_full_nonce a j).1.1 1 = (get_full_nonce a j).1.1 + 1).
  { unfold u_saturating_add. rewrite Z.min_r; [done|]. unfold umax in *. lia. }
  unfold set_tx_nonce, increment_tx_nonce, set_deployment_nonce. split; [|split].
  - rewrite update_nonce_spec by done. unfold full. by destruct (decide (b = a)) as [->|].
  - rewrite update_nonce_spec by (cbn [fst snd]; rewrite ?Hinc; unfold in_u in *; (done || lia)).
    unfold full. destruct (decide (b = a)) as [->|]; [by rewrite Hinc|done].
  - rewrite update_nonce_spec by (cbn [fst snd]; unfold in_u in *; (done || lia)).
    unfold full. by destruct (decide (b = a)) as [->|].
Qed.

(** ** Gathering *)

Definition gather {V} (key : Z → Z) (f : Z → option V) (m : gmap Z V) (a : Z) : gmap Z V :=
  match f a with Some v => <[key a := v]> m | None => m end.

Lemma gather_lookup {V} key (f : Z → option V) m l a :
  (∀ a b, key a = key b → a = b) →
  foldl (gather key f) m l !! key a =
    if decide (a ∈ l) then match f a with Some v => Some v | None => m !! key a end else m !! key a.
Proof.
  intros Hkey. revert m. induction l as [|b l IH]; intros m; [done|]. cbn [foldl]. rewrite IH.
  destruct (decide (a = b)) as [->|Hab].
  - rewrite (decide_True (P := b ∈ b :: l)) by left.
    unfold gather. destruct (f b) as [v|]; [|by destruct (decide _)].
    rewrite lookup_insert_eq. by destruct (decide _).
  - assert (Hg : gather key f m b !! key a = m !! key a).
    { unfold gather. destruct (f b); [|done]. rewrite lookup_insert_ne; [done|]. intros Hk.
      apply Hkey in Hk. congruence. }
    rewrite Hg. destruct (decide (a ∈ l)); [rewrite decide_True by (by right); done|].
    rewrite decide_False; [done|]. intros [?|?]%elem_of_cons; done.
Qed.

Lemma gather_other {V} key (f : Z → option V) m l k :
  (∀ a, a ∈ l → key a = k → f a = None) → foldl (gather key f) m l !! k = m !! k.
Proof.
  revert m. induction l as [|b l IH]; intros m Hl; [done|]. cbn [foldl].
  rewrite IH by (intros a Ha; apply Hl; by right). unfold gather. destruct (f b) eqn:Hf; [|done].
  apply lookup_insert_ne. intros Hk. rewrite (Hl b) in Hf; [done|by left|done].
Qed.
(** The hashes of the codes that are known from then on. *)
Definition gather_known (h : Z → option Z) (m : gmap Z Z) (a : Z) : gmap Z Z :=
  match h a with Some h => <[h := 0]> m | None => m end.
Lemma gather_known_other h m l k :
  (∀ a, a ∈ l → h a ≠ Some k) → foldl (gather_known h) m l !! k = m !! k.
Proof.
  revert m. induction l as [|b l IH]; intros m Hl; [done|]. cbn [foldl].
  rewrite IH by (intros a Ha; apply Hl; by right). unfold gather_known. destruct (h b) eqn:Hf; [|done].
  apply lookup_insert_ne. intros ->. apply (Hl b); [by left|done].
Qed.

(** The zkSync contract that the code of an account was compiled to. *)
Definition found (d : DualCompiledContracts) (i : AccountInfo) : option DualCompiledContract :=
  c ← code i; snd <$> find_by_evm_deployed_bytecode_with_immutables d c.

Section import.
Context (d : DualCompiledContracts) (test_contract : option Z) (j : J).
Definition balance_of (a : Z) : option Z := Some (balance (info_of j a)).
Definition nonces_of (a : Z) : option Z :=
  Some (nonces_to_full_nonce (nonce (info_of j a)) (deployment_nonce j a)).
Definition zk_hash_of (a : Z) : option Z := zk_bytecode_hash <$> found d (info_of j a).
Definition deployed_of (a : Z) : option AccountInfo :=
  if decide (Some a = test_contract) then None
  else (λ c, mkAccount (balance (info_of j a)) (nonce (info_of j a)) (zk_bytecode_hash c)
                (Some (zk_deployed_bytecode c))) <$> found d (info_of j a).

(** The journal as it was, and what the loop gathered so far. *)
Definition gathered (s : Import) (l : list Z) : Prop :=
  same_state j (import_journal s) ∧
  (∀ a k, original_of (import_journal s) a k = original_of j a k) ∧
  dual_compiled_contracts (import_ctx s) = d ∧ using_zk_vm (import_ctx s) = true ∧
  l2_eth_storage s = foldl (gather get_balance_key balance_of) ∅ l ∧
  nonce_storage s = foldl (gather get_nonce_key nonces_of) ∅ l ∧
  account_code_storage s = foldl (gather get_account_code_key zk_hash_of) ∅ l ∧
  known_codes_storage s = foldl (gather_known zk_hash_of) ∅ l ∧
  deployed_codes s = foldl (gather id deployed_of) ∅ l.

Lemma import_gathers s l a : gathered s l → gathered (import_account test_contract s a) (l ++ [a]).
Proof.
  intros (Hj & Ho & Hd & Hu & H1 & H2 & H3 & H5 & H4).
  set (j1 := load a (load NONCE_HOLDER_ADDRESS (import_journal s))).
  assert (Hj1 : same_state j j1).
  { eapply same_trans; [exact Hj|]. eapply same_trans; apply load_same. }
  assert (Hi : info_of j1 a = info_of j a) by apply Hj1.
  assert (Hdep : deployment_nonce (load NONCE_HOLDER_ADDRESS (import_journal s)) a = deployment_nonce j a).
  { unfold deployment_nonce. by rewrite load_original, Ho. }
  assert (Ho1 : ∀ a k, original_of j1 a k = original_of j a k).
  { intros b k. unfold j1. by rewrite !load_original. }
  unfold import_account. fold j1. rewrite Hi, Hdep, Hd. unfold gathered. rewrite !foldl_app. cbn [foldl].
  rewrite <-H1, <-H2, <-H3, <-H4, <-H5. unfold gather at 1 2 3 4, gather_known, zk_hash_of, deployed_of, found.
  destruct (code (info_of j a)) as [c|]; cbn [mbind option_bind fmap option_fmap option_map].
  - destruct (find_by_evm_deployed_bytecode_with_immutables d c) as [[i k]|]; cbn [fmap option_fmap option_map snd].
    + destruct (decide (Some a = test_contract)); done.
    + by destruct (decide _).
  - by destruct (decide _).
Qed.

Lemma import_all s l l' :
  gathered s l → gathered (foldl (import_account test_contract) s l') (l ++ l').
Proof.
  revert s l. induction l' as [|a l' IH]; intros s l Hs; [by rewrite app_nil_r|]. cbn [foldl].
  rewrite cons_middle, app_assoc. by apply IH, import_gathers.
Qed.
End import.

(** ** Writing *)

Lemma extend_loaded_info a m j b : info_of (extend_loaded a m j) b = info_of j b.
Proof. unfold extend_loaded. rewrite extend_info. apply load_same. Qed.
Lemma extend_loaded_same a m j k :
  slot_of (extend_loaded a m j) a k = default (slot_of j a k) (m !! k).
Proof. unfold extend_loaded. rewrite extend_slot, decide_True by done. by rewrite (proj2 (load_same a j)). Qed.
Lemma extend_loaded_other a m j b k : b ≠ a → slot_of (extend_loaded a m j) b k = slot_of j b k.
Proof. intros Hb. unfold extend_loaded. rewrite extend_slot, decide_False by done. apply (load_same a j). Qed.

Lemma deploy_codes_slot m j a k : slot_of (deploy_codes m j) a k = slot_of j a k.
Proof.
  unfold deploy_codes. generalize (hash_iter (dom m)) as l. intros l. revert j.
  induction l as [|b l IH]; intros j; [done|]. cbn [foldl]. rewrite IH. destruct (m !! b); [|done].
  rewrite set_info_slot. apply load_same.
Qed.
Lemma deploy_codes_info m j a :
  info_of (deploy_codes m j) a = default (info_of j a) (m !! a).
Proof.
  unfold deploy_codes.
  assert (Hl : ∀ l j, info_of (foldl (λ j a, match m !! a with
                                         | Some i => set_info a i (load a j)
                                         | None => j
                                         end) j l) a =
                     if decide (a ∈ l) then default (info_of j a) (m !! a) else info_of j a).
  { induction l as [|b l IH]; intros j0; [done|]. cbn [foldl]. rewrite IH.
    destruct (decide (a = b)) as [->|Hab].
    - rewrite (decide_True (P := b ∈ b :: l)) by left. destruct (m !! b) as [i|]; cbn; [|by case_decide].
      rewrite set_info_info. by repeat case_decide.
    - assert (Hs : info_of (match m !! b with Some i => set_info b i (load b j0) | None => j0 end) a = info_of j0 a).
      { destruct (m !! b); [|done]. rewrite set_info_info, decide_False by done. apply load_same. }
      rewrite Hs. destruct (decide (a ∈ l)); [rewrite decide_True by (by right); done|].
      rewrite decide_False; [done|]. intros [?|?]%elem_of_cons; done. }
  rewrite Hl. destruct (decide (a ∈ hash_iter (dom m))) as [|Hn]; [done|].
  rewrite elem_of_hash_iter, not_elem_of_dom in Hn. by rewrite Hn.
Qed.
(** ** Into the zkSync VM *)

Local Abbreviation zk_code_of d j a :=
  (match zk_hash_of d j a with
   | Some h => h
   | None => slot_of j ACCOUNT_CODE_STORAGE_ADDRESS (get_account_code_key a)
   end).

(** The slots of system contracts that the switch into the zkSync VM writes. *)
Definition overwritten (d : DualCompiledContracts) (e : Ecx) (b k : Z) : Prop :=
  (b = SYSTEM_CONTEXT_ADDRESS ∧ k = block_info_key) ∨
  ∃ a, a ∈ translated e ∧
    ((b = L2_BASE_TOKEN_ADDRESS ∧ k = get_balance_key a) ∨
     (b = NONCE_HOLDER_ADDRESS ∧ k = get_nonce_key a) ∨
     ∃ h, zk_hash_of d (journaled_state e) a = Some h ∧
       ((b = ACCOUNT_CODE_STORAGE_ADDRESS ∧ k = get_account_code_key a) ∨
        (b = KNOWN_CODES_STORAGE_ADDRESS ∧ k = h))).

Lemma extend_loaded_missing a m j b k :
  (b = a → m !! k = None) → slot_of (extend_loaded a m j) b k = slot_of j b k.
Proof.
  intros Hm. destruct (decide (b = a)) as [->|Hb]; [|by apply extend_loaded_other].
  rewrite extend_loaded_same. by rewrite Hm.
Qed.

Lemma select_zk_spec ctx e :
  using_zk_vm ctx = false →
  let d := dual_compiled_contracts ctx in
  let j := journaled_state e in
  let '(ctx', e') := select_zk_vm None ctx e in
  let j' := journaled_state e' in
  using_zk_vm ctx' = true ∧ dual_compiled_contracts ctx' = d ∧
  e' = with_journal j' e ∧
  (∀ a, info_of j' a =
     if decide (a ∈ translated e) then default (info_of j a) (deployed_of d (test_contract_address e) j a)
     else info_of j a) ∧
  slot_of j' SYSTEM_CONTEXT_ADDRESS block_info_key =
    pack_block_info (Z.min (umax 64) (block_number e)) (Z.min (umax 64) (block_timestamp e)) ∧
  (∀ b k, ¬ overwritten d e b k → slot_of j' b k = slot_of j b k) ∧
  ∀ a, a ∈ translated e →
    slot_of j' L2_BASE_TOKEN_ADDRESS (get_balance_key a) = balance (info_of j a) ∧
    slot_of j' NONCE_HOLDER_ADDRESS (get_nonce_key a) =
      nonces_to_full_nonce (nonce (info_of j a)) (deployment_nonce j a) ∧
    slot_of j' ACCOUNT_CODE_STORAGE_ADDRESS (get_account_code_key a) = zk_code_of d j a.
Proof.
  intros Hu d j. unfold select_zk_vm. rewrite Hu. cbn [default].
  pose proof (import_all d (test_contract_address e) j
    (mkImport (set_using true ctx) (journaled_state e) ∅ ∅ ∅ ∅ ∅) [] (translated e)) as Hg.
  set (s := foldl _ _ _) in *. cbn [app] in Hg.
  destruct Hg as (Hsame & _ & Hd & Huse & H1 & H2 & H3 & H5 & H4); [done|].
  cbn [journaled_state with_journal]. split; [done|]. split; [done|]. split; [done|].
  split; [|split; [|split]].
  - intros a. rewrite deploy_codes_info, !extend_loaded_info, H4, (proj1 Hsame a).
    pose proof (gather_lookup id (deployed_of d (test_contract_address e) j) ∅ (translated e) a (λ _ _ Hk, Hk))
      as Hgl. change (id a) with a in Hgl. rewrite Hgl, lookup_empty.
    destruct (decide _); [|done]. by destruct (deployed_of _ _ _ a).
  - rewrite deploy_codes_slot, !extend_loaded_other, extend_loaded_same by done.
    by rewrite lookup_singleton_eq.
  - intros b k Hb. rewrite deploy_codes_slot. rewrite !extend_loaded_missing; [apply Hsame|..]; intros ->.
    + apply lookup_singleton_ne. intros <-. apply Hb. by left.
    + rewrite H1, gather_other; [done|]. intros a Ha Hk. destruct Hb. right. exists a. auto.
    + rewrite H2, gather_other; [done|]. intros a Ha Hk. destruct Hb. right. exists a. auto.
    + rewrite H3, gather_other; [done|]. intros a Ha Hk. destruct (zk_hash_of _ _ a) as [h|] eqn:Hh; [|done].
      destruct Hb. right. exists a. split; [done|]. right; right. exists h. auto.
    + rewrite H5, gather_known_other; [done|]. intros a Ha Hh. destruct Hb. right. exists a. split; [done|].
      right; right. exists k. auto.
  - intros a Ha. rewrite !deploy_codes_slot. split; [|split].
    + rewrite !extend_loaded_other, extend_loaded_same by done.
      rewrite H1, gather_lookup, decide_True by (done || apply balance_key_inj). done.
    + rewrite !extend_loaded_other, extend_loaded_same by done.
      rewrite H2, gather_lookup, decide_True by (done || apply nonce_key_inj). done.
    + rewrite extend_loaded_other, extend_loaded_same, !extend_loaded_other by done.
      rewrite H3, gather_lookup, decide_True by (done || apply code_key_inj).
      destruct (zk_hash_of d j a); cbn; [done|]. apply Hsame.
Qed.

(** ** Back into the EVM *)

Section export.
Context (d : DualCompiledContracts) (test_contract : option Z) (j : J).
(** What an account becomes. *)
Definition exported (a : Z) (i : AccountInfo) : AccountInfo :=
  let hc := if decide (test_contract = Some a) then (code_hash i, code i)
            else evm_code KECCAK_EMPTY d (slot_of j ACCOUNT_CODE_STORAGE_ADDRESS (get_account_code_key a)) in
  mkAccount (slot_of j L2_BASE_TOKEN_ADDRESS (get_balance_key a))
    (decompose_full_nonce (slot_of j NONCE_HOLDER_ADDRESS (get_nonce_key a))).1 hc.1 hc.2.

Lemma exported_twice a i : exported a (exported a i) = exported a i.
Proof. unfold exported. by destruct (decide _). Qed.

Lemma sload_run a k j0 v j1 : sload a k j0 = (v, j1) → v = slot_of j0 a k ∧ same_state j0 j1.
Proof.
  intros Hs. pose proof (sload_value a k j0) as Hv. pose proof (sload_same a k j0) as Hj.
  rewrite Hs in Hv, Hj. by split.
Qed.

Lemma export_one j0 a :
  (∀ b k, slot_of j0 b k = slot_of j b k) →
  (decompose_full_nonce (slot_of j NONCE_HOLDER_ADDRESS (get_nonce_key a))).1 <= umax 64 →
  ∃ j1, export_account KECCAK_EMPTY d test_contract j0 a = Some j1 ∧
    (∀ b k, slot_of j1 b k = slot_of j b k) ∧
    ∀ b, info_of j1 b = if decide (b = a) then exported a (info_of j0 a) else info_of j0 b.
Proof.
  intros Hj Hn. unfold export_account.
  destruct (sload L2_BASE_TOKEN_ADDRESS _ _) as [b j1] eqn:E1. apply sload_run in E1 as [-> S1].
  destruct (sload NONCE_HOLDER_ADDRESS _ _) as [n j2] eqn:E2. apply sload_run in E2 as [-> S2].
  rewrite (proj2 S1 NONCE_HOLDER_ADDRESS), Hj. destruct (decompose_full_nonce _) as [t dep] eqn:Ht.
  cbn [fst] in Hn. rewrite (proj2 (Z.ltb_ge _ _)) by lia.
  destruct (sload ACCOUNT_CODE_STORAGE_ADDRESS _ _) as [h j3] eqn:E3. apply sload_run in E3 as [-> S3].
  pose proof (load_same a j3) as S4.
  assert (Hs : same_state j0 (load a j3)).
  { eapply same_trans; [exact S1|]. eapply same_trans; [exact S2|]. by eapply same_trans. }
  assert (Hc : slot_of j2 ACCOUNT_CODE_STORAGE_ADDRESS (get_account_code_key a) =
               slot_of j ACCOUNT_CODE_STORAGE_ADDRESS (get_account_code_key a)).
  { by rewrite (proj2 S2), (proj2 S1), Hj. }
  rewrite Hc, !Hj. destruct (if decide (test_contract = Some a) then _ else _) as [hh cc] eqn:Hhc.
  eexists. split; [reflexivity|]. split.
  - intros b' k. rewrite set_info_slot. by rewrite (proj2 Hs), Hj.
  - intros b'. rewrite set_info_info. destruct (decide (b' = a)) as [->|]; [|apply Hs].
    unfold exported. rewrite Ht, <-(proj1 Hs a), Hhc. done.
Qed.

Lemma export_all l j0 :
  (∀ b k, slot_of j0 b k = slot_of j b k) →
  (∀ a, a ∈ l → (decompose_full_nonce (slot_of j NONCE_HOLDER_ADDRESS (get_nonce_key a))).1 <= umax 64) →
  ∃ j1, fold_opt (export_account KECCAK_EMPTY d test_contract) j0 l = Some j1 ∧
    (∀ b k, slot_of j1 b k = slot_of j b k) ∧
    ∀ b, info_of j1 b = if decide (b ∈ l) then exported b (info_of j0 b) else info_of j0 b.
Proof.
  revert j0. induction l as [|a l IH]; intros j0 Hj Hn; [by exists j0|].
  destruct (export_one j0 a Hj) as (j1 & H1 & Hj1 & Hi1); [apply Hn; by left|].
  destruct (IH j1 Hj1) as (j2 & H2 & Hj2 & Hi2); [intros b Hb; apply Hn; by right|].
  exists j2. cbn [fold_opt]. rewrite H1. split; [done|]. split; [done|]. intros b. rewrite Hi2, Hi1.
  destruct (decide (b = a)) as [->|Hab].
  - rewrite (decide_True (P := a ∈ a :: l)) by left. rewrite exported_twice. by destruct (decide _).
  - destruct (decide (b ∈ l)); [rewrite decide_True by (by right); done|].
    rewrite decide_False; [done|]. intros [?|?]%elem_of_cons; done.
Qed.
End export.

End proofs.

(** ** The machine of a call *)

(** A creation, or a call of an address. *)
Inductive Request :=
| CreateRequest (creates_test_contract is_create2_deployer evm_interpreter : bool)
| CallRequest (target_address : Z) (is_test_contract : bool).
Definition serve (r : Request) (ctx : ZkContext) : Machine * ZkContext :=
  match r with
  | CreateRequest t d i => try_create t d i ctx
  | CallRequest a t => let r := try_call a t ctx in (r.1.1, r.2)
  end.

(** What reaches the context: requests, ends of creations and [zkVmSkip]. *)
Inductive Event := Req (r : Request) | CreateEnds (created : option Z) | Skip.
Definition react (ctx : ZkContext) (e : Event) : ZkContext :=
  match e with
  | Req r => (serve r ctx).2
  | CreateEnds a => zksync_record_create_address a ctx
  | Skip => zkVmSkip ctx
  end.

(** A request that nothing keeps out of the zkSync VM. *)
Definition plain (r : Request) (ctx : ZkContext) : Prop :=
  match r with
  | CreateRequest t d _ => t = false ∧ d = false
  | CallRequest a t => t = false ∧ a ∉ skip_zk_vm_addresses ctx
  end.

Lemma react_using ctx e : using_zk_vm (react ctx e) = using_zk_vm ctx.
Proof.
  destruct e as [[t d i|a t]|a|]; cbn; [|unfold try_call; cbn|unfold zksync_record_create_address|done].
  - unfold try_create. by repeat case_match.
  - by repeat case_match.
  - by case_match.
Qed.
Lemma react_addresses ctx e : skip_zk_vm_addresses ctx ⊆ skip_zk_vm_addresses (react ctx e).
Proof.
  destruct e as [[t d i|a t]|a|]; cbn; [|unfold try_call; cbn|unfold zksync_record_create_address|done].
  - unfold try_create. by repeat case_match.
  - by repeat case_match.
  - repeat case_match; cbn; set_solver.
Qed.
Lemma run_addresses ctx es : skip_zk_vm_addresses ctx ⊆ skip_zk_vm_addresses (foldl react ctx es).
Proof.
  revert ctx. induction es as [|e es IH]; intros ctx; [done|]. cbn. etransitivity; [apply react_addresses|apply IH].
Qed.

Lemma skipped_call_in_evm a t ctx : a ∈ skip_zk_vm_addresses ctx → (try_call a t ctx).1.1 = Evm.
Proof.
  intros Ha. unfold try_call. cbn. rewrite (bool_decide_eq_true_2 _ Ha), orb_true_r. by case_match.
Qed.

(** [zkVmSkip] moves exactly the next call or creation into the EVM; the
    request after it runs in the zkSync VM again.  A contract whose creation
    was moved, and was the next creation to end, is called in the EVM from then
    on, whatever happens. *)
Theorem skip_moves_one_request ctx r1 r2 t d i a later b :
  using_zk_vm ctx = true →
  (serve r1 (zkVmSkip ctx)).1 = Evm ∧
  (plain r2 ctx → (serve r2 (serve r1 (zkVmSkip ctx)).2).1 = ZkVm) ∧
  let created := foldl react (zkVmSkip ctx) (Req (CreateRequest t d i) :: CreateEnds (Some a) :: later) in
  (try_call a b created).1.1 = Evm.
Proof.
  intros Hu. split; [|split].
  - destruct r1 as [t1 d1 i1|a1 t1]; cbn; [unfold try_create|unfold try_call]; cbn; by rewrite Hu.
  - assert (Hs : ∃ rec, skip_zk_vm (serve r1 (zkVmSkip ctx)).2 = false ∧
                   using_zk_vm (serve r1 (zkVmSkip ctx)).2 = true ∧
                   skip_zk_vm_addresses (serve r1 (zkVmSkip ctx)).2 = skip_zk_vm_addresses ctx ∧
                   record_next_create_address (serve r1 (zkVmSkip ctx)).2 = rec).
    { destruct r1 as [t1 d1 i1|a1 t1]; cbn; [unfold try_create|unfold try_call]; cbn; rewrite Hu; by eexists. }
    destruct Hs as (rec & Hskip & Huse & Hadd & _). set (c := (serve r1 _).2) in *.
    destruct r2 as [t2 d2 i2|a2 t2]; cbn.
    + intros [-> ->]. unfold try_create. by rewrite Huse, Hskip.
    + intros [-> Ha]. unfold try_call. cbn. rewrite Huse, Hskip, Hadd. cbn.
      by rewrite (bool_decide_eq_false_2 _ Ha).
  - intros created. apply skipped_call_in_evm. unfold created. cbn [foldl].
    apply (run_addresses _ later). cbn [react serve]. unfold try_create. cbn. rewrite Hu. cbn.
    set_solver.
Qed.

(** ** Gas *)

(** The limit on gas of a zkSync transaction never exceeds what the EVM
    transaction proposed nor the limit of the VM, the price is never zero, and
    a payer who can pay the value can pay for the gas as well. *)
Theorem gas_is_affordable `{JournalLaws} `{!ZkLayout} value gas_price gas_limit caller paymaster j :
  in_u 256 value → in_u 256 gas_price → in_u 256 gas_limit →
  let r := (gas_params value gas_price gas_limit caller paymaster j).1 in
  let b := slot_of j L2_BASE_TOKEN_ADDRESS (get_balance_key (if paymaster =? 0 then caller else paymaster)) in
  0 < r.2 ∧ r.1 <= gas_limit ∧ r.1 <= 4294967294 ∧ (value < b → r.1 * r.2 + value <= b).
Proof.
  intros [Hv _] [Hp _] [Hl _] r b. subst r b. unfold gas_params.
  set (payer := if paymaster =? 0 then caller else paymaster).
  destruct (sload _ _ _) as [b j1] eqn:Hs.
  pose proof (sload_value L2_BASE_TOKEN_ADDRESS (get_balance_key payer) (load L2_BASE_TOKEN_ADDRESS j)) as Hb.
  rewrite Hs in Hb. cbn in Hb. rewrite (proj2 (load_same L2_BASE_TOKEN_ADDRESS j)) in Hb. rewrite <-Hb.
  cbn [fst snd]. set (price := if gas_price =? 0 then _ else _).
  assert (Hprice : 0 < price).
  { unfold price, fix_l2_gas_price. destruct (Z.eqb_spec gas_price 0); lia. }
  assert (Hm : MAX_L2_GAS_LIMIT = 4294967294) by reflexivity.
  unfold fix_l2_gas_limit. rewrite Hm. split; [done|]. rewrite (proj2 (Z.eqb_neq price 0)) by lia. cbn [orb].
  destruct (Z.leb_spec b value) as [Hle|Hgt]; [lia|]. unfold u_saturating_sub. rewrite Z.max_r by lia.
  pose proof (Z.mul_div_le (b - value) price Hprice).
  split; [lia|]. split; [lia|]. intros _.
  assert (Z.min (Z.min gas_limit ((b - value) / price)) 4294967294 <= (b - value) / price) by lia. nia.
Qed.

(** ** Concrete runs *)

Module VmExample.
#[local] Existing Instance elements_iter.

(** A journal as three functions. *)
Record Mem := mkMem { mem_info : Z → AccountInfo; mem_slot : Z → Z → Z; mem_original : Z → Z → option Z }.
Definition upd {A} (f : Z → Z → A) (a k : Z) (v : A) : Z → Z → A :=
  λ b k', if decide (b = a ∧ k' = k) then v else f b k'.
#[export] Instance mem_journal : Journal := {|
  J := Mem;
  info_of := mem_info;
  slot_of := mem_slot;
  original_of := mem_original;
  load a j := j;
  sload a k j := (mem_slot j a k,
    mkMem (mem_info j) (mem_slot j)
      (upd (mem_original j) a k (Some (default (mem_slot j a k) (mem_original j a k)))));
  sstore a k v j := mkMem (mem_info j) (upd (mem_slot j) a k v)
    (upd (mem_original j) a k (Some (default (mem_slot j a k) (mem_original j a k))));
  set_info a i j := mkMem (λ b, if decide (b = a) then i else mem_info j b) (mem_slot j) (mem_original j);
  extend_storage a m j := mkMem (mem_info j)
    (λ b k, if decide (b = a) then default (mem_slot j b k) (m !! k) else mem_slot j b k)
    (λ b k, if decide (b = a) then match m !! k with Some v => Some v | None => mem_original j b k end
            else mem_original j b k);
|}.
#[export] Instance mem_laws : JournalLaws.
Proof. by split. Qed.

#[export] Instance layout : ZkLayout := {|
  get_balance_key a := a;
  get_nonce_key a := a;
  get_account_code_key a := a;
  block_info_key := 9;
  nonces_to_full_nonce t d := t + d * 2 ^ 128;
  decompose_full_nonce n := (n mod 2 ^ 128, (n / 2 ^ 128) mod 2 ^ 128);
  pack_block_info n t := n * 2 ^ 64 + t;
  unpack_block_info x := (x / 2 ^ 64, x mod 2 ^ 64);
  hash_bytecode l := zsum id l;
|}.
#[export] Instance layout_laws : ZkLayoutLaws.
Proof.
  split; cbn; [done..| | |].
  - intros t d [Ht0 Ht1] [Hd0 Hd1]. unfold umax in *. rewrite Z.mod_add, Z.div_add, Z.mod_small by lia.
    rewrite (Z.div_small t), Z.add_0_l, Z.mod_small by lia. done.
  - intros n. unfold in_u, umax.
    pose proof (Z.mod_pos_bound n (2 ^ 128)). pose proof (Z.mod_pos_bound (n / 2 ^ 128) (2 ^ 128)). lia.
  - intros n t Hn [Ht0 Ht1]. unfold umax in *.
    rewrite Z.div_add_l, Z.div_small, Z.add_0_r by lia. by rewrite Z.add_comm, Z.mod_add, Z.mod_small by lia.
Qed.

Definition zk_token : DualCompiledContract := mkDual 500 [1; 1] [[1; 1]] 900 [6; 6; 0] (Some [("x"%string, [mkOffsets 2 1])]) [5].
Definition contracts : DualCompiledContracts :=
  mkContracts {[mkInfo "Token" None := zk_token]} [] [].
Definition ctx : ZkContext := mkZkContext false false ∅ false None contracts Defer [] ∅ [].
Definition token : Z := 100.
Definition other : Z := 101.
Definition test : Z := 102.
(** [token] has the code of [Token] with an immutable that is 7. *)
Definition start : J :=
  mkMem (λ a, if decide (a = token) then mkAccount 10 1 77 (Some [6; 6; 7])
              else if decide (a = other) then mkAccount 20 4 78 (Some [3])
              else if decide (a = test) then mkAccount 30 2 79 (Some [6; 6; 9])
              else mkAccount 0 0 0 None)
    (λ _ _, 0) (λ _ _, None).
Definition ecx : Ecx := mkEcx start 1000 2000 test [token; other] (Some test).
Definition back : option (ZkContext * Ecx) :=
  let '(c, e) := select_zk_vm None ctx ecx in select_evm 0 c e.


(** The slots of the system contracts keep what the switch wrote: the base
    token holds the balance of an account that it did not know before. *)
Example system_slots_overwritten :
  slot_of (journaled_state ecx) L2_BASE_TOKEN_ADDRESS (get_balance_key other) = 0 ∧
  (λ p, slot_of (journaled_state p.2) L2_BASE_TOKEN_ADDRESS (get_balance_key other)) <$> back = Some 20.
Proof. vm_compute. split; reflexivity. Qed.

(** The code of a contract comes back with its immutables zeroed. *)
Example immutables_zeroed :
  (λ p, code (info_of (journaled_state p.2) token)) <$> back = Some (Some [6; 6; 0]).
Proof. vm_compute. reflexivity. Qed.
(** The code of an account that no zkSync contract was found for is lost. *)
Example unknown_code_lost :
  (λ p, code (info_of (journaled_state p.2) other)) <$> back = Some None.
Proof. vm_compute. reflexivity. Qed.

(** The deployment nonce is taken from the value the slot had when it was
    loaded: what the run added to it is lost. *)
Definition deployed_once : J :=
  sstore NONCE_HOLDER_ADDRESS token (nonces_to_full_nonce 1 5) (sload NONCE_HOLDER_ADDRESS token start).2.
Example deployments_forgotten :
  (get_full_nonce token deployed_once).1 = (1, 5) ∧
  (get_full_nonce token
     (journaled_state (select_zk_vm None ctx (mkEcx deployed_once 0 0 test [token] None)).2)).1 = (1, 0).
Proof. vm_compute. split; reflexivity. Qed.

(** A plain number as a deployment nonce sets the nonce to zero: the function
    takes the upper half of it. *)
Example plain_deployment_nonce_ignored :
  (get_full_nonce token (set_deployment_nonce token 7 deployed_once)).1 = (1, 0).
Proof. vm_compute. reflexivity. Qed.

Lemma nonces_separate_witness :
  (get_full_nonce token (set_tx_nonce token 9 deployed_once)).1 = (9, 5) ∧
  (get_full_nonce token deployed_once).1.1 < umax 128.
Proof.
  assert (Hm : (get_full_nonce token deployed_once).1.1 < umax 128) by (vm_compute; reflexivity).
  split; [|exact Hm]. destruct (nonces_separate token 9 deployed_once token Hm) as [H1 _].
  rewrite H1. vm_compute. reflexivity.
Defined.

Definition zk_ctx : ZkContext := set_using true ctx.
Lemma skip_moves_one_request_witness :
  (serve (CallRequest other false) (serve (CreateRequest false false false) (zkVmSkip zk_ctx)).2).1 = ZkVm ∧
  (try_call token false
     (foldl react (zkVmSkip zk_ctx) [Req (CreateRequest false false false); CreateEnds (Some token)])).1.1 = Evm.
Proof.
  destruct (skip_moves_one_request zk_ctx (CreateRequest false false false) (CallRequest other false)
    false false false token [] false eq_refl) as (_ & H2 & H3).
  split; [|exact H3]. apply H2. split; [reflexivity|]. apply not_elem_of_empty.
Defined.

(** When the skipped creation creates another contract, the address of the inner
    contract is recorded in place of its own: calls of the outer contract go to
    the zkSync VM, and those of the inner one, which was created there, to the
    EVM. *)
Definition nested_creation : ZkContext :=
  foldl react (zkVmSkip zk_ctx)
    [Req (CreateRequest false false false); Req (CreateRequest false false false);
     CreateEnds (Some other); CreateEnds (Some token)].
Example inner_creation_recorded :
  (try_call token false nested_creation).1.1 = ZkVm ∧ (try_call other false nested_creation).1.1 = Evm.
Proof. vm_compute. split; reflexivity. Qed.

Lemma gas_is_affordable_witness :
  (gas_params 100 10 1000000 token 0 (sstore L2_BASE_TOKEN_ADDRESS token 1100 start)).1 = (100, 10) ∧
  100 * 10 + 100 <= 1100.
Proof.
  split; [vm_compute; reflexivity|].
  destruct (gas_is_affordable 100 10 1000000 token 0 (sstore L2_BASE_TOKEN_ADDRESS token 1100 start))
    as (_ & _ & _ & H); [split; discriminate..|].
  apply H. vm_compute. reflexivity.
Defined.
End VmExample.
