(* ===== verification/ValueTrees.v ===== *)
(** * Fuzzed integers: generation and shrinking

    Models [crates/evm/fuzz/src/strategies/uint.rs] and [int.rs]: the value
    trees that proptest shrinks, and the strategies that make them.  What the
    random generator draws is an argument.  256-bit arithmetic wraps. *)
From S2P Require Import Prelude.
Local Open Scope Z_scope.

(** proptest's [ValueTree]. *)
Class ValueTree (T : Type) := {
  current : T → Z;
  simplify : T → bool * T;
  complicate : T → bool * T;
}.

(** ** Unsigned integers *)

Record UintValueTree := mkUint { u_lo : Z; u_curr : Z; u_hi : Z; u_fixed : bool }.

Definition UintValueTree_new (start : Z) (fixed : bool) : UintValueTree := mkUint 0 start start fixed.

Definition uint_reposition (t : UintValueTree) : bool * UintValueTree :=
  let interval := wrap 256 (u_hi t - u_lo t) in
  let new_mid := wrap 256 (u_lo t + interval / 2) in
  if new_mid =? u_curr t then (false, t) else (true, mkUint (u_lo t) new_mid (u_hi t) (u_fixed t)).

Definition uint_simplify (t : UintValueTree) : bool * UintValueTree :=
  if u_fixed t || (u_hi t <=? u_lo t) then (false, t)
  else uint_reposition (mkUint (u_lo t) (u_curr t) (u_curr t) (u_fixed t)).

Definition uint_complicate (t : UintValueTree) : bool * UintValueTree :=
  if u_fixed t || (u_hi t <=? u_lo t) then (false, t)
  else uint_reposition (mkUint (wrap 256 (u_curr t + 1)) (u_curr t) (u_hi t) (u_fixed t)).

#[export] Instance uint_value_tree : ValueTree UintValueTree := {
  current := u_curr;
  simplify := uint_simplify;
  complicate := uint_complicate;
}.

(** ** Signed integers *)

Record IntValueTree := mkInt { i_lo : Z; i_curr : Z; i_hi : Z; i_fixed : bool }.

Definition IntValueTree_new (start : Z) (fixed : bool) : IntValueTree := mkInt 0 start start fixed.

Definition int_reposition (t : IntValueTree) : bool * IntValueTree :=
  let interval := swrap 256 (i_hi t - i_lo t) in
  let new_mid := swrap 256 (i_lo t + Z.quot interval 2) in
  if new_mid =? i_curr t then (false, t) else (true, mkInt (i_lo t) new_mid (i_hi t) (i_fixed t)).

Definition magnitude_greater (lhs rhs : Z) : bool :=
  if lhs =? 0 then false else xorb (rhs <? lhs) (lhs <? 0).

Definition int_simplify (t : IntValueTree) : bool * IntValueTree :=
  if i_fixed t || negb (magnitude_greater (i_hi t) (i_lo t)) then (false, t)
  else int_reposition (mkInt (i_lo t) (i_curr t) (i_curr t) (i_fixed t)).

Definition int_complicate (t : IntValueTree) : bool * IntValueTree :=
  if i_fixed t || negb (magnitude_greater (i_hi t) (i_lo t)) then (false, t)
  else
    let lo :=
      if negb (i_curr t =? imin 256) && negb (i_curr t =? imax 256) then
        swrap 256 (i_curr t + if i_hi t <? 0 then -1 else 1)
      else i_curr t in
    int_reposition (mkInt lo (i_curr t) (i_hi t) (i_fixed t)).

#[export] Instance int_value_tree : ValueTree IntValueTree := {
  current := i_curr;
  simplify := int_simplify;
  complicate := int_complicate;
}.

(** ** Strategies *)

(** The fixtures that matter are those of an integer type. *)
Inductive DynSolValue :=
| Uint (value bits : Z)
| Int (value bits : Z)
| OtherValue.

(** What one [new_tree] draws, in the ranges it asks for. *)
Record Draws := mkDraws {
  bias : Z;
  is_min : bool;
  kind : Z;
  offset : Z;
  fixture_index : nat;
  draw_bits : Z;
  higher : Z;
  lower : Z;
  positive : bool;
}.

(** The two 128-bit draws, cut to [x] bits, as one 256-bit number. *)
Definition cut (x higher lower : Z) : Z :=
  let '(higher, lower) :=
    if x <? 128 then (0, Z.land lower (Z.shiftl 1 x - 1))
    else if x <? 256 then (Z.land higher (Z.shiftl 1 (x - 128) - 1), lower)
    else (higher, lower) in
  (* four 64-bit limbs *)
  wrap 64 lower + 2 ^ 64 * wrap 64 (Z.shiftr lower 64) +
  2 ^ 128 * wrap 64 higher + 2 ^ 192 * wrap 64 (Z.shiftr higher 64).

Record Weights := mkWeights { edge_weight : Z; fixtures_weight : Z; random_weight : Z }.
Definition default_weights : Weights := mkWeights 10 40 50.

Record UintStrategy := mkUintStrategy {
  us_bits : Z;
  us_fixtures : list DynSolValue;
  us_weights : Weights;
}.

Definition UintStrategy_new (bits : Z) (fixtures : option (list DynSolValue)) : UintStrategy :=
  mkUintStrategy bits (default [] fixtures) default_weights.

Definition type_max (s : UintStrategy) : Z :=
  if us_bits s <? 256 then wrap 256 (wrap 256 (Z.shiftl 1 (us_bits s)) - 1) else umax 256.

Definition uint_edge_tree (s : UintStrategy) (d : Draws) : UintValueTree :=
  UintValueTree_new (if is_min d then offset d else u_saturating_sub (type_max s) (offset d)) false.

Definition uint_random_tree (s : UintStrategy) (d : Draws) : UintValueTree :=
  UintValueTree_new (cut (draw_bits d) (higher d) (lower d)) false.

Definition uint_fixtures_tree (s : UintStrategy) (d : Draws) : UintValueTree :=
  match us_fixtures s with
  | [] => uint_random_tree s d
  | fixtures =>
      match fixtures !! fixture_index d with
      | Some (Uint v bits) =>
          if bits =? us_bits s then UintValueTree_new v false else uint_random_tree s d
      | _ => uint_random_tree s d
      end
  end.

Definition uint_new_tree (s : UintStrategy) (d : Draws) : UintValueTree :=
  if bias d <? edge_weight (us_weights s) then uint_edge_tree s d
  else if bias d <? edge_weight (us_weights s) + fixtures_weight (us_weights s) then
    uint_fixtures_tree s d
  else uint_random_tree s d.

Record IntStrategy := mkIntStrategy {
  is_bits : Z;
  is_fixtures : list DynSolValue;
  is_weights : Weights;
}.

Definition IntStrategy_new (bits : Z) (fixtures : option (list DynSolValue)) : IntStrategy :=
  mkIntStrategy bits (default [] fixtures) default_weights.

(** [I256::overflowing_from_sign_and_abs(sign, abs).0] *)
Definition from_sign_and_abs (positive : bool) (abs : Z) : Z :=
  if positive then swrap 256 abs else swrap 256 (- swrap 256 abs).

Definition int_edge_tree (s : IntStrategy) (d : Draws) : IntValueTree :=
  let umax := wrap 256 (wrap 256 (Z.shiftl 1 (is_bits s - 1)) - 1) in
  let start :=
    if kind d =? 0 then swrap 256 (from_sign_and_abs false (wrap 256 (umax + 1)) + offset d)
    else if kind d =? 1 then swrap 256 (swrap 256 (- offset d) - 1)
    else if kind d =? 2 then offset d
    else swrap 256 (from_sign_and_abs true umax - offset d) in
  IntValueTree_new start false.

Definition int_random_tree (s : IntStrategy) (d : Draws) : IntValueTree :=
  if draw_bits d =? 0 then IntValueTree_new 0 false
  else
    let start := from_sign_and_abs (positive d) (cut (draw_bits d - 1) (higher d) (lower d)) in
    IntValueTree_new start false.

Definition int_fixtures_tree (s : IntStrategy) (d : Draws) : IntValueTree :=
  match is_fixtures s with
  | [] => int_random_tree s d
  | fixtures =>
      match fixtures !! fixture_index d with
      | Some (Int v bits) =>
          if bits =? is_bits s then IntValueTree_new v false else int_random_tree s d
      | _ => int_random_tree s d
      end
  end.

Definition int_new_tree (s : IntStrategy) (d : Draws) : IntValueTree :=
  if bias d <? edge_weight (is_weights s) then int_edge_tree s d
  else if bias d <? edge_weight (is_weights s) + fixtures_weight (is_weights s) then
    int_fixtures_tree s d
  else int_random_tree s d.

(** ** Shrinking

    How a value tree is meant to be driven: simplified while its value fails
    the test and complicated while it passes, until it says that it cannot
    move; the answer is the last value that failed. *)
Fixpoint search `{ValueTree T} (fuel : nat) (fails : Z → bool) (t : T) (best : option Z)
    : option (option Z) :=
  match fuel with
  | O => None
  | S fuel =>
      let v := current t in
      if fails v then
        let '(moved, t) := simplify t in
        if moved then search fuel fails t (Some v) else Some (Some v)
      else
        let '(moved, t) := complicate t in
        if moved then search fuel fails t best else Some best
  end.

(** What makes a value tree a bisection: in magnitude, it keeps an interval
    [l..h] with its value [c] in the middle. *)
Class Bisection (T : Type) `{ValueTree T} := {
  view : T → Z → Z → Z → Z → Prop;      (* sign, lower, current, higher *)
  view_current t s l c h : view t s l c h → current t = s * c;
  view_bounds t s l c h : view t s l c h → 0 <= l <= c /\ c = l + (h - l) / 2;
  view_simplify t s l c h : view t s l c h →
    if l =? c then (simplify t).1 = false
    else ∃ t', simplify t = (true, t') ∧ view t' s l (l + (c - l) / 2) c;
  view_complicate t s l c h : view t s l c h → c < h →
    ∃ t', complicate t = (true, t') ∧ view t' s (c + 1) (c + 1 + (h - (c + 1)) / 2) h;
}.

(** Linear arithmetic with halves. *)
Local Ltac div_lia := Z.to_euclidean_division_equations; lia.

Section bisection.
Context `{Bisection T} (fails : Z → bool) (s threshold : Z).

Lemma search_from_view n t l c h best :
  view t s l c h → h - l < 2 ^ Z.of_nat n → l <= threshold <= h →
  (∀ x, 0 <= x <= h → fails (s * x) = (threshold <=? x)) → best = Some (s * h) →
  search (S n) fails t best = Some (Some (s * threshold)).
Proof.
  revert t l c h best. induction n as [|n IH]; intros t l c h best Hv Hn Hthr Hfails Hbest;
    destruct (view_bounds _ _ _ _ _ Hv) as [Hl Hc]; cbn [search];
    rewrite (view_current _ _ _ _ _ Hv), Hfails by div_lia.
  - assert (l = h) as -> by (simpl in Hn; div_lia). assert (c = threshold) as -> by div_lia.
    rewrite Z.leb_refl. pose proof (view_simplify _ _ _ _ _ Hv) as Hs.
    rewrite (proj2 (Z.eqb_eq h threshold)) in Hs by div_lia. destruct (simplify t) as [b t'].
    simpl in Hs. by subst b.
  - rewrite Nat2Z.inj_succ, Z.pow_succ_r in Hn by div_lia.
    destruct (Z.leb_spec threshold c).
    + pose proof (view_simplify _ _ _ _ _ Hv) as Hs. destruct (Z.eqb_spec l c).
      * destruct (simplify t) as [b t']. simpl in Hs. subst b.
        by assert (c = threshold) as -> by div_lia.
      * destruct Hs as (t' & -> & Hv'). apply (IH t' l (l + (c - l) / 2) c); [done|div_lia|div_lia| |done].
        intros x ?. apply Hfails. div_lia.
    + destruct (view_complicate _ _ _ _ _ Hv) as (t' & -> & Hv'); [div_lia|].
      apply (IH t' (c + 1) (c + 1 + (h - (c + 1)) / 2) h); [done|div_lia|div_lia|done|done].
Qed.
End bisection.

(** ** The trees are bisections *)

Section laws.
Definition uint_view (t : UintValueTree) (s l c h : Z) : Prop :=
  s = 1 ∧ t = mkUint l c h false ∧ 0 <= l ∧ l <= h ∧ in_u 256 h ∧ c = l + (h - l) / 2.

Lemma uint_mid l h c f :
  0 <= l → l <= h → in_u 256 h →
  uint_reposition (mkUint l c h f) =
    if l + (h - l) / 2 =? c then (false, mkUint l c h f)
    else (true, mkUint l (l + (h - l) / 2) h f).
Proof.
  intros Hl Hlh Hh. unfold uint_reposition. cbn [u_lo u_hi u_curr u_fixed].
  rewrite (wrap_id 256 (h - l)) by (unfold in_u in *; div_lia).
  by rewrite wrap_id by (unfold in_u in *; div_lia).
Qed.

#[export] Program Instance uint_bisection : Bisection UintValueTree := {| view := uint_view |}.
Next Obligation. intros t s l c h (-> & -> & _). cbn [current uint_value_tree u_curr]. div_lia. Qed.
Next Obligation. intros t s l c h (-> & -> & ? & ? & ? & Hc). cbn beta. div_lia. Qed.
Next Obligation.
  intros t s l c h (-> & -> & Hl & Hlh & Hh & Hc). cbn [simplify uint_value_tree].
  unfold uint_simplify. cbn [u_fixed u_hi u_lo u_curr orb].
  assert (Hc' : in_u 256 c) by (unfold in_u in *; div_lia).
  destruct (Z.leb_spec h l).
  - by rewrite (proj2 (Z.eqb_eq l c)) by div_lia.
  - rewrite uint_mid by (done || div_lia). destruct (Z.eqb_spec l c).
    + by rewrite (proj2 (Z.eqb_eq _ _)) by div_lia.
    + rewrite (proj2 (Z.eqb_neq _ _)) by div_lia. eexists. split; [done|]. unfold in_u in *. repeat split; done || div_lia.
Qed.
Next Obligation.
  intros t s l c h (-> & -> & Hl & Hlh & Hh & Hc) Hlt. cbn [complicate uint_value_tree].
  unfold uint_complicate. cbn [u_fixed u_hi u_lo u_curr orb].
  rewrite (proj2 (Z.leb_gt _ _)) by div_lia.
  rewrite (wrap_id 256 (c + 1)) by (unfold in_u in *; div_lia).
  rewrite uint_mid by (done || div_lia). rewrite (proj2 (Z.eqb_neq _ _)) by div_lia.
  eexists. split; [done|]. unfold in_u in *. repeat split; done || div_lia.
Qed.

(** The signed tree, with magnitudes [l], [c], [h] and the sign [s]. *)
Definition int_view (t : IntValueTree) (s l c h : Z) : Prop :=
  (s = 1 ∨ s = -1) ∧ t = mkInt (s * l) (s * c) (s * h) false ∧ 0 <= l ∧ l <= h ∧
  in_i 256 (s * h) ∧ c = l + (h - l) / 2.

Lemma swrap_id x : in_i 256 x → swrap 256 x = x.
Proof.
  unfold in_i, swrap, imin, imax. intros Hx.
  assert (Hp : 2 ^ 256 = 2 * 2 ^ (256 - 1)) by reflexivity.
  pose proof (Z.pow_pos_nonneg 2 (256 - 1)) as Hpos.
  destruct (Z.le_gt_cases 0 x).
  - rewrite Z.mod_small by lia. by rewrite (proj2 (Z.leb_le _ _)) by lia.
  - assert (x mod 2 ^ 256 = x + 2 ^ 256) as ->.
    { rewrite <-(Z.mod_add x 1) by lia. rewrite Z.mod_small; lia. }
    rewrite (proj2 (Z.leb_gt _ _)); lia.
Qed.

Lemma in_i_between s x y : s = 1 ∨ s = -1 → 0 <= x <= y → in_i 256 (s * y) → in_i 256 (s * x).
Proof.
  unfold in_i, imin, imax. pose proof (Z.pow_pos_nonneg 2 (256 - 1)).
  intros [->| ->] ? ?; lia.
Qed.

Lemma int_mid s l h c f :
  s = 1 ∨ s = -1 → 0 <= l → l <= h → in_i 256 (s * h) →
  int_reposition (mkInt (s * l) (s * c) (s * h) f) =
    if l + (h - l) / 2 =? c then (false, mkInt (s * l) (s * c) (s * h) f)
    else (true, mkInt (s * l) (s * (l + (h - l) / 2)) (s * h) f).
Proof.
  intros Hs Hl Hlh Hh. unfold int_reposition. cbn [i_lo i_hi i_curr i_fixed].
  replace (s * h - s * l) with (s * (h - l)) by lia.
  rewrite (swrap_id (s * (h - l))) by (apply (in_i_between s _ h); [done|lia|done]).
  assert (Z.quot (s * (h - l)) 2 = s * ((h - l) / 2)) as ->.
  { destruct Hs as [->| ->].
    - by rewrite !Z.mul_1_l, Z.quot_div_nonneg by lia.
    - replace (-1 * (h - l)) with (- (h - l)) by lia.
      rewrite Z.quot_opp_l, Z.quot_div_nonneg by lia. lia. }
  rewrite <-Z.mul_add_distr_l.
  rewrite swrap_id by (apply (in_i_between s _ h); [done|div_lia|done]).
  destruct (Z.eqb_spec (l + (h - l) / 2) c) as [->|Hne]; [by rewrite Z.eqb_refl|].
  rewrite (proj2 (Z.eqb_neq _ _)); [done|]. destruct Hs as [->| ->]; lia.
Qed.

Lemma magnitude_greater_view s l h :
  s = 1 ∨ s = -1 → 0 <= l → l < h → magnitude_greater (s * h) (s * l) = true.
Proof.
  intros Hs Hl Hlh. unfold magnitude_greater. rewrite (proj2 (Z.eqb_neq _ _)) by lia.
  destruct Hs as [->| ->].
  - rewrite (proj2 (Z.ltb_lt _ _)), (proj2 (Z.ltb_ge _ _)) by lia. done.
  - rewrite (proj2 (Z.ltb_ge _ _)), (proj2 (Z.ltb_lt _ _)) by lia. done.
Qed.

#[export] Program Instance int_bisection : Bisection IntValueTree := {| view := int_view |}.
Next Obligation. intros t s l c h (_ & -> & _). done. Qed.
Next Obligation. intros t s l c h (_ & -> & ? & ? & ? & Hc). cbn beta. div_lia. Qed.
Next Obligation.
  intros t s l c h (Hs & -> & Hl & Hlh & Hh & Hc). cbn [simplify int_value_tree].
  unfold int_simplify. cbn [i_fixed i_hi i_lo i_curr orb].
  assert (Hc' : in_i 256 (s * c)) by (apply (in_i_between s _ h); [done|div_lia|done]).
  destruct (Z.eqb_spec l c) as [Hlc|Hlc].
  - destruct (negb _); [done|]. rewrite int_mid by (done || div_lia).
    by rewrite (proj2 (Z.eqb_eq _ _)) by div_lia.
  - rewrite magnitude_greater_view by (done || div_lia). cbn [negb].
    rewrite int_mid by (done || div_lia). rewrite (proj2 (Z.eqb_neq _ _)) by div_lia.
    eexists. split; [done|]. unfold int_view. do 2 (split; [done|]). split; [div_lia|]. split; [div_lia|].
    done.
Qed.
Next Obligation.
  intros t s l c h (Hs & -> & Hl & Hlh & Hh & Hc) Hlt. cbn [complicate int_value_tree].
  unfold int_complicate. cbn [i_fixed i_hi i_lo i_curr orb].
  rewrite magnitude_greater_view by (done || div_lia). cbn [negb].
  assert (Hlo : (if negb (s * c =? imin 256) && negb (s * c =? imax 256)
    then swrap 256 (s * c + (if s * h <? 0 then -1 else 1)) else s * c) = s * (c + 1)).
  { assert (s * c ≠ imin 256 ∧ s * c ≠ imax 256) as [H1 H2].
    { unfold in_i, imin, imax in *. pose proof (Z.pow_pos_nonneg 2 (256 - 1)).
      destruct Hs as [->| ->]; div_lia. }
    rewrite (proj2 (Z.eqb_neq _ _) H1), (proj2 (Z.eqb_neq _ _) H2). cbn [negb andb].
    assert ((if s * h <? 0 then -1 else 1) = s) as ->.
    { destruct Hs as [->| ->].
      - by rewrite (proj2 (Z.ltb_ge _ _)) by div_lia.
      - by rewrite (proj2 (Z.ltb_lt _ _)) by div_lia. }
    replace (s * c + s) with (s * (c + 1)) by lia.
    apply swrap_id. apply (in_i_between s _ h); [done|div_lia|done]. }
  rewrite Hlo, int_mid by (done || div_lia). rewrite (proj2 (Z.eqb_neq _ _)) by div_lia.
  eexists. split; [done|]. unfold int_view. do 2 (split; [done|]). split; [div_lia|]. split; [div_lia|].
  done.
Qed.
End laws.

(** Started at a value that fails, the search ends, at the threshold. *)
Lemma search_from_start `{Bisection T} (fails : Z → bool) (t : T) n s h threshold :
  current t = s * h → 0 <= threshold <= h → h < 2 ^ Z.of_nat n →
  (if h =? 0 then (simplify t).1 = false
   else ∃ t', simplify t = (true, t') ∧ view t' s 0 (0 + (h - 0) / 2) h) →
  (∀ x, 0 <= x <= h → fails (s * x) = (threshold <=? x)) →
  search (S (S n)) fails t None = Some (Some (s * threshold)).
Proof.
  intros Hcur Hthr Hh Hs Hfails. remember (S n) as m eqn:Hm. cbn [search]. subst m.
  rewrite Hcur, Hfails, (proj2 (Z.leb_le _ _)) by lia.
  destruct (Z.eqb_spec h 0) as [->|Hne].
  - destruct (simplify t) as [b t']. simpl in Hs. subst b. by assert (threshold = 0) as -> by lia.
  - destruct Hs as (t' & -> & Hv).
    apply (search_from_view fails s threshold n t' 0 (0 + (h - 0) / 2) h); [done|lia|lia|done|done].
Qed.

(** Shrinking an unsigned integer that fails a test which fails from a
    threshold on finds exactly the threshold, in at most 258 moves. *)
Theorem uint_shrinks_to_threshold fails start threshold :
  in_u 256 start → 0 <= threshold <= start →
  (∀ x, 0 <= x <= start → fails x = (threshold <=? x)) →
  search 258 fails (UintValueTree_new start false) None = Some (Some threshold).
Proof.
  intros Hs Hthr Hfails. rewrite <-(Z.mul_1_l threshold).
  apply (search_from_start fails _ 256 1 start); [unfold current; simpl; lia|done| | |].
  - change (Z.of_nat 256) with 256. unfold in_u, umax in Hs. lia.
  - cbn [simplify uint_value_tree]. unfold uint_simplify, UintValueTree_new.
    cbn [u_fixed u_hi u_lo u_curr orb]. destruct (Z.eqb_spec start 0) as [->|Hne]; [done|].
    rewrite (proj2 (Z.leb_gt _ _)) by (unfold in_u in Hs; lia).
    rewrite uint_mid by (done || lia). rewrite (proj2 (Z.eqb_neq _ _)) by div_lia.
    eexists. split; [done|]. unfold in_u in *. repeat split; done || div_lia.
  - intros x ?. rewrite Z.mul_1_l. by apply Hfails.
Qed.

Lemma uint_shrinks_to_threshold_witness :
  search 258 (λ x, 1000 <=? x) (UintValueTree_new (2 ^ 255) false) None = Some (Some 1000).
Proof.
  apply (uint_shrinks_to_threshold (λ x, 1000 <=? x) (2 ^ 255) 1000).
  - by vm_compute.
  - by vm_compute.
  - done.
Defined.

(** Shrinking a signed integer that fails a test which fails from a
    threshold on, away from zero, finds exactly the threshold. *)
Theorem int_shrinks_to_threshold fails start threshold :
  in_i 256 start → 0 <= threshold <= Z.abs start →
  let s := if start <? 0 then -1 else 1 in
  (∀ x, 0 <= x <= Z.abs start → fails (s * x) = (threshold <=? x)) →
  search 258 fails (IntValueTree_new start false) None = Some (Some (s * threshold)).
Proof.
  intros Hi Hthr s Hfails.
  assert (Hs : s = 1 ∨ s = -1) by (unfold s; destruct (start <? 0); auto).
  assert (Hst : start = s * Z.abs start) by (unfold s; destruct (Z.ltb_spec start 0); lia).
  assert (Hb : Z.abs start < 2 ^ Z.of_nat 256).
  { change (Z.of_nat 256) with 256. unfold in_i, imin, imax in Hi.
    assert (2 ^ 256 = 2 * 2 ^ (256 - 1)) by reflexivity. lia. }
  assert (Hh : 0 <= Z.abs start) by lia.
  clearbody s. revert Hi Hthr Hfails Hst Hb Hh. generalize (Z.abs start) as h.
  intros h Hi Hthr Hfails -> Hb Hh.
  apply (search_from_start fails _ 256 s h); [done|done|done| |done].
  cbn [simplify int_value_tree]. unfold int_simplify, IntValueTree_new.
  cbn [i_fixed i_hi i_lo i_curr orb]. destruct (Z.eqb_spec h 0) as [->|Hne]; [by rewrite Z.mul_0_r|].
  pose proof (magnitude_greater_view s 0 h Hs) as Hm. pose proof (int_mid s 0 h h false Hs) as Hmid.
  rewrite Z.mul_0_r in Hm, Hmid. rewrite Hm by lia. cbn [negb].
  rewrite Hmid by (done || lia). rewrite (proj2 (Z.eqb_neq _ _)) by div_lia.
  eexists. split; [done|]. unfold view, int_bisection, int_view.
  rewrite Z.mul_0_r. split; [done|]. split; [done|]. split; [lia|]. split; [lia|]. done.
Qed.

Lemma int_shrinks_to_threshold_witness :
  search 258 (λ x, x <=? -1000) (IntValueTree_new (imin 256) false) None = Some (Some (-1 * 1000)).
Proof.
  apply (int_shrinks_to_threshold (λ x, x <=? -1000) (imin 256) 1000).
  - by vm_compute.
  - by vm_compute.
  - intros x _. change (imin 256 <? 0) with true. cbv iota.
    destruct (Z.leb_spec (-1 * x) (-1000)), (Z.leb_spec 1000 x); lia.
Defined.

(** ** The values generated *)

Section generated.

(** What is drawn is in the ranges asked for. *)
Record drawn (bits : Z) (d : Draws) : Prop := {
  drawn_kind : 0 <= kind d < 4;
  drawn_offset : 0 <= offset d < 4;
  drawn_bits : 0 <= draw_bits d <= bits;
  drawn_higher : in_u 128 (higher d);
  drawn_lower : in_u 128 (lower d);
}.

Lemma limbs x : in_u 128 x → wrap 64 x + 2 ^ 64 * wrap 64 (Z.shiftr x 64) = x.
Proof.
  unfold in_u, umax, wrap. intros Hx. rewrite Z.shiftr_div_pow2 by lia.
  rewrite (Z.mod_small (x / 2 ^ 64)).
  - pose proof (Z.div_mod x (2 ^ 64)). lia.
  - split; [apply Z.div_pos; lia|]. apply Z.div_lt_upper_bound; [lia|].
    change (2 ^ 64 * 2 ^ 64) with (2 ^ 128). lia.
Qed.

Lemma mask_range x n : 0 <= n → 0 <= x → 0 <= Z.land x (Z.shiftl 1 n - 1) < 2 ^ n.
Proof.
  intros Hn Hx. rewrite Z.shiftl_1_l. replace (2 ^ n - 1) with (Z.ones n).
  - rewrite Z.land_ones by lia. apply Z.mod_pos_bound. lia.
  - rewrite Z.ones_equiv. lia.
Qed.

Lemma pow_le_128 n : 0 <= n <= 128 → 2 ^ n <= 2 ^ 128.
Proof. intros. apply Z.pow_le_mono_r; lia. Qed.

Lemma cut_range x h l :
  0 <= x <= 256 → in_u 128 h → in_u 128 l → 0 <= cut x h l < 2 ^ x.
Proof.
  intros Hx Hh Hl. unfold cut.
  assert (Hz : wrap 64 0 = 0 ∧ wrap 64 (Z.shiftr 0 64) = 0) by done.
  destruct (Z.ltb_spec x 128); [|destruct (Z.ltb_spec x 256)].
  - pose proof (mask_range l x). pose proof (pow_le_128 x). destruct Hz as [-> ->].
    assert (in_u 128 (Z.land l (Z.shiftl 1 x - 1))) as Hm by (unfold in_u, umax in *; lia).
    rewrite (limbs _ Hm). unfold in_u in *. lia.
  - pose proof (mask_range h (x - 128)). pose proof (pow_le_128 (x - 128)).
    set (m := Z.land h _) in *. assert (in_u 128 m) as Hm by (unfold in_u, umax in *; lia).
    pose proof (limbs _ Hm). pose proof (limbs _ Hl).
    assert (2 ^ x = 2 ^ (x - 128) * 2 ^ 128) by (rewrite <-Z.pow_add_r by lia; f_equal; lia).
    change (2 ^ 192) with (2 ^ 128 * 2 ^ 64). unfold in_u, umax in *. nia.
  - assert (x = 256) as -> by lia. pose proof (limbs _ Hh). pose proof (limbs _ Hl).
    change (2 ^ 192) with (2 ^ 128 * 2 ^ 64). change (2 ^ 256) with (2 ^ 128 * 2 ^ 128).
    unfold in_u, umax in *. nia.
Qed.

Lemma pow_bounds bits : 8 <= bits <= 256 → 256 <= 2 ^ bits <= 2 ^ 256.
Proof.
  intros. change 256 with (2 ^ 8) at 1. split; apply Z.pow_le_mono_r; lia.
Qed.

Lemma type_max_eq s : 8 <= us_bits s <= 256 → type_max s = umax (us_bits s).
Proof.
  intros Hb. pose proof (pow_bounds _ Hb). unfold type_max. destruct (Z.ltb_spec (us_bits s) 256).
  - rewrite Z.shiftl_1_l. assert (2 ^ us_bits s < 2 ^ 256) by (apply Z.pow_lt_mono_r; lia).
    rewrite (wrap_id 256 (2 ^ us_bits s)) by (unfold in_u, umax; lia).
    rewrite wrap_id by (unfold in_u, umax; lia). done.
  - by assert (us_bits s = 256) as -> by lia.
Qed.

(** Every unsigned integer that a strategy generates, whichever way is
    drawn, is a value of its type. *)
Theorem uint_generated_in_type s d :
  8 <= us_bits s <= 256 → drawn (us_bits s) d →
  Forall (λ f, match f with Uint v bits => in_u bits v | _ => True end) (us_fixtures s) →
  in_u (us_bits s) (current (uint_new_tree s d)).
Proof.
  intros Hb Hd Hf.
  assert (Hr : in_u (us_bits s) (current (uint_random_tree s d))).
  { destruct Hd as [_ _ Hdb Hh Hl]. cbn. pose proof (cut_range (draw_bits d) _ _ ltac:(lia) Hh Hl).
    assert (2 ^ draw_bits d <= 2 ^ us_bits s) by (apply Z.pow_le_mono_r; lia).
    unfold in_u, umax. lia. }
  unfold uint_new_tree. repeat case_match; [|  |done].
  - unfold uint_edge_tree. cbn. rewrite type_max_eq by done. pose proof (pow_bounds _ Hb).
    destruct Hd as [_ Ho _ _ _]. unfold in_u, umax, u_saturating_sub. destruct (is_min d); lia.
  - unfold uint_fixtures_tree. destruct (us_fixtures s) as [|f fs]; [done|].
    destruct ((f :: fs) !! fixture_index d) as [[v bits|v bits|]|] eqn:Hl; try done.
    destruct (Z.eqb_spec bits (us_bits s)) as [<-|]; [|done]. cbn.
    rewrite Forall_lookup in Hf. apply (Hf _ _ Hl).
Qed.

Lemma swrap_256_id x : in_i 256 x → swrap 256 x = x.
Proof. apply swrap_id. Qed.

Lemma from_sign_and_abs_id positive x :
  0 <= x <= imax 256 → from_sign_and_abs positive x = if positive then x else - x.
Proof.
  intros Hx. unfold from_sign_and_abs.
  assert (in_i 256 x ∧ in_i 256 (- x)) as [H1 H2] by (unfold in_i, imin, imax in *; lia).
  by rewrite !(swrap_256_id x H1), (swrap_256_id _ H2).
Qed.

Lemma from_sign_min bits :
  8 <= bits <= 256 → from_sign_and_abs false (2 ^ (bits - 1)) = - 2 ^ (bits - 1).
Proof.
  intros Hb. destruct (Z.eq_dec bits 256) as [->|Hne]; [by vm_compute|].
  rewrite from_sign_and_abs_id; [done|]. unfold imax.
  assert (2 ^ (bits - 1) < 2 ^ (256 - 1)) by (apply Z.pow_lt_mono_r; lia).
  pose proof (Z.pow_pos_nonneg 2 (bits - 1)). lia.
Qed.

Lemma int_pow_bounds bits : 8 <= bits <= 256 → 128 <= 2 ^ (bits - 1) <= 2 ^ (256 - 1).
Proof.
  intros. change 128 with (2 ^ 7). split; apply Z.pow_le_mono_r; lia.
Qed.

Lemma int_edge_in_type s d :
  8 <= is_bits s <= 256 → 0 <= offset d < 4 → in_i (is_bits s) (current (int_edge_tree s d)).
Proof.
  intros Hb Ho. pose proof (int_pow_bounds _ Hb) as Hp. unfold int_edge_tree. cbn [current int_value_tree].
  unfold IntValueTree_new. cbn [i_curr]. rewrite Z.shiftl_1_l.
  assert (H255 : 2 ^ 256 = 2 * 2 ^ (256 - 1)) by reflexivity.
  set (h := 2 ^ (is_bits s - 1)) in *.
  assert (Hh : in_u 256 h ∧ in_u 256 (h - 1)) by (unfold in_u, umax; lia).
  rewrite (wrap_id 256 h) by (lia || apply Hh). rewrite (wrap_id 256 (h - 1)) by (lia || apply Hh).
  replace (h - 1 + 1) with h by lia. rewrite (wrap_id 256 h) by (lia || apply Hh).
  unfold h at 1. rewrite from_sign_min by done. fold h.
  rewrite (from_sign_and_abs_id true) by (unfold imax; lia).
  assert (Hi : ∀ x, - h <= x <= h - 1 → in_i 256 x ∧ in_i (is_bits s) x).
  { intros x ?. unfold in_i, imin, imax. fold h. lia. }
  destruct (kind d =? 0); [|destruct (kind d =? 1); [|destruct (kind d =? 2)]].
  - rewrite swrap_256_id by (apply Hi; lia). apply Hi. lia.
  - rewrite (swrap_256_id (- offset d)) by (apply Hi; lia).
    rewrite swrap_256_id by (apply Hi; lia). apply Hi. lia.
  - apply Hi. lia.
  - rewrite swrap_256_id by (apply Hi; lia). apply Hi. lia.
Qed.

Lemma int_random_in_type s d :
  8 <= is_bits s <= 256 → drawn (is_bits s) d → in_i (is_bits s) (current (int_random_tree s d)).
Proof.
  intros Hb [_ _ Hdb Hh Hl]. pose proof (int_pow_bounds _ Hb) as Hp. unfold int_random_tree.
  cbn [current int_value_tree]. destruct (Z.eqb_spec (draw_bits d) 0).
  { unfold in_i, imin, imax. cbn. lia. }
  pose proof (cut_range (draw_bits d - 1) _ _ ltac:(lia) Hh Hl) as Hc.
  assert (2 ^ (draw_bits d - 1) <= 2 ^ (is_bits s - 1)) by (apply Z.pow_le_mono_r; lia).
  unfold IntValueTree_new. cbn [i_curr]. rewrite from_sign_and_abs_id by (unfold imax; lia).
  unfold in_i, imin, imax. destruct (positive d); lia.
Qed.

(** Every signed integer that a strategy generates is a value of its
    type, the minimum of the type included. *)
Theorem int_generated_in_type s d :
  8 <= is_bits s <= 256 → drawn (is_bits s) d →
  Forall (λ f, match f with Int v bits => in_i bits v | _ => True end) (is_fixtures s) →
  in_i (is_bits s) (current (int_new_tree s d)).
Proof.
  intros Hb Hd Hf. unfold int_new_tree. pose proof (int_random_in_type s d Hb Hd) as Hr.
  repeat case_match; [| |done].
  - apply int_edge_in_type; [done|apply Hd].
  - unfold int_fixtures_tree. destruct (is_fixtures s) as [|f fs]; [done|].
    destruct ((f :: fs) !! fixture_index d) as [[v bits|v bits|]|] eqn:Hl; try done.
    destruct (Z.eqb_spec bits (is_bits s)) as [<-|]; [|done]. cbn.
    rewrite Forall_lookup in Hf. apply (Hf _ _ Hl).
Qed.

Definition ex_draws : Draws := mkDraws 0 false 0 3 0 256 (umax 128) (umax 128) false.

Lemma ex_drawn bits : bits = 256 → drawn bits ex_draws.
Proof. intros ->. constructor; split; by vm_compute. Defined.

Lemma uint_generated_in_type_witness :
  in_u 256 (current (uint_new_tree (UintStrategy_new 256 None) ex_draws)).
Proof.
  refine (uint_generated_in_type (UintStrategy_new 256 None) ex_draws _ _ _);
    [by vm_compute|by apply ex_drawn|constructor].
Defined.

Lemma int_generated_in_type_witness :
  in_i 256 (current (int_new_tree (IntStrategy_new 256 None) ex_draws)).
Proof.
  refine (int_generated_in_type (IntStrategy_new 256 None) ex_draws _ _ _);
    [by vm_compute|by apply ex_drawn|constructor].
Defined.
End generated.
