(* ===== verification/DynSol.v ===== *)
(** * Solidity types and values, and random generation

    The data that [crates/evm/fuzz/src/strategies] works on: the types and
    values of [alloy_dyn_abi], and computations that draw random numbers.  The
    generators themselves (the crates [rand] and [proptest]) are parameters:
    the classes [Rng] and [Proptest], with what their documentation promises in
    [LawfulRng] and [LawfulProptest]. *)
From S2P Require Import Prelude.
From Stdlib Require Import SpecFloat.
From stdpp Require Import countable strings.
Local Open Scope Z_scope.

(** ** Types *)

(** [alloy_dyn_abi::DynSolType]; a size is in bits for numbers, in bytes for
    fixed bytes, in elements for arrays. *)
Inductive DynSolType :=
| TBool
| TInt (bits : Z)
| TUint (bits : Z)
| TFixedBytes (size : Z)
| TAddress
| TFunction
| TBytes
| TString
| TArray (ty : DynSolType)
| TFixedArray (ty : DynSolType) (size : Z)
| TTuple (tys : list DynSolType)
| TCustomStruct (name : string) (prop_names : list string) (tys : list DynSolType).

(** Induction with the hypothesis for every component of a tuple. *)
Section type_ind.
Context (P : DynSolType → Prop)
  (HBool : P TBool) (HInt : ∀ n, P (TInt n)) (HUint : ∀ n, P (TUint n))
  (HFixedBytes : ∀ n, P (TFixedBytes n)) (HAddress : P TAddress) (HFunction : P TFunction)
  (HBytes : P TBytes) (HString : P TString)
  (HArray : ∀ t, P t → P (TArray t)) (HFixedArray : ∀ t n, P t → P (TFixedArray t n))
  (HTuple : ∀ ts, Forall P ts → P (TTuple ts))
  (HStruct : ∀ s ns ts, Forall P ts → P (TCustomStruct s ns ts)).

Fixpoint DynSolType_ind' (t : DynSolType) : P t :=
  let all := fix all (ts : list DynSolType) : Forall P ts :=
    match ts with
    | [] => Forall_nil_2 P
    | t :: ts => Forall_cons_2 P t ts (DynSolType_ind' t) (all ts)
    end in
  match t with
  | TBool => HBool
  | TInt n => HInt n
  | TUint n => HUint n
  | TFixedBytes n => HFixedBytes n
  | TAddress => HAddress
  | TFunction => HFunction
  | TBytes => HBytes
  | TString => HString
  | TArray t => HArray t (DynSolType_ind' t)
  | TFixedArray t n => HFixedArray t n (DynSolType_ind' t)
  | TTuple ts => HTuple ts (all ts)
  | TCustomStruct s ns ts => HStruct s ns ts (all ts)
  end.
End type_ind.

(** Types are keys of hash maps: they are countable through stdpp's trees. *)
Fixpoint type_encode (t : DynSolType) : gen_tree (Z + string) :=
  match t with
  | TBool => GenNode 0 []
  | TInt n => GenNode 1 [GenLeaf (inl n)]
  | TUint n => GenNode 2 [GenLeaf (inl n)]
  | TFixedBytes n => GenNode 3 [GenLeaf (inl n)]
  | TAddress => GenNode 4 []
  | TFunction => GenNode 5 []
  | TBytes => GenNode 6 []
  | TString => GenNode 7 []
  | TArray t => GenNode 8 [type_encode t]
  | TFixedArray t n => GenNode 9 [type_encode t; GenLeaf (inl n)]
  | TTuple ts => GenNode 10 (type_encode <$> ts)
  | TCustomStruct s ns ts =>
      GenNode 11 (GenLeaf (inr s) :: GenNode 0 ((λ n, GenLeaf (inr n)) <$> ns) :: (type_encode <$> ts))
  end.

Definition leaf_name (t : gen_tree (Z + string)) : string :=
  match t with GenLeaf (inr s) => s | _ => EmptyString end.

Fixpoint type_decode (t : gen_tree (Z + string)) : DynSolType :=
  match t with
  | GenNode 1 [GenLeaf (inl n)] => TInt n
  | GenNode 2 [GenLeaf (inl n)] => TUint n
  | GenNode 3 [GenLeaf (inl n)] => TFixedBytes n
  | GenNode 4 [] => TAddress
  | GenNode 5 [] => TFunction
  | GenNode 6 [] => TBytes
  | GenNode 7 [] => TString
  | GenNode 8 [t] => TArray (type_decode t)
  | GenNode 9 [t; GenLeaf (inl n)] => TFixedArray (type_decode t) n
  | GenNode 10 ts => TTuple (type_decode <$> ts)
  | GenNode 11 (GenLeaf (inr s) :: GenNode 0 ns :: ts) =>
      TCustomStruct s (leaf_name <$> ns) (type_decode <$> ts)
  | _ => TBool
  end.

Lemma type_decode_encode t : type_decode (type_encode t) = t.
Proof.
  assert (Hall : ∀ ts, Forall (λ t, type_decode (type_encode t) = t) ts →
    type_decode <$> (type_encode <$> ts) = ts).
  { intros ts. induction 1 as [|t' ts Ht _ IH]; [done|]. csimpl. by rewrite Ht, IH. }
  induction t as [| | | | | | | |t IH|t n IH|ts IH|s ns ts IH] using DynSolType_ind';
    cbn [type_encode type_decode]; try done; try (by rewrite IH); f_equal; auto.
  rewrite <-list_fmap_compose. by rewrite list_fmap_id.
Qed.

#[export] Instance DynSolType_eq_dec : EqDecision DynSolType.
Proof.
  intros t1 t2. destruct (decide (type_encode t1 = type_encode t2)) as [He|He]; [left|right].
  - apply (f_equal type_decode) in He. by rewrite !type_decode_encode in He.
  - congruence.
Defined.

#[export] Instance DynSolType_countable : Countable DynSolType :=
  inj_countable' type_encode type_decode type_decode_encode.

(** ** Values *)

(** [alloy_dyn_abi::DynSolValue]: integers and words are numbers, a text is the
    list of its characters, bytes are lists of numbers below 256. *)
Inductive DynSolValue :=
| VBool (b : bool)
| VInt (value bits : Z)
| VUint (value bits : Z)
| VFixedBytes (word size : Z)
| VAddress (address : Z)
| VFunction (word : Z)
| VBytes (bytes : list Z)
| VString (chars : list Z)
| VArray (values : list DynSolValue)
| VFixedArray (values : list DynSolValue)
| VTuple (values : list DynSolValue)
| VCustomStruct (name : string) (prop_names : list string) (values : list DynSolValue).

(** The Unicode scalar values, the [char]s of Rust. *)
Definition is_char (c : Z) : Prop := 0 <= c < 55296 ∨ 57344 <= c <= 1114111.

(** A fixed-size word only has its first [size] bytes. *)
Definition fits_word (size word : Z) : Prop := in_u 256 word ∧ word mod 2 ^ (8 * (32 - size)) = 0.

(** When a value can be encoded as a type: of its shape, its numbers in their
    ranges.  A struct may stand for a tuple. *)
Fixpoint has_type (t : DynSolType) (v : DynSolValue) {struct t} : Prop :=
  let all := fix all (ts : list DynSolType) (l : list DynSolValue) : Prop :=
    match ts, l with
    | [], [] => True
    | t :: ts, v :: l => has_type t v ∧ all ts l
    | _, _ => False
    end in
  match t, v with
  | TBool, VBool _ => True
  | TInt n, VInt x m => m = n ∧ in_i n x
  | TUint n, VUint x m => m = n ∧ in_u n x
  | TFixedBytes n, VFixedBytes w m => m = n ∧ fits_word n w
  | TAddress, VAddress a => in_u 160 a
  | TFunction, VFunction f => in_u 192 f
  | TBytes, VBytes bs => Forall (in_u 8) bs
  | TString, VString cs => Forall is_char cs
  | TArray t, VArray l => Forall (has_type t) l
  | TFixedArray t n, VFixedArray l => Z.of_nat (length l) = n ∧ Forall (has_type t) l
  | TTuple ts, VTuple l | TTuple ts, VCustomStruct _ _ l => all ts l
  | TCustomStruct _ _ ts, VCustomStruct _ _ l => all ts l
  | _, _ => False
  end.

Lemma has_type_tuple ts l : has_type (TTuple ts) (VTuple l) ↔ Forall2 has_type ts l.
Proof.
  cbn. revert l. induction ts as [|t ts IH]; intros [|v l]; cbn.
  - by split.
  - split; [done|by inversion 1].
  - split; [done|by inversion 1].
  - rewrite IH. by rewrite Forall2_cons.
Qed.

Lemma has_type_struct ts s ns l :
  has_type (TTuple ts) (VCustomStruct s ns l) ↔ Forall2 has_type ts l.
Proof. apply (has_type_tuple ts l). Qed.

(** The types an input of a function can have: the sizes Solidity knows, and
    no struct by name (function inputs are parsed to tuples). *)
Fixpoint supported (t : DynSolType) : Prop :=
  match t with
  | TInt n | TUint n => 8 <= n <= 256 ∧ n mod 8 = 0
  | TFixedBytes n => 1 <= n <= 32
  | TArray t => supported t
  | TFixedArray t n => 0 <= n ∧ supported t
  | TTuple ts =>
      (fix all (ts : list DynSolType) : Prop :=
        match ts with [] => True | t :: ts => supported t ∧ all ts end) ts
  | TCustomStruct _ _ _ => False
  | _ => True
  end.

Lemma supported_tuple ts : supported (TTuple ts) ↔ Forall supported ts.
Proof.
  cbn. induction ts as [|t ts IH]; [by split|]. by rewrite Forall_cons, IH.
Qed.

(** ** Computations that draw *)

(** A computation threads the state of the generator; [None] is a panic. *)
Definition Gen (R A : Type) : Type := R → option (A * R).

#[export] Instance gen_ret R : MRet (Gen R) := λ A a r, Some (a, r).
#[export] Instance gen_bind R : MBind (Gen R) := λ A B f m r,
  match m r with Some (a, r') => f a r' | None => None end.
#[export] Instance gen_fmap R : FMap (Gen R) := λ A B f m r,
  match m r with Some (a, r') => Some (f a, r') | None => None end.

Definition panic {R A} : Gen R A := λ _, None.
(** A computation that cannot panic. *)
Definition sure {R A} (f : R → A * R) : Gen R A := λ r, Some (f r).
Definition the {R A} (o : option A) : Gen R A := λ r, match o with Some a => Some (a, r) | None => None end.

(** [m] does not panic and what it yields satisfies [P], from any state. *)
Definition yields {R A} (m : Gen R A) (P : A → Prop) : Prop :=
  ∀ r, ∃ a r', m r = Some (a, r') ∧ P a.

(** [m] may panic; what it yields satisfies [P]. *)
Definition only {R A} (m : Gen R A) (P : A → Prop) : Prop :=
  ∀ r a r', m r = Some (a, r') → P a.

Section yields.
Context {R : Type}.

Lemma yields_ret {A} (a : A) (P : A → Prop) : P a → yields (mret a : Gen R A) P.
Proof. intros Ha r. by exists a, r. Qed.

Lemma yields_bind {A B} (m : Gen R A) (f : A → Gen R B) (P : A → Prop) (Q : B → Prop) :
  yields m P → (∀ a, P a → yields (f a) Q) → yields (a ← m; f a) Q.
Proof.
  intros Hm Hf r. destruct (Hm r) as (a & r' & Hr & Ha). unfold mbind, gen_bind.
  rewrite Hr. by apply Hf.
Qed.

Lemma yields_fmap {A B} (m : Gen R A) (f : A → B) (P : A → Prop) (Q : B → Prop) :
  yields m P → (∀ a, P a → Q (f a)) → yields (f <$> m) Q.
Proof.
  intros Hm Hf r. destruct (Hm r) as (a & r' & Hr & Ha). unfold fmap, gen_fmap.
  rewrite Hr. eauto.
Qed.

Lemma yields_weaken {A} (m : Gen R A) (P Q : A → Prop) :
  yields m P → (∀ a, P a → Q a) → yields m Q.
Proof. intros Hm HPQ r. destruct (Hm r) as (a & r' & Hr & Ha). eauto. Qed.

Lemma yields_sure {A} (f : R → A * R) (P : A → Prop) :
  (∀ r, P (f r).1) → yields (sure f) P.
Proof. intros Hf r. exists (f r).1, (f r).2. split; [|apply Hf]. unfold sure. by rewrite <-surjective_pairing. Qed.

Lemma yields_the {A} (o : option A) (a : A) (P : A → Prop) :
  o = Some a → P a → yields (the o : Gen R A) P.
Proof. intros -> Ha r. by exists a, r. Qed.

Lemma yields_only {A} (m : Gen R A) (P : A → Prop) : yields m P → only m P.
Proof. intros Hm r a r' Hr. destruct (Hm r) as (a' & r'' & Hr' & Ha). by simplify_eq. Qed.

Lemma only_bind {A B} (m : Gen R A) (f : A → Gen R B) (P : A → Prop) (Q : B → Prop) :
  only m P → (∀ a, P a → only (f a) Q) → only (a ← m; f a) Q.
Proof.
  intros Hm Hf r b r'. unfold mbind, gen_bind.
  destruct (m r) as [[a r1]|] eqn:Hr; [|done]. intros Hb. eapply Hf; [|done]. by eapply Hm.
Qed.

Lemma only_ret {A} (a : A) (P : A → Prop) : P a → only (mret a : Gen R A) P.
Proof. intros Ha r a' r' [= <- <-]. done. Qed.
End yields.

(** ** The generators *)

(** [rand::Rng], as far as it is used. *)
Class Rng (R : Type) := {
  (** a number of the range, both ends included *)
  rng_range : Z → Z → R → Z * R;
  rng_bool : R → bool * R;
  (** a [w]-bit unsigned number *)
  rng_bits : Z → R → Z * R;
  (** a number of [[0, 1)] *)
  rng_f64 : R → SpecFloat.spec_float * R;
}.

Class LawfulRng (R : Type) `{Rng R} := {
  rng_range_in : ∀ lo hi r, lo <= hi → lo <= (rng_range lo hi r).1 <= hi;
  rng_bits_in : ∀ w r, 0 <= w → in_u w (rng_bits w r).1;
}.

(** [random_range(lo..=hi)]: an empty range panics. *)
Definition random_range `{Rng R} (lo hi : Z) : Gen R Z :=
  if hi <? lo then panic else sure (rng_range lo hi).

(** [slice.choose(rng)] *)
Definition choose `{Rng R} {A} (l : list A) : Gen R (option A) :=
  match l with
  | [] => mret None
  | _ => i ← random_range 0 (Z.of_nat (length l) - 1); mret (l !! Z.to_nat i)
  end.

Lemma yields_range `{LawfulRng R} lo hi :
  lo <= hi → yields (random_range (R := R) lo hi) (λ i, lo <= i <= hi).
Proof.
  intros Hle. unfold random_range. rewrite (proj2 (Z.ltb_ge _ _) Hle).
  apply yields_sure. intros r. by apply rng_range_in.
Qed.

Lemma yields_choose `{LawfulRng R} {A} (l : list A) :
  l ≠ [] → yields (choose (R := R) l) (λ o, ∃ x, o = Some x ∧ x ∈ l).
Proof.
  intros Hl. destruct l as [|y l]; [done|]. unfold choose.
  eapply yields_bind; [apply yields_range; simpl; lia|]. intros i Hi. apply yields_ret.
  destruct (lookup_lt_is_Some_2 (y :: l) (Z.to_nat i)) as [x Hx]; [simpl in *; lia|].
  exists x. split; [done|]. by eapply list_elem_of_lookup_2.
Qed.

(** [proptest], as far as it is used: [prop::sample::Index], weighted booleans,
    lengths of collections, and alloy's [DynSolValue::type_strategy]. *)
Class Proptest (R : Type) := {
  Index : Type;
  any_index : R → Index * R;
  (** [Index::index(len)], which panics when [len] is zero *)
  index_at : Index → nat → nat;
  any_bool : R → bool * R;
  (** true with the given percentage *)
  weighted : Z → R → bool * R;
  (** a length of the half-open range *)
  any_length : nat → nat → R → nat * R;
  type_strategy : DynSolType → R → DynSolValue * R;
}.

Class LawfulProptest (R : Type) `{Proptest R} := {
  index_at_lt : ∀ i n, (0 < n)%nat → (index_at i n < n)%nat;
  any_length_in : ∀ lo hi r, (lo < hi)%nat → (lo ≤ (any_length lo hi r).1 < hi)%nat;
  type_strategy_typed : ∀ t r, supported t → has_type t (type_strategy t r).1;
}.

(** [values[index.index(values.len())]] *)
Definition index_get `{Proptest R} {A} (i : Index) (l : list A) : option A :=
  match l with [] => None | _ => l !! index_at i (length l) end.

Lemma index_get_some `{LawfulProptest R} {A} (i : Index) (l : list A) :
  l ≠ [] → ∃ x, index_get i l = Some x ∧ x ∈ l.
Proof.
  intros Hl. destruct l as [|y l]; [done|]. unfold index_get.
  destruct (lookup_lt_is_Some_2 (y :: l) (index_at i (length (y :: l)))) as [x Hx].
  { apply index_at_lt. simpl. lia. }
  exists x. split; [done|]. by eapply list_elem_of_lookup_2.
Qed.

(** The least value of a type. *)
Fixpoint simplest (t : DynSolType) : DynSolValue :=
  match t with
  | TBool => VBool false
  | TInt n => VInt 0 n
  | TUint n => VUint 0 n
  | TFixedBytes n => VFixedBytes 0 n
  | TAddress => VAddress 0
  | TFunction => VFunction 0
  | TBytes => VBytes []
  | TString => VString []
  | TArray t => VArray []
  | TFixedArray t n => VFixedArray (replicate (Z.to_nat n) (simplest t))
  | TTuple ts => VTuple (simplest <$> ts)
  | TCustomStruct s ns ts => VCustomStruct s ns (simplest <$> ts)
  end.


Lemma simplest_typed t : supported t → has_type t (simplest t).
Proof.
  induction t as [|n|n|n| | | | |t IH|t n IH|ts IH|s ns ts IH] using DynSolType_ind'; intros Ht;
    cbn [simplest].
  - done.
  - destruct Ht as [Hn _]. split; [done|]. unfold in_i, imin, imax.
    pose proof (Z.pow_pos_nonneg 2 (n - 1)). lia.
  - destruct Ht as [Hn _]. split; [done|]. unfold in_u, umax. pose proof (Z.pow_pos_nonneg 2 n). lia.
  - cbn in Ht. split; [done|]. split; [width_lia|]. apply Z.mod_0_l.
    pose proof (Z.pow_pos_nonneg 2 (8 * (32 - n))). lia.
  - cbn. width_lia.
  - cbn. width_lia.
  - cbn. constructor.
  - cbn. constructor.
  - cbn. constructor.
  - destruct Ht as [Hn Ht]. split; [rewrite length_replicate; lia|]. apply Forall_replicate. auto.
  - apply has_type_tuple. apply supported_tuple in Ht.
    induction ts as [|t ts IHts]; csimpl; constructor; inversion Ht; inversion IH; subst; auto.
  - destruct Ht.
Qed.

(** ** Concrete generators, from a source of numbers *)

Section drawing.
Context {R : Type} (next : R → Z * R).

Definition map_next {A} (f : Z → A) (r : R) : A * R := let '(x, r) := next r in (f x, r).

Definition rng_of : Rng R := {|
  rng_range lo hi := map_next (λ x, lo + x mod (hi - lo + 1));
  rng_bool := map_next (λ x, x =? 1);
  rng_bits w := map_next (λ x, wrap w x);
  rng_f64 := map_next (λ x, SpecFloat.binary_normalize 53 1024 (x mod 2 ^ 53) (-53) false);
|}.

Lemma lawful_rng_of : @LawfulRng R rng_of.
Proof.
  split.
  - intros lo hi r Hle. cbn. unfold map_next. destruct (next r) as [x r']. cbn.
    pose proof (Z.mod_pos_bound x (hi - lo + 1)). lia.
  - intros w r Hw. cbn. unfold map_next. destruct (next r) as [x r']. by apply wrap_in_u.
Qed.

Definition proptest_of : Proptest R := {|
  Index := nat;
  any_index := map_next Z.to_nat;
  index_at i n := (i mod n)%nat;
  any_bool := map_next (λ x, x =? 1);
  weighted _ := map_next (λ x, x =? 1);
  any_length lo hi := map_next (λ x, (lo + Z.to_nat x mod (hi - lo))%nat);
  type_strategy t r := (simplest t, r);
|}.

Lemma lawful_proptest_of : @LawfulProptest R proptest_of.
Proof.
  split.
  - intros i n Hn. cbn. apply Nat.mod_upper_bound. lia.
  - intros lo hi r Hlt. cbn. unfold map_next. destruct (next r) as [x r']. cbn [fst].
    pose proof (Nat.mod_upper_bound (Z.to_nat x) (hi - lo)). lia.
  - intros t r. apply simplest_typed.
Qed.
End drawing.

(** The numbers of a list, then zeros. *)
Module Script.
Definition next (r : list Z) : Z * list Z := match r with [] => (0, []) | x :: r => (x, r) end.
#[export] Instance rng : Rng (list Z) := rng_of next.
#[export] Instance lawful_rng : LawfulRng (list Z) := lawful_rng_of next.
#[export] Instance proptest : Proptest (list Z) := proptest_of next.
#[export] Instance lawful_proptest : LawfulProptest (list Z) := lawful_proptest_of next.
End Script.

(** The numbers from the state on. *)
Module Counter.
Definition next (n : Z) : Z * Z := (n, n + 1).
#[export] Instance rng : Rng Z := rng_of next.
#[export] Instance lawful_rng : LawfulRng Z := lawful_rng_of next.
#[export] Instance proptest : Proptest Z := proptest_of next.
#[export] Instance lawful_proptest : LawfulProptest Z := lawful_proptest_of next.
End Counter.
