(* ===== verification/Mutators.v ===== *)
(** * Mutators of fuzzed values

    Models [crates/evm/fuzz/src/strategies/mutators.rs]: the mutators of
    integers, addresses and fixed-size words.  An integer is mutated through
    its 32 big-endian bytes, of which the last [size / 8] are the value.  The
    [f64] arithmetic of the gaussian noise is that of the Standard Library's
    [SpecFloat], with 53 bits of precision.

    A mutator yields [None] when its result is not valid; a loop that may run
    out of fuel yields [None] as well, and [bound_returns] says when it does
    not. *)
From S2P Require Import Prelude DynSol.
From Stdlib Require Import SpecFloat.
Local Open Scope Z_scope.

(** ** Bytes *)

Lemma of_be_bytes_foldl l acc :
  foldl (λ acc b, acc * 256 + b) acc l = acc * 256 ^ Z.of_nat (length l) + of_be_bytes l.
Proof.
  unfold of_be_bytes. revert acc. induction l as [|b l IH]; intros acc; cbn [foldl length]; [simpl; lia|].
  rewrite IH, (IH (0 * 256 + b)). rewrite Nat2Z.inj_succ, Z.pow_succ_r by lia. ring.
Qed.

Lemma of_be_bytes_app l1 l2 :
  of_be_bytes (l1 ++ l2) = of_be_bytes l1 * 256 ^ Z.of_nat (length l2) + of_be_bytes l2.
Proof. unfold of_be_bytes at 1. rewrite foldl_app. by rewrite of_be_bytes_foldl. Qed.

Lemma of_be_bytes_cons b l :
  of_be_bytes (b :: l) = b * 256 ^ Z.of_nat (length l) + of_be_bytes l.
Proof. change (b :: l) with ([b] ++ l). rewrite of_be_bytes_app. unfold of_be_bytes at 1. cbn. ring. Qed.

Lemma of_be_bytes_bound l :
  Forall (in_u 8) l → 0 <= of_be_bytes l < 256 ^ Z.of_nat (length l).
Proof.
  induction 1 as [|b l Hb _ IH]; [done|]. rewrite of_be_bytes_cons. cbn [length].
  rewrite Nat2Z.inj_succ, Z.pow_succ_r by lia.
  assert (0 <= b <= 255) by (revert Hb; width_lia). nia.
Qed.

Lemma le_bytes_snoc n x :
  le_bytes (S n) x = le_bytes n x ++ [(x / 256 ^ Z.of_nat n) mod 256].
Proof.
  revert x. induction n as [|n IH]; intros x; [cbn; by rewrite Z.div_1_r|].
  change (le_bytes (S (S n)) x) with (x mod 256 :: le_bytes (S n) (x / 256)).
  rewrite IH. cbn [le_bytes app]. do 3 f_equal.
  rewrite Zdiv_Zdiv, <-Z.pow_succ_r by lia. by rewrite Nat2Z.inj_succ.
Qed.

Lemma be_bytes_succ n x :
  be_bytes (S n) x = (x / 256 ^ Z.of_nat n) mod 256 :: be_bytes n x.
Proof. unfold be_bytes. rewrite le_bytes_snoc, rev_app_distr. done. Qed.

Lemma be_bytes_length n x : length (be_bytes n x) = n.
Proof. unfold be_bytes. by rewrite length_rev, le_bytes_length. Qed.

Lemma of_be_bytes_be n x : of_be_bytes (be_bytes n x) = x mod 256 ^ Z.of_nat n.
Proof.
  induction n as [|n IH]; [cbn; by rewrite Z.mod_1_r|].
  rewrite be_bytes_succ, of_be_bytes_cons, be_bytes_length, IH.
  rewrite Nat2Z.inj_succ, Z.pow_succ_r, (Z.mul_comm 256) by lia.
  rewrite Z.rem_mul_r by lia. ring.
Qed.

Lemma be_bytes_u8 n x : Forall (in_u 8) (be_bytes n x).
Proof.
  induction n as [|n IH]; [constructor|]. rewrite be_bytes_succ. constructor; [|done].
  apply (wrap_in_u 8). lia.
Qed.

(** The last [k] of the [n + k] bytes are those of the remainder. *)
Lemma be_bytes_app n k x :
  be_bytes (n + k) x = be_bytes n (x / 256 ^ Z.of_nat k) ++ be_bytes k x.
Proof.
  induction n as [|n IH]; [done|]. cbn [Nat.add].
  rewrite !be_bytes_succ, IH. cbn [app]. do 2 f_equal.
  rewrite Zdiv_Zdiv by lia. by rewrite Nat2Z.inj_add, Z.pow_add_r, Z.mul_comm by lia.
Qed.

(** ** Interesting values *)

Definition INTERESTING_8 : list Z := [-128; -1; 0; 1; 16; 32; 64; 100; 127].

Definition INTERESTING_16 : list Z :=
  [-128; -1; 0; 1; 16; 32; 64; 100; 127; -32768; -129; 128; 255; 256; 512; 1000; 1024; 4096;
   32767].

Definition INTERESTING_32 : list Z :=
  [-128; -1; 0; 1; 16; 32; 64; 100; 127; -32768; -129; 128; 255; 256; 512; 1000; 1024; 4096;
   32767; -2147483648; -100663046; -32769; 32768; 65535; 65536; 100663045; 2147483647].

(** ** Mutations of a slice *)

Section mutators.
Context `{Rng R}.
Local Abbreviation Gen := (Gen R).

Definition flip_bit (bit_index : Z) (bytes : list Z) : list Z :=
  alter (λ b, Z.lxor b (wrap 8 (Z.shiftl 1 (bit_index mod 8)))) (Z.to_nat (bit_index / 8)) bytes.

Definition flip_random_bit_in_slice (bytes : list Z) : Gen (option (list Z)) :=
  match bytes with
  | [] => mret None
  | _ =>
      bit_index ← random_range 0 (Z.of_nat (length bytes) * 8 - 1);
      mret (Some (flip_bit bit_index bytes))
  end.

(** [bytes[index..index + n].copy_from_slice(val)] *)
Definition copy_at (index : nat) (val : list Z) (bytes : list Z) : list Z :=
  list_inserts index val bytes.

Definition mutate_interesting_byte_slice (bytes : list Z) : Gen (option (list Z)) :=
  index ← random_range 0 (Z.of_nat (length bytes) - 1);
  val ← choose INTERESTING_8;
  mret (val ← val; Some (copy_at (Z.to_nat index) [wrap 8 val] bytes)).

Definition mutate_interesting_word_slice (bytes : list Z) : Gen (option (list Z)) :=
  if (length bytes <? 2)%nat then mret None
  else
    index ← random_range 0 (Z.of_nat (length bytes) - 2);
    val ← choose INTERESTING_16;
    mret (val ← val; Some (copy_at (Z.to_nat index) (be_bytes 2 (wrap 16 val)) bytes)).

Definition mutate_interesting_dword_slice (bytes : list Z) : Gen (option (list Z)) :=
  if (length bytes <? 4)%nat then mret None
  else
    index ← random_range 0 (Z.of_nat (length bytes) - 4);
    val ← choose INTERESTING_32;
    mret (val ← val; Some (copy_at (Z.to_nat index) (be_bytes 4 (wrap 32 val)) bytes)).

(** ** Validation *)

Definition validate_uint_mutation (original mutated size : Z) : option Z :=
  if mutated =? original then None
  else
    let max := if size <? 256 then wrap 256 (wrap 256 (Z.shiftl 1 size) - 1) else umax 256 in
    if mutated <? max then Some mutated else None.

(** [I256::overflowing_from_sign_and_abs(sign, abs).0] *)
Definition int_from_sign_and_abs (positive : bool) (abs : Z) : Z :=
  if positive then swrap 256 abs else swrap 256 (- swrap 256 abs).

Definition validate_int_mutation (original mutated size : Z) : option Z :=
  if mutated =? original then None
  else
    let max_abs := wrap 256 (wrap 256 (Z.shiftl 1 (size - 1)) - 1) in
    let valid :=
      if 0 <=? mutated then mutated <? int_from_sign_and_abs true max_abs
      else int_from_sign_and_abs false max_abs <? mutated in
    if valid then Some mutated else None.

(** ** Gaussian noise *)

Definition f64_of_Z (z : Z) : spec_float := binary_normalize 53 1024 z 0 false.
Definition f64_add := SFadd 53 1024.
Definition f64_sub := SFsub 53 1024.
Definition f64_mul := SFmul 53 1024.
Definition f64_div := SFdiv 53 1024.
Definition f64_EPSILON : spec_float := binary_normalize 53 1024 1 (-52) false.

(** [x % 2^k]: the exact remainder, with the sign of [x]. *)
Definition f64_rem_pow2 (k : Z) (x : spec_float) : spec_float :=
  match x with
  | S754_zero s => S754_zero s
  | S754_finite s m e =>
      if k <=? e then S754_zero s
      else
        let r := Z.pos m mod 2 ^ (k - e) in
        binary_normalize 53 1024 (if s then - r else r) e s
  | _ => S754_nan
  end.

Definition f64_floor (x : spec_float) : spec_float :=
  match x with
  | S754_finite s m e =>
      if 0 <=? e then x
      else binary_normalize 53 1024 ((if s then - Z.pos m else Z.pos m) / 2 ^ (- e)) 0 s
  | _ => x
  end.

(** [x as u8]: truncated, saturated; a NaN is zero. *)
Definition f64_as_u8 (x : spec_float) : Z :=
  match x with
  | S754_finite false m e =>
      Z.min 255 (if 0 <=? e then Z.pos m * 2 ^ e else Z.pos m / 2 ^ (- e))
  | S754_infinity false => 255
  | _ => 0
  end.

Definition THREE_SIGMA_MULTIPLIERS : list spec_float :=
  [f64_div (f64_of_Z 1) (f64_of_Z 10); f64_div (f64_of_Z 1) (f64_of_Z 4);
   f64_div (f64_of_Z 1) (f64_of_Z 2); f64_of_Z 1; f64_of_Z 2; f64_of_Z 5; f64_of_Z 10].

(** [sum += rng.random::<f64>()], [n] times. *)
Fixpoint sum_samples (n : nat) (sum : spec_float) : Gen spec_float :=
  match n with
  | O => mret sum
  | S n => x ← sure rng_f64; sum_samples n (f64_add sum x)
  end.

Definition sample_gaussian_scale : Gen (option spec_float) :=
  chosen ← choose THREE_SIGMA_MULTIPLIERS;
  let chosen_3rd_sigma := default (f64_of_Z 1) chosen in
  sum ← sum_samples 8 (f64_of_Z 0);
  let standard_normal := f64_sub sum (f64_div (f64_of_Z 8) (f64_of_Z 2)) in
  let scale_factor := f64_mul (f64_div chosen_3rd_sigma (f64_of_Z 3)) standard_normal in
  let scale_factor := f64_add scale_factor (f64_of_Z 1) in
  mret (if SFltb scale_factor (f64_of_Z 0)
           || SFltb (SFabs (f64_sub scale_factor (f64_of_Z 1))) f64_EPSILON
        then None else Some scale_factor).

(** The bytes with the carry added below index [j]; [None] when the whole
    slice saturates. *)
Fixpoint propagate_carry (j : nat) (carry_up : spec_float) (bytes : list Z) : option (list Z) :=
  match j with
  | O => Some bytes
  | S j =>
      if SFltb (f64_of_Z 0) carry_up then
        let new_val := f64_add (f64_of_Z (nth j bytes 0)) carry_up in
        if (j =? 0)%nat && SFleb (f64_of_Z 256) new_val then None
        else
          propagate_carry j (f64_floor (f64_div new_val (f64_of_Z 256)))
            (<[j := f64_as_u8 (f64_floor (f64_rem_pow2 8 new_val))]> bytes)
      else Some bytes
  end.

(** The bytes below index [i] scaled, from the last to the first. *)
Fixpoint scale_loop (i : nat) (scale_factor carry_down : spec_float) (bytes : list Z) : list Z :=
  match i with
  | O => bytes
  | S i =>
      let byte_val := f64_of_Z (nth i bytes 0) in
      let scaled := f64_mul (f64_add byte_val (f64_mul carry_down (f64_of_Z 256))) scale_factor in
      if (i =? 0)%nat && SFleb (f64_of_Z 256) scaled then replicate (length bytes) 255
      else
        let bytes := <[i := f64_as_u8 (f64_floor (f64_rem_pow2 8 scaled))]> bytes in
        let carry_up := f64_floor (f64_div scaled (f64_of_Z 256)) in
        let carry_down := f64_div (f64_rem_pow2 0 scaled) scale_factor in
        match propagate_carry i carry_up bytes with
        | None => replicate (length bytes) 255
        | Some bytes => scale_loop i scale_factor carry_down bytes
        end
  end.

Definition apply_scale_to_bytes (bytes : list Z) (scale_factor : spec_float) : option (list Z) :=
  Some (scale_loop (length bytes) scale_factor (f64_of_Z 0) bytes).

(** ** Mutators of a type

    The bytes of the value are split from its padding: an integer keeps the
    [32 - size / 8] bytes in front, a word the bytes behind. *)

Definition on_uint (f : list Z → Gen (option (list Z))) (self size : Z) : Gen (option Z) :=
  let bytes := be_bytes 32 self in
  let pad := Z.to_nat (32 - size / 8) in
  slice ← f (drop pad bytes);
  mret (slice ← slice; validate_uint_mutation self (of_be_bytes (take pad bytes ++ slice)) size).

Definition on_int (f : list Z → Gen (option (list Z))) (self size : Z) : Gen (option Z) :=
  let bytes := be_bytes 32 (wrap 256 self) in
  let pad := Z.to_nat (32 - size / 8) in
  slice ← f (drop pad bytes);
  mret (slice ← slice;
        validate_int_mutation self (swrap 256 (of_be_bytes (take pad bytes ++ slice))) size).

(** [(self != mutated).then_some(mutated)] *)
Definition if_changed (self mutated : Z) : option Z :=
  if self =? mutated then None else Some mutated.

Definition on_address (f : list Z → Gen (option (list Z))) (self : Z) : Gen (option Z) :=
  mutated ← f (be_bytes 20 self);
  mret (mutated ← mutated; if_changed self (of_be_bytes mutated)).

Definition on_word (f : list Z → Gen (option (list Z))) (self size : Z) : Gen (option Z) :=
  let bytes := be_bytes 32 self in
  slice ← f (take (Z.to_nat size) bytes);
  mret (slice ← slice; if_changed self (of_be_bytes (slice ++ drop (Z.to_nat size) bytes))).

(** The gaussian noise as a mutation of a slice. *)
Definition gaussian_noise_slice (bytes : list Z) : Gen (option (list Z)) :=
  scale_factor ← sample_gaussian_scale;
  mret (scale_factor ← scale_factor; apply_scale_to_bytes bytes scale_factor).

Definition uint_increment_decrement (self size : Z) : Gen (option Z) :=
  up ← sure rng_bool;
  let mutated := if (up : bool) then wrap 256 (self + 1) else wrap 256 (self - 1) in
  mret (validate_uint_mutation self mutated size).

Definition int_increment_decrement (self size : Z) : Gen (option Z) :=
  up ← sure rng_bool;
  let mutated := if (up : bool) then swrap 256 (self + 1) else swrap 256 (self - 1) in
  mret (validate_int_mutation self mutated size).

Definition uint_mutate_with_gaussian_noise := on_uint gaussian_noise_slice.
Definition int_mutate_with_gaussian_noise := on_int gaussian_noise_slice.

Definition uint_flip_random_bit := on_uint flip_random_bit_in_slice.
Definition int_flip_random_bit := on_int flip_random_bit_in_slice.
Definition address_flip_random_bit := on_address flip_random_bit_in_slice.
Definition word_flip_random_bit := on_word flip_random_bit_in_slice.

Definition uint_mutate_interesting_byte := on_uint mutate_interesting_byte_slice.
Definition uint_mutate_interesting_word := on_uint mutate_interesting_word_slice.
Definition uint_mutate_interesting_dword := on_uint mutate_interesting_dword_slice.
Definition int_mutate_interesting_byte := on_int mutate_interesting_byte_slice.
Definition int_mutate_interesting_word := on_int mutate_interesting_word_slice.
Definition int_mutate_interesting_dword := on_int mutate_interesting_dword_slice.
Definition address_mutate_interesting_byte := on_address mutate_interesting_byte_slice.
Definition address_mutate_interesting_word := on_address mutate_interesting_word_slice.
Definition address_mutate_interesting_dword := on_address mutate_interesting_dword_slice.
Definition word_mutate_interesting_byte := on_word mutate_interesting_byte_slice.
Definition word_mutate_interesting_word := on_word mutate_interesting_word_slice.
Definition word_mutate_interesting_dword := on_word mutate_interesting_dword_slice.

(** ** Bounding *)

(** The loop until a candidate differs from the value. *)
Fixpoint draw_other (fuel : nat) (candidate : Gen Z) (self : Z) : Gen (option Z) :=
  match fuel with
  | O => mret None
  | S fuel =>
      c ← candidate;
      if (c =? self)%Z then draw_other fuel candidate self else mret (Some c)
  end.

Definition uint_candidate (min max : Z) : Gen Z :=
  bits ← random_range 8 256;
  let mask := wrap 256 (wrap 256 (Z.shiftl 1 bits) - 1) in
  rand ← sure (rng_bits 128);
  let candidate := Z.land rand mask in
  mret (wrap 256 (min + candidate `mod` u_saturating_add 256 (wrap 256 (max - min)) 1)).

Definition uint_bound (fuel : nat) (self min max : Z) : Gen (option Z) :=
  if (max <? min) || (self <? min) || (max <? self) || (min =? max) then mret None
  else draw_other fuel (uint_candidate min max) self.

(** [saturating_sub] and [saturating_add] of [I256]. *)
Definition i256_saturate (x : Z) : Z := Z.max (imin 256) (Z.min (imax 256) x).

Definition int_signed_candidate (bits rand_u : Z) : Z :=
  let mask := wrap 256 (wrap 256 (Z.shiftl 1 bits) - 1) in
  let unsigned_candidate := Z.land rand_u mask in
  let midpoint := wrap 256 (Z.shiftl 1 (bits - 1)) in
  if unsigned_candidate <? midpoint then swrap 256 unsigned_candidate
  else swrap 256 (swrap 256 unsigned_candidate - swrap 256 (wrap 256 (Z.shiftl 1 bits))).

Definition int_to_range (signed_candidate min max : Z) : Z :=
  let range := Z.abs (i256_saturate (i256_saturate (max - min) + 1)) in
  let wrapped := swrap 256 (Z.abs signed_candidate `mod` range) in
  if signed_candidate <? 0 then swrap 256 (max - wrapped) else swrap 256 (min + wrapped).

Definition int_candidate (min max : Z) : Gen Z :=
  bits ← random_range 8 255;
  low ← sure (rng_bits 64);
  high ← sure (rng_bits 64);
  let rand_u := Z.lor low (wrap 256 (Z.shiftl high 64)) in
  mret (int_to_range (int_signed_candidate bits rand_u) min max).

Definition int_bound (fuel : nat) (self min max : Z) : Gen (option Z) :=
  if (max <? min) || (self <? min) || (max <? self) || (min =? max) then mret None
  else draw_other fuel (int_candidate min max) self.
End mutators.

(** ** Validation *)

Lemma validate_uint_spec original mutated size x :
  8 <= size <= 256 →
  validate_uint_mutation original mutated size = Some x ↔
  x = mutated ∧ mutated ≠ original ∧ mutated < umax size.
Proof.
  intros Hs. unfold validate_uint_mutation.
  assert ((if size <? 256 then wrap 256 (wrap 256 (Z.shiftl 1 size) - 1) else umax 256) = umax size)
    as ->.
  { destruct (Z.ltb_spec size 256) as [Hlt|]; [|by replace size with 256 by lia].
    rewrite Z.shiftl_1_l. assert (2 ^ size < 2 ^ 256) by (apply Z.pow_lt_mono_r; lia).
    assert (0 < 2 ^ size) by lia.
    unfold umax. rewrite (wrap_id 256 (2 ^ size)) by (unfold in_u, umax; lia).
    rewrite wrap_id by (unfold in_u, umax; lia). done. }
  destruct (Z.eqb_spec mutated original); [split; [done|lia]|]. z_case; (split; [try done; intros [= <-]; split_and!; done|]);
    intros (-> & ? & ?); done || lia.
Qed.

Lemma validate_int_spec original mutated size x :
  8 <= size <= 256 →
  validate_int_mutation original mutated size = Some x ↔
  x = mutated ∧ mutated ≠ original ∧ Z.abs mutated < imax size.
Proof.
  intros Hs. unfold validate_int_mutation.
  rewrite Z.shiftl_1_l.
  assert (2 ^ (size - 1) <= 2 ^ 255) by (apply Z.pow_le_mono_r; lia).
  assert (2 ^ 7 <= 2 ^ (size - 1)) by (apply Z.pow_le_mono_r; lia).
  assert (2 ^ 255 < 2 ^ 256) by (apply Z.pow_lt_mono_r; lia).
  rewrite (wrap_id 256 (2 ^ (size - 1))) by (unfold in_u, umax; lia).
  rewrite wrap_id by (unfold in_u, umax; lia).
  assert (Habs : swrap 256 (2 ^ (size - 1) - 1) = imax size).
  { unfold swrap. rewrite Z.mod_small by lia. unfold imax.
    change (256 - 1) with 255. by rewrite (proj2 (Z.leb_le _ _)) by lia. }
  assert (Hneg : swrap 256 (- imax size) = - imax size).
  { unfold swrap. unfold imax. change (256 - 1) with 255.
    replace (- (2 ^ (size - 1) - 1)) with ((2 ^ 256 - (2 ^ (size - 1) - 1)) + (-1) * 2 ^ 256) by ring.
    rewrite Z.mod_add, Z.mod_small by lia.
    change (2 ^ 256) with (2 ^ 255 + 2 ^ 255). rewrite (proj2 (Z.leb_gt _ _)) by lia. lia. }
  cbn [int_from_sign_and_abs]. rewrite Habs, Hneg.
  destruct (Z.eqb_spec mutated original); [split; [done|lia]|].
  destruct (Z.leb_spec 0 mutated); z_case; (split; [try done; intros [= <-]; split_and!; done || lia|]);
    intros (-> & ? & ?); done || lia.
Qed.

(** ** Mutations of a slice keep its length and its bytes bytes *)

Section slices.
Context `{LawfulRng R}.
Local Abbreviation Gen := (Gen R).

(** What the mutators of the types need of a mutation of a slice. *)
Class SliceMutator (f : list Z → Gen (option (list Z))) : Prop :=
  slice_mutator : ∀ bytes, bytes ≠ [] → Forall (in_u 8) bytes →
    yields (f bytes) (λ o, ∀ bytes', o = Some bytes' →
      length bytes' = length bytes ∧ Forall (in_u 8) bytes').

Lemma lxor_u8 x y : in_u 8 x → in_u 8 y → in_u 8 (Z.lxor x y).
Proof.
  intros Hx Hy.
  assert (Hhigh : ∀ v n, in_u 8 v → 8 <= n → Z.testbit v n = false).
  { intros v n Hv Hn. rewrite <-(wrap_id 8 v) by (done || lia). apply Z.mod_pow2_bits_high. lia. }
  assert (Z.lxor x y = wrap 8 (Z.lxor x y)) as ->; [|apply wrap_in_u; lia].
  apply Z.bits_inj'. intros n Hn. unfold wrap.
  destruct (Z.lt_ge_cases n 8); [by rewrite Z.mod_pow2_bits_low|].
  rewrite Z.mod_pow2_bits_high, Z.lxor_spec by lia. by rewrite !Hhigh.
Qed.

Lemma flip_bit_bytes i bytes :
  Forall (in_u 8) bytes →
  length (flip_bit i bytes) = length bytes ∧ Forall (in_u 8) (flip_bit i bytes).
Proof.
  intros Hb. unfold flip_bit. split; [apply length_alter|].
  apply Forall_alter; [done|]. intros x _ Hx. apply lxor_u8; [done|]. apply wrap_in_u. lia.
Qed.

#[export] Instance flip_random_bit_slice : SliceMutator flip_random_bit_in_slice.
Proof.
  intros bytes Hne Hb. unfold flip_random_bit_in_slice. destruct bytes as [|b bytes]; [done|].
  eapply yields_bind; [apply yields_range; simpl; lia|]. intros i Hi.
  apply yields_ret. intros bytes' [= <-]. by apply flip_bit_bytes.
Qed.

Lemma copy_at_bytes i val bytes :
  Forall (in_u 8) val → Forall (in_u 8) bytes →
  length (copy_at i val bytes) = length bytes ∧ Forall (in_u 8) (copy_at i val bytes).
Proof.
  intros Hv Hb. unfold copy_at. split; [apply length_inserts|].
  revert i. induction Hv as [|x val Hx _ IH]; intros i; cbn; [done|]. apply Forall_insert; auto.
Qed.

(** An interesting value of [n] bytes put anywhere in the slice. *)
Lemma inject_slice (n : nat) (values : list Z) (enc : Z → list Z) bytes :
  (n ≤ length bytes)%nat → values ≠ [] → (∀ v, Forall (in_u 8) (enc v)) →
  Forall (in_u 8) bytes →
  yields (index ← random_range (R := R) 0 (Z.of_nat (length bytes) - Z.of_nat n);
          val ← choose values;
          mret (val ← val; Some (copy_at (Z.to_nat index) (enc val) bytes)))
    (λ o, ∀ bytes', o = Some bytes' → length bytes' = length bytes ∧ Forall (in_u 8) bytes').
Proof.
  intros Hn Hne Henc Hb.
  eapply yields_bind; [apply yields_range; lia|]. intros i Hi.
  eapply yields_bind; [by apply yields_choose|]. intros o (v & -> & Hv).
  apply yields_ret. intros bytes' [= <-]. by apply copy_at_bytes.
Qed.

#[export] Instance interesting_byte_slice : SliceMutator mutate_interesting_byte_slice.
Proof.
  intros bytes Hne Hb. apply (inject_slice 1 INTERESTING_8 (λ v, [wrap 8 v])); try done.
  - destruct bytes; [done|]. simpl. lia.
  - intros v. constructor; [|constructor]. apply wrap_in_u. lia.
Qed.

#[export] Instance interesting_word_slice : SliceMutator mutate_interesting_word_slice.
Proof.
  intros bytes Hne Hb. unfold mutate_interesting_word_slice.
  destruct (Nat.ltb_spec (length bytes) 2); [by apply yields_ret|].
  apply (inject_slice 2 INTERESTING_16 (λ v, be_bytes 2 (wrap 16 v))); try done.
  intros v. apply be_bytes_u8.
Qed.

#[export] Instance interesting_dword_slice : SliceMutator mutate_interesting_dword_slice.
Proof.
  intros bytes Hne Hb. unfold mutate_interesting_dword_slice.
  destruct (Nat.ltb_spec (length bytes) 4); [by apply yields_ret|].
  apply (inject_slice 4 INTERESTING_32 (λ v, be_bytes 4 (wrap 32 v))); try done.
  intros v. apply be_bytes_u8.
Qed.

Lemma f64_as_u8_u8 x : in_u 8 (f64_as_u8 x).
Proof.
  destruct x as [| [] | |[] m e]; try (cbn; width_lia). unfold f64_as_u8.
  destruct (Z.leb_spec 0 e).
  - assert (0 <= Z.pos m * 2 ^ e) by (apply Z.mul_nonneg_nonneg; lia). width_lia.
  - assert (0 <= Z.pos m / 2 ^ (- e)) by (apply Z.div_pos; lia). width_lia.
Qed.

Lemma propagate_carry_bytes j carry bytes bytes' :
  propagate_carry j carry bytes = Some bytes' → Forall (in_u 8) bytes →
  length bytes' = length bytes ∧ Forall (in_u 8) bytes'.
Proof.
  revert carry bytes. induction j as [|j IH]; intros carry bytes; cbn [propagate_carry];
    [by intros [= ->]|].
  case_match; [|by intros [= ->]]. case_match; [done|]. intros Hp Hb.
  apply IH in Hp as [Hl Hp]; [|apply Forall_insert; [done|apply f64_as_u8_u8]].
  by rewrite Hl, length_insert.
Qed.

Lemma scale_loop_bytes i scale carry bytes :
  Forall (in_u 8) bytes →
  length (scale_loop i scale carry bytes) = length bytes ∧
  Forall (in_u 8) (scale_loop i scale carry bytes).
Proof.
  assert (Hff : ∀ n, length (replicate n 255) = n ∧ Forall (in_u 8) (replicate n 255)).
  { intros n. split; [apply length_replicate|]. apply Forall_replicate. width_lia. }
  revert carry bytes. induction i as [|i IH]; intros carry bytes Hb; cbn [scale_loop]; [done|].
  case_match; [apply Hff|]. cbv zeta.
  assert (Hb' : ∀ x, Forall (in_u 8) (<[i := f64_as_u8 x]> bytes)).
  { intros x. apply Forall_insert; [done|apply f64_as_u8_u8]. }
  case_match eqn:Hp; [|rewrite length_insert; apply Hff].
  apply propagate_carry_bytes in Hp as [Hl Hp]; [|apply Hb'].
  rewrite length_insert in Hl. rewrite <-Hl. by apply IH.
Qed.

Lemma yields_sum_samples n sum : yields (sum_samples n sum : Gen spec_float) (λ _, True).
Proof.
  revert sum. induction n as [|n IH]; intros sum; cbn [sum_samples]; [by apply yields_ret|].
  eapply yields_bind; [by apply (yields_sure _ (λ _, True))|]. intros x _. apply IH.
Qed.

#[export] Instance gaussian_slice : SliceMutator gaussian_noise_slice.
Proof.
  intros bytes Hne Hb. unfold gaussian_noise_slice, sample_gaussian_scale.
  eapply yields_bind.
  - eapply yields_bind; [by apply yields_choose|]. intros chosen _.
    eapply (yields_bind _ _ (λ _, True)); [apply yields_sum_samples|]. intros sum _.
    by apply (yields_ret _ (λ _, True)).
  - intros scale _. apply yields_ret. intros bytes' Hs.
    destruct scale as [scale|]; [|done]. injection Hs as <-. by apply scale_loop_bytes.
Qed.
End slices.

(** ** Mutators of a type yield values of the type, different from the old one *)

Section typed.
Context `{LawfulRng R}.
Local Abbreviation Gen := (Gen R).

Definition sized (size : Z) : Prop := 8 <= size <= 256 ∧ size mod 8 = 0.

(** The padding and the bytes of an integer. *)
Lemma split_int size x :
  sized size →
  length (drop (Z.to_nat (32 - size / 8)) (be_bytes 32 x)) = Z.to_nat (size / 8) ∧
  length (take (Z.to_nat (32 - size / 8)) (be_bytes 32 x)) = Z.to_nat (32 - size / 8) ∧
  1 <= size / 8 <= 32.
Proof.
  intros [Hs Hm]. assert (1 <= size / 8 <= 32).
  { split; [apply Z.div_le_lower_bound|apply Z.div_le_upper_bound]; lia. }
  rewrite length_drop, length_take, be_bytes_length. split_and!; lia.
Qed.

Lemma Forall_split_int pad x :
  Forall (in_u 8) (take pad (be_bytes 32 x)) ∧ Forall (in_u 8) (drop pad (be_bytes 32 x)).
Proof. split; [apply Forall_take|apply Forall_drop]; apply be_bytes_u8. Qed.

(** What a mutator of a type promises: it does not panic, and a result has
    the type and is not the value it started from. *)
Definition mutates (P : Z → Prop) (self : Z) (m : Gen (option Z)) : Prop :=
  yields m (λ o, ∀ x, o = Some x → P x ∧ x ≠ self).

Lemma on_uint_mutates `{!SliceMutator f} self size :
  sized size → mutates (λ x, 0 <= x < umax size) self (on_uint f self size).
Proof.
  intros Hs. destruct (split_int size self Hs) as (Hd & Ht & Hk). destruct (Forall_split_int (Z.to_nat (32 - size / 8)) self) as [Hbt Hbd].
  unfold on_uint. cbv zeta. eapply yields_bind; [apply slice_mutator; [|done]|].
  - intros Hn. rewrite Hn in Hd. simpl in Hd. lia.
  - intros o Ho. apply yields_ret. intros x Hx. destruct o as [slice|]; [|done]. cbn [mbind option_bind] in Hx.
    destruct (Ho slice eq_refl) as [Hl Hb].
    apply validate_uint_spec in Hx as (-> & Hne & Hmax); [|apply Hs].
    split; [|done]. split; [|done]. apply of_be_bytes_bound. by apply Forall_app.
Qed.

Lemma on_int_mutates `{!SliceMutator f} self size :
  sized size → mutates (λ x, Z.abs x < imax size) self (on_int f self size).
Proof.
  intros Hs. destruct (split_int size (wrap 256 self) Hs) as (Hd & Ht & Hk). destruct (Forall_split_int (Z.to_nat (32 - size / 8)) (wrap 256 self)) as [Hbt Hbd].
  unfold on_int. cbv zeta. eapply yields_bind; [apply slice_mutator; [|done]|].
  - intros Hn. rewrite Hn in Hd. simpl in Hd. lia.
  - intros o Ho. apply yields_ret. intros x Hx. destruct o as [slice|]; [|done]. cbn [mbind option_bind] in Hx.
    apply validate_int_spec in Hx as (-> & Hne & Hmax); [done|apply Hs].
Qed.

Lemma if_changed_spec self mutated x :
  if_changed self mutated = Some x ↔ x = mutated ∧ mutated ≠ self.
Proof. unfold if_changed. z_case; naive_solver. Qed.

Lemma on_address_mutates `{!SliceMutator f} self : mutates (in_u 160) self (on_address f self).
Proof.
  unfold on_address. eapply yields_bind; [apply slice_mutator; [|apply be_bytes_u8]|].
  - intros Hn. apply (f_equal length) in Hn. by rewrite be_bytes_length in Hn.
  - intros o Ho. apply yields_ret. intros x Hx. destruct o as [slice|]; [|done].
    destruct (Ho slice eq_refl) as [Hl Hb]. cbn [mbind option_bind] in Hx.
    apply if_changed_spec in Hx as (-> & Hne). split; [|done].
    apply of_be_bytes_bound in Hb. rewrite Hl, be_bytes_length in Hb.
    change (256 ^ Z.of_nat 20) with (2 ^ 160) in Hb. unfold in_u, umax. lia.
Qed.

Lemma split_word size x :
  1 <= size <= 32 →
  drop (Z.to_nat size) (be_bytes 32 x) = be_bytes (32 - Z.to_nat size) x ∧
  length (take (Z.to_nat size) (be_bytes 32 x)) = Z.to_nat size.
Proof.
  intros Hs. split; [|rewrite length_take, be_bytes_length; lia].
  replace 32%nat with (Z.to_nat size + (32 - Z.to_nat size))%nat at 1 by lia.
  rewrite be_bytes_app. rewrite drop_app_length'; [done|]. by rewrite be_bytes_length.
Qed.

Lemma on_word_mutates `{!SliceMutator f} self size :
  1 <= size <= 32 → fits_word size self → mutates (fits_word size) self (on_word f self size).
Proof.
  intros Hs [Hu Hz]. destruct (split_word size self Hs) as [Hd Ht].
  unfold on_word. eapply yields_bind; [apply slice_mutator|].
  - intros Hn. rewrite Hn in Ht. simpl in Ht. lia.
  - apply Forall_take, be_bytes_u8.
  - intros o Ho. apply yields_ret. intros x Hx. destruct o as [slice|]; [|done].
    destruct (Ho slice eq_refl) as [Hl Hb]. cbn [mbind option_bind] in Hx. apply if_changed_spec in Hx as (-> & Hne).
    split; [|done]. rewrite Hd, of_be_bytes_app, be_bytes_length, of_be_bytes_be.
    assert (Hpow : 256 ^ Z.of_nat (32 - Z.to_nat size) = 2 ^ (8 * (32 - size))).
    { rewrite Z.pow_mul_r by lia. f_equal. lia. }
    rewrite Hpow, Hz, Z.add_0_r. apply of_be_bytes_bound in Hb. rewrite Hl, Ht in Hb.
    split; [|apply Z.mod_mul; lia].
    assert (256 ^ Z.of_nat (Z.to_nat size) * 2 ^ (8 * (32 - size)) = 2 ^ 256) as Htot.
    { rewrite <-Hpow, <-Z.pow_add_r by lia. change (2 ^ 256) with (256 ^ 32). f_equal. lia. }
    unfold in_u, umax. rewrite <-Htot. assert (0 < 2 ^ (8 * (32 - size))) by (apply Z.pow_pos_nonneg; lia). nia.
Qed.

Lemma uint_step_mutates self size :
  sized size → mutates (λ x, 0 <= x < umax size) self (uint_increment_decrement self size).
Proof.
  intros [Hs _]. unfold uint_increment_decrement.
  eapply yields_bind; [by apply (yields_sure _ (λ _, True))|]. intros up _. apply yields_ret.
  intros x Hx. apply validate_uint_spec in Hx as (-> & Hne & Hmax); [|done].
  split; [|done]. split; [|done]. destruct up; apply wrap_in_u; lia.
Qed.

Lemma int_step_mutates self size :
  sized size → mutates (λ x, Z.abs x < imax size) self (int_increment_decrement self size).
Proof.
  intros [Hs _]. unfold int_increment_decrement.
  eapply yields_bind; [by apply (yields_sure _ (λ _, True))|]. intros up _. apply yields_ret.
  intros x Hx. by apply validate_int_spec in Hx as (-> & Hne & Hmax).
Qed.
End typed.

(** ** The sign of a narrow integer is never mutated

    The bytes in front of the [size / 8] last ones hold the sign of an [I256];
    no mutation reaches them, so a result of the other sign is out of range. *)
Lemma swrap_neg x : in_u 256 x → (swrap 256 x < 0 ↔ 2 ^ 255 <= x).
Proof.
  intros Hx. unfold swrap. replace (x mod 2 ^ 256) with x by (symmetry; by apply wrap_id).
  z_case; revert Hx; width_lia.
Qed.

Lemma of_be_bytes_top l pad n :
  length l = 32%nat → Forall (in_u 8) l → (0 < n)%nat → take n l = pad →
  (2 ^ 255 <= of_be_bytes l ↔ 128 <= nth 0 pad 0).
Proof.
  intros Hl Hb Hn <-. destruct l as [|b l]; [done|]. destruct n as [|n]; [lia|]. cbn [take nth].
  rewrite of_be_bytes_cons. inversion Hb as [|?? Hb0 Hbl]; subst. apply of_be_bytes_bound in Hbl.
  injection Hl as Hl. rewrite Hl in *.
  change (Z.of_nat 31) with 31 in *. change (2 ^ 255) with (128 * 256 ^ 31).
  assert (0 < 256 ^ 31) by lia. nia.
Qed.

Lemma on_int_sign `{LawfulRng R} (f : list Z → Gen R (option (list Z))) `{!SliceMutator f} self size :
  sized size → size < 256 → in_i 256 self →
  yields (on_int f self size) (λ o, ∀ x, o = Some x → (x < 0 ↔ self < 0)).
Proof.
  intros Hs Hlt Hself. destruct (split_int size (wrap 256 self) Hs) as (Hd & Ht & Hk). destruct (Forall_split_int (Z.to_nat (32 - size / 8)) (wrap 256 self)) as [Hbt Hbd].
  assert (Hk' : 1 <= 32 - size / 8).
  { destruct Hs as [_ Hm]. pose proof (Z.div_mod size 8). lia. }
  unfold on_int. cbv zeta. eapply yields_bind; [apply slice_mutator; [|done]|].
  - intros Hn. rewrite Hn in Hd. simpl in Hd. lia.
  - intros o Ho. apply yields_ret. intros x Hx. destruct o as [slice|]; [|done]. cbn [mbind option_bind] in Hx.
    destruct (Ho slice eq_refl) as [Hl Hb].
    apply validate_int_spec in Hx as (-> & _ & _); [|apply Hs].
    set (pad := take (Z.to_nat (32 - size / 8)) (be_bytes 32 (wrap 256 self))) in *.
    assert (Hlen : length (pad ++ slice) = 32%nat) by (rewrite length_app; lia).
    assert (Hall : Forall (in_u 8) (pad ++ slice)) by (by apply Forall_app).
    pose proof (of_be_bytes_bound _ Hall) as Hbound. rewrite Hlen in Hbound.
    rewrite swrap_neg by (change (256 ^ Z.of_nat 32) with (2 ^ 256) in Hbound; unfold in_u, umax; lia).
    rewrite (of_be_bytes_top (pad ++ slice) pad (length pad)); [|done..|lia|apply take_app_length].
    assert (Hold : of_be_bytes (be_bytes 32 (wrap 256 self)) = wrap 256 self).
    { rewrite of_be_bytes_be. apply (wrap_id 256); [lia|apply wrap_in_u; lia]. }
    rewrite <-(of_be_bytes_top (be_bytes 32 (wrap 256 self)) pad (Z.to_nat (32 - size / 8)));
      [|apply be_bytes_length|apply be_bytes_u8|lia|done].
    rewrite Hold, <-swrap_neg by (apply wrap_in_u; lia).
    assert (swrap 256 (wrap 256 self) = self) as ->; [|done].
    unfold swrap, wrap. rewrite Z.mod_mod by lia. revert Hself. unfold in_i, imin, imax.
    change (256 - 1) with 255. intros Hself. destruct (Z.lt_ge_cases self 0).
    + replace (self mod 2 ^ 256) with (self + 2 ^ 256); [z_case; lia|].
      symmetry. rewrite <-(Z.mod_add self 1), Z.mod_small by lia. lia.
    + rewrite Z.mod_small by lia. z_case; lia.
Qed.

(** ** Flipping a bit *)

Lemma testbit_split a c n i :
  0 <= n → 0 <= c < 2 ^ n → 0 <= i →
  Z.testbit (a * 2 ^ n + c) i = if i <? n then Z.testbit c i else Z.testbit a (i - n).
Proof.
  intros Hn Hc Hi. z_case.
  - rewrite <-(Z.mod_pow2_bits_low (a * 2 ^ n + c) n i) by lia.
    by rewrite Z.add_comm, Z.mod_add, Z.mod_small by lia.
  - replace i with ((i - n) + n) at 1 by lia. rewrite <-Z.div_pow2_bits by lia.
    by rewrite Z.add_comm, Z.div_add, Z.div_small, Z.add_0_l by lia.
Qed.

Lemma lxor_split a c d e n :
  0 <= n → 0 <= c < 2 ^ n → 0 <= e < 2 ^ n → 0 <= Z.lxor c e < 2 ^ n →
  Z.lxor (a * 2 ^ n + c) (d * 2 ^ n + e) = Z.lxor a d * 2 ^ n + Z.lxor c e.
Proof.
  intros Hn Hc He Hx. apply Z.bits_inj'. intros i Hi.
  rewrite Z.lxor_spec, !testbit_split by done. z_case; by rewrite Z.lxor_spec.
Qed.

(** The bit of the number that index [i] stands for, in [n] bytes. *)
Definition flipped_bit (n i : Z) : Z := 8 * (n - 1 - i / 8) + i mod 8.

Lemma flip_bit_xor l i :
  Forall (in_u 8) l → 0 <= i < Z.of_nat (length l) * 8 →
  of_be_bytes (flip_bit i l) = Z.lxor (of_be_bytes l) (2 ^ flipped_bit (Z.of_nat (length l)) i).
Proof.
  intros Hb Hi. unfold flip_bit, flipped_bit.
  assert (Hlt : (Z.to_nat (i / 8) < length l)%nat).
  { assert (i / 8 < Z.of_nat (length l)) by (apply Z.div_lt_upper_bound; lia).
    assert (0 <= i / 8) by (apply Z.div_pos; lia). lia. }
  destruct (lookup_lt_is_Some_2 l _ Hlt) as [b Hl].
  pose proof (Z.mod_pos_bound i 8 ltac:(lia)) as Hj. set (j := i mod 8) in *.
  assert (Hidx : i / 8 = Z.of_nat (Z.to_nat (i / 8))) by (rewrite Z2Nat.id; [done|apply Z.div_pos; lia]).
  rewrite Hidx. set (k := Z.to_nat (i / 8)) in *. clearbody k. clear Hidx.
  pose proof (take_drop_middle l k b Hl) as Hsplit.
  assert (Hk : k = length (take k l)) by (rewrite length_take; lia).
  revert Hsplit Hk. generalize (take k l) (drop (S k) l). intros p s <- Hk. clear Hl Hlt.
  rewrite Nat2Z.id, alter_app_r_alt by lia. replace (k - length p)%nat with 0%nat by lia. cbn [alter list_alter].
  rewrite Hk.
  assert (Hj7 : 2 ^ j <= 2 ^ 7) by (apply Z.pow_le_mono_r; lia).
  assert (Hj8 : in_u 8 (2 ^ j)) by (split; [lia|]; change (umax 8) with (2 ^ 7 + 127); lia).
  rewrite Z.shiftl_1_l, (wrap_id 8) by (done || lia).
  apply Forall_app in Hb as [Hp [Hb0 Hs]%Forall_cons].
  rewrite !of_be_bytes_app, !of_be_bytes_cons. cbn [length]. rewrite length_app. cbn [length].
  apply of_be_bytes_bound in Hs. set (n := length s) in *.
  replace (8 * (Z.of_nat (length p + S n) - 1 - Z.of_nat (length p)) + j)
    with (j + 8 * Z.of_nat n) by lia.
  rewrite Z.pow_add_r, Z.pow_mul_r by lia. change (2 ^ 8) with 256.
  rewrite Nat2Z.inj_succ, Z.pow_succ_r by lia.
  assert (Hw : 256 ^ Z.of_nat n = 2 ^ (8 * Z.of_nat n)) by (by rewrite Z.pow_mul_r by lia).
  rewrite Hw in *.
  set (P := of_be_bytes p). set (S := of_be_bytes s) in *. set (w := 8 * Z.of_nat n) in *.
  assert (H8 : ∀ v, in_u 8 v → 0 <= v < 2 ^ 8) by (intros v; width_lia).
  assert (Hjb : 0 <= 2 ^ j < 2 ^ 8) by (split; [lia|apply Z.pow_lt_mono_r; lia]).
  replace (P * (256 * 2 ^ w) + (b * 2 ^ w + S)) with ((P * 2 ^ 8 + b) * 2 ^ w + S) by ring.
  replace (2 ^ j * 2 ^ w) with ((0 * 2 ^ 8 + 2 ^ j) * 2 ^ w + 0) by ring.
  rewrite lxor_split; [|lia|lia|lia|rewrite Z.lxor_0_r; lia].
  rewrite lxor_split; [|lia|by apply H8|done|].
  - rewrite !Z.lxor_0_r. ring.
  - apply H8, lxor_u8; [done|]. unfold in_u, umax. lia.
Qed.

(** [U256::flip_random_bit] is a choice of one of the [size] low bits of
    the number and an exclusive or with it: the walk over the bytes of the
    slice is another way to write it. *)
Theorem flip_is_xor `{LawfulRng R} self size (r : R) :
  sized size → in_u 256 self →
  uint_flip_random_bit self size r =
  (i ← random_range 0 (size - 1);
   mret (validate_uint_mutation self (Z.lxor self (2 ^ flipped_bit (size / 8) i)) size)) r.
Proof.
  intros Hs Hself. destruct (split_int size self Hs) as (Hd & Ht & Hk).
  destruct (Forall_split_int (Z.to_nat (32 - size / 8)) self) as [Hbt Hbd].
  destruct Hs as [Hs Hm]. assert (Hsize : size = 8 * (size / 8)) by (apply Z.div_exact; lia).
  assert (Hself' : of_be_bytes (be_bytes 32 self) = self).
  { rewrite of_be_bytes_be. by apply (wrap_id 256). }
  rewrite <-(take_drop (Z.to_nat (32 - size / 8)) (be_bytes 32 self)), of_be_bytes_app in Hself'.
  unfold uint_flip_random_bit, on_uint. cbv zeta.
  set (pad := take _ _) in *. set (bytes := drop _ _) in *. clearbody bytes pad.
  unfold flip_random_bit_in_slice. destruct bytes as [|b bytes]; [simpl in Hd; lia|].
  set (l := b :: bytes) in *. rewrite Hd, Z2Nat.id by lia.
  replace (size / 8 * 8 - 1) with (size - 1) by lia.
  pose proof (yields_range (R := R) 0 (size - 1) ltac:(lia) r) as (i & r' & Hr & Hi).
  unfold mbind, gen_bind, mret, gen_ret. rewrite Hr. cbn [option_bind]. do 3 f_equal.
  rewrite of_be_bytes_app, (proj1 (flip_bit_bytes i l Hbd)), flip_bit_xor by (done || lia).
  rewrite <-Hself', Hd. rewrite !Z2Nat.id by lia.
  assert (Hlt : 0 <= flipped_bit (size / 8) i < 8 * (size / 8)).
  { unfold flipped_bit. assert (0 <= i / 8) by (apply Z.div_pos; lia).
    assert (i / 8 < size / 8) by (apply Z.div_lt_upper_bound; lia).
    pose proof (Z.mod_pos_bound i 8). lia. }
  apply of_be_bytes_bound in Hbd as Hb. rewrite Hd, Z2Nat.id in Hb by lia.
  assert (Hw : 256 ^ (size / 8) = 2 ^ (8 * (size / 8))) by (by rewrite Z.pow_mul_r by lia).
  rewrite Hw in *.
  replace (2 ^ flipped_bit (size / 8) i) with (0 * 2 ^ (8 * (size / 8)) + 2 ^ flipped_bit (size / 8) i)
    at 2 by ring.
  assert (2 ^ flipped_bit (size / 8) i < 2 ^ (8 * (size / 8))) by (apply Z.pow_lt_mono_r; lia).
  rewrite lxor_split, Z.lxor_0_r; [done|lia|lia|lia|].
  pose proof (flip_bit_xor l i Hbd ltac:(lia)) as Hx. rewrite Hd, Z2Nat.id in Hx by lia.
  rewrite <-Hx. destruct (flip_bit_bytes i l Hbd) as [Hl Hf].
  apply of_be_bytes_bound in Hf. rewrite Hl, Hd, Z2Nat.id, Hw in Hf by lia. done.
Qed.

Import Script.

Lemma flip_is_xor_witness :
  sized 16 ∧ in_u 256 5 ∧
  uint_flip_random_bit (R := list Z) 5 16 [9] =
    (i ← random_range 0 (16 - 1);
     mret (validate_uint_mutation 5 (Z.lxor 5 (2 ^ flipped_bit (16 / 8) i)) 16)) [9].
Proof.
  assert (Hs : sized 16) by (split; [lia|reflexivity]).
  assert (Hu : in_u 256 5) by width_lia.
  split; [exact Hs|]. split; [exact Hu|]. exact (flip_is_xor 5 16 [9] Hs Hu).
Defined.

(** ** Bounding *)

Section bound.
Context `{LawfulRng R}.
Local Abbreviation Gen := (Gen R).

(** The value of the [k]-th run of a computation. *)
Fixpoint nth_draw (k : nat) (m : Gen Z) (r : R) : option Z :=
  match m r with
  | Some (x, r') => match k with O => Some x | S k => nth_draw k m r' end
  | None => None
  end.

Lemma draw_other_yields fuel m self (P : Z → Prop) :
  yields m P → yields (draw_other (R := R) fuel m self) (λ o, ∀ x, o = Some x → P x ∧ x ≠ self).
Proof.
  intros Hm. induction fuel as [|fuel IH]; cbn [draw_other]; [by apply yields_ret|].
  eapply yields_bind; [done|]. intros c Hc. destruct (Z.eqb_spec c self); [done|].
  apply yields_ret. by intros x [= <-].
Qed.

(** The loop ends as soon as a candidate differs. *)
Lemma draw_other_returns k m self (P : Z → Prop) r x fuel :
  yields m P → nth_draw k m r = Some x → x ≠ self → (k < fuel)%nat →
  ∃ y r', draw_other fuel m self r = Some (Some y, r').
Proof.
  intros Hm. revert r fuel. induction k as [|k IH]; intros r [|fuel] Hk Hx Hf; try lia;
    cbn [draw_other]; unfold mbind, gen_bind;
    destruct (Hm r) as (c & r' & Hr & _); cbn [nth_draw] in Hk; rewrite Hr in *.
  - injection Hk as ->. rewrite (proj2 (Z.eqb_neq _ _) Hx). by eexists _, _.
  - destruct (Z.eqb_spec c self); [|by eexists _, _]. apply IH; [done..|lia].
Qed.

Lemma uint_candidate_yields min max :
  in_u 256 min → in_u 256 max → min < max →
  yields (uint_candidate (R := R) min max) (λ c, min <= c <= max ∧ c < min + 2 ^ 128).
Proof.
  intros Hmin Hmax Hlt. unfold in_u in *. unfold uint_candidate.
  eapply yields_bind; [by apply yields_range|]. intros bits Hbits. cbv zeta.
  eapply (yields_bind _ _ (in_u 128)); [apply yields_sure; intros r; by apply rng_bits_in|].
  intros rand Hrand. apply yields_ret.
  rewrite (wrap_id 256 (max - min)) by (unfold in_u; lia).
  assert (Hsat : u_saturating_add 256 (max - min) 1 = Z.min (umax 256) (max - min + 1)) by done.
  rewrite Hsat. clear Hsat. set (range := Z.min _ _).
  assert (Hrange : 0 < range <= max - min + 1) by (unfold range, umax in *; lia).
  set (mask := wrap 256 (wrap 256 (Z.shiftl 1 bits) - 1)).
  assert (Hmask : 0 <= mask) by (apply (wrap_in_u 256); lia).
  assert (Hland : 0 <= Z.land rand mask < 2 ^ 128).
  { destruct Hrand as [Hr0 Hr1]. split; [apply Z.land_nonneg; by left|].
    rewrite <-(Z.mod_small rand (2 ^ 128)) by (unfold umax in Hr1; lia).
    rewrite <-Z.land_ones, <-Z.land_assoc, (Z.land_comm _ mask), Z.land_assoc by lia.
    rewrite Z.land_ones by lia. apply Z.mod_pos_bound. lia. }
  pose proof (Z.mod_pos_bound (Z.land rand mask) range ltac:(lia)) as Hc.
  pose proof (Z.mod_le (Z.land rand mask) range ltac:(lia) ltac:(lia)) as Hle.
  rewrite wrap_id by (unfold in_u; lia). lia.
Qed.

Lemma i256_saturate_id x : in_i 256 x → i256_saturate x = x.
Proof. unfold in_i, i256_saturate. lia. Qed.

Lemma swrap_256 x : in_i 256 x → swrap 256 x = x.
Proof.
  unfold in_i, imin, imax, swrap. change (256 - 1) with 255. intros Hx.
  destruct (Z.lt_ge_cases x 0).
  - replace (x mod 2 ^ 256) with (x + 2 ^ 256); [unfold imax; change (256 - 1) with 255; z_case; lia|].
    symmetry. rewrite <-(Z.mod_add x 1), Z.mod_small by lia. lia.
  - rewrite Z.mod_small by lia. unfold imax. change (256 - 1) with 255. z_case; lia.
Qed.

Lemma int_to_range_in s min max :
  in_i 256 min → in_i 256 max → min < max → min <= int_to_range s min max <= max.
Proof.
  intros Hmin Hmax Hlt. unfold int_to_range.
  assert (Hr : 2 <= Z.abs (i256_saturate (i256_saturate (max - min) + 1)) <=
               Z.min (imax 256) (max - min + 1)).
  { unfold i256_saturate, in_i in *. revert Hmin Hmax. width_unfold.
    change (2 ^ (256 - 1)) with (2 ^ 255). set (M := 2 ^ 255).
    assert (2 ^ 10 <= M) by (apply Z.pow_le_mono_r; lia). intros. lia. }
  set (range := Z.abs (i256_saturate _)) in *. cbv zeta.
  pose proof (Z.mod_pos_bound (Z.abs s) range ltac:(lia)) as Hw.
  set (w := Z.abs s `mod` range) in *.
  assert (Hi : in_i 256 w).
  { split; [|lia]. unfold imin. change (256 - 1) with 255. lia. }
  rewrite (swrap_256 w Hi). unfold in_i in *.
  destruct (s <? 0); rewrite swrap_256 by (unfold in_i; lia); lia.
Qed.

Lemma int_candidate_yields min max :
  in_i 256 min → in_i 256 max → min < max →
  yields (int_candidate (R := R) min max) (λ c, min <= c <= max).
Proof.
  intros Hmin Hmax Hlt. unfold int_candidate.
  eapply yields_bind; [by apply yields_range|]. intros bits _.
  eapply (yields_bind _ _ (λ _, True)); [by apply yields_sure|]. intros low _.
  eapply (yields_bind _ _ (λ _, True)); [by apply yields_sure|]. intros high _.
  apply yields_ret. by apply int_to_range_in.
Qed.

(** When a bound is accepted at all. *)
Lemma bound_guard self min max :
  (max <? min) || (self <? min) || (max <? self) || (min =? max) = false ↔
  min <= self <= max ∧ min < max.
Proof. rewrite !orb_false_iff, !Z.ltb_ge, Z.eqb_neq. lia. Qed.

(** Bounding an integer never panics or overflows; what it returns is in
    the bounds and is not the value itself, and it returns nothing unless the
    value is in a range of at least two values. *)
Theorem bound_in_range fuel self min max :
  (in_u 256 min → in_u 256 max →
   yields (uint_bound (R := R) fuel self min max) (λ o, ∀ x, o = Some x →
     min <= self <= max ∧ min <= x <= max ∧ x ≠ self)) ∧
  (in_i 256 min → in_i 256 max →
   yields (int_bound (R := R) fuel self min max) (λ o, ∀ x, o = Some x →
     min <= self <= max ∧ min <= x <= max ∧ x ≠ self)).
Proof.
  unfold uint_bound, int_bound. split; intros Hmin Hmax;
    (destruct (_ || _) eqn:Hg; [by apply yields_ret|]); apply bound_guard in Hg as [Hself Hlt].
  - eapply yields_weaken; [apply draw_other_yields, (uint_candidate_yields min max); done|].
    cbn. naive_solver.
  - eapply yields_weaken; [apply draw_other_yields, (int_candidate_yields min max); done|].
    cbn. naive_solver.
Qed.

(** The loop of a bound returns a value as soon as one of its candidates is
    not the value itself. *)
Theorem bound_returns k self min max r x fuel :
  in_u 256 min → in_u 256 max → min <= self <= max → min < max →
  nth_draw k (uint_candidate min max) r = Some x → x ≠ self → (k < fuel)%nat →
  ∃ y r', uint_bound fuel self min max r = Some (Some y, r') ∧ min <= y <= max.
Proof.
  intros Hmin Hmax Hself Hlt Hk Hx Hf. unfold uint_bound.
  rewrite (proj2 (bound_guard self min max)) by done.
  pose proof (uint_candidate_yields min max Hmin Hmax Hlt) as Hc.
  destruct (draw_other_returns k _ self _ r x fuel Hc Hk Hx Hf) as (y & r' & Hr).
  exists y, r'. split; [done|].
  destruct (draw_other_yields fuel _ self _ Hc r) as (o & r'' & Hr' & Ho).
  rewrite Hr in Hr'. simplify_eq. by destruct (Ho y eq_refl) as [[? _] _].
Qed.

(** A bound only draws 128 random bits: a value [2^128] above the least one is
    never returned. *)
Theorem bound_misses_the_top fuel self min max :
  in_u 256 min → in_u 256 max →
  only (uint_bound (R := R) fuel self min max) (λ o, ∀ x, o = Some x → x < min + 2 ^ 128).
Proof.
  intros Hmin Hmax. apply yields_only. unfold uint_bound.
  destruct (_ || _) eqn:Hg; [by apply yields_ret|]. apply bound_guard in Hg as [Hself Hlt].
  eapply yields_weaken; [apply draw_other_yields, (uint_candidate_yields min max); done|].
  cbn. naive_solver.
Qed.

(** The mutators of [intN] never change the sign for [N < 256]: only the last
    [N / 8] bytes of the 256-bit number are mutated and its sign is not in
    them, so that the negative ones of the interesting values are only ever
    written into negative numbers. *)
Theorem narrow_int_keeps_sign self size :
  sized size → size < 256 → in_i 256 self →
  only (int_mutate_interesting_byte (R := R) self size) (λ o, ∀ x, o = Some x → (x < 0 ↔ self < 0)) ∧
  only (int_flip_random_bit (R := R) self size) (λ o, ∀ x, o = Some x → (x < 0 ↔ self < 0)).
Proof.
  intros Hs Hlt Hself.
  split; apply yields_only; apply on_int_sign; done || apply _.
Qed.
End bound.

Lemma bound_in_range_witness :
  in_i 256 (-10) ∧ in_i 256 10 ∧
  yields (int_bound (R := list Z) 3 5 (-10) 10)
    (λ o, ∀ x, o = Some x → -10 <= 5 <= 10 ∧ -10 <= x <= 10 ∧ x ≠ 5).
Proof.
  assert (Hmin : in_i 256 (-10)) by width_lia. assert (Hmax : in_i 256 10) by width_lia.
  split; [exact Hmin|]. split; [exact Hmax|].
  exact (proj2 (bound_in_range (R := list Z) 3 5 (-10) 10) Hmin Hmax).
Defined.

Lemma bound_returns_witness :
  ∃ y r', uint_bound (R := list Z) 2 5 0 10 [0; 5; 0; 6] = Some (Some y, r') ∧ 0 <= y <= 10.
Proof.
  assert (Hmin : in_u 256 0) by width_lia. assert (Hmax : in_u 256 10) by width_lia.
  assert (Hd : nth_draw 1 (uint_candidate (R := list Z) 0 10) [0; 5; 0; 6] = Some 6)
    by (vm_compute; reflexivity).
  apply (bound_returns 1 5 0 10 [0; 5; 0; 6] 6 2 Hmin Hmax); [lia|lia|exact Hd|lia|lia].
Defined.

(** ** Scaling *)

Definition scaled_by_one (b : Z) : spec_float :=
  f64_mul (f64_add (f64_of_Z b) (f64_mul (f64_of_Z 0) (f64_of_Z 256))) (f64_of_Z 1).

(** What the loop computes of a byte is exact, and carries nothing. *)
Definition exact_byte (b : Z) : Prop :=
  SFleb (f64_of_Z 256) (scaled_by_one b) = false ∧
  f64_as_u8 (f64_floor (f64_rem_pow2 8 (scaled_by_one b))) = b ∧
  SFltb (f64_of_Z 0) (f64_floor (f64_div (scaled_by_one b) (f64_of_Z 256))) = false ∧
  f64_div (f64_rem_pow2 0 (scaled_by_one b)) (f64_of_Z 1) = f64_of_Z 0.

Lemma byte_is_exact b : in_u 8 b → exact_byte b.
Proof.
  intros Hin. assert (Hall : Forall (λ n : nat, exact_byte (Z.of_nat n)) (seq 0 256)).
  { repeat (constructor; [vm_compute; split_and!; reflexivity|]). constructor. }
  rewrite Forall_forall in Hall. specialize (Hall (Z.to_nat b)).
  assert (0 <= b <= 255) by (revert Hin; width_lia). rewrite Z2Nat.id in Hall by lia.
  apply Hall. apply elem_of_seq. lia.
Qed.

(** Scaling by one is the identity. *)
Lemma scale_by_one bytes :
  Forall (in_u 8) bytes → apply_scale_to_bytes bytes (f64_of_Z 1) = Some bytes.
Proof.
  intros Hb. unfold apply_scale_to_bytes. f_equal.
  generalize (length bytes). intros n. induction n as [|n IH]; [done|]. cbn [scale_loop].
  destruct (Nat.lt_ge_cases n (length bytes)) as [Hlt|Hge].
  - destruct (lookup_lt_is_Some_2 bytes n Hlt) as [b Hn].
    assert (nth n bytes 0 = b) as ->.
    { rewrite <-(nth_lookup_Some bytes n 0 b Hn). done. }
    rewrite Forall_lookup in Hb.
    destruct (byte_is_exact b (Hb n b Hn)) as (H1 & H2 & H3 & H4). fold (scaled_by_one b).
    rewrite H1, H2, H4, andb_false_r, list_insert_id by done.
    destruct n as [|n]; cbn [propagate_carry]; [done|]. by rewrite H3.
  - destruct (byte_is_exact 0) as (H1 & H2 & H3 & H4); [width_lia|].
    rewrite nth_overflow by lia. fold (scaled_by_one 0). rewrite H1, H2, H4, andb_false_r, list_insert_ge by lia.
    destruct n as [|n]; cbn [propagate_carry]; [done|]. by rewrite H3.
Qed.

(** A carry is added to the next byte before that byte is scaled, so that it is
    scaled once more: twice 0x01c805 is 0x03900a, the code has 0x04900a. *)
Example carry_scaled_twice :
  apply_scale_to_bytes [1; 200; 5] (f64_of_Z 2) = Some [4; 144; 10] ∧
  be_bytes 3 (2 * of_be_bytes [1; 200; 5]) = [3; 144; 10].
Proof. split; vm_compute; reflexivity. Qed.
