(* ===== verification/FsPermissions.v ===== *)
(** * File system permissions of cheatcodes

    Models [crates/config/src/fs_permissions.rs]: which permission applies to
    a path, and how permissions are written in a configuration.  A path is its
    list of components, as [Path::components] yields them; resolving it in the
    file system ([dunce::canonicalize]) is an argument. *)
From S2P Require Import Prelude.
Local Open Scope nat_scope.

Inductive Component := RootDir | CurDir | ParentDir | Normal (name : string).
#[export] Instance Component_eq_dec : EqDecision Component.
Proof. solve_decision. Defined.

Abbreviation Path := (list Component).

(** [Path::join] *)
Definition path_join (root p : Path) : Path :=
  match p with
  | RootDir :: _ => p
  | CurDir :: rest => match root with [] => p | _ => root ++ rest end
  | _ => root ++ p
  end.

Definition path_starts_with (p base : Path) : bool := bool_decide (base `prefix_of` p).

Inductive FsAccessKind := ReadKind | WriteKind.
Inductive FsAccessPermission := NonePermission | Read | Write | ReadWrite.
#[export] Instance FsAccessPermission_eq_dec : EqDecision FsAccessPermission.
Proof. solve_decision. Defined.

Definition is_granted (p : FsAccessPermission) (kind : FsAccessKind) : bool :=
  match p, kind with
  | ReadWrite, _ => true
  | Write, WriteKind => true
  | Read, ReadKind => true
  | _, _ => false
  end.

Record PathPermission := mkPathPermission { access : FsAccessPermission; path : Path }.

Definition PathPermission_is_granted (p : PathPermission) (kind : FsAccessKind) : bool :=
  is_granted (access p) kind.

Abbreviation FsPermissions := (list PathPermission).

Definition add (s : FsPermissions) (permission : PathPermission) : FsPermissions := s ++ [permission].

Definition join_all (root : Path) (s : FsPermissions) : FsPermissions :=
  (λ perm, mkPathPermission (access perm) (path_join root (path perm))) <$> s.

Definition remove (s : FsPermissions) (p : Path) : FsPermissions :=
  filter (λ permission, path permission ≠ p) s.

(** "Same path length, keep the highest privilege" *)
Definition highest (highest_permission access : FsAccessPermission) : FsAccessPermission :=
  match highest_permission, access with
  | ReadWrite, _ | Read, Write | Write, Read => ReadWrite
  | NonePermission, perm => perm
  | existing_perm, _ => existing_perm
  end.

Section permissions.
Variable canonicalize : Path → option Path.

Definition permission_path (perm : PathPermission) : Path := default (path perm) (canonicalize (path perm)).

Definition find_step (p : Path) (acc : nat * FsAccessPermission) (perm : PathPermission)
    : nat * FsAccessPermission :=
  let '(max_path_len, highest_permission) := acc in
  if path_starts_with p (permission_path perm) then
    let path_len := length (permission_path perm) in
    if max_path_len <? path_len then (path_len, access perm)
    else if path_len =? max_path_len then (max_path_len, highest highest_permission (access perm))
    else acc
  else acc.

Definition find_permission (s : FsPermissions) (p : Path) : option FsAccessPermission :=
  let '(max_path_len, highest_permission) := foldl (find_step p) (0, NonePermission) s in
  if 0 <? max_path_len then Some highest_permission else None.

Definition is_path_allowed (s : FsPermissions) (p : Path) (kind : FsAccessKind) : bool :=
  match find_permission s p with Some perm => is_granted perm kind | None => false end.
End permissions.

(** ** Configuration values *)

Local Open Scope string_scope.

Definition from_str (s : string) : result string FsAccessPermission :=
  if bool_decide (s = "true") || bool_decide (s = "read-write") || bool_decide (s = "readwrite") then
    Ok ReadWrite
  else if bool_decide (s = "false") || bool_decide (s = "none") then Ok NonePermission
  else if bool_decide (s = "read") then Ok Read
  else if bool_decide (s = "write") then Ok Write
  else Err ("Unknown variant " ++ s)%string.

Definition display (p : FsAccessPermission) : string :=
  match p with
  | ReadWrite => "read-write"
  | NonePermission => "none"
  | Read => "read"
  | Write => "write"
  end.

(** The values that [Status] can be deserialized from. *)
Inductive Status := Bool (enabled : bool) | String (val : string).

Definition serialize (p : FsAccessPermission) : Status :=
  match p with
  | ReadWrite => Bool true
  | NonePermission => Bool false
  | Read => String "read"
  | Write => String "write"
  end.

Definition deserialize (s : Status) : result string FsAccessPermission :=
  match s with
  | Bool enabled => Ok (if enabled then ReadWrite else NonePermission)
  | String val => from_str val
  end.

Local Close Scope string_scope.

(** ** Which permission applies *)

Section theorems.
Variable canonicalize : Path → option Path.

Definition covers (perm : PathPermission) (p : Path) : Prop :=
  permission_path canonicalize perm `prefix_of` p.
Definition perm_len (perm : PathPermission) : nat := length (permission_path canonicalize perm).

Lemma highest_granted a b kind :
  is_granted (highest a b) kind = true → is_granted a kind = true ∨ is_granted b kind = true.
Proof. destruct a, b, kind; auto. Qed.

Lemma highest_grants a b kind :
  (b = ReadWrite → a = ReadWrite ∨ a = NonePermission) →
  is_granted a kind = true ∨ is_granted b kind = true → is_granted (highest a b) kind = true.
Proof. destruct a, b, kind; naive_solver. Qed.

(** Full access next to partial access, on covering paths of one length. *)
Definition compatible (p : Path) (s : FsPermissions) : Prop :=
  ∀ q q', q ∈ s → q' ∈ s → covers q p → covers q' p → perm_len q = perm_len q' →
    access q = ReadWrite → access q' = ReadWrite ∨ access q' = NonePermission.

Definition grants (p : Path) (s : FsPermissions) (len : nat) (kind : FsAccessKind) : Prop :=
  ∃ perm, perm ∈ s ∧ covers perm p ∧ perm_len perm = len ∧ is_granted (access perm) kind = true.

(** What the loop knows after the permissions [s]. *)
Record found (p : Path) (s : FsPermissions) (acc : nat * FsAccessPermission) : Prop := {
  f_max : ∀ perm, perm ∈ s → covers perm p → perm_len perm ≤ acc.1;
  f_some : acc.1 ≠ 0 → ∃ perm, perm ∈ s ∧ covers perm p ∧ perm_len perm = acc.1;
  f_sound : ∀ kind, is_granted acc.2 kind = true → grants p s acc.1 kind;
  f_complete : compatible p s → ∀ kind, grants p s acc.1 kind → is_granted acc.2 kind = true;
}.

Lemma elem_of_snoc {A} (l : list A) x y : x ∈ l ++ [y] ↔ x ∈ l ∨ x = y.
Proof. by rewrite elem_of_app, list_elem_of_singleton. Qed.

Lemma grants_snoc p s perm len kind :
  grants p (s ++ [perm]) len kind ↔ grants p s len kind ∨
    (covers perm p ∧ perm_len perm = len ∧ is_granted (access perm) kind = true).
Proof.
  unfold grants. split.
  - intros (q & [Hq| ->]%elem_of_snoc & Hrest); [left; by exists q|right; done].
  - intros [(q & Hq & Hrest)|Hrest]; [exists q|exists perm]; rewrite elem_of_snoc; auto.
Qed.

Lemma compatible_snoc p s perm : compatible p (s ++ [perm]) → compatible p s.
Proof. intros Hc q q' Hq Hq'. apply Hc; apply elem_of_snoc; by left. Qed.

(** A new permission of the longest length does not lose full access. *)
Lemma same_len_highest p s len hi perm :
  found p s (len, hi) → compatible p (s ++ [perm]) → covers perm p → perm_len perm = len →
  access perm = ReadWrite → hi = ReadWrite ∨ hi = NonePermission.
Proof.
  intros Hf Hcomp Hc Hl Hrw.
  assert (Hgen : ∀ kind, is_granted hi kind = true → hi = ReadWrite).
  { intros kind Hk. destruct (f_sound _ _ _ Hf kind Hk) as (q & Hq & Hcq & Hlq & Hgq).
    assert (Hq' : access q = ReadWrite).
    { destruct (Hcomp perm q) as [?|Hn]; try done; [by apply elem_of_snoc; right|
        by apply elem_of_snoc; left|by rewrite Hl|by rewrite Hn in Hgq]. }
    assert (Hall : ∀ k, is_granted hi k = true).
    { intros k. apply (f_complete _ _ _ Hf); [by eapply compatible_snoc|]. exists q.
      rewrite Hq'. by destruct k. }
    pose proof (Hall ReadKind). pose proof (Hall WriteKind). by destruct hi. }
  destruct hi; [by right|left; by apply (Hgen ReadKind)|left; by apply (Hgen WriteKind)|by left].
Qed.

Lemma find_step_found p s acc perm :
  found p s acc → found p (s ++ [perm]) (find_step canonicalize p acc perm).
Proof.
  intros Hf. pose proof Hf as [Hmax Hex Hs Hk]. destruct acc as [len hi]. unfold find_step. simpl in *.
  fold (perm_len perm).
  assert (Hex' : len ≠ 0 → ∃ q, q ∈ s ++ [perm] ∧ covers q p ∧ perm_len q = len).
  { intros Hlen. destruct (Hex Hlen) as (q & Hq & ?). exists q. by rewrite elem_of_snoc; auto. }
  unfold path_starts_with. case_bool_decide as Hc.
  2:{ change (¬ covers perm p) in Hc. constructor; simpl; try done.
      - intros q [Hq| ->]%elem_of_snoc Hcq; [by apply Hmax|done].
      - intros kind ?%Hs. apply grants_snoc. by left.
      - intros Hcomp%compatible_snoc kind [?|[??]]%grants_snoc; [by apply Hk|done]. }
  change (covers perm p) in Hc. destruct (Nat.ltb_spec len (perm_len perm)) as [Hlt|Hge].
  { assert (Hno : ∀ kind, ¬ grants p s (perm_len perm) kind).
    { intros kind (q & Hq & Hcq & Hl & _). specialize (Hmax q Hq Hcq). lia. }
    constructor; simpl.
    - intros q [Hq| ->]%elem_of_snoc Hcq; [|done]. specialize (Hmax q Hq Hcq). lia.
    - intros _. exists perm. by rewrite elem_of_snoc; auto.
    - intros kind Hg. apply grants_snoc. by right.
    - intros _ kind [Hg|(_ & _ & Hg)]%grants_snoc; [by apply Hno in Hg|done]. }
  assert (Hmax' : ∀ q, q ∈ s ++ [perm] → covers q p → perm_len q ≤ len).
  { intros q [Hq| ->]%elem_of_snoc Hcq; [by apply Hmax|done]. }
  destruct (Nat.eqb_spec (perm_len perm) len) as [He|Hne]; constructor; simpl; try done.
  - intros kind [?%Hs|?]%highest_granted; apply grants_snoc; auto.
  - intros Hcomp kind Hg. apply highest_grants.
    + intros Hrw. by apply (same_len_highest p s len hi perm).
    + apply grants_snoc in Hg as [Hg|(_ & _ & Hg)]; [left|by right].
      apply Hk; [by eapply compatible_snoc|done].
  - intros kind ?%Hs. apply grants_snoc. by left.
  - intros Hcomp%compatible_snoc kind [?|(_ & ? & _)]%grants_snoc; [by apply Hk|done].
Qed.

Lemma find_loop_found p s : found p s (foldl (find_step canonicalize p) (0, NonePermission) s).
Proof.
  induction s as [|perm s IH] using rev_ind.
  - constructor; simpl.
    + intros q Hq. by apply not_elem_of_nil in Hq.
    + done.
    + by intros [].
    + intros _ kind (q & Hq & _). by apply not_elem_of_nil in Hq.
  - rewrite foldl_app. by apply find_step_found.
Qed.

(** Some permission of the longest covering path grants the access. *)
Definition longest_grants (s : FsPermissions) (p : Path) (kind : FsAccessKind) : Prop :=
  ∃ perm, perm ∈ s ∧ covers perm p ∧ perm_len perm ≠ 0 ∧ is_granted (access perm) kind = true ∧
    ∀ perm', perm' ∈ s → covers perm' p → perm_len perm' ≤ perm_len perm.

(** Access to a path is only allowed when some permission with the
    longest path, in components, among those that cover it grants that
    access; permissions of shorter paths play no part.  It is allowed then,
    unless full and partial access are given to covering paths of one
    length. *)
Theorem path_allowed_longest s p kind :
  (is_path_allowed canonicalize s p kind = true → longest_grants s p kind) ∧
  (compatible p s → longest_grants s p kind → is_path_allowed canonicalize s p kind = true).
Proof.
  unfold is_path_allowed, find_permission. destruct (find_loop_found p s) as [Hmax Hex Hs Hk].
  destruct (foldl _ _ s) as [len hi]. simpl in *. destruct (Nat.ltb_spec 0 len); split; try done.
  - intros (q & Hq & Hc & Hl & Hg)%Hs. exists q. do 2 (split; [done|]). split; [lia|]. split; [done|].
    intros q' Hq' Hc'. rewrite Hl. by apply Hmax.
  - intros Hcomp (q & Hq & Hc & _ & Hg & Hle). apply Hk; [done|]. exists q. do 2 (split; [done|]).
    split; [|done]. specialize (Hmax q Hq Hc). destruct (Hex ltac:(lia)) as (q' & Hq' & Hc' & Hl').
    specialize (Hle q' Hq' Hc'). lia.
  - intros _ (q & Hq & Hc & Hl & _). specialize (Hmax q Hq Hc). lia.
Qed.
End theorems.

Lemma path_allowed_longest_witness :
  let s := [mkPathPermission ReadWrite [CurDir; Normal "out"];
            mkPathPermission Read [CurDir; Normal "out"; Normal "contracts"]] in
  let p := [CurDir; Normal "out"; Normal "contracts"; Normal "C.sol"] in
  (is_path_allowed (λ _, None) s p ReadKind = true → longest_grants (λ _, None) s p ReadKind) ∧
  (compatible (λ _, None) p s → longest_grants (λ _, None) s p ReadKind →
   is_path_allowed (λ _, None) s p ReadKind = true).
Proof.
  apply (path_allowed_longest (λ _, None)).
Defined.

(** A permission reads back as itself, from the value it is serialized
    to and from its display form. *)
Theorem permission_roundtrip p :
  deserialize (serialize p) = Ok p ∧ from_str (display p) = Ok p.
Proof. by destruct p. Qed.

(** Full access to a path is lost when partial access to the same path
    is listed before it, and kept when it is listed after; read and write
    access add up in both orders. *)
Theorem full_access_lost :
  let p := [CurDir; Normal "out"] in
  let find a b :=
    find_permission (λ _, None) [mkPathPermission a p; mkPathPermission b p] (p ++ [Normal "f"]) in
  find Read ReadWrite = Some Read ∧ find Write ReadWrite = Some Write ∧
  find ReadWrite Read = Some ReadWrite ∧ find ReadWrite Write = Some ReadWrite ∧
  find Read Write = Some ReadWrite ∧ find Write Read = Some ReadWrite.
Proof. by vm_compute. Qed.
