(* ===== verification/Fees.v ===== *)
(** * Fees of the node

    Models [crates/anvil/src/eth/fees.rs]: the fee manager, the fees of a
    request, and the fee history cache.  The calculations of the EIPs
    ([calc_next_block_base_fee] and those of [BlobParams]) and the hardfork
    numbers are arguments; floating-point fields (the elasticity and the used
    ratios) and the reward percentiles are not modelled, a cache item is any
    value. *)
From S2P Require Import Prelude.
Local Open Scope Z_scope.

(** ** The fee manager *)

Section fee_manager.
Context {BlobParams BlobExcessGasAndPrice BaseFeeParams : Type}.
Variable excess_blob_gas : BlobExcessGasAndPrice → Z.
Variable blob_gasprice : BlobExcessGasAndPrice → Z.
Variable calc_blob_fee : BlobParams → Z → Z.
Variable next_block_excess_blob_gas_osaka : BlobParams → Z → Z → Z → Z.
Variable calc_next_block_base_fee : Z → Z → Z → BaseFeeParams → Z.
Variable LONDON CANCUN : Z.

Record FeeManager := mkFeeManager {
  spec_id : Z;
  fm_blob_params : BlobParams;
  fm_base_fee : Z;                       (* u64 *)
  is_min_priority_fee_enforced : bool;
  blob_excess_gas_and_price : BlobExcessGasAndPrice;
  gas_price : Z;                         (* u128 *)
  base_fee_params : BaseFeeParams;
}.

Definition FeeManager_new spec_id base_fee enforced gas_price blob_excess blob_params params :=
  mkFeeManager spec_id blob_params base_fee enforced blob_excess gas_price params.

Definition is_eip1559 (m : FeeManager) : bool := LONDON <=? spec_id m.
Definition is_eip4844 (m : FeeManager) : bool := CANCUN <=? spec_id m.

Definition base_fee (m : FeeManager) : Z := if is_eip1559 m then fm_base_fee m else 0.
Definition base_fee_per_blob_gas (m : FeeManager) : Z :=
  if is_eip4844 m then blob_gasprice (blob_excess_gas_and_price m) else 0.
Definition blob_gas_price (m : FeeManager) : Z :=
  if is_eip4844 m then base_fee_per_blob_gas m else 0.
Definition excess_blob_gas_and_price (m : FeeManager) : option BlobExcessGasAndPrice :=
  if is_eip4844 m then Some (blob_excess_gas_and_price m) else None.

Definition set_gas_price (price : Z) (m : FeeManager) := mkFeeManager (spec_id m)
  (fm_blob_params m) (fm_base_fee m) (is_min_priority_fee_enforced m) (blob_excess_gas_and_price m)
  price (base_fee_params m).
Definition set_base_fee (fee : Z) (m : FeeManager) := mkFeeManager (spec_id m)
  (fm_blob_params m) fee (is_min_priority_fee_enforced m) (blob_excess_gas_and_price m)
  (gas_price m) (base_fee_params m).
Definition set_blob_excess_gas_and_price b (m : FeeManager) := mkFeeManager (spec_id m)
  (fm_blob_params m) (fm_base_fee m) (is_min_priority_fee_enforced m) b
  (gas_price m) (base_fee_params m).
Definition set_blob_params b (m : FeeManager) := mkFeeManager (spec_id m)
  b (fm_base_fee m) (is_min_priority_fee_enforced m) (blob_excess_gas_and_price m)
  (gas_price m) (base_fee_params m).

Definition get_next_block_base_fee_per_gas (m : FeeManager)
    (gas_used gas_limit last_fee_per_gas : Z) : Z :=
  if base_fee m =? 0 then 0
  else calc_next_block_base_fee gas_used gas_limit last_fee_per_gas (base_fee_params m).

Definition get_next_block_blob_base_fee_per_gas (m : FeeManager) : Z :=
  calc_blob_fee (fm_blob_params m) (excess_blob_gas (blob_excess_gas_and_price m)).

Definition get_next_block_blob_excess_gas (m : FeeManager) (blob_gas_used blob_excess_gas : Z) : Z :=
  next_block_excess_blob_gas_osaka (fm_blob_params m) blob_excess_gas blob_gas_used (base_fee m).
End fee_manager.

(** ** The fees of a request *)

Record FeeDetails := mkFeeDetails {
  fd_gas_price : option Z;
  max_fee_per_gas : option Z;
  max_priority_fee_per_gas : option Z;
  max_fee_per_blob_gas : option Z;
}.

Inductive BlockchainError := InvalidFeeInput.

Definition FeeDetails_zero : FeeDetails := mkFeeDetails (Some 0) (Some 0) (Some 0) None.

Definition or_zero_fees (d : FeeDetails) : FeeDetails :=
  let no_fees := bool_decide (fd_gas_price d = None) && bool_decide (max_fee_per_gas d = None) in
  mkFeeDetails (if no_fees then Some 0 else fd_gas_price d)
    (if no_fees then Some 0 else max_fee_per_gas d) (max_priority_fee_per_gas d)
    (if no_fees then None else max_fee_per_blob_gas d).

Definition FeeDetails_new (request_gas_price request_max_fee request_priority max_fee_per_blob_gas
    : option Z) : result BlockchainError FeeDetails :=
  match request_gas_price, request_max_fee, request_priority, max_fee_per_blob_gas with
  | gas_price, None, None, None => Ok (mkFeeDetails gas_price gas_price gas_price None)
  | _, max_fee, max_priority, None =>
      let check :=
        match max_priority with
        | Some max_priority =>
            if default 0 max_fee <? max_priority then Err InvalidFeeInput else Ok tt
        | None => Ok tt
        end in
      _ ← check;
      Ok (mkFeeDetails max_fee max_fee max_priority None)
  | _, max_fee, max_priority, max_fee_per_blob_gas =>
      let check :=
        match max_priority with
        | Some max_priority =>
            if default 0 max_fee <? max_priority then Err InvalidFeeInput else Ok tt
        | None => Ok tt
        end in
      _ ← check;
      Ok (mkFeeDetails max_fee max_fee max_priority max_fee_per_blob_gas)
  end.

(** ** The fee history cache *)

Definition MAX_FEE_HISTORY_CACHE_SIZE : Z := 2048.

Section history.
Context {Item : Type}.

Abbreviation FeeHistoryCache := (gmap Z Item).

(** The keys that the loop removes, [pop_next - num] on [u64]. *)
Definition evicted (limit block_number size : Z) : list Z :=
  let pop_next := u_saturating_sub block_number limit in
  let num_remove := u_saturating_sub size limit in
  (λ num, wrap 64 (pop_next - Z.of_nat num)) <$> seq 0 (Z.to_nat num_remove).

Definition insert_cache_entry (limit : Z) (item : Item) (block_number : option Z)
    (cache : FeeHistoryCache) : FeeHistoryCache :=
  match block_number with
  | None => cache
  | Some block_number =>
      let cache := <[block_number := item]> cache in
      foldl (λ cache key, delete key cache) cache
        (evicted limit block_number (Z.of_nat (size cache)))
  end.

(** Blocks as they are mined. *)
Definition insert_blocks (limit : Z) (blocks : list (Z * Item)) (cache : FeeHistoryCache)
    : FeeHistoryCache :=
  foldl (λ cache b, insert_cache_entry limit b.2 (Some b.1) cache) cache blocks.

(** The items of blocks [first], [first + 1], ... *)
Definition consecutive (first : Z) (items : list Item) : list (Z * Item) :=
  imap (λ i item, (first + Z.of_nat i, item)) items.

Definition window (limit first : Z) (items : list Item) : FeeHistoryCache :=
  let n := Z.of_nat (length items) in
  list_to_map (drop (Z.to_nat (n - limit)) (consecutive first items)).

Lemma consecutive_snoc first items item :
  consecutive first (items ++ [item]) =
    consecutive first items ++ [(first + Z.of_nat (length items), item)].
Proof. unfold consecutive. rewrite imap_app. simpl. by rewrite Nat.add_0_r. Qed.

Lemma length_consecutive first items : length (consecutive first items) = length items.
Proof. unfold consecutive. apply length_imap. Qed.

Lemma lookup_consecutive first items i :
  consecutive first items !! i = (λ item, (first + Z.of_nat i, item)) <$> items !! i.
Proof. unfold consecutive. by rewrite list_lookup_imap. Qed.

Lemma consecutive_nodup first items n : NoDup (drop n (consecutive first items)).*1.
Proof.
  apply NoDup_alt. intros i j x Hi Hj. rewrite !list_lookup_fmap, !lookup_drop, !lookup_consecutive in *.
  destruct (items !! (n + i)%nat), (items !! (n + j)%nat); simplify_eq/=. lia.
Qed.

Lemma window_lookup limit first items k :
  window limit first items !! k =
    if bool_decide (0 <= k - first ∧ Z.of_nat (length items) - limit <= k - first)
    then items !! Z.to_nat (k - first) else None.
Proof.
  unfold window. set (n := Z.to_nat _).
  case_bool_decide as Hk.
  - destruct (items !! Z.to_nat (k - first)) as [item|] eqn:Hi.
    + apply elem_of_list_to_map; [apply consecutive_nodup|].
      apply list_elem_of_lookup. exists (Z.to_nat (k - first) - n)%nat. rewrite lookup_drop.
      replace (n + _)%nat with (Z.to_nat (k - first)) by lia. rewrite lookup_consecutive, Hi. simpl.
      do 2 f_equal. lia.
    + apply not_elem_of_list_to_map. intros (i & Hx)%list_elem_of_lookup.
      rewrite list_lookup_fmap, lookup_drop, lookup_consecutive in Hx.
      destruct (items !! (n + i)%nat) eqn:Hj; simplify_eq/=.
      replace (Z.to_nat _) with (n + i)%nat in Hi by lia. congruence.
  - apply not_elem_of_list_to_map. intros (i & Hx)%list_elem_of_lookup.
    rewrite list_lookup_fmap, lookup_drop, lookup_consecutive in Hx.
    destruct (items !! (n + i)%nat) eqn:Hj; simplify_eq/=. apply Hk. lia.
Qed.

Lemma window_size limit first items :
  0 <= limit → Z.of_nat (size (window limit first items)) = Z.min limit (Z.of_nat (length items)).
Proof.
  intros Hl. unfold window. rewrite <-size_dom, dom_list_to_map_L, size_list_to_set by apply consecutive_nodup.
  rewrite length_fmap, length_drop, length_consecutive. lia.
Qed.

(** One more block. *)
Lemma window_insert limit first items item :
  0 < limit → 0 <= first → first + Z.of_nat (length items) <= umax 64 →
  insert_cache_entry limit item (Some (first + Z.of_nat (length items))) (window limit first items) =
    window limit first (items ++ [item]).
Proof.
  intros Hl Hf Hmax. set (n := Z.of_nat (length items)) in *. unfold insert_cache_entry.
  assert (Hnew : window limit first items !! (first + n) = None).
  { rewrite window_lookup. case_bool_decide; [|done]. apply lookup_ge_None. lia. }
  rewrite map_size_insert_None, Nat2Z.inj_succ, window_size by (done || lia). fold n.
  assert (Hkeys : evicted limit (first + n) (Z.succ (limit `min` n)) =
    if bool_decide (limit <= n) then [first + n - limit] else []).
  { unfold evicted, u_saturating_sub. case_bool_decide.
    - replace (Z.to_nat _) with 1%nat by lia. simpl. rewrite Z.sub_0_r, wrap_id; [|lia|].
      + f_equal. lia.
      + unfold in_u. lia.
    - by replace (Z.to_nat _) with 0%nat by lia. }
  rewrite Hkeys. apply map_eq. intros k.
  assert (Hend : Z.to_nat (first + n - first) = length items) by lia.
  assert (Hk : ∀ j, bool_decide (limit <= n) = false ∨ k ≠ first + n - limit →
    j = k → <[first + n := item]> (window limit first items) !! j =
      window limit first (items ++ [item]) !! k).
  { intros j Hc ->. rewrite (window_lookup _ _ (items ++ [item])), length_app. simpl.
    destruct (decide (k = first + n)) as [->|Hne].
    - rewrite lookup_insert_eq, bool_decide_eq_true_2 by lia.
      by rewrite Hend, lookup_app_r, Nat.sub_diag by lia.
    - rewrite lookup_insert_ne, window_lookup by done.
      destruct Hc as [Hc%bool_decide_eq_false|Hc]; repeat case_bool_decide; try lia; try done.
      all: destruct (decide (Z.to_nat (k - first) < length items)%nat);
        [by rewrite lookup_app_l|rewrite !lookup_ge_None_2; rewrite ?length_app; simpl; [done|lia|lia]]. }
  case_bool_decide as Hc; simpl; [|by apply Hk; auto].
  destruct (decide (k = first + n - limit)) as [->|Hne].
  - rewrite lookup_delete_eq, window_lookup, length_app, bool_decide_eq_false_2; [done|]. simpl. lia.
  - rewrite lookup_delete_ne by done. apply Hk; auto.
Qed.

(** Mined one after the other, the blocks leave in the cache exactly the
    items of the last [limit] of them. *)
Theorem fee_history_window limit first items :
  0 < limit → 0 <= first → first + Z.of_nat (length items) <= 2 ^ 64 →
  insert_blocks limit (consecutive first items) ∅ = window limit first items.
Proof.
  intros Hl Hf. induction items as [|item items IH] using rev_ind; intros Hmax.
  { unfold window, consecutive. simpl. by rewrite drop_nil. }
  rewrite length_app in Hmax. simpl in Hmax. unfold insert_blocks in *.
  rewrite consecutive_snoc, foldl_app, IH by lia. simpl. apply window_insert; [done|done|].
  unfold umax. lia.
Qed.
End history.

Lemma fee_history_window_witness :
  insert_blocks 2 (consecutive 7 [10; 11; 12]) ∅ = ({[ 8 := 11; 9 := 12 ]} : gmap Z Z).
Proof. apply (fee_history_window 2 7 [10; 11; 12]); vm_compute; congruence. Defined.

(** After the chain is set back below the cached blocks, the cache
    outgrows its limit: what it evicts are blocks it does not have, at zero
    and then, below zero, at the top of [u64]. *)
Theorem fee_history_outgrows_limit :
  let cache := insert_blocks 2 (consecutive 5 [5; 6; 7]) (∅ : gmap Z Z) in
  let cache := insert_blocks 2 (consecutive 1 [1; 2]) cache in
  size cache = 4%nat ∧ evicted 2 2 4 = [0; 2 ^ 64 - 1].
Proof. by vm_compute. Qed.

(** The fees of a request are accepted unless the priority fee exceeds
    the maximum fee, of zero when there is none; the gas price of an accepted
    request is its maximum fee, and a legacy request, without any fee but the
    gas price, uses it for all. *)
Theorem fee_details_new price max_fee priority blob :
  let legacy := max_fee = None ∧ priority = None ∧ blob = None in
  match FeeDetails_new price max_fee priority blob with
  | Ok d =>
      fd_gas_price d = max_fee_per_gas d ∧ max_fee_per_blob_gas d = blob ∧
      (legacy → d = mkFeeDetails price price price None) ∧
      (¬ legacy → max_fee_per_gas d = max_fee ∧ max_priority_fee_per_gas d = priority ∧
        default 0 priority <= Z.max 0 (default 0 max_fee))
  | Err _ => ¬ legacy ∧ ∃ p, priority = Some p ∧ default 0 max_fee < p
  end.
Proof.
  unfold FeeDetails_new.
  destruct max_fee as [f|], priority as [p|], blob as [b|], price as [g|]; cbn;
    repeat match goal with |- context [?a <? ?b] => destruct (Z.ltb_spec a b); cbn end;
    naive_solver lia.
Qed.
