(* ===== verification/Linker.v ===== *)
(** * The library linker

    Models [crates/linking/src/lib.rs]: which libraries a contract needs, at
    which addresses they go, and in which order they are deployed.  The
    artifacts are the list of the entries of a [BTreeMap], in its order, and a
    set of artifacts iterates in that same order.  A path is its list of
    components; redundant separators are not kept.  Bytecodes are those of
    the compiler crate, used through the class [LinkableBytecode]; addresses
    ([create], [create2_from_code], their parsing and printing) are
    arguments. *)
From S2P Require Import Prelude FsPermissions.
Local Open Scope nat_scope.

(** ** Data *)

Record ArtifactId := mkArtifactId {
  source : Path;
  id_name : string;
  version : string;
}.
#[export] Instance ArtifactId_eq_dec : EqDecision ArtifactId.
Proof. solve_decision. Defined.
#[export] Instance Component_countable : Countable Component.
Proof.
  refine (inj_countable'
    (λ c, match c with RootDir => inl 0 | CurDir => inl 1 | ParentDir => inl 2 | Normal s => inr s end)
    (λ x, match x with
          | inl 0 => RootDir | inl 1 => CurDir | inl _ => ParentDir | inr s => Normal s
          end) _).
  by intros [].
Defined.
#[export] Instance ArtifactId_countable : Countable ArtifactId.
Proof.
  refine (inj_countable' (λ i, (source i, id_name i, version i))
    (λ '(s, n, v), mkArtifactId s n v) _).
  by intros [].
Defined.

(** A link reference: the file as the compiler writes it, and the library. *)
Abbreviation LinkRef := (string * string)%type.
Abbreviation Address := Z.

Inductive LinkerError :=
| MissingLibraryArtifact (file name : string)
| MissingTargetArtifact
| InvalidAddress (address : string)
| CyclicDependency
| LinkingFailed (artifact : Path).

(** The bytecode objects of the compiler crate: linking a library removes its
    reference, and an object is unlinked while references are left. *)
Class LinkableBytecode (B : Type) := {
  refs : B → list LinkRef;
  link_bytecode : LinkRef → Address → B → B;
  is_unlinked : B → bool;
  refs_link r a b : refs (link_bytecode r a b) = filter (λ r', r' ≠ r) (refs b);
  is_unlinked_refs b : is_unlinked b = true ↔ refs b ≠ [];
}.

(** ** Paths *)

Fixpoint split_slash (s acc : string) : list string :=
  match s with
  | EmptyString => [acc]
  | String.String c s =>
      if bool_decide (c = "/"%char) then acc :: split_slash s EmptyString
      else split_slash s (acc ++ String.String c EmptyString)%string
  end.

(** [Path::new(s)], as its components: interior [.] and empty parts vanish. *)
Definition Path_new (s : string) : Path :=
  let component (first : bool) part :=
    if bool_decide (part = EmptyString) then
      if first && negb (bool_decide (s = EmptyString)) then [RootDir] else []
    else if bool_decide (part = "."%string) then if first then [CurDir] else []
    else if bool_decide (part = ".."%string) then [ParentDir]
    else [Normal part] in
  mjoin (imap (λ i part, component (Nat.eqb i 0) part) (split_slash s EmptyString)).

Definition component_str (c : Component) : string :=
  match c with RootDir => EmptyString | CurDir => "." | ParentDir => ".." | Normal s => s end.

Definition to_string_lossy (p : Path) : string :=
  match p with
  | [RootDir] => "/"
  | _ => String.concat "/" (component_str <$> p)
  end.

Fixpoint strip_prefix (p base : Path) : option Path :=
  match base, p with
  | [], _ => Some p
  | b :: base, c :: p => if decide (b = c) then strip_prefix p base else None
  | _, [] => None
  end.

(** [name.split('.').next()] *)
Fixpoint before_dot (s : string) : string :=
  match s with
  | EmptyString => EmptyString
  | String.String c s => if bool_decide (c = "."%char) then EmptyString else String.String c (before_dot s)
  end.

(** Sorted without duplicates, as a [BTreeMap] of [BTreeSet]s iterates. *)
Definition ref_leb (r1 r2 : LinkRef) : bool :=
  match String.compare r1.1 r2.1 with
  | Lt => true
  | Eq => String.leb r1.2 r2.2
  | Gt => false
  end.
Definition ref_le (r1 r2 : LinkRef) : Prop := ref_leb r1 r2 = true.
#[export] Instance ref_le_dec : RelDecision ref_le.
Proof. intros r1 r2. unfold ref_le. apply _. Defined.
Definition btree_refs (l : list LinkRef) : list LinkRef := merge_sort ref_le (remove_dups l).

Lemma elem_of_btree_refs r l : r ∈ btree_refs l ↔ r ∈ l.
Proof.
  unfold btree_refs. rewrite (merge_sort_Permutation ref_le).
  apply elem_of_remove_dups.
Qed.

(** ** The linker *)

Section linker.
Context {B : Type} `{LinkableBytecode B}.

(** A deployed bytecode object without a bytecode counts as none. *)
Record Contract := mkContract {
  bytecode : option B;
  deployed_bytecode : option B;
}.

Record Linker := mkLinker {
  root : Path;
  contracts : list (ArtifactId * Contract);
}.

Definition get (l : Linker) (id : ArtifactId) : option Contract :=
  (snd ∘ snd) <$> list_find (λ e, e.1 = id) (contracts l).

Definition convert_artifact_id_to_lib_path (l : Linker) (id : ArtifactId) : Path * string :=
  (default (source id) (strip_prefix (source id) (root l)), before_dot (id_name id)).

Definition find_artifact_id_by_library_path (l : Linker) (file name : string)
    (wanted : option string) : option ArtifactId :=
  snd <$> list_find (λ id, match wanted with Some v => bool_decide (version id = v) | None => true end = true ∧
             (convert_artifact_id_to_lib_path l id).2 = name ∧
             (convert_artifact_id_to_lib_path l id).1 = Path_new file)
    (contracts l).*1.

(** The references of both bytecodes of a contract. *)
Definition references (c : Contract) : list LinkRef :=
  btree_refs (from_option refs [] (bytecode c) ++ from_option refs [] (deployed_bytecode c)).

Fixpoint collect_dependencies (fuel : nat) (l : Linker) (target : ArtifactId)
    (deps : gset ArtifactId) : option (result LinkerError (gset ArtifactId)) :=
  match fuel with
  | O => None
  | S fuel =>
      match get l target with
      | None => Some (Err MissingTargetArtifact)
      | Some contract =>
          (fix each (rs : list LinkRef) (deps : gset ArtifactId) :=
             match rs with
             | [] => Some (Ok deps)
             | (file, name) :: rs =>
                 match find_artifact_id_by_library_path l file name (Some (version target)) with
                 | None => Some (Err (MissingLibraryArtifact file name))
                 | Some id =>
                     if decide (id ∈ deps) then each rs deps
                     else
                       match collect_dependencies fuel l id ({[id]} ∪ deps) with
                       | Some (Ok deps) => each rs deps
                       | other => other
                       end
                 end
             end) (references contract) deps
      end
  end.

(** Enough for any target: every call but the first adds an artifact. *)
Definition dfs_fuel (l : Linker) : nat := S (length (contracts l)).

(** A set of artifacts, in the order of the [BTreeSet]. *)
Definition in_order (l : Linker) (s : gset ArtifactId) : list ArtifactId :=
  filter (λ id, id ∈ s) (contracts l).*1.

(** ** Linking *)

Section addresses.
Variable create : Address → Z → Address.
Variable create2_from_code : Address → Z → B → Address.   (* of a linked bytecode *)
Variable to_checksum : Address → string.
Variable address_from_str : string → option Address.

(** The entries of the map; their order only decides which invalid address
    is reported. *)
Abbreviation Libraries := (list ((Path * string) * string)).
Variable with_stripped_file_prefixes : Path → Libraries → Libraries.

Definition lib_ref (lib : Path * string) : LinkRef := (to_string_lossy lib.1, lib.2).

Definition link_contract (r : LinkRef) (a : Address) (c : Contract) : Contract :=
  mkContract (link_bytecode r a <$> bytecode c) (link_bytecode r a <$> deployed_bytecode c).

Fixpoint link_all (libs : Libraries) (c : Contract) : result LinkerError Contract :=
  match libs with
  | [] => Ok c
  | (lib, address) :: libs =>
      match address_from_str address with
      | None => Err (InvalidAddress address)
      | Some a => link_all libs (link_contract (lib_ref lib) a c)
      end
  end.

Definition link (l : Linker) (target : ArtifactId) (libraries : Libraries)
    : result LinkerError Contract :=
  match get l target with
  | None => Err MissingTargetArtifact
  | Some contract => link_all libraries contract
  end.

Definition ensure_linked (c : Contract) (target : ArtifactId) : result LinkerError unit :=
  let unlinked b := match b with Some b => is_unlinked b | None => false end in
  if unlinked (bytecode c) then Err (LinkingFailed (source target))
  else if unlinked (deployed_bytecode c) then Err (LinkingFailed (source target))
  else Ok tt.

Record LinkOutput := mkLinkOutput {
  libraries : Libraries;
  libs_to_deploy : list B;
}.

Definition has_lib (libs : Libraries) (lib : Path * string) : bool :=
  existsb (λ e, bool_decide (e.1 = lib)) libs.

(** "Iteratively compute addresses and link libraries": one turn per library
    that is left. *)
Fixpoint create2_loop (fuel : nat) (l : Linker) (sender : Address) (salt : Z)
    (needed : list (ArtifactId * B)) (deployed : list (ArtifactId * B)) (libs : Libraries)
    : option (result LinkerError (list (ArtifactId * B) * Libraries)) :=
  match needed, fuel with
  | [], _ => Some (Ok (deployed, libs))
  | _, O => None
  | _, S fuel =>
      match list_find (λ e, is_unlinked e.2 = false) needed with
      | None => Some (Err CyclicDependency)
      | Some (index, (id, code)) =>
          let needed := swap_remove index needed in
          let address := create2_from_code sender salt code in
          let lib := convert_artifact_id_to_lib_path l id in
          let needed := (λ '(id, b), (id, link_bytecode (lib_ref lib) address b)) <$> needed in
          create2_loop fuel l sender salt needed (deployed ++ [(id, code)])
            (libs ++ [(lib, to_checksum address)])
      end
  end.

(** [get_bytecode_bytes().unwrap()] *)
Definition linked_code (c : Contract) : option B :=
  b ← bytecode c; if is_unlinked b then None else Some b.

(** Addresses for the libraries that have none, by nonce. *)
Fixpoint assign_nonces (l : Linker) (sender : Address) (nonce : Z) (needed : list ArtifactId)
    (libs : Libraries) (to_deploy : list ArtifactId) : Libraries * list ArtifactId :=
  match needed with
  | [] => (libs, to_deploy)
  | id :: needed =>
      let lib := convert_artifact_id_to_lib_path l id in
      if has_lib libs lib then assign_nonces l sender nonce needed libs to_deploy
      else
        assign_nonces l sender (wrap 64 (nonce + 1)) needed
          (libs ++ [(lib, to_checksum (create sender nonce))]) (to_deploy ++ [id])
  end.

Fixpoint collect_all (l : Linker) (targets : list ArtifactId) (deps : gset ArtifactId)
    : option (result LinkerError (gset ArtifactId)) :=
  match targets with
  | [] => Some (Ok deps)
  | target :: targets =>
      r ← collect_dependencies (dfs_fuel l) l target deps;
      match r with
      | Ok deps => collect_all l targets deps
      | Err e => Some (Err e)
      end
  end.

Fixpoint link_codes (l : Linker) (libs : Libraries) (ids : list ArtifactId)
    : option (result LinkerError (list B)) :=
  match ids with
  | [] => Some (Ok [])
  | id :: ids =>
      match link l id libs with
      | Err e => Some (Err e)
      | Ok c =>
          code ← linked_code c;
          r ← link_codes l libs ids;
          Some (codes ← r; Ok (code :: codes))
      end
  end.

Definition link_with_nonce_or_address (l : Linker) (libs : Libraries) (sender : Address) (nonce : Z)
    (targets : list ArtifactId) : option (result LinkerError LinkOutput) :=
  let libs := with_stripped_file_prefixes (root l) libs in
  r ← collect_all l targets ∅;
  match r with
  | Err e => Some (Err e)
  | Ok needed =>
      let '(libs, to_deploy) := assign_nonces l sender nonce (in_order l needed) libs [] in
      r ← link_codes l libs to_deploy;
      Some (codes ← r; Ok (mkLinkOutput libs codes))
  end.

(** "Link library with provided libs"; [unwrap]s in both places. *)
Fixpoint provided_codes (l : Linker) (libs : Libraries) (ids : list ArtifactId)
    : option (list (ArtifactId * B)) :=
  match ids with
  | [] => Some []
  | id :: ids =>
      match link l id libs with
      | Err _ => None
      | Ok c =>
          code ← bytecode c;
          codes ← provided_codes l libs ids;
          Some ((id, code) :: codes)
      end
  end.

Definition link_with_create2 (l : Linker) (libs : Libraries) (sender : Address) (salt : Z)
    (target : ArtifactId) : option (result LinkerError LinkOutput) :=
  let libs := with_stripped_file_prefixes (root l) libs in
  r ← collect_dependencies (dfs_fuel l) l target ∅;
  match r with
  | Err e => Some (Err e)
  | Ok needed =>
      let missing id := negb (has_lib libs (convert_artifact_id_to_lib_path l id)) in
      needed ← provided_codes l libs (filter (λ id, missing id = true) (in_order l needed));
      r ← create2_loop (length needed) l sender salt needed [] libs;
      Some ('(deployed, libs) ← r; Ok (mkLinkOutput libs deployed.*2))
  end.
End addresses.

(** ** The dependencies found *)

Section dependencies.
Context (l : Linker).

Definition found_at (x : ArtifactId) (r : LinkRef) : option ArtifactId :=
  find_artifact_id_by_library_path l r.1 r.2 (Some (version x)).

(** A contract refers to a library through a reference of its bytecodes. *)
Definition refers (x y : ArtifactId) : Prop :=
  ∃ c r, get l x = Some c ∧ r ∈ references c ∧ found_at x r = Some y.

Definition resolved (x : ArtifactId) : Prop :=
  ∃ c, get l x = Some c ∧ ∀ r, r ∈ references c → is_Some (found_at x r).

(** Why the search from [target] fails. *)
Definition blame (target : ArtifactId) (e : LinkerError) : Prop :=
  (get l target = None ∧ e = MissingTargetArtifact) ∨
  ∃ x c file name, rtc refers target x ∧ get l x = Some c ∧ (file, name) ∈ references c ∧
    found_at x (file, name) = None ∧ e = MissingLibraryArtifact file name.

Definition unseen (deps : gset ArtifactId) : nat :=
  length (filter (λ id, id ∉ deps) (contracts l).*1).

Lemma get_found x : x ∈ (contracts l).*1 → is_Some (get l x).
Proof.
  intros ([id c] & -> & Hin)%list_elem_of_fmap. unfold get.
  destruct (list_find _ (contracts l)) as [[i e]|] eqn:Hf; [by eexists|].
  apply list_find_None in Hf. rewrite Forall_forall in Hf. by destruct (Hf _ Hin).
Qed.

Lemma found_known x r y : found_at x r = Some y → y ∈ (contracts l).*1.
Proof.
  unfold found_at, find_artifact_id_by_library_path. intros ([i id] & Hf & ->)%fmap_Some.
  apply list_find_Some in Hf as (Hi & _). by apply list_elem_of_lookup_2 in Hi.
Qed.

Lemma unseen_mono d1 d2 : d1 ⊆ d2 → unseen d2 ≤ unseen d1.
Proof.
  intros Hd. unfold unseen. induction (contracts l).*1 as [|id ids IH]; [done|].
  rewrite !filter_cons. do 2 case_decide; simpl; set_solver by lia.
Qed.

Lemma unseen_add d id : id ∈ (contracts l).*1 → id ∉ d → unseen ({[id]} ∪ d) < unseen d.
Proof.
  intros Hin Hd. unfold unseen. apply list_elem_of_split in Hin as (k1 & k2 & ->).
  rewrite !filter_app, !length_app, !filter_cons.
  rewrite (decide_False (P := id ∉ {[id]} ∪ d)) by set_solver. rewrite decide_True by done. simpl.
  assert (Hle : ∀ ids, length (filter (λ x, x ∉ {[id]} ∪ d) ids) ≤ length (filter (λ x, x ∉ d) ids)).
  { induction ids as [|x ids IH]; [done|]. rewrite !filter_cons.
    do 2 case_decide; simpl; set_solver by lia. }
  pose proof (Hle k1). pose proof (Hle k2). lia.
Qed.

(** What a search from [target] adds to [deps]. *)
Record explored (target : ArtifactId) (deps deps' : gset ArtifactId) : Prop := {
  ex_more : deps ⊆ deps';
  ex_reached : ∀ y, y ∈ deps' → y ∈ deps ∨ tc refers target y;
  ex_closed : ∀ x, x ∈ deps' → x ∈ deps ∨ resolved x ∧ ∀ y, refers x y → y ∈ deps';
}.

Lemma explored_step target deps deps0 id deps1 :
  explored target deps deps0 → refers target id →
  explored id ({[id]} ∪ deps0) deps1 → resolved id → (∀ y, refers id y → y ∈ deps1) →
  explored target deps deps1.
Proof.
  intros [Hm Hr Hc] Hid [Hm1 Hr1 Hc1] Hres Hsucc. constructor.
  - set_solver.
  - intros y [[->%elem_of_singleton|Hy]%elem_of_union|Hy]%Hr1.
    + right. by apply tc_once.
    + by apply Hr.
    + right. by eapply tc_l.
  - intros x [[->%elem_of_singleton|Hx]%elem_of_union|Hx]%Hc1; [by right| |by right].
    destruct (Hc x Hx) as [?|[? Hs]]; [by left|]. right. split; [done|]. intros y ?%Hs. set_solver.
Qed.

Lemma collect_spec fuel target deps :
  unseen deps < fuel →
  ∃ r, collect_dependencies fuel l target deps = Some r ∧
    match r with
    | Ok deps' => explored target deps deps' ∧ resolved target ∧ ∀ y, refers target y → y ∈ deps'
    | Err e => blame target e
    end.
Proof.
  revert target deps. induction fuel as [|fuel IH]; intros target deps Hfuel; [lia|].
  cbn [collect_dependencies]. destruct (get l target) as [c|] eqn:Hc.
  2:{ eexists. split; [done|]. by left. }
  match goal with |- context [?f (references c) deps] =>
    assert (Heach : ∀ rs deps0, (∀ r, r ∈ rs → r ∈ references c) → explored target deps deps0 →
      ∃ r, f rs deps0 = Some r ∧
        match r with
        | Ok deps' => explored target deps deps' ∧ deps0 ⊆ deps' ∧
            ∀ r, r ∈ rs → ∃ y, found_at target r = Some y ∧ y ∈ deps'
        | Err e => blame target e
        end)
  end.
  { induction rs as [|[file name] rs IHrs]; intros deps0 Hrs He.
    { eexists. split; [done|]. split; [done|]. split; [done|]. intros r Hr. by apply not_elem_of_nil in Hr. }
    assert (Hin : (file, name) ∈ references c) by (apply Hrs; left).
    assert (Hrs' : ∀ r, r ∈ rs → r ∈ references c) by (intros r ?; apply Hrs; by right).
    change (find_artifact_id_by_library_path l file name (Some (version target)))
      with (found_at target (file, name)).
    destruct (found_at target (file, name)) as [id|] eqn:Hf.
    2:{ eexists. split; [done|]. right. exists target, c, file, name. done. }
    assert (Hid : refers target id) by by exists c, (file, name).
    case_decide as Hd.
    { destruct (IHrs deps0 Hrs' He) as (r & -> & Hr). exists r. split; [done|].
      destruct r as [deps'|e]; [|done]. destruct Hr as (? & Hsub & Hall). split; [done|].
      split; [done|]. intros r [->|Hr]%elem_of_cons; [|by apply Hall]. exists id. set_solver. }
    pose proof (found_known _ _ _ Hf) as Hk.
    destruct (IH id ({[id]} ∪ deps0)) as (r1 & -> & Hr1).
    { pose proof (unseen_add deps0 id Hk Hd). pose proof (unseen_mono _ _ (ex_more _ _ _ He)). lia. }
    destruct r1 as [deps1|e].
    - destruct Hr1 as (He1 & Hres & Hsucc).
      pose proof (explored_step _ _ _ _ _ He Hid He1 Hres Hsucc) as He'.
      destruct (IHrs deps1 Hrs' He') as (r & -> & Hr). exists r. split; [done|].
      destruct r as [deps'|e]; [|done]. destruct Hr as (? & Hsub & Hall). split; [done|].
      pose proof (ex_more _ _ _ He1). split; [set_solver|].
      intros r [->|Hr]%elem_of_cons; [|by apply Hall]. exists id. split; [done|]. set_solver.
    - eexists. split; [done|]. destruct Hr1 as [[Hno _]|(x & c' & f' & n' & Hx & ?)].
      + apply get_found in Hk. rewrite Hno in Hk. by destruct Hk.
      + right. exists x, c', f', n'. split; [|done]. by eapply rtc_l. }
  destruct (Heach (references c) deps) as (r & -> & Hr); [done|by constructor; auto|].
  exists r. split; [done|]. destruct r as [deps'|e]; [|done]. destruct Hr as (He & _ & Hall).
  split; [done|]. split.
  - exists c. split; [done|]. intros r Hr. destruct (Hall r Hr) as (y & -> & _). by eexists.
  - intros y (c' & r & Hc' & Hr & Hy). rewrite Hc in Hc'. injection Hc' as <-.
    destruct (Hall r Hr) as (y' & Hy' & ?). rewrite Hy in Hy'. by injection Hy' as ->.
Qed.
End dependencies.

(** The search for the libraries of a contract ends; when it succeeds it
    has found exactly the artifacts that the contract refers to, directly or
    through others, and all their references are resolved; when it fails,
    the target or the library that it names is missing. *)
Theorem dependencies_are_reachable l target :
  ∃ r, collect_dependencies (dfs_fuel l) l target ∅ = Some r ∧
    match r with
    | Ok deps => (∀ id, id ∈ deps ↔ tc (refers l) target id) ∧
        resolved l target ∧ ∀ id, id ∈ deps → resolved l id
    | Err e => blame l target e
    end.
Proof.
  destruct (collect_spec l (dfs_fuel l) target ∅) as (r & Hr & Hspec).
  { unfold unseen, dfs_fuel. rewrite <-(length_fmap fst (contracts l)).
    eapply Nat.le_lt_trans; [apply length_filter|lia]. }
  exists r. split; [done|]. destruct r as [deps|e]; [|done]. destruct Hspec as ([_ Hr1 Hc] & Hres & Hs).
  split; [|split; [done|]].
  - intros id. split; [intros [?|?]%Hr1; [set_solver|done]|].
    revert id. apply tc_ind_r; [done|]. intros y z _ Hyz Hy.
    destruct (Hc y Hy) as [?|[_ Hsucc]]; [set_solver|by apply Hsucc].
  - intros id Hid. destruct (Hc id Hid) as [?|[? _]]; [set_solver|done].
Qed.

(** ** The order of deployment *)

Section create2.
Variable create2_from_code : Address → Z → B → Address.
Variable to_checksum : Address → string.
Context (l : Linker) (sender : Address) (salt : Z).
(** What is needed, linked with the libraries that are given, and those. *)
Context (needed0 : list (ArtifactId * B)) (libs0 : list ((Path * string) * string)).
Hypothesis Hnodup : NoDup needed0.*1.

Definition ref_of (id : ArtifactId) : LinkRef := lib_ref (convert_artifact_id_to_lib_path l id).

Definition deployed_entry (e : ArtifactId * B) : (Path * string) * string :=
  (convert_artifact_id_to_lib_path l e.1, to_checksum (create2_from_code sender salt e.2)).

(** Deployed fully linked, after everything it refers to. *)
Definition in_deploy_order (deployed : list (ArtifactId * B)) : Prop :=
  ∀ i id code, deployed !! i = Some (id, code) →
    refs code = [] ∧
    ∀ b r, (id, b) ∈ needed0 → r ∈ refs b → r ∈ ref_of <$> (take i deployed).*1.

(** Libraries that wait for each other, or for something not needed. *)
Definition stuck (ids : list ArtifactId) : Prop :=
  ids ≠ [] ∧ ∀ id, id ∈ ids → ∃ b r, (id, b) ∈ needed0 ∧ r ∈ refs b ∧
    ∀ id', id' ∈ needed0.*1 → ref_of id' = r → id' ∈ ids.

Record create2_inv (needed deployed : list (ArtifactId * B)) (libs : list ((Path * string) * string))
    : Prop := {
  c2_perm : deployed.*1 ++ needed.*1 ≡ₚ needed0.*1;
  c2_refs : ∀ id b, (id, b) ∈ needed → ∃ b0, (id, b0) ∈ needed0 ∧
    refs b = filter (λ r, r ∉ ref_of <$> deployed.*1) (refs b0);
  c2_order : in_deploy_order deployed;
  c2_libs : libs = libs0 ++ (deployed_entry <$> deployed);
}.

Lemma needed_unique id b1 b2 : (id, b1) ∈ needed0 → (id, b2) ∈ needed0 → b1 = b2.
Proof.
  intros (i & Hi)%list_elem_of_lookup (j & Hj)%list_elem_of_lookup.
  assert (i = j) as ->.
  { apply (NoDup_lookup _ _ _ id Hnodup); rewrite list_lookup_fmap; [by rewrite Hi|by rewrite Hj]. }
  congruence.
Qed.

Lemma in_deploy_order_snoc deployed id code b0 :
  in_deploy_order deployed → (id, b0) ∈ needed0 → refs code = [] →
  (∀ r, r ∈ refs b0 → r ∈ ref_of <$> deployed.*1) → in_deploy_order (deployed ++ [(id, code)]).
Proof.
  intros Ho Hb0 Hcode Hrefs i id' code' Hi.
  destruct (decide (i < length deployed)) as [Hlt|Hge].
  - rewrite lookup_app_l in Hi by done. rewrite take_app_le by lia. by apply Ho.
  - apply lookup_lt_Some in Hi as Hlen. rewrite length_app in Hlen. simpl in Hlen.
    assert (i = length deployed) as -> by lia. rewrite lookup_app_r, Nat.sub_diag in Hi by lia.
    injection Hi as <- <-. split; [done|]. rewrite take_app_length. intros b r Hb Hr.
    apply Hrefs. by rewrite (needed_unique _ _ _ Hb0 Hb).
Qed.

Lemma create2_step needed deployed libs index id code :
  create2_inv needed deployed libs →
  list_find (λ e, is_unlinked e.2 = false) needed = Some (index, (id, code)) →
  let address := create2_from_code sender salt code in
  create2_inv ((λ '(id', b), (id', link_bytecode (ref_of id) address b)) <$> swap_remove index needed)
    (deployed ++ [(id, code)])
    (libs ++ [(convert_artifact_id_to_lib_path l id, to_checksum address)]) ∧
  length (swap_remove index needed) < length needed.
Proof.
  intros [Hp Hr Ho Hl] Hf address. apply list_find_Some in Hf as (Hi & Hlinked & _). simpl in Hlinked.
  pose proof (swap_remove_perm _ _ _ Hi) as Hperm.
  assert (Hcode : refs code = []).
  { destruct (decide (refs code = [])) as [|Hne]; [done|]. apply is_unlinked_refs in Hne. congruence. }
  destruct (Hr id code) as (b0 & Hb0 & Hrefs); [by eapply list_elem_of_lookup_2|].
  assert (Hall : ∀ r, r ∈ refs b0 → r ∈ ref_of <$> deployed.*1).
  { intros r Hin. destruct (decide (r ∈ ref_of <$> deployed.*1)) as [|Hno]; [done|].
    assert (Hx : r ∈ refs code) by (rewrite Hrefs; by apply list_elem_of_filter).
    rewrite Hcode in Hx. by apply not_elem_of_nil in Hx. }
  split; [|rewrite (Permutation_length Hperm); simpl; lia]. constructor.
  - assert (((λ '(id', b), (id', link_bytecode (ref_of id) address b)) <$> swap_remove index needed).*1
      = (swap_remove index needed).*1) as ->.
    { rewrite <-list_fmap_compose. apply list_fmap_ext. by intros ? [] ?. }
    assert (Hp2 : needed.*1 ≡ₚ id :: (swap_remove index needed).*1)
      by exact (fmap_Permutation fst _ _ Hperm).
    rewrite <-Hp, Hp2, fmap_app, <-app_assoc. done.
  - intros id' b' ([id1 b] & Heq & Hin)%list_elem_of_fmap. simplify_eq.
    destruct (Hr id1 b) as (b1 & Hb1 & Hrb); [rewrite Hperm; by right|].
    exists b1. split; [done|]. rewrite refs_link, Hrb, list_filter_filter. apply filter_ext.
    intros r. rewrite !fmap_app, elem_of_app. simpl. rewrite list_elem_of_singleton. naive_solver.
  - by apply (in_deploy_order_snoc _ _ _ b0).
  - by rewrite Hl, fmap_app, <-app_assoc.
Qed.

Lemma create2_loop_spec fuel needed deployed libs :
  create2_inv needed deployed libs → length needed ≤ fuel →
  ∃ r, create2_loop create2_from_code to_checksum fuel l sender salt needed deployed libs = Some r ∧
    match r with
    | Ok (deployed', libs') => create2_inv [] deployed' libs'
    | Err e => e = CyclicDependency ∧ ∃ ids, stuck ids
    end.
Proof.
  revert needed deployed libs. induction fuel as [|fuel IH]; intros needed deployed libs Hi Hlen.
  { destruct needed; [|simpl in Hlen; lia]. by eexists. }
  destruct needed as [|e needed]; [by eexists|]. cbn [create2_loop].
  destruct (list_find _ (e :: needed)) as [[index [id code]]|] eqn:Hf.
  - destruct (create2_step _ _ _ _ _ _ Hi Hf) as [Hi' Hlt].
    apply IH; [done|]. rewrite length_fmap. lia.
  - eexists. split; [done|]. split; [done|]. exists (e :: needed).*1. split; [done|].
    intros id ([id' b] & -> & Hin)%list_elem_of_fmap. simpl.
    apply list_find_None in Hf. rewrite Forall_forall in Hf. specialize (Hf _ Hin). simpl in Hf.
    destruct (c2_refs _ _ _ Hi id' b Hin) as (b0 & Hb0 & Hrefs).
    assert (Hne : refs b ≠ []) by (apply is_unlinked_refs; by destruct (is_unlinked b)).
    destruct (refs b) as [|r rs] eqn:Hrb; [done|].
    assert (Hr : r ∈ refs b0 ∧ r ∉ ref_of <$> deployed.*1).
    { assert (Hx : r ∈ r :: rs) by left. rewrite Hrefs in Hx. by apply list_elem_of_filter in Hx as [? ?]. }
    exists b0, r. split; [done|]. split; [apply Hr|]. intros id2 Hid2 Href.
    rewrite <-(c2_perm _ _ _ Hi) in Hid2. apply elem_of_app in Hid2 as [Hd|]; [|done].
    destruct Hr as [_ []]. apply list_elem_of_fmap. by exists id2.
Qed.

(** Deploying libraries by CREATE2 ends.  When it succeeds, every needed
    library is deployed exactly once, fully linked and after every library it
    refers to, and its address is recorded; when it fails, some libraries
    each refer to one of themselves or to a library that is not needed. *)
Theorem create2_deploys_in_order :
  ∃ r, create2_loop create2_from_code to_checksum (length needed0) l sender salt needed0 [] libs0
      = Some r ∧
    match r with
    | Ok (deployed, libs) => deployed.*1 ≡ₚ needed0.*1 ∧ in_deploy_order deployed ∧
        libs = libs0 ++ (deployed_entry <$> deployed)
    | Err e => e = CyclicDependency ∧ ∃ ids, stuck ids
    end.
Proof.
  destruct (create2_loop_spec (length needed0) needed0 [] libs0) as (r & Hr & Hspec); [|done|].
  - constructor; [done| |done|by rewrite app_nil_r].
    intros id b Hin. exists b. split; [done|]. rewrite filter_all; [done|].
    intros r _. apply not_elem_of_nil.
  - exists r. split; [done|]. destruct r as [[deployed libs]|e]; [|done].
    destruct Hspec as [Hp _ Ho Hl]. rewrite app_nil_r in Hp. done.
Qed.
End create2.
End linker.

(** ** Examples *)
Module LinkExamples.

(** A bytecode that is only its references. *)
#[export] Program Instance plain_bytecode : LinkableBytecode (list LinkRef) := {
  refs b := b;
  link_bytecode r _ b := filter (λ r', r' ≠ r) b;
  is_unlinked b := negb (bool_decide (b = []));
}.
Next Obligation. done. Qed.
Next Obligation. intros b. simpl. by case_bool_decide. Qed.

Definition lib (name : string) : ArtifactId :=
  mkArtifactId [RootDir; Normal "project"; Normal "src"; Normal "Lib.sol"] name "0.8.30".
Definition lib_reference (name : string) : LinkRef := ("src/Lib.sol"%string, name).
Definition ex_contract (names : list string) : Contract :=
  mkContract (Some (lib_reference <$> names)) None.
(** A test refers to [A], which refers to [B]. *)
Definition ex_linker : Linker :=
  mkLinker [RootDir; Normal "project"]
    [(lib "A", ex_contract ["B"%string]); (lib "B", ex_contract []); (lib "Test", ex_contract ["A"%string])].

Lemma dependencies_are_reachable_witness :
  ∃ r, collect_dependencies (dfs_fuel ex_linker) ex_linker (lib "Test") ∅ = Some r ∧
    match r with
    | Ok deps => (∀ id, id ∈ deps ↔ tc (refers ex_linker) (lib "Test") id) ∧
        resolved ex_linker (lib "Test") ∧ ∀ id, id ∈ deps → resolved ex_linker id
    | Err e => blame ex_linker (lib "Test") e
    end.
Proof. apply (dependencies_are_reachable ex_linker (lib "Test")). Defined.

Example ex_dependencies :
  match collect_dependencies (dfs_fuel ex_linker) ex_linker (lib "Test") ∅ with
  | Some (Ok deps) => in_order ex_linker deps = [lib "A"; lib "B"]
  | _ => False
  end.
Proof. vm_compute. reflexivity. Qed.

Definition ex_needed : list (ArtifactId * list LinkRef) :=
  [(lib "A", [lib_reference "B"]); (lib "B", [])].
Definition ex_create2 (sender : Address) (salt : Z) (code : list LinkRef) : Address :=
  Z.of_nat (length code).
Definition ex_checksum (a : Address) : string := "0x".

Example ex_order :
  match create2_loop ex_create2 ex_checksum 2 ex_linker 1%Z 0%Z ex_needed [] [] with
  | Some (Ok (deployed, _)) => deployed.*1 = [lib "B"; lib "A"]
  | _ => False
  end.
Proof. vm_compute. reflexivity. Qed.

Lemma create2_deploys_in_order_witness :
  ∃ r, create2_loop ex_create2 ex_checksum 2 ex_linker 1%Z 0%Z ex_needed [] [] = Some r ∧
    match r with
    | Ok (deployed, libs) => deployed.*1 ≡ₚ ex_needed.*1 ∧
        in_deploy_order ex_linker ex_needed deployed ∧
        libs = deployed_entry ex_create2 ex_checksum ex_linker 1%Z 0%Z <$> deployed
    | Err e => e = CyclicDependency ∧ ∃ ids, stuck ex_linker ex_needed ids
    end.
Proof.
  apply (create2_deploys_in_order ex_create2 ex_checksum ex_linker 1%Z 0%Z ex_needed []).
  repeat constructor; set_solver.
Defined.
End LinkExamples.
