(* ===== verification/CastBase.v ===== *)
(** * Numbers in several bases

    [cast/src/base.rs]: [Base] and its detection, [NumberWithBase] with its
    parsers and formatters, and [ToBase].  The text functions of [ruint] and
    [alloy] are the class [U256Text], with what the code needs of them in
    [U256TextLaws]; [u64::from_str_radix] and [Formatter::pad_integral] belong
    to Rust's library and are definitions. *)
From S2P Require Import Prelude Text.
Local Open Scope Z_scope.

(** ** Digits of the language's library *)

(** [char::to_digit] for radices up to 36. *)
Definition to_digit (r c : Z) : option Z :=
  let d := if (48 <=? c) && (c <=? 57) then Some (c - 48)
           else if (97 <=? c) && (c <=? 122) then Some (c - 87)
           else if (65 <=? c) && (c <=? 90) then Some (c - 55)
           else None in
  d ← d; if d <? r then Some d else None.

(** The value of a text of digits after a value [n]. *)
Fixpoint digits_value (r n : Z) (s : str) : option Z :=
  match s with
  | [] => Some n
  | c :: s => d ← to_digit r c; digits_value r (n * r + d) s
  end.

Inductive IntErrorKind := Empty | InvalidDigit | PosOverflow.

(** [u64::from_str_radix]: the multiplication is checked after the digit was
    read, and an overflow ends the loop before later digits are looked at. *)
Fixpoint checked_loop (r n : Z) (s : str) : result IntErrorKind Z :=
  match s with
  | [] => Ok n
  | c :: s =>
      match to_digit r c with
      | None => Err InvalidDigit
      | Some d =>
          if umax 64 <? n * r then Err PosOverflow
          else if umax 64 <? n * r + d then Err PosOverflow
          else checked_loop r (n * r + d) s
      end
  end.

Definition u64_from_str_radix (s : str) (r : Z) : result IntErrorKind Z :=
  match s with
  | [] => Err Empty
  | [c] => if (c =? 43) || (c =? 45) then Err InvalidDigit else checked_loop r 0 s
  | c :: s' => if c =? 43 then checked_loop r 0 s' else checked_loop r 0 s
  end.

Inductive Alignment := Left | Center | Right.

Record Formatter := {
  alternate : bool;
  sign_plus : bool;
  sign_aware_zero_pad : bool;
  width : option Z;
  fill : char;
  align : option Alignment;
}.
Definition plain : Formatter :=
  {| alternate := false; sign_plus := false; sign_aware_zero_pad := false; width := None;
     fill := blank; align := None |}.
Definition pretty : Formatter :=
  {| alternate := true; sign_plus := false; sign_aware_zero_pad := false; width := None;
     fill := blank; align := None |}.

(** [Formatter::pad_integral], the text it writes. *)
Definition pad_integral (f : Formatter) (is_nonnegative : bool) (prefix buf : str) : str :=
  let sign := if negb is_nonnegative then lit "-" else if sign_plus f then lit "+" else [] in
  let prefix := if alternate f then prefix else [] in
  let len := str_len buf + Z.of_nat (length sign) + Z.of_nat (length prefix) in
  match width f with
  | None => sign ++ prefix ++ buf
  | Some min =>
      if min <=? len then sign ++ prefix ++ buf
      else if sign_aware_zero_pad f then sign ++ prefix ++ repeat_n 48 (min - len) ++ buf
      else
        let pad := min - len in
        let pre := match align f with Some Left => 0 | Some Center => pad / 2 | _ => pad end in
        repeat_n (fill f) pre ++ sign ++ prefix ++ buf ++ repeat_n (fill f) (pad - pre)
  end.

(** [str::to_lowercase] and [to_uppercase] on the ASCII range. *)
Definition char_lower (c : char) : char := if (65 <=? c) && (c <=? 90) then c + 32 else c.
Definition char_upper (c : char) : char := if (97 <=? c) && (c <=? 122) then c - 32 else c.

(** ** Bases *)

Inductive Base := Binary | Octal | Decimal | Hexadecimal.
#[export] Instance Base_eq_dec : EqDecision Base.
Proof. solve_decision. Defined.

(** [base as u32] *)
Definition as_u32 (b : Base) : Z :=
  match b with Binary => 2 | Octal => 8 | Decimal => 10 | Hexadecimal => 16 end.

(** What the parsers report; the texts of the messages are left out. *)
Inductive Error :=
| InvalidBase
| CouldNotParse (k : IntErrorKind)
| NeitherDecimalNorHexadecimal
| ParseError.

Definition Base_display (b : Base) : str := digits 10 (as_u32 b).

Definition is_one_of (s : str) (names : list string) : bool :=
  bool_decide (s ∈ lit <$> names).

Definition Base_from_str (s : str) : result Error Base :=
  let s := char_lower <$> s in
  if is_one_of s ["2"; "b"; "bin"; "binary"]%string then Ok Binary
  else if is_one_of s ["8"; "o"; "oct"; "octal"]%string then Ok Octal
  else if is_one_of s ["10"; "d"; "dec"; "decimal"]%string then Ok Decimal
  else if is_one_of s ["16"; "h"; "hex"; "hexadecimal"]%string then Ok Hexadecimal
  else Err InvalidBase.

Definition try_from_u32 (n : Z) : result Error Base :=
  if n =? 2 then Ok Binary else if n =? 8 then Ok Octal
  else if n =? 10 then Ok Decimal else if n =? 16 then Ok Hexadecimal
  else Err InvalidBase.

(** [n.low_u32()] *)
Definition try_from_I256 (n : Z) : result Error Base := try_from_u32 (wrap 32 n).
(** [n.saturating_to::<u32>()] *)
Definition try_from_U256 (n : Z) : result Error Base := try_from_u32 (Z.min n (umax 32)).

Definition prefix (b : Base) : str :=
  match b with
  | Binary => lit "0b"
  | Octal => lit "0o"
  | Decimal => []
  | Hexadecimal => lit "0x"
  end.

(** ** Interface to the 256-bit integers

    [U256::from_str_radix], the formatting traits of [U256] (by radix) and
    [I256::to_string]. *)
Class U256Text := {
  U256_from_str_radix : str → Z → option Z;
  U256_fmt : Z → Z → str;
  I256_to_string : Z → str;
}.

Class U256TextLaws (T : U256Text) := {
  (** The digits of a number in the radix are read as that number. *)
  from_str_radix_digits b n :
    in_u 256 n → U256_from_str_radix (digits (as_u32 b) n) (as_u32 b) = Some n;
  (** A character that is neither a digit of the radix nor an underscore is
      refused. *)
  from_str_radix_refused s b c :
    c ∈ s → c ≠ 95 → to_digit (as_u32 b) c = None → U256_from_str_radix s (as_u32 b) = None;
  (** Numbers are written without a prefix in lower case. *)
  U256_fmt_digits b n : in_u 256 n → U256_fmt (as_u32 b) n = digits (as_u32 b) n;
  I256_to_string_digits n :
    in_i 256 n → I256_to_string n = (if n <? 0 then lit "-" else []) ++ digits 10 (Z.abs n);
}.

Section base.
Context `{U256Text}.

(** A text that ends after its digits are verified. *)
Definition verify (s : str) (b : Base) : result Error Base :=
  match u64_from_str_radix (drop 2 s) (as_u32 b) with
  | Ok _ => Ok b
  | Err PosOverflow => Ok b
  | Err k => Err (CouldNotParse k)
  end.

Fixpoint detect (s : str) : result Error Base :=
  let unsigned :=
    if starts_with (lit "0b") s then verify s Binary
    else if starts_with (lit "0o") s then verify s Octal
    else if starts_with (lit "0x") s then verify s Hexadecimal
    else
      match U256_from_str_radix s 10 with
      | Some _ => Ok Decimal
      | None =>
          match U256_from_str_radix s 16 with
          | Some _ => Ok Hexadecimal
          | None => Err NeitherDecimalNorHexadecimal
          end
      end in
  match s with
  | c :: s' => if (c =? 43) || (c =? 45) then detect s' else unsigned
  | [] => unsigned
  end.

Definition unwrap_or_detect (base : option str) (s : str) : result Error Base :=
  match base with
  | Some base => Base_from_str base
  | None => detect s
  end.

(** ** Numbers with a base *)

Record NumberWithBase := {
  number : Z;
  is_nonnegative : bool;
  base : Base;
}.

Definition with_base (n : NumberWithBase) (b : Base) : NumberWithBase :=
  {| number := number n; is_nonnegative := is_nonnegative n; base := b |}.

Inductive Sign := Positive | Negative.

Definition get_sign (s : str) : str * Sign :=
  match s with
  | c :: s' => if c =? 43 then (s', Positive) else if c =? 45 then (s', Negative) else (s, Positive)
  | [] => (s, Positive)
  end.

(** The first two bytes are one of the six prefixes; the first is ['0']. *)
Definition has_prefix (s : str) : bool :=
  match s with
  | c :: d :: _ => (c =? 48) && bool_decide (d ∈ [120; 88; 111; 79; 98; 66])
  | _ => false
  end.

Definition _parse_uint (s : str) (b : Base) : result Error Z :=
  let s := if has_prefix s then drop 2 s else s in
  match U256_from_str_radix s (as_u32 b) with
  | Some n => Ok n
  | None => Err ParseError
  end.

(** [!n] is [umax 256 - n]. *)
Definition _parse_int (s : str) (b : Base) : result Error (Z * bool) :=
  let '(s, sign) := get_sign s in
  n ← _parse_uint s b;
  let is_neg := match sign with Negative => true | Positive => false end in
  let n := if is_neg then wrap 256 (umax 256 - n + 1) else n in
  mret (n, negb is_neg).

Definition parse_int (s : str) (base : option str) : result Error NumberWithBase :=
  b ← unwrap_or_detect base s;
  '(number, is_nonnegative) ← _parse_int s b;
  mret {| number := number; is_nonnegative := is_nonnegative; base := b |}.

Definition parse_uint (s : str) (base : option str) : result Error NumberWithBase :=
  b ← unwrap_or_detect base s;
  number ← _parse_uint s b;
  mret {| number := number; is_nonnegative := true; base := b |}.

Definition NumberWithBase_from_str (s : str) : result Error NumberWithBase := parse_int s None.

Definition from_U256 (n : Z) : NumberWithBase :=
  {| number := n; is_nonnegative := true; base := Decimal |}.
(** [number.into_raw()] *)
Definition from_I256 (n : Z) : NumberWithBase :=
  {| number := wrap 256 n; is_nonnegative := negb (n <? 0); base := Decimal |}.
(** [I256::from_raw] *)
Definition to_I256 (n : NumberWithBase) : Z := swrap 256 (number n).

Inductive ParseUnits := PU_U256 (n : Z) | PU_I256 (n : Z).
Definition from_ParseUnits (value : ParseUnits) : NumberWithBase :=
  match value with PU_U256 val => from_U256 val | PU_I256 val => from_I256 val end.

Definition strip_minus (s : str) : str :=
  match s with c :: s' => if c =? 45 then s' else s | [] => s end.

Definition format (n : NumberWithBase) : str :=
  let s :=
    match base n with
    | Decimal =>
        if is_nonnegative n then U256_fmt 10 (number n)
        else strip_minus (I256_to_string (to_I256 n))
    | b => U256_fmt (as_u32 b) (number n)
    end in
  if starts_with (lit "0") s then trim_start_matches 48 s else s.

Definition debug (n : NumberWithBase) (f : Formatter) : str :=
  let prefix := prefix (base n) in
  if number n =? 0 then pad_integral f true prefix (lit "0")
  else
    let is_nonnegative := match base n with Decimal => is_nonnegative n | _ => true end in
    pad_integral f is_nonnegative prefix (format n).

Definition binary (n : NumberWithBase) : Formatter → str := debug (with_base n Binary).
Definition octal (n : NumberWithBase) : Formatter → str := debug (with_base n Octal).
Definition display (n : NumberWithBase) : Formatter → str := debug (with_base n Decimal).
Definition lower_hex (n : NumberWithBase) : Formatter → str := debug (with_base n Hexadecimal).
Definition upper_hex (n : NumberWithBase) (f : Formatter) : str :=
  pad_integral f true (prefix Hexadecimal) (char_upper <$> lower_hex n plain).

(** ** [ToBase] *)

Definition to_base (n : NumberWithBase) (b : Base) (add_prefix : bool) : str :=
  let n := with_base n b in if add_prefix then debug n pretty else debug n plain.
Definition I256_to_base (n : Z) (b : Base) (add_prefix : bool) : str :=
  let n := with_base (from_I256 n) b in if add_prefix then debug n pretty else debug n plain.
Definition U256_to_base (n : Z) (b : Base) (add_prefix : bool) : str :=
  let n := with_base (from_U256 n) b in if add_prefix then debug n pretty else debug n plain.
Definition str_to_base (s : str) (b : Base) (add_prefix : bool) : result Error str :=
  n ← NumberWithBase_from_str s;
  let n := with_base n b in
  mret (if add_prefix then debug n pretty else debug n plain).
End base.

(** ** Digits *)

Lemma to_digit_char r d : 0 <= d < r → r <= 16 → to_digit r (digit_char d) = Some d.
Proof.
  intros Hd Hr. unfold to_digit, digit_char.
  repeat (z_case; simpl; try lia); do 2 f_equal; lia.
Qed.

Lemma to_digit_range r c d : to_digit r c = Some d → 48 <= c.
Proof. unfold to_digit. repeat (z_case; simpl; try lia); done. Qed.

Lemma as_u32_range b : 2 <= as_u32 b <= 16.
Proof. destruct b; simpl; lia. Qed.

(** A text of digits of the radix, at least one. *)
Definition numeral (r : Z) (s : str) : Prop := s ≠ [] ∧ Forall (λ c, is_Some (to_digit r c)) s.

Lemma digits_acc_spec fuel r n acc :
  2 <= r <= 16 → 0 <= n < 2 ^ Z.of_nat fuel →
  Forall (λ c, is_Some (to_digit r c)) acc →
  numeral r (digits_acc (S fuel) r n acc) ∧
  digits_value r 0 (digits_acc (S fuel) r n acc) = digits_value r n acc ∧
  (0 < n → ∃ c s, digits_acc (S fuel) r n acc = c :: s ∧ c ≠ 48).
Proof.
  intros Hr. revert n acc. induction fuel as [|fuel IH]; intros n acc Hn Hacc.
  { assert (n = 0) as -> by (simpl in Hn; lia).
    cbn [digits_acc]. rewrite Zmod_0_l. assert ((0 <? r) = true) as -> by lia.
    cbn [digits_value]. rewrite to_digit_char by lia. split_and!; [|done|lia].
    split; [done|]. constructor; [|done]. rewrite to_digit_char by lia. eauto. }
  rewrite Nat2Z.inj_succ, Z.pow_succ_r in Hn by lia.
  assert (Hdig : to_digit r (digit_char (n mod r)) = Some (n mod r)).
  { apply to_digit_char; [apply Z.mod_pos_bound|]; lia. }
  remember (S fuel) as f eqn:Ef. cbn [digits_acc]. rewrite Ef in *.
  destruct (Z.ltb_spec n r).
  - rewrite Z.mod_small in * by lia. split_and!.
    + split; [done|]. constructor; [rewrite Hdig; eauto|done].
    + cbn [digits_value]. by rewrite Hdig.
    + intros ?. eexists _, _; split; [done|]. unfold digit_char. z_case; lia.
  - destruct (IH (n / r) (digit_char (n mod r) :: acc)) as (Hnum & Hval & Hhd).
    + split; [apply Z.div_pos; lia|]. apply Z.div_lt_upper_bound; nia.
    + constructor; [rewrite Hdig; eauto|done].
    + split; [done|]. split; [|intros; apply Hhd; apply Z.div_str_pos; lia].
      rewrite Hval. cbn [digits_value]. rewrite Hdig. simpl.
      f_equal. pose proof (Z.div_mod n r). lia.
Qed.

Section digits.
Context (r n : Z) (Hr : 2 <= r <= 16) (Hn : 0 <= n).

Lemma digits_spec :
  numeral r (digits r n) ∧ digits_value r 0 (digits r n) = Some n ∧
  (0 < n → ∃ c s, digits r n = c :: s ∧ c ≠ 48).
Proof using Hr Hn.
  apply (digits_acc_spec _ r n []); [done| |constructor].
  rewrite Nat2Z.inj_succ, Z2Nat.id by apply Z.log2_nonneg.
  destruct (decide (n = 0)) as [->|]; [done|]. pose proof (Z.log2_spec n). lia.
Qed.

Lemma digits_numeral : numeral r (digits r n).
Proof using Hr Hn. apply digits_spec. Qed.

Lemma digits_value_digits : digits_value r 0 (digits r n) = Some n.
Proof using Hr Hn. apply digits_spec. Qed.

Lemma digits_head : n ≠ 0 → ∃ c s, digits r n = c :: s ∧ c ≠ 48.
Proof using Hr Hn. intros. apply digits_spec. lia. Qed.
End digits.

Lemma numeral_head r s : numeral r s → ∃ c s', s = c :: s' ∧ 48 <= c.
Proof.
  destruct s as [|c s]; intros [? Hs]; [done|]. eexists _, _; split; [done|].
  apply Forall_cons in Hs as [[d Hd] _]. by eapply to_digit_range.
Qed.

(** No text of digits is reported as having a wrong one. *)
Lemma checked_loop_numeral r n s :
  Forall (λ c, is_Some (to_digit r c)) s →
  (∃ m, checked_loop r n s = Ok m) ∨ checked_loop r n s = Err PosOverflow.
Proof.
  intros Hs. revert n. induction Hs as [|c s [d Hd] _ IH]; intros n; [left; by eexists|].
  cbn [checked_loop]. rewrite Hd. repeat z_case; auto.
Qed.

Lemma u64_from_str_radix_numeral r s :
  numeral r s →
  (∃ m, u64_from_str_radix s r = Ok m) ∨ u64_from_str_radix s r = Err PosOverflow.
Proof.
  intros Hs. destruct (numeral_head r s Hs) as (c & s' & -> & Hc). destruct Hs as [_ Hs].
  unfold u64_from_str_radix.
  assert ((c =? 43) = false) as -> by lia. assert ((c =? 45) = false) as -> by lia.
  destruct s'; by apply checked_loop_numeral.
Qed.

(** ** Detection *)

Section detection.
Context `{!U256Text} {L : U256TextLaws _}.

Lemma verify_numeral p b s : numeral (as_u32 b) s → length p = 2%nat → verify (p ++ s) b = Ok b.
Proof.
  intros Hs Hp. unfold verify. rewrite drop_app_length' by done.
  destruct (u64_from_str_radix_numeral _ _ Hs) as [[m ->]| ->]; done.
Qed.

Lemma detect_unsigned c s :
  c ≠ 43 → c ≠ 45 → starts_with (lit "0b") (c :: s) = false →
  starts_with (lit "0o") (c :: s) = false → starts_with (lit "0x") (c :: s) = false →
  is_Some (U256_from_str_radix (c :: s) 10) → detect (c :: s) = Ok Decimal.
Proof.
  intros Hp Hm Hb Ho Hx [n Hn]. unfold detect. fold detect.
  assert ((c =? 43) = false) as -> by lia. assert ((c =? 45) = false) as -> by lia.
  by rewrite Hb, Ho, Hx, Hn.
Qed.

(** No radix of the four has digits that continue ['0'] to a prefix, except
    for hexadecimal ones. *)
Lemma starts_with_two a b s :
  starts_with [a; b] s = true ↔ ∃ s', s = a :: b :: s'.
Proof.
  unfold starts_with. rewrite bool_decide_eq_true. split.
  - intros [k ->]. by eexists.
  - intros [s' ->]. by exists s'.
Qed.

Lemma decimal_not_prefixed s c : numeral 10 s → 57 < c → starts_with [48; c] s = false.
Proof.
  intros [_ Hs] Hc. apply not_true_iff_false. rewrite starts_with_two. intros [s' ->].
  apply Forall_cons in Hs as [_ [[d Hd] _]%Forall_cons]. revert Hd.
  unfold to_digit. repeat (z_case; simpl; try lia); done.
Qed.

Lemma detect_digits b n :
  in_u 256 n → detect (prefix b ++ digits (as_u32 b) n) = Ok b.
Proof using L.
  intros Hn. assert (Hnum : numeral (as_u32 b) (digits (as_u32 b) n)).
  { apply digits_numeral; [apply as_u32_range|apply Hn]. }
  destruct b; [exact (verify_numeral (lit "0b") Binary _ Hnum eq_refl)
              |exact (verify_numeral (lit "0o") Octal _ Hnum eq_refl)
              | |exact (verify_numeral (lit "0x") Hexadecimal _ Hnum eq_refl)].
  simpl. pose proof (from_str_radix_digits Decimal n Hn) as Hparse. simpl in *.
  destruct (numeral_head _ _ Hnum) as (c & s & Hs & Hc).
  revert Hparse Hnum. rewrite Hs. intros Hparse Hnum.
  apply detect_unsigned; [lia|lia| | | |by rewrite Hparse];
    (apply decimal_not_prefixed; done).
Qed.

Lemma detect_sign c s : c = 43 ∨ c = 45 → detect (c :: s) = detect s.
Proof. by intros [-> | ->]. Qed.
End detection.

(** ** What is printed is read back

    A number that is marked negative must be the raw value of a negative
    [I256]: the numbers of [from_I256], [from_U256] and [parse_uint] are. *)
Definition wf (n : NumberWithBase) : Prop :=
  in_u 256 (number n) ∧ (is_nonnegative n = false → imax 256 < number n).

(** The sign that is printed, and the number whose digits follow it. *)
Definition printed_sign (n : NumberWithBase) : bool :=
  match base n with Decimal => is_nonnegative n | _ => true end.
Definition magnitude (n : NumberWithBase) : Z :=
  if printed_sign n then number n else 2 ^ 256 - number n.

Lemma magnitude_in_u n : wf n → in_u 256 (magnitude n).
Proof.
  intros [Hn Hneg]. unfold magnitude, printed_sign.
  destruct (base n), (is_nonnegative n); try done.
  specialize (Hneg eq_refl). width_lia.
Qed.

Lemma magnitude_zero n : wf n → magnitude n = 0 ↔ number n = 0.
Proof.
  intros [Hn Hneg]. unfold magnitude, printed_sign.
  destruct (base n), (is_nonnegative n); try done.
  specialize (Hneg eq_refl). width_lia.
Qed.

Lemma from_I256_wf n : in_i 256 n → wf (from_I256 n).
Proof.
  intros Hn. split; [apply wrap_in_u; lia|]. simpl. destruct (Z.ltb_spec n 0); [|done].
  intros _. unfold wrap. rewrite <-(Z.mod_add n 1) by lia.
  rewrite Z.mod_small; width_lia.
Qed.

Lemma wf_with_base n b : wf n → wf (with_base n b).
Proof. done. Qed.

Section roundtrip.
Context `{!U256Text} {L : U256TextLaws _}.

Lemma strip_minus_digits r n : 2 <= r <= 16 → 0 <= n → strip_minus (digits r n) = digits r n.
Proof.
  intros Hr Hn. destruct (numeral_head _ _ (digits_numeral r n Hr Hn)) as (c & s & -> & Hc).
  simpl. assert ((c =? 45) = false) as -> by lia. done.
Qed.

Lemma trim_digits r n : 2 <= r <= 16 → 0 <= n → n ≠ 0 →
  (if starts_with (lit "0") (digits r n) then trim_start_matches 48 (digits r n)
   else digits r n) = digits r n.
Proof.
  intros Hr Hn Hz. destruct (digits_head r n Hr Hn Hz) as (c & s & -> & Hc).
  simpl. assert ((c =? 48) = false) as -> by lia. by destruct (starts_with _ _).
Qed.

(** The digits of the magnitude. *)
Lemma format_digits n :
  wf n → number n ≠ 0 → format n = digits (as_u32 (base n)) (magnitude n).
Proof using L.
  intros Hwf Hz. pose proof (magnitude_in_u _ Hwf) as [Hm _].
  assert (magnitude n ≠ 0) as Hmz by by rewrite magnitude_zero.
  pose proof (as_u32_range (base n)) as Hr.
  rewrite <-(trim_digits (as_u32 (base n)) (magnitude n)) by done.
  assert ((match base n with
           | Decimal => if is_nonnegative n then U256_fmt 10 (number n)
                        else strip_minus (I256_to_string (to_I256 n))
           | b => U256_fmt (as_u32 b) (number n)
           end) = digits (as_u32 (base n)) (magnitude n)) as Hs.
  { unfold magnitude, printed_sign in *. destruct Hwf as [Hin Hneg].
    destruct (base n); [apply (U256_fmt_digits Binary)|apply (U256_fmt_digits Octal)|
      |apply (U256_fmt_digits Hexadecimal)]; try done.
    destruct (is_nonnegative n); [by apply (U256_fmt_digits Decimal)|].
    specialize (Hneg eq_refl).
    assert (to_I256 n = number n - 2 ^ 256) as Hraw.
    { unfold to_I256, swrap. rewrite Z.mod_small by width_lia.
      destruct (Z.leb_spec (number n) (imax 256)); [lia|done]. }
    rewrite I256_to_string_digits by (rewrite Hraw; width_lia).
    rewrite Hraw. assert ((number n - 2 ^ 256 <? 0) = true) as -> by width_lia.
    simpl. do 2 f_equal. width_lia. }
  unfold format. rewrite Hs. done.
Qed.

(** What a formatter without a width writes. *)
Definition sign_text (f : Formatter) (nonneg : bool) : str :=
  if negb nonneg then lit "-" else if sign_plus f then lit "+" else [].

Lemma debug_text n f :
  wf n → alternate f = true → width f = None →
  debug n f = sign_text f (printed_sign n) ++ prefix (base n) ++
              digits (as_u32 (base n)) (magnitude n).
Proof using L.
  intros Hwf Ha Hw. unfold debug. destruct (Z.eqb_spec (number n) 0) as [Hz|Hz].
  - assert (printed_sign n = true) as Hs.
    { destruct Hwf as [_ Hneg]. unfold printed_sign. destruct (base n), (is_nonnegative n); try done.
      specialize (Hneg eq_refl). width_lia. }
    rewrite Hs, (proj2 (magnitude_zero n Hwf) Hz).
    unfold pad_integral. rewrite Ha, Hw. unfold sign_text. do 2 f_equal.
    by destruct (base n).
  - rewrite format_digits by done. fold (printed_sign n).
    unfold pad_integral. by rewrite Ha, Hw.
Qed.

Lemma has_prefix_digits r n : 2 <= r <= 16 → 0 <= n → has_prefix (digits r n) = false.
Proof.
  intros Hr Hn. destruct (decide (n = 0)) as [->|Hz].
  - unfold digits, digits_acc. simpl. by assert ((0 <? r) = true) as -> by lia.
  - destruct (digits_head r n Hr Hn Hz) as (c & s & -> & Hc). destruct s; [done|].
    simpl. by assert ((c =? 48) = false) as -> by lia.
Qed.

Lemma parse_uint_digits b n :
  in_u 256 n → _parse_uint (digits (as_u32 b) n) b = Ok n.
Proof using L.
  intros Hn. unfold _parse_uint. rewrite has_prefix_digits by (apply as_u32_range || apply Hn).
  by rewrite from_str_radix_digits.
Qed.

Lemma parse_uint_prefixed b n :
  in_u 256 n → _parse_uint (prefix b ++ digits (as_u32 b) n) b = Ok n.
Proof using L.
  intros Hn. destruct (decide (b = Decimal)) as [->|Hb]; [by apply parse_uint_digits|].
  unfold _parse_uint.
  assert (has_prefix (prefix b ++ digits (as_u32 b) n) = true) as -> by by destruct b.
  assert (drop 2 (prefix b ++ digits (as_u32 b) n) = digits (as_u32 b) n) as -> by by destruct b.
  by rewrite from_str_radix_digits.
Qed.

(** A prefixed number has no sign of its own. *)
Lemma prefixed_head b n :
  0 <= n → ∃ c s, prefix b ++ digits (as_u32 b) n = c :: s ∧ c ≠ 43 ∧ c ≠ 45.
Proof.
  intros Hn. destruct (numeral_head _ _ (digits_numeral _ n (as_u32_range b) Hn)) as (c & s & -> & ?).
  destruct b; eexists _, _; (split; [done|split; first [lia|done]]).
Qed.

Lemma parse_int_text (f : Formatter) (sgn : bool) b n :
  in_u 256 n →
  parse_int (sign_text f sgn ++ prefix b ++ digits (as_u32 b) n) None =
  Ok {| number := if sgn then n else wrap 256 (umax 256 - n + 1);
        is_nonnegative := sgn; base := b |}.
Proof using L.
  intros Hn. unfold parse_int, unwrap_or_detect.
  assert (detect (sign_text f sgn ++ prefix b ++ digits (as_u32 b) n) = Ok b) as ->.
  { etrans; [|exact (detect_digits b n Hn)]. unfold sign_text.
    destruct sgn; simpl; [destruct (sign_plus f)|]; done. }
  simpl. destruct (prefixed_head b n) as (c & s & Hs & Hp & Hm); [apply Hn|].
  assert (get_sign (sign_text f sgn ++ prefix b ++ digits (as_u32 b) n) =
          (prefix b ++ digits (as_u32 b) n, if sgn then Positive else Negative)) as Hg.
  { unfold sign_text. destruct sgn; simpl; [destruct (sign_plus f); [done|]|done].
    simpl. rewrite Hs. simpl. assert ((c =? 43) = false) as -> by lia.
    by assert ((c =? 45) = false) as -> by lia. }
  unfold _parse_int. rewrite Hg, parse_uint_prefixed by done. by destruct sgn.
Qed.

(** A number printed with its prefix, in any of the four bases, with or
    without a plus sign, is read back as the number it was, in the base it was
    printed in; its sign is kept in decimal, the only base that prints one. *)
Theorem debug_parse n f :
  wf n → alternate f = true → width f = None →
  parse_int (debug n f) None =
  Ok {| number := number n; is_nonnegative := printed_sign n; base := base n |}.
Proof.
  intros Hwf Ha Hw. rewrite debug_text by done.
  rewrite parse_int_text by by apply magnitude_in_u.
  do 2 f_equal. destruct Hwf as [Hin Hneg]. unfold magnitude.
  destruct (printed_sign n) eqn:Hs; [done|].
  unfold wrap. replace (umax 256 - (2 ^ 256 - number n) + 1) with (number n) by (unfold umax; lia).
  apply Z.mod_small. width_lia.
Qed.
End roundtrip.

Section conversion.
Context `{!U256Text} {L : U256TextLaws _}.

(** Converting a text is converting the number: what [to_base] prints of a
    number that is not negative, converted to another base, is what [to_base]
    prints of the number in that base. *)
Theorem to_base_converts n b c add_prefix :
  in_u 256 (number n) → is_nonnegative n = true →
  str_to_base (to_base n b true) c add_prefix = Ok (to_base n c add_prefix).
Proof.
  intros Hn Hs. assert (wf (with_base n b)) as Hwf by (split; [done|simpl; by rewrite Hs]).
  unfold str_to_base, NumberWithBase_from_str, to_base at 1.
  rewrite debug_text by done. rewrite parse_int_text by by apply magnitude_in_u.
  assert (printed_sign (with_base n b) = true) as Hp by by destruct b.
  unfold magnitude. rewrite Hp. simpl. unfold to_base, with_base. simpl. by rewrite Hs.
Qed.

Lemma I256_to_base_text n b :
  in_i 256 n →
  I256_to_base n b true =
  sign_text pretty (printed_sign (with_base (from_I256 n) b)) ++ prefix b ++
  digits (as_u32 b) (magnitude (with_base (from_I256 n) b)).
Proof using L. intros. by apply debug_text; [apply wf_with_base, from_I256_wf|..]. Qed.

(** Every signed 256-bit integer survives being printed in decimal and
    read back. *)
Theorem I256_decimal_roundtrip n :
  in_i 256 n →
  (to_I256 <$> parse_int (I256_to_base n Decimal true) None) = Ok n.
Proof.
  intros Hn. pose proof (from_I256_wf n Hn) as Hwf.
  rewrite I256_to_base_text by done.
  rewrite parse_int_text by by apply magnitude_in_u. simpl.
  unfold magnitude, printed_sign, to_I256. simpl. f_equal.
  destruct (Z.ltb_spec n 0) as [Hneg|Hpos]; simpl.
  - assert (wrap 256 n = n + 2 ^ 256) as ->.
    { unfold wrap. rewrite <-(Z.mod_add n 1) by lia. rewrite Z.mod_small; width_lia. }
    unfold swrap, wrap. rewrite !(Z.mod_small (umax 256 - _ + 1)) by width_lia.
    replace (umax 256 - (2 ^ 256 - (n + 2 ^ 256)) + 1) with (n + 2 ^ 256) by (unfold umax; lia).
    destruct (Z.leb_spec (n + 2 ^ 256) (imax 256)); width_lia.
  - unfold swrap, wrap. rewrite Z.mod_mod by lia. rewrite Z.mod_small by width_lia.
    destruct (Z.leb_spec n (imax 256)); width_lia.
Qed.

(** The name that is printed for a base is one of its names. *)
Lemma Base_display_parses b : Base_from_str (Base_display b) = Ok b.
Proof. by destruct b. Qed.

(** With a base that is given, the prefix may be left out. *)
Lemma parse_uint_given b n :
  in_u 256 n →
  parse_uint (digits (as_u32 b) n) (Some (Base_display b)) =
  Ok {| number := n; is_nonnegative := true; base := b |}.
Proof using L.
  intros Hn. unfold parse_uint, unwrap_or_detect. rewrite Base_display_parses. simpl.
  by rewrite parse_uint_digits.
Qed.

(** [format] leaves nothing of zero. *)
Lemma format_zero b :
  format {| number := 0; is_nonnegative := true; base := b |} = [].
Proof using L.
  assert (in_u 256 0) as H0 by width_lia. unfold format.
  pose proof (U256_fmt_digits b 0 H0) as Hf.
  destruct b; simpl in *; by rewrite Hf.
Qed.

(** With base 16 given, the digits ['0' 'b'] in front are taken for the binary
    prefix and dropped. *)
Lemma hex_digits_dropped n :
  in_u 256 n →
  parse_uint (lit "0b" ++ digits 16 n) (Some (lit "16")) =
  Ok {| number := n; is_nonnegative := true; base := Hexadecimal |}.
Proof using L.
  intros Hn. unfold parse_uint, unwrap_or_detect.
  assert (Base_from_str (lit "16") = Ok Hexadecimal) as -> by done. simpl.
  unfold _parse_uint.
  simpl. rewrite drop_0. pose proof (from_str_radix_digits Hexadecimal n Hn) as Hd. simpl in Hd. by rewrite Hd.
Qed.

(** A negative number whose magnitude exceeds the range of [I256] is accepted
    and read as another number. *)
Lemma negative_wraps m :
  imax 256 + 1 < m <= umax 256 →
  parse_int (lit "-" ++ digits 10 m) None =
  Ok {| number := 2 ^ 256 - m; is_nonnegative := false; base := Decimal |} ∧
  str_to_base (lit "-" ++ digits 10 m) Decimal false = Ok (lit "-" ++ digits 10 (2 ^ 256 - m)).
Proof using L.
  intros Hm. assert (in_u 256 m) as Hin by width_lia.
  pose proof (parse_int_text plain false Decimal m Hin) as Hp. simpl in Hp.
  assert (wrap 256 (umax 256 - m + 1) = 2 ^ 256 - m) as Hw.
  { unfold wrap. rewrite Z.mod_small by width_lia. unfold umax. lia. }
  rewrite Hw in Hp. assert (0 < 2 ^ 256 - m <= imax 256) as Hk by width_lia.
  remember (2 ^ 256 - m) as k. unfold str_to_base, NumberWithBase_from_str. simpl. rewrite Hp.
  split; [done|]. simpl. f_equal. unfold debug. simpl.
  assert ((k =? 0) = false) as -> by lia.
  unfold pad_integral. simpl. f_equal. unfold format.
  cbn [base is_nonnegative with_base].
  assert (to_I256 (with_base {| number := k; is_nonnegative := false; base := Decimal |} Decimal) = k) as Hraw.
  { unfold to_I256, swrap. cbn [number with_base]. rewrite Z.mod_small by width_lia.
    destruct (Z.leb_spec k (imax 256)); [done|lia]. }
  rewrite Hraw, I256_to_string_digits by width_lia.
  assert ((k <? 0) = false) as -> by lia. simpl.
  rewrite Z.abs_eq, strip_minus_digits by lia. apply trim_digits; lia.
Qed.
End conversion.

(** A base given as an [I256] is cut to 32 bits, as a [U256] it is not. *)
Lemma try_from_I256_truncates : try_from_I256 (2 ^ 32 + 2) = Ok Binary.
Proof. reflexivity. Qed.
Lemma try_from_U256_saturates n : in_u 256 n → 16 < n → try_from_U256 n = Err InvalidBase.
Proof.
  intros Hn Hlt. unfold try_from_U256, try_from_u32. repeat z_case; first [done|width_lia].
Qed.

(** ** An instance of the interface

    The underscore is skipped, as in [ruint]. *)
Definition simple_text : U256Text := {|
  U256_from_str_radix s r :=
    n ← digits_value r 0 (filter (λ c, c ≠ 95) s); if n <=? umax 256 then Some n else None;
  U256_fmt r n := digits r n;
  I256_to_string n := (if n <? 0 then lit "-" else []) ++ digits 10 (Z.abs n);
|}.

Lemma digits_value_refused r n s c :
  c ∈ s → to_digit r c = None → digits_value r n s = None.
Proof.
  intros Hc Hd. revert n. induction Hc as [|c y s Hc IH]; intros n; simpl.
  - by rewrite Hd.
  - destruct (to_digit r y); simpl; auto.
Qed.

Lemma simple_text_laws : U256TextLaws simple_text.
Proof.
  split; simpl.
  - intros b n Hn. rewrite filter_all.
    + rewrite digits_value_digits by (apply as_u32_range || apply Hn). simpl.
      destruct (Z.leb_spec n (umax 256)); [done|]. unfold in_u in Hn. lia.
    + destruct (digits_numeral (as_u32 b) n) as [_ Hd]; [apply as_u32_range|apply Hn|].
      rewrite Forall_forall in Hd. intros c Hc ->. destruct (Hd _ Hc) as [d Hd'].
      by destruct b.
  - intros s b c Hc Hne Hd. rewrite (digits_value_refused _ _ _ c); [done| |done].
    by apply list_elem_of_filter.
  - done.
  - done.
Qed.

Definition minus_12345 : NumberWithBase := from_I256 (-12345).

Lemma debug_parse_witness :
  (wf minus_12345 ∧ @debug simple_text minus_12345 pretty = lit "-12345") ∧
  @parse_int simple_text (@debug simple_text minus_12345 pretty) None =
  Ok {| number := number minus_12345; is_nonnegative := printed_sign minus_12345;
        base := base minus_12345 |}.
Proof.
  assert (wf minus_12345) as Hwf by (apply from_I256_wf; width_lia).
  split; [split; [exact Hwf|reflexivity]|].
  exact (@debug_parse simple_text simple_text_laws minus_12345 pretty Hwf eq_refl eq_refl).
Defined.

Lemma to_base_converts_witness :
  (in_u 256 (number (from_U256 12345)) ∧
   @to_base simple_text (from_U256 12345) Hexadecimal true = lit "0x3039") ∧
  @str_to_base simple_text (@to_base simple_text (from_U256 12345) Hexadecimal true) Octal false
  = Ok (@to_base simple_text (from_U256 12345) Octal false).
Proof.
  assert (in_u 256 (number (from_U256 12345))) as Hn by (simpl; width_lia).
  split; [split; [exact Hn|reflexivity]|].
  exact (@to_base_converts simple_text simple_text_laws (from_U256 12345) Hexadecimal Octal false
           Hn eq_refl).
Defined.

Lemma I256_decimal_roundtrip_witness :
  in_i 256 (-12345) ∧
  (to_I256 <$> @parse_int simple_text (@I256_to_base simple_text (-12345) Decimal true) None)
  = Ok (-12345).
Proof.
  assert (in_i 256 (-12345)) as Hn by width_lia. split; [exact Hn|].
  exact (@I256_decimal_roundtrip simple_text simple_text_laws (-12345) Hn).
Defined.

(** What the tests of the source check. *)
Example to_base_samples :
  (@str_to_base simple_text (lit "12345") Binary true = Ok (lit "0b11000000111001")) ∧
  @str_to_base simple_text (lit "-0xff") Decimal true = Ok (lit "-255") ∧
  @detect simple_text (lit "0b012") = Err (CouldNotParse InvalidDigit) ∧
  @detect simple_text (lit "abc") = Ok Hexadecimal ∧
  @detect simple_text (lit "0x" ++ repeat_n 102 80) = Ok Hexadecimal ∧
  @upper_hex simple_text (from_U256 255) pretty = lit "0xFF".
Proof. repeat split. Qed.
