(* ===== verification/MultiFork.v ===== *)
(** * Forks that several backends share

    Models [evm/core/src/fork/multi.rs]: the task that creates forks, hands out
    an identifier of its own to everyone who asks for one, and keeps their
    environments.  [MultiForkHandler] is the struct with what it has sent to
    its clients; [poll] is one turn of the future: it takes the requests that
    have arrived and goes through the tasks that are under way.

    The provider of a fork answers in its own time: the outcome of the future
    of a task is an argument of [poll].  revm's configuration and transactions,
    the shared backends of [foundry_fork_db] and the options of the EVM are
    types of the class [Remote]. *)
From S2P Require Import Prelude.
From S2P Require Import Text.
Local Open Scope Z_scope.

(** ** Environments *)

Record BlockEnv := mkBlockEnv {
  number : Z;
  timestamp : Z;
  beneficiary : Z;
  difficulty : Z;
  prevrandao : option Z;
  basefee : Z;
  gas_limit : Z;
  blob_excess_gas_and_price : option (Z * Z);
}.
Definition set_number_and_timestamp (n t : Z) (b : BlockEnv) : BlockEnv :=
  mkBlockEnv n t (beneficiary b) (difficulty b) (prevrandao b) (basefee b) (gas_limit b)
    (blob_excess_gas_and_price b).

(** What is taken from revm, [foundry_fork_db] and the provider: their types,
    and the backend with its handler for a block of a fork. *)
Class Remote := {
  CfgEnv : Type;
  TxRest : Type;
  EvmOpts : Type;
  SharedBackend : Type;
  BackendHandler : Type;
}.

(** [caller], [kind] (the callee, [None] for a creation) and [chain_id] of the
    transaction, and the rest of it. *)
Record TxEnv `{Remote} := mkTxEnv {
  caller : Z;
  kind : option Z;
  chain_id : option Z;
  tx_rest : TxRest;
}.
Arguments mkTxEnv {_}.
Record Env `{Remote} := mkEnv { block : BlockEnv; cfg : CfgEnv; tx : TxEnv }.
Arguments mkEnv {_}.

(** ** Identifiers *)

Abbreviation ForkId := str.
Definition ForkId_new (url : str) (num : option Z) : ForkId :=
  url ++ lit "@" ++ match num with Some n => lit "0x" ++ digits 16 n | None => lit "latest" end.

Inductive Poll A := Ready (a : A) | Pending.
Arguments Ready {A} a.
Arguments Pending {A}.

Section handler.
Context {R : Remote}.

Record CreateFork := mkCreateFork {
  enable_caching : bool;
  url : str;
  env : Env;
  fork_block_number : option Z;
  evm_opts : EvmOpts;
}.
Definition set_env (e : Env) (f : CreateFork) : CreateFork :=
  mkCreateFork (enable_caching f) (url f) e (fork_block_number f) (evm_opts f).
Definition set_fork_block_number (n : option Z) (f : CreateFork) : CreateFork :=
  mkCreateFork (enable_caching f) (url f) (env f) n (evm_opts f).
Definition set_block (b : BlockEnv) (e : Env) : Env := mkEnv b (cfg e) (tx e).

(** [num_senders] is an [Arc]: the place of a counter that clones share. *)
Record CreatedFork := mkCreatedFork { opts : CreateFork; backend : SharedBackend; num_senders : nat }.
Definition set_opts (o : CreateFork) (f : CreatedFork) : CreatedFork :=
  mkCreatedFork o (backend f) (num_senders f).

(** ** Requests and replies

    A sender of a channel is a number. *)
Inductive Request :=
| RCreateFork (fork : CreateFork) (sender : nat)
| GetFork (fork_id : ForkId) (sender : nat)
| RollFork (fork_id : ForkId) (block : Z) (sender : nat)
| GetEnv (fork_id : ForkId) (sender : nat)
| UpdateBlock (fork_id : ForkId) (block_number block_timestamp : Z)
| UpdateEnv (fork_id : ForkId) (env : BlockEnv)
| ShutDown (sender : nat)
| GetForkUrl (fork_id : ForkId) (sender : nat).

(** Why no fork was created. *)
Inductive CreateError := NoMatchingFork (id : ForkId) | ProviderError (e : str).

Inductive Reply :=
| Created (r : result CreateError (ForkId * SharedBackend * Env))
| GotFork (b : option SharedBackend)
| GotEnv (e : option Env)
| GotUrl (u : option str)
| Flushed.

(** [ForkTask::Create]: its future is known by what it was made from. *)
Record ForkTask := mkTask {
  future : CreateFork;
  id : ForkId;
  sender : nat;
  additional_senders : list nat;
}.

(** What the provider answers: the environment of the fork and the number of
    its block, and what [SharedBackend::new] makes of them. *)
Definition Outcome : Type := result str (Env * Z * SharedBackend * BackendHandler).

(** ** The handler *)

Record MultiForkHandler := mkHandler {
  handlers : list (ForkId * BackendHandler);
  pending_tasks : list ForkTask;
  forks : gmap ForkId CreatedFork;
  (** The counters of the [Arc]s. *)
  counters : list Z;
  sent : list (nat * Reply);
}.
Definition MultiForkHandler_new : MultiForkHandler := mkHandler [] [] ∅ [] [].

Implicit Types h : MultiForkHandler.

Definition set_handlers l h : MultiForkHandler :=
  mkHandler l (pending_tasks h) (forks h) (counters h) (sent h).
Definition set_pending l h : MultiForkHandler :=
  mkHandler (handlers h) l (forks h) (counters h) (sent h).
Definition set_forks m h : MultiForkHandler :=
  mkHandler (handlers h) (pending_tasks h) m (counters h) (sent h).
Definition set_counters l h : MultiForkHandler :=
  mkHandler (handlers h) (pending_tasks h) (forks h) l (sent h).
Definition send (s : nat) (r : Reply) h : MultiForkHandler :=
  mkHandler (handlers h) (pending_tasks h) (forks h) (counters h) (sent h ++ [(s, r)]).

(** [CreatedFork::new] *)
Definition CreatedFork_new (o : CreateFork) (b : SharedBackend) h : CreatedFork * MultiForkHandler :=
  (mkCreatedFork o b (length (counters h)), set_counters (counters h ++ [1]) h).

(** [fetch_add] returns the old value. *)
Definition inc_senders (fork : CreatedFork) (fork_id : ForkId) h : ForkId * MultiForkHandler :=
  let n := default 0 (counters h !! num_senders fork) in
  (fork_id ++ lit "-" ++ digits 10 n, set_counters (<[num_senders fork := n + 1]> (counters h)) h).

(** The first task for the identifier. *)
Definition find_in_progress_task (fork_id : ForkId) h : option (nat * ForkTask) :=
  list_find (λ t, id t = fork_id) (pending_tasks h).

Definition create_fork (fork : CreateFork) (s : nat) h : MultiForkHandler :=
  let fork_id := ForkId_new (url fork) (fork_block_number fork) in
  match find_in_progress_task fork_id h with
  | Some (i, t) =>
      set_pending (<[i := mkTask (future t) (id t) (sender t) (additional_senders t ++ [s])]>
                     (pending_tasks h)) h
  | None => set_pending (pending_tasks h ++ [mkTask fork fork_id s []]) h
  end.

Definition created_reply (fork_id : ForkId) (fork : CreatedFork) : Reply :=
  Created (Ok (fork_id, backend fork, env (opts fork))).

(** One more sender of [insert_new_fork]. *)
Definition notify_sender (fork_id : ForkId) (fork : CreatedFork) h (s : nat) : MultiForkHandler :=
  let '(next_fork_id, h) := inc_senders fork fork_id h in
  send s (created_reply next_fork_id fork) (set_forks (<[next_fork_id := fork]> (forks h)) h).
Definition insert_new_fork (fork_id : ForkId) (fork : CreatedFork) (s : nat) (additional : list nat) h
    : MultiForkHandler :=
  let h := send s (created_reply fork_id fork) (set_forks (<[fork_id := fork]> (forks h)) h) in
  foldl (notify_sender fork_id fork) h additional.

Definition update_opts (f : CreateFork → CreateFork) (fork_id : ForkId) h : MultiForkHandler :=
  match forks h !! fork_id with
  | Some fork => set_forks (<[fork_id := set_opts (f (opts fork)) fork]> (forks h)) h
  | None => h
  end.
Definition update_env (fork_id : ForkId) (b : BlockEnv) h : MultiForkHandler :=
  update_opts (λ o, set_env (set_block b (env o)) o) fork_id h.
Definition update_block (fork_id : ForkId) (n t : Z) h : MultiForkHandler :=
  update_opts (λ o, set_env (set_block (set_number_and_timestamp n t (block (env o))) (env o)) o) fork_id h.

Definition on_request h (req : Request) : MultiForkHandler :=
  match req with
  | RCreateFork fork s => create_fork fork s h
  | GetFork fork_id s => send s (GotFork (backend <$> forks h !! fork_id)) h
  | RollFork fork_id block s =>
      match forks h !! fork_id with
      | Some fork => create_fork (set_fork_block_number (Some block) (opts fork)) s h
      | None => send s (Created (Err (NoMatchingFork fork_id))) h
      end
  | GetEnv fork_id s => send s (GotEnv ((λ f, env (opts f)) <$> forks h !! fork_id)) h
  | UpdateBlock fork_id n t => update_block fork_id n t h
  | UpdateEnv fork_id b => update_env fork_id b h
  | ShutDown s => send s Flushed (set_handlers [] (set_forks ∅ h))
  | GetForkUrl fork_id s => send s (GotUrl ((λ f, url (opts f)) <$> forks h !! fork_id)) h
  end.

(** The end of a future: [create_fork] outside of the [impl]. *)
Definition created (t : ForkTask) (e : Env) (n : Z) (b : SharedBackend) h
    : ForkId * CreatedFork * MultiForkHandler :=
  let '(fork, h) := CreatedFork_new (set_env e (future t)) b h in
  (ForkId_new (url (future t)) (Some n), fork, h).

(** A task whose future is ready. *)
Definition finish_task (t : ForkTask) (o : Outcome) h : MultiForkHandler :=
  match o with
  | Ok (e, n, b, handler) =>
      let '(fork_id, fork, h) := created t e n b h in
      match forks h !! fork_id with
      | Some fork =>
          let '(next_fork_id, h) := inc_senders fork fork_id h in
          insert_new_fork next_fork_id fork (sender t) (additional_senders t) h
      | None =>
          insert_new_fork fork_id fork (sender t) (additional_senders t)
            (set_handlers (handlers h ++ [(fork_id, handler)]) h)
      end
  | Err e =>
      foldl (λ h s, send s (Created (Err (ProviderError e))) h) h (sender t :: additional_senders t)
  end.

(** The turn of the loop at index [n]. *)
Definition advance_task (fut : ForkTask → Poll Outcome) (n : nat) h : MultiForkHandler :=
  match pending_tasks h !! n with
  | Some t =>
      let h := set_pending (swap_remove n (pending_tasks h)) h in
      match fut t with
      | Ready o => finish_task t o h
      | Pending => set_pending (pending_tasks h ++ [t]) h
      end
  | None => h
  end.
(** [for n in (0..len).rev()] *)
Fixpoint advance (fut : ForkTask → Poll Outcome) (len : nat) h : MultiForkHandler :=
  match len with
  | O => h
  | S n => advance fut n (advance_task fut n h)
  end.

(** [completed]: the handlers whose channels are closed. *)
Fixpoint advance_handlers (completed : ForkId → bool) (len : nat) (l : list (ForkId * BackendHandler))
    : list (ForkId * BackendHandler) :=
  match len with
  | O => l
  | S n =>
      advance_handlers completed n
        match l !! n with
        | Some p => if completed p.1 then swap_remove n l else swap_remove n l ++ [p]
        | None => l
        end
  end.

(** One turn.  [done]: the channel of requests is closed. *)
Definition poll (incoming : list Request) (done : bool) (fut : ForkTask → Poll Outcome)
    (completed : ForkId → bool) h : Poll unit * MultiForkHandler :=
  let h := foldl on_request h incoming in
  let h := advance fut (length (pending_tasks h)) h in
  let h := set_handlers (advance_handlers completed (length (handlers h)) (handlers h)) h in
  (if bool_decide (length (handlers h) = 0%nat) && done then Ready () else Pending, h).
End handler.

(** ** The client

    What a backend asks of the handler: every request waits for its reply. *)
Class ForkService `{Remote} := {
  Service : Type;
  service_create : CreateFork → Service → result CreateError (ForkId * SharedBackend * Env) * Service;
  service_roll : ForkId → Z → Service → result CreateError (ForkId * SharedBackend * Env) * Service;
  service_env : ForkId → Service → option Env;
  service_url : ForkId → Service → option str;
  service_update_block : ForkId → Z → Z → Service → Service;
  service_update_env : ForkId → BlockEnv → Service → Service;
}.

(** What it relies on: a new fork has an identifier that no fork had, and only
    its own client changes its environment. *)
Class ForkServiceLaws `{ForkService} := {
  service_ok : Service → Prop;
  create_ok f s r s' : service_ok s → service_create f s = (r, s') → service_ok s' ∧
    match r with
    | Ok (i, _, e) => service_env i s = None ∧ ∀ j, service_env j s' = if decide (j = i) then Some e else service_env j s
    | Err _ => ∀ j, service_env j s' = service_env j s
    end;
  roll_ok i n s r s' : service_ok s → service_roll i n s = (r, s') → service_ok s' ∧
    match r with
    | Ok (k, _, e) => service_env k s = None ∧ ∀ j, service_env j s' = if decide (j = k) then Some e else service_env j s
    | Err _ => ∀ j, service_env j s' = service_env j s
    end;
  update_block_ok i n t s : service_ok s → service_ok (service_update_block i n t s) ∧
    ∀ j, service_env j (service_update_block i n t s) =
      if decide (j = i) then (λ e, set_block (set_number_and_timestamp n t (block e)) e) <$> service_env i s
      else service_env j s;
  update_env_ok i b s : service_ok s → service_ok (service_update_env i b s) ∧
    ∀ j, service_env j (service_update_env i b s) =
      if decide (j = i) then set_block b <$> service_env i s else service_env j s;
}.

(** [MultiFork] over the handler and a provider in state [p], that has answered
    by the time the client looks at the channel. *)
Section client.
Context {R : Remote} {P : Type} (answer : P → CreateFork → Outcome) (tick : P → P).

(** The reply that has come since the request was sent. *)
Definition receive (s : nat) (before after : MultiForkHandler) : option Reply :=
  snd ∘ snd <$> list_find (λ p, p.1 = s) (drop (length (sent before)) (sent after)).
Definition request (r : nat → Request) (s : MultiForkHandler * P) : option Reply * (MultiForkHandler * P) :=
  let '(h, p) := s in
  let n := length (sent h) in
  let h' := (poll [r n] false (λ t, Ready (answer p (future t))) (λ _, false) h).2 in
  (receive n h h', (h', tick p)).
(** [rx.recv()??]; nobody drops the sender. *)
Definition created_or (r : option Reply) : result CreateError (ForkId * SharedBackend * Env) :=
  match r with Some (Created r) => r | _ => Err (ProviderError (lit "receiving on a closed channel")) end.

Definition MultiFork_create_fork (fork : CreateFork) (s : MultiForkHandler * P) :=
  let '(r, s) := request (RCreateFork fork) s in (created_or r, s).
Definition MultiFork_roll_fork (fork_id : ForkId) (block : Z) (s : MultiForkHandler * P) :=
  let '(r, s) := request (RollFork fork_id block) s in (created_or r, s).
Definition MultiFork_get_env (fork_id : ForkId) (s : MultiForkHandler * P) : option Env :=
  match (request (GetEnv fork_id) s).1 with Some (GotEnv e) => e | _ => None end.
Definition MultiFork_get_fork_url (fork_id : ForkId) (s : MultiForkHandler * P) : option str :=
  match (request (GetForkUrl fork_id) s).1 with Some (GotUrl u) => u | _ => None end.
Definition MultiFork_update_block (fork_id : ForkId) (n t : Z) (s : MultiForkHandler * P) :=
  (request (λ _, UpdateBlock fork_id n t) s).2.
Definition MultiFork_update_block_env (fork_id : ForkId) (b : BlockEnv) (s : MultiForkHandler * P) :=
  (request (λ _, UpdateEnv fork_id b) s).2.

#[export] Instance multi_fork : ForkService := {|
  Service := MultiForkHandler * P;
  service_create := MultiFork_create_fork;
  service_roll := MultiFork_roll_fork;
  service_env := MultiFork_get_env;
  service_url := MultiFork_get_fork_url;
  service_update_block := MultiFork_update_block;
  service_update_env := MultiFork_update_block_env;
|}.
End client.
