(* ===== verification/MultiForkSpec.v ===== *)
(** * Properties of the shared forks

    Theorems on [MultiFork]: nobody who asked waits for ever or is answered
    twice, identifiers are handed out once, and what one client changes in the
    environment of a fork stays with its identifier, apart from the forks that
    are created after it. *)
From S2P Require Import Prelude.
From S2P Require Import Text.
From S2P Require Import CastBase.
From S2P Require Import MultiFork.
Local Open Scope Z_scope.

(** ** Texts of identifiers *)

Lemma app_sep_inj (c : char) (s1 s2 t1 t2 : str) :
  c ∉ s1 → c ∉ s2 → (t1 = [] ∨ head t1 = Some c) → (t2 = [] ∨ head t2 = Some c) →
  s1 ++ t1 = s2 ++ t2 → s1 = s2 ∧ t1 = t2.
Proof.
  intros H1 H2 Ht1 Ht2. revert s2 H2. induction s1 as [|x s1 IH]; intros [|y s2] H2 Heq; simplify_eq/=.
  - done.
  - destruct Ht1; simplify_eq/=. set_solver.
  - destruct Ht2; simplify_eq/=. set_solver.
  - destruct (IH ltac:(set_solver) s2 ltac:(set_solver) ltac:(done)) as [-> ->]. done.
Qed.
Lemma app_last_sep_inj (c : char) (s1 s2 t1 t2 : str) :
  c ∉ t1 → c ∉ t2 → s1 ++ c :: t1 = s2 ++ c :: t2 → s1 = s2 ∧ t1 = t2.
Proof.
  intros H1 H2 Heq. apply (f_equal reverse) in Heq. rewrite !reverse_app, !reverse_cons, <-!(assoc_L (++)) in Heq.
  apply (app_sep_inj c) in Heq as [Ht Hs]; [|rewrite elem_of_reverse; done..|by right|by right].
  injection Hs as Hs. split; by apply (inj reverse).
Qed.

Lemma sign_not_digit r n c : 2 <= r <= 16 → 0 <= n → to_digit r c = None → c ∉ digits r n.
Proof.
  intros Hr Hn Hc Hin. destruct (digits_numeral r n Hr Hn) as [_ Hd].
  rewrite Forall_forall in Hd. destruct (Hd _ Hin). congruence.
Qed.
Lemma digits_inj r n m : 2 <= r <= 16 → 0 <= n → 0 <= m → digits r n = digits r m → n = m.
Proof.
  intros Hr Hn Hm Heq. pose proof (digits_value_digits r n Hr Hn) as H.
  rewrite Heq, digits_value_digits in H by done. congruence.
Qed.

(** The counts that were put behind an identifier. *)
Definition suffix (ks : list Z) : str := concat ((λ k, lit "-" ++ digits 10 k) <$> ks).
(** [i] stands for the block [n] of [u], and was counted up to the last of [ks]. *)
Record shaped (i : ForkId) (u : str) (n : Z) (ks : list Z) : Prop := {
  sh_text : i = ForkId_new u (Some n) ++ suffix ks;
  sh_block : 0 <= n;
  sh_counts : Forall (λ k, 0 <= k) ks;
}.

Lemma suffix_head ks : suffix ks = [] ∨ head (suffix ks) = Some 45.
Proof. destruct ks; [by left|by right]. Qed.
Lemma suffix_snoc ks k : suffix (ks ++ [k]) = suffix ks ++ lit "-" ++ digits 10 k.
Proof. unfold suffix. rewrite fmap_app, concat_app. cbn. by rewrite app_nil_r. Qed.
Lemma suffix_chars c ks :
  to_digit 10 c = None → c ≠ 45 → Forall (λ k, 0 <= k) ks → c ∉ suffix ks.
Proof.
  intros Hc Hn. induction 1 as [|k ks Hk _ IH]; [apply not_elem_of_nil|].
  change (c ∉ (45 :: digits 10 k) ++ suffix ks). pose proof (sign_not_digit 10 k c). set_solver by lia.
Qed.
Lemma suffix_inj ks1 ks2 :
  Forall (λ k, 0 <= k) ks1 → Forall (λ k, 0 <= k) ks2 → suffix ks1 = suffix ks2 → ks1 = ks2.
Proof.
  intros H1. revert ks2. induction H1 as [|k ks1 Hk _ IH]; intros [|k' ks2] H2 Heq; [done..|].
  apply Forall_cons in H2 as [Hk' H2]. unfold suffix in Heq. cbn in Heq. injection Heq as Heq.
  change (digits 10 k ++ suffix ks1 = digits 10 k' ++ suffix ks2) in Heq.
  apply (app_sep_inj 45) in Heq as [Hd Hs];
    [|apply sign_not_digit; [lia..|done]|apply sign_not_digit; [lia..|done]|apply suffix_head..].
  apply digits_inj in Hd as ->; [|lia..]. f_equal. by apply IH.
Qed.

Lemma shaped_inj i u n ks u' n' ks' :
  shaped i u n ks → shaped i u' n' ks' → u = u' ∧ n = n' ∧ ks = ks'.
Proof.
  intros [-> Hn Hks] [Heq Hn' Hks']. unfold ForkId_new in Heq. rewrite <-!(assoc_L (++)) in Heq. cbn in Heq.
  assert (Hat : ∀ m l, 0 <= m → Forall (λ k, 0 <= k) l → 64 ∉ 48 :: 120 :: digits 16 m ++ suffix l).
  { intros m l Hm Hl. pose proof (sign_not_digit 16 m 64 ltac:(lia) Hm eq_refl).
    pose proof (suffix_chars 64 l eq_refl ltac:(lia) Hl). set_solver by lia. }
  apply app_last_sep_inj in Heq as [-> Heq]; [|by apply Hat..]. injection Heq as Heq.
  apply (app_sep_inj 45) in Heq as [Hd Hs];
    [|apply sign_not_digit; [lia..|done]|apply sign_not_digit; [lia..|done]|apply suffix_head..].
  apply digits_inj in Hd; [|lia..]. apply suffix_inj in Hs; done.
Qed.

Lemma shaped_next i u n ks k :
  shaped i u n ks → 0 <= k → shaped (i ++ lit "-" ++ digits 10 k) u n (ks ++ [k]).
Proof.
  intros [-> Hn Hks] Hk. split; [|done|].
  - by rewrite suffix_snoc, <-(assoc_L (++)).
  - apply Forall_app; auto.
Qed.
Lemma shaped_base u n : 0 <= n → shaped (ForkId_new u (Some n)) u n [].
Proof. intros Hn. split; [|done|done]. unfold suffix. cbn. by rewrite app_nil_r. Qed.

(** [Vec::swap_remove] inside a list: what was before it stays in place. *)
Lemma swap_remove_middle {A} (l1 l2 : list A) x :
  ∃ l2', swap_remove (length l1) (l1 ++ x :: l2) = l1 ++ l2' ∧ l2' ≡ₚ l2.
Proof.
  unfold swap_remove. destruct l2 as [|z l2 _] using rev_ind.
  - exists []. rewrite last_snoc, length_app. cbn [length]. rewrite Nat.add_1_r. cbn [pred].
    rewrite take_app_length, list_insert_ge, app_nil_r by lia. done.
  - exists (z :: l2). rewrite app_comm_cons, (assoc_L (++)), last_snoc. split.
    + rewrite length_app. cbn [length]. rewrite Nat.add_1_r. cbn [pred]. rewrite take_app_length.
      by rewrite insert_app_r_alt, Nat.sub_diag by lia.
    + by rewrite Permutation_cons_append.
Qed.

Section spec.
Context {R : Remote}.
Implicit Types (h : MultiForkHandler) (t : ForkTask) (fut : ForkTask → Poll Outcome).

(** ** Everyone who asks is answered once *)

Definition task_senders t : list nat := sender t :: additional_senders t.
Definition waiting h : list nat := concat (task_senders <$> pending_tasks h).
Definition answered h : list nat := (sent h).*1.
Definition request_senders (r : Request) : list nat :=
  match r with
  | RCreateFork _ s | GetFork _ s | RollFork _ _ s | GetEnv _ s | ShutDown s | GetForkUrl _ s => [s]
  | UpdateBlock _ _ _ | UpdateEnv _ _ => []
  end.

Lemma waiting_perm l h : l ≡ₚ pending_tasks h → concat (task_senders <$> l) ≡ₚ waiting h.
Proof. intros Hl. unfold waiting. by rewrite Hl. Qed.

Lemma create_fork_senders f s h :
  sent (create_fork f s h) = sent h ∧ waiting (create_fork f s h) ≡ₚ waiting h ++ [s].
Proof.
  unfold create_fork. destruct (find_in_progress_task _ _) as [[i t]|] eqn:Hf; (split; [done|]); unfold waiting; cbn.
  - apply list_find_Some in Hf as (Hi & _ & _).
    rewrite (insert_take_drop _ _ _ (lookup_lt_Some _ _ _ Hi)). rewrite <-(take_drop_middle _ _ _ Hi) at 3.
    rewrite !fmap_app, !concat_app, !fmap_cons. cbn [concat].
    set (l1 := concat _). set (l2 := concat _).
    change (task_senders (mkTask _ _ _ _)) with (task_senders t ++ [s]). solve_Permutation.
  - by rewrite fmap_app, concat_app.
Qed.

Lemma update_opts_fields g i h : sent (update_opts g i h) = sent h ∧ pending_tasks (update_opts g i h) = pending_tasks h.
Proof. unfold update_opts. by case_match. Qed.

Lemma on_request_senders h r :
  answered (on_request h r) ++ waiting (on_request h r) ≡ₚ answered h ++ waiting h ++ request_senders r.
Proof.
  assert (Hsend : ∀ s m h', waiting h' = waiting h → sent h' = sent h →
    answered (send s m h') ++ waiting (send s m h') ≡ₚ answered h ++ waiting h ++ [s]).
  { intros s m h' Hw Hs. change (waiting (send s m h')) with (waiting h'). rewrite Hw.
    unfold answered. cbn. rewrite Hs, fmap_app. cbn. solve_Permutation. }
  destruct r as [f s|i s|i b s|i s|i n t|i b|s|i s]; cbn [on_request request_senders]; try by apply Hsend.
  - destruct (create_fork_senders f s h) as [Hs Hw]. unfold answered. by rewrite Hs, Hw.
  - case_match; [|by apply Hsend]. destruct (create_fork_senders (set_fork_block_number (Some b) (opts c)) s h) as [Hs Hw].
    unfold answered. by rewrite Hs, Hw.
  - unfold update_block, answered, waiting. destruct (update_opts_fields (λ o, set_env (set_block (set_number_and_timestamp n t (block (env o))) (env o)) o) i h) as [-> ->].
    by rewrite app_nil_r.
  - unfold update_env, answered, waiting. destruct (update_opts_fields (λ o, set_env (set_block b (env o)) o) i h) as [-> ->].
    by rewrite app_nil_r.
Qed.

Lemma inc_senders_fields f i h :
  sent (inc_senders f i h).2 = sent h ∧ pending_tasks (inc_senders f i h).2 = pending_tasks h ∧
  forks (inc_senders f i h).2 = forks h ∧ handlers (inc_senders f i h).2 = handlers h.
Proof. done. Qed.

Lemma insert_new_fork_senders i f s l h :
  answered (insert_new_fork i f s l h) = answered h ++ s :: l ∧
  pending_tasks (insert_new_fork i f s l h) = pending_tasks h.
Proof.
  unfold insert_new_fork. set (h0 := send _ _ _).
  assert (H0 : answered h0 = answered h ++ [s] ∧ pending_tasks h0 = pending_tasks h).
  { unfold h0, answered. cbn. by rewrite fmap_app. }
  cut (answered (foldl (notify_sender i f) h0 l) = answered h0 ++ l ∧
       pending_tasks (foldl (notify_sender i f) h0 l) = pending_tasks h0).
  { destruct H0 as [-> ->]. by rewrite <-(assoc_L (++)). }
  clearbody h0. clear H0 s h. revert h0. induction l as [|x l IH]; intros h0; [by rewrite app_nil_r|]. cbn [foldl].
  destruct (IH (notify_sender i f h0 x)) as [-> ->]. unfold notify_sender, answered. cbn.
  by rewrite fmap_app, <-(assoc_L (++)).
Qed.

Lemma finish_task_senders t o h :
  answered (finish_task t o h) = answered h ++ task_senders t ∧
  pending_tasks (finish_task t o h) = pending_tasks h.
Proof.
  unfold finish_task. destruct o as [[[[e n] b] hd]|e].
  - destruct (created t e n b h) as [[i f] h1] eqn:Hc.
    assert (H1 : answered h1 = answered h ∧ pending_tasks h1 = pending_tasks h).
    { unfold created in Hc. cbn in Hc. by simplify_eq. }
    destruct H1 as [<- <-]. destruct (forks h1 !! i) as [g|].
    + destruct (inc_senders g i h1) as [next h2] eqn:Hi.
      destruct (inc_senders_fields g i h1) as (Hs & Hp & _). rewrite Hi in Hs, Hp. cbn in Hs, Hp.
      rewrite <-Hp. unfold answered. rewrite <-Hs. apply insert_new_fork_senders.
    + apply (insert_new_fork_senders i f (sender t) (additional_senders t)
               (set_handlers (handlers h1 ++ [(i, hd)]) h1)).
  - change (sender t :: additional_senders t) with (task_senders t).
    generalize (task_senders t). intros l. revert h. induction l as [|s l IH]; intros h; [by rewrite app_nil_r|].
    cbn [foldl]. destruct (IH (send s (Created (Err (ProviderError e))) h)) as [-> ->].
    unfold answered. cbn. by rewrite fmap_app, <-(assoc_L (++)).
Qed.

(** *** The loop over the tasks *)

Definition is_pending fut t : Prop := fut t = Pending.
#[local] Instance is_pending_dec fut t : Decision (is_pending fut t).
Proof. unfold is_pending. destruct (fut t); [right|left]; done. Defined.

(** [k]: the tasks at later places, which were polled in this turn. *)
Lemma advance_task_spec fut n h t k :
  pending_tasks h !! n = Some t → length (take n (pending_tasks h)) = n →
  pending_tasks h = take n (pending_tasks h) ++ t :: k →
  ∃ k', pending_tasks (advance_task fut n h) = take n (pending_tasks h) ++ k' ∧
    k' ≡ₚ (if decide (is_pending fut t) then t :: k else k) ∧
    answered (advance_task fut n h) = answered h ++ (if decide (is_pending fut t) then [] else task_senders t).
Proof.
  intros Hn Hlen Hl. unfold advance_task. rewrite Hn.
  destruct (swap_remove_middle (take n (pending_tasks h)) k t) as (k' & Hs & Hk).
  rewrite Hlen, <-Hl in Hs. rewrite Hs. destruct (decide (is_pending fut t)) as [Hd|Hd].
  - rewrite Hd. exists (k' ++ [t]). cbn. rewrite app_nil_r, <-(assoc_L (++)).
    split; [done|]. split; [|done]. rewrite <-Hk. symmetry. apply Permutation_cons_append.
  - unfold is_pending in Hd. destruct (fut t) as [o|]; [|done]. exists k'.
    destruct (finish_task_senders t o (set_pending (take n (pending_tasks h) ++ k') h)) as [-> ->]. done.
Qed.

Lemma advance_spec fut n h k :
  pending_tasks h = take n (pending_tasks h) ++ k → (n <= length (pending_tasks h))%nat →
  pending_tasks (advance fut n h) ≡ₚ k ++ filter (is_pending fut) (take n (pending_tasks h)) ∧
  answered (advance fut n h) ≡ₚ
    answered h ++ concat (task_senders <$> filter (λ t, ¬ is_pending fut t) (take n (pending_tasks h))).
Proof.
  revert h k. induction n as [|n IH]; intros h k Hl Hn.
  { cbn in *. rewrite Hl, app_nil_r, app_nil_r. done. }
  destruct (lookup_lt_is_Some_2 (pending_tasks h) n) as [t Ht]; [lia|].
  assert (Htake : take (S n) (pending_tasks h) = take n (pending_tasks h) ++ [t]) by by apply take_S_r.
  assert (Hlen : length (take n (pending_tasks h)) = n) by (rewrite length_take; lia).
  destruct (advance_task_spec fut n h t k) as (k' & Hp & Hk & Ha); [done..| |].
  { rewrite Hl at 1. by rewrite Htake, <-(assoc_L (++)). }
  cbn [advance]. set (h' := advance_task fut n h) in *.
  assert (Htake' : take n (pending_tasks h') = take n (pending_tasks h)).
  { rewrite Hp. rewrite <-Hlen at 1. by rewrite take_app_length. }
  destruct (IH h' k') as [Hp' Ha'].
  - by rewrite Htake'.
  - rewrite Hp, length_app. lia.
  - rewrite Hp', Ha', Ha, Htake', Htake, !filter_app, Hk, fmap_app, concat_app. cbn [filter list_filter].
    destruct (decide (is_pending fut t)) as [Hd|Hd].
    + rewrite (decide_False (P := ¬ is_pending fut t)) by tauto. cbn.
      split; [solve_Permutation|by rewrite !app_nil_r].
    + rewrite (decide_True (P := ¬ is_pending fut t)) by done. cbn. rewrite !app_nil_r.
      split; [done|solve_Permutation].
Qed.

Lemma poll_tasks incoming done fut completed h :
  let h1 := foldl on_request h incoming in
  let h' := (poll incoming done fut completed h).2 in
  pending_tasks h' ≡ₚ filter (is_pending fut) (pending_tasks h1) ∧
  answered h' ≡ₚ answered h1 ++ concat (task_senders <$> filter (λ t, ¬ is_pending fut t) (pending_tasks h1)).
Proof.
  intros h1 h'. destruct (advance_spec fut (length (pending_tasks h1)) h1 []) as [Hp Ha].
  - by rewrite app_nil_r, firstn_all.
  - done.
  - rewrite firstn_all in Hp, Ha. done.
Qed.

Lemma requests_senders l h :
  answered (foldl on_request h l) ++ waiting (foldl on_request h l) ≡ₚ
    answered h ++ waiting h ++ concat (request_senders <$> l).
Proof.
  revert h. induction l as [|r l IH]; intros h; cbn; [by rewrite app_nil_r|].
  rewrite IH, !(assoc (++)), on_request_senders. solve_Permutation.
Qed.

Lemma none_pending fut l : (∀ t, fut t ≠ Pending) → filter (is_pending fut) l = [].
Proof.
  intros Hr. induction l as [|t l IH]; [done|]. by rewrite filter_cons_False by apply Hr.
Qed.

Lemma split_tasks fut (l : list ForkTask) :
  concat (task_senders <$> filter (λ t, ¬ is_pending fut t) l) ++
    concat (task_senders <$> filter (is_pending fut) l) ≡ₚ concat (task_senders <$> l).
Proof.
  rewrite <-concat_app, <-fmap_app. f_equiv. f_equiv.
  induction l as [|t l IH]; [done|]. cbn [filter list_filter].
  destruct (decide (is_pending fut t)) as [Hd|Hd].
  - rewrite (decide_False (P := ¬ is_pending fut t)) by tauto. by rewrite <-Permutation_middle, IH.
  - rewrite (decide_True (P := ¬ is_pending fut t)) by done. cbn. by rewrite IH.
Qed.

Lemma poll_senders incoming done fut completed h :
  answered (poll incoming done fut completed h).2 ++ waiting (poll incoming done fut completed h).2 ≡ₚ
    answered h ++ waiting h ++ concat (request_senders <$> incoming).
Proof.
  destruct (poll_tasks incoming done fut completed h) as [Hp Ha].
  unfold waiting at 1. rewrite Ha, Hp, <-(assoc (++)), split_tasks. apply requests_senders.
Qed.

(** A turn of the handler: what has arrived, whether the channel is closed,
    what is ready. *)
Record Turn := mkTurn {
  arrived : list Request;
  closed : bool;
  ready : ForkTask → Poll Outcome;
  completes : ForkId → bool;
}.
Definition take_turn h (n : Turn) : MultiForkHandler :=
  (poll (arrived n) (closed n) (ready n) (completes n) h).2.

(** C27: In any sequence of turns, whatever the futures do, everyone who sent a
    request has been answered once or waits at a task that is under way, also
    when several waited at one task; and a turn in which every future is ready
    leaves nobody waiting. *)
Theorem everyone_answered_once turns (last_turn : Turn) :
  let h := foldl take_turn MultiForkHandler_new turns in
  answered h ++ waiting h ≡ₚ concat ((λ n : Turn, concat (request_senders <$> arrived n)) <$> turns) ∧
  ((∀ t, ready last_turn t ≠ Pending) → waiting (take_turn h last_turn) = []).
Proof.
  intros h. split.
  - assert (H : ∀ h0, answered (foldl take_turn h0 turns) ++ waiting (foldl take_turn h0 turns) ≡ₚ
        answered h0 ++ waiting h0 ++ concat ((λ n : Turn, concat (request_senders <$> arrived n)) <$> turns)).
    { induction turns as [|n turns IH]; intros h0; cbn; [by rewrite app_nil_r|].
      rewrite IH.
      pose proof (poll_senders (arrived n) (closed n) (ready n) (completes n) h0) as Hp.
      change ((poll _ _ _ _ h0).2) with (take_turn h0 n) in Hp. rewrite (assoc (++)), Hp. solve_Permutation. }
    apply H.
  - intros Hready. unfold waiting, take_turn.
    destruct (poll_tasks (arrived last_turn) (closed last_turn) (ready last_turn) (completes last_turn) h) as [Hp _].
    rewrite none_pending in Hp by done.
    apply Permutation_nil_r in Hp. by rewrite Hp.
Qed.

(** ** Identifiers are handed out once *)

(** The identifiers that clients were given. *)
Definition created_id (r : Reply) : option ForkId :=
  match r with Created (Ok (i, _, _)) => Some i | _ => None end.
Definition created_ids h : list ForkId := omap created_id (sent h).*2.

Definition counter h (place : nat) : Z := default 0 (counters h !! place).

(** [o]: the url, block and backend that every counter belongs to. *)
Record ids_ok (o : list (str * Z * SharedBackend)) h : Prop := {
  io_length : length o = length (counters h);
  io_counters : Forall (λ k, 0 <= k) (counters h);
  io_fork i f : forks h !! i = Some f → ∃ u n b ks, o !! num_senders f = Some (u, n, b) ∧
    shaped i u n ks ∧ url (opts f) = u ∧ backend f = b ∧
    (∀ k, last ks = Some k → k < counter h (num_senders f)) ∧
    ∃ f0, forks h !! ForkId_new u (Some n) = Some f0 ∧ num_senders f0 = num_senders f;
  io_given : NoDup (created_ids h);
  io_dom i : i ∈ created_ids h ↔ i ∈ dom (forks h);
  io_sent s i b e : (s, Created (Ok (i, b, e))) ∈ sent h → ∃ f, forks h !! i = Some f ∧ backend f = b;
}.

Lemma ids_ok_same o h h' :
  counters h' = counters h → forks h' = forks h → sent h' = sent h → ids_ok o h → ids_ok o h'.
Proof.
  intros Hc Hf Hs [H1 H2 H3 H4 H5 H6]. unfold created_ids, counter in *.
  split; unfold created_ids, counter; rewrite ?Hc, ?Hf, ?Hs; done.
Qed.

Lemma ids_ok_send o h s r : created_id r = None → ids_ok o h → ids_ok o (send s r h).
Proof.
  intros Hr [H1 H2 H3 H4 H5 H6].
  assert (Hc : created_ids (send s r h) = created_ids h).
  { unfold created_ids. cbn. rewrite fmap_app, omap_app. cbn. by rewrite Hr, app_nil_r. }
  split; rewrite ?Hc; try done. intros s' i b e. cbn.
  intros [Hin|Hin%list_elem_of_singleton]%elem_of_app; [by eapply H6|]. simplify_eq.
Qed.

Lemma counters_nonneg o h n : ids_ok o h → 0 <= counter h n.
Proof.
  intros Hok. unfold counter. destruct (counters h !! n) as [k|] eqn:Hk; [|done].
  exact (Forall_lookup_1 _ _ _ _ (io_counters o h Hok) Hk).
Qed.

Lemma ids_ok_update o g i h :
  (∀ x, url (g x) = url x) → ids_ok o h → ids_ok o (update_opts g i h).
Proof.
  intros Hg Hok. unfold update_opts. destruct (forks h !! i) as [f|] eqn:Hf; [|done].
  assert (Hin : ∀ j x, <[i:=set_opts (g (opts f)) f]> (forks h) !! j = Some x →
    ∃ y, forks h !! j = Some y ∧ url (opts x) = url (opts y) ∧ backend x = backend y ∧ num_senders x = num_senders y).
  { intros j x [[<- <-]|[? ?]]%lookup_insert_Some; eauto. exists f. split_and!; try done. apply Hg. }
  assert (Hout : ∀ j y, forks h !! j = Some y →
    ∃ x, <[i:=set_opts (g (opts f)) f]> (forks h) !! j = Some x ∧ backend x = backend y ∧ num_senders x = num_senders y).
  { intros j y Hj. destruct (decide (i = j)) as [->|Hne].
    - rewrite lookup_insert_eq. eexists. split; [done|]. simplify_eq. done.
    - rewrite lookup_insert_ne by done. eauto. }
  destruct Hok as [H1 H2 H3 H4 H5 H6]. split; try done; cbn.
  - intros j x (y & Hy & Hurl & Hb & Hn)%Hin.
    destruct (H3 j y Hy) as (u & n & b & ks & Ho & Hs & <- & <- & Hk & f0 & Hf0 & Hn0).
    destruct (Hout _ _ Hf0) as (x0 & Hx0 & _ & Hn0'). exists (url (opts y)), n, (backend y), ks.
    rewrite Hn. split_and!; try done. exists x0. split; congruence.
  - intros j. rewrite dom_insert_lookup_L by (by eexists). apply H5.
  - intros s j b e Hj. destruct (H6 s j b e Hj) as (y & Hy & <-). destruct (Hout _ _ Hy) as (x & ? & ? & _). eauto.
Qed.

Lemma ids_ok_allocate o h x : ids_ok o h → ids_ok (o ++ [x]) (set_counters (counters h ++ [1]) h).
Proof.
  intros Hok. destruct Hok as [H1 H2 H3 H4 H5 H6]. split; try done; cbn.
  - rewrite !length_app, H1. cbn. lia.
  - apply Forall_app. split; [done|]. by apply Forall_singleton.
  - intros i f Hf. destruct (H3 i f Hf) as (u & n & b & ks & Ho & Hs & Hu & Hb & Hk & Hf0).
    exists u, n, b, ks. split; [by apply lookup_app_l_Some|]. split_and!; try done.
    intros k Hl. apply Hk in Hl. unfold counter in *. cbn.
    rewrite lookup_app_l by (rewrite <-H1; by eapply lookup_lt_Some). done.
Qed.

(** Handing out [i] for [f], when [i] is new. *)
Lemma ids_ok_insert o h s i f u n ks :
  ids_ok o h → forks h !! i = None → o !! num_senders f = Some (u, n, backend f) → url (opts f) = u →
  shaped i u n ks → (∀ k, last ks = Some k → k < counter h (num_senders f)) →
  (ks = [] ∨ ∃ f0, forks h !! ForkId_new u (Some n) = Some f0 ∧ num_senders f0 = num_senders f) →
  ids_ok o (send s (created_reply i f) (set_forks (<[i := f]> (forks h)) h)).
Proof.
  intros [H1 H2 H3 H4 H5 H6] Hi Ho Hu Hs Hk Hbase.
  assert (Hc : created_ids (send s (created_reply i f) (set_forks (<[i := f]> (forks h)) h)) = created_ids h ++ [i]).
  { unfold created_ids. cbn. by rewrite fmap_app, omap_app. }
  assert (Hold : i ∉ created_ids h) by (rewrite H5; by apply not_elem_of_dom).
  split; rewrite ?Hc; try done; cbn.
  - intros j x [[<- <-]|[Hne Hx]]%lookup_insert_Some.
    + exists u, n, (backend f), ks. split_and!; try done. destruct Hbase as [->|(f0 & Hf0 & Hn)].
      * exists f. split; [|done]. destruct Hs as [-> _ _]. rewrite (app_nil_r (ForkId_new u (Some n)) : _ ++ suffix [] = _).
        apply lookup_insert_eq.
      * exists f0. split; [|done]. rewrite lookup_insert_ne; [done|]. congruence.
    + destruct (H3 j x Hx) as (u' & n' & b' & ks' & Ho' & Hs' & Hu' & Hb' & Hk' & f0 & Hf0 & Hn0).
      exists u', n', b', ks'. split_and!; try done. exists f0. split; [|done].
      rewrite lookup_insert_ne; [done|]. congruence.
  - apply NoDup_app. split_and!; [done| |apply NoDup_singleton]. intros j Hj Hji%list_elem_of_singleton. by subst.
  - intros j. rewrite elem_of_app, list_elem_of_singleton, dom_insert_L, H5. set_solver.
  - intros s' j b e [Hin|Hin%list_elem_of_singleton]%elem_of_app.
    + destruct (H6 _ _ _ _ Hin) as (x & Hx & <-). exists x. split; [|done].
      rewrite lookup_insert_ne; [done|]. congruence.
    + unfold created_reply in Hin. simplify_eq. exists f. split; [apply lookup_insert_eq|done].
Qed.

(** [inc_senders] gives an identifier that was never used. *)
Lemma hand_out o h s j f :
  ids_ok o h → forks h !! j = Some f →
  let h' := send s (created_reply (inc_senders f j h).1 f)
              (set_forks (<[(inc_senders f j h).1 := f]> (forks h)) (inc_senders f j h).2) in
  ids_ok o h' ∧ forks h' !! j = Some f ∧ forks h !! (inc_senders f j h).1 = None.
Proof.
  intros Hok Hj h'. destruct (io_fork o h Hok j f Hj) as (u & n & b & ks & Ho & Hs & Hu & Hb & Hk & f0 & Hf0 & Hn0).
  set (c := counter h (num_senders f)) in *.
  assert (Hc : 0 <= c) by (by eapply counters_nonneg).
  assert (Hnext : shaped (inc_senders f j h).1 u n (ks ++ [c])) by (by apply shaped_next).
  assert (Hfresh : forks h !! (inc_senders f j h).1 = None).
  { destruct (forks h !! (inc_senders f j h).1) as [f'|] eqn:Hf'; [|done]. exfalso.
    destruct (io_fork o h Hok _ f' Hf') as (u' & n' & b' & ks' & Ho' & Hs' & Hu' & Hb' & Hk' & f0' & Hf0' & Hn0').
    destruct (shaped_inj _ _ _ _ _ _ _ Hs' Hnext) as (-> & -> & ->).
    specialize (Hk' c (last_snoc _ _)). rewrite Hf0 in Hf0'. simplify_eq.
    unfold c in Hk'. rewrite <-Hn0', Hn0 in Hk'. lia. }
  assert (Hlt : (num_senders f < length (counters h))%nat).
  { rewrite <-(io_length o h Hok). by eapply lookup_lt_Some. }
  split; [|split; [|done]].
  - assert (Hok' : ids_ok o (inc_senders f j h).2).
    { destruct Hok as [H1 H2 H3 H4 H5 H6]. split; try done.
      - cbn. by rewrite length_insert.
      - cbn. apply Forall_insert; [done|]. fold (counter h (num_senders f)). unfold c in Hc. lia.
      - intros i x Hx. destruct (H3 i x Hx) as (u' & n' & b' & ks' & Ho' & Hs' & Hu' & Hb' & Hk' & Hf0').
        exists u', n', b', ks'. split_and!; try done. intros k Hl. apply Hk' in Hl. unfold counter in *. cbn.
        destruct (decide (num_senders x = num_senders f)) as [He|He].
        + rewrite He, list_lookup_insert_eq by done. cbn. rewrite <-He. lia.
        + by rewrite list_lookup_insert_ne by done. }
    apply (ids_ok_insert o (inc_senders f j h).2 s _ f u n (ks ++ [c])); try done.
    + by rewrite Hb.
    + intros k. rewrite last_snoc. intros [= <-]. unfold counter. cbn.
      rewrite list_lookup_insert_eq by done. cbn. fold (counter h (num_senders f)). fold c. lia.
    + right. exists f0. done.
  - unfold h'. cbn. rewrite lookup_insert_ne; [done|]. intros He.
    change (_ = j) with ((inc_senders f j h).1 = j) in He. congruence.
Qed.

Lemma ids_ok_notify o h j f l :
  ids_ok o h → forks h !! j = Some f → ids_ok o (foldl (notify_sender j f) h l).
Proof.
  revert h. induction l as [|s l IH]; intros h Hok Hj; [done|]. cbn [foldl].
  destruct (hand_out o h s j f Hok Hj) as (Hok' & Hj' & _). apply IH; done.
Qed.

Lemma ids_ok_finish o h t out :
  (∀ e n b hd, out = Ok (e, n, b, hd) → 0 <= n) → ids_ok o h → ∃ o', ids_ok o' (finish_task t out h).
Proof.
  intros Hout Hok. unfold finish_task. destruct out as [[[[e n] b] hd]|err].
  - specialize (Hout e n b hd eq_refl). cbn [created CreatedFork_new].
    set (h1 := set_counters (counters h ++ [1]) h). set (u := url (future t)).
    pose proof (ids_ok_allocate o h (u, n, b) Hok) as Hok1. fold h1 in Hok1.
    exists (o ++ [(u, n, b)]). unfold created, CreatedFork_new. fold h1 u.
    destruct (forks h1 !! ForkId_new u (Some n)) as [g|] eqn:Hg.
    + destruct (hand_out _ h1 (sender t) _ g Hok1 Hg) as (Hok2 & _ & _).
      apply ids_ok_notify; [exact Hok2|]. cbn. by rewrite lookup_insert_eq.
    + set (h2 := set_handlers _ h1).
      assert (Hok2 : ids_ok (o ++ [(u, n, b)]) h2) by (by apply (ids_ok_same _ h1)).
      apply ids_ok_notify; [|by cbn; rewrite lookup_insert_eq].
      apply (ids_ok_insert _ h2 _ _ _ u n []); try done.
      * cbn. rewrite <-(io_length o h Hok). by rewrite list_lookup_middle.
      * by apply shaped_base.
      * by left.
  - exists o. generalize (sender t :: additional_senders t). intros l.
    revert h Hok. induction l as [|s l IH]; intros h Hok; [done|]. cbn [foldl]. apply IH.
    by apply ids_ok_send.
Qed.

Lemma ids_ok_create o h f s : ids_ok o h → ids_ok o (create_fork f s h).
Proof. intros Hok. unfold create_fork. case_match; [destruct p|]; by apply (ids_ok_same _ h). Qed.

Lemma ids_ok_request o h r :
  (∀ s, r ≠ ShutDown s) → ids_ok o h → ids_ok o (on_request h r).
Proof.
  intros Hr Hok. destruct r as [f s|i s|i b s|i s|i n t|i b|s|i s]; cbn [on_request].
  - by apply ids_ok_create.
  - by apply ids_ok_send.
  - case_match; [by apply ids_ok_create|by apply ids_ok_send].
  - by apply ids_ok_send.
  - by apply ids_ok_update.
  - by apply ids_ok_update.
  - by destruct (Hr s).
  - by apply ids_ok_send.
Qed.

(** Block numbers are numbers, and the handler is not shut down. *)
Record turn_ok (n : Turn) : Prop := {
  to_blocks t e k b hd : ready n t = Ready (Ok (e, k, b, hd)) → 0 <= k;
  to_requests s : ShutDown s ∉ arrived n;
}.

Lemma ids_ok_advance o h fut len :
  (∀ t e n b hd, fut t = Ready (Ok (e, n, b, hd)) → 0 <= n) → ids_ok o h → ∃ o', ids_ok o' (advance fut len h).
Proof.
  intros Hfut. revert o h. induction len as [|n IH]; intros o h Hok; [by exists o|]. cbn [advance].
  assert (Hstep : ∃ o', ids_ok o' (advance_task fut n h)).
  { unfold advance_task. destruct (pending_tasks h !! n) as [t|]; [|by exists o]. destruct (fut t) as [out|] eqn:Hf.
    - apply (ids_ok_finish o); [|by apply (ids_ok_same _ h)]. intros e k b hd ->. by eapply Hfut.
    - exists o. by apply (ids_ok_same _ h). }
  destruct Hstep as [o' Hok']. by apply (IH o').
Qed.

Lemma ids_ok_turn o h n : turn_ok n → ids_ok o h → ∃ o', ids_ok o' (take_turn h n).
Proof.
  intros [Hb Hr] Hok. unfold take_turn, poll. cbn [snd].
  assert (Hreq : ids_ok o (foldl on_request h (arrived n))).
  { revert h Hok Hr. clear Hb. generalize (arrived n). induction l as [|r l IH]; intros h Hok Hr; [done|].
    cbn [foldl]. apply IH; [|set_solver]. apply ids_ok_request; [|done]. intros s ->. apply (Hr s). left. }
  destruct (ids_ok_advance o _ (ready n) (length (pending_tasks (foldl on_request h (arrived n)))) Hb Hreq) as [o' Hok'].
  exists o'. by apply (ids_ok_same _ (advance (ready n) (length (pending_tasks (foldl on_request h (arrived n))))
    (foldl on_request h (arrived n)))).
Qed.

Lemma ids_ok_new : ids_ok [] MultiForkHandler_new.
Proof.
  split; [done|by apply Forall_nil_2|intros i f Hf; cbn in Hf; by rewrite lookup_empty in Hf|by apply NoDup_nil_2|intros i; cbn; set_solver|].
  intros s i b e H%elem_of_nil. done.
Qed.

(** C26: While the handler runs, no identifier is handed out twice, to whomever:
    not when several clients waited for one fork, nor when a fork exists already;
    and the clients of a block of a url share its backend. *)
Theorem fork_ids_unique turns :
  Forall turn_ok turns →
  let h := foldl take_turn MultiForkHandler_new turns in
  NoDup (created_ids h) ∧
  ∀ s1 i b1 e1 s2 j b2 e2 u n ks1 ks2,
    (s1, Created (Ok (i, b1, e1))) ∈ sent h → (s2, Created (Ok (j, b2, e2))) ∈ sent h →
    shaped i u n ks1 → shaped j u n ks2 → b1 = b2.
Proof.
  intros Hturns. cut (∃ o, ids_ok o (foldl take_turn MultiForkHandler_new turns)).
  { intros [o Hok] h. split; [apply Hok|]. intros s1 i b1 e1 s2 j b2 e2 u n ks1 ks2 H1 H2 Hi Hj.
    destruct (io_sent o h Hok _ _ _ _ H1) as (f & Hf & <-). destruct (io_sent o h Hok _ _ _ _ H2) as (g & Hg & <-).
    destruct (io_fork o h Hok _ _ Hf) as (u1 & n1 & c1 & l1 & Ho1 & Hs1 & _ & -> & _ & f1 & Hf1 & Hn1).
    destruct (io_fork o h Hok _ _ Hg) as (u2 & n2 & c2 & l2 & Ho2 & Hs2 & _ & -> & _ & f2 & Hf2 & Hn2).
    destruct (shaped_inj _ _ _ _ _ _ _ Hi Hs1) as (<- & <- & _).
    destruct (shaped_inj _ _ _ _ _ _ _ Hj Hs2) as (<- & <- & _). congruence. }
  pose proof ids_ok_new as H0.
  revert H0. generalize MultiForkHandler_new. generalize (@nil (str * Z * SharedBackend)).
  induction Hturns as [|n turns Hn _ IH]; intros o h Hok; [by exists o|]. cbn [foldl].
  destruct (ids_ok_turn o h n Hn Hok) as [o' Hok']. by apply (IH o').
Qed.
End spec.

(** ** What a client can rely on *)
Section client_laws.
Context {R : Remote} {P : Type} (answer : P → CreateFork → Outcome) (tick : P → P).
Hypothesis answer_block : ∀ p f e n b hd, answer p f = Ok (e, n, b, hd) → 0 <= n.
Implicit Types (h : MultiForkHandler) (p : P).

(** Between two requests of the client nothing is under way. *)
Definition idle (s : MultiForkHandler * P) : Prop := pending_tasks s.1 = [] ∧ ∃ o, ids_ok o s.1.

Definition env_at h (i : ForkId) : option Env := (λ f, env (opts f)) <$> forks h !! i.

Lemma receive_sent s h h' r l : sent h' = sent h ++ (s, r) :: l → receive s h h' = Some r.
Proof.
  intros Hs. unfold receive. rewrite Hs, drop_app_length. unfold list_find. by rewrite decide_True by done.
Qed.

(** A request that is answered at once. *)
Lemma request_read r h p :
  pending_tasks h = [] → pending_tasks (on_request h (r (length (sent h)))) = [] →
  let h' := (request answer tick r (h, p)).2.1 in
  forks h' = forks (on_request h (r (length (sent h)))) ∧
  sent h' = sent (on_request h (r (length (sent h)))) ∧ pending_tasks h' = [] ∧
  ∀ o, ids_ok o (on_request h (r (length (sent h)))) → ids_ok o h'.
Proof.
  intros Hp Hr. unfold request, poll. cbn [fst snd foldl]. rewrite Hr. cbn.
  split_and!; [done..|]. intros o. by apply ids_ok_same.
Qed.

Lemma get_env_at i h p : pending_tasks h = [] → MultiFork_get_env answer tick i (h, p) = env_at h i.
Proof.
  intros Hp. unfold MultiFork_get_env.
  destruct (request_read (GetEnv i) h p Hp Hp) as (_ & Hs & _).
  unfold request in *. cbn [fst snd] in *. by rewrite (receive_sent _ _ _ _ [] Hs).
Qed.

Lemma finish_task_spec o h t out :
  (∀ e n b hd, out = Ok (e, n, b, hd) → 0 <= n) → ids_ok o h → additional_senders t = [] →
  match out with
  | Ok _ => ∃ i f, sent (finish_task t out h) = sent h ++ [(sender t, created_reply i f)] ∧
      forks (finish_task t out h) = <[i := f]> (forks h) ∧ forks h !! i = None
  | Err e => sent (finish_task t out h) = sent h ++ [(sender t, Created (Err (ProviderError e)))] ∧
      forks (finish_task t out h) = forks h
  end.
Proof.
  intros Hout Hok Ht. unfold finish_task. destruct out as [[[[e n] b] hd]|err]; rewrite Ht; [|done].
  unfold created, CreatedFork_new. set (h1 := set_counters (counters h ++ [1]) h). set (u := url (future t)).
  pose proof (ids_ok_allocate o h (u, n, b) Hok) as Hok1. fold h1 in Hok1.
  destruct (forks h1 !! ForkId_new u (Some n)) as [g|] eqn:Hg.
  - destruct (hand_out _ h1 (sender t) _ g Hok1 Hg) as (_ & _ & Hfresh). by exists (inc_senders g (ForkId_new u (Some n)) h1).1, g.
  - eexists _, _. split; [done|]. split; done.
Qed.

(** A request that creates a fork. *)
Lemma request_create r f h p :
  idle (h, p) → on_request h (r (length (sent h))) = create_fork f (length (sent h)) h →
  let '(reply, s') := request answer tick r (h, p) in
  idle s' ∧
  match created_or reply with
  | Ok (i, _, e) => env_at h i = None ∧ ∀ j, env_at s'.1 j = if decide (j = i) then Some e else env_at h j
  | Err _ => ∀ j, env_at s'.1 j = env_at h j
  end.
Proof.
  intros [Hp [o Hok]] Hr. cbn [fst] in Hp, Hok. unfold request, poll. cbn [fst snd foldl]. rewrite Hr.
  set (t := mkTask f (ForkId_new (url f) (fork_block_number f)) (length (sent h)) []).
  assert (Hc : create_fork f (length (sent h)) h = set_pending [t] h).
  { unfold create_fork, find_in_progress_task. by rewrite Hp. }
  rewrite Hc. cbn [length pending_tasks set_pending advance]. unfold advance_task. cbn [pending_tasks set_pending lookup list_lookup].
  set (out := answer p (future t)). set (h0 := set_pending (swap_remove 0 [t]) (set_pending [t] h)).
  assert (Hok0 : ids_ok o h0) by by apply (ids_ok_same _ h).
  assert (Hblock : ∀ e n b hd, out = Ok (e, n, b, hd) → 0 <= n) by (intros; by eapply answer_block).
  pose proof (finish_task_spec o h0 t out Hblock Hok0 eq_refl) as Hspec.
  destruct (ids_ok_finish o h0 t out Hblock Hok0) as [o' Hok'].
  destruct (finish_task_senders t out h0) as [_ Hpend].
  change (match _ with Ready o => finish_task t o _ | Pending => _ end) with (finish_task t out h0).
  set (h' := set_handlers _ _).
  assert (Hidle : idle (h', tick p)).
  { split; [exact Hpend|]. exists o'. by apply (ids_ok_same _ (finish_task t out h0)). }
  split; [exact Hidle|].
  destruct out as [[[[e n] b] hd]|err].
  - destruct Hspec as (i & fk & Hs & Hf & Hnone). rewrite (receive_sent (length (sent h)) h h' _ [] Hs). cbn [created_or created_reply].
    unfold env_at. change (forks h0) with (forks h) in *. rewrite Hnone. split; [done|]. intros j.
    change (forks h') with (forks (finish_task t (Ok (e, n, b, hd)) h0)). rewrite Hf. case_decide as Hj.
    + subst. by rewrite lookup_insert_eq.
    + by rewrite lookup_insert_ne.
  - destruct Hspec as [Hs Hf]. rewrite (receive_sent (length (sent h)) h h' _ [] Hs). cbn [created_or]. intros j.
    unfold env_at. change (forks h') with (forks (finish_task t (Err err) h0)). by rewrite Hf.
Qed.

Lemma env_at_update g i j h :
  env_at (update_opts g i h) j = if decide (j = i) then (λ f, env (g (opts f))) <$> forks h !! i else env_at h j.
Proof.
  unfold update_opts, env_at. destruct (forks h !! i) as [f|] eqn:Hf; case_decide as Hj; subst; cbn; try done.
  - by rewrite lookup_insert_eq.
  - by rewrite lookup_insert_ne.
  - by rewrite Hf.
Qed.

Lemma idle_new p : idle (MultiForkHandler_new, p).
Proof. split; [done|]. exists []. apply ids_ok_new. Qed.

(** [MultiFork] keeps the promises to its client. *)
#[export] Instance multi_fork_laws : @ForkServiceLaws R (multi_fork answer tick).
Proof.
  refine {| service_ok := (idle : @Service _ (multi_fork answer tick) → Prop) |}; cbn.
  - intros f [h p] r [h' p'] Hok Hc. unfold MultiFork_create_fork in Hc.
    pose proof (request_create (RCreateFork f) f h p Hok eq_refl) as Hs.
    destruct (request _ _ _ _) as [reply s']. injection Hc as <- ->. destruct Hs as [Hok' Hs]. split; [done|].
    destruct (created_or reply) as [[[i b] e]|err]; [|intros j; rewrite !get_env_at by apply Hok || apply Hok'; apply Hs].
    rewrite get_env_at by apply Hok. split; [apply Hs|]. intros j.
    rewrite !get_env_at by apply Hok || apply Hok'. apply Hs.
  - intros i n [h p] r [h' p'] Hok Hc. unfold MultiFork_roll_fork in Hc.
    destruct (forks h !! i) as [f|] eqn:Hf.
    + pose proof (request_create (RollFork i n) (set_fork_block_number (Some n) (opts f)) h p Hok) as Hs.
      cbn [on_request] in Hs. rewrite Hf in Hs. specialize (Hs eq_refl).
      destruct (request _ _ _ _) as [reply s']. injection Hc as <- ->. destruct Hs as [Hok' Hs]. split; [done|].
      destruct (created_or reply) as [[[k b] e]|err]; [|intros j; rewrite !get_env_at by apply Hok || apply Hok'; apply Hs].
      rewrite get_env_at by apply Hok. split; [apply Hs|]. intros j.
      rewrite !get_env_at by apply Hok || apply Hok'. apply Hs.
    + destruct Hok as [Hp [o Hok]]. cbn in Hp, Hok.
      assert (Hr : on_request h (RollFork i n (length (sent h))) =
        send (length (sent h)) (Created (Err (NoMatchingFork i))) h) by (cbn; by rewrite Hf).
      destruct (request_read (RollFork i n) h p Hp) as (Hfk & Hsent & Hpend & Hids); [by rewrite Hr|].
      rewrite Hr in Hfk, Hsent, Hids. unfold request in *. cbn [fst snd] in *.
      rewrite (receive_sent _ _ _ _ [] Hsent) in Hc. injection Hc as <- Hh <-.
      change ((poll [RollFork i n (length (sent h))] false (λ t, Ready (answer p (future t))) (λ _, false) h).2 = h') in Hh.
      rewrite Hh in Hfk, Hpend, Hids. cbn [created_or].
      assert (Hidle : idle (h', tick p)) by (split; [done|]; exists o; apply Hids; by apply ids_ok_send).
      split; [done|]. intros j. rewrite !get_env_at by done. unfold env_at. by rewrite Hfk.
  - intros i n t [h p] [Hp [o Hok]]. cbn in Hp, Hok. unfold MultiFork_update_block.
    set (g := λ o, set_env (set_block (set_number_and_timestamp n t (block (env o))) (env o)) o).
    assert (Hup : pending_tasks (update_opts g i h) = []) by (by rewrite (proj2 (update_opts_fields g i h))).
    destruct (request_read (λ _, UpdateBlock i n t) h p Hp Hup) as (Hfk & _ & Hpend & Hids).
    destruct (request _ _ _ _) as [reply [h' p']]. cbn in *. split.
    + split; [done|]. exists o. apply Hids. by apply (ids_ok_update o g).
    + intros j. rewrite !get_env_at by done. transitivity (env_at (update_opts g i h) j); [unfold env_at; by rewrite Hfk|].
      rewrite env_at_update. unfold env_at. by destruct (forks h !! i).
  - intros i b [h p] [Hp [o Hok]]. cbn in Hp, Hok. unfold MultiFork_update_block_env.
    set (g := λ o, set_env (set_block b (env o)) o).
    assert (Hup : pending_tasks (update_opts g i h) = []) by (by rewrite (proj2 (update_opts_fields g i h))).
    destruct (request_read (λ _, UpdateEnv i b) h p Hp Hup) as (Hfk & _ & Hpend & Hids).
    destruct (request _ _ _ _) as [reply [h' p']]. cbn in *. split.
    + split; [done|]. exists o. apply Hids. by apply (ids_ok_update o g).
    + intros j. rewrite !get_env_at by done. transitivity (env_at (update_opts g i h) j); [unfold env_at; by rewrite Hfk|].
      rewrite env_at_update. unfold env_at. by destruct (forks h !! i).
Defined.
End client_laws.

(** ** Concrete runs *)
Module MultiForkExample.
(** The backend of a fork is its url and block. *)
#[export] Instance remote : Remote := {|
  CfgEnv := Z; TxRest := unit; EvmOpts := unit; SharedBackend := str * Z; BackendHandler := unit |}.
Definition block_at (n : Z) : BlockEnv := mkBlockEnv n (1000 + n) 0 0 None 7 30000000 None.
Definition env_of_block (n : Z) : Env := mkEnv (block_at n) 1 (mkTxEnv 0 None (Some 1) tt).
Definition fork_of (n : option Z) : CreateFork := mkCreateFork false (lit "http://node-1") (env_of_block 0) n tt.

(** The node is at block 20; block numbers are not negative. *)
Definition answer (p : unit) (f : CreateFork) : Outcome :=
  let n := Z.abs (default 20 (fork_block_number f)) in Ok (env_of_block n, n, (url f, n), tt).
Lemma answer_block p f e n b hd : answer p f = Ok (e, n, b, hd) → 0 <= n.
Proof. unfold answer. intros [= <- <- <- <-]. lia. Qed.
Definition all_ready (t : ForkTask) : Poll Outcome := Ready (answer tt (future t)).
Definition turn (l : list Request) (ready : ForkTask → Poll Outcome) : Turn := mkTurn l false ready (λ _, false).

(** Two clients ask for block 10 while it is fetched, and two for the latest
    block and block 20, which are the same. *)
Definition turns : list Turn :=
  [turn [RCreateFork (fork_of (Some 10)) 0; RCreateFork (fork_of None) 1] (λ _, Pending);
   turn [RCreateFork (fork_of (Some 10)) 2; RCreateFork (fork_of (Some 20)) 3] all_ready;
   turn [RCreateFork (fork_of (Some 10)) 4] all_ready].
Definition given (h : MultiForkHandler) : list (nat * ForkId) :=
  omap (λ p, (λ i, (p.1, i)) <$> created_id p.2) (sent h).
Example identifiers_given :
  given (foldl take_turn MultiForkHandler_new turns) =
    [(3%nat, lit "http://node-1@0x14"); (0%nat, lit "http://node-1@0xa"); (2%nat, lit "http://node-1@0xa-1");
     (1%nat, lit "http://node-1@0x14-1"); (4%nat, lit "http://node-1@0xa-2")].
Proof. vm_compute. reflexivity. Qed.

Lemma fork_ids_unique_witness :
  NoDup (created_ids (foldl take_turn MultiForkHandler_new turns)) ∧
  length (created_ids (foldl take_turn MultiForkHandler_new turns)) = 5%nat.
Proof.
  split; [|vm_compute; reflexivity]. apply fork_ids_unique.
  repeat apply Forall_cons_2; [..|by apply Forall_nil_2]; split; cbn;
    try (intros s Hs; repeat apply elem_of_cons in Hs as [Hs|Hs]; try done; by apply not_elem_of_nil in Hs).
  - intros t e k b hd Ha. apply (answer_block tt (future t) e k b hd).
    exact (f_equal (λ r, match r with Ready o => o | Pending => Err [] end) Ha).
  - intros t e k b hd Ha. apply (answer_block tt (future t) e k b hd).
    exact (f_equal (λ r, match r with Ready o => o | Pending => Err [] end) Ha).
Defined.

Lemma everyone_answered_once_witness :
  waiting (foldl take_turn MultiForkHandler_new [turn [RCreateFork (fork_of None) 1] (λ _, Pending)]) = [1%nat] ∧
  waiting (take_turn (foldl take_turn MultiForkHandler_new [turn [RCreateFork (fork_of None) 1] (λ _, Pending)])
    (turn [RCreateFork (fork_of (Some 10)) 2] all_ready)) = [].
Proof.
  split; [vm_compute; reflexivity|].
  apply (everyone_answered_once [turn [RCreateFork (fork_of None) 1] (λ _, Pending)]
    (turn [RCreateFork (fork_of (Some 10)) 2] all_ready)).
  intros t. discriminate.
Defined.

(** What a client does with [warp] and [roll] before it leaves its fork is what
    the next fork of the same block starts with: the environment is taken from
    the entry that was updated. *)
Definition first_client := MultiFork_create_fork answer (λ p, p) (fork_of (Some 10)) (MultiForkHandler_new, tt).
Definition warped := MultiFork_update_block answer (λ p, p) (lit "http://node-1@0xa") 10 5000 first_client.2.
Definition second_client := MultiFork_create_fork answer (λ p, p) (fork_of (Some 10)) warped.
Definition timestamp_given (r : result CreateError (ForkId * SharedBackend * Env)) : option Z :=
  match r with Ok (_, _, e) => Some (timestamp (block e)) | Err _ => None end.
Example warped_block_leaks :
  timestamp_given first_client.1 = Some 1010 ∧ timestamp_given second_client.1 = Some 5000.
Proof. vm_compute. split; reflexivity. Qed.
End MultiForkExample.
