(* ===== verification/Bytecode.v ===== *)
(** * EVM bytecode

    [evm/core/src/bytecode.rs]: the iterator over instructions, with and
    without program counters; [evm/core/src/ic.rs]: the maps between program
    counters and instruction counters. *)
From S2P Require Import Prelude Text.
Local Open Scope Z_scope.

(** The opcodes the code names. *)
Definition PUSH0 : Z := 95.
Definition PUSH1 : Z := 96.
Definition PUSH32 : Z := 127.
Definition JUMPI : Z := 87.

Record Inst := { opcode : Z; immediate : list Z }.

Definition is_push (op : Z) : bool := (PUSH1 <=? op) && (op <=? PUSH32).

(** The length of the immediate data of an opcode. *)
Definition imm_len (op : Z) : Z := if is_push op then op - PUSH0 else 0.

(** ** [InstIter]

    The iterator is the rest of the code. *)
Definition split_at_checked {A} (len : Z) (l : list A) : option (list A * list A) :=
  if len <=? Z.of_nat (length l) then Some (take (Z.to_nat len) l, drop (Z.to_nat len) l)
  else None.

Definition next (iter : list Z) : option (Inst * list Z) :=
  match iter with
  | [] => None
  | op :: iter =>
      let '(imm, rest) := default ([], []) (split_at_checked (imm_len op) iter) in
      Some ({| opcode := op; immediate := imm |}, rest)
  end.

(** [InstIterWithPc]: the iterator and the program counter. *)
Definition next_with_pc (it : list Z * Z) : option ((Z * Inst) * (list Z * Z)) :=
  '(inst, iter) ← next it.1;
  mret ((it.2, inst), (iter, it.2 + 1 + Z.of_nat (length (immediate inst)))).

Fixpoint collect_fuel (fuel : nat) (it : list Z * Z) : list (Z * Inst) :=
  match fuel with
  | O => []
  | S fuel =>
      match next_with_pc it with
      | None => []
      | Some (x, it) => x :: collect_fuel fuel it
      end
  end.

(** [InstIter::new(code).with_pc()], exhausted; every item takes a byte. *)
Definition with_pc (code : list Z) : list (Z * Inst) := collect_fuel (length code) (code, 0).
Definition instructions (code : list Z) : list Inst := snd <$> with_pc code.

Section display.
(** The name of an opcode and the alternate hexadecimal text of bytes are
    third-party code. *)
Context (opcode_display : Z → str) (hex_display : list Z → str).

Definition Inst_display (i : Inst) : str :=
  opcode_display (opcode i) ++
  match immediate i with [] => [] | imm => blank :: hex_display imm end.

(** [format_bytecode] *)
Definition format_bytecode (code : list Z) : str :=
  mjoin (imap (λ i inst, (if (0 <? i)%nat then [blank] else []) ++ Inst_display inst)
              (instructions code)).
End display.

(** ** Maps between counters

    [None] is the panic of the assertion on the size. *)
Definition make_map (pc_first : bool) (code : list Z) : option (gmap Z Z) :=
  if Z.of_nat (length code) <=? umax 32 then
    Some (foldl (λ map p, match p with
                          | (ic, (pc, _)) =>
                              let ic := wrap 32 (Z.of_nat ic) in let pc := wrap 32 pc in
                              if pc_first then <[pc := ic]> map else <[ic := pc]> map
                          end)
            (∅ : gmap Z Z) (imap pair (with_pc code)))
  else None.

Definition PcIcMap_new (code : list Z) : option (gmap Z Z) := make_map true code.
Definition IcPcMap_new (code : list Z) : option (gmap Z Z) := make_map false code.
Definition map_get (m : gmap Z Z) (k : Z) : option Z := m !! k.
Definition map_len (m : gmap Z Z) : nat := size m.

(** ** Assembly: the reference the iterator is compared with *)

(** An instruction has all its immediate data. *)
Definition inst_wf (i : Inst) : Prop :=
  Z.of_nat (length (immediate i)) = imm_len (opcode i).
Definition encode (i : Inst) : list Z := opcode i :: immediate i.
Definition assemble (insts : list Inst) : list Z := mjoin (encode <$> insts).
Definition inst_len (i : Inst) : Z := 1 + Z.of_nat (length (immediate i)).

(** The program counters of a sequence of instructions placed at [pc]. *)
Fixpoint place (pc : Z) (insts : list Inst) : list (Z * Inst) :=
  match insts with
  | [] => []
  | i :: insts => (pc, i) :: place (pc + inst_len i) insts
  end.

Lemma imm_len_nonneg op : 0 <= imm_len op.
Proof. unfold imm_len, is_push, PUSH0, PUSH1, PUSH32. repeat z_case; simpl; lia. Qed.
#[export] Hint Resolve imm_len_nonneg : rust.

Lemma split_at_checked_app {A} (l k : list A) :
  split_at_checked (Z.of_nat (length l)) (l ++ k) = Some (l, k).
Proof.
  unfold split_at_checked. rewrite length_app, Nat2Z.id, take_app_length, drop_app_length.
  by destruct (Z.leb_spec (Z.of_nat (length l)) (Z.of_nat (length l + length k))); [|lia].
Qed.

Lemma next_encode i rest : inst_wf i → next (encode i ++ rest) = Some (i, rest).
Proof.
  intros Hwf. unfold next, encode. simpl. rewrite <-Hwf, split_at_checked_app. by destruct i.
Qed.

(** What one step takes from the code. *)
Lemma next_spec code i rest :
  next code = Some (i, rest) →
  (inst_wf i ∧ code = encode i ++ rest) ∨
  (immediate i = [] ∧ rest = [] ∧ ∃ tl, code = opcode i :: tl ∧
   Z.of_nat (length tl) < imm_len (opcode i)).
Proof.
  destruct code as [|op code]; [done|]. unfold next, split_at_checked.
  pose proof (imm_len_nonneg op) as Hnn.
  destruct (Z.leb_spec (imm_len op) (Z.of_nat (length code))) as [Hle|Hlt]; simpl;
    intros [= <- <-]; [left|right; eauto].
  split; [|unfold encode; simpl; by rewrite take_drop].
  unfold inst_wf. simpl. rewrite length_take. lia.
Qed.

Lemma next_None code : next code = None → code = [].
Proof.
  destruct code as [|op code]; [done|]. unfold next. by destruct (default _ _).
Qed.

Lemma next_shorter code i rest :
  next code = Some (i, rest) → (length rest < length code)%nat.
Proof.
  intros [[_ ->]|(_ & -> & tl & -> & _)]%next_spec; simpl; [|lia].
  rewrite length_app. lia.
Qed.

(** Fuel: the length of the code is enough, and more changes nothing. *)
Lemma collect_fuel_enough fuel1 fuel2 code pc :
  (length code <= fuel1)%nat → (length code <= fuel2)%nat →
  collect_fuel fuel1 (code, pc) = collect_fuel fuel2 (code, pc).
Proof.
  revert fuel2 code pc. induction fuel1 as [|f1 IH]; intros fuel2 code pc H1 H2.
  { destruct code; [|simpl in H1; lia]. by destruct fuel2. }
  destruct code as [|op code]; [by destruct fuel2|].
  destruct fuel2 as [|f2]; [simpl in H2; lia|]. cbn [collect_fuel]. unfold next_with_pc.
  cbn [fst snd]. destruct (next (op :: code)) as [[i rest]|] eqn:Hn; [|done].
  apply next_shorter in Hn. simpl in *. f_equal. apply IH; lia.
Qed.

Lemma collect_assemble fuel insts pc :
  Forall inst_wf insts → (length (assemble insts) <= fuel)%nat →
  collect_fuel fuel (assemble insts, pc) = place pc insts.
Proof.
  intros His. revert fuel pc. induction His as [|i insts Hi _ IH]; intros fuel pc Hf.
  { by destruct fuel. }
  destruct fuel as [|fuel]; [simpl in Hf; lia|].
  cbn [collect_fuel]. unfold next_with_pc. cbn [fst snd].
  change (assemble (i :: insts)) with (encode i ++ assemble insts) in *.
  rewrite next_encode by done. simpl. unfold inst_len.
  replace (pc + (1 + _)) with (pc + 1 + Z.of_nat (length (immediate i))) by lia.
  f_equal. apply IH. rewrite length_app in Hf. simpl in Hf. lia.
Qed.

(** Disassembling what was assembled gives the instructions back, each at
    the program counter it was placed at. *)
Theorem with_pc_assemble insts :
  Forall inst_wf insts → with_pc (assemble insts) = place 0 insts ∧ instructions (assemble insts) = insts.
Proof.
  intros His. unfold instructions, with_pc. rewrite collect_assemble by done.
  split; [done|]. clear His. generalize 0. induction insts as [|i insts IH]; intros pc; [done|].
  simpl. f_equal. apply IH.
Qed.

(** Any code is a sequence of complete instructions, possibly followed by a
    push whose data runs past the end: that one is yielded without data. *)
Lemma collect_shape fuel code pc :
  (length code <= fuel)%nat →
  ∃ insts tl, Forall inst_wf insts ∧ code = assemble insts ++ tl ∧
    match tl with
    | [] => collect_fuel fuel (code, pc) = place pc insts
    | op :: tl =>
        Z.of_nat (length tl) < imm_len op ∧
        collect_fuel fuel (code, pc) = place pc (insts ++ [{| opcode := op; immediate := [] |}])
    end.
Proof.
  revert code pc. induction fuel as [|fuel IH]; intros code pc Hf.
  { destruct code; [|simpl in Hf; lia]. by exists [], []. }
  cbn [collect_fuel]. unfold next_with_pc. cbn [fst snd].
  destruct (next code) as [[i rest]|] eqn:Hn.
  - pose proof (next_shorter _ _ _ Hn) as Hlt. simpl.
    destruct (next_spec _ _ _ Hn) as [[Hi ->]|(Himm & -> & tl & -> & Htl)].
    + destruct (IH rest (pc + 1 + Z.of_nat (length (immediate i)))) as (insts & tl & His & -> & Htl);
        [lia|].
      exists (i :: insts), tl. split; [by constructor|].
      split; [by rewrite (app_assoc (encode i))|].
      destruct tl as [|op tl]; simpl; [|destruct Htl as [? Htl]; split; [done|]];
        rewrite Htl; do 2 f_equal; unfold inst_len; lia.
    + exists [], (opcode i :: tl). split; [done|]. split; [done|]. split; [done|].
      destruct i as [op imm]; simpl in *. subst imm. destruct fuel; reflexivity.
  - apply next_None in Hn as ->. by exists [], [].
Qed.

(** ** The two maps *)

Lemma elem_of_place pc insts x : x ∈ place pc insts → pc <= x.1.
Proof.
  revert pc. induction insts as [|i insts IH]; intros pc; [by intros ?%elem_of_nil|].
  intros [->|Hx]%elem_of_cons; [done|]. apply IH in Hx. unfold inst_len in Hx. lia.
Qed.

(** Program counters grow. *)
Lemma place_sorted pc insts : StronglySorted Z.lt (fst <$> place pc insts).
Proof.
  revert pc. induction insts as [|i insts IH]; intros pc; simpl; constructor; [apply IH|].
  apply Forall_fmap, Forall_forall. intros x Hx%elem_of_place. unfold inst_len in Hx. simpl. lia.
Qed.

Lemma place_bound pc insts x : x ∈ place pc insts → x.1 < pc + Z.of_nat (length (assemble insts)).
Proof.
  revert pc. induction insts as [|i insts IH]; intros pc; [by intros ?%elem_of_nil|].
  change (assemble (i :: insts)) with (encode i ++ assemble insts).
  rewrite length_app. unfold encode. simpl.
  intros [->|Hx]%elem_of_cons; simpl; [lia|].
  apply IH in Hx. unfold inst_len in Hx. lia.
Qed.

Lemma with_pc_sorted code : StronglySorted Z.lt (fst <$> with_pc code).
Proof.
  destruct (collect_shape (length code) code 0) as (insts & tl & _ & _ & Htl); [done|].
  unfold with_pc. destruct tl; [rewrite Htl|destruct Htl as [_ ->]]; apply place_sorted.
Qed.

Lemma assemble_app insts1 insts2 : assemble (insts1 ++ insts2) = assemble insts1 ++ assemble insts2.
Proof. unfold assemble. by rewrite fmap_app, join_app. Qed.

Lemma with_pc_bound code x : x ∈ with_pc code → 0 <= x.1 < Z.of_nat (length code).
Proof.
  destruct (collect_shape (length code) code 0) as (insts & tl & _ & -> & Htl); [done|].
  unfold with_pc. destruct tl as [|op tl]; [rewrite Htl|destruct Htl as [_ ->]]; intros Hx;
    pose proof (elem_of_place _ _ _ Hx); apply place_bound in Hx; rewrite ?assemble_app in Hx;
    rewrite !length_app in *; simpl in *; lia.
Qed.

Lemma collect_count fuel it : (length (collect_fuel fuel it) <= fuel)%nat.
Proof.
  revert it. induction fuel as [|fuel IH]; intros it; simpl; [lia|].
  destruct (next_with_pc it) as [[x it']|]; simpl; [|lia]. specialize (IH it'). lia.
Qed.

Section fold_insert.
Context {A : Type} (key val : A → Z).

Lemma fold_insert_lookup (l : list A) k v :
  (∀ x y, x ∈ l → y ∈ l → key x = key y → x = y) →
  foldl (λ m x, <[key x := val x]> m) (∅ : gmap Z Z) l !! k = Some v ↔
  ∃ x, x ∈ l ∧ key x = k ∧ val x = v.
Proof.
  induction l as [|y l IH] using rev_ind; intros Hinj.
  { simpl. rewrite lookup_empty. split; [done|]. by intros (x & ?%elem_of_nil & _). }
  rewrite foldl_app. simpl.
  rewrite lookup_insert_Some, IH by (intros; apply Hinj; set_solver). split.
  - intros [[<- <-]|[_ (x & Hx & <- & <-)]]; [exists y|exists x]; set_solver.
  - intros (x & Hx & Hk & Hv). destruct (decide (key y = k)) as [He|He]; [left|right].
    + rewrite (Hinj x y) in * by set_solver. done.
    + split; [done|]. exists x. apply elem_of_app in Hx as [Hx|Hx]; [done|].
      apply list_elem_of_singleton in Hx as ->. done.
Qed.
End fold_insert.

Lemma elem_of_imap_pair {A} (l : list A) i x : (i, x) ∈ imap pair l ↔ l !! i = Some x.
Proof.
  rewrite list_elem_of_lookup. split.
  - intros [j Hj]. rewrite list_lookup_imap in Hj. apply fmap_Some in Hj as (y & Hy & [= -> ->]).
    done.
  - intros Hi. exists i. by rewrite list_lookup_imap, Hi.
Qed.

(** The program counters of two positions compare like the positions. *)
Lemma with_pc_lookup_lt code i j x y :
  with_pc code !! i = Some x → with_pc code !! j = Some y → (i < j)%nat → x.1 < y.1.
Proof.
  pose proof (with_pc_sorted code) as Hs. revert i j. generalize (with_pc code), Hs. clear.
  intros l Hs i j. induction l as [|z l IH] in i, j, Hs |- *; [done|].
  simpl in Hs. apply StronglySorted_inv in Hs as [Hs Hz].
  destruct i as [|i], j as [|j]; simpl; intros Hi Hj Hlt; try lia.
  - injection Hi as ->. rewrite Forall_fmap, Forall_forall in Hz.
    apply Hz. by eapply list_elem_of_lookup_2.
  - eapply IH; [done..|lia].
Qed.

Lemma with_pc_lookup_inj code i j x y :
  with_pc code !! i = Some x → with_pc code !! j = Some y → x.1 = y.1 → i = j ∧ x = y.
Proof.
  intros Hi Hj Heq. destruct (lt_eq_lt_dec i j) as [[Hlt| ->]|Hlt].
  - pose proof (with_pc_lookup_lt _ _ _ _ _ Hi Hj Hlt). lia.
  - split; [done|]. congruence.
  - pose proof (with_pc_lookup_lt _ _ _ _ _ Hj Hi Hlt). lia.
Qed.

Section maps.
Context (code : list Z) (Hlen : Z.of_nat (length code) <= umax 32).

Lemma ic_in_u i x : with_pc code !! i = Some x → wrap 32 (Z.of_nat i) = Z.of_nat i.
Proof using Hlen.
  intros Hi%lookup_lt_Some. pose proof (collect_count (length code) (code, 0)).
  unfold with_pc in Hi. apply wrap_id; [lia|]. split; lia.
Qed.

Lemma pc_in_u i x : with_pc code !! i = Some x → wrap 32 x.1 = x.1.
Proof using Hlen.
  intros Hi%list_elem_of_lookup_2%with_pc_bound. apply wrap_id; [lia|]. split; lia.
Qed.

(** What either map holds. *)
Lemma make_map_spec pc_first m k v :
  make_map pc_first code = Some m →
  map_get m k = Some v ↔
  ∃ i x, with_pc code !! i = Some x ∧
    (if pc_first then k = x.1 ∧ v = Z.of_nat i else k = Z.of_nat i ∧ v = x.1).
Proof using Hlen.
  unfold make_map, map_get. destruct (Z.leb_spec (Z.of_nat (length code)) (umax 32)); [|done].
  intros [= <-].
  set (key := λ p : nat * (Z * Inst),
                if pc_first then wrap 32 p.2.1 else wrap 32 (Z.of_nat p.1)).
  set (val := λ p : nat * (Z * Inst),
                if pc_first then wrap 32 (Z.of_nat p.1) else wrap 32 p.2.1).
  assert (∀ l acc, foldl (λ map p, match p with
                       | (ic, (pc, _)) =>
                           let ic := wrap 32 (Z.of_nat ic) in let pc := wrap 32 pc in
                           if pc_first then <[pc := ic]> map else <[ic := pc]> map
                       end) acc l =
          foldl (λ (m : gmap Z Z) x, <[key x := val x]> m) acc l) as ->.
  { intros l. induction l as [|[i [pc x]] l IH]; intros acc; simpl; [done|].
    rewrite IH. unfold key, val. by destruct pc_first. }
  rewrite fold_insert_lookup.
  - split.
    + intros ([i x] & Hx%elem_of_imap_pair & <- & <-). exists i, x. split; [done|].
      unfold key, val. simpl. rewrite (ic_in_u i x), (pc_in_u i x) by done. by destruct pc_first.
    + intros (i & x & Hx & Hkv). exists (i, x). rewrite elem_of_imap_pair. split; [done|].
      unfold key, val. simpl. rewrite (ic_in_u i x), (pc_in_u i x) by done.
      destruct pc_first; naive_solver.
  - intros [i x] [j y] Hi%elem_of_imap_pair Hj%elem_of_imap_pair. unfold key. simpl.
    rewrite (ic_in_u i x), (pc_in_u i x), (ic_in_u j y), (pc_in_u j y) by done.
    destruct pc_first; intros Heq.
    + by destruct (with_pc_lookup_inj _ _ _ _ _ Hi Hj Heq) as [-> ->].
    + apply Nat2Z.inj in Heq as ->. congruence.
Qed.

Lemma IcPcMap_spec m ic pc :
  IcPcMap_new code = Some m →
  map_get m ic = Some pc ↔
  ∃ i inst, ic = Z.of_nat i ∧ with_pc code !! i = Some (pc, inst).
Proof using Hlen.
  intros Hm. rewrite (make_map_spec false m) by done. split.
  - intros (i & [pc' x] & Hi & -> & ->). eauto.
  - intros (i & x & -> & Hi). exists i, (pc, x). auto.
Qed.
End maps.

Lemma make_map_total pc_first code :
  Z.of_nat (length code) <= umax 32 → is_Some (make_map pc_first code).
Proof.
  intros. unfold make_map.
  destruct (Z.leb_spec (Z.of_nat (length code)) (umax 32)); [eauto|lia].
Qed.

(** For every code that does not panic, the map from program counters to
    instruction counters and the map back are inverse to each other, and they
    hold exactly the counters of the instructions of the code. *)
Theorem pc_ic_inverse code pi ip pc ic :
  PcIcMap_new code = Some pi → IcPcMap_new code = Some ip →
  (map_get pi pc = Some ic ↔ map_get ip ic = Some pc) ∧
  (map_get ip ic = Some pc ↔
   ∃ i inst, ic = Z.of_nat i ∧ with_pc code !! i = Some (pc, inst)).
Proof.
  intros Hpi Hip.
  assert (Z.of_nat (length code) <= umax 32) as Hlen.
  { unfold PcIcMap_new, make_map in Hpi.
    by destruct (Z.leb_spec (Z.of_nat (length code)) (umax 32)). }
  rewrite (IcPcMap_spec code Hlen ip) by done.
  rewrite (make_map_spec code Hlen true pi) by done. split; [|done]. split.
  - intros (i & [pc' x] & Hi & -> & ->). eauto.
  - intros (i & x & -> & Hi). exists i, (pc, x). auto.
Qed.

(** PUSH0 PUSH1 0x69 PUSH2 0x0102, and a PUSH2 that lacks a byte. *)
Definition sample : list Z := [95; 96; 105; 97; 1; 2].

Example sample_instructions :
  with_pc sample = [(0, {| opcode := 95; immediate := [] |});
                    (1, {| opcode := 96; immediate := [105] |});
                    (3, {| opcode := 97; immediate := [1; 2] |})] ∧
  instructions [97; 105] = [{| opcode := 97; immediate := [] |}].
Proof. done. Qed.

Lemma pc_ic_inverse_witness :
  (PcIcMap_new sample = Some {[0 := 0; 1 := 1; 3 := 2]} ∧
   IcPcMap_new sample = Some {[0 := 0; 1 := 1; 2 := 3]}) ∧
  (map_get {[0 := 0; 1 := 1; 3 := 2]} 3 = Some 2 ↔ map_get {[0 := 0; 1 := 1; 2 := 3]} 2 = Some 3) ∧
  (map_get {[0 := 0; 1 := 1; 2 := 3]} 2 = Some 3 ↔
   ∃ i inst, 2 = Z.of_nat i ∧ with_pc sample !! i = Some (3, inst)).
Proof.
  assert (PcIcMap_new sample = Some {[0 := 0; 1 := 1; 3 := 2]}) as H1 by (vm_compute; reflexivity).
  assert (IcPcMap_new sample = Some {[0 := 0; 1 := 1; 2 := 3]}) as H2 by (vm_compute; reflexivity).
  split; [exact (conj H1 H2)|].
  refine (pc_ic_inverse sample _ _ 3 2 H1 H2).
Defined.

Lemma with_pc_assemble_witness :
  Forall inst_wf [{| opcode := 96; immediate := [105] |}; {| opcode := 0; immediate := [] |}] ∧
  with_pc [96; 105; 0] = [(0, {| opcode := 96; immediate := [105] |});
                          (2, {| opcode := 0; immediate := [] |})] ∧
  instructions [96; 105; 0] =
    [{| opcode := 96; immediate := [105] |}; {| opcode := 0; immediate := [] |}].
Proof.
  assert (Forall inst_wf [{| opcode := 96; immediate := [105] |}; {| opcode := 0; immediate := [] |}])
    as Hwf by (repeat constructor).
  split; [exact Hwf|]. exact (with_pc_assemble _ Hwf).
Defined.
