(* ===== verification/FuzzDict.v ===== *)
(** * The fuzz dictionary

    Models [crates/evm/fuzz/src/strategies/state.rs]: the values, addresses and
    typed samples that are collected from the state, the logs and the results
    of calls to generate the next inputs from, and their removal between runs;
    with [find_metadata_start] and [ignore_metadata_hash] of
    [crates/common/src/utils.rs].

    An [IndexSet] is the list of its elements in insertion order.  Hash maps of
    third-party types are given as the list of their entries in the order they
    are iterated.  The ABI decoder, the CBOR reader and the identification of
    storage slots are parameters. *)
From S2P Require Import Prelude DynSol Mutators Bytecode.
From stdpp Require Import sorting.
Local Open Scope Z_scope.

(** ** Index sets *)

Definition ix_insert (x : Z) (l : list Z) : list Z := if decide (x ∈ l) then l else l ++ [x].

Lemma ix_insert_NoDup x l : NoDup l → NoDup (ix_insert x l).
Proof.
  intros Hl. unfold ix_insert. case_decide; [done|]. apply NoDup_app. split_and!; [done| |apply NoDup_singleton].
  intros y Hy ->%list_elem_of_singleton. done.
Qed.

Lemma elem_of_ix_insert x y l : y ∈ ix_insert x l ↔ y = x ∨ y ∈ l.
Proof. unfold ix_insert. case_decide; set_solver. Qed.

Lemma ix_insert_length x l : (length l ≤ length (ix_insert x l) ≤ S (length l))%nat.
Proof. unfold ix_insert. case_decide; [lia|]. rewrite length_app. simpl. lia. Qed.

(** The elements that were there keep their positions. *)
Lemma ix_insert_prefix x l l0 : l0 `prefix_of` l → l0 `prefix_of` ix_insert x l.
Proof. intros Hl. unfold ix_insert. case_decide; [done|]. by apply prefix_app_r. Qed.

#[export] Hint Resolve ix_insert_NoDup ix_insert_prefix : rust.

(** Entries in the order of their keys. *)
Definition key_le {A} (x y : Z * A) : Prop := x.1 <= y.1.
#[export] Instance key_le_dec {A} (x y : Z * A) : Decision (key_le x y) := Z_le_dec x.1 y.1.
Definition sort_keys {A} (l : list (Z * A)) : list (Z * A) := merge_sort key_le l.

(** ** Data *)

Record FuzzDictionaryConfig := mkConfig {
  dictionary_weight : Z;
  include_storage : bool;
  include_push_bytes : bool;
  max_fuzz_dictionary_addresses : Z;
  max_fuzz_dictionary_values : Z;
  max_fuzz_dictionary_literals : Z;
}.
Definition MB : Z := 1024 * 1024.
Definition default_config : FuzzDictionaryConfig :=
  mkConfig 40 true true (300 * MB / 20) (300 * MB / 32) (200 * MB / 32).

(** The literals of the source code; a text is the list of its characters. *)
Record LiteralMaps := mkLiterals {
  words : gmap DynSolType (list Z);
  strings : list (list Z);
  hex_bytes : list (list Z);
}.
Definition no_literals : LiteralMaps := mkLiterals ∅ [] [].

Record FuzzDictionary := mkDictionary {
  state_values : list Z;
  addresses : list Z;
  config : FuzzDictionaryConfig;
  db_state_values : nat;
  db_addresses : nat;
  sample_values : gmap DynSolType (list Z);
  no_zksync_reserved_addresses : bool;
  literal_values : LiteralMaps;
  samples_seeded : bool;
  misses : Z;
  hits : Z;
}.

Definition set_values (values : list Z) (m h : Z) (d : FuzzDictionary) : FuzzDictionary :=
  mkDictionary values (addresses d) (config d) (db_state_values d) (db_addresses d)
    (sample_values d) (no_zksync_reserved_addresses d) (literal_values d) (samples_seeded d) m h.
Definition set_addresses (l : list Z) (d : FuzzDictionary) : FuzzDictionary :=
  mkDictionary (state_values d) l (config d) (db_state_values d) (db_addresses d)
    (sample_values d) (no_zksync_reserved_addresses d) (literal_values d) (samples_seeded d)
    (misses d) (hits d).
Definition set_samples (samples : gmap DynSolType (list Z)) (seeded : bool) (d : FuzzDictionary)
    : FuzzDictionary :=
  mkDictionary (state_values d) (addresses d) (config d) (db_state_values d) (db_addresses d)
    samples (no_zksync_reserved_addresses d) (literal_values d) seeded (misses d) (hits d).
Definition set_db (values addrs : nat) (d : FuzzDictionary) : FuzzDictionary :=
  mkDictionary (state_values d) (addresses d) (config d) values addrs
    (sample_values d) (no_zksync_reserved_addresses d) (literal_values d) (samples_seeded d)
    (misses d) (hits d).
Definition set_literals (l : LiteralMaps) (d : FuzzDictionary) : FuzzDictionary :=
  mkDictionary (state_values d) (addresses d) (config d) (db_state_values d) (db_addresses d)
    (sample_values d) (no_zksync_reserved_addresses d) l (samples_seeded d) (misses d) (hits d).

(** ** Inserting values *)

Definition values_full (d : FuzzDictionary) : bool :=
  max_fuzz_dictionary_values (config d) <=? Z.of_nat (length (state_values d)).

(** Whether the value was inserted, and the dictionary. *)
Definition insert_value (value : Z) (d : FuzzDictionary) : bool * FuzzDictionary :=
  if values_full d then (false, d)
  else
    let new_value := bool_decide (value ∉ state_values d) in
    (true, set_values (ix_insert value (state_values d))
             (if new_value then misses d + 1 else misses d)
             (if new_value then hits d else hits d + 1) d).

(** The operands of [|] are all evaluated. *)
Definition insert_value_u256 (value : Z) (d : FuzzDictionary) : bool * FuzzDictionary :=
  let '(a, d) := insert_value value d in
  let '(b, d) := insert_value (wrap 256 (value - 1)) d in
  let '(c, d) := insert_value (wrap 256 (value + 1)) d in
  (a || b || c, d).

Definition put (value : Z) (d : FuzzDictionary) : FuzzDictionary := (insert_value value d).2.
Definition put_u256 (value : Z) (d : FuzzDictionary) : FuzzDictionary :=
  (insert_value_u256 value d).2.

Definition insert_address (address : Z) (d : FuzzDictionary) : FuzzDictionary :=
  if Z.of_nat (length (addresses d)) <? max_fuzz_dictionary_addresses (config d)
  then set_addresses (ix_insert address (addresses d)) d else d.

(** [new], with [prefill]. *)
Definition prefill (d : FuzzDictionary) : FuzzDictionary := put 0 d.
Definition FuzzDictionary_new (c : FuzzDictionaryConfig) (no_reserved : bool) : FuzzDictionary :=
  prefill (mkDictionary [] [] c 0 0 ∅ no_reserved no_literals false 0 0).

(** ** Samples *)

(** [extend]: the literals replace the samples of their types. *)
Definition seed_samples (d : FuzzDictionary) : FuzzDictionary :=
  set_samples (words (literal_values d) ∪ sample_values d) true d.
Definition ensure_seeded (d : FuzzDictionary) : FuzzDictionary :=
  if samples_seeded d then d else seed_samples d.

(** [self.sample_values.entry(ty).or_default().insert(value)] *)
Definition add_sample (ty : DynSolType) (value : Z) (d : FuzzDictionary) : FuzzDictionary :=
  set_samples (<[ty := ix_insert value (default [] (sample_values d !! ty))]> (sample_values d))
    (samples_seeded d) d.

Section dictionary.
(** alloy: the type of a value and its word, when it has one. *)
Context (as_type : DynSolValue → option DynSolType) (as_word : DynSolValue → option Z).

Definition insert_sample (limit : Z) (d : FuzzDictionary) (sample : DynSolValue) : FuzzDictionary :=
  match as_type sample, as_word sample with
  | Some sample_type, Some sample_value =>
      match sample_values d !! sample_type with
      | Some values =>
          if Z.of_nat (length values) <? limit then
            set_samples (<[sample_type := ix_insert sample_value values]> (sample_values d))
              (samples_seeded d) d
          else put sample_value d
      | None => add_sample sample_type sample_value d
      end
  | _, _ => d
  end.

Definition insert_sample_values (samples : list DynSolValue) (limit : Z) (d : FuzzDictionary)
    : FuzzDictionary :=
  foldl (insert_sample limit) (ensure_seeded d) samples.

Definition samples (param_type : DynSolType) (d : FuzzDictionary) : option (list Z) :=
  if samples_seeded d then sample_values d !! param_type
  else words (literal_values d) !! param_type.

(** ** Code *)

(** Whether bytes start with a CBOR value. *)
Context (is_cbor : list Z → bool).

(** The last two bytes are the length of the metadata in front of them. *)
Definition find_metadata_start (bytecode : list Z) : option nat :=
  if (length bytecode <? 2)%nat then None
  else
    let rest := take (length bytecode - 2) bytecode in
    let metadata_len := Z.to_nat (of_be_bytes (drop (length bytecode - 2) bytecode)) in
    if (length rest <? metadata_len)%nat then None
    else
      let start := (length rest - metadata_len)%nat in
      if is_cbor (drop start rest) then Some start else None.

Definition ignore_metadata_hash (bytecode : list Z) : list Z :=
  match find_metadata_start bytecode with
  | Some metadata => take metadata bytecode
  | None => bytecode
  end.

Definition PUSH_BYTE_ANALYSIS_LIMIT : Z := 24 * 1024.

Definition push_value (inst : Inst) : option Z :=
  match immediate inst with
  | [] => None
  | imm => let v := of_be_bytes imm in if v =? 0 then None else Some v
  end.

Definition collect_push_bytes (code : list Z) (d : FuzzDictionary) : FuzzDictionary :=
  let len := Z.to_nat (Z.min (Z.of_nat (length code)) PUSH_BYTE_ANALYSIS_LIMIT) in
  foldl (λ d inst, match push_value inst with Some v => put_u256 v d | None => d end)
    d (instructions (take len code)).

(** [AccountInfo]: only its code is read. *)
Definition insert_push_bytes_values (address : Z) (code : option (list Z)) (d : FuzzDictionary)
    : FuzzDictionary :=
  if include_push_bytes (config d) && negb (bool_decide (address ∈ addresses d)) then
    match code with
    | Some code =>
        let d := insert_address address d in
        if values_full d then d else collect_push_bytes (ignore_metadata_hash code) d
    | None => d
    end
  else d.

(** ** Storage *)

(** Storage layouts and accesses to mappings; [slot_type] is the type that the
    slot identifier finds for a slot, when it can decode the value as it. *)
Context {Layout MappingSlots : Type}
  (slot_type : Layout → option MappingSlots → Z → Z → option DynSolType).

Definition insert_storage_value (slot value : Z) (layout : option Layout)
    (mapping_slots : option MappingSlots) (d : FuzzDictionary) : FuzzDictionary :=
  let d := put slot d in
  match layout ≫= (λ l, slot_type l mapping_slots slot value) with
  | Some ty => add_sample ty value (ensure_seeded d)
  | None => put_u256 value d
  end.

(** An account: its code and its storage. *)
Record Account := mkAccount { code : option (list Z); storage : list (Z * Z) }.


Definition insert_db_account (d : FuzzDictionary) (entry : Z * Account) : FuzzDictionary :=
  let '(address, account) := entry in
  let d := put address d in
  let d := insert_push_bytes_values address (code account) d in
  if include_storage (config d) then
    foldl (λ d '(slot, value), insert_storage_value slot value None None d) d
      (sort_keys (storage account))
  else d.

(** [random] is the address that is drawn for an empty dictionary. *)
Definition insert_db_values (random : Z) (db_state : list (Z * Account)) (d : FuzzDictionary)
    : FuzzDictionary :=
  let d := foldl insert_db_account d db_state in
  let d := if decide (state_values d = []) then put random d else d in
  set_db (length (state_values d)) (length (addresses d)) d.

(** ** What a call leaves *)

(** A log: its topics and its data; [decode_log] is the first event of the ABI
    that decodes it: the values of its indexed fields, then of its body. *)
Record Log := mkLog { topics : list Z; data : list Z }.
Context {Abi Function : Type}
  (decode_log : Abi → Log → option (list DynSolValue))
  (outputs_empty : Function → bool)
  (abi_decode_output : Function → list Z → option (list DynSolValue)).

Definition insert_result_values (function : option Function) (result : list Z) (run_depth : Z)
    (d : FuzzDictionary) : FuzzDictionary :=
  match function with
  | Some function =>
      if negb (outputs_empty function) then
        match abi_decode_output function result with
        | Some decoded_result => insert_sample_values decoded_result run_depth d
        | None => d
        end
      else d
  | None => d
  end.

(** [chunks_exact(32)] with the remainder; fuel: the length. *)
Fixpoint chunks_exact (fuel : nat) (l : list Z) : list (list Z) * list Z :=
  match fuel with
  | O => ([], l)
  | S fuel =>
      if (length l <? 32)%nat then ([], l)
      else let '(chunks, rem) := chunks_exact fuel (drop 32 l) in (take 32 l :: chunks, rem)
  end.

(** [B256::right_padding_from] *)
Definition right_padding_from (l : list Z) : Z := of_be_bytes (l ++ replicate (32 - length l) 0).

Definition insert_raw_log (log : Log) (d : FuzzDictionary) : FuzzDictionary :=
  let d := foldl (λ d t, put t d) d (topics log) in
  let '(chunks, rem) := chunks_exact (length (data log)) (data log) in
  let d := foldl (λ d c, put (of_be_bytes c) d) d chunks in
  if decide (rem = []) then d else put (right_padding_from rem) d.

Definition insert_logs_values (abi : option Abi) (logs : list Log) (run_depth : Z)
    (d : FuzzDictionary) : FuzzDictionary :=
  let '(samples, d) :=
    foldl (λ '(samples, d) log,
      match abi ≫= (λ abi, decode_log abi log) with
      | Some values => (samples ++ values, d)
      | None => (samples, insert_raw_log log d)
      end) ([], d) logs in
  insert_sample_values samples run_depth d.

Definition insert_new_state_account (storage_layouts : Z → option Layout)
    (mapping_slots : option (Z → option MappingSlots)) (d : FuzzDictionary) (entry : Z * Account)
    : FuzzDictionary :=
  let '(address, account) := entry in
  let d := put address d in
  let d := insert_push_bytes_values address (code account) d in
  if include_storage (config d) then
    let storage_layout := storage_layouts address in
    let mapping_slots := mapping_slots ≫= (λ m, m address) in
    foldl (λ d '(slot, value), insert_storage_value slot value storage_layout mapping_slots d) d
      (storage account)
  else d.

Definition insert_new_state_values (state_changeset : list (Z * Account))
    (storage_layouts : Z → option Layout) (mapping_slots : option (Z → option MappingSlots))
    (d : FuzzDictionary) : FuzzDictionary :=
  foldl (insert_new_state_account storage_layouts mapping_slots) d state_changeset.

Definition revert (d : FuzzDictionary) : FuzzDictionary :=
  set_addresses (take (db_addresses d) (addresses d))
    (set_values (take (db_state_values d) (state_values d)) (misses d) (hits d) d).

(** ** [EvmFuzzState] *)

Record EvmFuzzState := mkState {
  inner : FuzzDictionary;
  deployed_libs : list Z;
  mapping_slots : option (Z → option MappingSlots);
}.

Definition EvmFuzzState_new (random : Z) (libs : list Z) (accounts : list (Z * Account))
    (c : FuzzDictionaryConfig) (literals : option LiteralMaps) (no_reserved : bool)
    : EvmFuzzState :=
  let dictionary :=
    insert_db_values random (sort_keys accounts) (FuzzDictionary_new c no_reserved) in
  mkState (match literals with Some l => set_literals l dictionary | None => dictionary end)
    libs None.

Definition collect_values (values : list Z) (s : EvmFuzzState) : EvmFuzzState :=
  mkState (foldl (λ d v, put v d) (inner s) values) (deployed_libs s) (mapping_slots s).

(** What a call returned and did, and the depth of the run. *)
Record CallResult := mkCall {
  output : list Z;
  logs : list Log;
  state_changeset : list (Z * Account);
}.

(** [target_abi], [target_function] and the layouts are those of the targeted
    contracts for the call. *)
Definition collect_values_from_call (target_abi : option Abi) (target_function : option Function)
    (storage_layouts : Z → option Layout) (call : CallResult) (run_depth : Z) (s : EvmFuzzState)
    : EvmFuzzState :=
  let d := insert_logs_values target_abi (logs call) run_depth (inner s) in
  let d := insert_result_values target_function (output call) run_depth d in
  let d := insert_new_state_values (state_changeset call) storage_layouts (mapping_slots s) d in
  mkState d (deployed_libs s) (mapping_slots s).

Definition state_revert (s : EvmFuzzState) : EvmFuzzState :=
  mkState (revert (inner s)) (deployed_libs s) (mapping_slots s).
End dictionary.

(** ** Growth

    Everything that collects values only appends: the entries that were there
    keep their positions, and the settings and the recorded sizes stay. *)
Record grows (d d' : FuzzDictionary) : Prop := {
  grows_values : state_values d `prefix_of` state_values d';
  grows_addresses : addresses d `prefix_of` addresses d';
  grows_config : config d' = config d;
  grows_db : db_state_values d' = db_state_values d ∧ db_addresses d' = db_addresses d;
  grows_literals : literal_values d' = literal_values d;
  grows_reserved : no_zksync_reserved_addresses d' = no_zksync_reserved_addresses d;
}.

#[export] Instance grows_preorder : PreOrder grows.
Proof.
  split.
  - by intros d; split.
  - intros d1 d2 d3 [V A C [D1 D2] L R] [V' A' C' [D1' D2'] L' R']. split; try split; try congruence.
    + by etrans.
    + by etrans.
Qed.

(** What is kept: no duplicates, the limits, words of 32 bytes, and no empty
    set of samples, which an index could not be taken in. *)
Definition good_set (l : list Z) : Prop := l ≠ [] ∧ NoDup l ∧ Forall (in_u 256) l.
Record dict_wf (d : FuzzDictionary) : Prop := {
  wf_values_NoDup : NoDup (state_values d);
  wf_addresses_NoDup : NoDup (addresses d);
  wf_values_limit : Z.of_nat (length (state_values d)) <= Z.max 0 (max_fuzz_dictionary_values (config d));
  wf_addresses_limit :
    Z.of_nat (length (addresses d)) <= Z.max 0 (max_fuzz_dictionary_addresses (config d));
  wf_values_u : Forall (in_u 256) (state_values d);
  wf_samples : map_Forall (λ _, good_set) (sample_values d);
  wf_words : map_Forall (λ _, good_set) (words (literal_values d));
}.

(** One operation: it grows the dictionary and keeps it well formed. *)
Definition collects (d d' : FuzzDictionary) : Prop := grows d d' ∧ (dict_wf d → dict_wf d').

#[export] Instance collects_preorder : PreOrder collects.
Proof.
  split.
  - intros d. by split.
  - intros d1 d2 d3 [G W] [G' W']. split; [by etrans|auto].
Qed.

Lemma collects_foldl {A} (f : FuzzDictionary → A → FuzzDictionary) (P : A → Prop) d l :
  (∀ d x, P x → collects d (f d x)) → Forall P l → collects d (foldl f d l).
Proof.
  intros Hf Hl. revert d. induction Hl as [|x l Hx _ IH]; intros d; cbn [foldl]; [done|].
  etrans; [by apply Hf|apply IH].
Qed.

Lemma good_set_insert x l : in_u 256 x → NoDup l → Forall (in_u 256) l → good_set (ix_insert x l).
Proof.
  intros Hx Hn Hl. split_and!; [|by apply ix_insert_NoDup|].
  - intros He. assert (x ∈ ix_insert x l) as Hin by (apply elem_of_ix_insert; by left).
    rewrite He in Hin. by apply not_elem_of_nil in Hin.
  - rewrite Forall_forall in *. intros y [->|Hy]%elem_of_ix_insert; auto.
Qed.

Lemma put_collects v d : in_u 256 v → collects d (put v d).
Proof.
  intros Hv. unfold put, insert_value. destruct (values_full d) eqn:Hf; [done|]. split.
  - split; try done. by apply ix_insert_prefix.
  - intros [VN AN VL AL VU S W]. split; cbn; try done.
    + by apply ix_insert_NoDup.
    + unfold values_full in Hf. apply Z.leb_gt in Hf.
      pose proof (ix_insert_length v (state_values d)). lia.
    + by apply good_set_insert.
Qed.

Lemma put_u256_collects v d : in_u 256 v → collects d (put_u256 v d).
Proof.
  intros Hv. unfold put_u256, insert_value_u256.
  destruct (insert_value v d) as [a d1] eqn:H1.
  destruct (insert_value (wrap 256 (v - 1)) d1) as [b d2] eqn:H2.
  destruct (insert_value (wrap 256 (v + 1)) d2) as [c d3] eqn:H3.
  change d1 with (a, d1).2 in H2 |- *. cbn [snd]. rewrite <-H1 in *.
  assert (d2 = put (wrap 256 (v - 1)) (put v d)) as ->.
  { unfold put. by rewrite H2. }
  assert (d3 = put (wrap 256 (v + 1)) (put (wrap 256 (v - 1)) (put v d))) as ->.
  { unfold put at 1. by rewrite H3. }
  do 2 (etrans; [|apply put_collects, wrap_in_u; lia]). by apply put_collects.
Qed.

Lemma insert_address_collects a d : collects d (insert_address a d).
Proof.
  unfold insert_address. z_case; [|done]. split.
  - split; try done. by apply ix_insert_prefix.
  - intros [VN AN VL AL VU S W]. split; cbn; try done; [by apply ix_insert_NoDup|].
    pose proof (ix_insert_length a (addresses d)). lia.
Qed.

Lemma ensure_seeded_collects d : collects d (ensure_seeded d).
Proof.
  unfold ensure_seeded. destruct (samples_seeded d); [done|]. split; [by split|].
  intros [VN AN VL AL VU S W]. split; try done. by apply map_Forall_union_2.
Qed.

Lemma add_sample_collects ty v d : in_u 256 v → collects d (add_sample ty v d).
Proof.
  intros Hv. split; [by split|]. intros [VN AN VL AL VU S W]. split; try done.
  apply map_Forall_insert_2; [|done].
  destruct (sample_values d !! ty) as [l|] eqn:Hl; cbn [default].
  - destruct (S _ _ Hl) as (_ & ? & ?). by apply good_set_insert.
  - apply good_set_insert; [done|apply NoDup_nil_2|constructor].
Qed.

Section collecting.
Context (as_type : DynSolValue → option DynSolType) (as_word : DynSolValue → option Z)
  (as_word_u : ∀ v w, as_word v = Some w → in_u 256 w)
  (is_cbor : list Z → bool)
  {Layout MappingSlots : Type} (slot_type : Layout → option MappingSlots → Z → Z → option DynSolType)
  {Abi Function : Type} (decode_log : Abi → Log → option (list DynSolValue))
  (outputs_empty : Function → bool)
  (abi_decode_output : Function → list Z → option (list DynSolValue)).

Lemma insert_sample_collects limit d v : collects d (insert_sample as_type as_word limit d v).
Proof.
  unfold insert_sample. destruct (as_type v) as [ty|]; [|done].
  destruct (as_word v) as [w|] eqn:Hw; [|done]. apply as_word_u in Hw.
  destruct (sample_values d !! ty) as [l|] eqn:Hl; [|by apply add_sample_collects].
  z_case; [|by apply put_collects].
  replace (ix_insert w l) with (ix_insert w (default [] (sample_values d !! ty))) by by rewrite Hl.
  by apply add_sample_collects.
Qed.

Lemma insert_sample_values_collects l limit d :
  collects d (insert_sample_values as_type as_word l limit d).
Proof.
  unfold insert_sample_values. etrans; [apply ensure_seeded_collects|].
  apply (collects_foldl _ (λ _, True)); [|by apply Forall_true].
  intros d' v _. apply insert_sample_collects.
Qed.

(** The immediate data of an instruction is at most 32 bytes of the code. *)
Lemma next_immediate l inst rest :
  next l = Some (inst, rest) → Forall (in_u 8) l →
  (length (immediate inst) ≤ 32)%nat ∧ Forall (in_u 8) (immediate inst) ∧ Forall (in_u 8) rest.
Proof.
  intros Hn Hl. destruct l as [|op l]; [done|]. apply Forall_cons in Hl as [Hop Hl].
  unfold next, split_at_checked in Hn. destruct (Z.leb_spec (imm_len op) (Z.of_nat (length l))).
  - cbn in Hn. injection Hn as <- <-. cbn [immediate]. rewrite length_take.
    split_and!; [|by apply Forall_take|by apply Forall_drop].
    unfold imm_len, is_push. destruct (_ && _) eqn:Hp; [|simpl; lia].
    apply andb_true_iff in Hp as [_ Hp%Z.leb_le]. unfold PUSH0, PUSH32 in *. lia.
  - cbn in Hn. injection Hn as <- <-. cbn. split_and!; [lia|constructor|constructor].
Qed.

Lemma instructions_immediate code :
  Forall (in_u 8) code →
  Forall (λ i, (length (immediate i) ≤ 32)%nat ∧ Forall (in_u 8) (immediate i)) (instructions code).
Proof.
  unfold instructions, with_pc. generalize 0 (length code). intros pc fuel. revert pc code.
  induction fuel as [|fuel IH]; intros pc code Hc; cbn [collect_fuel]; [constructor|].
  unfold next_with_pc. cbn [fst snd]. destruct (next code) as [[inst rest]|] eqn:Hn; [|constructor].
  cbn. apply next_immediate in Hn as (? & ? & ?); [|done]. constructor; [done|]. by apply IH.
Qed.

Lemma push_value_u inst v :
  (length (immediate inst) ≤ 32)%nat → Forall (in_u 8) (immediate inst) →
  push_value inst = Some v → in_u 256 v.
Proof.
  unfold push_value. intros Hl Hb Hv. destruct (immediate inst) as [|b imm] eqn:Hi; [done|].
  rewrite <-Hi in *. revert Hv. cbv zeta. z_case; [done|]. intros [= <-].
  apply of_be_bytes_bound in Hb.
  assert (256 ^ Z.of_nat (length (immediate inst)) <= 256 ^ 32) by (apply Z.pow_le_mono_r; lia).
  change (256 ^ 32) with (2 ^ 256) in *. unfold in_u, umax. lia.
Qed.

Lemma collect_push_bytes_collects code d :
  Forall (in_u 8) code → collects d (collect_push_bytes code d).
Proof.
  intros Hc. unfold collect_push_bytes. cbv zeta.
  eapply collects_foldl; [|apply instructions_immediate, Forall_take, Hc].
  intros d' inst [Hl Hb]. cbn beta. destruct (push_value inst) as [v|] eqn:Hv; [|done].
  by eapply put_u256_collects, push_value_u.
Qed.

Lemma ignore_metadata_hash_bytes code :
  Forall (in_u 8) code → Forall (in_u 8) (ignore_metadata_hash is_cbor code).
Proof. intros Hc. unfold ignore_metadata_hash. case_match; [by apply Forall_take|done]. Qed.

Lemma insert_push_bytes_collects address code d :
  (∀ c, code = Some c → Forall (in_u 8) c) →
  collects d (insert_push_bytes_values is_cbor address code d).
Proof.
  intros Hc. unfold insert_push_bytes_values. case_match; [|done].
  destruct code as [code|]; [|done]. cbv zeta. etrans; [apply insert_address_collects|].
  case_match; [done|]. apply collect_push_bytes_collects, ignore_metadata_hash_bytes. by apply Hc.
Qed.

Lemma insert_storage_value_collects slot value layout ms d :
  in_u 256 slot → in_u 256 value → collects d (insert_storage_value slot_type slot value layout ms d).
Proof.
  intros Hs Hv. unfold insert_storage_value. cbv zeta. etrans; [by apply (put_collects slot)|].
  case_match; [|by apply put_u256_collects].
  etrans; [apply ensure_seeded_collects|]. by apply add_sample_collects.
Qed.

(** An account of the state: its address, code and storage are in range. *)
Definition account_ok (entry : Z * Account) : Prop :=
  in_u 160 entry.1 ∧ (∀ c, code entry.2 = Some c → Forall (in_u 8) c) ∧
  Forall (λ kv, in_u 256 kv.1 ∧ in_u 256 kv.2) (storage entry.2).

Lemma address_u a : in_u 160 a → in_u 256 a.
Proof. width_lia. Qed.

(** Both ways of inserting an account: the common part. *)
Lemma insert_account_collects layout ms entries d entry :
  account_ok entry → entries ≡ₚ storage entry.2 →
  collects d
    (let d := put entry.1 d in
     let d := insert_push_bytes_values is_cbor entry.1 (code entry.2) d in
     if include_storage (config d) then
       foldl (λ d '(slot, value), insert_storage_value slot_type slot value layout ms d) d entries
     else d).
Proof.
  intros (Ha & Hc & Hs) Hp. cbv zeta. etrans; [apply put_collects, address_u, Ha|].
  etrans; [by apply insert_push_bytes_collects|]. case_match; [|done].
  rewrite <-Hp in Hs. eapply collects_foldl; [|exact Hs].
  intros d' [slot value] [Hk Hv]. by apply insert_storage_value_collects.
Qed.

Lemma insert_db_account_collects d entry :
  account_ok entry → collects d (insert_db_account is_cbor slot_type d entry).
Proof.
  intros Hok. destruct entry as [address account].
  apply (insert_account_collects None None (sort_keys (storage account)) d (address, account) Hok).
  apply merge_sort_Permutation.
Qed.

Lemma insert_new_state_values_collects changes layouts ms d :
  Forall account_ok changes →
  collects d (insert_new_state_values is_cbor slot_type changes layouts ms d).
Proof.
  intros Hok. eapply collects_foldl; [|exact Hok]. intros d' [address account] Ha.
  by apply (insert_account_collects (layouts address) (ms ≫= (λ m, m address)) (storage account) d' (address, account)).
Qed.

Lemma chunks_exact_bytes fuel l chunks rem :
  chunks_exact fuel l = (chunks, rem) → (length l ≤ fuel)%nat → Forall (in_u 8) l →
  Forall (λ c, length c = 32%nat ∧ Forall (in_u 8) c) chunks ∧
  (length rem < 32)%nat ∧ Forall (in_u 8) rem ∧ mjoin chunks ++ rem = l.
Proof.
  revert l chunks. induction fuel as [|fuel IH]; intros l chunks; cbn [chunks_exact].
  - intros [= <- <-] Hl Hb. destruct l; [|simpl in Hl; lia]. simpl. split_and!; [constructor|lia|done|done].
  - destruct (Nat.ltb_spec (length l) 32); [intros [= <- <-] _ Hb; simpl; by split_and!|].
    destruct (chunks_exact fuel (drop 32 l)) as [cs r] eqn:Hc. intros [= <- <-] Hl Hb.
    apply IH in Hc as (H1 & H2 & H3 & H4); [|rewrite length_drop; lia|by apply Forall_drop].
    split_and!; [|done|done|].
    + constructor; [|done]. rewrite length_take. split; [lia|by apply Forall_take].
    + change (mjoin (take 32 l :: cs)) with (take 32 l ++ mjoin cs).
      by rewrite <-app_assoc, H4, take_drop.
Qed.

Lemma word_u l : length l = 32%nat → Forall (in_u 8) l → in_u 256 (of_be_bytes l).
Proof.
  intros Hl Hb. apply of_be_bytes_bound in Hb. rewrite Hl in Hb.
  change (256 ^ Z.of_nat 32) with (2 ^ 256) in Hb. unfold in_u, umax. lia.
Qed.

Definition log_ok (l : Log) : Prop := Forall (in_u 256) (topics l) ∧ Forall (in_u 8) (data l).

Lemma insert_raw_log_collects l d : log_ok l → collects d (insert_raw_log l d).
Proof.
  intros [Ht Hd]. unfold insert_raw_log.
  destruct (chunks_exact _ _) as [chunks rem] eqn:Hc.
  apply chunks_exact_bytes in Hc as (Hcs & Hr & Hrb & _); [|done|done].
  etrans; [apply (collects_foldl (λ d t, put t d) (in_u 256) _ _ ltac:(intros; by apply put_collects) Ht)|].
  etrans; [eapply collects_foldl; [|exact Hcs]; intros d' c [Hl Hb]; by apply put_collects, word_u|].
  case_decide; [done|]. apply put_collects, word_u.
  - rewrite length_app, length_replicate. lia.
  - apply Forall_app. split; [done|]. apply Forall_replicate. width_lia.
Qed.

Lemma insert_logs_values_collects abi ls depth d :
  Forall log_ok ls → collects d (insert_logs_values as_type as_word decode_log abi ls depth d).
Proof.
  intros Hls. unfold insert_logs_values.
  match goal with |- context [foldl ?f ([], d) ls] => set (step := f) end.
  assert (Hstep : ∀ ls acc d, Forall log_ok ls → collects d (foldl step (acc, d) ls).2).
  { clear. intros ls. induction ls as [|l ls IH]; intros acc d Hls; cbn [foldl]; [done|].
    apply Forall_cons in Hls as [Hl Hls]. unfold step at 2. case_match; [by apply IH|].
    etrans; [by apply insert_raw_log_collects|by apply IH]. }
  specialize (Hstep ls [] d Hls). destruct (foldl step ([], d) ls) as [sm d'].
  etrans; [exact Hstep|]. apply insert_sample_values_collects.
Qed.

Lemma insert_result_values_collects f res depth d :
  collects d (insert_result_values as_type as_word outputs_empty abi_decode_output f res depth d).
Proof.
  unfold insert_result_values. destruct f as [f|]; [|done]. case_match; [|done].
  case_match; [|done]. apply insert_sample_values_collects.
Qed.
End collecting.

(** ** Single operations *)

(** A full set is left alone: nothing is ever evicted. *)
Lemma insert_value_spec v d :
  (values_full d = true → insert_value v d = (false, d)) ∧
  (values_full d = false → ∃ d', insert_value v d = (true, d') ∧ v ∈ state_values d' ∧
     ∀ x, x ∈ state_values d' ↔ x = v ∨ x ∈ state_values d).
Proof.
  unfold insert_value. split; intros ->; [done|]. eexists. split; [done|]. cbn.
  split; [by apply elem_of_ix_insert; left|]. intros x. apply elem_of_ix_insert.
Qed.

(** ** Runs *)

Section runs.
Context (as_type : DynSolValue → option DynSolType) (as_word : DynSolValue → option Z)
  (as_word_u : ∀ v w, as_word v = Some w → in_u 256 w)
  (is_cbor : list Z → bool)
  {Layout MappingSlots : Type} (slot_type : Layout → option MappingSlots → Z → Z → option DynSolType)
  {Abi Function : Type} (decode_log : Abi → Log → option (list DynSolValue))
  (outputs_empty : Function → bool)
  (abi_decode_output : Function → list Z → option (list DynSolValue)).

(** A call of a run, with what is known of its target. *)
Record FuzzCall := mkFuzzCall {
  fc_abi : option Abi;
  fc_function : option Function;
  fc_layouts : Z → option Layout;
  fc_call : CallResult;
  fc_depth : Z;
}.

Definition collect_call (s : EvmFuzzState) (c : FuzzCall) : EvmFuzzState :=
  collect_values_from_call as_type as_word is_cbor slot_type decode_log outputs_empty
    abi_decode_output (fc_abi c) (fc_function c) (fc_layouts c) (fc_call c) (fc_depth c) s.

(** The calls of a run, then the revert between runs. *)
Definition fuzz_run (s : @EvmFuzzState MappingSlots) (calls : list FuzzCall) : EvmFuzzState :=
  state_revert (foldl collect_call s calls).

Definition call_ok (c : FuzzCall) : Prop :=
  Forall account_ok (state_changeset (fc_call c)) ∧ Forall log_ok (logs (fc_call c)).

Lemma collect_call_collects s c : call_ok c → collects (inner s) (inner (collect_call s c)).
Proof.
  intros [Ha Hl]. unfold collect_call, collect_values_from_call. cbn [inner].
  etrans; [by apply insert_logs_values_collects|].
  etrans; [by apply insert_result_values_collects|].
  by apply insert_new_state_values_collects.
Qed.

Lemma collect_calls_collects s calls :
  Forall call_ok calls → collects (inner s) (inner (foldl collect_call s calls)).
Proof.
  intros Hc. revert s. induction Hc as [|c calls Hc _ IH]; intros s; cbn [foldl]; [done|].
  etrans; [by apply collect_call_collects|apply IH].
Qed.

(** The recorded sizes are the sizes: nothing of a run is left. *)
Definition fresh_state (d : FuzzDictionary) : Prop :=
  db_state_values d = length (state_values d) ∧ db_addresses d = length (addresses d).

Lemma revert_grown d d' :
  grows d d' → fresh_state d →
  state_values (revert d') = state_values d ∧ addresses (revert d') = addresses d ∧
  fresh_state (revert d').
Proof.
  intros [[v Hv] [a Ha] _ [Hd1 Hd2] _ _] [Hf1 Hf2]. unfold fresh_state, revert. cbn.
  rewrite Hd1, Hd2, Hf1, Hf2, Hv, Ha, !take_app_length. done.
Qed.

Lemma revert_wf d : dict_wf d → dict_wf (revert d).
Proof.
  intros [VN AN VL AL VU S W]. split; cbn; try done.
  - eapply sublist_NoDup; [exact VN|apply sublist_take].
  - eapply sublist_NoDup; [exact AN|apply sublist_take].
  - rewrite length_take. lia.
  - rewrite length_take. lia.
  - by apply Forall_take.
Qed.

Lemma fuzz_run_restores s calls :
  Forall call_ok calls → fresh_state (inner s) →
  state_values (inner (fuzz_run s calls)) = state_values (inner s) ∧
  addresses (inner (fuzz_run s calls)) = addresses (inner s) ∧
  fresh_state (inner (fuzz_run s calls)) ∧
  config (inner (fuzz_run s calls)) = config (inner s) ∧
  (dict_wf (inner s) → dict_wf (inner (fuzz_run s calls))).
Proof.
  intros Hc Hf. destruct (collect_calls_collects s calls Hc) as [G W].
  destruct (revert_grown _ _ G Hf) as (H1 & H2 & H3). unfold fuzz_run, state_revert. cbn [inner].
  split_and!; [done|done|done| |by intros Hw; apply revert_wf, W].
  apply (grows_config _ _ G).
Qed.

Lemma new_dictionary c nr :
  collects (mkDictionary [] [] c 0 0 ∅ nr no_literals false 0 0) (FuzzDictionary_new c nr).
Proof. apply put_collects. width_lia. Qed.

Lemma empty_wf c nr : dict_wf (mkDictionary [] [] c 0 0 ∅ nr no_literals false 0 0).
Proof.
  split; cbn; [apply NoDup_nil_2|apply NoDup_nil_2|lia|lia|constructor|apply map_Forall_empty..].
Qed.

(** The dictionary of a new state. *)
Lemma new_state random libs accounts c literals nr :
  let s := EvmFuzzState_new (MappingSlots := MappingSlots) is_cbor slot_type random libs accounts c literals nr in
  in_u 160 random → Forall account_ok accounts →
  (∀ l, literals = Some l → map_Forall (λ _, good_set) (words l)) →
  fresh_state (inner s) ∧ dict_wf (inner s) ∧ config (inner s) = c ∧
  (0 < max_fuzz_dictionary_values c → 0 ∈ state_values (inner s)).
Proof.
  intros s Hr Ha Hl. unfold s, EvmFuzzState_new, insert_db_values. clear s. cbn [inner].
  set (d0 := FuzzDictionary_new c nr).
  set (d1 := foldl (insert_db_account is_cbor slot_type) d0 (sort_keys accounts)).
  assert (H01 : collects d0 d1).
  { apply (collects_foldl _ account_ok).
    - intros d e He. by apply insert_db_account_collects.
    - unfold sort_keys. by rewrite merge_sort_Permutation. }
  set (d2 := if decide (state_values d1 = []) then put random d1 else d1).
  assert (H12 : collects d1 d2).
  { unfold d2. case_decide; [by apply put_collects, address_u|done]. }
  assert (H02 : collects d0 d2) by (by etrans).
  pose proof (new_dictionary c nr) as Hn. fold d0 in Hn.
  assert (Hall : collects (mkDictionary [] [] c 0 0 ∅ nr no_literals false 0 0) d2) by (by etrans).
  destruct Hall as [G W]. specialize (W (empty_wf c nr)).
  assert (Hwf : ∀ o : option LiteralMaps,
    (∀ l, o = Some l → map_Forall (λ _, good_set) (words l)) →
    let d := match o with
             | Some l => set_literals l (set_db (length (state_values d2)) (length (addresses d2)) d2)
             | None => set_db (length (state_values d2)) (length (addresses d2)) d2
             end in
    fresh_state d ∧ dict_wf d ∧ config d = c ∧ state_values d = state_values d2).
  { intros o Ho. destruct W as [VN AN VL AL VU S W]. pose proof (grows_config _ _ G).
    destruct o as [l|]; cbv zeta; (split_and!; [by split| |done|done]); split; try done.
    by apply Ho. }
  destruct (Hwf literals Hl) as (H1 & H2 & H3 & H4). split_and!; [done..|].
  intros Hmax. rewrite H4. destruct H02 as [[[v Hv] _ _ _ _ _] _]. rewrite Hv.
  apply elem_of_app. left. unfold d0, FuzzDictionary_new, prefill, put, insert_value, values_full.
  cbn [config state_values length]. rewrite (proj2 (Z.leb_gt _ _)) by (simpl; lia).
  cbn. apply elem_of_ix_insert. by left.
Qed.

(** C33: After any number of runs the dictionary has exactly the values and the
    addresses of the state the test started from, whatever the calls of the
    runs left; it has no duplicates, keeps its limits, and offers a value and
    no empty set of samples to the generators. *)
Theorem runs_leave_no_trace random libs accounts c literals nr runs :
  let s := EvmFuzzState_new is_cbor slot_type random libs accounts c literals nr in
  in_u 160 random → Forall account_ok accounts →
  (∀ l, literals = Some l → map_Forall (λ _, good_set) (words l)) →
  Forall (Forall call_ok) runs →
  let s' := foldl fuzz_run s runs in
  state_values (inner s') = state_values (inner s) ∧
  addresses (inner s') = addresses (inner s) ∧
  dict_wf (inner s') ∧
  (0 < max_fuzz_dictionary_values c → 0 ∈ state_values (inner s')).
Proof.
  intros s Hr Ha Hl Hruns s'.
  destruct (new_state random libs accounts c literals nr Hr Ha Hl) as (Hf & Hw & Hc & H0).
  fold s in Hf, Hw, Hc, H0.
  cut (state_values (inner s') = state_values (inner s) ∧ addresses (inner s') = addresses (inner s) ∧
       dict_wf (inner s')).
  { intros (-> & -> & Hw'). by split_and!. }
  unfold s'. clear s'. clearbody s. clear Hc H0. revert s Hf Hw.
  induction Hruns as [|calls runs Hc _ IH]; intros s Hf Hw; cbn [foldl]; [done|].
  destruct (fuzz_run_restores s calls Hc Hf) as (Hv & Had & Hf' & _ & Hw').
  destruct (IH _ Hf' (Hw' Hw)) as (-> & -> & ?). done.
Qed.

(** ** Samples *)

(** A set of samples that is there only grows up to the limit; what does
    not fit goes to the state values, which the revert removes. *)
Theorem samples_limited ty l vs limit d l' :
  samples_seeded d = true → sample_values d !! ty = Some l →
  sample_values (insert_sample_values as_type as_word vs limit d) !! ty = Some l' →
  l `prefix_of` l' ∧ Z.of_nat (length l') <= Z.max limit (Z.of_nat (length l)).
Proof.
  unfold insert_sample_values, ensure_seeded. intros ->.
  revert d l. induction vs as [|v vs IH]; intros d l Hl; cbn [foldl].
  { rewrite Hl. intros [= <-]. split; [done|lia]. }
  intros Hl'. cut (∃ l1, sample_values (insert_sample as_type as_word limit d v) !! ty = Some l1 ∧
    l `prefix_of` l1 ∧ Z.of_nat (length l1) <= Z.max limit (Z.of_nat (length l))).
  { intros (l1 & H1 & Hp & Hlen). destruct (IH _ _ H1 Hl') as [Hp' Hlen']. split; [by etrans|lia]. }
  unfold insert_sample. destruct (as_type v) as [ty'|]; [|eauto with lia].
  destruct (as_word v) as [w|]; [|eauto with lia].
  destruct (decide (ty' = ty)) as [->|Hne].
  - rewrite Hl. destruct (Z.ltb_spec (Z.of_nat (length l)) limit).
    + exists (ix_insert w l). cbn. rewrite lookup_insert_eq. split_and!; [done|by apply ix_insert_prefix|].
      pose proof (ix_insert_length w l). lia.
    + exists l. unfold put, insert_value. destruct (values_full d); cbn; eauto with lia.
  - exists l. split_and!; [|done|lia]. destruct (sample_values d !! ty') as [l0|].
    + z_case; [cbn; by rewrite lookup_insert_ne|].
      unfold put, insert_value. by destruct (values_full d).
    + cbn. by rewrite lookup_insert_ne.
Qed.
End runs.

(** ** Concrete runs *)

Definition ex_as_type (v : DynSolValue) : option DynSolType :=
  match v with VUint _ n => Some (TUint n) | VAddress _ => Some TAddress | _ => None end.
Definition ex_as_word (v : DynSolValue) : option Z :=
  match v with VUint x _ | VAddress x => Some (wrap 256 x) | _ => None end.
Lemma ex_as_word_u v w : ex_as_word v = Some w → in_u 256 w.
Proof. destruct v; simpl; try done; intros [= <-]; apply wrap_in_u; lia. Qed.

(** Every slot of a contract with a layout is a [uint256]; nothing is CBOR; a
    log is one [uint256], a result another one. *)
Definition ex_slot (_ : unit) (_ : option unit) (_ _ : Z) : option DynSolType := Some (TUint 256).
Definition ex_cbor (_ : list Z) : bool := false.
Definition ex_log (_ : unit) (l : Log) : option (list DynSolValue) :=
  match topics l with [t] => Some [VUint t 256] | _ => None end.
Definition ex_output (_ : unit) (r : list Z) : option (list DynSolValue) :=
  Some [VUint (of_be_bytes r) 256].

Definition ex_config : FuzzDictionaryConfig := mkConfig 40 true true 2 12 12.
(** [PUSH1 7] with a storage of one slot. *)
Definition ex_accounts : list (Z * Account) := [(9, mkAccount (Some [96; 7]) [(1, 3)])].
Definition ex_call : FuzzCall (Layout := unit) (Abi := unit) (Function := unit) :=
  mkFuzzCall (Some tt) (Some tt) (λ _, Some tt)
    (mkCall [5] [mkLog [11] []; mkLog [21; 22] [1; 2]] [(4, mkAccount (Some [97; 1; 2]) [(2, 6)])]) 1.

Lemma Forall_in_u_dec w l :
  forallb (λ x, (0 <=? x) && (x <=? umax w)) l = true → Forall (in_u w) l.
Proof.
  rewrite forallb_forall. intros Hl. apply Forall_forall. intros x Hx.
  apply list_elem_of_In, Hl, andb_true_iff in Hx as [?%Z.leb_le ?%Z.leb_le]. by split.
Qed.

Lemma ex_accounts_ok : Forall account_ok ex_accounts.
Proof.
  constructor; [|constructor]. split_and!; cbn; [width_lia| |].
  - intros c [= <-]. by apply Forall_in_u_dec.
  - constructor; [|constructor]. split; cbn; width_lia.
Qed.

Lemma ex_call_ok : call_ok ex_call.
Proof.
  split; cbn.
  - constructor; [|constructor]. split_and!; cbn; [width_lia| |].
    + intros c [= <-]. by apply Forall_in_u_dec.
    + constructor; [|constructor]. split; cbn; width_lia.
  - repeat (constructor; [split; by apply Forall_in_u_dec|]). constructor.
Qed.

Abbreviation ex_new := (EvmFuzzState_new ex_cbor ex_slot 77 [] ex_accounts ex_config None false).
Abbreviation ex_run := (fuzz_run ex_as_type ex_as_word ex_cbor ex_slot ex_log (λ _, false) ex_output).

(** The zero that is always there, the account with its pushed value and the
    neighbours of that value, its slot and the value of the slot. *)
Example new_collects :
  state_values (inner ex_new) = [0; 9; 7; 6; 8; 1; 3; 2; 4] ∧ addresses (inner ex_new) = [9].
Proof. split; vm_compute; reflexivity. Qed.

Lemma runs_leave_no_trace_witness :
  Forall account_ok ex_accounts ∧ Forall (Forall call_ok) [[ex_call]; [ex_call; ex_call]] ∧
  state_values (inner (foldl ex_run ex_new [[ex_call]; [ex_call; ex_call]])) =
    state_values (inner ex_new).
Proof.
  assert (Hr : in_u 160 77) by width_lia.
  assert (Hruns : Forall (Forall call_ok) [[ex_call]; [ex_call; ex_call]]).
  { repeat (exact ex_call_ok || apply Forall_cons_2 || apply Forall_nil_2). }
  assert (Hl : ∀ l : LiteralMaps, None = Some l → map_Forall (λ _, good_set) (words l)) by done.
  split; [exact ex_accounts_ok|]. split; [exact Hruns|].
  exact (proj1 (runs_leave_no_trace ex_as_type ex_as_word ex_as_word_u ex_cbor ex_slot ex_log
    (λ _, false) ex_output 77 [] ex_accounts ex_config None false _ Hr ex_accounts_ok Hl Hruns)).
Defined.

Definition ex_sampled : FuzzDictionary :=
  set_samples {[TUint 256 := [1; 2]]} true (FuzzDictionary_new ex_config false).

Lemma samples_limited_witness :
  sample_values (insert_sample_values ex_as_type ex_as_word [VUint 3 256; VUint 4 256] 3 ex_sampled)
    !! TUint 256 = Some [1; 2; 3] ∧ [1; 2] `prefix_of` [1; 2; 3] ∧ 3 <= Z.max 3 2.
Proof.
  assert (H2 : sample_values ex_sampled !! TUint 256 = Some [1; 2]) by (vm_compute; reflexivity).
  assert (H3 : sample_values
      (insert_sample_values ex_as_type ex_as_word [VUint 3 256; VUint 4 256] 3 ex_sampled)
      !! TUint 256 = Some [1; 2; 3]) by (vm_compute; reflexivity).
  split; [exact H3|].
  exact (samples_limited ex_as_type ex_as_word (TUint 256) [1; 2] [VUint 3 256; VUint 4 256] 3
    ex_sampled [1; 2; 3] eq_refl H2 H3).
Defined.

(** ** Where the code does not do what it says *)

(** The values of the state of a call are said to be removed at the end of the
    run; a value of a slot with a known type is a sample, and stays. *)
Example typed_value_survives :
  sample_values (inner (ex_run ex_new [ex_call])) !! TUint 256 = Some [11; 6] ∧
  sample_values (inner ex_new) = ∅.
Proof. split; vm_compute; reflexivity. Qed.

(** The values pushed by the code of an address are said to be collected once;
    an address that no longer fits is not remembered, and its code is read
    again by every call: the hits grow. *)
Example full_addresses_read_again :
  let d := set_addresses [100; 200] (FuzzDictionary_new ex_config false) in
  let once := insert_push_bytes_values ex_cbor 9 (Some [96; 7]) d in
  let twice := insert_push_bytes_values ex_cbor 9 (Some [96; 7]) once in
  (hits once, hits twice, addresses twice) = (0, 3, [100; 200]).
Proof. vm_compute. reflexivity. Qed.

(** With a limit of zero the dictionary stays empty, although an address is
    inserted in order to have a value to select. *)
Example no_value_with_limit_zero :
  state_values (inner (EvmFuzzState_new (MappingSlots := unit) ex_cbor ex_slot 77 [] []
    (mkConfig 40 true true 2 0 0) None false)) = [].
Proof. vm_compute. reflexivity. Qed.
