(* ===== verification/FuzzParam.v ===== *)
(** * Generating and mutating inputs

    Models [crates/evm/fuzz/src/strategies/param.rs] and [calldata.rs] with the
    fixtures of [crates/evm/fuzz/src/lib.rs] and the safe addresses of
    [crates/zksync/core/src/lib.rs]: the inputs of a fuzzed call, drawn from
    scratch, from fixtures or from the fuzz dictionary, and their mutation.  A
    strategy is the computation of the value that its first tree holds. *)
From S2P Require Import Prelude ValueTrees DynSol Mutators FuzzDict.
From stdpp Require Import strings.
Local Open Scope Z_scope.

Abbreviation DynSolValue := DynSol.DynSolValue.

Definition MAX_ARRAY_LEN : nat := 256.

(** ** Addresses *)

Definition MIN_VALID_ADDRESS : Z := 2 ^ 16.
Definition is_system_address (address : Z) : bool := address <? MIN_VALID_ADDRESS.
Definition to_safe_address (address : Z) : Z :=
  if is_system_address address
  then wrap 160 (u_saturating_add 256 address MIN_VALID_ADDRESS) else address.

Lemma to_safe_address_spec a :
  in_u 160 a →
  in_u 160 (to_safe_address a) ∧ is_system_address (to_safe_address a) = false ∧
  (is_system_address a = false → to_safe_address a = a).
Proof.
  intros Ha. unfold to_safe_address. destruct (is_system_address a) eqn:Hs.
  - unfold is_system_address, MIN_VALID_ADDRESS in *. apply Z.ltb_lt in Hs.
    assert (Hadd : u_saturating_add 256 a (2 ^ 16) = a + 2 ^ 16) by (revert Ha; unfold u_saturating_add; width_lia).
    rewrite Hadd, wrap_id by (revert Ha; width_lia). split_and!; [revert Ha; width_lia| |done].
    apply Z.ltb_ge. destruct Ha. lia.
  - done.
Qed.

(** ** Texts *)

(** [char::is_whitespace] *)
Definition is_whitespace (c : Z) : bool :=
  (9 <=? c) && (c <=? 13) ||
  bool_decide (c ∈ [32; 133; 160; 5760; 8232; 8233; 8239; 8287; 12288]) ||
  (8192 <=? c) && (c <=? 8202).

Fixpoint drop_while (f : Z → bool) (l : list Z) : list Z :=
  match l with [] => [] | c :: l' => if f c then drop_while f l' else l end.

Definition trim_end_matches (f : Z → bool) (l : list Z) : list Z := rev (drop_while f (rev l)).
Definition trim (l : list Z) : list Z := trim_end_matches is_whitespace (drop_while is_whitespace l).

(** [value.as_str().unwrap().trim().trim_end_matches('\0')] *)
Definition trim_text (chars : list Z) : list Z := trim_end_matches (Z.eqb 0) (trim chars).

(** [str::as_bytes]: UTF-8. *)
Definition utf8_char (c : Z) : list Z :=
  if c <? 128 then [c]
  else if c <? 2048 then [192 + c / 64; 128 + c mod 64]
  else if c <? 65536 then [224 + c / 4096; 128 + (c / 64) mod 64; 128 + c mod 64]
  else [240 + c / 262144; 128 + (c / 4096) mod 64; 128 + (c / 64) mod 64; 128 + c mod 64].
Definition as_bytes (chars : list Z) : list Z := mjoin (utf8_char <$> chars).

Lemma Forall_drop_while P f l : Forall P l → Forall P (drop_while f l).
Proof. induction 1 as [|c l Hc Hl IH]; cbn; [done|]. destruct (f c); auto. Qed.
Lemma Forall_trim P l : Forall P l → Forall P (trim_text l).
Proof.
  intros Hl. unfold trim_text, trim, trim_end_matches.
  do 2 (apply Forall_rev, Forall_drop_while, Forall_rev). by apply Forall_drop_while.
Qed.

Lemma utf8_u8 c : is_char c → Forall (in_u 8) (utf8_char c).
Proof.
  intros Hc. assert (0 <= c <= 1114111) as Hr by (unfold is_char in Hc; lia).
  assert (Hm : ∀ x, in_u 8 (128 + x mod 64)).
  { intros x. pose proof (Z.mod_pos_bound x 64 ltac:(lia)). width_lia. }
  assert (Hd : ∀ b k m, 0 < k → c / k < m → 0 <= b → b + m <= 256 → in_u 8 (b + c / k)).
  { intros b k m ????. assert (0 <= c / k) by (apply Z.div_pos; lia). width_lia. }
  unfold utf8_char. repeat z_case; 
    repeat (apply Forall_cons_2; [try apply Hm|]); try apply Forall_nil_2.
  - width_lia.
  - apply (Hd 192 64 32); [lia|apply Z.div_lt_upper_bound; lia|lia|lia].
  - apply (Hd 224 4096 16); [lia|apply Z.div_lt_upper_bound; lia|lia|lia].
  - apply (Hd 240 262144 5); [lia|apply Z.div_lt_upper_bound; lia|lia|lia].
Qed.

Lemma as_bytes_u8 l : Forall is_char l → Forall (in_u 8) (as_bytes l).
Proof.
  unfold as_bytes. induction 1 as [|c l Hc _ IH]; [constructor|]. csimpl.
  change (mjoin (utf8_char c :: (utf8_char <$> l))) with (utf8_char c ++ mjoin (utf8_char <$> l)).
  apply Forall_app. split; [by apply utf8_u8|done].
Qed.

(** ** Words of a type *)

(** [Address::from_word] *)
Definition address_from_word (word : Z) : Z := wrap 160 word.

(** [v[size..].fill(0)] *)
Definition fixed_bytes_from_word (size word : Z) : Z :=
  of_be_bytes (take (Z.to_nat size) (be_bytes 32 word) ++ replicate (32 - Z.to_nat size) 0).

Definition uint_from_word (n word : Z) : Z :=
  if n / 8 =? 32 then word else word mod wrap 256 (Z.shiftl 1 n).

Definition int_from_word (n word : Z) : Z :=
  if n / 8 =? 32 then swrap 256 word
  else
    let uint_n := word mod wrap 256 (Z.shiftl 1 n) in
    let sign_bit := wrap 256 (Z.shiftl 1 (n - 1)) in
    if sign_bit <=? uint_n then swrap 256 (wrap 256 (uint_n - wrap 256 (Z.shiftl 1 n)))
    else swrap 256 uint_n.

Lemma fixed_bytes_from_word_fits size word :
  1 <= size <= 32 → fits_word size (fixed_bytes_from_word size word).
Proof.
  intros Hs. unfold fixed_bytes_from_word. rewrite of_be_bytes_app, length_replicate.
  assert (H0 : ∀ n, of_be_bytes (replicate n 0) = 0).
  { induction n as [|n IH]; [done|]. cbn [replicate]. rewrite of_be_bytes_cons, IH. lia. }
  rewrite H0, Z.add_0_r.
  assert (Hb : Forall (in_u 8) (take (Z.to_nat size) (be_bytes 32 word))) by apply Forall_take, be_bytes_u8.
  apply of_be_bytes_bound in Hb. rewrite length_take, be_bytes_length, Nat.min_l in Hb by lia.
  replace (256 ^ Z.of_nat (32 - Z.to_nat size)) with (2 ^ (8 * (32 - size)))
    by (rewrite Z.pow_mul_r by lia; f_equal; lia).
  replace (256 ^ Z.of_nat (Z.to_nat size)) with (2 ^ (8 * size)) in Hb
    by (rewrite Z.pow_mul_r by lia; f_equal; lia).
  assert (2 ^ 256 = 2 ^ (8 * size) * 2 ^ (8 * (32 - size))) as Htot.
  { rewrite <-Z.pow_add_r by lia. f_equal. lia. }
  assert (0 < 2 ^ (8 * (32 - size))) by (apply Z.pow_pos_nonneg; lia).
  split; [|apply Z.mod_mul; lia]. unfold in_u, umax. rewrite Htot. nia.
Qed.

Lemma narrow n : 8 <= n <= 256 → n mod 8 = 0 → n / 8 ≠ 32 →
  n < 256 ∧ wrap 256 (Z.shiftl 1 n) = 2 ^ n ∧ wrap 256 (Z.shiftl 1 (n - 1)) = 2 ^ (n - 1) ∧
  2 ^ n = 2 * 2 ^ (n - 1) ∧ 2 ^ n <= 2 ^ 255 ∧ 0 < 2 ^ (n - 1).
Proof.
  intros Hn Hm Hd. assert (Hlt : n < 256) by (pose proof (Z.div_mod n 8); lia).
  assert (2 ^ n <= 2 ^ 255) by (apply Z.pow_le_mono_r; lia).
  assert (0 < 2 ^ (n - 1)) by (apply Z.pow_pos_nonneg; lia).
  assert (2 ^ n = 2 * 2 ^ (n - 1)) by (rewrite <-Z.pow_succ_r by lia; f_equal; lia).
  rewrite !Z.shiftl_1_l. rewrite !wrap_id; [done|lia|..]; unfold in_u, umax; change (2 ^ 256) with (2 * 2 ^ 255); lia.
Qed.

Lemma uint_from_word_in n w :
  8 <= n <= 256 → n mod 8 = 0 → in_u 256 w → in_u n (uint_from_word n w).
Proof.
  intros Hn Hm Hw. unfold uint_from_word. destruct (Z.eqb_spec (n / 8) 32) as [He|Hne].
  - assert (n = 256) as -> by (pose proof (Z.div_mod n 8); lia). done.
  - destruct (narrow n Hn Hm Hne) as (_ & -> & _). unfold in_u, umax.
    pose proof (Z.mod_pos_bound w (2 ^ n)). pose proof (Z.pow_pos_nonneg 2 n). lia.
Qed.

Lemma int_from_word_in n w :
  8 <= n <= 256 → n mod 8 = 0 → in_u 256 w → in_i n (int_from_word n w).
Proof.
  intros Hn Hm Hw. unfold int_from_word. destruct (Z.eqb_spec (n / 8) 32) as [He|Hne].
  - assert (n = 256) as -> by (pose proof (Z.div_mod n 8); lia). unfold swrap.
    replace (w mod 2 ^ 256) with w by (symmetry; by apply wrap_id). revert Hw.
    unfold in_u, in_i, umax, imin, imax. change (256 - 1) with 255.
    change (2 ^ 256) with (2 * 2 ^ 255). intros. z_case; lia.
  - destruct (narrow n Hn Hm Hne) as (Hlt & -> & -> & Hdbl & Hle & Hpos).
    pose proof (Z.mod_pos_bound w (2 ^ n) ltac:(lia)) as Hb. set (u := w mod 2 ^ n) in *.
    cbv zeta. unfold in_i, imin, imax.
    destruct (Z.leb_spec (2 ^ (n - 1)) u).
    + assert (Hs : swrap 256 (wrap 256 (u - 2 ^ n)) = u - 2 ^ n); [|lia].
      rewrite <-(swrap_256 (u - 2 ^ n)) at 2.
      * unfold swrap, wrap. by rewrite Z.mod_mod by lia.
      * unfold in_i, imin, imax. change (256 - 1) with 255. lia.
    + rewrite swrap_256; [lia|]. unfold in_i, imin, imax. change (256 - 1) with 255. lia.
Qed.

(** ** Generators *)

Record SenderFilters := mkSenders { targeted : list Z; excluded : list Z }.

Section generators.
Context {R : Type} `{LawfulRng R} `{LawfulProptest R} {MappingSlots : Type}.
Local Abbreviation Gen := (Gen R).
Local Abbreviation EvmFuzzState := (@EvmFuzzState MappingSlots).

(** What a tree of an integer strategy draws, alloy's function pointer of a
    word, and the addresses that the fixed seed of the code yields in turn. *)
Context (any_draws : Z → R → Draws * R) (function_from_word : Z → Z) (seeded_address : nat → Z).

(** [proptest::collection::vec] of a given length. *)
Fixpoint gen_vec {A} (n : nat) (g : Gen A) : Gen (list A) :=
  match n with
  | O => mret []
  | S n => v ← g; vs ← gen_vec n g; mret (v :: vs)
  end.

(** ** From scratch and from fixtures *)

Section fixtures.
(** [DynSolValue::matches] *)
Context (matches : DynSolValue → DynSolType → bool).

(** A fixture as the integer strategies of [ValueTrees] see it. *)
Definition int_fixture (v : DynSolValue) : ValueTrees.DynSolValue :=
  match v with
  | VUint x n => Uint x n
  | VInt x n => Int x n
  | _ => OtherValue
  end.

Definition int_fixtures (o : option (list DynSolValue)) : option (list ValueTrees.DynSolValue) :=
  match o with Some l => Some (map int_fixture l) | None => None end.

(** The closure [value]. *)
Definition fixture_value (param : DynSolType) (fixtures : option (list DynSolValue)) : Gen DynSolValue :=
  match fixtures with
  | Some fixtures =>
      use_fixture ← sure (weighted 50);
      if (use_fixture : bool) then index ← sure any_index; the (index_get index fixtures)
      else sure (type_strategy param)
  | None => sure (type_strategy param)
  end.

Definition safe_if (no_reserved : bool) (address : Z) : Z :=
  if no_reserved then to_safe_address address else address.

Definition trim_string (v : DynSolValue) : option DynSolValue :=
  match v with VString cs => Some (VString (trim_text cs)) | _ => None end.

Fixpoint fuzz_param_inner (param : DynSolType) (fuzz_fixtures : option (list DynSolValue))
    (no_reserved : bool) {struct param} : Gen DynSolValue :=
  let fixtures :=
    match fuzz_fixtures with
    | Some fixtures => if forallb (λ f, matches f param) fixtures then Some fixtures else None
    | None => None
    end in
  match param with
  | TAddress =>
      value ← fixture_value param fixtures;
      mret (match value with VAddress addr => VAddress (safe_if no_reserved addr) | _ => value end)
  | TInt n =>
      if (8 <=? n) && (n <=? 256) then
        d ← sure (any_draws n);
        mret (VInt (current (int_new_tree (IntStrategy_new n (int_fixtures fixtures)) d)) n)
      else panic
  | TUint n =>
      if (8 <=? n) && (n <=? 256) then
        d ← sure (any_draws n);
        mret (VUint (current (uint_new_tree (UintStrategy_new n (int_fixtures fixtures)) d)) n)
      else panic
  | TFunction | TBool => sure (type_strategy param)
  | TBytes => fixture_value param fixtures
  | TFixedBytes size => if (1 <=? size) && (size <=? 32) then fixture_value param fixtures else panic
  | TString => value ← fixture_value param fixtures; the (trim_string value)
  | TTuple params =>
      VTuple <$> (fix all (params : list DynSolType) : Gen (list DynSolValue) :=
        match params with
        | [] => mret []
        | param :: params =>
            v ← fuzz_param_inner param None no_reserved; vs ← all params; mret (v :: vs)
        end) params
  | TFixedArray param size =>
      VFixedArray <$> gen_vec (Z.to_nat size) (fuzz_param_inner param None no_reserved)
  | TArray param =>
      n ← sure (any_length 0 MAX_ARRAY_LEN);
      VArray <$> gen_vec n (fuzz_param_inner param None no_reserved)
  | TCustomStruct _ _ _ => panic
  end.

Definition fuzz_param (param : DynSolType) (no_reserved : bool) : Gen DynSolValue :=
  fuzz_param_inner param None no_reserved.
Definition fuzz_param_with_fixtures (param : DynSolType) (fixtures : option (list DynSolValue))
    (no_reserved : bool) : Gen DynSolValue :=
  fuzz_param_inner param fixtures no_reserved.
End fixtures.

(** ** From the dictionary *)

(** The closure [value]: a sample of the type or, half of the time, a value of
    the state. *)
Definition state_value (param : DynSolType) (s : EvmFuzzState) : Gen Z :=
  bias ← sure any_bool;
  index ← sure any_index;
  let values := default (state_values (inner s))
    (if (bias : bool) then samples param (inner s) else None) in
  the (index_get index values).

(** The loop of deterministic addresses; fuel: one more than the libraries. *)
Fixpoint first_other (fuel n : nat) (libs : list Z) : option Z :=
  match fuel with
  | O => None
  | S fuel =>
      if decide (seeded_address n ∈ libs) then first_other fuel (S n) libs
      else Some (seeded_address n)
  end.

Definition address_value (s : EvmFuzzState) (word : Z) : option Z :=
  let fuzzed_addr := address_from_word word in
  if decide (fuzzed_addr ∈ deployed_libs s)
  then first_other (S (length (deployed_libs s))) 0 (deployed_libs s)
  else Some (safe_if (no_zksync_reserved_addresses (inner s)) fuzzed_addr).

Definition ast_strings (s : EvmFuzzState) : list (list Z) := strings (literal_values (inner s)).
Definition ast_bytes (s : EvmFuzzState) : list (list Z) := hex_bytes (literal_values (inner s)).
Definition nonempty {A} (l : list A) : bool := match l with [] => false | _ => true end.

Definition string_from_state (s : EvmFuzzState) : Gen DynSolValue :=
  use_ast ← sure (weighted 30);
  select_index ← sure any_index;
  if use_ast && nonempty (ast_strings s) then
    VString <$> the (index_get select_index (ast_strings s))
  else value ← sure (type_strategy TString); the (trim_string value).

Definition bytes_from_state (s : EvmFuzzState) : Gen DynSolValue :=
  word ← state_value TBytes s;
  use_ast_string ← sure (weighted 10);
  use_ast_bytes ← sure (weighted 20);
  select_index ← sure any_index;
  if use_ast_string && nonempty (ast_strings s) then
    (λ str, VBytes (as_bytes str)) <$> the (index_get select_index (ast_strings s))
  else if use_ast_bytes && nonempty (ast_bytes s) then
    VBytes <$> the (index_get select_index (ast_bytes s))
  else mret (VBytes (be_bytes 32 word)).

Fixpoint fuzz_param_from_state (param : DynSolType) (s : EvmFuzzState) {struct param} : Gen DynSolValue :=
  match param with
  | TAddress => value ← state_value param s; VAddress <$> the (address_value s value)
  | TFunction => (λ value, VFunction (function_from_word value)) <$> state_value param s
  | TFixedBytes size =>
      if (1 <=? size) && (size <=? 32) then
        (λ v, VFixedBytes (fixed_bytes_from_word size v) size) <$> state_value param s
      else panic
  | TBool => sure (type_strategy param)
  | TString => string_from_state s
  | TBytes => bytes_from_state s
  | TInt n =>
      if (8 <=? n) && (n <=? 256) then
        (λ value, VInt (int_from_word n value) n) <$> state_value param s
      else panic
  | TUint n =>
      if (8 <=? n) && (n <=? 256) then
        (λ value, VUint (uint_from_word n value) n) <$> state_value param s
      else panic
  | TTuple params =>
      VTuple <$> (fix all (params : list DynSolType) : Gen (list DynSolValue) :=
        match params with
        | [] => mret []
        | param :: params =>
            v ← fuzz_param_from_state param s; vs ← all params; mret (v :: vs)
        end) params
  | TFixedArray param size =>
      VFixedArray <$> gen_vec (Z.to_nat size) (fuzz_param_from_state param s)
  | TArray param =>
      n ← sure (any_length 0 MAX_ARRAY_LEN);
      VArray <$> gen_vec n (fuzz_param_from_state param s)
  | TCustomStruct _ _ _ => panic
  end.

(** ** Mutation *)

(** [values[random_range(0..values.len())]] *)
Definition pick_word (values : list Z) : Gen Z :=
  index ← random_range 0 (Z.of_nat (length values) - 1);
  the (values !! Z.to_nat index).

(** The at most ten attempts to find an address that is not excluded. *)
Fixpoint try_addresses (n : nat) (current : Z) (values excluded : list Z) : Gen (option Z) :=
  match n with
  | O => mret None
  | S n =>
      word ← pick_word values;
      let addr := address_from_word word in
      if negb (addr =? current) && negb (bool_decide (addr ∈ excluded)) then mret (Some addr)
      else try_addresses n current values excluded
  end.

Definition if_other (current addr : Z) : option Z := if addr =? current then None else Some addr.

Definition select_random_address (current : Z) (s : EvmFuzzState) (senders : option SenderFilters)
    : Gen (option Z) :=
  let values := state_values (inner s) in
  match senders with
  | Some senders =>
      if nonempty (targeted senders) then if_other current <$> pick_word (targeted senders)
      else if nonempty values then try_addresses 10 current values (excluded senders)
      else mret None
  | None =>
      if nonempty values then
        (λ word, if_other current (address_from_word word)) <$> pick_word values
      else mret None
  end.

Definition mutate_uint (val size : Z) : Gen (option Z) :=
  choice ← random_range 0 6;
  if choice =? 0 then uint_increment_decrement val size
  else if choice =? 1 then uint_flip_random_bit val size
  else if choice =? 2 then uint_mutate_interesting_byte val size
  else if choice =? 3 then uint_mutate_interesting_word val size
  else if choice =? 4 then uint_mutate_interesting_dword val size
  else if choice =? 5 then uint_mutate_with_gaussian_noise val size
  else mret None.

Definition mutate_int (val size : Z) : Gen (option Z) :=
  choice ← random_range 0 6;
  if choice =? 0 then int_increment_decrement val size
  else if choice =? 1 then int_flip_random_bit val size
  else if choice =? 2 then int_mutate_interesting_byte val size
  else if choice =? 3 then int_mutate_interesting_word val size
  else if choice =? 4 then int_mutate_interesting_dword val size
  else if choice =? 5 then int_mutate_with_gaussian_noise val size
  else mret None.

Definition mutate_address (val : Z) (s : EvmFuzzState) (senders : option SenderFilters)
    : Gen (option Z) :=
  choice ← random_range 0 5;
  if choice =? 0 then address_flip_random_bit val
  else if choice =? 1 then address_mutate_interesting_byte val
  else if choice =? 2 then address_mutate_interesting_word val
  else if choice =? 3 then address_mutate_interesting_dword val
  else if choice =? 4 then select_random_address val s senders
  else mret None.

Definition mutate_word (word size : Z) : Gen (option Z) :=
  choice ← random_range 0 4;
  if choice =? 0 then word_flip_random_bit word size
  else if choice =? 1 then word_mutate_interesting_byte word size
  else if choice =? 2 then word_mutate_interesting_word word size
  else if choice =? 3 then word_mutate_interesting_dword word size
  else mret None.

(** A random element replaced by its mutation, [mutate id] for index [id]. *)
Definition mutate_random (mutate : nat → DynSolValue → Gen DynSolValue) (values : list DynSolValue)
    : Gen (list DynSolValue) :=
  id ← random_range 0 (Z.of_nat (length values) - 1);
  let id := Z.to_nat id in
  old_val ← the (values !! id);
  new_val ← mutate id old_val;
  mret (<[id := new_val]> values).

(** An array shrinks, grows or has an element mutated. *)
Definition mutate_array (new_value : Gen DynSolValue) (mutate : DynSolValue → Gen DynSolValue)
    (values : list DynSolValue) : Gen (list DynSolValue) :=
  choice ← random_range 0 2;
  if choice =? 0 then
    id ← random_range 0 (Z.of_nat (length values) - 1);
    mret (delete (Z.to_nat id) values)
  else if choice =? 1 then v ← new_value; mret (values ++ [v])
  else mutate_random (λ _, mutate) values.

Definition unwrap_or_else (new_value : Gen DynSolValue) (f : Z → DynSolValue) (m : Gen (option Z))
    : Gen DynSolValue :=
  o ← m; match o with Some x => mret (f x) | None => new_value end.

Fixpoint mutate_param_value_inner (s : EvmFuzzState) (senders : option SenderFilters)
    (param : DynSolType) (value : DynSolValue) {struct param} : Gen DynSolValue :=
  let new_value := fuzz_param_from_state param s in
  let mutate := mutate_param_value_inner s senders in
  (* the type of the tuple element [id], which panics out of range *)
  let mutate_nth := fix mutate_nth (tys : list DynSolType) (id : nat) (v : DynSolValue)
      : Gen DynSolValue :=
    match tys, id with
    | [], _ => panic
    | ty :: _, O => mutate_param_value_inner s senders ty v
    | _ :: tys, S id => mutate_nth tys id v
    end in
  match value with
  | VBool val => mret (VBool (negb val))
  | VUint val size => unwrap_or_else new_value (λ v, VUint v size) (mutate_uint val size)
  | VInt val size => unwrap_or_else new_value (λ v, VInt v size) (mutate_int val size)
  | VAddress val => unwrap_or_else new_value VAddress (mutate_address val s senders)
  | VArray values =>
      match param, values with
      | TArray ty, _ :: _ => VArray <$> mutate_array (fuzz_param_from_state ty s) (mutate ty) values
      | _, _ => new_value
      end
  | VFixedArray values =>
      match param, values with
      | TFixedArray ty _, _ :: _ => VFixedArray <$> mutate_random (λ _, mutate ty) values
      | _, _ => new_value
      end
  | VFixedBytes word size => unwrap_or_else new_value (λ w, VFixedBytes w size) (mutate_word word size)
  | VCustomStruct name prop_names values =>
      match param, values with
      | TCustomStruct _ _ tys, _ :: _ | TTuple tys, _ :: _ =>
          VCustomStruct name prop_names <$> mutate_random (mutate_nth tys) values
      | _, _ => new_value
      end
  | VTuple values =>
      match param, values with
      | TTuple tys, _ :: _ => VTuple <$> mutate_random (mutate_nth tys) values
      | _, _ => new_value
      end
  | VFunction _ | VBytes _ | VString _ => new_value
  end.

Definition mutate_param_value (s : EvmFuzzState) (param : DynSolType) (value : DynSolValue) :=
  mutate_param_value_inner s None param value.
Definition mutate_param_value_with_senders (s : EvmFuzzState) (senders : SenderFilters)
    (param : DynSolType) (value : DynSolValue) :=
  mutate_param_value_inner s (Some senders) param value.
End generators.
