(* ===== verification/FuzzParamSpec.v ===== *)
(** * Generated inputs are valid

    The theorems about [FuzzParam]: whatever is drawn, an input that is
    generated from scratch, from fixtures or from the dictionary has the type it
    is generated for, and so has its mutation; the calldata made of such inputs
    is valid.  The end of the file holds [calldata.rs] and the fixtures of a
    function's parameters. *)
From S2P Require Import Prelude ValueTrees DynSol Mutators FuzzDict FuzzParam.
From stdpp Require Import strings.
Local Open Scope Z_scope.

(** ** Generated values have their types *)

Section typed.
Context {R : Type} `{LawfulRng R} `{LawfulProptest R} {MappingSlots : Type}.
Local Abbreviation Gen := (Gen R).
Local Abbreviation EvmFuzzState := (@EvmFuzzState MappingSlots).
Context (any_draws : Z → R → Draws * R) (function_from_word : Z → Z) (seeded_address : nat → Z)
  (any_draws_drawn : ∀ bits r, 0 <= bits → drawn bits (any_draws bits r).1)
  (function_from_word_in : ∀ w, in_u 256 w → in_u 192 (function_from_word w))
  (seeded_address_in : ∀ n, in_u 160 (seeded_address n)).

Lemma yields_vec {A} n (g : Gen A) (P : A → Prop) :
  yields g P → yields (gen_vec n g) (λ l, length l = n ∧ Forall P l).
Proof.
  intros Hg. induction n as [|n IH]; cbn [gen_vec]; [by apply yields_ret|].
  eapply yields_bind; [exact Hg|]. intros v Hv. eapply yields_bind; [exact IH|].
  intros vs [Hl Hvs]. apply yields_ret. split; [cbn; by rewrite Hl|by constructor].
Qed.

(** The components of a tuple, each by its own generator. *)
Lemma yields_all (gen : DynSolType → Gen DynSolValue) ts :
  Forall (λ t, yields (gen t) (has_type t)) ts →
  yields ((fix all (ts : list DynSolType) : Gen (list DynSolValue) :=
    match ts with
    | [] => mret []
    | t :: ts => v ← gen t; vs ← all ts; mret (v :: vs)
    end) ts) (Forall2 has_type ts).
Proof.
  induction 1 as [|t ts Ht _ IH]; [by apply yields_ret|].
  eapply yields_bind; [exact Ht|]. intros v Hv. eapply yields_bind; [exact IH|].
  intros vs Hvs. apply yields_ret. by constructor.
Qed.

Lemma yields_any_length : yields (sure (any_length 0 MAX_ARRAY_LEN) : Gen nat) (λ _, True).
Proof. by apply yields_sure. Qed.

Lemma trim_string_typed v :
  has_type TString v → ∃ v', trim_string v = Some v' ∧ has_type TString v'.
Proof.
  intros Hv. destruct v; try done. eexists. split; [done|]. cbn in *. by apply Forall_trim.
Qed.

Lemma supported_Forall (P : DynSolType → Prop) ts :
  Forall (λ t, supported t → P t) ts → Forall supported ts → Forall P ts.
Proof. intros HP Hs. eapply Forall_impl; [apply Forall_and; split; [exact HP|exact Hs]|]. naive_solver. Qed.

(** *** From scratch and from fixtures *)

Section with_fixtures.
Context (matches : DynSolValue → DynSolType → bool).

(** Fixtures that are accepted are of the type (they were decoded as it), and
    there is at least one. *)
Definition fixtures_ok (t : DynSolType) (fixtures : option (list DynSolValue)) : Prop :=
  ∀ l, fixtures = Some l → l ≠ [] ∧ ∀ v, v ∈ l → matches v t = true → has_type t v.

Lemma fixture_value_typed t fixtures :
  supported t → (∀ l, fixtures = Some l → l ≠ [] ∧ Forall (has_type t) l) →
  yields (fixture_value t fixtures : Gen DynSolValue) (has_type t).
Proof.
  intros Ht Hf. unfold fixture_value.
  assert (Hd : yields (sure (type_strategy t) : Gen DynSolValue) (has_type t)).
  { apply yields_sure. intros r. by apply type_strategy_typed. }
  destruct fixtures as [l|]; [|done]. destruct (Hf l eq_refl) as [Hne Hl].
  eapply (yields_bind _ _ (λ _, True)); [by apply yields_sure|]. intros use _.
  destruct use; [|done]. eapply (yields_bind _ _ (λ _, True)); [by apply yields_sure|].
  intros index _. destruct (index_get_some index l Hne) as (v & Hv & Hin).
  eapply yields_the; [done|]. rewrite Forall_forall in Hl. by apply Hl.
Qed.

Lemma accepted_fixtures t fixtures :
  fixtures_ok t fixtures →
  ∀ l, match fixtures with
       | Some l => if forallb (λ f, matches f t) l then Some l else None
       | None => None
       end = Some l → l ≠ [] ∧ Forall (has_type t) l.
Proof.
  intros Hf l Hl. destruct fixtures as [l'|]; [|done].
  destruct (forallb _ l') eqn:Hall; [|done]. injection Hl as ->.
  destruct (Hf l eq_refl) as [Hne Hty]. split; [done|]. apply Forall_forall.
  intros v Hv. apply Hty; [done|]. rewrite forallb_forall in Hall. by apply Hall, list_elem_of_In.
Qed.

Lemma safe_if_in b a : in_u 160 a → in_u 160 (safe_if b a).
Proof. intros Ha. destruct b; [|done]. by apply to_safe_address_spec. Qed.

Lemma uint_fixtures_in n l :
  Forall (has_type (TUint n)) l →
  Forall (λ f, match f with Uint v bits => in_u bits v | _ => True end) (map int_fixture l).
Proof.
  induction 1 as [|v l Hv _ IH]; [constructor|]. cbn [map]. constructor; [|done].
  destruct v; try done. cbn in *. by destruct Hv as [-> ?].
Qed.

Lemma int_fixtures_in n l :
  Forall (has_type (TInt n)) l →
  Forall (λ f, match f with Int v bits => in_i bits v | _ => True end) (map int_fixture l).
Proof.
  induction 1 as [|v l Hv _ IH]; [constructor|]. cbn [map]. constructor; [|done].
  destruct v; try done. cbn in *. by destruct Hv as [-> ?].
Qed.

(** An input that is generated for a type that functions have, from scratch
    or from fixtures, has the type: numbers are in range, arrays and tuples
    are of the right shape at every depth. *)
Theorem fuzz_param_typed t fixtures nr :
  supported t → fixtures_ok t fixtures →
  yields (fuzz_param_with_fixtures any_draws matches t fixtures nr) (has_type t).
Proof.
  unfold fuzz_param_with_fixtures. revert fixtures.
  assert (Hnone : ∀ t, fixtures_ok t None) by done.
  induction t as [|n|n|n| | | | |t IH|t n IH|ts IH|s ns ts IH] using DynSolType_ind';
    intros fixtures Ht Hfix; pose proof (accepted_fixtures _ _ Hfix) as Hok; cbn [fuzz_param_inner];
    try (set (fx := match fixtures with Some _ => _ | None => None end) in * ).
  - apply yields_sure. intros r. by apply type_strategy_typed.
  - destruct Ht as [Hn _]. rewrite (proj2 (andb_true_iff _ _)) by (split; apply Z.leb_le; lia).
    eapply (yields_bind _ _ (drawn n)); [apply yields_sure; intros r; apply any_draws_drawn; lia|]. intros d Hd. apply yields_ret.
    split; [done|].
    apply (int_generated_in_type (IntStrategy_new n (int_fixtures fx)) d); [done..|]. cbn.
    destruct fx as [l|]; [|constructor]. apply int_fixtures_in with n. by apply Hok.
  - destruct Ht as [Hn _]. rewrite (proj2 (andb_true_iff _ _)) by (split; apply Z.leb_le; lia).
    eapply (yields_bind _ _ (drawn n)); [apply yields_sure; intros r; apply any_draws_drawn; lia|]. intros d Hd. apply yields_ret.
    split; [done|].
    apply (uint_generated_in_type (UintStrategy_new n (int_fixtures fx)) d); [done..|]. cbn.
    destruct fx as [l|]; [|constructor]. apply uint_fixtures_in with n. by apply Hok.
  - cbn in Ht. rewrite (proj2 (andb_true_iff _ _)) by (split; apply Z.leb_le; lia).
    by apply fixture_value_typed.
  - eapply yields_bind; [by apply fixture_value_typed|]. intros v Hv. apply yields_ret.
    destruct v; try done. by apply safe_if_in.
  - apply yields_sure. intros r. by apply type_strategy_typed.
  - by apply fixture_value_typed.
  - eapply yields_bind; [by apply fixture_value_typed|]. intros v Hv.
    destruct (trim_string_typed v Hv) as (v' & Hv' & Hty). by eapply yields_the.
  - eapply yields_bind; [apply yields_any_length|]. intros n _.
    eapply yields_fmap; [apply yields_vec, IH; done|]. intros l [_ Hl]. exact Hl.
  - destruct Ht as [Hn Ht]. eapply yields_fmap; [apply yields_vec, IH; done|].
    intros l [Hlen Hl]. split; [lia|exact Hl].
  - apply supported_tuple in Ht. eapply yields_fmap; [|intros l Hl; by apply has_type_tuple].
    apply (yields_all (λ t, fuzz_param_inner any_draws matches t None nr)).
    eapply supported_Forall; [|done]. eapply Forall_impl; [exact IH|]. cbn. intros t Hall Hs. by apply Hall.
  - done.
Qed.
End with_fixtures.

(** *** From the dictionary *)

(** What the dictionary must hold: see [FuzzDict.runs_leave_no_trace]. *)
Record state_ok (s : EvmFuzzState) : Prop := {
  so_wf : dict_wf (inner s);
  so_values : state_values (inner s) ≠ [];
  so_strings : Forall (Forall is_char) (strings (literal_values (inner s)));
  so_bytes : Forall (Forall (in_u 8)) (hex_bytes (literal_values (inner s)));
  so_seeded : NoDup (seeded_address <$> seq 0 (S (length (deployed_libs s))));
}.

Lemma samples_good s t l : state_ok s → samples t (inner s) = Some l → good_set l.
Proof.
  intros Hs. unfold samples. destruct (samples_seeded (inner s)).
  - apply (wf_samples _ (so_wf s Hs)).
  - apply (wf_words _ (so_wf s Hs)).
Qed.

Lemma yields_index_get {A} (l : list A) (P : A → Prop) i :
  l ≠ [] → Forall P l → yields (the (index_get i l) : Gen A) P.
Proof.
  intros Hne Hl. destruct (index_get_some i l Hne) as (x & Hx & Hin).
  eapply yields_the; [done|]. rewrite Forall_forall in Hl. by apply Hl.
Qed.

Lemma state_value_in s t : state_ok s → yields (state_value t s) (in_u 256).
Proof.
  intros Hs. unfold state_value.
  eapply (yields_bind _ _ (λ _, True)); [by apply yields_sure|]. intros bias _.
  eapply (yields_bind _ _ (λ _, True)); [by apply yields_sure|]. intros index _.
  assert (Hgood : let l := default (state_values (inner s))
     (if bias then samples t (inner s) else None) in l ≠ [] ∧ Forall (in_u 256) l).
  { destruct bias; [destruct (samples t (inner s)) as [l|] eqn:Hl|].
    - by destruct (samples_good s t l Hs Hl) as (? & _ & ?).
    - split; [apply so_values, Hs|]. apply wf_values_u, so_wf, Hs.
    - split; [apply so_values, Hs|]. apply wf_values_u, so_wf, Hs. }
  destruct Hgood as [Hne Hl]. by apply yields_index_get.
Qed.

(** A sequence without repetitions leaves a list it is longer than. *)
Lemma first_other_some fuel n libs :
  NoDup (seeded_address <$> seq n fuel) → (length libs < fuel)%nat →
  ∃ m, first_other seeded_address fuel n libs = Some (seeded_address m) ∧ seeded_address m ∉ libs.
Proof.
  intros Hnd Hlen.
  assert (Hex : ∃ m, m ∈ seq n fuel ∧ seeded_address m ∉ libs).
  { destruct (decide (Exists (λ m, seeded_address m ∉ libs) (seq n fuel))) as [He|He].
    - by apply Exists_exists in He.
    - exfalso. apply not_Exists_Forall in He; [|apply _].
      assert (Hsub : (seeded_address <$> seq n fuel) ⊆ libs).
      { intros a (m & -> & Hm)%list_elem_of_fmap. rewrite Forall_forall in He.
        destruct (decide (seeded_address m ∈ libs)); [done|]. by destruct (He m Hm). }
      pose proof (submseteq_length _ _ (NoDup_submseteq _ _ Hnd Hsub)) as Hle.
      rewrite length_fmap, length_seq in Hle. lia. }
  clear Hnd Hlen. revert n Hex. induction fuel as [|fuel IH]; intros n (m & Hm & Hno).
  { by apply not_elem_of_nil in Hm. }
  cbn [first_other]. case_decide as Hin; [|by exists n].
  apply IH. exists m. split; [|done]. cbn [seq] in Hm. apply elem_of_cons in Hm as [->|Hm]; [done|done].
Qed.

Lemma address_value_some s w :
  state_ok s → ∃ a, address_value seeded_address s w = Some a ∧ in_u 160 a ∧
    (no_zksync_reserved_addresses (inner s) = false → a ∉ deployed_libs s).
Proof.
  intros Hs. unfold address_value. cbv zeta. case_decide as Hin.
  - destruct (first_other_some (S (length (deployed_libs s))) 0 (deployed_libs s)
      (so_seeded s Hs) ltac:(lia)) as (m & Hm & Hno). eauto.
  - eexists. split; [done|]. split; [apply safe_if_in, wrap_in_u; lia|]. by intros ->.
Qed.

Lemma string_from_state_typed s :
  state_ok s → yields (string_from_state s) (has_type TString).
Proof.
  intros Hs. unfold string_from_state.
  eapply (yields_bind _ _ (λ _, True)); [by apply yields_sure|]. intros use _.
  eapply (yields_bind _ _ (λ _, True)); [by apply yields_sure|]. intros index _.
  destruct (use && nonempty (ast_strings s)) eqn:Hu.
  - apply andb_true_iff in Hu as [_ Hn].
    eapply yields_fmap; [apply (yields_index_get _ (Forall is_char)); [|apply so_strings, Hs]|by auto].
    unfold ast_strings in *. by destruct (strings _).
  - eapply (yields_bind _ _ (has_type TString)); [apply yields_sure; intros r; by apply type_strategy_typed|].
    intros v Hv. destruct (trim_string_typed v Hv) as (v' & Hv' & Hty). by eapply yields_the.
Qed.

Lemma bytes_from_state_typed s :
  state_ok s → yields (bytes_from_state s) (has_type TBytes).
Proof.
  intros Hs. unfold bytes_from_state.
  eapply yields_bind; [by apply state_value_in|]. intros word _.
  eapply (yields_bind _ _ (λ _, True)); [by apply yields_sure|]. intros us _.
  eapply (yields_bind _ _ (λ _, True)); [by apply yields_sure|]. intros ub _.
  eapply (yields_bind _ _ (λ _, True)); [by apply yields_sure|]. intros index _.
  destruct (us && nonempty (ast_strings s)) eqn:Hu; [|destruct (ub && nonempty (ast_bytes s)) eqn:Hv].
  - apply andb_true_iff in Hu as [_ Hn].
    eapply yields_fmap; [apply (yields_index_get _ (Forall is_char)); [|apply so_strings, Hs]|].
    + unfold ast_strings in *. by destruct (strings _).
    + intros cs Hcs. by apply as_bytes_u8.
  - apply andb_true_iff in Hv as [_ Hn].
    eapply yields_fmap; [apply (yields_index_get _ (Forall (in_u 8))); [|apply so_bytes, Hs]|by auto].
    unfold ast_bytes in *. by destruct (hex_bytes _).
  - apply yields_ret. apply be_bytes_u8.
Qed.

Lemma from_state_typed s t :
  state_ok s → supported t →
  yields (fuzz_param_from_state function_from_word seeded_address t s) (has_type t).
Proof.
  intros Hs. induction t as [|n|n|n| | | | |t IH|t n IH|ts IH|x ns ts IH] using DynSolType_ind';
    intros Ht; cbn [fuzz_param_from_state].
  - apply yields_sure. intros r. by apply type_strategy_typed.
  - destruct Ht as [Hn Hm]. rewrite (proj2 (andb_true_iff _ _)) by (split; apply Z.leb_le; lia).
    eapply yields_fmap; [by apply state_value_in|]. intros w Hw. split; [done|]. by apply int_from_word_in.
  - destruct Ht as [Hn Hm]. rewrite (proj2 (andb_true_iff _ _)) by (split; apply Z.leb_le; lia).
    eapply yields_fmap; [by apply state_value_in|]. intros w Hw. split; [done|]. by apply uint_from_word_in.
  - cbn in Ht. rewrite (proj2 (andb_true_iff _ _)) by (split; apply Z.leb_le; lia).
    eapply yields_fmap; [by apply state_value_in|]. intros w Hw. split; [done|].
    by apply fixed_bytes_from_word_fits.
  - eapply yields_bind; [by apply state_value_in|]. intros w Hw.
    destruct (address_value_some s w Hs) as (a & Ha & Hin & _).
    eapply yields_fmap; [by eapply (yields_the _ _ (in_u 160))|]. done.
  - eapply yields_fmap; [by apply state_value_in|]. intros w Hw. by apply function_from_word_in.
  - by apply bytes_from_state_typed.
  - by apply string_from_state_typed.
  - eapply yields_bind; [apply yields_any_length|]. intros n _.
    eapply yields_fmap; [apply yields_vec, IH; done|]. intros l [_ Hl]. exact Hl.
  - destruct Ht as [Hn Ht]. eapply yields_fmap; [apply yields_vec, IH; done|].
    intros l [Hlen Hl]. split; [lia|exact Hl].
  - apply supported_tuple in Ht. eapply yields_fmap; [|intros l Hl; by apply has_type_tuple].
    apply (yields_all (λ t, fuzz_param_from_state function_from_word seeded_address t s)).
    eapply supported_Forall; [exact IH|exact Ht].
  - done.
Qed.

(** *** Mutation *)

Definition senders_ok (senders : option SenderFilters) : Prop :=
  ∀ f, senders = Some f → Forall (in_u 160) (targeted f).

Lemma yields_pick_word values (P : Z → Prop) :
  values ≠ [] → Forall P values → yields (pick_word values : Gen Z) P.
Proof.
  intros Hne Hl. unfold pick_word.
  eapply yields_bind; [apply yields_range; destruct values; [done|]; simpl; lia|]. intros i Hi. cbn beta in Hi.
  destruct (lookup_lt_is_Some_2 values (Z.to_nat i)) as [x Hx]; [lia|].
  eapply yields_the; [done|]. rewrite Forall_lookup in Hl. by eapply Hl.
Qed.

Lemma if_other_spec current a x : if_other current a = Some x ↔ x = a ∧ a ≠ current.
Proof. unfold if_other. z_case; naive_solver. Qed.

Lemma try_addresses_in n current values excluded :
  values ≠ [] →
  yields (try_addresses n current values excluded : Gen (option Z))
    (λ o, ∀ a, o = Some a → in_u 160 a ∧ a ≠ current ∧ a ∉ excluded).
Proof.
  intros Hne. induction n as [|n IH]; cbn [try_addresses]; [by apply yields_ret|].
  eapply yields_bind; [by apply (yields_pick_word values (λ _, True)), Forall_true|]. intros w _.
  destruct (_ && _) eqn:Ha; [|exact IH]. apply andb_true_iff in Ha as [Hc%negb_true_iff He%negb_true_iff].
  apply yields_ret. intros a [= <-]. apply Z.eqb_neq in Hc. apply bool_decide_eq_false in He.
  split_and!; [apply wrap_in_u; lia|done|done].
Qed.

(** The address that is selected follows the filters of the senders, and is
    never the current one. *)
Lemma select_random_address_in current (s : EvmFuzzState) senders :
  senders_ok senders → 
  yields (select_random_address current s senders : Gen (option Z))
    (λ o, ∀ a, o = Some a → in_u 160 a ∧ a ≠ current ∧
       ∀ f, senders = Some f → match targeted f with [] => a ∉ excluded f | l => a ∈ l end).
Proof.
  intros Hf. unfold select_random_address. cbv zeta. destruct senders as [f|].
  - specialize (Hf f eq_refl). destruct (targeted f) as [|a l] eqn:Ht; cbn [nonempty].
    + destruct (state_values (inner s)) as [|v vs]; cbn [nonempty]; [by apply yields_ret|].
      eapply yields_weaken; [by apply try_addresses_in|]. cbn. intros o Ho a Ha.
      destruct (Ho a Ha) as (? & ? & ?). split_and!; [done..|]. intros f' [= <-]. by rewrite Ht.
    + eapply yields_fmap; [apply (yields_pick_word (a :: l) (λ x, in_u 160 x ∧ x ∈ a :: l)); [done|]|].
      { apply Forall_forall. intros x Hx. split; [|done]. rewrite Forall_forall in Hf. by apply Hf. }
      intros x [Hx Hin] y Hy. apply if_other_spec in Hy as [-> Hne]. split_and!; [done..|].
      intros f' [= <-]. by rewrite Ht.
  - destruct (state_values (inner s)) as [|v vs]; cbn [nonempty]; [by apply yields_ret|].
    eapply yields_fmap; [by apply (yields_pick_word (v :: vs) (λ _, True)), Forall_true|].
    intros w _ a Ha. apply if_other_spec in Ha as [-> Hne]. split_and!; [apply wrap_in_u; lia|done|done].
Qed.

Lemma mutates_weaken (P Q : Z → Prop) self (m : Gen (option Z)) :
  mutates P self m → (∀ x, P x → Q x) → mutates Q self m.
Proof. intros Hm HPQ. eapply yields_weaken; [exact Hm|]. cbn. naive_solver. Qed.

Lemma mutates_none (P : Z → Prop) self : mutates P self (mret None : Gen (option Z)).
Proof. by apply yields_ret. Qed.

(** The choice of a mutator. *)
Ltac choices :=
  eapply (yields_bind _ _ (λ _, True));
    [eapply yields_weaken; [by apply yields_range|done]|];
  intros choice _; repeat case_match; try apply mutates_none.

Lemma mutate_uint_typed val size :
  sized size → mutates (in_u size) val (mutate_uint val size : Gen (option Z)).
Proof.
  intros Hs. eapply (mutates_weaken (λ x, 0 <= x < umax size)); [|intros x; cbn beta; unfold in_u; lia].
  unfold mutate_uint. choices; [by apply uint_step_mutates|..]; by apply on_uint_mutates.
Qed.

Lemma mutate_int_typed val size :
  sized size → mutates (in_i size) val (mutate_int val size : Gen (option Z)).
Proof.
  intros Hs. eapply (mutates_weaken (λ x, Z.abs x < imax size));
    [|intros x; cbn beta; unfold in_i, imin, imax; lia].
  unfold mutate_int. choices; [by apply int_step_mutates|..]; by apply on_int_mutates.
Qed.

Lemma mutate_address_typed val (s : EvmFuzzState) senders :
  senders_ok senders → mutates (in_u 160) val (mutate_address val s senders : Gen (option Z)).
Proof.
  intros Hf. unfold mutate_address. choices; try by apply on_address_mutates.
  eapply yields_weaken; [by apply select_random_address_in|]. cbn. naive_solver.
Qed.

Lemma mutate_word_typed word size :
  1 <= size <= 32 → fits_word size word →
  mutates (fits_word size) word (mutate_word word size : Gen (option Z)).
Proof.
  intros Hs Hw. unfold mutate_word. choices; by apply on_word_mutates.
Qed.

Lemma yields_unwrap_or_else (new_value : Gen DynSolValue) f (m : Gen (option Z)) self
    (P : Z → Prop) (Q : DynSolValue → Prop) :
  yields new_value Q → mutates P self m → (∀ x, P x → Q (f x)) →
  yields (unwrap_or_else new_value f m) Q.
Proof.
  intros Hn Hm HPQ. unfold unwrap_or_else. eapply yields_bind; [exact Hm|]. intros o Ho.
  destruct o as [x|]; [|done]. apply yields_ret, HPQ. by destruct (Ho x eq_refl).
Qed.

(** Mutating an element keeps what holds of every position. *)
Lemma yields_mutate_random (mutate : nat → DynSolValue → Gen DynSolValue) values
    (P : nat → DynSolValue → Prop) :
  values ≠ [] → (∀ i v, values !! i = Some v → P i v → yields (mutate i v) (P i)) →
  (∀ i v, values !! i = Some v → P i v) →
  yields (mutate_random mutate values)
    (λ l, length l = length values ∧ ∀ i v, l !! i = Some v → P i v).
Proof.
  intros Hne Hm HP. unfold mutate_random.
  eapply yields_bind; [apply yields_range; destruct values; [done|]; simpl; lia|]. intros i Hi. cbn beta in Hi.
  cbv zeta. destruct (lookup_lt_is_Some_2 values (Z.to_nat i)) as [old Hold]; [lia|].
  eapply (yields_bind _ _ (λ v, v = old)); [by eapply yields_the|]. intros v ->.
  eapply yields_bind; [apply (Hm _ _ Hold), (HP _ _ Hold)|]. intros new Hnew.
  apply yields_ret. split; [by rewrite length_insert|]. intros j v Hj.
  apply list_lookup_insert_Some in Hj as [(<- & <- & _)|[_ Hj]]; [done|by eapply HP].
Qed.

Lemma yields_mutate_nth (mutate : DynSolType → DynSolValue → Gen DynSolValue) tys i v ty
    (P : DynSolValue → Prop) :
  tys !! i = Some ty → yields (mutate ty v) P →
  yields ((fix mutate_nth (tys : list DynSolType) (id : nat) (v : DynSolValue) : Gen DynSolValue :=
    match tys, id with
    | [], _ => panic
    | ty :: _, O => mutate ty v
    | _ :: tys, S id => mutate_nth tys id v
    end) tys i v) P.
Proof.
  intros Hi Hy. revert i Hi. induction tys as [|t tys IH]; intros [|i] Hi; try done.
  - by injection Hi as ->.
  - by apply IH.
Qed.

(** The elements of a tuple: one of them is mutated at its own type. *)
Lemma mutate_tuple_typed (mutate : DynSolType → DynSolValue → Gen DynSolValue) tys values :
  values ≠ [] → Forall2 has_type tys values →
  Forall (λ ty, ∀ v, has_type ty v → yields (mutate ty v) (has_type ty)) tys →
  yields (mutate_random ((fix mutate_nth (tys : list DynSolType) (id : nat) (v : DynSolValue)
      : Gen DynSolValue :=
    match tys, id with
    | [], _ => panic
    | ty :: _, O => mutate ty v
    | _ :: tys, S id => mutate_nth tys id v
    end) tys) values) (Forall2 has_type tys).
Proof.
  intros Hne Hty Hm.
  eapply yields_weaken; [apply (yields_mutate_random _ values
    (λ i v, ∀ ty, tys !! i = Some ty → has_type ty v)); [done|..]|].
  - intros i v Hv HP. destruct (Forall2_lookup_r _ _ _ _ _ Hty Hv) as (ty & Hi & _).
    eapply yields_mutate_nth; [exact Hi|].
    rewrite Forall_lookup in Hm. eapply yields_weaken; [apply (Hm _ _ Hi), HP, Hi|].
    cbn. intros v' Hv' ty' Hi'. by simplify_eq.
  - intros i v Hv ty Hi. by eapply Forall2_lookup_lr.
  - cbn. intros l [Hlen Hl]. apply Forall2_same_length_lookup. split.
    + rewrite Hlen. by eapply Forall2_length.
    + intros i ty v Hi Hv. by eapply Hl.
Qed.

Lemma mutate_elements_typed (mutate : DynSolValue → Gen DynSolValue) ty values :
  values ≠ [] → Forall (has_type ty) values →
  (∀ v, has_type ty v → yields (mutate v) (has_type ty)) →
  yields (mutate_random (λ _, mutate) values)
    (λ l, length l = length values ∧ Forall (has_type ty) l).
Proof.
  intros Hne Hty Hm. rewrite Forall_lookup in Hty.
  eapply yields_weaken; [apply (yields_mutate_random _ values (λ _, has_type ty)); [done|by auto|done]|].
  cbn. intros l [Hlen Hl]. split; [done|]. by apply Forall_lookup.
Qed.

Lemma mutate_array_typed (new_value : Gen DynSolValue) (mutate : DynSolValue → Gen DynSolValue) ty values :
  values ≠ [] → Forall (has_type ty) values → yields new_value (has_type ty) →
  (∀ v, has_type ty v → yields (mutate v) (has_type ty)) →
  yields (mutate_array new_value mutate values) (Forall (has_type ty)).
Proof.
  intros Hne Hty Hn Hm. unfold mutate_array.
  eapply yields_bind; [by apply yields_range|]. intros choice _.
  case_match; [|case_match].
  - eapply (yields_bind _ _ (λ _, True)).
    + eapply yields_weaken; [apply yields_range; destruct values; [done|]; simpl; lia|done].
    + intros i _. apply yields_ret. by apply Forall_delete.
  - eapply yields_bind; [exact Hn|]. intros v Hv. apply yields_ret.
    apply Forall_app. split; [done|]. by constructor.
  - eapply yields_weaken; [by apply (mutate_elements_typed _ ty)|]. cbn. by intros l [_ ?].
Qed.

(** Mutating an input never panics and gives a value of the type, at every
    depth of arrays, tuples and structs, whichever mutators are drawn: the
    call it is encoded for accepts it. *)
Theorem mutate_typed s senders t v :
  state_ok s → senders_ok senders → supported t → has_type t v →
  yields (mutate_param_value_inner function_from_word seeded_address s senders t v) (has_type t).
Proof.
  intros Hs Hf. revert v.
  assert (Hnew : ∀ t, supported t →
    yields (fuzz_param_from_state function_from_word seeded_address t s) (has_type t)).
  { intros t'. by apply from_state_typed. }
  induction t as [|n|n|n| | | | |t IH|t n IH|ts IH|x ns ts IH] using DynSolType_ind';
    intros v Ht Hv; pose proof (Hnew _ Ht) as Hn; try (by destruct Ht);
    destruct v as [b|x n'|x n'|w n'|a|f|bs|cs|l|l|l|nm pn l]; try (by destruct Hv);
    cbn [mutate_param_value_inner]; try done.
  - by apply yields_ret.
  - destruct Hv as [-> Hx]. eapply yields_unwrap_or_else; [exact Hn|by apply mutate_int_typed|]. by split.
  - destruct Hv as [-> Hx]. eapply yields_unwrap_or_else; [exact Hn|by apply mutate_uint_typed|]. by split.
  - destruct Hv as [-> Hx]. eapply yields_unwrap_or_else; [exact Hn|by apply mutate_word_typed|]. by split.
  - eapply yields_unwrap_or_else; [exact Hn|by apply mutate_address_typed|]. done.
  - destruct l as [|v l]; [done|]. eapply yields_fmap; [|intros l' Hl'; exact Hl'].
    apply mutate_array_typed; [done|exact Hv|by apply Hnew|]. intros v' Hv'. by apply IH.
  - destruct l as [|v l]; [done|]. destruct Hv as [Hlen Hv]. destruct Ht as [Hn0 Ht].
    eapply yields_fmap; [apply (mutate_elements_typed _ t); [done|exact Hv|]|].
    + intros v' Hv'. by apply IH.
    + cbn beta. intros l' [Hl Hl']. split; [by rewrite Hl|exact Hl'].
  - destruct l as [|v l]; [done|]. apply has_type_tuple in Hv. apply supported_tuple in Ht.
    eapply yields_fmap; [apply (mutate_tuple_typed (mutate_param_value_inner function_from_word
      seeded_address s senders) ts); [done|exact Hv|]|intros l' Hl'; by apply has_type_tuple].
    eapply supported_Forall; [|exact Ht]. eapply Forall_impl; [exact IH|]. cbn. auto.
  - destruct l as [|v l]; [done|]. apply has_type_struct in Hv. apply supported_tuple in Ht.
    eapply yields_fmap; [apply (mutate_tuple_typed (mutate_param_value_inner function_from_word
      seeded_address s senders) ts); [done|exact Hv|]|intros l' Hl'; by apply has_type_struct].
    eapply supported_Forall; [|exact Ht]. eapply Forall_impl; [exact IH|]. cbn. auto.
Qed.

(** An input that is drawn from the dictionary has its type, and drawing
    it never panics; a drawn address is not one of the libraries that the
    tests deployed, unless reserved addresses are moved. *)
Theorem drawn_from_dictionary s t :
  state_ok s → supported t →
  yields (fuzz_param_from_state function_from_word seeded_address t s) (λ v, has_type t v ∧
    ∀ a, v = VAddress a → no_zksync_reserved_addresses (inner s) = false → a ∉ deployed_libs s).
Proof.
  intros Hs Ht.
  assert (Hty := from_state_typed s t Hs Ht).
  destruct t; try (eapply yields_weaken; [exact Hty|]; intros v Hv; split; [exact Hv|];
    intros a ->; by destruct Hv).
  cbn [fuzz_param_from_state].
  eapply yields_bind; [by apply state_value_in|]. intros w Hw.
  destruct (address_value_some s w Hs) as (a & Ha & Hin & Hlib).
  eapply yields_fmap; [by eapply (yields_the _ _ (λ x, x = a))|]. intros x ->.
  split; [exact Hin|]. intros a' [= <-]. exact Hlib.
Qed.
End typed.

(** ** Calldata *)

(** [trim_matches(c)] *)
Definition trim_char (c : Ascii.ascii) (s : string) : string :=
  let fix drop (l : list Ascii.ascii) : list Ascii.ascii :=
    match l with [] => [] | x :: l' => if Ascii.eqb x c then drop l' else l end in
  String.string_of_list_ascii (rev (drop (rev (drop (String.list_ascii_of_string s))))).

Definition normalize_fixture (param_name : string) : string :=
  to_lowercase (trim_char "_" param_name).

(** [strip_prefix("fixture").unwrap()], normalized. *)
Definition fixture_name (function_name : string) : option string :=
  if String.prefix "fixture" function_name then
    Some (normalize_fixture (String.substring 7 (String.length function_name - 7) function_name))
  else None.

Definition FuzzFixtures : Type := gmap string DynSolValue.

Definition param_fixtures (fixtures : FuzzFixtures) (param_name : string)
    : option (list DynSolValue) :=
  match fixtures !! normalize_fixture param_name with
  | Some (VFixedArray l) | Some (VArray l) => Some l
  | _ => None
  end.

(** An input of a function: its name and its type. *)
Record Param := mkParam { p_name : string; p_type : DynSolType }.

Section calldata.
Context {R : Type} `{LawfulRng R} `{LawfulProptest R} {MappingSlots : Type}.
Local Abbreviation Gen := (Gen R).
Context (any_draws : Z → R → Draws * R) (function_from_word : Z → Z) (seeded_address : nat → Z)
  (matches : DynSolValue → DynSolType → bool)
  (* alloy: the calldata of a function for some arguments *)
  (abi_encode_input : list Param → list DynSolValue → option (list Z)).

Fixpoint gen_inputs (gen : Param → Gen DynSolValue) (inputs : list Param)
    : Gen (list DynSolValue) :=
  match inputs with
  | [] => mret []
  | input :: inputs => v ← gen input; vs ← gen_inputs gen inputs; mret (v :: vs)
  end.

Definition fuzz_calldata (inputs : list Param) (fuzz_fixtures : FuzzFixtures) (no_reserved : bool)
    : Gen (list Z) :=
  values ← gen_inputs (λ input, fuzz_param_with_fixtures any_draws matches (p_type input)
    (param_fixtures fuzz_fixtures (p_name input)) no_reserved) inputs;
  the (abi_encode_input inputs values).

Definition fuzz_calldata_from_state (inputs : list Param) (s : @EvmFuzzState MappingSlots)
    : Gen (list Z) :=
  values ← gen_inputs (λ input,
    fuzz_param_from_state function_from_word seeded_address (p_type input) s) inputs;
  the (abi_encode_input inputs values).

Context (any_draws_drawn : ∀ bits r, 0 <= bits → drawn bits (any_draws bits r).1)
  (function_from_word_in : ∀ w, in_u 256 w → in_u 192 (function_from_word w))
  (seeded_address_in : ∀ n, in_u 160 (seeded_address n))
  (abi_encode_some : ∀ inputs values,
    Forall2 has_type (p_type <$> inputs) values → is_Some (abi_encode_input inputs values)).

Lemma yields_gen_inputs (gen : Param → Gen DynSolValue) inputs :
  Forall (λ input, yields (gen input) (has_type (p_type input))) inputs →
  yields (gen_inputs gen inputs) (Forall2 has_type (p_type <$> inputs)).
Proof.
  induction 1 as [|input inputs Hi _ IH]; cbn [gen_inputs]; [by apply yields_ret|].
  eapply yields_bind; [exact Hi|]. intros v Hv. eapply yields_bind; [exact IH|].
  intros vs Hvs. apply yields_ret. by constructor.
Qed.

Lemma yields_encoded gen inputs :
  Forall (λ input, yields (gen input) (has_type (p_type input))) inputs →
  yields (values ← gen_inputs gen inputs; the (abi_encode_input inputs values))
    (λ data, ∃ values, Forall2 has_type (p_type <$> inputs) values ∧
       abi_encode_input inputs values = Some data).
Proof.
  intros Hi. eapply yields_bind; [by apply yields_gen_inputs|]. intros values Hv.
  destruct (abi_encode_some inputs values Hv) as [data Hd]. eapply yields_the; eauto.
Qed.

(** The calldata of a fuzzed call, whichever way it is generated, is the
    encoding of arguments of the types of the function: the panic on invalid
    arguments is never reached. *)
Theorem calldata_is_valid inputs fixtures nr s :
  Forall (λ input, supported (p_type input)) inputs →
  Forall (λ input, fixtures_ok matches (p_type input) (param_fixtures fixtures (p_name input))) inputs →
  state_ok seeded_address s →
  let valid data := ∃ values, Forall2 has_type (p_type <$> inputs) values ∧
    abi_encode_input inputs values = Some data in
  yields (fuzz_calldata inputs fixtures nr) valid ∧
  yields (fuzz_calldata_from_state inputs s) valid.
Proof.
  intros Ht Hf Hs valid. split; apply yields_encoded.
  - eapply Forall_impl; [apply Forall_and; split; [exact Ht|exact Hf]|]. cbn.
    intros input [Hi Hfi]. by apply fuzz_param_typed.
  - eapply Forall_impl; [exact Ht|]. cbn. intros input Hi.
    eapply yields_weaken; [by apply drawn_from_dictionary|]. cbn. by intros v [Hv _].
Qed.
End calldata.

(** ** Concrete runs *)

Import Script.

Definition ex_any_draws (bits : Z) (r : list Z) : Draws * list Z :=
  (mkDraws 0 false 0 3 0 (Z.min bits 256) (umax 128) (umax 128) false, r).
Lemma ex_any_draws_drawn bits r : 0 <= bits → drawn bits (ex_any_draws bits r).1.
Proof. intros Hb. constructor; cbn; try lia; split; try (by vm_compute). Qed.

Definition ex_function_from_word (w : Z) : Z := w / 2 ^ 64.
Lemma ex_function_in w : in_u 256 w → in_u 192 (ex_function_from_word w).
Proof.
  unfold in_u, umax, ex_function_from_word. intros Hw. split; [apply Z.div_pos; lia|].
  assert (w / 2 ^ 64 < 2 ^ 192); [|lia]. apply Z.div_lt_upper_bound; [lia|].
  change (2 ^ 64 * 2 ^ 192) with (2 ^ 256). lia.
Qed.

Definition ex_seeded (n : nat) : Z := wrap 160 (1000 + Z.of_nat n).
Lemma ex_seeded_in n : in_u 160 (ex_seeded n).
Proof. apply wrap_in_u. lia. Qed.

Definition ex_matches (v : DynSolValue) (t : DynSolType) : bool :=
  match v, t with
  | VAddress _, TAddress => true
  | VUint _ n, TUint m => n =? m
  | _, _ => false
  end.

(** The dictionary of [FuzzDict], with the address [9] of a library in it. *)
Definition ex_state (nr : bool) : @EvmFuzzState unit :=
  EvmFuzzState_new ex_cbor ex_slot 77 [9] ex_accounts ex_config
    (Some (mkLiterals ∅ [[104; 105]] [[1; 2; 3]])) nr.

Lemma ex_state_ok nr : state_ok ex_seeded (ex_state nr).
Proof.
  assert (Hl : ∀ l, Some (mkLiterals ∅ [[104; 105]] [[1; 2; 3]]) = Some l →
    map_Forall (λ _, good_set) (words l)) by (intros l [= <-]; apply map_Forall_empty).
  destruct (new_state (MappingSlots := unit) ex_cbor ex_slot 77 [9] ex_accounts ex_config
    (Some (mkLiterals ∅ [[104; 105]] [[1; 2; 3]])) nr ltac:(width_lia) ex_accounts_ok Hl)
    as (_ & Hwf & _ & H0).
  split.
  - exact Hwf.
  - specialize (H0 ltac:(by vm_compute)). intros Hn.
    unfold ex_state in Hn. rewrite Hn in H0. by apply not_elem_of_nil in H0.
  - change (Forall (Forall is_char) [[104; 105]]). apply Forall_singleton.
    apply Forall_cons_2; [unfold is_char; lia|].
    apply Forall_singleton. unfold is_char. lia.
  - change (Forall (Forall (in_u 8)) [[1; 2; 3]]). apply Forall_singleton. by apply Forall_in_u_dec.
  - change (NoDup (ex_seeded <$> seq 0 2)).
    apply (bool_decide_unpack _). vm_compute. exact I.
Qed.

Definition ex_type : DynSolType := TTuple [TUint 8; TArray TAddress; TFixedArray (TInt 16) 2].
Definition ex_value : DynSolValue :=
  VTuple [VUint 7 8; VArray [VAddress 5]; VFixedArray [VInt (-3) 16; VInt 4 16]].

Lemma ex_value_typed : has_type ex_type ex_value.
Proof.
  apply has_type_tuple. apply Forall2_cons. split; [split; [done|width_lia]|].
  apply Forall2_cons. split; [apply Forall_singleton; cbn; width_lia|].
  apply Forall2_cons. split; [|done]. split; [done|].
  apply Forall_cons_2; [split; [done|width_lia]|]. apply Forall_singleton. split; [done|width_lia].
Qed.
Lemma ex_type_supported : supported ex_type.
Proof. cbn. split_and!; done || lia. Qed.

(** The third component is an array; its second element is mutated, by one bit. *)
Example mutates_deep :
  fst <$> mutate_param_value ex_function_from_word ex_seeded (ex_state false) ex_type ex_value
    [2; 1; 1; 8] =
  Some (VTuple [VUint 7 8; VArray [VAddress 5]; VFixedArray [VInt (-3) 16; VInt 5 16]]).
Proof. vm_compute. reflexivity. Qed.

Lemma mutate_typed_witness :
  supported ex_type ∧ has_type ex_type ex_value ∧
  yields (mutate_param_value_inner (R := list Z) ex_function_from_word ex_seeded (ex_state false) None
    ex_type ex_value) (has_type ex_type).
Proof.
  assert (Hf : senders_ok None) by done.
  split; [exact ex_type_supported|]. split; [exact ex_value_typed|].
  exact (mutate_typed ex_function_from_word ex_seeded ex_function_in ex_seeded_in
    (ex_state false) None ex_type ex_value (ex_state_ok false) Hf ex_type_supported ex_value_typed).
Defined.

Lemma drawn_from_dictionary_witness :
  yields (fuzz_param_from_state (R := list Z) ex_function_from_word ex_seeded TAddress (ex_state false))
    (λ v, has_type TAddress v ∧ ∀ a, v = VAddress a →
      no_zksync_reserved_addresses (inner (ex_state false)) = false → a ∉ deployed_libs (ex_state false)).
Proof.
  exact (drawn_from_dictionary ex_function_from_word ex_seeded ex_function_in ex_seeded_in
    (ex_state false) TAddress (ex_state_ok false) I).
Defined.

Definition ex_fixtures : FuzzFixtures := {["owner" := VArray [VAddress 11; VAddress 12]]}.
Definition ex_inputs : list Param := [mkParam "_Owner" TAddress; mkParam "data" ex_type].
Definition ex_encode (_ : list Param) (_ : list DynSolValue) : option (list Z) := Some [1; 2; 3; 4].

Lemma ex_fixtures_ok :
  Forall (λ i, fixtures_ok ex_matches (p_type i) (param_fixtures ex_fixtures (p_name i))) ex_inputs.
Proof.
  apply Forall_cons_2; [|apply Forall_cons_2; [|apply Forall_nil_2]]; cbn [p_type p_name].
  - assert (Hp : param_fixtures ex_fixtures "_Owner" = Some [VAddress 11; VAddress 12])
      by (vm_compute; reflexivity).
    rewrite Hp. intros l [= <-]. split; [done|].
    intros v [->|[->|[]%not_elem_of_nil]%elem_of_cons]%elem_of_cons _; cbn; width_lia.
  - assert (Hp : param_fixtures ex_fixtures "data" = None) by (vm_compute; reflexivity).
    rewrite Hp. by intros l [=].
Qed.

Lemma fuzz_param_typed_witness :
  fixtures_ok ex_matches TAddress (Some [VAddress 11]) ∧
  yields (fuzz_param_with_fixtures (R := list Z) ex_any_draws ex_matches TAddress (Some [VAddress 11]) true)
    (has_type TAddress).
Proof.
  assert (Hf : fixtures_ok ex_matches TAddress (Some [VAddress 11])).
  { intros l [= <-]. split; [done|]. intros v ->%list_elem_of_singleton _. cbn. width_lia. }
  split; [exact Hf|].
  exact (fuzz_param_typed ex_any_draws ex_any_draws_drawn ex_matches TAddress (Some [VAddress 11])
    true I Hf).
Defined.

Lemma calldata_is_valid_witness :
  ∃ r', fuzz_calldata (R := list Z) ex_any_draws ex_matches ex_encode ex_inputs ex_fixtures false [1; 0] =
    Some ([1; 2; 3; 4], r').
Proof.
  assert (Ht : Forall (λ i, supported (p_type i)) ex_inputs).
  { apply Forall_cons_2; [exact I|]. apply Forall_cons_2; [exact ex_type_supported|constructor]. }
  assert (He : ∀ inputs values, Forall2 has_type (p_type <$> inputs) values →
    is_Some (ex_encode inputs values)) by (intros; by eexists).
  destruct (proj1 (calldata_is_valid ex_any_draws ex_function_from_word ex_seeded ex_matches ex_encode
    ex_any_draws_drawn ex_function_in ex_seeded_in He ex_inputs ex_fixtures false (ex_state false)
    Ht ex_fixtures_ok (ex_state_ok false)) [1; 0]) as (data & r' & Hr & values & _ & Hd).
  exists r'. rewrite Hr. unfold ex_encode in Hd. by simplify_eq.
Defined.

(** ** Where the code does not do what it is meant to *)

(** A fixture that is an empty array makes the generator of an address panic:
    an index is taken in no elements. *)
Example empty_fixture_panics :
  fuzz_param_with_fixtures ex_any_draws ex_matches TAddress (Some []) false [1; 0] = None.
Proof. reflexivity. Qed.

(** A reserved address is moved after it was compared with the libraries, and
    may become one. *)
Example moved_into_library :
  let s := mkState (inner (ex_state true)) [65545] None : @EvmFuzzState unit in
  address_value ex_seeded s 9 = Some 65545.
Proof. vm_compute. reflexivity. Qed.
