(* ===== verification/Targets.v ===== *)
(** * The targets of an invariant test

    Models how the contracts, functions and senders of an invariant test are
    chosen: the filters and targets of [crates/evm/fuzz/src/invariant]
    ([filters.rs], [mod.rs]), their selection by the test contract in
    [crates/evm/evm/src/executors/invariant/mod.rs], and the kinds of test
    functions of [crates/common/src/traits.rs].

    What the test contract answers to [targetContracts()] and the like is a
    record; project contracts are given in the order they are iterated, maps
    sorted by key are [gmap]s iterated in the order of their keys. *)
From S2P Require Import Prelude DynSol FuzzDict FuzzParam FuzzParamSpec.
From stdpp Require Import sorting strings.
Local Open Scope Z_scope.

(** ** Test functions *)

Inductive TestFunctionKind :=
| Setup
| UnitTest (should_fail : bool)
| FuzzTest (should_fail : bool)
| InvariantTestKind
| TableTest
| AfterInvariant
| Fixture
| Unknown.

Definition eq_ignore_ascii_case (a b : string) : bool := String.eqb (to_lowercase a) (to_lowercase b).

Definition classify (name : string) (has_inputs : bool) : TestFunctionKind :=
  if String.prefix "test" name then
    let should_fail := String.prefix "testFail" name in
    if has_inputs then FuzzTest should_fail else UnitTest should_fail
  else if String.prefix "invariant" name || String.prefix "statefulFuzz" name then InvariantTestKind
  else if String.prefix "table" name then TableTest
  else if eq_ignore_ascii_case name "setup" && negb has_inputs then Setup
  else if eq_ignore_ascii_case name "afterinvariant" then AfterInvariant
  else if String.prefix "fixture" name then Fixture
  else Unknown.

Definition is_any_test (k : TestFunctionKind) : bool :=
  match k with UnitTest _ | FuzzTest _ | TableTest | InvariantTestKind => true | _ => false end.

Inductive StateMutability := Pure | View | NonPayable | Payable.
#[export] Instance StateMutability_eq_dec : EqDecision StateMutability.
Proof. solve_decision. Defined.

#[export] Instance Param_eq_dec : EqDecision Param.
Proof. solve_decision. Defined.

(** [alloy_json_abi::Function]. *)
Record Function := mkFunction {
  f_name : string;
  selector : Z;
  state_mutability : StateMutability;
  f_inputs : list Param;
}.
#[export] Instance Function_eq_dec : EqDecision Function.
Proof. solve_decision. Defined.

Definition function_kind (f : Function) : TestFunctionKind :=
  classify (f_name f) (match f_inputs f with [] => false | _ => true end).
Definition is_reserved (f : Function) : bool :=
  is_any_test (function_kind f) ||
  match function_kind f with Setup | AfterInvariant | Fixture => true | _ => false end ||
  eq_ignore_ascii_case (f_name f) "beforetestsetup".

Definition is_mutable (f : Function) : bool :=
  match state_mutability f with Pure | View => false | _ => true end.

(** [JsonAbi]: the functions by name, the overloads of a name in a list. *)
Abbreviation JsonAbi := (gmap string (list Function)).
Definition name_le {A} (x y : string * A) : Prop := String.leb x.1 y.1 = true.
#[export] Instance name_le_dec {A} (x y : string * A) : Decision (name_le x y) := decide (_ = true).
Definition abi_functions (abi : JsonAbi) : list Function :=
  mjoin (snd <$> merge_sort name_le (map_to_list abi)).

(** ** Filters *)

(** Errors are told apart by their cause. *)
Inductive Error := NoSelector | NotFound | Ambiguous | NoContract | NothingToFuzz.

Definition find_function (sel : Z) (abi : JsonAbi) : option Function :=
  snd <$> list_find (λ f, selector f = sel) (abi_functions abi).
Definition get_function (sel : Z) (abi : JsonAbi) : result Error Function :=
  match find_function sel abi with Some f => Ok f | None => Err NoSelector end.

(** [collect::<Result<Vec<_>>>()] *)
Fixpoint collect_ok {A B} (f : A → result Error B) (l : list A) : result Error (list B) :=
  match l with
  | [] => Ok []
  | x :: l => y ← f x; ys ← collect_ok f l; mret (y :: ys)
  end.

(** An artifact: its identifier ([path:name]), its name and its source. *)
Record ArtifactFilters := mkFilters {
  af_targeted : gmap string (list Z);
  af_excluded : list string;
}.

Definition af_matches (identifier : string) (f : ArtifactFilters) : bool :=
  (bool_decide (af_targeted f = ∅) || bool_decide (is_Some (af_targeted f !! identifier))) &&
  (bool_decide (af_excluded f = []) || negb (bool_decide (identifier ∈ af_excluded f))).

(** [None]: not a target; an empty list: any mutable function. *)
Definition get_targeted_functions (identifier : string) (abi : JsonAbi) (f : ArtifactFilters)
    : result Error (option (list Function)) :=
  match af_targeted f !! identifier with
  | Some selectors =>
      functions ← collect_ok (λ sel, get_function sel abi) selectors;
      mret (if bool_decide (functions = []) && bool_decide (identifier ∈ af_excluded f)
            then None else Some functions)
  | None =>
      mret (if bool_decide (af_targeted f = ∅) && negb (bool_decide (identifier ∈ af_excluded f))
            then Some [] else None)
  end.

(** [SenderFilters::new]: exclusion takes priority, and nobody is zero. *)
Definition SenderFilters_new (targets excludes : list Z) : SenderFilters :=
  let excludes := if decide (0 ∈ excludes) then excludes else excludes ++ [0] in
  mkSenders (filter (λ a, a ∉ excludes) targets) excludes.

(** ** Targets *)

Section targets.
Context {Layout Path : Type}.

Record TargetedContract := mkTarget {
  identifier : string;
  abi : JsonAbi;
  targeted_functions : list Function;
  excluded_functions : list Function;
  storage_layout : option Layout;
}.

Definition TargetedContract_new (id : string) (a : JsonAbi) : TargetedContract :=
  mkTarget id a [] [] None.

(** A contract of the project. *)
Record Artifact := mkArtifact {
  art_identifier : string;
  art_name : string;
  art_source : Path;
  art_abi : JsonAbi;
  art_layout : option Layout;
}.

Context (ends_with : Path → string → bool).

(** [split_once(':')] *)
Definition split_once_colon (s : string) : option (string * string) :=
  match String.index 0 ":" s with
  | Some i => Some (String.substring 0 i s, String.substring (S i) (String.length s - S i) s)
  | None => None
  end.

Definition find_project (src name : string) (project : list Artifact) : option Artifact :=
  snd <$> list_find (λ a, art_name a = name ∧ ends_with (art_source a) src = true) project.

Definition with_project_contracts (project : list Artifact) (c : TargetedContract)
    : TargetedContract :=
  match split_once_colon (identifier c) with
  | Some (src, name) =>
      match find_project src name project with
      | Some a => mkTarget (identifier c) (abi c) (targeted_functions c) (excluded_functions c) (art_layout a)
      | None => c
      end
  | None => c
  end.

Definition abi_fuzzed_functions (c : TargetedContract) : list Function :=
  match targeted_functions c with
  | [] => filter (λ f, is_mutable f = true ∧ f ∉ excluded_functions c) (abi_functions (abi c))
  | l => l
  end.

Definition push_function (exclude : bool) (f : Function) (c : TargetedContract) : TargetedContract :=
  if exclude
  then mkTarget (identifier c) (abi c) (targeted_functions c) (excluded_functions c ++ [f]) (storage_layout c)
  else mkTarget (identifier c) (abi c) (targeted_functions c ++ [f]) (excluded_functions c) (storage_layout c).

Fixpoint add_selectors (selectors : list Z) (should_exclude : bool) (c : TargetedContract)
    : result Error TargetedContract :=
  match selectors with
  | [] => mret c
  | sel :: selectors =>
      f ← get_function sel (abi c);
      add_selectors selectors should_exclude (push_function should_exclude f c)
  end.

Local Abbreviation TargetedContracts := (gmap Z TargetedContract).

(** The entries in the order of a [BTreeMap]. *)
Definition in_order {A} (m : gmap Z A) : list (Z * A) := sort_keys (map_to_list m).

Definition fuzzed_functions (t : TargetedContracts) : list (Z * Function) :=
  mbind (λ '(address, c), (λ f, (address, f)) <$> abi_fuzzed_functions c)
    (filter (λ '(_, c), abi c ≠ ∅) (in_order t)).

(** A call by its target and the selector of its calldata. *)
Definition fuzzed_artifacts (target sel : Z) (t : TargetedContracts)
    : option JsonAbi * option Function :=
  match t !! target with
  | Some c => (Some (abi c), find_function sel (abi c))
  | None => (None, None)
  end.

Definition can_replay (target sel : Z) (t : TargetedContracts) : bool :=
  match t !! target with
  | Some c => existsb (λ f, selector f =? sel) (abi_functions (abi c))
  | None => false
  end.

(** The identifier of the contract and the name of the function. *)
Definition fuzzed_metric_key (target sel : Z) (t : TargetedContracts) : option (string * string) :=
  c ← t !! target; f ← find_function sel (abi c); Some (identifier c, f_name f).

Definition get_storage_layouts (t : TargetedContracts) (address : Z) : option Layout :=
  t !! address ≫= storage_layout.

(** ** Contracts that are created during a run *)

Record Created := mkCreated { is_touched : bool; cr_code : option (list Z) }.

(** The contract of the project that a code belongs to is found by the
    artifacts of [crates/common]. *)
Context (find_by_deployed_code : list Z → option Artifact).

(** The targets and the list of created contracts; an error ends the loop and
    keeps what was inserted before. *)
Fixpoint collect_created (changes : list (Z * Created)) (setup : gset Z) (filters : ArtifactFilters)
    (t : TargetedContracts) (created : list Z) : result Error unit * TargetedContracts * list Z :=
  match changes with
  | [] => (Ok tt, t, created)
  | (address, account) :: changes =>
      let skip := collect_created changes setup filters t created in
      if decide (address ∈ setup) then skip
      else if negb (is_touched account) then skip
      else
        match cr_code account with
        | None | Some [] => skip
        | Some code =>
            match find_by_deployed_code code with
            | None => skip
            | Some a =>
                match get_targeted_functions (art_identifier a) (art_abi a) filters with
                | Err e => (Err e, t, created)
                | Ok None => skip
                | Ok (Some functions) =>
                    let c := mkTarget (art_name a) (art_abi a) functions [] (art_layout a) in
                    collect_created changes setup filters (<[address := c]> t) (created ++ [address])
                end
            end
        end
  end.

Definition collect_created_contracts (is_updatable : bool) (changes : list (Z * Created))
    (setup : gset Z) (filters : ArtifactFilters) (t : TargetedContracts) (created : list Z)
    : result Error unit * TargetedContracts * list Z :=
  if is_updatable then collect_created changes setup filters t created else (Ok tt, t, created).

Definition clear_created_contracts (created : list Z) (t : TargetedContracts) : TargetedContracts :=
  foldl (λ t address, delete address t) t created.

(** ** Selection by the test contract *)

Definition CHEATCODE_ADDRESS : Z := 0x7109709ECfa91a80626fF3989D68f67F5b1DD12D.
Definition HARDHAT_CONSOLE_ADDRESS : Z := 0x000000000000000000636F6e736F6c652e6c6f67.
Definition DEFAULT_CREATE2_DEPLOYER : Z := 0x4e59b44847b379578588920ca78fbf26c0b4956c.

(** What the test contract answers. *)
Record Answers := mkAnswers {
  targetArtifactSelectors : list (string * list Z);
  targetArtifacts : list string;
  excludeArtifacts : list string;
  targetSenders : list Z;
  excludeSenders : list Z;
  targetContracts : list Z;
  excludeContracts : list Z;
  targetInterfaces : list (Z * list string);
  targetSelectors : list (Z * list Z);
  excludeSelectors : list (Z * list Z);
}.

Section selection.
Context (project : list Artifact) (setup_contracts : gmap Z (string * JsonAbi)).

Definition find_by_name_or_identifier (id : string) : result Error (option Artifact) :=
  match filter (λ a, art_name a = id ∨ art_identifier a = id) project with
  | [] => Ok None
  | [a] => Ok (Some a)
  | _ => Err Ambiguous
  end.

Definition validate_selected_contract (contract : string) (selectors : list Z)
    : result Error string :=
  found ← find_by_name_or_identifier contract;
  match found with
  | Some a =>
      _ ← collect_ok (λ sel, get_function sel (art_abi a)) selectors;
      mret (art_identifier a)
  | None => Err NotFound
  end.

(** A loop whose body may fail. *)
Fixpoint fold_ok {S A} (f : S → A → result Error S) (s : S) (l : list A) : result Error S :=
  match l with
  | [] => Ok s
  | x :: l => s' ← f s x; fold_ok f s' l
  end.

Definition push_excluded (id : string) (f : ArtifactFilters) : ArtifactFilters :=
  if decide (id ∈ af_excluded f) then f else mkFilters (af_targeted f) (af_excluded f ++ [id]).

Definition select_contract_artifacts (ans : Answers) (f : ArtifactFilters)
    : result Error ArtifactFilters :=
  f ← fold_ok (λ f '(artifact, selectors),
        id ← validate_selected_contract artifact selectors;
        mret (mkFilters (<[id := default [] (af_targeted f !! id) ++ selectors]> (af_targeted f))
                (af_excluded f))) f (targetArtifactSelectors ans);
  f ← fold_ok (λ f contract,
        id ← validate_selected_contract contract [];
        mret (push_excluded id f)) f (excludeArtifacts ans);
  let f := foldl (λ f a,
        if bool_decide (filter (λ g, is_mutable g = true) (abi_functions (art_abi a)) = [])
        then push_excluded (art_identifier a) f else f) f project in
  fold_ok (λ f contract,
    id ← validate_selected_contract contract [];
    mret (if bool_decide (af_targeted f !! id = None) && negb (bool_decide (id ∈ af_excluded f))
          then mkFilters (<[id := []]> (af_targeted f)) (af_excluded f) else f)) f (targetArtifacts ans).

(** Does nothing without a selector; a contract that is not a target yet
    becomes one. *)
Definition add_address_with_functions (address : Z) (selectors : list Z) (should_exclude : bool)
    (t : TargetedContracts) : result Error TargetedContracts :=
  match selectors with
  | [] => mret t
  | _ =>
      c ← match t !! address with
          | Some c => Ok c
          | None =>
              match setup_contracts !! address with
              | Some (id, a) => Ok (with_project_contracts project (TargetedContract_new id a))
              | None => Err NoContract
              end
          end;
      c ← add_selectors selectors should_exclude c;
      mret (<[address := c]> t)
  end.

(** The functions of a name are replaced by those of the other interface. *)
Definition extend_abi (c : TargetedContract) (a : JsonAbi) : TargetedContract :=
  mkTarget (identifier c) (a ∪ abi c) (targeted_functions c) (excluded_functions c) (storage_layout c).

Definition add_interface (addr : Z) (combined : TargetedContracts) (id : string)
    : TargetedContracts :=
  match list_find (λ a, art_name a = id ∨ art_identifier a = id) project with
  | Some (_, a) =>
      match combined !! addr with
      | Some entry => <[addr := extend_abi entry (art_abi a)]> combined
      | None => <[addr := mkTarget id (art_abi a) [] [] (art_layout a)]> combined
      end
  | None => combined
  end.

Definition target_interfaces (ans : Answers) (t : TargetedContracts) : TargetedContracts :=
  let combined := foldl (λ combined '(addr, artifacts), foldl (add_interface addr) combined artifacts)
    ∅ (targetInterfaces ans) in
  combined ∪ t.

(** [FuzzSelector]s: the targets, and the last selectors of the test contract. *)
Definition add_fuzz_selectors (test : Z) (should_exclude : bool) (l : list (Z * list Z))
    (t : TargetedContracts) : result Error (list Z * TargetedContracts) :=
  fold_ok (λ '(test_selectors, t) '(addr, selectors),
    t ← add_address_with_functions addr selectors should_exclude t;
    mret (if addr =? test then selectors else test_selectors, t)) ([], t) l.

(** The functions of the test contract that may be called when it is a target. *)
Definition test_selectors (excluded_test_selectors : list Z) (target : TargetedContract) : list Z :=
  selector <$> filter (λ f, is_mutable f = true ∧ is_reserved f = false ∧
    selector f ∉ excluded_test_selectors) (abi_functions (abi target)).

Definition select_selectors (test : Z) (filters : ArtifactFilters) (ans : Answers)
    (t : TargetedContracts) : result Error TargetedContracts :=
  t ← fold_ok (λ t '(address, (id, _)),
        match af_targeted filters !! id with
        | Some selectors => add_address_with_functions address selectors false t
        | None => mret t
        end) t (in_order setup_contracts);
  targeted ← add_fuzz_selectors test false (targetSelectors ans) t;
  let '(target_test_selectors, t) := targeted in
  excluded ← add_fuzz_selectors test true (excludeSelectors ans) t;
  let '(excluded_test_selectors, t) := excluded in
  match target_test_selectors, t !! test with
  | [], Some target =>
      add_address_with_functions test (test_selectors excluded_test_selectors target) false t
  | _, _ => mret t
  end.

Definition selected_contract (to : Z) (filters : ArtifactFilters) (ans : Answers)
    (addr : Z) (id : string) : bool :=
  (addr =? to) && bool_decide (to ∈ targetContracts ans) ||
  negb (addr =? to) && negb (addr =? CHEATCODE_ADDRESS) && negb (addr =? HARDHAT_CONSOLE_ADDRESS) &&
  (bool_decide (targetContracts ans = []) || bool_decide (addr ∈ targetContracts ans)) &&
  (bool_decide (excludeContracts ans = []) || negb (bool_decide (addr ∈ excludeContracts ans))) &&
  af_matches id filters.

Definition initial_targets (to : Z) (filters : ArtifactFilters) (ans : Answers) : TargetedContracts :=
  map_imap (λ addr '(id, a),
    if selected_contract to filters ans addr id
    then Some (with_project_contracts project (TargetedContract_new id a)) else None) setup_contracts.

(** The senders, the targets, and whether created contracts become targets. *)
Definition select_contracts_and_senders (precompiles : list Z) (to : Z) (filters : ArtifactFilters)
    (ans : Answers) : result Error (SenderFilters * TargetedContracts * bool) :=
  let sender_filters := SenderFilters_new (targetSenders ans)
    (excludeSenders ans ++ [CHEATCODE_ADDRESS; HARDHAT_CONSOLE_ADDRESS; DEFAULT_CREATE2_DEPLOYER] ++
     precompiles) in
  let contracts := target_interfaces ans (initial_targets to filters ans) in
  contracts ← select_selectors to filters ans contracts;
  if decide (contracts = ∅) then Err NothingToFuzz
  else mret (sender_filters, contracts, bool_decide (targetContracts ans = [])).
End selection.
End targets.
