(* ===== verification/TargetsSpec.v ===== *)
(** * The targets of an invariant test are those that were asked for

    The theorems about [Targets]: who may send a call, which functions of which
    contracts may be called and why, and that the contracts created during a
    run are targets for that run only.  [TargetsExample] runs the selection on
    a small project. *)
From S2P Require Import Prelude DynSol FuzzDict FuzzParam FuzzParamSpec Targets.
From stdpp Require Import sorting strings.
Local Open Scope Z_scope.

(** ** Senders *)

(** Nobody is a sender who is excluded, and the zero address never is one;
    the targets that are left are those that were asked for. *)
Theorem senders_respect_exclusion targets excludes :
  let f := SenderFilters_new targets excludes in
  (∀ a, a ∈ targeted f ↔ a ∈ targets ∧ a ∉ excludes ∧ a ≠ 0) ∧
  (∀ a, a ∈ excluded f ↔ a ∈ excludes ∨ a = 0).
Proof.
  unfold SenderFilters_new. cbn [targeted excluded].
  assert (Hex : ∀ a, a ∈ (if decide (0 ∈ excludes) then excludes else excludes ++ [0]) ↔
    a ∈ excludes ∨ a = 0).
  { intros a. case_decide as H0; [|set_solver]. split; [by left|]. by intros [?| ->]. }
  split; [|exact Hex]. intros a. rewrite list_elem_of_filter, Hex. tauto.
Qed.

(** ** Results *)

Lemma bind_ok {A B} (m : result Error A) (f : A → result Error B) b :
  (a ← m; f a) = Ok b ↔ ∃ a, m = Ok a ∧ f a = Ok b.
Proof.
  destruct m as [a|e]; simpl; split; try done.
  - intros Hf. by exists a.
  - by intros (a' & [= <-] & Hf).
  - by intros (? & ? & _).
Qed.

Lemma fold_ok_inv {S A} (f : S → A → result Error S) (I : S → Prop) l s s' :
  fold_ok f s l = Ok s' → I s → (∀ s x s', x ∈ l → I s → f s x = Ok s' → I s') → I s'.
Proof.
  revert s. induction l as [|x l IH]; intros s; cbn [fold_ok]; [by intros [= ->]|].
  intros (s1 & H1 & Hl)%bind_ok Hs Hf. apply (IH s1 Hl).
  - eapply Hf; [left|exact Hs|exact H1].
  - intros s2 y s3 Hy. apply Hf. by right.
Qed.

Section targets_spec.
Context {Layout Path : Type} (ends_with : Path → string → bool)
  (find_by_deployed_code : list Z → option (@Artifact Layout Path)).
Local Abbreviation TargetedContract := (@TargetedContract Layout).
Local Abbreviation TargetedContracts := (gmap Z TargetedContract).

(** ** Functions *)

(** What may be called of a target: the functions that were targeted or, when
    none was, the mutable ones that were not excluded. *)
Lemma elem_of_abi_fuzzed_functions (c : TargetedContract) f :
  f ∈ abi_fuzzed_functions c ↔
  match targeted_functions c with
  | [] => f ∈ abi_functions (abi c) ∧ is_mutable f = true ∧ f ∉ excluded_functions c
  | l => f ∈ l
  end.
Proof.
  unfold abi_fuzzed_functions. destruct (targeted_functions c); [|done].
  rewrite list_elem_of_filter. naive_solver.
Qed.

Lemma elem_of_in_order {A} (m : gmap Z A) k x : (k, x) ∈ in_order m ↔ m !! k = Some x.
Proof. unfold in_order, sort_keys. by rewrite merge_sort_Permutation, elem_of_map_to_list. Qed.

(** The generator of calls only ever calls a function of a target that may
    be called, and it may call each of them. *)
Theorem elem_of_fuzzed_functions (t : TargetedContracts) address f :
  (address, f) ∈ fuzzed_functions t ↔
  ∃ c, t !! address = Some c ∧ abi c ≠ ∅ ∧
    match targeted_functions c with
    | [] => f ∈ abi_functions (abi c) ∧ is_mutable f = true ∧ f ∉ excluded_functions c
    | l => f ∈ l
    end.
Proof.
  unfold fuzzed_functions. rewrite list_elem_of_bind. split.
  - intros ([a c] & Hin & Hc). apply list_elem_of_fmap in Hin as (g & [= -> ->] & Hg).
    apply list_elem_of_filter in Hc as [Ha Hc]. apply elem_of_in_order in Hc.
    exists c. split_and!; [done|done|]. by apply elem_of_abi_fuzzed_functions.
  - intros (c & Hc & Ha & Hf). exists (address, c). split.
    + apply list_elem_of_fmap. exists f. split; [done|]. by apply elem_of_abi_fuzzed_functions.
    + apply list_elem_of_filter. split; [done|]. by apply elem_of_in_order.
Qed.

(** ** Created contracts *)

Lemma lookup_clear created (t : TargetedContracts) a :
  clear_created_contracts created t !! a = if decide (a ∈ created) then None else t !! a.
Proof.
  unfold clear_created_contracts. revert t. induction created as [|x created IH]; intros t; cbn [foldl].
  - case_decide as Hin; [by apply not_elem_of_nil in Hin|done].
  - rewrite IH. destruct (decide (a ∈ created)) as [Hin|Hin].
    + rewrite decide_True; [done|by right].
    + destruct (decide (a = x)) as [->|Hne].
      * rewrite decide_True by left. by rewrite lookup_delete_eq.
      * rewrite decide_False by set_solver. by rewrite lookup_delete_ne.
Qed.

(** What makes an account of the state changes a new target. *)
Definition eligible (setup : gset Z) (filters : ArtifactFilters) (change : Z * Created) : Prop :=
  change.1 ∉ setup ∧ is_touched change.2 = true ∧
  ∃ b code a functions, cr_code change.2 = Some (b :: code) ∧
    find_by_deployed_code (b :: code) = Some a ∧
    get_targeted_functions (art_identifier a) (art_abi a) filters = Ok (Some functions).

(** The state of the loop: the targets that were not created are those that
    were there, and only eligible accounts were created. *)
Record tracked (setup : gset Z) (t0 t : TargetedContracts) (created : list Z) : Prop := {
  tracked_old : ∀ a, a ∉ created → t !! a = t0 !! a;
  tracked_created : ∀ a, a ∈ created → a ∉ setup;
}.

Lemma collect_created_tracked changes setup filters t0 t created r t' created' :
  collect_created find_by_deployed_code changes setup filters t created = (r, t', created') →
  tracked setup t0 t created → tracked setup t0 t' created'.
Proof.
  revert t created. induction changes as [|[a acc] changes IH]; intros t created; cbn [collect_created].
  - by intros [= <- <- <-].
  - repeat case_match; try (by intros ?; eauto); try (by intros [= <- <- <-]).
    intros Hc [Ho Hn]. eapply IH; [exact Hc|]. split.
    + intros x Hx. rewrite lookup_insert_ne by set_solver. apply Ho. set_solver.
    + intros x [Hx| ->%list_elem_of_singleton]%elem_of_app; [by apply Hn|done].
Qed.

Lemma collect_created_ok changes setup filters t created t' created' :
  collect_created find_by_deployed_code changes setup filters t created = (Ok tt, t', created') →
  ∀ a, a ∈ created' ↔ a ∈ created ∨ ∃ acc, (a, acc) ∈ changes ∧ eligible setup filters (a, acc).
Proof.
  revert t created. induction changes as [|[a acc] changes IH]; intros t created; cbn [collect_created].
  { intros [= <- <-] a. split; [by left|]. intros [?|(acc & Hin & _)]; [done|]. by apply not_elem_of_nil in Hin. }
  assert (Hskip : ¬ eligible setup filters (a, acc) →
    collect_created find_by_deployed_code changes setup filters t created = (Ok tt, t', created') →
    ∀ x, x ∈ created' ↔
      x ∈ created ∨ ∃ acc', (x, acc') ∈ (a, acc) :: changes ∧ eligible setup filters (x, acc')).
  { intros Hne Hc x. rewrite (IH _ _ Hc x). split.
    - intros [?|(acc' & Hin & He)]; [by left|]. right. exists acc'. split; [by right|done].
    - intros [?|(acc' & [[= -> ->]|Hin]%elem_of_cons & He)]; [by left|done|]. right. eauto. }
  destruct (decide (a ∈ setup)); [apply Hskip; by intros (? & _)|].
  destruct (is_touched acc) eqn:Ht; cbn [negb]; [|apply Hskip; intros (_ & Ht' & _); cbn in Ht'; congruence].
  destruct (cr_code acc) as [[|b code]|] eqn:Hcode;
    [apply Hskip; intros (_ & _ & ? & ? & ? & ? & Hb & _); cbn in Hb; congruence| |
     apply Hskip; intros (_ & _ & ? & ? & ? & ? & Hb & _); cbn in Hb; congruence].
  destruct (find_by_deployed_code (b :: code)) as [art|] eqn:Hf;
    [|apply Hskip; intros (_ & _ & ? & ? & ? & ? & Hb & Hf' & _); cbn in Hb; congruence].
  destruct (get_targeted_functions (art_identifier art) (art_abi art) filters) as [[fs|]|e] eqn:Hg;
    [|apply Hskip; intros (_ & _ & ? & ? & ? & ? & Hb & Hf' & Hg'); cbn in Hb; congruence|done].
  intros Hc x. rewrite (IH _ _ Hc x), elem_of_app, list_elem_of_singleton. split.
  - intros [[?| ->]|(acc' & Hin & He)]; [by left| |].
    + right. exists acc. split; [left|]. by split_and!; [..|exists b, code, art, fs].
    + right. exists acc'. split; [by right|done].
  - intros [?|(acc' & [[= -> ->]|Hin]%elem_of_cons & He)]; [by left; left|by left; right|]. right. eauto.
Qed.

(** The calls of a run: each of them may create contracts, an error stops one. *)
Definition collect_run (setup : gset Z) (filters : ArtifactFilters) (is_updatable : bool)
    (run : list (list (Z * Created))) (t : TargetedContracts) : TargetedContracts * list Z :=
  foldl (λ '(t, created) changes,
    let '(_, t, created) := collect_created_contracts find_by_deployed_code is_updatable changes setup
      filters t created in (t, created)) (t, []) run.

(** The contracts that the calls of a run create become targets for the
    rest of that run only: clearing them gives back the targets that the setup
    left, whatever was created and whether or not an error was met. *)
Theorem created_are_forgotten setup filters is_updatable run (t : TargetedContracts) t' created :
  (∀ a, is_Some (t !! a) → a ∈ setup) →
  collect_run setup filters is_updatable run t = (t', created) →
  clear_created_contracts created t' = t.
Proof.
  intros Hsetup Hrun.
  assert (Ht : tracked setup t t' created).
  { unfold collect_run in Hrun.
    assert (Hgen : ∀ run s s', foldl (λ '(t, created) changes,
        let '(_, t, created) := collect_created_contracts find_by_deployed_code is_updatable changes
          setup filters t created in (t, created)) s run = s' →
        tracked setup t s.1 s.2 → tracked setup t s'.1 s'.2).
    { clear. intros run. induction run as [|changes run IH]; intros [t1 cr1] s' Hf Hi;
        cbn [foldl] in Hf; [by subst|].
      destruct (collect_created_contracts _ _ _ _ _ _ _) as [[r t2] cr2] eqn:Hc.
      eapply IH; [exact Hf|]. cbn in *. unfold collect_created_contracts in Hc.
      destruct is_updatable; [|by simplify_eq]. by eapply collect_created_tracked. }
    specialize (Hgen run (t, []) (t', created) Hrun). apply Hgen. split; [done|].
    cbn. intros a Ha. by apply not_elem_of_nil in Ha. }
  destruct Ht as [Ho Hn]. apply map_eq. intros a. rewrite lookup_clear.
  case_decide as Hin; [|by apply Ho]. symmetry. apply eq_None_not_Some. intros Hs.
  by destruct (Hn a Hin (Hsetup a Hs)).
Qed.

(** When no error is met, exactly the touched accounts with the code of a
    contract of the project that the filters target, and that the setup did
    not deploy, become targets. *)
Theorem created_become_targets changes setup filters t t' created :
  collect_created_contracts find_by_deployed_code true changes setup filters t [] = (Ok tt, t', created) →
  ∀ a, a ∈ created ↔ ∃ acc, (a, acc) ∈ changes ∧ eligible setup filters (a, acc).
Proof.
  intros Hc a. rewrite (collect_created_ok _ _ _ _ _ _ _ Hc a). split; [|by right].
  intros [Hin|?]; [by apply not_elem_of_nil in Hin|done].
Qed.
End targets_spec.

(** ** Selection *)

Section selection_spec.
Context {Layout Path : Type} (ends_with : Path → string → bool)
  (project : list (@Artifact Layout Path)) (setup_contracts : gmap Z (string * JsonAbi)).
Local Abbreviation TargetedContract := (@TargetedContract Layout).
Local Abbreviation TargetedContracts := (gmap Z TargetedContract).
Local Abbreviation add_address := (add_address_with_functions ends_with project setup_contracts).

(** The contract that functions are added to: a target, or one of the setup. *)
Definition base_contract (t : TargetedContracts) (address : Z) (c : TargetedContract) : Prop :=
  t !! address = Some c ∨
  t !! address = None ∧ ∃ id a, setup_contracts !! address = Some (id, a) ∧
    c = with_project_contracts ends_with project (TargetedContract_new id a).

Lemma add_address_ok address selectors ex t t' :
  add_address address selectors ex t = Ok t' →
  selectors = [] ∧ t' = t ∨
  selectors ≠ [] ∧ ∃ c c', base_contract t address c ∧ add_selectors selectors ex c = Ok c' ∧
    t' = <[address := c']> t.
Proof.
  unfold add_address_with_functions. destruct selectors as [|sel sels]; [intros [= ->]; by left|].
  intros (c & Hc & (c' & Hc' & [= <-])%bind_ok)%bind_ok. right. split; [done|].
  exists c, c'. split_and!; [|done|done]. unfold base_contract.
  destruct (t !! address) as [c0|] eqn:Ht; [injection Hc as ->; by left|].
  destruct (setup_contracts !! address) as [[id a]|] eqn:Hs; [|done].
  injection Hc as <-. right. split; [done|]. by exists id, a.
Qed.

Lemma add_selectors_ok selectors ex (c c' : TargetedContract) :
  add_selectors selectors ex c = Ok c' →
  abi c' = abi c ∧ ∃ fs, Forall2 (λ sel f, find_function sel (abi c) = Some f) selectors fs ∧
    targeted_functions c' = (if ex then targeted_functions c else targeted_functions c ++ fs) ∧
    excluded_functions c' = (if ex then excluded_functions c ++ fs else excluded_functions c).
Proof.
  revert c. induction selectors as [|sel sels IH]; intros c; cbn [add_selectors].
  - intros [= <-]. split; [done|]. exists []. split; [done|]. destruct ex; by rewrite !app_nil_r.
  - intros (f & Hf & Hc)%bind_ok. unfold get_function in Hf.
    destruct (find_function sel (abi c)) as [g|] eqn:Hg; [|done]. injection Hf as ->.
    apply IH in Hc as (Ha & fs & Hfs & Ht & He).
    assert (Hpush : abi (push_function ex f c) = abi c) by by destruct ex.
    rewrite Hpush in *. split; [done|]. exists (f :: fs). split; [by constructor|].
    rewrite Ht, He. destruct ex; cbn; by rewrite <-!app_assoc.
Qed.

(** *** Every target was asked for *)

(** Why an address is a target. *)
Definition asked_for (to : Z) (filters : ArtifactFilters) (ans : Answers) (a : Z) : Prop :=
  (∃ id ab, setup_contracts !! a = Some (id, ab) ∧ selected_contract to filters ans a id = true) ∨
  (∃ ids, (a, ids) ∈ targetInterfaces ans) ∨
  (∃ sels, sels ≠ [] ∧ ((a, sels) ∈ targetSelectors ans ∨ (a, sels) ∈ excludeSelectors ans)) ∨
  (∃ id ab sels, setup_contracts !! a = Some (id, ab) ∧
     af_targeted filters !! id = Some sels ∧ sels ≠ []).

Definition all_asked (P : Z → Prop) (t : TargetedContracts) : Prop := ∀ a, is_Some (t !! a) → P a.

Lemma add_address_asked (P : Z → Prop) address selectors ex t t' :
  add_address address selectors ex t = Ok t' → (selectors ≠ [] → P address) →
  all_asked P t → all_asked P t'.
Proof.
  intros Ha HP Ht. apply add_address_ok in Ha as [[_ ->]|(Hne & c & c' & _ & _ & ->)]; [done|].
  intros a. destruct (decide (a = address)) as [->|Hd]; [by auto|].
  rewrite lookup_insert_ne by done. apply Ht.
Qed.

Lemma add_fuzz_selectors_asked (P : Z → Prop) test ex l t sels t' :
  add_fuzz_selectors ends_with project setup_contracts test ex l t = Ok (sels, t') →
  (∀ a s, (a, s) ∈ l → s ≠ [] → P a) → all_asked P t → all_asked P t'.
Proof.
  intros Hf HP Ht.
  apply (fold_ok_inv _ (λ s, all_asked P s.2) _ _ _ Hf Ht).
  intros [s1 t1] [a s] [s2 t2] Hin H1 (t3 & H3 & [= _ <-])%bind_ok. cbn in *.
  eapply add_address_asked; [exact H3| |exact H1]. by apply HP.
Qed.

Lemma select_selectors_asked (P : Z → Prop) test filters ans t t' :
  select_selectors ends_with project setup_contracts test filters ans t = Ok t' →
  (∀ a s, (a, s) ∈ targetSelectors ans → s ≠ [] → P a) →
  (∀ a s, (a, s) ∈ excludeSelectors ans → s ≠ [] → P a) →
  (∀ a id ab s, setup_contracts !! a = Some (id, ab) → af_targeted filters !! id = Some s → s ≠ [] → P a) →
  all_asked P t → all_asked P t'.
Proof.
  intros Hsel HT HE HA Ht. unfold select_selectors in Hsel.
  apply bind_ok in Hsel as (t1 & H1 & Hsel).
  assert (Ht1 : all_asked P t1).
  { apply (fold_ok_inv _ (all_asked P) _ _ _ H1 Ht).
    intros s [a [id ab]] s' Hin Hs Hstep. apply elem_of_in_order in Hin.
    destruct (af_targeted filters !! id) as [sels|] eqn:Hid; [|by injection Hstep as <-].
    eapply add_address_asked; [exact Hstep| |exact Hs]. by eapply HA. }
  apply bind_ok in Hsel as ([ts t2] & H2 & Hsel). apply add_fuzz_selectors_asked with (P := P) in H2;
    [|done|done].
  apply bind_ok in Hsel as ([es t3] & H3 & Hsel). apply add_fuzz_selectors_asked with (P := P) in H3;
    [|done|done].
  destruct ts; [|by injection Hsel as <-]. destruct (t3 !! test) as [target|] eqn:Htest; [|by injection Hsel as <-].
  eapply add_address_asked; [exact Hsel| |exact H3]. intros _. apply H3. by rewrite Htest.
Qed.

Lemma add_interface_asked addr combined id a :
  is_Some (add_interface project addr combined id !! a) → a = addr ∨ is_Some (combined !! a).
Proof.
  unfold add_interface. destruct (list_find _ project) as [[i art]|]; [|by right].
  destruct (decide (a = addr)) as [->|Hne]; [by left|]. right.
  destruct (combined !! addr); by rewrite lookup_insert_ne in H by done.
Qed.

Lemma target_interfaces_asked ans (t : TargetedContracts) a :
  is_Some (target_interfaces project ans t !! a) →
  (∃ ids, (a, ids) ∈ targetInterfaces ans) ∨ is_Some (t !! a).
Proof.
  unfold target_interfaces. intros Ha. apply lookup_union_is_Some in Ha as [Ha|Ha]; [left|by right].
  assert (Hgen : ∀ l (combined : TargetedContracts),
    is_Some (foldl (λ combined '(addr, artifacts), foldl (add_interface project addr) combined artifacts)
      combined l !! a) → is_Some (combined !! a) ∨ ∃ ids, (a, ids) ∈ l).
  { clear. intros l. induction l as [|[addr ids] l IH]; intros combined; cbn [foldl]; [by left|].
    intros [Ha|(ids' & Hin)]%IH; [|right; exists ids'; by right].
    assert (Hin : is_Some (combined !! a) ∨ a = addr).
    { revert combined Ha. induction ids as [|id ids IHi]; intros combined Ha; cbn [foldl] in Ha; [by left|].
      destruct (IHi _ Ha) as [H1| ->]; [|by right].
      destruct (add_interface_asked _ _ _ _ H1) as [->|?]; [by right|by left]. }
    destruct Hin as [?| ->]; [by left|right; exists ids; left]. }
  destruct (Hgen _ _ Ha) as [Hs|?]; [|done]. rewrite lookup_empty in Hs. by apply is_Some_None in Hs.
Qed.

(** A contract is only called by an invariant test for a reason: it was
    selected among the contracts of the setup, an interface was targeted at
    its address, selectors of it were named, or its artifact was targeted with
    selectors.  A contract that [excludeContracts] names and that none of the
    other answers names is never called. *)
Theorem targets_were_asked_for precompiles to filters ans senders t updatable :
  select_contracts_and_senders ends_with project setup_contracts precompiles to filters ans =
    Ok (senders, t, updatable) →
  (∀ a, is_Some (t !! a) → asked_for to filters ans a) ∧
  (∀ a, a ∈ excludeContracts ans → a ≠ to →
     (∀ ids, (a, ids) ∉ targetInterfaces ans) →
     (∀ sels, (a, sels) ∉ targetSelectors ans ∧ (a, sels) ∉ excludeSelectors ans) →
     (∀ id ab, setup_contracts !! a = Some (id, ab) → af_targeted filters !! id = None) →
     t !! a = None).
Proof.
  unfold select_contracts_and_senders. intros (t1 & H1 & Hok)%bind_ok.
  case_decide; [done|]. injection Hok as _ -> _.
  assert (Hall : all_asked (asked_for to filters ans) t).
  { eapply select_selectors_asked; [exact H1|..].
    - intros a s Hin Hne. right; right; left. eauto.
    - intros a s Hin Hne. right; right; left. eauto.
    - intros a id ab s Hs Hid Hne. right; right; right. eauto 10.
    - intros a [Hi|Hi]%target_interfaces_asked; [right; by left|left].
      unfold initial_targets in Hi. rewrite map_lookup_imap in Hi.
      destruct (setup_contracts !! a) as [[id ab]|] eqn:Hs; [|by apply is_Some_None in Hi].
      cbn in Hi. destruct (selected_contract to filters ans a id) eqn:Hsel; [eauto|by apply is_Some_None in Hi]. }
  split; [exact Hall|]. intros a Hex Hto Hint Hsel Hart. apply eq_None_not_Some. intros Ha.
  destruct (Hall a Ha) as [(id & ab & Hs & Hc)|[(ids & Hin)|[(s & _ & [Hin|Hin])|(id & ab & s & Hs & Hid & _)]]].
  - unfold selected_contract in Hc.
    rewrite (proj2 (Z.eqb_neq a to) Hto) in Hc. cbn in Hc.
    rewrite (bool_decide_eq_true_2 (a ∈ excludeContracts ans)) in Hc by done.
    rewrite (bool_decide_eq_false_2 (excludeContracts ans = [])) in Hc by (by destruct (excludeContracts ans); [apply not_elem_of_nil in Hex|]).
    cbn in Hc. by rewrite andb_false_r in Hc.
  - by apply (Hint ids).
  - by destruct (Hsel s).
  - by destruct (Hsel s).
  - specialize (Hart id ab Hs). congruence.
Qed.

(** *** The functions of the test contract *)

Definition untouched (c : TargetedContract) : Prop :=
  targeted_functions c = [] ∧ NoDup (selector <$> abi_functions (abi c)).

Lemma find_function_unique ab f :
  NoDup (selector <$> abi_functions ab) → f ∈ abi_functions ab →
  find_function (selector f) ab = Some f.
Proof.
  unfold find_function. generalize (abi_functions ab). clear. intros l. induction l as [|g l IH]; intros Hnd Hin.
  { by apply not_elem_of_nil in Hin. }
  cbn [list_find]. csimpl in Hnd. apply NoDup_cons in Hnd as [Hg Hnd].
  case_decide as Hs.
  - apply elem_of_cons in Hin as [->|Hin]; [done|]. destruct Hg. rewrite Hs.
    by apply list_elem_of_fmap_2.
  - apply elem_of_cons in Hin as [->|Hin]; [done|]. specialize (IH Hnd Hin).
    destruct (list_find _ l) as [[i x]|]; [|done]. exact IH.
Qed.

Lemma base_untouched (t : TargetedContracts) address c :
  base_contract t address c → (∀ c, t !! address = Some c → untouched c) →
  (∀ id ab, setup_contracts !! address = Some (id, ab) → NoDup (selector <$> abi_functions ab)) →
  untouched c.
Proof.
  intros [Hc|(_ & id & ab & Hs & ->)] Ht Hset; [by apply Ht|].
  specialize (Hset id ab Hs). unfold with_project_contracts.
  destruct (split_once_colon _) as [[src name]|]; [|by split].
  destruct (find_project _ _ _ _); by split.
Qed.

(** Adding excluded functions, or functions of another contract, leaves the
    target without targeted functions. *)
Lemma add_address_untouched test address selectors ex t t' :
  add_address address selectors ex t = Ok t' → address ≠ test ∨ ex = true →
  (∀ id ab, setup_contracts !! test = Some (id, ab) → NoDup (selector <$> abi_functions ab)) →
  (∀ c, t !! test = Some c → untouched c) → ∀ c, t' !! test = Some c → untouched c.
Proof.
  intros Ha Hor Hset Ht. apply add_address_ok in Ha as [[_ ->]|(_ & c0 & c1 & Hb & Hs & ->)]; [done|].
  destruct (decide (address = test)) as [->|Hne]; [|by rewrite lookup_insert_ne].
  destruct Hor as [?| ->]; [done|]. rewrite lookup_insert_eq. intros c [= <-].
  apply add_selectors_ok in Hs as (Habi & fs & _ & Htg & _).
  destruct (base_untouched _ _ _ Hb Ht Hset) as [H1 H2]. split; [by rewrite Htg|by rewrite Habi].
Qed.

(** When the test contract is itself a target and does not name functions
    of its own, the functions of it that are called are exactly the
    state-changing ones that are not reserved for tests ([setUp], tests,
    fixtures, ...) and were not excluded, provided there is one. *)
Theorem test_contract_functions test filters ans t t' c :
  select_selectors ends_with project setup_contracts test filters ans t = Ok t' →
  (∀ c, t !! test = Some c → untouched c) →
  (∀ id ab, setup_contracts !! test = Some (id, ab) →
     NoDup (selector <$> abi_functions ab) ∧ af_targeted filters !! id = None) →
  (∀ sels, (test, sels) ∉ targetSelectors ans) →
  t' !! test = Some c →
  ∃ excluded_selectors : list Z,
    let callable := filter (λ f, is_mutable f = true ∧ is_reserved f = false ∧
      selector f ∉ excluded_selectors) (abi_functions (abi c)) in
    callable ≠ [] → abi_fuzzed_functions c = callable.
Proof.
  intros Hsel Ht Hset Hno Hc. unfold select_selectors in Hsel.
  assert (Hnd : ∀ id ab, setup_contracts !! test = Some (id, ab) → NoDup (selector <$> abi_functions ab)).
  { intros id ab Hs. by destruct (Hset id ab Hs). }
  apply bind_ok in Hsel as (t1 & H1 & Hsel).
  assert (Ht1 : ∀ c, t1 !! test = Some c → untouched c).
  { apply (fold_ok_inv _ (λ t, ∀ c, t !! test = Some c → untouched c) _ _ _ H1 Ht).
    intros s [a [id ab]] s' Hin Hs Hstep. apply elem_of_in_order in Hin.
    destruct (af_targeted filters !! id) as [sels|] eqn:Hid; [|by injection Hstep as <-].
    eapply add_address_untouched; [exact Hstep| |exact Hnd|exact Hs].
    left. intros ->. destruct (Hset id ab Hin) as [_ Hn]. congruence. }
  apply bind_ok in Hsel as ([ts t2] & H2 & Hsel).
  assert (Ht2 : ts = [] ∧ ∀ c, t2 !! test = Some c → untouched c).
  { apply (fold_ok_inv _ (λ s, s.1 = [] ∧ ∀ c, s.2 !! test = Some c → untouched c) _ _ _ H2 (conj eq_refl Ht1)).
    intros [s1 s2] [a s] s' Hin [H3 H4] (s3 & H5 & [= <-])%bind_ok. cbn in *.
    assert (a ≠ test) as Hne by (intros ->; by apply (Hno s)).
    split; [by rewrite (proj2 (Z.eqb_neq a test) Hne)|].
    eapply add_address_untouched; [exact H5|by left|exact Hnd|exact H4]. }
  destruct Ht2 as [-> Ht2]. apply bind_ok in Hsel as ([es t3] & H3 & Hsel).
  assert (Ht3 : ∀ c, t3 !! test = Some c → untouched c).
  { apply (fold_ok_inv _ (λ s, ∀ c, s.2 !! test = Some c → untouched c) _ _ _ H3 Ht2).
    intros [s1 s2] [a s] s' Hin H4 (s3 & H5 & [= <-])%bind_ok. cbn in *.
    eapply add_address_untouched; [exact H5|by right|exact Hnd|exact H4]. }
  exists es. cbv zeta. intros Hne.
  destruct (t3 !! test) as [target|] eqn:Htest; [|injection Hsel as <-; congruence].
  destruct (Ht3 target eq_refl) as [Htg Hu].
  apply add_address_ok in Hsel as [[Hnil ->]|(_ & c0 & c1 & Hb & Hs & ->)].
  { rewrite Htest in Hc. injection Hc as <-. destruct Hne. unfold test_selectors in Hnil. by apply fmap_nil_inv in Hnil. }
  rewrite lookup_insert_eq in Hc. injection Hc as ->.
  destruct Hb as [Hb|[Hb _]]; [|congruence]. rewrite Htest in Hb. injection Hb as <-.
  apply add_selectors_ok in Hs as (Habi & fs & Hfs & Htf & _).
  assert (Hfs' : fs = filter (λ f, is_mutable f = true ∧ is_reserved f = false ∧ selector f ∉ es)
    (abi_functions (abi target))).
  { unfold test_selectors in Hfs.
    assert (Hsub : ∀ g, g ∈ filter (λ f, is_mutable f = true ∧ is_reserved f = false ∧ selector f ∉ es)
      (abi_functions (abi target)) → find_function (selector g) (abi target) = Some g).
    { intros g [_ Hg]%list_elem_of_filter. by apply find_function_unique. }
    revert fs Htf Hfs Hsub. generalize (filter (λ f, is_mutable f = true ∧ is_reserved f = false ∧ selector f ∉ es)
      (abi_functions (abi target))). intros l fs _. revert fs.
    induction l as [|g l IH]; intros fs Hfs Hsub; csimpl in Hfs.
    - by apply Forall2_nil_inv_l in Hfs.
    - apply Forall2_cons_inv_l in Hfs as (f & fs' & Hf & Hfs & ->).
      rewrite (Hsub g) in Hf by left. injection Hf as <-. f_equal. apply IH; [done|]. intros g' Hg'. apply Hsub. by right. }
  rewrite Habi in *. rewrite <-Hfs' in *.
  unfold abi_fuzzed_functions. rewrite Htf, Htg. cbn [app]. by destruct fs.
Qed.
End selection_spec.

(** ** Concrete selections *)

Module TargetsExample.
Definition fn (name : string) (sel : Z) (m : StateMutability) : Function := mkFunction name sel m [].
Definition set_ := fn "set" 1 NonPayable.
Definition get_ := fn "get" 2 View.
Definition reset_ := fn "reset" 3 Payable.
Definition set_up := fn "setUp" 4 NonPayable.
Definition invariant_ := fn "invariant_sum" 5 NonPayable.

Definition abi_a : JsonAbi := {["set" := [set_]; "get" := [get_]; "reset" := [reset_]]}.
Definition abi_test : JsonAbi := {["setUp" := [set_up]; "invariant_sum" := [invariant_]]}.
Definition abi_test2 : JsonAbi := <["set" := [set_]]> abi_test.

(** The test contract at address 1, two contracts of the setup. *)
Definition setup : gmap Z (string * JsonAbi) :=
  {[1 := ("t.sol:T", abi_test); 10 := ("a.sol:A", abi_a); 11 := ("b.sol:B", abi_a)]}.
Definition art (id name : string) (a : JsonAbi) : @Artifact unit string := mkArtifact id name "" a None.
Definition project : list (@Artifact unit string) :=
  [art "a.sol:A" "A" abi_a; art "b.sol:B" "B" abi_a; art "t.sol:T" "T" abi_test].
Definition ends (_ _ : string) : bool := true.

Definition nothing : Answers := mkAnswers [] [] [] [] [] [] [] [] [] [].
Definition no_filters : ArtifactFilters := mkFilters ∅ [].
Definition select := select_contracts_and_senders ends project setup [] 1.

(** The targets of a selection with their functions. *)
Definition calls (r : result Error (SenderFilters * gmap Z (@TargetedContract unit) * bool))
    : option (list (Z * string)) :=
  match r with
  | Ok (_, t, _) => Some ((λ '(a, f), (a, f_name f)) <$> fuzzed_functions t)
  | Err _ => None
  end.

(** Every contract of the setup but the test contract, every mutable function. *)
Example select_all :
  calls (select no_filters nothing) = Some [(10, "reset"); (10, "set"); (11, "reset"); (11, "set")].
Proof. vm_compute. reflexivity. Qed.

Definition excluding : Answers := mkAnswers [] [] [] [7] [] [] [10] [] [(11, [1])] [].
Example select_excluding : calls (select no_filters excluding) = Some [(11, "set")].
Proof. vm_compute. reflexivity. Qed.

Definition created_run : list (list (Z * Created)) :=
  [[(20, mkCreated true (Some [1])); (10, mkCreated true (Some [1]))]; [(21, mkCreated false (Some [1]))]].
Definition by_code (_ : list Z) : option (@Artifact unit string) := Some (art "b.sol:B" "B" abi_a).
Definition targets0 : gmap Z (@TargetedContract unit) := {[10 := TargetedContract_new "a.sol:A" abi_a]}.

Example senders_respect_exclusion_ex :
  SenderFilters_new [5; 6; 0] [6] = mkSenders [5] [6; 0].
Proof. vm_compute. reflexivity. Qed.

Lemma created_are_forgotten_witness :
  ∃ t' created, collect_run by_code {[1; 10]} no_filters true created_run targets0 = (t', created) ∧
    created = [20] ∧ is_Some (t' !! 20) ∧ clear_created_contracts created t' = targets0.
Proof.
  destruct (collect_run by_code {[1; 10]} no_filters true created_run targets0) as [t' created] eqn:Hr.
  exists t', created. split; [reflexivity|].
  assert (Hs : ∀ a, is_Some (targets0 !! a) → a ∈ ({[1; 10]} : gset Z)).
  { intros a [c Hc]. unfold targets0 in Hc. apply lookup_singleton_Some in Hc as [<- _]. set_solver. }
  split; [revert Hr; vm_compute; by intros [= _ <-]|].
  split; [revert Hr; vm_compute; intros [= <- _]; by eexists|].
  exact (created_are_forgotten by_code {[1; 10]} no_filters true created_run targets0 t' created Hs Hr).
Defined.

Lemma created_become_targets_witness :
  ∃ t', collect_created_contracts by_code true [(20, mkCreated true (Some [1]))] {[1; 10]} no_filters
    targets0 [] = (Ok tt, t', [20]) ∧
  ∃ acc, (20, acc) ∈ [(20, mkCreated true (Some [1]))] ∧
    eligible by_code {[1; 10]} no_filters (20, acc).
Proof.
  eexists. assert (Hr : collect_created_contracts by_code true [(20, mkCreated true (Some [1]))] {[1; 10]}
    no_filters targets0 [] = (Ok tt, <[20 := mkTarget "B" abi_a [] [] None]> targets0, [20]))
    by (vm_compute; reflexivity).
  split; [exact Hr|].
  exact (proj1 (created_become_targets by_code _ _ _ _ _ _ Hr 20) ltac:(left)).
Defined.

Lemma targets_were_asked_for_witness :
  ∃ senders t updatable, select no_filters excluding = Ok (senders, t, updatable) ∧
    asked_for setup 1 no_filters excluding 11 ∧ t !! 10 = None.
Proof.
  destruct (select no_filters excluding) as [[[senders t] updatable]|e] eqn:Hs;
    [|exfalso; revert Hs; vm_compute; discriminate].
  exists senders, t, updatable. split; [reflexivity|].
  destruct (targets_were_asked_for ends project setup [] 1 no_filters excluding senders t updatable Hs)
    as [Hall Hnone].
  split.
  - apply Hall. revert Hs. vm_compute. intros [= _ <- _]. by eexists.
  - apply (Hnone 10); [cbn; left|done|..].
    + intros ids Hin. by apply not_elem_of_nil in Hin.
    + intros sels. split; [|by apply not_elem_of_nil].
      intros [[=]|Hin]%elem_of_cons. by apply not_elem_of_nil in Hin.
    + intros id ab _. apply lookup_empty.
Defined.

(** The test contract as a target. *)
Definition with_test : Answers := mkAnswers [] [] [] [] [] [1] [] [] [] [].
Definition setup2 : gmap Z (string * JsonAbi) := <[1 := ("t.sol:T", abi_test2)]> setup.
Definition targets_test : gmap Z (@TargetedContract unit) := {[1 := TargetedContract_new "t.sol:T" abi_test2]}.

Lemma abi_test2_selectors : NoDup (selector <$> abi_functions abi_test2).
Proof. apply (bool_decide_unpack _). vm_compute. exact I. Qed.

Lemma test_contract_functions_witness :
  ∃ t' c excluded, select_selectors ends project setup2 1 no_filters with_test targets_test = Ok t' ∧
    t' !! 1 = Some c ∧
    (let callable := filter (λ f, is_mutable f = true ∧ is_reserved f = false ∧
       selector f ∉ (excluded : list Z)) (abi_functions (abi c)) in
     callable ≠ [] → abi_fuzzed_functions c = callable).
Proof.
  destruct (select_selectors ends project setup2 1 no_filters with_test targets_test) as [t'|e] eqn:Hs;
    [|exfalso; revert Hs; vm_compute; discriminate].
  destruct (t' !! 1) as [c|] eqn:Hc; [|exfalso; revert Hs Hc; vm_compute; intros [= <-]; discriminate].
  assert (H1 : ∀ c, targets_test !! 1 = Some c → untouched c).
  { intros c' Hc'. unfold targets_test in Hc'. apply lookup_singleton_Some in Hc' as [_ <-]. split; [done|exact abi_test2_selectors]. }
  assert (H2 : ∀ id ab, setup2 !! 1 = Some (id, ab) →
    NoDup (selector <$> abi_functions ab) ∧ af_targeted no_filters !! id = None).
  { intros id ab. unfold setup2. rewrite lookup_insert_eq. intros [= <- <-].
    split; [exact abi_test2_selectors|apply lookup_empty]. }
  assert (H3 : ∀ sels, (1, sels) ∉ targetSelectors with_test) by (intros sels; apply not_elem_of_nil).
  destruct (test_contract_functions ends project setup2 1 no_filters with_test targets_test t' c Hs H1 H2
    H3 Hc) as [excluded He].
  exists t', c, excluded. split; [reflexivity|]. split; [exact Hc|exact He].
Defined.

Example test_contract_without_reserved :
  match select_selectors ends project setup2 1 no_filters with_test targets_test with
  | Ok t => (λ '(a, f), (a, f_name f)) <$> fuzzed_functions t
  | Err _ => []
  end = [(1, "set")].
Proof. vm_compute. reflexivity. Qed.

(** *** Where the code does not do what it is meant to *)

(** Excluding a function of a contract that is not a target makes the contract
    a target: its other functions are called. *)
Example excluded_selector_adds_target :
  calls (select no_filters (mkAnswers [] [] [] [] [] [10] [] [] [] [(11, [1])])) =
  Some [(10, "reset"); (10, "set"); (11, "reset")].
Proof. vm_compute. reflexivity. Qed.

(** When every function of the test contract is reserved, none of them is
    named, and then all of them are called. *)
Example reserved_called_when_alone :
  calls (select no_filters with_test) = Some [(1, "invariant_sum"); (1, "setUp")].
Proof. vm_compute. reflexivity. Qed.

(** Two interfaces at an address are meant to be merged; the overloads of a
    name in the first one are lost. *)
Definition transfer1 := mkFunction "transfer" 6 NonPayable [mkParam "to" TAddress].
Definition transfer2 := mkFunction "transfer" 7 NonPayable [mkParam "amount" (TUint 256)].
Example interfaces_lose_overload :
  let project := [art "i.sol:I" "I" {["transfer" := [transfer1]]}; art "j.sol:J" "J" {["transfer" := [transfer2]]}] in
  let t := target_interfaces project (mkAnswers [] [] [] [] [] [] [] [(30, ["I"; "J"])] [] []) ∅ in
  (λ '(a, f), selector f) <$> fuzzed_functions t = [7].
Proof. vm_compute. reflexivity. Qed.
End TargetsExample.
