(* ===== verification/CallGen.v ===== *)
(** * The calls of an invariant test

    Models the generation of calls of [crates/evm/fuzz/src/strategies/invariants.rs],
    the generator of reentrant calls of [crates/evm/fuzz/src/invariant/call_override.rs]
    with its replay, and the inspector of [crates/evm/fuzz/src/inspector.rs] that
    injects them.  The transfer of value is a parameter of the inspector. *)
From S2P Require Import Prelude ValueTrees DynSol Mutators FuzzDict FuzzParam FuzzParamSpec.
From S2P Require Import Targets TargetsSpec.
From stdpp Require Import strings.
Local Open Scope Z_scope.

(** ** Calls *)

Record CallDetails := mkDetails { cd_target : Z; calldata : list Z }.
Record BasicTxDetails := mkTx {
  warp : option Z;
  roll : option Z;
  sender : Z;
  call_details : CallDetails;
}.

(** What of [InvariantConfig] the strategy reads. *)
Record InvariantConfig := mkInvariantConfig {
  ic_dictionary_weight : Z;
  max_time_delay : option Z;
  max_block_delay : option Z;
}.

Section strategies.
Context {R : Type} `{LawfulRng R} `{LawfulProptest R} {Layout MappingSlots : Type}.
Local Abbreviation Gen := (Gen R).
Local Abbreviation EvmFuzzState := (@EvmFuzzState MappingSlots).
Local Abbreviation TargetedContract := (@TargetedContract Layout).
Local Abbreviation TargetedContracts := (gmap Z TargetedContract).
Context (any_draws : Z → R → Draws * R) (function_from_word : Z → Z) (seeded_address : nat → Z)
  (matches : DynSolValue → DynSolType → bool)
  (* alloy: the calldata of a function, by its selector *)
  (abi_encode_input : Z → list Param → list DynSolValue → option (list Z)).

(** [loop { if !excluded.contains(&addr) { break; } addr = Address::random(); }] *)
Fixpoint until_allowed (fuel : nat) (excluded : list Z) (addr : Z) : Gen Z :=
  if decide (addr ∈ excluded) then
    match fuel with
    | O => panic
    | S fuel => addr ← sure (rng_bits 160); until_allowed fuel excluded addr
    end
  else mret addr.

Definition as_address (v : DynSolValue) : option Z :=
  match v with VAddress a => Some a | _ => None end.

Definition select_random_sender (fuel : nat) (s : EvmFuzzState) (senders : SenderFilters)
    (dictionary_weight : Z) : Gen Z :=
  let no_reserved := no_zksync_reserved_addresses (inner s) in
  if nonempty (targeted senders) then index ← sure any_index; the (index_get index (targeted senders))
  else if 100 <? dictionary_weight then panic
  else
    from_state ← sure (weighted dictionary_weight);
    v ← (if (from_state : bool)
         then fuzz_param_from_state function_from_word seeded_address TAddress s
         else fuzz_param any_draws matches TAddress no_reserved);
    addr ← the (as_address v);
    until_allowed fuel (excluded senders) addr.

Definition fuzz_contract_with_calldata (s : EvmFuzzState) (fixtures : FuzzFixtures) (target : Z)
    (func : Function) : Gen CallDetails :=
  let no_reserved := no_zksync_reserved_addresses (inner s) in
  fresh_input ← sure (weighted 60);
  data ← (if (fresh_input : bool)
          then fuzz_calldata any_draws matches (abi_encode_input (selector func)) (f_inputs func)
                 fixtures no_reserved
          else fuzz_calldata_from_state function_from_word seeded_address
                 (abi_encode_input (selector func)) (f_inputs func) s);
  mret (mkDetails target data).

Definition warp_roll (cond : bool) : Gen (option Z) :=
  if cond then Some <$> sure (rng_bits 256) else mret None.

(** [value % U256::from(max)] *)
Definition delay (max : option Z) (value : option Z) : Gen (option Z) :=
  match value with
  | Some v => let m := default 0 max in if m =? 0 then panic else mret (Some (v mod m))
  | None => mret None
  end.

Definition invariant_strat (fuel : nat) (s : EvmFuzzState) (senders : SenderFilters)
    (contracts : TargetedContracts) (config : InvariantConfig) (fixtures : FuzzFixtures)
    : Gen BasicTxDetails :=
  index ← sure any_index;
  target ← the (index_get index (fuzzed_functions contracts));
  warp ← warp_roll (bool_decide (is_Some (max_time_delay config)));
  roll ← warp_roll (bool_decide (is_Some (max_block_delay config)));
  sender ← select_random_sender fuel s senders (ic_dictionary_weight config);
  details ← fuzz_contract_with_calldata s fixtures target.1 target.2;
  warp ← delay (max_time_delay config) warp;
  roll ← delay (max_block_delay config) roll;
  mret (mkTx warp roll sender details).

(** The contract of an address that is no target is replaced by a random one. *)
Definition override_call_strat (s : EvmFuzzState) (contracts : TargetedContracts) (target : Z)
    (fixtures : FuzzFixtures) : Gen CallDetails :=
  use_target ← sure (weighted 80);
  target_address ← (if (use_target : bool) then mret target
                    else index ← sure any_index; the (index_get index (fst <$> in_order contracts)));
  entry ← (match contracts !! target_address with
           | Some c => mret (target_address, c)
           | None => entry ← choose (in_order contracts); the entry
           end);
  let fuzzed_functions := abi_fuzzed_functions entry.2 in
  index ← sure any_index;
  func ← the (index_get index fuzzed_functions);
  fuzz_contract_with_calldata s fixtures entry.1 func.

(** ** Properties of a generated call *)

Context (any_draws_drawn : ∀ bits r, 0 <= bits → drawn bits (any_draws bits r).1)
  (function_from_word_in : ∀ w, in_u 256 w → in_u 192 (function_from_word w))
  (seeded_address_in : ∀ n, in_u 160 (seeded_address n))
  (abi_encode_some : ∀ sel inputs values,
    Forall2 has_type (p_type <$> inputs) values → is_Some (abi_encode_input sel inputs values)).

(** From every state of the generator an allowed address is drawn within
    [fuel] attempts. *)
Fixpoint leaves (fuel : nat) (excluded : list Z) (r : R) : Prop :=
  match fuel with
  | O => False
  | S fuel => (rng_bits 160 r).1 ∉ excluded ∨ leaves fuel excluded (rng_bits 160 r).2
  end.

Lemma until_allowed_ok fuel excluded addr r :
  in_u 160 addr → addr ∉ excluded ∨ leaves fuel excluded r →
  ∃ a r', until_allowed fuel excluded addr r = Some (a, r') ∧ in_u 160 a ∧ a ∉ excluded.
Proof.
  revert addr r. induction fuel as [|fuel IH]; intros addr r Ha Hor; cbn [until_allowed];
    case_decide as Hin; try (by exists addr, r); destruct Hor as [?|Hl]; try done.
  cbn [leaves] in Hl. unfold mbind, gen_bind, sure.
  pose proof (rng_bits_in 160 r ltac:(lia)) as Hb.
  destruct (rng_bits 160 r) as [a r']. apply IH; done.
Qed.

Definition sender_allowed (f : SenderFilters) (a : Z) : Prop :=
  match targeted f with [] => a ∉ excluded f | l => a ∈ l end.

Lemma select_random_sender_ok fuel s senders w :
  state_ok seeded_address s → w <= 100 → senders_ok (Some senders) →
  (∀ r, leaves fuel (excluded senders) r) →
  yields (select_random_sender fuel s senders w) (λ a, in_u 160 a ∧ sender_allowed senders a).
Proof.
  intros Hs Hw Hok Hl. unfold select_random_sender, sender_allowed. cbv zeta.
  specialize (Hok senders eq_refl).
  destruct (targeted senders) as [|a l]; cbn [nonempty].
  - rewrite (proj2 (Z.ltb_ge _ _) Hw).
    eapply (yields_bind _ _ (λ _, True)); [by apply yields_sure|]. intros fs _.
    eapply (yields_bind _ _ (has_type TAddress)).
    { destruct fs; [by apply from_state_typed|].
      apply (fuzz_param_typed any_draws any_draws_drawn matches TAddress None); done. }
    intros v Hv. destruct v; try done.
    eapply (yields_bind _ _ (in_u 160)); [by eapply (yields_the (Some _))|]. intros addr Ha r.
    apply until_allowed_ok; [done|right; apply Hl].
  - eapply (yields_bind _ _ (λ _, True)); [by apply yields_sure|]. intros index _.
    apply yields_index_get; [done|]. apply Forall_forall. intros x Hx. split; [|done].
    rewrite Forall_forall in Hok. by apply Hok.
Qed.

(** A function that may be called with inputs that can be generated. *)
Definition callable (fixtures : FuzzFixtures) (f : Function) : Prop :=
  Forall (λ input, supported (p_type input) ∧
    fixtures_ok matches (p_type input) (param_fixtures fixtures (p_name input))) (f_inputs f).

(** The calldata calls [f] with arguments of its types. *)
Definition calls_with (f : Function) (data : list Z) : Prop :=
  ∃ values, Forall2 has_type (p_type <$> f_inputs f) values ∧
    abi_encode_input (selector f) (f_inputs f) values = Some data.

Lemma calldata_ok s fixtures target f :
  state_ok seeded_address s → callable fixtures f →
  yields (fuzz_contract_with_calldata s fixtures target f)
    (λ d, cd_target d = target ∧ calls_with f (calldata d)).
Proof.
  intros Hs Hc. unfold fuzz_contract_with_calldata. cbv zeta.
  eapply (yields_bind _ _ (λ _, True)); [by apply yields_sure|]. intros fi _.
  eapply (yields_bind _ _ (calls_with f)); [|intros data Hd; apply yields_ret; by split].
  apply Forall_and in Hc as [Ht Hf].
  destruct (calldata_is_valid any_draws function_from_word seeded_address matches
    (abi_encode_input (selector f)) any_draws_drawn function_from_word_in seeded_address_in
    (abi_encode_some (selector f)) (f_inputs f) fixtures
    (no_zksync_reserved_addresses (inner s)) s Ht Hf Hs) as [H1' H2'].
  by destruct fi.
Qed.

Lemma warp_roll_ok (max : option Z) :
  yields (warp_roll (bool_decide (is_Some max))) (λ v, is_Some v → is_Some max).
Proof.
  unfold warp_roll. case_bool_decide as Hm.
  - eapply yields_fmap; [by apply (yields_sure _ (λ _, True))|]. done.
  - apply yields_ret. by intros []%is_Some_None.
Qed.

Definition delayed (max : option Z) (v : option Z) : Prop :=
  ∀ x, v = Some x → ∃ m, max = Some m ∧ 0 <= x < m.

Lemma delay_ok max v :
  (∀ m, max = Some m → 0 < m) → (is_Some v → is_Some max) → yields (delay max v) (delayed max).
Proof.
  intros Hm Hv. unfold delay. destruct v as [x|]; [|by apply yields_ret].
  destruct max as [m|]; [|destruct Hv as [? ?]; [by eexists|done]].
  change (default 0 (Some m)) with m. specialize (Hm m eq_refl). cbv zeta. rewrite (proj2 (Z.eqb_neq m 0)) by lia.
  apply yields_ret. intros y [= <-]. exists m. split; [done|]. apply Z.mod_pos_bound. lia.
Qed.

(** C39: A generated call of an invariant test is a call of a function that may
    be called, of a contract that is a target, with calldata that encodes
    arguments of its types, from an address the sender filters allow, and
    delayed by less than the limits: generating it never panics, given that
    there is a function to call and that no limit is zero. *)
Theorem generated_call_ok fuel s senders contracts config fixtures :
  state_ok seeded_address s → senders_ok (Some senders) →
  (∀ r, leaves fuel (excluded senders) r) →
  fuzzed_functions contracts ≠ [] →
  (∀ a f, (a, f) ∈ fuzzed_functions contracts → callable fixtures f) →
  ic_dictionary_weight config <= 100 →
  (∀ m, max_time_delay config = Some m → 0 < m) →
  (∀ m, max_block_delay config = Some m → 0 < m) →
  yields (invariant_strat fuel s senders contracts config fixtures) (λ tx,
    (∃ f, (cd_target (call_details tx), f) ∈ fuzzed_functions contracts ∧
       calls_with f (calldata (call_details tx))) ∧
    in_u 160 (sender tx) ∧ sender_allowed senders (sender tx) ∧
    delayed (max_time_delay config) (warp tx) ∧ delayed (max_block_delay config) (roll tx)).
Proof.
  intros Hs Hok Hl Hne Hcall Hw Ht Hb. unfold invariant_strat.
  eapply (yields_bind _ _ (λ _, True)); [by apply yields_sure|]. intros index _.
  eapply (yields_bind _ _ (λ x, x ∈ fuzzed_functions contracts)).
  { apply yields_index_get; [done|]. apply Forall_forall. done. }
  intros [a f] Hin. cbn [fst snd].
  eapply yields_bind; [apply warp_roll_ok|]. intros warp0 Hwarp.
  eapply yields_bind; [apply warp_roll_ok|]. intros roll0 Hroll.
  eapply yields_bind; [by apply select_random_sender_ok|]. intros from [Hfrom Hallowed].
  eapply yields_bind; [apply calldata_ok; [done|by eapply Hcall]|]. intros details [Hta Hd].
  eapply yields_bind; [by apply delay_ok|]. intros warp1 Hw1.
  eapply yields_bind; [by apply delay_ok|]. intros roll1 Hr1.
  apply yields_ret. cbn. split_and!; try done. exists f. by rewrite Hta.
Qed.
End strategies.

(** ** Reentrant calls *)

Record RandomCallGenerator := mkGenerator {
  test_address : Z;
  handler_addresses : gset Z;
  target_reference : Z;
  override_depth : nat;
  replay : bool;
  last_sequence : list (option BasicTxDetails);
}.

Definition set_sequence (l : list (option BasicTxDetails)) (g : RandomCallGenerator)
    : RandomCallGenerator :=
  mkGenerator (test_address g) (handler_addresses g) (target_reference g) (override_depth g)
    (replay g) l.
Definition set_reference (a : Z) (g : RandomCallGenerator) : RandomCallGenerator :=
  mkGenerator (test_address g) (handler_addresses g) a (override_depth g) (replay g) (last_sequence g).
Definition set_depth (n : nat) (g : RandomCallGenerator) : RandomCallGenerator :=
  mkGenerator (test_address g) (handler_addresses g) (target_reference g) n (replay g) (last_sequence g).

Definition RandomCallGenerator_new (test target : Z) (handlers : gset Z) : RandomCallGenerator :=
  mkGenerator test handlers target 0 false [].

Definition is_handler (address : Z) (g : RandomCallGenerator) : bool :=
  bool_decide (address ∈ handler_addresses g).

(** The sequence is reversed so that it can be popped. *)
Definition set_replay (status : bool) (g : RandomCallGenerator) : RandomCallGenerator :=
  mkGenerator (test_address g) (handler_addresses g) (target_reference g) (override_depth g) status
    (if status then rev (last_sequence g) else last_sequence g).

(** [set_up_inner_replay] of the executor. *)
Definition set_up_inner_replay (inner_sequence : list (option BasicTxDetails))
    (g : RandomCallGenerator) : RandomCallGenerator :=
  set_replay true (set_sequence inner_sequence g).

(** Calls of the EVM, as far as they are changed. *)
Inductive CallScheme := Call | CallCode | DelegateCall | StaticCall.
Inductive CallValue := Transfer (v : Z) | Apparent (v : Z).
Record CallInputs := mkInputs {
  ci_input : list Z;
  ci_caller : Z;
  ci_target : Z;
  ci_bytecode : Z;
  ci_known_bytecode : bool;
  ci_value : CallValue;
  ci_scheme : CallScheme;
  ci_gas_limit : Z;
}.
Definition is_call (s : CallScheme) : bool := match s with Call => true | _ => false end.

Section generator.
Context {R : Type} `{Proptest R}.
Local Abbreviation Gen := (Gen R).
(** The strategy of the calls, for the contract that is referred to, and the
    transfer of value in the journal. *)
Context (strategy : Z → Gen CallDetails) {Journal : Type} (transfer : Z → Z → Z → Journal → option Journal).

Definition next_call (original_caller original_target : Z) (g : RandomCallGenerator)
    : Gen (option BasicTxDetails * RandomCallGenerator) :=
  if replay g then
    match last (last_sequence g) with
    | Some choice => mret (choice, set_sequence (removelast (last_sequence g)) g)
    | None => panic
    end
  else
    let g := set_reference original_caller g in
    some ← sure (weighted 90);
    choice ← (if (some : bool)
              then (λ d, Some (mkTx None None original_target d)) <$> strategy original_caller
              else mret None);
    mret (choice, set_sequence (last_sequence g ++ [choice]) g).

Definition skips_override (call : CallInputs) (g : RandomCallGenerator) : bool :=
  (ci_caller call =? test_address g) || negb (is_call (ci_scheme call)) ||
  (0 <? override_depth g)%nat || (ci_target call =? CHEATCODE_ADDRESS) ||
  negb (is_handler (ci_caller call) g) && negb (is_handler (ci_target call) g).

Definition inject (tx : BasicTxDetails) (call : CallInputs) : CallInputs :=
  mkInputs (calldata (call_details tx)) (sender tx) (cd_target (call_details tx))
    (cd_target (call_details tx)) false (Transfer 0) (ci_scheme call) (ci_gas_limit call).

Definition transfer_value (v : CallValue) : option Z :=
  match v with Transfer v => Some v | Apparent _ => None end.

Definition override_call (call : CallInputs) (g : RandomCallGenerator) (j : Journal)
    : Gen (CallInputs * RandomCallGenerator * Journal) :=
  if skips_override call g then mret (call, g, j)
  else
    next ← next_call (ci_caller call) (ci_target call) g;
    let '(choice, g) := next : option BasicTxDetails * RandomCallGenerator in
    match choice with
    | None => mret (call, g, j)
    | Some tx =>
        let value := default 0 (transfer_value (ci_value call)) in
        let has_value := negb (value =? 0) && (2300 <? ci_gas_limit call) in
        if has_value then
          match transfer (ci_caller call) (ci_target call) value j with
          | None => mret (call, g, j)
          | Some j => mret (inject tx call, set_depth 1 g, j)
          end
        else mret (inject tx call, set_depth 1 g, j)
    end.

(** ** The inspector *)

Section fuzzer.
Context {MappingSlots : Type}.
Local Abbreviation EvmFuzzState := (@EvmFuzzState MappingSlots).

Record Fuzzer := mkFuzzer {
  collect : bool;
  call_generator : option RandomCallGenerator;
  fuzz_state : EvmFuzzState;
}.

(** A step sees the stack; the accesses to mappings are not modelled. *)
Definition fuzzer_step (stack : list Z) (f : Fuzzer) : Fuzzer :=
  if collect f
  then mkFuzzer false (call_generator f) (collect_values stack (fuzz_state f)) else f.

Definition fuzzer_call (tx_caller : Z) (call : CallInputs) (f : Fuzzer) (j : Journal)
    : Gen (CallInputs * Fuzzer * Journal) :=
  match call_generator f with
  | Some g =>
      if negb (tx_caller =? ci_caller call) then
        res ← override_call call g j;
        let '(call, g, j) := res : CallInputs * RandomCallGenerator * Journal in
        mret (call, mkFuzzer true (Some g) (fuzz_state f), j)
      else mret (call, mkFuzzer true (Some g) (fuzz_state f), j)
  | None => mret (call, mkFuzzer true None (fuzz_state f), j)
  end.

Definition fuzzer_call_end (f : Fuzzer) : Fuzzer :=
  mkFuzzer true ((λ g, set_depth (Nat.pred (override_depth g)) g) <$> call_generator f) (fuzz_state f).

(** The hooks in the order the EVM runs them, and the calls as they are made. *)
Inductive Hook :=
| HStep (stack : list Z)
| HCall (tx_caller : Z) (call : CallInputs)
| HEnd.

Fixpoint run_hooks (hooks : list Hook) (f : Fuzzer) (j : Journal)
    : Gen (list CallInputs * Fuzzer * Journal) :=
  match hooks with
  | [] => mret ([], f, j)
  | HStep stack :: hooks => run_hooks hooks (fuzzer_step stack f) j
  | HEnd :: hooks => run_hooks hooks (fuzzer_call_end f) j
  | HCall tx_caller call :: hooks =>
      res ← fuzzer_call tx_caller call f j;
      let '(call, f, j) := res : CallInputs * Fuzzer * Journal in
      rest ← run_hooks hooks f j;
      let '(calls, f, j) := rest : list CallInputs * Fuzzer * Journal in
      mret (call :: calls, f, j)
  end.
End fuzzer.

(** ** Replay *)

(** The calls asked for in turn, with their callers and targets. *)
Fixpoint next_calls (args : list (Z * Z)) (g : RandomCallGenerator)
    : Gen (list (option BasicTxDetails) * RandomCallGenerator) :=
  match args with
  | [] => mret ([], g)
  | (caller, target) :: args =>
      next ← next_call caller target g;
      let '(choice, g) := next : option BasicTxDetails * RandomCallGenerator in
      rest ← next_calls args g;
      let '(choices, g) := rest : list (option BasicTxDetails) * RandomCallGenerator in
      mret (choice :: choices, g)
  end.

Lemma bind_some {A B} (m : Gen A) (f : A → Gen B) r b r' :
  (a ← m; f a) r = Some (b, r') ↔ ∃ a r1, m r = Some (a, r1) ∧ f a r1 = Some (b, r').
Proof.
  unfold mbind, gen_bind. destruct (m r) as [[a r1]|]; [|naive_solver]. split; [eauto|naive_solver].
Qed.

Lemma next_call_recorded caller target g r choice g' r' :
  replay g = false → next_call caller target g r = Some ((choice, g'), r') →
  replay g' = false ∧ last_sequence g' = last_sequence g ++ [choice].
Proof.
  intros Hr. unfold next_call. rewrite Hr.
  intros (some & r1 & _ & (c & r2 & _ & Hret)%bind_some)%bind_some.
  injection Hret as <- <- _. by split.
Qed.

Lemma next_calls_recorded args g r choices g' r' :
  replay g = false → next_calls args g r = Some ((choices, g'), r') →
  replay g' = false ∧ last_sequence g' = last_sequence g ++ choices ∧ length choices = length args.
Proof.
  revert g r choices g' r'. induction args as [|[a t] args IH]; intros g r choices g' r' Hr; cbn [next_calls].
  { intros [= <- <- _]. by rewrite app_nil_r. }
  intros ([c g1] & r1 & H1 & ([cs g2] & r2 & H2 & Hret)%bind_some)%bind_some.
  injection Hret as <- <- _.
  apply next_call_recorded in H1 as [Hr1 Hl1]; [|done].
  apply IH in H2 as (Hr2 & Hl2 & Hlen); [|done]. split_and!; [done| |cbn; by rewrite Hlen].
  by rewrite Hl2, Hl1, <-app_assoc.
Qed.

Lemma next_calls_replayed args g r choices :
  replay g = true → last_sequence g = rev choices → length choices = length args →
  ∃ g', next_calls args g r = Some ((choices, g'), r) ∧ replay g' = true ∧ last_sequence g' = [].
Proof.
  revert g choices. induction args as [|[a t] args IH]; intros g choices Hr Hl Hlen; cbn [next_calls].
  { destruct choices; [|done]. by exists g. }
  destruct choices as [|c choices]; [done|]. cbn [rev] in Hl. injection Hlen as Hlen.
  unfold mbind at 1, gen_bind at 1. unfold next_call at 1. rewrite Hr, Hl, last_snoc.
  cbn [mret gen_ret]. unfold mret, gen_ret.
  destruct (IH (set_sequence (removelast (rev choices ++ [c])) g) choices) as (g' & Hn & Hr' & Hl');
    [done|by rewrite removelast_last|done|].
  exists g'. unfold mbind, gen_bind. rewrite Hn. done.
Qed.

(** The calls that were injected while a sequence was found are injected
    again, in the same order and without drawing anything, when the sequence is
    replayed, whatever the callers and targets then are; nothing is left over. *)
Theorem replay_repeats args args' g h r r1 choices g' :
  replay g = false → last_sequence g = [] →
  next_calls args g r = Some ((choices, g'), r1) → length args' = length args →
  ∀ r2, ∃ h', next_calls args' (set_up_inner_replay (last_sequence g') h) r2 = Some ((choices, h'), r2) ∧
    last_sequence h' = [].
Proof.
  intros Hr Hl Hn Hlen r2. apply next_calls_recorded in Hn as (_ & Hseq & Hc); [|done].
  rewrite Hl in Hseq. cbn in Hseq. rewrite Hseq.
  destruct (next_calls_replayed args' (set_up_inner_replay choices h) r2 choices) as (h' & Hh & _ & He);
    [done|done|lia|]. by exists h'.
Qed.

(** ** What is overridden *)

Lemma override_skips call g j : skips_override call g = true → override_call call g j = mret (call, g, j).
Proof. unfold override_call. by intros ->. Qed.

(** A call is only changed into a reentrant one when it is a plain call
    that the test contract does not make, when its caller or its target is a
    handler, and outside an injected call; the injected call takes no value and
    has the scheme and the gas of the one it replaces. *)
Theorem override_is_guarded call g j r call' g' j' r' :
  override_call call g j r = Some ((call', g', j'), r') →
  call' = call ∧ j' = j ∨
  (ci_caller call ≠ test_address g ∧ ci_scheme call = Call ∧ override_depth g = 0%nat ∧
   ci_target call ≠ CHEATCODE_ADDRESS ∧
   (ci_caller call ∈ handler_addresses g ∨ ci_target call ∈ handler_addresses g)) ∧
  override_depth g' = 1%nat ∧ ci_value call' = Transfer 0 ∧ ci_scheme call' = Call ∧
  ci_gas_limit call' = ci_gas_limit call.
Proof.
  unfold override_call. destruct (skips_override call g) eqn:Hs; [intros [= <- _ <- _]; by left|].
  intros ([choice g1] & r1 & Hn & Hret)%bind_some.
  destruct choice as [tx|]; [|injection Hret as <- _ <- _; by left].
  assert (Hguard : ci_caller call ≠ test_address g ∧ ci_scheme call = Call ∧ override_depth g = 0%nat ∧
    ci_target call ≠ CHEATCODE_ADDRESS ∧
    (ci_caller call ∈ handler_addresses g ∨ ci_target call ∈ handler_addresses g)).
  { unfold skips_override in Hs. rewrite !orb_false_iff, andb_false_iff in Hs.
    destruct Hs as [[[[H1 H2] H3] H4] H5]. split_and!.
    - by apply Z.eqb_neq.
    - by destruct (ci_scheme call).
    - apply Nat.ltb_ge in H3. lia.
    - by apply Z.eqb_neq.
    - unfold is_handler in H5. destruct H5 as [H5|H5]; [left|right]; apply negb_false_iff in H5;
        by apply bool_decide_eq_true in H5. }
  assert (Hcall : ci_scheme (inject tx call) = Call) by apply Hguard.
  cbv zeta in Hret. destruct (_ && _).
  - destruct (transfer _ _ _ j) as [j1|]; injection Hret as <- <- <- _; [right|by left].
    by split_and!; try apply Hguard.
  - injection Hret as <- <- <- _. right. by split_and!; try apply Hguard.
Qed.

(** Below an injected call no other is injected until a call ends. *)
Theorem nested_calls_untouched {MappingSlots} hooks (f : @Fuzzer MappingSlots) g j r :
  call_generator f = Some g → (0 < override_depth g)%nat →
  Forall (λ h, h ≠ HEnd) hooks →
  ∃ f', run_hooks hooks f j r =
    Some ((omap (λ h, match h with HCall _ call => Some call | _ => None end) hooks, f', j), r).
Proof.
  intros Hg Hd Hh. revert f g Hg Hd. induction Hh as [|h hooks Hne _ IH]; intros f g Hg Hd; cbn [run_hooks].
  { by eexists. }
  destruct h as [stack|txc call|]; [| |done].
  - cbn [omap list_omap]. eapply (IH _ g); [|done]. unfold fuzzer_step. by case_match.
  - assert (Hcall : fuzzer_call txc call f j r = Some ((call, mkFuzzer true (Some g) (fuzz_state f), j), r)).
    { unfold fuzzer_call. rewrite Hg. case_match; [|done]. unfold mbind, gen_bind.
      rewrite override_skips; [done|]. unfold skips_override.
      rewrite (proj2 (Nat.ltb_lt _ _) Hd). by rewrite !orb_true_r. }
    unfold mbind, gen_bind. rewrite Hcall.
    destruct (IH (mkFuzzer true (Some g) (fuzz_state f)) g eq_refl Hd) as [f' Hf'].
    rewrite Hf'. cbn [omap list_omap]. by exists f'.
Qed.
End generator.

(** ** Concrete runs *)

Module CallExample.
Definition set_ : Function := mkFunction "set" 1 NonPayable [mkParam "owner" TAddress].
Definition get_ : Function := mkFunction "get" 2 View [].
Definition targets (f : Function) : gmap Z (@TargetedContract unit) :=
  {[10 := TargetedContract_new "a.sol:A" {[f_name f := [f]]}]}.
Definition encode (sel : Z) (_ : list Param) (values : list DynSolValue) : option (list Z) :=
  match values with [VAddress a] => Some (sel :: be_bytes 20 a) | _ => Some [sel] end.
Definition config : InvariantConfig := mkInvariantConfig 80 (Some 100) None.

Lemma encode_some sel inputs values :
  Forall2 has_type (p_type <$> inputs) values → is_Some (encode sel inputs values).
Proof. intros _. unfold encode. repeat case_match; by eexists. Qed.

(** Of two numbers in a row one is not zero. *)
Lemma counter_leaves r : leaves (R := Z) (H := Counter.rng) 2 [0] r.
Proof.
  cbn. unfold wrap. destruct (decide (r mod 2 ^ 160 = 0)) as [Hr|Hr]; [right; left|left].
  - rewrite <-Z.add_mod_idemp_l, Hr by lia. change ((0 + 1) mod 2 ^ 160) with 1. set_solver.
  - set_solver.
Qed.

Lemma targets_functions a f : (a, f) ∈ fuzzed_functions (targets set_) → f = set_.
Proof.
  assert (Hf : fuzzed_functions (targets set_) = [(10, set_)]) by (vm_compute; reflexivity).
  rewrite Hf. by intros [= _ ->]%list_elem_of_singleton.
Qed.

Lemma set_callable : callable ex_matches ex_fixtures set_.
Proof.
  apply Forall_singleton. split; [exact I|]. cbn [p_type p_name].
  pose proof ex_fixtures_ok as Hx. apply Forall_cons in Hx as [Ho _]. exact Ho.
Qed.

Definition counter_draws (bits : Z) (r : Z) : Draws * Z :=
  (mkDraws 0 false 0 3 0 (Z.min bits 256) (umax 128) (umax 128) false, r).
Lemma counter_drawn bits r : 0 <= bits → drawn bits (counter_draws bits r).1.
Proof. intros Hb. apply (ex_any_draws_drawn bits []). done. Qed.

Lemma generated_call_ok_witness :
  let P := λ tx,
    (∃ f, (cd_target (call_details tx), f) ∈ fuzzed_functions (targets set_) ∧
       calls_with encode f (calldata (call_details tx))) ∧
    in_u 160 (sender tx) ∧ sender_allowed (SenderFilters_new [] []) (sender tx) ∧
    delayed (max_time_delay config) (warp tx) ∧ delayed (max_block_delay config) (roll tx) in
  yields (invariant_strat (H := Counter.rng) (H1 := Counter.proptest) counter_draws
    ex_function_from_word ex_seeded ex_matches encode 2 (ex_state false)
    (SenderFilters_new [] []) (targets set_) config ex_fixtures) P.
Proof.
  assert (Hok : senders_ok (Some (SenderFilters_new [] []))).
  { intros f [= <-]. constructor. }
  assert (Hl : ∀ r, leaves (H := Counter.rng) 2 (excluded (SenderFilters_new [] [])) r)
    by exact counter_leaves.
  assert (Hne : fuzzed_functions (targets set_) ≠ []) by (vm_compute; discriminate).
  assert (Hcall : ∀ a f, (a, f) ∈ fuzzed_functions (targets set_) → callable ex_matches ex_fixtures f).
  { intros a f ->%targets_functions. exact set_callable. }
  assert (Hw : ic_dictionary_weight config <= 100) by (cbn; lia).
  assert (Ht : ∀ m, max_time_delay config = Some m → 0 < m) by (intros m [= <-]; lia).
  assert (Hb : ∀ m, max_block_delay config = Some m → 0 < m) by (intros m [=]).
  exact (generated_call_ok (H0 := Counter.lawful_rng) (H2 := Counter.lawful_proptest)
    counter_draws ex_function_from_word ex_seeded ex_matches encode counter_drawn ex_function_in
    ex_seeded_in encode_some 2 (ex_state false) (SenderFilters_new [] []) (targets set_) config
    ex_fixtures (ex_state_ok false) Hok Hl Hne Hcall Hw Ht Hb).
Defined.

Import Script.

(** One function, no delay drawn above its limit, the sender from a fixture-free
    strategy, the argument a fixture. *)
Example a_call :
  fst <$> invariant_strat ex_any_draws ex_function_from_word ex_seeded ex_matches encode 2
    (ex_state false) (mkSenders [77] []) (targets set_) config ex_fixtures [0; 250; 0; 1; 1; 1] =
  Some (mkTx (Some 50) None 77 (mkDetails 10 (1 :: be_bytes 20 12))).
Proof. vm_compute. reflexivity. Qed.

(** *** Reentrant calls *)

Definition strategy (target : Z) : Gen (list Z) CallDetails := λ r, Some (mkDetails target [9], r).
Definition transfer (from to value : Z) (j : list (Z * Z * Z)) : option (list (Z * Z * Z)) :=
  Some (j ++ [(from, to, value)]).
Definition generator : RandomCallGenerator := RandomCallGenerator_new 1 0 {[10]}.
(** The handler 10 calls 50. *)
Definition plain (value gas : Z) : CallInputs := mkInputs [] 10 50 50 true (Transfer value) Call gas.

Lemma replay_repeats_witness :
  ∃ choices g', next_calls strategy [(10, 50); (10, 51)] generator [1; 0] = Some ((choices, g'), []) ∧
    choices = [Some (mkTx None None 50 (mkDetails 10 [9])); None] ∧
    ∃ h', next_calls strategy [(0, 0); (0, 0)] (set_up_inner_replay (last_sequence g') generator) [5] =
      Some ((choices, h'), [5]) ∧ last_sequence h' = [].
Proof.
  destruct (next_calls strategy [(10, 50); (10, 51)] generator [1; 0]) as [[[choices g'] r1]|] eqn:Hn;
    [|exfalso; revert Hn; vm_compute; discriminate].
  assert (r1 = []) as -> by (revert Hn; vm_compute; by intros [= _ _ <-]).
  exists choices, g'. split; [reflexivity|].
  split; [revert Hn; vm_compute; by intros [= <- _]|].
  exact (replay_repeats strategy [(10, 50); (10, 51)] [(0, 0); (0, 0)] generator generator [1; 0] []
    choices g' eq_refl eq_refl Hn eq_refl [5]).
Defined.

Lemma override_is_guarded_witness :
  ∃ call' g' j', override_call strategy transfer (plain 5 30000) generator [] [1] =
    Some ((call', g', j'), []) ∧ j' = [(10, 50, 5)] ∧
  (call' = plain 5 30000 ∧ j' = [] ∨
   (ci_caller (plain 5 30000) ≠ test_address generator ∧ ci_scheme (plain 5 30000) = Call ∧
    override_depth generator = 0%nat ∧ ci_target (plain 5 30000) ≠ CHEATCODE_ADDRESS ∧
    (ci_caller (plain 5 30000) ∈ handler_addresses generator ∨
     ci_target (plain 5 30000) ∈ handler_addresses generator)) ∧
   override_depth g' = 1%nat ∧ ci_value call' = Transfer 0 ∧ ci_scheme call' = Call ∧
   ci_gas_limit call' = 30000).
Proof.
  destruct (override_call strategy transfer (plain 5 30000) generator [] [1])
    as [[[[call' g'] j'] r1]|] eqn:Hn; [|exfalso; revert Hn; vm_compute; discriminate].
  assert (r1 = []) as -> by (revert Hn; vm_compute; by intros [= _ _ _ <-]).
  exists call', g', j'. split; [reflexivity|].
  split; [revert Hn; vm_compute; by intros [= _ _ <-]|].
  exact (override_is_guarded strategy transfer (plain 5 30000) generator [] [1] call' g' j' [] Hn).
Defined.

Definition fuzzer : @Fuzzer unit := mkFuzzer true (Some generator) (ex_state false).
Definition made (hooks : list Hook) (draws : list Z) : option (list (list Z)) :=
  (λ res : (list CallInputs * _ * _) * _, ci_input <$> res.1.1.1) <$>
  run_hooks strategy transfer hooks fuzzer [] draws.

Lemma nested_calls_untouched_witness :
  ∃ f', run_hooks strategy transfer [HStep [3]; HCall 2 (plain 0 9)]
    (mkFuzzer true (Some (set_depth 1 generator)) (ex_state false)) [] [1] =
    Some (([plain 0 9], f', []), [1]).
Proof.
  assert (Hh : Forall (λ h, h ≠ HEnd) [HStep [3]; HCall 2 (plain 0 9)]).
  { repeat (apply Forall_cons_2 || apply Forall_nil_2); discriminate. }
  exact (nested_calls_untouched strategy transfer [HStep [3]; HCall 2 (plain 0 9)]
    (mkFuzzer true (Some (set_depth 1 generator)) (ex_state false)) (set_depth 1 generator) [] [1]
    eq_refl (Nat.lt_0_succ 0) Hh).
Defined.

(** *** Where the code does not do what it is meant to *)

(** Calls inside an injected call are meant to be left alone; after the first of
    them has ended, the next is injected, although the outer one goes on. *)
Example nested_call_injected :
  made [HCall 2 (plain 0 9); HCall 2 (plain 0 9); HEnd; HCall 2 (plain 0 9)] [1; 1] =
  Some [[9]; []; [9]].
Proof. vm_compute. reflexivity. Qed.

(** A call with value and only the stipend as gas, as [transfer] and [send]
    make it, is replaced by a call without value and nothing is transferred. *)
Example stipend_value_lost :
  match override_call strategy transfer (plain 5 2300) generator [] [1] with
  | Some ((call, _, j), _) => Some (ci_value call, j)
  | None => None
  end = Some (Transfer 0, []).
Proof. vm_compute. reflexivity. Qed.

(** A target without a function that may be called makes the strategy of
    reentrant calls panic. *)
Example view_only_target_panics :
  override_call_strat (R := list Z) ex_any_draws ex_function_from_word ex_seeded ex_matches encode
    (ex_state false) (targets get_) 10 ex_fixtures [1] = None.
Proof. vm_compute. reflexivity. Qed.

(** A delay limited to zero makes the strategy panic. *)
Example zero_delay_panics :
  invariant_strat ex_any_draws ex_function_from_word ex_seeded ex_matches encode 2
    (ex_state false) (mkSenders [77] []) (targets set_) (mkInvariantConfig 80 (Some 0) None)
    ex_fixtures [0; 250; 0; 1; 1; 1] = None.
Proof. vm_compute. reflexivity. Qed.
End CallExample.
