(* ===== verification/Corpus.v ===== *)
(** * The corpus of a fuzz test

    Models [evm/evm/src/executors/corpus.rs] with [merge_edge_coverage] of
    [executors/mod.rs]: the sequences of calls that reached new code, what they
    are mutated into, and how the workers of a test share them through files.

    The names of the corpus files are texts; their directories are maps from
    names to contents, in which the operating system may refuse an operation.
    Uuids, the ABI codec, the generator of calls and the choice of a mutation
    are arguments, and so are the clock and the fresh uuids.  [None] is a
    panic. *)
From S2P Require Import Prelude.
From S2P Require Import Text.
From S2P Require Import CastBase.
From S2P Require Import ValueTrees.
From S2P Require Import DynSol.
From S2P Require Import Mutators.
From S2P Require Import FuzzDict.
From S2P Require Import FuzzParam.
From S2P Require Import FuzzParamSpec.
From S2P Require Import Targets.
From S2P Require Import Shrink.
From Stdlib Require Import SpecFloat.
Local Open Scope Z_scope.

(** ** Edge coverage *)

Definition bucket (curr : Z) : Z :=
  if curr <=? 0 then 0 else if curr =? 1 then 1 else if curr =? 2 then 2
  else if curr =? 3 then 4 else if curr <=? 7 then 8 else if curr <=? 15 then 16
  else if curr <=? 31 then 32 else if curr <=? 127 then 64 else 128.

(** One pair of the maps: the new history, and whether it is new coverage and
    a new edge. *)
Definition merge_edge (curr hist : Z) : Z * bool * bool :=
  if (0 <? curr) && (hist <? bucket curr) then (bucket curr, true, hist =? 0) else (hist, false, false).

(** The coverage of a call is zeroed by the code and not read again. *)
Fixpoint merge_edges (x history_map : list Z) : list Z * (bool * bool) :=
  match x, history_map with
  | curr :: x, hist :: history_map =>
      let '(hist, new_coverage, is_edge) := merge_edge curr hist in
      let '(history_map, (news, edges)) := merge_edges x history_map in
      (hist :: history_map, (new_coverage || news, is_edge || edges))
  | _, _ => (history_map, (false, false))
  end.

Definition merge_edge_coverage (edge_coverage : option (list Z)) (history_map : list Z)
    : list Z * (bool * bool) :=
  match edge_coverage with
  | Some x => merge_edges x history_map
  | None => (history_map, (false, false))
  end.

(** ** Entries and their names *)

(** [uuid::Uuid]: what is used of it. *)
Class Uuids := {
  Uuid : Type;
  uuid_eq_dec :: EqDecision Uuid;
  uuid_to_string : Uuid → str;
  uuid_parse_str : str → option Uuid;
}.
Class UuidLaws `{Uuids} := { parse_to_string u : uuid_parse_str (uuid_to_string u) = Some u }.

Definition trim_suffix_once (suffix s : str) : option str :=
  let n := (length s - length suffix)%nat in
  if bool_decide (suffix ≠ []) && bool_decide (drop n s = suffix) && (length suffix <=? length s)%nat
  then Some (take n s) else None.

(** [str::trim_end_matches] of a text: [fuel] is its length. *)
Fixpoint trim_end_matches (fuel : nat) (suffix s : str) : str :=
  match fuel with
  | O => s
  | S fuel =>
      match trim_suffix_once suffix s with
      | Some s => trim_end_matches fuel suffix s
      | None => s
      end
  end.
Definition trim_end (suffix s : str) : str := trim_end_matches (length s) suffix s.

(** [str::rsplit_once] of a character. *)
Fixpoint rsplit_once (c : char) (s : str) : option (str * str) :=
  match s with
  | [] => None
  | x :: s =>
      match rsplit_once c s with
      | Some (a, b) => Some (x :: a, b)
      | None => if x =? c then Some ([], s) else None
      end
  end.

Section corpus.
Context `{Uuids} {R : Type} `{LawfulRng R} `{LawfulProptest R} {MappingSlots Layout : Type}.
Context {Backend Changes EvmError : Type}.

Definition parse_corpus_filename (name : str) : option (Uuid * Z) :=
  let name := trim_end (lit ".json") (trim_end (lit ".gz") name) in
  '(uuid_str, timestamp_str) ← rsplit_once 45 name;
  uuid ← uuid_parse_str uuid_str;
  match u64_from_str_radix timestamp_str 10 with
  | Ok timestamp => Some (uuid, timestamp)
  | Err _ => None
  end.

Record CorpusEntry := mkEntry {
  uuid : Uuid;
  total_mutations : Z;
  new_finds_produced : Z;
  tx_seq : list BasicTxDetails;
  is_favored : bool;
  entry_timestamp : Z;
}.

Definition new_with (tx_seq : list BasicTxDetails) (u : Uuid) (now : Z) : CorpusEntry :=
  mkEntry u 0 0 tx_seq false now.
Definition new_existing (tx_seq : list BasicTxDetails) (name : str) (now : Z) : option CorpusEntry :=
  '(u, _) ← parse_corpus_filename name; Some (new_with tx_seq u now).

(** [size_of::<BasicTxDetails>()] *)
Context (size_of_tx : Z).
Definition GZIP_THRESHOLD : Z := 4 * 1024.
Definition estimate_serialized_size (tx : BasicTxDetails) : Z :=
  size_of_tx + Z.of_nat (length (calldata (call_details tx))) * 2.
Definition should_gzip (can_gzip : bool) (e : CorpusEntry) : bool :=
  can_gzip && (GZIP_THRESHOLD <? foldr Z.add 0 (estimate_serialized_size <$> tx_seq e)).
Definition file_name (can_gzip : bool) (e : CorpusEntry) : str :=
  uuid_to_string (uuid e) ++ lit "-" ++ digits 10 (entry_timestamp e)
    ++ (if should_gzip can_gzip e then lit ".json.gz" else lit ".json").

(** [FAVORABILITY_THRESHOLD] is the double that is nearest to 0.3. *)
Definition FAVORABILITY_THRESHOLD : spec_float := f64_div (f64_of_Z 3) (f64_of_Z 10).
Definition favorable (new_finds_produced total_mutations : Z) : bool :=
  SFltb FAVORABILITY_THRESHOLD (f64_div (f64_of_Z new_finds_produced) (f64_of_Z total_mutations)).

(** ** Metrics *)

Record CorpusMetrics := mkMetrics {
  cumulative_edges_seen : Z;
  cumulative_features_seen : Z;
  corpus_count : Z;
  favored_items : Z;
}.
Definition no_metrics : CorpusMetrics := mkMetrics 0 0 0 0.

Definition update_seen (is_edge : bool) (m : CorpusMetrics) : CorpusMetrics :=
  if is_edge then mkMetrics (cumulative_edges_seen m + 1) (cumulative_features_seen m) (corpus_count m) (favored_items m)
  else mkMetrics (cumulative_edges_seen m) (cumulative_features_seen m + 1) (corpus_count m) (favored_items m).
Definition count_entry (m : CorpusMetrics) : CorpusMetrics :=
  mkMetrics (cumulative_edges_seen m) (cumulative_features_seen m) (corpus_count m + 1) (favored_items m).
Definition set_favored (n : Z) (m : CorpusMetrics) : CorpusMetrics :=
  mkMetrics (cumulative_edges_seen m) (cumulative_features_seen m) (corpus_count m) n.

(** [None]: the subtraction underflows. *)
Definition update_favored (is_favored corpus_favored : bool) (m : CorpusMetrics) : option CorpusMetrics :=
  if is_favored && negb corpus_favored then Some (set_favored (favored_items m + 1) m)
  else if negb is_favored && corpus_favored then
    if favored_items m <=? 0 then None else Some (set_favored (favored_items m - 1) m)
  else Some m.

(** [sync_metrics]: the global metrics are atomics, [fetch_sub] wraps. *)
Definition saturating_delta (a b : Z) : Z := Z.max 0 (a - b).
Definition sync_metrics_with (metrics last_sync_metrics global : CorpusMetrics) : CorpusMetrics :=
  mkMetrics
    (wrap 64 (cumulative_edges_seen global
      + saturating_delta (cumulative_edges_seen metrics) (cumulative_edges_seen last_sync_metrics)))
    (wrap 64 (cumulative_features_seen global
      + saturating_delta (cumulative_features_seen metrics) (cumulative_features_seen last_sync_metrics)))
    (wrap 64 (corpus_count global + (corpus_count metrics - corpus_count last_sync_metrics)))
    (wrap 64 (favored_items global + (favored_items metrics - favored_items last_sync_metrics))).

(** ** Files *)

(** A directory maps names to contents; [None] is a text that is not a
    sequence of calls. *)
Abbreviation Dir := (gmap str (option (list BasicTxDetails))).

(** The files directly in the corpus directory, and for each worker those of
    [worker<n>/corpus] and [worker<n>/sync]; a directory that was not created
    is missing. *)
Record Disk := mkDisk {
  corpus_dir_files : Dir;
  corpus_files : gmap nat Dir;
  sync_files : gmap nat Dir;
}.
Definition set_corpus_files (n : nat) (d : Dir) (k : Disk) : Disk :=
  mkDisk (corpus_dir_files k) (<[n := d]> (corpus_files k)) (sync_files k).
Definition set_sync_files (n : nat) (d : Dir) (k : Disk) : Disk :=
  mkDisk (corpus_dir_files k) (corpus_files k) (<[n := d]> (sync_files k)).
Definition create_dir_all (n : nat) (k : Disk) : Disk :=
  mkDisk (corpus_dir_files k) (<[n := default ∅ (corpus_files k !! n)]> (corpus_files k))
    (<[n := default ∅ (sync_files k !! n)]> (sync_files k)).
Definition create_sync_dir (n : nat) (k : Disk) : Disk :=
  set_sync_files n (default ∅ (sync_files k !! n)) k.

(** What the operating system refuses although it could be done. *)
Inductive FileOp := Write | HardLink | Rename | Remove.
Context (refuses : FileOp → nat → str → bool).

Definition write_file (n : nat) (name : str) (txs : list BasicTxDetails) (k : Disk) : option Disk :=
  d ← corpus_files k !! n;
  if refuses Write n name then None else Some (set_corpus_files n (<[name := Some txs]> d) k).

(** [hard_link] from the corpus of [m] to the inbox of [n]. *)
Definition hard_link (m n : nat) (name : str) (k : Disk) : option Disk :=
  from ← corpus_files k !! m; content ← from !! name;
  to ← sync_files k !! n;
  if bool_decide (is_Some (to !! name)) || refuses HardLink n name then None
  else Some (set_sync_files n (<[name := content]> to) k).

(** [rename] from the inbox to the corpus of [n]. *)
Definition rename_synced (n : nat) (name : str) (k : Disk) : option Disk :=
  from ← sync_files k !! n; content ← from !! name;
  to ← corpus_files k !! n;
  if refuses Rename n name then None
  else Some (set_corpus_files n (<[name := content]> to) (set_sync_files n (delete name from) k)).

Definition remove_synced (n : nat) (name : str) (k : Disk) : option Disk :=
  from ← sync_files k !! n; _ ← from !! name;
  if refuses Remove n name then None else Some (set_sync_files n (delete name from) k).

Context `{HashIter}.

Record CorpusDirEntry := mkDirEntry {
  de_name : str;
  de_uuid : Uuid;
  de_timestamp : Z;
  de_content : option (list BasicTxDetails);
}.

(** In the order in which the system lists the directory. *)
Definition read_corpus_dir (d : Dir) : list CorpusDirEntry :=
  omap (λ name, '(u, t) ← parse_corpus_filename name;
                content ← d !! name; Some (mkDirEntry name u t content))
    (hash_iter (dom d)).

(** ** The worker's corpus *)

Record FuzzCorpusConfig := mkConfig {
  has_corpus_dir : bool;
  corpus_gzip : bool;
  corpus_min_mutations : Z;
  corpus_min_size : nat;
  show_edge_coverage : bool;
}.
Definition collect_edge_coverage (c : FuzzCorpusConfig) : bool := has_corpus_dir c || show_edge_coverage c.
Definition is_coverage_guided (c : FuzzCorpusConfig) : bool := has_corpus_dir c.

(** The worker has a directory when the configuration has one. *)
Record WorkerCorpus := mkWorker {
  id : nat;
  in_memory_corpus : list CorpusEntry;
  history_map : list Z;
  failed_replays : Z;
  metrics : CorpusMetrics;
  current_mutated : option Uuid;
  config : FuzzCorpusConfig;
  new_entry_indices : list nat;
  last_sync_timestamp : Z;
  last_sync_metrics : CorpusMetrics;
}.
Definition worker_dir (w : WorkerCorpus) : bool := has_corpus_dir (config w).

Definition set_entries (entries : list CorpusEntry) (indices : list nat) (m : CorpusMetrics)
    (w : WorkerCorpus) : WorkerCorpus :=
  mkWorker (id w) entries (history_map w) (failed_replays w) m (current_mutated w) (config w)
    indices (last_sync_timestamp w) (last_sync_metrics w).
Definition set_history (history : list Z) (m : CorpusMetrics) (w : WorkerCorpus) : WorkerCorpus :=
  mkWorker (id w) (in_memory_corpus w) history (failed_replays w) m (current_mutated w) (config w)
    (new_entry_indices w) (last_sync_timestamp w) (last_sync_metrics w).
Definition set_mutated (u : option Uuid) (w : WorkerCorpus) : WorkerCorpus :=
  mkWorker (id w) (in_memory_corpus w) (history_map w) (failed_replays w) (metrics w) u (config w)
    (new_entry_indices w) (last_sync_timestamp w) (last_sync_metrics w).
Definition set_synced (m : CorpusMetrics) (w : WorkerCorpus) : WorkerCorpus :=
  mkWorker (id w) (in_memory_corpus w) (history_map w) (failed_replays w) (metrics w) (current_mutated w)
    (config w) (new_entry_indices w) (last_sync_timestamp w) m.
Definition end_sync (now : Z) (w : WorkerCorpus) : WorkerCorpus :=
  mkWorker (id w) (in_memory_corpus w) (history_map w) (failed_replays w) (metrics w) (current_mutated w)
    (config w) [] now (last_sync_metrics w).

(** *** After a run *)

Definition merge_coverage (edges : option (list Z)) (w : WorkerCorpus) : bool * WorkerCorpus :=
  let '(history, (new_coverage, is_edge)) := merge_edge_coverage edges (history_map w) in
  (new_coverage,
   set_history history (if new_coverage then update_seen is_edge (metrics w) else metrics w) w).

(** The method [merge_edge_coverage] of the worker. *)
Definition worker_merge_edge_coverage (edges : option (list Z)) (w : WorkerCorpus) : bool * WorkerCorpus :=
  if negb (collect_edge_coverage (config w)) then (false, w) else merge_coverage edges w.

Fixpoint find_entry (u : Uuid) (l : list CorpusEntry) : option (nat * CorpusEntry) :=
  match l with
  | [] => None
  | e :: l => if decide (uuid e = u) then Some (O, e) else '(i, e) ← find_entry u l; Some (S i, e)
  end.

Definition mutated_entry (new_coverage : bool) (e : CorpusEntry) : CorpusEntry :=
  let total_mutations := total_mutations e + 1 in
  let new_finds_produced := new_finds_produced e + (if new_coverage then 1 else 0) in
  mkEntry (uuid e) total_mutations new_finds_produced (tx_seq e)
    (favorable new_finds_produced total_mutations) (entry_timestamp e).

Definition update_mutated (new_coverage : bool) (w : WorkerCorpus) : option WorkerCorpus :=
  match current_mutated w with
  | None => Some w
  | Some u =>
      w ← match find_entry u (in_memory_corpus w) with
          | None => Some w
          | Some (i, e) =>
              let e' := mutated_entry new_coverage e in
              m ← update_favored (is_favored e') (is_favored e) (metrics w);
              Some (set_entries (<[i := e']> (in_memory_corpus w)) (new_entry_indices w) m w)
          end;
      Some (set_mutated None w)
  end.

(** [fresh] and [now] are the new uuid and the time of the entry. *)
Definition process_inputs (fresh : Uuid) (now : Z) (inputs : list BasicTxDetails) (new_coverage : bool)
    (w : WorkerCorpus) (k : Disk) : option (WorkerCorpus * Disk) :=
  if negb (worker_dir w) then Some (w, k)
  else
    w ← update_mutated new_coverage w;
    if negb new_coverage then Some (w, k)
    else
      match inputs with
      | [] => None
      | _ =>
          let corpus := new_with inputs fresh now in
          let k := default k (write_file (id w) (file_name (corpus_gzip (config w)) corpus) inputs k) in
          Some (set_entries (in_memory_corpus w ++ [corpus])
                  (new_entry_indices w ++ [length (in_memory_corpus w)]) (count_entry (metrics w)) w, k)
      end.

(** *** Eviction *)

Fixpoint position {A} (f : A → bool) (l : list A) : option nat :=
  match l with
  | [] => None
  | x :: l => if f x then Some O else S <$> position f l
  end.

Definition evictable (c : FuzzCorpusConfig) (e : CorpusEntry) : bool :=
  (corpus_min_mutations c <? total_mutations e) && negb (is_favored e).

Definition shift_index (index i : nat) : option nat :=
  if (index <? i)%nat then Some (i - 1)%nat else if (i =? index)%nat then None else Some i.

Definition evict_oldest_corpus (w : WorkerCorpus) : WorkerCorpus :=
  if (Nat.max (corpus_min_size (config w)) 1 <? length (in_memory_corpus w))%nat then
    match position (evictable (config w)) (in_memory_corpus w) with
    | Some index =>
        set_entries (delete index (in_memory_corpus w)) (omap (shift_index index) (new_entry_indices w))
          (metrics w) w
    | None => w
    end
  else w.

(** ** New sequences

    A computation draws, and may fail or panic; after a failure the worker is
    not used again. *)

Inductive Error :=
| NotGenerated            (* the strategy rejects *)
| NotDecoded
| NotEncoded
| NotRead                 (* a file is not a sequence of calls *)
| NotNamed                (* the name of a file is not one of the corpus *)
| NotExecuted (e : EvmError).

Definition Try (A : Type) : Type := R → option (result Error A * R).
#[local] Instance try_ret : MRet Try := λ A a r, Some (Ok a, r).
#[local] Instance try_bind : MBind Try := λ A B f m r,
  match m r with
  | Some (Ok a, r) => f a r
  | Some (Err e, r) => Some (Err e, r)
  | None => None
  end.
Definition draw {A} (g : Gen R A) : Try A := λ r, '(a, r) ← g r; Some (Ok a, r).
Definition or_fail {A} (e : Error) (o : option A) : Try A :=
  λ r, Some (match o with Some a => Ok a | None => Err e end, r).
Definition unwrap {A} (o : option A) : Try A := λ r, a ← o; Some (Ok a, r).

(** [random_range(0..n)] *)
Definition index (n : nat) : Try nat := draw (Z.to_nat <$> random_range 0 (Z.of_nat n - 1)).
(** [random_range(start..n)] *)
Definition index_from (start n : nat) : Try nat :=
  draw (Z.to_nat <$> random_range (Z.of_nat start) (Z.of_nat n - 1)).
Definition coin : Try bool := draw (sure rng_bool).

(** [tx_generator.new_tree(runner)] and the choice of [mutation_generator]. *)
Inductive MutationType := Splice | Repeat | Interleave | Prefix | Suffix | Abi.
Context (tx_generator : Gen R (option BasicTxDetails)) (mutation_generator : Gen R MutationType).

Definition new_tx : Try BasicTxDetails := tx ← draw tx_generator; or_fail NotGenerated tx.

(** Calls [start] to [stop - 1] are replaced by new ones. *)
Fixpoint renew (start : nat) (n : nat) (l : list BasicTxDetails) : Try (list BasicTxDetails) :=
  match n with
  | O => mret l
  | S n => tx ← new_tx; l ← unwrap (if decide (start < length l)%nat then Some (<[start := tx]> l) else None);
           renew (S start) n l
  end.

(** *** Mutation of the arguments of a call *)

Context (abi_decode_input : Function → list Z → option (list DynSolValue))
        (abi_encode_input : Function → list DynSolValue → option (list Z))
        (function_from_word : Z → Z) (seeded_address : nat → Z).

Definition set_calldata (data : list Z) (tx : BasicTxDetails) : BasicTxDetails :=
  mkBasicTxDetails (warp tx) (roll tx) (sender tx) (mkCallDetails (target (call_details tx)) data).

Fixpoint times {A} (n : nat) (m : Try A) : Try (list A) :=
  match n with O => mret [] | S n => x ← m; xs ← times n m; mret (x :: xs) end.

(** The rounds take the indices from the last to the first. *)
Fixpoint mutate_args (s : @EvmFuzzState MappingSlots) (function : Function) (idxs : list nat)
    (prev_inputs : list DynSolValue) : Try (list DynSolValue) :=
  match idxs with
  | [] => mret prev_inputs
  | idx :: idxs =>
      param ← unwrap (f_inputs function !! idx);
      value ← unwrap (prev_inputs !! idx);
      value ← draw (mutate_param_value function_from_word seeded_address s (p_type param) value);
      mutate_args s function idxs (<[idx := value]> prev_inputs)
  end.

Definition abi_mutate (s : @EvmFuzzState MappingSlots) (function : Function) (tx : BasicTxDetails)
    : Try BasicTxDetails :=
  let n := length (f_inputs function) in
  arg_mutation_rounds ← draw (Z.to_nat <$> random_range 0 (Z.of_nat n));
  round_arg_idx ← (if (n <=? 1)%nat then mret [O] else times (Nat.max 1 arg_mutation_rounds) (index n));
  let data := calldata (call_details tx) in
  args ← unwrap (if (4 <=? length data)%nat then Some (drop 4 data) else None);
  prev_inputs ← or_fail NotDecoded (abi_decode_input function args);
  inputs ← mutate_args s function (rev round_arg_idx) prev_inputs;
  data ← or_fail NotEncoded (abi_encode_input function inputs);
  mret (set_calldata data tx).

(** *** Mutation of sequences *)

(** The function that a call goes to, if it is known; the selector is a slice
    of the calldata, which panics when it is too short. *)
Definition call_selector (t : gmap Z (@TargetedContract Layout)) (tx : BasicTxDetails) : option Z :=
  let data := calldata (call_details tx) in
  if (4 <=? length data)%nat then Some (of_be_bytes (take 4 data))
  else match t !! target (call_details tx) with
       | Some c => match abi_functions (abi c) with [] => Some 0 | _ => None end
       | None => Some 0
       end.
Definition fuzzed_function_of (t : gmap Z (@TargetedContract Layout)) (tx : BasicTxDetails)
    : option (option Function) :=
  sel ← call_selector t tx; Some (fuzzed_artifacts (target (call_details tx)) sel t).2.
Definition can_replay_call (t : gmap Z (@TargetedContract Layout)) (tx : BasicTxDetails) : option bool :=
  sel ← call_selector t tx; Some (can_replay (target (call_details tx)) sel t).

Fixpoint interleave (l1 l2 : list BasicTxDetails) : Try (list BasicTxDetails) :=
  match l1, l2 with
  | tx1 :: l1, tx2 :: l2 =>
      first ← coin;
      rest ← interleave l1 l2;
      mret ((if first : bool then tx1 else tx2) :: rest)
  | _, _ => mret []
  end.

Definition between {A} (start stop : nat) (l : list A) : list A := drop start (take stop l).

(** The sequence, and the entry that is its primary source. *)
Definition mutate_sequence (s : @EvmFuzzState MappingSlots) (t : gmap Z (@TargetedContract Layout))
    (mutation_type : MutationType) (primary secondary : CorpusEntry) : Try (Uuid * list BasicTxDetails) :=
  let one_of := first ← coin; mret (if first : bool then primary else secondary) in
  match mutation_type with
  | Splice =>
      start1 ← index (length (tx_seq primary));
      end1 ← index_from start1 (length (tx_seq primary));
      start2 ← index (length (tx_seq secondary));
      end2 ← index_from start2 (length (tx_seq secondary));
      mret (uuid primary, between start1 end1 (tx_seq primary) ++ between start2 end2 (tx_seq secondary))
  | Repeat =>
      corpus ← one_of;
      let seq := tx_seq corpus in
      start ← index (length seq);
      stop ← index_from start (length seq);
      item_idx ← index (length seq);
      item ← unwrap (seq !! item_idx);
      mret (uuid corpus, take start seq ++ replicate (stop - start) item ++ drop stop seq)
  | Interleave =>
      seq ← interleave (tx_seq primary) (tx_seq secondary);
      mret (uuid primary, seq)
  | Prefix =>
      corpus ← one_of;
      n ← index (S (length (tx_seq corpus)));
      seq ← renew 0 n (tx_seq corpus);
      mret (uuid corpus, seq)
  | Suffix =>
      corpus ← one_of;
      n ← index (length (tx_seq corpus));
      seq ← renew (length (tx_seq corpus) - n) n (tx_seq corpus);
      mret (uuid corpus, seq)
  | Abi =>
      corpus ← one_of;
      idx ← index (length (tx_seq corpus));
      tx ← unwrap (tx_seq corpus !! idx);
      function ← unwrap (fuzzed_function_of t tx);
      tx ← match function with
           | Some function =>
               match f_inputs function with [] => mret tx | _ => abi_mutate s function tx end
           | None => mret tx
           end;
      mret (uuid corpus, <[idx := tx]> (tx_seq corpus))
  end.

Definition at_least_one (l : list BasicTxDetails) : Try (list BasicTxDetails) :=
  match l with [] => tx ← new_tx; mret [tx] | _ => mret l end.

Definition new_inputs (s : @EvmFuzzState MappingSlots) (t : gmap Z (@TargetedContract Layout))
    (w : WorkerCorpus) : Try (WorkerCorpus * list BasicTxDetails) :=
  if negb (is_coverage_guided (config w)) then tx ← new_tx; mret (w, [tx])
  else
    '(w, new_seq) ←
      match in_memory_corpus w with
      | [] => mret (w, [])
      | _ =>
          let w := evict_oldest_corpus w in
          mutation_type ← draw mutation_generator;
          let corpus_len := length (in_memory_corpus w) in
          i ← index corpus_len; primary ← unwrap (in_memory_corpus w !! i);
          j ← index corpus_len; secondary ← unwrap (in_memory_corpus w !! j);
          '(u, new_seq) ← mutate_sequence s t mutation_type primary secondary;
          mret (set_mutated (Some u) w, new_seq)
      end;
    new_seq ← at_least_one new_seq;
    mret (w, new_seq).

Definition new_input (s : @EvmFuzzState MappingSlots) (function : Function) (w : WorkerCorpus)
    : Try (WorkerCorpus * list Z) :=
  if negb (is_coverage_guided (config w)) then tx ← new_tx; mret (w, calldata (call_details tx))
  else
    let w := evict_oldest_corpus w in
    '(w, tx) ←
      match in_memory_corpus w with
      | [] => tx ← new_tx; mret (w, tx)
      | _ =>
          i ← index (length (in_memory_corpus w)); corpus ← unwrap (in_memory_corpus w !! i);
          tx ← unwrap (head (tx_seq corpus));
          tx ← abi_mutate s function tx;
          mret (set_mutated (Some (uuid corpus)) w, tx)
      end;
    mret (w, calldata (call_details tx)).

(** [random_ratio(1, 10)] *)
Context (random_ratio : Z → Z → R → bool * R).
Definition generate_next_input (sequence : list BasicTxDetails) (discarded : bool) (depth : nat)
    (w : WorkerCorpus) : Try BasicTxDetails :=
  if negb (has_corpus_dir (config w)) || discarded then new_tx
  else if (length sequence - 1 <? depth)%nat then new_tx
  else
    other ← draw (sure (random_ratio 1 10));
    if other : bool then new_tx else unwrap (sequence !! depth).

(** ** Sharing between workers *)

(** The EVM, as in [Shrink]. *)
Context (call_raw : Executor Backend → Address → Address → Bytes → Z →
           result EvmError (RawCallResult Changes))
        (commit : Executor Backend → RawCallResult Changes → Executor Backend)
        (edge_coverage : RawCallResult Changes → option (list Z)).

(** Of the function of a stateless test or of the contracts of an invariant
    test; the selector of a short text is not one. *)
Definition can_replay_tx (tx : BasicTxDetails) (fuzzed_function : option Function)
    (fuzzed_contracts : option (gmap Z (@TargetedContract Layout))) : option bool :=
  replays ← match fuzzed_contracts with Some t => can_replay_call t tx | None => Some false end;
  Some (replays ||
        match fuzzed_function with
        | Some f => (4 <=? length (calldata (call_details tx)))%nat
                    && (of_be_bytes (take 4 (calldata (call_details tx))) =? Targets.selector f)
        | None => false
        end).

Section replay.
Context (fuzzed_function : option Function) (fuzzed_contracts : option (gmap Z (@TargetedContract Layout))).

Definition commit_stateful (executor : Executor Backend) (c : RawCallResult Changes) : Executor Backend :=
  if fuzzed_contracts then commit executor c else executor.

(** The replay of a sequence of the initial corpus: the history, the metrics and
    the failed replays, and whether the entry is kept. *)
Fixpoint replay_initial (txs : list BasicTxDetails) (executor : Executor Backend)
    (history : list Z) (m : CorpusMetrics) (failed : Z)
    : option (result Error (list Z * CorpusMetrics * Z * bool)) :=
  match txs with
  | [] => Some (Ok (history, m, failed, true))
  | tx :: txs =>
      replays ← can_replay_tx tx fuzzed_function fuzzed_contracts;
      if replays : bool then
        match execute_tx call_raw executor tx with
        | Err e => Some (Err (NotExecuted e))
        | Ok (call_result, executor) =>
            let '(history, (new_coverage, is_edge)) := merge_edge_coverage (edge_coverage call_result) history in
            replay_initial txs (commit_stateful executor call_result) history
              (if new_coverage then update_seen is_edge m else m) failed
        end
      else if fuzzed_function then Some (Ok (history, m, failed + 1, false))
      else replay_initial txs executor history m (failed + 1)
  end.

Fixpoint load_initial (now : Z) (files : list CorpusDirEntry) (executor : Executor Backend)
    (entries : list CorpusEntry) (history : list Z) (m : CorpusMetrics) (failed : Z)
    : option (result Error (list CorpusEntry * list Z * CorpusMetrics * Z)) :=
  match files with
  | [] => Some (Ok (entries, history, m, failed))
  | f :: files =>
      match de_content f with
      | None => Some (Err NotRead)
      | Some [] => load_initial now files executor entries history m failed
      | Some txs =>
          replayed ← replay_initial txs executor history m failed;
          match replayed with
          | Err e => Some (Err e)
          | Ok (history, m, failed, false) => load_initial now files executor entries history m failed
          | Ok (history, m, failed, true) =>
              load_initial now files executor (entries ++ [new_with txs (de_uuid f) now]) history
                (count_entry m) failed
          end
      end
  end.

Definition COVERAGE_MAP_SIZE : nat := Z.to_nat 65536.

(** [executor] is given to the master only. *)
Definition WorkerCorpus_new (worker_id : nat) (c : FuzzCorpusConfig) (executor : option (Executor Backend))
    (now : Z) (k : Disk) : option (result Error (WorkerCorpus * Disk)) :=
  let k := if has_corpus_dir c then create_dir_all worker_id k else k in
  let made entries history m failed :=
    mkWorker worker_id entries history failed m None c [] 0 no_metrics in
  let history := replicate COVERAGE_MAP_SIZE 0 in
  if (worker_id =? 0)%nat && has_corpus_dir c then
    executor ← executor;
    loaded ← load_initial now (read_corpus_dir (corpus_dir_files k)) executor [] history no_metrics 0;
    Some ('(entries, history, m, failed) ← loaded; Ok (made entries history m failed, k))
  else Some (Ok (made [] history no_metrics 0, k)).

(** *** Importing what others found *)

Fixpoint select_imports (last_sync : Z) (files : list CorpusDirEntry)
    : result Error (list (CorpusDirEntry * list BasicTxDetails)) :=
  match files with
  | [] => Ok []
  | f :: files =>
      if de_timestamp f <=? last_sync then select_imports last_sync files
      else match de_content f with
           | None => Err NotRead
           | Some [] => select_imports last_sync files
           | Some txs => imports ← select_imports last_sync files; Ok ((f, txs) :: imports)
           end
  end.

Definition load_sync_corpus (w : WorkerCorpus) (k : Disk)
    : result Error (list (CorpusDirEntry * list BasicTxDetails)) :=
  if negb (worker_dir w) then Ok []
  else match sync_files k !! id w with
       | None => Ok []
       | Some d => select_imports (last_sync_timestamp w) (read_corpus_dir d)
       end.

(** The state of one executor goes through all the imported sequences. *)
Fixpoint replay_synced (txs : list BasicTxDetails) (executor : Executor Backend) (w : WorkerCorpus)
    (news : bool) : option (result Error (Executor Backend * WorkerCorpus * bool)) :=
  match txs with
  | [] => Some (Ok (executor, w, news))
  | tx :: txs =>
      replays ← can_replay_tx tx fuzzed_function fuzzed_contracts;
      if replays : bool then
        match execute_tx call_raw executor tx with
        | Err e => Some (Err (NotExecuted e))
        | Ok (call_result, executor) =>
            let '(new_coverage, w) := merge_coverage (edge_coverage call_result) w in
            replay_synced txs (commit_stateful executor call_result) w (news || new_coverage)
        end
      else replay_synced txs executor w news
  end.

Fixpoint calibrate_loop (now : Z) (imports : list (CorpusDirEntry * list BasicTxDetails))
    (executor : Executor Backend) (w : WorkerCorpus) (k : Disk)
    : option (result Error (WorkerCorpus * Disk)) :=
  match imports with
  | [] => Some (Ok (w, k))
  | (f, txs) :: imports =>
      replayed ← replay_synced txs executor w false;
      match replayed with
      | Err e => Some (Err e)
      | Ok (executor, w, true) =>
          match rename_synced (id w) (de_name f) k with
          | None => calibrate_loop now imports executor w k
          | Some k =>
              match new_existing txs (de_name f) now with
              | None => Some (Err NotNamed)
              | Some e =>
                  calibrate_loop now imports executor
                    (set_entries (in_memory_corpus w ++ [e]) (new_entry_indices w) (metrics w) w) k
              end
          end
      | Ok (executor, w, false) =>
          calibrate_loop now imports executor w (default k (remove_synced (id w) (de_name f) k))
      end
  end.

Definition calibrate (now : Z) (executor : Executor Backend) (w : WorkerCorpus) (k : Disk)
    : option (result Error (WorkerCorpus * Disk)) :=
  if negb (worker_dir w) then Some (Ok (w, k))
  else match load_sync_corpus w k with
       | Err e => Some (Err e)
       | Ok imports => calibrate_loop now imports executor w k
       end.

(** *** Exporting *)

Definition export_to_master (w : WorkerCorpus) (k : Disk) : option Disk :=
  if (id w =? 0)%nat then None
  else if negb (worker_dir w) then Some k
  else Some (foldl (λ k index,
         match in_memory_corpus w !! index with
         | None => k
         | Some e => default k (hard_link (id w) 0 (file_name (corpus_gzip (config w)) e) k)
         end) k (new_entry_indices w)).

Definition export_to_workers (num_workers : nat) (w : WorkerCorpus) (k : Disk) : option Disk :=
  if negb (id w =? 0)%nat then None
  else if negb (worker_dir w) then Some k
  else
    let exported := filter (λ f, last_sync_timestamp w < de_timestamp f)
                      (read_corpus_dir (default ∅ (corpus_files k !! O))) in
    Some (foldl (λ k target_worker,
      foldl (λ k f, default k (hard_link 0 target_worker (de_name f) k)) (create_sync_dir target_worker k) exported)
      k (seq 1 (num_workers - 1))).

Definition sync (num_workers : nat) (now : Z) (executor : Executor Backend) (global : CorpusMetrics)
    (w : WorkerCorpus) (k : Disk) : option (result Error (WorkerCorpus * Disk * CorpusMetrics)) :=
  let global := sync_metrics_with (metrics w) (last_sync_metrics w) global in
  let w := set_synced (metrics w) w in
  calibrated ← calibrate now executor w k;
  match calibrated with
  | Err e => Some (Err e)
  | Ok (w, k) =>
      k ← (if (id w =? 0)%nat then export_to_workers num_workers w k else export_to_master w k);
      Some (Ok (end_sync now w, k, global))
  end.
End replay.
End corpus.
