(* ===== verification/InvariantRun.v ===== *)
(** * Campaigns of an invariant test

    Models [invariant_fuzz] of [evm/evm/src/executors/invariant/mod.rs] with
    [can_continue], [assert_invariants] and [assert_after_invariant] of
    [result.rs] and the failures of [error.rs]: the runs of an invariant test,
    the calls of a run, the checks after them and the counterexample that is
    kept.

    The EVM is a parameter, as in [Shrink].  Where the calls come from, what is
    learnt from them, the contracts under test and the time are the class
    [CallSource].  Traces, line coverage and the display of progress are not
    modelled.  [None] is a panic. *)
From S2P Require Import Prelude.
From S2P Require Import Shrink.
From stdpp Require Import strings.
Local Open Scope Z_scope.

(** The corpus, the dictionary and the targets of a campaign, and what the clock
    and the flag for an early exit tell. *)
Class CallSource (G Call E : Type) := {
  new_inputs : G → option (result E (list BasicTxDetails) * G);
  generate_next_input : list BasicTxDetails → bool → nat → G → option (result E BasicTxDetails * G);
  merge_edge_coverage : Call → G → bool * G;
  process_inputs : list BasicTxDetails → bool → G → option G;
  collect_data : BasicTxDetails → Call → Z → G → G;
  (** what a run created, with what the call created *)
  collect_created_contracts : Call → list Address → G → list Address * G;
  clear_created_contracts : list Address → G → G;
  revert_fuzz_state : G → G;
  target_addresses : G → list Address;
  fuzzed_metric_key : BasicTxDetails → G → option (option string);
  (** the calls that were injected into the last one *)
  last_sequence : G → list (option BasicTxDetails);
  should_stop : G → bool * G;
  is_timed_out : G → bool * G;
}.

Record Config := mkConfig {
  runs : Z;
  depth : Z;
  fail_on_revert : bool;
  shrink_run_limit : Z;
  max_assume_rejects : Z;
  check_interval : Z;
  show_metrics : bool;
  has_timeout : bool;
}.

Record Contract := mkContract {
  address : Address;
  selector : Bytes;
  has_params : bool;                   (* the invariant function takes inputs *)
  call_after_invariant : bool;
  is_optimization : bool;
}.

Record FailedInvariantCaseData := mkCase {
  case_calls : list BasicTxDetails;
  revert_reason : string;
  addr : Address;
  case_calldata : Bytes;
  inner_sequence : list (option BasicTxDetails);
  case_shrink_run_limit : Z;
  case_fail_on_revert : bool;
}.

Inductive InvariantFuzzError :=
| Revert (c : FailedInvariantCaseData)
| BrokenInvariant (c : FailedInvariantCaseData)
| MaxAssumeRejects (n : Z).

Record InvariantFailures := mkFailures {
  reverts : Z;
  last_revert_reason : option string;
  error : option InvariantFuzzError;
}.
Definition count_revert (f : InvariantFailures) : InvariantFailures :=
  mkFailures (reverts f + 1) (last_revert_reason f) (error f).
Definition put_error (e : InvariantFuzzError) (f : InvariantFailures) : InvariantFailures :=
  mkFailures (reverts f) (last_revert_reason f) (Some e).

Record InvariantMetrics := mkMetrics { m_calls : Z; m_reverts : Z; m_discards : Z }.

Section campaign.
Context {G Backend Changes E : Type} `{CallSource G (RawCallResult Changes) E}.
Local Abbreviation Executor := (Executor Backend).
Local Abbreviation RawCallResult := (RawCallResult Changes).

Context (call_raw : Executor → Address → Address → Bytes → Z → result E RawCallResult)
        (commit : Executor → RawCallResult → Executor)
        (is_raw_call_mut_success : Executor → Address → RawCallResult → bool → RawCallResult * bool)
        (is_success : Executor → Address → bool → Changes → bool)
        (after_invariant_selector : Bytes)
        (i256_try_from_be_slice : Bytes → option Z)
        (decode_revert : RawCallResult → string)
        (gas_of : RawCallResult → Z * Z).

(** [cases] and [last_call_results] are in the order of the code; a case is gas
    and stipend. *)
Record InvariantTestData := mkData {
  fuzz_cases : list (list (Z * Z));
  failures : InvariantFailures;
  last_run_inputs : list BasicTxDetails;
  last_call_results : option RawCallResult;
  metrics : gmap string InvariantMetrics;
  optimization_best_value : option Z;
  optimization_best_sequence : list BasicTxDetails;
}.
Definition set_failures (f : InvariantFailures) (d : InvariantTestData) : InvariantTestData :=
  mkData (fuzz_cases d) f (last_run_inputs d) (last_call_results d) (metrics d)
    (optimization_best_value d) (optimization_best_sequence d).
Definition set_error (e : InvariantFuzzError) (d : InvariantTestData) : InvariantTestData :=
  set_failures (put_error e (failures d)) d.
Definition set_last_run_inputs (l : list BasicTxDetails) (d : InvariantTestData) : InvariantTestData :=
  mkData (fuzz_cases d) (failures d) l (last_call_results d) (metrics d)
    (optimization_best_value d) (optimization_best_sequence d).
Definition set_last_call_results (c : option RawCallResult) (d : InvariantTestData) : InvariantTestData :=
  mkData (fuzz_cases d) (failures d) (last_run_inputs d) c (metrics d)
    (optimization_best_value d) (optimization_best_sequence d).
Definition has_errors (d : InvariantTestData) : bool := bool_decide (is_Some (error (failures d))).

Definition update_optimization_value (value : Z) (sequence : list BasicTxDetails) (d : InvariantTestData)
    : InvariantTestData :=
  if match optimization_best_value d with None => true | Some best => best <? value end then
    mkData (fuzz_cases d) (failures d) (last_run_inputs d) (last_call_results d) (metrics d)
      (Some value) sequence
  else d.

(** [InvariantTest::record_metrics] *)
Definition record_metrics (tx : BasicTxDetails) (reverted discarded : bool) (g : G) (d : InvariantTestData)
    : option InvariantTestData :=
  key ← fuzzed_metric_key tx g;
  Some match key with
       | None => d
       | Some key =>
           let m := default (mkMetrics 0 0 0) (metrics d !! key) in
           let m := if discarded then mkMetrics (m_calls m + 1) (m_reverts m) (m_discards m + 1)
                    else if reverted then mkMetrics (m_calls m + 1) (m_reverts m + 1) (m_discards m)
                    else mkMetrics (m_calls m + 1) (m_reverts m) (m_discards m) in
           mkData (fuzz_cases d) (failures d) (last_run_inputs d) (last_call_results d)
             (<[key := m]> (metrics d)) (optimization_best_value d) (optimization_best_sequence d)
       end.

(** [InvariantTest::new] *)
Definition InvariantTest_new (f : InvariantFailures) (last_call : option RawCallResult)
    : InvariantTestData :=
  mkData (match last_call with Some _ => [] | None => [[]] end) f [] last_call ∅ None [].

Record InvariantTestRun := mkRun {
  inputs : list BasicTxDetails;
  executor : Executor;
  fuzz_runs : list (Z * Z);
  created_contracts : list Address;
  run_depth : Z;
  rejects : Z;
  new_coverage : bool;
}.
Definition InvariantTestRun_new (first_input : BasicTxDetails) (ex : Executor) : InvariantTestRun :=
  mkRun [first_input] ex [] [] 0 0 false.
Definition set_inputs (l : list BasicTxDetails) (r : InvariantTestRun) : InvariantTestRun :=
  mkRun l (executor r) (fuzz_runs r) (created_contracts r) (run_depth r) (rejects r) (new_coverage r).
(** [Vec::pop] *)
Definition pop_input (r : InvariantTestRun) : InvariantTestRun := set_inputs (removelast (inputs r)) r.
Definition push_input (tx : BasicTxDetails) (r : InvariantTestRun) : InvariantTestRun :=
  set_inputs (inputs r ++ [tx]) r.
Definition reject (r : InvariantTestRun) : InvariantTestRun :=
  mkRun (removelast (inputs r)) (executor r) (fuzz_runs r) (created_contracts r) (run_depth r)
    (rejects r + 1) (new_coverage r).
Definition deepen (r : InvariantTestRun) : InvariantTestRun :=
  mkRun (inputs r) (executor r) (fuzz_runs r) (created_contracts r) (run_depth r + 1) (rejects r)
    (new_coverage r).

Definition FailedInvariantCaseData_new (contract : Contract) (c : Config) (calls : list BasicTxDetails)
    (call_result : RawCallResult) (inner : list (option BasicTxDetails)) : FailedInvariantCaseData :=
  mkCase calls (decode_revert call_result) (address contract) (selector contract) inner
    (shrink_run_limit c) (fail_on_revert c).

(** ** Checks *)

Definition call_invariant (contract : Contract) (ex : Executor) : result E (RawCallResult * bool) :=
  call_invariant_function call_raw is_raw_call_mut_success ex (address contract) (selector contract).

(** The call result if the invariant holds or was broken before, and the
    failures. *)
Definition assert_invariants (contract : Contract) (c : Config) (g : G) (ex : Executor)
    (calls : list BasicTxDetails) (f : InvariantFailures)
    : result E (option RawCallResult * InvariantFailures) :=
  '(call_result, success) ← call_invariant contract ex;
  if negb success && bool_decide (error f = None) then
    Ok (None, put_error (BrokenInvariant
                (FailedInvariantCaseData_new contract c calls call_result (last_sequence g))) f)
  else Ok (Some call_result, f).

Definition handlers_succeeded (g : G) (ex : Executor) (ch : Changes) : bool :=
  forallb (λ a, is_success ex a false ch) (target_addresses g).

(** A failure by a revert, which ends the campaign. *)
Definition fail_reverted (contract : Contract) (c : Config) (calls : list BasicTxDetails)
    (call_result : RawCallResult) (d : InvariantTestData) : InvariantTestData :=
  let case := FailedInvariantCaseData_new contract c calls call_result [] in
  set_failures (mkFailures (reverts (failures d)) (Some (revert_reason case)) (Some (Revert case))) d.

Definition count_reverted (d : InvariantTestData) : InvariantTestData :=
  set_failures (count_revert (failures d)) d.

(** [can_continue]: whether the campaign goes on, the last call result, and what
    changed. *)
Definition can_continue (contract : Contract) (c : Config) (g : G) (call_result : RawCallResult)
    (d : InvariantTestData) (r : InvariantTestRun)
    : result E (bool * option RawCallResult * InvariantTestData * InvariantTestRun) :=
  if negb (reverted call_result) && handlers_succeeded g (executor r) (changes _ call_result) then
    if is_optimization contract then
      '(inv_result, success) ← call_invariant contract (executor r);
      let d := if success && bool_decide (32 ≤ length (output inv_result))%nat then
                 match i256_try_from_be_slice (take 32 (output inv_result)) with
                 | Some value => update_optimization_value value (inputs r) d
                 | None => d
                 end
               else d in
      Ok (true, Some inv_result, d, r)
    else
      '(res, f) ← assert_invariants contract c g (executor r) (inputs r) (failures d);
      let d := set_failures f d in
      Ok (match res with None => false | Some _ => true end, res, d, r)
  else
    let d := count_reverted d in
    if fail_on_revert c then Ok (false, None, fail_reverted contract c (inputs r) call_result d, r)
    else if reverted call_result && negb (is_optimization contract) then Ok (true, None, d, pop_input r)
    else Ok (true, None, d, r).

(** What happens to a call after which the invariant is not checked. *)
Definition skip_check (contract : Contract) (c : Config) (call_result : RawCallResult)
    (d : InvariantTestData) (r : InvariantTestRun)
    : bool * option RawCallResult * InvariantTestData * InvariantTestRun :=
  if reverted call_result then
    let d := count_reverted d in
    if fail_on_revert c then (false, None, fail_reverted contract c (inputs r) call_result d, r)
    else if negb (is_optimization contract) then (true, None, d, pop_input r)
    else (true, None, d, r)
  else (true, None, d, r).

Definition should_check_invariant (c : Config) (run_depth : Z) : bool :=
  let is_last_call := run_depth =? depth c - 1 in
  if check_interval c =? 0 then is_last_call
  else (check_interval c =? 1) || ((run_depth + 1) mod check_interval c =? 0) || is_last_call.

Definition assert_after_invariant (contract : Contract) (c : Config) (d : InvariantTestData)
    (r : InvariantTestRun) : result E InvariantTestData :=
  '(call_result, success) ← call_after_invariant_function call_raw is_raw_call_mut_success
     after_invariant_selector (executor r) (address contract);
  Ok (if success : bool then d
      else set_error (BrokenInvariant (FailedInvariantCaseData_new contract c (inputs r) call_result [])) d).

(** ** Runs *)

Inductive CampaignError :=
| HasParams
| NoInput
| CallReverted
| BrokenAtStart (reason : string)
| AfterInvariantFailed (e : E)
| Failed (e : E).

Definition failing {A} (wrap : E → CampaignError) (x : result E A) : result CampaignError A :=
  match x with Ok a => Ok a | Err e => Err (wrap e) end.

Definition timed_out (c : Config) (g : G) : bool * G :=
  if has_timeout c then is_timed_out g else (false, g).

(** What a turn of the loop of a run leads to. *)
Inductive Turn :=
| Going (g : G) (d : InvariantTestData) (r : InvariantTestRun)
| Stopped (g : G) (d : InvariantTestData).

(** The end of every turn: the next call. *)
Definition push_next (initial_seq : list BasicTxDetails) (discarded : bool) (g : G)
    (d : InvariantTestData) (r : InvariantTestRun) : option (result CampaignError Turn) :=
  '(next, g) ← generate_next_input initial_seq discarded (Z.to_nat (run_depth r)) g;
  Some (failing Failed (tx ← next; Ok (Going g d (push_input tx r)))).

(** A call that was not discarded. *)
Definition committed_call (contract : Contract) (c : Config) (initial_seq : list BasicTxDetails)
    (tx : BasicTxDetails) (call_result : RawCallResult) (g : G) (d : InvariantTestData)
    (r : InvariantTestRun) : option (result CampaignError Turn) :=
  let ex := commit (executor r) call_result in
  let g := if reverted call_result then g else collect_data tx call_result (depth c) g in
  let '(created, g) := collect_created_contracts call_result (created_contracts r) g in
  let r := mkRun (inputs r) ex (fuzz_runs r ++ [gas_of call_result]) created (run_depth r) (rejects r)
             (new_coverage r) in
  let checked := if should_check_invariant c (run_depth r) then can_continue contract c g call_result d r
                 else Ok (skip_check contract c call_result d r) in
  match checked with
  | Err e => Some (Err (Failed e))
  | Ok (continues, res, d, r) =>
      let d := if negb continues || (run_depth r =? depth c - 1) then set_last_run_inputs (inputs r) d
               else d in
      if negb continues then Some (Ok (Stopped g d))
      else push_next initial_seq false g (set_last_call_results res d) (deepen r)
  end.

Definition turn (contract : Contract) (c : Config) (initial_seq : list BasicTxDetails) (g : G)
    (d : InvariantTestData) (r : InvariantTestRun) : option (result CampaignError Turn) :=
  let '(late, g) := timed_out c g in
  if late then Some (Ok (Stopped g d))
  else
    match last (inputs r) with
    | None => Some (Err NoInput)
    | Some tx =>
        match execute_tx call_raw (executor r) tx with
        | Err e => Some (Err (Failed e))
        | Ok (call_result, ex) =>
            let discarded := bool_decide (output call_result = MAGIC_ASSUME) in
            d ← (if show_metrics c then record_metrics tx (reverted call_result) discarded g d else Some d);
            let '(news, g) := merge_edge_coverage call_result g in
            let r := mkRun (inputs r) ex (fuzz_runs r) (created_contracts r) (run_depth r) (rejects r)
                       (new_coverage r || news) in
            if discarded then
              let r := reject r in
              if max_assume_rejects c <? rejects r then
                Some (Ok (Stopped g (set_error (MaxAssumeRejects (max_assume_rejects c)) d)))
              else push_next initial_seq true g d r
            else committed_call contract c initial_seq tx call_result g d r
        end
    end.

(** The loop of a run; [None] without fuel, too. *)
Fixpoint run_loop (fuel : nat) (contract : Contract) (c : Config) (initial_seq : list BasicTxDetails)
    (g : G) (d : InvariantTestData) (r : InvariantTestRun) : option (result CampaignError Turn) :=
  if depth c <=? run_depth r then Some (Ok (Going g d r))
  else
    match fuel with
    | O => None
    | S fuel =>
        turned ← turn contract c initial_seq g d r;
        match turned with
        | Ok (Going g d r) => run_loop fuel contract c initial_seq g d r
        | other => Some other
        end
    end.

(** [InvariantTest::end_run]; the samples for gas reports are not kept. *)
Definition end_run (r : InvariantTestRun) (g : G) (d : InvariantTestData) : G * InvariantTestData :=
  (revert_fuzz_state (clear_created_contracts (created_contracts r) g),
   mkData (fuzz_cases d ++ [fuzz_runs r]) (failures d) (last_run_inputs d) (last_call_results d) (metrics d)
     (optimization_best_value d) (optimization_best_sequence d)).

Definition turns (c : Config) : nat := Z.to_nat (depth c) + Z.to_nat (max_assume_rejects c) + 1.

(** One run of the campaign: whether the campaign goes on. *)
Definition one_run (contract : Contract) (c : Config) (ex : Executor) (g : G) (d : InvariantTestData)
    : option (result CampaignError (bool * G * InvariantTestData)) :=
  '(seq, g) ← new_inputs g;
  match seq with
  | Err e => Some (Err (Failed e))
  | Ok initial_seq =>
      first_input ← initial_seq !! O;
      if fail_on_revert c && (0 <? reverts (failures d)) then Some (Err CallReverted)
      else
        ran ← run_loop (turns c) contract c initial_seq g d (InvariantTestRun_new first_input ex);
        match ran with
        | Err e => Some (Err e)
        | Ok (Stopped g d) => Some (Ok (false, g, d))
        | Ok (Going g d r) =>
            g ← process_inputs (inputs r) (new_coverage r) g;
            let asserted := if call_after_invariant contract && negb (has_errors d)
                            then assert_after_invariant contract c d r else Ok d in
            Some (match asserted with
                  | Err e => Err (AfterInvariantFailed e)
                  | Ok d => let '(g, d) := end_run r g d in Ok (true, g, d)
                  end)
        end
  end.

Definition continue_campaign (c : Config) (done : Z) (g : G) : bool * G :=
  let '(stop, g) := should_stop g in
  if stop then (false, g)
  else if has_timeout c then let '(late, g) := is_timed_out g in (negb late, g)
  else (done <? runs c, g).

Fixpoint campaign_loop (fuel : nat) (contract : Contract) (c : Config) (ex : Executor) (done : Z)
    (g : G) (d : InvariantTestData) : option (result CampaignError (G * InvariantTestData)) :=
  let '(continues, g) := continue_campaign c done g in
  if negb continues then Some (Ok (g, d))
  else
    match fuel with
    | O => None
    | S fuel =>
        ran ← one_run contract c ex g d;
        match ran with
        | Err e => Some (Err e)
        | Ok (false, g, d) => Some (Ok (g, d))
        | Ok (true, g, d) => campaign_loop fuel contract c ex (done + 1) g d
        end
    end.

(** The check of [prepare_test] that the invariant holds before the runs. *)
Definition prepare_test (contract : Contract) (c : Config) (ex : Executor) (g : G)
    : result CampaignError InvariantTestData :=
  '(last_call, f) ← failing Failed (assert_invariants contract c g ex [] (mkFailures 0 None None));
  match error f with
  | Some (BrokenInvariant case) | Some (Revert case) => Err (BrokenAtStart (revert_reason case))
  | Some (MaxAssumeRejects _) => Err (BrokenAtStart "")
  | None => Ok (InvariantTest_new f last_call)
  end.

Definition invariant_fuzz (fuel : nat) (contract : Contract) (c : Config) (ex : Executor) (g : G)
    : option (result CampaignError (G * InvariantTestData)) :=
  if has_params contract then Some (Err HasParams)
  else match prepare_test contract c ex g with
       | Err e => Some (Err e)
       | Ok d => campaign_loop fuel contract c ex 0 g d
       end.
End campaign.
