(* ===== verification/InvariantSpec.v ===== *)
(** * What a campaign reports

    A campaign ends; when it reports nothing, all of its calls were made; when
    it reports a sequence of calls, replaying the sequence with the delays of the
    calls that were left out breaks the invariant, under the assumptions that the
    code makes on reverted calls.  The examples show what is reported where these
    do not hold, and what is lost without the delays. *)
From S2P Require Import Prelude.
From S2P Require Import Shrink.
From S2P Require Import InvariantRun.
From stdpp Require Import strings.
Local Open Scope Z_scope.

(** What a source of calls promises, with an invariant of its state and a
    property of its calls. *)
Class SourceLaws {G Call E : Type} `{CallSource G Call E} (I : G → Prop) (P : BasicTxDetails → Prop) := {
  new_inputs_laws g : I g → ∃ res g', new_inputs g = Some (res, g') ∧ I g' ∧
    ∀ seq, res = Ok seq → seq ≠ [] ∧ Forall P seq;
  generate_laws seq discarded depth g : I g → Forall P seq →
    ∃ res g', generate_next_input seq discarded depth g = Some (res, g') ∧ I g' ∧ ∀ tx, res = Ok tx → P tx;
  merge_laws c g : I g → I (merge_edge_coverage c g).2;
  process_laws txs news g : I g → txs ≠ [] → Forall P txs →
    ∃ g', process_inputs txs news g = Some g' ∧ I g';
  collect_laws tx c depth g : I g → I (collect_data tx c depth g);
  created_laws c l g : I g → I (collect_created_contracts c l g).2;
  clear_laws l g : I g → I (clear_created_contracts l g);
  revert_laws g : I g → I (revert_fuzz_state g);
  metric_laws tx g : I g → P tx → is_Some (fuzzed_metric_key tx g);
  stop_laws g : I g → I (should_stop g).2;
  time_laws g : I g → I (is_timed_out g).2;
}.

Section campaign.
Context {G Backend Changes E : Type} `{CallSource G (RawCallResult Changes) E}.
Context (call_raw : Executor Backend → Address → Address → Bytes → Z → result E (RawCallResult Changes))
        (commit : Executor Backend → RawCallResult Changes → Executor Backend)
        (is_raw_call_mut_success : Executor Backend → Address → RawCallResult Changes → bool →
           RawCallResult Changes * bool)
        (is_success : Executor Backend → Address → bool → Changes → bool)
        (after_invariant_selector : Bytes) (i256_try_from_be_slice : Bytes → option Z)
        (decode_revert : RawCallResult Changes → string) (gas_of : RawCallResult Changes → Z * Z).
Context (I : G → Prop) (P : BasicTxDetails → Prop)
        `{!SourceLaws (G := G) (Call := RawCallResult Changes) (E := E) I P}.
Implicit Types (ex : Executor Backend) (g : G) (d : InvariantTestData (Changes := Changes))
  (r : InvariantTestRun (Backend := Backend)) (c : RawCallResult Changes).

Local Abbreviation turn := (turn call_raw commit is_raw_call_mut_success is_success i256_try_from_be_slice
  decode_revert gas_of).
Local Abbreviation committed_call := (committed_call call_raw commit is_raw_call_mut_success is_success
  i256_try_from_be_slice decode_revert gas_of).
Local Abbreviation run_loop := (run_loop call_raw commit is_raw_call_mut_success is_success
  i256_try_from_be_slice decode_revert gas_of).
Local Abbreviation one_run := (one_run call_raw commit is_raw_call_mut_success is_success
  after_invariant_selector i256_try_from_be_slice decode_revert gas_of).
Local Abbreviation campaign_loop := (campaign_loop call_raw commit is_raw_call_mut_success is_success
  after_invariant_selector i256_try_from_be_slice decode_revert gas_of).
Local Abbreviation can_continue := (can_continue call_raw is_raw_call_mut_success is_success
  i256_try_from_be_slice decode_revert).
Local Abbreviation skip_check := (skip_check decode_revert).
Local Abbreviation invariant_fuzz := (invariant_fuzz call_raw commit is_raw_call_mut_success is_success
  after_invariant_selector i256_try_from_be_slice decode_revert gas_of).
Local Abbreviation continue_campaign := (continue_campaign (G := G) (Changes := Changes) (E := E)).
Local Abbreviation call_invariant := (call_invariant call_raw is_raw_call_mut_success).

(** ** Turns

    What one turn does, for any property [J] of the data and the run that each
    kind of turn keeps. *)

Definition ok_calls (r : InvariantTestRun (Backend := Backend)) : Prop := inputs r ≠ [] ∧ Forall P (inputs r).

Lemma timed_out_laws cfg g : I g → I (timed_out cfg g).2.
Proof. intros Hg. unfold timed_out. destruct (has_timeout cfg); [by apply time_laws|done]. Qed.

(** What the check after a call leaves of the run: it only removes the last
    call, when that one reverted. *)
Lemma checked_run contract cfg g c d r :
  (∀ continues res d' r', can_continue contract cfg g c d r = Ok (continues, res, d', r') →
     r' = r ∨ r' = pop_input r) ∧
  (∀ continues res d' r', skip_check contract cfg c d r = (continues, res, d', r') →
     r' = r ∨ r' = pop_input r).
Proof.
  split; intros continues res d' r'; unfold InvariantRun.can_continue, InvariantRun.skip_check.
  - destruct (negb (reverted c) && _).
    + destruct (is_optimization contract).
      * destruct (InvariantRun.call_invariant _ _ _ _) as [[res1 b]|e]; [|done]. intros [= <- <- <- <-]. by left.
      * destruct (assert_invariants _ _ _ _ _ _ _ _ _) as [[res1 f]|e]; [|done]. intros [= <- <- <- <-]. by left.
    + destruct (InvariantRun.fail_on_revert cfg); [intros [= <- <- <- <-]; by left|].
      destruct (reverted c && _); intros [= <- <- <- <-]; [by right|by left].
  - destruct (reverted c); [|intros [= <- <- <- <-]; by left].
    destruct (InvariantRun.fail_on_revert cfg); [intros [= <- <- <- <-]; by left|].
    destruct (negb _); intros [= <- <- <- <-]; [by right|by left].
Qed.

Lemma removelast_snoc {A} (l : list A) x : removelast (l ++ [x]) = l.
Proof. apply removelast_last. Qed.

Lemma Forall_removelast {A} (Q : A → Prop) (l : list A) : Forall Q l → Forall Q (removelast l).
Proof.
  intros Hl. destruct l as [|x l _] using rev_ind; [done|]. rewrite removelast_snoc.
  by apply Forall_app in Hl as [Hl _].
Qed.

Lemma push_next_laws seq discarded g d r :
  I g → Forall P seq → Forall P (inputs r) →
  ∃ res, push_next seq discarded g d r = Some res ∧
    ∀ t, res = Ok t → ∃ g' tx, I g' ∧ P tx ∧ t = Going g' d (push_input tx r).
Proof.
  intros Hg Hs Hr. unfold push_next.
  destruct (generate_laws seq discarded (Z.to_nat (run_depth r)) g Hg Hs) as (res & g' & -> & Hg' & HP).
  cbn [mbind option_bind]. eexists. split; [done|]. intros t.
  destruct res as [tx|e]; cbn; [|done]. intros [= <-]. eauto 10.
Qed.

Lemma push_ok tx r : Forall P (inputs r) → P tx → ok_calls (push_input tx r).
Proof.
  intros Hr Htx. split; cbn; [by destruct (inputs r)|]. apply Forall_app. split; [done|by apply Forall_singleton].
Qed.

Definition measure (cfg : Config) r : Z := (depth cfg - run_depth r) + (max_assume_rejects cfg - rejects r).

Lemma committed_ends contract cfg seq tx c g d r :
  I g → Forall P seq → Forall P (inputs r) →
  ∃ res, committed_call contract cfg seq tx c g d r = Some res ∧
    ∀ g' d' r', res = Ok (Going g' d' r') →
      I g' ∧ ok_calls r' ∧ run_depth r' = run_depth r + 1 ∧ rejects r' = rejects r.
Proof.
  intros Hg Hs HP. unfold InvariantRun.committed_call.
  set (g1 := if reverted c then g else _). assert (I g1) as Hg1 by (subst g1; destruct (reverted c); [done|by apply collect_laws]).
  clearbody g1. pose proof (created_laws c (created_contracts r) g1 Hg1) as Hg2.
  destruct (collect_created_contracts c _ g1) as [created g2]. cbn in Hg2.
  set (r0 := mkRun _ _ _ _ _ _ _). set (checked := if should_check_invariant _ _ then _ else _).
  assert (∀ continues res d' r', checked = Ok (continues, res, d', r') → r' = r0 ∨ r' = pop_input r0) as Hchecked.
  { intros continues res d' r'. subst checked. destruct (should_check_invariant _ _); [by apply checked_run|].
    intros [= Heq]. by eapply checked_run. }
  clearbody checked. destruct checked as [[[[continues res] d'] r']|e]; [|by eexists].
  specialize (Hchecked _ _ _ _ eq_refl). destruct continues; cbn [negb orb]; [|by eexists].
  assert (Forall P (inputs r')) as Hr'.
  { destruct Hchecked as [->| ->]; cbn; [done|by apply Forall_removelast]. }
  edestruct (push_next_laws seq false g2) as (res1 & -> & Hres); [done|done|exact Hr'|]. eexists. split; [done|].
  intros g' d1 r1 Heq. destruct (Hres _ Heq) as (? & tx' & ? & Htx' & [= -> -> ->]). split; [done|].
  split; [by apply push_ok|]. destruct Hchecked as [->| ->]; done.
Qed.

(** A turn returns, and goes on with a smaller run. *)
Lemma turn_ends contract cfg seq g d r :
  I g → Forall P seq → ok_calls r → rejects r <= max_assume_rejects cfg →
  ∃ res, turn contract cfg seq g d r = Some res ∧
    ∀ g' d' r', res = Ok (Going g' d' r') →
      I g' ∧ ok_calls r' ∧ measure cfg r' = measure cfg r - 1 ∧ rejects r' <= max_assume_rejects cfg.
Proof.
  intros Hg Hs [Hne HP] Hrej. unfold InvariantRun.turn.
  pose proof (timed_out_laws cfg g Hg) as Hg1. destruct (timed_out cfg g) as [late g1]. cbn in Hg1.
  destruct late; [by eexists|].
  destruct (last (inputs r)) as [tx|] eqn:Hl; [|by eexists].
  assert (P tx) as Htx.
  { apply last_Some in Hl as [l Hl]. rewrite Hl, Forall_app, Forall_singleton in HP. apply HP. }
  destruct (execute_tx _ _ _) as [[c ex]|e]; [|by eexists].
  set (discarded := bool_decide _).
  assert (discarded = true → output c = MAGIC_ASSUME) as Hdis by (by intros ?%bool_decide_eq_true). clearbody discarded.
  assert (∃ d', (if show_metrics cfg then record_metrics tx (reverted c) discarded g1 d else Some d) = Some d')
    as [d' ->].
  { destruct (show_metrics cfg); [|by eexists]. unfold record_metrics.
    destruct (metric_laws tx g1 Hg1 Htx) as [key ->]. by eexists. }
  cbn [mbind option_bind].
  pose proof (merge_laws c g1 Hg1) as Hg2. destruct (merge_edge_coverage c g1) as [news g2]. cbn in Hg2.
  destruct discarded.
  - destruct (max_assume_rejects cfg <? _) eqn:Hmax; [by eexists|].
    edestruct (push_next_laws seq true g2 d') as (res & -> & Hres); [done|done|cbn; by apply Forall_removelast|].
    eexists. split; [done|].
    intros g' d1 r' Heq. destruct (Hres _ Heq) as (? & tx' & ? & Htx' & [= -> -> ->]). split; [done|].
    split; [apply push_ok; [by apply Forall_removelast|done]|]. unfold measure. cbn in *. lia.
  - edestruct (committed_ends contract cfg seq tx c g2 d') as (res & -> & Hres); [done|done| |eexists; split; [done|]].
    { exact HP. }
    intros g' d1 r' Heq. destruct (Hres _ _ _ Heq) as (? & ? & Hd & Hr). split; [done|]. split; [done|].
    unfold measure. rewrite Hd, Hr. cbn. lia.
Qed.

Lemma invariant_run_ends fuel contract cfg seq g d r :
  I g → Forall P seq → ok_calls r → rejects r <= max_assume_rejects cfg → measure cfg r < Z.of_nat fuel →
  ∃ res, run_loop fuel contract cfg seq g d r = Some res ∧
    ∀ g' d' r', res = Ok (Going g' d' r') → I g' ∧ ok_calls r' ∧ depth cfg <= run_depth r'.
Proof.
  revert g d r. induction fuel as [|fuel IH]; intros g d r Hg Hs Hr Hrej Hm; cbn [InvariantRun.run_loop].
  - destruct (depth cfg <=? run_depth r) eqn:Hd; [|unfold measure in Hm; lia].
    eexists. split; [done|]. intros g' d' r' [= <- <- <-]. split_and!; [done|done|lia].
  - destruct (depth cfg <=? run_depth r) eqn:Hd.
    { eexists. split; [done|]. intros g' d' r' [= <- <- <-]. split_and!; [done|done|lia]. }
    destruct (turn_ends contract cfg seq g d r Hg Hs Hr Hrej) as (res & -> & Hres). cbn [mbind option_bind].
    destruct res as [[g1 d1 r1|g1 d1]|e]; [|by eexists..].
    destruct (Hres _ _ _ eq_refl) as (? & ? & ? & ?). apply IH; [done..|lia].
Qed.

Lemma one_run_ends contract cfg ex g d :
  0 <= depth cfg → 0 <= max_assume_rejects cfg → I g →
  ∃ res, one_run contract cfg ex g d = Some res ∧
    ∀ continues g' d', res = Ok (continues, g', d') → continues = true → I g'.
Proof.
  intros Hdep Hmax Hg. unfold InvariantRun.one_run.
  destruct (new_inputs_laws g Hg) as (res & g1 & -> & Hg1 & Hseq). cbn [mbind option_bind].
  destruct res as [seq|e]; [|by eexists].
  destruct (Hseq seq eq_refl) as [Hne HP]. destruct seq as [|tx seq]; [done|]. cbn [lookup list_lookup].
  cbn [mbind option_bind]. destruct (InvariantRun.fail_on_revert cfg && _); [by eexists|].
  edestruct (invariant_run_ends (turns cfg) contract cfg (tx :: seq) g1 d (InvariantTestRun_new tx ex))
    as (res & -> & Hres); [done|done| |cbn; lia|unfold measure, turns; cbn; lia|].
  { split; [done|]. cbn. by apply Forall_singleton, (Forall_inv HP). }
  cbn [mbind option_bind]. destruct res as [[g2 d2 r2|g2 d2]|e]; [| |by eexists].
  - destruct (Hres _ _ _ eq_refl) as (Hg2 & [Hne2 HP2] & _).
    destruct (process_laws (inputs r2) (new_coverage r2) g2) as (g3 & -> & Hg3); [done..|]. cbn [mbind option_bind].
    eexists. split; [done|]. intros continues g' d'. destruct (if call_after_invariant contract && _ then _ else _) as [d3|e]; [|done].
    cbn. intros [= <- <- <-] _. by apply revert_laws, clear_laws.
  - eexists. split; [done|]. by intros continues g' d' [= <- <- <-].
Qed.

Lemma continue_laws cfg done_ g : I g → I (continue_campaign cfg done_ g).2.
Proof.
  intros Hg. unfold continue_campaign. pose proof (stop_laws g Hg) as Hg1.
  destruct (should_stop g) as [stop g1]. cbn in Hg1. destruct stop; [done|].
  destruct (has_timeout cfg); [|done]. pose proof (time_laws g1 Hg1).
  by destruct (is_timed_out g1) as [late g2].
Qed.

Lemma continue_counts cfg done_ g :
  has_timeout cfg = false → (continue_campaign cfg done_ g).1 = true → done_ < runs cfg.
Proof.
  intros Ht. unfold continue_campaign. rewrite Ht. destruct (should_stop g) as [[] g1]; [done|].
  cbn. lia.
Qed.

Lemma campaign_loop_ends fuel contract cfg ex n g d :
  has_timeout cfg = false → 0 <= depth cfg → 0 <= max_assume_rejects cfg → I g →
  runs cfg - n <= Z.of_nat fuel → is_Some (campaign_loop fuel contract cfg ex n g d).
Proof.
  intros Ht Hdep Hmax. revert n g d. induction fuel as [|fuel IH]; intros n g d Hg Hf;
    cbn [InvariantRun.campaign_loop];
    pose proof (continue_counts cfg n g Ht) as Hn; pose proof (continue_laws cfg n g Hg) as Hg1;
    destruct (continue_campaign cfg n g) as [continues g1]; cbn in Hn, Hg1;
    (destruct continues; cbn [negb]; [|by eexists]).
  - specialize (Hn eq_refl). lia.
  - destruct (one_run_ends contract cfg ex g1 d Hdep Hmax Hg1) as (res & -> & Hres). cbn [mbind option_bind].
    destruct res as [[[[] g2] d2]|e]; [|by eexists..].
    apply IH; [by eapply Hres|lia].
Qed.

(** C18: A campaign without a time limit ends, with no more than the configured
    runs, of no more than [turns] calls each, whatever the contracts do: a run
    is left after its depth, and after as many rejected calls as are allowed.
    It does not panic. *)
Theorem campaign_ends fuel contract cfg ex g :
  has_timeout cfg = false → 0 <= depth cfg → 0 <= max_assume_rejects cfg → I g →
  runs cfg <= Z.of_nat fuel →
  ∃ res, invariant_fuzz fuel contract cfg ex g = Some res.
Proof.
  intros Ht Hdep Hmax Hg Hf. unfold InvariantRun.invariant_fuzz.
  destruct (has_params contract); [by eexists|].
  destruct (prepare_test _ _ _ _ _ _ _) as [d|e]; [|by eexists].
  apply campaign_loop_ends; [done..|lia].
Qed.

(** ** What a turn does *)

Definition same d d' : Prop :=
  fuzz_cases d' = fuzz_cases d ∧ error (failures d') = error (failures d).

(** The run after a call, with the next one at its end. *)
Record after_call r r' (kept : list BasicTxDetails) ex (gas : list (Z * Z)) (deeper : Z) : Prop := {
  after_inputs : ∃ next, P next ∧ inputs r' = kept ++ [next];
  after_executor : executor r' = ex;
  after_runs : fuzz_runs r' = fuzz_runs r ++ gas;
  after_depth : run_depth r' = run_depth r + deeper;
}.

(** How the error of a turn that stops the campaign came about, by a call [tx]
    after the kept ones. *)
Inductive failed contract cfg (kept : list BasicTxDetails) (tx : BasicTxDetails) c ex
    : InvariantFuzzError → Prop :=
| failed_revert case : InvariantRun.fail_on_revert cfg = true → failed contract cfg kept tx c ex (Revert case)
| failed_invariant case res : case_calls case = kept ++ [tx] → reverted c = false →
    call_invariant contract (commit ex c) = Ok (res, false) →
    failed contract cfg kept tx c ex (BrokenInvariant case).

Inductive turned contract cfg d r : Turn → Prop :=
| turned_late g : has_timeout cfg = true → turned contract cfg d r (Stopped g d)
| turned_rejected g d' n : fuzz_cases d' = fuzz_cases d →
    error (failures d') = Some (MaxAssumeRejects n) → turned contract cfg d r (Stopped g d')
| turned_discarded kept tx c ex g d' r' :
    inputs r = kept ++ [tx] → execute_tx call_raw (executor r) tx = Ok (c, ex) → same d d' →
    output c = MAGIC_ASSUME → after_call r r' kept ex [] 0 → turned contract cfg d r (Going g d' r')
| turned_popped kept tx c ex g d' r' :
    inputs r = kept ++ [tx] → execute_tx call_raw (executor r) tx = Ok (c, ex) → same d d' →
    reverted c = true → after_call r r' kept (commit ex c) [gas_of c] 1 →
    turned contract cfg d r (Going g d' r')
| turned_kept kept tx c ex g d' r' :
    inputs r = kept ++ [tx] → execute_tx call_raw (executor r) tx = Ok (c, ex) → same d d' →
    InvariantRun.fail_on_revert cfg && reverted c = false →
    after_call r r' (kept ++ [tx]) (commit ex c) [gas_of c] 1 →
    turned contract cfg d r (Going g d' r')
| turned_failed kept tx c ex g d' e :
    inputs r = kept ++ [tx] → execute_tx call_raw (executor r) tx = Ok (c, ex) →
    fuzz_cases d' = fuzz_cases d → error (failures d') = Some e → failed contract cfg kept tx c ex e →
    turned contract cfg d r (Stopped g d').

Lemma record_same tx b1 b2 g d d' : record_metrics tx b1 b2 g d = Some d' → same d d'.
Proof.
  unfold record_metrics. intros (key & _ & [= <-])%bind_Some. by destruct key.
Qed.

(** What the check after a call leaves of the failures, and how it stops. *)
Lemma checked_spec contract cfg g c d r kept tx ex continues res d' r' :
  inputs r = kept ++ [tx] → executor r = commit ex c →
  (can_continue contract cfg g c d r = Ok (continues, res, d', r') ∨
   skip_check contract cfg c d r = (continues, res, d', r')) →
  if continues then
    same d d' ∧ ((r' = r ∧ InvariantRun.fail_on_revert cfg && reverted c = false) ∨ (r' = pop_input r ∧ reverted c = true))
  else fuzz_cases d' = fuzz_cases d ∧
    ∃ e, error (failures d') = Some e ∧ failed contract cfg kept tx c ex e.
Proof.
  intros Hin Hex. unfold InvariantRun.can_continue, InvariantRun.skip_check.
  intros [Hc|Hc].
  - destruct (reverted c) eqn:Hrev; cbn [negb andb] in Hc.
    + destruct (InvariantRun.fail_on_revert cfg) eqn:Hfail; [cbn in Hc; simplify_eq; hnf|].
      * split; [done|]. eexists. split; [done|]. by constructor.
      * destruct (is_optimization contract); cbn in Hc; simplify_eq; hnf; split; [done| |done|]; [left|right]; done.
    + destruct (handlers_succeeded _ _ _ _).
      * destruct (is_optimization contract).
        -- destruct (InvariantRun.call_invariant _ _ _ _) as [[res1 b]|e]; [|done]. cbn in Hc; simplify_eq. hnf.
           split; [|left; split; [done|by rewrite andb_false_r]].
           destruct (b && _); [|done]. destruct (i256_try_from_be_slice _); [|done].
           unfold update_optimization_value. destruct (optimization_best_value d) as [best|]; [by destruct (best <? _)|done].
        -- unfold assert_invariants in Hc. destruct (InvariantRun.call_invariant _ _ _ _) as [[res1 b]|e] eqn:Hinv; [|done].
           cbn in Hc. destruct (negb b && _) eqn:Hb; cbn in Hc; simplify_eq; hnf.
           ++ apply andb_prop in Hb as [Hb _]. destruct b; [done|]. split; [done|]. eexists. split; [done|].
              econstructor; [cbn; exact Hin|done|]. rewrite <-Hex. exact Hinv.
           ++ split; [|left; split; [done|by rewrite andb_false_r]]. by destruct d.
      * destruct (InvariantRun.fail_on_revert cfg) eqn:Hfail; [cbn in Hc; simplify_eq; hnf|].
        -- split; [done|]. eexists. split; [done|]. by constructor.
        -- cbn in Hc; simplify_eq. hnf. split; [done|]. by left.
  - destruct (reverted c) eqn:Hrev.
    + destruct (InvariantRun.fail_on_revert cfg) eqn:Hfail; [cbn in Hc; simplify_eq; hnf|].
      * split; [done|]. eexists. split; [done|]. by constructor.
      * destruct (is_optimization contract); cbn in Hc; simplify_eq; hnf; split; [done| |done|]; [left|right]; done.
    + cbn in Hc; simplify_eq. hnf. split; [done|]. left. by rewrite andb_false_r.
Qed.

Lemma committed_spec contract cfg seq tx c g d0 d r kept ex t :
  I g → Forall P seq → Forall P (inputs r) → inputs r = kept ++ [tx] → executor r = ex →
  same d0 d → committed_call contract cfg seq tx c g d r = Some (Ok t) →
  match t with
  | Going g' d' r' => same d0 d' ∧
      ((reverted c = true ∧ after_call r r' kept (commit ex c) [gas_of c] 1) ∨
       (InvariantRun.fail_on_revert cfg && reverted c = false ∧ after_call r r' (kept ++ [tx]) (commit ex c) [gas_of c] 1))
  | Stopped g' d' => fuzz_cases d' = fuzz_cases d0 ∧
      ∃ e, error (failures d') = Some e ∧ failed contract cfg kept tx c ex e
  end.
Proof.
  intros Hg Hs HP Hin Hex [Hfc Her]. unfold InvariantRun.committed_call.
  set (g1 := if reverted c then g else _). assert (I g1) as Hg1 by (subst g1; destruct (reverted c); [done|by apply collect_laws]).
  clearbody g1. pose proof (created_laws c (created_contracts r) g1 Hg1) as Hg2.
  destruct (collect_created_contracts c _ g1) as [created g2]. cbn in Hg2.
  set (r0 := mkRun _ _ _ _ _ _ _).
  destruct (if should_check_invariant cfg (run_depth r) then _ else _) as [[[[continues res] d'] r']|e] eqn:Hchk; [|done].
  assert (can_continue contract cfg g2 c d r0 = Ok (continues, res, d', r') ∨
    skip_check contract cfg c d r0 = (continues, res, d', r')) as Hor.
  { destruct (should_check_invariant cfg (run_depth r)); [by left|]. injection Hchk as ->. by right. }
  pose proof (checked_spec contract cfg g2 c d r0 kept tx ex continues res d' r' Hin) as Hspec.
  cbn in Hspec. rewrite Hex in Hspec. specialize (Hspec eq_refl Hor). clear Hor Hchk.
  destruct continues; cbn [negb orb].
  - destruct Hspec as [[Hfc' Her'] Hr'].
    set (d1 := if run_depth r' =? depth cfg - 1 then _ else _).
    assert (fuzz_cases d1 = fuzz_cases d' ∧ error (failures d1) = error (failures d')) as [Hd1 Hd2]
      by (subst d1; by destruct (_ =? _)). clearbody d1.
    assert (Forall P (inputs r')) as HPr.
    { destruct Hr' as [[-> _]|[-> _]]; cbn; [done|by apply Forall_removelast]. }
    edestruct (push_next_laws seq false g2) as (res1 & -> & Hres); [done|done|exact HPr|].
    intros [= ->]. destruct (Hres _ eq_refl) as (g3 & next & _ & Hnext & ->).
    split; [split; cbn; congruence|].
    destruct Hr' as [[-> Hf]|[-> Hf]]; [right|left]; (split; [done|]); (constructor; cbn; [|by rewrite ?Hex..]);
      exists next; (split; [done|]); rewrite Hin; [done|by rewrite removelast_snoc].
  - intros [= <-]. cbn. destruct Hspec as [Hf (e & He & Hfail)]. split; [congruence|]. eauto.
Qed.

Lemma turn_spec contract cfg seq g d r t :
  I g → Forall P seq → ok_calls r → turn contract cfg seq g d r = Some (Ok t) →
  turned contract cfg d r t.
Proof.
  intros Hg Hs [Hne HP]. unfold InvariantRun.turn.
  pose proof (timed_out_laws cfg g Hg) as Hg1.
  destruct (timed_out cfg g) as [late g1] eqn:Hlate. cbn in Hg1. destruct late.
  { intros [= <-]. constructor. unfold timed_out in Hlate. by destruct (has_timeout cfg). }
  destruct (last (inputs r)) as [tx|] eqn:Hl; [|done]. apply last_Some in Hl as [kept Hin].
  destruct (execute_tx _ _ _) as [[c ex]|e] eqn:Hex; [|done]. set (discarded := bool_decide _).
  assert (discarded = true → output c = MAGIC_ASSUME) as Hdis by (by intros ?%bool_decide_eq_true). clearbody discarded.
  destruct (if show_metrics cfg then _ else _) as [d'|] eqn:Hd; [|done]. cbn [mbind option_bind].
  assert (same d d') as Hsame.
  { destruct (show_metrics cfg); [by eapply record_same|]. by injection Hd as <-. }
  pose proof (merge_laws c g1 Hg1) as Hg2. destruct (merge_edge_coverage c g1) as [news g2]. cbn in Hg2.
  destruct discarded.
  - destruct (max_assume_rejects cfg <? _).
    { intros [= <-]. by eapply turned_rejected; [apply Hsame|]. }
    edestruct (push_next_laws seq true g2 d') as (res & -> & Hres); [done|done|cbn; by apply Forall_removelast|].
    intros [= ->]. destruct (Hres _ eq_refl) as (g3 & next & _ & Hnext & ->).
    eapply turned_discarded; [done|exact Hex|done|by apply Hdis|]. constructor; cbn; [|done|by rewrite app_nil_r|lia].
    exists next. split; [done|]. by rewrite Hin, removelast_snoc.
  - intros Hc. set (r0 := mkRun _ _ _ _ _ _ _) in Hc.
    pose proof (committed_spec contract cfg seq tx c g2 d d' r0 kept ex t Hg2 Hs HP Hin eq_refl Hsame Hc) as Ht.
    destruct t as [g3 d3 r3|g3 d3].
    + destruct Ht as [Hsame' [[Hrev Ha]|[Hf Ha]]]; [eapply turned_popped|eapply turned_kept]; try done; by destruct Ha.
    + destruct Ht as [Hf (e & He & Hfail)]. by eapply turned_failed.
Qed.

(** ** Invariants of runs and campaigns *)

Lemma run_loop_inv (J : InvariantTestData → InvariantTestRun → Prop) (S : InvariantTestData → Prop)
    contract cfg seq fuel g d r t :
  (∀ d r t, J d r → run_depth r < depth cfg → ok_calls r → turned contract cfg d r t →
     match t with Going _ d' r' => J d' r' | Stopped _ d' => S d' end) →
  I g → Forall P seq → ok_calls r → rejects r <= max_assume_rejects cfg → J d r →
  run_loop fuel contract cfg seq g d r = Some (Ok t) →
  match t with
  | Going g' d' r' => J d' r' ∧ depth cfg <= run_depth r' ∧ I g' ∧ ok_calls r'
  | Stopped _ d' => S d'
  end.
Proof.
  intros Hturn. revert g d r. induction fuel as [|fuel IH]; intros g d r Hg Hs Hr Hrej HJ; cbn [InvariantRun.run_loop].
  - destruct (depth cfg <=? run_depth r) eqn:Hd; [|done]. intros [= <-]. split_and!; [done|lia|done..].
  - destruct (depth cfg <=? run_depth r) eqn:Hd.
    { intros [= <-]. split_and!; [done|lia|done..]. }
    destruct (turn_ends contract cfg seq g d r Hg Hs Hr Hrej) as (res & Ht & Hres). rewrite Ht.
    cbn [mbind option_bind]. destruct res as [t1|e]; [|done].
    pose proof (turn_spec _ _ _ _ _ _ _ Hg Hs Hr Ht) as Hspec.
    pose proof (Hturn d r t1 HJ ltac:(lia) Hr Hspec) as Hnext.
    destruct t1 as [g1 d1 r1|g1 d1]; [|by intros [= <-]].
    destruct (Hres _ _ _ eq_refl) as (? & ? & _ & ?). by apply IH.
Qed.

(** The end of a run that was not stopped. *)
Definition finished contract d r d' : Prop :=
  fuzz_cases d' = fuzz_cases d ++ [fuzz_runs r] ∧
  (error (failures d') = error (failures d) ∨
   call_after_invariant contract = true ∧ error (failures d) = None ∧
   ∃ case res, error (failures d') = Some (BrokenInvariant case) ∧ case_calls case = inputs r ∧
     call_after_invariant_function call_raw is_raw_call_mut_success after_invariant_selector (executor r)
       (address contract) = Ok (res, false)).

Lemma one_run_inv (J : InvariantTestData → InvariantTestRun → Prop) (S : InvariantTestData → Prop)
    contract cfg ex g d continues g' d' :
  (∀ d r t, J d r → run_depth r < depth cfg → ok_calls r → turned contract cfg d r t →
     match t with Going _ d' r' => J d' r' | Stopped _ d' => S d' end) →
  0 <= max_assume_rejects cfg → I g →
  (∀ tx, P tx → J d (InvariantTestRun_new tx ex)) →
  one_run contract cfg ex g d = Some (Ok (continues, g', d')) →
  if continues then I g' ∧ ∃ d1 r1, J d1 r1 ∧ depth cfg <= run_depth r1 ∧ ok_calls r1 ∧ finished contract d1 r1 d'
  else S d'.
Proof.
  intros Hturn Hmax Hg HJ. unfold InvariantRun.one_run.
  destruct (new_inputs_laws g Hg) as (res & g1 & -> & Hg1 & Hseq). cbn [mbind option_bind].
  destruct res as [seq|e]; [|done]. destruct (Hseq seq eq_refl) as [Hne HP].
  destruct seq as [|tx seq]; [done|]. cbn [lookup list_lookup mbind option_bind].
  destruct (InvariantRun.fail_on_revert cfg && _); [done|].
  destruct (run_loop _ _ _ _ _ _ _) as [res|] eqn:Hrun; [|done]. cbn [mbind option_bind].
  assert (ok_calls (InvariantTestRun_new tx ex)) as Hok.
  { split; [done|]. by apply Forall_singleton, (Forall_inv HP). }
  destruct res as [t|e]; [|done].
  pose proof (run_loop_inv J S _ _ _ _ _ _ _ _ Hturn Hg1 HP Hok Hmax (HJ _ (Forall_inv HP)) Hrun) as Hend.
  destruct t as [g2 d2 r2|g2 d2]; [|by intros [= <- <- <-]].
  destruct Hend as (HJ2 & Hdep & Hg2 & [Hne2 HP2]).
  destruct (process_laws (inputs r2) (new_coverage r2) g2) as (g3 & -> & Hg3); [done..|]. cbn [mbind option_bind].
  destruct (if call_after_invariant contract && _ then _ else _) as [d3|e] eqn:Hafter; [|done].
  cbn. intros [= <- <- <-]. split; [by apply revert_laws, clear_laws|].
  exists d2, r2. split; [done|]. split; [done|]. split; [done|]. unfold finished. cbn.
  destruct (call_after_invariant contract) eqn:Hcall; cbn in Hafter; [|injection Hafter as <-; split; [done|by left]].
  destruct (has_errors d2) eqn:Herr; cbn in Hafter; [injection Hafter as <-; split; [done|by left]|].
  unfold assert_after_invariant in Hafter.
  destruct (call_after_invariant_function _ _ _ _ _) as [[res b]|e] eqn:Hcall_after; [|done].
  cbn in Hafter. destruct b; injection Hafter as <-; [split; [done|by left]|].
  split; [done|]. right. split; [done|]. split.
  { unfold has_errors in Herr. apply bool_decide_eq_false in Herr. by destruct (error (failures d2)); [destruct Herr|]. }
  by do 2 eexists.
Qed.

Lemma campaign_inv (K : Z → InvariantTestData → Prop) (S : InvariantTestData → Prop) contract cfg ex
    fuel n g d g' d' :
  (∀ n g d continues g' d', I g → K n d → (has_timeout cfg = false → n < runs cfg) →
     one_run contract cfg ex g d = Some (Ok (continues, g', d')) →
     if continues then I g' ∧ K (n + 1) d' else S d') →
  I g → K n d → campaign_loop fuel contract cfg ex n g d = Some (Ok (g', d')) →
  S d' ∨ ∃ n' g', I g' ∧ K n' d' ∧ (continue_campaign cfg n' g').1 = false.
Proof.
  intros Hrun. revert n g d. induction fuel as [|fuel IH]; intros n g d Hg HK; cbn [InvariantRun.campaign_loop];
    pose proof (continue_laws cfg n g Hg) as Hg1; pose proof (continue_counts cfg n g) as Hcount;
    destruct (continue_campaign cfg n g) as [continues g1] eqn:Hc; cbn in Hg1, Hcount.
  - destruct continues; [done|]. cbn. intros [= <- <-]. right. exists n, g. by rewrite Hc.
  - destruct continues; cbn [negb]; [|intros [= <- <-]; right; exists n, g; by rewrite Hc].
    destruct (one_run _ _ _ _ _) as [res|] eqn:Hone; [|done]. cbn [mbind option_bind].
    destruct res as [[[continues g2] d2]|e]; [|done].
    pose proof (Hrun n g1 d continues g2 d2 Hg1 HK ltac:(auto) Hone) as Hnext.
    destruct continues; [|intros [= <- <-]; by left]. destruct Hnext as [Hg2 HK2]. by apply IH.
Qed.

Lemma prepared contract cfg ex g d :
  prepare_test call_raw is_raw_call_mut_success decode_revert contract cfg ex g = Ok d →
  error (failures d) = None ∧ fuzz_cases d = [].
Proof.
  unfold prepare_test, assert_invariants.
  destruct (InvariantRun.call_invariant _ _ _ _) as [[res b]|e]; [|done]. cbn.
  destruct b; cbn; by intros [= <-].
Qed.

(** ** A campaign that passes *)

(** As many cases as calls of the run, so far. *)
Definition counting cfg (cases : list (list (Z * Z))) d r : Prop :=
  fuzz_cases d = cases ∧ Z.of_nat (length (fuzz_runs r)) = run_depth r ∧ run_depth r <= depth cfg.

Lemma turn_counts contract cfg cases d r t :
  has_timeout cfg = false → counting cfg cases d r → run_depth r < depth cfg →
  turned contract cfg d r t →
  match t with Going _ d' r' => counting cfg cases d' r' | Stopped _ d' => is_Some (error (failures d')) end.
Proof.
  intros Ht (Hc & Hl & Hd) Hlt Hturned. unfold counting.
  destruct Hturned as [? Hlate|? ? n _ He|kept tx c ex ? d' r' _ _ [Hf _] _ [_ _ Hr Hdeep]
    |kept tx c ex ? d' r' _ _ [Hf _] _ [_ _ Hr Hdeep]|kept tx c ex ? d' r' _ _ [Hf _] _ [_ _ Hr Hdeep]
    |kept tx c ex ? d' e _ _ _ He _]; rewrite ?He; try done; [congruence|..];
    rewrite Hf, Hr, Hdeep, length_app; cbn; split_and!; done || lia.
Qed.

(** C17: A campaign that ends without an error, and neither late nor interrupted,
    made all of its runs, and each of them made all of its calls: calls that were
    rejected do not count, calls that reverted do. *)
Theorem passed_campaign_is_complete fuel contract cfg ex g g' d :
  has_timeout cfg = false → (∀ g, (should_stop (Call := RawCallResult Changes) (E := E) g).1 = false) →
  0 <= runs cfg → 0 <= depth cfg → 0 <= max_assume_rejects cfg → I g →
  invariant_fuzz fuel contract cfg ex g = Some (Ok (g', d)) → error (failures d) = None →
  Z.of_nat (length (fuzz_cases d)) = runs cfg ∧
  Forall (λ calls, Z.of_nat (length calls) = depth cfg) (fuzz_cases d).
Proof.
  intros Ht Hstop Hruns Hdep Hmax Hg. unfold InvariantRun.invariant_fuzz.
  destruct (has_params contract); [done|].
  destruct (prepare_test _ _ _ _ _ _ _) as [d0|e] eqn:Hprep; [|done]. apply prepared in Hprep as [_ Hcases].
  intros Hloop Hnone.
  set (K := λ n (d : InvariantTestData (Changes := Changes)), Z.of_nat (length (fuzz_cases d)) = n ∧
    Forall (λ calls, Z.of_nat (length calls) = depth cfg) (fuzz_cases d) ∧ n <= runs cfg).
  edestruct (campaign_inv K (λ d, is_Some (error (failures d)))) as [[e He]|(n & g1 & _ & HK & Hc)];
    [|exact Hg| |exact Hloop|congruence|].
  - clear g g' d d0 Hg Hcases Hloop Hnone. intros n g d continues g' d' Hg (Hlen & Hall & Hn) Hlt Hrun.
    eapply (one_run_inv (counting cfg (fuzz_cases d)) (λ d, is_Some (error (failures d)))) in Hrun;
      [|intros; by eapply turn_counts|done|done|intros; split_and!; [done..|cbn; lia]].
    destruct continues; [|done]. destruct Hrun as (Hg' & d1 & r1 & (Hf & Hr & Hle) & Hge & _ & Hfin & _).
    split; [done|]. unfold K. rewrite Hfin, Hf, length_app, Forall_app, Forall_singleton. cbn. specialize (Hlt Ht).
    split_and!; done || lia.
  - unfold K. rewrite Hcases. cbn. split_and!; [done|constructor|lia].
  - destruct HK as (Hlen & Hall & Hn). split; [|done]. unfold InvariantRun.continue_campaign in Hc.
    rewrite Ht in Hc. pose proof (Hstop g1). destruct (should_stop g1) as [[] g2]; [done|]. cbn in *. lia.
Qed.

(** ** A campaign that fails

    Executors that cannot be told apart by calls, and calls that leave such an
    executor when they revert. *)

Section reproduction.
Context (sim : Executor Backend → Executor Backend → Prop) `{!Equivalence sim}.
Hypothesis sim_call : ∀ a b from to data value, sim a b →
  call_raw a from to data value = call_raw b from to data value.
Hypothesis sim_success : ∀ a b addr c should_fail, sim a b →
  is_raw_call_mut_success a addr c should_fail = is_raw_call_mut_success b addr c should_fail.
Hypothesis sim_commit : ∀ a b c, sim a b → sim (commit a c) (commit b c).
Hypothesis reverted_calls_leave_no_trace : ∀ a from to data c,
  call_raw a from to data 0 = Ok c → reverted c = true → sim (commit a c) a.
Hypothesis sim_move : ∀ a b (w r : Z), sim a b → sim (apply_warp_roll_to_env a w r) (apply_warp_roll_to_env b w r).
Hypothesis delays_nonneg : ∀ tx, P tx → 0 <= default 0 (warp tx) ∧ 0 <= default 0 (roll tx).

Local Abbreviation check_txs := (check_txs call_raw commit).

Lemma check_txs_app fail_fast ex0 ex1 l1 l2 :
  check_txs ex0 l1 fail_fast = Ok (Some ex1) →
  check_txs ex0 (l1 ++ l2) fail_fast = check_txs ex1 l2 fail_fast.
Proof.
  revert ex0. induction l1 as [|tx l1 IH]; intros ex0; cbn; [by intros [= <-]|].
  destruct (execute_tx _ _ _) as [[c ex]|e]; cbn; [|done]. destruct (_ && _ && _); [done|]. apply IH.
Qed.

(** *** The calls of a run

    The calls made, and whether each was kept: one that reverts or is discarded
    may be left out, but the clock it has moved stays moved. *)
Local Abbreviation made := (list (bool * BasicTxDetails)).

Inductive history cfg ex0 : made → Executor Backend → Prop :=
| history_start : history cfg ex0 [] ex0
| history_kept h ex tx c ex' :
    history cfg ex0 h ex → execute_tx call_raw ex tx = Ok (c, ex') →
    InvariantRun.fail_on_revert cfg && reverted c = false →
    history cfg ex0 (h ++ [(true, tx)]) (commit ex' c)
| history_reverted h ex tx c ex' :
    history cfg ex0 h ex → execute_tx call_raw ex tx = Ok (c, ex') → reverted c = true →
    history cfg ex0 (h ++ [(false, tx)]) (commit ex' c)
| history_discarded h ex tx c ex' :
    history cfg ex0 h ex → execute_tx call_raw ex tx = Ok (c, ex') → output c = MAGIC_ASSUME →
    history cfg ex0 (h ++ [(false, tx)]) ex'.

Definition kept_of (h : made) : list BasicTxDetails := snd <$> filter (λ x, x.1 = true) h.

(** A call with the delays before it. *)
Definition delay (w r : Z) (tx : BasicTxDetails) : BasicTxDetails :=
  if (w =? 0) && (r =? 0) then tx
  else mkBasicTxDetails (Some (w + default 0 (warp tx))) (Some (r + default 0 (roll tx))) (sender tx) (call_details tx).
(** The calls that were kept, each with the delays of those left out before it, and
    the delays of those left out at the end. *)
Fixpoint replayed (w r : Z) (h : made) : list BasicTxDetails * (Z * Z) :=
  match h with
  | [] => ([], (w, r))
  | (true, tx) :: h => let '(l, lost) := replayed 0 0 h in (delay w r tx :: l, lost)
  | (false, tx) :: h => replayed (w + default 0 (warp tx)) (r + default 0 (roll tx)) h
  end.

Lemma replayed_kept (w r : Z) h tx :
  replayed w r (h ++ [(true, tx)]) =
  let '(l, (w', r')) := replayed w r h in (l ++ [delay w' r' tx], (0, 0)).
Proof.
  revert w r. induction h as [|[[] x] h IH]; intros w r; cbn; [done| |apply IH].
  rewrite IH. by destruct (replayed 0 0 h) as [l [w' r']].
Qed.
Lemma replayed_left (w r : Z) h tx :
  replayed w r (h ++ [(false, tx)]) =
  let '(l, (w', r')) := replayed w r h in (l, (w' + default 0 (warp tx), r' + default 0 (roll tx))).
Proof.
  revert w r. induction h as [|[[] x] h IH]; intros w r; cbn; [done| |apply IH].
  rewrite IH. by destruct (replayed 0 0 h) as [l [w' r']].
Qed.
Lemma kept_snoc h b tx : kept_of (h ++ [(b, tx)]) = kept_of h ++ if b then [tx] else [].
Proof.
  unfold kept_of. rewrite filter_app, fmap_app. f_equal. by destruct b.
Qed.

Definition still (tx : BasicTxDetails) : Prop := default 0 (warp tx) = 0 ∧ default 0 (roll tx) = 0.
(** Where the calls do not move the clock, nothing is lost. *)
Lemma nothing_lost h : Forall (still ∘ snd) h → replayed 0 0 h = (kept_of h, (0, 0)).
Proof.
  induction h as [|[[] tx] h IH]; [done|..]; intros [[Hw Hr] Hh]%Forall_cons; cbn; cbn in Hw, Hr.
  - rewrite IH by done. done.
  - rewrite Hw, Hr. by apply IH.
Qed.

Lemma moves ex (w1 r1 w2 r2 : Z) : 0 <= w1 → 0 <= r1 → 0 <= w2 → 0 <= r2 →
  apply_warp_roll_to_env (apply_warp_roll_to_env (Backend := Backend) ex w1 r1) w2 r2 =
  apply_warp_roll_to_env ex (w1 + w2) (r1 + r2).
Proof.
  intros. assert (∀ b, advance_block w2 r2 (advance_block w1 r1 b) = advance_block (w1 + w2) (r1 + r2) b) as Hadd.
  { intros b. unfold advance_block, u256_add, wrap. cbn. f_equal; rewrite Zplus_mod_idemp_l; f_equal; lia. }
  unfold apply_warp_roll_to_env at 2. destruct (Z.ltb_spec 0 w1) as [?|?], (Z.ltb_spec 0 r1) as [?|?]; cbn [orb].
  4: { replace w1 with 0 by lia. replace r1 with 0 by lia. done. }
  all: unfold apply_warp_roll_to_env; destruct (Z.ltb_spec 0 w2) as [?|?], (Z.ltb_spec 0 r2) as [?|?]; cbn [orb].
  all: try (replace w2 with 0 by lia; replace r2 with 0 by lia; rewrite !Z.add_0_r).
  all: rewrite ?(proj2 (Z.ltb_lt 0 (w1 + w2))), ?(proj2 (Z.ltb_lt 0 (r1 + r2))), ?orb_true_r by lia; cbn.
  all: rewrite ?Hadd; try (destruct (cheatcodes ex) as [[b|]|]; cbn; rewrite ?Hadd; done).
  all: rewrite ?(proj2 (Z.ltb_lt 0 w1)), ?(proj2 (Z.ltb_lt 0 r1)), ?orb_true_r by lia; done.
Qed.

Lemma execute_delayed ex (w r : Z) tx : P tx → 0 <= w → 0 <= r →
  execute_tx call_raw ex (delay w r tx) = execute_tx call_raw (apply_warp_roll_to_env ex w r) tx.
Proof.
  intros Htx Hw Hr. unfold delay. destruct (Z.eqb_spec w 0) as [->|], (Z.eqb_spec r 0) as [->|]; cbn [andb]; [done|..];
    unfold execute_tx; cbn; rewrite moves by (done || apply delays_nonneg; done); done.
Qed.
Lemma execute_sim a b tx c a' : sim a b → execute_tx call_raw b tx = Ok (c, a') →
  ∃ b', execute_tx call_raw a tx = Ok (c, b') ∧ sim b' a' ∧ a' = apply_warp_roll_to_env b (default 0 (warp tx)) (default 0 (roll tx)) ∧
    call_raw a' (sender tx) (target (call_details tx)) (calldata (call_details tx)) 0 = Ok c.
Proof.
  intros Hs. unfold execute_tx. pose proof (sim_move _ _ (default 0 (warp tx)) (default 0 (roll tx)) Hs) as Hm.
  rewrite (sim_call _ _ _ _ _ _ Hm). destruct (call_raw _ _ _ _ _) eqn:Hc; cbn; [|done].
  intros [= <- <-]. eexists. split_and!; [reflexivity|done..].
Qed.

(** Replaying what was kept of the calls reaches an executor like [ex], once the
    clock is moved by what the calls left out at the end have moved it. *)
Definition reaches fail_fast ex0 (h : made) ex : Prop :=
  let '(txs, (w, r)) := replayed 0 0 h in
  0 <= w ∧ 0 <= r ∧ ∃ ex', check_txs ex0 txs fail_fast = Ok (Some ex') ∧ sim (apply_warp_roll_to_env ex' w r) ex.

Lemma reaches_kept fail_fast ex0 h ex tx c ex1 :
  P tx → reaches fail_fast ex0 h ex → fail_fast && reverted c = false → execute_tx call_raw ex tx = Ok (c, ex1) →
  reaches fail_fast ex0 (h ++ [(true, tx)]) (commit ex1 c).
Proof.
  unfold reaches. rewrite replayed_kept. destruct (replayed 0 0 h) as [txs [w r]].
  intros Htx (Hw & Hr & ex' & Hreach & Hsim) Hrev Hcall.
  destruct (execute_sim _ _ _ _ _ Hsim Hcall) as (ex2 & Hex2 & Hsim2 & _).
  split; [done|]. split; [done|]. exists (commit ex2 c). split; [|by apply sim_commit].
  erewrite check_txs_app by done. cbn. rewrite execute_delayed, Hex2 by done. cbn.
  rewrite (andb_comm (reverted c)), Hrev. done.
Qed.
Lemma reaches_left fail_fast ex0 h ex tx c ex1 ex2 :
  P tx → reaches fail_fast ex0 h ex → execute_tx call_raw ex tx = Ok (c, ex1) → sim ex1 ex2 →
  reaches fail_fast ex0 (h ++ [(false, tx)]) ex2.
Proof.
  unfold reaches. rewrite replayed_left. destruct (replayed 0 0 h) as [txs [w r]].
  intros Htx (Hw & Hr & ex' & Hreach & Hsim) Hcall Hsim2. pose proof (delays_nonneg tx Htx) as [? ?].
  destruct (execute_sim _ _ _ _ _ Hsim Hcall) as (_ & _ & _ & -> & _).
  split; [lia|]. split; [lia|]. exists ex'. split; [done|]. rewrite <-moves by done.
  etrans; [by apply sim_move|done].
Qed.
(** What a report of [case] comes to, if [calls] are replayed and the clock is then
    moved by [w] and [r]: the invariant is broken, or what is called after a run
    fails after the calls reported but the last. *)
Definition breaks contract cfg ex0 case (kept calls : list BasicTxDetails) (w r : Z) : Prop :=
  case_calls case = kept ∧
  check_sequence call_raw commit is_raw_call_mut_success after_invariant_selector ex0 calls
    (seq 0 (length calls)) (address contract) (selector contract)
    (InvariantRun.fail_on_revert cfg) (call_after_invariant contract) = Some (Ok (false, true)) ∨
  call_after_invariant contract = true ∧ ∃ next ex res,
    case_calls case = kept ++ [next] ∧
    check_txs ex0 calls (InvariantRun.fail_on_revert cfg) = Ok (Some ex) ∧
    call_after_invariant_function call_raw is_raw_call_mut_success after_invariant_selector
      (apply_warp_roll_to_env ex w r) (address contract) = Ok (res, false).

Definition reproduces contract cfg ex0 case : Prop :=
  ∃ h ex, history cfg ex0 h ex ∧ Forall (P ∘ snd) h ∧
  let '(calls, (w, r)) := replayed 0 0 h in breaks contract cfg ex0 case (kept_of h) calls w r.

Definition sound contract cfg ex0 d : Prop :=
  ∀ case, error (failures d) = Some (BrokenInvariant case) → reproduces contract cfg ex0 case.

Definition replaying contract cfg ex0 d r : Prop :=
  sound contract cfg ex0 d ∧ ∃ h next, inputs r = kept_of h ++ [next] ∧ Forall (P ∘ snd) h ∧
    history cfg ex0 h (executor r) ∧ reaches (InvariantRun.fail_on_revert cfg) ex0 h (executor r).

Lemma call_function_sim a b addr data :
  sim a b → call_invariant_function call_raw is_raw_call_mut_success a addr data =
            call_invariant_function call_raw is_raw_call_mut_success b addr data.
Proof.
  intros Hs. unfold call_invariant_function. rewrite (sim_call _ b) by done.
  destruct (call_raw _ _ _ _ _); cbn; [|done]. by rewrite (sim_success _ b).
Qed.

Lemma reaches_breaks contract cfg ex0 h ex case res :
  reaches (InvariantRun.fail_on_revert cfg) ex0 (h ++ [(true, case)]) ex →
  InvariantRun.call_invariant call_raw is_raw_call_mut_success contract ex = Ok (res, false) →
  let '(calls, _) := replayed 0 0 (h ++ [(true, case)]) in
  check_sequence call_raw commit is_raw_call_mut_success after_invariant_selector ex0 calls
    (seq 0 (length calls)) (address contract) (selector contract)
    (InvariantRun.fail_on_revert cfg) (call_after_invariant contract) = Some (Ok (false, true)).
Proof.
  unfold reaches. rewrite replayed_kept. destruct (replayed 0 0 h) as [txs [w r]].
  intros (_ & _ & ex' & Hreach & Hsim) Hinv. unfold check_sequence.
  erewrite check_calls_txs by apply all_indices. rewrite Hreach. cbn [mbind option_bind result_bind].
  rewrite (call_function_sim _ _ _ _ Hsim). unfold InvariantRun.call_invariant in Hinv. by rewrite Hinv.
Qed.

Lemma turn_replays contract cfg ex0 d r t :
  replaying contract cfg ex0 d r → ok_calls r → turned contract cfg d r t →
  match t with Going _ d' r' => replaying contract cfg ex0 d' r' | Stopped _ d' => sound contract cfg ex0 d' end.
Proof.
  intros (Hsound & h & next & Hin & HPh & Hhist & Hreach) [_ HP] Hturned.
  rewrite Hin, Forall_app, Forall_singleton in HP. destruct HP as [_ Hnext].
  assert (∀ b, Forall (P ∘ snd) (h ++ [(b, next)])) as HPn by (intros b; by apply Forall_app; split; [|apply Forall_singleton]).
  assert (∀ kept' tx, inputs r = kept' ++ [tx] → kept' = kept_of h ∧ tx = next) as Hcall.
  { intros kept' tx Hin'. rewrite Hin in Hin'. by apply app_inj_2 in Hin' as [-> [= ->]]. }
  assert (∀ d', error (failures d') = error (failures d) → sound contract cfg ex0 d') as Hsame.
  { intros d' Heq case. rewrite Heq. apply Hsound. }
  destruct Hturned as [? Hlate|? ? n _ He|kept' tx c ex ? d' r' Hin' Hex [_ Hf] Hmagic [(n & _ & Hr) Hexec _ _]
    |kept' tx c ex ? d' r' Hin' Hex [_ Hf] Hrev [(n & _ & Hr) Hexec _ _]
    |kept' tx c ex ? d' r' Hin' Hex [_ Hf] Hrev [(n & _ & Hr) Hexec _ _]
    |kept' tx c ex ? d' e Hin' Hex _ He Hfail]; try (destruct (Hcall _ _ Hin') as [-> ->]).
  - done.
  - intros case. rewrite He. done.
  - split; [by apply Hsame|]. exists (h ++ [(false, next)]), n. rewrite kept_snoc, app_nil_r, Hexec.
    split_and!; [done..|by eapply history_discarded|by eapply reaches_left].
  - split; [by apply Hsame|]. exists (h ++ [(false, next)]), n. rewrite kept_snoc, app_nil_r, Hexec.
    split_and!; [done..|by eapply history_reverted|eapply reaches_left; [done..|]].
    destruct (execute_sim _ _ _ _ _ (reflexivity (R := sim) (executor r)) Hex) as (_ & _ & _ & _ & Hc).
    symmetry. by eapply reverted_calls_leave_no_trace.
  - split; [by apply Hsame|]. exists (h ++ [(true, next)]), n. rewrite kept_snoc, Hexec.
    split_and!; [done..|by eapply history_kept|by eapply reaches_kept].
  - intros case. rewrite He. intros [= ->]. inversion Hfail as [|case' res Hcalls Hrev Hinv]; subst.
    assert (InvariantRun.fail_on_revert cfg && reverted c = false) as Hff by (by rewrite Hrev, andb_false_r).
    exists (h ++ [(true, next)]), (commit ex c). split; [by eapply history_kept|]. split; [done|].
    pose proof (reaches_breaks contract cfg ex0 h _ next res (reaches_kept _ _ _ _ _ _ _ Hnext Hreach Hff Hex) Hinv) as Hb.
    destruct (replayed 0 0 (h ++ [(true, next)])) as [calls [w r']]. left. rewrite kept_snoc. done.
Qed.

(** C14: Soundness of invariant testing: a campaign that reports the invariant as
    broken has made calls of which it reports those it kept, and leaves out ones
    that reverted or were discarded; executed from the initial state, each with
    the delays of the calls left out before it, the reported calls do break the
    invariant.  Where no call has a delay they do so as they are.  A failure of
    [afterInvariant] is reported with one call more, which was not made: the calls
    without it lead to that failure. *)
Theorem counterexample_reproduces fuel contract cfg ex g g' d case :
  0 <= max_assume_rejects cfg → I g →
  invariant_fuzz fuel contract cfg ex g = Some (Ok (g', d)) →
  error (failures d) = Some (BrokenInvariant case) →
  reproduces contract cfg ex case ∧
  ((∀ tx, P tx → still tx) → ∃ kept, breaks contract cfg ex case kept kept 0 0).
Proof.
  intros Hmax Hg. unfold InvariantRun.invariant_fuzz.
  destruct (has_params contract); [done|].
  destruct (prepare_test _ _ _ _ _ _ _) as [d0|e] eqn:Hprep; [|done]. apply prepared in Hprep as [Herr _].
  intros Hloop Hd.
  enough (sound contract cfg ex d) as Hsound.
  { specialize (Hsound case Hd) as Hrep. split; [exact Hrep|]. intros Hstill.
    destruct Hrep as (h & ex' & _ & HP & Hb). exists (kept_of h).
    rewrite nothing_lost in Hb; [exact Hb|]. eapply Forall_impl; [exact HP|]. intros x. apply Hstill. }
  assert (sound contract cfg ex d0) as H0 by (intros c; by rewrite Herr).
  edestruct (campaign_inv (λ _, sound contract cfg ex) (sound contract cfg ex)) as [?|(n & g1 & _ & ? & _)];
    [|exact Hg|exact H0|exact Hloop|done|done].
  clear fuel g g' d case Hg Hloop d0 Herr H0 Hd. intros n g d continues g' d' Hg Hsound _ Hrun.
  eapply (one_run_inv (replaying contract cfg ex) (sound contract cfg ex)) in Hrun;
    [|intros; by eapply turn_replays|done|done|].
  2: { intros tx Htx. split; [done|]. exists [], tx. split; [done|]. split; [constructor|]. split; [constructor|].
       split; [done|]. split; [done|]. exists ex. split; done. }
  destruct continues; [|done].
  destruct Hrun as (Hg' & d1 & r1 & (Hsd & h & next & Hin & HPh & Hhist & Hreach) & _ & _ & _ & Hfin).
  split; [done|]. destruct Hfin as [Hsame|(Hcall & _ & case & res & He & Hcalls & Hafter)].
  { intros case. rewrite Hsame. apply Hsd. }
  intros case'. rewrite He. intros [= <-]. exists h, (executor r1). split; [done|]. split; [done|].
  unfold reaches in Hreach. destruct (replayed 0 0 h) as [calls [w r]]. right. split; [done|].
  destruct Hreach as (_ & _ & ex' & Hreach & Hsim). exists next, ex', res. split; [congruence|]. split; [done|].
  unfold call_after_invariant_function. rewrite (call_function_sim _ _ _ _ Hsim). exact Hafter.
Qed.
End reproduction.
End campaign.

(** ** Example

    A contract with a counter, which calls increase, and the clock; a call with
    data 2 reverts and one with data 3 is discarded. *)
Module CampaignExample.

(** The calls that are made, in turn, and again from the start. *)
Record Script := mkScript { upcoming : list BasicTxDetails; all : list BasicTxDetails }.
Definition plain_call (data : Z) : BasicTxDetails := mkBasicTxDetails None None 1 (mkCallDetails 2 [data]).
Definition late_call (data : Z) : BasicTxDetails := mkBasicTxDetails (Some 7) None 1 (mkCallDetails 2 [data]).
Definition next_tx (g : Script) : BasicTxDetails * Script :=
  match upcoming g ++ all g with
  | [] => (plain_call 1, g)
  | tx :: _ => (tx, mkScript (match upcoming g with [] => tail (all g) | _ :: l => l end) (all g))
  end.

#[local] Instance script_source : CallSource Script (RawCallResult Z) unit := {
  new_inputs g := let '(tx, g) := next_tx g in Some (Ok [tx], g);
  generate_next_input _ _ _ g := let '(tx, g) := next_tx g in Some (Ok tx, g);
  merge_edge_coverage _ g := (false, g);
  process_inputs _ _ g := Some g;
  collect_data _ _ _ g := g;
  collect_created_contracts _ l g := (l, g);
  clear_created_contracts _ g := g;
  revert_fuzz_state g := g;
  target_addresses _ := [2];
  fuzzed_metric_key _ _ := Some (Some "Counter.increase"%string);
  last_sequence _ := [];
  should_stop g := (false, g);
  is_timed_out g := (false, g);
}.

Definition of_script (Q : BasicTxDetails → Prop) (g : Script) : Prop :=
  Forall Q (upcoming g) ∧ Forall Q (all g) ∧ Q (plain_call 1).

Lemma next_tx_laws Q g : of_script Q g → Q (next_tx g).1 ∧ of_script Q (next_tx g).2.
Proof.
  destruct g as [u a]. intros (Hu & Ha & Hp). unfold next_tx, of_script in *. cbn in *.
  destruct u as [|x u]; cbn; [destruct a as [|y a]; cbn; [done|]|].
  - split; [by apply (Forall_inv Ha)|]. cbn. split; [by apply (Forall_inv_tail Ha)|done].
  - split; [by apply (Forall_inv Hu)|]. cbn. split; [by apply (Forall_inv_tail Hu)|done].
Qed.

#[local] Instance script_laws Q : SourceLaws (Call := RawCallResult Z) (E := unit) (of_script Q) Q.
Proof.
  split; cbn; try done.
  - intros g Hg. pose proof (next_tx_laws Q g Hg) as [Hq Hg']. destruct (next_tx g) as [tx g']. do 2 eexists.
    split; [done|]. split; [done|]. intros seq [= <-]. split; [done|]. by apply Forall_singleton.
  - intros seq discarded depth g Hg _. pose proof (next_tx_laws Q g Hg) as [Hq Hg'].
    destruct (next_tx g) as [tx g']. do 2 eexists. split; [done|]. split; [done|]. by intros ? [= <-].
  - intros txs news g Hg _ _. by eexists.
Qed.

Definition call_raw (ex : Executor Z) (_ _ : Address) (data : Bytes) (_ : Z) : result unit (RawCallResult Z) :=
  Ok (mkRawCallResult (bool_decide (data = [2])) (if bool_decide (data = [3]) then MAGIC_ASSUME
        else if bool_decide (data = [8]) then [if backend ex =? 1 then 0 else 1]
        else be_bytes 32 (timestamp (block_env ex)))
        (if bool_decide (data = [1]) then 1 else 0)).
Definition commit (ex : Executor Z) (c : RawCallResult Z) : Executor Z :=
  mkExecutor (block_env ex) (Shrink.cheatcodes ex) (backend ex + if reverted c then 0 else changes _ c).
(** The invariant: fewer than three increases and an early clock; afterwards,
    not exactly one increase. *)
Definition succeeds (ex : Executor Z) (a : Address) (c : RawCallResult Z) (_ : bool) : RawCallResult Z * bool :=
  (c, (backend ex <? 3) && (timestamp (block_env ex) <? 5)).
Definition succeeds_after (ex : Executor Z) (a : Address) (c : RawCallResult Z) (_ : bool) : RawCallResult Z * bool :=
  (c, negb (bool_decide (output c = [0]))).
Definition handler_ok (_ : Executor Z) (_ : Address) (_ : bool) (_ : Z) : bool := true.
Definition from_be (b : Bytes) : option Z := Some (foldl (λ x y, x * 256 + y) 0 b).

Definition start : Executor Z := mkExecutor (mkBlockEnv 0 0) None 0.
Definition config : Config := mkConfig 2 3 false 5000 1 1 true false.
Definition contract (after optimization : bool) : Contract := mkContract 3 [9] false after optimization.

Local Abbreviation campaign success after optimization calls :=
  (invariant_fuzz call_raw commit success handler_ok [8] from_be (λ _, "reason"%string) (λ _, (21000, 0))
    2 (contract after optimization) config start (mkScript calls calls)).
Definition outcome success after optimization calls : option (InvariantTestData (Changes := Z)) :=
  match campaign success after optimization calls with Some (Ok (_, d)) => Some d | _ => None end.
Definition reported success after optimization calls : option (list BasicTxDetails) :=
  d ← outcome success after optimization calls;
  match error (failures d) with Some (BrokenInvariant case) => Some (case_calls case) | _ => None end.
Definition replayed_plainly success after (calls : list BasicTxDetails) :=
  check_sequence call_raw commit success [8] start calls (seq 0 (length calls)) 3 [9] false after.

Lemma campaign_ends_witness :
  is_Some (campaign succeeds true false [plain_call 3; late_call 2; plain_call 1]).
Proof.
  destruct (campaign_ends call_raw commit succeeds handler_ok [8] from_be (λ _, "reason"%string) (λ _, (21000, 0))
    (of_script (λ _, True)) (λ _, True) 2 (contract true false) config start
    (mkScript [plain_call 3; late_call 2; plain_call 1] [plain_call 3; late_call 2; plain_call 1])) as [res Hres];
    [done|done|done|repeat split; repeat constructor|done|]. exists res. exact Hres.
Defined.

Lemma outcome_some success after optimization calls (f : InvariantTestData (Changes := Z) → bool) :
  match outcome success after optimization calls with Some d => f d | None => false end = true →
  ∃ g d, campaign success after optimization calls = Some (Ok (g, d)) ∧
    outcome success after optimization calls = Some d ∧ f d = true.
Proof.
  unfold outcome. destruct (campaign success after optimization calls) as [[[g d]|e]|]; [|done..]. intros Hf. by exists g, d.
Qed.

Definition passing_calls : list BasicTxDetails := [plain_call 2; plain_call 3; plain_call 1].
Lemma passes :
  ∃ g d, campaign succeeds false false passing_calls = Some (Ok (g, d)) ∧
    outcome succeeds false false passing_calls = Some d ∧ error (failures d) = None.
Proof.
  destruct (outcome_some succeeds false false passing_calls (λ d, bool_decide (¬ is_Some (error (failures d)))))
    as (g & d & Hc & Ho & He); [vm_compute; reflexivity|]. exists g, d. split; [done|]. split; [done|].
  apply bool_decide_eq_true in He. by destruct (error (failures d)); [destruct He|].
Qed.

Lemma passed_campaign_is_complete_witness :
  ∃ d, outcome succeeds false false passing_calls = Some d ∧
    length (fuzz_cases d) = 2%nat ∧ Forall (λ calls, length calls = 3%nat) (fuzz_cases d).
Proof.
  assert (0 <= runs config ∧ 0 <= depth config ∧ 0 <= max_assume_rejects config) as (Hr & Hd & Hm) by (cbn; lia).
  assert (of_script (λ _, True) (mkScript passing_calls passing_calls)) as Hg by (repeat split; repeat constructor).
  destruct passes as (g & d & Hc & Ho & He). exists d. split; [exact Ho|]. clear Ho.
  pose proof (passed_campaign_is_complete call_raw commit succeeds handler_ok [8] from_be (λ _, "reason"%string)
    (λ _, (21000, 0)) (of_script (λ _, True)) (λ _, True) 2 (contract false false) config start
    (mkScript passing_calls passing_calls) g d eq_refl (λ _, eq_refl) Hr Hd Hm Hg Hc He) as [Hcases Hall].
  clear Hc He. change (Z.of_nat (length (fuzz_cases d)) = 2) in Hcases. split; [lia|].
  eapply Forall_impl; [exact Hall|]. intros l Hl. change (Z.of_nat (length l) = 3) in Hl. lia.
Defined.

Definition alike (a b : Executor Z) : Prop := block_env a = block_env b ∧ backend a = backend b.
#[local] Instance alike_equivalence : Equivalence alike.
Proof.
  split; [by intros a|by intros a b [??]|]. intros a b c [??] [??]. split; by etrans.
Qed.

Definition counting_calls : list BasicTxDetails := [plain_call 1; plain_call 2; plain_call 3; plain_call 1].
(** The first call moves the clock and is discarded, the second one breaks the
    invariant because of that. *)
Definition breaking_calls : list BasicTxDetails := [late_call 3; plain_call 4].
Definition breaking_case : FailedInvariantCaseData := mkCase [plain_call 4] "reason" 3 [9] [] 5000 false.
#[local] Instance CallDetails_eq_dec : EqDecision CallDetails.
Proof. solve_decision. Defined.
#[local] Instance BasicTxDetails_eq_dec : EqDecision BasicTxDetails.
Proof. solve_decision. Defined.
#[local] Instance Case_eq_dec : EqDecision FailedInvariantCaseData.
Proof. solve_decision. Defined.
#[local] Instance Error_eq_dec : EqDecision InvariantFuzzError.
Proof. solve_decision. Defined.

Lemma breaks_with :
  ∃ g d, campaign succeeds false false breaking_calls = Some (Ok (g, d)) ∧
    error (failures d) = Some (BrokenInvariant breaking_case).
Proof.
  destruct (outcome_some succeeds false false breaking_calls
    (λ d, bool_decide (error (failures d) = Some (BrokenInvariant breaking_case)))) as (g & d & Hc & _ & He);
    [vm_compute; reflexivity|]. exists g, d. split; [exact Hc|]. by apply bool_decide_eq_true in He.
Qed.

Definition nonneg (tx : BasicTxDetails) : Prop := 0 <= default 0 (warp tx) ∧ 0 <= default 0 (roll tx).
Lemma counterexample_reproduces_witness :
  reported succeeds false false counting_calls = None ∧
  case_calls breaking_case = [plain_call 4] ∧ replayed_plainly succeeds false [plain_call 4] = Some (Ok (true, true)) ∧
  reproduces (E := unit) call_raw commit succeeds [8] nonneg (contract false false) config start breaking_case.
Proof.
  split; [vm_compute; reflexivity|]. split; [reflexivity|]. split; [vm_compute; reflexivity|].
  assert (0 <= max_assume_rejects config) as Hm by (cbn; lia).
  assert (of_script nonneg (mkScript breaking_calls breaking_calls)) as Hg.
  { unfold of_script, nonneg. cbn. repeat (constructor || split); cbn; lia. }
  destruct breaks_with as (g & d & Hc & He).
  destruct (λ H1 H2 H3 H4 H5, counterexample_reproduces call_raw commit succeeds handler_ok [8] from_be (λ _, "reason"%string)
    (λ _, (21000, 0)) (of_script nonneg) nonneg alike H1 H2 H3 H4 H5 (λ _ Hs, Hs) 2 (contract false false) config start
    (mkScript breaking_calls breaking_calls) g d breaking_case Hm Hg Hc He) as [Hr _];
    [| | | | |exact Hr]; clear Hc He.
  - intros a b from to data value [Hb Hc]. unfold call_raw. by rewrite Hb, Hc.
  - intros a b addr c f [Hb Hc']. unfold succeeds. by rewrite Hb, Hc'.
  - intros a b c [Hb Hc']. split; cbn; [done|by rewrite Hc'].
  - intros a from to data c [= <-]. cbn. intros Hrev. rewrite Hrev. split; cbn; [done|lia].
  - intros a b w r [Hb Hc']. unfold apply_warp_roll_to_env. destruct (_ || _); [|done]. split; cbn; [by rewrite Hb|done].
Defined.

(** The clock that a reverted call moves is not in the report: the calls it is
    removed from do not break the invariant when they are replayed. *)
Example lost_warp :
  reported succeeds false false [late_call 2; plain_call 4] = Some [plain_call 4] ∧
  replayed_plainly succeeds false [plain_call 4] = Some (Ok (true, true)) ∧
  replayed_plainly succeeds false [late_call 2; plain_call 4] = Some (Ok (false, true)).
Proof. vm_compute. repeat split. Qed.

(** A failure of [afterInvariant] is reported with the call that would have been
    the next one and was never made; with it, there is no failure. *)
Example call_never_made :
  reported succeeds_after true false [plain_call 1; plain_call 4; plain_call 4; plain_call 1] =
    Some [plain_call 1; plain_call 4; plain_call 4; plain_call 1] ∧
  replayed_plainly succeeds_after true [plain_call 1; plain_call 4; plain_call 4; plain_call 1] = Some (Ok (true, true)).
Proof. vm_compute. repeat split. Qed.

(** In optimization mode, too: the clock that a discarded call moved is not in
    the best sequence, which does not give its value when it is replayed. *)
Definition always (_ : Executor Z) (_ : Address) (c : RawCallResult Z) (_ : bool) : RawCallResult Z * bool := (c, true).
Example discarded_warp :
  (d ← outcome always false true [late_call 3; plain_call 4; plain_call 4; plain_call 4];
   Some (optimization_best_value d, optimization_best_sequence d)) = Some (Some 7, [plain_call 4]) ∧
  check_sequence_value call_raw commit always from_be start [plain_call 4] (seq 0 1) 3 [9] = Ok (Some 0).
Proof. vm_compute. repeat split. Qed.
End CampaignExample.
