(* ===== verification/FuzzRun.v ===== *)
(** * Fuzz tests on several workers

    Models [FuzzedExecutor] of [evm/evm/src/executors/fuzz/mod.rs]: the workers
    that call the test with inputs, what they share, and the result that is
    made of theirs.

    Workers run at the same time.  A turn of a worker's loop is cut where it
    touches what is shared: the flags it reads, the counters it increments, the
    claim of a failure; [advance] does one such part of one worker, and a run of
    the test is any sequence of them.  The EVM, the corpus and its files are
    parameters; line coverage, breakpoints and labels are not modelled.
    [None] is a panic. *)
From S2P Require Import Prelude.
From S2P Require Import Shrink.
From stdpp Require Import strings.
Local Open Scope Z_scope.

Record FuzzConfig := mkFuzzConfig {
  runs : Z;
  fail_on_revert : bool;
  max_test_rejects : Z;
  seed : option Z;
  gas_report_samples : Z;
  show_logs : bool;
}.

Record FuzzCase := mkFuzzCase { gas : Z; stipend : Z }.

(** What the code reads of a call: the result, and whether and where it
    reverted. *)
Record Call (Log Trace : Type) := mkCall {
  result_data : Bytes;
  reverter : option Address;
  gas_used : Z;
  call_stipend : Z;
  logs : list Log;
  traces : option Trace;
}.
Arguments mkCall {Log Trace} _ _ _ _ _ _.
Arguments result_data {Log Trace} _.
Arguments reverter {Log Trace} _.
Arguments gas_used {Log Trace} _.
Arguments call_stipend {Log Trace} _.
Arguments logs {Log Trace} _.
Arguments traces {Log Trace} _.

(** The corpus of a worker, its source of randomness and its files. *)
Class FuzzInputs (G Call E : Type) := {
  new_input : G → option (result E Bytes * G);
  sync_corpus : G → option (result E unit * G);
  merge_edge_coverage : Call → G → bool * G;
  process_inputs : list BasicTxDetails → bool → G → option G;
}.

Definition SYNC_INTERVAL : Z := 1000.
Definition MIN_RUNS_PER_WORKER : Z := 64.

(** [FuzzedExecutor::new]: the number of workers. *)
Definition num_workers (current_num_threads : Z) (c : FuzzConfig) : Z :=
  let max_workers := Z.max 1 (runs c / MIN_RUNS_PER_WORKER) in
  let max_workers := if runs c =? 0 then 0 else max_workers in
  Z.min current_num_threads max_workers.

Definition runs_per_worker (c : FuzzConfig) (n worker_id : Z) : Z :=
  let share := runs c / n in
  let remainder := runs c mod n in
  if worker_id <? remainder then share + 1 else share.

Inductive TestCaseError (E : Type) :=
| Fail (reason : string)
| FailedCall (e : E)               (* a [Fail] with the text of the error *)
| FailedGeneration (e : E)         (* a [Fail] with the text of the error *)
| TooManyRejects (max : Z).        (* a [Reject] *)
Arguments Fail {E} _.
Arguments FailedCall {E} _.
Arguments FailedGeneration {E} _.
Arguments TooManyRejects {E} _.

Section fuzz.
Context {Executor Log Trace G E : Type} `{FuzzInputs G (Call Log Trace) E}.
Local Abbreviation Call := (Call Log Trace).

Context (c : FuzzConfig) (workers_count : Z) (address sender : Address) (selector : Bytes).
Context (call_raw : Executor → Bytes → result E Call)
        (is_raw_call_mut_success : Executor → Call → bool)
        (set_seed : Z → Executor → Executor)
        (decode_reason : Call → option string).
Context (executor_f : Executor) (persisted_failure : option Bytes).

Inductive FuzzOutcome :=
| Case (case : FuzzCase) (traces : option Trace) (logs : list Log)
| CounterExample (counterexample : Bytes * Call).
Inductive Single := Outcome (o : FuzzOutcome) | AssumeReject | CallFails (e : E).

Definition CHEATCODE_ADDRESS : Address := 0x7109709ECfa91a80626fF3989D68f67F5b1DD12D.

(** [single_fuzz] *)
Definition single_fuzz (ex : Executor) (calldata : Bytes) (g : G) : option (Single * G) :=
  match call_raw ex calldata with
  | Err e => Some (CallFails e, g)
  | Ok call =>
      let '(new_coverage, g) := merge_edge_coverage call g in
      g ← process_inputs [mkBasicTxDetails None None sender (mkCallDetails address calldata)] new_coverage g;
      if bool_decide (result_data call = MAGIC_ASSUME) then Some (AssumeReject, g)
      else
        let elsewhere := match reverter call with
                         | Some r => negb (r =? address) && negb (r =? CHEATCODE_ADDRESS)
                         | None => false
                         end in
        let success := if negb (fail_on_revert c) && elsewhere then true
                       else is_raw_call_mut_success ex call in
        Some (Outcome (if success then Case (mkFuzzCase (gas_used call) (call_stipend call)) (traces call) (logs call)
                       else CounterExample (calldata, call)), g)
  end.

(** ** Workers *)

(** Where a worker is in its loop. *)
Inductive Phase :=
| Ready
| Executed (s : Single)
| Counted (o : FuzzOutcome) (total_runs : Z)
| Claiming
| Stopped
| Broken (e : E).

Record WorkerState := mkWorker {
  id : nat;
  first_case : option (Z * FuzzCase);
  gas_by_case : list (Z * Z);
  counterexample : option (Bytes * Call);        (* [None]: the default *)
  worker_traces : list Trace;
  worker_logs : list Log;
  worker_runs_done : Z;
  failure : option (TestCaseError E);
  last_run_timestamp : Z;
  (* the variables of [run_worker] *)
  corpus : G;
  executor : Executor;
  persisted : option Bytes;
  runs_since_sync : Z;
  phase : Phase;
}.

Record Shared := mkShared {
  total_runs : Z;
  failed_worker_id : option nat;
  total_rejects : Z;
  local_early_exit : bool;
}.

Definition worker_runs (w : WorkerState) : Z := runs_per_worker c workers_count (Z.of_nat (id w)).
Definition sync_threshold (w : WorkerState) : Z := SYNC_INTERVAL + Z.of_nat (id w) * 100.
Definition max_traces_to_collect : Z := Z.max 1 (gas_report_samples c / workers_count).

(** The start of [run_worker]. *)
Definition worker_start (worker_id : nat) (g : G) : WorkerState :=
  mkWorker worker_id None [] None [] [] 0 None 0 g executor_f
    (if (worker_id =? 0)%nat then persisted_failure else None)
    (SYNC_INTERVAL + Z.of_nat worker_id * 100) Ready.

Definition set_phase (p : Phase) (w : WorkerState) : WorkerState :=
  mkWorker (id w) (first_case w) (gas_by_case w) (counterexample w) (worker_traces w) (worker_logs w)
    (worker_runs_done w) (failure w) (last_run_timestamp w) (corpus w) (executor w) (persisted w)
    (runs_since_sync w) p.
Definition set_source (g : G) (ex : Executor) (p : option Bytes) (since : Z) (w : WorkerState) : WorkerState :=
  mkWorker (id w) (first_case w) (gas_by_case w) (counterexample w) (worker_traces w) (worker_logs w)
    (worker_runs_done w) (failure w) (last_run_timestamp w) g ex p since (phase w).
Definition set_timestamp (t : Z) (w : WorkerState) : WorkerState :=
  mkWorker (id w) (first_case w) (gas_by_case w) (counterexample w) (worker_traces w) (worker_logs w)
    (worker_runs_done w) (failure w) t (corpus w) (executor w) (persisted w) (runs_since_sync w) (phase w).
Definition fail_with (e : TestCaseError E) (w : WorkerState) : WorkerState :=
  mkWorker (id w) (first_case w) (gas_by_case w) (counterexample w) (worker_traces w) (worker_logs w)
    (worker_runs_done w) (Some e) (last_run_timestamp w) (corpus w) (executor w) (persisted w)
    (runs_since_sync w) Claiming.
Definition inc_runs (p : Phase) (w : WorkerState) : WorkerState :=
  mkWorker (id w) (first_case w) (gas_by_case w) (counterexample w) (worker_traces w) (worker_logs w)
    (worker_runs_done w + 1) (failure w) (last_run_timestamp w) (corpus w) (executor w) (persisted w)
    (runs_since_sync w) p.

(** A case is recorded. *)
Definition record_case (total : Z) (case : FuzzCase) (tr : option Trace) (ls : list Log) (w : WorkerState)
    : WorkerState :=
  mkWorker (id w) (match first_case w with None => Some (total, case) | f => f end)
    (gas_by_case w ++ [(gas case, stipend case)]) (counterexample w)
    (match tr with
     | None => worker_traces w
     | Some t => (if Z.of_nat (length (worker_traces w)) =? max_traces_to_collect
                  then removelast (worker_traces w) else worker_traces w) ++ [t]
     end)
    (if show_logs c then worker_logs w ++ ls else ls)
    (worker_runs_done w) (failure w) (last_run_timestamp w) (corpus w) (executor w) (persisted w)
    (runs_since_sync w) Ready.

Definition record_counterexample (cx : Bytes * Call) (w : WorkerState) : WorkerState :=
  mkWorker (id w) (first_case w) (gas_by_case w) (Some cx) (worker_traces w) (worker_logs w ++ logs cx.2)
    (worker_runs_done w) (Some (Fail (default "" (decode_reason cx.2)))) (last_run_timestamp w) (corpus w)
    (executor w) (persisted w) (runs_since_sync w) Claiming.

(** ** One part of a turn *)

(** What the flags and the clock tell, and the time in milliseconds. *)
Record Env := mkEnv { global_stop : bool; timed_out : bool; now : Z }.

Definition should_continue (e : Env) (s : Shared) : bool :=
  negb (global_stop e || local_early_exit s || timed_out e).

Inductive Input := Given (calldata : Bytes) | NotGenerated (e : E) | NotSynced (e : E).

(** An input from the corpus, which is synced first when it is time to. *)
Definition fresh_input (w : WorkerState) : option (Input * WorkerState) :=
  let since := runs_since_sync w + 1 in
  '(synced, g, since) ←
    (if sync_threshold w <=? since then '(res, g) ← sync_corpus (corpus w); Some (res, g, 0)
     else Some (Ok tt, corpus w, since));
  match synced with
  | Err e => Some (NotSynced e, set_source g (executor w) (persisted w) since w)
  | Ok _ =>
      let ex := match seed c with
                | Some seed => set_seed (wrap 256 (seed + worker_runs_done w)) (executor w)
                | None => executor w
                end in
      '(res, g) ← new_input g;
      let w := set_source g ex (persisted w) since w in
      Some (match res with Ok calldata => Given calldata | Err e => NotGenerated e end, w)
  end.

(** A recorded failure comes first; it is taken even if its selector is another
    one. *)
Definition next_input (w : WorkerState) : option (Input * WorkerState) :=
  let fresh := set_source (corpus w) (executor w) None (runs_since_sync w) w in
  match persisted w with
  | Some calldata =>
      if (4 <=? length calldata)%nat && bool_decide (take 4 calldata = selector)
      then Some (Given calldata, fresh) else fresh_input fresh
  | None => fresh_input w
  end.

(** The turn up to the result of the call. *)
Definition call_input (e : Env) (w : WorkerState) : option WorkerState :=
  '(input, w) ← next_input w;
  match input with
  | NotSynced err => Some (set_phase (Broken err) w)
  | NotGenerated err => Some (fail_with (FailedGeneration err) w)
  | Given calldata =>
      let w := set_timestamp (now e) w in
      '(single, g) ← single_fuzz (executor w) calldata (corpus w);
      Some (set_phase (Executed single) (set_source g (executor w) (persisted w) (runs_since_sync w) w))
  end.

Definition count_run (s : Shared) : Shared :=
  mkShared (total_runs s + 1) (failed_worker_id s) (total_rejects s) (local_early_exit s).
Definition count_reject (s : Shared) : Shared :=
  mkShared (total_runs s) (failed_worker_id s) (total_rejects s + 1) (local_early_exit s).

(** [try_claim_failure] *)
Definition try_claim_failure (worker_id : nat) (s : Shared) : Shared :=
  match failed_worker_id s with
  | Some _ => s
  | None => mkShared (total_runs s) (Some worker_id) (total_rejects s) true
  end.

Definition advance_worker (e : Env) (s : Shared) (w : WorkerState) : option (Shared * WorkerState) :=
  match phase w with
  | Ready =>
      if should_continue e s && (worker_runs_done w <? worker_runs w)
      then w ← call_input e w; Some (s, w)
      else Some (s, set_phase Stopped w)
  | Executed (Outcome o) =>
      let s := count_run s in Some (s, inc_runs (Counted o (total_runs s)) w)
  | Executed AssumeReject =>
      let s := count_reject s in
      if (0 <? max_test_rejects c) && (max_test_rejects c <? total_rejects s)
      then Some (s, fail_with (TooManyRejects (max_test_rejects c)) w)
      else Some (s, set_phase Ready w)
  | Executed (CallFails err) => Some (s, fail_with (FailedCall err) w)
  | Counted (Case case tr ls) total => Some (s, record_case total case tr ls w)
  | Counted (CounterExample cx) _ => Some (s, record_counterexample cx w)
  | Claiming => Some (try_claim_failure (id w) s, set_phase Stopped w)
  | Stopped | Broken _ => Some (s, w)
  end.

Record State := mkState { shared : Shared; workers : list WorkerState }.

(** One part of the turn of worker [i]. *)
Definition advance (e : Env) (i : nat) (s : State) : option State :=
  match workers s !! i with
  | None => Some s
  | Some w =>
      '(sh, w) ← advance_worker e (shared s) w;
      Some (mkState sh (<[i := w]> (workers s)))
  end.

Fixpoint run_schedule (l : list (Env * nat)) (s : State) : option State :=
  match l with
  | [] => Some s
  | (e, i) :: l => s ← advance e i s; run_schedule l s
  end.

Definition shared_start : Shared := mkShared 0 None 0 false.
Definition fuzz_start (sources : list G) : State :=
  mkState shared_start (imap worker_start sources).

(** ** The result *)

Record FuzzTestResult := mkResult {
  success : bool;
  result_first_case : option FuzzCase;             (* [None]: the default *)
  result_gas_by_case : list (Z * Z);
  reason : option (TestCaseError E);
  result_counterexample : option (Bytes * option Call);
  result_logs : list Log;
  result_trace : option Trace;
  gas_report_traces : list Trace;
}.

(** The case of the smallest number among the first ones, the last to run among
    the workers; the first of equals. *)
Fixpoint first_case_candidate (best : option (Z * FuzzCase)) (l : list WorkerState) : option (Z * FuzzCase) :=
  match l with
  | [] => best
  | w :: l =>
      first_case_candidate
        match first_case w, best with
        | Some (run, case), Some (r, _) => if run <? r then Some (run, case) else best
        | Some (run, case), None => Some (run, case)
        | None, _ => best
        end l
  end.
Fixpoint last_run_worker (best : option (Z * nat)) (i : nat) (l : list WorkerState) : option (Z * nat) :=
  match l with
  | [] => best
  | w :: l =>
      last_run_worker
        match best with
        | Some (t, _) => if t <? last_run_timestamp w then Some (last_run_timestamp w, i) else best
        | None => Some (last_run_timestamp w, i)
        end (S i) l
  end.
Fixpoint position (worker_id : nat) (l : list WorkerState) : option nat :=
  match l with
  | [] => None
  | w :: l => if (id w =? worker_id)%nat then Some O else S <$> position worker_id l
  end.

(** [aggregate_results]; the workers have stopped. *)
Definition aggregate_results (ws : list WorkerState) (s : Shared) : option FuzzTestResult :=
  match ws with
  | [] => Some (mkResult true None [] None None [] None [])
  | _ =>
      '(_, last_idx) ← last_run_worker None 0 ws;
      last_worker ← ws !! last_idx;
      let first := snd <$> first_case_candidate None ws in
      let ls := if show_logs c then ws ≫= worker_logs else worker_logs last_worker in
      let cases := ws ≫= gas_by_case in
      let all_traces := ws ≫= worker_traces in
      match failed_worker_id s with
      | Some failed =>
          idx ← position failed ws; w ← ws !! idx;
          let cx := match failure w with
                    | Some (Fail _) | Some (FailedCall _) | Some (FailedGeneration _) =>
                        Some (match counterexample w with
                              | Some (calldata, call) => (calldata, Some call)
                              | None => ([], None)
                              end)
                    | _ => None
                    end in
          Some (mkResult false first cases (failure w) cx ls
                  (counterexample w ≫= λ cx, traces cx.2) all_traces)
      | None => Some (mkResult true first cases None None ls (last (worker_traces last_worker)) all_traces)
      end
  end.

(** A worker that ended with an error makes the test one; of several the code
    keeps one, here the first in the list. *)
Definition broken (w : WorkerState) : option E := match phase w with Broken e => Some e | _ => None end.
Definition fuzz_result (s : State) : option (result E FuzzTestResult) :=
  match omap broken (workers s) with
  | e :: _ => Some (Err e)
  | [] => Ok <$> aggregate_results (workers s) (shared s)
  end.
End fuzz.
