(* ===== verification/FuzzRunSpec.v ===== *)
(** * What a fuzz test reports

    However the parts of the workers' turns are interleaved: a test that passes
    has made all of its runs, a counterexample fails, and the workers stop. *)
From S2P Require Import Prelude.
From S2P Require Import Shrink.
From S2P Require Import FuzzRun.
From stdpp Require Import strings.
Local Open Scope Z_scope.

(** ** Shares *)

Fixpoint sum {A} (f : A → Z) (l : list A) : Z := match l with [] => 0 | x :: l => f x + sum f l end.

Lemma sum_insert {A} (f : A → Z) (l : list A) i x y :
  l !! i = Some x → sum f (<[i := y]> l) = sum f l - f x + f y.
Proof.
  revert i. induction l as [|z l IH]; intros i; [done|]. destruct i as [|i]; simpl.
  - intros [= ->]. lia.
  - intros Hi. specialize (IH i Hi). lia.
Qed.

Lemma sum_ext {A} (f h : A → Z) (l : list A) : (∀ i x, l !! i = Some x → f x = h x) → sum f l = sum h l.
Proof.
  intros Hl. induction l as [|x l IH]; cbn; [done|]. rewrite (Hl O x) by done. rewrite IH; [done|].
  intros i y Hi. by apply (Hl (S i)).
Qed.

Lemma sum_zero {A} (f : A → Z) (l : list A) : (∀ i x, l !! i = Some x → f x = 0) → sum f l = 0.
Proof. intros Hl. rewrite (sum_ext _ (λ _, 0)) by done. clear. by induction l. Qed.

(** A sum that depends on the positions only. *)
Lemma sum_seq {A} (f : A → Z) (h : nat → Z) (l : list A) k :
  (∀ i x, l !! i = Some x → f x = h (k + i)%nat) → sum f l = sum h (seq k (length l)).
Proof.
  revert k. induction l as [|x l IH]; intros k Hl; cbn; [done|].
  rewrite (Hl O x), Nat.add_0_r by done. f_equal. apply IH. intros i y Hi.
  rewrite (Hl (S i) y) by done. f_equal. lia.
Qed.

Lemma sum_nonneg {A} (f : A → Z) (l : list A) : (∀ x, 0 <= f x) → 0 <= sum f l.
Proof. intros Hf. induction l as [|x l IH]; cbn; [done|]. specialize (Hf x). lia. Qed.

(** The shares of the workers from the [k]-th on. *)
Lemma shares_from c n k m :
  0 < n → 0 <= runs c → 0 <= k → k + Z.of_nat m = n →
  sum (λ i, runs_per_worker c n (Z.of_nat i)) (seq (Z.to_nat k) m) =
    Z.of_nat m * (runs c / n) + Z.max 0 (runs c mod n - k).
Proof.
  intros Hn Hr. revert k. induction m as [|m IH]; intros k Hk Hsum.
  - cbn. pose proof (Z.mod_pos_bound (runs c) n Hn). lia.
  - cbn [seq sum]. specialize (IH (k + 1) ltac:(lia) ltac:(lia)).
    rewrite <-(Z2Nat.inj_succ k) by lia. rewrite <-Z.add_1_r. rewrite IH.
    unfold runs_per_worker. rewrite Z2Nat.id by lia. destruct (k <? runs c mod n) eqn:Hlt; lia.
Qed.

Lemma shares_sum c n :
  0 <= runs c → (0 < n)%nat →
  sum (λ i, runs_per_worker c (Z.of_nat n) (Z.of_nat i)) (seq 0 n) = runs c.
Proof.
  intros Hr Hn. change 0%nat with (Z.to_nat 0). rewrite shares_from by lia.
  pose proof (Z.mod_pos_bound (runs c) (Z.of_nat n) ltac:(lia)).
  pose proof (Z.div_mod (runs c) (Z.of_nat n) ltac:(lia)). lia.
Qed.

Lemma sum_length {A B} (f : A → list B) (l : list A) :
  Z.of_nat (length (l ≫= f)) = sum (λ x, Z.of_nat (length (f x))) l.
Proof. induction l as [|x l IH]; cbn; [done|]. rewrite length_app, <-IH. lia. Qed.

(** What the inputs of a worker promise, with an invariant of their state and a
    property of the inputs: they are there, or an error is. *)
Class InputLaws {G Call E : Type} `{FuzzInputs G Call E} (I : G → Prop) (P : Bytes → Prop) := {
  new_input_laws g : I g → ∃ res g', new_input g = Some (res, g') ∧ I g' ∧ ∀ data, res = Ok data → P data;
  sync_laws g : I g → ∃ res g', sync_corpus g = Some (res, g') ∧ I g';
  merge_laws call g : I g → I (merge_edge_coverage call g).2;
  process_laws tx news g : I g → P (calldata (call_details tx)) →
    ∃ g', process_inputs [tx] news g = Some g' ∧ I g';
}.

Section fuzz.
Context {Executor Log Trace G E : Type} `{FuzzInputs G (Call Log Trace) E}.
Context (c : FuzzConfig) (address sender : Address) (selector : Bytes).
Context (call_raw : Executor → Bytes → result E (Call Log Trace))
        (is_raw_call_mut_success : Executor → Call Log Trace → bool)
        (set_seed : Z → Executor → Executor)
        (decode_reason : Call Log Trace → option string).
Context (executor_f : Executor) (persisted_failure : option Bytes) (sources : list G).
Local Abbreviation n := (length sources).
Local Abbreviation count := (Z.of_nat (length sources)).
Local Abbreviation WorkerState := (WorkerState (Executor := Executor) (Log := Log) (Trace := Trace) (G := G) (E := E)).
Local Abbreviation State := (State (Executor := Executor) (Log := Log) (Trace := Trace) (G := G) (E := E)).
Implicit Types (w : WorkerState) (s : State) (e : Env) (call : Call Log Trace).

Local Abbreviation advance := (advance c count address sender selector call_raw is_raw_call_mut_success
  set_seed decode_reason).
Local Abbreviation advance_worker := (advance_worker c count address sender selector call_raw
  is_raw_call_mut_success set_seed decode_reason).
Local Abbreviation call_input := (call_input c address sender selector call_raw is_raw_call_mut_success set_seed).
Local Abbreviation run_schedule := (run_schedule c count address sender selector call_raw
  is_raw_call_mut_success set_seed decode_reason).
Local Abbreviation start := (fuzz_start executor_f persisted_failure sources).
Local Abbreviation worker_runs := (worker_runs c count).

(** The executors of the workers: the given one, with other seeds. *)
Inductive seeded : Executor → Prop :=
| seeded_given : seeded executor_f
| seeded_set k ex : seeded ex → seeded (set_seed k ex).

(** An input that makes the test fail. *)
Definition fails (calldata : Bytes) call : Prop :=
  ∃ ex, seeded ex ∧ call_raw ex calldata = Ok call ∧ result_data call ≠ MAGIC_ASSUME ∧
    is_raw_call_mut_success ex call = false ∧
    (fail_on_revert c = true ∨ ∀ r, reverter call = Some r → r = address ∨ r = CHEATCODE_ADDRESS).

(** ** Workers *)

Definition failure_ok (err : TestCaseError E) (cx : option (Bytes * Call Log Trace)) : Prop :=
  match err with
  | Fail _ => ∃ calldata call, cx = Some (calldata, call) ∧ fails calldata call
  | TooManyRejects m => cx = None ∧ m = max_test_rejects c ∧ 0 < m
  | _ => cx = None
  end.
Definition failed w : Prop := ∃ err, failure w = Some err ∧ failure_ok err (counterexample w).
Definition clean w : Prop := failure w = None ∧ counterexample w = None.

Definition single_ok (x : Single (Log := Log) (Trace := Trace) (E := E)) : Prop :=
  match x with Outcome (CounterExample (calldata, call)) => fails calldata call | _ => True end.
Definition outcome_ok (o : FuzzOutcome) : Prop := single_ok (Outcome o).

Definition uncounted w : Z :=
  match phase w with Counted _ _ => 1 | _ => match counterexample w with Some _ => 1 | None => 0 end end.

(** [over]: the test was stopped, or a failure was claimed. *)
Record worker_ok (over : Prop) w : Prop := {
  ok_runs : 0 <= worker_runs_done w <= worker_runs w;
  ok_cases : Z.of_nat (length (gas_by_case w)) + uncounted w = worker_runs_done w;
  ok_executor : seeded (executor w);
  ok_phase : match phase w with
             | Ready => clean w
             | Executed x => clean w ∧ worker_runs_done w < worker_runs w ∧ single_ok x
             | Counted o _ => clean w ∧ outcome_ok o
             | Claiming => failed w
             | Stopped => failed w ∨ clean w ∧ (worker_runs_done w = worker_runs w ∨ over)
             | Broken _ => clean w
             end;
}.

Lemma worker_ok_mono (over over' : Prop) w : (over → over') → worker_ok over w → worker_ok over' w.
Proof. intros Himp [Hr Hc He Hp]. split; [done..|]. destruct (phase w); try done. naive_solver. Qed.

Lemma single_fuzz_ok ex calldata g x g' :
  seeded ex → single_fuzz c address sender call_raw is_raw_call_mut_success ex calldata g = Some (x, g') → single_ok x.
Proof.
  intros Hex. unfold single_fuzz. destruct (call_raw ex calldata) as [call|err] eqn:Hcall; [|by intros [= <- <-]].
  destruct (merge_edge_coverage call g) as [news g1]. destruct (process_inputs _ _ g1) as [g2|]; [|done]. cbn.
  case_bool_decide as Hassume; [by intros [= <- <-]|]. intros [= <- <-].
  destruct (fail_on_revert c) eqn:Hfor; cbn [negb andb].
  - destruct (is_raw_call_mut_success ex call) eqn:Hs; cbn; [done|]. exists ex. split_and!; try done. by left.
  - destruct (reverter call) as [r|] eqn:Hr.
    + destruct (negb (r =? address) && negb (r =? CHEATCODE_ADDRESS)) eqn:Helse; [done|].
      destruct (is_raw_call_mut_success ex call) eqn:Hs; cbn; [done|]. exists ex. split_and!; try done.
      right. intros r' Hr'. rewrite Hr in Hr'. injection Hr' as <-. lia.
    + destruct (is_raw_call_mut_success ex call) eqn:Hs; cbn; [done|]. exists ex. split_and!; try done.
      right. intros r' Hr'. congruence.
Qed.

(** What a worker has recorded, apart from where its inputs come from. *)
Definition alike w w' : Prop :=
  id w' = id w ∧ gas_by_case w' = gas_by_case w ∧ counterexample w' = counterexample w ∧
  worker_runs_done w' = worker_runs_done w ∧ failure w' = failure w ∧ (seeded (executor w) → seeded (executor w')).

Lemma fresh_alike w input w' :
  fresh_input c set_seed w = Some (input, w') → alike w w'.
Proof.
  unfold fresh_input. intros ([[synced g] since] & _ & Hw)%bind_Some.
  destruct synced as [[]|err]; [|by injection Hw as <- <-].
  apply bind_Some in Hw as ([res g'] & _ & [= _ <-]). unfold alike. cbn. split_and!; try done.
  intros Hs. destruct (seed c); [by constructor|done].
Qed.

Lemma next_alike w input w' :
  next_input c selector set_seed w = Some (input, w') → alike w w'.
Proof.
  unfold next_input. destruct (persisted w) as [calldata|]; [|apply fresh_alike].
  destruct (_ && _); [by intros [= <- <-]|]. intros Hw%fresh_alike. exact Hw.
Qed.

Lemma call_input_ok over e w w' :
  worker_ok over w → phase w = Ready → worker_runs_done w < worker_runs w →
  call_input e w = Some w' → worker_ok over w' ∧ worker_runs_done w' = worker_runs_done w ∧ id w' = id w ∧
    phase w' ≠ Stopped ∧ (phase w' = Ready → False).
Proof.
  intros [Hr Hc He Hp] Hready Hlt. rewrite Hready in Hp. destruct Hp as [Hfail Hcx].
  assert (uncounted w = 0) as Hun by (unfold uncounted; by rewrite Hready, Hcx). rewrite Hun in Hc.
  unfold FuzzRun.call_input. intros ([input w1] & (Hid & Hgas & Hcx1 & Hdone & Hfail1 & Hex)%next_alike & Hw)%bind_Some.
  rewrite Hcx in Hcx1. rewrite Hfail in Hfail1. unfold FuzzRun.worker_runs in *.
  destruct input as [calldata|err|err].
  - apply bind_Some in Hw as ([x g] & Hx & [= <-]). apply single_fuzz_ok in Hx; [|by apply Hex].
    cbn. split_and!; try done. split; cbn; unfold uncounted, clean, FuzzRun.worker_runs; cbn;
      rewrite ?Hcx1, ?Hgas, ?Hid, ?Hdone; auto with lia.
  - injection Hw as <-. cbn. split_and!; try done. split; cbn; unfold uncounted, failed, FuzzRun.worker_runs; cbn;
      rewrite ?Hcx1, ?Hgas, ?Hid, ?Hdone; auto with lia. eexists. split; done.
  - injection Hw as <-. cbn. split_and!; try done. split; cbn; unfold uncounted, clean, FuzzRun.worker_runs; cbn;
      rewrite ?Hcx1, ?Hgas, ?Hid, ?Hdone; auto with lia.
Qed.

(** ** The whole test *)

Definition claimed (sh : Shared) : Prop := is_Some (failed_worker_id sh).
Definition out w : Z := match phase w with Claiming | Stopped | Broken _ => 1 | _ => 0 end.

(** [stops]: some flag or clock may have stopped the test. *)
Record test_ok (stops : Prop) s : Prop := {
  ok_length : length (workers s) = n;
  ok_workers i w : workers s !! i = Some w → id w = i ∧ worker_ok (claimed (shared s) ∨ stops) w;
  ok_total : total_runs (shared s) = sum worker_runs_done (workers s);
  ok_exit : local_early_exit (shared s) = true → claimed (shared s);
  ok_claim j : failed_worker_id (shared s) = Some j →
    ∃ w, workers s !! j = Some w ∧ failed w ∧ phase w = Stopped;
  ok_unclaimed i w : failed_worker_id (shared s) = None →
    workers s !! i = Some w → phase w = Stopped → clean w;
  ok_rejects : 0 < max_test_rejects c →
    total_rejects (shared s) <= max_test_rejects c + sum out (workers s);
}.

(** The parts of a turn. *)
Inductive part e (sh : Shared) w : Shared → WorkerState → Prop :=
| part_stop : phase w = Ready → (worker_runs w <= worker_runs_done w ∨ should_continue e sh = false) →
    part e sh w sh (set_phase Stopped w)
| part_call w' : phase w = Ready → worker_runs_done w < worker_runs w → call_input e w = Some w' →
    part e sh w sh w'
| part_count o : phase w = Executed (Outcome o) →
    part e sh w (count_run sh) (inc_runs (Counted o (total_runs (count_run sh))) w)
| part_reject : phase w = Executed AssumeReject →
    (0 < max_test_rejects c → total_rejects sh + 1 <= max_test_rejects c) →
    part e sh w (count_reject sh) (set_phase Ready w)
| part_rejected : phase w = Executed AssumeReject → 0 < max_test_rejects c →
    part e sh w (count_reject sh) (fail_with (TooManyRejects (max_test_rejects c)) w)
| part_fails err : phase w = Executed (CallFails err) → part e sh w sh (fail_with (FailedCall err) w)
| part_case case tr ls total : phase w = Counted (Case case tr ls) total →
    part e sh w sh (record_case c count total case tr ls w)
| part_counterexample cx total : phase w = Counted (CounterExample cx) total →
    part e sh w sh (record_counterexample decode_reason cx w)
| part_claim : phase w = Claiming → part e sh w (try_claim_failure (id w) sh) (set_phase Stopped w)
| part_over : phase w = Stopped → part e sh w sh w
| part_broken err : phase w = Broken err → part e sh w sh w.

Lemma advance_part e sh w sh' w' : advance_worker e sh w = Some (sh', w') → part e sh w sh' w'.
Proof.
  unfold FuzzRun.advance_worker. destruct (phase w) as [|[o| |err]|o total| | |err] eqn:Hp.
  - destruct (should_continue e sh) eqn:Hs; cbn [andb].
    + destruct (worker_runs_done w <? worker_runs w) eqn:Hlt.
      * intros (w1 & Hw & [= <- <-])%bind_Some. constructor; [done|lia|done].
      * intros [= <- <-]. constructor; [done|]. left. lia.
    + intros [= <- <-]. constructor; [done|]. by right.
  - intros [= <- <-]. by constructor.
  - destruct ((0 <? max_test_rejects c) && _) eqn:Hmax; intros [= <- <-]; cbn in Hmax; constructor; done || lia.
  - intros [= <- <-]. by constructor.
  - destruct o as [case tr ls|cx]; intros [= <- <-]; by econstructor.
  - intros [= <- <-]. by constructor.
  - intros [= <- <-]. by constructor.
  - intros [= <- <-]. by econstructor.
Qed.

(** Replacing a worker and the shared state. *)
Lemma test_ok_update stops s i w (sh : Shared) w' :
  test_ok stops s → workers s !! i = Some w →
  id w' = i → worker_ok (claimed sh ∨ stops) w' →
  (∀ j, failed_worker_id (shared s) = Some j → failed_worker_id sh = Some j) →
  (local_early_exit sh = true → claimed sh) →
  total_runs sh - total_runs (shared s) = worker_runs_done w' - worker_runs_done w →
  (phase w = Stopped → w' = w) →
  (failed_worker_id sh = None → phase w' = Stopped → clean w') →
  (∀ j, failed_worker_id (shared s) = None → failed_worker_id sh = Some j → j = i ∧ failed w' ∧ phase w' = Stopped) →
  (0 < max_test_rejects c → total_rejects (shared s) <= max_test_rejects c + sum out (workers s) →
     total_rejects sh <= max_test_rejects c + sum out (workers s) + (out w' - out w)) →
  test_ok stops (mkState sh (<[i := w']> (workers s))).
Proof.
  intros [Hlen Hws Htot Hexit Hclaim Hun Hrej] Hw Hid Hok Hkeep Hexit' Hdiff Hsame Hclean Hnew Hr.
  assert (∀ j, failed_worker_id sh = None → failed_worker_id (shared s) = Some j → False) as Hcontra.
  { intros j Hnone Hj. apply Hkeep in Hj. congruence. }
  split; cbn.
  - by rewrite length_insert.
  - intros j v Hv. apply list_lookup_insert_Some in Hv as [(<- & <- & _)|(Hne & Hv)]; [done|].
    destruct (Hws j v Hv) as [? Hv']. split; [done|]. eapply worker_ok_mono; [|done].
    intros [[k Hk]|?]; [left; exists k; by apply Hkeep|by right].
  - rewrite (sum_insert _ _ _ _ _ Hw). lia.
  - done.
  - intros j Hj. destruct (failed_worker_id (shared s)) as [k|] eqn:Hk.
    + specialize (Hkeep k eq_refl). assert (j = k) as -> by congruence.
      destruct (Hclaim k eq_refl) as (v & Hv & Hf & Hp). destruct (decide (k = i)) as [->|Hne].
      * rewrite Hw in Hv. injection Hv as <-. rewrite (Hsame Hp). exists w. split; [|done].
        by apply list_lookup_insert_eq, lookup_lt_Some in Hw || (apply list_lookup_insert_eq; by eapply lookup_lt_Some).
      * exists v. split; [|done]. by rewrite list_lookup_insert_ne by done.
    + destruct (Hnew j eq_refl Hj) as (-> & Hf & Hp). exists w'. split; [|done].
      apply list_lookup_insert_eq. by eapply lookup_lt_Some.
  - intros j v Hnone Hv Hp. apply list_lookup_insert_Some in Hv as [(<- & <- & _)|(Hne & Hv)]; [by apply Hclean|].
    apply (Hun j v); [|done|done]. destruct (failed_worker_id (shared s)) as [k|] eqn:Hk; [|done].
    by destruct (Hcontra k Hnone eq_refl).
  - intros Hpos. rewrite (sum_insert _ _ _ _ _ Hw). specialize (Hr Hpos (Hrej Hpos)). lia.
Qed.

(** The same, when no failure is claimed. *)
Lemma test_ok_keep stops s i w (sh : Shared) w' :
  test_ok stops s → workers s !! i = Some w →
  failed_worker_id sh = failed_worker_id (shared s) → local_early_exit sh = local_early_exit (shared s) →
  id w' = i → worker_ok (claimed (shared s) ∨ stops) w' →
  total_runs sh - total_runs (shared s) = worker_runs_done w' - worker_runs_done w →
  phase w ≠ Stopped → (failed_worker_id (shared s) = None → phase w' = Stopped → clean w') →
  (0 < max_test_rejects c → total_rejects (shared s) <= max_test_rejects c + sum out (workers s) →
     total_rejects sh <= max_test_rejects c + sum out (workers s) + (out w' - out w)) →
  test_ok stops (mkState sh (<[i := w']> (workers s))).
Proof.
  intros Hs Hw Hfail Hloc Hid Hok Hdiff Hrun Hclean Hr.
  eapply test_ok_update; try done.
  - unfold claimed. by rewrite Hfail.
  - intros j. by rewrite Hfail.
  - unfold claimed. rewrite Hloc, Hfail. apply (ok_exit _ _ Hs).
  - rewrite Hfail. exact Hclean.
  - intros j Hj Hj'. congruence.
Qed.

Lemma sum_out_nonneg (l : list WorkerState) : 0 <= sum out l.
Proof. apply sum_nonneg. intros w. unfold out. destruct (phase w); lia. Qed.

Lemma part_ok (stops : Prop) s e i w sh w' :
  test_ok stops s → (global_stop e || timed_out e = true → stops) →
  workers s !! i = Some w → part e (shared s) w sh w' →
  test_ok stops (mkState sh (<[i := w']> (workers s))).
Proof.
  intros Hs He Hw Hpart. pose proof (ok_workers _ _ Hs i w Hw) as [Hid Hok].
  pose proof (ok_exit _ _ Hs) as Hexit. pose proof Hok as [Hruns Hcases Hex Hp]. unfold uncounted in Hcases.
  unfold FuzzRun.worker_runs in *. pose proof (sum_out_nonneg (workers s)) as Hnonneg.
  destruct Hpart as [Hph Hstop|w' Hph Hlt Hcall|o Hph|Hph Hmax|Hph Hmax|err Hph|case tr ls total Hph|cx total Hph|Hph|Hph|err Hph];
    rewrite Hph in Hp, Hcases.
  - destruct Hp as [Hf Hcx]. rewrite Hcx in Hcases.
    eapply test_ok_keep; [done..|exact Hid| |cbn; lia|congruence|done|intros _ Hle; unfold out in *; rewrite ?Hph; cbn in *; lia].
    split; cbn; [done|unfold uncounted; cbn; by rewrite Hcx|done|]. right. split; [done|].
    unfold FuzzRun.worker_runs in *. cbn. destruct Hstop as [Hle|Hno]; [left; lia|right].
    unfold should_continue in Hno. apply negb_false_iff in Hno.
    apply orb_prop in Hno as [Hno|Hno]; [apply orb_prop in Hno as [Hno|Hno]|]; [right|left; by apply Hexit|right];
      apply He; rewrite Hno; by rewrite ?orb_true_r.
  - destruct (call_input_ok _ e w w' Hok Hph Hlt Hcall) as (Hok' & Hdone & Hid' & Hns & Hnr).
    eapply test_ok_keep; [done..|congruence|exact Hok'|lia|congruence|done|].
    unfold out. rewrite Hph. destruct (phase w'); lia.
  - destruct Hp as ([Hf Hcx] & Hlt & Hsingle). rewrite Hcx in Hcases.
    eapply test_ok_keep; [done..|exact Hid| |cbn; lia|congruence|done|intros _ Hle; unfold out in *; rewrite ?Hph; cbn in *; lia].
    split; unfold uncounted, FuzzRun.worker_runs in *; cbn; [lia|lia|done|done].
  - destruct Hp as ([Hf Hcx] & Hlt & Hsingle). rewrite Hcx in Hcases.
    eapply test_ok_keep; [done..|exact Hid| |cbn; lia|congruence|done|intros Hpos Hle; specialize (Hmax Hpos); unfold out in *; rewrite ?Hph; cbn in *; lia].
    split; unfold uncounted, FuzzRun.worker_runs in *; cbn; [done|by rewrite Hcx|done|done].
  - destruct Hp as ([Hf Hcx] & Hlt & Hsingle). rewrite Hcx in Hcases.
    eapply test_ok_keep; [done..|exact Hid| |cbn; lia|congruence|done|intros _ Hle; unfold out in *; rewrite ?Hph; cbn in *; lia].
    split; unfold uncounted, FuzzRun.worker_runs in *; cbn; [done|by rewrite Hcx|done|]. by eexists.
  - destruct Hp as ([Hf Hcx] & Hlt & Hsingle). rewrite Hcx in Hcases.
    eapply test_ok_keep; [done..|exact Hid| |cbn; lia|congruence|done|intros _ Hle; unfold out in *; rewrite ?Hph; cbn in *; lia].
    split; unfold uncounted, FuzzRun.worker_runs in *; cbn; [done|by rewrite Hcx|done|]. by eexists.
  - destruct Hp as ([Hf Hcx] & Ho).
    eapply test_ok_keep; [done..|exact Hid| |cbn; lia|congruence|done|intros _ Hle; unfold out in *; rewrite ?Hph; cbn in *; lia].
    split; unfold uncounted, FuzzRun.worker_runs in *; cbn; [done|rewrite length_app, Hcx; cbn; lia|done|done].
  - destruct Hp as ([Hf Hcx] & Ho).
    eapply test_ok_keep; [done..|exact Hid| |cbn; lia|congruence|done|intros _ Hle; unfold out in *; rewrite ?Hph; cbn in *; lia].
    split; unfold uncounted, FuzzRun.worker_runs in *; cbn; [done|lia|done|].
    eexists. split; [done|]. destruct cx as [calldata call]. by exists calldata, call.
  - unfold try_claim_failure. destruct (failed_worker_id (shared s)) as [j|] eqn:Hj.
    + eapply test_ok_keep; [done..|exact Hid| |cbn; lia|congruence|congruence|intros _ Hle; unfold out in *; rewrite ?Hph; cbn in *; lia].
      split; unfold uncounted, FuzzRun.worker_runs in *; cbn; [done|done|done|]. by left.
    + eapply test_ok_update; [done..|exact Hid| | |by eexists|cbn; lia|congruence|done| |intros _ Hle; unfold out in *; rewrite ?Hph; cbn in *; lia].
      * split; unfold uncounted, FuzzRun.worker_runs in *; cbn; [done|done|done|]. by left.
      * intros j Hj'. congruence.
      * cbn. intros j _ [= <-]. split; [congruence|]. split; [done|done].
  - rewrite list_insert_id by done. by destruct s.
  - rewrite list_insert_id by done. by destruct s.
Qed.

Lemma run_schedule_ok (stops : Prop) l s s' :
  test_ok stops s → Forall (λ '(e, _), global_stop e || timed_out e = true → stops) l →
  run_schedule l s = Some s' → test_ok stops s'.
Proof.
  revert s. induction l as [|[e i] l IH]; intros s Hs Hl; cbn [FuzzRun.run_schedule]; [by intros [= <-]|].
  apply Forall_cons in Hl as [He Hl]. unfold FuzzRun.advance.
  destruct (workers s !! i) as [w|] eqn:Hw; cbn [mbind option_bind]; [|by apply IH].
  destruct (advance_worker e (shared s) w) as [[sh w']|] eqn:Hadv; cbn [mbind option_bind]; [|done].
  apply IH; [|done]. eapply part_ok; [done..|]. by apply advance_part.
Qed.

Lemma shares_nonneg w : 0 <= runs c → sources ≠ [] → 0 <= worker_runs w.
Proof.
  intros Hr Hne. unfold FuzzRun.worker_runs, runs_per_worker.
  assert (0 < count) by (destruct sources; cbn; [done|lia]).
  assert (0 <= runs c / count) by (apply Z.div_pos; lia). destruct (_ <? _); lia.
Qed.

Lemma start_ok stops : 0 <= runs c → sources ≠ [] → test_ok stops start.
Proof.
  intros Hr Hne.
  assert (∀ i w, workers start !! i = Some w → ∃ g, w = worker_start executor_f persisted_failure i g) as Hstart.
  { intros i w. cbn. rewrite list_lookup_imap. intros (g & _ & ->)%fmap_Some. by exists g. }
  split; cbn; [by rewrite length_imap| | |done|done| |].
  - intros i w Hw. destruct (Hstart i w Hw) as [g ->]. split; [done|].
    split; cbn; [split; [done|by apply shares_nonneg]|done|constructor|done].
  - symmetry. apply sum_zero. intros i w Hw. by destruct (Hstart i w Hw) as [g ->].
  - intros i w _ Hw. by destruct (Hstart i w Hw) as [g ->].
  - intros Hmax. pose proof (sum_out_nonneg (workers start)). cbn in *. lia.
Qed.

(** ** The result *)

Lemma position_id (ws : list WorkerState) k j :
  (∀ i w, ws !! i = Some w → id w = (k + i)%nat) → (j < length ws)%nat →
  position (k + j) ws = Some j.
Proof.
  revert k j. induction ws as [|w ws IH]; intros k j Hws Hj; cbn in *; [lia|].
  rewrite (Hws O w), Nat.add_0_r by done. destruct j as [|j].
  - by rewrite Nat.add_0_r, Nat.eqb_refl.
  - rewrite (proj2 (Nat.eqb_neq _ _)) by lia. replace (k + S j)%nat with (S k + j)%nat by lia.
    rewrite IH; [done| |lia]. intros i v Hi. rewrite (Hws (S i) v) by done. lia.
Qed.

Lemma last_run_bound (ws : list WorkerState) best k m :
  (k + length ws = m)%nat → (∀ t i, best = Some (t, i) → (i < m)%nat) → best ≠ None ∨ ws ≠ [] →
  ∃ t i, last_run_worker best k ws = Some (t, i) ∧ (i < m)%nat.
Proof.
  revert best k. induction ws as [|w ws IH]; intros best k Hm Hbest Hne; cbn in *.
  - destruct best as [[t i]|]; [|by destruct Hne]. eauto.
  - apply IH; [lia| |left].
    + destruct best as [[t i]|]; [destruct (_ <? _)|]; intros ? ? [= <- <-]; [lia|by eapply Hbest|lia].
    + destruct best as [[t i]|]; [by destruct (_ <? _)|done].
Qed.

Lemma all_stopped s : Forall (λ w, phase w = Stopped) (workers s) → omap broken (workers s) = [].
Proof.
  induction 1 as [|w l Hw _ IH]; cbn; [done|]. unfold broken at 1. by rewrite Hw.
Qed.

Definition calm (l : list (Env * nat)) : Prop := Forall (λ '(e, _), global_stop e = false ∧ timed_out e = false) l.

(** C15: Whatever the interleaving of the workers, when they have all stopped there
    is a result.  If it is a success, and neither the clock nor the suite stopped
    the test, then each of the configured runs was made and the test did not
    fail on any of them.  If it is a failure with a reason that is not about
    the inputs, then the counterexample is an input on which the test does fail. *)
Theorem fuzz_outcome l s :
  0 <= runs c → sources ≠ [] → run_schedule l start = Some s →
  Forall (λ w, phase w = Stopped) (workers s) →
  ∃ res, fuzz_result c s = Some (Ok res) ∧
    if success res then
      (calm l → Z.of_nat (length (result_gas_by_case res)) = runs c) ∧ result_counterexample res = None
    else match reason res with
         | Some (Fail _) => ∃ calldata call,
             result_counterexample res = Some (calldata, Some call) ∧ fails calldata call
         | Some (TooManyRejects m) => result_counterexample res = None ∧ m = max_test_rejects c
         | Some (FailedCall _) | Some (FailedGeneration _) => result_counterexample res = Some ([], None)
         | None => False
         end.
Proof.
  intros Hr Hne Hrun Hstopped.
  assert (test_ok (¬ calm l) s) as Hs.
  { eapply run_schedule_ok; [by apply start_ok| |done]. apply Forall_forall. intros [e i] Hin Hflag Hcalm.
    unfold calm in Hcalm. rewrite Forall_forall in Hcalm. destruct (Hcalm _ Hin) as [H1 H2]. by rewrite H1, H2 in Hflag. }
  unfold fuzz_result. rewrite (all_stopped s Hstopped). unfold aggregate_results.
  destruct (workers s) as [|w0 ws'] eqn:Hws.
  { exfalso. pose proof (ok_length _ _ Hs) as Hl. rewrite Hws in Hl. by destruct sources. }
  rewrite <-Hws in *. clear ws' w0 Hws.
  assert (workers s ≠ []) as Hwne.
  { intros Hnil. pose proof (ok_length _ _ Hs) as Hl. rewrite Hnil in Hl. by destruct sources. }
  destruct (last_run_bound (workers s) None 0 (length (workers s))) as (t & idx & -> & Hidx); [done|done|by right|].
  cbn [mbind option_bind]. destruct (lookup_lt_is_Some_2 _ _ Hidx) as [lw ->]. cbn [mbind option_bind].
  destruct (failed_worker_id (shared s)) as [j|] eqn:Hj.
  - destruct (ok_claim _ _ Hs j Hj) as (w & Hw & (err & Herr & Hok) & _).
    rewrite (position_id _ 0 j); [|intros i v Hv; by apply (ok_workers _ _ Hs)|by eapply lookup_lt_Some].
    cbn [mbind option_bind]. rewrite Hw. cbn [mbind option_bind]. eexists. split; [done|]. cbn. rewrite Herr.
    destruct err as [r|e|e|m]; cbn in Hok.
    + destruct Hok as (calldata & call & Hcx & Hfails). rewrite Hcx. eauto.
    + by rewrite Hok.
    + by rewrite Hok.
    + destruct Hok as (Hcx & -> & _). done.
  - eexists. split; [done|]. cbn. split; [|done]. intros Hcalm.
    rewrite sum_length. rewrite <-(shares_sum c (length sources)); [|done|destruct sources; [done|cbn; lia]].
    rewrite <-(ok_length _ _ Hs). apply (sum_seq _ _ _ 0). intros i w Hw.
    destruct (ok_workers _ _ Hs i w Hw) as [Hid [_ Hcases _ Hp]].
    pose proof (proj1 (Forall_lookup _ _) Hstopped i w Hw) as Hst. cbn in Hst. rewrite Hst in Hp.
    destruct (ok_unclaimed _ _ Hs i w Hj Hw Hst) as [Hf Hcx].
    destruct Hp as [(err & He & _)|[_ [Hdone|[[k Hk]|Hno]]]]; [congruence| |congruence|done].
    unfold uncounted in Hcases. rewrite Hst, Hcx in Hcases. unfold FuzzRun.worker_runs in Hdone.
    rewrite Hid in Hdone. cbn [Nat.add]. rewrite ?(ok_length _ _ Hs). rewrite <-Hdone. lia.
Qed.

(** ** The end of a test *)

Definition weight w : Z :=
  match phase w with Counted _ _ => 4 | Ready => 3 | Executed _ => 2 | Claiming => 1 | _ => 0 end.
Definition left_of w : Z := weight w + 4 * (worker_runs w - worker_runs_done w).
Definition measure s : Z :=
  sum left_of (workers s) + 3 * (max_test_rejects c + count - total_rejects (shared s)).

Definition busy s i : Prop := ∃ w, workers s !! i = Some w ∧ phase w ≠ Stopped ∧ ∀ err, phase w ≠ Broken err.

Lemma call_input_weight over e w w' :
  worker_ok over w → phase w = Ready → worker_runs_done w < worker_runs w → call_input e w = Some w' →
  left_of w' <= left_of w - 1.
Proof.
  intros Hok Hready Hlt Hcall. unfold left_of, weight.
  destruct (call_input_ok over e w w' Hok Hready Hlt Hcall) as (_ & Hdone & Hid & Hns & _).
  rewrite Hdone, Hready. unfold FuzzRun.worker_runs. rewrite Hid.
  revert Hcall. unfold FuzzRun.call_input. intros ([input w1] & _ & Hw)%bind_Some. destruct input.
  - apply bind_Some in Hw as ([x g] & _ & [= <-]). cbn. lia.
  - injection Hw as <-. cbn. lia.
  - injection Hw as <-. cbn. lia.
Qed.

Lemma part_measure stops s e i w sh w' :
  test_ok stops s → workers s !! i = Some w → part e (shared s) w sh w' →
  phase w ≠ Stopped → (∀ err, phase w ≠ Broken err) →
  measure (mkState sh (<[i := w']> (workers s))) <= measure s - 1.
Proof.
  intros Hs Hw Hpart Hns Hnb. unfold measure. cbn. rewrite (sum_insert _ _ _ _ _ Hw).
  pose proof (ok_workers _ _ Hs i w Hw) as [Hid Hok].
  enough (left_of w' - 3 * total_rejects sh <= left_of w - 3 * total_rejects (shared s) - 1) by lia.
  destruct Hpart as [Hph Hstop|w' Hph Hlt Hcall|o Hph|Hph Hmax|Hph Hmax|err Hph|case tr ls total Hph|cx total Hph|Hph|Hph|err Hph].
  - unfold left_of, weight, FuzzRun.worker_runs. rewrite Hph. cbn. lia.
  - pose proof (call_input_weight _ _ _ _ Hok Hph Hlt Hcall). lia.
  - unfold left_of, weight, FuzzRun.worker_runs. rewrite Hph. cbn. lia.
  - unfold left_of, weight, FuzzRun.worker_runs. rewrite Hph. cbn. lia.
  - unfold left_of, weight, FuzzRun.worker_runs. rewrite Hph. cbn. lia.
  - unfold left_of, weight, FuzzRun.worker_runs. rewrite Hph. cbn. lia.
  - unfold left_of, weight, FuzzRun.worker_runs. rewrite Hph. cbn. lia.
  - unfold left_of, weight, FuzzRun.worker_runs. rewrite Hph. cbn. lia.
  - unfold left_of, weight, FuzzRun.worker_runs, try_claim_failure. rewrite Hph. cbn.
    destruct (failed_worker_id (shared s)); cbn; lia.
  - done.
  - by destruct (Hnb err).
Qed.

Lemma measure_nonneg stops s : test_ok stops s → 0 < max_test_rejects c → 0 <= measure s.
Proof.
  intros Hs Hmax. unfold measure. pose proof (ok_rejects _ _ Hs Hmax) as Hrej.
  assert (sum out (workers s) <= count) as Hout.
  { rewrite <-(ok_length _ _ Hs). generalize (workers s). intros l. induction l as [|w l IH]; cbn; [done|].
    unfold out at 1. destruct (phase w); lia. }
  assert (0 <= sum left_of (workers s)); [|lia].
  pose proof (ok_workers _ _ Hs) as Hws. revert Hws. generalize (workers s) (claimed (shared s) ∨ stops). clear.
  intros l over Hl. assert (∀ i w, l !! i = Some w → 0 <= left_of w) as Hleft.
  { intros i w Hi. destruct (Hl i w Hi) as [_ [Hr _ _ _]]. unfold left_of, weight. destruct (phase w); lia. }
  clear Hl. induction l as [|w l IH]; cbn; [done|]. pose proof (Hleft O w eq_refl).
  assert (0 <= sum left_of l); [|lia]. apply IH. intros i v Hi. by apply (Hleft (S i)).
Qed.

(** Every part of the schedule is one of a worker that has not stopped. *)
Fixpoint all_busy (l : list (Env * nat)) s : Prop :=
  match l with
  | [] => True
  | (e, i) :: l => busy s i ∧ ∀ s', advance e i s = Some s' → all_busy l s'
  end.

Context (I : G → Prop) (P : Bytes → Prop) `{!InputLaws (G := G) (Call := Call Log Trace) (E := E) I P}.
Hypothesis selected_inputs : ∀ data, (4 <= length data)%nat → take 4 data = selector → P data.

Lemma fresh_some w : I (corpus w) →
  ∃ input w', fresh_input c set_seed w = Some (input, w') ∧ I (corpus w') ∧ ∀ data, input = Given data → P data.
Proof.
  intros Hw. unfold fresh_input.
  assert (∃ synced g since, (if sync_threshold w <=? runs_since_sync w + 1
    then '(res, g) ← sync_corpus (corpus w); Some (res, g, 0)
    else Some (Ok tt, corpus w, runs_since_sync w + 1)) = Some (synced, g, since) ∧ I g) as (synced & g & since & -> & Hg).
  { destruct (sync_threshold w <=? _); [|by do 3 eexists].
    destruct (sync_laws (corpus w) Hw) as (res & g & -> & Hg). by do 3 eexists. }
  cbn [mbind option_bind]. destruct synced as [[]|err]; [|by do 2 eexists; split].
  destruct (new_input_laws g Hg) as (res & g' & -> & Hg' & Hdata). cbn [mbind option_bind].
  do 2 eexists. split; [done|]. split; [done|]. intros data. destruct res as [d|]; [|done]. intros [= <-]. by apply Hdata.
Qed.

Lemma next_some w : I (corpus w) →
  ∃ input w', next_input c selector set_seed w = Some (input, w') ∧ I (corpus w') ∧ ∀ data, input = Given data → P data.
Proof.
  intros Hw. unfold next_input. destruct (persisted w) as [data|]; [|by apply fresh_some].
  destruct ((4 <=? length data)%nat && _) eqn:Hsel; [|by apply fresh_some].
  apply andb_prop in Hsel as [Hlen Hsel%bool_decide_eq_true]. apply Nat.leb_le in Hlen.
  do 2 eexists. split; [done|]. split; [done|]. intros d [= <-]. by apply selected_inputs.
Qed.

Lemma advance_worker_some e sh w : I (corpus w) →
  ∃ sh' w', advance_worker e sh w = Some (sh', w') ∧ I (corpus w').
Proof.
  intros Hw. unfold FuzzRun.advance_worker.
  destruct (phase w) as [|[o| |err]|[case tr ls|cx] total| | |err]; try by do 2 eexists.
  - destruct (_ && _); [|by do 2 eexists]. unfold FuzzRun.call_input.
    destruct (next_some w Hw) as (input & w1 & -> & Hw1 & Hdata). cbn [mbind option_bind].
    destruct input as [calldata|err|err]; try by do 2 eexists.
    unfold single_fuzz. destruct (call_raw _ _) as [call|err]; [|by do 2 eexists].
    pose proof (merge_laws call (corpus w1) Hw1) as Hg. cbn [corpus set_timestamp].
    destruct (merge_edge_coverage call (corpus w1)) as [news g].
    destruct (process_laws (mkBasicTxDetails None None sender (mkCallDetails address calldata)) news g) as (g' & -> & Hg');
      [done|by apply Hdata|]. cbn. case_bool_decide; by do 2 eexists.
  - case_match; by do 2 eexists.
Qed.

(** C19: A fuzz test ends: no schedule of its workers has more than a bounded
    number of parts in which a worker that has not stopped takes part, provided
    the rejected inputs are limited.  No part panics. *)
Theorem fuzz_ends l :
  0 <= runs c → sources ≠ [] → Forall I sources → 0 < max_test_rejects c → all_busy l start →
  Z.of_nat (length l) <= 4 * runs c + 3 * max_test_rejects c + 6 * count ∧ is_Some (run_schedule l start).
Proof.
  intros Hr Hne HI Hmax.
  assert (∀ l s, test_ok True s → (∀ i w, workers s !! i = Some w → I (corpus w)) → all_busy l s →
    Z.of_nat (length l) <= measure s ∧ is_Some (run_schedule l s)) as Hgen.
  { clear l. induction l as [|[e i] l IH]; intros s Hs HIs; cbn [all_busy FuzzRun.run_schedule length].
    - intros _. pose proof (measure_nonneg _ _ Hs Hmax). split; [lia|by eexists].
    - intros [(w & Hw & Hns & Hnb) Hl]. unfold FuzzRun.advance in *. rewrite Hw in *. cbn in *.
      destruct (advance_worker_some e (shared s) w (HIs i w Hw)) as (sh & w' & Hadv & Hw'). rewrite Hadv in *. cbn in *.
      specialize (Hl _ eq_refl). apply advance_part in Hadv.
      pose proof (part_measure _ _ _ _ _ _ _ Hs Hw Hadv Hns Hnb).
      destruct (IH _ (part_ok _ _ _ _ _ _ _ Hs ltac:(done) Hw Hadv)) as [Hlen Hrun]; [|done|split; [lia|done]].
      intros j v Hv. cbn in Hv. apply list_lookup_insert_Some in Hv as [(<- & <- & _)|(Hj & Hv)]; [done|by eapply HIs]. }
  intros Hl. destruct (Hgen l start (start_ok True Hr Hne)) as [Hlen Hrun]; [|done|split; [|done]].
  { intros i w. cbn. rewrite list_lookup_imap. intros (g & Hg & ->)%fmap_Some. cbn. by eapply Forall_lookup_1. }
  enough (measure start = 4 * runs c + 3 * max_test_rejects c + 6 * count) by lia.
  unfold measure. cbn [shared workers fuzz_start shared_start total_rejects].
  rewrite (sum_seq left_of (λ i, 3 + 4 * runs_per_worker c count (Z.of_nat i)) _ 0).
  - rewrite length_imap. enough (∀ l, sum (λ i, 3 + 4 * runs_per_worker c count (Z.of_nat i)) l =
      3 * Z.of_nat (length l) + 4 * sum (λ i, runs_per_worker c count (Z.of_nat i)) l) as Hsum.
    { rewrite Hsum, length_seq, shares_sum; [lia|done|destruct sources; [done|cbn; lia]]. }
    clear. induction l as [|x l IH]; cbn; [done|lia].
  - intros i w. rewrite list_lookup_imap. intros (g & _ & ->)%fmap_Some. unfold left_of, weight, FuzzRun.worker_runs. cbn. lia.
Qed.
End fuzz.

(** ** Example

    A test that fails for inputs of the last byte 9, rejects those of the last
    byte 7 and whose call fails for those of the last byte 8; two workers. *)
Module FuzzExample.

#[local] Instance script_inputs : FuzzInputs (list Bytes) (Call unit unit) unit := {
  new_input g := match g with [] => Some (Err tt, []) | x :: g => Some (Ok x, g) end;
  sync_corpus g := Some (Ok tt, g);
  merge_edge_coverage _ g := (false, g);
  process_inputs _ _ g := Some g;
}.
#[local] Instance script_laws : InputLaws (Call := Call unit unit) (E := unit) (λ _ : list Bytes, True) (λ _, True).
Proof. split; cbn; [by intros [|x g]; do 2 eexists|by do 2 eexists|done|by eexists]. Qed.

Definition config : FuzzConfig := mkFuzzConfig 4 true 1 None 256 false.
Definition call_raw (_ : unit) (data : Bytes) : result unit (Call unit unit) :=
  if bool_decide (last data = Some 8) then Err tt
  else Ok (mkCall (if bool_decide (last data = Some 7) then MAGIC_ASSUME else data)
             (if bool_decide (last data = Some 9) then Some 2 else None) (Z.of_nat (length data)) 0 [] None).
Definition succeeds (_ : unit) (call : Call unit unit) : bool := bool_decide (reverter call = None).
Definition input (x : Z) : Bytes := [1; 2; 3; 4; x].
Definition env (t : Z) : Env := mkEnv false false t.

Local Abbreviation run schedule sources := (run_schedule config (Z.of_nat (length sources)) 2 3 [1; 2; 3; 4]
  call_raw succeeds (λ _ e, e) (λ _, None) schedule (fuzz_start tt None sources)).
Definition quiet : list (list Bytes) := [[input 1; input 7; input 2]; [input 3; input 4]].
Definition loud : list (list Bytes) := [[input 1; input 9]; [input 9; input 4]].

(** The workers in turn. *)
Fixpoint turns (k : nat) (n : nat) : list (Env * nat) :=
  match n with O => [] | S n => (env (Z.of_nat n), (n mod k)%nat) :: turns k n end.

Definition stopped (s : State (Executor := unit) (Log := unit) (Trace := unit) (G := list Bytes) (E := unit)) : bool :=
  forallb (λ w, match phase w with Stopped => true | _ => false end) (workers s).
Definition finished (sources : list (list Bytes)) : bool :=
  match run (turns 2 24) sources with Some s => stopped s | None => false end.

Lemma finishes sources : finished sources = true →
  ∃ s, run (turns 2 24) sources = Some s ∧ Forall (λ w, phase w = Stopped) (workers s).
Proof.
  unfold finished. destruct (run (turns 2 24) sources) as [s|]; [|done]. intros Hs. exists s. split; [done|].
  apply Forall_forall. intros w Hw. unfold stopped in Hs. rewrite forallb_forall in Hs.
  specialize (Hs w). rewrite <-list_elem_of_In in Hs. specialize (Hs Hw). by destruct (phase w).
Qed.

Definition outcome_of (sources : list (list Bytes)) :=
  s ← run (turns 2 24) sources;
  match fuzz_result config s with
  | Some (Ok r) => Some (success r, result_gas_by_case r, fst <$> result_counterexample r)
  | _ => None
  end.

Example all_runs_made : outcome_of quiet = Some (true, [(5, 0); (5, 0); (5, 0); (5, 0)], None).
Proof. vm_compute. reflexivity. Qed.
Example one_failure_is_claimed : outcome_of loud = Some (false, [(5, 0)], Some (input 9)).
Proof. vm_compute. reflexivity. Qed.
(** A failure of the call itself is reported with an input that was not used. *)
Example no_input_in_report : outcome_of [[input 8; input 8]; [input 1; input 1]] = Some (false, [(5, 0)], Some []).
Proof. vm_compute. reflexivity. Qed.

(** The replay of a recorded failure is one of the runs: the corpus is asked for
    three inputs where four runs are configured. *)
Example replay_takes_a_run :
  (s ← run_schedule config 1 2 3 [1; 2; 3; 4] call_raw succeeds (λ _ e, e) (λ _, None) (turns 1 20)
         (fuzz_start tt (Some (input 5)) [[input 1; input 2; input 3]]);
   Some (map worker_runs_done (workers s), map corpus (workers s))) = Some ([4], [[]]).
Proof. vm_compute. reflexivity. Qed.

Lemma calm_turns k n : calm (turns k n).
Proof. induction n as [|n IH]; constructor; [done|exact IH]. Qed.

Lemma fuzz_outcome_witness :
  ∃ s res, run (turns 2 24) quiet = Some s ∧ fuzz_result config s = Some (Ok res) ∧
    if success res then Z.of_nat (length (result_gas_by_case res)) = 4 else True.
Proof.
  destruct (finishes quiet) as (s & Hrun & Hstop); [vm_compute; reflexivity|].
  assert (quiet ≠ []) as Hne by discriminate.
  destruct (fuzz_outcome config 2 3 [1; 2; 3; 4] call_raw succeeds (λ _ e, e) (λ _, None) tt None quiet
    (turns 2 24) s ltac:(cbn; lia) Hne Hrun Hstop) as (res & Hres & Hout).
  exists s, res. split; [exact Hrun|]. split; [exact Hres|]. clear Hrun Hres Hstop.
  destruct (success res); [|exact Logic.I]. exact (proj1 Hout (calm_turns 2 24)).
Defined.

(** The first worker alone, up to its second run. *)
Definition alone : list (Env * nat) := replicate 7 (env 0, O).
Lemma alone_busy :
  all_busy config 2 3 [1; 2; 3; 4] call_raw succeeds (λ _ e, e) (λ _, None) quiet alone (fuzz_start tt None quiet).
Proof.
  repeat (split; [eexists; split; [reflexivity|split; [discriminate|intros ?; discriminate]]|];
    intros ? Hs; vm_compute in Hs; injection Hs as <-).
  exact Logic.I.
Qed.

Lemma fuzz_ends_witness :
  Z.of_nat (length alone) <= 4 * 4 + 3 * 1 + 6 * 2 ∧ is_Some (run alone quiet).
Proof.
  apply (fuzz_ends config 2 3 [1; 2; 3; 4] call_raw succeeds (λ _ e, e) (λ _, None) tt None quiet
    (λ _, True) (λ _, True)); [done|cbn; lia|discriminate|by repeat constructor|cbn; lia|exact alone_busy].
Defined.
End FuzzExample.
