(* ===== verification/CorpusSpec.v ===== *)
(** * What the corpus keeps

    The names of files are read back as they were written; no sequence of
    requests of a stateless test makes a worker's corpus panic, with which it is
    an implementation of the inputs of [FuzzRun]; and examples of what the
    workers do not share. *)
From S2P Require Import Prelude.
From S2P Require Import Text.
From S2P Require Import CastBase.
From S2P Require Import DynSol.
From S2P Require Import FuzzDict.
From S2P Require Import FuzzParam.
From S2P Require Import FuzzParamSpec.
From S2P Require Import Targets.
From S2P Require Import Shrink.
From S2P Require Import FuzzRun.
From S2P Require Import FuzzRunSpec.
From S2P Require Import Corpus.
Local Open Scope Z_scope.

(** ** Names of files *)

Lemma trim_suffix_app suffix s : suffix ≠ [] → trim_suffix_once suffix (s ++ suffix) = Some s.
Proof.
  intros Hne. unfold trim_suffix_once. rewrite length_app.
  replace (length s + length suffix - length suffix)%nat with (length s) by lia.
  rewrite drop_app_length, take_app_length, !bool_decide_eq_true_2 by done.
  by rewrite (proj2 (Nat.leb_le _ _)) by lia.
Qed.

Lemma trim_suffix_other suffix s : last s ≠ last suffix → trim_suffix_once suffix s = None.
Proof.
  intros Hl. unfold trim_suffix_once. case_bool_decide as Hne; [|done]. cbn. case_bool_decide as Hd; [|done].
  exfalso. apply Hl. rewrite <-(take_drop (length s - length suffix) s), Hd.
  rewrite last_app. destruct (last suffix) eqn:Hs; [done|]. by apply last_None in Hs.
Qed.

Lemma trim_end_other suffix s : last s ≠ last suffix → trim_end suffix s = s.
Proof.
  intros Hl. unfold trim_end. destruct (length s); cbn; [done|]. by rewrite trim_suffix_other.
Qed.

Lemma trim_end_app suffix s : suffix ≠ [] → last s ≠ last suffix → trim_end suffix (s ++ suffix) = s.
Proof.
  intros Hne Hl. unfold trim_end. rewrite length_app. destruct suffix as [|x suffix]; [done|].
  rewrite Nat.add_comm. cbn [length Nat.add trim_end_matches]. rewrite trim_suffix_app by done.
  destruct (length suffix + length s)%nat; cbn; [done|]. by rewrite trim_suffix_other.
Qed.

Lemma rsplit_once_app c a b : c ∉ b → rsplit_once c (a ++ c :: b) = Some (a, b).
Proof.
  intros Hb. assert (rsplit_once c b = None) as Hnone.
  { induction b as [|x b IH]; cbn; [done|]. rewrite not_elem_of_cons in Hb. destruct Hb as [Hx Hb].
    rewrite IH by done. by rewrite (proj2 (Z.eqb_neq _ _)) by done. }
  induction a as [|x a IH]; cbn.
  - by rewrite Hnone, Z.eqb_refl.
  - by rewrite IH.
Qed.

Lemma to_digit_nonneg r x d : to_digit r x = Some d → 0 <= d.
Proof.
  unfold to_digit. intros (e & He & Hd)%bind_Some. repeat case_match; simplify_eq; lia.
Qed.

Lemma digits_value_ge r n s m : 1 <= r → 0 <= n → digits_value r n s = Some m → n <= m.
Proof.
  intros Hr. revert n. induction s as [|x s IH]; intros n Hn; cbn; [by intros [= ->]|].
  intros (d & Hd%to_digit_nonneg & Hv)%bind_Some. specialize (IH (n * r + d) ltac:(nia) Hv). nia.
Qed.

Lemma checked_loop_value r n s m :
  1 <= r → 0 <= n → m <= umax 64 → digits_value r n s = Some m → checked_loop r n s = Ok m.
Proof.
  intros Hr. revert n. induction s as [|x s IH]; intros n Hn Hm; cbn; [by intros [= ->]|].
  intros (d & Hd & Hv)%bind_Some. rewrite Hd. pose proof (to_digit_nonneg _ _ _ Hd).
  pose proof (digits_value_ge r (n * r + d) s m Hr ltac:(nia) Hv).
  rewrite !(proj2 (Z.ltb_ge _ _)) by nia. apply IH; [nia|done|done].
Qed.

Lemma u64_digits n : in_u 64 n → u64_from_str_radix (digits 10 n) 10 = Ok n.
Proof.
  intros Hn. assert (0 <= n) as Hpos by (unfold in_u in Hn; lia).
  pose proof (digits_numeral 10 n ltac:(lia) Hpos) as [Hne Hall].
  pose proof (digits_value_digits 10 n ltac:(lia) Hpos) as Hval.
  assert (checked_loop 10 0 (digits 10 n) = Ok n) as Hloop.
  { apply checked_loop_value; [lia|lia|unfold in_u, umax in *; lia|done]. }
  destruct (digits 10 n) as [|x s]; [done|]. unfold u64_from_str_radix.
  apply Forall_cons in Hall as [[d Hd] _]. unfold to_digit in Hd. apply bind_Some in Hd as (d' & Hd & _).
  assert (x <> 43 /\ x <> 45) as [H43 H45] by (repeat case_match; simplify_eq; lia).
  rewrite (proj2 (Z.eqb_neq x 43)), (proj2 (Z.eqb_neq x 45)) by done. by destruct s.
Qed.

Section names.
Context `{UuidLaws}.

Lemma digits_last r n : 2 <= r <= 16 → 0 <= n → ∃ x, last (digits r n) = Some x ∧ is_Some (to_digit r x).
Proof.
  intros Hr Hn. destruct (digits_numeral r n Hr Hn) as [Hne Hall].
  destruct (last (digits r n)) as [x|] eqn:Hl; [|by apply last_None in Hl].
  exists x. split; [done|]. apply last_Some_elem_of in Hl. by rewrite Forall_forall in Hall; apply Hall.
Qed.

(** The name that is given to the file of an entry is read back as its uuid
    and its time, compressed or not. *)
Theorem file_name_parses size_of_tx can_gzip e :
  in_u 64 (entry_timestamp e) →
  parse_corpus_filename (file_name size_of_tx can_gzip e) = Some (uuid e, entry_timestamp e).
Proof.
  intros Ht. assert (0 <= entry_timestamp e) as Hpos by (unfold in_u in Ht; lia).
  destruct (digits_last 10 (entry_timestamp e) ltac:(lia) Hpos) as (x & Hx & [d Hd]).
  assert (last (uuid_to_string (uuid e) ++ lit "-" ++ digits 10 (entry_timestamp e)) = Some x) as Hl.
  { by rewrite app_assoc, last_app, Hx. }
  assert (x ≠ 110) as Hn.
  { unfold to_digit in Hd. apply bind_Some in Hd as (d' & Hd & Hlt). repeat case_match; simplify_eq; lia. }
  unfold parse_corpus_filename.
  assert (trim_end (lit ".json") (trim_end (lit ".gz") (file_name size_of_tx can_gzip e)) =
    uuid_to_string (uuid e) ++ lit "-" ++ digits 10 (entry_timestamp e)) as ->.
  { unfold file_name. rewrite !app_assoc. rewrite app_assoc in Hl.
    destruct (should_gzip size_of_tx can_gzip e).
    - change (lit ".json.gz") with (lit ".json" ++ lit ".gz"). rewrite app_assoc.
      rewrite trim_end_app; [|done|by rewrite last_app]. apply trim_end_app; [done|].
      rewrite Hl. change (last (lit ".json")) with (Some 110). congruence.
    - rewrite (trim_end_other (lit ".gz")) by by rewrite last_app. apply trim_end_app; [done|].
      rewrite Hl. change (last (lit ".json")) with (Some 110). congruence. }
  cbn [lit app]. change (Z.of_N (N_of_ascii "-")) with 45. rewrite rsplit_once_app.
  - cbn. rewrite parse_to_string. cbn. by rewrite u64_digits.
  - intros Hin. destruct (digits_numeral 10 (entry_timestamp e) ltac:(lia) Hpos) as [_ Hall].
    rewrite Forall_forall in Hall. destruct (Hall _ Hin) as [d' Hd']. by vm_compute in Hd'.
Qed.
End names.

(** ** What a worker keeps *)

Lemma sum_app {A} (f : A → Z) (l1 l2 : list A) : sum f (l1 ++ l2) = sum f l1 + sum f l2.
Proof. induction l1 as [|x l1 IH]; cbn; [done|]. rewrite IH. lia. Qed.

Lemma sum_delete {A} (f : A → Z) (l : list A) i x : l !! i = Some x → sum f (delete i l) = sum f l - f x.
Proof.
  revert i. induction l as [|y l IH]; intros i; [done|]. destruct i as [|i]; simpl.
  - intros [= ->]. lia.
  - intros Hi. rewrite (IH i Hi). lia.
Qed.

Lemma sum_ge {A} (f : A → Z) (l : list A) i x : (∀ x, 0 <= f x) → l !! i = Some x → f x <= sum f l.
Proof.
  intros Hf Hi. pose proof (sum_delete f l i x Hi). pose proof (sum_nonneg f (delete i l) Hf). lia.
Qed.

Section keeping.
Context `{Uuids}.
Implicit Types (e : CorpusEntry) (w : WorkerCorpus).

Definition tx_ok (tx : BasicTxDetails) : Prop := (4 <= length (calldata (call_details tx)))%nat.
Definition entry_ok e : Prop := tx_seq e ≠ [] ∧ Forall tx_ok (tx_seq e).
Definition favored e : Z := if is_favored e then 1 else 0.
Definition dir_ok (d : gmap str (option (list BasicTxDetails))) : Prop :=
  map_Forall (λ _ content, ∀ txs, content = Some txs → Forall tx_ok txs) d.

Record worker_ok w : Prop := {
  wk_entries : Forall entry_ok (in_memory_corpus w);
  wk_favored : favored_items (metrics w) = sum favored (in_memory_corpus w);
}.
Record disk_ok (k : Disk) : Prop := {
  dk_corpus : map_Forall (λ _ d, dir_ok d) (corpus_files k);
  dk_sync : map_Forall (λ _ d, dir_ok d) (sync_files k);
}.

Lemma favored_nonneg e : 0 <= favored e.
Proof. unfold favored. destruct (is_favored e); lia. Qed.

Lemma merge_coverage_ok edges w : worker_ok w → worker_ok (merge_coverage edges w).2.
Proof.
  intros [He Hf]. unfold merge_coverage. destruct (merge_edge_coverage _ _) as [history [news edge]].
  split; cbn; [done|]. destruct news; [|done]. by destruct edge.
Qed.

Lemma find_entry_lookup u l i e : find_entry u l = Some (i, e) → l !! i = Some e ∧ uuid e = u.
Proof.
  revert i. induction l as [|x l IH]; intros i; cbn; [done|]. destruct (decide (uuid x = u)).
  - by intros [= <- <-].
  - intros ([j y] & Hj & [= <- <-])%bind_Some. by apply IH.
Qed.

(** The counter of favored entries does not underflow. *)
Lemma update_mutated_ok news w : worker_ok w →
  ∃ w', update_mutated news w = Some w' ∧ worker_ok w' ∧ config w' = config w ∧ id w' = id w.
Proof.
  intros [He Hf]. unfold update_mutated. destruct (current_mutated w) as [u|]; [|by eexists].
  destruct (find_entry u (in_memory_corpus w)) as [[i e]|] eqn:Hfind.
  2: { cbn. eexists. split; [done|]. split; [by split|done]. }
  apply find_entry_lookup in Hfind as [Hi _]. set (e' := mutated_entry news e).
  pose proof (sum_ge favored _ i e favored_nonneg Hi) as Hge.
  assert (∃ m, update_favored (is_favored e') (is_favored e) (metrics w) = Some m ∧
    favored_items m = favored_items (metrics w) - favored e + favored e') as (m & -> & Hm).
  { unfold update_favored, favored in *. destruct (is_favored e'), (is_favored e); cbn.
    - eexists. split; [done|]. lia.
    - eexists. split; [done|]. cbn. lia.
    - rewrite (proj2 (Z.leb_gt _ _)) by lia. eexists. split; [done|]. cbn. lia.
    - eexists. split; [done|]. lia. }
  cbn. eexists. split; [done|]. split; [|done]. split; cbn.
  - apply Forall_insert; [done|]. split; apply (proj1 (Forall_lookup _ _) He i e Hi).
  - rewrite (sum_insert _ _ _ _ _ Hi). lia.
Qed.

Lemma dir_ok_insert d name txs : dir_ok d → Forall tx_ok txs → dir_ok (<[name := Some txs]> d).
Proof. intros Hd Htxs. apply map_Forall_insert_2; [|done]. by intros ? [= <-]. Qed.

Lemma write_ok refuses n name txs k k' :
  disk_ok k → Forall tx_ok txs → write_file refuses n name txs k = Some k' → disk_ok k'.
Proof.
  intros [Hc Hs] Htxs. unfold write_file. intros (d & Hd & Hk)%bind_Some. destruct (refuses _ _ _); [done|].
  injection Hk as <-. split; cbn; [|done]. apply map_Forall_insert_2; [|done].
  apply dir_ok_insert; [by apply (Hc n)|done].
Qed.

Lemma process_inputs_ok size_of_tx refuses fresh now txs news w k :
  worker_ok w → disk_ok k → txs ≠ [] → Forall tx_ok txs →
  ∃ w' k', Corpus.process_inputs size_of_tx refuses fresh now txs news w k = Some (w', k') ∧
    worker_ok w' ∧ disk_ok k' ∧ config w' = config w.
Proof.
  intros Hw Hk Hne Htxs. unfold Corpus.process_inputs. destruct (worker_dir w); cbn; [|by do 2 eexists].
  destruct (update_mutated_ok news w Hw) as (w1 & -> & [He Hf] & Hcfg & Hid). cbn.
  destruct news; cbn; [|do 2 eexists; split; [done|]; by split]. destruct txs as [|tx txs]; [done|].
  do 2 eexists. split; [done|]. split; [split; cbn|split; [|done]].
  - apply Forall_app. split; [done|]. apply Forall_singleton. by split.
  - rewrite sum_app, Hf. cbn. lia.
  - destruct (write_file _ _ _ _ _) as [k'|] eqn:Hwrite; cbn; [|done]. by eapply write_ok.
Qed.

Lemma position_holds {A} (f : A → bool) l i : Corpus.position f l = Some i → ∃ x, l !! i = Some x ∧ f x = true.
Proof.
  revert i. induction l as [|y l IH]; intros i; cbn; [done|]. destruct (f y) eqn:Hy; [intros [= <-]; by exists y|].
  intros (j & Hj & ->)%fmap_Some. by apply IH.
Qed.

Lemma evict_ok w : worker_ok w →
  worker_ok (evict_oldest_corpus w) ∧ config (evict_oldest_corpus w) = config w ∧
  (in_memory_corpus w ≠ [] → in_memory_corpus (evict_oldest_corpus w) ≠ []).
Proof.
  intros [He Hf]. unfold evict_oldest_corpus. destruct (_ <? _)%nat eqn:Hlen; [|by split].
  destruct (Corpus.position _ _) as [i|] eqn:Hpos; [|by split].
  apply position_holds in Hpos as (e & Hi & Hev). split; [split; cbn|split; [done|]].
  - by apply Forall_delete.
  - rewrite (sum_delete _ _ _ _ Hi), Hf. unfold evictable in Hev. unfold favored.
    destruct (is_favored e); [by rewrite andb_false_r in Hev|lia].
  - intros _ Hnil. apply (f_equal length) in Hnil. cbn in Hnil. apply Nat.ltb_lt in Hlen.
    rewrite length_delete in Hnil by by eexists. lia.
Qed.

(** The entries that are to be exported stay the same, but for the one that is
    evicted. *)
Lemma shift_indices {A} (l : list A) index (indices : list nat) :
  omap (λ i, delete index l !! i) (omap (shift_index index) indices) =
  omap (λ i, if decide (i = index) then None else l !! i) indices.
Proof.
  induction indices as [|i indices IH]; cbn; [done|]. unfold shift_index at 1.
  destruct (index <? i)%nat eqn:Hlt; [|destruct (i =? index)%nat eqn:Heq]; cbn.
  - apply Nat.ltb_lt in Hlt. rewrite decide_False by lia.
    rewrite list_lookup_delete_ge by lia. replace (S (i - 1)) with i by lia. by rewrite IH.
  - apply Nat.eqb_eq in Heq. by rewrite decide_True by done.
  - apply Nat.ltb_ge in Hlt. apply Nat.eqb_neq in Heq. rewrite decide_False by done.
    rewrite list_lookup_delete_lt by lia. by rewrite IH.
Qed.
End keeping.

(** ** New inputs *)

#[local] Existing Instance try_ret.
#[local] Existing Instance try_bind.

Section inputs.
Context `{Uuids} {R : Type} `{LawfulRng R} `{LawfulProptest R} {MappingSlots Backend Changes EvmError : Type}.
Local Abbreviation Try := (@Try R EvmError).

(** [m] does not panic, and what it gives satisfies [P]. *)
Definition tries {A} (m : Try A) (P : A → Prop) : Prop :=
  ∀ r, ∃ res r', m r = Some (res, r') ∧ ∀ a, res = Ok a → P a.

Lemma tries_ret {A} (a : A) (P : A → Prop) : P a → tries (mret a) P.
Proof. intros Ha r. do 2 eexists. split; [done|]. by intros ? [= <-]. Qed.

Lemma tries_bind {A B} (m : Try A) (f : A → Try B) (P : A → Prop) (Q : B → Prop) :
  tries m P → (∀ a, P a → tries (f a) Q) → tries (m ≫= f) Q.
Proof.
  intros Hm Hf r. destruct (Hm r) as (res & r' & Hr & HP). unfold mbind, try_bind. rewrite Hr.
  destruct res as [a|e]; [by apply Hf, HP|]. by do 2 eexists.
Qed.

Lemma tries_draw {A} (g : Gen R A) (P : A → Prop) : yields g P → tries (draw g) P.
Proof.
  intros Hg r. destruct (Hg r) as (a & r' & Hr & HP). unfold draw. rewrite Hr. do 2 eexists. split; [done|].
  by intros ? [= <-].
Qed.

Lemma tries_or_fail {A} e (o : option A) (P : A → Prop) : (∀ a, o = Some a → P a) → tries (or_fail e o) P.
Proof.
  intros HP r. do 2 eexists. split; [done|]. intros a. destruct o; [|done]. intros [= ->]. by apply HP.
Qed.

Lemma tries_unwrap {A} (o : option A) a (P : A → Prop) : o = Some a → P a → tries (unwrap o) P.
Proof. intros -> Ha r. do 2 eexists. split; [done|]. by intros ? [= <-]. Qed.

Lemma tries_index n : (0 < n)%nat → tries (index n) (λ i, (i < n)%nat).
Proof.
  intros Hn. apply tries_draw. eapply yields_fmap; [apply yields_range; lia|]. intros i Hi. cbn in *. lia.
Qed.

Lemma tries_times {A} n (m : Try A) (P : A → Prop) :
  tries m P → tries (times n m) (λ l, length l = n ∧ Forall P l).
Proof.
  intros Hm. induction n as [|n IH]; cbn; [by apply tries_ret|].
  eapply tries_bind; [done|]. intros x Hx. eapply tries_bind; [done|]. intros xs [Hlen Hxs].
  apply tries_ret. cbn. split; [lia|by constructor].
Qed.

Context (tx_generator : Gen R (option BasicTxDetails)).
Context (abi_decode_input : Function → list Z → option (list DynSolValue))
        (abi_encode_input : Function → list DynSolValue → option (list Z))
        (function_from_word : Z → Z) (seeded_address : nat → Z).
Context (s : @EvmFuzzState MappingSlots) (function : Function).
Hypothesis generated : yields tx_generator (λ o, ∀ tx, o = Some tx → tx_ok tx).
Hypothesis decode_typed : ∀ f data vs, abi_decode_input f data = Some vs →
  Forall2 has_type (p_type <$> f_inputs f) vs.
Hypothesis encode_selects : ∀ f vs data, abi_encode_input f vs = Some data → (4 <= length data)%nat.
Hypothesis function_from_word_in : ∀ w, in_u 256 w → in_u 192 (function_from_word w).
Hypothesis seeded_address_in : ∀ i, in_u 160 (seeded_address i).
Hypothesis state_is_ok : state_ok seeded_address s.
Hypothesis has_inputs : f_inputs function ≠ [].
Hypothesis types_supported : Forall supported (p_type <$> f_inputs function).

Lemma tries_new_tx : tries (new_tx tx_generator) tx_ok.
Proof.
  eapply tries_bind; [by apply tries_draw|]. intros o Ho. by apply tries_or_fail.
Qed.

Lemma tries_mutate_args idxs vs :
  Forall (λ i, (i < length (f_inputs function))%nat) idxs →
  Forall2 has_type (p_type <$> f_inputs function) vs →
  tries (mutate_args function_from_word seeded_address s function idxs vs)
    (λ vs, Forall2 has_type (p_type <$> f_inputs function) vs).
Proof.
  intros Hidxs. revert vs. induction Hidxs as [|i idxs Hi _ IH]; intros vs Hvs; cbn; [by apply tries_ret|].
  destruct (lookup_lt_is_Some_2 _ _ Hi) as [p Hp].
  assert ((p_type <$> f_inputs function) !! i = Some (p_type p)) as Hty by by rewrite list_lookup_fmap, Hp.
  destruct (Forall2_lookup_l _ _ _ _ _ Hvs Hty) as (v & Hv & Htv).
  eapply tries_bind; [by apply (tries_unwrap _ p (λ x, x = p))|]. intros ? ->.
  eapply tries_bind; [by apply (tries_unwrap _ v (λ x, x = v))|]. intros ? ->.
  eapply tries_bind.
  { apply tries_draw. apply (mutate_typed _ _ function_from_word_in seeded_address_in s None (p_type p) v); try done.
    rewrite Forall_lookup in types_supported. by eapply types_supported. }
  intros v' Hv'. apply IH. rewrite <-(list_insert_id _ _ _ Hty). by apply Forall2_insert.
Qed.

Lemma tries_abi_mutate tx : tx_ok tx →
  tries (abi_mutate abi_decode_input abi_encode_input function_from_word seeded_address s function tx) tx_ok.
Proof.
  intros Htx. unfold abi_mutate.
  assert (0 < length (f_inputs function))%nat as Hn by (destruct (f_inputs function); [done|cbn; lia]).
  apply (tries_bind _ _ (λ _, True)).
  { apply tries_draw. eapply yields_fmap; [apply yields_range; lia|done]. }
  intros rounds _. apply (tries_bind _ _ (λ idxs, Forall (λ i, (i < length (f_inputs function))%nat) idxs)).
  { destruct (_ <=? 1)%nat; [apply tries_ret; by repeat constructor|].
    intros r. destruct (tries_times (Nat.max 1 rounds) _ _ (tries_index _ Hn) r) as (res & r' & Hr & HP).
    exists res, r'. split; [done|]. intros l Hl. by apply HP. }
  intros idxs Hidxs. apply (tries_bind _ _ (λ _, True)).
  { unfold tx_ok in Htx. destruct (4 <=? _)%nat eqn:Hle; [by eapply tries_unwrap|].
    apply Nat.leb_gt in Hle. lia. }
  intros args _. eapply tries_bind; [by apply tries_or_fail, decode_typed|]. intros vs Hvs.
  eapply tries_bind; [apply tries_mutate_args; [by apply Forall_rev|done]|]. intros vs' _.
  eapply tries_bind; [by apply tries_or_fail, encode_selects|]. intros data Hdata.
  by apply tries_ret.
Qed.

Lemma tries_new_input w : worker_ok w →
  tries (Corpus.new_input tx_generator abi_decode_input abi_encode_input function_from_word seeded_address s function w)
    (λ '(w', data), worker_ok w' ∧ config w' = config w ∧ (4 <= length data)%nat).
Proof.
  intros Hw. unfold Corpus.new_input. destruct (negb _).
  { eapply tries_bind; [apply tries_new_tx|]. intros tx Htx. by apply tries_ret. }
  destruct (evict_ok w Hw) as (Hw' & Hcfg & _). set (w1 := evict_oldest_corpus w) in *. clearbody w1.
  apply (tries_bind _ _ (λ '(w', tx), worker_ok w' ∧ config w' = config w ∧ tx_ok tx)).
  - destruct (in_memory_corpus w1) as [|e l] eqn:Hl.
    + eapply tries_bind; [apply tries_new_tx|]. intros tx Htx. by apply tries_ret.
    + rewrite <-Hl. eapply tries_bind; [apply tries_index; rewrite Hl; cbn; lia|]. intros i Hi.
      destruct (lookup_lt_is_Some_2 _ _ Hi) as [e' He'].
      destruct (proj1 (Forall_lookup _ _) (wk_entries _ Hw') i e' He') as [Hne Htxs].
      eapply tries_bind; [by apply (tries_unwrap _ e' (λ x, x = e'))|]. intros ? ->.
      destruct (tx_seq e') as [|tx txs]; [done|]. apply Forall_cons in Htxs as [Htx _].
      eapply tries_bind; [by apply (tries_unwrap _ tx (λ x, x = tx))|]. intros ? ->.
      eapply tries_bind; [by apply tries_abi_mutate|]. intros tx' Htx'. apply tries_ret.
      split; [|done]. destruct Hw' as [Hent Hfav]. by split.
  - intros [w' tx] (Hok & Hc & Htx). by apply tries_ret.
Qed.
End inputs.

(** ** Sharing

    For the function of a stateless test. *)

Section sharing.
Context `{Uuids} `{HashIter} {Layout Backend Changes EvmError : Type}.
Context (size_of_tx : Z) (refuses : FileOp → nat → str → bool).
Context (call_raw : Executor Backend → Address → Address → Bytes → Z → result EvmError (RawCallResult Changes))
        (commit : Executor Backend → RawCallResult Changes → Executor Backend)
        (edge_coverage : RawCallResult Changes → option (list Z)) (function : Function).
Implicit Types (w : WorkerCorpus) (k : Disk).

Lemma can_replay_some tx :
  is_Some (can_replay_tx (Layout := Layout) tx (Some function) None).
Proof. by eexists. Qed.

Lemma replay_synced_ok txs ex w news : worker_ok w →
  ∃ res, replay_synced (Layout := Layout) call_raw commit edge_coverage (Some function) None txs ex w news = Some res ∧
    ∀ ex' w' news', res = Ok (ex', w', news') → worker_ok w' ∧ config w' = config w.
Proof.
  revert ex w news. induction txs as [|tx txs IH]; intros ex w news Hw; cbn [replay_synced].
  - eexists. split; [done|]. by intros ? ? ? [= <- <- <-].
  - destruct (can_replay_some tx) as [b ->]. cbn [mbind option_bind]. destruct b; [|by apply IH].
    destruct (execute_tx _ _ _) as [[c ex']|e]; [|by eexists].
    pose proof (merge_coverage_ok (edge_coverage c) w Hw) as Hm.
    assert (config (merge_coverage (edge_coverage c) w).2 = config w) as Hc.
    { unfold merge_coverage. destruct (merge_edge_coverage (edge_coverage c) (history_map w)) as [? [? ?]]. done. }
    destruct (merge_coverage (edge_coverage c) w) as [news' w']. cbn in Hm, Hc. rewrite <-Hc. by apply IH.
Qed.

Lemma dir_delete d name : dir_ok d → dir_ok (delete name d).
Proof. intros Hd. by apply map_Forall_delete. Qed.

Lemma disk_corpus_insert k n d : disk_ok k → dir_ok d → disk_ok (set_corpus_files n d k).
Proof. intros [Hc Hs] Hd. split; cbn; [by apply map_Forall_insert_2|done]. Qed.
Lemma disk_sync_insert k n d : disk_ok k → dir_ok d → disk_ok (set_sync_files n d k).
Proof. intros [Hc Hs] Hd. split; cbn; [done|by apply map_Forall_insert_2]. Qed.

Lemma rename_ok n name k k' : disk_ok k → rename_synced refuses n name k = Some k' → disk_ok k'.
Proof.
  intros Hk. unfold rename_synced.
  intros (from & Hfrom & (content & Hcontent & (to & Hto & Hr)%bind_Some)%bind_Some)%bind_Some.
  destruct (refuses _ _ _); [done|]. injection Hr as <-.
  pose proof (dk_sync _ Hk n _ Hfrom) as Hf. pose proof (dk_corpus _ Hk n _ Hto) as Ht.
  apply disk_corpus_insert; [apply disk_sync_insert; [done|by apply dir_delete]|].
  apply map_Forall_insert_2; [|done]. exact (Hf _ _ Hcontent).
Qed.

Lemma remove_ok n name k k' : disk_ok k → remove_synced refuses n name k = Some k' → disk_ok k'.
Proof.
  intros Hk. unfold remove_synced. intros (from & Hfrom & (content & _ & Hr)%bind_Some)%bind_Some.
  destruct (refuses _ _ _); [done|]. injection Hr as <-. apply disk_sync_insert; [done|].
  apply dir_delete, (dk_sync _ Hk n _ Hfrom).
Qed.

Lemma hard_link_ok m n name k : disk_ok k → disk_ok (default k (hard_link refuses m n name k)).
Proof.
  intros Hk. destruct (hard_link refuses m n name k) as [k'|] eqn:Hl; cbn; [|done]. unfold hard_link in Hl.
  apply bind_Some in Hl as (from & Hfrom & (content & Hcontent & (to & Hto & Hr)%bind_Some)%bind_Some).
  destruct (_ || _); [done|]. injection Hr as <-. apply disk_sync_insert; [done|].
  apply map_Forall_insert_2; [|apply (dk_sync _ Hk n _ Hto)]. exact (dk_corpus _ Hk m _ Hfrom _ _ Hcontent).
Qed.

Definition imports_ok (imports : list (CorpusDirEntry * list BasicTxDetails)) : Prop :=
  Forall (λ i, i.2 ≠ [] ∧ Forall tx_ok i.2) imports.

Lemma read_dir_ok d : dir_ok d →
  Forall (λ f, ∀ txs, de_content f = Some txs → Forall tx_ok txs) (read_corpus_dir d).
Proof.
  intros Hd. apply Forall_forall. intros f (name & _ & Hf)%list_elem_of_omap.
  apply bind_Some in Hf as ([u t] & _ & (content & Hc & [= <-])%bind_Some). cbn. exact (Hd _ _ Hc).
Qed.

Lemma select_imports_ok now files imports :
  Forall (λ f, ∀ txs, de_content f = Some txs → Forall tx_ok txs) files →
  select_imports (EvmError := EvmError) now files = Ok imports → imports_ok imports.
Proof.
  intros Hfiles. revert imports. induction Hfiles as [|f files Hf _ IH]; intros imports; cbn; [intros [= <-]; constructor|].
  destruct (_ <=? _); [apply IH|]. destruct (de_content f) as [[|tx txs]|]; [apply IH| |done].
  destruct (select_imports _ _) as [l|e]; cbn; [|done]. intros [= <-]. constructor; [|by apply IH]. split; [done|by apply Hf].
Qed.

Lemma calibrate_loop_ok now imports ex w k :
  imports_ok imports → worker_ok w → disk_ok k →
  ∃ res, calibrate_loop (Layout := Layout) refuses call_raw commit edge_coverage (Some function) None now imports ex w k = Some res ∧
    ∀ w' k', res = Ok (w', k') → worker_ok w' ∧ disk_ok k' ∧ config w' = config w.
Proof.
  intros Hi. revert ex w k. induction Hi as [|[f txs] imports [Hne Htxs] _ IH]; intros ex w k Hw Hk; cbn [calibrate_loop].
  - eexists. split; [done|]. by intros ? ? [= <- <-].
  - cbn in Hne, Htxs. destruct (replay_synced_ok txs ex w false Hw) as (res & -> & Hres). cbn [mbind option_bind].
    destruct res as [[[ex' w'] news]|e]; [|by eexists]. destruct (Hres _ _ _ eq_refl) as [Hw' Hc]. destruct news.
    + destruct (rename_synced _ _ _ _) as [k'|] eqn:Hren.
      * destruct (new_existing _ _ _) as [e|] eqn:Hnew; [|by eexists].
        edestruct (IH ex' (set_entries (in_memory_corpus w' ++ [e]) (new_entry_indices w') (metrics w') w') k')
          as (res & -> & Hok); [|by eapply rename_ok|].
        { unfold new_existing in Hnew. apply bind_Some in Hnew as ([u t] & _ & [= <-]). split; cbn.
          - apply Forall_app. split; [apply Hw'|]. apply Forall_singleton. by split.
          - rewrite sum_app, (wk_favored _ Hw'). cbn. lia. }
        eexists. split; [done|]. intros w2 k2 Heq. destruct (Hok _ _ Heq) as (? & ? & Hc2). cbn in Hc2. by rewrite Hc2.
      * rewrite <-Hc. by apply IH.
    + rewrite <-Hc. apply IH; [done|]. destruct (remove_synced _ _ _ _) as [k'|] eqn:Hrm; cbn; [|done]. by eapply remove_ok.
Qed.

Lemma foldl_disk {A} (f : Disk → A → Disk) (l : list A) k :
  disk_ok k → (∀ k x, disk_ok k → disk_ok (f k x)) → disk_ok (foldl f k l).
Proof. intros Hk Hf. revert k Hk. induction l as [|x l IH]; intros k Hk; cbn; [done|]. by apply IH, Hf. Qed.

Lemma create_sync_ok n k : disk_ok k → disk_ok (create_sync_dir n k).
Proof.
  intros Hk. apply disk_sync_insert; [done|]. destruct (sync_files k !! n) as [d|] eqn:Hd; cbn.
  - exact (dk_sync _ Hk n _ Hd).
  - apply map_Forall_empty.
Qed.

(** A sync never panics: it is for the master to export to workers and for the
    others to export to the master. *)
Lemma sync_ok num_workers now ex global w k :
  worker_ok w → disk_ok k →
  ∃ res, Corpus.sync (Layout := Layout) size_of_tx refuses call_raw commit edge_coverage (Some function) None
           num_workers now ex global w k = Some res ∧
    ∀ w' k' global', res = Ok (w', k', global') → worker_ok w' ∧ disk_ok k' ∧ config w' = config w.
Proof.
  intros Hw Hk. unfold Corpus.sync. set (w1 := set_synced (metrics w) w).
  assert (worker_ok w1) as Hw1 by by destruct Hw; split.
  assert (∃ res, calibrate (Layout := Layout) refuses call_raw commit edge_coverage (Some function) None now ex w1 k = Some res ∧
    ∀ w' k', res = Ok (w', k') → worker_ok w' ∧ disk_ok k' ∧ config w' = config w1) as (res & -> & Hres).
  { unfold calibrate. destruct (negb _); [eexists; split; [done|]; by intros ? ? [= <- <-]|].
    destruct (load_sync_corpus _ _) as [imports|e] eqn:Hload; [|by eexists].
    apply calibrate_loop_ok; [|done|done]. unfold load_sync_corpus in Hload.
    destruct (negb _); [injection Hload as <-; constructor|]. destruct (sync_files k !! id w1) as [d|] eqn:Hd; [|injection Hload as <-; constructor].
    eapply select_imports_ok; [|exact Hload]. apply read_dir_ok, (dk_sync _ Hk _ _ Hd). }
  cbn [mbind option_bind]. destruct res as [[w2 k2]|e]; [|by eexists].
  destruct (Hres _ _ eq_refl) as (Hw2 & Hk2 & Hc2).
  assert (∃ k3, (if (id w2 =? 0)%nat then export_to_workers refuses num_workers w2 k2
    else export_to_master size_of_tx refuses w2 k2) = Some k3 ∧ disk_ok k3) as (k3 & -> & Hk3).
  { destruct (id w2 =? 0)%nat eqn:Hid.
    - unfold export_to_workers. rewrite Hid. cbn. destruct (negb _); [by eexists|]. eexists. split; [done|].
      apply foldl_disk; [done|]. intros k' n Hk'. apply foldl_disk; [by apply create_sync_ok|].
      intros k'' f Hk''. by apply hard_link_ok.
    - unfold export_to_master. rewrite Hid. destruct (negb _); [by eexists|]. eexists. split; [done|].
      apply foldl_disk; [done|]. intros k' i Hk'. destruct (in_memory_corpus w2 !! i); [|done]. by apply hard_link_ok. }
  cbn [mbind option_bind]. eexists. split; [done|]. intros w' k' global' [= <- <- _].
  split; [by destruct Hw2; split|]. split; [done|]. exact Hc2.
Qed.
End sharing.

(** ** The corpus as a source of inputs *)

Section worker.
Context `{Uuids} `{HashIter} {R : Type} `{LawfulRng R} `{LawfulProptest R}.
Context {MappingSlots Layout Backend Changes EvmError Log Trace : Type}.
Context (size_of_tx : Z) (refuses : FileOp → nat → str → bool).
Context (tx_generator : Gen R (option BasicTxDetails)).
Context (abi_decode_input : Function → list Z → option (list DynSolValue))
        (abi_encode_input : Function → list DynSolValue → option (list Z))
        (function_from_word : Z → Z) (seeded_address : nat → Z).
Context (call_raw : Executor Backend → Address → Address → Bytes → Z → result EvmError (RawCallResult Changes))
        (commit : Executor Backend → RawCallResult Changes → Executor Backend)
        (edge_coverage : RawCallResult Changes → option (list Z))
        (call_edges : Call Log Trace → option (list Z)).
(** The clock in seconds and fresh uuids come with the randomness. *)
Context (clock : R → Z * R) (uuid_v4 : R → Uuid * R).
Context (s : @EvmFuzzState MappingSlots) (function : Function) (num_workers : nat) (executor : Executor Backend).

(** A worker's corpus, the files, the source of randomness and the metrics that
    all workers share. *)
Record World := mkWorld { wc : WorkerCorpus; disk : Disk; rng : R; global : CorpusMetrics }.

Definition world_new_input (g : World) : option (result (Error (EvmError := EvmError)) Bytes * World) :=
  '(res, r) ← Corpus.new_input tx_generator abi_decode_input abi_encode_input function_from_word seeded_address
    s function (wc g) (rng g);
  Some (match res with
        | Ok (w, data) => (Ok data, mkWorld w (disk g) r (global g))
        | Err e => (Err e, mkWorld (wc g) (disk g) r (global g))
        end).

Definition world_sync (g : World) : option (result (Error (EvmError := EvmError)) unit * World) :=
  let '(now, r) := clock (rng g) in
  res ← Corpus.sync (Layout := Layout) size_of_tx refuses call_raw commit edge_coverage (Some function) None
    num_workers now executor (global g) (wc g) (disk g);
  Some (match res with
        | Ok (w, k, m) => (Ok tt, mkWorld w k r m)
        | Err e => (Err e, mkWorld (wc g) (disk g) r (global g))
        end).

Definition world_merge (call : Call Log Trace) (g : World) : bool * World :=
  let '(news, w) := worker_merge_edge_coverage (call_edges call) (wc g) in
  (news, mkWorld w (disk g) (rng g) (global g)).

Definition world_process (txs : list BasicTxDetails) (news : bool) (g : World) : option World :=
  let '(u, r) := uuid_v4 (rng g) in
  let '(now, r) := clock r in
  '(w, k) ← Corpus.process_inputs size_of_tx refuses u now txs news (wc g) (disk g);
  Some (mkWorld w k r (global g)).

#[local] Instance corpus_inputs : FuzzInputs World (Call Log Trace) Error := {
  FuzzRun.new_input := world_new_input;
  FuzzRun.sync_corpus := world_sync;
  FuzzRun.merge_edge_coverage := world_merge;
  FuzzRun.process_inputs := world_process;
}.

Definition world_ok (g : World) : Prop := worker_ok (wc g) ∧ disk_ok (disk g).
Definition input_ok (data : Bytes) : Prop := (4 <= length data)%nat.

Hypothesis generated : yields tx_generator (λ o, ∀ tx, o = Some tx → tx_ok tx).
Hypothesis decode_typed : ∀ f data vs, abi_decode_input f data = Some vs →
  Forall2 has_type (p_type <$> f_inputs f) vs.
Hypothesis encode_selects : ∀ f vs data, abi_encode_input f vs = Some data → (4 <= length data)%nat.
Hypothesis function_from_word_in : ∀ w, in_u 256 w → in_u 192 (function_from_word w).
Hypothesis seeded_address_in : ∀ i, in_u 160 (seeded_address i).
Hypothesis state_is_ok : state_ok seeded_address s.
Hypothesis has_inputs : f_inputs function ≠ [].
Hypothesis types_supported : Forall supported (p_type <$> f_inputs function).

(** The corpus keeps the promises of the inputs of a fuzz test. *)
#[local] Instance corpus_laws : InputLaws (Call := Call Log Trace) (E := Error) world_ok input_ok.
Proof using decode_typed encode_selects function_from_word_in generated has_inputs seeded_address_in state_is_ok types_supported H1 H2 H3 H4.
  split.
  - intros [w k r m] [Hw Hk]. cbn [FuzzRun.new_input corpus_inputs]. unfold world_new_input.
    destruct (tries_new_input (EvmError := EvmError) tx_generator abi_decode_input abi_encode_input function_from_word
      seeded_address s function generated decode_typed encode_selects function_from_word_in seeded_address_in
      state_is_ok has_inputs types_supported w Hw r) as (res & r' & Hrun & Hres).
    cbn [wc rng]. rewrite Hrun. cbn [mbind option_bind]. destruct res as [[w' data]|e].
    + destruct (Hres _ eq_refl) as (Hw' & _ & Hdata). do 2 eexists. split; [done|]. split; [by split|]. by intros ? [= <-].
    + do 2 eexists. split; [done|]. by split.
  - intros [w k r m] [Hw Hk]. cbn [FuzzRun.sync_corpus corpus_inputs]. unfold world_sync. cbn [rng global wc disk].
    destruct (clock r) as [now r'].
    destruct (sync_ok (Layout := Layout) size_of_tx refuses call_raw commit edge_coverage function num_workers now executor m w k Hw Hk)
      as (res & -> & Hres). cbn [mbind option_bind]. destruct res as [[[w' k'] m']|e].
    + destruct (Hres _ _ _ eq_refl) as (? & ? & _). by do 2 eexists.
    + by do 2 eexists.
  - intros call [w k r m] [Hw Hk]. cbn. unfold world_merge. cbn.
    assert (worker_ok (worker_merge_edge_coverage (call_edges call) w).2) as Hm.
    { unfold worker_merge_edge_coverage. destruct (negb _); [done|by apply merge_coverage_ok]. }
    destruct (worker_merge_edge_coverage _ w) as [news w']. by split.
  - intros tx news [w k r m] [Hw Hk] Htx. cbn. unfold world_process. cbn.
    destruct (uuid_v4 r) as [u r1]. destruct (clock r1) as [now r2].
    destruct (process_inputs_ok size_of_tx refuses u now [tx] news w k) as (w' & k' & -> & ? & ? & _);
      [done|done|done|by apply Forall_singleton|]. by eexists.
Qed.

(** The requests of a worker. *)
Inductive Request :=
| NewInput
| Sync
| Merge (call : Call Log Trace)
| Process (tx : BasicTxDetails) (new_coverage : bool).

Definition serve (q : Request) (g : World) : option World :=
  match q with
  | NewInput => snd <$> world_new_input g
  | Sync => snd <$> world_sync g
  | Merge call => Some (world_merge call g).2
  | Process tx news => world_process [tx] news g
  end.
Fixpoint serve_all (qs : list Request) (g : World) : option World :=
  match qs with [] => Some g | q :: qs => g ← serve q g; serve_all qs g end.
Definition request_ok (q : Request) : Prop := match q with Process tx _ => tx_ok tx | _ => True end.

(** C16: No sequence of requests makes the corpus of a worker of a fuzz test panic:
    no index is out of range, no range that is drawn from is empty, no calldata
    is too short for a selector, and the counter of favored entries is the number
    of those in memory and does not underflow. *)
Theorem corpus_requests_safe qs g :
  world_ok g → Forall request_ok qs →
  ∃ g', serve_all qs g = Some g' ∧ world_ok g' ∧
    favored_items (metrics (wc g')) = sum favored (in_memory_corpus (wc g')).
Proof using decode_typed encode_selects function_from_word_in generated has_inputs seeded_address_in state_is_ok types_supported H1 H2 H3 H4.
  intros Hg Hqs. revert g Hg. induction Hqs as [|q qs Hq _ IH]; intros g Hg; cbn [serve_all].
  { exists g. split; [done|]. split; [done|apply Hg]. }
  assert (∃ g', serve q g = Some g' ∧ world_ok g') as (g' & -> & Hg').
  { destruct q as [| |call|tx news]; cbn [serve].
    - destruct (FuzzRunSpec.new_input_laws g Hg) as (res & g' & Hn & Hg' & _). cbn in Hn. rewrite Hn. by eexists.
    - destruct (FuzzRunSpec.sync_laws g Hg) as (res & g' & Hn & Hg'). cbn in Hn. rewrite Hn. by eexists.
    - eexists. split; [done|]. exact (FuzzRunSpec.merge_laws call g Hg).
    - destruct (FuzzRunSpec.process_laws tx news g Hg Hq) as (g' & Hn & Hg'). cbn in Hn. rewrite Hn. by eexists. }
  cbn [mbind option_bind]. by apply IH.
Qed.

(** *** Splices *)

(** A splice leaves out the last call of both sequences, as the upper end of a
    range that is drawn from is excluded; of sequences of one call nothing is
    left, and a new call is made instead. *)
Lemma splice_drops_last mapped (t : gmap Z (@TargetedContract Layout)) p q :
  tx_seq p ≠ [] → tx_seq q ≠ [] →
  tries (EvmError := EvmError) (mutate_sequence (MappingSlots := MappingSlots) tx_generator abi_decode_input abi_encode_input function_from_word
    seeded_address mapped t Splice p q)
    (λ ul : Uuid * list BasicTxDetails, (length ul.2 <= (length (tx_seq p) - 1) + (length (tx_seq q) - 1))%nat).
Proof using H1 H2.
  intros Hp Hq. assert (∀ l : list BasicTxDetails, l ≠ [] → (0 < length l)%nat) as Hpos by (intros [|]; cbn; [done|lia]).
  assert (∀ start (l : list BasicTxDetails), (start < length l)%nat →
    tries (EvmError := EvmError) (index_from start (length l)) (λ i, (i <= length l - 1)%nat)) as Hfrom.
  { intros start l Hs. apply tries_draw. eapply yields_fmap; [apply yields_range; lia|]. intros i Hi. cbn in *. lia. }
  unfold mutate_sequence. eapply tries_bind; [by apply tries_index, Hpos|]. intros start1 Hs1.
  eapply tries_bind; [by apply Hfrom|]. intros end1 He1.
  eapply tries_bind; [by apply tries_index, Hpos|]. intros start2 Hs2.
  eapply tries_bind; [by apply Hfrom|]. intros end2 He2. apply tries_ret.
  unfold between. cbn [snd]. rewrite length_app, !length_drop, !length_take. cbn beta in *. lia.
Qed.
End worker.

(** ** Example *)
Module CorpusExample.
Import Script.

#[local] Instance texts : Uuids := {| Uuid := str; uuid_to_string u := u; uuid_parse_str s := Some s |}.
#[local] Instance text_laws : UuidLaws.
Proof. by split. Qed.
#[local] Existing Instance elements_iter.

Definition set_number : Function := mkFunction "testFuzz_set" 16909060 NonPayable [mkParam "n" (TUint 256)].
Definition encode (f : Function) (vs : list DynSolValue) : option (list Z) :=
  match vs with [VUint x 256] => Some ([1; 2; 3; 4] ++ be_bytes 32 x) | _ => None end.
Definition decode (f : Function) (data : list Z) : option (list DynSolValue) :=
  if decide (f = set_number) then Some [VUint (wrap 256 (foldl (λ x y, x * 256 + y) 0 data)) 256] else None.
Definition tx (n : Z) : BasicTxDetails :=
  mkBasicTxDetails None None 1 (mkCallDetails 2 ([1; 2; 3; 4] ++ be_bytes 32 n)).
Definition generator : Gen (list Z) (option BasicTxDetails) := λ r, let '(n, r) := Script.next r in Some (Some (tx n), r).

(** The code that is reached is that of the last byte of the calldata. *)
Definition call_raw (_ : Executor unit) (_ _ : Address) (data : Bytes) (_ : Z) : result unit (RawCallResult unit) :=
  Ok (mkRawCallResult false (drop 35 data) tt).
Definition commit (ex : Executor unit) (_ : RawCallResult unit) : Executor unit := ex.
Definition edges (c : RawCallResult unit) : option (list Z) := Some (output c).
Definition call_edges (c : Call unit unit) : option (list Z) := Some (FuzzRun.result_data c).
Definition ex0 : Executor unit := mkExecutor (mkBlockEnv 0 0) None tt.
Definition willing (_ : FileOp) (_ : nat) (_ : str) : bool := false.

Definition config : FuzzCorpusConfig := mkConfig true false 5 0 false.
Definition empty_disk : Disk := create_dir_all 1 (create_dir_all 0 (mkDisk ∅ ∅ ∅)).
Definition worker (n : nat) : WorkerCorpus := mkWorker n [] [0; 0; 0] 0 no_metrics None config [] 0 no_metrics.
Definition world0 : World (R := list Z) := mkWorld (worker 0) empty_disk [3; 7; 9; 4; 4; 1; 0; 2; 2] no_metrics.

Definition fresh (r : list Z) : @Uuid texts * list Z := ([97; (Script.next r).1] : str, (Script.next r).2).

Local Abbreviation serve_all := (serve_all (Layout := unit) 100 willing generator decode encode
  ex_function_from_word ex_seeded call_raw commit edges call_edges Script.next
  fresh (ex_state false) set_number 2 ex0).
Definition requests : list (Request (Log := unit) (Trace := unit)) :=
  [NewInput; Process (tx 2) true; Sync; NewInput; Process (tx 3) false; NewInput].

Lemma decode_typed f data vs : decode f data = Some vs → Forall2 has_type (p_type <$> f_inputs f) vs.
Proof.
  unfold decode. destruct (decide (f = set_number)) as [->|]; [|done]. intros [= <-].
  constructor; [|constructor]. cbn [has_type]. split; [done|]. by apply wrap_in_u.
Qed.
Lemma encode_selects f vs data : encode f vs = Some data → (4 <= length data)%nat.
Proof. unfold encode. repeat case_match; try done. intros [= <-]. cbn. lia. Qed.

Lemma empty_disk_ok : disk_ok empty_disk.
Proof.
  split; intros n d Hd; cbn in Hd.
  - assert (d = ∅) as ->; [|apply map_Forall_empty].
    apply lookup_insert_Some in Hd as [[<- <-]|[_ Hd]]; [done|].
    by apply lookup_insert_Some in Hd as [[<- <-]|[_ Hd]].
  - assert (d = ∅) as ->; [|apply map_Forall_empty].
    apply lookup_insert_Some in Hd as [[<- <-]|[_ Hd]]; [done|].
    by apply lookup_insert_Some in Hd as [[<- <-]|[_ Hd]].
Qed.

Lemma corpus_requests_safe_witness :
  ∃ g, serve_all requests world0 = Some g ∧ world_ok g ∧
    favored_items (metrics (wc g)) = sum favored (in_memory_corpus (wc g)).
Proof.
  apply (corpus_requests_safe (Layout := unit) 100 willing generator decode encode ex_function_from_word ex_seeded
    call_raw commit edges call_edges Script.next fresh
    (ex_state false) set_number 2 ex0).
  - intros [|n r]; do 2 eexists; (split; [reflexivity|]); intros ? [= <-]; unfold tx_ok; cbn; lia.
  - exact decode_typed.
  - exact encode_selects.
  - exact ex_function_in.
  - exact ex_seeded_in.
  - exact (ex_state_ok false).
  - discriminate.
  - repeat constructor; cbn; lia.
  - split; [split; [constructor|reflexivity]|exact empty_disk_ok].
  - repeat constructor; unfold tx_ok; cbn; lia.
Defined.

Definition a_b : @Uuid texts := [97; 45; 98] : str.
Lemma file_name_parses_witness :
  parse_corpus_filename (file_name 100 true (new_with [tx 1; tx 2] a_b 1700000000)) = Some (a_b, 1700000000).
Proof. apply (file_name_parses 100 true (new_with [tx 1; tx 2] a_b 1700000000)). cbn. unfold in_u, umax. lia. Defined.

(** *** What is not shared *)

Definition synced (num_workers : nat) (now : Z) (w : WorkerCorpus) (k : Disk) : option (WorkerCorpus * Disk) :=
  match Corpus.sync (Layout := unit) 100 willing call_raw commit edges (Some set_number) None num_workers now ex0 no_metrics w k with
  | Some (Ok (w, k, _)) => Some (w, k)
  | _ => None
  end.
Definition found (now : Z) (w : WorkerCorpus) (k : Disk) : option (WorkerCorpus * Disk) :=
  Corpus.process_inputs 100 willing (fresh [0]).1 now [tx 7] true w k.

(** The second worker finds a sequence and exports it; the master imports it at
    its next sync, unless it has synced in between: the name of the file has the
    time of the find, which is then before the last sync. *)
Definition imported (syncs_in_between : bool) : option (list Z * nat) :=
  '(w1, k) ← found 5 (worker 1) empty_disk;
  '(w0, k) ← (if syncs_in_between then synced 2 6 (worker 0) k else Some (worker 0, k));
  '(w1, k) ← synced 2 7 w1 k;
  '(w0, k) ← synced 2 8 w0 k;
  '(w0, k) ← synced 2 9 w0 k;
  Some (map entry_timestamp (in_memory_corpus w0), size (default ∅ (sync_files k !! 0%nat))).
Example export_arrives : imported false = Some ([8], 0%nat).
Proof. vm_compute. reflexivity. Qed.
Example late_export_is_lost : imported true = Some ([], 1%nat).
Proof. vm_compute. reflexivity. Qed.

(** What the master wrote in one run of the test is not loaded in the next: it is
    in the master's directory, and only the files next to that are read. *)
Example corpus_is_not_reloaded :
  ('(w, k) ← found 5 (worker 0) empty_disk;
   loaded ← WorkerCorpus_new (Layout := unit) call_raw commit edges (Some set_number) None 0 config (Some ex0) 9 k;
   match loaded with
   | Ok (w', _) => Some (length (in_memory_corpus w), size (default ∅ (corpus_files k !! 0%nat)), length (in_memory_corpus w'))
   | Err _ => None
   end) = Some (1%nat, 1%nat, 0%nat).
Proof. vm_compute. reflexivity. Qed.
End CorpusExample.
