(* ===== verification/Coverage.v ===== *)
(** * Line coverage

    [evm/coverage/src]: the collector that counts executed instructions
    ([inspector.rs]), the hit maps and their merging, the report and its
    summaries ([lib.rs]), the table of coverage items ([analysis.rs], after the
    walk over the syntax tree) and the search for the instruction that stands
    for an item ([anchors.rs]). *)
From S2P Require Import Prelude Text Bytecode.
Local Open Scope Z_scope.

(** ** Coverage items *)

Record SourceLocation := {
  source_id : Z;
  contract_name : str;
  bytes_start : Z;
  bytes_end : Z;
  lines_start : Z;
  lines_end : Z;
}.

(** [Range::len] of the byte range. *)
Definition loc_len (l : SourceLocation) : Z := Z.max 0 (bytes_end l - bytes_start l).
Definition loc_is_empty (l : SourceLocation) : bool := loc_len l =? 0.

Inductive CoverageItemKind :=
| Line
| Statement
| Branch (branch_id path_id : Z) (is_first_opcode : bool)
| Function_ (name : str).

Record CoverageItem := {
  kind : CoverageItemKind;
  loc : SourceLocation;
  hits : Z;
}.

Definition kind_ord_key (k : CoverageItemKind) : Z :=
  match k with Line => 0 | Statement => 1 | Branch _ _ _ => 2 | Function_ _ => 3 end.

Definition set_hits (i : CoverageItem) (n : Z) : CoverageItem :=
  {| kind := kind i; loc := loc i; hits := n |}.

Record ItemAnchor := { instruction : Z; item_id : Z }.

(** ** Hit maps

    Counters are [u32] and wrap. *)
Record HitMap := { counts : gmap Z Z; bytecode : list Z }.

Definition HitMap_new (code : list Z) : HitMap := {| counts := ∅; bytecode := code |}.
Definition count (m : HitMap) (pc : Z) : Z := default 0 (counts m !! pc).
(** [NonZeroU32::new] *)
Definition HitMap_get (m : HitMap) (pc : Z) : option Z :=
  if count m pc =? 0 then None else Some (count m pc).
Definition HitMap_hits (m : HitMap) (pc hits : Z) : HitMap :=
  {| counts := <[pc := wrap 32 (count m pc + hits)]> (counts m); bytecode := bytecode m |}.
Definition HitMap_hit (m : HitMap) (pc : Z) : HitMap := HitMap_hits m pc 1.
Definition HitMap_len (m : HitMap) : nat := size (counts m).
Definition HitMap_is_empty (m : HitMap) : bool := bool_decide (counts m = ∅).

Section hit_maps.
Context `{HashIter}.

(** The entries of [other], in the order of the table. *)
Definition HitMap_iter (m : HitMap) : list (Z * Z) :=
  (λ pc, (pc, count m pc)) <$> hash_iter (dom (counts m)).
Definition HitMap_merge (m other : HitMap) : HitMap :=
  foldl (λ m p, HitMap_hits m p.1 p.2) m (HitMap_iter other).

(** By code hash. *)
Abbreviation HitMaps := (gmap Z HitMap).

Definition HitMaps_merge (a b : HitMaps) : HitMaps :=
  foldl (λ a code_hash,
           match b !! code_hash with
           | None => a
           | Some other =>
               <[code_hash := match a !! code_hash with
                              | Some e => HitMap_merge e other
                              | None => other
                              end]> a
           end) a (hash_iter (dom b)).
Definition HitMaps_merged (a b : HitMaps) : HitMaps := HitMaps_merge a b.
Definition merge_opt (a b : option HitMaps) : option HitMaps :=
  match a, b with
  | a, None => a
  | None, Some b => Some b
  | Some a, Some b => Some (HitMaps_merge a b)
  end.
End hit_maps.
Abbreviation HitMaps := (gmap Z HitMap).

Definition maps_count (ms : HitMaps) (h pc : Z) : Z :=
  match ms !! h with Some m => count m pc | None => 0 end.

(** ** The collector

    [current_map] is a pointer into the table [maps].  An insertion of a new
    entry may move the table, so a pointer remembers how many entries were
    inserted before it was taken; a clone of the collector owns another table,
    so a pointer remembers its table.  [None] is the access of a pointer that
    is not valid. *)
Record Pointer := { p_table : Z; p_inserted : nat; p_key : Z }.
Record LineCoverageCollector := {
  table : Z;
  inserted : nat;
  maps : HitMaps;
  current_map : option Pointer;
  current_hash : Z;
}.

Definition collector_default (table : Z) : LineCoverageCollector :=
  {| table := table; inserted := 0; maps := ∅; current_map := None; current_hash := 0 |}.

(** What an interpreter shows to the collector. *)
Record Interpreter := { code_hash : Z; original_bytes : list Z; pc : Z }.

Definition insert_map (c : LineCoverageCollector) (i : Interpreter) : LineCoverageCollector :=
  let absent := bool_decide (maps c !! code_hash i = None) in
  let inserted := if absent then S (inserted c) else inserted c in
  {| table := table c;
     inserted := inserted;
     maps := if absent then <[code_hash i := HitMap_new (original_bytes i)]> (maps c) else maps c;
     current_map := Some {| p_table := table c; p_inserted := inserted; p_key := code_hash i |};
     current_hash := code_hash i |}.

Definition select_map (c : LineCoverageCollector) (i : Interpreter) : LineCoverageCollector :=
  if current_hash c =? code_hash i then c else insert_map c i.

(** [unsafe { self.current_map.as_mut() }] *)
Definition valid (c : LineCoverageCollector) (p : Pointer) : bool :=
  (p_table p =? table c) && (p_inserted p =? inserted c)%nat &&
  bool_decide (is_Some (maps c !! p_key p)).
Definition deref (c : LineCoverageCollector) : option (Pointer * HitMap) :=
  p ← current_map c;
  if valid c p then m ← maps c !! p_key p; mret (p, m) else None.

Definition get_or_insert_map (c : LineCoverageCollector) (i : Interpreter) :
    option (LineCoverageCollector * (Pointer * HitMap)) :=
  let c := select_map c i in r ← deref c; mret (c, r).

Definition write_map (c : LineCoverageCollector) (p : Pointer) (m : HitMap) :
    LineCoverageCollector :=
  {| table := table c; inserted := inserted c; maps := <[p_key p := m]> (maps c);
     current_map := current_map c; current_hash := current_hash c |}.

Definition initialize_interp (c : LineCoverageCollector) (i : Interpreter) :
    option LineCoverageCollector :=
  '(c, _) ← get_or_insert_map c i; mret c.

Definition step (c : LineCoverageCollector) (i : Interpreter) : option LineCoverageCollector :=
  '(c, (p, m)) ← get_or_insert_map c i;
  mret (write_map c p (HitMap_hit m (wrap 32 (pc i)))).

(** The derived [Clone]: the table is copied, the pointer is not adjusted. *)
Definition collector_clone (c : LineCoverageCollector) (fresh : Z) : LineCoverageCollector :=
  {| table := fresh; inserted := inserted c; maps := maps c;
     current_map := current_map c; current_hash := current_hash c |}.

Definition finish (c : LineCoverageCollector) : HitMaps := maps c.

Inductive Event := Initialize (i : Interpreter) | Step (i : Interpreter).
Definition interpreter (e : Event) : Interpreter :=
  match e with Initialize i | Step i => i end.
Definition on_event (c : LineCoverageCollector) (e : Event) : option LineCoverageCollector :=
  match e with Initialize i => initialize_interp c i | Step i => step c i end.

(** ** The table of items *)

Record SourceAnalysis := { all_items : list CoverageItem; map : list (Z * Z) }.

(** [Ord] of the sort key: the source, then the start of the first item. *)
Definition first_start (s : Z * list CoverageItem) : option Z :=
  (λ i, bytes_start (loc i)) <$> head s.2.
Definition option_le (a b : option Z) : bool :=
  match a, b with None, _ => true | Some _, None => false | Some a, Some b => a <=? b end.
Definition sourced_le (a b : Z * list CoverageItem) : Prop :=
  (a.1 <? b.1) || ((a.1 =? b.1) && option_le (first_start a) (first_start b)) = true.
#[export] Instance sourced_le_dec : RelDecision sourced_le.
Proof. intros a b. unfold sourced_le. apply _. Defined.

(** One source of the loop that merges the items. *)
Definition add_source_items (s : SourceAnalysis) (p : Z * list CoverageItem) :
    option SourceAnalysis :=
  let idx := Z.to_nat p.1 in
  e ← map s !! idx;
  let offset := if e.1 =? umax 32 then wrap 32 (Z.of_nat (length (all_items s))) else e.1 in
  mret {| map := <[idx := (offset, wrap 32 (e.2 + wrap 32 (Z.of_nat (length p.2))))]> (map s);
          all_items := all_items s ++ p.2 |}.

(** [SourceAnalysis::new] after the items of every source were found; [None]
    is an index out of range. *)
Definition SourceAnalysis_build (sourced_items : list (Z * list CoverageItem)) :
    option SourceAnalysis :=
  let sourced_items := merge_sort sourced_le sourced_items in
  match last sourced_items with
  | None => Some {| all_items := []; map := [] |}
  | Some (max_idx, _) =>
      let len := wrap 32 (max_idx + 1) in
      fold_opt add_source_items
        {| all_items := []; map := replicate (Z.to_nat len) (umax 32, 0) |} sourced_items
  end.

(** [self.all_items[offset..][..len]] *)
Definition items_for_source (s : SourceAnalysis) (source_id : Z) :
    option (Z * list CoverageItem) :=
  let '(offset, len) := default (0, 0) (map s !! Z.to_nat source_id) in
  let offset := if offset =? umax 32 then 0 else offset in
  let rest := drop (Z.to_nat offset) (all_items s) in
  if (Z.of_nat (length (all_items s)) <? offset) || (Z.of_nat (length rest) <? len) then None
  else Some (offset, take (Z.to_nat len) rest).

Definition items_for_source_enumerated (s : SourceAnalysis) (source_id : Z) :
    option (list (Z * CoverageItem)) :=
  '(base_id, items) ← items_for_source s source_id;
  mret (imap (λ idx item, (wrap 32 (base_id + wrap 32 (Z.of_nat idx)), item)) items).

Definition SourceAnalysis_get (s : SourceAnalysis) (item_id : Z) : option CoverageItem :=
  all_items s !! Z.to_nat item_id.

(** ** Anchors

    An element of a source map is third-party data, seen through its
    accessors. *)
Section anchors.
Context {SourceElement : Type}.
Context (element_index : SourceElement → option Z).
Context (index_i32 offset length_ : SourceElement → Z).

Definition is_in_source_range (element : SourceElement) (location : SourceLocation) : bool :=
  if negb (index_i32 element =? swrap 32 (source_id location)) then false
  else if negb (bytes_start location <=? offset element) then false
  else
    let start_of_ranges := Z.max (bytes_start location) (offset element) in
    let end_of_ranges := Z.min (wrap 32 (bytes_start location + loc_len location))
                               (wrap 32 (offset element + length_ element)) in
    start_of_ranges <=? end_of_ranges.

Inductive AnchorError := NoMatchingInstruction | NoProgramCounter | JumpOverflow | NoBranches.

Fixpoint position {A} (f : A → bool) (l : list A) : option nat :=
  match l with
  | [] => None
  | x :: l => if f x then Some O else S <$> position f l
  end.

Definition find_anchor_simple (source_map : list SourceElement) (ic_pc_map : gmap Z Z)
    (item_id : Z) (loc : SourceLocation) : result AnchorError ItemAnchor :=
  match position (λ element, is_in_source_range element loc) source_map with
  | None => Err NoMatchingInstruction
  | Some instruction =>
      match map_get ic_pc_map (wrap 32 (Z.of_nat instruction)) with
      | None => Err NoProgramCounter
      | Some pc => Ok {| instruction := pc; item_id := item_id |}
      end
  end.

(** [u32::from_be_bytes] of the bytes in front of which zeros are put. *)
Definition be_value (bytes : list Z) : Z := foldl (λ n b, n * 256 + b) 0 bytes.

(** The loop over the enumerated instructions; [break] returns what was found
    so far. *)
Fixpoint branch_loop (bytecode : list Z) (source_map : list SourceElement) (item_id : Z)
    (loc : SourceLocation) (ic : nat) (insts : list (Z * Inst))
    (anchors : option (ItemAnchor * ItemAnchor)) :
    result AnchorError (option (ItemAnchor * ItemAnchor)) :=
  match insts with
  | [] => Ok anchors
  | (pc, inst) :: insts =>
      if is_push (opcode inst) then
        match source_map !! ic with
        | None => Ok anchors
        | Some element =>
            let push_size := Z.of_nat (length (immediate inst)) in
            let next_pc := pc + push_size + 1 in
            if bool_decide (bytecode !! Z.to_nat next_pc = Some JUMPI) &&
               is_in_source_range element loc then
              if push_size <=? 4 then
                branch_loop bytecode source_map item_id loc (S ic) insts
                  (Some ({| instruction := wrap 32 (next_pc + 1); item_id := item_id |},
                         {| instruction := be_value (immediate inst); item_id := item_id |}))
              else Err JumpOverflow
            else branch_loop bytecode source_map item_id loc (S ic) insts anchors
        end
      else branch_loop bytecode source_map item_id loc (S ic) insts anchors
  end.

Definition find_anchor_branch (bytecode : list Z) (source_map : list SourceElement)
    (item_id : Z) (loc : SourceLocation) : result AnchorError (ItemAnchor * ItemAnchor) :=
  anchors ← branch_loop bytecode source_map item_id loc 0 (with_pc bytecode) None;
  match anchors with Some a => Ok a | None => Err NoBranches end.

(** The anchor of one item; [None] is the panic on a path id. *)
Definition find_anchor (bytecode : list Z) (source_map : list SourceElement)
    (ic_pc_map : gmap Z Z) (p : Z * CoverageItem) : option (result AnchorError ItemAnchor) :=
  let '(item_id, item) := p in
  match kind item with
  | Branch _ path_id false =>
      match find_anchor_branch bytecode source_map item_id (loc item) with
      | Err e => Some (Err e)
      | Ok (a0, a1) =>
          if path_id =? 0 then Some (Ok a0)
          else if path_id =? 1 then Some (Ok a1)
          else None
      end
  | _ => Some (find_anchor_simple source_map ic_pc_map item_id (loc item))
  end.

(** The sources of the map, each once, in the order of their first use. *)
Fixpoint seen_once (seen : gset Z) (l : list Z) : list Z :=
  match l with
  | [] => []
  | x :: l => if bool_decide (x ∈ seen) then seen_once seen l
              else x :: seen_once ({[x]} ∪ seen) l
  end.

Definition result_ok {E A} (r : result E A) : option A :=
  match r with Ok a => Some a | Err _ => None end.

Definition find_anchors (bytecode : list Z) (source_map : list SourceElement)
    (ic_pc_map : gmap Z Z) (analysis : SourceAnalysis) : option (list ItemAnchor) :=
  let sources := seen_once ∅ (omap element_index source_map) in
  items ← mapM (items_for_source_enumerated analysis) sources;
  found ← mapM (find_anchor bytecode source_map ic_pc_map) (mjoin items);
  mret (omap result_ok found).
End anchors.

(** ** Summaries *)

Record CoverageSummary := {
  line_count : Z; line_hits : Z;
  statement_count : Z; statement_hits : Z;
  branch_count : Z; branch_hits : Z;
  function_count : Z; function_hits : Z;
}.

Definition summary_default : CoverageSummary :=
  {| line_count := 0; line_hits := 0; statement_count := 0; statement_hits := 0;
     branch_count := 0; branch_hits := 0; function_count := 0; function_hits := 0 |}.

Definition summary_merge (s other : CoverageSummary) : CoverageSummary :=
  {| line_count := line_count s + line_count other;
     line_hits := line_hits s + line_hits other;
     statement_count := statement_count s + statement_count other;
     statement_hits := statement_hits s + statement_hits other;
     branch_count := branch_count s + branch_count other;
     branch_hits := branch_hits s + branch_hits other;
     function_count := function_count s + function_count other;
     function_hits := function_hits s + function_hits other |}.

(** One more of a kind, and one more hit when the item was hit. *)
Definition one_if (b : bool) : Z := if b then 1 else 0.
Definition add_item (s : CoverageSummary) (item : CoverageItem) : CoverageSummary :=
  let hit := one_if (0 <? hits item) in
  match kind item with
  | Line =>
      {| line_count := line_count s + 1; line_hits := line_hits s + hit;
         statement_count := statement_count s; statement_hits := statement_hits s;
         branch_count := branch_count s; branch_hits := branch_hits s;
         function_count := function_count s; function_hits := function_hits s |}
  | Statement =>
      {| line_count := line_count s; line_hits := line_hits s;
         statement_count := statement_count s + 1; statement_hits := statement_hits s + hit;
         branch_count := branch_count s; branch_hits := branch_hits s;
         function_count := function_count s; function_hits := function_hits s |}
  | Branch _ _ _ =>
      {| line_count := line_count s; line_hits := line_hits s;
         statement_count := statement_count s; statement_hits := statement_hits s;
         branch_count := branch_count s + 1; branch_hits := branch_hits s + hit;
         function_count := function_count s; function_hits := function_hits s |}
  | Function_ _ =>
      {| line_count := line_count s; line_hits := line_hits s;
         statement_count := statement_count s; statement_hits := statement_hits s;
         branch_count := branch_count s; branch_hits := branch_hits s;
         function_count := function_count s + 1; function_hits := function_hits s + hit |}
  end.
Definition add_items (s : CoverageSummary) (items : list CoverageItem) : CoverageSummary :=
  foldl add_item s items.
Definition from_items (items : list CoverageItem) : CoverageSummary :=
  add_items summary_default items.

(** ** The report

    Versions and paths are third-party types of keys; the source maps are only
    kept. *)
Section report.
Context {Version Path SourceMap : Type} `{Countable Version, Countable Path}.

Definition ContractId : Type := Version * Z * str.
Definition version (id : ContractId) : Version := id.1.1.

Record CoverageReport := {
  source_paths : gmap (Version * Z) Path;
  source_paths_to_ids : gmap (Version * Path) Z;
  analyses : gmap Version SourceAnalysis;
  anchors : gmap ContractId (list ItemAnchor * list ItemAnchor);
  bytecode_hits : gmap ContractId HitMap;
  source_maps : gmap ContractId (SourceMap * SourceMap);
}.

Definition add_source (r : CoverageReport) (v : Version) (id : Z) (path : Path) : CoverageReport :=
  {| source_paths := <[(v, id) := path]> (source_paths r);
     source_paths_to_ids := <[(v, path) := id]> (source_paths_to_ids r);
     analyses := analyses r; anchors := anchors r; bytecode_hits := bytecode_hits r;
     source_maps := source_maps r |}.

Definition get_source_id (r : CoverageReport) (v : Version) (path : Path) : option Z :=
  source_paths_to_ids r !! (v, path).

Definition set_analyses (r : CoverageReport) (a : gmap Version SourceAnalysis) : CoverageReport :=
  {| source_paths := source_paths r; source_paths_to_ids := source_paths_to_ids r;
     analyses := a; anchors := anchors r; bytecode_hits := bytecode_hits r;
     source_maps := source_maps r |}.

Definition add_analysis (r : CoverageReport) (v : Version) (a : SourceAnalysis) : CoverageReport :=
  set_analyses r (<[v := a]> (analyses r)).

(** [HashMap::extend]: a later value replaces an earlier one. *)
Definition extend {A} (m : gmap ContractId A) (l : list (ContractId * A)) : gmap ContractId A :=
  foldl (λ m p, <[p.1 := p.2]> m) m l.

Definition add_source_maps (r : CoverageReport) (l : list (ContractId * (SourceMap * SourceMap))) :
    CoverageReport :=
  {| source_paths := source_paths r; source_paths_to_ids := source_paths_to_ids r;
     analyses := analyses r; anchors := anchors r; bytecode_hits := bytecode_hits r;
     source_maps := extend (source_maps r) l |}.

Definition add_anchors (r : CoverageReport)
    (l : list (ContractId * (list ItemAnchor * list ItemAnchor))) : CoverageReport :=
  {| source_paths := source_paths r; source_paths_to_ids := source_paths_to_ids r;
     analyses := analyses r; anchors := extend (anchors r) l; bytecode_hits := bytecode_hits r;
     source_maps := source_maps r |}.

(** [.hits += hits.get()] on the item an anchor refers to; [None] is the panic
    of the [expect]. *)
Definition count_item (v : Version) (a : gmap Version SourceAnalysis) (id n : Z) :
    option (gmap Version SourceAnalysis) :=
  s ← a !! v;
  item ← all_items s !! Z.to_nat id;
  mret (<[v := {| all_items := <[Z.to_nat id := set_hits item (wrap 32 (hits item + n))]>
                                 (all_items s);
                  map := map s |}]> a).

Definition count_anchor (v : Version) (hit_map : HitMap) (a : gmap Version SourceAnalysis)
    (anchor : ItemAnchor) : option (gmap Version SourceAnalysis) :=
  match HitMap_get hit_map (instruction anchor) with
  | Some hits => count_item v a (item_id anchor) hits
  | None => Some a
  end.

Definition anchors_of (r : CoverageReport) (id : ContractId) (is_deployed_code : bool) :
    list ItemAnchor :=
  match anchors r !! id with
  | Some a => if is_deployed_code then a.2 else a.1
  | None => []
  end.

Definition add_hit_map `{HashIter} (r : CoverageReport) (id : ContractId) (hit_map : HitMap)
    (is_deployed_code : bool) : option CoverageReport :=
  let bytecode_hits :=
    <[id := match bytecode_hits r !! id with
            | Some m => HitMap_merge m hit_map
            | None => hit_map
            end]> (bytecode_hits r) in
  a ← fold_opt (count_anchor (version id) hit_map) (analyses r) (anchors_of r id is_deployed_code);
  mret {| source_paths := source_paths r; source_paths_to_ids := source_paths_to_ids r;
          analyses := a; anchors := anchors r; bytecode_hits := bytecode_hits;
          source_maps := source_maps r |}.

(** A source whose path is not known is dropped. *)
Definition keep_item (r : CoverageReport) (predicate : Path → bool) (v : Version)
    (item : CoverageItem) : bool :=
  match source_paths r !! (v, source_id (loc item)) with
  | Some path => predicate path
  | None => false
  end.
Definition retain_sources (r : CoverageReport) (predicate : Path → bool) : CoverageReport :=
  set_analyses r
    (map_imap (λ v a,
       match filter (λ i, keep_item r predicate v i = true) (all_items a) with
       | [] => None
       | items => Some {| all_items := items; map := map a |}
       end) (analyses r)).

(** [by_file]: the items of all versions, in the order of the table. *)
Definition path_of (r : CoverageReport) (v : Version) (item : CoverageItem) : option Path :=
  source_paths r !! (v, source_id (loc item)).
Definition by_file {T} `{HashIter} (init : T) (f : T → CoverageItem → T) (r : CoverageReport) :
    gmap Path T :=
  foldl (λ by_file v,
           match analyses r !! v with
           | None => by_file
           | Some a =>
               foldl (λ by_file item,
                        match path_of r v item with
                        | None => by_file
                        | Some path => <[path := f (default init (by_file !! path)) item]> by_file
                        end) by_file (all_items a)
           end) ∅ (hash_iter (dom (analyses r))).
Definition summary_by_file `{HashIter} : CoverageReport → gmap Path CoverageSummary :=
  by_file summary_default add_item.
Definition items_by_file `{HashIter} : CoverageReport → gmap Path (list CoverageItem) :=
  by_file [] (λ l item, l ++ [item]).

(** ** [forge coverage]

    [CoverageArgs::collect]: the maps of every test are delivered to the
    contract whose deployed code they belong to, else to the one whose creation
    code they belong to.  The search by code is an argument. *)
Record ArtifactId := { artifact_version : Version; artifact_source : Path; artifact_name : str }.
Context (find_by_deployed_code find_by_creation_code : list Z → option ArtifactId).

Definition find_contract (code : list Z) : option (ArtifactId * bool) :=
  match find_by_deployed_code code with
  | Some a => Some (a, true)
  | None => match find_by_creation_code code with Some a => Some (a, false) | None => None end
  end.

Definition collect_map `{HashIter} (r : CoverageReport) (m : HitMap) : option CoverageReport :=
  match find_contract (bytecode m) with
  | None => Some r
  | Some (a, is_deployed_code) =>
      match get_source_id r (artifact_version a) (artifact_source a) with
      | None => Some r
      | Some source_id =>
          add_hit_map r (artifact_version a, source_id, artifact_name a) m is_deployed_code
      end
  end.

(** The maps of a test result, in the order of the table. *)
Definition values `{HashIter} (ms : HitMaps) : list HitMap :=
  omap (λ h, ms !! h) (hash_iter (dom ms)).
Definition collect `{HashIter} (r : CoverageReport) (results : list (option HitMaps)) :
    option CoverageReport :=
  fold_opt collect_map r (mjoin ((λ o, match o with Some ms => values ms | None => [] end) <$> results)).
End report.
