(* ===== verification/CoverageSpec.v ===== *)
(** * What the coverage report counts

    Theorems about [Coverage]: merging adds counters, the collector counts
    executed instructions through a pointer that is always valid, and the
    report adds what was counted at the anchors of its items, whatever the
    order of the tables. *)
From S2P Require Import Prelude Text Bytecode Coverage.
Local Open Scope Z_scope.

(** ** Counters *)

Definition map_wf (m : HitMap) : Prop := ∀ pc, in_u 32 (count m pc).
Definition maps_wf (ms : HitMaps) : Prop := ∀ h m, ms !! h = Some m → map_wf m.

Lemma in_u_zero w : 0 <= w → in_u w 0.
Proof. unfold in_u, umax. intros. pose proof (Z.pow_pos_nonneg 2 w). lia. Qed.
#[export] Hint Resolve in_u_zero : rust.

Lemma wrap_range w x : 0 <= w → 0 <= x <= umax w → wrap w x = x.
Proof. apply wrap_id. Qed.

Lemma count_hits m pc n pc' :
  count (HitMap_hits m pc n) pc' = if decide (pc' = pc) then wrap 32 (count m pc + n) else count m pc'.
Proof.
  unfold count at 1, HitMap_hits. simpl. destruct (decide (pc' = pc)) as [->|].
  - by rewrite lookup_insert_eq.
  - by rewrite lookup_insert_ne.
Qed.

Lemma map_wf_hits m pc n : map_wf m → map_wf (HitMap_hits m pc n).
Proof.
  intros Hm pc'. rewrite count_hits. destruct (decide (pc' = pc)); [apply wrap_in_u; lia|apply Hm].
Qed.

Lemma map_wf_new code : map_wf (HitMap_new code).
Proof. intros pc. unfold count, HitMap_new. simpl. rewrite lookup_empty. by apply in_u_zero. Qed.

Lemma maps_count_in_u ms h pc : maps_wf ms → in_u 32 (maps_count ms h pc).
Proof.
  intros Hms. unfold maps_count. destruct (ms !! h) eqn:Hm; [by eapply Hms|by apply in_u_zero].
Qed.

Lemma maps_count_wrap ms h pc : maps_wf ms → maps_count ms h pc = wrap 32 (maps_count ms h pc + 0).
Proof. intros. rewrite Z.add_0_r. symmetry. apply wrap_id; [lia|by apply maps_count_in_u]. Qed.

(** Adding a list of counters. *)
Lemma count_foldl_hits (l : list (Z * Z)) m pc :
  map_wf m →
  count (foldl (λ m p, HitMap_hits m p.1 p.2) m l) pc =
  wrap 32 (count m pc + zsum (λ p, if decide (p.1 = pc) then p.2 else 0) l).
Proof.
  revert m. induction l as [|[q n] l IH]; intros m Hm; simpl.
  - rewrite Z.add_0_r. symmetry. apply wrap_range; [lia|apply Hm].
  - rewrite IH by by apply map_wf_hits. rewrite count_hits.
    destruct (decide (pc = q)) as [->|Hne].
    + rewrite decide_True by done. rewrite wrap_add_l. f_equal; lia.
    + rewrite (decide_False (P := q = pc)) by done. f_equal; lia.
Qed.

Section merging.
Context `{HashIter}.

Lemma count_absent m pc : pc ∉ dom (counts m) → count m pc = 0.
Proof. intros Hpc%not_elem_of_dom. unfold count. by rewrite Hpc. Qed.

Lemma count_merge m other pc :
  map_wf m → count (HitMap_merge m other) pc = wrap 32 (count m pc + count other pc).
Proof.
  intros Hm. unfold HitMap_merge. rewrite count_foldl_hits by done. do 2 f_equal.
  unfold HitMap_iter. rewrite zsum_fmap. simpl.
  rewrite (zsum_single (λ q, count other q) pc) by apply NoDup_hash_iter.
  destruct (decide _) as [|Hpc]; [done|]. rewrite elem_of_hash_iter in Hpc.
  symmetry. by apply count_absent.
Qed.

Lemma map_wf_merge m other : map_wf m → map_wf (HitMap_merge m other).
Proof. intros Hm pc. rewrite count_merge by done. apply wrap_in_u. lia. Qed.

(** An entry of the merged maps. *)
Lemma lookup_merge_fold (l : list Z) (a b : HitMaps) h :
  NoDup l →
  foldl (λ (a : HitMaps) code_hash,
           match b !! code_hash with
           | None => a
           | Some other =>
               <[code_hash := match a !! code_hash with
                              | Some e => HitMap_merge e other
                              | None => other
                              end]> a
           end) a l !! h =
  if decide (h ∈ l) then
    match b !! h with
    | None => a !! h
    | Some other => Some (match a !! h with Some e => HitMap_merge e other | None => other end)
    end
  else a !! h.
Proof.
  intros Hl. revert a. induction Hl as [|k l Hk _ IH]; intros a; [done|].
  cbn [foldl]. rewrite IH. clear IH. destruct (decide (h = k)) as [->|Hne].
  - rewrite decide_False by done. rewrite decide_True by left.
    destruct (b !! k) as [other|]; [|done]. by rewrite lookup_insert_eq.
  - assert ((match b !! k with
             | Some other => <[k := match a !! k with
                                    | Some e => HitMap_merge e other | None => other end]> a
             | None => a
             end) !! h = a !! h) as ->.
    { destruct (b !! k); [by rewrite lookup_insert_ne|done]. }
    destruct (decide (h ∈ l)); [rewrite decide_True by (by right)|rewrite decide_False by set_solver];
      done.
Qed.

Lemma lookup_merge (a b : HitMaps) h :
  HitMaps_merge a b !! h =
  match b !! h with
  | None => a !! h
  | Some other => Some (match a !! h with Some e => HitMap_merge e other | None => other end)
  end.
Proof.
  unfold HitMaps_merge. rewrite lookup_merge_fold by apply NoDup_hash_iter.
  destruct (decide _) as [|Hh]; [done|].
  rewrite elem_of_hash_iter, not_elem_of_dom in Hh. by rewrite Hh.
Qed.

(** Merging two tables of hit maps adds the counters of every instruction
    of every contract (as [u32]), in whatever order the tables are iterated. *)
Theorem maps_count_merge a b h pc :
  maps_wf a → maps_wf b →
  maps_count (HitMaps_merge a b) h pc = wrap 32 (maps_count a h pc + maps_count b h pc).
Proof.
  intros Ha Hb. unfold maps_count. rewrite lookup_merge.
  destruct (b !! h) as [other|] eqn:Hbh, (a !! h) as [e|] eqn:Hah.
  - apply count_merge. by eapply Ha.
  - symmetry. apply wrap_range; [lia|]. by eapply Hb.
  - symmetry. rewrite Z.add_0_r. apply wrap_range; [lia|]. by eapply Ha.
  - done.
Qed.
End merging.

(** ** The collector *)

(** The pointer is valid, or nothing was selected yet. *)
Definition collector_inv (c : LineCoverageCollector) : Prop :=
  maps_wf (maps c) ∧
  (current_hash c = 0 ∧ current_map c = None ∨
   current_map c = Some {| p_table := table c; p_inserted := inserted c; p_key := current_hash c |} ∧
   is_Some (maps c !! current_hash c)).

Lemma collector_default_inv t : collector_inv (collector_default t).
Proof. split; [intros h m Hm; simpl in Hm; by rewrite lookup_empty in Hm|by left]. Qed.

Lemma select_map_inv c i :
  collector_inv c → code_hash i ≠ 0 →
  collector_inv (select_map c i) ∧ current_hash (select_map c i) = code_hash i ∧
  current_map (select_map c i) ≠ None ∧
  ∀ h pc, maps_count (maps (select_map c i)) h pc = maps_count (maps c) h pc.
Proof.
  intros [Hwf Hp] Hne. unfold select_map. destruct (Z.eqb_spec (current_hash c) (code_hash i)) as [He|He].
  - split; [done|]. split; [done|]. split; [|done]. destruct Hp as [[? ?]|[-> _]]; [congruence|done].
  - unfold insert_map. case_bool_decide as Habs; simpl.
    + split; [|split; [done|split; [done|]]].
      * split; [|right; split; [done|]; simpl; rewrite lookup_insert_eq; eauto].
        intros h m. simpl. intros [[<- <-]|[_ Hm]]%lookup_insert_Some; [apply map_wf_new|by eapply Hwf].
      * intros h pc. unfold maps_count. destruct (decide (h = code_hash i)) as [->|].
        -- rewrite lookup_insert_eq, Habs. by unfold count.
        -- by rewrite lookup_insert_ne.
    + split; [|done]. split; [done|]. right. split; [done|]. simpl.
      destruct (maps c !! code_hash i); [eauto|done].
Qed.

(** A step of the collector goes through a valid pointer and counts. *)
Lemma on_event_spec c e :
  collector_inv c → code_hash (interpreter e) ≠ 0 →
  ∃ c', on_event c e = Some c' ∧ collector_inv c' ∧
    ∀ h q, maps_count (maps c') h q =
      wrap 32 (maps_count (maps c) h q +
               match e with
               | Initialize _ => 0
               | Step i => if decide (code_hash i = h ∧ wrap 32 (pc i) = q) then 1 else 0
               end).
Proof.
  intros Hinv Hne.
  destruct (select_map_inv c (interpreter e) Hinv Hne) as (Hinv' & Hh & Hsome & Hcount).
  set (c1 := select_map c (interpreter e)) in *.
  destruct Hinv' as [Hwf [[_ ?]|[Hp [m Hm]]]]; [done|].
  assert (deref c1 = Some ({| p_table := table c1; p_inserted := inserted c1;
                              p_key := current_hash c1 |}, m)) as Hd.
  { unfold deref. rewrite Hp. simpl. unfold valid. simpl.
    rewrite Z.eqb_refl, Nat.eqb_refl, bool_decide_eq_true_2 by (rewrite Hm; eauto).
    simpl. by rewrite Hm. }
  assert (get_or_insert_map c (interpreter e) =
          Some (c1, ({| p_table := table c1; p_inserted := inserted c1;
                        p_key := current_hash c1 |}, m))) as Hget.
  { unfold get_or_insert_map. fold c1. by rewrite Hd. }
  destruct e as [i|i]; simpl in *.
  - exists c1. unfold initialize_interp. rewrite Hget. split; [done|].
    split; [split; [done|right; eauto]|]. intros h q. rewrite Hcount. by apply maps_count_wrap, Hinv.
  - eexists. unfold step. rewrite Hget. split; [done|].
    assert (∀ h q, maps_count (<[current_hash c1 := HitMap_hit m (wrap 32 (pc i))]> (maps c1)) h q =
      wrap 32 (maps_count (maps c1) h q +
               (if decide (code_hash i = h ∧ wrap 32 (pc i) = q) then 1 else 0))) as Hcnt.
    { intros h q. destruct (decide (code_hash i = h ∧ wrap 32 (pc i) = q)) as [[<- <-]|Hne'].
      - unfold maps_count. rewrite Hh, lookup_insert_eq. rewrite Hh in Hm. rewrite Hm.
        unfold HitMap_hit. by rewrite count_hits, decide_True.
      - rewrite <-maps_count_wrap by done. unfold maps_count. rewrite Hh.
        destruct (decide (h = code_hash i)) as [->|]; [|by rewrite lookup_insert_ne].
        rewrite lookup_insert_eq. rewrite Hh in Hm. rewrite Hm. unfold HitMap_hit.
        rewrite count_hits, decide_False; [done|naive_solver]. }
    split.
    + split; simpl.
      * intros h m' [[<- <-]|[_ Hm']]%lookup_insert_Some; [|by eapply Hwf].
        apply map_wf_hits. by eapply Hwf.
      * right. split; [done|]. simpl. rewrite lookup_insert_eq. eauto.
    + intros h q. simpl. by rewrite Hcnt, Hcount.
Qed.

(** The executed instructions of a contract at a program counter. *)
Definition executed (events : list Event) (h q : Z) : Z :=
  zcount (λ e, match e with
               | Step i => bool_decide (code_hash i = h ∧ wrap 32 (pc i) = q)
               | Initialize _ => false
               end) events.

Lemma run_spec c events :
  collector_inv c → Forall (λ e, code_hash (interpreter e) ≠ 0) events →
  ∃ c', fold_opt on_event c events = Some c' ∧ collector_inv c' ∧
    ∀ h q, maps_count (finish c') h q = wrap 32 (maps_count (maps c) h q + executed events h q).
Proof.
  intros Hinv Hev. revert c Hinv. induction Hev as [|e events He _ IH]; intros c Hinv.
  { exists c. split; [done|]. split; [done|]. intros h q. by apply maps_count_wrap, Hinv. }
  destruct (on_event_spec c e Hinv He) as (c1 & He1 & Hinv1 & Hc1).
  destruct (IH c1 Hinv1) as (c2 & Hrun & Hinv2 & Hc2).
  exists c2. split; [simpl; by rewrite He1|]. split; [done|].
  intros h q. rewrite Hc2, Hc1, wrap_add_l. f_equal. unfold executed, zcount. simpl.
  rewrite <-Z.add_assoc. f_equal. f_equal. destruct e; [done|]. by case_bool_decide;
    destruct (decide _).
Qed.

(** Over any sequence of interpreter events, the unchecked pointer of the
    collector is valid whenever it is used, and the table it ends with holds,
    for every contract and instruction, the number of times it was executed
    (as [u32]). *)
Theorem collector_counts t events :
  Forall (λ e, code_hash (interpreter e) ≠ 0) events →
  ∃ c, fold_opt on_event (collector_default t) events = Some c ∧
    ∀ h q, maps_count (finish c) h q = wrap 32 (executed events h q).
Proof.
  intros Hev. destruct (run_spec _ events (collector_default_inv t) Hev) as (c & Hc & _ & Hcount).
  exists c. split; [done|]. intros h q. rewrite Hcount. done.
Qed.

Definition ev (h q : Z) : Event := Step {| code_hash := h; original_bytes := []; pc := q |}.
Definition sample_events : list Event := [ev 7 0; ev 7 2; ev 9 0; ev 7 0; ev 9 5].

Lemma collector_counts_witness :
  Forall (λ e, code_hash (interpreter e) ≠ 0) sample_events ∧
  executed sample_events 7 0 = 2 ∧
  ∃ c, fold_opt on_event (collector_default 1) sample_events = Some c ∧
    ∀ h q, maps_count (finish c) h q = wrap 32 (executed sample_events h q).
Proof.
  assert (Forall (λ e, code_hash (interpreter e) ≠ 0) sample_events) as Hev
    by (repeat constructor; done).
  split; [exact Hev|]. split; [reflexivity|]. exact (collector_counts 1 sample_events Hev).
Defined.

Lemma maps_count_merge_witness :
  let a : HitMaps := {[7 := HitMap_hit (HitMap_new []) 3]} in
  (maps_wf a ∧ maps_wf a) ∧
  maps_count (@HitMaps_merge elements_iter a a) 7 3 = wrap 32 (maps_count a 7 3 + maps_count a 7 3).
Proof.
  intros a.
  assert (maps_wf a) as Ha.
  { intros h m [<- <-]%lookup_singleton_Some. apply map_wf_hits, map_wf_new. }
  split; [exact (conj Ha Ha)|]. exact (@maps_count_merge elements_iter a a 7 3 Ha Ha).
Defined.

(** A clone of a collector that has run keeps the pointer into the table of
    the original: its next step in the same contract goes through it. *)
Lemma cloned_collector_dangles :
  ∃ c, fold_opt on_event (collector_default 1) [ev 7 0] = Some c ∧
    on_event (collector_clone c 2) (ev 7 0) = None.
Proof. eexists. split; [reflexivity|]. reflexivity. Qed.

(** ** The report *)

Section report.
Context {Version Path SourceMap : Type} `{Countable Version, Countable Path}.
Abbreviation Report := (@CoverageReport Version Path SourceMap _ _ _ _).
Abbreviation Id := (@ContractId Version).
Abbreviation Analyses := (gmap Version SourceAnalysis).

(** The counter of an item, by its index. *)
Definition item_hits (a : Analyses) (v : Version) (i : nat) : option Z :=
  s ← a !! v; hits <$> (all_items s !! i).

Definition analyses_wf (a : Analyses) : Prop :=
  ∀ v i h, item_hits a v i = Some h → in_u 32 h.

Lemma item_hits_update (a : Analyses) v s item i n v' i' :
  a !! v = Some s → all_items s !! i = Some item →
  item_hits (<[v := {| all_items := <[i := set_hits item n]> (all_items s); map := map s |}]> a)
    v' i' = if decide (v' = v ∧ i' = i) then Some n else item_hits a v' i'.
Proof.
  intros Hs Hi. unfold item_hits. destruct (decide (v' = v)) as [->|Hv].
  - rewrite lookup_insert_eq, Hs. simpl. destruct (decide (i' = i)) as [->|Hne].
    + rewrite list_lookup_insert_eq by by eapply lookup_lt_Some.
      by rewrite decide_True.
    + rewrite list_lookup_insert_ne by done. rewrite decide_False; [done|naive_solver].
  - rewrite lookup_insert_ne by done. rewrite decide_False; [done|naive_solver].
Qed.

(** What an anchor adds to the item [i]. *)
Definition anchor_hits (hm : HitMap) (i : nat) (x : ItemAnchor) : Z :=
  if decide (Z.to_nat (item_id x) = i) then count hm (instruction x) else 0.

Lemma count_anchor_spec v hm (a : Analyses) x :
  analyses_wf a → is_Some (item_hits a v (Z.to_nat (item_id x))) →
  ∃ a', count_anchor v hm a x = Some a' ∧
    ∀ v' i, item_hits a' v' i =
      (λ h, wrap 32 (h + if decide (v' = v) then anchor_hits hm i x else 0)) <$> item_hits a v' i.
Proof.
  intros Hwf [h Hh]. unfold count_anchor, HitMap_get.
  assert (∀ v' i, (λ h, wrap 32 (h + 0)) <$> item_hits a v' i = item_hits a v' i) as Hsame.
  { intros v' i. destruct (item_hits a v' i) eqn:Hi; [|done]. simpl. f_equal.
    rewrite Z.add_0_r. apply wrap_id; [lia|by eapply Hwf]. }
  unfold anchor_hits. destruct (Z.eqb_spec (count hm (instruction x)) 0) as [Hz|Hz].
  - exists a. split; [done|]. intros v' i. rewrite Hz.
    rewrite <-(Hsame v' i) at 1. repeat case_decide; done.
  - unfold item_hits in Hh. apply bind_Some in Hh as (s & Hs & Hh).
    apply fmap_Some in Hh as (item & Hi & ->).
    eexists. split; [unfold count_item; rewrite Hs; simpl; by rewrite Hi|].
    intros v' i. rewrite (item_hits_update _ _ _ _ _ _ _ _ Hs Hi).
    destruct (decide (v' = v ∧ i = Z.to_nat (item_id x))) as [[-> ->]|Hne].
    + rewrite !decide_True by done. unfold item_hits. rewrite Hs. simpl. by rewrite Hi.
    + rewrite <-(Hsame v' i) at 1. repeat case_decide; naive_solver.
Qed.

(** The existence of items does not change, and counters stay in range. *)
Lemma count_effect_wf (a a' : Analyses) (f : Version → nat → Z → Z) :
  (∀ v i, item_hits a' v i = (λ h, wrap 32 (f v i h)) <$> item_hits a v i) →
  analyses_wf a' ∧ ∀ v i, is_Some (item_hits a v i) → is_Some (item_hits a' v i).
Proof.
  intros Heff. split.
  - intros v i h. rewrite Heff. intros (h' & _ & ->)%fmap_Some. apply wrap_in_u. lia.
  - intros v i [h Hh]. rewrite Heff, Hh. simpl. eauto.
Qed.

Lemma count_anchors_spec v hm (l : list ItemAnchor) (a : Analyses) :
  analyses_wf a → (∀ x, x ∈ l → is_Some (item_hits a v (Z.to_nat (item_id x)))) →
  ∃ a', fold_opt (count_anchor v hm) a l = Some a' ∧
    ∀ v' i, item_hits a' v' i =
      (λ h, wrap 32 (h + if decide (v' = v) then zsum (anchor_hits hm i) l else 0))
        <$> item_hits a v' i.
Proof.
  revert a. induction l as [|x l IH]; intros a Hwf Hex.
  { exists a. split; [done|]. intros v' i. destruct (item_hits a v' i) eqn:Hi; [|done]. simpl.
    f_equal. rewrite <-(wrap_id 32 z) at 1 by (lia || by eapply Hwf). f_equal.
    case_decide; lia. }
  destruct (count_anchor_spec v hm a x Hwf) as (a1 & H1 & Heff1); [apply Hex; left|].
  destruct (count_effect_wf _ _ _ Heff1) as [Hwf1 Hex1].
  destruct (IH a1 Hwf1) as (a2 & H2 & Heff2).
  { intros y Hy. apply Hex1, Hex. by right. }
  exists a2. split; [simpl; by rewrite H1|]. intros v' i. rewrite Heff2, Heff1.
  destruct (item_hits a v' i) as [h|]; [|done]. simpl. f_equal. rewrite wrap_add_l. f_equal.
  case_decide; lia.
Qed.

Context `{HashIter}.

(** A hit map that is delivered for a contract. *)
Definition Delivery : Type := Id * HitMap * bool.
Definition deliver (r : Report) (d : Delivery) : option Report :=
  add_hit_map r d.1.1 d.1.2 d.2.

(** What a delivery adds to the item [i] of the analysis of [v]. *)
Definition delivered (r : Report) (v : Version) (i : nat) (d : Delivery) : Z :=
  if decide (v = version d.1.1) then zsum (anchor_hits d.1.2 i) (anchors_of r d.1.1 d.2) else 0.

(** The anchors of a delivery refer to items of the report. *)
Definition anchored (r : Report) (d : Delivery) : Prop :=
  ∀ x, x ∈ anchors_of r d.1.1 d.2 →
    is_Some (item_hits (analyses r) (version d.1.1) (Z.to_nat (item_id x))).

Lemma deliver_all_spec (r : Report) (l : list Delivery) :
  analyses_wf (analyses r) → Forall (anchored r) l →
  ∃ r', fold_opt deliver r l = Some r' ∧ anchors r' = anchors r ∧
    ∀ v i, item_hits (analyses r') v i =
      (λ h, wrap 32 (h + zsum (delivered r v i) l)) <$> item_hits (analyses r) v i.
Proof.
  intros Hwf Hl. revert r Hwf Hl. induction l as [|d l IH]; intros r Hwf Hl.
  { exists r. split; [done|]. split; [done|]. intros v i.
    destruct (item_hits (analyses r) v i) eqn:Hi; [|done]. simpl. f_equal. rewrite Z.add_0_r.
    symmetry. apply wrap_id; [lia|by eapply Hwf]. }
  apply Forall_cons in Hl as [Hd Hl].
  destruct (count_anchors_spec (version d.1.1) d.1.2 _ _ Hwf Hd) as (a & Ha & Heff).
  cbn [fold_opt]. change (deliver r d) with (add_hit_map r d.1.1 d.1.2 d.2).
  unfold add_hit_map. rewrite Ha. simpl.
  match goal with |- context [fold_opt deliver ?x l] => set (r1 := x) end.
  destruct (count_effect_wf _ _ _ Heff) as [Hwf1 Hex1].
  destruct (IH r1) as (r2 & H2 & Hanch & Heff2); [done| |].
  { eapply Forall_impl; [exact Hl|]. intros e He x Hx. by apply Hex1, He. }
  exists r2. split; [done|]. split; [done|]. intros v i. rewrite Heff2.
  change (analyses r1) with a. rewrite Heff.
  destruct (item_hits (analyses r) v i) as [h|]; [|done]. simpl. f_equal. rewrite wrap_add_l.
  f_equal. rewrite <-Z.add_assoc. f_equal.
Qed.
End report.

(** ** From executed instructions to covered items *)

Lemma zcount_le {A} (P : A → bool) l : zcount P l <= Z.of_nat (length l).
Proof.
  unfold zcount. induction l as [|x l IH]; simpl; [lia|]. destruct (P x); lia.
Qed.

(** The map of a contract holds the exact counts of a run that is not too
    long for its counters. *)
Lemma executed_count t events c h m q :
  Forall (λ e, code_hash (interpreter e) ≠ 0) events →
  fold_opt on_event (collector_default t) events = Some c →
  Z.of_nat (length events) <= umax 32 → finish c !! h = Some m →
  count m q = executed events h q.
Proof.
  intros Hne Hrun Hlen Hm.
  destruct (run_spec _ events (collector_default_inv t) Hne) as (c' & Hc' & _ & Hcount).
  rewrite Hc' in Hrun. injection Hrun as ->. specialize (Hcount h q).
  unfold maps_count in Hcount. rewrite Hm in Hcount. rewrite Hcount. simpl.
  rewrite lookup_empty. apply wrap_id; [lia|]. simpl. unfold executed.
  match goal with |- in_u _ (zcount ?P _) => pose proof (zcount_le P events) end.
  split; [apply zcount_nonneg|lia].
Qed.

Section covered.
Context {Version Path SourceMap : Type} `{Countable Version, Countable Path, HashIter}.
Abbreviation Report := (@CoverageReport Version Path SourceMap _ _ _ _).
Context (find_deployed find_creation : list Z → option (@ArtifactId Version Path)).

(** Where a map is delivered. *)
Definition delivery (r : Report) (m : HitMap) : option (@Delivery Version) :=
  '(a, is_deployed_code) ← find_contract find_deployed find_creation (bytecode m);
  source_id ← get_source_id r (artifact_version a) (artifact_source a);
  mret ((artifact_version a, source_id, artifact_name a), m, is_deployed_code).

Lemma collect_map_deliver (r : Report) m :
  collect_map find_deployed find_creation r m =
  match delivery r m with Some d => deliver r d | None => Some r end.
Proof.
  unfold collect_map, delivery. destruct (find_contract _ _ _) as [[a b]|]; [|done]. simpl.
  by destruct (get_source_id _ _ _).
Qed.

Lemma deliver_ids (r r' : Report) d m :
  deliver r d = Some r' → delivery r' m = delivery r m.
Proof.
  unfold deliver, add_hit_map. intros (a & _ & [= <-])%bind_Some. done.
Qed.

Lemma collect_deliver (r : Report) ms :
  fold_opt (collect_map find_deployed find_creation) r ms = fold_opt deliver r (omap (delivery r) ms).
Proof.
  enough (∀ r0, (∀ m, delivery r m = delivery r0 m) →
    fold_opt (collect_map find_deployed find_creation) r ms =
    fold_opt deliver r (omap (delivery r0) ms)) by auto.
  revert r. induction ms as [|m ms IH]; intros r r0 Hr; [done|]. simpl.
  rewrite collect_map_deliver, Hr.
  destruct (delivery r0 m) as [d|]; simpl; [|by apply IH].
  destruct (deliver r d) as [r'|] eqn:Hd; [|done]. simpl. apply IH.
  intros m'. rewrite <-Hr. by eapply deliver_ids.
Qed.

Lemma elem_of_values (ms : HitMaps) m : m ∈ values ms ↔ ∃ h, ms !! h = Some m.
Proof.
  unfold values. rewrite list_elem_of_omap. split.
  - intros (h & _ & Hh). eauto.
  - intros [h Hh]. exists h. split; [|done]. rewrite elem_of_hash_iter. by apply elem_of_dom_2 in Hh.
Qed.

Lemma delivered_pos (r : Report) v i (d : Delivery) :
  (∀ pc, 0 <= count d.1.2 pc) →
  0 <= delivered r v i d ∧
  (0 < delivered r v i d ↔
   version d.1.1 = v ∧ ∃ x, x ∈ anchors_of r d.1.1 d.2 ∧ Z.to_nat (item_id x) = i ∧
     0 < count d.1.2 (instruction x)).
Proof.
  intros Hnn. unfold delivered. destruct (decide (v = version d.1.1)) as [->|Hv]; [|naive_solver lia].
  assert (∀ x, x ∈ anchors_of r d.1.1 d.2 → 0 <= anchor_hits d.1.2 i x) as Hx.
  { intros x _. unfold anchor_hits. case_decide; [apply Hnn|lia]. }
  split; [by apply zsum_nonneg|]. rewrite zsum_pos by done. split.
  - intros (x & Hin & Hpos). split; [done|]. exists x. split; [done|].
    unfold anchor_hits in Hpos. case_decide; [done|lia].
  - intros (_ & x & Hin & Hi & Hpos). exists x. split; [done|].
    unfold anchor_hits. by rewrite decide_True.
Qed.

Lemma elem_of_deliveries (r : Report) (ms : list HitMap) d :
  d ∈ omap (delivery r) ms → d.1.2 ∈ ms ∧ delivery r d.1.2 = Some d.
Proof.
  intros (m & Hm & Hd)%list_elem_of_omap. assert (d.1.2 = m) as ->; [|done].
  unfold delivery in Hd. apply bind_Some in Hd as ([a b] & _ & Hd).
  by apply bind_Some in Hd as (? & _ & [= <-]).
Qed.

(** A test was run by a collector, within the range of the counters. *)
Definition ran (events : list Event) (c : LineCoverageCollector) : Prop :=
  fold_opt on_event (collector_default 0) events = Some c ∧ Z.of_nat (length events) <= umax 32.

Lemma elem_of_collected tests cs :
  Forall (Forall (λ e, code_hash (interpreter e) ≠ 0)) tests → Forall2 ran tests cs →
  ∀ m, m ∈ mjoin ((λ c, values (finish c)) <$> cs) →
  ∃ events c ch, (events, c) ∈ zip tests cs ∧ finish c !! ch = Some m ∧
    ∀ q, count m q = executed events ch q.
Proof.
  intros Hne Hrun m (l & Hm & (c & -> & Hc)%list_elem_of_fmap)%list_elem_of_join.
  apply elem_of_values in Hm as [ch Hm].
  apply list_elem_of_lookup in Hc as [k Hk].
  destruct (Forall2_lookup_r _ _ _ _ _ Hrun Hk) as (events & Hev & Hrunk & Hlen).
  exists events, c, ch.
  split; [apply list_elem_of_lookup; exists k; rewrite lookup_zip_with, Hev; simpl; by rewrite Hk|].
  split; [done|]. intros q. eapply executed_count; [|done..].
  by eapply (Forall_lookup_1 (Forall _)).
Qed.

(** The map of a test is delivered, and holds its counts. *)
Lemma collected_by_test tests cs events c ch m :
  Forall (Forall (λ e, code_hash (interpreter e) ≠ 0)) tests → Forall2 ran tests cs →
  (events, c) ∈ zip tests cs → finish c !! ch = Some m →
  m ∈ mjoin ((λ c, values (finish c)) <$> cs) ∧ ∀ q, count m q = executed events ch q.
Proof.
  intros Hne Hrun Hc Hm. split.
  - apply list_elem_of_join. exists (values (finish c)).
    split; [apply elem_of_values; eauto|]. apply list_elem_of_fmap. exists c. split; [done|].
    by apply elem_of_zip_r in Hc.
  - intros q. apply list_elem_of_lookup in Hc as [k Hk].
    rewrite lookup_zip_with in Hk. apply bind_Some in Hk as (ev' & Hev & Hk).
    apply bind_Some in Hk as (c' & Hck & [= -> ->]).
    destruct (Forall2_lookup_lr _ _ _ _ _ _ Hrun Hev Hck) as [Hrunk Hlen].
    eapply executed_count; [|done..]. by eapply (Forall_lookup_1 (Forall _)).
Qed.

(** C3: the whole way of line coverage.  The instructions that tests executed
    are counted by their collectors, and [forge coverage] delivers the counts:
    when no counter overflows, an item of the report ends with a hit exactly
    when some test executed the instruction that an anchor of the item names,
    in code that belongs to the item's contract. *)
Theorem covered_iff_executed (r : Report) (tests : list (list Event)) (cs : list LineCoverageCollector) :
  Forall (Forall (λ e, code_hash (interpreter e) ≠ 0)) tests →
  Forall2 ran tests cs →
  let ms := mjoin ((λ c, values (finish c)) <$> cs) in
  Forall (anchored r) (omap (delivery r) ms) →
  (∀ v i h, item_hits (analyses r) v i = Some h → h = 0) →
  (∀ v i, zsum (delivered r v i) (omap (delivery r) ms) <= umax 32) →
  ∃ r', collect find_deployed find_creation r ((λ c, Some (finish c)) <$> cs) = Some r' ∧
    ∀ v i, is_Some (item_hits (analyses r) v i) →
      ∃ h, item_hits (analyses r') v i = Some h ∧
      (0 < h ↔
       ∃ events c ch m id is_deployed x,
         (events, c) ∈ zip tests cs ∧ finish c !! ch = Some m ∧
         delivery r m = Some (id, m, is_deployed) ∧ version id = v ∧
         x ∈ anchors_of r id is_deployed ∧ Z.to_nat (item_id x) = i ∧
         0 < executed events ch (instruction x)).
Proof.
  intros Hne Hrun ms Hanch Hzero Hbound.
  destruct (deliver_all_spec r (omap (delivery r) ms)) as (r' & Hr' & _ & Heff); [|done|].
  { intros v i h Hh. rewrite (Hzero _ _ _ Hh). by apply in_u_zero. }
  exists r'. split.
  { unfold collect. rewrite <-list_fmap_compose. unfold compose. rewrite collect_deliver. exact Hr'. }
  intros v i [h Hh]. rewrite Heff, Hh. simpl. eexists. split; [done|].
  rewrite (Hzero _ _ _ Hh), Z.add_0_l.
  assert (∀ d, d ∈ omap (delivery r) ms → ∀ q, 0 <= count d.1.2 q) as Hnn.
  { intros d [Hd _]%elem_of_deliveries q.
    destruct (elem_of_collected _ _ Hne Hrun _ Hd) as (? & ? & ? & _ & _ & ->).
    apply zcount_nonneg. }
  rewrite wrap_id; [|lia|split; [|apply Hbound]].
  2:{ apply zsum_nonneg. intros d Hd. by apply delivered_pos, Hnn. }
  rewrite zsum_pos by (intros d Hd; by apply delivered_pos, Hnn). split.
  - intros (d & Hd & (Hv & x & Hx & Hi & Hpos)%delivered_pos); [|by apply Hnn].
    destruct (elem_of_deliveries _ _ _ Hd) as [Hm Hdel].
    destruct (elem_of_collected _ _ Hne Hrun _ Hm) as (events & c & ch & Hc & Hmc & Hcnt).
    exists events, c, ch, d.1.2, d.1.1, d.2, x. rewrite <-Hcnt. by destruct d as [[??]?].
  - intros (events & c & ch & m & id & b & x & Hc & Hmc & Hdel & Hv & Hx & Hi & Hpos).
    exists (id, m, b).
    destruct (collected_by_test _ _ _ _ _ _ Hne Hrun Hc Hmc) as [Hm Hcnt].
    assert ((id, m, b) ∈ omap (delivery r) ms) as Hin by (apply list_elem_of_omap; eauto).
    split; [done|]. apply delivered_pos; [by apply (Hnn _ Hin)|]. split; [done|].
    exists x. split; [done|]. split; [done|]. simpl. by rewrite Hcnt.
Qed.
End covered.

(** A bound that does not depend on the item. *)
Definition delivered_at_most {Version Path SourceMap} `{Countable Version, Countable Path}
    (r : @CoverageReport Version Path SourceMap _ _ _ _) (d : @Delivery Version) : Z :=
  zsum (λ x, Z.max 0 (count d.1.2 (instruction x))) (anchors_of r d.1.1 d.2).

Lemma delivered_le {Version Path SourceMap} `{Countable Version, Countable Path}
    (r : @CoverageReport Version Path SourceMap _ _ _ _) v i d :
  delivered r v i d <= delivered_at_most r d.
Proof.
  unfold delivered, delivered_at_most. case_decide.
  - apply zsum_mono. intros x _. unfold anchor_hits. case_decide; lia.
  - apply zsum_nonneg. lia.
Qed.

(** One contract with one covered line and one that is not. *)
Module CoveredExample.
Definition line_item (n : Z) : CoverageItem :=
  {| kind := Line;
     loc := {| source_id := 0; contract_name := []; bytes_start := n; bytes_end := n + 1;
               lines_start := n; lines_end := n + 1 |};
     hits := 0 |}.
Definition artifact : @ArtifactId Z Z :=
  {| artifact_version := 1; artifact_source := 5; artifact_name := [] |}.
Definition report0 : @CoverageReport Z Z unit _ _ _ _ :=
  {| source_paths := {[(1, 0) := 5]}; source_paths_to_ids := {[(1, 5) := 0]};
     analyses := {[1 := {| all_items := [line_item 1; line_item 2]; map := [(0, 2)] |}]};
     anchors := {[(1, 0, []) := ([], [{| instruction := 2; item_id := 0 |};
                                      {| instruction := 3; item_id := 1 |}])]};
     bytecode_hits := ∅; source_maps := ∅ |}.
Definition find (code : list Z) : option (@ArtifactId Z Z) := Some artifact.
Definition collector : LineCoverageCollector :=
  default (collector_default 0) (fold_opt on_event (collector_default 0) sample_events).
Definition deliveries : list (@Delivery Z) :=
  omap (@delivery Z Z unit _ _ _ _ find find report0)
    (mjoin ((λ c, @values elements_iter (finish c)) <$> [collector])).

Lemma covered_iff_executed_witness :
  Forall (Forall (λ e, code_hash (interpreter e) ≠ 0)) [sample_events] ∧
  Forall2 ran [sample_events] [collector] ∧
  Forall (anchored report0) deliveries ∧
  (∀ v i h, item_hits (analyses report0) v i = Some h → h = 0) ∧
  (∀ v i, zsum (delivered report0 v i) deliveries <= umax 32) ∧
  ∃ r', @collect Z Z unit _ _ _ _ find find elements_iter report0
          ((λ c, Some (finish c)) <$> [collector]) = Some r' ∧
    ∀ v i, is_Some (item_hits (analyses report0) v i) →
      ∃ h, item_hits (analyses r') v i = Some h ∧
      (0 < h ↔
       ∃ events c ch m id is_deployed x,
         (events, c) ∈ zip [sample_events] [collector] ∧ finish c !! ch = Some m ∧
         @delivery Z Z unit _ _ _ _ find find report0 m = Some (id, m, is_deployed) ∧
         version id = v ∧
         x ∈ anchors_of report0 id is_deployed ∧ Z.to_nat (item_id x) = i ∧
         0 < executed events ch (instruction x)).
Proof.
  assert (Forall (Forall (λ e, code_hash (interpreter e) ≠ 0)) [sample_events]) as H1
    by (repeat constructor; done).
  assert (Forall2 ran [sample_events] [collector]) as H2 by (repeat constructor; done).
  assert (Forall (anchored report0) deliveries) as H3.
  { repeat constructor; (intros x Hx; vm_compute in Hx; 
      repeat (apply elem_of_cons in Hx as [->|Hx]; [vm_compute; eauto|]); by apply elem_of_nil in Hx). }
  assert (∀ v i h, item_hits (analyses report0) v i = Some h → h = 0) as H4.
  { intros v i h. unfold item_hits, report0. cbn [analyses]. intros (s & [<- <-]%lookup_singleton_Some & Hi)%bind_Some.
    simpl in Hi. by destruct i as [|[|i]]; simplify_eq/=. }
  assert (∀ v i, zsum (delivered report0 v i) deliveries <= umax 32) as H5.
  { intros v i. transitivity (zsum (delivered_at_most report0) deliveries);
      [apply zsum_mono; intros d _; apply delivered_le|vm_compute; done]. }
  split; [exact H1|]. split; [exact H2|]. split; [exact H3|]. split; [exact H4|].
  split; [exact H5|].
  exact (@covered_iff_executed Z Z unit _ _ _ _ elements_iter find find report0
           [sample_events] [collector] H1 H2 H3 H4 H5).
Defined.
End CoveredExample.
