(* ===== verification/CoverageItems.v ===== *)
(** * The items of a coverage report

    Theorems about [Coverage]: the table of items gives back the items of
    every source, summaries count the items of a file whatever the order of
    the tables, and the anchors of a branch are the two ways out of its jump. *)
From S2P Require Import Prelude Text Bytecode Coverage.
Local Open Scope Z_scope.

(** ** The table of items *)

Lemma option_le_total a b : option_le a b = true ∨ option_le b a = true.
Proof. destruct a as [a|], b as [b|]; simpl; auto. rewrite !Z.leb_le. lia. Qed.

#[export] Instance sourced_le_total : Total sourced_le.
Proof.
  intros a b. unfold sourced_le. rewrite !orb_true_iff, !andb_true_iff, !Z.ltb_lt, !Z.eqb_eq.
  destruct (option_le_total (first_start a) (first_start b)),
    (Z.lt_trichotomy a.1 b.1) as [|[|]]; auto.
Qed.

Lemma sourced_le_fst a b : sourced_le a b → a.1 <= b.1.
Proof.
  unfold sourced_le. rewrite orb_true_iff, andb_true_iff, Z.ltb_lt, Z.eqb_eq. lia.
Qed.

(** The last of a sorted list bounds the others. *)
Lemma sorted_last_max {A} (f : A → Z) (R : relation A) l x :
  (∀ a b, R a b → f a <= f b) → Sorted R l → last l = Some x → ∀ y, y ∈ l → f y <= f x.
Proof.
  intros HR Hs Hx.
  assert (StronglySorted (λ a b, f a <= f b) l) as Hss.
  { apply Sorted_StronglySorted; [intros a b c; lia|].
    clear Hx. induction Hs as [|a l _ IH Ha]; constructor; [done|].
    destruct Ha; constructor; auto. }
  clear Hs. induction Hss as [|a l Hl IH Ha]; intros y Hy; [by apply elem_of_nil in Hy|].
  destruct l as [|b l].
  - simplify_eq/=. apply list_elem_of_singleton in Hy as ->. lia.
  - rewrite last_cons_cons in Hx. apply elem_of_cons in Hy as [->|Hy]; [|by apply IH].
    rewrite Forall_forall in Ha. apply Ha. apply last_Some in Hx as [l' ->]. set_solver.
Qed.

Definition item_count (l : list (Z * list CoverageItem)) : nat := length (mjoin l.*2).

(** After the sources [done]: each has its slice, the others none. *)
Record built (len : nat) (done : list (Z * list CoverageItem)) (s : SourceAnalysis) : Prop := {
  built_items : all_items s = mjoin done.*2;
  built_done : ∀ l1 p l2, done = l1 ++ p :: l2 →
    map s !! Z.to_nat p.1 = Some (Z.of_nat (item_count l1), Z.of_nat (length p.2));
  built_rest : ∀ i, (i < len)%nat → (∀ p, p ∈ done → Z.to_nat p.1 ≠ i) →
    map s !! i = Some (umax 32, 0);
}.

Lemma item_count_app l1 l2 : item_count (l1 ++ l2) = (item_count l1 + item_count l2)%nat.
Proof. unfold item_count. by rewrite fmap_app, join_app, length_app. Qed.

Lemma add_source_items_built len prev p s :
  built len prev s → (Z.to_nat p.1 < len)%nat → (∀ q, q ∈ prev → Z.to_nat q.1 ≠ Z.to_nat p.1) →
  Z.of_nat (item_count (prev ++ [p])) < umax 32 →
  ∃ s', add_source_items s p = Some s' ∧ built len (prev ++ [p]) s'.
Proof.
  intros [Hitems Hdone Hrest] Hlen Hnew Hcount.
  assert (map s !! Z.to_nat p.1 = Some (umax 32, 0)) as Hp by by apply Hrest.
  rewrite item_count_app in Hcount. unfold item_count at 2 in Hcount.
  simpl in Hcount. rewrite app_nil_r in Hcount.
  unfold add_source_items. rewrite Hp. simpl. eexists. split; [done|].
  assert (wrap 32 (Z.of_nat (length (all_items s))) = Z.of_nat (item_count prev)) as ->.
  { rewrite Hitems. apply wrap_id; [lia|]. unfold item_count in *. split; lia. }
  assert (wrap 32 (Z.of_nat (length p.2)) = Z.of_nat (length p.2)) as Hw.
  { apply wrap_id; [lia|]. split; lia. }
  rewrite Hw, ?Z.add_0_l, ?Hw. split.
  - simpl. rewrite Hitems, fmap_app, join_app. simpl. by rewrite app_nil_r.
  - intros l1 q l2 Heq. simpl.
    destruct l2 as [|q' l2 _] using rev_ind.
    + apply app_inj_tail in Heq as [<- <-].
      by rewrite list_lookup_insert_eq by by eapply lookup_lt_Some.
    + rewrite app_comm_cons, app_assoc in Heq. apply app_inj_tail in Heq as [Heq <-].
      rewrite list_lookup_insert_ne; [by apply (Hdone l1 q l2)|].
      intros Hc. apply (Hnew q); [|done]. rewrite Heq. set_solver.
  - intros i Hi Hne. simpl. rewrite list_lookup_insert_ne; [|set_solver].
    apply Hrest; [done|]. intros q Hq. apply Hne. set_solver.
Qed.

Lemma fold_built len prev rest s :
  built len prev s → (∀ p, p ∈ rest → (Z.to_nat p.1 < len)%nat) →
  NoDup (Z.to_nat <$> (prev ++ rest).*1) → Z.of_nat (item_count (prev ++ rest)) < umax 32 →
  ∃ s', fold_opt add_source_items s rest = Some s' ∧ built len (prev ++ rest) s'.
Proof.
  revert prev s. induction rest as [|p rest IH]; intros prev s Hb Hlen Hnd Hcount.
  { exists s. by rewrite app_nil_r. }
  destruct (add_source_items_built len prev p s Hb) as (s1 & H1 & Hb1).
  - apply Hlen. left.
  - intros q Hq Heq. rewrite !fmap_app in Hnd. apply NoDup_app in Hnd as (_ & Hnd & _).
    apply (Hnd (Z.to_nat q.1)); [by do 2 apply list_elem_of_fmap_2|]. rewrite Heq. left.
  - rewrite (item_count_app prev (p :: rest)) in Hcount. rewrite item_count_app.
    change (p :: rest) with ([p] ++ rest) in Hcount. rewrite item_count_app in Hcount. lia.
  - destruct (IH (prev ++ [p]) s1 Hb1) as (s2 & H2 & Hb2); rewrite <-?app_assoc; [|done..|].
    + intros q Hq. apply Hlen. by right.
    + exists s2. simpl. rewrite H1. simpl. rewrite <-app_assoc in Hb2. done.
Qed.

Lemma items_for_source_built len l s p :
  built len l s → p ∈ l → Z.of_nat (item_count l) < umax 32 →
  ∃ offset, items_for_source s p.1 = Some (offset, p.2) ∧ 0 <= offset ∧
    (∀ i x, p.2 !! i = Some x → all_items s !! (Z.to_nat offset + i)%nat = Some x) ∧
    offset + Z.of_nat (length p.2) < umax 32.
Proof.
  intros [Hitems Hdone _] Hp Hcount.
  apply list_elem_of_split in Hp as (l1 & l2 & Hl).
  unfold items_for_source. rewrite (Hdone _ _ _ Hl). simpl.
  rewrite Hl, fmap_app, join_app in Hitems. csimpl in Hitems.
  rewrite Hl, item_count_app in Hcount. change (p :: l2) with ([p] ++ l2) in Hcount.
  rewrite item_count_app in Hcount.
  unfold item_count in Hcount at 2. simpl in Hcount. rewrite app_nil_r in Hcount.
  exists (Z.of_nat (item_count l1)).
  assert ((Z.of_nat (item_count l1) =? umax 32) = false) as -> by lia.
  rewrite !Nat2Z.id. rewrite Hitems. unfold item_count in *.
  rewrite drop_app_length.
  assert ((Z.of_nat (length (mjoin l1.*2 ++ p.2 ++ mjoin l2.*2)) <? Z.of_nat (length (mjoin l1.*2)))
          = false) as ->.
  { apply Z.ltb_ge. rewrite length_app. lia. }
  assert ((Z.of_nat (length (p.2 ++ mjoin l2.*2)) <? Z.of_nat (length p.2)) = false) as ->.
  { apply Z.ltb_ge. rewrite length_app. lia. }
  simpl. rewrite take_app_length. split; [done|]. split; [lia|]. split; [|lia].
  intros i x Hi. rewrite lookup_app_r by lia.
  replace (_ + i - _)%nat with i by lia. by apply lookup_app_l_Some.
Qed.

(** The table that merges the items of all sources gives every source its
    own items back, with identifiers under which the table holds them. *)
Theorem build_items_for_source (sources : list (Z * list CoverageItem)) :
  (∀ p, p ∈ sources → 0 <= p.1 < umax 32) → NoDup sources.*1 →
  Z.of_nat (item_count sources) < umax 32 →
  ∃ s, SourceAnalysis_build sources = Some s ∧
    ∀ p, p ∈ sources → ∃ l, items_for_source_enumerated s p.1 = Some l ∧ l.*2 = p.2 ∧
      ∀ id item, (id, item) ∈ l → SourceAnalysis_get s id = Some item.
Proof.
  intros Hid Hnd Hcount. unfold SourceAnalysis_build.
  pose proof (merge_sort_Permutation sourced_le sources) as Hperm.
  pose proof (Sorted_merge_sort sourced_le sources) as Hsorted.
  set (l := merge_sort sourced_le sources) in *.
  assert (∀ p, p ∈ l ↔ p ∈ sources) as Hin by (intros; by rewrite Hperm).
  destruct (last l) as [[max_idx items]|] eqn:Hlast.
  2:{ apply last_None in Hlast. eexists. split; [done|]. intros p Hp. apply Hin in Hp.
      rewrite Hlast in Hp. by apply elem_of_nil in Hp. }
  pose proof (sorted_last_max fst sourced_le l _ sourced_le_fst Hsorted Hlast) as Hmax.
  assert ((max_idx, items) ∈ l) as Hmaxin by (apply last_Some in Hlast as [? ->]; set_solver).
  pose proof (Hid _ (proj1 (Hin _) Hmaxin)) as Hmaxid. simpl in *.
  assert (wrap 32 (max_idx + 1) = max_idx + 1) as -> by (apply wrap_id; [lia|split; lia]).
  assert (item_count l = item_count sources) as Hc.
  { unfold item_count. apply Permutation_length. by rewrite Hperm. }
  destruct (fold_built (Z.to_nat (max_idx + 1)) [] l
              {| all_items := []; map := replicate (Z.to_nat (max_idx + 1)) (umax 32, 0) |})
    as (s & Hs & Hb).
  - split; [done| |].
    + intros l1 p l2 Heq. by destruct l1.
    + intros i Hi _. by apply lookup_replicate_2.
  - intros p Hp. specialize (Hmax _ Hp). pose proof (Hid _ (proj1 (Hin _) Hp)). lia.
  - simpl. apply (NoDup_fmap_2_strong Z.to_nat).
    + intros a b Ha Hb. rewrite Hperm in Ha, Hb.
      apply list_elem_of_fmap in Ha as (p & -> & Hp), Hb as (q & -> & Hq).
      pose proof (Hid _ Hp). pose proof (Hid _ Hq). lia.
    + by rewrite Hperm.
  - simpl. by rewrite Hc.
  - exists s. split; [done|]. intros p Hp.
    destruct (items_for_source_built _ _ _ p Hb) as (offset & Hfor & Ho & Hget & Hsmall);
      [by apply Hin|simpl; lia|].
    unfold items_for_source_enumerated. rewrite Hfor. simpl. eexists. split; [done|]. split.
    + apply list_eq. intros i. rewrite list_lookup_fmap, list_lookup_imap.
      by destruct (p.2 !! i).
    + intros id item (i & Hi)%list_elem_of_lookup. rewrite list_lookup_imap in Hi.
      apply fmap_Some in Hi as (x & Hx & [= -> ->]). unfold SourceAnalysis_get.
      pose proof (lookup_lt_Some _ _ _ Hx) as Hlt.
      rewrite (wrap_id 32 (Z.of_nat i)) by (lia || split; lia).
      rewrite wrap_id by (lia || split; lia).
      rewrite Z2Nat.inj_add, Nat2Z.id by lia. by apply Hget.
Qed.

(** ** Summaries *)

(** The two counters of a kind. *)
Definition kind_count (s : CoverageSummary) (k : CoverageItemKind) : Z * Z :=
  match k with
  | Line => (line_count s, line_hits s)
  | Statement => (statement_count s, statement_hits s)
  | Branch _ _ _ => (branch_count s, branch_hits s)
  | Function_ _ => (function_count s, function_hits s)
  end.
Definition same_kind (k : CoverageItemKind) (i : CoverageItem) : bool :=
  kind_ord_key (kind i) =? kind_ord_key k.
Definition counted (k : CoverageItemKind) (items : list CoverageItem) : Z * Z :=
  (zcount (same_kind k) items, zcount (λ i, same_kind k i && (0 <? hits i)) items).

Lemma add_item_count s i k :
  kind_count (add_item s i) k =
  ((kind_count s k).1 + one_if (same_kind k i),
   (kind_count s k).2 + one_if (same_kind k i && (0 <? hits i))).
Proof.
  unfold add_item, same_kind. destruct (kind i), k; simpl; f_equal; lia.
Qed.

Lemma add_items_count items s k :
  kind_count (add_items s items) k =
  ((kind_count s k).1 + (counted k items).1, (kind_count s k).2 + (counted k items).2).
Proof.
  revert s. induction items as [|i items IH]; intros s.
  { simpl. rewrite !Z.add_0_r. by destruct (kind_count s k). }
  change (add_items s (i :: items)) with (add_items (add_item s i) items).
  rewrite IH, add_item_count. unfold counted, zcount. simpl. unfold one_if. f_equal; lia.
Qed.

Lemma summary_ext s t : (∀ k, kind_count s k = kind_count t k) → s = t.
Proof.
  intros Hk. pose proof (Hk Line). pose proof (Hk Statement).
  pose proof (Hk (Branch 0 0 false)). pose proof (Hk (Function_ [])).
  destruct s, t. simpl in *. congruence.
Qed.

Lemma from_items_perm l1 l2 : l1 ≡ₚ l2 → from_items l1 = from_items l2.
Proof.
  intros Hl. apply summary_ext. intros k. unfold from_items. rewrite !add_items_count.
  unfold counted, zcount. simpl. by rewrite !(zsum_perm _ _ _ Hl).
Qed.

(** Two summaries of parts merge to the summary of the whole. *)
Lemma from_items_merge l1 l2 :
  summary_merge (from_items l1) (from_items l2) = from_items (l1 ++ l2).
Proof.
  apply summary_ext. intros k.
  assert (∀ s t, kind_count (summary_merge s t) k =
            ((kind_count s k).1 + (kind_count t k).1, (kind_count s k).2 + (kind_count t k).2)) as ->
    by (by destruct k).
  unfold from_items. rewrite !add_items_count. unfold counted, zcount. rewrite !zsum_app.
  by destruct k; simpl; f_equal; lia.
Qed.

Section by_file.
Context {Version Path SourceMap : Type} `{Countable Version, Countable Path}.
Abbreviation Report := (@CoverageReport Version Path SourceMap _ _ _ _).

(** The items of the versions [vs], and those of a file. *)
Definition items_of (r : Report) (vs : list Version) : list (Version * CoverageItem) :=
  vs ≫= λ v, match analyses r !! v with Some a => (v,.) <$> all_items a | None => [] end.
Definition items_at (r : Report) (vs : list Version) (p : Path) : list CoverageItem :=
  (filter (λ x, path_of r x.1 x.2 = Some p) (items_of r vs)).*2.

Definition file_step {T} (r : Report) (init : T) (f : T → CoverageItem → T)
    (m : gmap Path T) (x : Version * CoverageItem) : gmap Path T :=
  match path_of r x.1 x.2 with
  | None => m
  | Some path => <[path := f (default init (m !! path)) x.2]> m
  end.

Lemma by_file_flat {T} `{HashIter} (init : T) f (r : Report) :
  by_file init f r = foldl (file_step r init f) ∅ (items_of r (hash_iter (dom (analyses r)))).
Proof.
  unfold by_file. generalize (∅ : gmap Path T), (hash_iter (dom (analyses r))).
  intros m vs. revert m. induction vs as [|v vs IH]; intros m; [done|].
  unfold items_of. rewrite bind_cons, foldl_app. fold (items_of r vs). simpl. rewrite IH. f_equal.
  destruct (analyses r !! v) as [a|]; [|done].
  generalize m. induction (all_items a) as [|i l IHl]; intros m'; [done|]. simpl. rewrite IHl.
  done.
Qed.

Lemma file_step_lookup {T} (r : Report) (init : T) f m l p :
  foldl (file_step r init f) m l !! p =
  match (filter (λ x, path_of r x.1 x.2 = Some p) l).*2 with
  | [] => m !! p
  | items => Some (foldl f (default init (m !! p)) items)
  end.
Proof.
  revert m. induction l as [|[v i] l IH]; intros m; [done|].
  rewrite filter_cons. simpl. rewrite IH. unfold file_step. simpl.
  destruct (decide (path_of r v i = Some p)) as [Hp|Hp].
  - rewrite Hp, lookup_insert_eq. csimpl.
    by destruct ((filter (λ x, path_of r x.1 x.2 = Some p) l).*2).
  - destruct (path_of r v i) as [q|]; [|done]. rewrite lookup_insert_ne by congruence. done.
Qed.

(** The summary of a file counts, for every kind, the items of the file
    and those of them that were hit; the order in which the table of versions
    is iterated makes no difference. *)
Theorem summary_by_file_counts `{HashIter} (r : Report) p :
  summary_by_file r !! p =
    (match items_at r (elements (dom (analyses r))) p with
     | [] => None
     | items => Some (from_items items)
     end) ∧
  ∀ s k, summary_by_file r !! p = Some s →
    kind_count s k = counted k (items_at r (elements (dom (analyses r))) p).
Proof.
  assert (items_at r (hash_iter (dom (analyses r))) p ≡ₚ items_at r (elements (dom (analyses r))) p)
    as Hperm.
  { unfold items_at, items_of. by rewrite hash_iter_perm. }
  assert (summary_by_file r !! p =
    match items_at r (elements (dom (analyses r))) p with
    | [] => None | items => Some (from_items items) end) as Heq.
  { unfold summary_by_file. rewrite by_file_flat, file_step_lookup, lookup_empty.
    fold (items_at r (hash_iter (dom (analyses r))) p).
    pose proof (from_items_perm _ _ Hperm) as Hfrom. pose proof (Permutation_length Hperm) as Hlen.
    unfold from_items, add_items in *.
    destruct (items_at r (hash_iter _) p), (items_at r (elements _) p); try done.
    simpl default. by rewrite Hfrom. }
  split; [done|]. intros s k. rewrite Heq.
  destruct (items_at r (elements (dom (analyses r))) p) as [|i l]; [done|].
  intros [= <-]. unfold from_items. rewrite add_items_count.
  by destruct k, (counted _ _).
Qed.
End by_file.

(** ** Anchors of branches *)

Section anchors.
Context {SourceElement : Type} (index_i32 offset length_ : SourceElement → Z).
Abbreviation in_range := (is_in_source_range index_i32 offset length_).

(** A push in the range of the item in front of a conditional jump. *)
Definition branch_at (code : list Z) (source_map : list SourceElement) (loc : SourceLocation)
    (ic : nat) (x : Z * Inst) : bool :=
  is_push (opcode x.2) &&
  match source_map !! ic with
  | Some element =>
      bool_decide (code !! Z.to_nat (x.1 + inst_len x.2) = Some JUMPI) && in_range element loc
  | None => false
  end.

Definition branches (code : list Z) (source_map : list SourceElement) (loc : SourceLocation)
    (ic : nat) (insts : list (Z * Inst)) : list (Z * Inst) :=
  snd <$> filter (λ p, branch_at code source_map loc p.1 p.2 = true)
            (imap (λ i x, ((ic + i)%nat, x)) insts).

Definition branch_anchors (item_id : Z) (x : Z * Inst) : ItemAnchor * ItemAnchor :=
  ({| instruction := wrap 32 (x.1 + inst_len x.2 + 1); item_id := item_id |},
   {| instruction := be_value (immediate x.2); item_id := item_id |}).

Lemma branch_loop_spec code source_map item_id loc ic insts anchors :
  (ic + length insts <= length source_map)%nat →
  (∀ x, x ∈ branches code source_map loc ic insts → Z.of_nat (length (immediate x.2)) <= 4) →
  branch_loop index_i32 offset length_ code source_map item_id loc ic insts anchors =
  Ok (match last (branches code source_map loc ic insts) with
      | Some x => Some (branch_anchors item_id x)
      | None => anchors
      end).
Proof.
  revert ic anchors. induction insts as [|[pc inst] insts IH]; intros ic anchors Hlen Hsize; [done|].
  assert (branches code source_map loc ic ((pc, inst) :: insts) =
          (if branch_at code source_map loc ic (pc, inst) then [(pc, inst)] else []) ++
          branches code source_map loc (S ic) insts) as Hb.
  { unfold branches. rewrite imap_cons, filter_cons. simpl. rewrite Nat.add_0_r.
    assert (imap ((λ i x, ((ic + i)%nat, x)) ∘ S) insts = imap (λ i x, ((S ic + i)%nat, x)) insts) as ->.
    { apply imap_ext. intros i x _. simpl. f_equal. lia. }
    destruct (branch_at code source_map loc ic (pc, inst)); by case_decide. }
  rewrite Hb in Hsize |- *. simpl in Hlen.
  destruct (lookup_lt_is_Some_2 source_map ic) as [element Hel]; [lia|].
  assert (∀ anchors', branch_loop index_i32 offset length_ code source_map item_id loc (S ic) insts anchors' =
    Ok match last (branches code source_map loc (S ic) insts) with
       | Some x => Some (branch_anchors item_id x) | None => anchors' end) as IH'.
  { intros. apply IH; [lia|]. intros x Hx. apply Hsize. set_solver. }
  cbn [branch_loop]. unfold branch_at in *. cbn [fst snd] in *. rewrite Hel in *.
  destruct (is_push (opcode inst)); cbn [andb] in *; [|by rewrite IH'].
  replace (pc + Z.of_nat (length (immediate inst)) + 1) with (pc + inst_len inst)
    by (unfold inst_len; lia).
  destruct (bool_decide _ && _); [|by rewrite IH'].
  assert (Z.of_nat (length (immediate inst)) <= 4) as Hle by (apply (Hsize (pc, inst)); left).
  apply Z.leb_le in Hle. rewrite Hle, IH'. cbn [app]. rewrite last_cons.
  by destruct (last (branches code source_map loc (S ic) insts)).
Qed.

(** The anchors of a branch come from the last push in the item's range
    that feeds a conditional jump: one is the address after the jump, the
    other the address that was pushed.  There is an error when there is none. *)
Theorem find_anchor_branch_last code source_map item_id loc :
  (length (with_pc code) <= length source_map)%nat →
  (∀ x, x ∈ branches code source_map loc 0 (with_pc code) → Z.of_nat (length (immediate x.2)) <= 4) →
  find_anchor_branch index_i32 offset length_ code source_map item_id loc =
  match last (branches code source_map loc 0 (with_pc code)) with
  | Some x => Ok (branch_anchors item_id x)
  | None => Err NoBranches
  end.
Proof.
  intros Hlen Hsize. unfold find_anchor_branch.
  rewrite branch_loop_spec by done.
  by destruct (last (branches code source_map loc 0 (with_pc code))).
Qed.

(** The anchor of any other item is the first instruction in its range. *)
Lemma position_spec {A} (f : A → bool) l i :
  position f l = Some i ↔
  ∃ x, l !! i = Some x ∧ f x = true ∧ ∀ j y, (j < i)%nat → l !! j = Some y → f y = false.
Proof.
  revert i. induction l as [|x l IH]; intros i; simpl; [naive_solver|].
  destruct (f x) eqn:Hx.
  - split.
    + intros [= <-]. exists x. split; [done|]. split; [done|]. lia.
    + intros (y & Hy & Hfy & Hlt). destruct i as [|i]; [done|].
      specialize (Hlt 0%nat x). rewrite Hlt in Hx; [done|lia|done].
  - rewrite fmap_Some. split.
    + intros (k & (y & Hy & Hfy & Hlt)%IH & ->). exists y. split; [done|]. split; [done|].
      intros [|j] z Hj Hz; simplify_eq/=; [done|]. eapply Hlt; [|done]. lia.
    + intros (y & Hy & Hfy & Hlt). destruct i as [|i]; simplify_eq/=; [congruence|].
      exists i. split; [|done]. apply IH. exists y. split; [done|]. split; [done|].
      intros j z Hj Hz. apply (Hlt (S j)); [lia|done].
Qed.

Lemma find_anchor_simple_first code m source_map item_id loc a :
  Z.of_nat (length code) <= umax 32 → Z.of_nat (length source_map) <= umax 32 →
  IcPcMap_new code = Some m →
  find_anchor_simple index_i32 offset length_ source_map m item_id loc = Ok a ↔
  ∃ ic element inst,
    source_map !! ic = Some element ∧ in_range element loc = true ∧
    (∀ j y, (j < ic)%nat → source_map !! j = Some y → in_range y loc = false) ∧
    with_pc code !! ic = Some (instruction a, inst) ∧ a.(Coverage.item_id) = item_id.
Proof.
  intros Hcode Hsm Hm. unfold find_anchor_simple.
  destruct (position _ source_map) as [ic|] eqn:Hpos.
  - pose proof Hpos as Hp. apply position_spec in Hp as (el & Hel & Hin & Hfirst).
    assert (wrap 32 (Z.of_nat ic) = Z.of_nat ic) as ->.
    { apply lookup_lt_Some in Hel. apply wrap_id; [lia|]. split; lia. }
    destruct (map_get m (Z.of_nat ic)) as [pc|] eqn:Hget.
    + apply (IcPcMap_spec code Hcode m) in Hget as (i & inst & ->%Nat2Z.inj & Hpc); [|done].
      split.
      * intros [= <-]. exists i, el, inst. auto.
      * intros (j & el' & inst' & Hel' & Hin' & Hfirst' & Hpc' & Hid).
        assert (position (λ element, in_range element loc) source_map = Some j) as Hj
          by (apply position_spec; eauto).
        rewrite Hj in Hpos. injection Hpos as ->.
        destruct a. simplify_eq/=. done.
    + split; [done|]. intros (j & el' & inst' & Hel' & Hin' & Hfirst' & Hpc' & Hid).
      assert (position (λ element, in_range element loc) source_map = Some j) as Hj
        by (apply position_spec; eauto).
      rewrite Hj in Hpos. injection Hpos as ->.
      assert (map_get m (Z.of_nat ic) = Some (instruction a)) as Hc; [|congruence].
      apply (IcPcMap_spec code Hcode m); eauto.
  - split; [done|]. intros (j & el' & inst' & Hel' & Hin' & Hfirst' & _).
    assert (position (λ element, in_range element loc) source_map = Some j) as Hc; [|congruence].
    apply position_spec. eauto.
Qed.
End anchors.

(** ** Concrete inputs *)

Module ItemsExample.
Definition item (n : Z) (k : CoverageItemKind) (h : Z) : CoverageItem :=
  {| kind := k;
     loc := {| source_id := 0; contract_name := []; bytes_start := n; bytes_end := n + 4;
               lines_start := n; lines_end := n + 1 |};
     hits := h |}.
Definition sources : list (Z * list CoverageItem) :=
  [(2, [item 0 Line 0; item 4 Statement 1]); (0, [item 8 Line 3])].

Lemma build_items_for_source_witness :
  (∀ p, p ∈ sources → 0 <= p.1 < umax 32) ∧ NoDup sources.*1 ∧
  Z.of_nat (item_count sources) < umax 32 ∧
  ∃ s, SourceAnalysis_build sources = Some s ∧
    ∀ p, p ∈ sources → ∃ l, items_for_source_enumerated s p.1 = Some l ∧ l.*2 = p.2 ∧
      ∀ id item, (id, item) ∈ l → SourceAnalysis_get s id = Some item.
Proof.
  assert (∀ p, p ∈ sources → 0 <= p.1 < umax 32) as H1.
  { intros p Hp. repeat (apply elem_of_cons in Hp as [->|Hp]; [done|]). by apply elem_of_nil in Hp. }
  assert (NoDup sources.*1) as H2 by (apply (bool_decide_unpack _); reflexivity).
  assert (Z.of_nat (item_count sources) < umax 32) as H3 by reflexivity.
  split; [exact H1|]. split; [exact H2|]. split; [exact H3|].
  exact (build_items_for_source sources H1 H2 H3).
Defined.

Definition report : @CoverageReport Z Z unit _ _ _ _ :=
  {| source_paths := {[(1, 0) := 5]}; source_paths_to_ids := ∅;
     analyses := {[1 := {| all_items := [item 0 Line 0; item 4 Statement 1; item 8 Line 3];
                           map := [(0, 3)] |}]};
     anchors := ∅; bytecode_hits := ∅; source_maps := ∅ |}.

Lemma summary_by_file_counts_witness :
  ∃ s, @summary_by_file Z Z unit _ _ _ _ elements_iter report !! 5 = Some s ∧
    kind_count s Line = (2, 1) ∧
    kind_count s Line = counted Line (items_at report (elements (dom (analyses report))) 5).
Proof.
  assert (@summary_by_file Z Z unit _ _ _ _ elements_iter report !! 5 =
    Some {| line_count := 2; line_hits := 1; statement_count := 1; statement_hits := 1;
            branch_count := 0; branch_hits := 0; function_count := 0; function_hits := 0 |})
    as Hs by (vm_compute; reflexivity).
  eexists. split; [exact Hs|]. split; [reflexivity|].
  exact (proj2 (@summary_by_file_counts Z Z unit _ _ _ _ elements_iter report 5) _ Line Hs).
Defined.

(** PUSH1 5, JUMPI, STOP, STOP, JUMPDEST, all from one place of the source. *)
Definition code : list Z := [96; 5; 87; 0; 0; 91].
Definition source_map : list (Z * Z) := replicate 5 (0, 2).

Lemma find_anchor_branch_last_witness :
  ((length (with_pc code) <= length source_map)%nat ∧
   ∀ x, x ∈ branches (λ _, 0) fst snd code source_map (loc (item 0 Line 0)) 0 (with_pc code) →
     Z.of_nat (length (immediate x.2)) <= 4) ∧
  branch_anchors 9 (0, {| opcode := 96; immediate := [5] |}) =
    ({| instruction := 3; item_id := 9 |}, {| instruction := 5; item_id := 9 |}) ∧
  find_anchor_branch (λ _, 0) fst snd code source_map 9 (loc (item 0 Line 0)) =
  match last (branches (λ _, 0) fst snd code source_map (loc (item 0 Line 0)) 0 (with_pc code)) with
  | Some x => Ok (branch_anchors 9 x)
  | None => Err NoBranches
  end.
Proof.
  assert ((length (with_pc code) <= length source_map)%nat) as H1 by (vm_compute; lia).
  assert (∀ x, x ∈ branches (λ _, 0) fst snd code source_map (loc (item 0 Line 0)) 0 (with_pc code) →
            Z.of_nat (length (immediate x.2)) <= 4) as H2.
  { intros x Hx. vm_compute in Hx.
    repeat (apply elem_of_cons in Hx as [->|Hx]; [done|]). by apply elem_of_nil in Hx. }
  split; [exact (conj H1 H2)|]. split; [reflexivity|].
  exact (find_anchor_branch_last (λ _, 0) fst snd code source_map 9 (loc (item 0 Line 0)) H1 H2).
Defined.
End ItemsExample.
