(* ===== verification/FoldedStack.v ===== *)
(** * Folded stack traces

    [evm/traces/src/folded_stack_trace.rs]: the lines of a flame graph from the
    calls of a trace.  The nodes of the arena belong to [revm_inspectors]; the
    model has the fields the code reads. *)
From S2P Require Import Prelude Text.
Local Open Scope Z_scope.

(** ** The builder *)

Record TraceEntry := { names : list str; gas : Z }.
Record FoldedStackTraceBuilder := { traces : list TraceEntry; exits : nat }.
Definition builder_default : FoldedStackTraceBuilder := {| traces := []; exits := 0 |}.

(** [Vec::pop] without its result. *)
Definition pop {A} (l : list A) : list A := take (pred (length l)) l.

(** [while self.exits > 0 { names.pop(); self.exits -= 1; }] *)
Fixpoint pop_exits (exits : nat) (names : list str) : list str :=
  match exits with O => names | S exits => pop_exits exits (pop names) end.

Definition enter (b : FoldedStackTraceBuilder) (label : str) (gas : Z) : FoldedStackTraceBuilder :=
  let names' := match last (traces b) with Some entry => names entry | None => [] end in
  let names' := pop_exits (exits b) names' in
  {| traces := traces b ++ [{| names := names' ++ [label]; gas := gas |}]; exits := 0 |}.

Definition exit (b : FoldedStackTraceBuilder) : FoldedStackTraceBuilder :=
  {| traces := traces b; exits := S (exits b) |}.

(** [for _ in 0..n { self.fst.exit(); }] *)
Fixpoint exit_n (n : nat) (b : FoldedStackTraceBuilder) : FoldedStackTraceBuilder :=
  match n with O => b | S n => exit_n n (exit b) end.

(** The first entry of [left.iter_mut().rev()] with the names of the parent
    pays for the child.  Gas is [u64] and wraps. *)
Fixpoint subtract_from_parent (parent : list str) (child : Z) (lefts : list TraceEntry) :
    list TraceEntry :=
  match lefts with
  | [] => []
  | e :: lefts =>
      if bool_decide (names e = parent) then {| names := names e; gas := wrap 64 (gas e - child) |} :: lefts
      else e :: subtract_from_parent parent child lefts
  end.

(** The loop over [i]: [lefts] are the entries before [i], nearest first. *)
Fixpoint subtract_loop (lefts rights : list TraceEntry) : list TraceEntry :=
  match rights with
  | [] => rev lefts
  | e :: rights =>
      let lefts := if (1 <? length (names e))%nat
                  then subtract_from_parent (pop (names e)) (gas e) lefts else lefts in
      subtract_loop (e :: lefts) rights
  end.
Definition subtract_children (b : FoldedStackTraceBuilder) : FoldedStackTraceBuilder :=
  {| traces := subtract_loop [] (traces b); exits := exits b |}.

Definition build_without_subtraction (b : FoldedStackTraceBuilder) : list str :=
  (λ e, join (lit ";") (names e) ++ lit " " ++ digits 10 (gas e)) <$> traces b.
Definition build (b : FoldedStackTraceBuilder) : list str :=
  build_without_subtraction (subtract_children b).

(** ** The nodes of a trace *)

(** A step; [internal_call] is the name and the last step of an internal call
    that was decoded at this step. *)
Record CallTraceStep := { gas_remaining : Z; internal_call : option (str * nat) }.

Inductive TraceMemberOrder := Call (child_idx : nat) | Step (step_idx : nat) | Log (log_idx : nat).

(** [label] and [signature] come from the decoded trace, [selector] is the text
    of the four bytes the call data starts with. *)
Record CallTraceNode := {
  is_any_create : bool;
  label : option str;
  signature : option str;
  selector : option str;
  gas_used : Z;
  gas_refund_counter : Z;
  depth : Z;
  steps : list CallTraceStep;
  children : list nat;
  ordering : list TraceMemberOrder;
}.

Section process.
Context (isolate : bool) (nodes : list CallTraceNode).

Definition func_name (node : CallTraceNode) : str :=
  if is_any_create node then lit "new " ++ default (lit "Contract") (label node)
  else
    let selector := default (lit "fallback") (selector node) in
    let signature := default selector (signature node) in
    match label node with
    | Some label => label ++ lit "." ++ signature
    | None => signature
    end.

Definition node_gas (node : CallTraceNode) : Z :=
  let max_refund_adjust_depth := if isolate then 1 else 0 in
  if depth node <=? max_refund_adjust_depth
  then wrap 64 (gas_used node + gas_refund_counter node) else gas_used node.

(** [step_exits] is the list of the last steps of the internal calls that are
    open, innermost last. *)
Definition exit_previous_steps (b : FoldedStackTraceBuilder) (step_exits : list nat)
    (step_idx : nat) : FoldedStackTraceBuilder * list nat :=
  let kept := filter (λ number, (step_idx < number)%nat) step_exits in
  (exit_n (length step_exits - length kept) b, kept).

(** [None] is an index out of range. *)
Definition process_step (b : FoldedStackTraceBuilder) (steps : list CallTraceStep)
    (step_idx : nat) (step_exits : list nat) : option (FoldedStackTraceBuilder * list nat) :=
  step ← steps !! step_idx;
  match internal_call step with
  | None => Some (b, step_exits)
  | Some (func_name, step_end_idx) =>
      step_end ← steps !! step_end_idx;
      let gas_used := wrap 64 (gas_remaining step - gas_remaining step_end) in
      Some (enter b func_name gas_used, step_exits ++ [step_end_idx])
  end.

(** One member of a node, in the order of execution. *)
Definition process_member
    (process_call_node : FoldedStackTraceBuilder → nat → option FoldedStackTraceBuilder)
    (node : CallTraceNode) (s : FoldedStackTraceBuilder * list nat) (order : TraceMemberOrder) :
    option (FoldedStackTraceBuilder * list nat) :=
  let '(b, step_exits) := s in
  match order with
  | Call child_idx =>
      child_node_idx ← children node !! child_idx;
      b ← process_call_node b child_node_idx;
      Some (b, step_exits)
  | Step step_idx =>
      let '(b, step_exits) := exit_previous_steps b step_exits step_idx in
      process_step b (steps node) step_idx step_exits
  | Log _ => Some (b, step_exits)
  end.

(** The recursion goes from a node to its children; [None] is an index out of
    range, or a depth of more than [fuel] nodes. *)
Fixpoint process_call_node (fuel : nat) (b : FoldedStackTraceBuilder) (idx : nat) :
    option FoldedStackTraceBuilder :=
  match fuel with
  | O => None
  | S fuel =>
      node ← nodes !! idx;
      let b := enter b (func_name node) (node_gas node) in
      '(b, step_exits) ←
        fold_opt (process_member (process_call_node fuel) node) (b, []) (ordering node);
      Some (exit (exit_n (length step_exits) b))
  end.
End process.

(** [build(arena, isolate)] *)
Definition folded_stack_trace (nodes : list CallTraceNode) (isolate : bool) : option (list str) :=
  b ← process_call_node isolate nodes (length nodes) builder_default 0;
  Some (build b).

(** ** The reference: trees of calls *)

Inductive tree := Node (name : str) (cost : Z) (calls : list tree).

Definition cost (t : tree) : Z := let 'Node _ c _ := t in c.

(** Entering a tree, its calls, and leaving it. *)
Fixpoint run_tree (b : FoldedStackTraceBuilder) (t : tree) : FoldedStackTraceBuilder :=
  let 'Node name cost calls := t in exit (foldl run_tree (enter b name cost) calls).

(** The entries of a tree below [path], before and after what the calls cost
    is taken off. *)
Fixpoint total_entries (path : list str) (t : tree) : list TraceEntry :=
  let 'Node name c calls := t in
  {| names := path ++ [name]; gas := c |} ::
    mjoin (fmap (M := list) (total_entries (path ++ [name])) calls).

Definition own_gas (c : Z) (calls : list tree) : Z := foldl (λ g t, wrap 64 (g - cost t)) c calls.

Fixpoint own_entries (path : list str) (t : tree) : list TraceEntry :=
  let 'Node name c calls := t in
  {| names := path ++ [name]; gas := own_gas c calls |} ::
    mjoin (fmap (M := list) (own_entries (path ++ [name])) calls).

Definition line (e : TraceEntry) : str :=
  join (lit ";") (names e) ++ lit " " ++ digits 10 (gas e).

(** ** Induction on trees *)

Lemma tree_ind_calls (P : tree → Prop) :
  (∀ name c calls, Forall P calls → P (Node name c calls)) → ∀ t, P t.
Proof.
  intros HP. fix IH 1. intros [name c calls]. apply HP.
  induction calls as [|t calls IHc]; constructor; [apply IH|exact IHc].
Qed.

(** ** The builder follows the tree *)

(** The names on the stack: those of the last entry less the pending exits. *)
Definition stack (b : FoldedStackTraceBuilder) : list str :=
  pop_exits (exits b) (match last (traces b) with Some entry => names entry | None => [] end).

Lemma pop_snoc {A} (l : list A) x : pop (l ++ [x]) = l.
Proof. unfold pop. rewrite length_app, Nat.add_comm. simpl. apply take_app_length. Qed.

Lemma pop_exits_pop n l : pop_exits n (pop l) = pop (pop_exits n l).
Proof. revert l. induction n as [|n IH]; intros l; simpl; auto. Qed.

Lemma stack_enter b l g : stack (enter b l g) = stack b ++ [l].
Proof. unfold stack at 1, enter. simpl. by rewrite last_snoc. Qed.

Lemma stack_exit b : stack (exit b) = pop (stack b).
Proof. unfold stack, exit. simpl. apply pop_exits_pop. Qed.

Lemma traces_enter b l g : traces (enter b l g) = traces b ++ [{| names := stack b ++ [l]; gas := g |}].
Proof. done. Qed.

Lemma run_trees_spec b ts :
  Forall (λ t, ∀ b, traces (run_tree b t) = traces b ++ total_entries (stack b) t ∧
                    stack (run_tree b t) = stack b) ts →
  traces (foldl run_tree b ts) = traces b ++ mjoin (total_entries (stack b) <$> ts) ∧
  stack (foldl run_tree b ts) = stack b.
Proof.
  intros Hts. revert b. induction Hts as [|t ts Ht _ IH]; intros b; [by rewrite app_nil_r|].
  destruct (Ht b) as [Htr Hst]. destruct (IH (run_tree b t)) as [Htrs Hsts]. csimpl.
  by rewrite Htrs, Hsts, Htr, Hst, <-app_assoc.
Qed.

Lemma run_tree_spec t b :
  traces (run_tree b t) = traces b ++ total_entries (stack b) t ∧
  stack (run_tree b t) = stack b.
Proof.
  revert b. induction t as [name c calls IH] using tree_ind_calls. intros b.
  cbn [run_tree]. destruct (run_trees_spec (enter b name c) calls IH) as [Htr Hst].
  rewrite stack_exit, Hst, stack_enter, pop_snoc. split; [|done].
  change (traces (exit ?x)) with (traces x). rewrite Htr, traces_enter, stack_enter.
  by rewrite <-app_assoc.
Qed.

Lemma run_forest_spec b ts :
  traces (foldl run_tree b ts) = traces b ++ mjoin (total_entries (stack b) <$> ts) ∧
  stack (foldl run_tree b ts) = stack b.
Proof. apply run_trees_spec, Forall_forall. intros t _. intros. apply run_tree_spec. Qed.

(** ** What is subtracted *)

(** Entries strictly below a path. *)
Definition below (path : list str) (e : TraceEntry) : Prop :=
  ∃ rest, rest ≠ [] ∧ names e = path ++ rest.

Lemma below_ne path e : below path e → names e ≠ path.
Proof.
  intros (rest & Hne & ->) Heq. apply Hne. apply (app_inv_head path). by rewrite app_nil_r.
Qed.

Lemma below_app path l e : below (path ++ l) e → below path e.
Proof.
  intros (rest & Hne & He). exists (l ++ rest). rewrite app_assoc. split; [|done].
  intros [_ ?]%app_nil. done.
Qed.

Lemma own_entries_below path t : Forall (below path) (own_entries path t).
Proof.
  revert path. induction t as [name c calls IH] using tree_ind_calls. intros path. simpl.
  constructor; [by exists [name]|]. apply Forall_join, Forall_fmap.
  eapply Forall_impl; [exact IH|]. intros t Ht. simpl.
  eapply Forall_impl; [apply Ht|]. intros e. apply below_app.
Qed.

(** The nearest entry with the name of the parent is the parent, when only
    entries below it came since. *)
Lemma subtract_from_parent_below path child D e before :
  Forall (below path) D → names e = path →
  subtract_from_parent path child (D ++ e :: before) =
  D ++ {| names := path; gas := wrap 64 (gas e - child) |} :: before.
Proof.
  intros HD He. induction HD as [|x D Hx _ IH]; simpl.
  - rewrite bool_decide_eq_true_2 by done. by rewrite He.
  - rewrite bool_decide_eq_false_2 by by apply below_ne. by rewrite IH.
Qed.

(** A tree below a parent: its entries get their own gas, the parent pays the
    cost of the tree. *)
Definition subtracts (t : tree) : Prop := ∀ path g D before rest,
  path ≠ [] → Forall (below path) D →
  subtract_loop (D ++ {| names := path; gas := g |} :: before) (total_entries path t ++ rest) =
  subtract_loop (rev (own_entries path t) ++ D ++ {| names := path; gas := wrap 64 (g - cost t) |} :: before)
    rest.

Lemma subtract_forest ts path g D before rest :
  Forall subtracts ts → path ≠ [] → Forall (below path) D →
  subtract_loop (D ++ {| names := path; gas := g |} :: before)
    (mjoin (total_entries path <$> ts) ++ rest) =
  subtract_loop (rev (mjoin (own_entries path <$> ts)) ++ D ++
                 {| names := path; gas := own_gas g ts |} :: before) rest.
Proof.
  intros Hts Hpath. revert g D. induction Hts as [|t ts Ht _ IH]; intros g D HD; [done|].
  csimpl. rewrite <-app_assoc, Ht by done. rewrite (app_assoc (rev _) D), IH.
  - rewrite rev_app_distr. by rewrite <-!app_assoc.
  - apply Forall_app. split; [|done]. apply Forall_rev, own_entries_below.
Qed.

Lemma subtract_calls ts path g before rest :
  Forall subtracts ts → path ≠ [] →
  subtract_loop ({| names := path; gas := g |} :: before)
    (mjoin (total_entries path <$> ts) ++ rest) =
  subtract_loop (rev (mjoin (own_entries path <$> ts)) ++
                 {| names := path; gas := own_gas g ts |} :: before) rest.
Proof. intros. by apply (subtract_forest ts path g []). Qed.

Lemma subtract_tree t : subtracts t.
Proof.
  induction t as [name c calls IH] using tree_ind_calls.
  intros path g D before rest Hpath HD. cbn [total_entries own_entries app subtract_loop].
  assert ((1 <? length (names {| names := path ++ [name]; gas := c |}))%nat = true) as ->.
  { apply Nat.ltb_lt. simpl. rewrite length_app. simpl. destruct path; [done|simpl; lia]. }
  cbn [names gas]. rewrite pop_snoc, subtract_from_parent_below by done. simpl cost.
  rewrite subtract_calls; [|done|by destruct path].
  simpl. by rewrite <-app_assoc.
Qed.

(** A tree at the top. *)
Lemma subtract_root t before rest :
  subtract_loop before (total_entries [] t ++ rest) =
  subtract_loop (rev (own_entries [] t) ++ before) rest.
Proof.
  destruct t as [name c calls]. cbn [total_entries own_entries app subtract_loop].
  cbn [names length Nat.ltb Nat.leb].
  rewrite subtract_calls; [|apply Forall_forall; intros; apply subtract_tree|done].
  simpl. by rewrite <-app_assoc.
Qed.

Lemma subtract_roots ts before rest :
  subtract_loop before (mjoin (total_entries [] <$> ts) ++ rest) =
  subtract_loop (rev (mjoin (own_entries [] <$> ts)) ++ before) rest.
Proof.
  revert before. induction ts as [|t ts IH]; intros before; [done|]. csimpl.
  rewrite <-app_assoc, subtract_root, IH, rev_app_distr. by rewrite <-app_assoc.
Qed.

Lemma build_trees ts :
  build (foldl run_tree builder_default ts) = line <$> mjoin (own_entries [] <$> ts).
Proof.
  unfold build, build_without_subtraction, subtract_children.
  destruct (run_forest_spec builder_default ts) as [-> _]. simpl.
  rewrite <-(app_nil_r (mjoin _)), subtract_roots, app_nil_r. simpl. by rewrite rev_involutive.
Qed.

(** Entering and leaving the calls of any forest gives one line per call,
    in the order in which they were entered: the names on the way to the call
    and the gas it used without that of its own calls, also when calls with
    the same names repeat. *)
Theorem build_own_entries ts :
  build (foldl run_tree builder_default ts) = line <$> mjoin (own_entries [] <$> ts).
Proof. apply build_trees. Qed.

(** ** The gas adds up *)

Lemma own_gas_spec c ts : wrap 64 (own_gas c ts) = wrap 64 (c - zsum cost ts).
Proof.
  unfold own_gas. revert c. induction ts as [|t ts IH]; intros c; simpl; [f_equal; lia|].
  rewrite IH. unfold wrap. rewrite Zminus_mod_idemp_l. f_equal. lia.
Qed.

Lemma own_entries_sum path t : wrap 64 (zsum gas (own_entries path t)) = wrap 64 (cost t).
Proof.
  revert path. induction t as [name c calls IH] using tree_ind_calls. intros path. simpl.
  assert (∀ path, wrap 64 (zsum gas (mjoin (own_entries path <$> calls))) = wrap 64 (zsum cost calls))
    as Hcalls.
  { intros p. induction IH as [|t ts Ht _ IHts]; [done|]. csimpl. rewrite zsum_app.
    by rewrite <-wrap_add_l, Ht, wrap_add_l, <-wrap_add_r, IHts, wrap_add_r. }
  rewrite <-wrap_add_r, Hcalls, wrap_add_r, <-wrap_add_l, own_gas_spec, wrap_add_l.
  f_equal. lia.
Qed.

(** ** Traces are trees

    [opened b0 k b]: [b] comes from [b0] by whole trees and by entering [k]
    frames that are still open. *)
Inductive opened (b0 : FoldedStackTraceBuilder) : nat → FoldedStackTraceBuilder → Prop :=
| opened_start : opened b0 0 b0
| opened_tree k b t : opened b0 k b → opened b0 k (run_tree b t)
| opened_enter k b l g : opened b0 k b → opened b0 (S k) (enter b l g).

Lemma opened_inv b0 n b :
  opened b0 n b →
  match n with
  | O => ∃ ts, b = foldl run_tree b0 ts
  | S k => ∃ b1 l g ts, opened b0 k b1 ∧ b = foldl run_tree (enter b1 l g) ts
  end.
Proof.
  induction 1 as [|k b t _ IH|k b l g Hb IH]; [by exists []| |by exists b, l, g, []].
  destruct k as [|k].
  - destruct IH as (ts & ->). exists (ts ++ [t]). by rewrite foldl_snoc.
  - destruct IH as (b1 & l & g & ts & Hb1 & ->). exists b1, l, g, (ts ++ [t]).
    by rewrite foldl_snoc.
Qed.

(** Leaving the innermost frame closes a tree. *)
Lemma opened_exit b0 k b : opened b0 (S k) b → opened b0 k (exit b).
Proof.
  intros (b1 & l & g & ts & Hb1 & ->)%opened_inv.
  change (exit (foldl run_tree (enter b1 l g) ts)) with (run_tree b1 (Node l g ts)).
  by apply opened_tree.
Qed.

Lemma opened_exit_n b0 n k b : opened b0 (n + k) b → opened b0 k (exit_n n b).
Proof. revert b. induction n as [|n IH]; intros b Hb; simpl; [done|]. by apply IH, opened_exit. Qed.

Section traces.
Context (isolate : bool) (nodes : list CallTraceNode).

Lemma process_step_opened b0 b st i ex b' ex' :
  opened b0 (length ex) b → process_step b st i ex = Some (b', ex') → opened b0 (length ex') b'.
Proof.
  intros Hb. unfold process_step. intros (step & _ & Hs)%bind_Some.
  destruct (internal_call step) as [[f e]|]; [|by simplify_eq].
  apply bind_Some in Hs as (st_end & _ & [= <- <-]).
  rewrite length_app, Nat.add_comm. by apply opened_enter.
Qed.

Lemma exit_previous_opened b0 b ex i b' ex' :
  opened b0 (length ex) b → exit_previous_steps b ex i = (b', ex') → opened b0 (length ex') b'.
Proof.
  unfold exit_previous_steps. intros Hb [= <- <-]. apply opened_exit_n.
  pose proof (length_filter (λ number, (i < number)%nat) ex).
  by replace (_ - _ + _)%nat with (length ex) by lia.
Qed.

Lemma process_member_opened b0 rec node s o s' :
  (∀ b i b', rec b i = Some b' → ∃ t, b' = run_tree b t) →
  opened b0 (length s.2) s.1 → process_member rec node s o = Some s' →
  opened b0 (length s'.2) s'.1.
Proof.
  intros Hrec. destruct s as [b ex], o as [c|i|i]; simpl; intros Hb Hs; [| |by simplify_eq].
  - apply bind_Some in Hs as (cidx & _ & Hs). apply bind_Some in Hs as (b4 & Hc & [= <-]).
    destruct (Hrec _ _ _ Hc) as (t & ->). by apply opened_tree.
  - destruct (exit_previous_steps b ex i) as [b4 ex4] eqn:Hex. destruct s' as [b5 ex5].
    eapply process_step_opened; [|exact Hs]. by eapply exit_previous_opened.
Qed.

(** A call of the trace, with everything below it, is a tree: whatever the
    decoder says about internal calls, every frame that is entered is left
    before the call is left. *)
Lemma process_call_node_tree fuel b idx b' :
  process_call_node isolate nodes fuel b idx = Some b' →
  ∃ node ts, nodes !! idx = Some node ∧
    b' = run_tree b (Node (func_name node) (node_gas isolate node) ts).
Proof.
  revert b idx b'. induction fuel as [|fuel IH]; intros b idx b'; [done|]. cbn [process_call_node].
  intros (node & Hnode & Hloop)%bind_Some.
  apply bind_Some in Hloop as ([b1 ex] & Hloop & [= <-]).
  exists node. set (b0 := enter b (func_name node) (node_gas isolate node)) in *.
  assert (opened b0 (length ex) b1) as Hopen.
  { refine (fold_opt_some (λ s, opened b0 (length s.2) s.1) _ _ _ (b1, ex) _ Hloop _); [|constructor].
    intros s o s' Hs _ Ho. eapply process_member_opened; [|exact Hs|exact Ho].
    intros b2 i b3 Hr. destruct (IH _ _ _ Hr) as (n & ts & _ & ->). eauto. }
  rewrite <-(Nat.add_0_r (length ex)) in Hopen. apply opened_exit_n, opened_inv in Hopen as [ts Hts].
  exists ts. split; [done|]. rewrite Hts. done.
Qed.

(** ** The recursion ends

    Children come after their parents in the arena, and members refer to what
    is there. *)
Definition arena_wf : Prop := ∀ idx node, nodes !! idx = Some node →
  (∀ c, Call c ∈ ordering node → ∃ child, children node !! c = Some child ∧
    (idx < child < length nodes)%nat) ∧
  (∀ i, Step i ∈ ordering node → ∃ step, steps node !! i = Some step ∧
    ∀ f e, internal_call step = Some (f, e) → is_Some (steps node !! e)).

Lemma process_step_total b node i ex idx :
  arena_wf → nodes !! idx = Some node → Step i ∈ ordering node →
  is_Some (process_step b (steps node) i ex).
Proof.
  intros Hwf Hnode Hi. destruct (Hwf _ _ Hnode) as [_ Hsteps].
  destruct (Hsteps _ Hi) as (step & Hstep & Hcall). unfold process_step. rewrite Hstep. simpl.
  destruct (internal_call step) as [[f e]|]; [|eauto].
  destruct (Hcall f e eq_refl) as [st ->]. simpl. eauto.
Qed.

Lemma process_call_node_total fuel b idx :
  arena_wf → (idx < length nodes)%nat → (length nodes - idx <= fuel)%nat →
  is_Some (process_call_node isolate nodes fuel b idx).
Proof.
  intros Hwf. revert b idx. induction fuel as [|fuel IH]; intros b idx Hidx Hfuel; [lia|].
  cbn [process_call_node]. destruct (lookup_lt_is_Some_2 nodes idx Hidx) as [node Hnode].
  rewrite Hnode. simpl.
  destruct (fold_opt_inv (λ _, True) (process_member (process_call_node isolate nodes fuel) node)
              (ordering node) (enter b (func_name node) (node_gas isolate node), []))
    as ([b1 ex] & -> & _); [done| |simpl; eauto].
  intros [b1 ex] o _ Ho. enough (is_Some (process_member (process_call_node isolate nodes fuel) node
    (b1, ex) o)) as [s' ->] by eauto.
  destruct o as [c|i|i]; simpl; [| |eauto].
  - destruct (Hwf _ _ Hnode) as [Hcalls _]. destruct (Hcalls _ Ho) as (child & -> & Hchild). simpl.
    destruct (IH b1 child) as [b2 ->]; [lia..|]. simpl. eauto.
  - destruct (exit_previous_steps b1 ex i) as [b2 ex2]. by eapply process_step_total.
Qed.
End traces.

(** A trace whose nodes refer to later nodes of the arena always folds:
    the lines are those of a tree of calls whose root is the first node, so the
    gas of all lines adds up to the gas of the whole trace (as [u64]). *)
Theorem folded_trace_accounts isolate nodes root :
  arena_wf nodes → head nodes = Some root →
  ∃ ts, let t := Node (func_name root) (node_gas isolate root) ts in
    folded_stack_trace nodes isolate = Some (line <$> own_entries [] t) ∧
    wrap 64 (zsum gas (own_entries [] t)) = wrap 64 (node_gas isolate root).
Proof.
  intros Hwf Hroot. destruct nodes as [|n nodes]; [done|]. injection Hroot as ->.
  destruct (process_call_node_total isolate (root :: nodes) (length (root :: nodes)) builder_default 0)
    as [b Hb]; [done|simpl; lia|lia|].
  destruct (process_call_node_tree _ _ _ _ _ _ Hb) as (node & ts & [= <-] & ->).
  exists ts. intros t. split; [|apply own_entries_sum].
  unfold folded_stack_trace. rewrite Hb. simpl. f_equal.
  pose proof (build_trees [t]) as Hbuild. simpl in Hbuild. by rewrite app_nil_r in Hbuild.
Qed.

(** The example of the source: [top] calls [child_a] and [child_b]. *)
Definition node (name : str) (g d : Z) (cs : list nat) : CallTraceNode :=
  {| is_any_create := false; label := None; signature := Some name; selector := None;
     gas_used := g; gas_refund_counter := 0; depth := d; steps := [];
     children := cs; ordering := imap (λ i _, Call i) cs |}.
Definition sample_nodes : list CallTraceNode :=
  [node (lit "top") 500 0 [1; 2]%nat; node (lit "child_a") 100 1 []; node (lit "child_b") 200 1 []].

Lemma folded_trace_accounts_witness :
  (arena_wf sample_nodes ∧ head sample_nodes = Some (node (lit "top") 500 0 [1; 2]%nat)) ∧
  folded_stack_trace sample_nodes false =
    Some [lit "top 200"; lit "top;child_a 100"; lit "top;child_b 200"] ∧
  ∃ ts, let t := Node (func_name (node (lit "top") 500 0 [1; 2]%nat))
                      (node_gas false (node (lit "top") 500 0 [1; 2]%nat)) ts in
    folded_stack_trace sample_nodes false = Some (line <$> own_entries [] t) ∧
    wrap 64 (zsum gas (own_entries [] t)) =
      wrap 64 (node_gas false (node (lit "top") 500 0 [1; 2]%nat)).
Proof.
  assert (arena_wf sample_nodes) as Hwf.
  { intros idx n Hn. do 3 (destruct idx as [|idx]; [injection Hn as <-; split;
      [intros c Hc; vm_compute in Hc|intros i Hi; vm_compute in Hi];
      repeat (apply elem_of_cons in Hc as [Hc|Hc]; [injection Hc as ->; eexists; split; [reflexivity|simpl; lia]|]);
      repeat (apply elem_of_cons in Hi as [Hi|Hi]; [done|]);
      try (by apply elem_of_nil in Hc); try (by apply elem_of_nil in Hi)|]). done. }
  split; [split; [exact Hwf|reflexivity]|]. split; [reflexivity|].
  exact (folded_trace_accounts false sample_nodes _ Hwf eq_refl).
Defined.
