(* ===== verification/Assertions.v ===== *)
(** * Assertion cheatcodes

    [cheatcodes/src/test/assert.rs]: what every assertion checks, what a failed
    one does, and how [evm/evm/src/executors/mod.rs] tells from that whether a
    test passed. *)
From S2P Require Import Prelude Text.
Local Open Scope Z_scope.

(** ** Comparisons *)

Inductive AssertionKind := KEq | KNe | KGt | KGe | KLt | KLe.

Definition inverse (k : AssertionKind) : AssertionKind :=
  match k with
  | KEq => KNe | KNe => KEq
  | KGt => KLe | KGe => KLt
  | KLt => KGe | KLe => KGt
  end.

Definition to_str (k : AssertionKind) : str :=
  match k with
  | KEq => lit "==" | KNe => lit "!="
  | KGt => lit ">" | KGe => lit ">="
  | KLt => lit "<" | KLe => lit "<="
  end.

Record ComparisonAssertionError (T : Type) := { kind : AssertionKind; left : T; right : T }.
Arguments Build_ComparisonAssertionError {T}.
Arguments kind {T}.
Arguments left {T}.
Arguments right {T}.

(** [f] is the text of a value. *)
Definition format_values {T} (e : ComparisonAssertionError T) (f : T → str) : str :=
  f (left e) ++ blank :: to_str (inverse (kind e)) ++ blank :: f (right e).

Definition failure {T} (k : AssertionKind) (l r : T) : ComparisonAssertionError T :=
  {| kind := k; left := l; right := r |}.

Section equality.
Context `{EqDecision T}.
Definition assert_eq (l r : T) : result (ComparisonAssertionError T) unit :=
  if decide (l = r) then Ok tt else Err (failure KEq l r).
Definition assert_not_eq (l r : T) : result (ComparisonAssertionError T) unit :=
  if decide (l = r) then Err (failure KNe l r) else Ok tt.
End equality.

Definition assert_true (condition : bool) : result unit unit :=
  if condition then Ok tt else Err tt.
Definition assert_false (condition : bool) : result unit unit := assert_true (negb condition).

Definition assert_gt (l r : Z) : result (ComparisonAssertionError Z) unit :=
  if r <? l then Ok tt else Err (failure KGt l r).
Definition assert_ge (l r : Z) : result (ComparisonAssertionError Z) unit :=
  if r <=? l then Ok tt else Err (failure KGe l r).
Definition assert_lt (l r : Z) : result (ComparisonAssertionError Z) unit :=
  if l <? r then Ok tt else Err (failure KLt l r).
Definition assert_le (l r : Z) : result (ComparisonAssertionError Z) unit :=
  if l <=? r then Ok tt else Err (failure KLe l r).

(** ** Approximate equality *)

Definition EQ_REL_DELTA_RESOLUTION : Z := 18.

(** Both integer types share the code of a failure; [real_delta] is [None]
    when it is undefined. *)
Record EqAbsAssertionError := { abs_left : Z; abs_right : Z; abs_max : Z; abs_real : Z }.
Record EqRelAssertionFailure :=
  { rel_left : Z; rel_right : Z; rel_max : Z; rel_real : option Z }.
Inductive EqRelAssertionError := Failure (f : EqRelAssertionFailure) | Overflow.

(** [abs_diff] of two unsigned integers. *)
Definition abs_diff (l r : Z) : Z := if l <? r then r - l else l - r.

(** [into_sign_and_abs]: zero is positive, the magnitude is unsigned. *)
Definition get_delta_int (l r : Z) : Z :=
  let left_abs := Z.abs l in
  let right_abs := Z.abs r in
  if Bool.eqb (l <? 0) (r <? 0) then
    if right_abs <? left_abs then left_abs - right_abs else right_abs - left_abs
  else wrap 256 (left_abs + right_abs).

(** In 512 bits; [right] is not zero. *)
Definition calc_delta_full (diff right : Z) : result EqRelAssertionError Z :=
  let delta := wrap 512 (diff * wrap 512 (10 ^ EQ_REL_DELTA_RESOLUTION)) / right in
  if delta <=? umax 256 then Ok delta else Err Overflow.

Definition uint_assert_approx_eq_abs (l r max_delta : Z) : result EqAbsAssertionError unit :=
  let delta := abs_diff l r in
  if delta <=? max_delta then Ok tt
  else Err {| abs_left := l; abs_right := r; abs_max := max_delta; abs_real := delta |}.

Definition int_assert_approx_eq_abs (l r max_delta : Z) : result EqAbsAssertionError unit :=
  let delta := get_delta_int l r in
  if delta <=? max_delta then Ok tt
  else Err {| abs_left := l; abs_right := r; abs_max := max_delta; abs_real := delta |}.

(** The common part: [diff] and the magnitude of [r] differ by type. *)
Definition assert_approx_eq_rel (l r max_delta diff magnitude : Z) :
    result EqRelAssertionError unit :=
  if r =? 0 then
    if l =? 0 then Ok tt
    else Err (Failure {| rel_left := l; rel_right := r; rel_max := max_delta; rel_real := None |})
  else
    delta ← calc_delta_full diff magnitude;
    if delta <=? max_delta then Ok tt
    else Err (Failure {| rel_left := l; rel_right := r; rel_max := max_delta;
                         rel_real := Some delta |}).
Definition uint_assert_approx_eq_rel (l r max_delta : Z) : result EqRelAssertionError unit :=
  assert_approx_eq_rel l r max_delta (abs_diff l r) r.
Definition int_assert_approx_eq_rel (l r max_delta : Z) : result EqRelAssertionError unit :=
  assert_approx_eq_rel l r max_delta (get_delta_int l r) (Z.abs r).

(** ** The cheatcodes

    The pairs of cheatcodes that [impl_assertions] implements, by the types of
    their arguments: [V] is any Solidity type whose values can be equal, a
    number is signed or not. *)
Section cheatcodes.
Context `{EqDecision V}.

Inductive Assertion :=
| AssertTrue (condition : bool)
| AssertFalse (condition : bool)
| AssertEq (l r : V)
| AssertNotEq (l r : V)
| AssertGt (l r : Z)
| AssertGe (l r : Z)
| AssertLt (l r : Z)
| AssertLe (l r : Z)
| AssertApproxEqAbs (signed : bool) (l r max_delta : Z)
| AssertApproxEqRel (signed : bool) (l r max_percent_delta : Z).

Inductive AssertionError :=
| Condition
| Comparison (e : ComparisonAssertionError V)
| Ordering (e : ComparisonAssertionError Z)
| EqAbs (e : EqAbsAssertionError)
| EqRel (e : EqRelAssertionError).

Definition map_err {E E' A} (f : E → E') (r : result E A) : result E' A :=
  match r with Ok a => Ok a | Err e => Err (f e) end.

(** The body of a cheatcode. *)
Definition check (a : Assertion) : result AssertionError unit :=
  match a with
  | AssertTrue c => map_err (λ _, Condition) (assert_true c)
  | AssertFalse c => map_err (λ _, Condition) (assert_false c)
  | AssertEq l r => map_err Comparison (assert_eq l r)
  | AssertNotEq l r => map_err Comparison (assert_not_eq l r)
  | AssertGt l r => map_err Ordering (assert_gt l r)
  | AssertGe l r => map_err Ordering (assert_ge l r)
  | AssertLt l r => map_err Ordering (assert_lt l r)
  | AssertLe l r => map_err Ordering (assert_le l r)
  | AssertApproxEqAbs false l r d => map_err EqAbs (uint_assert_approx_eq_abs l r d)
  | AssertApproxEqAbs true l r d => map_err EqAbs (int_assert_approx_eq_abs l r d)
  | AssertApproxEqRel false l r d => map_err EqRel (uint_assert_approx_eq_rel l r d)
  | AssertApproxEqRel true l r d => map_err EqRel (int_assert_approx_eq_rel l r d)
  end.

(** What a failed assertion changes: console logs, and the failure slot of the
    cheatcode account.  Writing to the journal may fail. *)
Record Context_ := {
  assertions_revert : bool;
  sstore_fails : bool;
  console_logs : list str;
  global_fail_slot : Z;
}.
Inductive CheatError := Message (s : str) | Journal.

Definition handle_assertion_result_mono (ccx : Context_) (msg : str) :
    Context_ * result CheatError unit :=
  if assertions_revert ccx then (ccx, Err (Message msg))
  else
    let ccx := {| assertions_revert := assertions_revert ccx; sstore_fails := sstore_fails ccx;
                  console_logs := console_logs ccx ++ [msg];
                  global_fail_slot := global_fail_slot ccx |} in
    if sstore_fails ccx then (ccx, Err Journal)
    else ({| assertions_revert := assertions_revert ccx; sstore_fails := sstore_fails ccx;
             console_logs := console_logs ccx; global_fail_slot := 1 |}, Ok tt).

Definition handle_assertion_result (ccx : Context_) (err : AssertionError)
    (error_formatter : option (AssertionError → str)) (error_msg : option str) :
    Context_ * result CheatError unit :=
  let error_msg := default (lit "assertion failed") error_msg in
  let msg := match error_formatter with
             | Some f => error_msg ++ lit ": " ++ f err
             | None => error_msg
             end in
  handle_assertion_result_mono ccx msg.

(** A cheatcode, with its formatter and its own message if it has one. *)
Definition apply_full (a : Assertion) (error_formatter : option (AssertionError → str))
    (error : option str) (ccx : Context_) : Context_ * result CheatError unit :=
  match check a with
  | Ok tt => (ccx, Ok tt)
  | Err err => handle_assertion_result ccx err error_formatter error
  end.
End cheatcodes.
Arguments Assertion : clear implicits.

(** ** The verdict on a test *)

(** What [Executor::is_success_raw] looks at.  [changed_slot] is the failure
    slot in the changes of the call, [stored_slot] in the backend ([None] when
    it cannot be read); [failed_call] is the answer of the test contract's own
    [failed()], [None] when the call failed. *)
Record Executor := {
  has_state_snapshot_failure : bool;
  stored_slot : option Z;
  legacy_assertions : bool;
  accounts_loaded : bool;
  failed_call : option Z → option bool;
}.

Definition is_success_raw (e : Executor) (reverted : bool) (changed_slot : option Z) : bool :=
  if reverted then false
  else if has_state_snapshot_failure e then false
  else if match changed_slot with Some v => negb (v =? 0) | None => false end then false
  else if match stored_slot e with Some v => negb (v =? 0) | None => false end then false
  else if negb (legacy_assertions e) then true
  else if negb (accounts_loaded e) then false
  else match failed_call e changed_slot with Some failed => negb failed | None => true end.

Definition is_success (e : Executor) (reverted : bool) (changed_slot : option Z)
    (should_fail : bool) : bool :=
  xorb should_fail (is_success_raw e reverted changed_slot).

Definition is_raw_call_success (e : Executor) (has_state_snapshot_failure reverted : bool)
    (changed_slot : option Z) (should_fail : bool) : bool :=
  if has_state_snapshot_failure then should_fail
  else is_success e reverted changed_slot should_fail.

(** ** What the assertions mean *)

Definition kind_holds (k : AssertionKind) (l r : Z) : Prop :=
  match k with
  | KEq => l = r | KNe => l ≠ r
  | KGt => l > r | KGe => l >= r
  | KLt => l < r | KLe => l <= r
  end.

Section meaning.
Context `{EqDecision V}.

(** [l] is within [d] / 10^18 of [r], rounded down, relative to [r]. *)
Definition within (l r d : Z) : Prop :=
  if decide (r = 0) then l = 0 else Z.abs (l - r) * 10 ^ 18 < (d + 1) * Z.abs r.

Definition holds (a : Assertion V) : Prop :=
  match a with
  | AssertTrue c => c = true
  | AssertFalse c => c = false
  | AssertEq l r => l = r
  | AssertNotEq l r => l ≠ r
  | AssertGt l r => l > r
  | AssertGe l r => l >= r
  | AssertLt l r => l < r
  | AssertLe l r => l <= r
  | AssertApproxEqAbs _ l r d => Z.abs (l - r) <= d
  | AssertApproxEqRel _ l r d => within l r d
  end.

(** The arguments are values of their types. *)
Definition number_in (signed : bool) (x : Z) : Prop := if signed then in_i 256 x else in_u 256 x.
Definition well_typed (a : Assertion V) : Prop :=
  match a with
  | AssertApproxEqAbs s l r d | AssertApproxEqRel s l r d =>
      number_in s l ∧ number_in s r ∧ in_u 256 d
  | _ => True
  end.

Lemma abs_diff_spec l r : abs_diff l r = Z.abs (l - r).
Proof. unfold abs_diff. z_case; lia. Qed.

Lemma get_delta_int_spec l r : in_i 256 l → in_i 256 r → get_delta_int l r = Z.abs (l - r).
Proof.
  intros Hl Hr. unfold get_delta_int.
  destruct (Z.ltb_spec l 0), (Z.ltb_spec r 0); simpl; try (z_case; lia);
    (rewrite wrap_id; [lia|lia|width_lia]).
Qed.

Lemma approx_rel_spec l r d diff magnitude :
  diff = Z.abs (l - r) → magnitude = Z.abs r → 0 <= diff <= umax 256 → in_u 256 d →
  assert_approx_eq_rel l r d diff magnitude = Ok tt ↔ within l r d.
Proof.
  intros Hdiff Hmag Hrange Hd. unfold assert_approx_eq_rel, within, calc_delta_full.
  destruct (Z.eqb_spec r 0) as [->|Hr]; [rewrite decide_True by done; z_case; naive_solver|].
  rewrite decide_False by done. rewrite <-Hdiff, <-Hmag.
  assert (0 < magnitude) as Hpos by lia.
  assert (wrap 512 (diff * wrap 512 (10 ^ EQ_REL_DELTA_RESOLUTION)) = diff * 10 ^ 18) as ->.
  { change (10 ^ EQ_REL_DELTA_RESOLUTION) with 1000000000000000000.
    change (10 ^ 18) with 1000000000000000000.
    rewrite (wrap_id 512 1000000000000000000) by (lia || width_lia).
    apply wrap_id; [lia|width_lia]. }
  assert (diff * 10 ^ 18 / magnitude <= d ↔ diff * 10 ^ 18 < (d + 1) * magnitude) as Hiff.
  { rewrite <-Z.lt_succ_r. split; intros Hlt.
    - pose proof (Z.mul_succ_div_gt (diff * 10 ^ 18) magnitude Hpos). nia.
    - apply Z.div_lt_upper_bound; lia. }
  destruct (Z.leb_spec (diff * 10 ^ 18 / magnitude) (umax 256)) as [Hle|Hgt]; simpl.
  - rewrite <-Hiff. z_case; split; done || lia.
  - split; [done|]. rewrite <-Hiff. unfold in_u in Hd. lia.
Qed.

Lemma map_err_ok {E E' A} (f : E → E') (r : result E A) a : map_err f r = Ok a ↔ r = Ok a.
Proof. destruct r; simpl; split; congruence. Qed.

Lemma check_holds a : well_typed a → check a = Ok tt ↔ holds a.
Proof.
  destruct a as [c|c|l r|l r|l r|l r|l r|l r|s l r d|s l r d]; simpl; intros Ht.
  1, 2: destruct c; simpl; split; congruence.
  1: unfold assert_eq; case_decide; simpl; split; congruence.
  1: unfold assert_not_eq; case_decide; simpl; split; congruence.
  1-4: unfold assert_gt, assert_ge, assert_lt, assert_le; z_case; simpl;
    split; (done || lia || (intros; exfalso; lia)).
  - destruct Ht as (Hl & Hr & Hd). destruct s; rewrite map_err_ok;
      unfold uint_assert_approx_eq_abs, int_assert_approx_eq_abs; simpl in *.
    + rewrite get_delta_int_spec by done. z_case; split; (done || lia || (intros; exfalso; lia)).
    + rewrite abs_diff_spec. z_case; split; (done || lia || (intros; exfalso; lia)).
  - destruct Ht as (Hl & Hr & Hd). destruct s; rewrite map_err_ok; simpl in *.
    + apply approx_rel_spec; [by apply get_delta_int_spec|done| |done].
      rewrite get_delta_int_spec by done. width_lia.
    + apply approx_rel_spec; [apply abs_diff_spec|unfold in_u in *; lia| |done].
      rewrite abs_diff_spec. unfold in_u in *. lia.
Qed.

(** An assertion passes exactly when what it asserts is true of the numbers
    its arguments stand for, at the edges of their types too: approximate
    comparisons do not overflow, and a relative difference is rounded down. *)
Theorem check_exact a :
  well_typed a → (check a = Ok tt ↔ holds a) ∧ (∀ e, check a = Err e → ¬ holds a).
Proof.
  intros Ht. split; [by apply check_holds|]. intros e He Ha.
  apply check_holds in Ha; [|done]. congruence.
Qed.

(** The comparison that the message of a failed one shows is true. *)
Lemma comparison_message_true k l r e :
  match k with
  | KEq => assert_eq l r | KNe => assert_not_eq l r
  | KGt => assert_gt l r | KGe => assert_ge l r
  | KLt => assert_lt l r | KLe => assert_le l r
  end = Err e → e = failure k l r ∧ kind_holds (inverse k) l r.
Proof.
  unfold assert_eq, assert_not_eq, assert_gt, assert_ge, assert_lt, assert_le.
  destruct k; simpl; repeat z_case; try case_decide; intros [= <-]; (split; [done|]); (done || lia).
Qed.

(** ** Failing assertions fail the test

    The assertions of a test, in order; a cheatcode that fails reverts the
    test, and with it what the test wrote. *)
Fixpoint run_test (formatter : option (AssertionError → str)) (error : option str)
    (l : list (Assertion V)) (ccx : Context_) : Context_ * bool :=
  match l with
  | [] => (ccx, false)
  | a :: l =>
      match apply_full a formatter error ccx with
      | (ccx, Ok tt) => run_test formatter error l ccx
      | (ccx, Err _) => (ccx, true)
      end
  end.

Lemma run_test_pass formatter error l ccx :
  Forall holds l → Forall well_typed l → run_test formatter error l ccx = (ccx, false).
Proof.
  induction 1 as [|a l Ha _ IH]; intros Ht; [done|]. apply Forall_cons in Ht as [Hta Ht].
  simpl. unfold apply_full. apply check_holds in Ha; [|done]. rewrite Ha. by apply IH.
Qed.

(** Once the slot is set it stays set, or the test reverts. *)
Lemma run_test_slot formatter error l ccx ccx' reverted :
  run_test formatter error l ccx = (ccx', reverted) →
  global_fail_slot ccx = 1 → global_fail_slot ccx' = 1.
Proof.
  revert ccx. induction l as [|a l IH]; intros ccx; simpl; [by intros [= <- <-]|].
  unfold apply_full, handle_assertion_result, handle_assertion_result_mono.
  destruct (check a) as [[]|e]; [apply IH|].
  destruct (assertions_revert ccx); [by intros [= <- <-]|]. simpl.
  destruct (sstore_fails ccx); simpl; [by intros [= <- <-]|]. intros Hrun _. by eapply IH.
Qed.

Lemma run_test_fail formatter error l ccx ccx' reverted :
  Forall well_typed l → ¬ Forall holds l → run_test formatter error l ccx = (ccx', reverted) →
  reverted = true ∨ global_fail_slot ccx' = 1.
Proof.
  revert ccx. induction l as [|a l IH]; intros ccx Ht Hl; [by destruct Hl|].
  apply Forall_cons in Ht as [Hta Ht]. simpl. unfold apply_full.
  destruct (check a) as [[]|e] eqn:Ha.
  - apply IH; [done|]. intros Hall. apply Hl. constructor; [by apply check_holds|done].
  - unfold handle_assertion_result, handle_assertion_result_mono.
    destruct (assertions_revert ccx); [intros [= <- <-]; by left|]. simpl.
    destruct (sstore_fails ccx); simpl; [intros [= <- <-]; by left|].
    intros Hrun. right. by eapply run_test_slot.
Qed.

(** A test passes exactly when all its assertions hold, whether a failed
    assertion reverts or sets the failure slot and lets the test go on. *)
Theorem test_passes_iff formatter error l ccx ccx' reverted e :
  Forall well_typed l → global_fail_slot ccx = 0 →
  has_state_snapshot_failure e = false → default 0 (stored_slot e) = 0 →
  legacy_assertions e = false → run_test formatter error l ccx = (ccx', reverted) →
  is_success e reverted (Some (global_fail_slot ccx')) false = true ↔ Forall holds l.
Proof.
  intros Ht Hslot Hsnap Hstored Hlegacy Hrun.
  unfold is_success, is_success_raw. rewrite Hsnap, Hlegacy. simpl.
  split.
  - intros Hpass. destruct (decide (Forall (λ a, is_ok (check a) = true) l)) as [Hall|Hall].
    + rewrite Forall_forall in *. intros a Ha. apply check_holds; [by apply Ht|].
      specialize (Hall _ Ha). by destruct (check a) as [[]|].
    + exfalso. destruct (run_test_fail formatter error l ccx ccx' reverted Ht) as [->|Hs]; [|done|done|].
      * intros Hh. apply Hall. rewrite Forall_forall in *. intros a Ha.
        by rewrite (proj2 (check_holds a (Ht _ Ha)) (Hh _ Ha)).
      * rewrite Hs in Hpass. by destruct reverted.
  - intros Hh. rewrite run_test_pass in Hrun by done. injection Hrun as <- <-.
    rewrite Hslot. simpl. destruct (stored_slot e) as [v|]; simpl in Hstored; by subst.
Qed.
End meaning.

Definition no_fork : Executor :=
  {| has_state_snapshot_failure := false; stored_slot := Some 0; legacy_assertions := false;
     accounts_loaded := true; failed_call := λ _, None |}.
Definition keep_going : Context_ :=
  {| assertions_revert := false; sstore_fails := false; console_logs := []; global_fail_slot := 0 |}.
Definition some_assertions : list (Assertion Z) :=
  [AssertEq 3 3; AssertApproxEqAbs true (imin 256) (imax 256) (umax 256);
   AssertApproxEqRel false 101 100 (10 ^ 16)].

Lemma some_assertions_typed : Forall well_typed some_assertions.
Proof. repeat constructor; simpl; width_lia. Qed.

Lemma check_exact_witness :
  well_typed (AssertApproxEqAbs true (imin 256) (imax 256) (umax 256) : Assertion Z) ∧
  check (AssertApproxEqAbs true (imin 256) (imax 256) (umax 256) : Assertion Z) = Ok tt ∧
  ((check (AssertApproxEqAbs true (imin 256) (imax 256) (umax 256) : Assertion Z) = Ok tt ↔
    holds (AssertApproxEqAbs true (imin 256) (imax 256) (umax 256) : Assertion Z)) ∧
   ∀ e, check (AssertApproxEqAbs true (imin 256) (imax 256) (umax 256) : Assertion Z) = Err e →
     ¬ holds (AssertApproxEqAbs true (imin 256) (imax 256) (umax 256) : Assertion Z)).
Proof.
  assert (well_typed (AssertApproxEqAbs true (imin 256) (imax 256) (umax 256) : Assertion Z)) as Ht
    by (simpl; width_lia).
  split; [exact Ht|]. split; [reflexivity|]. exact (check_exact _ Ht).
Defined.

Lemma test_passes_iff_witness :
  Forall well_typed some_assertions ∧ global_fail_slot keep_going = 0 ∧
  run_test None None some_assertions keep_going = (keep_going, false) ∧
  (is_success no_fork false (Some (global_fail_slot keep_going)) false = true ↔
   Forall holds some_assertions).
Proof.
  assert (run_test None None some_assertions keep_going = (keep_going, false)) as Hrun
    by (vm_compute; reflexivity).
  split; [exact some_assertions_typed|]. split; [reflexivity|]. split; [exact Hrun|].
  exact (test_passes_iff None None some_assertions keep_going keep_going false no_fork
           some_assertions_typed eq_refl eq_refl eq_refl eq_refl Hrun).
Defined.
