(* ===== verification/Retry.v ===== *)
(** * Retries and averages

    [common/src/retry.rs] and [common/src/calc.rs]. *)
From S2P Require Import Prelude.
Local Open Scope Z_scope.

(** ** Retries

    The callback of a loop is what its successive invocations return; waiting
    is an event of the trace, so that the loops can be followed step by step. *)
Inductive RetryError (E : Type) := Continue (e : E) | RetryE (e : E) | Break (e : E).
Arguments Continue {E}.
Arguments RetryE {E}.
Arguments Break {E}.

Record Retry := { retries : Z; delay : Z }.
Definition Retry_new (retries delay : Z) : Retry := {| retries := retries; delay := delay |}.
Definition new_no_delay (retries : Z) : Retry := Retry_new retries 0.

Section retry.
Context {E T : Type}.

(** What a loop does besides calling: it logs (as a warning or not) with the
    tries that remain, and sleeps. *)
Inductive Event := Log (e : E) (warn : bool) (remaining : Z) | Sleep (delay : Z).

Definition log (r : Retry) (e : E) (warn : bool) : Event := Log e warn (retries r).

(** [self.retries] is [u32] and not zero. *)
Definition handle_err (r : Retry) (e : E) : Retry * list Event :=
  let r := {| retries := wrap 32 (retries r - 1); delay := delay r |} in (r, [log r e true]).

Definition sleep (r : Retry) : list Event := if delay r =? 0 then [] else [Sleep (delay r)].

(** One turn of the loop of [run] and of [run_async]: it returns, or goes on. *)
Definition run_turn (r : Retry) (res : result E T) : (Retry * list Event) + result E T :=
  match res with
  | Err e => if 0 <? retries r then let '(r, l) := handle_err r e in inl (r, l ++ sleep r)
             else inr (Err e)
  | res => inr res
  end.

(** One turn of [run_async_until_break]. *)
Definition until_break_turn (r : Retry) (res : result (RetryError E) T) :
    (Retry * list Event) + result E T :=
  match res with
  | Err (Continue e) => inl (r, log r e false :: sleep r)
  | Err (RetryE e) =>
      if 0 <? retries r then let '(r, l) := handle_err r e in inl (r, l ++ sleep r)
      else inr (Err e)
  | Err (Break e) => inr (Err e)
  | Ok t => inr (Ok t)
  end.

(** The loop: [callback k] is what the invocation [k] returns.  The result
    comes with the number of invocations and the trace. *)
Definition loop {R} (turn : Retry → R → (Retry * list Event) + result E T) (callback : nat → R) :
    nat → Retry → nat → list Event → option (result E T * nat * list Event) :=
  fix go (fuel : nat) (r : Retry) (k : nat) (trace : list Event) :=
    match fuel with
    | O => None
    | S fuel =>
        match turn r (callback k) with
        | inr res => Some (res, S k, trace)
        | inl (r, l) => go fuel r (S k) (trace ++ l)
        end
    end.

(** Every turn that goes on uses up a retry. *)
Definition run (r : Retry) (callback : nat → result E T) :
    option (result E T * nat * list Event) :=
  loop run_turn callback (S (Z.to_nat (retries r))) r 0 [].
Definition run_async : Retry → (nat → result E T) → option (result E T * nat * list Event) := run.

(** A callback may ask to go on for ever: [fuel] bounds the invocations. *)
Definition run_async_until_break (fuel : nat) (r : Retry)
    (callback : nat → result (RetryError E) T) : option (result E T * nat * list Event) :=
  loop until_break_turn callback fuel r 0 [].

(** ** What the loops return *)

(** The first invocation from [k] on, among [n], that succeeds, else the last. *)
Fixpoint first_ok (callback : nat → result E T) (k n : nat) : nat :=
  match n with
  | O => k
  | S n => if is_ok (callback k) then k else first_ok callback (S k) n
  end.

Lemma loop_run_spec callback n r k trace :
  retries r = Z.of_nat n → in_u 32 (retries r) →
  ∃ trace', loop run_turn callback (S n) r k trace =
            Some (callback (first_ok callback k n), S (first_ok callback k n), trace').
Proof.
  revert r k trace. induction n as [|n IH]; intros r k trace Hr Hu.
  - exists trace. simpl. destruct (callback k) as [t|e]; simpl; [done|]. by rewrite Hr.
  - cbn [loop first_ok]. unfold run_turn. destruct (callback k) as [t|e] eqn:Hk.
    + exists trace. simpl. by rewrite Hk.
    + assert ((0 <? retries r) = true) as -> by lia. simpl.
      assert (wrap 32 (retries r - 1) = Z.of_nat n) as Hw
        by (rewrite wrap_id; [lia|lia|unfold in_u in *; lia]).
      apply (IH {| retries := wrap 32 (retries r - 1); delay := delay r |} (S k)); simpl; rewrite Hw;
        [done|unfold in_u in *; lia].
Qed.

Lemma first_ok_bound callback k n : (k <= first_ok callback k n <= k + n)%nat.
Proof.
  revert k. induction n as [|n IH]; intros k; simpl; [lia|].
  destruct (is_ok (callback k)); [lia|]. specialize (IH (S k)). lia.
Qed.

Lemma first_ok_before callback k n j :
  (k <= j < first_ok callback k n)%nat → is_ok (callback j) = false.
Proof.
  revert k. induction n as [|n IH]; intros k; simpl; [lia|].
  destruct (is_ok (callback k)) eqn:Hk; [lia|]. intros Hj.
  destruct (decide (j = k)) as [->|]; [done|]. apply (IH (S k)). lia.
Qed.

Lemma first_ok_last callback k n :
  is_ok (callback (first_ok callback k n)) = true ∨ first_ok callback k n = (k + n)%nat.
Proof.
  revert k. induction n as [|n IH]; intros k; simpl; [right; lia|].
  destruct (is_ok (callback k)) eqn:Hk; [by left|].
  destruct (IH (S k)) as [?|?]; [by left|right; lia].
Qed.

(** A retried operation always comes to an end, after at most one attempt
    more than it has retries.  It returns what its last attempt returned; all
    attempts before failed, and when it fails there was no retry left. *)
Theorem run_ends r callback :
  in_u 32 (retries r) →
  ∃ n trace, run r callback = Some (callback n, S n, trace) ∧
    Z.of_nat n <= retries r ∧
    (∀ j, (j < n)%nat → is_ok (callback j) = false) ∧
    (is_ok (callback n) = true ∨ Z.of_nat n = retries r).
Proof.
  intros Hr. destruct (loop_run_spec callback (Z.to_nat (retries r)) r 0 []) as [trace Hrun];
    [unfold in_u in Hr; lia|done|].
  exists (first_ok callback 0 (Z.to_nat (retries r))), trace. split; [exact Hrun|].
  pose proof (first_ok_bound callback 0 (Z.to_nat (retries r))).
  unfold in_u in Hr. split; [lia|]. split.
  - intros j Hj. by apply (first_ok_before callback 0 (Z.to_nat (retries r))); lia.
  - destruct (first_ok_last callback 0 (Z.to_nat (retries r))); [by left|right; lia].
Qed.

(** ** Going on for ever *)

(** The invocations that use up a retry, and those that end the loop. *)
Definition asks_retry (res : result (RetryError E) T) : bool :=
  match res with Err (RetryE _) => true | _ => false end.
Definition is_final (res : result (RetryError E) T) : bool :=
  match res with Ok _ | Err (Break _) => true | _ => false end.

(** The loop has ended by the invocation [n]: one of them was final, or more
    than [m] asked for a retry. *)
Fixpoint ended (callback : nat → result (RetryError E) T) (k n m : nat) : bool :=
  match n with
  | O => false
  | S n =>
      is_final (callback k) ||
      (if asks_retry (callback k) then match m with O => true | S m => ended callback (S k) n m end
       else ended callback (S k) n m)
  end.

Lemma until_break_ended callback n r m k trace :
  retries r = Z.of_nat m → in_u 32 (retries r) →
  is_Some (loop until_break_turn callback n r k trace) ↔ ended callback k n m = true.
Proof.
  revert r m k trace. induction n as [|n IH]; intros r m k trace Hr Hu.
  { simpl. split; [by intros [? ?]|done]. }
  cbn [loop ended]. unfold until_break_turn.
  destruct (callback k) as [t|[e|e|e]]; simpl; [split; eauto| | |split; eauto].
  - by apply IH.
  - destruct m as [|m].
    + assert ((0 <? retries r) = false) as -> by lia. split; eauto.
    + assert ((0 <? retries r) = true) as -> by lia. simpl.
      assert (wrap 32 (retries r - 1) = Z.of_nat m) as Hw
        by (rewrite wrap_id; [lia|lia|unfold in_u in *; lia]).
      apply IH; simpl; rewrite Hw; [done|unfold in_u in *; lia].
Qed.

Lemma ended_spec callback k n m :
  ended callback k n m = true ↔
  (∃ i, i ∈ seq k n ∧ is_final (callback i) = true) ∨
  Z.of_nat m < zcount (λ i, asks_retry (callback i)) (seq k n).
Proof.
  revert k m. induction n as [|n IH]; intros k m.
  { simpl. split; [done|]. intros [(i & ?%elem_of_nil & _)|Hlt]; [done|]. unfold zcount in Hlt. simpl in Hlt. lia. }
  cbn [ended seq]. rewrite orb_true_iff.
  assert (zcount (λ i, asks_retry (callback i)) (k :: seq (S k) n) =
          (if asks_retry (callback k) then 1 else 0) +
          zcount (λ i, asks_retry (callback i)) (seq (S k) n)) as -> by done.
  pose proof (zcount_nonneg (λ i, asks_retry (callback i)) (seq (S k) n)) as Hnn.
  assert ((∃ i, i ∈ k :: seq (S k) n ∧ is_final (callback i) = true) ↔
          is_final (callback k) = true ∨ ∃ i, i ∈ seq (S k) n ∧ is_final (callback i) = true) as ->
    by set_solver.
  destruct (asks_retry (callback k)) eqn:Hk; [destruct m as [|m]|].
  - split; [intros _; right; lia|auto].
  - rewrite IH. split; [intros [?|[?|?]]|intros [[?|?]|?]]; auto; right; [|right]; lia.
  - rewrite IH, Z.add_0_l. tauto.
Qed.

(** A loop that may be asked to go on for ever does return as soon as, and
    only if, the operation succeeds, breaks, or asks for more retries than
    there are: going on uses up no retry. *)
Theorem until_break_returns r callback :
  in_u 32 (retries r) →
  ((∃ fuel, is_Some (run_async_until_break fuel r callback)) ↔
   (∃ i, is_final (callback i) = true) ∨
   ∃ n, retries r < zcount (λ i, asks_retry (callback i)) (seq 0 n)) ∧
  (∀ n, is_Some (run_async_until_break n r callback) ↔
   (∃ i, (i < n)%nat ∧ is_final (callback i) = true) ∨
   retries r < zcount (λ i, asks_retry (callback i)) (seq 0 n)).
Proof.
  intros Hr.
  assert (∀ n, is_Some (run_async_until_break n r callback) ↔
   (∃ i, (i < n)%nat ∧ is_final (callback i) = true) ∨
   retries r < zcount (λ i, asks_retry (callback i)) (seq 0 n)) as Hn.
  { intros n. unfold run_async_until_break.
    assert (retries r = Z.of_nat (Z.to_nat (retries r))) as Hm by (unfold in_u in Hr; lia).
    rewrite (until_break_ended _ _ _ _ _ _ Hm Hr), ended_spec, <-Hm.
    split; (intros [(i & Hi & ?)|?]; [left; exists i; split; [|done]; rewrite elem_of_seq in *; lia|by right]). }
  split; [|exact Hn]. split.
  - intros [n [(i & _ & ?)|?]%Hn]; eauto.
  - intros [[i Hi]|[n Hlt]]; [exists (S i)|exists n]; apply Hn; [left; exists i; split; [lia|done]|by right].
Qed.
End retry.

(** ** Averages *)

(** Sums in [u128]. *)
Definition mean (values : list Z) : Z :=
  match values with
  | [] => 0
  | _ => wrap 64 (foldl (λ s x, wrap 128 (s + x)) 0 values / Z.of_nat (length values))
  end.

(** [None] is an index out of range; the sum of the two middle values is in
    [u64]. *)
Definition median_sorted (values : list Z) : option Z :=
  match values with
  | [] => Some 0
  | _ =>
      let len := length values in
      let mid := (len / 2)%nat in
      if (len mod 2 =? 0)%nat then
        a ← values !! (mid - 1)%nat;
        b ← values !! mid;
        Some (wrap 64 (a + b) / 2)
      else values !! mid
  end.

Lemma foldl_sum_wrap values s :
  0 <= s → Forall (in_u 64) values → s + Z.of_nat (length values) * 2 ^ 64 <= umax 128 →
  foldl (λ s x, wrap 128 (s + x)) s values = s + zsum id values.
Proof.
  intros Hs Hv. revert s Hs. induction Hv as [|x values Hx _ IH]; intros s Hs Hb; simpl; [lia|].
  simpl in Hb. rewrite wrap_id; [|lia|unfold in_u, umax in *; lia].
  rewrite IH; [unfold id; lia|unfold in_u in Hx; lia|]. unfold in_u, umax in *. lia.
Qed.

Lemma zsum_bound values :
  Forall (in_u 64) values → 0 <= zsum id values <= Z.of_nat (length values) * umax 64.
Proof. induction 1 as [|x values Hx _ IH]; simpl; [lia|]. unfold in_u, id in *. lia. Qed.

(** The mean of a slice that fits in memory is its exact average, rounded
    down: neither the sum nor the result wraps. *)
Theorem mean_exact values :
  Forall (in_u 64) values → values ≠ [] → Z.of_nat (length values) < 2 ^ 63 →
  mean values = zsum id values / Z.of_nat (length values) ∧ in_u 64 (mean values).
Proof.
  intros Hv Hne Hlen. pose proof (zsum_bound values Hv) as Hsum.
  assert (0 < Z.of_nat (length values)) as Hpos by (destruct values; [done|simpl; lia]).
  assert (mean values = zsum id values / Z.of_nat (length values)) as Heq.
  { assert (mean values = wrap 64 (foldl (λ s x, wrap 128 (s + x)) 0 values /
                                   Z.of_nat (length values))) as -> by by destruct values.
    rewrite foldl_sum_wrap by (done || width_lia). rewrite Z.add_0_l. apply wrap_id; [lia|].
    split; [apply Z.div_pos; lia|]. apply Z.div_le_upper_bound; lia. }
  split; [done|]. rewrite Heq. split; [apply Z.div_pos; lia|apply Z.div_le_upper_bound; lia].
Qed.

(** The median of two large values wraps. *)
Lemma median_wraps : median_sorted [umax 64 - 1; umax 64] = Some ((umax 64 - 2) / 2).
Proof. reflexivity. Qed.

(** Without a wrap it is the middle of a sorted slice. *)
Lemma median_total values : is_Some (median_sorted values).
Proof.
  unfold median_sorted. destruct values as [|v values]; [eauto|].
  set (l := v :: values). assert (0 < length l)%nat by (simpl; lia).
  assert (length l / 2 < length l)%nat as Hmid by (apply Nat.div_lt; lia).
  destruct (lookup_lt_is_Some_2 l (length l / 2 - 1)) as [a ->]; [lia|].
  destruct (lookup_lt_is_Some_2 l (length l / 2)) as [b ->]; [lia|]. simpl.
  destruct (_ =? _)%nat; eauto.
Qed.

Definition flaky (k : nat) : result Z Z := if (k <? 2)%nat then Err (Z.of_nat k) else Ok 7.

Lemma run_ends_witness :
  in_u 32 (retries (Retry_new 5 3)) ∧
  run (Retry_new 5 3) flaky =
    Some (Ok 7, 3%nat, [Log 0 true 4; Sleep 3; Log 1 true 3; Sleep 3]) ∧
  ∃ n trace, run (Retry_new 5 3) flaky = Some (flaky n, S n, trace) ∧
    Z.of_nat n <= retries (Retry_new 5 3) ∧
    (∀ j, (j < n)%nat → is_ok (flaky j) = false) ∧
    (is_ok (flaky n) = true ∨ Z.of_nat n = retries (Retry_new 5 3)).
Proof.
  assert (in_u 32 (retries (Retry_new 5 3))) as Hr by (simpl; width_lia).
  split; [exact Hr|]. split; [reflexivity|]. exact (run_ends (Retry_new 5 3) flaky Hr).
Defined.

Definition pending (k : nat) : result (RetryError Z) Z :=
  if (k <? 3)%nat then Err (Continue 0) else Ok 7.

Lemma until_break_returns_witness :
  in_u 32 (retries (new_no_delay 0)) ∧
  run_async_until_break 4 (new_no_delay 0) pending =
    Some (Ok 7, 4%nat, [Log 0 false 0; Log 0 false 0; Log 0 false 0]) ∧
  ((∃ fuel, is_Some (run_async_until_break fuel (new_no_delay 0) pending)) ↔
   (∃ i, is_final (pending i) = true) ∨
   ∃ n, retries (new_no_delay 0) < zcount (λ i, asks_retry (pending i)) (seq 0 n)) ∧
  (∀ n, is_Some (run_async_until_break n (new_no_delay 0) pending) ↔
   (∃ i, (i < n)%nat ∧ is_final (pending i) = true) ∨
   retries (new_no_delay 0) < zcount (λ i, asks_retry (pending i)) (seq 0 n)).
Proof.
  assert (in_u 32 (retries (new_no_delay 0))) as Hr by (simpl; width_lia).
  split; [exact Hr|]. split; [reflexivity|]. exact (until_break_returns (new_no_delay 0) pending Hr).
Defined.

Lemma mean_exact_witness :
  (Forall (in_u 64) [0; umax 64; 6] ∧ [0; umax 64; 6] ≠ [] ∧ Z.of_nat (length [0; umax 64; 6]) < 2 ^ 63) ∧
  mean [0; umax 64; 6] = zsum id [0; umax 64; 6] / Z.of_nat (length [0; umax 64; 6]) ∧
  in_u 64 (mean [0; umax 64; 6]).
Proof.
  assert (Forall (in_u 64) [0; umax 64; 6]) as H1 by (repeat constructor; width_lia).
  assert ([0; umax 64; 6] ≠ []) as H2 by discriminate.
  assert (Z.of_nat (length [0; umax 64; 6]) < 2 ^ 63) as H3 by reflexivity.
  split; [exact (conj H1 (conj H2 H3))|]. exact (mean_exact [0; umax 64; 6] H1 H2 H3).
Defined.
