(* ===== verification/StateDb.v ===== *)
(** * Databases that can be snapshotted

    The state databases of the node: [anvil/src/eth/backend/db.rs] (the trait
    [MaybeFullDatabase] and its implementation for revm's [CacheDB]),
    [anvil/src/eth/backend/mem/in_memory_db.rs], [fork_db.rs] and
    [evm/core/src/fork/database.rs] (the forked ones), and the numbered
    snapshots of [evm/core/src/state_snapshot.rs].

    revm's [CacheDB], [DbAccount] and [AccountInfo] enter as the records of
    their public fields, which this code takes apart and rebuilds; how revm
    reads a [CacheDB] is a parameter. *)
From S2P Require Import Prelude.
Local Open Scope Z_scope.

Abbreviation Address := Z.
Abbreviation B256 := Z.
Abbreviation U256 := Z.
Abbreviation Bytecode := (list Z).
Abbreviation Storage := (gmap U256 U256).

Record AccountInfo := {
  balance : U256;
  nonce : Z;
  code_hash : B256;
  account_id : option Z;
  code : option Bytecode;
}.

Inductive AccountState := NotExisting | Touched | StorageCleared | Unchanged.

Record DbAccount := { info : AccountInfo; account_state : AccountState; storage : Storage }.

Definition with_code (c : option Bytecode) (i : AccountInfo) : AccountInfo :=
  {| balance := balance i; nonce := nonce i; code_hash := code_hash i;
     account_id := account_id i; code := c |}.

(** [StateSnapshot] *)
Record StateSnapshot := {
  s_accounts : gmap Address AccountInfo;
  s_storage : gmap Address Storage;
  s_block_hashes : gmap U256 B256;
}.
Definition snapshot_default : StateSnapshot :=
  {| s_accounts := ∅; s_storage := ∅; s_block_hashes := ∅ |}.

(** ** The interface

    [MaybeFullDatabase]: what the node asks of a database it may move out of
    memory.  [clear_into_state_snapshot] takes [&mut self] and returns the
    snapshot. *)
Class MaybeFullDatabase (DB : Type) := {
  maybe_as_full_db : DB → option (gmap Address DbAccount);
  clear_into_state_snapshot : DB → StateSnapshot * DB;
  read_as_state_snapshot : DB → StateSnapshot;
  init_from_state_snapshot : StateSnapshot → DB → DB;
}.
Definition clear {DB} `{MaybeFullDatabase DB} (d : DB) : DB := (clear_into_state_snapshot d).2.

(** What a snapshot promises to the node: the database that is read back, any
    number of times, is the one that was moved out.  [snapshot_ok] is what the
    database must satisfy for that. *)
Class LawfulDatabase (DB : Type) `{MaybeFullDatabase DB, Equiv DB} := {
  snapshot_ok : DB → Prop;
  lawful_equiv :: Equivalence (≡@{DB});
  reinit : ∀ d s d' k, snapshot_ok d → clear_into_state_snapshot d = (s, d') →
    Nat.iter (S k) (init_from_state_snapshot s) d' ≡ d ∧
    snapshot_ok (Nat.iter (S k) (init_from_state_snapshot s) d');
}.

(** ** [CacheDB] *)
Record CacheDB (ExtDB : Type) := {
  accounts : gmap Address DbAccount;
  contracts : gmap B256 Bytecode;
  block_hashes : gmap U256 B256;
  db : ExtDB;
}.
Arguments accounts {ExtDB}.
Arguments contracts {ExtDB}.
Arguments block_hashes {ExtDB}.
Arguments db {ExtDB}.

Section cache_db.
Context {ExtDB : Type} `{HashIter}.

(** One turn of the loop over [db_accounts]: [contracts.remove] gives the code
    to the first account with that hash. *)
Definition clear_account (db_accounts : gmap Address DbAccount)
    (st : gmap Address AccountInfo * gmap Address Storage * gmap B256 Bytecode) (addr : Address) :
    gmap Address AccountInfo * gmap Address Storage * gmap B256 Bytecode :=
  let '(accs, account_storage, contracts) := st in
  match db_accounts !! addr with
  | Some acc =>
      (<[addr := with_code (contracts !! code_hash (info acc)) (info acc)]> accs,
       <[addr := storage acc]> account_storage,
       delete (code_hash (info acc)) contracts)
  | None => st
  end.

Definition cache_clear_into_state_snapshot (d : CacheDB ExtDB) : StateSnapshot * CacheDB ExtDB :=
  let '(accs, account_storage, contracts) :=
    foldl (clear_account (accounts d)) (∅, ∅, contracts d) (hash_iter (dom (accounts d))) in
  ({| s_accounts := accs; s_storage := account_storage; s_block_hashes := block_hashes d |},
   {| accounts := ∅; contracts := contracts; block_hashes := ∅; db := db d |}).

Definition cache_read_as_state_snapshot (d : CacheDB ExtDB) : StateSnapshot :=
  {| s_accounts := (λ acc, with_code (contracts d !! code_hash (info acc)) (info acc)) <$> accounts d;
     s_storage := storage <$> accounts d;
     s_block_hashes := block_hashes d |}.

(** One turn of the loop over [accounts]. *)
Definition init_account (s_accounts : gmap Address AccountInfo)
    (st : CacheDB ExtDB * gmap Address Storage) (addr : Address) :
    CacheDB ExtDB * gmap Address Storage :=
  let '(d, storage) := st in
  match s_accounts !! addr with
  | Some acc =>
      ({| accounts := <[addr := {| info := with_code None acc; account_state := Unchanged;
                                   storage := default ∅ (storage !! addr) |}]> (accounts d);
          contracts := match code acc with
                       | Some c => <[code_hash acc := c]> (contracts d)
                       | None => contracts d
                       end;
          block_hashes := block_hashes d;
          db := db d |}, delete addr storage)
  | None => st
  end.

Definition cache_init_from_state_snapshot (s : StateSnapshot) (d : CacheDB ExtDB) : CacheDB ExtDB :=
  let '(d, _) := foldl (init_account (s_accounts s)) (d, s_storage s)
                   (hash_iter (dom (s_accounts s))) in
  {| accounts := accounts d; contracts := contracts d; block_hashes := s_block_hashes s; db := db d |}.

(** [insert_block_hash] of [Db] *)
Definition cache_insert_block_hash (n : U256) (h : B256) (d : CacheDB ExtDB) : CacheDB ExtDB :=
  {| accounts := accounts d; contracts := contracts d; block_hashes := <[n := h]> (block_hashes d);
     db := db d |}.

#[export] Instance cache_full : MaybeFullDatabase (CacheDB ExtDB) := {|
  maybe_as_full_db := λ d, Some (accounts d);
  clear_into_state_snapshot := cache_clear_into_state_snapshot;
  read_as_state_snapshot := cache_read_as_state_snapshot;
  init_from_state_snapshot := cache_init_from_state_snapshot;
|}.
End cache_db.

(** ** Snapshots with a number *)

Record StateSnapshots (T : Type) := { id : U256; state_snapshots : gmap U256 T }.
Arguments id {T}.
Arguments state_snapshots {T}.

Section snapshots.
Context {T : Type}.
Definition StateSnapshots_default : StateSnapshots T := {| id := 0; state_snapshots := ∅ |}.
Definition get (s : StateSnapshots T) (i : U256) : option T := state_snapshots s !! i.

Definition with_snapshots (m : gmap U256 T) (s : StateSnapshots T) : StateSnapshots T :=
  {| id := id s; state_snapshots := m |}.

(** [while to_revert < self.id { .. }]; the sum of [ruint] wraps. *)
Fixpoint remove_from (fuel : nat) (to_revert : U256) (s : StateSnapshots T) : StateSnapshots T :=
  if to_revert <? id s then
    match fuel with
    | O => s
    | S fuel =>
        remove_from fuel (wrap 256 (to_revert + 1))
          (with_snapshots (delete to_revert (state_snapshots s)) s)
    end
  else s.
Definition remove (i : U256) (s : StateSnapshots T) : option T * StateSnapshots T :=
  let to_revert := wrap 256 (i + 1) in
  (get s i, remove_from (Z.to_nat (id s - to_revert)) to_revert
              (with_snapshots (delete i (state_snapshots s)) s)).
Definition snapshots_clear (s : StateSnapshots T) : StateSnapshots T := with_snapshots ∅ s.
Definition remove_at (i : U256) (s : StateSnapshots T) : option T * StateSnapshots T :=
  (get s i, with_snapshots (delete i (state_snapshots s)) s).
(** [next_id] and the insertion. *)
Definition insert (t : T) (s : StateSnapshots T) : U256 * StateSnapshots T :=
  (id s, {| id := u_saturating_add 256 (id s) 1; state_snapshots := <[id s := t]> (state_snapshots s) |}).
Definition insert_at (t : T) (i : U256) (s : StateSnapshots T) : StateSnapshots T :=
  with_snapshots (<[i := t]> (state_snapshots s)) s.
End snapshots.

(** ** [MemDb] *)
Section mem_db.
Context {Inner : Type}.
Record MemDb := { inner : Inner; db_snapshots : StateSnapshots Inner }.
Definition MemDb_new (d : Inner) : MemDb := {| inner := d; db_snapshots := StateSnapshots_default |}.

Inductive RevertStateSnapshotAction := RevertRemove | RevertKeep.

Definition snapshot_state (d : MemDb) : U256 * MemDb :=
  let '(i, s) := insert (inner d) (db_snapshots d) in
  (i, {| inner := inner d; db_snapshots := s |}).

Definition revert_state (i : U256) (action : RevertStateSnapshotAction) (d : MemDb) : bool * MemDb :=
  match remove i (db_snapshots d) with
  | (Some s, snaps) =>
      (true, {| inner := s;
                db_snapshots := match action with
                                | RevertKeep => insert_at s i snaps
                                | RevertRemove => snaps
                                end |})
  | (None, snaps) => (false, {| inner := inner d; db_snapshots := snaps |})
  end.

(** The database of a block: [current_state] keeps no snapshots. *)
Definition current_state (d : MemDb) : MemDb := MemDb_new (inner d).
End mem_db.
Arguments MemDb Inner : clear implicits.

#[export] Instance mem_full {Inner} `{MaybeFullDatabase Inner} : MaybeFullDatabase (MemDb Inner) := {|
  maybe_as_full_db := λ d, maybe_as_full_db (inner d);
  clear_into_state_snapshot := λ d,
    let '(s, i) := clear_into_state_snapshot (inner d) in
    (s, {| inner := i; db_snapshots := db_snapshots d |});
  read_as_state_snapshot := λ d, read_as_state_snapshot (inner d);
  init_from_state_snapshot := λ s d,
    {| inner := init_from_state_snapshot s (inner d); db_snapshots := db_snapshots d |};
|}.

(** ** The database of a forked block

    [ForkDbStateSnapshot] *)
Section fork_db.
Context {ExtDB : Type} `{HashIter}.
Record ForkDb := { local : CacheDB ExtDB; remote : StateSnapshot }.

(** [a.extend(b)] *)
Definition snapshot_extend (s l : StateSnapshot) : StateSnapshot :=
  {| s_accounts := s_accounts l ∪ s_accounts s; s_storage := s_storage l ∪ s_storage s;
     s_block_hashes := s_block_hashes l ∪ s_block_hashes s |}.

#[export] Instance fork_full : MaybeFullDatabase ForkDb := {|
  maybe_as_full_db := λ d, Some (accounts (local d));
  clear_into_state_snapshot := λ d,
    let '(l, local') := clear_into_state_snapshot (local d) in
    (snapshot_extend (remote d) l, {| local := local'; remote := snapshot_default |});
  read_as_state_snapshot := λ d, snapshot_extend (remote d) (read_as_state_snapshot (local d));
  init_from_state_snapshot := λ s d, {| local := local d; remote := s |};
|}.

(** How revm reads a [CacheDB]. *)
Variable cache_basic_ref : CacheDB ExtDB → Address → option AccountInfo.
Variable cache_storage_ref : CacheDB ExtDB → Address → U256 → U256.
Variable cache_block_hash_ref : CacheDB ExtDB → Z → B256.
Variable cache_code_by_hash_ref : CacheDB ExtDB → B256 → Bytecode.

Definition get_storage (d : ForkDb) (a : Address) (index : U256) : option U256 :=
  acc ← accounts (local d) !! a; storage acc !! index.
Definition basic_ref (d : ForkDb) (a : Address) : option AccountInfo :=
  match accounts (local d) !! a with
  | Some acc => Some (info acc)
  | None =>
      match s_accounts (remote d) !! a with
      | Some acc => Some acc
      | None => cache_basic_ref (local d) a
      end
  end.
Definition code_by_hash_ref (d : ForkDb) (h : B256) : Bytecode := cache_code_by_hash_ref (local d) h.
Definition storage_ref (d : ForkDb) (a : Address) (index : U256) : U256 :=
  let fallback := match get_storage d a index with
                  | Some v => v
                  | None => cache_storage_ref (local d) a index
                  end in
  match accounts (local d) !! a with
  | Some acc => match storage acc !! index with Some v => v | None => fallback end
  | None => fallback
  end.
Definition block_hash_ref (d : ForkDb) (n : Z) : B256 :=
  match s_block_hashes (remote d) !! n with
  | Some h => h
  | None => cache_block_hash_ref (local d) n
  end.
End fork_db.
Arguments ForkDb ExtDB : clear implicits.

(** [ForkedDatabase]: what was fetched from the remote ([db], the
    [BlockchainDb]) and the database that is written over it. *)
Section forked_database.
Context {ExtDB : Type}.
Record ForkedDatabase := {
  cache_db : CacheDB ExtDB;
  fetched : StateSnapshot;
  fork_snapshots : StateSnapshots (ForkDb ExtDB);
}.

Definition create_state_snapshot (d : ForkedDatabase) : ForkDb ExtDB :=
  {| local := cache_db d; remote := fetched d |}.
Definition insert_state_snapshot (d : ForkedDatabase) : U256 * ForkedDatabase :=
  let '(i, s) := insert (create_state_snapshot d) (fork_snapshots d) in
  (i, {| cache_db := cache_db d; fetched := fetched d; fork_snapshots := s |}).
Definition revert_state_snapshot (i : U256) (action : RevertStateSnapshotAction) (d : ForkedDatabase) :
    bool * ForkedDatabase :=
  match remove_at i (fork_snapshots d) with
  | (Some s, snaps) =>
      (true, {| cache_db := local s; fetched := remote s;
                fork_snapshots := match action with
                                  | RevertKeep => insert_at s i snaps
                                  | RevertRemove => snaps
                                  end |})
  | (None, snaps) => (false, {| cache_db := cache_db d; fetched := fetched d; fork_snapshots := snaps |})
  end.

#[export] Instance forked_full : MaybeFullDatabase ForkedDatabase := {|
  maybe_as_full_db := λ d, Some (accounts (cache_db d));
  clear_into_state_snapshot := λ d,
    (fetched d, {| cache_db := cache_db d; fetched := snapshot_default; fork_snapshots := fork_snapshots d |});
  read_as_state_snapshot := fetched;
  init_from_state_snapshot := λ s d,
    {| cache_db := cache_db d; fetched := s; fork_snapshots := fork_snapshots d |};
|}.

(** Nothing that was written over the fork is cleared. *)
Lemma forked_clear_keeps_writes (d : ForkedDatabase) : cache_db (clear d) = cache_db d.
Proof. done. Qed.
End forked_database.
Arguments ForkedDatabase ExtDB : clear implicits.

(** [get_code_with_state]: the code of an account is the one its entry holds
    or the one filed under its hash. *)
Definition account_code {ExtDB} (d : CacheDB ExtDB) (i : AccountInfo) : option Bytecode :=
  match code i with Some c => Some c | None => contracts d !! code_hash i end.

(** ** The round trip of [CacheDB] *)
Section cache_roundtrip.
Context {ExtDB : Type} `{HashIter}.
Implicit Types (d e : CacheDB ExtDB) (s : StateSnapshot).

(** What a client sees of an account: its entry with the code that
    [get_code_with_state] finds, and its slots. *)
Definition account_view d (a : Address) : option (AccountInfo * Storage) :=
  acc ← accounts d !! a; Some (with_code (account_code d (info acc)) (info acc), storage acc).

#[export] Instance cache_equiv : Equiv (CacheDB ExtDB) := λ d e,
  (∀ a, account_view d a = account_view e a) ∧ block_hashes d = block_hashes e ∧ db d = db e.

#[export] Instance cache_equivalence : Equivalence (≡@{CacheDB ExtDB}).
Proof.
  split; [done|by intros d e (? & ? & ?)|].
  intros d1 d2 d3 (Hv & Hb & Hd) (Hv' & Hb' & Hd').
  repeat split; [|congruence..]. intros a. by rewrite Hv.
Qed.

(** revm files the code of every account under its hash. *)
Definition code_indexed d : Prop := ∀ a acc c,
  accounts d !! a = Some acc → code (info acc) = Some c → contracts d !! code_hash (info acc) = Some c.

(** [s] holds the accounts of [d], each code at least once. *)
Record snapshot_of d s : Prop := {
  so_dom : dom (s_accounts s) = dom (accounts d);
  so_account : ∀ a acc, accounts d !! a = Some acc →
    ∃ c, s_accounts s !! a = Some (with_code c (info acc)) ∧
      (c = None ∨ c = contracts d !! code_hash (info acc));
  so_storage : ∀ a, s_storage s !! a = storage <$> accounts d !! a;
  so_code : ∀ a acc c, accounts d !! a = Some acc → contracts d !! code_hash (info acc) = Some c →
    ∃ a' i, s_accounts s !! a' = Some i ∧ code_hash i = code_hash (info acc) ∧ code i = Some c;
  so_hashes : s_block_hashes s = block_hashes d;
}.

(** The hashes of the accounts in [l]. *)
Definition hashes d (l : list Address) : gset B256 :=
  list_to_set (omap (λ a, (λ acc, code_hash (info acc)) <$> accounts d !! a) l).

Lemma elem_of_hashes d l h :
  h ∈ hashes d l ↔ ∃ a acc, a ∈ l ∧ accounts d !! a = Some acc ∧ code_hash (info acc) = h.
Proof.
  unfold hashes. rewrite elem_of_list_to_set, list_elem_of_omap. split.
  - intros (a & Ha & (acc & Hacc & ->)%fmap_Some). eauto.
  - intros (a & acc & Ha & Hacc & <-). exists a. by rewrite Hacc.
Qed.

Lemma hashes_snoc d l a acc :
  accounts d !! a = Some acc → hashes d (l ++ [a]) = hashes d l ∪ {[code_hash (info acc)]}.
Proof.
  intros Ha. unfold hashes. rewrite omap_app, list_to_set_app_L. simpl. rewrite Ha. simpl. set_solver.
Qed.

(** What the loop of [clear_into_state_snapshot] has done after [l]. *)
Record cleared d (l : list Address) (accs : gmap Address AccountInfo) (sto : gmap Address Storage)
    (cs : gmap B256 Bytecode) : Prop := {
  cl_dom : dom accs = list_to_set l;
  cl_account : ∀ a acc, a ∈ l → accounts d !! a = Some acc →
    ∃ c, accs !! a = Some (with_code c (info acc)) ∧
      (c = None ∨ c = contracts d !! code_hash (info acc));
  cl_storage : ∀ a, sto !! a = if decide (a ∈ l) then storage <$> accounts d !! a else None;
  cl_contracts : ∀ h, cs !! h = if decide (h ∈ hashes d l) then None else contracts d !! h;
  cl_code : ∀ h c, h ∈ hashes d l → contracts d !! h = Some c →
    ∃ a i, accs !! a = Some i ∧ code_hash i = h ∧ code i = Some c;
}.

Lemma clear_step d l x acc accs sto cs :
  x ∉ l → accounts d !! x = Some acc → cleared d l accs sto cs →
  cleared d (l ++ [x]) (<[x := with_code (cs !! code_hash (info acc)) (info acc)]> accs)
    (<[x := storage acc]> sto) (delete (code_hash (info acc)) cs).
Proof.
  intros Hx Hacc [Hdom Haccs Hsto Hcs Hcode].
  assert (accs !! x = None) as Hnone by (apply not_elem_of_dom; set_solver).
  split.
  - rewrite dom_insert_L. set_solver.
  - intros a acc' Ha Hacc'. destruct (decide (a = x)) as [->|Hne].
    + rewrite Hacc in Hacc'. simplify_eq. rewrite lookup_insert_eq. eexists. split; [done|].
      rewrite Hcs. case_decide; auto.
    + rewrite lookup_insert_ne by done. apply Haccs; [set_solver|done].
  - intros a. destruct (decide (a = x)) as [->|Hne].
    + rewrite lookup_insert_eq, decide_True, Hacc by set_solver. done.
    + rewrite lookup_insert_ne, Hsto by done. repeat case_decide; set_solver.
  - intros h. rewrite (hashes_snoc _ _ _ _ Hacc).
    destruct (decide (h = code_hash (info acc))) as [->|Hne].
    + rewrite lookup_delete_eq, decide_True by set_solver. done.
    + rewrite lookup_delete_ne, Hcs by done. repeat case_decide; set_solver.
  - intros h c. rewrite (hashes_snoc _ _ _ _ Hacc). intros Hh Hc.
    destruct (decide (h ∈ hashes d l)) as [Hl|Hl].
    + destruct (Hcode h c Hl Hc) as (a & i & Hi & ? & ?). exists a, i.
      rewrite lookup_insert_ne by (intros ->; congruence). done.
    + assert (h = code_hash (info acc)) as -> by set_solver.
      eexists x, _. rewrite lookup_insert_eq. split; [done|]. split; [done|]. simpl.
      by rewrite Hcs, decide_False by done.
Qed.

Lemma clear_loop d l :
  NoDup l → (∀ a, a ∈ l → is_Some (accounts d !! a)) →
  let '(accs, sto, cs) := foldl (clear_account (accounts d)) (∅, ∅, contracts d) l in
  cleared d l accs sto cs.
Proof.
  induction l as [|x l IH] using rev_ind; intros Hnd Hl; simpl.
  { split; try done; set_solver. }
  apply NoDup_app in Hnd as (Hnd & Hx & _). rewrite foldl_snoc.
  destruct (Hl x) as [acc Hacc]; [set_solver|].
  destruct (foldl _ _ l) as [[accs sto] cs]. simpl. rewrite Hacc.
  apply clear_step; [|done|apply IH; [done|set_solver]].
  intros Hxl. eapply Hx; [exact Hxl|left].
Qed.

Lemma clear_snapshot_of d s d' :
  clear_into_state_snapshot d = (s, d') →
  snapshot_of d s ∧ accounts d' = ∅ ∧ db d' = db d ∧ block_hashes d' = ∅ ∧
  ∀ a acc, accounts d !! a = Some acc → contracts d' !! code_hash (info acc) = None.
Proof.
  simpl. unfold cache_clear_into_state_snapshot.
  pose proof (clear_loop d (hash_iter (dom (accounts d)))) as Hloop.
  destruct (foldl _ _ _) as [[accs sto] cs]. intros [= <- <-].
  assert (∀ a acc, accounts d !! a = Some acc → a ∈ hash_iter (dom (accounts d))) as Hin.
  { intros a acc Ha. apply elem_of_hash_iter, elem_of_dom. eauto. }
  destruct Hloop as [Hdom Haccs Hsto Hcs Hcode]; [apply NoDup_hash_iter| |].
  { intros a ?%elem_of_hash_iter. by apply elem_of_dom. }
  assert (∀ a acc, accounts d !! a = Some acc →
    code_hash (info acc) ∈ hashes d (hash_iter (dom (accounts d)))) as Hhash.
  { intros a acc Ha. apply elem_of_hashes. exists a, acc. eauto. }
  split; [split; simpl|split; [done|split; [done|split; [done|]]]]; simpl.
  - rewrite Hdom. apply set_eq. intros a. by rewrite elem_of_list_to_set, elem_of_hash_iter.
  - eauto.
  - intros a. rewrite Hsto. case_decide as Ha; [done|].
    rewrite elem_of_hash_iter in Ha. apply not_elem_of_dom in Ha. by rewrite Ha.
  - eauto.
  - done.
  - intros a acc Ha. rewrite Hcs, decide_True; eauto.
Qed.

Lemma read_snapshot_of d : snapshot_of d (read_as_state_snapshot d).
Proof.
  split; simpl.
  - apply dom_fmap_L.
  - intros a acc Ha. rewrite lookup_fmap, Ha. simpl. eauto.
  - intros a. apply lookup_fmap.
  - intros a acc c Ha Hc. exists a, (with_code (Some c) (info acc)).
    rewrite lookup_fmap, Ha. simpl. by rewrite Hc.
  - done.
Qed.

(** What the loop of [init_from_state_snapshot] has done after [l]. *)
Record restored (s : StateSnapshot) d0 (l : list Address) d (sto : gmap Address Storage) : Prop := {
  re_account : ∀ a, accounts d !! a =
    if decide (a ∈ l)
    then (λ acc, {| info := with_code None acc; account_state := Unchanged;
                    storage := default ∅ (s_storage s !! a) |}) <$> s_accounts s !! a
    else accounts d0 !! a;
  re_storage : ∀ a, a ∉ l → sto !! a = s_storage s !! a;
  re_coded : ∀ a acc c, a ∈ l → s_accounts s !! a = Some acc → code acc = Some c →
    is_Some (contracts d !! code_hash acc);
  re_contracts : ∀ h c, contracts d !! h = Some c →
    contracts d0 !! h = Some c ∨
    ∃ a acc, s_accounts s !! a = Some acc ∧ code_hash acc = h ∧ code acc = Some c;
  re_rest : db d = db d0;
}.

Lemma restore_step s d0 l x acc d sto :
  x ∉ l → s_accounts s !! x = Some acc → restored s d0 l d sto →
  let '(d', sto') := init_account (s_accounts s) (d, sto) x in restored s d0 (l ++ [x]) d' sto'.
Proof.
  intros Hx Hacc [Haccs Hsto Hcoded Hcs Hdb]. unfold init_account. rewrite Hacc. split; simpl.
  - intros a. destruct (decide (a = x)) as [->|Hne].
    + rewrite lookup_insert_eq, decide_True, Hacc by set_solver. simpl. by rewrite Hsto.
    + rewrite lookup_insert_ne, Haccs by done. repeat case_decide; set_solver.
  - intros a Ha. rewrite lookup_delete_ne by set_solver. apply Hsto. set_solver.
  - intros a acc' c Ha Hacc' Hc. destruct (decide (a = x)) as [->|Hne].
    + rewrite Hacc in Hacc'. simplify_eq. rewrite Hc. rewrite lookup_insert_eq. eauto.
    + assert (is_Some (contracts d !! code_hash acc')) as Hs by (eapply Hcoded; set_solver).
      destruct (code acc) as [cx|]; [|done].
      destruct (decide (code_hash acc = code_hash acc')) as [->|?];
        [rewrite lookup_insert_eq; eauto|by rewrite lookup_insert_ne by done].
  - intros h c. destruct (code acc) as [cx|] eqn:Hcx; [|apply Hcs].
    intros [[<- ->]|[_ Hh]]%lookup_insert_Some; [right; eauto|auto].
  - done.
Qed.

Lemma init_loop s d0 :
  ∃ l, (∀ a, a ∈ l ↔ is_Some (s_accounts s !! a)) ∧
  ∃ d sto, restored s d0 l d sto ∧
    init_from_state_snapshot s d0 =
    {| accounts := accounts d; contracts := contracts d; block_hashes := s_block_hashes s; db := db d |}.
Proof.
  exists (hash_iter (dom (s_accounts s))). split.
  { intros a. by rewrite elem_of_hash_iter, elem_of_dom. }
  simpl. unfold cache_init_from_state_snapshot.
  assert (∀ l, NoDup l → (∀ a, a ∈ l → is_Some (s_accounts s !! a)) →
    let '(d, sto) := foldl (init_account (s_accounts s)) (d0, s_storage s) l in
    restored s d0 l d sto) as Hloop.
  { induction l as [|x l IH] using rev_ind; intros Hnd Hl; simpl.
    { split; try done; try set_solver; auto. }
    apply NoDup_app in Hnd as (Hnd & Hx & _). rewrite foldl_snoc.
    destruct (Hl x) as [acc Hacc]; [set_solver|].
    destruct (foldl _ _ l) as [d sto].
    apply (restore_step _ _ _ _ acc); [|done|apply IH; [done|set_solver]].
    intros Hxl. eapply Hx; [exact Hxl|left]. }
  specialize (Hloop (hash_iter (dom (s_accounts s)))).
  destruct (foldl _ _ _) as [d sto]. exists d, sto. split; [|done].
  apply Hloop; [apply NoDup_hash_iter|]. intros a ?%elem_of_hash_iter. by apply elem_of_dom.
Qed.

(** A database that was cleared, or restored some times since. *)
Definition clearish d e : Prop :=
  db e = db d ∧ dom (accounts e) ⊆ dom (accounts d) ∧
  ∀ a acc c, accounts d !! a = Some acc → contracts e !! code_hash (info acc) = Some c →
    contracts d !! code_hash (info acc) = Some c.

Lemma init_snapshot_of d s e :
  code_indexed d → snapshot_of d s → clearish d e →
  init_from_state_snapshot s e ≡ d ∧ code_indexed (init_from_state_snapshot s e) ∧
  clearish d (init_from_state_snapshot s e).
Proof.
  intros Hok [Hdom Hacc Hsto Hcode Hhash] (Hdb & Hde & Hce).
  destruct (init_loop s e) as (l & Hl & d' & sto & [Raccs _ Rcoded Rcs Rdb] & ->).
  assert (∀ a, a ∈ l ↔ is_Some (accounts d !! a)) as Hl'.
  { intros a. rewrite Hl, <-!elem_of_dom. by rewrite Hdom. }
  assert (∀ a acc, accounts d !! a = Some acc →
    contracts d' !! code_hash (info acc) = contracts d !! code_hash (info acc)) as Hcontracts.
  { intros a acc Ha. destruct (contracts d' !! code_hash (info acc)) as [c|] eqn:Hc.
    - destruct (Rcs _ _ Hc) as [He|(a' & i & Hi & Hh & Hci)]; [symmetry; by eapply Hce|].
      assert (is_Some (accounts d !! a')) as [acc' Ha'] by (apply Hl', Hl; eauto).
      destruct (Hacc _ _ Ha') as (c' & Hi' & Hc'). simplify_eq/=.
      rewrite <-Hh. destruct Hc'; congruence.
    - destruct (contracts d !! code_hash (info acc)) as [c|] eqn:Hcd; [|done].
      destruct (Hcode _ _ _ Ha Hcd) as (a' & i & Hi & Hh & Hci).
      destruct (Rcoded a' i c) as [c' Hc']; [apply Hl; eauto|done|done|]. congruence. }
  split; [split; [|split]|split; [|split; [|split]]]; simpl; [|done|congruence| |congruence| |].
  - intros a. unfold account_view. simpl. rewrite Raccs.
    destruct (decide (a ∈ l)) as [Ha|Ha]; pose proof Ha as Hs; rewrite Hl' in Hs.
    + destruct Hs as [acc Hs]. destruct (Hacc _ _ Hs) as (c & Hi & Hc). rewrite Hs, Hi. simpl.
      rewrite Hsto, Hs. unfold account_code. simpl. rewrite (Hcontracts _ _ Hs).
      destruct (code (info acc)) as [ci|] eqn:Hci; [by rewrite (Hok _ _ _ Hs Hci)|done].
    + assert (accounts d !! a = None) as -> by by apply eq_None_not_Some.
      assert (accounts e !! a = None) as ->; [|done].
      apply not_elem_of_dom. intros ?%Hde. apply Hs. by apply elem_of_dom.
  - intros a acc c. simpl. rewrite Raccs. case_decide as Ha.
    + by intros (i & _ & ->)%fmap_Some.
    + intros Hea. exfalso. apply Ha, Hl', elem_of_dom, Hde, elem_of_dom. eauto.
  - intros a. rewrite !elem_of_dom, Raccs, <-Hl'. case_decide; [done|].
    intros Ha. rewrite Hl', <-elem_of_dom. apply Hde. by apply elem_of_dom.
  - intros a acc c Ha. by rewrite (Hcontracts _ _ Ha).
Qed.

Lemma clear_clearish d s e : clear_into_state_snapshot d = (s, e) → clearish d e.
Proof.
  intros (_ & Ha & Hdb & _ & Hc)%clear_snapshot_of. split; [done|]. rewrite Ha. split; [set_solver|].
  intros a acc c Hacc. by rewrite (Hc _ _ Hacc).
Qed.

#[export] Instance cache_lawful : LawfulDatabase (CacheDB ExtDB).
Proof.
  refine {| snapshot_ok := code_indexed |}. intros d s d' k Hok Hclear.
  pose proof (clear_snapshot_of _ _ _ Hclear) as [Hs _].
  assert (clearish d (Nat.iter k (init_from_state_snapshot s) d')) as Hk.
  { induction k as [|k IH]; simpl; [by eapply clear_clearish|]. by apply init_snapshot_of. }
  destruct (init_snapshot_of d s _ Hok Hs Hk) as (? & ? & _). done.
Defined.

(** A database is unchanged by a trip through a snapshot: one that is
    cleared into a snapshot and restored from it, any number of times, holds
    the same accounts with the same code, slots and block hashes as before, in
    whatever order the hash tables are iterated and however many accounts
    share a code; the same holds when a snapshot that was only read is loaded
    into an empty database. *)
Theorem snapshot_roundtrip d s d' k e :
  code_indexed d →
  clear_into_state_snapshot d = (s, d') →
  accounts e = ∅ → contracts e = ∅ → db e = db d →
  Nat.iter (S k) (init_from_state_snapshot s) d' ≡ d ∧
  init_from_state_snapshot (read_as_state_snapshot d) e ≡ d.
Proof.
  intros Hok Hclear Ha Hc Hdb. split; [by apply reinit|].
  apply init_snapshot_of; [done|apply read_snapshot_of|].
  split; [done|]. rewrite Ha, Hc. split; [set_solver|]. done.
Qed.
End cache_roundtrip.

(** Two accounts with one code: only the first that is met gets it in the
    snapshot. *)
Module SnapshotExample.
Definition account (b : Z) : DbAccount :=
  {| info := {| balance := b; nonce := 1; code_hash := 77; account_id := None; code := None |};
     account_state := Touched; storage := {[0 := b]} |}.
Definition sample : CacheDB unit :=
  {| accounts := {[1 := account 10; 2 := account 20]}; contracts := {[77 := [96; 0]]};
     block_hashes := {[0 := 5]}; db := tt |}.
Definition empty : CacheDB unit :=
  {| accounts := ∅; contracts := ∅; block_hashes := ∅; db := tt |}.

Lemma snapshot_roundtrip_witness :
  code_indexed sample ∧
  (let s := (@clear_into_state_snapshot _ (@cache_full unit elements_iter) sample).1 in
   (code <$> s_accounts s !! 1, code <$> s_accounts s !! 2) = (Some None, Some (Some [96; 0]))) ∧
  Nat.iter 2 (@init_from_state_snapshot _ (@cache_full unit elements_iter)
                (@clear_into_state_snapshot _ (@cache_full unit elements_iter) sample).1)
    (@clear_into_state_snapshot _ (@cache_full unit elements_iter) sample).2 ≡ sample ∧
  @init_from_state_snapshot _ (@cache_full unit elements_iter)
    (@read_as_state_snapshot _ (@cache_full unit elements_iter) sample) empty ≡ sample.
Proof.
  assert (code_indexed sample) as Hok.
  { intros a acc c Ha Hc. change (accounts sample) with ({[1 := account 10; 2 := account 20]} : gmap Z DbAccount) in Ha.
    by apply lookup_insert_Some in Ha as [[_ <-]|[_ [_ <-]%lookup_singleton_Some]]. }
  split; [exact Hok|]. split; [vm_compute; reflexivity|].
  exact (@snapshot_roundtrip unit elements_iter sample _ _ 1%nat empty Hok
           (surjective_pairing _) eq_refl eq_refl eq_refl).
Defined.
End SnapshotExample.

(** [MemDb] keeps the promise of the database in it. *)
Section mem_lawful.
Context {Inner : Type} `{LawfulDatabase Inner}.
#[export] Instance mem_equiv : Equiv (MemDb Inner) := λ d e,
  inner d ≡ inner e ∧ db_snapshots d = db_snapshots e.

#[export] Instance mem_equivalence : Equivalence (≡@{MemDb Inner}).
Proof.
  split; [done|by intros d e [? ?]|].
  intros d1 d2 d3 [? ?] [? ?]. split; [by etransitivity|congruence].
Qed.

Lemma mem_iter k s (d : MemDb Inner) :
  Nat.iter k (init_from_state_snapshot s) d =
  {| inner := Nat.iter k (init_from_state_snapshot s) (inner d); db_snapshots := db_snapshots d |}.
Proof. induction k as [|k IH]; [by destruct d|]. by rewrite !Nat.iter_succ, IH. Qed.

#[export] Instance mem_lawful : LawfulDatabase (MemDb Inner).
Proof.
  refine {| snapshot_ok := λ d, snapshot_ok (inner d) |}. intros [d snaps] s d' k Hok Hclear.
  simpl in Hok, Hclear. destruct (clear_into_state_snapshot d) as [s' i'] eqn:Hc. injection Hclear as <- <-.
  destruct (reinit d s' i' k Hok Hc) as [Heq Hok']. rewrite mem_iter. done.
Defined.
End mem_lawful.

(** ** Numbered snapshots *)
Section numbered.
Context {T : Type}.
Implicit Types (s : StateSnapshots T).

Definition snapshots_wf s : Prop :=
  in_u 256 (id s) ∧ ∀ j t, state_snapshots s !! j = Some t → 0 <= j < id s.

Lemma remove_from_spec fuel i s j :
  0 <= i → id s < umax 256 → (Z.to_nat (id s - i) <= fuel)%nat →
  state_snapshots (remove_from fuel i s) !! j =
    (if decide (i <= j < id s) then None else state_snapshots s !! j) ∧
  id (remove_from fuel i s) = id s.
Proof.
  revert i s. induction fuel as [|fuel IH]; intros i s Hi Hid Hfuel; simpl.
  - destruct (Z.ltb_spec i (id s)); [lia|]. rewrite decide_False by lia. done.
  - destruct (Z.ltb_spec i (id s)); [|by rewrite decide_False by lia].
    rewrite wrap_id by (width_lia). 
    destruct (IH (i + 1) (with_snapshots (delete i (state_snapshots s)) s)) as [Hj Hid'];
      [lia|done|simpl; lia|].
    rewrite Hj, Hid'. simpl. split; [|done].
    destruct (decide (j = i)) as [->|Hne].
    + rewrite lookup_delete_eq. repeat case_decide; (done || lia).
    + rewrite lookup_delete_ne by done. repeat case_decide; (done || lia).
Qed.

Lemma remove_spec i s :
  snapshots_wf s → id s < umax 256 → in_u 256 i →
  let '(r, s') := remove i s in
  r = get s i ∧ snapshots_wf s' ∧ id s' = id s ∧
  ∀ j, get s' j = if decide (j = i ∨ wrap 256 (i + 1) <= j) then None else get s j.
Proof.
  intros [Hid Hwf] Hmax Hi. unfold remove.
  pose proof (wrap_in_u 256 (i + 1) ltac:(lia)) as [Hw _].
  assert (∀ j, state_snapshots (remove_from (Z.to_nat (id s - wrap 256 (i + 1))) (wrap 256 (i + 1))
      (with_snapshots (delete i (state_snapshots s)) s)) !! j =
    if decide (j = i ∨ wrap 256 (i + 1) <= j) then None else state_snapshots s !! j) as Hget.
  { intros j. edestruct (remove_from_spec (Z.to_nat (id s - wrap 256 (i + 1))) (wrap 256 (i + 1))
      (with_snapshots (delete i (state_snapshots s)) s) j) as [-> _]; [done..|].
    simpl. destruct (decide (j = i)) as [->|Hne].
    - rewrite lookup_delete_eq. repeat case_decide; (done || tauto).
    - rewrite lookup_delete_ne by done. destruct (state_snapshots s !! j) as [t|] eqn:Hj.
      + apply Hwf in Hj. repeat case_decide; (done || lia).
      + by repeat case_decide. }
  edestruct (remove_from_spec (Z.to_nat (id s - wrap 256 (i + 1))) (wrap 256 (i + 1))
      (with_snapshots (delete i (state_snapshots s)) s) 0) as [_ Hid']; [done..|].
  simpl in Hid'. split; [done|]. split; [|done]. split; [by rewrite Hid'|].
  intros j t. rewrite Hget, Hid'. case_decide; [done|]. apply Hwf.
Qed.

Lemma snapshots_insert_spec t s :
  snapshots_wf s → id s < umax 256 →
  let '(i, s') := insert t s in
  get s i = None ∧ i = id s ∧ snapshots_wf s' ∧ id s' = id s + 1 ∧
  ∀ j, get s' j = if decide (j = i) then Some t else get s j.
Proof.
  intros [Hid Hwf] Hmax. simpl.
  assert (u_saturating_add 256 (id s) 1 = id s + 1) as Hadd by (unfold u_saturating_add; lia).
  split; [|split; [done|split; [split|split; [done|]]]]; simpl.
  - unfold get. destruct (state_snapshots s !! id s) eqn:Hs; [|done]. apply Hwf in Hs. lia.
  - rewrite Hadd. unfold in_u in *. lia.
  - rewrite Hadd. intros j t' [[<- _]|[_ ?%Hwf]]%lookup_insert_Some; [unfold in_u in Hid|]; lia.
  - intros j. unfold get. simpl. destruct (decide (j = id s)) as [->|?];
      [apply lookup_insert_eq|by apply lookup_insert_ne].
Qed.
End numbered.

(** Asking for a snapshot that is not there answers [false] and keeps the
    state, but the snapshots taken since are deleted: every later one, and,
    because the next number wraps, all of them for the largest number. *)
Theorem failed_revert_deletes_later {Inner} (d : MemDb Inner) (i : U256) (action : RevertStateSnapshotAction) :
  snapshots_wf (db_snapshots d) → id (db_snapshots d) < umax 256 → in_u 256 i →
  get (db_snapshots d) i = None →
  (revert_state i action d).1 = false ∧ inner (revert_state i action d).2 = inner d ∧
  ∀ j, get (db_snapshots (revert_state i action d).2) j =
       if decide (i < j ∨ i = umax 256) then None else get (db_snapshots d) j.
Proof.
  intros Hwf Hmax Hi Hnone. unfold revert_state.
  pose proof (remove_spec i _ Hwf Hmax Hi) as Hrem.
  destruct (remove i (db_snapshots d)) as [r s']. destruct Hrem as (-> & _ & _ & Hget).
  rewrite Hnone. simpl. split; [done|]. split; [done|]. intros j. rewrite Hget.
  destruct (get (db_snapshots d) j) as [t|] eqn:Hj; [|by repeat case_decide].
  pose proof (proj2 Hwf _ _ Hj) as Hjid.
  assert (j ≠ i) by congruence.
  destruct (decide (i = umax 256)) as [->|Hne].
  - change (wrap 256 (umax 256 + 1)) with 0. repeat case_decide; (done || lia).
  - rewrite wrap_id by (unfold in_u in *; lia). repeat case_decide; (done || lia).
Qed.

Module SnapshotsExample.
(** Snapshots 0 and 1 are taken, 1 is used up, 2 is taken: asking for 1 again
    deletes 2. *)
Definition three : MemDb Z :=
  let d := (snapshot_state (MemDb_new 10)).2 in
  let d := (snapshot_state {| inner := 11; db_snapshots := db_snapshots d |}).2 in
  let d := (revert_state 1 RevertRemove d).2 in
  (snapshot_state {| inner := 12; db_snapshots := db_snapshots d |}).2.

Lemma failed_revert_deletes_later_witness :
  (get (db_snapshots three) 0, get (db_snapshots three) 2) = (Some 10, Some 12) ∧
  (revert_state 1 RevertRemove three).1 = false ∧ inner (revert_state 1 RevertRemove three).2 = inner three ∧
  ∀ j, get (db_snapshots (revert_state 1 RevertRemove three).2) j =
       if decide (1 < j ∨ 1 = umax 256) then None else get (db_snapshots three) j.
Proof.
  assert (snapshots_wf (db_snapshots three)) as H1.
  { split; [split; discriminate|]. intros j t.
    assert (state_snapshots (db_snapshots three) = {[0 := 10; 2 := 12]}) as -> by (vm_compute; reflexivity).
    assert (id (db_snapshots three) = 3) as -> by (vm_compute; reflexivity).
    intros [[<- _]|[_ [<- _]%lookup_singleton_Some]]%lookup_insert_Some; lia. }
  assert (id (db_snapshots three) < umax 256) as H2 by (vm_compute; reflexivity).
  assert (in_u 256 1) as H3 by (split; discriminate).
  assert (get (db_snapshots three) 1 = None) as H4 by (vm_compute; reflexivity).
  split; [vm_compute; reflexivity|].
  exact (failed_revert_deletes_later three 1 RevertRemove H1 H2 H3 H4).
Defined.
End SnapshotsExample.

(** ** What a forked database forgets *)
Section forked.
Context {ExtDB : Type} `{HashIter}.
Variable cache_storage_ref : CacheDB ExtDB → Address → U256 → U256.

(** The state of a block of a fork, once it was moved to disk and back. *)
Definition moved (d : ForkDb ExtDB) : ForkDb ExtDB :=
  let '(s, d') := clear_into_state_snapshot d in init_from_state_snapshot s d'.

(** The state of a forked block that was moved to disk and back no longer
    knows the slots that were written locally: [get_storage] looks them up
    among the local accounts, of which none is left, instead of the snapshot
    that holds them, so every slot is read as if nothing had been written; and
    the accounts that a rollback copies from the state are none. *)
Theorem forked_state_forgets (d : ForkDb ExtDB) :
  (∀ a i, storage_ref cache_storage_ref (moved d) a i = cache_storage_ref (local (moved d)) a i) ∧
  accounts (local (moved d)) = ∅ ∧ db (local (moved d)) = db (local d) ∧
  maybe_as_full_db (moved d) = Some ∅ ∧
  (∀ a acc, accounts (local d) !! a = Some acc →
     s_storage (remote (moved d)) !! a = Some (storage acc)).
Proof.
  unfold moved. simpl.
  pose proof (clear_snapshot_of (local d)) as Hc. simpl in Hc.
  destruct (cache_clear_into_state_snapshot (local d)) as [s l'].
  destruct (Hc _ _ eq_refl) as (Hs & Ha & Hdb & _ & _). simpl.
  split; [|split; [done|split; [done|split; [by rewrite Ha|]]]].
  - intros a i. unfold storage_ref, get_storage. simpl. by rewrite Ha, lookup_empty.
  - intros a acc Hacc. apply lookup_union_Some_l. by rewrite (so_storage _ _ Hs), Hacc.
Qed.
End forked.
