(* ===== verification/BackendMerge.v ===== *)
(** * Accounts that follow the fork

    What a change of forks carries over: the journal and the database of a fork
    ([evm/core/src/backend/mod.rs], struct [Fork]) and the merging of accounts
    of [EvmBackendMergeStrategy] ([evm/core/src/backend/strategy.rs]), behind
    the class [BackendStrategy] of the strategies that merge.

    revm's [JournalInner], [Account] and [EvmStorageSlot] enter as the records of
    their public fields that the code reads or writes, with the rest of them as
    one field; logs and that rest are types of the class [Revm]. *)
From S2P Require Import Prelude.
From S2P Require Import StateDb.
From S2P Require Import MultiFork.
Local Open Scope Z_scope.

Class Revm := {
  Log : Type;
  SpecId : Type;
  JournalRest : Type;
}.

Record EvmStorageSlot := mkSlot {
  original_value : Z;
  present_value : Z;
  transaction_id : Z;
  is_cold : bool;
}.
Definition set_present (v : Z) (s : EvmStorageSlot) : EvmStorageSlot :=
  mkSlot (original_value s) v (transaction_id s) (is_cold s).

(** The flags created and touched, and the others with the transaction. *)
Record Account := mkAccount {
  account_info : AccountInfo;
  account_storage : gmap Z EvmStorageSlot;
  is_created : bool;
  is_touched : bool;
  account_rest : Z;
}.
(** [From<AccountInfo>] *)
Definition Account_from (i : AccountInfo) : Account := mkAccount i ∅ false false 0.
Definition set_account_info (i : AccountInfo) (a : Account) : Account :=
  mkAccount i (account_storage a) (is_created a) (is_touched a) (account_rest a).
Definition set_account_storage (s : gmap Z EvmStorageSlot) (a : Account) : Account :=
  mkAccount (account_info a) s (is_created a) (is_touched a) (account_rest a).

Record JournaledState `{Revm} := mkJournal {
  state : gmap Z Account;
  logs : list Log;
  depth : Z;
  journal_rest : JournalRest;
}.
Arguments mkJournal {_}.

Section journal.
Context {Rv : Revm}.
Definition set_state (m : gmap Z Account) (j : JournaledState) : JournaledState :=
  mkJournal m (logs j) (depth j) (journal_rest j).
Definition set_logs (l : list Log) (j : JournaledState) : JournaledState :=
  mkJournal (state j) l (depth j) (journal_rest j).
Definition set_depth (d : Z) (j : JournaledState) : JournaledState :=
  mkJournal (state j) (logs j) d (journal_rest j).
End journal.

(** [ForkDB] is a [CacheDB] over a shared backend. *)
Record Fork `{Remote} `{Revm} := mkFork {
  fork_db : CacheDB SharedBackend;
  journaled_state : JournaledState;
}.
Arguments mkFork {_ _}.

Definition set_accounts {Ext} (m : gmap Z DbAccount) (d : CacheDB Ext) : CacheDB Ext :=
  {| accounts := m; contracts := contracts d; block_hashes := block_hashes d; db := db d |}.
Definition set_contracts {Ext} (m : gmap Z Bytecode) (d : CacheDB Ext) : CacheDB Ext :=
  {| accounts := accounts d; contracts := m; block_hashes := block_hashes d; db := db d |}.
Definition set_db_storage (s : Storage) (a : DbAccount) : DbAccount :=
  {| info := info a; account_state := account_state a; storage := s |}.

(** ** Strategies

    How an account is carried from the active state into that of a fork. *)
Class BackendStrategy `{Remote} `{Revm} := {
  StrategyContext : Type;
  merge_db : ∀ {Ext}, StrategyContext → Z → CacheDB Ext → CacheDB SharedBackend → CacheDB SharedBackend;
  merge_journal : StrategyContext → Z → JournaledState → JournaledState → JournaledState;
}.

(** The account of the active side wins; slots that only the fork has stay. *)
Definition merged_account (active fork : option Account) : option Account :=
  match active, fork with
  | Some a, Some f => Some (set_account_storage (account_storage a ∪ account_storage f) a)
  | Some a, None => Some a
  | None, _ => fork
  end.
Definition merged_db_account (active fork : option DbAccount) : option DbAccount :=
  match active, fork with
  | Some a, Some f => Some (set_db_storage (storage a ∪ storage f) a)
  | Some a, None => Some a
  | None, _ => fork
  end.

(** What a strategy promises: an account is merged, and no other is changed but
    those of [system], where a virtual machine keeps data of its accounts. *)
Class BackendStrategyLaws {R : Remote} {Rv : Revm} {St : BackendStrategy} := {
  system : gset Z;
  merge_journal_fields c a j f :
    logs (merge_journal c a j f) = logs f ∧ depth (merge_journal c a j f) = depth f ∧
    journal_rest (merge_journal c a j f) = journal_rest f;
  merge_journal_own c a j f :
    a ∉ system → state (merge_journal c a j f) !! a = merged_account (state j !! a) (state f !! a);
  merge_journal_other c a j f b :
    b ≠ a → b ∉ system → state (merge_journal c a j f) !! b = state f !! b;
  merge_db_own {Ext} c a (d : CacheDB Ext) f :
    a ∉ system → accounts (merge_db c a d f) !! a = merged_db_account (accounts d !! a) (accounts f !! a);
  merge_db_other {Ext} c a (d : CacheDB Ext) f b :
    b ≠ a → b ∉ system → accounts (merge_db c a d f) !! b = accounts f !! b;
  merge_db_remote {Ext} c a (d : CacheDB Ext) f : db (merge_db c a d f) = db f;
}.

(** [merge_account_data], the same for both strategies: every account is merged
    into the database and the journal of the fork, which then is the active
    journal. *)
Section merge_account_data.
Context {R : Remote} {Rv : Revm} {St : BackendStrategy} {Ext : Type}.
Definition merge_account (c : StrategyContext) (active : CacheDB Ext) (j : JournaledState) (f : Fork)
    (addr : Z) : Fork :=
  mkFork (merge_db c addr active (fork_db f)) (merge_journal c addr j (journaled_state f)).
Definition merge_account_data (c : StrategyContext) (addrs : list Z) (active : CacheDB Ext)
    (j : JournaledState) (target : Fork) : JournaledState * Fork :=
  let target := foldl (merge_account c active j) target addrs in
  (journaled_state target, target).
End merge_account_data.

(** ** The strategy of the EVM *)
Section evm.
Context {R : Remote} {Rv : Revm}.

Definition merge_journaled_state_data (addr : Z) (active fork : JournaledState) : JournaledState :=
  match state active !! addr with
  | Some acc =>
      let acc := match state fork !! addr with
                 | Some fork_account => set_account_storage (account_storage acc ∪ account_storage fork_account) acc
                 | None => acc
                 end in
      set_state (<[addr := acc]> (state fork)) fork
  | None => fork
  end.

Definition merge_db_account_data {Ext} (addr : Z) (active : CacheDB Ext) (fork : CacheDB SharedBackend)
    : CacheDB SharedBackend :=
  match accounts active !! addr with
  | None => fork
  | Some acc =>
      let fork := match contracts active !! code_hash (info acc) with
                  | Some code => set_contracts (<[code_hash (info acc) := code]> (contracts fork)) fork
                  | None => fork
                  end in
      let acc := match accounts fork !! addr with
                 | Some fork_account => set_db_storage (storage acc ∪ storage fork_account) acc
                 | None => acc
                 end in
      set_accounts (<[addr := acc]> (accounts fork)) fork
  end.

#[export] Instance evm_strategy : BackendStrategy := {|
  StrategyContext := unit;
  merge_db := λ _ _ addr, merge_db_account_data addr;
  merge_journal := λ _, merge_journaled_state_data;
|}.

Lemma evm_merge_journal a j f b :
  state (merge_journaled_state_data a j f) !! b =
    if decide (b = a) then merged_account (state j !! a) (state f !! a) else state f !! b.
Proof.
  unfold merge_journaled_state_data. case_decide as Hb; [subst|].
  - destruct (state j !! a) eqn:Hj; [|done]. cbn. rewrite lookup_insert_eq. by destruct (state f !! a).
  - destruct (state j !! a) eqn:Hj; [|done]. cbn. by rewrite lookup_insert_ne by done.
Qed.
Lemma evm_merge_db {Ext} a (d : CacheDB Ext) f b :
  accounts (merge_db_account_data a d f) !! b =
    if decide (b = a) then merged_db_account (accounts d !! a) (accounts f !! a) else accounts f !! b.
Proof.
  unfold merge_db_account_data. destruct (accounts d !! a) as [acc|] eqn:Hd; [|by case_decide; subst].
  set (f' := match contracts d !! _ with Some _ => _ | None => _ end).
  assert (accounts f' = accounts f) as -> by (unfold f'; by case_match). cbn. case_decide as Hb; [subst|].
  - rewrite lookup_insert_eq. by destruct (accounts f !! a).
  - by rewrite lookup_insert_ne by done.
Qed.

#[export] Instance evm_laws : BackendStrategyLaws (St := evm_strategy).
Proof.
  refine {| system := ∅ |}; cbn.
  - intros _ a j f. unfold merge_journaled_state_data. by destruct (state j !! a).
  - intros _ a j f _. by rewrite evm_merge_journal, decide_True by done.
  - intros _ a j f b Hb _. by rewrite evm_merge_journal, decide_False by done.
  - intros Ext _ a d f _. by rewrite evm_merge_db, decide_True by done.
  - intros Ext _ a d f b Hb _. by rewrite evm_merge_db, decide_False by done.
  - intros Ext _ a d f. unfold merge_db_account_data. case_match; [|done]. cbn. by case_match.
Defined.
End evm.

(** ** Merging a list of accounts *)
Section fold.
Context {R : Remote} {Rv : Revm} {St : BackendStrategy} {Laws : BackendStrategyLaws} {Ext : Type}.
Context (c : StrategyContext) (active : CacheDB Ext) (j : JournaledState).
Implicit Types (f : Fork) (l : list Z).

Lemma merge_all_fields f l :
  let f' := foldl (merge_account c active j) f l in
  logs (journaled_state f') = logs (journaled_state f) ∧ depth (journaled_state f') = depth (journaled_state f) ∧
  db (fork_db f') = db (fork_db f).
Proof.
  revert f. induction l as [|a l IH]; intros f; [done|]. cbn [foldl].
  destruct (IH (merge_account c active j f a)) as (-> & -> & ->). cbn [merge_account journaled_state fork_db].
  destruct (merge_journal_fields c a j (journaled_state f)) as (-> & -> & _). by rewrite merge_db_remote.
Qed.

Lemma merge_all f l b :
  NoDup l → b ∉ system →
  let f' := foldl (merge_account c active j) f l in
  state (journaled_state f') !! b =
    (if decide (b ∈ l) then merged_account (state j !! b) (state (journaled_state f) !! b)
     else state (journaled_state f) !! b) ∧
  accounts (fork_db f') !! b =
    (if decide (b ∈ l) then merged_db_account (accounts active !! b) (accounts (fork_db f) !! b)
     else accounts (fork_db f) !! b).
Proof.
  intros Hl Hb. revert f. induction Hl as [|a l Ha Hl IH]; intros f; [done|]. cbn [foldl].
  destruct (IH (merge_account c active j f a)) as [-> ->]. cbn [merge_account journaled_state fork_db].
  destruct (decide (b = a)) as [->|Hne].
  - rewrite !(decide_False (P := a ∈ l)), !(decide_True (P := a ∈ a :: l)) by (done || left).
    by rewrite merge_journal_own, merge_db_own.
  - rewrite merge_journal_other, merge_db_other by done.
    destruct (decide (b ∈ l)) as [Hin|Hin].
    + by rewrite !(decide_True (P := b ∈ a :: l)) by by right.
    + rewrite !(decide_False (P := b ∈ a :: l)); [done|by intros [?|?]%elem_of_cons..].
Qed.
End fold.
