(* ===== verification/Backend.v ===== *)
(** * The backend with its forks

    Models [Backend] of [evm/core/src/backend/mod.rs]: the database of a test,
    in memory or on one of its forks, with the forks that were created, their
    selection and rolling, the snapshots, the persistent accounts and the rights
    to cheat.  [World] is the backend with the environment and the journal of
    the running EVM, which its methods take as [&mut]; a method is a computation
    of the monad [M], with [None] for a panic and [Err] for an error.

    The service that connects to forks is the class [ForkService], the merging
    of accounts [BackendStrategy]; what revm and the remote client do is the class
    [Database]. *)
From S2P Require Import Prelude.
From S2P Require Import Text.
From S2P Require Import StateDb.
From S2P Require Import MultiFork.
From S2P Require Import BackendMerge.
Local Open Scope Z_scope.

(** ** Third-party code *)

(** A transaction and a block of the remote chain, as far as they are read. *)
Record RpcTransaction := mkRpcTransaction {
  tx_hash : Z;
  signer : Z;
  ty : Z;
  block_number : option Z;
}.
Record RpcHeader := mkRpcHeader {
  h_timestamp : Z;
  h_beneficiary : Z;
  h_difficulty : Z;
  h_mix_hash : option Z;
  h_base_fee_per_gas : option Z;
  h_gas_limit : Z;
  h_number : Z;
  h_excess_blob_gas : option Z;
}.
Record RpcBlock := mkRpcBlock { header : RpcHeader; txns : list RpcTransaction }.

Class Database `{Remote} `{Revm} := {
  MemExt : Type;
  (** revm's [CacheDB]: reading caches. *)
  basic : Z → CacheDB SharedBackend → result str (option AccountInfo) * CacheDB SharedBackend;
  basic_ref : Z → CacheDB SharedBackend → result str (option AccountInfo);
  db_storage : Z → Z → CacheDB SharedBackend → result str Z * CacheDB SharedBackend;
  db_load_account : Z → CacheDB SharedBackend → result str DbAccount * CacheDB SharedBackend;
  insert_account_info : Z → AccountInfo → CacheDB SharedBackend → CacheDB SharedBackend;
  commit : gmap Z Account → CacheDB SharedBackend → CacheDB SharedBackend;
  mem_commit : gmap Z Account → CacheDB MemExt → CacheDB MemExt;
  mem_basic_ref : Z → CacheDB MemExt → option AccountInfo;
  empty_mem : MemExt;
  (** [JournalInner::load_account] over a database. *)
  load_account : Z → JournaledState → CacheDB SharedBackend → JournaledState * CacheDB SharedBackend;
  new_journaled_state : SpecId → JournaledState;
  is_precompile : SpecId → Z → bool;
  spec_of : CfgEnv → SpecId;
  create_address : Z → Z → Z;
  KECCAK_EMPTY : Z;
  info_default : AccountInfo;
  spec_default : SpecId;
  (** The remote client, and fee parameters of a chain at a time. *)
  get_transaction : Z → SharedBackend → result str RpcTransaction;
  get_full_block : option Z → SharedBackend → result str RpcBlock;
  cfg_chain_id : CfgEnv → Z;
  blob_price : Z → Z → Z → Z * Z;
  get_fork_type : str → bool;
}.

Definition CHEATCODE_ADDRESS : Z := 0x7109709ECfa91a80626fF3989D68f67F5b1DD12D.
Definition DEFAULT_CREATE2_DEPLOYER : Z := 0x4e59b44847b379578588920ca78fbf26c0b4956c.
Definition CALLER : Z := 0x1804c8AB1F12E6bbf3894d4083f33e07309d1f38.
Definition TEST_CONTRACT_ADDRESS : Z := 0x7FA9385bE102ac3EAc297483Dd6233D62b3e1496.
Definition DEFAULT_PERSISTENT_ACCOUNTS : gset Z := {[CHEATCODE_ADDRESS; DEFAULT_CREATE2_DEPLOYER; CALLER]}.
Definition GLOBAL_FAIL_SLOT : Z := 0x6661696c65640000000000000000000000000000000000000000000000000000.
Definition SYSTEM_TRANSACTION_TYPE : Z := 126.

Inductive ForkType := Evm | Zk.

(** ** The state *)
Section backend.
Context {R : Remote} {Rv : Revm} {Fs : ForkService} {St : BackendStrategy} {Db : Database} {Iter : HashIter}.

Inductive BackendDatabaseSnapshot :=
| InMemory (d : CacheDB MemExt)
| Forked (id : Z) (fork_id : ForkId) (idx : nat) (fork : Fork).
Record BackendStateSnapshot := mkStateSnapshot {
  snap_db : BackendDatabaseSnapshot;
  snap_journal : JournaledState;
  snap_env : Env;
}.

Record BackendInner := mkInner {
  launched_with_fork : option (ForkId * Z * nat);
  issued_local_fork_ids : gmap Z ForkId;
  created_forks : gmap ForkId nat;
  inner_forks : list (option Fork);
  state_snapshots : StateSnapshots BackendStateSnapshot;
  has_state_snapshot_failure : bool;
  test_contract_address : option Z;
  inner_caller : option Z;
  next_fork_id : Z;
  persistent_accounts : gset Z;
  spec_id : SpecId;
  cheatcode_access_accounts : gset Z;
}.

Record Backend := mkBackend {
  strategy : StrategyContext;
  service : Service;
  mem_db : CacheDB MemExt;
  fork_init_journaled_state : JournaledState;
  active_fork_ids : option (Z * nat);
  inner : BackendInner;
  fork_url_type : gmap str ForkType;
}.

(** *** Assignments *)
Implicit Types (i : BackendInner) (b : Backend).

Definition set_launched v i := mkInner v (issued_local_fork_ids i) (created_forks i) (inner_forks i)
  (state_snapshots i) (has_state_snapshot_failure i) (test_contract_address i) (inner_caller i)
  (next_fork_id i) (persistent_accounts i) (spec_id i) (cheatcode_access_accounts i).
Definition set_ids issued created i := mkInner (launched_with_fork i) issued created (inner_forks i)
  (state_snapshots i) (has_state_snapshot_failure i) (test_contract_address i) (inner_caller i)
  (next_fork_id i) (persistent_accounts i) (spec_id i) (cheatcode_access_accounts i).
Definition set_inner_forks v i := mkInner (launched_with_fork i) (issued_local_fork_ids i) (created_forks i) v
  (state_snapshots i) (has_state_snapshot_failure i) (test_contract_address i) (inner_caller i)
  (next_fork_id i) (persistent_accounts i) (spec_id i) (cheatcode_access_accounts i).
Definition set_state_snapshots v i := mkInner (launched_with_fork i) (issued_local_fork_ids i) (created_forks i)
  (inner_forks i) v (has_state_snapshot_failure i) (test_contract_address i) (inner_caller i)
  (next_fork_id i) (persistent_accounts i) (spec_id i) (cheatcode_access_accounts i).
Definition set_failure v i := mkInner (launched_with_fork i) (issued_local_fork_ids i) (created_forks i)
  (inner_forks i) (state_snapshots i) v (test_contract_address i) (inner_caller i)
  (next_fork_id i) (persistent_accounts i) (spec_id i) (cheatcode_access_accounts i).
Definition set_test v i := mkInner (launched_with_fork i) (issued_local_fork_ids i) (created_forks i)
  (inner_forks i) (state_snapshots i) (has_state_snapshot_failure i) v (inner_caller i)
  (next_fork_id i) (persistent_accounts i) (spec_id i) (cheatcode_access_accounts i).
Definition set_inner_caller v i := mkInner (launched_with_fork i) (issued_local_fork_ids i) (created_forks i)
  (inner_forks i) (state_snapshots i) (has_state_snapshot_failure i) (test_contract_address i) v
  (next_fork_id i) (persistent_accounts i) (spec_id i) (cheatcode_access_accounts i).
Definition set_next_fork_id v i := mkInner (launched_with_fork i) (issued_local_fork_ids i) (created_forks i)
  (inner_forks i) (state_snapshots i) (has_state_snapshot_failure i) (test_contract_address i) (inner_caller i)
  v (persistent_accounts i) (spec_id i) (cheatcode_access_accounts i).
Definition set_persistent v i := mkInner (launched_with_fork i) (issued_local_fork_ids i) (created_forks i)
  (inner_forks i) (state_snapshots i) (has_state_snapshot_failure i) (test_contract_address i) (inner_caller i)
  (next_fork_id i) v (spec_id i) (cheatcode_access_accounts i).
Definition set_spec v i := mkInner (launched_with_fork i) (issued_local_fork_ids i) (created_forks i)
  (inner_forks i) (state_snapshots i) (has_state_snapshot_failure i) (test_contract_address i) (inner_caller i)
  (next_fork_id i) (persistent_accounts i) v (cheatcode_access_accounts i).
Definition set_access v i := mkInner (launched_with_fork i) (issued_local_fork_ids i) (created_forks i)
  (inner_forks i) (state_snapshots i) (has_state_snapshot_failure i) (test_contract_address i) (inner_caller i)
  (next_fork_id i) (persistent_accounts i) (spec_id i) v.

Definition set_service v b :=
  mkBackend (strategy b) v (mem_db b) (fork_init_journaled_state b) (active_fork_ids b) (inner b) (fork_url_type b).
Definition set_mem_db v b :=
  mkBackend (strategy b) (service b) v (fork_init_journaled_state b) (active_fork_ids b) (inner b) (fork_url_type b).
Definition set_init_journaled_state v b :=
  mkBackend (strategy b) (service b) (mem_db b) v (active_fork_ids b) (inner b) (fork_url_type b).
Definition set_active v b :=
  mkBackend (strategy b) (service b) (mem_db b) (fork_init_journaled_state b) v (inner b) (fork_url_type b).
Definition set_inner v b :=
  mkBackend (strategy b) (service b) (mem_db b) (fork_init_journaled_state b) (active_fork_ids b) v (fork_url_type b).
Definition set_fork_url_type v b :=
  mkBackend (strategy b) (service b) (mem_db b) (fork_init_journaled_state b) (active_fork_ids b) (inner b) v.
Definition on_inner (f : BackendInner → BackendInner) b : Backend := set_inner (f (inner b)) b.

(** ** Errors and effects *)

Inductive Error :=
| NoForkFound
| ForkMissing (id : Z)
| NoForkActive
| MissingAccount (addr : Z)
| CreateFailed (e : CreateError)
| DatabaseError (e : str)
| NoCheats (addr : Z).

Record World := mkWorld { self : Backend; cur_env : Env; active_journal : JournaledState }.
Definition on_self (f : Backend → Backend) (w : World) : World :=
  mkWorld (f (self w)) (cur_env w) (active_journal w).
Definition set_cur_env e (w : World) : World := mkWorld (self w) e (active_journal w).
Definition set_active_journal j (w : World) : World := mkWorld (self w) (cur_env w) j.

Definition M (A : Type) : Type := World → option (result Error A * World).
#[export] Instance M_ret : MRet M := λ A a w, Some (Ok a, w).
#[export] Instance M_bind : MBind M := λ A B f m w,
  match m w with
  | Some (Ok a, w) => f a w
  | Some (Err e, w) => Some (Err e, w)
  | None => None
  end.
Definition get : M World := λ w, Some (Ok w, w).
Definition modify (f : World → World) : M unit := λ w, Some (Ok tt, f w).
Definition fail {A} (e : Error) : M A := λ w, Some (Err e, w).
Definition panic {A} : M A := λ _, None.
Definition unwrap {A} (o : option A) : M A := λ w, (λ a, (Ok a, w)) <$> o.
Definition or_fail {A} (e : Error) (o : option A) : M A := match o with Some a => mret a | None => fail e end.
Fixpoint for_each {A} (f : A → M unit) (l : list A) : M unit :=
  match l with [] => mret tt | x :: l => f x ≫= λ _, for_each f l end.

(** ** [BackendInner] *)

Definition ensure_fork_id (id : Z) i : option ForkId := issued_local_fork_ids i !! id.
Definition ensure_fork_index (id : ForkId) i : option nat := created_forks i !! id.
Definition ensure_fork_index_by_local_id (id : Z) i : option nat :=
  fork_id ← ensure_fork_id id i; ensure_fork_index fork_id i.
(** [None] is a panic. *)
Definition get_fork (idx : nat) i : option Fork := mjoin (inner_forks i !! idx).
Definition set_fork (idx : nat) (f : option Fork) i : BackendInner :=
  set_inner_forks (<[idx := f]> (inner_forks i)) i.

Definition next_id i : Z * BackendInner := (next_fork_id i, set_next_fork_id (next_fork_id i + 1) i).
Definition insert_new_fork (fork_id : ForkId) (d : CacheDB SharedBackend) (j : JournaledState) i
    : (Z * nat) * BackendInner :=
  let idx := length (inner_forks i) in
  let i := set_ids (issued_local_fork_ids i) (<[fork_id := idx]> (created_forks i)) i in
  let '(id, i) := next_id i in
  let i := set_ids (<[id := fork_id]> (issued_local_fork_ids i)) (created_forks i) i in
  ((id, idx), set_inner_forks (inner_forks i ++ [Some (mkFork d j)]) i).

Definition revert_state_snapshot (id : Z) (fork_id : ForkId) (idx : nat) (f : Fork) i : BackendInner :=
  set_fork idx (Some f)
    (set_ids (<[id := fork_id]> (issued_local_fork_ids i)) (<[fork_id := idx]> (created_forks i)) i).

(** [ForkDB::new] *)
Definition ForkDB_new (s : SharedBackend) : CacheDB SharedBackend :=
  {| accounts := ∅; contracts := ∅; block_hashes := ∅; db := s |}.

(** [None] is a panic: there is no such place. *)
Definition inner_roll_fork (c : StrategyContext) (id : Z) (new_fork_id : ForkId) (s : SharedBackend) i
    : option (result Error (nat * BackendInner)) :=
  match ensure_fork_index_by_local_id id i with
  | None => Some (Err NoForkFound)
  | Some idx =>
      fork ← inner_forks i !! idx;
      let i := match fork with
               | Some active =>
                   let new_db := foldl (λ d addr, merge_db c addr (fork_db active) d) (ForkDB_new s)
                                   (hash_iter (persistent_accounts i)) in
                   set_fork idx (Some (mkFork new_db (journaled_state active))) i
               | None => i
               end in
      Some (Ok (idx, set_ids (<[id := new_fork_id]> (issued_local_fork_ids i))
                       (<[new_fork_id := idx]> (created_forks i)) i))
  end.
Definition forks_iter i : option (list (Z * Fork)) :=
  mapM (λ id, idx ← ensure_fork_index_by_local_id id i; f ← get_fork idx i; Some (id, f))
    (hash_iter (dom (issued_local_fork_ids i))).

Definition inner_default : BackendInner :=
  mkInner None ∅ ∅ [] StateSnapshots_default false None None 0 ∅ spec_default
    {[CHEATCODE_ADDRESS; TEST_CONTRACT_ADDRESS; CALLER]}.

(** ** Construction *)

Definition Backend_new (c : StrategyContext) (s : Service) (fork : option CreateFork) : result CreateError Backend :=
  let i := set_persistent DEFAULT_PERSISTENT_ACCOUNTS inner_default in
  let b := mkBackend c s {| accounts := ∅; contracts := ∅; block_hashes := ∅; db := empty_mem |}
             (new_journaled_state (spec_id i)) None i ∅ in
  match fork with
  | None => Ok b
  | Some fork =>
      match service_create fork s with
      | (Ok (fork_id, shared, _), s) =>
          let '(ids, i) := insert_new_fork fork_id (ForkDB_new shared) (new_journaled_state (spec_id i)) i in
          Ok (set_active (Some ids) (set_inner (set_launched (Some (fork_id, ids.1, ids.2)) i) (set_service s b)))
      | (Err e, _) => Err e
      end
  end.

(** [new_with_fork], of a service that was just spawned. *)
Definition new_with_fork (c : StrategyContext) (spawned : Service) (id : ForkId) (fork : Fork) (j : JournaledState)
    : result CreateError Backend :=
  match Backend_new c spawned None with
  | Ok b =>
      let '(ids, i) := insert_new_fork id (fork_db fork) j (inner b) in
      Ok (set_active (Some ids) (set_inner (set_launched (Some (id, ids.1, ids.2)) i) b))
  | Err e => Err e
  end.

Definition clone_empty b : Backend :=
  mkBackend (strategy b) (service b) {| accounts := ∅; contracts := ∅; block_hashes := ∅; db := empty_mem |}
    (new_journaled_state (spec_id (inner b))) None inner_default ∅.

(** ** Settings *)

(** [HashSet::insert] and [remove] tell whether the set has changed. *)
Definition add_persistent_account (a : Z) b : bool * Backend :=
  (bool_decide (a ∉ persistent_accounts (inner b)),
   on_inner (λ i, set_persistent ({[a]} ∪ persistent_accounts i) i) b).
Definition remove_persistent_account (a : Z) b : bool * Backend :=
  (bool_decide (a ∈ persistent_accounts (inner b)),
   on_inner (λ i, set_persistent (persistent_accounts i ∖ {[a]}) i) b).
Definition is_persistent (a : Z) b : bool := bool_decide (a ∈ persistent_accounts (inner b)).
Definition allow_cheatcode_access (a : Z) b : bool * Backend :=
  (bool_decide (a ∉ cheatcode_access_accounts (inner b)),
   on_inner (λ i, set_access ({[a]} ∪ cheatcode_access_accounts i) i) b).
Definition revoke_cheatcode_access (a : Z) b : bool * Backend :=
  (bool_decide (a ∈ cheatcode_access_accounts (inner b)),
   on_inner (λ i, set_access (cheatcode_access_accounts i ∖ {[a]}) i) b).
Definition has_cheatcode_access (a : Z) b : bool := bool_decide (a ∈ cheatcode_access_accounts (inner b)).
Definition is_forked_mode b : bool := match active_fork_ids b with Some _ => true | None => false end.
Definition ensure_cheatcode_access (a : Z) b : result Error unit :=
  if has_cheatcode_access a b then Ok tt else Err (NoCheats a).
Definition ensure_cheatcode_access_forking_mode (a : Z) b : result Error unit :=
  if is_forked_mode b then ensure_cheatcode_access a b else Ok tt.

Definition set_test_contract (a : Z) b : Backend :=
  on_inner (set_test (Some a)) (allow_cheatcode_access a (add_persistent_account a b).2).2.
Definition set_caller (a : Z) b : Backend :=
  (allow_cheatcode_access a (on_inner (set_inner_caller (Some a)) b)).2.
Definition set_spec_id (s : SpecId) b : Backend := on_inner (set_spec s) b.

Definition is_active_fork (id : Z) b : bool :=
  match active_fork_ids b with Some (i, _) => i =? id | None => false end.
Definition active_fork_id b : option Z := fst <$> active_fork_ids b.
(** [None]: not forked; [Some None]: a panic. *)
Definition active_fork b : option (option Fork) := (λ p, get_fork p.2 (inner b)) <$> active_fork_ids b.
Definition ensure_fork (id : option Z) b : result Error Z :=
  match id with
  | Some id => if bool_decide (is_Some (issued_local_fork_ids (inner b) !! id)) then Ok id else Err (ForkMissing id)
  | None => match active_fork_id b with Some id => Ok id | None => Err NoForkActive end
  end.

Definition initialize (e : Env) b : option Backend :=
  let b := set_spec_id (spec_of (cfg e)) (set_caller (caller (tx e)) b) in
  found ← match active_fork b with
          | None => Some (Ok (mem_basic_ref (caller (tx e)) (mem_db b)))
          | Some fork => f ← fork; Some (basic_ref (caller (tx e)) (fork_db f))
          end;
  let nonce := match found with Ok i => nonce (default info_default i) | Err _ => 0 end in
  Some (set_test_contract (match kind (tx e) with
                           | Some target => target
                           | None => create_address (caller (tx e)) nonce
                           end) b).

(** Writes of an executor to the current database. *)
Definition on_db (f : CacheDB SharedBackend → CacheDB SharedBackend) (g : CacheDB MemExt → CacheDB MemExt) b
    : option Backend :=
  match active_fork_ids b with
  | Some (_, idx) =>
      fk ← get_fork idx (inner b);
      Some (on_inner (set_fork idx (Some (mkFork (f (fork_db fk)) (journaled_state fk)))) b)
  | None => Some (set_mem_db (g (mem_db b)) b)
  end.
Definition Backend_commit (changes : gmap Z Account) : Backend → option Backend :=
  on_db (commit changes) (mem_commit changes).
(** [saturating_to] *)
Definition set_blockhash (n h : Z) : Backend → option Backend :=
  on_db (λ d, {| accounts := accounts d; contracts := contracts d;
                 block_hashes := <[Z.min (umax 64) n := h]> (block_hashes d); db := db d |})
        (λ d, {| accounts := accounts d; contracts := contracts d;
                 block_hashes := <[Z.min (umax 64) n := h]> (block_hashes d); db := db d |}).

(** ** Logs *)

(** The logs of all forks in the order of their creation, the current ones for
    the active fork. *)
Definition merged_logs (l : list Log) b : list Log :=
  match active_fork_ids b with
  | Some (_, active) =>
      concat (imap (λ idx f, match f with
                             | Some f => if decide (idx = active) then l else logs (journaled_state f)
                             | None => []
                             end) (inner_forks (inner b)))
  | None => l
  end.

(** ** Environments *)

Definition update_current_env_with_fork_env (current fork : Env) : Env :=
  mkEnv (block fork) (cfg fork) (mkTxEnv (caller (tx current)) (kind (tx current)) (chain_id (tx fork)) (tx_rest (tx current))).
Definition update_env_block (e : Env) (b : RpcBlock) : Env :=
  let h := header b in
  set_block
    (mkBlockEnv (h_number h) (h_timestamp h) (h_beneficiary h) (h_difficulty h) (Some (default 0 (h_mix_hash h)))
       (default 0 (h_base_fee_per_gas h)) (h_gas_limit h)
       match h_excess_blob_gas h with
       | Some gas => Some (blob_price gas (cfg_chain_id (cfg e)) (h_timestamp h))
       | None => blob_excess_gas_and_price (block e)
       end) e.

(** ** Snapshots *)

Inductive RevertAction := RevertRemove | RevertKeep.
Definition is_keep (a : RevertAction) : bool := match a with RevertKeep => true | RevertRemove => false end.

Definition create_db_snapshot b : option BackendDatabaseSnapshot :=
  match active_fork_ids b with
  | Some (id, idx) =>
      fork ← get_fork idx (inner b);
      fork_id ← ensure_fork_id id (inner b);
      Some (Forked id fork_id idx fork)
  | None => Some (InMemory (mem_db b))
  end.

Definition snapshot_state : M Z :=
  w ← get;
  d ← unwrap (create_db_snapshot (self w));
  let '(id, snaps) := StateDb.insert (mkStateSnapshot d (active_journal w) (cur_env w))
                        (state_snapshots (inner (self w))) in
  modify (on_self (on_inner (set_state_snapshots snaps))) ≫= λ _,
  mret id.

(** The slot of [failed] of a test contract. *)
Definition global_failure (j : JournaledState) : bool :=
  match acc ← state j !! CHEATCODE_ADDRESS; account_storage acc !! GLOBAL_FAIL_SLOT with
  | Some slot => negb (present_value slot =? 0)
  | None => false
  end.

(** The caller in a journal and a database that may lack it: its account in
    the journal [from]. *)
Definition caller_account (c : Z) (from : JournaledState) : AccountInfo :=
  match state from !! c with Some acc => account_info acc | None => info_default end.
Definition enter_caller (c : Z) (from : JournaledState) (f : Fork) : Fork :=
  match state (journaled_state f) !! c with
  | Some _ => f
  | None =>
      let i := caller_account c from in
      let d := match accounts (fork_db f) !! c with
               | Some _ => fork_db f
               | None => insert_account_info c i (fork_db f)
               end in
      mkFork d (set_state (<[c := Account_from i]> (state (journaled_state f))) (journaled_state f))
  end.

(** The database of the snapshot, and the journal with which the run goes on. *)
Definition restore_db (snap : BackendDatabaseSnapshot) (j : JournaledState) (w : World)
    : option (JournaledState * Backend) :=
  match snap with
  | InMemory d => Some (j, set_mem_db d (self w))
  | Forked id fork_id idx f =>
      let entered := enter_caller (caller (tx (cur_env w))) (active_journal w) (mkFork (fork_db f) j) in
      if decide (idx < length (inner_forks (inner (self w))))%nat then
        Some (journaled_state entered,
              set_active (Some (id, idx))
                (on_inner (revert_state_snapshot id fork_id idx (mkFork (fork_db entered) (journaled_state f))) (self w)))
      else None
  end.

Definition revert_state (id : Z) (action : RevertAction) : M (option JournaledState) :=
  w ← get;
  match StateDb.remove_at id (state_snapshots (inner (self w))) with
  | (None, snaps) => modify (on_self (on_inner (set_state_snapshots snaps))) ≫= λ _, mret None
  | (Some snapshot, snaps) =>
      let snaps := if is_keep action then StateDb.insert_at snapshot id snaps else snaps in
      modify (on_self (on_inner (set_state_snapshots snaps))) ≫= λ _,
      (if global_failure (active_journal w) then modify (on_self (on_inner (set_failure true))) else mret tt) ≫= λ _,
      w ← get;
      '(j, b) ← unwrap (restore_db (snap_db snapshot) (set_logs (logs (active_journal w)) (snap_journal snapshot)) w);
      modify (on_self (λ _, b)) ≫= λ _,
      modify (set_cur_env (update_current_env_with_fork_env (cur_env w) (snap_env snapshot))) ≫= λ _,
      mret (Some j)
  end.
Definition delete_state_snapshot (id : Z) b : bool * Backend :=
  let '(s, snaps) := StateDb.remove_at id (state_snapshots (inner b)) in
  (bool_decide (is_Some s), on_inner (set_state_snapshots snaps) b).
Definition delete_state_snapshots b : Backend :=
  on_inner (λ i, set_state_snapshots (StateDb.snapshots_clear (state_snapshots i)) i) b.

(** ** Forks *)

Notation "m ;; k" := (m ≫= λ _, k) (at level 100, right associativity, only parsing).

Definition lift {A} (r : result Error A) : M A := λ w, Some (r, w).
Definition with_service {A} (f : Service → A * Service) : M A := λ w,
  let '(a, s) := f (service (self w)) in Some (Ok a, on_self (set_service s) w).
Definition created {A} (r : result CreateError A) : M A :=
  match r with Ok a => mret a | Err e => fail (CreateFailed e) end.
Definition the_fork (idx : nat) : M Fork := w ← get; unwrap (get_fork idx (inner (self w))).
Definition put_fork (idx : nat) (f : Fork) : M unit := modify (on_self (on_inner (set_fork idx (Some f)))).
Definition take_fork (idx : nat) : M Fork :=
  f ← the_fork idx; modify (on_self (on_inner (set_fork idx None))) ;; mret f.
Definition fork_id_of (id : Z) : M ForkId := w ← get; or_fail NoForkFound (ensure_fork_id id (inner (self w))).
Definition fork_index_of (id : Z) : M nat :=
  w ← get; or_fail NoForkFound (ensure_fork_index_by_local_id id (inner (self w))).
Definition env_of (id : Z) (fork_id : ForkId) : M Env :=
  w ← get; or_fail (ForkMissing id) (service_env fork_id (service (self w))).

(** [CachedForkType::get] *)
Definition fork_type_of (url : option str) (otherwise : ForkType) : M ForkType :=
  match url with
  | None => mret otherwise
  | Some url =>
      w ← get;
      match fork_url_type (self w) !! url with
      | Some t => mret t
      | None =>
          let t := if get_fork_type url then Zk else Evm in
          modify (on_self (λ b, set_fork_url_type (<[url := t]> (fork_url_type b)) b)) ;; mret t
      end
  end.
Definition get_fork_info (id : Z) : M (ForkType * Env) :=
  fork_id ← fork_id_of id;
  e ← env_of id fork_id;
  w ← get;
  t ← fork_type_of (service_url fork_id (service (self w))) Zk;
  mret (t, e).
Definition active_fork_url b : option str :=
  id ← active_fork_id b; fork_id ← issued_local_fork_ids (inner b) !! id; service_url fork_id (service b).

Definition create_fork (f : CreateFork) : M Z :=
  r ← with_service (service_create f);
  '(fork_id, shared, _) ← created r;
  w ← get;
  let '(ids, i) := insert_new_fork fork_id (ForkDB_new shared) (fork_init_journaled_state (self w)) (inner (self w)) in
  modify (on_self (set_inner i)) ;; mret ids.1.

(** *** The first selection *)

(** The accounts that were loaded before, except for those that were created,
    with what the fork knows of them. *)
Fixpoint init_accounts (loaded : list Z) (j : JournaledState) (d : CacheDB SharedBackend)
    : option (result Error JournaledState * CacheDB SharedBackend) :=
  match loaded with
  | [] => Some (Ok j, d)
  | a :: rest =>
      acc ← state j !! a;
      if is_created acc then init_accounts rest j d
      else
        match basic a d with
        | (Err e, d) => Some (Err (DatabaseError e), d)
        | (Ok None, d) => Some (Err (MissingAccount a), d)
        | (Ok (Some i), d) => init_accounts rest (set_state (<[a := set_account_info i acc]> (state j)) j) d
        end
  end.
Definition loaded_accounts b : list Z :=
  filter (λ a, is_precompile (spec_id (inner b)) a = false ∧ a ∉ persistent_accounts (inner b))
    (hash_iter (dom (state (fork_init_journaled_state b)))).
Definition prepare_fork (loaded : list Z) (init : JournaledState) (idx : nat) : M unit :=
  w ← get;
  match get_fork idx (inner (self w)) with
  | None => mret tt
  | Some f =>
      '(r, d) ← unwrap (init_accounts loaded init (fork_db f));
      match r with
      | Ok j => put_fork idx (mkFork d j)
      | Err e => put_fork idx (mkFork d (journaled_state f)) ;; fail e
      end
  end.
Definition prepare_init_journal_state : M unit :=
  w ← get;
  for_each (prepare_fork (loaded_accounts (self w)) (fork_init_journaled_state (self w)))
    (seq 0 (length (inner_forks (inner (self w))))).
Definition first_selection : M unit :=
  w ← get;
  modify (on_self (set_init_journaled_state (active_journal w))) ;;
  prepare_init_journal_state ;;
  modify (on_self (λ b, set_init_journaled_state (set_depth 0 (fork_init_journaled_state b)) b)).

(** *** Selecting a fork *)

(** The journal of the fork that is left, and the caller in a fork that was
    never selected. *)
Definition leave_fork (active target : nat) : M unit :=
  w ← get;
  f ← the_fork active;
  put_fork active (mkFork (fork_db f) (active_journal w)) ;;
  t ← the_fork target;
  let c := caller (tx (cur_env w)) in
  match state (active_journal w) !! c with
  | Some acc =>
      if depth (journaled_state t) =? 0 then
        let '(r, d) := basic c (fork_db t) in
        put_fork target (mkFork d (journaled_state t)) ;;
        match r with
        | Err e => fail (DatabaseError e)
        | Ok None => fail (MissingAccount c)
        | Ok (Some i) =>
            put_fork target (mkFork d (set_state (<[c := set_account_info i acc]> (state (journaled_state t)))
                                         (journaled_state t)))
        end
      else mret tt
  | None => mret tt
  end.

(** The slots of a persistent account in the journal of the target take the
    values of the database that is left. *)
Definition sync_account (values : Storage) (a : Account) : Account :=
  set_account_storage
    (map_imap (λ k slot, Some match values !! k with Some v => set_present v slot | None => slot end)
       (account_storage a)) a.
Definition sync_one (st : CacheDB SharedBackend * JournaledState) (addr : Z) : CacheDB SharedBackend * JournaledState :=
  let '(d, j) := st in
  match db_load_account addr d with
  | (Err _, d) => (d, j)
  | (Ok a, d) =>
      match state j !! addr with
      | None => (d, j)
      | Some acc => (d, set_state (<[addr := sync_account (storage a) acc]> (state j)) j)
      end
  end.

Definition hand_over (target : nat) : M unit :=
  w ← get;
  f ← take_fork target;
  let persistent := hash_iter (persistent_accounts (inner (self w))) in
  f ← match active_fork_ids (self w) with
      | None => mret f
      | Some (_, active) =>
          a ← the_fork active;
          let '(d, j) := foldl sync_one (fork_db a, journaled_state f) persistent in
          put_fork active (mkFork d (journaled_state a)) ;; mret (mkFork (fork_db f) j)
      end;
  let f := mkFork (fork_db f) (set_depth (depth (active_journal w)) (journaled_state f)) in
  let f := enter_caller (caller (tx (cur_env w))) (active_journal w) f in
  '(j, f) ← match active_fork_ids (self w) with
            | None =>
                mret (merge_account_data (strategy (self w)) persistent (mem_db (self w)) (active_journal w) f)
            | Some (_, active) =>
                a ← the_fork active;
                mret (merge_account_data (strategy (self w)) persistent (fork_db a) (active_journal w) f)
            end;
  modify (set_active_journal j) ;; put_fork target f.

(** The types of the two forks, which the strategies are told. *)
Definition fork_types (fork_id : ForkId) : M (ForkType * ForkType) :=
  w ← get;
  from ← match active_fork_id (self w) with
         | None => mret Zk
         | Some a => i ← fork_id_of a; fork_type_of (service_url i (service (self w))) Evm
         end;
  to ← fork_type_of (service_url fork_id (service (self w))) Evm;
  mret (from, to).

Definition select_fork (id : Z) : M unit :=
  w ← get;
  if is_active_fork id (self w) then mret tt
  else
    (match active_fork_id (self w) with
     | None => mret tt
     | Some a =>
         i ← fork_id_of a;
         with_service (λ s, (tt, service_update_block i (number (block (cur_env w))) (timestamp (block (cur_env w))) s))
     end) ;;
    fork_id ← fork_id_of id;
    idx ← or_fail NoForkFound (ensure_fork_index fork_id (inner (self w)));
    fork_types fork_id ;;
    fork_env ← env_of id fork_id;
    match active_fork_ids (self w) with
    | Some (_, active) => leave_fork active idx
    | None => first_selection
    end ;;
    hand_over idx ;;
    modify (on_self (set_active (Some (id, idx)))) ;;
    modify (λ w, set_cur_env (update_current_env_with_fork_env (cur_env w) fork_env) w).

Definition create_select_fork (f : CreateFork) : M Z := id ← create_fork f; select_fork id ;; mret id.

(** *** Rolling a fork *)

(** The accounts of the journal that is left: created ones are kept when they
    were touched, the others are loaded again. *)
Definition keep_or_load (c : StrategyContext) (j : JournaledState) (f : Fork) (addr : Z) : Fork :=
  match state j !! addr with
  | None => f
  | Some acc =>
      if is_created acc then
        if is_touched acc then mkFork (fork_db f) (merge_journal c addr j (journaled_state f)) else f
      else let '(j', d) := load_account addr (journaled_state f) (fork_db f) in mkFork d j'
  end.
Definition rolled_fork b (j : JournaledState) (f : Fork) : Fork :=
  let c := strategy b in
  let persistent := persistent_accounts (inner b) ∪
                    match inner_caller (inner b) with Some a => {[a]} | None => ∅ end in
  let init := set_depth (depth j) (fork_init_journaled_state b) in
  let f := mkFork (fork_db f) (foldl (λ j' addr, merge_journal c addr j j') init (hash_iter persistent)) in
  foldl (keep_or_load c j) f (hash_iter (dom (state j))).

Definition roll_fork (id : option Z) (block_number : Z) : M unit :=
  w ← get;
  id ← lift (ensure_fork id (self w));
  fork_id ← fork_id_of id;
  r ← with_service (service_roll fork_id block_number);
  '(fork_id, shared, fork_env) ← created r;
  rolled ← unwrap (inner_roll_fork (strategy (self w)) id fork_id shared (inner (self w)));
  '(_, i) ← lift rolled;
  modify (on_self (set_inner i)) ;;
  match active_fork_ids (self w) with
  | Some (active_id, active_idx) =>
      if active_id =? id then
        modify (λ w, set_cur_env (update_current_env_with_fork_env (cur_env w) fork_env) w) ;;
        f ← the_fork active_idx;
        w ← get;
        let f := rolled_fork (self w) (active_journal w) f in
        put_fork active_idx f ;;
        modify (set_active_journal (journaled_state f))
      else mret tt
  | None => mret tt
  end.

(** *** Transactions of the remote chain *)

(** The EVM runs the transaction on a backend of its own, whose service was just
    spawned, at a depth. *)
Context (spawned : Service) (evm_transact : Backend → Env → RpcTransaction → Z → result Error (gmap Z Account)).

(** The values that the database has for the slots of an account; an error
    keeps what was read before. *)
Fixpoint update_slots (addr : Z) (keys : list Z) (a : Account) (d : CacheDB SharedBackend)
    : option Error * Account * CacheDB SharedBackend :=
  match keys with
  | [] => (None, a, d)
  | k :: keys =>
      match db_storage addr k d with
      | (Err e, d) => (Some (DatabaseError e), a, d)
      | (Ok v, d) => update_slots addr keys (set_account_storage (alter (set_present v) k (account_storage a)) a) d
      end
  end.
Definition update_account (addr : Z) (a : Account) (d : CacheDB SharedBackend)
    : option Error * Account * CacheDB SharedBackend :=
  match basic addr d with
  | (Err e, d) => (Some (DatabaseError e), a, d)
  | (Ok i, d) =>
      update_slots addr (hash_iter (dom (account_storage a))) (set_account_info (default info_default i) a) d
  end.
Fixpoint update_state (persistent : gset Z) (addrs : list Z) (m : gmap Z Account) (d : CacheDB SharedBackend)
    : option Error * gmap Z Account * CacheDB SharedBackend :=
  match addrs with
  | [] => (None, m, d)
  | addr :: addrs =>
      match m !! addr with
      | Some a =>
          if decide (addr ∈ persistent) then update_state persistent addrs m d
          else
            match update_account addr a d with
            | (Some e, a, d) => (Some e, <[addr := a]> m, d)
            | (None, a, d) => update_state persistent addrs (<[addr := a]> m) d
            end
      | None => update_state persistent addrs m d
      end
  end.
Definition update_journal (persistent : gset Z) (j : JournaledState) (d : CacheDB SharedBackend)
    : option Error * JournaledState * CacheDB SharedBackend :=
  let '(e, m, d) := update_state persistent (hash_iter (dom (state j))) (state j) d in (e, set_state m j, d).

Definition fail_if (e : option Error) : M unit := match e with Some e => fail e | None => mret tt end.
Definition apply_state_changeset (changes : gmap Z Account) (idx : nat) (persistent : gset Z) : M unit :=
  w ← get;
  f ← the_fork idx;
  let '(e, j, d) := update_journal persistent (active_journal w) (commit changes (fork_db f)) in
  put_fork idx (mkFork d (journaled_state f)) ;; modify (set_active_journal j) ;; fail_if e ;;
  let '(e, j, d) := update_journal persistent (journaled_state f) d in
  put_fork idx (mkFork d j) ;; fail_if e.

Definition commit_transaction (t : RpcTransaction) (e : Env) (idx : nat) (fork_id : ForkId) (persistent : gset Z)
    : M unit :=
  w ← get;
  f ← the_fork idx;
  temporary ← created (new_with_fork (strategy (self w)) spawned fork_id f (active_journal w));
  changes ← lift (evm_transact temporary e t (depth (active_journal w) + 1));
  apply_state_changeset changes idx persistent.

Definition database {A} (r : result str A) : M A := match r with Ok a => mret a | Err e => fail (DatabaseError e) end.

(** The block whose state is forked, and the block of the transaction. *)
Definition get_block_number_and_block_for_transaction (id : Z) (h : Z) : M (Z * RpcBlock) :=
  idx ← fork_index_of id;
  f ← the_fork idx;
  t ← database (get_transaction h (db (fork_db f)));
  match block_number t with
  | Some n => b ← database (get_full_block (Some n) (db (fork_db f))); mret (wrap 64 (n - 1), b)
  | None => b ← database (get_full_block None (db (fork_db f))); mret (h_number (header b), b)
  end.

Definition ARBITRUM_SENDER : Z := 0xa4b05.
Definition OPTIMISM_SYSTEM_ADDRESS : Z := 0xdeaddeaddeaddeaddeaddeaddeaddeaddead0001.
Definition MONAD_SYSTEM_ADDRESS : Z := 0x6f49a8F621353f12378d0046E7d7e4b9B249DC9e.
Definition is_known_system_sender (a : Z) : bool :=
  bool_decide (a ∈ [ARBITRUM_SENDER; OPTIMISM_SYSTEM_ADDRESS; MONAD_SYSTEM_ADDRESS; 0]).

Definition is_system_transaction (t : RpcTransaction) : bool :=
  is_known_system_sender (signer t) || (ty t =? SYSTEM_TRANSACTION_TYPE).
Fixpoint replay (txs : list RpcTransaction) (h : Z) (e : Env) (idx : nat) (fork_id : ForkId) (persistent : gset Z)
    : M (option RpcTransaction) :=
  match txs with
  | [] => mret None
  | t :: txs =>
      if is_system_transaction t then replay txs h e idx fork_id persistent
      else if tx_hash t =? h then mret (Some t)
      else commit_transaction t e idx fork_id persistent ;; replay txs h e idx fork_id persistent
  end.
Definition replay_until (id : Z) (e : Env) (h : Z) : M (option RpcTransaction) :=
  w ← get;
  fork_id ← fork_id_of id;
  idx ← fork_index_of id;
  f ← the_fork idx;
  full_block ← database (get_full_block (Some (Z.min (umax 64) (number (block e)))) (db (fork_db f)));
  replay (txns full_block) h e idx fork_id (persistent_accounts (inner (self w))).

Definition roll_fork_to_transaction (id : option Z) (h : Z) : M unit :=
  w ← get;
  id ← lift (ensure_fork id (self w));
  '(fork_block, b) ← get_block_number_and_block_for_transaction id h;
  roll_fork (Some id) fork_block ;;
  modify (λ w, set_cur_env (update_env_block (cur_env w) b) w) ;;
  fork_id ← fork_id_of id;
  w ← get;
  with_service (λ s, (tt, service_update_env fork_id (block (cur_env w)) s)) ;;
  replay_until id (cur_env w) h ;; mret tt.

(** A computation with an environment and a journal of its own. *)
Definition locally {A} (e : Env) (j : JournaledState) (m : M A) : M A := λ w,
  match m (mkWorld (self w) e j) with
  | Some (r, w') => Some (r, mkWorld (self w') (cur_env w) (active_journal w))
  | None => None
  end.
Definition create_fork_at_transaction (f : CreateFork) (h : Z) : M Z :=
  id ← create_fork f;
  fork_id ← fork_id_of id;
  e ← env_of id fork_id;
  w ← get;
  locally e (new_journaled_state (spec_id (inner (self w)))) (roll_fork_to_transaction (Some id) h) ;; mret id.
Definition create_select_fork_at_transaction (f : CreateFork) (h : Z) : M Z :=
  id ← create_fork_at_transaction f h; select_fork id ;; mret id.

Definition transact (maybe_id : option Z) (h : Z) (e : Env) : M unit :=
  w ← get;
  id ← lift (ensure_fork maybe_id (self w));
  fork_id ← fork_id_of id;
  idx ← fork_index_of id;
  f ← the_fork idx;
  t ← database (get_transaction h (db (fork_db f)));
  '(_, b) ← get_block_number_and_block_for_transaction id h;
  commit_transaction t (update_env_block e b) idx fork_id (persistent_accounts (inner (self w))).

(** ** Diagnosis of a revert *)

Inductive RevertDiagnostic :=
| ContractExistsOnOtherForks (contract active : Z) (available_on : list Z)
| ContractDoesNotExist (contract active : Z) (persistent : bool).

Definition is_contract_in_state (j : JournaledState) (a : Z) : bool :=
  match state j !! a with Some acc => negb (code_hash (account_info acc) =? KECCAK_EMPTY) | None => false end.
Definition is_contract (a : Z) (f : Fork) : bool :=
  match basic_ref a (fork_db f) with
  | Ok (Some i) => negb (code_hash i =? KECCAK_EMPTY)
  | _ => false
  end || is_contract_in_state (journaled_state f) a.

(** The outer [None] is a panic. *)
Definition diagnose_revert (callee : Z) (j : JournaledState) b : option (option RevertDiagnostic) :=
  match active_fork_ids b with
  | None => Some None
  | Some (active_id, idx) =>
      active ← get_fork idx (inner b);
      if bool_decide (length (inner_forks (inner b)) = 1%nat) then Some None
      else if is_contract callee active || is_contract_in_state j callee then Some None
      else
        fs ← forks_iter (inner b);
        let available_on := fst <$> filter (λ p, is_contract callee p.2 = true) (filter (λ p, p.1 ≠ active_id) fs) in
        Some (Some (if bool_decide (available_on = [])
                    then ContractDoesNotExist callee active_id (is_persistent callee b)
                    else ContractExistsOnOtherForks callee active_id available_on))
  end.
End backend.
