(* ===== verification/BackendSpec.v ===== *)
(** * The selection of forks

    Theorems on [Backend], over any service of forks, any strategy and any
    database that keep the promises of their classes: the invariant of its
    tables, and the selection of a fork: what persistent accounts hold follows
    it, and everything else stays with its fork. *)
From S2P Require Import Prelude.
From S2P Require Import Text.
From S2P Require Import StateDb.
From S2P Require Import MultiFork.
From S2P Require Import BackendMerge.
From S2P Require Import Backend.
Local Open Scope Z_scope.

(** What is relied on of revm's database: an account that is cached is loaded
    from the cache, and loading or entering an account leaves the others alone. *)
Class DatabaseLaws {R : Remote} {Rv : Revm} {Db : Database} := {
  load_cached a d acc : accounts d !! a = Some acc → db_load_account a d = (Ok acc, d);
  load_other a d r d' b : db_load_account a d = (r, d') → b ≠ a → accounts d' !! b = accounts d !! b;
  insert_other a i d b : b ≠ a → accounts (insert_account_info a i d) !! b = accounts d !! b;
}.

Ltac run_M :=
  unfold take_fork, the_fork, put_fork, get, modify, unwrap, mbind, M_bind, mret, M_ret, fail, or_fail, lift,
    with_service, fork_id_of, fork_index_of, env_of.

Section spec.
Context {R : Remote} {Rv : Revm} {Fs : ForkService} {St : BackendStrategy} {Db : Database} {Iter : HashIter}.
Context {FsL : ForkServiceLaws}.
Implicit Types (b : Backend) (i : BackendInner) (w : World) (id : Z) (idx : nat).

(** ** The invariant

    The number of a fork is its place, every identifier of the service that was
    ever used belongs to one place, and the active fork and the snapshots refer
    to places that exist. *)
Definition numbered (i : BackendInner) (id : Z) (idx : nat) : Prop :=
  id = Z.of_nat idx ∧ (idx < length (inner_forks i))%nat.
Record wf b : Prop := {
  wf_next : next_fork_id (inner b) = Z.of_nat (length (inner_forks (inner b)));
  wf_forks : Forall is_Some (inner_forks (inner b));
  wf_issued id fork_id : issued_local_fork_ids (inner b) !! id = Some fork_id →
    ∃ idx, created_forks (inner b) !! fork_id = Some idx ∧ numbered (inner b) id idx;
  wf_all idx : (idx < length (inner_forks (inner b)))%nat → is_Some (issued_local_fork_ids (inner b) !! Z.of_nat idx);
  wf_created fork_id idx : created_forks (inner b) !! fork_id = Some idx →
    (idx < length (inner_forks (inner b)))%nat ∧ is_Some (service_env fork_id (service b));
  wf_active id idx : active_fork_ids b = Some (id, idx) → numbered (inner b) id idx;
  wf_snapshots n s : StateDb.state_snapshots (state_snapshots (inner b)) !! n = Some s →
    match snap_db s with
    | Forked id fork_id idx _ => numbered (inner b) id idx ∧ created_forks (inner b) !! fork_id = Some idx
    | InMemory _ => True
    end;
  wf_service : service_ok (service b);
}.

Lemma get_fork_some b idx : wf b → (idx < length (inner_forks (inner b)))%nat → ∃ f, get_fork idx (inner b) = Some f.
Proof.
  intros Hwf Hidx. destruct (lookup_lt_is_Some_2 _ _ Hidx) as [o Ho]. unfold get_fork. rewrite Ho.
  exact (Forall_lookup_1 _ _ _ _ (wf_forks b Hwf) Ho).
Qed.
Lemma get_set_fork idx f i n :
  (idx < length (inner_forks i))%nat →
  get_fork n (set_fork idx f i) = if decide (n = idx) then f else get_fork n i.
Proof.
  intros Hidx. unfold get_fork, set_fork. cbn. case_decide; [subst|].
  - by rewrite list_lookup_insert_eq.
  - by rewrite list_lookup_insert_ne.
Qed.
Lemma get_fork_lt idx i f : get_fork idx i = Some f → (idx < length (inner_forks i))%nat.
Proof.
  unfold get_fork. destruct (inner_forks i !! idx) eqn:Hi; [|done]. intros _. by eapply lookup_lt_Some.
Qed.

(** What the invariant reads of a backend. *)
Record similar b b' : Prop := {
  si_ids : issued_local_fork_ids (inner b') = issued_local_fork_ids (inner b) ∧
    created_forks (inner b') = created_forks (inner b) ∧ next_fork_id (inner b') = next_fork_id (inner b);
  si_length : length (inner_forks (inner b')) = length (inner_forks (inner b));
  si_forks : Forall is_Some (inner_forks (inner b')) ↔ Forall is_Some (inner_forks (inner b));
  si_active : active_fork_ids b' = active_fork_ids b;
  si_snapshots n s : StateDb.state_snapshots (state_snapshots (inner b')) !! n = Some s →
    StateDb.state_snapshots (state_snapshots (inner b)) !! n = Some s;
  si_service : service_ok (service b) → service_ok (service b') ∧
    ∀ k, is_Some (service_env k (service b)) → is_Some (service_env k (service b'));
}.
#[export] Instance similar_trans : PreOrder similar.
Proof.
  split.
  - intros b. by split.
  - intros b1 b2 b3 [(Hi1 & Hc1 & Hn1) Hl1 Hf1 Ha1 Hs1 Hv1] [(Hi2 & Hc2 & Hn2) Hl2 Hf2 Ha2 Hs2 Hv2].
    split; [split_and!; congruence|congruence|tauto|congruence|auto|].
    intros Hok. destruct (Hv1 Hok) as [Hok1 ?]. destruct (Hv2 Hok1). split; auto.
Qed.

Lemma wf_similar b b' : similar b b' → wf b → wf b'.
Proof.
  intros [(Hi & Hc & Hn) Hl Hf Ha Hs Hsv] [H1 H2 H3 H4 H5 H6 H7 H8]. unfold numbered in *.
  destruct (Hsv H8) as [Hok Henv].
  split; unfold numbered; rewrite ?Hi, ?Hc, ?Hn, ?Hl, ?Ha; try done; [by apply Hf|eauto|..].
  - intros fork_id idx Hcr. destruct (H5 fork_id idx Hcr). auto.
  - intros n s Hsn. apply Hs, H7 in Hsn. case_match; [done|]. by rewrite ?Hl, ?Hc.
Qed.

Lemma similar_same b b' :
  inner b' = inner b → active_fork_ids b' = active_fork_ids b → service b' = service b → similar b b'.
Proof. intros Hi Ha Hs. split; rewrite ?Hi, ?Ha, ?Hs; done. Qed.
Lemma similar_set_fork b idx f :
  (∃ g, get_fork idx (inner b) = Some g) → similar b (on_inner (set_fork idx (Some f)) b).
Proof.
  intros [g Hg]. unfold get_fork in Hg. destruct (inner_forks (inner b) !! idx) as [o|] eqn:Ho; [|done]. cbn in Hg. subst o.
  split; try done; cbn; [by rewrite length_insert|].
  split; intros Hall; [|by apply Forall_insert].
  rewrite <-(list_insert_id _ _ _ Ho). rewrite <-(list_insert_insert_eq _ idx (Some g) (Some f)). by apply Forall_insert.
Qed.


(** ** The selection of a fork, step by step *)

Definition persistent_list w : list Z := hash_iter (persistent_accounts (inner (self w))).
Definition the_caller w : Z := caller (tx (cur_env w)).

(** The target, with the journal [j] it has when its persistent slots are
    synchronised, after the accounts of the active side were merged into it. *)
Definition entered w (f : Fork) (j : JournaledState) : Fork :=
  enter_caller (the_caller w) (active_journal w)
    (mkFork (fork_db f) (set_depth (depth (active_journal w)) j)).
Definition handed {Ext} w (f : Fork) (j : JournaledState) (d : CacheDB Ext) : Fork :=
  foldl (merge_account (strategy (self w)) d (active_journal w)) (entered w f j) (persistent_list w).

Lemma hand_over_forked w t id n f a :
  get_fork t (inner (self w)) = Some f → active_fork_ids (self w) = Some (id, n) →
  get_fork n (inner (self w)) = Some a → n ≠ t →
  let dj := foldl sync_one (fork_db a, journaled_state f) (persistent_list w) in
  hand_over t w = Some (Ok tt,
    mkWorld (on_inner (λ i, set_inner_forks (<[t := Some (handed w f dj.2 dj.1)]>
                               (<[n := Some (mkFork dj.1 (journaled_state a))]> (inner_forks i))) i) (self w))
      (cur_env w) (journaled_state (handed w f dj.2 dj.1))).
Proof.
  intros Hf Hact Ha Hn dj. unfold hand_over. run_M. cbn. rewrite Hf. cbn. rewrite Hact. cbn.
  rewrite get_set_fork by by eapply get_fork_lt. rewrite decide_False by done. rewrite Ha. cbn.
  unfold persistent_list in dj. change (foldl sync_one _ _) with dj. destruct dj as [d j] eqn:Hdj. cbn.
  rewrite get_set_fork by (unfold set_fork; cbn; rewrite length_insert; by eapply get_fork_lt).
  rewrite decide_True by done. cbn. unfold on_self, on_inner, set_fork, set_inner, set_inner_forks. cbn.
  rewrite (list_insert_insert_ne _ n t) by done. by rewrite list_insert_insert_eq.
Qed.

Lemma hand_over_first w t f :
  get_fork t (inner (self w)) = Some f → active_fork_ids (self w) = None →
  let f' := handed w f (journaled_state f) (mem_db (self w)) in
  hand_over t w = Some (Ok tt,
    mkWorld (on_inner (λ i, set_inner_forks (<[t := Some f']> (inner_forks i)) i) (self w))
      (cur_env w) (journaled_state f')).
Proof.
  intros Hf Hact f'. unfold hand_over. run_M. cbn. rewrite Hf. cbn. rewrite Hact. cbn.
  unfold on_self, on_inner, set_fork, set_inner, set_inner_forks. cbn. by rewrite list_insert_insert_eq.
Qed.

(** *** What the steps keep *)

Lemma sync_one_spec d j a d' j' :
  sync_one (d, j) a = (d', j') →
  (∀ k, k ≠ a → state j' !! k = state j !! k) ∧ logs j' = logs j ∧ depth j' = depth j.
Proof.
  cbn. destruct (db_load_account a d) as [[acc|e] d1]; [|by intros [= <- <-]].
  destruct (state j !! a) as [x|] eqn:Hx; intros [= <- <-]; [|done]. split; [|done].
  intros k Hk. cbn. by rewrite lookup_insert_ne.
Qed.
Lemma sync_other l d j a :
  a ∉ l → state (foldl sync_one (d, j) l).2 !! a = state j !! a.
Proof.
  revert d j. induction l as [|x l IH]; intros d j Ha; [done|]. cbn [foldl].
  destruct (sync_one (d, j) x) as [d' j'] eqn:Hs. rewrite IH by set_solver.
  by apply (sync_one_spec d j x d' j' Hs); set_solver.
Qed.

Lemma enter_caller_other c j f a : a ≠ c → state (journaled_state (enter_caller c j f)) !! a = state (journaled_state f) !! a.
Proof. intros Ha. unfold enter_caller. case_match; [done|]. cbn. by rewrite lookup_insert_ne. Qed.

Context {StL : BackendStrategyLaws}.

Lemma NoDup_persistent w : NoDup (persistent_list w).
Proof. apply NoDup_hash_iter. Qed.
Lemma elem_of_persistent w a : a ∈ persistent_list w ↔ a ∈ persistent_accounts (inner (self w)).
Proof. apply elem_of_hash_iter. Qed.

(** Accounts that are neither persistent nor the caller are those of the fork. *)
Lemma handed_other {Ext} w f j (d : CacheDB Ext) a :
  a ∉ persistent_accounts (inner (self w)) → a ≠ the_caller w → a ∉ system →
  state (journaled_state (handed w f j d)) !! a = state j !! a.
Proof.
  intros Hp Hc Hs. unfold handed.
  destruct (merge_all (strategy (self w)) d (active_journal w) (entered w f j) (persistent_list w) a
              (NoDup_persistent w) Hs) as [-> _].
  rewrite decide_False by by rewrite elem_of_persistent. unfold entered. by rewrite enter_caller_other.
Qed.
(** Persistent accounts are merged. *)
Lemma handed_persistent {Ext} w f j (d : CacheDB Ext) a :
  a ∈ persistent_accounts (inner (self w)) → a ∉ system →
  state (journaled_state (handed w f j d)) !! a =
    merged_account (state (active_journal w) !! a) (state (journaled_state (entered w f j)) !! a) ∧
  accounts (fork_db (handed w f j d)) !! a =
    merged_db_account (accounts d !! a) (accounts (fork_db (entered w f j)) !! a).
Proof.
  intros Hp Hs. unfold handed.
  destruct (merge_all (strategy (self w)) d (active_journal w) (entered w f j) (persistent_list w) a
              (NoDup_persistent w) Hs) as [-> ->].
  by rewrite !decide_True by by rewrite elem_of_persistent.
Qed.

(** [leave_fork] stores the journal and touches the caller of the target only. *)
Lemma leave_fork_spec w n t a f :
  wf (self w) → n ≠ t → get_fork n (inner (self w)) = Some a → get_fork t (inner (self w)) = Some f →
  ∃ r f', leave_fork n t w = Some (r, on_self (on_inner (λ i, set_fork t (Some f')
      (set_fork n (Some (mkFork (fork_db a) (active_journal w))) i))) w) ∧
    (∀ k, k ≠ the_caller w → state (journaled_state f') !! k = state (journaled_state f) !! k).
Proof.
  intros Hwf Hnt Ha Hf. pose proof (get_fork_lt _ _ _ Ha) as Hln. pose proof (get_fork_lt _ _ _ Hf) as Hlt.
  set (w1 := on_self (on_inner (set_fork n (Some (mkFork (fork_db a) (active_journal w))))) w).
  assert (Hf1 : get_fork t (inner (self w1)) = Some f).
  { cbn. rewrite get_set_fork by done. by rewrite decide_False by done. }
  assert (Hid : w1 = on_self (on_inner (λ i, set_fork t (Some f)
      (set_fork n (Some (mkFork (fork_db a) (active_journal w))) i))) w).
  { unfold w1, on_self, on_inner, set_inner. cbn. do 2 f_equal. unfold set_fork, set_inner_forks. cbn. f_equal.
    symmetry. apply list_insert_id. unfold get_fork in Hf. destruct (inner_forks (inner (self w)) !! t) eqn:Ht; [|done].
    cbn in Hf. subst. by rewrite list_lookup_insert_ne by done. }
  unfold leave_fork. run_M. cbn -[on_self get_fork]. rewrite Ha. cbn -[on_self get_fork]. fold w1. rewrite Hf1.
  cbn -[on_self get_fork].
  destruct (state (active_journal w) !! _) as [acc|]; [|by exists (Ok tt), f; rewrite Hid].
  case_match; [|by exists (Ok tt), f; rewrite Hid].
  destruct (basic _ _) as [[[i|]|e] d]; cbn.
  - eexists (Ok tt), (mkFork d (set_state (<[the_caller w := set_account_info i acc]> (state (journaled_state f)))
                                  (journaled_state f))). split.
    + unfold w1, on_self, on_inner, set_inner. cbn. do 4 f_equal. unfold set_fork, set_inner_forks. cbn. f_equal.
      by rewrite list_insert_insert_eq.
    + intros k Hk. cbn. by rewrite lookup_insert_ne.
  - eexists _, (mkFork d (journaled_state f)). split; [|done].
    unfold w1, on_self, on_inner, set_inner. cbn. do 4 f_equal. 
  - eexists _, (mkFork d (journaled_state f)). split; [|done].
    unfold w1, on_self, on_inner, set_inner. cbn. do 4 f_equal.
Qed.

(** *** The first selection *)

Lemma init_accounts_spec loaded j d :
  (∀ a, a ∈ loaded → is_Some (state j !! a)) →
  ∃ r d', init_accounts loaded j d = Some (r, d') ∧
    ∀ j', r = Ok j' →
      (∀ a, a ∉ loaded → state j' !! a = state j !! a) ∧
      (∀ a, account_storage <$> state j' !! a = account_storage <$> state j !! a).
Proof.
  revert j d. induction loaded as [|a l IH]; intros j d Hl.
  { eexists _, _. split; [done|]. by intros j' [= <-]. }
  cbn [init_accounts]. destruct (Hl a) as [acc Hacc]; [left|]. rewrite Hacc. cbn.
  assert (Hrest : ∀ x, x ∈ l → is_Some (state j !! x)) by (intros x Hx; apply Hl; by right).
  destruct (is_created acc).
  { destruct (IH j d Hrest) as (r & d' & Hr & Hj). eexists _, _. split; [done|].
    intros j' Hok. destruct (Hj j' Hok) as [H1 H2]. split; [|done]. intros x Hx. apply H1. set_solver. }
  destruct (basic a d) as [[[i|]|e] d1]; [|by eexists _, _; split; [done|]..].
  set (j1 := set_state _ j).
  destruct (IH j1 d1) as (r & d' & Hr & Hj).
  { intros x Hx. cbn. destruct (decide (x = a)) as [->|Hne]; [rewrite lookup_insert_eq; by eexists|].
    rewrite lookup_insert_ne by done. auto. }
  eexists _, _. split; [done|]. intros j' Hok. destruct (Hj j' Hok) as [H1 H2]. split.
  - intros x Hx. rewrite H1 by set_solver. cbn. rewrite lookup_insert_ne by set_solver. done.
  - intros x. rewrite H2. cbn. destruct (decide (x = a)) as [->|Hne].
    + by rewrite lookup_insert_eq, Hacc.
    + by rewrite lookup_insert_ne.
Qed.

(** What preparing has made of the journal of a fork. *)
Definition prepared (loaded : list Z) (init : JournaledState) (f : Fork) : Prop :=
  (∀ a, a ∉ loaded → state (journaled_state f) !! a = state init !! a) ∧
  (∀ a, account_storage <$> state (journaled_state f) !! a = account_storage <$> state init !! a).

Lemma prepare_forks_spec loaded init ns w :
  (∀ a, a ∈ loaded → is_Some (state init !! a)) → NoDup ns →
  (∀ n, n ∈ ns → ∃ f, get_fork n (inner (self w)) = Some f) →
  ∃ r l, for_each (prepare_fork loaded init) ns w = Some (r, on_self (on_inner (set_inner_forks l)) w) ∧
    length l = length (inner_forks (inner (self w))) ∧
    (Forall is_Some (inner_forks (inner (self w))) → Forall is_Some l) ∧
    (∀ n, n ∉ ns → l !! n = inner_forks (inner (self w)) !! n) ∧
    (r = Ok tt → ∀ n, n ∈ ns → ∃ f, l !! n = Some (Some f) ∧ prepared loaded init f).
Proof.
  intros Hl Hns. revert w. induction Hns as [|n ns Hn Hns IH]; intros w Hw.
  { exists (Ok tt), (inner_forks (inner (self w))). split_and!; try done; [by destruct w as [[? ? ? ? ? [] ?] ? ?]|set_solver]. }
  destruct (Hw n) as [f Hf]; [left|]. cbn [for_each]. unfold mbind, M_bind.
  assert (Hlt := get_fork_lt _ _ _ Hf).
  destruct (init_accounts_spec loaded init (fork_db f) Hl) as (r0 & d0 & Hr0 & Hj0).
  assert (Hstep : ∃ r f', prepare_fork loaded init n w = Some (r, on_self (on_inner (set_fork n (Some f'))) w) ∧
    (r = Ok tt → prepared loaded init f')).
  { unfold prepare_fork. run_M. cbn -[on_self get_fork]. rewrite Hf, Hr0. cbn -[on_self get_fork].
    destruct r0 as [j'|e]; cbn -[on_self].
    - exists (Ok tt), (mkFork d0 j'). split; [done|]. intros _. by apply Hj0.
    - exists (Err e), (mkFork d0 (journaled_state f)). done. }
  destruct Hstep as (r & f' & -> & Hp). set (w1 := on_self _ w).
  assert (Hsome : Forall is_Some (inner_forks (inner (self w))) →
    Forall is_Some (<[n := Some f']> (inner_forks (inner (self w))))) by (intros; by apply Forall_insert).
  destruct r as [[]|e].
  - destruct (IH w1) as (r & l & Hr & Hlen & Hall & Hout & Hin).
    { intros m Hm. cbn. rewrite get_set_fork by done. case_decide; [by eexists|]. apply Hw. by right. }
    exists r, l. rewrite Hr. cbn in Hlen, Hall, Hout, Hin |- *. rewrite length_insert in Hlen. split_and!; try done.
    + auto.
    + intros m Hm. rewrite Hout by set_solver. rewrite list_lookup_insert_ne by set_solver. done.
    + intros Hok m [->|Hm]%elem_of_cons; [|by apply Hin].
      exists f'. rewrite Hout by done. rewrite list_lookup_insert_eq by done. split; [done|]. by apply Hp.
  - exists (Err e), (<[n := Some f']> (inner_forks (inner (self w)))). split_and!; try done.
    + by rewrite length_insert.
    + intros m Hm. rewrite list_lookup_insert_ne by set_solver. done.
Qed.

Lemma first_selection_spec w :
  wf (self w) →
  ∃ r l init, first_selection w = Some (r, on_self (λ b, set_init_journaled_state init
      (on_inner (set_inner_forks l) b)) w) ∧
    length l = length (inner_forks (inner (self w))) ∧ Forall is_Some l ∧
    (r = Ok tt → init = set_depth 0 (active_journal w) ∧
       ∀ n f, l !! n = Some (Some f) →
         prepared (loaded_accounts (set_init_journaled_state (active_journal w) (self w))) (active_journal w) f).
Proof.
  intros Hwf. set (b1 := set_init_journaled_state (active_journal w) (self w)).
  set (w1 := mkWorld b1 (cur_env w) (active_journal w)).
  destruct (prepare_forks_spec (loaded_accounts b1) (active_journal w) (seq 0 (length (inner_forks (inner b1)))) w1)
    as (r & l & Hr & Hlen & Hall & _ & Hin).
  { intros a [_ Ha]%list_elem_of_filter. rewrite elem_of_hash_iter, elem_of_dom in Ha. done. }
  { apply NoDup_seq. }
  { intros n [_ Hn]%elem_of_seq. apply (get_fork_some (self w)); [done|]. cbn in Hn. lia. }
  unfold first_selection, prepare_init_journal_state, get, modify, mbind, M_bind.
  change (on_self (set_init_journaled_state (active_journal w)) w) with w1. cbn [self w1 fork_init_journaled_state b1 set_init_journaled_state].
  fold b1. rewrite Hr. specialize (Hall (wf_forks _ Hwf)).
  destruct r as [[]|e].
  - exists (Ok tt), l, (set_depth 0 (active_journal w)). split_and!; try done. intros _. split; [done|].
    intros n f Hn. destruct (Hin eq_refl n) as (f' & Hf' & Hp).
    { apply elem_of_seq. apply lookup_lt_Some in Hn. cbn in Hlen |- *. lia. }
    rewrite Hf' in Hn. by simplify_eq.
  - exists (Err e), l, (active_journal w). split_and!; done.
Qed.

(** *** The whole selection *)

Lemma fork_type_of_spec url t w : ∃ r m, fork_type_of url t w = Some (Ok r, on_self (set_fork_url_type m) w).
Proof.
  unfold fork_type_of. run_M. destruct url as [u|].
  - destruct (fork_url_type (self w) !! u); [|by eexists _, _].
    eexists _, (fork_url_type (self w)). by destruct w as [[] ? ?].
  - eexists _, (fork_url_type (self w)). by destruct w as [[] ? ?].
Qed.
Lemma fork_id_of_run id w (i : ForkId) : issued_local_fork_ids (inner (self w)) !! id = Some i → fork_id_of id w = Some (Ok i, w).
Proof. intros Hi. unfold fork_id_of. run_M. unfold ensure_fork_id. by rewrite Hi. Qed.
Lemma fork_types_spec fork_id w :
  wf (self w) → ∃ ts m, fork_types fork_id w = Some (Ok ts, on_self (set_fork_url_type m) w).
Proof.
  intros Hwf.
  assert (Hfrom : ∃ t m, (match active_fork_id (self w) with
      | None => mret Zk
      | Some a => i ← fork_id_of a; fork_type_of (service_url i (service (self w))) Evm
      end : M ForkType) w = Some (Ok t, on_self (set_fork_url_type m) w)).
  { unfold active_fork_id. destruct (active_fork_ids (self w)) as [[a n]|] eqn:Ha; cbn [fmap option_fmap option_map fst].
    - destruct (wf_active _ Hwf a n Ha) as [-> Hlt]. destruct (wf_all _ Hwf n Hlt) as [i Hi].
      unfold mbind at 1, M_bind at 1. rewrite (fork_id_of_run _ _ i Hi). apply fork_type_of_spec.
    - exists Zk, (fork_url_type (self w)). by destruct w as [[] ? ?]. }
  destruct Hfrom as (t & m & Hfrom). unfold fork_types.
  set (from := (match active_fork_id (self w) with Some _ => _ | None => _ end)) in *.
  assert (Hrun : ∃ ts m', (from ≫= λ from, fork_type_of (service_url fork_id (service (self w))) Evm ≫= λ to, mret (from, to)) w =
            Some (Ok ts, on_self (set_fork_url_type m') w)).
  { unfold mbind, M_bind. rewrite Hfrom.
    destruct (fork_type_of_spec (service_url fork_id (service (self w))) Evm (on_self (set_fork_url_type m) w))
      as (r & m' & ->). by eexists _, m'. }
  exact Hrun.
Qed.

(** The world after the block of the active fork was stored. *)
Definition block_stored w : World :=
  match a ← active_fork_id (self w); issued_local_fork_ids (inner (self w)) !! a with
  | Some i => on_self (λ b, set_service (service_update_block i (number (block (cur_env w)))
                              (timestamp (block (cur_env w))) (service b)) b) w
  | None => w
  end.
Lemma block_stored_similar w : wf (self w) → similar (self w) (self (block_stored w)).
Proof.
  intros Hwf. unfold block_stored. destruct (active_fork_id (self w) ≫= _) as [i|]; [|done]. split; try done. intros Hok.
  destruct (update_block_ok i (number (block (cur_env w))) (timestamp (block (cur_env w))) _ Hok) as [Hok' Hj].
  split; [done|]. intros k Hk. cbn. rewrite Hj. case_decide; [subst; by rewrite fmap_is_Some|done].
Qed.

(** The snapshots, which no selection touches. *)
Definition snaps w : StateSnapshots BackendStateSnapshot := state_snapshots (inner (self w)).

(** What a successful selection of the fork at [t] leaves: [f] is the target
    before the accounts were merged, [j] its journal then. *)
Record selected w id w' : Prop := {
  sel_fork : ∃ t fork_id e, numbered (inner (self w)) id t ∧
    issued_local_fork_ids (inner (self w)) !! id = Some fork_id ∧
    service_env fork_id (service (self (block_stored w))) = Some e ∧
    active_fork_ids (self w') = Some (id, t) ∧
    cur_env w' = update_current_env_with_fork_env (cur_env w) e ∧
    match active_fork_ids (self w) with
    | Some (_, n) => ∃ a f g, n ≠ t ∧ get_fork n (inner (self w)) = Some a ∧ get_fork t (inner (self w)) = Some g ∧
        (∀ k, k ≠ the_caller w → state (journaled_state f) !! k = state (journaled_state g) !! k) ∧
        let dj := foldl sync_one (fork_db a, journaled_state f) (persistent_list w) in
        inner_forks (inner (self w')) =
          <[t := Some (handed w f dj.2 dj.1)]> (<[n := Some (mkFork dj.1 (active_journal w))]> (inner_forks (inner (self w)))) ∧
        active_journal w' = journaled_state (handed w f dj.2 dj.1)
    | None => ∃ l f, l !! t = Some (Some f) ∧ length l = length (inner_forks (inner (self w))) ∧ Forall is_Some l ∧
        (∀ n g, l !! n = Some (Some g) →
           prepared (loaded_accounts (set_init_journaled_state (active_journal w) (self w))) (active_journal w) g) ∧
        inner_forks (inner (self w')) = <[t := Some (handed w f (journaled_state f) (mem_db (self w)))]> l ∧
        active_journal w' = journaled_state (handed w f (journaled_state f) (mem_db (self w)))
    end;
  sel_inner : ∃ l, inner (self w') = set_inner_forks l (inner (self w));
  sel_service : service (self w') = service (self (block_stored w));
  sel_rest : mem_db (self w') = mem_db (self w) ∧ strategy (self w') = strategy (self w);
}.

Lemma similar_forks b l : length l = length (inner_forks (inner b)) →
  (Forall is_Some l ↔ Forall is_Some (inner_forks (inner b))) → similar b (on_inner (set_inner_forks l) b).
Proof. intros Hlen Hall. by split. Qed.
Lemma similar_same_parts b b' :
  inner b' = inner b → active_fork_ids b' = active_fork_ids b → service b' = service b → similar b b'.
Proof. apply similar_same. Qed.

Lemma select_fork_spec w id :
  wf (self w) → is_active_fork id (self w) = false →
  ∃ r w', select_fork id w = Some (r, w') ∧ (∀ e, r = Err e → wf (self w') ∧ snaps w' = snaps w) ∧ (r = Ok tt → selected w id w').
Proof.
  intros Hwf Hact. unfold select_fork. unfold get at 1, mbind at 1, M_bind at 1. rewrite Hact.
  set (store := (match active_fork_id (self w) with None => _ | Some _ => _ end) : M unit).
  assert (Hstore : store w = Some (Ok tt, block_stored w)).
  { unfold store, block_stored, active_fork_id. destruct (active_fork_ids (self w)) as [[a n]|] eqn:Ha; [|done].
    destruct (wf_active _ Hwf a n Ha) as [-> Hlt]. destruct (wf_all _ Hwf n Hlt) as [i Hi].
    cbn [fmap option_fmap option_map fst mbind option_bind]. rewrite Hi. unfold mbind at 1, M_bind at 1.
    by rewrite (fork_id_of_run _ _ i Hi). }
  pose proof (block_stored_similar w Hwf) as Hsim. pose proof (wf_similar _ _ Hsim Hwf) as Hwf1.
  assert (Hb : inner (self (block_stored w)) = inner (self w) ∧ cur_env (block_stored w) = cur_env w ∧
    active_journal (block_stored w) = active_journal w ∧ active_fork_ids (self (block_stored w)) = active_fork_ids (self w) ∧
    mem_db (self (block_stored w)) = mem_db (self w) ∧ strategy (self (block_stored w)) = strategy (self w)).
  { unfold block_stored. by case_match. }
  destruct Hb as (Hinner & Henv & Hj & Hids & Hmem & Hstr). set (w1 := block_stored w) in *.
  unfold mbind at 1, M_bind at 1. rewrite Hstore. fold w1.
  unfold mbind at 1, M_bind at 1. unfold fork_id_of at 1. unfold get, mbind at 1, M_bind at 1.
  unfold ensure_fork_id. rewrite Hinner.
  destruct (issued_local_fork_ids (inner (self w)) !! id) as [fork_id|] eqn:Hid; cbn [or_fail];
    [|eexists _, _; split; [reflexivity|]; split; [intros ? _|done]; split; [done|]; unfold snaps; cbn; by rewrite ?Hinner].
  unfold mret at 1, M_ret at 1. destruct (wf_issued _ Hwf id fork_id Hid) as (t & Hcr & Hnum).
  unfold mbind at 1, M_bind at 1. unfold ensure_fork_index. rewrite Hcr. cbn [or_fail]. unfold mret at 1, M_ret at 1.
  unfold mbind at 1, M_bind at 1.
  destruct (fork_types_spec fork_id w1 Hwf1) as (ts & m & ->). set (w2 := on_self (set_fork_url_type m) w1).
  unfold mbind at 1, M_bind at 1, env_of. unfold get, mbind at 1, M_bind at 1.
  destruct (wf_created _ Hwf1 fork_id t) as [Hlt [e He]]; [by rewrite Hinner|].
  change (service (self w2)) with (service (self w1)). rewrite He. cbn [or_fail]. unfold mret at 1, M_ret at 1.
  rewrite Hinner in Hlt.
  assert (Hwf2 : wf (self w2)) by (apply (wf_similar (self w1)); [by apply similar_same|done]).
  destruct (active_fork_ids (self w)) as [[aid n]|] eqn:Ha.
  - (* forked *)
    destruct (wf_active _ Hwf aid n Ha) as [-> Hln].
    assert (Hnt : n ≠ t).
    { intros ->. unfold is_active_fork in Hact. rewrite Ha in Hact. destruct Hnum as [-> _]. lia. }
    destruct (get_fork_some _ _ Hwf Hln) as [a Hfa]. destruct (get_fork_some _ _ Hwf Hlt) as [g Hfg].
    destruct (leave_fork_spec w2 n t a g) as (r & f & Hleave & Hcaller); [done|done|cbn; by rewrite Hinner..|].
    unfold mbind at 1, M_bind at 1. rewrite Hleave. set (w3 := on_self _ w2).
    assert (Hsim3 : similar (self w2) (self w3)).
    { unfold w3. cbn [on_self self]. etransitivity; [apply (similar_set_fork _ n (mkFork (fork_db a) (active_journal w2)))|].
      - exists a. cbn. by rewrite Hinner.
      - apply (similar_set_fork (on_inner (set_fork n (Some (mkFork (fork_db a) (active_journal w2)))) (self w2)) t f). exists g. cbn. rewrite get_set_fork by by rewrite Hinner.
        by rewrite decide_False, Hinner by done. }
    pose proof (wf_similar _ _ Hsim3 Hwf2) as Hwf3.
    destruct r as [[]|err]; [|eexists _, _; split; [reflexivity|]; split; [intros ? _|done]; split; [done|]; unfold snaps; cbn; by rewrite ?Hinner].
    assert (Ht3 : get_fork t (inner (self w3)) = Some f).
    { cbn. rewrite get_set_fork by (cbn; rewrite length_insert, Hinner; done). by rewrite decide_True. }
    assert (Hn3 : get_fork n (inner (self w3)) = Some (mkFork (fork_db a) (active_journal w))).
    { cbn. rewrite get_set_fork by (cbn; rewrite length_insert, Hinner; done). rewrite decide_False by done.
      rewrite get_set_fork by (rewrite Hinner; done). by rewrite decide_True, Hj. }
    pose proof (hand_over_forked w3 t _ n f _ Ht3 Hids Hn3 Hnt) as Hho. cbn zeta in Hho.
    unfold mbind at 1, M_bind at 1. rewrite Hho. eexists (Ok tt), _. split; [reflexivity|]. split; [done|]. intros _.
    assert (Hper : persistent_list w3 = persistent_list w) by (unfold persistent_list; cbn; by rewrite Hinner).
    assert (Hhand : ∀ dj : CacheDB SharedBackend * JournaledState, handed w3 f dj.2 dj.1 = handed w f dj.2 dj.1).
    { intros dj. unfold handed, entered, the_caller. rewrite Hper. cbn. by rewrite Hj, Henv, Hstr. }
    rewrite Hhand, Hper. cbn [fork_db journaled_state]. split.
    + exists t, fork_id, e. cbn. split_and!; try done; [by rewrite Henv|].
      rewrite Ha. exists a, f, g. split_and!; try done.
      * intros k Hk. apply Hcaller. unfold the_caller in *. cbn. by rewrite Henv.
      * rewrite Hinner. cbn. rewrite (list_insert_insert_ne _ n t) by done. by rewrite !list_insert_insert_eq.
    + cbn. rewrite Hinner. by eexists.
    + done.
    + done.
  - (* the first selection *)
    destruct (first_selection_spec w2 Hwf2) as (r & l & init & Hfirst & Hlen & Hall & Hok).
    unfold mbind at 1, M_bind at 1. rewrite Hfirst. set (w3 := on_self _ w2).
    cbn in Hlen. rewrite Hinner in Hlen.
    assert (Hwf3 : wf (self w3)).
    { apply (wf_similar (self w2)); [|done]. unfold w3. cbn [on_self self].
      etransitivity; [apply (similar_forks (self w2) l)|].
      - cbn. by rewrite Hinner.
      - split; [intros _; apply (wf_forks _ Hwf2)|done].
      - by apply similar_same. }
    destruct r as [[]|err]; [|eexists _, _; split; [reflexivity|]; split; [intros ? _|done]; split; [done|]; unfold snaps; cbn; by rewrite ?Hinner].
    destruct (Hok eq_refl) as [-> Hprep].
    destruct (get_fork_some _ t Hwf3) as [f Hf]; [cbn; by rewrite Hlen|].
    assert (Hlt3 : l !! t = Some (Some f)).
    { unfold get_fork in Hf. cbn in Hf. destruct (l !! t); [|done]. cbn in Hf. by subst. }
    pose proof (hand_over_first w3 t f Hf Hids) as Hho. cbn zeta in Hho.
    unfold mbind at 1, M_bind at 1. rewrite Hho. eexists (Ok tt), _. split; [reflexivity|]. split; [done|]. intros _.
    assert (Hper : persistent_list w3 = persistent_list w) by (unfold persistent_list; cbn; by rewrite Hinner).
    assert (Hhand : handed w3 f (journaled_state f) (mem_db (self w3)) = handed w f (journaled_state f) (mem_db (self w))).
    { unfold handed, entered, the_caller. rewrite Hper. cbn. by rewrite Hj, Henv, Hstr, Hmem. }
    rewrite Hhand. split.
    + exists t, fork_id, e. cbn. split_and!; try done; [by rewrite Henv|].
      rewrite Ha. exists l, f. split_and!; try done.
      intros n g Hn. pose proof (Hprep n g Hn) as Hp. unfold loaded_accounts in *. cbn in Hp |- *. by rewrite Hj, Hinner in Hp.
    + cbn. rewrite Hinner. by eexists.
    + done.
    + done.
Qed.

Lemma block_stored_inner w : inner (self (block_stored w)) = inner (self w).
Proof. unfold block_stored. by destruct (active_fork_id (self w) ≫= _). Qed.

Lemma selected_wf w id w' : wf (self w) → selected w id w' → wf (self w').
Proof.
  intros Hwf [(t & fork_id & e & Hnum & Hid & _ & Hact & _ & Hforks) [l Hinner] Hsv _].
  pose proof (wf_similar _ _ (block_stored_similar w Hwf) Hwf) as Hwf1.
  assert (Hlen : length (inner_forks (inner (self w'))) = length (inner_forks (inner (self w))) ∧
    Forall is_Some (inner_forks (inner (self w')))).
  { pose proof (wf_forks _ Hwf) as Hall. destruct (active_fork_ids (self w)) as [[aid n]|].
    - destruct Hforks as (a & f & g & _ & _ & _ & _ & -> & _). rewrite !length_insert. split; [done|].
      apply Forall_insert; [|by eexists]. apply Forall_insert; [done|by eexists].
    - destruct Hforks as (l' & f & _ & Hl & Hall' & _ & -> & _). rewrite length_insert. split; [done|].
      by apply Forall_insert. }
  destruct Hlen as [Hlen Hall]. destruct Hwf1 as [H1 H2 H3 H4 H5 H6 H7 H8]. unfold numbered in *.
  pose proof (block_stored_inner w) as Hin1.
  rewrite Hin1 in *.
  split; unfold numbered; rewrite ?Hsv, ?Hact, ?Hlen; rewrite ?Hinner; cbn; try done.
  - by rewrite Hinner in Hall.
  - intros id' idx [= <- <-]. done.
Qed.

(** ** What a selection carries over *)

(** The slot of an account in the journal, or else in the database. *)
Definition read_slot (j : JournaledState) (accs : gmap Z DbAccount) (a k : Z) : option Z :=
  match acc ← state j !! a; account_storage acc !! k with
  | Some s => Some (present_value s)
  | None => acc ← accs !! a; storage acc !! k
  end.
(** The accounts that the current database has cached. *)
Definition active_accounts b : gmap Z DbAccount :=
  match active_fork_ids b with
  | Some (_, n) => match get_fork n (inner b) with Some f => accounts (fork_db f) | None => ∅ end
  | None => accounts (mem_db b)
  end.

Context {DbL : DatabaseLaws}.

Lemma sync_cached l d j a acc :
  accounts d !! a = Some acc → accounts (foldl sync_one (d, j) l).1 !! a = Some acc.
Proof.
  revert d j. induction l as [|x l IH]; intros d j Ha; [done|]. cbn [foldl].
  destruct (sync_one (d, j) x) as [d' j'] eqn:Hs. apply IH. cbn in Hs.
  destruct (db_load_account x d) as [r d1] eqn:Hl.
  assert (Hd1 : accounts d1 !! a = Some acc).
  { destruct (decide (a = x)) as [->|Hne]; [|by rewrite (load_other x d r d1 a Hl Hne)].
    rewrite (load_cached x d acc Ha) in Hl. by simplify_eq. }
  destruct r; [|by simplify_eq]. by destruct (state j !! x); simplify_eq.
Qed.

(** The slots of [x] have the values [v] has. *)
Definition synced (v : Storage) (x : Account) : Prop :=
  ∀ k s y, account_storage x !! k = Some s → v !! k = Some y → present_value s = y.
Lemma sync_account_synced v x : synced v (sync_account v x).
Proof.
  intros k s y. cbn. rewrite map_lookup_imap. intros (s0 & Hs0 & Hs)%bind_Some Hy. rewrite Hy in Hs.
  by simplify_eq.
Qed.
Lemma sync_synced l d j a acc :
  a ∈ l → accounts d !! a = Some acc →
  ∀ x, state (foldl sync_one (d, j) l).2 !! a = Some x → synced (storage acc) x.
Proof.
  revert d j. induction l as [|y l IH]; intros d j Hin Ha x Hx; [by apply elem_of_nil in Hin|]. cbn [foldl] in Hx.
  destruct (sync_one (d, j) y) as [d' j'] eqn:Hs.
  assert (Ha' : accounts d' !! a = Some acc).
  { pose proof (sync_cached [y] d j a acc Ha) as H. cbn [foldl] in H. by rewrite Hs in H. }
  destruct (decide (a ∈ l)) as [Hl|Hl]; [by eapply IH|].
  apply elem_of_cons in Hin as [->|]; [|done].
  pose proof (sync_other l d' j' y Hl) as Hsame. rewrite Hsame in Hx.
  cbn in Hs. rewrite (load_cached y d acc Ha) in Hs. destruct (state j !! y) as [x0|] eqn:Hx0; simplify_eq.
  cbn in Hx. rewrite lookup_insert_eq in Hx. simplify_eq. apply sync_account_synced.
Qed.

Lemma enter_caller_synced c j f a v :
  (∀ x, state (journaled_state f) !! a = Some x → synced v x) →
  ∀ x, state (journaled_state (enter_caller c j f)) !! a = Some x → synced v x.
Proof.
  intros Hf x. unfold enter_caller. destruct (state (journaled_state f) !! c) eqn:Hc; [apply Hf|]. cbn.
  destruct (decide (c = a)) as [->|Hne].
  - rewrite lookup_insert_eq. intros [= <-] k s y. cbn. by rewrite lookup_empty.
  - rewrite lookup_insert_ne by done. apply Hf.
Qed.

(** A persistent account whose slots were synchronised with the database [d]. *)
Lemma handed_slots {Ext} w f j (d : CacheDB Ext) (m : gmap Z DbAccount) a acc :
  a ∈ persistent_accounts (inner (self w)) → a ∉ system → state (active_journal w) !! a = Some acc →
  (∀ da, m !! a = Some da → accounts d !! a = Some da) →
  (∀ da x, m !! a = Some da → state j !! a = Some x →
     ∀ k s y, account_storage acc !! k = None → account_storage x !! k = Some s → storage da !! k = Some y → present_value s = y) →
  ∃ acc', state (journaled_state (handed w f j d)) !! a = Some acc' ∧ account_info acc' = account_info acc ∧
    ∀ k v, read_slot (active_journal w) m a k = Some v →
      read_slot (journaled_state (handed w f j d)) (accounts (fork_db (handed w f j d))) a k = Some v.
Proof.
  intros Hp Hs Hacc Hm Hsync. destruct (handed_persistent w f j d a Hp Hs) as [Hj Hd].
  unfold read_slot. rewrite Hj, Hd, Hacc. cbn.
  assert (Hx : ∀ x, state (journaled_state (entered w f j)) !! a = Some x →
    account_storage x = ∅ ∨ state j !! a = Some x).
  { intros x. unfold entered, enter_caller. cbn. destruct (state j !! the_caller w); [by right|]. cbn.
    destruct (decide (the_caller w = a)) as [->|Hne].
    - rewrite lookup_insert_eq. intros [= <-]. by left.
    - rewrite lookup_insert_ne by done. by right. }
  exists (default acc (merged_account (Some acc) (state (journaled_state (entered w f j)) !! a))).
  split; [by destruct (state (journaled_state (entered w f j)) !! a)|]. split.
  { by destruct (state (journaled_state (entered w f j)) !! a). }
  intros k v. destruct (account_storage acc !! k) as [s|] eqn:Hk.
  { intros [= <-]. destruct (state (journaled_state (entered w f j)) !! a) as [x|]; cbn; [|by rewrite Hk].
    by rewrite (lookup_union_Some_l _ _ _ _ Hk). }
  intros (da & Hda & Hv)%bind_Some. rewrite (Hm da Hda).
  assert (Hdb : (acc0 ← merged_db_account (Some da) (accounts (fork_db (entered w f j)) !! a); storage acc0 !! k) = Some v).
  { destruct (accounts (fork_db (entered w f j)) !! a); cbn; [|done]. by rewrite (lookup_union_Some_l _ _ _ _ Hv). }
  rewrite Hdb. destruct (state (journaled_state (entered w f j)) !! a) as [x|] eqn:Hxe; cbn; [|by rewrite Hk].
  rewrite lookup_union_r by done. destruct (Hx x eq_refl) as [->|Hjx]; [by rewrite lookup_empty|].
  destruct (account_storage x !! k) as [s|] eqn:Hxs; [|done]. by rewrite (Hsync da x Hda Hjx k s v Hk Hxs Hv).
Qed.

Lemma active_run w id : is_active_fork id (self w) = true → select_fork id w = Some (Ok tt, w).
Proof. intros Ha. unfold select_fork, get, mbind, M_bind. by rewrite Ha. Qed.
Lemma select_selected w id w' :
  wf (self w) → select_fork id w = Some (Ok tt, w') → is_active_fork id (self w) = false → selected w id w'.
Proof.
  intros Hwf Hsel Hact. destruct (select_fork_spec w id Hwf Hact) as (r & w1 & Hr & _ & Hok).
  rewrite Hr in Hsel. simplify_eq. by apply Hok.
Qed.

(** C24: Whatever fork is selected, from memory or from another fork, a
    persistent account that was loaded keeps its balance, nonce and code, and
    every slot that the journal or the database of the fork that is left has a
    value for reads the same on the fork that is entered. *)
Theorem persistent_accounts_kept w id w' a acc :
  wf (self w) → select_fork id w = Some (Ok tt, w') →
  a ∈ persistent_accounts (inner (self w)) → a ∉ system → state (active_journal w) !! a = Some acc →
  ∃ acc', state (active_journal w') !! a = Some acc' ∧ account_info acc' = account_info acc ∧
    ∀ k v, read_slot (active_journal w) (active_accounts (self w)) a k = Some v →
      read_slot (active_journal w') (active_accounts (self w')) a k = Some v.
Proof.
  intros Hwf Hsel Hp Hs Hacc. destruct (is_active_fork id (self w)) eqn:Hact.
  { rewrite active_run in Hsel by done. simplify_eq. eauto. }
  destruct (select_selected w id w' Hwf Hsel Hact) as [(t & fork_id & e & [_ Ht] & _ & _ & Hact' & _ & Hforks) _ _ _].
  unfold active_accounts at 2. rewrite Hact'. unfold active_accounts.
  destruct (active_fork_ids (self w)) as [[aid n]|] eqn:Ha.
  - destruct Hforks as (fa & f & g & Hnt & Hfa & Hg & _ & Hl & Hj). rewrite Hfa, Hj.
    set (dj := foldl sync_one (fork_db fa, journaled_state f) (persistent_list w)) in *.
    assert (Hgf : get_fork t (inner (self w')) = Some (handed w f dj.2 dj.1)).
    { unfold get_fork. rewrite Hl, list_lookup_insert_eq; [done|]. by rewrite length_insert. }
    rewrite Hgf. apply (handed_slots w f dj.2 dj.1); [done..| |].
    + intros da. apply sync_cached.
    + intros da x Hda Hx k s y _ Hk Hy.
      apply (sync_synced (persistent_list w) (fork_db fa) (journaled_state f) a da) in Hx; [by eapply Hx| |done].
      by apply elem_of_persistent.
  - destruct Hforks as (l & f & Hf & Hlen & _ & Hprep & Hl & Hj). rewrite Hj.
    assert (Hgf : get_fork t (inner (self w')) = Some (handed w f (journaled_state f) (mem_db (self w)))).
    { unfold get_fork. rewrite Hl, list_lookup_insert_eq; [done|]. by eapply lookup_lt_Some. }
    rewrite Hgf. apply (handed_slots w f (journaled_state f) (mem_db (self w))); [done..|].
    intros da x Hda Hx k s y Hk Hs' Hy. destruct (Hprep t f Hf) as [Hsame _].
    rewrite Hsame, Hacc in Hx; [congruence|]. intros [[_ Hn] _]%list_elem_of_filter. by apply Hn.
Qed.
End spec.
