(* ===== verification/BackendSafe.v ===== *)
(** * Computations of the backend that do not panic

    A calculus of the computations that neither panic nor break the invariant of
    the backend, and in it the operations that create, select and roll forks and
    replay transactions on them. *)
From S2P Require Import Prelude.
From S2P Require Import Text.
From S2P Require Import StateDb.
From S2P Require Import MultiFork.
From S2P Require Import BackendMerge.
From S2P Require Import Backend.
From S2P Require Import BackendSpec.
Local Open Scope Z_scope.

Section safe.
Context {R : Remote} {Rv : Revm} {Fs : ForkService} {St : BackendStrategy} {Db : Database} {Iter : HashIter}.
Context {FsL : ForkServiceLaws}.
Implicit Types (b : Backend) (w : World) (id : Z) (idx : nat).

(** ** Computations that do not panic *)

(** From a well-formed world with [P] the computation returns in a well-formed
    one, with the same snapshots, and with [Q] when it succeeds. *)
Definition safe {A} (P : World → Prop) (m : M A) (Q : A → World → Prop) : Prop :=
  ∀ w, wf (self w) → P w →
  ∃ r w', m w = Some (r, w') ∧ wf (self w') ∧ snaps w' = snaps w ∧ ∀ a, r = Ok a → Q a w'.
Definition anything {A} : A → World → Prop := λ _ _, True.
Definition anywhere : World → Prop := λ _, True.
(** The fork at a place exists. *)
Definition has (idx : nat) w : Prop := (idx < length (inner_forks (inner (self w))))%nat.

Lemma safe_bind {A B} P (m : M A) (k : A → M B) Q S :
  safe P m Q → (∀ a, safe (Q a) (k a) S) → safe P (m ≫= k) S.
Proof.
  intros Hm Hk w Hw HP. destruct (Hm w Hw HP) as (r & w1 & Hr & Hw1 & Hs & HQ). unfold mbind, M_bind. rewrite Hr.
  destruct r as [a|e]; [|by eexists _, _].
  destruct (Hk a w1 Hw1 (HQ a eq_refl)) as (r & w2 & -> & Hw2 & Hs2 & HS). eexists _, _. split_and!; [done|done|congruence|done].
Qed.
Lemma safe_weaken {A} (P P' : World → Prop) (m : M A) (Q Q' : A → World → Prop) :
  safe P m Q → (∀ w, wf (self w) → P' w → P w) → (∀ a w, wf (self w) → Q a w → Q' a w) → safe P' m Q'.
Proof.
  intros Hm HP HQ w Hw HP'. destruct (Hm w Hw (HP w Hw HP')) as (r & w' & Hr & Hw' & Hs & Hq).
  eexists _, _. split_and!; [done..|]. intros a Ha. auto.
Qed.
(** Computations that leave the world alone. *)
Lemma safe_pure {A} P (m : M A) (Q : A → Prop) :
  (∀ w, wf (self w) → P w → ∃ r, m w = Some (r, w) ∧ ∀ a, r = Ok a → Q a) → safe P m (λ a w, Q a ∧ P w).
Proof.
  intros Hm w Hw HP. destruct (Hm w Hw HP) as (r & Hr & HQ). eexists _, _. split_and!; [done..|]. intros a Ha. auto.
Qed.
Lemma safe_ret {A} P (a : A) : safe P (mret a) (λ x w, x = a ∧ P w).
Proof. apply safe_pure. intros w _ _. eexists. split; [done|]. by intros ? [= <-]. Qed.
Lemma safe_done {A} P (a : A) : safe P (mret a) anything.
Proof. eapply safe_weaken; [apply (safe_ret P a)|done|done]. Qed.
Lemma safe_get P : safe P get (λ x w, x = w ∧ P w).
Proof. intros w Hw HP. eexists _, _. split_and!; [done..|]. by intros ? [= <-]. Qed.
Lemma safe_fail {A} P e (Q : A → World → Prop) : safe P (fail e) Q.
Proof. intros w Hw HP. eexists _, _. split_and!; done. Qed.
Lemma safe_or_fail {A} P e (o : option A) : safe P (or_fail e o) (λ a w, o = Some a ∧ P w).
Proof.
  apply safe_pure. intros w _ _. destruct o; eexists; (split; [done|]); [by intros ? [= <-]|done].
Qed.
Lemma safe_lift {A} P (r : result Error A) : safe P (lift r) (λ a w, r = Ok a ∧ P w).
Proof. apply safe_pure. intros w _ _. by eexists. Qed.
Lemma safe_created {A} P (r : result CreateError A) : safe P (created r) (λ a w, r = Ok a ∧ P w).
Proof. destruct r; cbn; [|apply safe_fail]. eapply safe_weaken; [apply safe_ret|done|]. by intros ? ? ? [-> ?]. Qed.
Lemma safe_database {A} P (r : result str A) : safe P (database r) (λ a w, r = Ok a ∧ P w).
Proof. destruct r; cbn; [|apply safe_fail]. eapply safe_weaken; [apply safe_ret|done|]. by intros ? ? ? [-> ?]. Qed.
Lemma safe_modify (P Q : World → Prop) g :
  (∀ w, wf (self w) → P w → wf (self (g w)) ∧ snaps (g w) = snaps w ∧ Q (g w)) → safe P (modify g) (λ _, Q).
Proof. intros Hg w Hw HP. destruct (Hg w Hw HP) as (? & ? & ?). eexists _, _. split_and!; done. Qed.
Lemma safe_modify_env P g : safe P (modify (λ w, set_cur_env (g w) w)) anything.
Proof. intros w Hw HP. eexists _, _. split_and!; done. Qed.
Lemma safe_modify_journal P j : (∀ w, P w → P (set_active_journal j w)) → safe P (modify (set_active_journal j)) (λ _, P).
Proof. intros Hj. apply safe_modify. auto. Qed.

Lemma safe_fork_id_of P id :
  safe P (fork_id_of id) (λ (i : ForkId) w, P w ∧ issued_local_fork_ids (inner (self w)) !! id = Some i).
Proof.
  intros w Hw HP. unfold fork_id_of. run_M. unfold ensure_fork_id.
  destruct (issued_local_fork_ids (inner (self w)) !! id) as [i|] eqn:Hi; eexists _, _; (split_and!; [done..|]).
  - by intros ? [= <-].
  - done.
Qed.
Lemma safe_fork_index_of P id : safe P (fork_index_of id) (λ n w, P w ∧ has n w).
Proof.
  intros w Hw HP. unfold fork_index_of. run_M. unfold ensure_fork_index_by_local_id, ensure_fork_id.
  destruct (issued_local_fork_ids (inner (self w)) !! id) as [i|] eqn:Hi; cbn.
  - destruct (wf_issued _ Hw _ _ Hi) as (n & Hn & _ & Hlt). unfold ensure_fork_index. rewrite Hn.
    eexists _, _. split_and!; [done..|]. by intros ? [= <-].
  - eexists _, _. by split_and!.
Qed.
Lemma safe_the_fork P n : (∀ w, P w → has n w) → safe P (the_fork n) (λ f w, P w ∧ get_fork n (inner (self w)) = Some f).
Proof.
  intros HP w Hw Hw'. unfold the_fork. run_M. destruct (get_fork_some _ n Hw (HP w Hw')) as [f Hf]. rewrite Hf.
  eexists _, _. split_and!; [done..|]. by intros ? [= <-].
Qed.
Lemma safe_put_fork (P : World → Prop) n f :
  (∀ w, P w → has n w) → (∀ w, P w → P (on_self (on_inner (set_fork n (Some f))) w)) → safe P (put_fork n f) (λ _, P).
Proof.
  intros Hn HP. apply safe_modify. intros w Hw Hw'. split; [|split; [done|by apply HP]].
  apply (wf_similar (self w)); [|done]. cbn. apply similar_set_fork. apply get_fork_some; [done|by apply Hn].
Qed.
Lemma has_set_fork n m f w : has n w → has n (on_self (on_inner (set_fork m f)) w).
Proof. unfold has. cbn. by rewrite length_insert. Qed.
Lemma safe_put n f : safe (has n) (put_fork n f) (λ _, has n).
Proof. apply safe_put_fork; [done|]. intros w. apply has_set_fork. Qed.

(** The service may be asked to update the environment of a fork. *)
Lemma safe_update_service (P : World → Prop) (u : Service → Service) :
  (∀ s, service_ok s → service_ok (u s) ∧ ∀ k, is_Some (service_env k s) → is_Some (service_env k (u s))) →
  (∀ w s, P w → P (on_self (set_service s) w)) → safe P (with_service (λ s, (tt, u s))) (λ _, P).
Proof.
  intros Hu HP w Hw Hw'. unfold with_service. eexists _, _. split_and!; [done| |done|intros; by apply HP].
  apply (wf_similar (self w)); [|done]. cbn. split; try done. apply Hu.
Qed.
Lemma update_env_known (i : ForkId) v s :
  service_ok s → service_ok (service_update_env i v s) ∧
    ∀ k, is_Some (service_env k s) → is_Some (service_env k (service_update_env i v s)).
Proof.
  intros Hs. destruct (update_env_ok i v s Hs) as [Hok Hk]. split; [done|]. intros k H. rewrite Hk.
  case_decide; [subst; by rewrite fmap_is_Some|done].
Qed.

(** ** The requests of a test *)

Lemma service_known b s' :
  wf b → service_ok s' → (∀ k, is_Some (service_env k (service b)) → is_Some (service_env k s')) →
  wf (set_service s' b).
Proof. intros Hw Hok Hk. apply (wf_similar b); [|done]. by split. Qed.

(** A new fork of the service enters the tables. *)
Lemma insert_wf b fork_id d j :
  wf b → created_forks (inner b) !! fork_id = None → is_Some (service_env fork_id (service b)) →
  wf (set_inner (insert_new_fork fork_id d j (inner b)).2 b).
Proof.
  intros [H1 H2 H3 H4 H5 H6 H7 H8] Hnew Henv. unfold numbered in *.
  split; unfold numbered; cbn; rewrite ?length_app; cbn; try done.
  - rewrite H1. lia.
  - apply Forall_app. split; [done|]. by apply Forall_singleton.
  - intros id fid. rewrite H1. destruct (decide (id = Z.of_nat (length (inner_forks (inner b))))) as [->|Hne].
    + rewrite lookup_insert_eq. intros [= <-]. exists (length (inner_forks (inner b))). rewrite lookup_insert_eq. split_and!; [done..|lia].
    + rewrite lookup_insert_ne by done. intros Hi. destruct (H3 id fid Hi) as (n & Hn & -> & Hlt). exists n.
      rewrite lookup_insert_ne by congruence. split_and!; [done..|lia].
  - intros n Hn. rewrite H1. destruct (decide (n = length (inner_forks (inner b)))) as [->|Hne].
    + rewrite lookup_insert_eq. by eexists.
    + rewrite lookup_insert_ne by lia. apply H4. lia.
  - intros fid n. destruct (decide (fid = fork_id)) as [->|Hne].
    + rewrite lookup_insert_eq. intros [= <-]. split; [lia|done].
    + rewrite lookup_insert_ne by done. intros Hi. destruct (H5 fid n Hi). split; [lia|done].
  - intros id n Ha. destruct (H6 id n Ha). split; [done|lia].
  - intros n s Hs. apply H7 in Hs. case_match; [done|]. destruct Hs as [[-> Hlt] Hc]. split; [split; [done|lia]|].
    rewrite lookup_insert_ne; [done|]. congruence.
Qed.

Lemma safe_create_fork P f : safe P (create_fork f) anything.
Proof.
  intros w Hw _. unfold create_fork. run_M. destruct (service_create f (service (self w))) as [r s'] eqn:Hr.
  destruct (create_ok _ _ _ _ (wf_service _ Hw) Hr) as [Hok Hk]. destruct r as [[[fork_id shared] e]|err]; cbn.
  - destruct Hk as [Hnew Hk]. eexists _, _. split_and!; [done| |done|done]. cbn.
    apply (insert_wf (set_service s' (self w))).
    + apply service_known; [done..|]. intros k Hs. rewrite Hk. case_decide; [by eexists|done].
    + destruct (created_forks (inner (self w)) !! fork_id) eqn:Hc; [|done].
      destruct (wf_created _ Hw _ _ Hc) as [_ [? He]]. cbn. congruence.
    + cbn. rewrite Hk, decide_True by done. by eexists.
  - eexists _, _. split_and!; [done| |done|done]. apply service_known; [done..|]. intros k. by rewrite Hk.
Qed.

Lemma safe_select_fork P id : safe P (select_fork id) anything.
Proof.
  intros w Hw _. destruct (is_active_fork id (self w)) eqn:Ha.
  { rewrite active_run by done. eexists _, _. by split_and!. }
  destruct (select_fork_spec w id Hw Ha) as (r & w' & -> & Herr & Hok). eexists _, _. split; [done|].
  destruct r as [[]|e].
  - pose proof (Hok eq_refl) as Hs. split; [by eapply selected_wf|]. split; [|done].
    destruct Hs as [_ [l Hl] _ _]. unfold snaps. by rewrite Hl.
  - by destruct (Herr e eq_refl).
Qed.

(** A rolled fork keeps its place. *)
Lemma roll_wf b id idx fork_id (o : option Fork) :
  wf b → numbered (inner b) id idx → created_forks (inner b) !! fork_id = None →
  is_Some (service_env fork_id (service b)) → (∃ f, o = Some f) →
  wf (on_inner (λ i, set_ids (<[id := fork_id]> (issued_local_fork_ids i)) (<[fork_id := idx]> (created_forks i))
        (set_fork idx o i)) b).
Proof.
  intros Hw [-> Hlt] Hnew Henv [f ->]. destruct (get_fork_some b idx Hw Hlt) as [g Hg].
  pose proof (wf_similar _ _ (similar_set_fork b idx f (ex_intro _ g Hg)) Hw) as [H1 H2 H3 H4 H5 H6 H7 H8].
  clear Hw Hg g. unfold numbered in *. cbn in H1, H2, H3, H4, H5, H6, H7, H8. rewrite length_insert in *.
  split; unfold numbered; cbn; rewrite ?length_insert; try done.
  - intros id fid. destruct (decide (id = Z.of_nat idx)) as [->|Hne].
    + rewrite lookup_insert_eq. intros [= <-]. exists idx. by rewrite lookup_insert_eq.
    + rewrite lookup_insert_ne by done. intros Hi. destruct (H3 id fid Hi) as (n & Hn & Hid). exists n.
      rewrite lookup_insert_ne by congruence. done.
  - intros n Hn. destruct (decide (n = idx)) as [->|Hne]; [rewrite lookup_insert_eq; by eexists|].
    rewrite lookup_insert_ne by lia. by apply H4.
  - intros fid n. destruct (decide (fid = fork_id)) as [->|Hne].
    + rewrite lookup_insert_eq. by intros [= <-].
    + rewrite lookup_insert_ne by done. apply H5.
  - intros n s Hs. apply H7 in Hs. case_match; [done|]. destruct Hs as [Hnum Hc]. split; [done|].
    rewrite lookup_insert_ne; [done|]. congruence.
Qed.

Lemma roll_fork_tail (e : Env) (id : Z) w0 :
  safe (λ w, active_fork_ids (self w) = active_fork_ids (self w0))
    (match active_fork_ids (self w0) with
     | Some (active_id, active_idx) =>
         if active_id =? id then
           modify (λ w, set_cur_env (update_current_env_with_fork_env (cur_env w) e) w) ;;
           f ← the_fork active_idx;
           w ← get;
           let f := rolled_fork (self w) (active_journal w) f in
           put_fork active_idx f ;;
           modify (set_active_journal (journaled_state f))
         else mret tt
     | None => mret tt
     end) anything.
Proof.
  destruct (active_fork_ids (self w0)) as [[a n]|]; [|apply safe_done]. destruct (a =? id); [|apply safe_done].
  eapply safe_bind; [apply (safe_modify _ (has n)); intros w Hw Ha; split; [done|]; split; [done|]; by destruct (wf_active _ Hw _ _ Ha)|].
  intros ?. eapply safe_bind; [exact (safe_the_fork (has n) n (λ _ H, H))|]. intros f.
  eapply safe_bind; [apply safe_get|]. intros w.
  eapply safe_bind; [eapply (safe_weaken (has n)); [apply safe_put|by intros ? ? (_ & ? & _)|done]|]. intros ?.
  eapply safe_weaken; [by apply (safe_modify_journal (has n))|done|done].
Qed.

Lemma M_bind_ok {A B} (m : M A) (k : A → M B) w a w' : m w = Some (Ok a, w') → (m ≫= k) w = k a w'.
Proof. intros Hm. unfold mbind, M_bind. by rewrite Hm. Qed.
Lemma M_bind_err {A B} (m : M A) (k : A → M B) w e w' : m w = Some (Err e, w') → (m ≫= k) w = Some (Err e, w').
Proof. intros Hm. unfold mbind, M_bind. by rewrite Hm. Qed.

Lemma safe_roll_fork P (id : option Z) n : safe P (roll_fork id n) anything.
Proof.
  intros w Hw _. unfold roll_fork. rewrite (M_bind_ok _ _ _ w w eq_refl).
  destruct (ensure_fork id (self w)) as [id'|err]; [|by eexists _, _; split_and!].
  rewrite (M_bind_ok _ _ _ id' w eq_refl).
  destruct (issued_local_fork_ids (inner (self w)) !! id') as [old|] eqn:Hid; cycle 1.
  { erewrite M_bind_err; [by eexists _, _; split_and!|]. unfold fork_id_of. run_M. unfold ensure_fork_id. by rewrite Hid. }
  rewrite (M_bind_ok _ _ _ _ _ (fork_id_of_run _ _ _ Hid)). destruct (wf_issued _ Hw _ _ Hid) as (idx & Hidx & Hnum).
  destruct (service_roll old n (service (self w))) as [r s'] eqn:Hr.
  rewrite (M_bind_ok _ _ _ r (on_self (set_service s') w)) by (unfold with_service; by rewrite Hr).
  destruct (roll_ok _ _ _ _ _ (wf_service _ Hw) Hr) as [Hok Hk].
  destruct r as [[[fork_id shared] e]|err];
    [|eexists _, _; split_and!; [done|apply service_known; [done..|intros k; by rewrite Hk]|done|done]].
  destruct Hk as [Hnew Hk]. rewrite (M_bind_ok _ _ _ _ _ eq_refl).
  destruct (get_fork_some _ idx Hw (proj2 Hnum)) as [f Hf].
  set (f' := mkFork (foldl (λ d addr, merge_db (strategy (self w)) addr (fork_db f) d) (ForkDB_new shared)
                       (hash_iter (persistent_accounts (inner (self w))))) (journaled_state f)).
  set (i' := set_ids (<[id' := fork_id]> (issued_local_fork_ids (inner (self w))))
               (<[fork_id := idx]> (created_forks (inner (self w)))) (set_fork idx (Some f') (inner (self w)))).
  assert (inner_forks (inner (self w)) !! idx = Some (Some f)) as Hat.
  { unfold get_fork in Hf. destruct (inner_forks (inner (self w)) !! idx); [|done]. by cbn in Hf; subst. }
  rewrite (M_bind_ok _ _ _ (Ok (idx, i')) (on_self (set_service s') w)); cycle 1.
  { unfold unwrap, inner_roll_fork, ensure_fork_index_by_local_id, ensure_fork_id, ensure_fork_index. rewrite Hid.
    cbn [mbind option_bind]. by rewrite Hidx; cbn [mbind option_bind]; rewrite Hat. }
  rewrite (M_bind_ok _ _ _ (idx, i') (on_self (set_service s') w) eq_refl).
  rewrite (M_bind_ok _ _ _ tt (on_self (set_inner i') (on_self (set_service s') w)) eq_refl).
  refine (roll_fork_tail e id' w (on_self (set_inner i') (on_self (set_service s') w)) _ eq_refl).
  apply (roll_wf (set_service s' (self w)) id' idx fork_id (Some f')).
  - apply service_known; [done..|]. intros k Hs. rewrite Hk. case_decide; [by eexists|done].
  - done.
  - cbn. destruct (created_forks (inner (self w)) !! fork_id) eqn:Hc; [|done].
    destruct (wf_created _ Hw _ _ Hc) as [_ [? He]]. congruence.
  - cbn. rewrite Hk, decide_True by done. by eexists.
  - by eexists.
Qed.

(** ** Replaying transactions *)
Context (spawned : Service) (evm_transact : Backend → Env → RpcTransaction → Z → result Error (gmap Z Account)).

Lemma safe_forget {A} P (m : M A) Q : safe P m Q → safe P m anything.
Proof. intros Hm. by eapply safe_weaken. Qed.
Lemma safe_assume {A} (P : World → Prop) (F : Prop) (m : M A) Q : (F → safe P m Q) → safe (λ w, F ∧ P w) m Q.
Proof. intros Hm w Hw [HF HP]. by apply Hm. Qed.
Lemma safe_world {A} (P : World → Prop) (w0 : World) (m : M A) Q :
  (wf (self w0) → P w0 → safe P m Q) → safe (λ w, w0 = w ∧ P w) m Q.
Proof. intros Hm w Hw [-> HP]. by apply Hm. Qed.
Lemma has_journal n j w : has n w → has n (set_active_journal j w).
Proof. done. Qed.
Lemma safe_journal n j : safe (has n) (modify (set_active_journal j)) (λ _, has n).
Proof. apply safe_modify. done. Qed.
Lemma safe_fail_if P (e : option Error) : safe P (fail_if e) (λ _, P).
Proof. destruct e; [apply safe_fail|]. eapply safe_weaken; [apply safe_ret|done|]. by intros ? ? ? [_ ?]. Qed.
Lemma safe_fork_there n : safe (has n) (the_fork n) (λ _, has n).
Proof. eapply safe_weaken; [exact (safe_the_fork (has n) n (λ _ H, H))|done|]. by intros ? ? ? [? _]. Qed.

Ltac safe_step := eapply safe_bind; [|intros ?].

Lemma safe_apply changes n persistent :
  safe (has n) (apply_state_changeset changes n persistent) (λ _, has n).
Proof.
  unfold apply_state_changeset. safe_step; [apply safe_get|]. apply safe_world. intros _ _.
  safe_step; [apply safe_fork_there|].
  destruct (update_journal _ (active_journal _) _) as [[e j] d].
  safe_step; [apply safe_put|]. safe_step; [apply safe_journal|]. safe_step; [apply safe_fail_if|].
  destruct (update_journal _ (journaled_state _) _) as [[e' j'] d'].
  safe_step; [apply safe_put|apply safe_fail_if].
Qed.
Lemma safe_commit t e n fork_id persistent :
  safe (has n) (commit_transaction spawned evm_transact t e n fork_id persistent) (λ _, has n).
Proof.
  unfold commit_transaction. safe_step; [apply safe_get|]. apply safe_world. intros _ _.
  safe_step; [apply safe_fork_there|].
  safe_step; [apply safe_created|]. apply safe_assume. intros _.
  safe_step; [apply safe_lift|]. apply safe_assume. intros _. apply safe_apply.
Qed.
Lemma safe_replay txs h e n fork_id persistent :
  safe (has n) (replay spawned evm_transact txs h e n fork_id persistent) anything.
Proof.
  induction txs as [|t txs IH]; cbn [replay]; [apply safe_done|]. destruct (is_system_transaction t); [done|].
  destruct (tx_hash t =? h); [apply safe_done|]. safe_step; [apply safe_commit|done].
Qed.

Lemma safe_place P id : safe P (fork_index_of id) (λ n, has n).
Proof. eapply safe_weaken; [apply safe_fork_index_of|done|]. by intros ? ? ? [_ ?]. Qed.
Lemma safe_replay_until P id e h : safe P (replay_until spawned evm_transact id e h) anything.
Proof.
  unfold replay_until. safe_step; [apply safe_get|]. safe_step; [apply safe_fork_id_of|].
  safe_step; [apply safe_place|]. safe_step; [apply safe_fork_there|]. safe_step; [apply safe_database|].
  apply safe_assume. intros _. apply safe_replay.
Qed.

(** Reading a block leaves the world alone. *)
Lemma safe_block P id h : safe P (get_block_number_and_block_for_transaction id h) (λ _, P).
Proof.
  unfold get_block_number_and_block_for_transaction. intros w Hw HP.
  set (Q w' := P w' ∧ w' = w).
  assert (HQ : safe Q (get_block_number_and_block_for_transaction id h) (λ _, Q)).
  { unfold get_block_number_and_block_for_transaction.
    eapply safe_bind; [apply safe_fork_index_of|]. intros n.
    eapply safe_bind; [apply (safe_the_fork (λ w', Q w' ∧ has n w')); tauto|]. intros f.
    eapply (safe_weaken Q _ _ (λ _, Q)); [|by intros ? ? [[? ?] ?]|done].
    eapply safe_bind; [apply safe_database|]. intros t. apply safe_assume. intros _.
    destruct (block_number t).
    - eapply safe_bind; [apply safe_database|]. intros b. apply safe_assume. intros _.
      eapply safe_weaken; [apply safe_ret|done|]. by intros ? ? ? [_ ?].
    - eapply safe_bind; [apply safe_database|]. intros b. apply safe_assume. intros _.
      eapply safe_weaken; [apply safe_ret|done|]. by intros ? ? ? [_ ?]. }
  destruct (HQ w Hw (conj HP eq_refl)) as (r & w' & Hr & Hw' & Hs & Ha). eexists _, _. split_and!; [done..|].
  intros a Hok. by destruct (Ha a Hok).
Qed.

Lemma safe_roll_fork_to_transaction P (id : option Z) h :
  safe P (roll_fork_to_transaction spawned evm_transact id h) anything.
Proof.
  unfold roll_fork_to_transaction. safe_step; [apply safe_get|]. safe_step; [apply safe_lift|].
  safe_step; [apply safe_block|]. destruct a1 as [n b]. safe_step; [apply safe_roll_fork|].
  safe_step; [apply safe_modify_env|]. safe_step; [apply safe_fork_id_of|]. safe_step; [apply safe_get|].
  safe_step.
  { eapply (safe_weaken anywhere); [apply (safe_update_service anywhere)|done|done]; [|done].
    intros s Hs. by apply update_env_known. }
  safe_step; [apply safe_replay_until|apply safe_done].
Qed.

Lemma safe_locally {A} P e j (m : M A) : safe anywhere m anything → safe P (locally e j m) anything.
Proof.
  intros Hm w Hw _. destruct (Hm (mkWorld (self w) e j) Hw I) as (r & w' & Hr & Hw' & Hs & _).
  unfold locally. rewrite Hr. eexists _, _. by split_and!.
Qed.
Lemma safe_env_of P id (fork_id : ForkId) : safe P (env_of id fork_id) anything.
Proof.
  unfold env_of. safe_step; [apply safe_get|]. eapply safe_forget, safe_or_fail.
Qed.

Lemma safe_create_fork_at P f h : safe P (create_fork_at_transaction spawned evm_transact f h) anything.
Proof.
  unfold create_fork_at_transaction. safe_step; [apply safe_create_fork|]. safe_step; [apply safe_fork_id_of|].
  safe_step; [apply safe_env_of|]. safe_step; [apply safe_get|].
  safe_step; [apply safe_locally, safe_roll_fork_to_transaction|apply safe_done].
Qed.
Lemma safe_create_select_fork P f : safe P (create_select_fork f) anything.
Proof.
  unfold create_select_fork. safe_step; [apply safe_create_fork|]. safe_step; [apply safe_select_fork|apply safe_done].
Qed.
Lemma safe_create_select_fork_at P f h : safe P (create_select_fork_at_transaction spawned evm_transact f h) anything.
Proof.
  unfold create_select_fork_at_transaction. safe_step; [apply safe_create_fork_at|].
  safe_step; [apply safe_select_fork|apply safe_done].
Qed.
Lemma safe_transact P (id : option Z) h e : safe P (transact spawned evm_transact id h e) anything.
Proof.
  unfold transact. safe_step; [apply safe_get|]. safe_step; [apply safe_lift|]. safe_step; [apply safe_fork_id_of|].
  safe_step; [apply safe_place|]. safe_step; [apply safe_fork_there|]. safe_step; [apply safe_database|].
  apply safe_assume. intros _. safe_step; [apply safe_block|]. destruct a5 as [? b]. eapply safe_forget, safe_commit.
Qed.
End safe.
