(* ===== verification/BackendRequests.v ===== *)
(** * The requests of a test

    No request makes the backend panic, in any order; what a snapshot brings
    back; and an example over the service of [MultiFork] and the strategy of the
    EVM. *)
From S2P Require Import Prelude.
From S2P Require Import Text.
From S2P Require Import StateDb.
From S2P Require Import MultiFork.
From S2P Require Import MultiForkSpec.
From S2P Require Import BackendMerge.
From S2P Require Import Backend.
From S2P Require Import BackendSpec.
From S2P Require Import BackendSafe.
Local Open Scope Z_scope.

Section requests.
Context {R : Remote} {Rv : Revm} {Fs : ForkService} {St : BackendStrategy} {Db : Database} {Iter : HashIter}.
Context {FsL : ForkServiceLaws}.
Context (spawned : Service) (evm_transact : Backend → Env → RpcTransaction → Z → result Error (gmap Z Account)).
Implicit Types (b : Backend) (w : World) (id : Z) (idx : nat).

Inductive TestRequest :=
| AddPersistent (a : Z)
| RemovePersistent (a : Z)
| AllowCheats (a : Z)
| RevokeCheats (a : Z)
| SetTestContract (a : Z)
| SetCaller (a : Z)
| SetSpec (s : SpecId)
| Initialize (e : Env)
| Commit (changes : gmap Z Account)
| SetBlockhash (n h : Z)
| Run (e : Env) (j : JournaledState) (d : CacheDB SharedBackend → CacheDB SharedBackend) (m : CacheDB MemExt → CacheDB MemExt)
| NewFork (f : CreateFork)
| NewForkAt (f : CreateFork) (h : Z)
| SelectFork (n : Z)
| NewSelectedFork (f : CreateFork)
| NewSelectedForkAt (f : CreateFork) (h : Z)
| RollFork (n : option Z) (block : Z)
| RollForkTo (n : option Z) (h : Z)
| Transact (n : option Z) (h : Z) (e : Env)
| Snapshot
| Revert (n : Z) (action : RevertAction)
| DeleteSnapshot (n : Z)
| DeleteSnapshots
| Diagnose (callee : Z).

Definition setting (g : Backend → Backend) : M unit := modify (on_self g).
Definition partial (g : Backend → option Backend) : M unit := λ w, (λ b, (Ok tt, on_self (λ _, b) w)) <$> g (self w).

(** A request, with the journal of a reverted snapshot put in place as the
    cheatcode does it; [Run] is what an EVM does to the current database, the
    environment and the journal. *)
Definition serve (r : TestRequest) : M unit :=
  match r with
  | AddPersistent a => setting (λ b, (add_persistent_account a b).2)
  | RemovePersistent a => setting (λ b, (remove_persistent_account a b).2)
  | AllowCheats a => setting (λ b, (allow_cheatcode_access a b).2)
  | RevokeCheats a => setting (λ b, (revoke_cheatcode_access a b).2)
  | SetTestContract a => setting (set_test_contract a)
  | SetCaller a => setting (set_caller a)
  | SetSpec s => setting (set_spec_id s)
  | Initialize e => partial (initialize e)
  | Commit changes => partial (Backend_commit changes)
  | SetBlockhash n h => partial (set_blockhash n h)
  | Run e j d m => partial (on_db d m) ≫= λ _, modify (λ w, mkWorld (self w) e j)
  | NewFork f => create_fork f ≫= λ _, mret tt
  | NewForkAt f h => create_fork_at_transaction spawned evm_transact f h ≫= λ _, mret tt
  | SelectFork n => select_fork n
  | NewSelectedFork f => create_select_fork f ≫= λ _, mret tt
  | NewSelectedForkAt f h => create_select_fork_at_transaction spawned evm_transact f h ≫= λ _, mret tt
  | RollFork n block => roll_fork n block
  | RollForkTo n h => roll_fork_to_transaction spawned evm_transact n h
  | Transact n h e => transact spawned evm_transact n h e
  | Snapshot => snapshot_state ≫= λ _, mret tt
  | Revert n action =>
      revert_state n action ≫= λ o, match o with Some j => modify (set_active_journal j) | None => mret tt end
  | DeleteSnapshot n => setting (λ b, (delete_state_snapshot n b).2)
  | DeleteSnapshots => setting delete_state_snapshots
  | Diagnose callee => get ≫= λ w, unwrap (diagnose_revert callee (active_journal w) (self w)) ≫= λ _, mret tt
  end.
(** A request that fails does not end the test. *)
Fixpoint serve_all (rs : list TestRequest) (w : World) : option (list (result Error unit) * World) :=
  match rs with
  | [] => Some ([], w)
  | r :: rs => '(a, w) ← serve r w; '(l, w) ← serve_all rs w; Some (a :: l, w)
  end.

(** *** Settings *)

Definition same_tables (i i' : BackendInner) : Prop :=
  issued_local_fork_ids i' = issued_local_fork_ids i ∧ created_forks i' = created_forks i ∧
  next_fork_id i' = next_fork_id i ∧ inner_forks i' = inner_forks i ∧ Backend.state_snapshots i' = Backend.state_snapshots i.
Lemma same_tables_wf b b' :
  same_tables (inner b) (inner b') → active_fork_ids b' = active_fork_ids b → service b' = service b → wf b → wf b'.
Proof.
  intros (H1 & H2 & H3 & H4 & H5) Ha Hs. apply wf_similar. split; rewrite ?H1, ?H2, ?H3, ?H4, ?H5, ?Ha, ?Hs; done.
Qed.
Lemma safe_setting P (g : Backend → Backend) :
  (∀ b, same_tables (inner b) (inner (g b)) ∧ active_fork_ids (g b) = active_fork_ids b ∧ service (g b) = service b) →
  safe P (setting g) anything.
Proof.
  intros Hg. apply safe_modify. intros w Hw _. destruct (Hg (self w)) as (Ht & Ha & Hs).
  split; [by apply (same_tables_wf (self w))|]. split; [|done]. by destruct Ht as (_ & _ & _ & _ & Ht).
Qed.
Lemma safe_partial P (g : Backend → option Backend) :
  (∀ b, wf b → ∃ b', g b = Some b' ∧ similar b b' ∧ Backend.state_snapshots (inner b') = Backend.state_snapshots (inner b)) →
  safe P (partial g) anything.
Proof.
  intros Hg w Hw _. destruct (Hg (self w) Hw) as (b & Hb & Hsim & Hs). unfold partial. rewrite Hb.
  eexists _, _. split_and!; [done|by apply (wf_similar (self w))|done|done].
Qed.

Lemma on_db_ok d m b :
  wf b → ∃ b', on_db d m b = Some b' ∧ similar b b' ∧ Backend.state_snapshots (inner b') = Backend.state_snapshots (inner b).
Proof.
  intros Hw. unfold on_db. destruct (active_fork_ids b) as [[a n]|] eqn:Ha.
  - destruct (get_fork_some b n Hw) as [f Hf]; [by apply (wf_active _ Hw _ _ Ha)|]. rewrite Hf. eexists. split; [done|].
    split; [apply similar_set_fork; by eexists|done].
  - eexists. split; [done|]. split; [by apply similar_same|done].
Qed.
Lemma initialize_ok e b :
  wf b → ∃ b', initialize e b = Some b' ∧ similar b b' ∧ Backend.state_snapshots (inner b') = Backend.state_snapshots (inner b).
Proof.
  intros Hw. unfold initialize. set (b1 := set_spec_id _ _).
  assert (Hfound : ∃ r, match active_fork b1 with
      | None => Some (Ok (mem_basic_ref (caller (tx e)) (mem_db b1)))
      | Some fork => fork ≫= λ f, Some (basic_ref (caller (tx e)) (fork_db f))
      end = Some r).
  { unfold active_fork. change (active_fork_ids b1) with (active_fork_ids b).
    destruct (active_fork_ids b) as [[a n]|] eqn:Ha; [|by eexists].
    destruct (get_fork_some b n Hw) as [f Hf]; [by apply (wf_active _ Hw _ _ Ha)|].
    cbn. change (get_fork n _) with (get_fork n (inner b)). rewrite Hf. by eexists. }
  destruct Hfound as [r Hr]. rewrite Hr. eexists. split; [done|]. by split.
Qed.
Lemma diagnose_ok callee j b : wf b → is_Some (diagnose_revert callee j b).
Proof.
  intros Hw. unfold diagnose_revert. destruct (active_fork_ids b) as [[a n]|] eqn:Ha; [|done].
  destruct (get_fork_some b n Hw) as [f Hf]; [by apply (wf_active _ Hw _ _ Ha)|]. rewrite Hf. cbn [mbind option_bind].
  case_match; [done|]. case_match; [done|].
  assert (Hall : is_Some (forks_iter (inner b))).
  { apply mapM_is_Some. apply Forall_forall. intros id Hid. rewrite elem_of_hash_iter, elem_of_dom in Hid.
    destruct Hid as [fork_id Hid]. destruct (wf_issued _ Hw _ _ Hid) as (m & Hm & _ & Hlt).
    unfold compose, ensure_fork_index_by_local_id, ensure_fork_id, ensure_fork_index. rewrite Hid. cbn. rewrite Hm. cbn.
    destruct (get_fork_some b m Hw Hlt) as [g Hg]. rewrite Hg. by eexists. }
  destruct Hall as [fs Hfs]. rewrite Hfs. by eexists.
Qed.

(** *** Snapshots *)

Definition snapshot_at (n : Z) (w : World) : option BackendStateSnapshot := StateDb.state_snapshots (snaps w) !! n.

Lemma wf_with_snapshots b (s : StateSnapshots BackendStateSnapshot) :
  wf b →
  (∀ n x, StateDb.state_snapshots s !! n = Some x →
     match snap_db x with
     | Forked id fork_id idx _ => numbered (inner b) id idx ∧ created_forks (inner b) !! fork_id = Some idx
     | InMemory _ => True
     end) →
  wf (on_inner (set_state_snapshots s) b).
Proof. by intros [H1 H2 H3 H4 H5 H6 H7 H8] Hs. Qed.

Lemma restore_wf b id (fork_id : ForkId) idx f :
  wf b → numbered (inner b) id idx → created_forks (inner b) !! fork_id = Some idx →
  wf (set_active (Some (id, idx)) (on_inner (revert_state_snapshot id fork_id idx f) b)).
Proof.
  intros Hw Hnum Hcr. destruct (get_fork_some b idx Hw (proj2 Hnum)) as [g Hg].
  pose proof (wf_similar _ _ (similar_set_fork b idx f (ex_intro _ g Hg)) Hw) as [H1 H2 H3 H4 H5 H6 H7 H8].
  destruct Hnum as [-> Hlt]. unfold numbered in *. cbn in H1, H2, H3, H4, H5, H6, H7, H8. rewrite length_insert in *.
  split; unfold numbered; cbn; rewrite ?(insert_id _ _ _ Hcr), ?length_insert; try done.
  - intros id fid. destruct (decide (id = Z.of_nat idx)) as [->|Hne].
    + rewrite lookup_insert_eq. intros [= <-]. by exists idx.
    + rewrite lookup_insert_ne by done. apply H3.
  - intros n Hn. destruct (decide (n = idx)) as [->|Hne]; [rewrite lookup_insert_eq; by eexists|].
    rewrite lookup_insert_ne by lia. by apply H4.
  - by intros id n [= <- <-].
Qed.

(** The snapshot [s] is in force again, with [j] the journal to go on with. *)
Record restored w (s : BackendStateSnapshot) (j : JournaledState) w' : Prop := {
  re_env : cur_env w' = update_current_env_with_fork_env (cur_env w) (snap_env s);
  re_journal : active_journal w' = active_journal w;
  re_db :
    let back := set_logs (logs (active_journal w)) (snap_journal s) in
    match snap_db s with
    | InMemory d => j = back ∧ mem_db (self w') = d ∧ active_fork_ids (self w') = active_fork_ids (self w)
    | Forked id fork_id idx f =>
        let f' := enter_caller (the_caller w) (active_journal w) (mkFork (fork_db f) back) in
        j = journaled_state f' ∧ active_fork_ids (self w') = Some (id, idx) ∧
        issued_local_fork_ids (inner (self w')) !! id = Some fork_id ∧
        get_fork idx (inner (self w')) = Some (mkFork (fork_db f') (journaled_state f))
    end;
}.

Lemma revert_state_missing n action w :
  snapshot_at n w = None →
  revert_state n action w = Some (Ok None, on_self (on_inner (set_state_snapshots (remove_at n (snaps w)).2)) w).
Proof.
  intros Hn. unfold revert_state. rewrite (M_bind_ok _ _ _ w w eq_refl). unfold remove_at, StateDb.get.
  unfold snapshot_at, snaps in *. by rewrite Hn.
Qed.
Definition snaps_after (n : Z) (action : RevertAction) (s : BackendStateSnapshot) w : StateSnapshots BackendStateSnapshot :=
  let snaps := (remove_at n (snaps w)).2 in if is_keep action then insert_at s n snaps else snaps.
Lemma snaps_after_lookup n action s w m :
  snapshot_at n w = Some s →
  StateDb.state_snapshots (snaps_after n action s w) !! m =
    if decide (m = n ∧ is_keep action = false) then None else snapshot_at m w.
Proof.
  intros Hn. unfold snaps_after, remove_at, insert_at, with_snapshots. destruct action; cbn.
  - case_decide as Hd; [destruct Hd as [-> _]; by rewrite lookup_delete_eq|].
    rewrite lookup_delete_ne; [done|]. intros ->. by apply Hd.
  - rewrite decide_False by naive_solver. destruct (decide (m = n)) as [->|Hne]; [by rewrite lookup_insert_eq|].
    by rewrite lookup_insert_ne, lookup_delete_ne by done.
Qed.

Lemma revert_state_spec n action s w :
  wf (self w) → snapshot_at n w = Some s →
  ∃ j w', revert_state n action w = Some (Ok (Some j), w') ∧ wf (self w') ∧ snaps w' = snaps_after n action s w ∧
    restored w s j w'.
Proof.
  intros Hw Hn. unfold revert_state. rewrite (M_bind_ok _ _ _ w w eq_refl).
  unfold remove_at, StateDb.get. change (StateDb.state_snapshots _ !! n) with (snapshot_at n w). rewrite Hn.
  rewrite (M_bind_ok _ _ _ tt (on_self (on_inner (set_state_snapshots (snaps_after n action s w))) w) eq_refl).
  set (w1 := on_self _ w).
  assert (Hw1 : wf (self w1)).
  { apply wf_with_snapshots; [done|]. intros m x. rewrite snaps_after_lookup by done. case_decide; [done|].
    apply (wf_snapshots _ Hw). }
  set (flag := (if global_failure (active_journal w) then _ else _) : M unit).
  assert (Hflag : ∃ w2, flag w1 = Some (Ok tt, w2) ∧ wf (self w2) ∧ snaps w2 = snaps w1 ∧ cur_env w2 = cur_env w ∧
    active_journal w2 = active_journal w ∧ active_fork_ids (self w2) = active_fork_ids (self w) ∧
    inner_forks (inner (self w2)) = inner_forks (inner (self w)) ∧ created_forks (inner (self w2)) = created_forks (inner (self w))).
  { unfold flag. destruct (global_failure _); eexists; (split; [done|]); split_and!; try done.
    by apply (same_tables_wf (self w1)). }
  destruct Hflag as (w2 & Hflag & Hw2 & Hs2 & Henv & Hj & Hact & Hfs & Hcr). rewrite (M_bind_ok _ _ _ _ _ Hflag).
  rewrite (M_bind_ok _ _ _ w2 w2 eq_refl). pose proof (wf_snapshots _ Hw _ _ Hn) as Hsnap.
  unfold restore_db. destruct (snap_db s) as [d|id fork_id idx f] eqn:Hdb.
  - eexists _, _. split; [reflexivity|]. cbn. split; [by apply (same_tables_wf (self w2))|]. split; [exact Hs2|].
    split; cbn; [by rewrite Henv|done|]. rewrite Hdb, Hj. done.
  - destruct Hsnap as [[Hid Hlt] Hc]. rewrite Hfs, (decide_True _ _ Hlt).
    eexists _, _. split; [reflexivity|]. split.
    { apply restore_wf; [done|..|by rewrite Hcr]. split; [done|by rewrite Hfs]. }
    split; [exact Hs2|]. split; cbn; [by rewrite Henv|done|].
    rewrite Hdb. unfold the_caller. rewrite Henv, Hj. cbn. rewrite lookup_insert_eq. split_and!; try done.
    unfold get_fork, revert_state_snapshot, set_fork. cbn. rewrite list_lookup_insert_eq; [done|]. by rewrite Hfs.
Qed.

(** What is taken. *)
Lemma snapshot_state_spec w :
  wf (self w) →
  ∃ d, create_db_snapshot (self w) = Some d ∧
    let w' := on_self (on_inner (set_state_snapshots (StateDb.insert (mkStateSnapshot d (active_journal w) (cur_env w)) (snaps w)).2)) w in
    snapshot_state w = Some (Ok (StateDb.id (snaps w)), w') ∧ wf (self w').
Proof.
  intros Hw.
  assert (Hd : ∃ d, create_db_snapshot (self w) = Some d ∧
    match d with
    | Forked id fork_id idx _ => numbered (inner (self w)) id idx ∧ created_forks (inner (self w)) !! fork_id = Some idx
    | InMemory _ => True
    end).
  { unfold create_db_snapshot. destruct (active_fork_ids (self w)) as [[id n]|] eqn:Ha; [|by eexists].
    destruct (wf_active _ Hw _ _ Ha) as [-> Hlt]. destruct (get_fork_some _ n Hw Hlt) as [f Hf]. rewrite Hf.
    destruct (wf_all _ Hw n Hlt) as [i Hi]. cbn. unfold ensure_fork_id. rewrite Hi. eexists. split; [done|].
    destruct (wf_issued _ Hw _ _ Hi) as (m & Hm & [Hnm Hlm]). assert (m = n) as -> by lia. done. }
  destruct Hd as (d & Hd & Hok). exists d. split; [done|]. cbn zeta. split.
  - unfold snapshot_state. rewrite (M_bind_ok _ _ _ w w eq_refl). rewrite (M_bind_ok _ _ _ d w) by (unfold unwrap; by rewrite Hd).
    done.
  - apply wf_with_snapshots; [done|]. intros n x. cbn. destruct (decide (n = StateDb.id (snaps w))) as [->|Hne].
    + rewrite lookup_insert_eq. by intros [= <-].
    + rewrite lookup_insert_ne by done. apply (wf_snapshots _ Hw).
Qed.

(** *** Serving *)

(** The snapshot is not deleted by the request. *)
Definition keeps (n : Z) (r : TestRequest) : Prop :=
  match r with
  | DeleteSnapshots => False
  | DeleteSnapshot m => m ≠ n
  | Revert m RevertRemove => m ≠ n
  | _ => True
  end.

(** A request is answered, and a snapshot with a number that was given out stays
    what it is unless the request deletes it. *)
Definition served w (r : TestRequest) : Prop :=
  ∃ a w', serve r w = Some (a, w') ∧ wf (self w') ∧
    ∀ n s, keeps n r → n < umax 256 → n < StateDb.id (snaps w) → snapshot_at n w = Some s →
      n < StateDb.id (snaps w') ∧ snapshot_at n w' = Some s.

Lemma safe_served w r : wf (self w) → safe anywhere (serve r) anything → served w r.
Proof.
  intros Hw Hs. destruct (Hs w Hw I) as (a & w' & Hr & Hw' & Hsn & _). exists a, w'. split_and!; [done..|].
  intros n s _ _ Hn Hat. unfold snapshot_at in *. by rewrite Hsn.
Qed.
Lemma safe_and_done {A} P (m : M A) Q : safe P m Q → safe P (m ≫= λ _, mret tt) anything.
Proof. intros Hm. eapply safe_bind; [exact Hm|]. intros ?. apply safe_done. Qed.
Lemma safe_replace P e j : safe P (modify (λ w, mkWorld (self w) e j)) anything.
Proof. apply safe_modify. done. Qed.

Lemma delete_snapshots_wf b : wf b → wf (delete_state_snapshots b).
Proof. intros Hw. unfold delete_state_snapshots. apply (wf_with_snapshots b); [done|]. intros n x. cbn. by rewrite lookup_empty. Qed.
Lemma delete_snapshot_wf n b : wf b → wf (delete_state_snapshot n b).2.
Proof.
  intros Hw. apply (wf_with_snapshots b); [done|]. intros m x Hx. apply (wf_snapshots b Hw m).
  unfold remove_at, with_snapshots in Hx. cbn in Hx. by apply lookup_delete_Some in Hx as [_ Hx].
Qed.

Lemma served_snapshot w : wf (self w) → served w Snapshot.
Proof.
  intros Hw. destruct (snapshot_state_spec w Hw) as (d & Hd & Hr & Hw'). eexists _, _. cbn [serve].
  rewrite (M_bind_ok _ _ _ _ _ Hr). split_and!; [done..|]. intros n s _ Hmax Hn Hs.
  unfold snapshot_at, snaps in *. cbn. rewrite lookup_insert_ne by lia. split; [|done].
  unfold u_saturating_add. lia.
Qed.

Lemma served_revert n action w : wf (self w) → served w (Revert n action).
Proof.
  intros Hw. destruct (snapshot_at n w) as [s|] eqn:Hn.
  - destruct (revert_state_spec n action s w Hw Hn) as (j & w' & Hr & Hw' & Hs & _).
    exists (Ok tt), (set_active_journal j w'). cbn [serve]. rewrite (M_bind_ok _ _ _ _ _ Hr). split_and!; [done..|].
    intros m x Hk _ Hm Hx. unfold snapshot_at in *. change (snaps (set_active_journal j w')) with (snaps w'). rewrite Hs.
    split; [by destruct action|]. rewrite snaps_after_lookup by done. rewrite decide_False; [done|].
    intros [-> Ha]. by destruct action.
  - eexists _, _. cbn [serve]. rewrite (M_bind_ok _ _ _ _ _ (revert_state_missing n action w Hn)).
    split; [reflexivity|]. split; [by apply (delete_snapshot_wf n)|]. intros m x Hk _ Hm Hx. split; [done|].
    unfold snapshot_at, snaps. cbn. rewrite lookup_delete_ne; [done|]. intros ->. congruence.
Qed.

Lemma serve_ok w r : wf (self w) → served w r.
Proof.
  intros Hw. destruct r.
  all: try (apply safe_served; [done|]; cbn [serve]; first
    [ apply safe_setting; done
    | apply safe_partial; intros; (by apply on_db_ok) || (by apply initialize_ok)
    | eapply safe_and_done; first [apply safe_create_fork|apply safe_create_fork_at|apply safe_create_select_fork|apply safe_create_select_fork_at]
    | apply safe_select_fork | apply safe_roll_fork | apply safe_roll_fork_to_transaction | apply safe_transact ]; fail).
  - apply safe_served; [done|]. eapply safe_bind; [apply safe_partial; intros; by apply on_db_ok|]. intros ?. apply safe_replace.
  - by apply served_snapshot.
  - by apply served_revert.
  - eexists _, _. split; [reflexivity|]. split; [by apply (delete_snapshot_wf n)|]. intros m x Hk _ Hm Hx. split; [done|].
    unfold snapshot_at, snaps. cbn. rewrite lookup_delete_ne; [done|]. intros ->. by apply Hk.
  - eexists _, _. split; [reflexivity|]. split; [by apply delete_snapshots_wf|]. intros m x [].
  - destruct (diagnose_ok callee (active_journal w) (self w) Hw) as [o Ho].
    exists (Ok tt), w. split_and!; [|done|done]. cbn [serve]. rewrite (M_bind_ok _ _ _ w w eq_refl).
    by rewrite (M_bind_ok _ _ _ o w) by (unfold unwrap; by rewrite Ho).
Qed.

(** *** A new backend *)
Lemma wf_set_active b id idx : wf b → numbered (inner b) id idx → wf (set_active (Some (id, idx)) b).
Proof. intros [H1 H2 H3 H4 H5 H6 H7 H8] Hn. by split; [..|intros ? ? [= <- <-]| |]. Qed.
Lemma insert_numbered b fork_id d j :
  wf b → let ids := insert_new_fork fork_id d j (inner b) in numbered ids.2 ids.1.1 ids.1.2.
Proof. intros Hw. split; cbn; [apply (wf_next b Hw)|]. rewrite length_app. cbn. lia. Qed.
Lemma Backend_new_wf c s (f : option CreateFork) b : service_ok s → Backend_new c s f = Ok b → wf b.
Proof.
  intros Hs. unfold Backend_new. set (b0 := mkBackend c s _ _ None _ ∅).
  assert (Hw0 : wf b0).
  { split; cbn; try done. intros n Hn. lia. }
  destruct f as [f|]; [|by intros [= <-]].
  destruct (service_create f s) as [r s'] eqn:Hr. destruct (create_ok _ _ _ _ Hs Hr) as [Hok Hk].
  destruct r as [[[fork_id shared] e]|err]; [|done]. destruct Hk as [Hnew Hk].
  assert (Hsv : wf (set_service s' b0)).
  { apply service_known; [done..|]. intros k Hin. rewrite Hk. case_decide; [by eexists|done]. }
  assert (Henv : is_Some (service_env fork_id s')) by (rewrite Hk, decide_True by done; by eexists).
  pose proof (insert_wf (set_service s' b0) fork_id (ForkDB_new shared) (new_journaled_state (spec_id (inner b0)))
                Hsv eq_refl Henv) as Hw1.
  pose proof (insert_numbered (set_service s' b0) fork_id (ForkDB_new shared) (new_journaled_state (spec_id (inner b0))) Hsv) as Hnum.
  change (inner (set_service s' b0)) with (inner b0) in Hw1, Hnum.
  change (set_persistent DEFAULT_PERSISTENT_ACCOUNTS inner_default) with (inner b0).
  destruct (insert_new_fork _ _ _ _) as [[id n] i]. cbn [fst snd] in *. intros [= <-]. apply wf_set_active; [|done].
  by apply (same_tables_wf (set_inner i (set_service s' b0))).
Qed.

(** ** The theorems *)

Lemma serve_all_ok rs w :
  wf (self w) → ∃ l w', serve_all rs w = Some (l, w') ∧ wf (self w') ∧
    ∀ n s, Forall (keeps n) rs → n < umax 256 → n < StateDb.id (snaps w) → snapshot_at n w = Some s → snapshot_at n w' = Some s.
Proof.
  revert w. induction rs as [|r rs IH]; intros w Hw; [by eexists _, _|].
  destruct (serve_ok w r Hw) as (a & w1 & Hr & Hw1 & Hk). destruct (IH w1 Hw1) as (l & w2 & Hrs & Hw2 & Hk2).
  exists (a :: l), w2. cbn. rewrite Hr. cbn. rewrite Hrs. split_and!; [done..|].
  intros n s [Hn Hns]%Forall_cons Hmax Hlt Hs. destruct (Hk n s Hn Hmax Hlt Hs). by apply Hk2.
Qed.

(** C4: No request panics.  From a new backend, launched with a fork or
    without, a test may create, select and roll forks in any order, replay the
    chain's transactions on them, take, revert and delete snapshots, and change the
    settings: every [unwrap], [expect] and index of the backend finds what it
    asks for, so each request is answered, with a result or an error, and the
    tables of forks and identifiers agree afterwards. *)
Theorem requests_never_panic c s (f : option CreateFork) b e j (rs : list TestRequest) :
  service_ok s → Backend_new c s f = Ok b →
  ∃ answers w, serve_all rs (mkWorld b e j) = Some (answers, w) ∧ wf (self w).
Proof.
  intros Hs Hb. destruct (serve_all_ok rs (mkWorld b e j)) as (l & w & Hr & Hw & _); [by eapply Backend_new_wf|].
  by exists l, w.
Qed.

Context {DbL : DatabaseLaws}.

Lemma enter_caller_kept c from f a :
  a ≠ c ∨ is_Some (state (journaled_state f) !! a) →
  state (journaled_state (enter_caller c from f)) !! a = state (journaled_state f) !! a ∧
  accounts (fork_db (enter_caller c from f)) !! a = accounts (fork_db f) !! a.
Proof.
  intros Ha. unfold enter_caller. destruct (state (journaled_state f) !! c) as [x|] eqn:Hc; [done|].
  assert (Hne : a ≠ c) by (intros ->; destruct Ha as [Ha|[? Ha]]; congruence). cbn. rewrite lookup_insert_ne by done.
  split; [done|]. case_match; [done|]. by rewrite insert_other.
Qed.
Lemma enter_caller_fields c from f :
  logs (journaled_state (enter_caller c from f)) = logs (journaled_state f) ∧
  depth (journaled_state (enter_caller c from f)) = depth (journaled_state f).
Proof. unfold enter_caller. by case_match. Qed.

(** C23: Reverting to a snapshot brings back what it was taken of, whatever
    happened since, as long as nothing deleted it: forks created, selected, rolled
    and written to, other snapshots taken, reverted and deleted.  The journal that
    the run goes on with has the accounts and the depth of then and the logs of
    now, the block and the configuration are those of then, and the fork that was
    active is active again with its number, its identifier and the accounts
    its database had; only a caller that the journal of then lacks is added.  Of
    a snapshot in memory the database comes back, and a fork that was selected
    since stays selected.  The snapshot may be one that was kept in a revert, or
    that was taken after one that was reverted to. *)
Theorem snapshot_restored w n w1 rs answers w2 action :
  wf (self w) → snapshot_state w = Some (Ok n, w1) → n < umax 256 →
  serve_all rs w1 = Some (answers, w2) → Forall (keeps n) rs →
  ∃ j w3, revert_state n action w2 = Some (Ok (Some j), w3) ∧ wf (self w3) ∧
    logs j = logs (active_journal w2) ∧ depth j = depth (active_journal w) ∧
    block (cur_env w3) = block (cur_env w) ∧ cfg (cur_env w3) = cfg (cur_env w) ∧
    (∀ a, a ≠ the_caller w2 ∨ is_Some (state (active_journal w) !! a) → state j !! a = state (active_journal w) !! a) ∧
    match active_fork_ids (self w) with
    | Some (id, idx) =>
        active_fork_ids (self w3) = Some (id, idx) ∧
        issued_local_fork_ids (inner (self w3)) !! id = issued_local_fork_ids (inner (self w)) !! id ∧
        ∀ a, a ≠ the_caller w2 ∨ is_Some (state (active_journal w) !! a) →
          active_accounts (self w3) !! a = active_accounts (self w) !! a
    | None => mem_db (self w3) = mem_db (self w) ∧ active_fork_ids (self w3) = active_fork_ids (self w2)
    end.
Proof.
  intros Hw Hsnap Hmax Hrs Hkeep. destruct (snapshot_state_spec w Hw) as (d & Hd & Hr & Hw1).
  cbn zeta in Hr, Hw1. set (w1' := on_self _ w) in *.
  assert (n = StateDb.id (snaps w) ∧ w1 = w1') as [-> ->] by (split; congruence).
  destruct (serve_all_ok rs w1' Hw1) as (l & w2' & Hrs' & Hw2 & Hk). assert (w2' = w2) as -> by congruence.
  specialize (Hk (StateDb.id (snaps w)) (mkStateSnapshot d (active_journal w) (cur_env w)) Hkeep Hmax).
  destruct (revert_state_spec (StateDb.id (snaps w)) action (mkStateSnapshot d (active_journal w) (cur_env w)) w2 Hw2)
    as (j & w3 & Hrev & Hw3 & _ & [Henv _ Hdb]).
  { apply Hk; unfold snaps, snapshot_at, snaps; cbn; [unfold u_saturating_add, snaps in *; lia|by rewrite lookup_insert_eq]. }
  exists j, w3. split; [done|]. split; [done|]. rewrite Henv. cbn [snap_db snap_journal snap_env] in *.
  unfold create_db_snapshot in Hd. destruct (active_fork_ids (self w)) as [[id idx]|] eqn:Hact.
  - destruct (get_fork idx (inner (self w))) as [f|] eqn:Hf; [|done]. cbn in Hd.
    destruct (ensure_fork_id id (inner (self w))) as [fork_id|] eqn:Hid; [|done]. cbn in Hd. injection Hd as <-.
    set (back := mkFork (fork_db f) (set_logs (logs (active_journal w2)) (active_journal w))) in *.
    destruct Hdb as (-> & Ha3 & Hi3 & Hf3). destruct (enter_caller_fields (the_caller w2) (active_journal w2) back) as [-> ->].
    split_and!; try done.
    + intros a Ha. by apply (enter_caller_kept (the_caller w2) (active_journal w2) back).
    + by rewrite Hi3.
    + intros a Ha. unfold active_accounts. rewrite Ha3, Hf3, Hact, Hf.
      by apply (enter_caller_kept (the_caller w2) (active_journal w2) back).
  - injection Hd as <-. destruct Hdb as (-> & Hm3 & Ha3). by split_and!.
Qed.
End requests.

(** ** An example *)
Module BackendExample.
Export MultiForkSpec.MultiForkExample.
#[export] Instance order : HashIter := elements_iter.
#[export] Instance revm : Revm := {| Log := Z; SpecId := unit; JournalRest := unit |}.
#[export] Instance forks : ForkService := multi_fork answer (λ p, p).

(** An account of the node has the number of the block as its nonce, and its
    slots hold their key and that number. *)
Definition remote_info (a : Z) (s : str * Z) : AccountInfo :=
  {| balance := a; nonce := s.2; code_hash := 0; account_id := None; code := None |}.
Definition cached (a : Z) (d : CacheDB SharedBackend) : DbAccount :=
  match accounts d !! a with
  | Some acc => acc
  | None => {| info := remote_info a (db d); account_state := Unchanged; storage := ∅ |}
  end.
Definition cache (a : Z) (d : CacheDB SharedBackend) : CacheDB SharedBackend :=
  match accounts d !! a with Some _ => d | None => set_accounts (<[a := cached a d]> (accounts d)) d end.
Definition slot_of (a k : Z) (d : CacheDB SharedBackend) : Z :=
  default (k + (db d).2) (storage (cached a d) !! k).
Definition block_of_node (n : Z) (s : str * Z) : RpcBlock :=
  mkRpcBlock (mkRpcHeader (1000 + n) 0 0 None None 30000000 n None)
    [mkRpcTransaction (100 * n) 3 2 (Some n); mkRpcTransaction (100 * n + 1) 3 2 (Some n)].
Definition committed {Ext} (changes : gmap Z Account) (d : CacheDB Ext) : CacheDB Ext :=
  set_accounts (((λ a, {| info := account_info a; account_state := Touched; storage := present_value <$> account_storage a |})
                  <$> changes) ∪ accounts d) d.

#[export] Instance database : Database := {|
  MemExt := unit;
  basic a d := (Ok (Some (info (cached a d))), cache a d);
  basic_ref a d := Ok (Some (info (cached a d)));
  db_storage a k d := (Ok (slot_of a k d), cache a d);
  db_load_account a d := (Ok (cached a d), cache a d);
  insert_account_info a i d :=
    set_accounts (<[a := {| info := i; account_state := Unchanged; storage := storage (cached a d) |}]> (accounts d)) d;
  commit := committed;
  mem_commit := committed;
  mem_basic_ref a d := info <$> accounts d !! a;
  empty_mem := tt;
  load_account a j d :=
    (set_state (<[a := Account_from (info (cached a d))]> (state j)) j, cache a d);
  new_journaled_state _ := mkJournal ∅ [] 0 tt;
  is_precompile _ a := bool_decide (1 <= a <= 9);
  spec_of _ := tt;
  create_address a n := a + n;
  KECCAK_EMPTY := 0;
  info_default := {| balance := 0; nonce := 0; code_hash := 0; account_id := None; code := None |};
  spec_default := tt;
  get_transaction h s := Ok (mkRpcTransaction h 3 2 (Some (h / 100)));
  get_full_block n s := Ok (block_of_node (default s.2 n) s);
  cfg_chain_id c := c;
  blob_price _ _ _ := (0, 0);
  get_fork_type _ := false;
|}.
#[export] Instance database_laws : DatabaseLaws.
Proof.
  split.
  - intros a d acc Ha. unfold db_load_account, database, cached, cache. by rewrite !Ha.
  - intros a d r d' b [= <- <-] Hb. unfold cache. destruct (accounts d !! a); [done|]. cbn. by rewrite lookup_insert_ne.
  - intros a i d b Hb. cbn. by rewrite lookup_insert_ne.
Qed.
#[export] Instance fork_laws : ForkServiceLaws := multi_fork_laws answer (λ p, p) answer_block.

Definition evm_transact (b : Backend) (e : Env) (t : RpcTransaction) (d : Z) : result Error (gmap Z Account) :=
  Ok {[ signer t := Account_from {| balance := tx_hash t; nonce := 1; code_hash := 0; account_id := None; code := None |} ]}.
Definition service0 : Service := (MultiForkHandler_new, tt).

Definition ok_of {E A : Type} (r : result E A) : match r return Type with Ok _ => A | Err _ => unit end :=
  match r with Ok a => a | Err _ => tt end.
Definition backend0 : Backend := ok_of (Backend_new tt service0 None).
Definition account (n slot v : Z) : Account :=
  mkAccount {| balance := 5; nonce := n; code_hash := 0; account_id := None; code := None |}
    {[ slot := mkSlot 0 v 0 false ]} true true 0.
(** The caller is 0; the accounts 80 and 96 were created. *)
Definition journal0 : JournaledState := mkJournal {[ 0 := account 1 0 0; 80 := account 2 1 11; 96 := account 3 1 66 ]} [] 1 tt.
Definition start : World := mkWorld backend0 (env_of_block 0) journal0.

Definition after (rs : list TestRequest) (w : World) : World :=
  match serve_all service0 evm_transact rs w with Some (_, w') => w' | None => w end.
Definition answers (rs : list TestRequest) (w : World) : list (result Error unit) :=
  match serve_all service0 evm_transact rs w with Some (l, _) => l | None => [] end.
Lemma after_run rs w :
  wf (self w) → serve_all service0 evm_transact rs w = Some (answers rs w, after rs w) ∧ wf (self (after rs w)).
Proof.
  intros Hw. destruct (serve_all_ok service0 evm_transact rs w Hw) as (l & w' & Hr & Hw' & _). unfold answers, after.
  by rewrite Hr.
Qed.
Lemma after_one r w :
  wf (self w) → answers [r] w = [Ok tt] → serve service0 evm_transact r w = Some (Ok tt, after [r] w).
Proof.
  intros Hw Ha. destruct (serve_ok service0 evm_transact w r Hw) as (a & w' & Hr & _). unfold after, answers in *.
  cbn in Ha |- *. rewrite Hr in Ha |- *. cbn in Ha. by injection Ha as ->.
Qed.
Lemma service0_ok : service_ok service0.
Proof. apply MultiForkSpec.idle_new. Qed.
Lemma start_wf : wf (self start).
Proof. exact (Backend_new_wf tt service0 None backend0 service0_ok eq_refl). Qed.

(** Account 80 is persistent; there are forks of blocks 10 and 12, and the first is selected. *)
Definition setup : list TestRequest :=
  [AddPersistent 80; NewFork (fork_of (Some 10)); NewFork (fork_of (Some 12)); SelectFork 0].
Definition w0 : World := after setup start.
Lemma w0_wf : wf (self w0).
Proof. apply after_run, start_wf. Qed.

Definition journal_slot (a k : Z) (w : World) : option Z :=
  acc ← state (active_journal w) !! a; present_value <$> account_storage acc !! k.
(** The EVM writes slot 1 of the accounts 80 and 96, and the cheatcode [roll] sets the block. *)
Definition write (v : Z) (w : World) : TestRequest :=
  Run (set_block (block_at v) (cur_env w)) (set_state (<[80 := account 2 1 v]> (<[96 := account 3 1 v]> (state (active_journal w)))) (active_journal w))
    (λ d, d) (λ d, d).
Definition seen (w : World) : option Z * option Z * option Z * Z :=
  (active_fork_id (self w), journal_slot 80 1 w, journal_slot 96 1 w, number (block (cur_env w))).

Definition w1 : World := after [SelectFork 1] w0.
Definition w2 : World := after [write 7 w1] w1.
Definition w3 : World := after [SelectFork 0] w2.
Example forks_seen : map seen [w0; w1; w2; w3] =
  [(Some 0, Some 11, Some 66, 10); (Some 1, Some 11, Some 66, 12); (Some 1, Some 7, Some 7, 7); (Some 0, Some 7, Some 66, 10)].
Proof. vm_compute. reflexivity. Qed.

Lemma requests_never_panic_witness :
  ∃ answers w, serve_all service0 evm_transact
    [Initialize (env_of_block 0); NewFork (fork_of (Some 10)); SelectFork 5; SelectFork 0; Snapshot; NewSelectedForkAt (fork_of None) 1701;
     RollFork None 15; RollForkTo (Some 0) 1200; Transact None 1301 (env_of_block 1); Revert 0 RevertKeep; Diagnose 80; Revert 0 RevertRemove;
     Revert 0 RevertRemove; RollFork (Some 9) 3] start = Some (answers, w) ∧ wf (self w).
Proof. exact (requests_never_panic service0 evm_transact tt service0 None backend0 _ _ _ service0_ok eq_refl). Defined.
Example requests_answered :
  answers [Initialize (env_of_block 0); NewFork (fork_of (Some 10)); SelectFork 5; SelectFork 0; Snapshot; NewSelectedForkAt (fork_of None) 1701;
     RollFork None 15; RollForkTo (Some 0) 1200; Transact None 1301 (env_of_block 1); Revert 0 RevertKeep; Diagnose 80; Revert 0 RevertRemove;
     Revert 0 RevertRemove; RollFork (Some 9) 3] start =
  [Ok tt; Ok tt; Err NoForkFound; Ok tt; Ok tt; Ok tt; Ok tt; Ok tt; Ok tt; Ok tt; Ok tt; Ok tt; Ok tt; Err (ForkMissing 9)].
Proof. vm_compute. reflexivity. Qed.

Lemma w1_wf : wf (self w1).
Proof. apply after_run, w0_wf. Qed.
Lemma w2_wf : wf (self w2).
Proof. apply after_run, w1_wf. Qed.
Lemma persistent_accounts_kept_witness :
  active_fork_id (self w0) = Some 0 ∧ active_fork_id (self w1) = Some 1 ∧
  ∃ acc', state (active_journal w1) !! 80 = Some acc' ∧ account_info acc' = account_info (account 2 1 11) ∧
    ∀ k v, read_slot (active_journal w0) (active_accounts (self w0)) 80 k = Some v →
      read_slot (active_journal w1) (active_accounts (self w1)) 80 k = Some v.
Proof.
  split; [vm_compute; reflexivity|]. split; [vm_compute; reflexivity|].
  apply (persistent_accounts_kept w0 1 w1 80 (account 2 1 11)).
  - exact w0_wf.
  - apply (after_one (SelectFork 1) w0 w0_wf). vm_compute. reflexivity.
  - vm_compute. reflexivity.
  - apply not_elem_of_empty.
  - vm_compute. reflexivity.
Defined.

(** The snapshot is taken on the first fork; then the second is selected, written
    and rolled, and another snapshot is taken and used up. *)
Definition between : list TestRequest := [SelectFork 1; write 7 w1; RollFork None 14; Snapshot; Revert 1 RevertRemove; RollFork (Some 0) 11].
Definition taken : World := match snapshot_state w0 with Some (_, w) => w | None => w0 end.
Definition reverted : World :=
  match revert_state 0 RevertRemove (after between taken) with Some (_, w) => w | None => taken end.
Example snapshot_seen :
  (active_fork_id (self (after between taken)), active_fork_id (self reverted), number (block (cur_env reverted))) =
  (Some 1, Some 0, 10).
Proof. vm_compute. reflexivity. Qed.

Lemma taken_snapshot : snapshot_state w0 = Some (Ok 0, taken) ∧ wf (self taken).
Proof.
  destruct (snapshot_state_spec w0 w0_wf) as (d & _ & Hr & Hw). cbn zeta in Hr, Hw. unfold taken. rewrite Hr.
  assert (StateDb.id (snaps w0) = 0) as -> by (vm_compute; reflexivity). split; [reflexivity|exact Hw].
Qed.
Lemma snapshot_restored_witness :
  ∃ j w', revert_state 0 RevertRemove (after between taken) = Some (Ok (Some j), w') ∧ wf (self w') ∧
    logs j = logs (active_journal (after between taken)) ∧ depth j = depth (active_journal w0) ∧
    block (cur_env w') = block (cur_env w0) ∧ cfg (cur_env w') = cfg (cur_env w0) ∧
    (∀ a, a ≠ the_caller (after between taken) ∨ is_Some (state (active_journal w0) !! a) →
       state j !! a = state (active_journal w0) !! a) ∧
    match active_fork_ids (self w0) with
    | Some (id, idx) =>
        active_fork_ids (self w') = Some (id, idx) ∧
        issued_local_fork_ids (inner (self w')) !! id = issued_local_fork_ids (inner (self w0)) !! id ∧
        ∀ a, a ≠ the_caller (after between taken) ∨ is_Some (state (active_journal w0) !! a) →
          active_accounts (self w') !! a = active_accounts (self w0) !! a
    | None => mem_db (self w') = mem_db (self w0) ∧ active_fork_ids (self w') = active_fork_ids (self (after between taken))
    end.
Proof.
  apply (snapshot_restored service0 evm_transact w0 0 taken between (answers between taken) (after between taken) RevertRemove).
  - exact w0_wf.
  - exact (proj1 taken_snapshot).
  - reflexivity.
  - apply after_run. exact (proj2 taken_snapshot).
  - repeat apply Forall_cons_2; try exact I; [|by apply Forall_nil_2]. discriminate.
Defined.

(** A snapshot that is kept can be reverted to again, and one that was taken later
    is not deleted by a revert to an earlier one. *)
Definition in_force (m : Z) (w : World) : bool := match snapshot_at m w with Some _ => true | None => false end.
Example snapshot_reverted_twice :
  let w := after [Snapshot; Revert 0 RevertKeep] w0 in
  (in_force 0 w, in_force 0 (after [Revert 0 RevertRemove] w)) = (true, false).
Proof. vm_compute. reflexivity. Qed.
Example later_snapshot_survives :
  let w := after [SelectFork 1; Snapshot; SelectFork 0; Snapshot; Revert 0 RevertRemove] w0 in
  (in_force 0 w, in_force 1 w, active_fork_id (self w), active_fork_id (self (after [Revert 1 RevertRemove] w))) =
  (false, true, Some 1, Some 0).
Proof. vm_compute. reflexivity. Qed.

(** A snapshot of the memory does not bring the memory back: a test that was not
    forked when the snapshot was taken goes on with its journal on the fork that it
    selected since. *)
Example memory_snapshot_stays_on_fork :
  let w := after [NewFork (fork_of (Some 10)); Snapshot; SelectFork 0; Revert 0 RevertRemove] start in
  active_fork_id (self start) = None ∧ active_fork_id (self w) = Some 0.
Proof. vm_compute. split; reflexivity. Qed.
End BackendExample.
