(* ===== verification/BackendIsolation.v ===== *)
(** * Forks are isolated

    What a test does on one fork stays there: an invariant of the backend while
    another fork than [home] is active, which no request breaks that does not
    name [home], and the round trip of leaving a fork and coming back. *)
From S2P Require Import Prelude.
From S2P Require Import Text.
From S2P Require Import StateDb.
From S2P Require Import MultiFork.
From S2P Require Import BackendMerge.
From S2P Require Import Backend.
From S2P Require Import BackendSpec.
From S2P Require Import BackendSafe.
From S2P Require Import BackendRequests.
Local Open Scope Z_scope.

Section isolation.
Context {R : Remote} {Rv : Revm} {Fs : ForkService} {St : BackendStrategy} {Db : Database} {Iter : HashIter}.
Context {FsL : ForkServiceLaws}.
Context (spawned : Service) (evm_transact : Backend → Env → RpcTransaction → Z → result Error (gmap Z Account)).
Implicit Types (b : Backend) (w : World) (id : Z) (idx : nat).

(** ** Away from a fork *)
Section away.
(** The fork [home], the [n]th, with the identifier [hid]; [G] are the identifiers
    it ever had and [H] the snapshots that were taken of it. *)
Context (n : nat) (home : Z) (hid : ForkId) (f0 : Fork) (e0 : Env) (G : ForkId → Prop) (H : Z → Prop).

Definition snapshot_of_others (s : BackendStateSnapshot) : Prop :=
  match snap_db s with
  | Forked id fork_id idx _ => id ≠ home ∧ ¬ G fork_id ∧ idx ≠ n
  | InMemory _ => True
  end.

Record elsewhere b : Prop := {
  el_fork : get_fork n (inner b) = Some f0;
  el_id : issued_local_fork_ids (inner b) !! home = Some hid;
  el_env : service_env hid (service b) = Some e0;
  el_known fork_id : G fork_id → is_Some (service_env fork_id (service b));
  el_place fork_id : created_forks (inner b) !! fork_id = Some n → G fork_id;
  el_other id fork_id : issued_local_fork_ids (inner b) !! id = Some fork_id → G fork_id → id = home;
  el_next : home < next_fork_id (inner b);
  el_active : ∃ id idx, active_fork_ids b = Some (id, idx) ∧ id ≠ home ∧ idx ≠ n;
  el_snapshots m s : StateDb.state_snapshots (Backend.state_snapshots (inner b)) !! m = Some s → ¬ H m → snapshot_of_others s;
  el_service : service_ok (service b);
}.
Context (hid_home : G hid).

(** A computation keeps away; its result has [Q]. *)
Definition keeps_away {A} (m : M A) (Q : A → Prop) : Prop :=
  ∀ w r w', elsewhere (self w) → m w = Some (r, w') → elsewhere (self w') ∧ ∀ a, r = Ok a → Q a.
Definition any {A} : A → Prop := λ _, True.

Lemma away_bind {A B} (m : M A) (k : A → M B) Q S :
  keeps_away m Q → (∀ a, Q a → keeps_away (k a) S) → keeps_away (m ≫= k) S.
Proof.
  intros Hm Hk w r w' Hw. unfold mbind, M_bind. destruct (m w) as [[[a|e] w1]|] eqn:Hr; [| |done].
  - destruct (Hm w (Ok a) w1 Hw Hr) as [Hw1 HQ]. by apply Hk; [apply HQ|].
  - intros [= <- <-]. by destruct (Hm w (Err e) w1 Hw Hr).
Qed.
Lemma away_weaken {A} (m : M A) (Q Q' : A → Prop) : keeps_away m Q → (∀ a, Q a → Q' a) → keeps_away m Q'.
Proof. intros Hm HQ w r w' Hw Hr. destruct (Hm w r w' Hw Hr). naive_solver. Qed.
Lemma away_any {A} (m : M A) Q : keeps_away m Q → keeps_away m any.
Proof. intros Hm. by eapply away_weaken. Qed.
(** Computations that leave the backend alone. *)
Lemma away_still {A} (m : M A) (Q : A → Prop) :
  (∀ w r w', elsewhere (self w) → m w = Some (r, w') → self w' = self w ∧ ∀ a, r = Ok a → Q a) → keeps_away m Q.
Proof. intros Hm w r w' Hw Hr. destruct (Hm w r w' Hw Hr) as [-> ?]. done. Qed.
Lemma away_ret {A} (a : A) : keeps_away (mret a) (λ x, x = a).
Proof. apply away_still. intros w r w' _ [= <- <-]. split; [done|]. by intros ? [= <-]. Qed.
Lemma away_done {A} (a : A) : keeps_away (mret a) any.
Proof. by eapply away_any, away_ret. Qed.
Lemma away_get : keeps_away get (λ w, elsewhere (self w)).
Proof. apply away_still. intros w r w' Hw [= <- <-]. split; [done|]. by intros ? [= <-]. Qed.
Lemma away_fail {A} e (Q : A → Prop) : keeps_away (fail e) Q.
Proof. apply away_still. by intros w r w' _ [= <- <-]. Qed.
Lemma away_or_fail {A} e (o : option A) : keeps_away (or_fail e o) (λ a, o = Some a).
Proof. destruct o; [eapply away_weaken; [apply away_ret|]; by intros ? ->|apply away_fail]. Qed.
Lemma away_lift {A} (r : result Error A) : keeps_away (lift r) (λ a, r = Ok a).
Proof. apply away_still. by intros w r' w' _ [= <- <-]. Qed.
Lemma away_created {A} (r : result CreateError A) : keeps_away (created r) any.
Proof. destruct r; [apply away_done|apply away_fail]. Qed.
Lemma away_database {A} (r : result str A) : keeps_away (database r) any.
Proof. destruct r; [apply away_done|apply away_fail]. Qed.
Lemma away_unwrap {A} (o : option A) : keeps_away (unwrap o) (λ a, o = Some a).
Proof. apply away_still. unfold unwrap. intros w r w' _. destruct o; [|done]. intros [= <- <-]. split; [done|]. by intros ? [= <-]. Qed.
Lemma away_modify g : (∀ w, elsewhere (self w) → elsewhere (self (g w))) → keeps_away (modify g) any.
Proof. intros Hg w r w' Hw [= <- <-]. split; [by apply Hg|done]. Qed.
Lemma away_outside g : (∀ w, self (g w) = self w) → keeps_away (modify g) any.
Proof. intros Hg. apply away_modify. intros w. by rewrite Hg. Qed.

Lemma same_elsewhere b b' :
  same_tables (inner b) (inner b') → active_fork_ids b' = active_fork_ids b → service b' = service b →
  elsewhere b → elsewhere b'.
Proof.
  intros (H1 & H2 & H3 & H4 & H5) Ha Hs [E1 E2 E3 E4 E5 E6 E7 E8 E9 E10]. unfold get_fork in *.
  split; unfold get_fork; rewrite ?H1, ?H2, ?H3, ?H4, ?H5, ?Ha, ?Hs; done.
Qed.
Lemma elsewhere_set_fork b idx f : elsewhere b → idx ≠ n → elsewhere (on_inner (set_fork idx f) b).
Proof.
  intros [E1 E2 E3 E4 E5 E6 E7 E8 E9 E10] Hne. split; cbn; try done.
  unfold get_fork in *. cbn. by rewrite list_lookup_insert_ne.
Qed.

Lemma away_fork_id_of id : id ≠ home → keeps_away (fork_id_of id) (λ i, ¬ G i).
Proof.
  intros Hid. apply away_still. intros w r w' Hw. unfold fork_id_of. run_M. unfold ensure_fork_id.
  destruct (issued_local_fork_ids (inner (self w)) !! id) as [i|] eqn:Hi; intros [= <- <-]; [|done].
  split; [done|]. intros ? [= <-] HG. apply Hid. by eapply el_other.
Qed.
Lemma away_fork_index_of id : id ≠ home → keeps_away (fork_index_of id) (λ idx, idx ≠ n).
Proof.
  intros Hid. apply away_still. intros w r w' Hw. unfold fork_index_of. run_M.
  destruct (ensure_fork_index_by_local_id id (inner (self w))) as [idx|] eqn:Hi; intros [= <- <-]; [|done].
  split; [done|]. intros ? [= <-] ->. apply bind_Some in Hi as (i & Hi & Hn).
  apply Hid. eapply el_other; [exact Hw|exact Hi|by eapply el_place].
Qed.
Lemma away_env_of id (i : ForkId) : keeps_away (env_of id i) any.
Proof. eapply away_bind; [apply away_get|]. intros w _. eapply away_any, away_or_fail. Qed.
Lemma away_the_fork idx : keeps_away (the_fork idx) any.
Proof. eapply away_bind; [apply away_get|]. intros w _. eapply away_any, away_unwrap. Qed.
Lemma away_put_fork idx f : idx ≠ n → keeps_away (put_fork idx f) any.
Proof. intros Hne. apply away_modify. intros w Hw. by apply elsewhere_set_fork. Qed.
Lemma away_take_fork idx : idx ≠ n → keeps_away (take_fork idx) any.
Proof.
  intros Hne. eapply away_bind; [apply away_the_fork|]. intros f _.
  eapply away_bind; [apply away_modify; intros w Hw; by apply elsewhere_set_fork|]. intros [] _. apply away_done.
Qed.

(** The service is asked about forks other than [home]. *)
Lemma elsewhere_service b s :
  elsewhere b → service_ok s → (∀ i, G i → service_env i s = service_env i (service b)) → elsewhere (set_service s b).
Proof.
  intros [E1 E2 E3 E4 E5 E6 E7 E8 E9 E10] Hok Hs. split; cbn; try done; [by rewrite Hs|].
  intros i Hi. rewrite Hs by done. by apply E4.
Qed.
Lemma away_update (u : Service → Service) :
  (∀ s, service_ok s → service_ok (u s) ∧ ∀ i, G i → service_env i (u s) = service_env i s) →
  keeps_away (with_service (λ s, (tt, u s))) any.
Proof.
  intros Hu w r w' Hw [= <- <-]. split; [|done]. destruct (Hu _ (el_service _ Hw)) as [Hok Hs].
  by apply elsewhere_service.
Qed.
Lemma update_block_away i k t s : ¬ G i → service_ok s →
  service_ok (service_update_block i k t s) ∧ ∀ j, G j → service_env j (service_update_block i k t s) = service_env j s.
Proof.
  intros Hi Hs. destruct (update_block_ok i k t s Hs) as [Hok Hj]. split; [done|]. intros j Hg. rewrite Hj.
  by rewrite decide_False by (by intros ->).
Qed.
Lemma update_env_away i v s : ¬ G i → service_ok s →
  service_ok (service_update_env i v s) ∧ ∀ j, G j → service_env j (service_update_env i v s) = service_env j s.
Proof.
  intros Hi Hs. destruct (update_env_ok i v s Hs) as [Hok Hj]. split; [done|]. intros j Hg. rewrite Hj.
  by rewrite decide_False by (by intros ->).
Qed.
(** A new identifier is none of those of [home]. *)
Lemma away_new {X} (f : Service → result CreateError (ForkId * X * Env) * Service) :
  (∀ s r s', service_ok s → f s = (r, s') → service_ok s' ∧
    match r with
    | Ok (i, _, e) => service_env i s = None ∧ ∀ j, service_env j s' = if decide (j = i) then Some e else service_env j s
    | Err _ => ∀ j, service_env j s' = service_env j s
    end) →
  keeps_away (r ← with_service f; created r) (λ p, ¬ G p.1.1).
Proof.
  intros Hf w r w' Hw. unfold with_service. run_M. destruct (f (service (self w))) as [o s'] eqn:Ho. 
  destruct (Hf _ _ _ (el_service _ Hw) Ho) as [Hok Hk]. destruct o as [[[i x] e]|err]; cbn; intros [= <- <-].
  - destruct Hk as [Hnew Hk]. assert (¬ G i) as Hi.
    { intros HG. destruct (el_known _ Hw i HG) as [? He]. congruence. }
    split; [|by intros ? [= <-]]. apply elsewhere_service; [done..|]. intros j Hj. rewrite Hk.
    by rewrite decide_False by (by intros ->).
  - split; [|done]. by apply elsewhere_service.
Qed.
Lemma away_assoc {A B C} (m : M A) (k : A → M B) (l : B → M C) Q :
  keeps_away ((m ≫= k) ≫= l) Q → keeps_away (m ≫= λ a, k a ≫= l) Q.
Proof.
  intros Hm w r w' Hw Hr. apply (Hm w r w' Hw). revert Hr. unfold mbind, M_bind. by destruct (m w) as [[[a|e] w1]|].
Qed.
Ltac away_step := eapply away_bind; [|intros ? ?].

(** ** The operations *)

Lemma elsewhere_insert b fork_id d j : elsewhere b → ¬ G fork_id →
  elsewhere (set_inner (insert_new_fork fork_id d j (inner b)).2 b).
Proof.
  intros [E1 E2 E3 E4 E5 E6 E7 E8 E9 E10] HG. pose proof (get_fork_lt _ _ _ E1) as Hlt.
  split; cbn; try done; cbn.
  - unfold get_fork in *. cbn. by rewrite lookup_app_l.
  - rewrite lookup_insert_ne by lia. done.
  - intros i. destruct (decide (i = fork_id)) as [->|Hne]; [rewrite lookup_insert_eq; intros [= Hn]; lia|].
    rewrite lookup_insert_ne by done. apply E5.
  - intros id i. destruct (decide (id = next_fork_id (inner b))) as [->|Hne]; [rewrite lookup_insert_eq; by intros [= ->]|].
    rewrite lookup_insert_ne by done. apply E6.
  - lia.
Qed.

Lemma away_create_fork f : keeps_away (create_fork f) (λ id, id ≠ home).
Proof.
  unfold create_fork. apply away_assoc. away_step; [apply away_new; intros s r s' Hs Hr; by eapply create_ok|].
  destruct a as [[fork_id shared] e]. cbn in *. intros w r w' Hw. unfold get, modify. run_M. cbn. intros [= <- <-].
  split; [by apply elsewhere_insert|]. intros ? [= <-]. pose proof (el_next _ Hw). lia.
Qed.

Lemma away_fork_type_of url t : keeps_away (fork_type_of url t) any.
Proof.
  unfold fork_type_of. destruct url as [url|]; [|apply away_done]. away_step; [apply away_get|].
  case_match; [apply away_done|]. away_step; [|apply away_done].
  apply away_modify. intros w Hw. by apply (same_elsewhere (self w)).
Qed.
Lemma away_fork_types i : keeps_away (fork_types i) any.
Proof.
  unfold fork_types. away_step; [apply away_get|]. away_step.
  - destruct (el_active _ H0) as (a' & t & Ha & Hid & _). unfold active_fork_id. rewrite Ha. cbn.
    away_step; [by apply away_fork_id_of|]. apply away_fork_type_of.
  - away_step; [apply away_fork_type_of|apply away_done].
Qed.

Lemma away_leave_fork active target : active ≠ n → target ≠ n → keeps_away (leave_fork active target) any.
Proof.
  intros Ha Ht. unfold leave_fork. away_step; [apply away_get|]. away_step; [apply away_the_fork|].
  away_step; [by apply away_put_fork|]. away_step; [apply away_the_fork|].
  case_match; [|apply away_done]. case_match; [|apply away_done].
  destruct (basic _ _) as [r d]. away_step; [by apply away_put_fork|].
  destruct r as [[i|]|e]; [by apply away_put_fork|apply away_fail..].
Qed.
Lemma away_hand_over target : target ≠ n → keeps_away (hand_over target) any.
Proof.
  intros Ht. unfold hand_over. away_step; [apply away_get|].
  destruct (el_active _ H0) as (id & active & Ha & _ & Hn). rewrite Ha.
  away_step; [by apply away_take_fork|]. away_step; [|away_step; [|]].
  - away_step; [apply away_the_fork|]. destruct (foldl sync_one _ _) as [d j].
    away_step; [by apply away_put_fork|apply away_done].
  - away_step; [apply away_the_fork|]. destruct (merge_account_data _ _ _ _ _). apply away_done.
  - destruct a2 as [j f]. away_step; [by apply away_outside|by apply away_put_fork].
Qed.

Lemma elsewhere_active b id idx : elsewhere b → id ≠ home → idx ≠ n → elsewhere (set_active (Some (id, idx)) b).
Proof. intros [E1 E2 E3 E4 E5 E6 E7 E8 E9 E10] Hid Hidx. split; try done. by exists id, idx. Qed.

Lemma away_select_fork id : id ≠ home → keeps_away (select_fork id) any.
Proof.
  intros Hid. unfold select_fork. away_step; [apply away_get|]. destruct (is_active_fork _ _); [apply away_done|].
  destruct (el_active _ H0) as (a' & t & Ha & Haid & Hn). unfold active_fork_id. rewrite Ha. cbn [fmap option_fmap option_map fst].
  away_step.
  { away_step; [by apply away_fork_id_of|]. apply away_update. intros s Hs. by apply update_block_away. }
  away_step; [by apply away_fork_id_of|]. away_step; [apply away_or_fail|].
  assert (a2 ≠ n) as Hidx.
  { intros ->. unfold ensure_fork_index in *. apply H2. by eapply el_place. }
  away_step; [apply away_fork_types|]. away_step; [apply away_env_of|].
  away_step; [by apply away_leave_fork|]. away_step; [by apply away_hand_over|].
  away_step; [apply away_modify; intros w Hw; by apply elsewhere_active|]. by apply away_outside.
Qed.
Lemma away_create_select f : keeps_away (create_select_fork f) any.
Proof.
  unfold create_select_fork. away_step; [apply away_create_fork|]. away_step; [by apply away_select_fork|apply away_done].
Qed.

Lemma elsewhere_roll b id idx fork_id i : elsewhere b → id ≠ home → idx ≠ n → ¬ G fork_id →
  elsewhere (set_inner i b) →
  elsewhere (set_inner (set_ids (<[id := fork_id]> (issued_local_fork_ids i)) (<[fork_id := idx]> (created_forks i)) i) b).
Proof.
  intros _ Hid Hidx HG [E1 E2 E3 E4 E5 E6 E7 E8 E9 E10]. split; cbn in *; try done; cbn.
  - by rewrite lookup_insert_ne.
  - intros j. destruct (decide (j = fork_id)) as [->|Hne]; [rewrite lookup_insert_eq; by intros [= ?]|].
    rewrite lookup_insert_ne by done. apply E5.
  - intros id' j. destruct (decide (id' = id)) as [->|Hne]; [rewrite lookup_insert_eq; by intros [= ->]|].
    rewrite lookup_insert_ne by done. apply E6.
Qed.
Lemma elsewhere_inner_roll c id fork_id s b r idx i : elsewhere b → id ≠ home → ¬ G fork_id →
  inner_roll_fork c id fork_id s (inner b) = Some r → r = Ok (idx, i) → elsewhere (set_inner i b).
Proof.
  intros Hb Hid HG. unfold inner_roll_fork.
  destruct (ensure_fork_index_by_local_id id (inner b)) as [k|] eqn:Hk; [|by intros [= <-]].
  assert (k ≠ n) as Hkn.
  { intros ->. apply bind_Some in Hk as (j & Hj & Hn). apply Hid. eapply el_other; [exact Hb|exact Hj|by eapply el_place]. }
  destruct (inner_forks (inner b) !! k) as [o|]; [|done]. cbn. intros [= <-] [= <- <-].
  destruct o as [f|].
  - apply (elsewhere_roll b); [done..|]. by apply (elsewhere_set_fork b).
  - apply (elsewhere_roll b); [done..|]. by destruct b.
Qed.

(** The request names another fork, or none. *)
Definition others (id : option Z) : Prop := ∀ i, id = Some i → i ≠ home.
Lemma away_ensure_fork (id : option Z) w : elsewhere (self w) → others id →
  keeps_away (lift (ensure_fork id (self w))) (λ i, i ≠ home).
Proof.
  intros Hw Hid. eapply away_weaken; [apply away_lift|]. intros i. unfold ensure_fork, active_fork_id.
  destruct id as [k|]; [case_bool_decide; [intros [= <-]; by apply Hid|done]|].
  destruct (el_active _ Hw) as (a & t & -> & Ha & _). by intros [= <-].
Qed.

Lemma elsewhere_mix b1 b2 : elsewhere b1 → elsewhere b2 → elsewhere (set_inner (inner b1) b2).
Proof. intros [E1 E2 E3 E4 E5 E6 E7 E8 E9 E10] [F1 F2 F3 F4 F5 F6 F7 F8 F9 F10]. by split. Qed.

Lemma away_roll_fork (id : option Z) k : others id → keeps_away (roll_fork id k) any.
Proof.
  intros Hid. unfold roll_fork. away_step; [apply away_get|]. away_step; [by apply away_ensure_fork|].
  away_step; [by apply away_fork_id_of|]. apply away_assoc.
  away_step; [apply away_new; intros s r s' Hs Hr; by eapply roll_ok|]. destruct a2 as [[fork_id shared] e]. cbn in *.
  away_step; [apply away_unwrap|]. away_step; [apply away_lift|]. destruct a3 as [idx i]. subst.
  pose proof (elsewhere_inner_roll _ _ _ _ _ _ idx i H0 H1 H3 H4 eq_refl) as Hi.
  away_step; [apply away_modify; intros w Hw; exact (elsewhere_mix _ _ Hi Hw)|].
  destruct (el_active _ H0) as (a' & t & Ha & _ & Hn). rewrite Ha. destruct (_ =? _); [|apply away_done].
  away_step; [by apply away_outside|]. away_step; [apply away_the_fork|]. away_step; [apply away_get|].
  away_step; [by apply away_put_fork|by apply away_outside].
Qed.

(** *** Replays *)

Lemma away_fail_if (e : option Error) : keeps_away (fail_if e) any.
Proof. destruct e; [apply away_fail|apply away_done]. Qed.
Lemma away_commit t e idx fork_id persistent : idx ≠ n →
  keeps_away (commit_transaction spawned evm_transact t e idx fork_id persistent) any.
Proof.
  intros Hn. unfold commit_transaction, apply_state_changeset. away_step; [apply away_get|]. away_step; [apply away_the_fork|].
  away_step; [apply away_created|]. away_step; [apply away_lift|]. away_step; [apply away_get|].
  away_step; [apply away_the_fork|]. destruct (update_journal _ (active_journal _) _) as [[e1 j1] d1].
  away_step; [by apply away_put_fork|]. away_step; [by apply away_outside|]. away_step; [apply away_fail_if|].
  destruct (update_journal _ (journaled_state _) _) as [[e2 j2] d2]. away_step; [by apply away_put_fork|apply away_fail_if].
Qed.
Lemma away_replay txs h e idx fork_id persistent : idx ≠ n →
  keeps_away (replay spawned evm_transact txs h e idx fork_id persistent) any.
Proof.
  intros Hn. induction txs as [|t txs IH]; cbn [replay]; [apply away_done|]. destruct (is_system_transaction t); [done|].
  destruct (tx_hash t =? h); [apply away_done|]. away_step; [by apply away_commit|done].
Qed.
Lemma away_replay_until id e h : id ≠ home → keeps_away (replay_until spawned evm_transact id e h) any.
Proof.
  intros Hid. unfold replay_until. away_step; [apply away_get|]. away_step; [by apply away_fork_id_of|].
  away_step; [by apply away_fork_index_of|]. away_step; [apply away_the_fork|]. away_step; [apply away_database|].
  by apply away_replay.
Qed.
Lemma away_block id h : id ≠ home → keeps_away (get_block_number_and_block_for_transaction id h) any.
Proof.
  intros Hid. unfold get_block_number_and_block_for_transaction. away_step; [by apply away_fork_index_of|].
  away_step; [apply away_the_fork|]. away_step; [apply away_database|].
  destruct (block_number _); (away_step; [apply away_database|apply away_done]).
Qed.
Lemma away_roll_to (id : option Z) h : others id → keeps_away (roll_fork_to_transaction spawned evm_transact id h) any.
Proof.
  intros Hid. unfold roll_fork_to_transaction. away_step; [apply away_get|]. away_step; [by apply away_ensure_fork|].
  away_step; [by apply away_block|]. destruct a1 as [k bl]. away_step; [apply away_roll_fork; by intros ? [= <-]|].
  away_step; [by apply away_outside|]. away_step; [by apply away_fork_id_of|]. away_step; [apply away_get|].
  away_step; [refine (away_update _ _); intros s Hs; by apply update_env_away|]. away_step; [by apply away_replay_until|apply away_done].
Qed.
Lemma away_locally {A} e j (m : M A) Q : keeps_away m Q → keeps_away (locally e j m) Q.
Proof.
  intros Hm w r w' Hw. unfold locally. destruct (m _) as [[r1 w1]|] eqn:Hr; [|done]. intros [= <- <-].
  exact (Hm (mkWorld (self w) e j) r1 w1 Hw Hr).
Qed.
Lemma away_create_at f h : keeps_away (create_fork_at_transaction spawned evm_transact f h) (λ id, id ≠ home).
Proof.
  unfold create_fork_at_transaction. away_step; [apply away_create_fork|]. away_step; [by apply away_fork_id_of|].
  away_step; [apply away_env_of|]. away_step; [apply away_get|].
  away_step; [apply away_locally, away_roll_to; by intros ? [= <-]|]. eapply away_weaken; [apply away_ret|]. by intros ? ->.
Qed.
Lemma away_create_select_at f h : keeps_away (create_select_fork_at_transaction spawned evm_transact f h) any.
Proof.
  unfold create_select_fork_at_transaction. away_step; [apply away_create_at|].
  away_step; [by apply away_select_fork|apply away_done].
Qed.
Lemma away_transact (id : option Z) h e : others id → keeps_away (transact spawned evm_transact id h e) any.
Proof.
  intros Hid. unfold transact. away_step; [apply away_get|]. away_step; [by apply away_ensure_fork|].
  away_step; [by apply away_fork_id_of|]. away_step; [by apply away_fork_index_of|]. away_step; [apply away_the_fork|].
  away_step; [apply away_database|]. away_step; [by apply away_block|]. destruct a5 as [k bl]. by apply away_commit.
Qed.

(** *** Snapshots and settings *)

Lemma elsewhere_snapshots b (s : StateSnapshots BackendStateSnapshot) : elsewhere b →
  (∀ m x, StateDb.state_snapshots s !! m = Some x → ¬ H m → snapshot_of_others x) →
  elsewhere (on_inner (set_state_snapshots s) b).
Proof. intros [E1 E2 E3 E4 E5 E6 E7 E8 E9 E10] Hs. by split. Qed.
Lemma elsewhere_remove b m : elsewhere b →
  ∀ k x, StateDb.state_snapshots (remove_at m (Backend.state_snapshots (inner b))).2 !! k = Some x → ¬ H k → snapshot_of_others x.
Proof. intros Hb k x Hx. cbn in Hx. apply lookup_delete_Some in Hx as [_ Hx]. by eapply el_snapshots. Qed.

Lemma away_snapshot : keeps_away snapshot_state any.
Proof.
  unfold snapshot_state. away_step; [apply away_get|]. away_step; [apply away_unwrap|]. cbn [StateDb.insert].
  away_step; [|apply away_done]. apply away_modify. intros w Hw. apply elsewhere_snapshots; [done|]. cbn.
  intros m x. destruct (decide (m = StateDb.id (Backend.state_snapshots (inner (self a))))) as [->|Hne].
  - rewrite lookup_insert_eq. intros [= <-] _. unfold snapshot_of_others. cbn. unfold create_db_snapshot in *.
    destruct (el_active _ H0) as (id & idx & Ha & Hid & Hn). rewrite Ha in *.
    destruct (get_fork idx _); [|done]. cbn in *. destruct (ensure_fork_id id _) as [i|] eqn:Hi; [|done]. cbn in *. simplify_eq.
    split_and!; [done| |done]. intros HG. apply Hid. eapply el_other; [exact H0|exact Hi|exact HG].
  - rewrite lookup_insert_ne by done. by eapply el_snapshots.
Qed.
Lemma elsewhere_restore b id (fork_id : ForkId) idx f : elsewhere b → id ≠ home → ¬ G fork_id → idx ≠ n →
  elsewhere (set_active (Some (id, idx)) (on_inner (revert_state_snapshot id fork_id idx f) b)).
Proof.
  intros Hb Hid HG Hn. apply elsewhere_active; [|done..]. unfold revert_state_snapshot.
  pose proof (elsewhere_roll b id idx fork_id (inner b) Hb Hid Hn HG) as Hr.
  assert (elsewhere (set_inner (inner b) b)) as Hb' by (by destruct b). specialize (Hr Hb').
  exact (elsewhere_set_fork _ idx (Some f) Hr Hn).
Qed.
Lemma away_revert m action : ¬ H m → keeps_away (revert_state m action) any.
Proof.
  intros Hm. unfold revert_state. away_step; [apply away_get|].
  destruct (remove_at m _) as [o snaps] eqn:Hrem. pose proof (elsewhere_remove _ m H0) as Hrest. rewrite Hrem in Hrest. cbn in Hrest.
  destruct o as [s|]; [|away_step; [apply away_modify; intros w Hw; by apply elsewhere_snapshots|apply away_done]].
  assert (snapshot_of_others s) as Hs.
  { unfold remove_at in Hrem. injection Hrem as Hrem _. eapply (el_snapshots _ H0 m); [|done].
    unfold StateDb.get in Hrem. exact Hrem. }
  away_step.
  { apply away_modify. intros w Hw. apply elsewhere_snapshots; [done|]. intros k x. destruct (is_keep action); [|apply Hrest].
    cbn. destruct (decide (k = m)) as [->|Hne]; [rewrite lookup_insert_eq; by intros [= <-]|].
    rewrite lookup_insert_ne by done. apply Hrest. }
  away_step.
  { case_match; [|apply away_done]. apply away_modify. intros w Hw. by apply (same_elsewhere (self w)). }
  away_step; [apply away_get|]. away_step; [apply away_unwrap|]. destruct a3 as [j b].
  assert (elsewhere b) as Hb.
  { unfold restore_db in *. unfold snapshot_of_others in Hs.
    destruct (snap_db s) as [d|id fork_id idx f]; simplify_eq; [by apply (same_elsewhere (self a2))|].
    case_decide; [|done]. simplify_eq. destruct Hs as (? & ? & ?). by apply elsewhere_restore. }
  away_step; [by apply away_modify|]. away_step; [by apply away_outside|apply away_done].
Qed.

Lemma away_setting g :
  (∀ b, same_tables (inner b) (inner (g b)) ∧ active_fork_ids (g b) = active_fork_ids b ∧ service (g b) = service b) →
  keeps_away (setting g) any.
Proof. intros Hg. apply away_modify. intros w Hw. destruct (Hg (self w)) as (? & ? & ?). by apply (same_elsewhere (self w)). Qed.
Lemma away_partial g : (∀ b b', elsewhere b → g b = Some b' → elsewhere b') → keeps_away (partial g) any.
Proof.
  intros Hg w r w' Hw. unfold partial. destruct (g (self w)) as [b|] eqn:Hb; [|done]. intros [= <- <-]. split; [|done].
  by apply (Hg (self w)).
Qed.
Lemma elsewhere_on_db d m b b' : elsewhere b → on_db d m b = Some b' → elsewhere b'.
Proof.
  intros Hb. unfold on_db. destruct (el_active _ Hb) as (id & idx & -> & _ & Hn).
  destruct (get_fork idx _); [|done]. cbn. intros [= <-]. by apply elsewhere_set_fork.
Qed.
Lemma elsewhere_initialize e b b' : elsewhere b → initialize e b = Some b' → elsewhere b'.
Proof.
  intros Hb. unfold initialize. intros (r & _ & [= <-])%bind_Some. by apply (same_elsewhere b).
Qed.

(** ** Requests *)

Definition names_others (r : TestRequest) : Prop :=
  match r with
  | SelectFork k => k ≠ home
  | RollFork id _ | RollForkTo id _ | Transact id _ _ => others id
  | Revert m _ => ¬ H m
  | _ => True
  end.
Lemma away_serve r : names_others r → keeps_away (serve spawned evm_transact r) any.
Proof.
  destruct r; cbn [names_others serve]; intros Hr.
  all: try (apply away_setting; done).
  all: try (away_step; [first [apply away_create_fork|apply away_create_at|apply away_create_select|apply away_create_select_at|apply away_snapshot]|apply away_done]; fail).
  - apply away_partial. intros. by eapply elsewhere_initialize.
  - apply away_partial. intros. by eapply elsewhere_on_db.
  - apply away_partial. intros. by eapply elsewhere_on_db.
  - away_step; [apply away_partial; intros; by eapply elsewhere_on_db|by apply away_outside].
  - by apply away_select_fork.
  - by apply away_roll_fork.
  - by apply away_roll_to.
  - by apply away_transact.
  - away_step; [by apply away_revert|]. destruct a; [by apply away_outside|apply away_done].
  - apply away_modify. intros w Hw. apply elsewhere_snapshots; [done|]. by apply elsewhere_remove.
  - apply away_modify. intros w Hw. apply elsewhere_snapshots; [done|]. intros m x. cbn. by rewrite lookup_empty.
  - away_step; [apply away_get|]. away_step; [apply away_unwrap|apply away_done].
Qed.
Lemma away_serve_all rs answers w w' : elsewhere (self w) → Forall names_others rs →
  serve_all spawned evm_transact rs w = Some (answers, w') → elsewhere (self w').
Proof.
  revert answers w. induction rs as [|r rs IH]; intros answers w Hw; [by intros _ [= _ <-]|].
  intros [Hr Hrs]%Forall_cons. cbn. intros ([a w1] & Hs & ([l w2] & Hall & [= <- <-])%bind_Some)%bind_Some.
  eapply IH; [|done|exact Hall]. by destruct (away_serve r Hr w a w1 Hw Hs).
Qed.
End away.

(** ** The round trip *)

Definition snapshot_of (home : Z) (s : BackendStateSnapshot) : Prop :=
  match snap_db s with Forked id _ _ _ => id = home | InMemory _ => False end.
(** A request that may be made, away from [home] since the world [w]: it does not
    select, roll or replay on [home], and reverts to no snapshot that was taken of
    it before. *)
Definition leaves (home : Z) w (r : TestRequest) : Prop :=
  match r with
  | SelectFork k => k ≠ home
  | RollFork id _ | RollForkTo id _ | Transact id _ _ => id ≠ Some home
  | Revert m _ => ∀ s, snapshot_at m w = Some s → ¬ snapshot_of home s
  | _ => True
  end.

(** A place that is not the active one. *)
Lemma elsewhere_start b n home (hid : ForkId) f a t :
  wf b → numbered b.(inner) home n → issued_local_fork_ids (inner b) !! home = Some hid →
  get_fork n (inner b) = Some f → active_fork_ids b = Some (a, t) → a ≠ home →
  ∃ e, elsewhere n home hid f e (λ i, created_forks (inner b) !! i = Some n)
         (λ m, ∃ s, StateDb.state_snapshots (Backend.state_snapshots (inner b)) !! m = Some s ∧ snapshot_of home s) b ∧
       created_forks (inner b) !! hid = Some n.
Proof.
  intros Hwf [Hhome Hlt] Hid Hf Hact Hne. destruct (wf_issued _ Hwf _ _ Hid) as (k & Hk & Hkn & _).
  assert (k = n) as -> by lia. destruct (wf_created _ Hwf _ _ Hk) as [_ [e He]]. exists e. split; [|done].
  split; try done.
  - intros i Hi. by apply (wf_created _ Hwf i n).
  - intros id i Hi HG. destruct (wf_issued _ Hwf _ _ Hi) as (k & Hk' & Hkk & _). assert (k = n) by congruence. lia.
  - rewrite (wf_next _ Hwf). lia.
  - exists a, t. destruct (wf_active _ Hwf _ _ Hact) as [Hat _]. split; [done|]. split; [done|]. intros ->. lia.
  - intros m s Hs Hm. pose proof (wf_snapshots _ Hwf _ _ Hs) as Hsnap. unfold snapshot_of_others.
    destruct (snap_db s) as [d|id i idx fk] eqn:Hdb; [done|]. destruct Hsnap as [[Hsid _] Hsc].
    assert (id ≠ home) as Hidh.
    { intros ->. apply Hm. exists s. split; [done|]. unfold snapshot_of. by rewrite Hdb. }
    split; [done|]. assert (idx ≠ n) as Hidx by (intros ->; lia). split; [|done]. intros HG. congruence.
  - apply (wf_service _ Hwf).
Qed.

Context {StL : BackendStrategyLaws}.

(** C25: What happens on other forks stays there.  A test leaves the fork [home] for
    another, makes any requests that do not name [home] and that revert to no
    snapshot of it: runs of the EVM, forks created, selected, rolled and replayed
    on, snapshots, settings, whether they succeed or fail.  When it then comes
    back, every account that is neither persistent nor the caller is what it was,
    and so are the number and the time of the block, which [roll] and [warp] may
    have changed. *)
Theorem forks_are_isolated w id w1 rs answers w2 home w3 a :
  wf (self w) → active_fork_id (self w) = Some home → home ≠ id →
  select_fork id w = Some (Ok tt, w1) →
  Forall (leaves home w1) rs → serve_all spawned evm_transact rs w1 = Some (answers, w2) →
  select_fork home w2 = Some (Ok tt, w3) →
  a ∉ persistent_accounts (inner (self w2)) → a ≠ the_caller w2 → a ∉ system →
  state (active_journal w3) !! a = state (active_journal w) !! a ∧
  number (block (cur_env w3)) = number (block (cur_env w)) ∧
  timestamp (block (cur_env w3)) = timestamp (block (cur_env w)).
Proof.
  intros Hwf Hhome Hne Hsel1 Hrs Hserve Hsel2 Ha Hc Hs.
  assert (Hact : ∃ n, active_fork_ids (self w) = Some (home, n)).
  { unfold active_fork_id in Hhome. destruct (active_fork_ids (self w)) as [[? n]|]; [|done]. cbn in Hhome. simplify_eq. by exists n. }
  destruct Hact as [n Hact].
  assert (Hnot : is_active_fork id (self w) = false).
  { unfold is_active_fork. rewrite Hact. by apply Z.eqb_neq. }
  pose proof (select_selected w id w1 Hwf Hsel1 Hnot) as S1. pose proof (selected_wf w id w1 Hwf S1) as Hwf1.
  destruct S1 as [(t & fid & e & [Ht Hlt] & Hid & He & Hact1 & Henv1 & Hforks1) [l1 Hin1] Hsv1 _].
  rewrite Hact in Hforks1. destruct Hforks1 as (fa & f & g & Hnt & Hfa & Hg & _ & Hl & _).
  destruct (wf_active _ Hwf home n Hact) as [Hhn Hln].
  set (f1 := mkFork (foldl sync_one (fork_db fa, journaled_state f) (persistent_list w)).1 (active_journal w)) in *.
  assert (Hhome1 : get_fork n (inner (self w1)) = Some f1).
  { unfold get_fork. rewrite Hl. rewrite list_lookup_insert_ne by done. by rewrite list_lookup_insert_eq by done. }
  destruct (wf_all _ Hwf n Hln) as [hid Hhid]. rewrite <-Hhn in Hhid.
  assert (issued_local_fork_ids (inner (self w1)) !! home = Some hid) as Hhid1 by (by rewrite Hin1).
  destruct (elsewhere_start (self w1) n home hid f1 id t) as (e1 & Hels & HG); try done.
  { split; [done|]. by apply get_fork_lt in Hhome1. }
  assert (elsewhere n home hid f1 e1 (λ i, created_forks (inner (self w1)) !! i = Some n)
    (λ m, ∃ s, snapshot_at m w1 = Some s ∧ snapshot_of home s) (self w2)) as Hels2.
  { eapply away_serve_all; [exact HG|exact Hels| |exact Hserve]. eapply Forall_impl; [exact Hrs|].
    intros r Hr. destruct r; cbn in *; try done; [by intros i ->; congruence..|]. intros (s & Hat & Hof). by eapply Hr. }
  destruct (serve_all_ok spawned evm_transact rs w1 Hwf1) as (l & w2' & Hserve' & Hwf2 & _).
  rewrite Hserve in Hserve'. injection Hserve' as <- <-.
  destruct (el_active _ _ _ _ _ _ _ _ Hels2) as (a2 & t2 & Hact2 & Ha2 & Ht2).
  assert (Hnot2 : is_active_fork home (self w2) = false).
  { unfold is_active_fork. rewrite Hact2. by apply Z.eqb_neq. }
  destruct (select_selected w2 home w3 Hwf2 Hsel2 Hnot2) as
    [(n' & hid' & e3 & [Hn' _] & Hhid' & He3 & Hact3 & Henv3 & Hforks3) _ _ _].
  rewrite (el_id _ _ _ _ _ _ _ _ Hels2) in Hhid'. injection Hhid' as <-.
  rewrite Hact2 in Hforks3. destruct Hforks3 as (ft & f3 & g3 & _ & _ & Hg3 & Hf3 & _ & Hj3).
  assert (n' = n) as -> by lia. rewrite (el_fork _ _ _ _ _ _ _ _ Hels2) in Hg3. injection Hg3 as <-.
  split.
  - rewrite Hj3, handed_other by done. rewrite sync_other by (unfold persistent_list; by rewrite elem_of_hash_iter).
    by rewrite Hf3.
  - (* the environment that the service keeps *)
    assert (service_env hid (service (self w2)) = Some e3) as He2.
    { rewrite <-He3. unfold block_stored, active_fork_id. rewrite Hact2. cbn.
      destruct (wf_active _ Hwf2 _ _ Hact2) as [Ha2n Hlt2]. destruct (wf_all _ Hwf2 _ Hlt2) as [i Hi]. rewrite <-Ha2n in Hi.
      rewrite Hi. cbn. rewrite (proj2 (update_block_ok i _ _ (service (self w2)) (wf_service _ Hwf2))).
      rewrite decide_False; [done|]. intros <-. apply Ha2. by eapply (el_other _ _ _ _ _ _ _ _ Hels2). }
    rewrite (el_env _ _ _ _ _ _ _ _ Hels2) in He2. injection He2 as ->.
    pose proof (el_env _ _ _ _ _ _ _ _ Hels) as He1. rewrite Hsv1 in He1. unfold block_stored, active_fork_id in He1.
    rewrite Hact in He1. cbn in He1. rewrite Hhid in He1. cbn in He1.
    rewrite (proj2 (update_block_ok hid _ _ (service (self w)) (wf_service _ Hwf))), decide_True in He1 by done.
    apply fmap_Some in He1 as (e0 & _ & ->). rewrite Henv3. done.
Qed.
End isolation.

(** ** An example *)
Module IsolationExample.
Import BackendRequests.BackendExample.

(** On the second fork: the EVM writes, the fork is rolled, a third fork is made
    and selected, a transaction replayed on it, a snapshot reverted. *)
Definition elsewhere_requests : list TestRequest :=
  [write 7 w1; RollFork None 14; NewSelectedFork (fork_of (Some 20)); Snapshot; Transact None 1301 (env_of_block 1);
   RollForkTo (Some 1) 1200; Revert 0 RevertRemove; SelectFork 1; SelectFork 9; write 8 w1].
Definition w2' : World := after elsewhere_requests w1.
Definition w3' : World := after [SelectFork 0] w2'.
Example isolation_seen :
  answers elsewhere_requests w1 = [Ok tt; Ok tt; Ok tt; Ok tt; Ok tt; Ok tt; Ok tt; Ok tt; Err NoForkFound; Ok tt] ∧
  map seen [w0; w1; w2'; w3'] =
    [(Some 0, Some 11, Some 66, 10); (Some 1, Some 11, Some 66, 12); (Some 1, Some 8, Some 8, 8); (Some 0, Some 8, Some 66, 10)].
Proof. vm_compute. split; reflexivity. Qed.
Lemma w2'_wf : wf (self w2').
Proof. apply after_run, w1_wf. Qed.

Lemma forks_are_isolated_witness :
  journal_slot 96 1 w2' = Some 8 ∧ number (block (cur_env w2')) = 8 ∧
  state (active_journal w3') !! 96 = state (active_journal w0) !! 96 ∧
  number (block (cur_env w3')) = number (block (cur_env w0)) ∧
  timestamp (block (cur_env w3')) = timestamp (block (cur_env w0)).
Proof.
  split; [vm_compute; reflexivity|]. split; [vm_compute; reflexivity|].
  apply (forks_are_isolated service0 evm_transact w0 1 w1 elsewhere_requests (answers elsewhere_requests w1) w2' 0 w3' 96).
  - exact w0_wf.
  - vm_compute. reflexivity.
  - done.
  - apply (after_one (SelectFork 1) w0 w0_wf). vm_compute. reflexivity.
  - assert (snapshot_at 0 w1 = None) as Hnone.
    { assert (in_force 0 w1 = false) as Hf by (vm_compute; reflexivity). unfold in_force in Hf. by destruct (snapshot_at 0 w1). }
    unfold elsewhere_requests. repeat (apply Forall_cons_2; [first [exact I | cbn [leaves]; congruence]|]). apply Forall_nil_2.
  - apply after_run. exact w1_wf.
  - apply (after_one (SelectFork 0) w2' w2'_wf). vm_compute. reflexivity.
  - intros H. apply (bool_decide_eq_true_2 _) in H. vm_compute in H. discriminate.
  - intros H. vm_compute in H. discriminate.
  - apply not_elem_of_empty.
Defined.
End IsolationExample.
