(* ===== verification/BlockStates.v ===== *)
(** * The states of past blocks

    [anvil/src/eth/backend/mem/storage.rs] ([InMemoryBlockStates]) and
    [cache.rs] ([DiskStateCache]): the node keeps the state of every recent
    block in memory, moves the oldest ones to files and forgets the oldest of
    those.  The database of a state is any instance of [MaybeFullDatabase];
    the file system is a parameter. *)
From S2P Require Import Prelude StateDb.
Local Open Scope Z_scope.

Definition DEFAULT_HISTORY_LIMIT : Z := 500.
Definition MIN_HISTORY_LIMIT : Z := 10.
Definition MAX_ON_DISK_HISTORY_LIMIT : Z := 3600.

(** ** The cache of files

    The file of a state is found by the directory and the hash. *)
Class FileSystem (FS Path : Type) := {
  create_dir_all : Path → FS → bool * FS;
  tempdir_in : option Path → FS → option Path * FS;
  write_json_file : Path → B256 → StateSnapshot → FS → bool * FS;
  read_json_file : Path → B256 → FS → option StateSnapshot;
  remove_file : Path → B256 → FS → FS;
}.

(** A file that was written reads back, until that file is touched again. *)
Class LawfulFileSystem (FS Path : Type) `{FileSystem FS Path} := {
  read_write : ∀ p h s fs fs', write_json_file p h s fs = (true, fs') → read_json_file p h fs' = Some s;
  read_write_ne : ∀ p h h' s fs, h' ≠ h →
    read_json_file p h' (write_json_file p h s fs).2 = read_json_file p h' fs;
  read_remove_ne : ∀ p h h' fs, h' ≠ h → read_json_file p h' (remove_file p h fs) = read_json_file p h' fs;
}.

Section disk.
Context {FS Path : Type} `{FileSystem FS Path}.

Record DiskStateCache := { temp_path : option Path; temp_dir : option Path; files : FS }.
Definition with_files (fs : FS) (c : DiskStateCache) : DiskStateCache :=
  {| temp_path := temp_path c; temp_dir := temp_dir c; files := fs |}.

Definition with_path (p : Path) (c : DiskStateCache) : DiskStateCache :=
  {| temp_path := Some p; temp_dir := None; files := files c |}.

Definition open_dir (c : DiskStateCache) : DiskStateCache :=
  match temp_dir c with
  | Some _ => c
  | None =>
      let '(dir, fs) :=
        match temp_path c with
        | Some p =>
            let '(created, fs) := create_dir_all p (files c) in
            if created then tempdir_in (Some p) fs else (None, fs)
        | None => tempdir_in None (files c)
        end in
      {| temp_path := temp_path c; temp_dir := dir; files := fs |}
  end.
Definition with_cache_file {R} (f : Path → FS → R * FS) (c : DiskStateCache) :
    option R * DiskStateCache :=
  let c := open_dir c in
  match temp_dir c with
  | Some dir => let '(r, fs) := f dir (files c) in (Some r, with_files fs c)
  | None => (None, c)
  end.

Definition write (h : B256) (s : StateSnapshot) (c : DiskStateCache) : bool * DiskStateCache :=
  let '(r, c) := with_cache_file (λ dir fs, write_json_file dir h s fs) c in (default false r, c).
Definition read (h : B256) (c : DiskStateCache) : option StateSnapshot * DiskStateCache :=
  let '(r, c) := with_cache_file (λ dir fs, (read_json_file dir h fs, fs)) c in (mjoin r, c).
Definition remove_cached (h : B256) (c : DiskStateCache) : DiskStateCache :=
  (with_cache_file (λ dir fs, (tt, remove_file dir h fs)) c).2.
End disk.
Arguments DiskStateCache FS Path : clear implicits.

(** ** The states *)
Section states.
Context {FS Path DB : Type} `{FileSystem FS Path} `{MaybeFullDatabase DB}.

Record InMemoryBlockStates := {
  states : gmap B256 DB;
  on_disk_states : gmap B256 DB;
  in_memory_limit : Z;
  min_in_memory_limit : Z;
  max_on_disk_limit : Z;
  oldest_on_disk : list B256;
  present : list B256;
  disk_cache : DiskStateCache FS Path;
}.

Definition new (in_memory_limit on_disk_limit : Z) (cache : DiskStateCache FS Path) :
    InMemoryBlockStates :=
  {| states := ∅; on_disk_states := ∅; in_memory_limit := in_memory_limit;
     min_in_memory_limit := Z.min in_memory_limit MIN_HISTORY_LIMIT;
     max_on_disk_limit := on_disk_limit; oldest_on_disk := []; present := [];
     disk_cache := cache |}.

(** Assignments to fields. *)
Definition set_memory (m : gmap B256 DB) (l : list B256) (b : InMemoryBlockStates) : InMemoryBlockStates :=
  {| states := m; on_disk_states := on_disk_states b; in_memory_limit := in_memory_limit b;
     min_in_memory_limit := min_in_memory_limit b; max_on_disk_limit := max_on_disk_limit b;
     oldest_on_disk := oldest_on_disk b; present := l; disk_cache := disk_cache b |}.
Definition set_disk (m : gmap B256 DB) (l : list B256) (c : DiskStateCache FS Path)
    (b : InMemoryBlockStates) : InMemoryBlockStates :=
  {| states := states b; on_disk_states := m; in_memory_limit := in_memory_limit b;
     min_in_memory_limit := min_in_memory_limit b; max_on_disk_limit := max_on_disk_limit b;
     oldest_on_disk := l; present := present b; disk_cache := c |}.
Definition set_limits (mem disk : Z) (b : InMemoryBlockStates) : InMemoryBlockStates :=
  {| states := states b; on_disk_states := on_disk_states b; in_memory_limit := mem;
     min_in_memory_limit := min_in_memory_limit b; max_on_disk_limit := disk;
     oldest_on_disk := oldest_on_disk b; present := present b; disk_cache := disk_cache b |}.

Definition memory_only (b : InMemoryBlockStates) : InMemoryBlockStates :=
  set_limits (in_memory_limit b) 0 b.
Definition disk_path (p : Path) (b : InMemoryBlockStates) : InMemoryBlockStates :=
  set_disk (on_disk_states b) (oldest_on_disk b) (with_path p (disk_cache b)) b.
Definition is_memory_only (b : InMemoryBlockStates) : bool := max_on_disk_limit b =? 0.
Definition set_cache_limit (limit : Z) (b : InMemoryBlockStates) : InMemoryBlockStates :=
  set_limits limit (max_on_disk_limit b) b.

Definition len {A} (l : list A) : Z := Z.of_nat (length l).

(** One turn of the first loop of [enforce_limits]; [true] when the loop goes
    on. *)
Definition evict (b : InMemoryBlockStates) : InMemoryBlockStates * bool :=
  match present b with
  | [] => (b, true)
  | h :: rest =>
      match states b !! h with
      | None => (set_memory (states b) rest b, true)
      | Some state =>
          let b := set_memory (delete h (states b)) rest b in
          if is_memory_only b then (b, true) else
          let '(state_snapshot, state) := clear_into_state_snapshot state in
          let '(written, cache) := write h state_snapshot (disk_cache b) in
          if written then
            (set_disk (<[h := state]> (on_disk_states b)) (oldest_on_disk b ++ [h]) cache b, true)
          else
            let state := init_from_state_snapshot state_snapshot state in
            let b := set_disk (on_disk_states b) (oldest_on_disk b) cache b in
            let b := set_memory (<[h := state]> (states b)) (h :: present b) b in
            (set_limits (u_saturating_add 64 (in_memory_limit b) 1) (max_on_disk_limit b) b, false)
      end
  end.

(** [None]: the loop has not ended after [fuel] turns. *)
Fixpoint memory_loop (fuel : nat) (b : InMemoryBlockStates) : option InMemoryBlockStates :=
  if in_memory_limit b <=? len (present b) then
    match fuel with
    | O => None
    | S fuel => let '(b, continue) := evict b in if continue then memory_loop fuel b else Some b
    end
  else Some b.

Fixpoint disk_loop (fuel : nat) (b : InMemoryBlockStates) : option InMemoryBlockStates :=
  if negb (is_memory_only b) && (max_on_disk_limit b <=? len (oldest_on_disk b)) then
    match fuel with
    | O => None
    | S fuel =>
        disk_loop fuel
          match oldest_on_disk b with
          | [] => b
          | h :: rest =>
              set_disk (delete h (on_disk_states b)) rest (remove_cached h (disk_cache b)) b
          end
    end
  else Some b.

Definition enforce_limits (b : InMemoryBlockStates) : option InMemoryBlockStates :=
  b ← memory_loop (S (length (present b))) b; disk_loop (S (length (oldest_on_disk b))) b.

Definition insert (h : B256) (state : DB) (b : InMemoryBlockStates) : option InMemoryBlockStates :=
  let b := if negb (is_memory_only b) && (in_memory_limit b <=? len (present b))
           then set_limits (Z.max (u_saturating_sub (in_memory_limit b) 1) (min_in_memory_limit b))
                  (max_on_disk_limit b) b
           else b in
  b ← enforce_limits b;
  mret (set_memory (<[h := state]> (states b)) (present b ++ [h]) b).

(** [block_time] in whole seconds. *)
Definition update_interval_mine_block_time (block_time : Z) (b : InMemoryBlockStates) :
    option InMemoryBlockStates :=
  if block_time <=? 2
  then enforce_limits (set_limits (DEFAULT_HISTORY_LIMIT * 3) (max_on_disk_limit b) b)
  else Some b.

Definition get_state (h : B256) (b : InMemoryBlockStates) : option DB := states b !! h.

Definition get_on_disk_state (h : B256) (b : InMemoryBlockStates) : option DB * InMemoryBlockStates :=
  match on_disk_states b !! h with
  | Some state =>
      let '(cached, cache) := read h (disk_cache b) in
      let b := set_disk (on_disk_states b) (oldest_on_disk b) cache b in
      match cached with
      | Some cached =>
          let state := init_from_state_snapshot cached state in
          (Some state, set_disk (<[h := state]> (on_disk_states b)) (oldest_on_disk b) cache b)
      | None => (None, b)
      end
  | None => (None, b)
  end.

(** [oldest_on_disk] is taken out before its files are removed. *)
Definition clear (b : InMemoryBlockStates) : InMemoryBlockStates :=
  set_disk ∅ [] (foldl (λ c h, remove_cached h c) (disk_cache b) (oldest_on_disk b)) (set_memory ∅ [] b).

Section hash_order.
Context `{HashIter}.
Definition push_on_disk (acc : list (B256 * StateSnapshot) * DiskStateCache FS Path) (h : B256) :
    list (B256 * StateSnapshot) * DiskStateCache FS Path :=
  let '(l, c) := acc in
  let '(r, c) := read h c in
  (match r with Some s => l ++ [(h, s)] | None => l end, c).
Definition serialized_states (b : InMemoryBlockStates) :
    list (B256 * StateSnapshot) * InMemoryBlockStates :=
  let in_memory := omap (λ h, (λ d, (h, read_as_state_snapshot d)) <$> states b !! h)
                     (hash_iter (dom (states b))) in
  let '(l, c) := foldl push_on_disk (in_memory, disk_cache b) (hash_iter (dom (on_disk_states b))) in
  (l, set_disk (on_disk_states b) (oldest_on_disk b) c b).
End hash_order.

(** [StateDb::new(MemDb::default())] is [fresh]. *)
Definition load_states (fresh : DB) (l : list (B256 * StateSnapshot)) (b : InMemoryBlockStates) :
    option InMemoryBlockStates :=
  fold_opt (λ b '(h, s), insert h (init_from_state_snapshot s fresh) b) b l.
End states.
Arguments InMemoryBlockStates FS Path DB : clear implicits.

Definition states_default {FS Path DB} (cache : DiskStateCache FS Path) : InMemoryBlockStates FS Path DB :=
  new DEFAULT_HISTORY_LIMIT MAX_ON_DISK_HISTORY_LIMIT cache.

(** ** The configuration: [PruneStateHistoryConfig] of [anvil/src/config.rs] *)
Record PruneStateHistoryConfig := { enabled : bool; max_memory_history : option Z }.
Definition is_state_history_supported (c : PruneStateHistoryConfig) : bool :=
  negb (enabled c) || bool_decide (is_Some (max_memory_history c)).
Definition is_config_enabled (c : PruneStateHistoryConfig) : bool := enabled c.
Definition from_args (val : option (option Z)) : PruneStateHistoryConfig :=
  match val with
  | Some max_memory_history => {| enabled := true; max_memory_history := max_memory_history |}
  | None => {| enabled := false; max_memory_history := None |}
  end.

(** The states of a new node ([Backend::with_genesis]); [default] is the cache
    of [DiskStateCache::default]. *)
Definition configured_states {FS Path DB} (prune : PruneStateHistoryConfig)
    (max_persisted_states : option Z) (cache_path : option Path) (default : DiskStateCache FS Path) :
    InMemoryBlockStates FS Path DB :=
  let states :=
    if is_config_enabled prune then
      memory_only match max_memory_history prune with
                  | Some limit => new limit 0 default
                  | None => states_default default
                  end
    else match max_persisted_states with
         | Some limit => new DEFAULT_HISTORY_LIMIT limit default
         | None => states_default default
         end in
  match cache_path with Some p => disk_path p states | None => states end.
