(* ===== verification/BlockStatesSpec.v ===== *)
(** * Which states of past blocks a node can still show

    The theorems about [BlockStates]: the loops end exactly when a state may be
    kept, a state is lost only to the limit of the disk, whatever writes fail,
    and without failures the number of states in memory and on disk has a
    closed form. *)
From S2P Require Import Prelude StateDb BlockStates.
Local Open Scope Z_scope.

Lemma len_app {A} (l k : list A) : len (l ++ k) = len l + len k.
Proof. unfold len. rewrite length_app. lia. Qed.
Lemma len_nonneg {A} (l : list A) : 0 <= len l.
Proof. unfold len. lia. Qed.
Lemma len_cons {A} (x : A) l : len (x :: l) = 1 + len l.
Proof. unfold len. simpl. lia. Qed.

(** ** The cache of files *)
Section disk.
Context {FS Path : Type} `{LawfulFileSystem FS Path}.
Implicit Types (c : DiskStateCache FS Path).

Definition stored c (h : B256) (s : StateSnapshot) : Prop :=
  ∃ dir, temp_dir c = Some dir ∧ read_json_file dir h (files c) = Some s.

Lemma open_dir_open c dir : temp_dir c = Some dir → open_dir c = c.
Proof. unfold open_dir. by intros ->. Qed.

Lemma write_stored c c' h s : write h s c = (true, c') → stored c' h s.
Proof.
  unfold write, with_cache_file. destruct (temp_dir (open_dir c)) as [dir|] eqn:Hdir; simpl; [|done].
  destruct (write_json_file dir h s (files (open_dir c))) as [ok fs] eqn:Hw.
  intros [= -> <-]. exists dir. split; [done|]. by eapply read_write.
Qed.

Lemma write_keeps c h h' s s' : h' ≠ h → stored c h' s' → stored (write h s c).2 h' s'.
Proof.
  intros Hne (dir & Hdir & Hr). unfold write, with_cache_file.
  rewrite (open_dir_open _ _ Hdir), Hdir.
  pose proof (read_write_ne dir h h' s (files c) Hne) as Hk.
  destruct (write_json_file dir h s (files c)) as [ok fs]. exists dir. simpl in *. by rewrite Hk.
Qed.

Lemma remove_keeps c h h' s : h' ≠ h → stored c h' s → stored (remove_cached h c) h' s.
Proof.
  intros Hne (dir & Hdir & Hr). unfold remove_cached, with_cache_file.
  rewrite (open_dir_open _ _ Hdir), Hdir. exists dir. simpl. split; [done|]. by rewrite read_remove_ne.
Qed.

Lemma read_stored c h s : stored c h s → read h c = (Some s, c).
Proof.
  intros (dir & Hdir & Hr). unfold read, with_cache_file.
  rewrite (open_dir_open _ _ Hdir), Hdir. simpl. rewrite Hr. by destruct c.
Qed.
End disk.

(** ** The invariant *)
Section history.
Context {FS Path DB : Type} `{LawfulFileSystem FS Path} `{LawfulDatabase DB}.
Abbreviation States := (InMemoryBlockStates FS Path DB).
Implicit Types (b : States) (hist : list (B256 * DB)).

(** The state [d] of the block [h] is on disk. *)
Definition on_disk b (h : B256) (d : DB) : Prop :=
  ∃ d0 s d1 k, d0 ≡ d ∧ snapshot_ok d0 ∧ clear_into_state_snapshot d0 = (s, d1) ∧
    on_disk_states b !! h = Some (Nat.iter k (init_from_state_snapshot s) d1) ∧
    stored (disk_cache b) h s.
Definition in_memory b (h : B256) (d : DB) : Prop :=
  ∃ d0, states b !! h = Some d0 ∧ d0 ≡ d ∧ snapshot_ok d0.

(** [hist] are the states that were inserted, oldest first. *)
Record history hist b : Prop := {
  hi_nodup : NoDup hist.*1;
  hi_split : ∃ dropped, hist.*1 = dropped ++ oldest_on_disk b ++ present b;
  hi_memory : ∀ h d, (h, d) ∈ hist → h ∈ present b → in_memory b h d;
  hi_absent : ∀ h, h ∉ present b → states b !! h = None;
  hi_disk : ∀ h d, (h, d) ∈ hist → h ∈ oldest_on_disk b → on_disk b h d;
  hi_disk_absent : ∀ h, h ∉ oldest_on_disk b → on_disk_states b !! h = None;
  hi_memory_only : is_memory_only b = true → oldest_on_disk b = [];
}.

Lemma history_nodup hist b : history hist b → NoDup (oldest_on_disk b ++ present b).
Proof. intros [Hnd [dr Hs] _ _ _ _ _]. rewrite Hs in Hnd. by apply NoDup_app in Hnd as (_ & _ & ?). Qed.

(** A state leaves the memory. *)
Lemma evict_absent hist b h rest :
  history hist b → present b = h :: rest → is_memory_only b = true →
  history hist (set_memory (delete h (states b)) rest b).
Proof.
  intros Hh Hp Hmo. pose proof (history_nodup _ _ Hh) as Hnd. rewrite Hp in Hnd.
  apply NoDup_app in Hnd as (_ & _ & [Hhr _]%NoDup_cons).
  destruct Hh as [? [dr Hs] Hm Ha Hd Hda Hmem]. split; try done.
  - exists (dr ++ [h]). rewrite Hs, Hp, Hmem by done. simpl. by rewrite Hmem, <-app_assoc.
  - intros h' d Hin Hh'. simpl in Hh'. destruct (Hm h' d Hin) as (d0 & ? & ?); [rewrite Hp; by right|].
    exists d0. simpl. rewrite lookup_delete_ne by (intros ->; done). done.
  - intros h' Hh'. simpl in *. destruct (decide (h' = h)) as [->|?]; [apply lookup_delete_eq|].
    rewrite lookup_delete_ne by done. apply Ha. rewrite Hp. set_solver.
Qed.

(** ... and is on disk when the write succeeds. *)
Lemma evict_written hist b h d rest s d1 cache :
  history hist b → present b = h :: rest → states b !! h = Some d →
  is_memory_only b = false → clear_into_state_snapshot d = (s, d1) →
  write h s (disk_cache b) = (true, cache) →
  history hist (set_disk (<[h := d1]> (on_disk_states b)) (oldest_on_disk b ++ [h]) cache
                  (set_memory (delete h (states b)) rest b)).
Proof.
  intros Hh Hp Hst Hmo Hclear Hw. pose proof (history_nodup _ _ Hh) as Hnd. rewrite Hp in Hnd.
  apply NoDup_app in Hnd as (_ & Hdis & [Hhr _]%NoDup_cons).
  assert (h ∉ oldest_on_disk b) as Hho by (intros ?; eapply Hdis; [done|left]).
  pose proof (write_stored _ _ _ _ Hw) as Hsto.
  destruct Hh as [Hnd [dr Hs] Hm Ha Hd Hda Hmem]. split; try done; simpl.
  - exists dr. by rewrite Hs, Hp, <-app_assoc.
  - intros h' d' Hin Hh'. destruct (Hm h' d' Hin) as (d0 & ? & ?); [rewrite Hp; by right|].
    exists d0. simpl. rewrite lookup_delete_ne by (intros ->; done). done.
  - intros h' Hh'. destruct (decide (h' = h)) as [->|?]; [apply lookup_delete_eq|].
    rewrite lookup_delete_ne by done. apply Ha. rewrite Hp. set_solver.
  - intros h' d' Hin [Hh'| ->%list_elem_of_singleton]%elem_of_app.
    + destruct (Hd h' d' Hin Hh') as (d0 & s' & d1' & k & ? & ? & ? & ? & Hs').
      exists d0, s', d1', k. simpl. rewrite lookup_insert_ne by (intros ->; done).
      repeat split; try done.
      pose proof (write_keeps (disk_cache b) h h' s s' ltac:(by intros ->) Hs') as Hk. by rewrite Hw in Hk.
    + destruct (Hm h d' Hin) as (d0 & Hd0 & ? & ?); [rewrite Hp; left|]. simplify_eq.
      exists d, s, d1, 0%nat. simpl. by rewrite lookup_insert_eq.
  - intros h' Hh'. rewrite lookup_insert_ne by set_solver. apply Hda. set_solver.
  - unfold is_memory_only in *. simpl. by rewrite Hmo.
Qed.

(** A failed write leaves everything where it was. *)
Lemma evict_failed hist b h d rest s d1 cache limit :
  history hist b → present b = h :: rest → states b !! h = Some d →
  clear_into_state_snapshot d = (s, d1) →
  write h s (disk_cache b) = (false, cache) →
  history hist (set_limits limit (max_on_disk_limit b)
    (set_memory (<[h := init_from_state_snapshot s d1]> (delete h (states b))) (h :: rest)
      (set_disk (on_disk_states b) (oldest_on_disk b) cache (set_memory (delete h (states b)) rest b)))).
Proof.
  intros Hh Hp Hst Hclear Hw. pose proof (history_nodup _ _ Hh) as Hnd. rewrite Hp in Hnd.
  apply NoDup_app in Hnd as (_ & Hdis & [Hhr _]%NoDup_cons).
  assert (h ∉ oldest_on_disk b) as Hho by (intros ?; eapply Hdis; [done|left]).
  destruct Hh as [Hnd [dr Hs] Hm Ha Hd Hda Hmem]. split; try done; simpl.
  - exists dr. by rewrite Hs, Hp.
  - intros h' d' Hin Hh'. rewrite <-Hp in Hh'. destruct (Hm h' d' Hin Hh') as (d0 & Hd0 & Heq & Hok).
    destruct (decide (h' = h)) as [->|Hne].
    + simplify_eq. destruct (reinit d s d1 0 Hok Hclear) as [Heq' Hok'].
      eexists. simpl. rewrite lookup_insert_eq. split; [done|]. split; [|done].
      etransitivity; [exact Heq'|done].
    + exists d0. simpl. by rewrite lookup_insert_ne, lookup_delete_ne by done.
  - intros h' Hh'. rewrite lookup_insert_ne, lookup_delete_ne by set_solver. apply Ha. by rewrite Hp.
  - intros h' d' Hin Hh'. destruct (Hd h' d' Hin Hh') as (d0 & s' & d1' & k & ? & ? & ? & ? & Hs').
    exists d0, s', d1', k. simpl. repeat split; try done.
    pose proof (write_keeps (disk_cache b) h h' s s' ltac:(by intros ->) Hs') as Hk. by rewrite Hw in Hk.
Qed.

Lemma history_in hist b h : history hist b → h ∈ oldest_on_disk b ++ present b → ∃ d, (h, d) ∈ hist.
Proof.
  intros [_ [dr Hs] _ _ _ _ _] Hh.
  assert (h ∈ hist.*1) as ((h' & d) & -> & ?)%list_elem_of_fmap by (rewrite Hs; set_solver). eauto.
Qed.

Lemma evict_spec hist b h rest :
  history hist b → present b = h :: rest →
  ∃ b' c, evict b = (b', c) ∧ history hist b' ∧
    max_on_disk_limit b' = max_on_disk_limit b ∧ min_in_memory_limit b' = min_in_memory_limit b ∧
    if c then present b' = rest ∧ in_memory_limit b' = in_memory_limit b ∧
              oldest_on_disk b' = oldest_on_disk b ++ (if is_memory_only b then [] else [h])
    else present b' = present b ∧ in_memory_limit b' = u_saturating_add 64 (in_memory_limit b) 1 ∧
         oldest_on_disk b' = oldest_on_disk b ∧ ∃ s, (write h s (disk_cache b)).1 = false.
Proof.
  intros Hh Hp. destruct (history_in _ _ h Hh) as [d Hd]; [rewrite Hp; set_solver|].
  destruct (hi_memory _ _ Hh h d Hd) as (d0 & Hst & _ & _); [rewrite Hp; left|].
  unfold evict. rewrite Hp, Hst.
  change (is_memory_only (set_memory _ _ b)) with (is_memory_only b).
  destruct (is_memory_only b) eqn:Hmo.
  { eexists _, true. split; [done|]. split; [by eapply evict_absent|]. by rewrite app_nil_r. }
  destruct (clear_into_state_snapshot d0) as [s d1] eqn:Hclear.
  change (disk_cache (set_memory _ _ b)) with (disk_cache b).
  destruct (write h s (disk_cache b)) as [ok cache] eqn:Hw. destruct ok.
  - eexists _, true. split; [done|]. split; [exact (evict_written hist b h d0 rest s d1 cache Hh Hp Hst Hmo Hclear Hw)|]. done.
  - eexists _, false. split; [done|]. simpl. split; [exact (evict_failed hist b h d0 rest s d1 cache _ Hh Hp Hst Hclear Hw)|].
    split; [done|]. split; [done|]. split; [done|]. split; [done|]. split; [done|].
    exists s. by rewrite Hw.
Qed.

Definition write_fails : Prop := ∃ h s (c : DiskStateCache FS Path), (write h s c).1 = false.

Lemma memory_loop_spec hist fuel b :
  history hist b → 0 < in_memory_limit b → in_u 64 (in_memory_limit b) →
  (length (present b) <= fuel)%nat →
  ∃ b' evicted, memory_loop fuel b = Some b' ∧ history hist b' ∧
    max_on_disk_limit b' = max_on_disk_limit b ∧ min_in_memory_limit b' = min_in_memory_limit b ∧
    present b = evicted ++ present b' ∧
    oldest_on_disk b' = oldest_on_disk b ++ (if is_memory_only b then [] else evicted) ∧
    0 < in_memory_limit b' ∧ in_u 64 (in_memory_limit b') ∧
    ((in_memory_limit b' = in_memory_limit b ∧
      len (present b') = Z.min (len (present b)) (in_memory_limit b - 1)) ∨ write_fails).
Proof.
  revert b. induction fuel as [|fuel IH]; intros b Hh Hpos Hu Hfuel; simpl.
  - destruct (present b) eqn:Hp; simpl in *; [|lia].
    destruct (Z.leb_spec (in_memory_limit b) (len (@nil B256))) as [Hle|_]; [unfold len in Hle; simpl in Hle; lia|].
    exists b, []. rewrite Hp. destruct (is_memory_only b); rewrite app_nil_r;
      (split_and!; [done|done|done|done|done|by rewrite ?app_nil_r|done|done|]; left; split; [done|]; unfold len; simpl; lia).
  - destruct (Z.leb_spec (in_memory_limit b) (len (present b))) as [Hle|Hgt].
    + destruct (present b) as [|h rest] eqn:Hp; [unfold len in Hle; simpl in Hle; lia|].
      destruct (evict_spec _ _ _ _ Hh Hp) as (b1 & c & -> & Hh1 & Hmax & Hmin & Hc).
      assert (is_memory_only b1 = is_memory_only b) as Hmo by (unfold is_memory_only; by rewrite Hmax).
      destruct c.
      * destruct Hc as (Hp1 & Hlim & Hold).
        destruct (IH b1) as (b' & ev & -> & Hh' & Hmax' & Hmin' & Hp' & Hold' & Hpos' & Hu' & Hcase);
          [done|lia|by rewrite Hlim|rewrite Hp1; simpl in Hfuel; lia|].
        exists b', (h :: ev). split; [done|]. split; [done|]. split; [congruence|]. split; [congruence|].
        split; [simpl; congruence|]. rewrite Hold', Hold, Hmo, <-app_assoc.
        split; [by destruct (is_memory_only b)|]. split; [done|]. split; [done|].
        destruct Hcase as [[Hl Hlen]|?]; [left|by right]. split; [congruence|].
        rewrite Hlen, Hp1, Hlim, len_cons in *. lia.
      * destruct Hc as (Hp1 & Hlim & Hold & s & Hw). exists b1, []. split; [done|].
        split; [done|]. split; [done|]. split; [done|]. split; [by rewrite Hp1|].
        split; [rewrite Hold; destruct (is_memory_only b); by rewrite app_nil_r|].
        rewrite Hlim. split; [unfold u_saturating_add, in_u, umax in *; lia|].
        split; [apply u_saturating_add_in_u; lia|]. right. by exists h, s, (disk_cache b).
    + exists b, []. split; [done|]. split; [done|]. split; [done|]. split; [done|].
      split; [done|]. split; [destruct (is_memory_only b); by rewrite app_nil_r|].
      split; [done|]. split; [done|]. left. split; [done|]. lia.
Qed.

Lemma purge hist b h rest :
  history hist b → is_memory_only b = false → oldest_on_disk b = h :: rest →
  history hist (set_disk (delete h (on_disk_states b)) rest (remove_cached h (disk_cache b)) b).
Proof.
  intros Hh Hmo Ho. pose proof (history_nodup _ _ Hh) as Hnd. rewrite Ho in Hnd.
  apply NoDup_app in Hnd as ([Hhr _]%NoDup_cons & _ & _).
  destruct Hh as [Hnd [dr Hs] Hm Ha Hd Hda Hmem]. split; try done; simpl.
  - exists (dr ++ [h]). by rewrite Hs, Ho, <-app_assoc.
  - intros h' d Hin Hh'. destruct (Hd h' d Hin) as (d0 & s & d1 & k & ? & ? & ? & ? & ?); [rewrite Ho; by right|].
    exists d0, s, d1, k. simpl. rewrite lookup_delete_ne by (intros ->; done).
    split_and!; try done. by apply remove_keeps; [intros ->|].
  - intros h' Hh'. destruct (decide (h' = h)) as [->|?]; [apply lookup_delete_eq|].
    rewrite lookup_delete_ne by done. apply Hda. rewrite Ho. set_solver.
  - unfold is_memory_only in *. simpl. by rewrite Hmo.
Qed.

Lemma disk_loop_spec hist fuel b :
  history hist b → 0 <= max_on_disk_limit b → (length (oldest_on_disk b) <= fuel)%nat →
  ∃ b' purged, disk_loop fuel b = Some b' ∧ history hist b' ∧
    max_on_disk_limit b' = max_on_disk_limit b ∧ min_in_memory_limit b' = min_in_memory_limit b ∧
    in_memory_limit b' = in_memory_limit b ∧ present b' = present b ∧
    oldest_on_disk b = purged ++ oldest_on_disk b' ∧
    len (oldest_on_disk b') = Z.min (len (oldest_on_disk b)) (Z.max 0 (max_on_disk_limit b - 1)).
Proof.
  revert b. induction fuel as [|fuel IH]; intros b Hh Hmax Hfuel; simpl.
  all: destruct (is_memory_only b) eqn:Hmo; simpl;
    [exists b, []; split_and!; try done; rewrite (hi_memory_only _ _ Hh Hmo); unfold len; simpl; lia|].
  all: assert (0 < max_on_disk_limit b) by (unfold is_memory_only in Hmo; lia).
  all: destruct (Z.leb_spec (max_on_disk_limit b) (len (oldest_on_disk b))) as [Hle|Hgt];
    [|exists b, []; split_and!; try done; lia].
  - unfold len in Hle. lia.
  - destruct (oldest_on_disk b) as [|h rest] eqn:Ho; [unfold len in Hle; simpl in Hle; lia|].
    destruct (IH (set_disk (delete h (on_disk_states b)) rest (remove_cached h (disk_cache b)) b))
      as (b' & pg & -> & Hh' & Hmax' & Hmin' & Hlim & Hp & Ho' & Hlen);
      [by apply purge|done|simpl in *; lia|]. simpl in *.
    exists b', (h :: pg). split_and!; try done; [by rewrite Ho'|].
    rewrite Hlen, len_cons in *. lia.
Qed.

Lemma enforce_limits_spec hist b :
  history hist b → 0 < in_memory_limit b → in_u 64 (in_memory_limit b) → 0 <= max_on_disk_limit b →
  ∃ b' evicted purged, enforce_limits b = Some b' ∧ history hist b' ∧
    max_on_disk_limit b' = max_on_disk_limit b ∧ min_in_memory_limit b' = min_in_memory_limit b ∧
    0 < in_memory_limit b' ∧ in_u 64 (in_memory_limit b') ∧
    present b = evicted ++ present b' ∧
    oldest_on_disk b ++ (if is_memory_only b then [] else evicted) = purged ++ oldest_on_disk b' ∧
    len (oldest_on_disk b') = Z.min (len (oldest_on_disk b) + (if is_memory_only b then 0 else len evicted))
                                (Z.max 0 (max_on_disk_limit b - 1)) ∧
    ((in_memory_limit b' = in_memory_limit b ∧
      len (present b') = Z.min (len (present b)) (in_memory_limit b - 1)) ∨ write_fails).
Proof.
  intros Hh Hpos Hu Hmax. unfold enforce_limits.
  destruct (memory_loop_spec hist (S (length (present b))) b)
    as (b1 & ev & -> & Hh1 & Hmax1 & Hmin1 & Hp1 & Ho1 & Hpos1 & Hu1 & Hcase); [done..|lia|].
  cbn [mbind option_bind]. destruct (disk_loop_spec hist (S (length (oldest_on_disk b1))) b1)
    as (b2 & pg & -> & Hh2 & Hmax2 & Hmin2 & Hlim2 & Hp2 & Ho2 & Hlen2); [done|lia|lia|].
  exists b2, ev, pg. rewrite Hlim2, Hp2. split_and!; try done; try congruence.
  rewrite Hlen2, Ho1, len_app, Hmax1. by destruct (is_memory_only b).
Qed.

Definition limits_ok b : Prop :=
  0 < in_memory_limit b ∧ in_u 64 (in_memory_limit b) ∧
  0 < min_in_memory_limit b ∧ in_u 64 (min_in_memory_limit b) ∧ 0 <= max_on_disk_limit b.

(** The limit that [insert] enforces. *)
Definition next_limit b : Z :=
  if negb (is_memory_only b) && (in_memory_limit b <=? len (present b))
  then Z.max (u_saturating_sub (in_memory_limit b) 1) (min_in_memory_limit b)
  else in_memory_limit b.

Lemma history_set_limits hist b m : history hist b → history hist (set_limits m (max_on_disk_limit b) b).
Proof. by intros [? ? ? ? ? ? ?]. Qed.

Lemma history_insert hist b h d :
  history hist b → h ∉ hist.*1 → snapshot_ok d →
  history (hist ++ [(h, d)]) (set_memory (<[h := d]> (states b)) (present b ++ [h]) b).
Proof.
  intros [Hnd [dr Hs] Hm Ha Hd Hda Hmem] Hh Hok. split; simpl; try done.
  - rewrite fmap_app. apply NoDup_app. split; [done|].
    split; [intros x ? ->%list_elem_of_singleton; done|apply NoDup_singleton].
  - exists dr. by rewrite fmap_app, Hs, <-!app_assoc.
  - intros h' d' [Hin|[= -> ->]%list_elem_of_singleton]%elem_of_app Hp.
    + assert (h' ≠ h) as Hne by (intros ->; apply Hh, list_elem_of_fmap; by exists (h, d')).
      destruct (Hm h' d' Hin) as (d0 & ? & ?); [set_solver|].
      exists d0. simpl. by rewrite lookup_insert_ne by done.
    + exists d. simpl. by rewrite lookup_insert_eq.
  - intros h' Hh'. rewrite lookup_insert_ne by set_solver. apply Ha. set_solver.
  - intros h' d' [Hin|[= -> ->]%list_elem_of_singleton]%elem_of_app Hp; [by apply Hd|].
    destruct Hh. rewrite Hs. set_solver.
Qed.

Lemma insert_spec hist b h d :
  history hist b → limits_ok b → h ∉ hist.*1 → snapshot_ok d →
  ∃ b' purged, insert h d b = Some b' ∧ history (hist ++ [(h, d)]) b' ∧ limits_ok b' ∧
    max_on_disk_limit b' = max_on_disk_limit b ∧ min_in_memory_limit b' = min_in_memory_limit b ∧
    oldest_on_disk b ++ present b ++ [h] = purged ++ oldest_on_disk b' ++ present b' ∧
    len (present b') <= len (present b) + 1 ∧
    (is_memory_only b = false → len (oldest_on_disk b') =
       Z.min (len (oldest_on_disk b) + len (present b) + 1 - len (present b')) (max_on_disk_limit b - 1)) ∧
    ((in_memory_limit b' = next_limit b ∧
      len (present b') = Z.min (len (present b)) (next_limit b - 1) + 1) ∨ write_fails).
Proof.
  intros Hh (Hpos & Hu & Hmin & Hminu & Hmax) Hfresh Hok. unfold insert.
  set (b0 := if negb (is_memory_only b) && (in_memory_limit b <=? len (present b)) then _ else b).
  assert (b0 = set_limits (next_limit b) (max_on_disk_limit b) b) as Hb0.
  { unfold b0, next_limit. case_match; [done|by destruct b]. }
  assert (0 < next_limit b ∧ in_u 64 (next_limit b)) as [Hlpos Hlu].
  { unfold next_limit, u_saturating_sub, in_u in *. case_match; lia. }
  assert (history hist b0) as Hh0 by (rewrite Hb0; by apply history_set_limits).
  destruct (enforce_limits_spec hist b0)
    as (b1 & ev & pg & -> & Hh1 & Hmax1 & Hmin1 & Hpos1 & Hu1 & Hp1 & Ho1 & Hlen1 & Hcase);
    [done|by rewrite Hb0..|]. simpl.
  rewrite Hb0 in Hmax1, Hmin1, Hp1, Ho1, Hlen1, Hcase. simpl in *.
  change (is_memory_only (set_limits (next_limit b) (max_on_disk_limit b) b)) with (is_memory_only b) in *.
  eexists _, (pg ++ (if is_memory_only b then ev else [])).
  split; [done|]. split; [by apply history_insert|].
  split; [unfold limits_ok; simpl; rewrite Hmin1, Hmax1; done|]. simpl.
  split; [done|]. split; [done|]. split; [|split; [|split]].
  - rewrite Hp1. destruct (is_memory_only b) eqn:Hmo.
    + pose proof (hi_memory_only _ _ Hh1) as Ho'. unfold is_memory_only in Ho', Hmo. rewrite Hmax1 in Ho'.
      rewrite (Ho' Hmo) in Ho1 |- *. rewrite (hi_memory_only _ _ Hh Hmo) in *.
      rewrite !app_nil_r in Ho1. subst pg. simpl. by rewrite <-app_assoc.
    + rewrite app_nil_r, !app_assoc, Ho1. by rewrite <-!app_assoc.
  - rewrite Hp1, !len_app. change (len [h]) with 1. pose proof (len_nonneg ev). lia.
  - intros Hmo. rewrite Hmo in Hlen1. unfold is_memory_only in Hmo.
    rewrite Hlen1, Hp1, !len_app. change (len [h]) with 1. lia.
  - destruct Hcase as [[-> Hlen]|?]; [left|by right]. split; [done|]. rewrite len_app, Hlen. unfold len. simpl. lia.
Qed.

Lemma get_on_disk_spec hist b h d :
  history hist b → (h, d) ∈ hist → h ∈ oldest_on_disk b →
  ∃ d' b', get_on_disk_state h b = (Some d', b') ∧ d' ≡ d ∧ history hist b' ∧
    present b' = present b ∧ oldest_on_disk b' = oldest_on_disk b ∧
    in_memory_limit b' = in_memory_limit b ∧ min_in_memory_limit b' = min_in_memory_limit b ∧
    max_on_disk_limit b' = max_on_disk_limit b.
Proof.
  intros Hh Hin Ho. destruct (hi_disk _ _ Hh h d Hin Ho) as (d0 & s & d1 & k & Heq & Hok & Hcl & Hst & Hsto).
  unfold get_on_disk_state. rewrite Hst, (read_stored _ _ _ Hsto).
  destruct (reinit d0 s d1 k Hok Hcl) as [Heq' _].
  eexists _, _. split; [done|]. split; [by etransitivity|]. split; [|done].
  pose proof (hi_nodup _ _ Hh) as Hnd.
  destruct Hh as [_ Hs Hm Ha Hd Hda Hmem]. split; try done; simpl.
  - intros h' d' Hin' Ho'. destruct (decide (h' = h)) as [->|Hne].
    + assert (d' = d) as ->.
      { apply list_elem_of_lookup in Hin as [i Hi], Hin' as [j Hj].
        assert (i = j) as ->; [|congruence].
        eapply NoDup_lookup; [exact Hnd|rewrite list_lookup_fmap, Hi; done|].
        by rewrite list_lookup_fmap, Hj. }
      exists d0, s, d1, (S k). simpl. by rewrite lookup_insert_eq.
    + destruct (Hd h' d' Hin' Ho') as (d0' & s' & d1' & k' & ?). exists d0', s', d1', k'. simpl.
      by rewrite lookup_insert_ne by done.
  - intros h' Hh'. rewrite lookup_insert_ne by set_solver. by apply Hda.
Qed.

(** What a query finds, by where the hash is. *)
Lemma history_found hist b h d :
  history hist b → (h, d) ∈ hist →
  (h ∈ present b → ∃ d', get_state h b = Some d' ∧ d' ≡ d) ∧
  (h ∈ oldest_on_disk b → get_state h b = None ∧ ∃ d', (get_on_disk_state h b).1 = Some d' ∧ d' ≡ d) ∧
  (h ∉ oldest_on_disk b ++ present b → get_state h b = None ∧ (get_on_disk_state h b).1 = None).
Proof.
  intros Hh Hin. split_and!.
  - intros Hp. destruct (hi_memory _ _ Hh h d Hin Hp) as (d' & ? & ? & _). by exists d'.
  - intros Ho. pose proof (history_nodup _ _ Hh) as (_ & Hdis & _)%NoDup_app. split.
    + apply (hi_absent _ _ Hh). by apply Hdis.
    + destruct (get_on_disk_spec _ _ _ _ Hh Hin Ho) as (d' & b' & -> & ? & _). by exists d'.
  - intros Hn. split; [apply (hi_absent _ _ Hh); set_solver|].
    unfold get_on_disk_state. by rewrite (hi_disk_absent _ _ Hh) by set_solver.
Qed.

(** ** Requests *)
Inductive Request := Insert (h : B256) (d : DB) | ReadDisk (h : B256) | BlockTime (secs : Z).
Definition inserted (r : Request) : option (B256 * DB) :=
  match r with Insert h d => Some (h, d) | _ => None end.
Definition serve b (r : Request) : option States :=
  match r with
  | Insert h d => insert h d b
  | ReadDisk h => Some (get_on_disk_state h b).2
  | BlockTime t => update_interval_mine_block_time t b
  end.

Lemma history_read hist b h :
  history hist b → let b' := (get_on_disk_state h b).2 in
  history hist b' ∧ present b' = present b ∧ oldest_on_disk b' = oldest_on_disk b ∧
    in_memory_limit b' = in_memory_limit b ∧ min_in_memory_limit b' = min_in_memory_limit b ∧
    max_on_disk_limit b' = max_on_disk_limit b.
Proof.
  intros Hh. simpl. destruct (decide (h ∈ oldest_on_disk b)) as [Ho|Ho].
  - destruct (history_in _ _ h Hh) as [d Hd]; [set_solver|].
    by destruct (get_on_disk_spec _ _ _ _ Hh Hd Ho) as (d' & b' & -> & _ & ?).
  - unfold get_on_disk_state. by rewrite (hi_disk_absent _ _ Hh _ Ho).
Qed.

Lemma history_new mem disk cache : history [] (@new FS Path DB mem disk cache).
Proof.
  split; simpl; [constructor|by exists []|set_solver|done|set_solver|done|done].
Qed.

(** A list of hashes that lost a prefix. *)
Definition lost_to_disk b (dropped : list B256) : Prop :=
  is_memory_only b = false ∧ len (oldest_on_disk b) <= max_on_disk_limit b - 1 ∧
  (dropped ≠ [] → len (oldest_on_disk b) = max_on_disk_limit b - 1).

Lemma serve_step hist b r dropped :
  history hist b → limits_ok b → lost_to_disk b dropped →
  hist.*1 = dropped ++ oldest_on_disk b ++ present b →
  match inserted r with Some (h, d) => (h ∉ hist.*1) ∧ snapshot_ok d | None => True end →
  ∃ b' dropped', serve b r = Some b' ∧ limits_ok b' ∧ lost_to_disk b' dropped' ∧
    max_on_disk_limit b' = max_on_disk_limit b ∧
    (hist ++ omap inserted [r]).*1 = dropped' ++ oldest_on_disk b' ++ present b' ∧
    history (hist ++ omap inserted [r]) b'.
Proof.
  intros Hh Hl (Hmo & Hlen & Hfull) Hs Hr. unfold is_memory_only in Hmo.
  destruct r as [h d|h|t]; simpl; [|rewrite app_nil_r..].
  - destruct Hr as [Hfresh Hok].
    destruct (insert_spec _ _ h d Hh Hl Hfresh Hok)
      as (b' & pg & -> & Hh' & Hl' & Hmax & _ & Hsp & Hgrow & Hlen' & _).
    exists b', (dropped ++ pg). split; [done|]. split; [done|]. split; [|split; [done|split; [|done]]].
    + unfold lost_to_disk, is_memory_only in *. rewrite Hmax in *. specialize (Hlen' Hmo).
      split; [done|]. split; [lia|]. intros Hne.
      pose proof (f_equal len Hsp) as Hsp'. rewrite !len_app in Hsp'. change (len [h]) with 1 in Hsp'.
      destruct pg as [|x pg].
      * rewrite app_nil_r in Hne. specialize (Hfull Hne). change (len (@nil B256)) with 0 in Hsp'. lia.
      * rewrite len_cons in Hsp'. pose proof (len_nonneg pg). lia.
    + rewrite fmap_app, Hs. simpl. by rewrite <-!app_assoc, Hsp.
  - exists (get_on_disk_state h b).2, dropped.
    destruct (history_read hist b h Hh) as (Hh' & Hp & Ho & Hlim & Hmin & Hmax).
    split; [done|]. unfold limits_ok, lost_to_disk, is_memory_only in *. rewrite Hp, Ho, Hlim, Hmin, Hmax. split_and!; (done || apply Hl).
  - unfold update_interval_mine_block_time. destruct (t <=? 2); [|exists b, dropped; unfold lost_to_disk, is_memory_only; split_and!; (done || apply Hl)].
    destruct Hl as (Hpos & Hu & Hmin & Hminu & Hmax).
    destruct (enforce_limits_spec hist (set_limits (DEFAULT_HISTORY_LIMIT * 3) (max_on_disk_limit b) b))
      as (b' & ev & pg & -> & Hh' & Hmax' & Hmin' & Hpos' & Hu' & Hp & Ho & Hlen' & _);
      [by apply history_set_limits|done|done|done|]. simpl in *.
    unfold is_memory_only in *. simpl in *. rewrite Hmo in *.
    exists b', (dropped ++ pg). split; [done|]. unfold limits_ok, lost_to_disk, is_memory_only.
    rewrite Hmin', Hmax'. split; [done|]. split; [|split; [done|split; [|done]]].
    + split; [done|]. split; [lia|]. intros Hne. pose proof (f_equal len Ho) as Ho'.
      rewrite !len_app in Ho'. pose proof (len_nonneg ev). destruct pg as [|x pg].
      * rewrite app_nil_r in Hne. specialize (Hfull Hne). lia.
      * rewrite len_cons in Ho'. pose proof (len_nonneg pg). lia.
    + rewrite Hs, Hp. by rewrite (app_assoc (oldest_on_disk b)), Ho, <-!app_assoc.
Qed.

(** Whatever writes fail and whatever is read in between, a state that was
    inserted is shown again, from memory or from its file, as it was inserted,
    unless as many newer states are on disk as the limit allows: the states
    that can be shown are a suffix of those that were inserted. *)
Theorem states_kept (mem max_disk : Z) (cache : DiskStateCache FS Path) (reqs : list Request) :
  0 < mem → in_u 64 mem → 0 < max_disk →
  NoDup (omap inserted reqs).*1 →
  Forall (λ x, snapshot_ok x.2) (omap inserted reqs) →
  ∃ b dropped, fold_opt serve (new mem max_disk cache) reqs = Some b ∧
    (omap inserted reqs).*1 = dropped ++ oldest_on_disk b ++ present b ∧
    (dropped ≠ [] → len (oldest_on_disk b) = max_disk - 1) ∧
    ∀ h d, (h, d) ∈ omap inserted reqs →
      (h ∈ present b → ∃ d', get_state h b = Some d' ∧ d' ≡ d) ∧
      (h ∈ oldest_on_disk b →
         get_state h b = None ∧ ∃ d', (get_on_disk_state h b).1 = Some d' ∧ d' ≡ d) ∧
      (h ∈ dropped → get_state h b = None ∧ (get_on_disk_state h b).1 = None).
Proof.
  intros Hmem Hmemu Hdisk Hnd Hok.
  assert (∃ b dropped, fold_opt serve (new mem max_disk cache) reqs = Some b ∧ limits_ok b ∧
    max_on_disk_limit b = max_disk ∧ lost_to_disk b dropped ∧
    (omap inserted reqs).*1 = dropped ++ oldest_on_disk b ++ present b ∧
    history (omap inserted reqs) b) as (b & dr & Hrun & _ & Hmax & (_ & _ & Hfull) & Hs & Hh).
  { induction reqs as [|r reqs IH] using rev_ind.
    - exists (new mem max_disk cache), []. unfold limits_ok, lost_to_disk, is_memory_only, MIN_HISTORY_LIMIT.
      unfold in_u in *. simpl. unfold len, MIN_HISTORY_LIMIT. simpl.
      split_and!; try done; try lia; try apply history_new.
    - rewrite omap_app in Hnd, Hok |- *. rewrite fmap_app in Hnd.
      apply NoDup_app in Hnd as (Hnd & Hdis & _). apply Forall_app in Hok as [Hok Hokr].
      destruct (IH Hnd Hok) as (b & dr & Hrun & Hl & Hmax & Hlost & Hs & Hh).
      destruct (serve_step _ _ r dr Hh Hl Hlost Hs) as (b' & dr' & Hserve & Hl' & Hlost' & Hmax' & Hs' & Hh').
      { simpl in Hdis, Hokr. destruct (inserted r) as [[h d]|]; [|done]. split.
        - intros Hin. eapply Hdis; [exact Hin|left].
        - by apply Forall_cons in Hokr as [? _]. }
      exists b', dr'. rewrite fold_opt_app, Hrun. simpl. rewrite Hserve. simpl.
      rewrite Hmax' in *. by split_and!. }
  exists b, dr. split; [done|]. split; [done|]. split; [by rewrite <-Hmax|].
  intros h d Hin. pose proof (history_found _ _ _ _ Hh Hin) as (Hp & Ho & Hn).
  split; [done|]. split; [done|]. intros Hdr. apply Hn.
  pose proof (hi_nodup _ _ Hh) as Hnd'. rewrite Hs in Hnd'. apply NoDup_app in Hnd' as (_ & Hdis & _).
  by apply Hdis.
Qed.

(** ** Without failures *)
Definition reliable : Prop := ∀ h s (c : DiskStateCache FS Path), (write h s c).1 = true.

Definition reads_or_inserts (r : Request) : bool :=
  match r with BlockTime _ => false | _ => true end.

(** The limit in memory after [n] insertions: it shrinks by one per insertion
    once it is reached, down to the minimum. *)
Definition kept_limit (mem max_disk n : Z) : Z :=
  if max_disk =? 0 then mem else Z.max (Z.min mem MIN_HISTORY_LIMIT) (Z.min mem (2 * mem - n)).
Definition kept_in_memory (mem max_disk n : Z) : Z := Z.min n (kept_limit mem max_disk n).
Definition kept_on_disk (mem max_disk n : Z) : Z :=
  Z.min (n - kept_in_memory mem max_disk n) (Z.max 0 (max_disk - 1)).

Definition sized (mem max_disk n : Z) b : Prop :=
  max_on_disk_limit b = max_disk ∧ min_in_memory_limit b = Z.min mem MIN_HISTORY_LIMIT ∧
  in_memory_limit b = kept_limit mem max_disk n ∧
  len (present b) = kept_in_memory mem max_disk n ∧
  len (oldest_on_disk b) = kept_on_disk mem max_disk n.

(** The limits before and after an insertion, for a node with a disk. *)
Lemma kept_step mem n :
  0 < mem → 0 <= n → let m := Z.min mem 10 in
  let l := Z.max m (Z.min mem (2 * mem - n)) in let l' := Z.max m (Z.min mem (2 * mem - (n + 1))) in
  (n < l → l' = l ∧ Z.min n l = n) ∧
  (l <= n → l' = Z.max (Z.max 0 (l - 1)) m ∧ Z.min n l = l) ∧ 0 < l' <= l.
Proof. cbv zeta. lia. Qed.

Lemma sized_insert hist b h d mem max_disk n :
  reliable → 0 < mem → in_u 64 mem → 0 <= max_disk → 0 <= n →
  history hist b → sized mem max_disk n b → h ∉ hist.*1 → snapshot_ok d →
  ∃ b', insert h d b = Some b' ∧ history (hist ++ [(h, d)]) b' ∧ sized mem max_disk (n + 1) b'.
Proof.
  intros Hrel Hmem Hmemu Hdisk Hn Hh (Hmax & Hmin & Hlim & Hp & Ho) Hfresh Hok.
  assert (limits_ok b) as Hl.
  { unfold limits_ok, in_u in *. rewrite Hmax, Hmin, Hlim. unfold kept_limit, MIN_HISTORY_LIMIT.
    destruct (max_disk =? 0); lia. }
  destruct (insert_spec _ _ h d Hh Hl Hfresh Hok)
    as (b' & pg & -> & Hh' & _ & Hmax' & Hmin' & Hsp & _ & Hlen' & Hcase).
  destruct Hcase as [[Hlim' Hp']|(h' & s & c & Hw)]; [|by rewrite Hrel in Hw].
  exists b'. split; [done|]. split; [done|]. unfold sized. rewrite Hmax', Hmin'.
  split; [done|]. split; [done|]. pose proof (hi_memory_only _ _ Hh') as Hempty.
  unfold next_limit, is_memory_only in *. rewrite Hmax', Hmax in *.
  rewrite Hlim, Hp, Hmin in *. clear Hsp Hl Hmin' Hmax' Hlim Hp Hmin Hmax.
  unfold kept_on_disk, kept_in_memory, kept_limit, MIN_HISTORY_LIMIT, u_saturating_sub in *.
  destruct (Z.eqb_spec max_disk 0) as [->|Hne]; simpl in *.
  - rewrite Hempty by done. change (len (@nil B256)) with 0. clear Hempty Hlen'. lia.
  - specialize (Hlen' eq_refl). clear Hempty.
    pose proof (kept_step mem n Hmem Hn) as (Hlt & Hge & Hpos). cbv zeta in *.
    set (m := Z.min mem 10) in *. set (l := Z.max m (Z.min mem (2 * mem - n))) in *.
    set (l' := Z.max m (Z.min mem (2 * mem - (n + 1)))) in *. clearbody l' l m.
    destruct (Z.lt_ge_cases n l) as [Hc|Hc].
    + destruct (Hlt Hc) as [Hl' Hm]. rewrite Hm in *. clear Hlt Hge.
      destruct (Z.leb_spec l n); [lia|]. lia.
    + destruct (Hge Hc) as [Hl' Hm]. rewrite Hm in *. clear Hlt Hge.
      destruct (Z.leb_spec l l); [|lia]. rewrite <-Hl' in *. lia.
Qed.

Lemma len_nat {A} (l : list A) : Z.to_nat (len l) = length l.
Proof. unfold len. lia. Qed.

(** What a query finds, by how long ago the state was inserted. *)
Lemma history_at mem max_disk hist b i h d :
  history hist b → sized mem max_disk (len hist) b → hist !! i = Some (h, d) →
  let n := len hist in
  let p := kept_in_memory mem max_disk n in
  let q := kept_on_disk mem max_disk n in
  (n - p <= Z.of_nat i → ∃ d', get_state h b = Some d' ∧ d' ≡ d) ∧
  (n - p - q <= Z.of_nat i < n - p →
     get_state h b = None ∧ ∃ d', (get_on_disk_state h b).1 = Some d' ∧ d' ≡ d) ∧
  (Z.of_nat i < n - p - q → get_state h b = None ∧ (get_on_disk_state h b).1 = None).
Proof.
  intros Hh Hsz Hi n p q.
  pose proof (history_found _ _ _ _ Hh (list_elem_of_lookup_2 _ _ _ Hi)) as (Hp & Ho & Hn).
  destruct Hsz as (_ & _ & _ & Hlp & Hlo). fold n p q in Hlp, Hlo.
  destruct (hi_split _ _ Hh) as [dr Hs]. pose proof (hi_nodup _ _ Hh) as Hnd'. rewrite Hs in Hnd'.
  assert ((hist).*1 !! i = Some h) as Hih by by rewrite list_lookup_fmap, Hi.
  assert (n = len dr + q + p) as Hnsum.
  { rewrite <-Hlp, <-Hlo. unfold n. apply (f_equal len) in Hs. rewrite !len_app in Hs.
    unfold len in Hs at 1. rewrite length_fmap in Hs. fold (len (hist)) in Hs. lia. }
  rewrite Hs in Hih. split_and!.
  - intros Hge. apply Hp. rewrite app_assoc, lookup_app_r in Hih;
      [by eapply list_elem_of_lookup_2|]. rewrite length_app. unfold len in *. lia.
  - intros Hge. apply Ho. rewrite lookup_app_r, lookup_app_l in Hih;
      [by eapply list_elem_of_lookup_2|unfold len in *; lia..].
  - intros Hlt. apply Hn. rewrite lookup_app_l in Hih by (unfold len in *; lia).
    apply NoDup_app in Hnd' as (_ & Hdis & _). apply Hdis. by eapply list_elem_of_lookup_2.
Qed.

(** While no write fails, the node shows exactly the newest states: with
    [n] states inserted, the last [kept_in_memory n] are in memory, the
    [kept_on_disk n] before them come back from their files as they were
    inserted, and no older one is found.  The limit in memory stays at its
    start value until it is reached and then shrinks with every insertion down
    to ten; of the files, one fewer than the limit is kept. *)
Theorem history_window (mem max_disk : Z) (cache : DiskStateCache FS Path) (reqs : list Request) :
  reliable → 0 < mem → in_u 64 mem → 0 <= max_disk →
  Forall (λ r, reads_or_inserts r = true) reqs →
  NoDup (omap inserted reqs).*1 →
  Forall (λ x, snapshot_ok x.2) (omap inserted reqs) →
  let n := len (omap inserted reqs) in
  let p := kept_in_memory mem max_disk n in
  let q := kept_on_disk mem max_disk n in
  ∃ b, fold_opt serve (new mem max_disk cache) reqs = Some b ∧
    ∀ i h d, omap inserted reqs !! i = Some (h, d) →
      (n - p <= Z.of_nat i → ∃ d', get_state h b = Some d' ∧ d' ≡ d) ∧
      (n - p - q <= Z.of_nat i < n - p →
         get_state h b = None ∧ ∃ d', (get_on_disk_state h b).1 = Some d' ∧ d' ≡ d) ∧
      (Z.of_nat i < n - p - q → get_state h b = None ∧ (get_on_disk_state h b).1 = None).
Proof.
  intros Hrel Hmem Hmemu Hdisk Hreqs Hnd Hok n p q.
  assert (∃ b, fold_opt serve (new mem max_disk cache) reqs = Some b ∧
    history (omap inserted reqs) b ∧ sized mem max_disk n b) as (b & Hrun & Hh & Hsz).
  { unfold n. clear n p q. induction reqs as [|r reqs IH] using rev_ind.
    - exists (new mem max_disk cache). split; [done|]. split; [apply history_new|].
      unfold sized, kept_on_disk, kept_in_memory, kept_limit. change (len (omap inserted [])) with 0. simpl.
      change (len (@nil B256)) with 0. unfold MIN_HISTORY_LIMIT.
      destruct (max_disk =? 0); split_and!; lia.
    - rewrite omap_app in Hnd, Hok |- *. rewrite fmap_app in Hnd.
      apply NoDup_app in Hnd as (Hnd & Hdis & _). apply Forall_app in Hok as [Hok Hokr].
      apply Forall_app in Hreqs as [Hreqs Hr].
      destruct (IH Hreqs Hnd Hok) as (b & Hrun & Hh & Hsz). rewrite fold_opt_app, Hrun. simpl.
      destruct r as [h d|h|t]; simpl in *; [| |by apply Forall_cons in Hr as [? _]].
      + destruct (sized_insert _ _ h d _ _ _ Hrel Hmem Hmemu Hdisk (len_nonneg _) Hh Hsz)
          as (b' & -> & Hh' & Hsz').
        { intros Hin. eapply Hdis; [exact Hin|left]. }
        { by apply Forall_cons in Hokr as [? _]. }
        exists b'. simpl. rewrite len_app. done.
      + destruct (history_read _ _ h Hh) as (Hh' & Hp & Ho & Hlim & Hmin & Hmax).
        eexists. split; [done|]. rewrite app_nil_r. split; [done|].
        unfold sized in *. by rewrite Hp, Ho, Hlim, Hmin, Hmax. }
  exists b. split; [done|]. intros i h d. by apply history_at.
Qed.

(** ** The loop *)

(** With a limit of zero the loop of [enforce_limits] never ends. *)
Lemma memory_loop_diverges fuel b : in_memory_limit b = 0 → is_memory_only b = true →
  memory_loop fuel b = None.
Proof.
  revert b. induction fuel as [|fuel IH]; intros b Hlim Hmo; simpl; rewrite Hlim.
  all: destruct (Z.leb_spec 0 (len (present b))) as [_|?]; [|pose proof (len_nonneg (present b)); lia].
  - done.
  - unfold evict. destruct (present b) as [|h rest]; [by apply IH|].
    destruct (states b !! h); [|by apply IH].
    change (is_memory_only (set_memory _ _ b)) with (is_memory_only b). rewrite Hmo. by apply IH.
Qed.

(** Inserting a state ends exactly when a state may be kept in memory:
    with a positive limit it ends, whatever writes fail; a node that is told to
    keep zero states ([--prune-history 0]) never finishes the insertion of its
    first one, however long it runs. *)
Theorem insert_ends (limit : Z) (prune : PruneStateHistoryConfig) (max_persisted : option Z)
    (cache_path : option Path) (cache : DiskStateCache FS Path) h d :
  in_u 64 limit → prune = from_args (Some (Some limit)) → snapshot_ok d →
  (0 < limit → is_Some (insert h d (configured_states prune max_persisted cache_path cache))) ∧
  (limit = 0 → is_state_history_supported prune = true ∧
     ∀ fuel, memory_loop fuel (configured_states (DB := DB) prune max_persisted cache_path cache) = None).
Proof.
  intros Hu -> Hok.
  assert (∃ cache', configured_states (DB := DB) (from_args (Some (Some limit))) max_persisted cache_path cache
    = new limit 0 cache') as [cache' ->].
  { unfold configured_states. simpl. destruct cache_path as [p|]; eauto. }
  split.
  - intros Hpos. destruct (insert_spec [] (new limit 0 cache') h d) as (b' & pg & -> & _);
      [apply history_new| |apply not_elem_of_nil|done|done].
    unfold limits_ok, in_u, MIN_HISTORY_LIMIT in *. simpl. unfold MIN_HISTORY_LIMIT. lia.
  - intros ->. split; [done|]. intros fuel. by apply memory_loop_diverges.
Qed.
End history.

(** ** Concrete file systems *)
Module StatesExample.
Abbreviation FS := (gmap (Z * B256) StateSnapshot).

(** Files in a map; [writable] says which files can be written. *)
Definition files_fs (writable : B256 → bool) : FileSystem FS Z := {|
  create_dir_all := λ _ fs, (true, fs);
  tempdir_in := λ p fs, (Some (default 0 p), fs);
  write_json_file := λ p h s fs, if writable h then (true, <[(p, h) := s]> fs) else (false, fs);
  read_json_file := λ p h fs, fs !! (p, h);
  remove_file := λ p h fs, delete (p, h) fs;
|}.

Lemma files_lawful (writable : B256 → bool) : @LawfulFileSystem FS Z (files_fs writable).
Proof.
  split; simpl.
  - intros p h s fs fs'. destruct (writable h); intros [= <-]. apply lookup_insert_eq.
  - intros p h h' s fs Hne. destruct (writable h); [|done]. simpl. apply lookup_insert_ne. congruence.
  - intros p h h' fs Hne. apply lookup_delete_ne. congruence.
Qed.

Abbreviation Db := (CacheDB unit).
#[local] Instance order : HashIter := elements_iter.
Definition state (n : Z) : Db :=
  {| accounts := {[1 := SnapshotExample.account n]}; contracts := {[77 := [96; 0]]};
     block_hashes := ∅; db := tt |}.
Definition cache : DiskStateCache FS Z := {| temp_path := None; temp_dir := None; files := ∅ |}.
(** The balance of account 1 in a state that was found. *)
Definition seen (d : option Db) : option Z := d ← d; acc ← accounts d !! 1; Some (balance (info acc)).

Definition inserts (l : list Z) : list Request := (λ h, Insert h (state h)) <$> l.

Lemma state_ok n : @snapshot_ok Db _ _ (@cache_lawful unit order) (state n).
Proof.
  intros a acc c Ha Hc. change (accounts (state n)) with ({[1 := SnapshotExample.account n]} : gmap Z DbAccount) in Ha.
  by apply lookup_singleton_Some in Ha as [_ <-].
Qed.

Lemma inserted_inserts l : omap inserted (inserts l) = (λ h, (h, state h)) <$> l.
Proof. induction l as [|h l IH]; [done|]. csimpl. by rewrite IH. Qed.

Lemma inserts_fst l : (omap inserted (inserts l)).*1 = l.
Proof. rewrite inserted_inserts, <-list_fmap_compose. apply list_fmap_id. Qed.

Lemma inserts_ok l :
  Forall (λ x, @snapshot_ok Db _ _ (@cache_lawful unit order) x.2) (omap inserted (inserts l)).
Proof. rewrite inserted_inserts. apply Forall_fmap, Forall_true. intros h. apply state_ok. Qed.

(** Block 2 cannot be written: it stays in memory. *)
Definition unwritable_2 : FileSystem FS Z := files_fs (λ h, negb (h =? 2)).
Lemma states_kept_witness :
  (b ← fold_opt (@serve FS Z Db unwritable_2 _) (new 2 4 cache) (inserts [1; 2; 3; 4]);
   Some (present b, oldest_on_disk b, seen (get_state 2 b),
         seen (@get_on_disk_state FS Z Db unwritable_2 _ 1 b).1)) =
    Some ([2; 3; 4], [1], Some 2, Some 1) ∧
  NoDup (omap inserted (inserts [1; 2; 3; 4])).*1 ∧
  ∃ b dropped, fold_opt (@serve FS Z Db unwritable_2 _) (new 2 4 cache) (inserts [1; 2; 3; 4]) = Some b ∧
    (omap inserted (inserts [1; 2; 3; 4])).*1 = dropped ++ oldest_on_disk b ++ present b ∧
    (dropped ≠ [] → len (oldest_on_disk b) = 4 - 1) ∧
    ∀ h d, (h, d) ∈ omap inserted (inserts [1; 2; 3; 4]) →
      (h ∈ present b → ∃ d', get_state h b = Some d' ∧ d' ≡ d) ∧
      (h ∈ oldest_on_disk b → get_state h b = None ∧
         ∃ d', (@get_on_disk_state FS Z Db unwritable_2 _ h b).1 = Some d' ∧ d' ≡ d) ∧
      (h ∈ dropped → get_state h b = None ∧ (@get_on_disk_state FS Z Db unwritable_2 _ h b).1 = None).
Proof.
  assert (NoDup (omap inserted (inserts [1; 2; 3; 4])).*1) as Hnd
    by (rewrite inserts_fst; apply (bool_decide_unpack _); vm_compute; exact I).
  assert (0 < 2) as H1 by done. assert (in_u 64 2) as H2 by (split; discriminate).
  assert (0 < 4) as H3 by done.
  split; [vm_compute; reflexivity|]. split; [exact Hnd|].
  exact (@states_kept FS Z Db unwritable_2 (files_lawful _) _ _ (@cache_lawful unit order) 2 4 cache
           (inserts [1; 2; 3; 4]) H1 H2 H3 Hnd (inserts_ok _)).
Defined.

(** Twelve blocks with room for eleven in memory and three files. *)
Definition writable_all : FileSystem FS Z := files_fs (λ _, true).
Definition twelve : list Z := [1; 2; 3; 4; 5; 6; 7; 8; 9; 10; 11; 12; 13; 14].
Lemma history_window_witness :
  (kept_in_memory 11 3 14, kept_on_disk 11 3 14) = (10, 2) ∧
  NoDup (omap inserted (inserts twelve)).*1 ∧
  ∃ b, fold_opt (@serve FS Z Db writable_all _) (new 11 3 cache) (inserts twelve) = Some b ∧
    ∀ i h d, omap inserted (inserts twelve) !! i = Some (h, d) →
      let n := len (omap inserted (inserts twelve)) in
      (n - kept_in_memory 11 3 n <= Z.of_nat i → ∃ d', get_state h b = Some d' ∧ d' ≡ d) ∧
      (n - kept_in_memory 11 3 n - kept_on_disk 11 3 n <= Z.of_nat i < n - kept_in_memory 11 3 n →
         get_state h b = None ∧
         ∃ d', (@get_on_disk_state FS Z Db writable_all _ h b).1 = Some d' ∧ d' ≡ d) ∧
      (Z.of_nat i < n - kept_in_memory 11 3 n - kept_on_disk 11 3 n →
         get_state h b = None ∧ (@get_on_disk_state FS Z Db writable_all _ h b).1 = None).
Proof.
  assert (NoDup (omap inserted (inserts twelve)).*1) as Hnd
    by (rewrite inserts_fst; apply (bool_decide_unpack _); vm_compute; exact I).
  assert (@reliable FS Z writable_all) as Hrel.
  { intros h s [tp td fs]. unfold write, with_cache_file, open_dir. simpl. by destruct td, tp. }
  assert (Forall (λ r : @Request Db, reads_or_inserts r = true) (inserts twelve)) as Hr
    by (repeat constructor).
  assert (0 < 11) as H1 by done. assert (in_u 64 11) as H2 by (split; discriminate).
  assert (0 <= 3) as H3 by done.
  split; [reflexivity|]. split; [exact Hnd|].
  exact (@history_window FS Z Db writable_all (files_lawful _) _ _ (@cache_lawful unit order) 11 3 cache
           (inserts twelve) Hrel H1 H2 H3 Hr Hnd (inserts_ok _)).
Defined.

Lemma insert_ends_witness :
  is_Some (@insert FS Z Db writable_all _ 7 (state 7)
             (configured_states (from_args (Some (Some 1))) None None cache)) ∧
  (1 = 0 → is_state_history_supported (from_args (Some (Some 1))) = true ∧
     ∀ fuel, @memory_loop FS Z Db writable_all _ fuel
       (configured_states (from_args (Some (Some 1))) None None cache) = None).
Proof.
  assert (in_u 64 1) as H1 by (split; discriminate).
  pose proof (@insert_ends FS Z Db writable_all (files_lawful _) _ _ (@cache_lawful unit order) 1
           (from_args (Some (Some 1))) None None cache 7 (state 7) H1 eq_refl (state_ok 7)) as [Hp Hz].
  split; [exact (Hp eq_refl)|exact Hz].
Defined.

(** A state that is inserted again, as after a revert to a snapshot, is queued
    twice; the eviction of the first entry takes the new state with it, which
    is the newest but one, although the limit is three. *)
Lemma reinserted_state_lost :
  (b ← fold_opt (@serve FS Z Db writable_all _) (new 3 0 cache) (inserts [1; 2; 1; 4]);
   Some (present b, seen (get_state 1 b), seen (get_state 2 b))) = Some ([2; 1; 4], None, Some 2).
Proof. vm_compute. reflexivity. Qed.

(** A short block time overrides the number of states of [--prune-history]. *)
Lemma block_time_overrides_prune :
  (b ← @update_interval_mine_block_time FS Z Db writable_all _ 1
         (configured_states (from_args (Some (Some 10))) None None cache);
   Some (in_memory_limit b, is_memory_only b)) = Some (1500, true).
Proof. vm_compute. reflexivity. Qed.
End StatesExample.
