(* ===== verification/Chain.v ===== *)
(** * The chain of the node

    [BlockchainStorage] of [anvil/src/eth/backend/mem/storage.rs] and the
    operations of [Backend] in [mem/mod.rs] that change it: mining a block,
    snapshots and their reverts, rollbacks, and the queries that look a past
    block up.  The executor's outcome is an argument of the mined block; the
    block environment, the fees and the clock are not part of this state. *)
From S2P Require Import Prelude StateDb BlockStates.
Local Open Scope Z_scope.

(** [BlockNumberOrTag] *)
Inductive BlockNumberOrTag := Latest | Finalized | Safe | Earliest | Pending | Number (n : Z).

Section chain.
Context {Header Tx Info Receipt : Type}.
Variables (hash_slow : Header → B256) (number : Header → Z) (difficulty : Header → Z).
Variable (tx_hash : Tx → B256).
Variable (transaction_hash : Info → B256).

Record Block := { header : Header; transactions_of : list Tx }.
Record MinedTransaction := {
  tx_info : Info; receipt : Receipt; block_hash : B256; block_number : Z;
}.

Record BlockchainStorage := {
  blocks : gmap B256 Block;
  hashes : gmap Z B256;
  best_hash : B256;
  best_number : Z;
  genesis_hash : B256;
  transactions : gmap B256 MinedTransaction;
  total_difficulty : Z;
}.

(** Assignments to fields. *)
Definition set_maps (bl : gmap B256 Block) (hs : gmap Z B256) (txs : gmap B256 MinedTransaction)
    (s : BlockchainStorage) : BlockchainStorage :=
  {| blocks := bl; hashes := hs; best_hash := best_hash s; best_number := best_number s;
     genesis_hash := genesis_hash s; transactions := txs; total_difficulty := total_difficulty s |}.
Definition set_best (n : Z) (h : B256) (s : BlockchainStorage) : BlockchainStorage :=
  {| blocks := blocks s; hashes := hashes s; best_hash := h; best_number := n;
     genesis_hash := genesis_hash s; transactions := transactions s;
     total_difficulty := total_difficulty s |}.
Definition set_genesis_hash (h : B256) (s : BlockchainStorage) : BlockchainStorage :=
  {| blocks := blocks s; hashes := hashes s; best_hash := best_hash s; best_number := best_number s;
     genesis_hash := h; transactions := transactions s; total_difficulty := total_difficulty s |}.
Definition set_total_difficulty (d : Z) (s : BlockchainStorage) : BlockchainStorage :=
  {| blocks := blocks s; hashes := hashes s; best_hash := best_hash s; best_number := best_number s;
     genesis_hash := genesis_hash s; transactions := transactions s; total_difficulty := d |}.

(** ** Constructors

    [new] builds the genesis block from the environment; the model takes the
    block. *)
Definition storage_new (block : Block) (genesis_number : Z) : BlockchainStorage :=
  let h := hash_slow (header block) in
  {| blocks := {[h := block]}; hashes := {[genesis_number := h]}; best_hash := h;
     best_number := genesis_number; genesis_hash := h; transactions := ∅; total_difficulty := 0 |}.
Definition forked (block_number : Z) (block_hash : B256) (total_difficulty : Z) : BlockchainStorage :=
  {| blocks := ∅; hashes := {[block_number := block_hash]}; best_hash := block_hash;
     best_number := block_number; genesis_hash := 0; transactions := ∅;
     total_difficulty := total_difficulty |}.
Definition storage_empty : BlockchainStorage :=
  {| blocks := ∅; hashes := ∅; best_hash := 0; best_number := 0; genesis_hash := 0;
     transactions := ∅; total_difficulty := 0 |}.

(** ** Removal *)
Definition delete_txs (txs : list Tx) (m : gmap B256 MinedTransaction) : gmap B256 MinedTransaction :=
  foldl (λ m tx, delete (tx_hash tx) m) m txs.

Definition remove_block_transactions (h : B256) (s : BlockchainStorage) : BlockchainStorage :=
  match blocks s !! h with
  | Some block =>
      set_maps (<[h := {| header := header block; transactions_of := [] |}]> (blocks s)) (hashes s)
        (delete_txs (transactions_of block) (transactions s)) s
  | None => s
  end.
Definition remove_block_transactions_by_number (num : Z) (s : BlockchainStorage) : BlockchainStorage :=
  match hashes s !! num with Some h => remove_block_transactions h s | None => s end.

(** One turn of the loop of [unwind_to]. *)
Definition unwind_block (acc : BlockchainStorage * list Block) (i : Z) : BlockchainStorage * list Block :=
  let '(s, removed) := acc in
  match hashes s !! i with
  | Some h =>
      let s := remove_block_transactions_by_number i s in
      let removed := match blocks s !! h with Some block => removed ++ [block] | None => removed end in
      (set_maps (delete h (blocks s)) (delete i (hashes s)) (transactions s) s, removed)
  | None => acc
  end.
(** [lo..=hi] *)
Definition range_inclusive (lo hi : Z) : list Z := seqZ lo (hi - lo + 1).
Definition unwind_to (n : Z) (h : B256) (s : BlockchainStorage) : BlockchainStorage * list Block :=
  let '(s, removed) := foldl unwind_block (s, []) (range_inclusive (wrap 64 (n + 1)) (best_number s)) in
  (set_best n h s, removed).

(** ** Look-up *)

(** [BlockchainStorage::hash], with its constant 32, and the copy of it in
    [Backend::get_block_with_hash], with the configured number of slots. *)
Definition hash_with (slots_in_an_epoch : Z) (tag : BlockNumberOrTag) (s : BlockchainStorage) : option B256 :=
  match tag with
  | Latest => Some (best_hash s)
  | Earliest => Some (genesis_hash s)
  | Pending => None
  | Number n => hashes s !! n
  | Safe =>
      if slots_in_an_epoch <? best_number s then hashes s !! (best_number s - slots_in_an_epoch)
      else Some (genesis_hash s)
  | Finalized =>
      if wrap 64 (slots_in_an_epoch * 2) <? best_number s
      then hashes s !! (best_number s - wrap 64 (slots_in_an_epoch * 2))
      else Some (genesis_hash s)
  end.
Definition hash : BlockNumberOrTag → BlockchainStorage → option B256 := hash_with 32.
Definition get_block_by_hash (h : B256) (s : BlockchainStorage) : option Block := blocks s !! h.
Definition get_transaction_by_hash (h : B256) (s : BlockchainStorage) : option MinedTransaction :=
  transactions s !! h.
Definition blocks_count (s : BlockchainStorage) : nat := size (blocks s).

(** ** Dumps *)
Definition serialized_blocks `{HashIter} (s : BlockchainStorage) : list Block :=
  omap (λ h, blocks s !! h) (hash_iter (dom (blocks s))).
Definition serialized_transactions `{HashIter} (s : BlockchainStorage) : list MinedTransaction :=
  omap (λ h, transactions s !! h) (hash_iter (dom (transactions s))).
Definition load_block (s : BlockchainStorage) (block : Block) : BlockchainStorage :=
  let h := hash_slow (header block) in
  let n := number (header block) in
  let s := set_maps (<[h := block]> (blocks s)) (<[n := h]> (hashes s)) (transactions s) s in
  if n =? 0 then set_genesis_hash h s else s.
Definition load_blocks (l : list Block) (s : BlockchainStorage) : BlockchainStorage :=
  foldl load_block s l.
Definition load_transactions (l : list MinedTransaction) (s : BlockchainStorage) : BlockchainStorage :=
  foldl (λ s tx, set_maps (blocks s) (hashes s)
                   (<[transaction_hash (tx_info tx) := tx]> (transactions s)) s) s l.

(** ** The backend *)
Context {FS Path Inner : Type} `{FileSystem FS Path} `{MaybeFullDatabase Inner}.
Variable insert_block_hash : Z → B256 → Inner → Inner.
Variable insert_account : Address → AccountInfo → Inner → Inner.
Variable set_storage_at : Address → U256 → U256 → Inner → bool * Inner.

Record Backend := {
  storage : BlockchainStorage;
  db : MemDb Inner;
  block_states : InMemoryBlockStates FS Path (MemDb Inner);
  active_state_snapshots : gmap U256 (Z * B256);
  prune_state_history_config : PruneStateHistoryConfig;
  transaction_block_keeper : option Z;
  slots_in_an_epoch : Z;
  is_eip3675 : bool;
}.
Definition set_storage (s : BlockchainStorage) (b : Backend) : Backend :=
  {| storage := s; db := db b; block_states := block_states b;
     active_state_snapshots := active_state_snapshots b;
     prune_state_history_config := prune_state_history_config b;
     transaction_block_keeper := transaction_block_keeper b;
     slots_in_an_epoch := slots_in_an_epoch b; is_eip3675 := is_eip3675 b |}.
Definition set_db (d : MemDb Inner) (b : Backend) : Backend :=
  {| storage := storage b; db := d; block_states := block_states b;
     active_state_snapshots := active_state_snapshots b;
     prune_state_history_config := prune_state_history_config b;
     transaction_block_keeper := transaction_block_keeper b;
     slots_in_an_epoch := slots_in_an_epoch b; is_eip3675 := is_eip3675 b |}.
Definition set_states (st : InMemoryBlockStates FS Path (MemDb Inner)) (b : Backend) : Backend :=
  {| storage := storage b; db := db b; block_states := st;
     active_state_snapshots := active_state_snapshots b;
     prune_state_history_config := prune_state_history_config b;
     transaction_block_keeper := transaction_block_keeper b;
     slots_in_an_epoch := slots_in_an_epoch b; is_eip3675 := is_eip3675 b |}.
Definition set_active (a : gmap U256 (Z * B256)) (b : Backend) : Backend :=
  {| storage := storage b; db := db b; block_states := block_states b;
     active_state_snapshots := a;
     prune_state_history_config := prune_state_history_config b;
     transaction_block_keeper := transaction_block_keeper b;
     slots_in_an_epoch := slots_in_an_epoch b; is_eip3675 := is_eip3675 b |}.

(** What the executor returns for a block: the database after it, the block
    and its transactions with their receipts. *)
Record Executed := { e_db : Inner; e_block : Block; e_transactions : list (Info * Receipt) }.

(** The part of [do_mine_block] that writes the storage. *)
Definition store_block (o : Executed) (block_number : Z) (keeper : option Z) (merged : bool)
    (s : BlockchainStorage) : BlockchainStorage :=
  let block_hash := hash_slow (header (e_block o)) in
  let s := set_best block_number block_hash s in
  let s := if merged then s
           else set_total_difficulty
                  (u_saturating_add 256 (total_difficulty s) (difficulty (header (e_block o)))) s in
  let s := set_maps (<[block_hash := e_block o]> (blocks s)) (<[block_number := block_hash]> (hashes s))
             (foldl (λ m '(info, receipt),
                <[transaction_hash info := {| tx_info := info; receipt := receipt;
                                              block_hash := block_hash; block_number := block_number |}]> m)
                (transactions s) (e_transactions o)) s in
  match keeper with
  | Some keeper =>
      if keeper <? Z.of_nat (size (blocks s))
      then remove_block_transactions_by_number (u_saturating_sub block_number keeper) s
      else s
  | None => s
  end.

Definition mine_block (o : Executed) (b : Backend) : option Backend :=
  let s := storage b in
  let block_number := u_saturating_add 64 (best_number s) 1 in
  b ← (if is_state_history_supported (prune_state_history_config b)
       then st ← insert (best_hash s) (current_state (db b)) (block_states b); Some (set_states st b)
       else Some b);
  let d := insert_block_hash (number (header (e_block o))) (hash_slow (header (e_block o))) (e_db o) in
  let b := set_db {| inner := d; db_snapshots := db_snapshots (db b) |} b in
  mret (set_storage (store_block o block_number (transaction_block_keeper b) (is_eip3675 b) (storage b)) b).

Inductive BlockchainError :=
  BlockNotFound | DataUnavailable | BlockOutOfRange (current requested : Z) | InvalidDepth | DatabaseError.

(** ** Snapshots *)
Definition create_snapshot (b : Backend) : U256 * Backend :=
  let '(i, d) := snapshot_state (db b) in
  (i, set_active (<[i := (best_number (storage b), best_hash (storage b))]> (active_state_snapshots b))
        (set_db d b)).

(** One turn of the loop of [revert_state_snapshot], from the newest block. *)
Definition revert_block (s : BlockchainStorage) (n : Z) : BlockchainStorage :=
  match hashes s !! n with
  | Some h =>
      let s := set_maps (blocks s) (delete n (hashes s)) (transactions s) s in
      match blocks s !! h with
      | Some block =>
          set_maps (delete h (blocks s)) (hashes s) (delete_txs (transactions_of block) (transactions s)) s
      | None => s
      end
  | None => s
  end.
Definition revert_storage (num : Z) (h : B256) (s : BlockchainStorage) : BlockchainStorage :=
  set_best num h
    (foldl revert_block s (rev (range_inclusive (wrap 64 (num + 1)) (best_number s)))).

Definition revert_snapshot (i : U256) (b : Backend) : result BlockchainError bool * Backend :=
  let block := active_state_snapshots b !! i in
  let b := set_active (delete i (active_state_snapshots b)) b in
  let revert_db b := let '(ok, d) := revert_state i RevertRemove (db b) in (Ok ok, set_db d b) in
  match block with
  | Some (num, h) =>
      let b := set_storage (revert_storage num h (storage b)) b in
      match get_block_by_hash h (storage b) with
      | None => (Err BlockNotFound, b)
      | Some _ => revert_db b
      end
  | None => revert_db b
  end.

(** ** Queries *)
Definition get_block_with_hash (tag : BlockNumberOrTag) (b : Backend) : option (Block * B256) :=
  h ← hash_with (slots_in_an_epoch b) tag (storage b);
  block ← get_block_by_hash h (storage b);
  Some (block, h).

Definition convert_block_number (tag : option BlockNumberOrTag) (b : Backend) : Z :=
  let current := best_number (storage b) in
  match default Latest tag with
  | Latest | Pending => current
  | Earliest => 0
  | Number n => n
  | Safe => u_saturating_sub current (slots_in_an_epoch b)
  | Finalized => u_saturating_sub current (wrap 64 (slots_in_an_epoch b * 2))
  end.

Definition ensure_block_number (tag : option BlockNumberOrTag) (b : Backend) : result BlockchainError Z :=
  let current := best_number (storage b) in
  let requested := convert_block_number tag b in
  if current <? requested then Err (BlockOutOfRange current requested) else Ok requested.

(** [with_database_at]: the database that the closure gets. *)
Definition database_at (tag : option BlockNumberOrTag) (b : Backend) :
    result BlockchainError (MemDb Inner) * Backend :=
  let block_number := convert_block_number tag b in
  let current_number := best_number (storage b) in
  let out_of_range := Err (BlockOutOfRange current_number block_number) in
  if current_number <? block_number then (out_of_range, b)
  else if block_number <? current_number then
    match get_block_with_hash (Number block_number) b with
    | Some (_, h) =>
        match get_state h (block_states b) with
        | Some d => (Ok d, b)
        | None =>
            let '(r, st) := get_on_disk_state h (block_states b) in
            (match r with Some d => Ok d | None => out_of_range end, set_states st b)
        end
    | None => (out_of_range, b)
    end
  else (Ok (db b), b).

(** ** Rollback *)
Section rollback.
Context `{HashIter}.

(** A loop with a [?] in its body: it stops at the first error. *)
Fixpoint until_error {A} (f : Inner → A → bool * Inner) (d : Inner) (l : list A) : bool * Inner :=
  match l with
  | [] => (true, d)
  | x :: l => let '(ok, d) := f d x in if ok then until_error f d l else (false, d)
  end.

(** The accounts of the common state are inserted again, slot by slot. *)
Definition restore_account (accounts : gmap Address DbAccount) (d : Inner) (a : Address) : bool * Inner :=
  match accounts !! a with
  | Some acc =>
      until_error (λ d key, match StateDb.storage acc !! key with
                            | Some v => set_storage_at a key v d
                            | None => (true, d)
                            end)
        (insert_account a (info acc) d) (hash_iter (dom (StateDb.storage acc)))
  | None => (true, d)
  end.

Definition rollback (common_block : Block) (b : Backend) : result BlockchainError unit * Backend :=
  let h := hash_slow (header common_block) in
  let n := number (header common_block) in
  let '(found, st) := match get_state h (block_states b) with
                      | Some d => (Some d, block_states b)
                      | None => get_on_disk_state h (block_states b)
                      end in
  let b := set_states st b in
  match (d ← found; maybe_as_full_db d) with
  | None => (Err DataUnavailable, b)
  | Some common_state =>
      let b := set_storage (unwind_to n h (storage b)).1 b in
      let d := StateDb.clear (inner (db b)) in
      let '(ok, d) := until_error (restore_account common_state) d (hash_iter (dom common_state)) in
      let put d := set_db {| inner := d; db_snapshots := db_snapshots (db b) |} b in
      if negb ok then (Err DatabaseError, put d)
      else
        let min_block := u_saturating_sub n 256 in
        let d := foldl (λ d num, match hashes (storage b) !! num with
                                 | Some h => insert_block_hash num h d
                                 | None => d
                                 end)
                   d (filter (λ num, min_block <= num) (hash_iter (dom (hashes (storage b))))) in
        (Ok tt, put d)
  end.

(** [anvil_rollback] of [eth/api.rs] *)
Definition anvil_rollback (depth : option Z) (b : Backend) : result BlockchainError unit * Backend :=
  let depth := default 1 depth in
  let current_height := best_number (storage b) in
  if current_height <? depth then (Err InvalidDepth, b)
  else
    match get_block_with_hash (Number (current_height - depth)) b with
    | None => (Err BlockNotFound, b)
    | Some (common_block, _) => rollback common_block b
    end.
End rollback.
End chain.
