(* ===== verification/ChainSpec.v ===== *)
(** * What mining, snapshots and rollbacks do to the chain *)
From S2P Require Import Prelude StateDb BlockStates BlockStatesSpec Chain.
Local Open Scope Z_scope.

Section chain_spec.
Context {Header Tx Info Receipt : Type}.
Context (hash_slow : Header → B256) (number difficulty : Header → Z).
Context (tx_hash : Tx → B256) (transaction_hash : Info → B256).
Abbreviation Storage := (@BlockchainStorage Header Tx Info Receipt).
Implicit Types (s : Storage).

(** ** Removing blocks

    What both loops do to one block. *)
Definition drop_block s (i : Z) : Storage :=
  match hashes s !! i with
  | Some h =>
      set_maps (delete h (blocks s)) (delete i (hashes s))
        (delete_txs tx_hash (from_option transactions_of [] (blocks s !! h)) (transactions s)) s
  | None => s
  end.

Lemma unwind_drop s r i : (unwind_block tx_hash (s, r) i).1 = drop_block s i.
Proof.
  unfold unwind_block, drop_block, remove_block_transactions_by_number.
  destruct (hashes s !! i) as [h|]; [|done]. unfold remove_block_transactions.
  destruct (blocks s !! h) as [block|] eqn:Hb; simpl.
  - unfold set_maps. simpl. by rewrite delete_insert_eq.
  - unfold set_maps. simpl. done.
Qed.

Lemma revert_drop s i : revert_block tx_hash s i = drop_block s i.
Proof.
  unfold revert_block, drop_block. destruct (hashes s !! i) as [h|]; [|done]. simpl.
  destruct (blocks s !! h) as [block|] eqn:Hb; simpl; [done|]. unfold set_maps. simpl.
  by rewrite (delete_id (blocks s)) by done.
Qed.

Lemma unwind_loop s r l : (foldl (unwind_block tx_hash) (s, r) l).1 = foldl drop_block s l.
Proof.
  revert s r. induction l as [|i l IH]; intros s r; [done|]. cbn [foldl].
  pose proof (unwind_drop s r i) as Hd. destruct (unwind_block tx_hash (s, r) i) as [s' r'].
  simpl in Hd. subst s'. apply IH.
Qed.

Lemma revert_loop s l : foldl (revert_block tx_hash) s l = foldl drop_block s l.
Proof. revert s. induction l as [|i l IH]; intros s; [done|]. simpl. by rewrite revert_drop. Qed.

(** No two numbers have one block. *)
Definition one_number s : Prop := ∀ i j h, hashes s !! i = Some h → hashes s !! j = Some h → i = j.

Lemma delete_txs_lookup txs m t :
  delete_txs tx_hash txs m !! t = if decide (t ∈ tx_hash <$> txs) then None else m !! t
  :> option (@MinedTransaction Info Receipt).
Proof.
  unfold delete_txs. revert m. induction txs as [|x txs IH]; intros m; csimpl; [done|].
  rewrite IH. destruct (decide (tx_hash x = t)) as [<-|Hne].
  - rewrite lookup_delete_eq. repeat case_decide; set_solver.
  - rewrite lookup_delete_ne by done. repeat case_decide; set_solver.
Qed.

Lemma delete_txs_comm l1 l2 m :
  delete_txs tx_hash l1 (delete_txs tx_hash l2 m) = delete_txs tx_hash l2 (delete_txs tx_hash l1 m)
  :> gmap B256 (@MinedTransaction Info Receipt).
Proof. apply map_eq. intros t. rewrite !delete_txs_lookup. by repeat case_decide. Qed.

Lemma drop_comm s i j : one_number s → drop_block (drop_block s i) j = drop_block (drop_block s j) i.
Proof.
  intros Hone. destruct (decide (i = j)) as [->|Hij]; [done|].
  assert (∀ k k' h h', k ≠ k' → hashes s !! k = Some h → hashes s !! k' = Some h' → h ≠ h') as Hne.
  { intros k k' h h' Hk Hh Hh' ->. by eapply Hk, Hone. }
  unfold drop_block at 2 4.
  destruct (hashes s !! i) as [hi|] eqn:Hi, (hashes s !! j) as [hj|] eqn:Hj; unfold drop_block; simpl.
  - rewrite !lookup_delete_ne, Hi, Hj by done. specialize (Hne i j hi hj Hij Hi Hj). simpl.
    rewrite !(lookup_delete_ne (blocks s)) by done. unfold set_maps. simpl. f_equal.
    + apply delete_delete.
    + apply delete_delete.
    + apply delete_txs_comm.
  - by rewrite Hi, lookup_delete_ne, Hj by done.
  - by rewrite Hj, lookup_delete_ne, Hi by done.
  - by rewrite Hi, Hj.
Qed.

Lemma drop_one_number s i : one_number s → one_number (drop_block s i).
Proof.
  intros Hone. unfold drop_block. destruct (hashes s !! i) as [h|]; [|done]. simpl.
  intros a b h'. simpl. intros [_ Ha]%lookup_delete_Some [_ Hb]%lookup_delete_Some. by eapply Hone.
Qed.

Lemma drop_last s i l : one_number s → foldl drop_block (drop_block s i) l = drop_block (foldl drop_block s l) i.
Proof.
  revert s. induction l as [|j l IH]; intros s Hone; [done|]. simpl.
  rewrite drop_comm by done. apply IH. by apply drop_one_number.
Qed.

Lemma drop_rev s l : one_number s → foldl drop_block s (rev l) = foldl drop_block s l.
Proof.
  revert s. induction l as [|i l IH]; intros s Hone; [done|]. simpl.
  rewrite foldl_app. simpl. rewrite IH by done. symmetry. by apply drop_last.
Qed.

(** Reverting to a snapshot and unwinding for a rollback treat the chain in
    the same way: the one removes the blocks from the newest down and takes
    each block out before its transactions, the other goes up and empties
    each block before it takes it out, and both leave the same storage. *)
Theorem revert_is_unwind s (n : Z) (h : B256) :
  one_number s → revert_storage tx_hash n h s = (unwind_to tx_hash n h s).1.
Proof.
  intros Hone. unfold revert_storage, unwind_to.
  pose proof (unwind_loop s [] (range_inclusive (wrap 64 (n + 1)) (best_number s))) as Hu.
  destruct (foldl _ (s, []) _) as [s' r]. simpl in Hu. simpl. subst s'. f_equal.
  rewrite revert_loop. by apply drop_rev.
Qed.

(** ** Mining *)
Context {FS Path Inner : Type} `{LawfulFileSystem FS Path} `{LawfulDatabase Inner}.
Context (insert_block_hash : Z → B256 → Inner → Inner).
Abbreviation Node := (@Backend Header Tx Info Receipt FS Path Inner).
Abbreviation Outcome := (@Executed Header Tx Info Receipt Inner).
Abbreviation mine := (mine_block hash_slow number difficulty tx_hash transaction_hash insert_block_hash).
Abbreviation store := (store_block hash_slow difficulty tx_hash transaction_hash).
Implicit Types (o : Outcome) (b : Node).

Definition new_hash o : B256 := hash_slow (header (e_block o)).

(** The chain up to the best block. *)
Record chain_wf s : Prop := {
  wf_one : one_number s;
  wf_below : ∀ n h, hashes s !! n = Some h → n <= best_number s;
  wf_head : hashes s !! best_number s = Some (best_hash s) ∧ is_Some (blocks s !! best_hash s);
  wf_number : 0 <= best_number s;
}.

(** What mining relies on: the new hashes have not been seen, and the receipts
    belong to the transactions of the block. *)
Record fresh_block s o : Prop := {
  fr_number : best_number s < umax 64;
  fr_block : blocks s !! new_hash o = None;
  fr_hash : ∀ n, hashes s !! n ≠ Some (new_hash o);
  fr_txs : ∀ tx, tx ∈ transactions_of (e_block o) → transactions s !! tx_hash tx = None;
  fr_infos : ∀ x, x ∈ e_transactions o → ∃ tx, tx ∈ transactions_of (e_block o) ∧
    tx_hash tx = transaction_hash x.1;
}.

Lemma next_number s o : fresh_block s o → 0 <= best_number s →
  u_saturating_add 64 (best_number s) 1 = best_number s + 1.
Proof. intros [Hn _ _ _ _] Hb. unfold u_saturating_add. lia. Qed.

Lemma stored_txs (l : list (Info * Receipt)) bh n (m : gmap B256 (@MinedTransaction Info Receipt)) t :
  (∀ x, x ∈ l → transaction_hash x.1 ≠ t) →
  foldl (λ m '(info, receipt),
    <[transaction_hash info := {| tx_info := info; receipt := receipt;
                                  block_hash := bh; block_number := n |}]> m) m l !! t = m !! t.
Proof.
  revert m. induction l as [|[i r] l IH]; intros m Hl; simpl; [done|].
  rewrite IH by (intros x ?; apply Hl; by right). apply lookup_insert_ne.
  apply (Hl (i, r)). left.
Qed.

(** Dropping the block that was just stored. *)
Lemma drop_store s o n :
  fresh_block s o → hashes s !! n = None →
  drop_block (store o n None true s) n = set_best n (new_hash o) s.
Proof.
  intros [_ Hb Hh Htx Hinfo] Hn. unfold drop_block, store_block. simpl. fold (new_hash o).
  rewrite lookup_insert_eq. simpl. rewrite lookup_insert_eq. simpl. unfold set_maps, set_best. simpl. f_equal.
  - by rewrite delete_insert_id.
  - by rewrite delete_insert_id.
  - apply map_eq. intros t. rewrite delete_txs_lookup.
    destruct (decide (t ∈ tx_hash <$> transactions_of (e_block o))) as [Ht|Ht].
    + apply list_elem_of_fmap in Ht as (tx & -> & Ht). by rewrite (Htx tx Ht).
    + apply stored_txs. intros x Hx <-. destruct (Hinfo x Hx) as (tx & Htx' & Heq).
      apply Ht. rewrite <-Heq. by apply list_elem_of_fmap_2.
Qed.

Lemma drop_set_best s n h l : foldl drop_block (set_best n h s) l = set_best n h (foldl drop_block s l).
Proof.
  revert s. induction l as [|i l IH]; intros s; simpl; [done|]. rewrite <-IH. f_equal.
  unfold drop_block. simpl. by destruct (hashes s !! i).
Qed.

Lemma store_wf s o : chain_wf s → fresh_block s o → chain_wf (store o (best_number s + 1) None true s).
Proof.
  intros [Hone Hbelow Hhead Hnum] [_ Hb Hh _ _]. unfold store_block. simpl. fold (new_hash o).
  split; simpl.
  - intros i j h Hi Hj. simpl in *.
    apply lookup_insert_Some in Hi as [[<- Hi]|[_ Hi]], Hj as [[<- Hj]|[_ Hj]]; [done| | |by eapply Hone].
    + exfalso. apply (Hh j). congruence.
    + exfalso. apply (Hh i). congruence.
  - intros n h [[<- _]|[_ ?%Hbelow]]%lookup_insert_Some; lia.
  - rewrite !lookup_insert_eq. eauto.
  - lia.
Qed.

(** Going back to the block before the new one and going on from there. *)
Lemma revert_store s o n h :
  chain_wf s → fresh_block s o → 0 <= n <= best_number s →
  revert_storage tx_hash n h (store o (best_number s + 1) None true s) = revert_storage tx_hash n h s.
Proof.
  intros Hwf Hfr Hn. pose proof (fr_number _ _ Hfr) as Hmax.
  unfold revert_storage. rewrite !revert_loop.
  change (best_number (store o (best_number s + 1) None true s)) with (best_number s + 1).
  rewrite wrap_id by (unfold in_u; lia).
  assert (range_inclusive (n + 1) (best_number s + 1) =
          range_inclusive (n + 1) (best_number s) ++ [best_number s + 1]) as ->.
  { unfold range_inclusive. replace (best_number s + 1 - (n + 1) + 1) with (best_number s - (n + 1) + 1 + 1) by lia.
    rewrite seqZ_app by lia. f_equal. replace (n + 1 + (best_number s - (n + 1) + 1)) with (best_number s + 1) by lia.
    done. }
  rewrite rev_app_distr. cbn [rev app foldl]. rewrite drop_store; [|done|].
  - by rewrite drop_set_best.
  - destruct (hashes s !! (best_number s + 1)) eqn:Hx; [|done]. apply (wf_below _ Hwf) in Hx. lia.
Qed.

Lemma revert_self s : 0 <= best_number s < umax 64 → 
  revert_storage tx_hash (best_number s) (best_hash s) s = s.
Proof.
  intros Hn. unfold revert_storage, range_inclusive. rewrite wrap_id by (unfold in_u; lia).
  replace (best_number s - (best_number s + 1) + 1) with 0 by lia. simpl. by destruct s.
Qed.

(** ** Runs of the node

    Blocks that are mined and snapshots that are taken, on a node that keeps
    all transactions. *)
Definition plain_config b : Prop := transaction_block_keeper b = None ∧ is_eip3675 b = true.

Inductive advances : Node → Node → Prop :=
| advances_refl b : advances b b
| advances_mine b b1 o b2 :
    advances b b1 → fresh_block (storage b1) o → mine o b1 = Some b2 → advances b b2
| advances_snapshot b b1 i b2 : advances b b1 → create_snapshot b1 = (i, b2) → advances b b2.

Lemma mine_spec b o b' :
  plain_config b → chain_wf (storage b) → fresh_block (storage b) o → mine o b = Some b' →
  plain_config b' ∧ storage b' = store o (best_number (storage b) + 1) None true (storage b) ∧
  db b' = {| inner := insert_block_hash (number (header (e_block o))) (new_hash o) (e_db o);
             db_snapshots := db_snapshots (db b) |} ∧
  active_state_snapshots b' = active_state_snapshots b ∧ slots_in_an_epoch b' = slots_in_an_epoch b ∧
  prune_state_history_config b' = prune_state_history_config b ∧
  if is_state_history_supported (prune_state_history_config b)
  then insert (best_hash (storage b)) (current_state (db b)) (block_states b) = Some (block_states b')
  else block_states b' = block_states b.
Proof.
  intros [Hk Hm] Hwf Hfr. unfold mine_block. rewrite (next_number _ _ Hfr (wf_number _ Hwf)).
  destruct (is_state_history_supported _).
  - intros (b1 & (st & Hst & [= <-])%bind_Some & [= <-])%bind_Some. simpl. rewrite Hk, Hm. done.
  - intros (b1 & [= <-] & [= <-])%bind_Some. simpl. by rewrite Hk, Hm.
Qed.

(** What a run keeps of the node it started from. *)
Record continues b b' : Prop := {
  co_config : plain_config b';
  co_wf : chain_wf (storage b');
  co_revert : revert_storage tx_hash (best_number (storage b)) (best_hash (storage b)) (storage b') = storage b;
  co_best : best_number (storage b) <= best_number (storage b');
  co_snapshots : snapshots_wf (db_snapshots (db b'));
  co_id : id (db_snapshots (db b)) <= id (db_snapshots (db b'));
  co_db : ∀ j, j < id (db_snapshots (db b)) → get (db_snapshots (db b')) j = get (db_snapshots (db b)) j;
  co_active : ∀ j, j < id (db_snapshots (db b)) →
    active_state_snapshots b' !! j = active_state_snapshots b !! j;
}.

Lemma mine_snapshots b o b' : mine o b = Some b' → db_snapshots (db b') = db_snapshots (db b).
Proof.
  unfold mine_block. destruct (is_state_history_supported _).
  - by intros (b3 & (st & Hst & [= <-])%bind_Some & [= <-])%bind_Some.
  - by intros (b3 & [= <-] & [= <-])%bind_Some.
Qed.

Lemma advances_id b b' : advances b b' → id (db_snapshots (db b)) <= umax 256 →
  id (db_snapshots (db b)) <= id (db_snapshots (db b')) <= umax 256.
Proof.
  induction 1 as [b|b b1 o b2 Hadv IH Hfr Hmine|b b1 i b2 Hadv IH Hcreate]; intros Hid.
  - lia.
  - rewrite (mine_snapshots _ _ _ Hmine). auto.
  - specialize (IH Hid). unfold create_snapshot in Hcreate. simpl in Hcreate.
    injection Hcreate as <- <-. simpl. unfold u_saturating_add. lia.
Qed.

Lemma advances_continues b b' :
  advances b b' → plain_config b → chain_wf (storage b) → best_number (storage b) < umax 64 →
  snapshots_wf (db_snapshots (db b)) → id (db_snapshots (db b')) < umax 256 → continues b b'.
Proof.
  induction 1 as [b|b b1 o b2 Hadv IH Hfr Hmine|b b1 i b2 Hadv IH Hcreate]; intros Hc Hwf Hmax Hsn Hid.
  - split; try done. apply revert_self. pose proof (wf_number _ Hwf). lia.
  - assert (db_snapshots (db b2) = db_snapshots (db b1)) as Hdb.
    { by eapply mine_snapshots. }
    rewrite Hdb in Hid. destruct (IH Hc Hwf Hmax Hsn Hid) as [Hc1 Hwf1 Hrev Hbest Hs1 Hid1 Hget Hact].
    destruct (mine_spec _ _ _ Hc1 Hwf1 Hfr Hmine) as (Hc2 & Hst & _ & Hact2 & _).
    split; try (rewrite ?Hdb, ?Hact2; done); rewrite Hst.
    + by apply store_wf.
    + rewrite revert_store; [done..|]. pose proof (wf_number _ Hwf). lia.
    + simpl. unfold store_block. simpl. lia.
  - unfold create_snapshot, snapshot_state in Hcreate.
    pose proof (advances_id _ _ Hadv (proj2 (proj1 Hsn))) as Hidb.
    assert (id (db_snapshots (db b1)) < umax 256) as Hid1.
    { simpl in Hcreate. injection Hcreate as <- <-. simpl in Hid. unfold u_saturating_add in Hid. lia. }
    destruct (IH Hc Hwf Hmax Hsn Hid1) as [Hc1 Hwf1 Hrev Hbest Hs1 Hid1' Hget Hact].
    pose proof (snapshots_insert_spec (inner (db b1)) _ Hs1 Hid1) as Hins.
    destruct (StateDb.insert _ _) as [i' s'] eqn:Hi. destruct Hins as (_ & -> & Hwf' & Hids & Hgets).
    injection Hcreate as <- <-. split; simpl; try done.
    + lia.
    + intros j Hj. rewrite Hgets, decide_False by lia. by apply Hget.
    + intros j Hj. rewrite lookup_insert_ne by lia. by apply Hact.
Qed.

Lemma create_spec b i b1 :
  snapshots_wf (db_snapshots (db b)) → id (db_snapshots (db b)) < umax 256 → create_snapshot b = (i, b1) →
  i = id (db_snapshots (db b)) ∧ storage b1 = storage b ∧ inner (db b1) = inner (db b) ∧
  snapshots_wf (db_snapshots (db b1)) ∧ id (db_snapshots (db b1)) = id (db_snapshots (db b)) + 1 ∧
  (∀ j, get (db_snapshots (db b1)) j =
        if decide (j = id (db_snapshots (db b))) then Some (inner (db b)) else get (db_snapshots (db b)) j) ∧
  active_state_snapshots b1 =
    <[id (db_snapshots (db b)) := (best_number (storage b), best_hash (storage b))]> (active_state_snapshots b) ∧
  (plain_config b → plain_config b1).
Proof.
  intros Hs Hid. unfold create_snapshot, snapshot_state.
  pose proof (snapshots_insert_spec (inner (db b)) _ Hs Hid) as Hins.
  destruct (StateDb.insert _ _) as [i' s']. destruct Hins as (_ & -> & Hwf' & Hids & Hgets).
  intros [= <- <-]. done.
Qed.

Lemma revert_back b i b1 b2 :
  plain_config b → chain_wf (storage b) → best_number (storage b) < umax 64 →
  snapshots_wf (db_snapshots (db b)) →
  create_snapshot b = (i, b1) → advances b1 b2 → id (db_snapshots (db b2)) < umax 256 →
  ∃ b3, revert_snapshot tx_hash i b2 = (Ok true, b3) ∧
    storage b3 = storage b ∧ inner (db b3) = inner (db b) ∧
    (∀ j, get (db_snapshots (db b3)) j = get (db_snapshots (db b)) j) ∧
    active_state_snapshots b3 = delete i (active_state_snapshots b2).
Proof.
  intros Hc Hwf Hmax Hsn Hcreate Hadv Hid.
  assert (advances b b1) as Hb1 by (eapply advances_snapshot; [apply advances_refl|done]).
  assert (id (db_snapshots (db b)) < umax 256) as Hid0.
  { pose proof (advances_id _ _ Hb1 (proj2 (proj1 Hsn))).
    assert (id (db_snapshots (db b1)) <= id (db_snapshots (db b2))) by (eapply advances_id; [done|lia]). lia. }
  pose proof (create_spec b i b1 Hsn Hid0 Hcreate) as (-> & Hst1 & Hin1 & Hs1 & Hid1 & Hget1 & Hact1 & Hc1).
  assert (continues b1 b2) as [Hc2 Hwf2 Hrev Hbest Hs2 Hid2 Hget2 Hact2].
  { apply advances_continues; rewrite ?Hst1; try done. by apply Hc1. }
  unfold revert_snapshot. rewrite Hact2, Hact1, lookup_insert_eq by lia.
  rewrite Hst1 in Hrev. cbn [set_active storage]. rewrite Hrev. unfold get_block_by_hash. cbn [set_storage storage].
  destruct (proj2 (wf_head _ Hwf)) as [head Hhead]. rewrite Hhead.
  unfold revert_state. cbn [set_storage set_active db]. pose proof (remove_spec (id (db_snapshots (db b))) _ Hs2 Hid) as Hrem.
  destruct (remove (id (db_snapshots (db b))) (db_snapshots (db b2))) as [r s'].
  destruct Hrem as (-> & _ & _ & Hget'); [apply Hsn|].
  rewrite Hget2, Hget1, decide_True by lia. simpl.
  eexists. split; [done|]. split; [done|]. split; [done|]. split; [|done]. intros j. simpl. rewrite Hget'.
  pose proof (proj1 Hsn) as [Hge _]. rewrite wrap_id by (unfold in_u; lia).
  case_decide as Hj.
  - destruct (get (db_snapshots (db b)) j) as [t|] eqn:Ht; [|done]. apply (proj2 Hsn) in Ht. lia.
  - rewrite Hget2, Hget1, decide_False by lia. done.
Qed.

(** C29: A snapshot can be reverted to: after any run of mined blocks and further
    snapshots, reverting to it answers [true] and gives back the chain, with
    exactly the blocks, numbers and transactions of that moment, the state, and
    the older snapshots. *)
Theorem revert_restores b i b1 b2 :
  plain_config b → chain_wf (storage b) → best_number (storage b) < umax 64 →
  snapshots_wf (db_snapshots (db b)) →
  create_snapshot b = (i, b1) → advances b1 b2 → id (db_snapshots (db b2)) < umax 256 →
  ∃ b3, revert_snapshot tx_hash i b2 = (Ok true, b3) ∧
    storage b3 = storage b ∧ inner (db b3) = inner (db b) ∧
    ∀ j, get (db_snapshots (db b3)) j = get (db_snapshots (db b)) j.
Proof.
  intros Hc Hwf Hmax Hsn Hcreate Hadv Hid.
  destruct (revert_back _ _ _ _ Hc Hwf Hmax Hsn Hcreate Hadv Hid) as (b3 & ? & ? & ? & ? & _). eauto.
Qed.

(** A snapshot that an older revert has made void still moves the chain:
    take a snapshot, mine a block, take another, revert to the first; asking
    for the second is answered with an error, but the best block of the node
    is then the one of the second snapshot, which no longer exists, and the
    next block is mined on top of it. *)
Theorem stale_snapshot_breaks_chain b i b1 o b2 j b3 r4 b4 r5 b5 :
  plain_config b → chain_wf (storage b) → snapshots_wf (db_snapshots (db b)) →
  best_number (storage b) + 1 < umax 64 → id (db_snapshots (db b3)) < umax 256 →
  create_snapshot b = (i, b1) → fresh_block (storage b1) o → mine o b1 = Some b2 →
  create_snapshot b2 = (j, b3) →
  revert_snapshot tx_hash i b3 = (r4, b4) → revert_snapshot tx_hash j b4 = (r5, b5) →
  r4 = Ok true ∧ r5 = Err BlockNotFound ∧
  best_number (storage b5) = best_number (storage b) + 1 ∧ best_hash (storage b5) = new_hash o ∧
  hashes (storage b5) !! best_number (storage b5) = None ∧
  blocks (storage b5) !! best_hash (storage b5) = None.
Proof.
  intros Hc Hwf Hsn Hmax1 Hid Hcr Hfr Hmine Hcr2 Hrev4 Hrev5.
  assert (advances b b2) as Hadv2.
  { eapply advances_mine; [|done..]. eapply advances_snapshot; [apply advances_refl|done]. }
  assert (advances b b3) as Hadv3 by (eapply advances_snapshot; done).
  pose proof (advances_id _ _ Hadv3 (proj2 (proj1 Hsn))) as Hidb.
  destruct (create_spec b i b1 Hsn ltac:(lia) Hcr) as (-> & Hst1 & _ & Hsn1 & Hid1 & _ & _ & Hc1).
  pose proof (mine_snapshots _ _ _ Hmine) as Hm2.
  assert (best_number (storage b) < umax 64) as Hmax by (rewrite <-Hst1; apply Hfr).
  destruct (mine_spec _ _ _ (Hc1 Hc) ltac:(by rewrite Hst1) Hfr Hmine) as (Hc2 & Hst2 & _).
  assert (id (db_snapshots (db b2)) < umax 256) as Hid2.
  { assert (id (db_snapshots (db b2)) <= id (db_snapshots (db b3))); [|lia].
    eapply advances_id; [eapply advances_snapshot; [apply advances_refl|done]|].
    rewrite Hm2. unfold snapshots_wf, in_u in Hsn1. lia. }
  destruct (create_spec b2 j b3 ltac:(by rewrite Hm2) Hid2 Hcr2) as (-> & Hst3 & _ & _ & _ & _ & Hact3 & _).
  assert (advances b1 b3) as Hadv13.
  { eapply advances_snapshot; [|done]. eapply advances_mine; [apply advances_refl|done..]. }
  destruct (revert_back _ _ _ _ Hc Hwf Hmax Hsn Hcr Hadv13 Hid) as (b4' & Hr & Hst4 & _ & _ & Hact4).
  rewrite Hr in Hrev4. injection Hrev4 as <- <-. split; [done|].
  unfold revert_snapshot in Hrev5. rewrite Hact4, Hact3, Hm2, Hid1 in Hrev5.
  rewrite lookup_delete_ne, lookup_insert_eq in Hrev5 by lia.
  rewrite Hst2, Hst1 in Hrev5. cbn [set_active storage] in Hrev5. rewrite Hst4 in Hrev5.
  assert (revert_storage tx_hash (best_number (storage b) + 1) (new_hash o) (storage b) =
          set_best (best_number (storage b) + 1) (new_hash o) (storage b)) as Hrs.
  { unfold revert_storage, range_inclusive.
    pose proof (wf_number _ Hwf). rewrite wrap_id by (unfold in_u; lia).
    replace (best_number (storage b) - (best_number (storage b) + 1 + 1) + 1) with (-1) by lia. done. }
  change (best_number (store o (best_number (storage b) + 1) None true (storage b)))
    with (best_number (storage b) + 1) in Hrev5.
  change (best_hash (store o (best_number (storage b) + 1) None true (storage b)))
    with (new_hash o) in Hrev5.
  rewrite Hrs in Hrev5. unfold get_block_by_hash in Hrev5. cbn [set_storage storage set_best blocks] in Hrev5.
  rewrite Hst1 in Hfr. rewrite (fr_block _ _ Hfr) in Hrev5. injection Hrev5 as <- <-. simpl.
  split; [done|]. split; [done|]. split; [done|]. split; [|apply Hfr].
  destruct (hashes (storage b) !! (best_number (storage b) + 1)) eqn:Hx; [|done].
  apply (wf_below _ Hwf) in Hx. lia.
Qed.

(** ** Past states

    A run that only mines; the list records the hash and the database of the
    best block at every step. *)
Inductive mined (b0 : Node) : list (B256 * MemDb Inner) → Node → Prop :=
| mined_none : mined b0 [] b0
| mined_block hist b o b' :
    mined b0 hist b → fresh_block (storage b) o → mine o b = Some b' →
    mined b0 (hist ++ [(best_hash (storage b), current_state (db b))]) b'.

Record fresh_node (mem max_disk : Z) b : Prop := {
  fn_config : plain_config b;
  fn_wf : chain_wf (storage b);
  fn_history : is_state_history_supported (prune_state_history_config b) = true;
  fn_states : ∃ cache, block_states b = new mem max_disk cache;
}.

(** Where a mined chain stands. *)
Record mined_inv (b0 : Node) (mem max_disk : Z) (hist : list (B256 * MemDb Inner)) b : Prop := {
  mi_config : plain_config b ∧ is_state_history_supported (prune_state_history_config b) = true;
  mi_wf : chain_wf (storage b);
  mi_number : best_number (storage b) = best_number (storage b0) + len hist;
  mi_chain : ∀ k h d, hist !! k = Some (h, d) →
    hashes (storage b) !! (best_number (storage b0) + Z.of_nat k) = Some h ∧ is_Some (blocks (storage b) !! h);
  mi_history : history hist (block_states b);
  mi_sized : sized mem max_disk (len hist) (block_states b);
}.

Lemma mined_best_new b0 mem max_disk hist b :
  mined_inv b0 mem max_disk hist b → best_hash (storage b) ∉ hist.*1.
Proof.
  intros [_ Hwf Hn Hch _ _] ([h d] & Hb & [k Hk]%list_elem_of_lookup)%list_elem_of_fmap.
  simpl in Hb.
  destruct (Hch _ _ _ Hk) as [Hh _]. rewrite <-Hb in Hh. pose proof (wf_one _ Hwf _ _ _ (proj1 (wf_head _ Hwf)) Hh) as Heq.
  apply lookup_lt_Some in Hk. unfold len in Hn. simpl in *. lia.
Qed.

Lemma mined_step b0 mem max_disk hist b o b' :
  reliable (FS := FS) (Path := Path) → 0 < mem → in_u 64 mem → 0 <= max_disk →
  mined_inv b0 mem max_disk hist b → snapshot_ok (current_state (db b)) →
  fresh_block (storage b) o → mine o b = Some b' →
  mined_inv b0 mem max_disk (hist ++ [(best_hash (storage b), current_state (db b))]) b'.
Proof.
  intros Hrel Hmem Hmemu Hdisk Hinv Hok Hfr Hmine.
  pose proof (mined_best_new _ _ _ _ _ Hinv) as Hnew.
  destruct Hinv as [[Hc Hsup] Hwf Hn Hch Hh Hsz].
  destruct (mine_spec _ _ _ Hc Hwf Hfr Hmine) as (Hc' & Hst & _ & _ & _ & Hprune & Hins).
  rewrite Hsup in Hins.
  destruct (sized_insert _ _ _ _ _ _ _ Hrel Hmem Hmemu Hdisk (len_nonneg _) Hh Hsz Hnew Hok)
    as (st & Hst' & Hh' & Hsz').
  rewrite Hins in Hst'. injection Hst' as <-.
  split; rewrite ?Hst.
  - by rewrite Hprune.
  - by apply store_wf.
  - rewrite len_app. change (best_number (storage b) + 1 = best_number (storage b0) + (len hist + 1)). lia.
  - intros k h d Hk.
    assert (best_number (storage b0) + Z.of_nat k <= best_number (storage b) ∧
            hashes (storage b) !! (best_number (storage b0) + Z.of_nat k) = Some h ∧
            is_Some (blocks (storage b) !! h)) as (Hle & Hhk & Hbk).
    { apply lookup_app_Some in Hk as [Hk|[Hge Hk]].
      - pose proof (lookup_lt_Some _ _ _ Hk). split; [unfold len in Hn; lia|]. by eapply Hch.
      - apply list_lookup_singleton_Some in Hk as [Hk [= <- <-]].
        replace (best_number (storage b0) + Z.of_nat k) with (best_number (storage b))
          by (unfold len in Hn; lia).
        split; [lia|]. apply Hwf. }
    unfold store_block. simpl. split; [by rewrite lookup_insert_ne by lia|].
    rewrite lookup_insert_ne; [done|]. intros <-.
    pose proof (fr_block _ _ Hfr) as Hf. unfold new_hash in Hf. rewrite Hf in Hbk. by destruct Hbk.
  - done.
  - by rewrite len_app.
Qed.

Lemma mined_invariant b0 mem max_disk hist b :
  reliable (FS := FS) (Path := Path) → 0 < mem → in_u 64 mem → 0 <= max_disk →
  fresh_node mem max_disk b0 → mined b0 hist b → Forall (λ x, snapshot_ok x.2) hist →
  mined_inv b0 mem max_disk hist b.
Proof.
  intros Hrel Hmem Hmemu Hdisk Hnode. induction 1 as [|hist b o b' Hm IH Hfr Hmine]; intros Hok.
  - destruct Hnode as [Hc Hwf Hsup [cache Hst]]. split; rewrite ?Hst; try done.
    + change (len (@nil (B256 * MemDb Inner))) with 0. lia.
    + apply history_new.
    + unfold sized, kept_on_disk, kept_in_memory, kept_limit. 
      change (len (@nil (B256 * MemDb Inner))) with 0. simpl. change (len (@nil B256)) with 0.
      unfold MIN_HISTORY_LIMIT. destruct (max_disk =? 0); split_and!; lia.
  - apply Forall_app in Hok as [Hok [Hokb _]%Forall_cons]. by eapply mined_step; eauto.
Qed.

(** C28: The node answers queries about the past: after any number of blocks,
    the database at a block that the history still holds, in memory or on disk,
    is the one the node had when that block was the newest; an older block is
    answered with [BlockOutOfRange], the newest with the current database; and
    mining never gets stuck. *)
Theorem past_states (mem max_disk : Z) b0 hist b k h d :
  reliable (FS := FS) (Path := Path) → 0 < mem → in_u 64 mem → 0 <= max_disk →
  fresh_node mem max_disk b0 → mined b0 hist b →
  Forall (λ x, snapshot_ok x.2) hist → snapshot_ok (current_state (db b)) →
  hist !! k = Some (h, d) →
  let n := len hist in
  let first := n - kept_in_memory mem max_disk n - kept_on_disk mem max_disk n in
  let asked := best_number (storage b0) + Z.of_nat k in
  (first <= Z.of_nat k → ∃ d', (database_at (Some (Number asked)) b).1 = Ok d' ∧ d' ≡ d) ∧
  (Z.of_nat k < first →
     (database_at (Some (Number asked)) b).1 = Err (BlockOutOfRange (best_number (storage b)) asked)) ∧
  (database_at (Some Latest) b).1 = Ok (db b) ∧
  ∀ o, is_Some (mine o b).
Proof.
  intros Hrel Hmem Hmemu Hdisk Hnode Hm Hok Hokb Hk n first asked.
  pose proof (mined_invariant _ _ _ _ _ Hrel Hmem Hmemu Hdisk Hnode Hm Hok) as Hinv.
  pose proof (mined_best_new _ _ _ _ _ Hinv) as Hnew.
  destruct Hinv as [[Hc Hsup] Hwf Hn Hch Hh Hsz].
  destruct (Hch _ _ _ Hk) as [Hhk [blk Hbk]]. fold asked in Hhk.
  pose proof (lookup_lt_Some _ _ _ Hk) as Hlt.
  assert (asked < best_number (storage b)) as Hasked by (unfold len in Hn; lia).
  assert ((database_at (Some (Number asked)) b).1 =
    match get_state h (block_states b) with
    | Some d => Ok d
    | None => match (get_on_disk_state h (block_states b)).1 with
              | Some d => Ok d
              | None => Err (BlockOutOfRange (best_number (storage b)) asked)
              end
    end) as Hdb.
  { unfold database_at, convert_block_number, get_block_with_hash, get_block_by_hash, hash_with. simpl.
    destruct (Z.ltb_spec (best_number (storage b)) asked); [lia|].
    destruct (Z.ltb_spec asked (best_number (storage b))); [|lia].
    rewrite Hhk. simpl. rewrite Hbk. simpl. destruct (get_state h (block_states b)); [done|].
    by destruct (get_on_disk_state h (block_states b)). }
  pose proof (history_at _ _ _ _ _ _ _ Hh Hsz Hk) as (Hmem' & Hdisk' & Hgone).
  fold n in Hmem', Hdisk', Hgone. rewrite Hdb. split; [|split; [|split]].
  - intros Hge. unfold first in Hge.
    destruct (Z.le_gt_cases (n - kept_in_memory mem max_disk n) (Z.of_nat k)) as [Hm'|Hm'].
    + destruct (Hmem' Hm') as (d' & -> & ?). by exists d'.
    + destruct Hdisk' as (-> & d' & -> & ?); [lia|]. by exists d'.
  - intros Hlt'. unfold first in Hlt'. by destruct (Hgone Hlt') as [-> ->].
  - unfold database_at, convert_block_number. simpl.
    destruct (Z.ltb_spec (best_number (storage b)) (best_number (storage b))); [lia|done].
  - intros o. unfold mine_block. rewrite Hsup.
    destruct (sized_insert _ _ _ _ _ _ _ Hrel Hmem Hmemu Hdisk (len_nonneg _) Hh Hsz Hnew Hokb)
      as (st & -> & _). simpl. eauto.
Qed.
End chain_spec.

(** ** A small node *)
Module ChainExample.
Import StatesExample.
#[local] Existing Instance writable_all.
#[local] Existing Instance order.
#[local] Instance lawful_files : LawfulFileSystem FS Z := files_lawful _.
#[local] Instance lawful_db : LawfulDatabase Db := cache_lawful.

Definition hash_slow (h : Z) : B256 := 1000 + h.
Definition same (x : Z) : Z := x.
Abbreviation mine :=
  (mine_block (Receipt := unit) hash_slow same same same same cache_insert_block_hash).
Abbreviation Node := (@Backend Z Z Z unit FS Z Db).

Definition block (n : Z) (txs : list Z) : @Block Z Z := {| header := n; transactions_of := txs |}.
Definition outcome (n : Z) : @Executed Z Z Z unit Db :=
  {| e_db := state n; e_block := block n [10 + n]; e_transactions := [(10 + n, tt)] |}.
Definition node0 : Node :=
  {| storage := storage_new hash_slow (block 0 []) 0; db := MemDb_new (state 0);
     block_states := new 1 3 cache; active_state_snapshots := ∅;
     prune_state_history_config := from_args None; transaction_block_keeper := None;
     slots_in_an_epoch := 32; is_eip3675 := true |}.
Definition next (n : Z) (b : Node) : Node := default b (mine (outcome n) b).
Definition node1 : Node := next 1 node0.
Definition node2 : Node := next 2 node1.
Definition node3 : Node := next 3 node2.
Definition node4 : Node := next 4 node3.

Lemma values_ne {A} `{EqDecision A} (m : gmap Z A) x :
  map_Forall (λ _ h, h ≠ x) m → ∀ n, m !! n ≠ Some x.
Proof. intros Hm n Hn. by apply (Hm n x Hn). Qed.

(** One block per number, by computation. *)
Lemma one_number_map (s : @BlockchainStorage Z Z Z unit) :
  map_Forall (λ i h, map_Forall (λ j h', h' = h → i = j) (hashes s)) (hashes s) → one_number s.
Proof. intros Hm i j h Hi Hj. by apply (Hm i h Hi j h Hj). Qed.

Ltac by_compute := apply (bool_decide_unpack _); vm_compute; exact I.
Ltac solve_fresh := split;
  [ vm_compute; reflexivity
  | vm_compute; reflexivity
  | apply values_ne; by_compute
  | intros tx Htx; apply list_elem_of_singleton in Htx as ->; vm_compute; reflexivity
  | intros x Hx; apply list_elem_of_singleton in Hx as ->; eexists; (split; [left|reflexivity]) ].

Lemma node0_wf : chain_wf (storage node0).
Proof.
  split; [apply one_number_map; by_compute| |split; [reflexivity|eexists; reflexivity]|done].
  intros n h Hn. change (hashes (storage node0)) with ({[0 := 1000]} : gmap Z Z) in Hn.
  by apply lookup_singleton_Some in Hn as [<- _].
Qed.

Lemma node0_snapshots : snapshots_wf (db_snapshots (db node0)).
Proof. split; [split; discriminate|]. by intros j t Hj. Qed.

Lemma revert_is_unwind_witness :
  one_number (storage node2) ∧
  (blocks_count (storage node2), blocks_count (unwind_to same 1 1001 (storage node2)).1) = (3%nat, 2%nat) ∧
  revert_storage same 1 1001 (storage node2) = (unwind_to same 1 1001 (storage node2)).1.
Proof.
  assert (one_number (storage node2)) as H1 by (apply one_number_map; by_compute).
  split; [exact H1|]. split; [vm_compute; reflexivity|].
  exact (revert_is_unwind same (storage node2) 1 1001 H1).
Defined.

(** Two blocks after the snapshot. *)
Definition snapped : Node := (create_snapshot node0).2.
Definition snapped1 : Node := next 1 snapped.
Definition snapped2 : Node := next 2 snapped1.
Definition resnapped : Node := (create_snapshot snapped1).2.

Lemma snapped_fresh : fresh_block hash_slow same same (storage snapped) (outcome 1).
Proof. solve_fresh. Qed.
Lemma snapped1_fresh : fresh_block hash_slow same same (storage snapped1) (outcome 2).
Proof. solve_fresh. Qed.

Lemma revert_restores_witness :
  ∃ b3, revert_snapshot same 0 snapped2 = (Ok true, b3) ∧
    storage b3 = storage node0 ∧ inner (db b3) = inner (db node0) ∧
    ∀ j, get (db_snapshots (db b3)) j = get (db_snapshots (db node0)) j.
Proof.
  assert (mine (outcome 1) snapped = Some snapped1) as M1 by (vm_compute; reflexivity).
  assert (mine (outcome 2) snapped1 = Some snapped2) as M2 by (vm_compute; reflexivity).
  assert (create_snapshot node0 = (0, snapped)) as C1 by (vm_compute; reflexivity).
  assert (advances hash_slow same same same same cache_insert_block_hash snapped snapped2) as Hadv.
  { eapply advances_mine; [|exact snapped1_fresh|exact M2].
    eapply advances_mine; [apply advances_refl|exact snapped_fresh|exact M1]. }
  assert (best_number (storage node0) < umax 64) as H1 by done.
  assert (id (db_snapshots (db snapped2)) < umax 256) as H2 by (vm_compute; reflexivity).
  exact (revert_restores hash_slow same same same same cache_insert_block_hash node0 0 snapped snapped2
           (conj eq_refl eq_refl) node0_wf H1 node0_snapshots C1 Hadv H2).
Defined.

Definition reverted : Node := (revert_snapshot same 0 resnapped).2.
Definition broken : Node := (revert_snapshot same 1 reverted).2.
Lemma stale_snapshot_breaks_chain_witness :
  Ok true = Ok (E := BlockchainError) true ∧ Err (A := bool) BlockNotFound = Err BlockNotFound ∧
  best_number (storage broken) = best_number (storage node0) + 1 ∧
  best_hash (storage broken) = new_hash hash_slow (outcome 1) ∧
  hashes (storage broken) !! best_number (storage broken) = None ∧
  blocks (storage broken) !! best_hash (storage broken) = None.
Proof.
  assert (mine (outcome 1) snapped = Some snapped1) as M1 by (vm_compute; reflexivity).
  assert (create_snapshot node0 = (0, snapped)) as C1 by (vm_compute; reflexivity).
  assert (create_snapshot snapped1 = (1, resnapped)) as C2 by (vm_compute; reflexivity).
  assert (revert_snapshot same 0 resnapped = (Ok true, reverted)) as R1 by (vm_compute; reflexivity).
  assert (revert_snapshot same 1 reverted = (Err BlockNotFound, broken)) as R2 by (vm_compute; reflexivity).
  assert (best_number (storage node0) + 1 < umax 64) as H1 by done.
  assert (id (db_snapshots (db resnapped)) < umax 256) as H2 by (vm_compute; reflexivity).
  exact (stale_snapshot_breaks_chain hash_slow same same same same cache_insert_block_hash
           node0 0 snapped (outcome 1) snapped1 1 resnapped _ reverted _ broken
           (conj eq_refl eq_refl) node0_wf node0_snapshots H1 H2 C1 snapped_fresh M1 C2 R1 R2).
Defined.

(** Four blocks: the newest past state is in memory, two are on disk, the
    first is gone. *)
Definition hist1 : list (B256 * MemDb Db) := [] ++ [(best_hash (storage node0), current_state (db node0))].
Definition hist2 : list (B256 * MemDb Db) := hist1 ++ [(best_hash (storage node1), current_state (db node1))].
Definition hist3 : list (B256 * MemDb Db) := hist2 ++ [(best_hash (storage node2), current_state (db node2))].
Definition recorded : list (B256 * MemDb Db) := hist3 ++ [(best_hash (storage node3), current_state (db node3))].
Definition balance_at (n : Z) : option Z :=
  match (database_at (Some (Number n)) node4).1 with
  | Ok d => acc ← accounts (inner d) !! 1; Some (balance (info acc))
  | Err _ => None
  end.

Lemma mem_ok (d : MemDb Db) : code_indexed (inner d) → snapshot_ok d.
Proof. exact (λ H, H). Qed.

Lemma past_states_witness :
  balance_at <$> [0; 1; 2; 3; 4] = [None; Some 1; Some 2; Some 3; Some 4] ∧
  let first := 4 - kept_in_memory 1 3 4 - kept_on_disk 1 3 4 in
  let asked := best_number (storage node0) + Z.of_nat 2 in
  (first <= Z.of_nat 2 → ∃ d', (database_at (Some (Number asked)) node4).1 = Ok d' ∧
     d' ≡ current_state (db node2)) ∧
  (Z.of_nat 2 < first →
     (database_at (Some (Number asked)) node4).1 = Err (BlockOutOfRange (best_number (storage node4)) asked)) ∧
  (database_at (Some Latest) node4).1 = Ok (db node4) ∧
  ∀ o, is_Some (mine o node4).
Proof.
  split; [vm_compute; reflexivity|].
  assert (@reliable FS Z writable_all) as Hrel.
  { intros h s [tp td fs]. unfold write, with_cache_file, open_dir. simpl. by destruct td, tp. }
  assert (mine (outcome 1) node0 = Some node1) as M1 by (vm_compute; reflexivity).
  assert (mine (outcome 2) node1 = Some node2) as M2 by (vm_compute; reflexivity).
  assert (mine (outcome 3) node2 = Some node3) as M3 by (vm_compute; reflexivity).
  assert (mine (outcome 4) node3 = Some node4) as M4 by (vm_compute; reflexivity).
  assert (mined hash_slow same same same same cache_insert_block_hash node0 recorded node4) as Hm.
  { pose proof (mined_none hash_slow same same same same cache_insert_block_hash node0) as H0.
    assert (fresh_block hash_slow same same (storage node0) (outcome 1)) as F1 by solve_fresh.
    assert (fresh_block hash_slow same same (storage node1) (outcome 2)) as F2 by solve_fresh.
    assert (fresh_block hash_slow same same (storage node2) (outcome 3)) as F3 by solve_fresh.
    assert (fresh_block hash_slow same same (storage node3) (outcome 4)) as F4 by solve_fresh.
    pose proof (mined_block hash_slow same same same same cache_insert_block_hash node0 []
                  node0 (outcome 1) node1 H0 F1 M1) as H1.
    pose proof (mined_block hash_slow same same same same cache_insert_block_hash node0 hist1
                  node1 (outcome 2) node2 H1 F2 M2) as H2.
    pose proof (mined_block hash_slow same same same same cache_insert_block_hash node0 hist2
                  node2 (outcome 3) node3 H2 F3 M3) as H3.
    pose proof (mined_block hash_slow same same same same cache_insert_block_hash node0 hist3
                  node3 (outcome 4) node4 H3 F4 M4) as H4.
    exact H4. }
  assert (fresh_node 1 3 node0) as Hn.
  { split; [exact (conj eq_refl eq_refl)|exact node0_wf|vm_compute; reflexivity|exists cache; exact eq_refl]. }
  assert (∀ (b : Node) n, inner (db b) = cache_insert_block_hash n (hash_slow n) (state n) →
    snapshot_ok (current_state (db b))) as Hok.
  { intros b n Hb. apply mem_ok. unfold current_state. simpl. rewrite Hb. exact (state_ok n). }
  assert (snapshot_ok (current_state (db node4))) as H4 by (apply (Hok _ 4); vm_compute; reflexivity).
  assert (Forall (λ x, snapshot_ok x.2) recorded) as Hall.
  { repeat constructor; [apply mem_ok; exact (state_ok 0)|apply (Hok _ 1)|apply (Hok _ 2)|apply (Hok _ 3)];
      vm_compute; reflexivity. }
  assert (0 < 1) as H1 by done. assert (in_u 64 1) as H2 by (split; discriminate).
  assert (0 <= 3) as H3 by done.
  exact (past_states hash_slow same same same same cache_insert_block_hash 1 3 node0 recorded node4 2 (best_hash (storage node2))
           (current_state (db node2)) Hrel H1 H2 H3 Hn Hm Hall H4 eq_refl).
Defined.
End ChainExample.
