(* ===== verification/Validation.v ===== *)
(** * Validation of transactions

    Models what anvil checks of a transaction before it enters the pool and
    again before it is executed: [validate_pool_transaction_for] and
    [validate_for] of [anvil/src/eth/backend/mem/mod.rs], over the cheats of
    [anvil/src/eth/backend/cheats.rs].

    The hardforks of revm are numbers of the class [Hardforks]; the check of
    blobs against their proofs is the cryptography of a library, a field of the
    validator. *)
From S2P Require Import Prelude.
From S2P Require Import StateDb.
From S2P Require Import MultiFork.
From S2P Require Import PoolTx.
Local Open Scope Z_scope.

Class Hardforks := {
  SPURIOUS_DRAGON : Z; LONDON : Z; SHANGHAI : Z; CANCUN : Z; PRAGUE : Z; OSAKA : Z;
  (** EIP-3860, and the cap of EIP-7825 where none is configured. *)
  MAX_INITCODE_SIZE : Z;
  default_tx_gas_limit_cap : Z → Z;
}.

(** [CfgEnv], [EvmEnv]: the fields that are read. *)
Record CfgEnv := mkCfgEnv {
  cfg_chain_id : Z;
  spec : Z;
  disable_block_gas_limit : bool;
  disable_base_fee : bool;
  tx_gas_limit_cap : option Z;
  limit_contract_code_size : option Z;
}.
Record EvmEnv := mkEvmEnv { cfg_env : CfgEnv; block_env : BlockEnv }.
Definition blob_excess_gas (b : BlockEnv) : option Z := fst <$> blob_excess_gas_and_price b.

Record BlobParams := mkBlobParams { max_blob_count : Z; max_blob_gas_per_block : Z }.

Inductive InvalidTransactionError :=
| IncompatibleEIP155
| InvalidChainId
| NonceTooLow
| NonceTooHigh
| NoBlobHashes
| TooManyBlobs (blobs max : Z)
| BlobTransactionValidationError (e : string)
| MaxInitCodeSizeExceeded
| GasTooLow
| GasTooHigh (detail : string)
| FeeCapTooLow
| TipAboveFeeCap
| BlobFeeCapTooLow (max_fee price : Z)
| InsufficientFunds
(** What revm finds, converted. *)
| FoundByEvm (code : Z).

(** ** Cheats *)
Module Cheats.
Record CheatsManager := mkCheats {
  impersonated_accounts : gset Address;
  auto_impersonate_accounts : bool;
  signature_overrides : gmap (list Z) Address;
}.
Definition CheatsManager_default : CheatsManager := mkCheats ∅ false ∅.

(** [true] when the account is impersonated already. *)
Definition impersonate (a : Address) (c : CheatsManager) : bool * CheatsManager :=
  (negb (bool_decide (a ∉ impersonated_accounts c)),
   mkCheats ({[a]} ∪ impersonated_accounts c) (auto_impersonate_accounts c) (signature_overrides c)).
Definition stop_impersonating (a : Address) (c : CheatsManager) : CheatsManager :=
  mkCheats (impersonated_accounts c ∖ {[a]}) (auto_impersonate_accounts c) (signature_overrides c).
Definition is_impersonated (a : Address) (c : CheatsManager) : bool :=
  if auto_impersonate_accounts c then true else bool_decide (a ∈ impersonated_accounts c).
Definition set_auto_impersonate_account (enabled : bool) (c : CheatsManager) : CheatsManager :=
  mkCheats (impersonated_accounts c) enabled (signature_overrides c).
Definition add_recover_override (sig : list Z) (a : Address) (c : CheatsManager) : CheatsManager :=
  mkCheats (impersonated_accounts c) (auto_impersonate_accounts c) (<[sig := a]> (signature_overrides c)).
Definition get_recover_override (sig : list Z) (c : CheatsManager) : option Address := signature_overrides c !! sig.
Definition has_recover_overrides (c : CheatsManager) : bool := negb (bool_decide (signature_overrides c = ∅)).
End Cheats.

(** ** The validator *)
Record Validator := mkValidator {
  chain_id : Z;
  blob_params : BlobParams;
  cheats : Cheats.CheatsManager;
  disable_pool_balance_checks : bool;
  (** [blob_tx.validate] against the trusted setup. *)
  validate_blobs : PendingTransaction → option string;
}.

Definition skip_blob_validation (impersonator : option Address) (v : Validator) : bool :=
  Cheats.auto_impersonate_accounts (cheats v) ||
  match impersonator with
  | Some a => bool_decide (a ∈ Cheats.impersonated_accounts (cheats v))
  | None => false
  end.

Definition MIN_TRANSACTION_GAS : Z := 21000.

Section validate.
Context {Hf : Hardforks}.

(** revm's [Cfg::tx_gas_limit_cap]. *)
Definition gas_limit_cap (c : CfgEnv) : Z :=
  match tx_gas_limit_cap c with Some cap => cap | None => default_tx_gas_limit_cap (spec c) end.

Definition is_legacy (tx : FoundryTxEnvelope) : bool := match env_variant tx with Legacy => true | _ => false end.
Definition is_deposit (tx : FoundryTxEnvelope) : bool := match env_variant tx with Deposit => true | _ => false end.
Definition is_eip4844 (tx : FoundryTxEnvelope) : bool := match env_variant tx with Eip4844 => true | _ => false end.

Notation check bad e := (if bad : bool then Err e else Ok tt) (only parsing).
Notation "c ;; k" := (c ≫= λ _ : unit, k) (at level 100, right associativity, only parsing).

Definition check_chain_id (v : Validator) (env : EvmEnv) (tx : FoundryTxEnvelope) : result InvalidTransactionError unit :=
  match env_chain_id tx with
  | Some tx_chain_id =>
      if chain_id v =? tx_chain_id then Ok tt
      else if is_legacy tx then
        check ((SPURIOUS_DRAGON <=? spec (cfg_env env)) && negb (match env_chain_id tx with Some _ => true | None => false end))
              IncompatibleEIP155
      else Err InvalidChainId
  | None => Ok tt
  end.

Definition check_blobs (v : Validator) (env : EvmEnv) (p : PendingTransaction) : result InvalidTransactionError unit :=
  let tx := pt_transaction p in
  if (CANCUN <=? spec (cfg_env env)) && is_eip4844 tx then
    check (env_blob_count tx =? 0) NoBlobHashes ;;
    check (max_blob_count (blob_params v) <? env_blob_count tx)
          (TooManyBlobs (env_blob_count tx) (max_blob_count (blob_params v))) ;;
    match (if skip_blob_validation (Some (pt_sender p)) v then None else validate_blobs v p) with
    | Some e => Err (BlobTransactionValidationError e)
    | None => Ok tt
    end
  else Ok tt.

Definition check_initcode (env : EvmEnv) (tx : FoundryTxEnvelope) : result InvalidTransactionError unit :=
  if (SHANGHAI <=? spec (cfg_env env)) && match env_to tx with None => true | Some _ => false end then
    let max_initcode_size :=
      match limit_contract_code_size (cfg_env env) with
      | Some limit => Z.min (umax 64) (limit * 2)
      | None => MAX_INITCODE_SIZE
      end in
    check (max_initcode_size <? env_input_len tx) MaxInitCodeSizeExceeded
  else Ok tt.

Definition check_gas_limit (env : EvmEnv) (tx : FoundryTxEnvelope) : result InvalidTransactionError unit :=
  check (env_gas_limit tx <? MIN_TRANSACTION_GAS) GasTooLow ;;
  check (negb (disable_block_gas_limit (cfg_env env)) && (gas_limit (block_env env) <? env_gas_limit tx))
        (GasTooHigh "tx.gas_limit > env.block.gas_limit") ;;
  check (match tx_gas_limit_cap (cfg_env env) with None => true | Some _ => false end
         && (gas_limit_cap (cfg_env env) <? env_gas_limit tx))
        (GasTooHigh "tx.gas_limit > env.cfg.tx_gas_limit_cap").

Definition check_fees (env : EvmEnv) (tx : FoundryTxEnvelope) : result InvalidTransactionError unit :=
  if LONDON <=? spec (cfg_env env) then
    check ((env_max_fee_per_gas tx <? basefee (block_env env)) && negb (is_deposit tx)) FeeCapTooLow ;;
    check (match env_max_priority_fee_per_gas tx with Some tip => env_max_fee_per_gas tx <? tip | None => false end)
          TipAboveFeeCap
  else Ok tt.

Definition check_blob_fee (env : EvmEnv) (tx : FoundryTxEnvelope) : result InvalidTransactionError unit :=
  if (CANCUN <=? spec (cfg_env env)) && is_eip4844 tx then
    match env_max_fee_per_blob_gas tx, blob_excess_gas_and_price (block_env env) with
    | Some fee, Some (_, price) => check (fee <? price) (BlobFeeCapTooLow fee price)
    | _, _ => Ok tt
    end
  else Ok tt.

(** The product of blob gas and fee is the wrapping one of a release build. *)
Definition max_cost (tx : FoundryTxEnvelope) : Z :=
  u_saturating_add 128
    (Z.min (umax 128) (env_gas_limit tx * env_max_fee_per_gas tx))
    (wrap 128 (default 0 (env_blob_gas_used tx) * default 0 (env_max_fee_per_blob_gas tx))).

Definition check_balance (account : AccountInfo) (tx : FoundryTxEnvelope) : result InvalidTransactionError unit :=
  if is_deposit tx then
    check (wrap 256 (balance account + env_mint tx) <? env_value tx) InsufficientFunds
  else
    let req_funds := max_cost tx + Z.min (umax 128) (env_value tx) in
    if umax 128 <? req_funds then Err InsufficientFunds
    else check (balance account <? req_funds) InsufficientFunds.

Definition validate_pool_transaction_for (v : Validator) (p : PendingTransaction) (account : AccountInfo)
    (env : EvmEnv) : result InvalidTransactionError unit :=
  let tx := pt_transaction p in
  check_chain_id v env tx ;;
  check ((env_nonce tx <? nonce account) && negb (is_deposit tx)) NonceTooLow ;;
  check_blobs v env p ;;
  check_initcode env tx ;;
  if disable_pool_balance_checks v then Ok tt
  else
    check_gas_limit env tx ;;
    check_fees env tx ;;
    check_blob_fee env tx ;;
    check_balance account tx.

Definition validate_for (v : Validator) (p : PendingTransaction) (account : AccountInfo) (env : EvmEnv)
    : result InvalidTransactionError unit :=
  validate_pool_transaction_for v p account env ;;
  check (nonce account <? env_nonce (pt_transaction p)) NonceTooHigh.

(** ** What is accepted

    The checks as conditions, with costs that no machine word bounds. *)
Record acceptable (v : Validator) (p : PendingTransaction) (account : AccountInfo) (env : EvmEnv) : Prop := {
  ac_chain_id c : is_legacy (pt_transaction p) = false → env_chain_id (pt_transaction p) = Some c → c = chain_id v;
  ac_nonce : is_deposit (pt_transaction p) = false → nonce account <= env_nonce (pt_transaction p);
  ac_blobs : CANCUN <= spec (cfg_env env) → is_eip4844 (pt_transaction p) = true →
    env_blob_count (pt_transaction p) ≠ 0 ∧ env_blob_count (pt_transaction p) <= max_blob_count (blob_params v) ∧
    (skip_blob_validation (Some (pt_sender p)) v = true ∨ validate_blobs v p = None);
  ac_initcode : SHANGHAI <= spec (cfg_env env) → env_to (pt_transaction p) = None →
    env_input_len (pt_transaction p) <=
      match limit_contract_code_size (cfg_env env) with Some limit => 2 * limit | None => MAX_INITCODE_SIZE end;
  ac_gas : disable_pool_balance_checks v = false →
    MIN_TRANSACTION_GAS <= env_gas_limit (pt_transaction p) ∧
    (disable_block_gas_limit (cfg_env env) = false → env_gas_limit (pt_transaction p) <= gas_limit (block_env env)) ∧
    (tx_gas_limit_cap (cfg_env env) = None →
       env_gas_limit (pt_transaction p) <= default_tx_gas_limit_cap (spec (cfg_env env)));
  ac_fees : disable_pool_balance_checks v = false → LONDON <= spec (cfg_env env) →
    (is_deposit (pt_transaction p) = false → basefee (block_env env) <= env_max_fee_per_gas (pt_transaction p)) ∧
    ∀ tip, env_max_priority_fee_per_gas (pt_transaction p) = Some tip → tip <= env_max_fee_per_gas (pt_transaction p);
  ac_blob_fee fee gas price : disable_pool_balance_checks v = false → CANCUN <= spec (cfg_env env) →
    is_eip4844 (pt_transaction p) = true → env_max_fee_per_blob_gas (pt_transaction p) = Some fee →
    blob_excess_gas_and_price (block_env env) = Some (gas, price) → price <= fee;
  ac_funds : disable_pool_balance_checks v = false →
    if is_deposit (pt_transaction p) then env_value (pt_transaction p) <= balance account + env_mint (pt_transaction p)
    else env_gas_limit (pt_transaction p) * env_max_fee_per_gas (pt_transaction p) +
         default 0 (env_blob_gas_used (pt_transaction p)) * default 0 (env_max_fee_per_blob_gas (pt_transaction p)) +
         env_value (pt_transaction p) <= balance account;
}.

(** The values fit their words, and neither a balance nor a fee for blobs comes
    near the end of 128 bits. *)
Record in_range (p : PendingTransaction) (account : AccountInfo) : Prop := {
  ir_gas : 0 <= env_gas_limit (pt_transaction p);
  ir_fee : 0 <= env_max_fee_per_gas (pt_transaction p);
  ir_value : 0 <= env_value (pt_transaction p);
  ir_input : in_u 64 (env_input_len (pt_transaction p));
  ir_blob : in_u 128 (default 0 (env_blob_gas_used (pt_transaction p)) * default 0 (env_max_fee_per_blob_gas (pt_transaction p)));
  ir_balance : 0 <= balance account < umax 128;
  ir_mint : in_u 128 (env_mint (pt_transaction p));
}.

Lemma ok_bind {E} (r : result E unit) (k : unit → result E unit) : (r ≫= k = Ok tt) ↔ r = Ok tt ∧ k tt = Ok tt.
Proof. destruct r as [[]|e]; cbn; [tauto|]. split; [done|by intros []]. Qed.
Lemma ok_check {E} (bad : bool) (e : E) : (if bad then Err e else Ok tt) = Ok tt ↔ bad = false.
Proof. by destruct bad. Qed.
Lemma ok_unit {E} (u : unit) : Ok (E := E) u = Ok tt ↔ True.
Proof. by destruct u. Qed.

Hint Rewrite @ok_bind @ok_check andb_false_iff orb_false_iff negb_false_iff Z.ltb_ge Z.eqb_neq Z.leb_gt : checks.
Ltac checks := autorewrite with checks.

Lemma check_chain_id_ok v env tx :
  check_chain_id v env tx = Ok tt ↔ ∀ c, is_legacy tx = false → env_chain_id tx = Some c → c = chain_id v.
Proof.
  unfold check_chain_id. destruct (env_chain_id tx) as [c|]; [|naive_solver].
  destruct (chain_id v =? c) eqn:Hc; [apply Z.eqb_eq in Hc; naive_solver|]. apply Z.eqb_neq in Hc.
  destruct (is_legacy tx); [|naive_solver]. rewrite andb_false_r. naive_solver.
Qed.
Lemma check_blobs_ok v env p :
  check_blobs v env p = Ok tt ↔
    (CANCUN <= spec (cfg_env env) → is_eip4844 (pt_transaction p) = true →
     env_blob_count (pt_transaction p) ≠ 0 ∧ env_blob_count (pt_transaction p) <= max_blob_count (blob_params v) ∧
     (skip_blob_validation (Some (pt_sender p)) v = true ∨ validate_blobs v p = None)).
Proof.
  unfold check_blobs. destruct (Z.leb_spec CANCUN (spec (cfg_env env))); cbn [andb]; [|split; [lia|done]].
  destruct (is_eip4844 _); [|naive_solver]. checks.
  assert (Hb : match (if skip_blob_validation (Some (pt_sender p)) v then None else validate_blobs v p) with
               | Some e => Err (BlobTransactionValidationError e) | None => Ok tt end = Ok tt ↔
               skip_blob_validation (Some (pt_sender p)) v = true ∨ validate_blobs v p = None).
  { destruct (skip_blob_validation _ _); [by intuition|]. destruct (validate_blobs v p); naive_solver. }
  rewrite Hb. intuition.
Qed.
Lemma check_initcode_ok env tx :
  in_u 64 (env_input_len tx) →
  check_initcode env tx = Ok tt ↔ (SHANGHAI <= spec (cfg_env env) → env_to tx = None →
    env_input_len tx <=
      match limit_contract_code_size (cfg_env env) with Some limit => 2 * limit | None => MAX_INITCODE_SIZE end).
Proof.
  intros Hin. unfold check_initcode, in_u in *. destruct (Z.leb_spec SHANGHAI (spec (cfg_env env))); cbn [andb]; [|split; [lia|done]].
  destruct (env_to tx); [naive_solver|]. checks. destruct (limit_contract_code_size _); split; intros Hl; try intros _ _; try lia.
  - specialize (Hl H eq_refl). lia.
  - by apply Hl.
Qed.
Lemma check_gas_limit_ok env tx :
  check_gas_limit env tx = Ok tt ↔
    MIN_TRANSACTION_GAS <= env_gas_limit tx ∧
    (disable_block_gas_limit (cfg_env env) = false → env_gas_limit tx <= gas_limit (block_env env)) ∧
    (tx_gas_limit_cap (cfg_env env) = None → env_gas_limit tx <= default_tx_gas_limit_cap (spec (cfg_env env))).
Proof.
  unfold check_gas_limit, gas_limit_cap. checks. destruct (disable_block_gas_limit _), (tx_gas_limit_cap _); naive_solver.
Qed.
Lemma check_fees_ok env tx :
  check_fees env tx = Ok tt ↔
    (LONDON <= spec (cfg_env env) →
     (is_deposit tx = false → basefee (block_env env) <= env_max_fee_per_gas tx) ∧
     ∀ tip, env_max_priority_fee_per_gas tx = Some tip → tip <= env_max_fee_per_gas tx).
Proof.
  unfold check_fees. destruct (Z.leb_spec LONDON (spec (cfg_env env))); [|split; [lia|done]]. checks.
  destruct (is_deposit tx), (env_max_priority_fee_per_gas tx); rewrite ?andb_true_r, ?andb_false_r, ?ok_check, ?Z.ltb_ge; naive_solver.
Qed.
Lemma check_blob_fee_ok env tx :
  check_blob_fee env tx = Ok tt ↔
    ∀ fee gas price, CANCUN <= spec (cfg_env env) → is_eip4844 tx = true → env_max_fee_per_blob_gas tx = Some fee →
    blob_excess_gas_and_price (block_env env) = Some (gas, price) → price <= fee.
Proof.
  unfold check_blob_fee. destruct (Z.leb_spec CANCUN (spec (cfg_env env))); cbn [andb]; [|split; [lia|done]].
  destruct (is_eip4844 tx); [|naive_solver]. destruct (env_max_fee_per_blob_gas tx), (blob_excess_gas_and_price _) as [[? price]|];
    rewrite ?ok_check, ?Z.ltb_ge; naive_solver.
Qed.
Lemma check_balance_ok p account :
  in_range p account →
  check_balance account (pt_transaction p) = Ok tt ↔
    if is_deposit (pt_transaction p) then env_value (pt_transaction p) <= balance account + env_mint (pt_transaction p)
    else env_gas_limit (pt_transaction p) * env_max_fee_per_gas (pt_transaction p) +
         default 0 (env_blob_gas_used (pt_transaction p)) * default 0 (env_max_fee_per_blob_gas (pt_transaction p)) +
         env_value (pt_transaction p) <= balance account.
Proof.
  intros [Hg Hfee Hv _ Hb Hbal Hm]. unfold check_balance, max_cost, u_saturating_add. destruct (is_deposit _).
  - checks. rewrite wrap_id; [done|lia|]. unfold in_u, umax in *. lia.
  - rewrite (wrap_id 128) by (done || lia). unfold in_u in *.
    set (g := env_gas_limit _ * _) in *. set (bf := default 0 _ * _) in *.
    assert (0 <= g) by (apply Z.mul_nonneg_nonneg; lia).
    destruct (Z.ltb_spec (umax 128) (Z.min (umax 128) (Z.min (umax 128) g + bf) + Z.min (umax 128) (env_value (pt_transaction p)))).
    + split; [done|lia].
    + checks. lia.
Qed.

(** C20: The validation accepts exactly the transactions it should: whatever the
    hardfork, the kind of transaction and the configuration, [Ok] is returned if
    and only if the chain matches, the nonce is not used, blobs and init code are
    within their limits, and, unless the checks are disabled, the limits on gas,
    the fees and the funds of the sender suffice, its whole cost included. *)
Theorem validate_exact v p account env :
  in_range p account → validate_pool_transaction_for v p account env = Ok tt ↔ acceptable v p account env.
Proof.
  intros Hr. unfold validate_pool_transaction_for. cbn zeta. checks.
  rewrite check_chain_id_ok, check_blobs_ok, check_initcode_ok by apply Hr.
  assert (Hn : (nonce account <= env_nonce (pt_transaction p) ∨ is_deposit (pt_transaction p) = true) ↔
    (is_deposit (pt_transaction p) = false → nonce account <= env_nonce (pt_transaction p))).
  { destruct (is_deposit _); naive_solver. }
  rewrite Hn. destruct (disable_pool_balance_checks v) eqn:Hd.
  - split; [intros (A1 & A2 & A3 & A4 & _); by split; [..|congruence|congruence|congruence|congruence]|].
    intros [A1 A2 A3 A4 _ _ _ _]. by split_and!.
  - checks. rewrite check_gas_limit_ok, check_fees_ok, check_blob_fee_ok, (check_balance_ok p) by done.
    split; [intros (A1 & A2 & A3 & A4 & A5 & A6 & A7 & A8); split; try done; intros; eauto|].
    intros [A1 A2 A3 A4 A5 A6 A7 A8]. specialize (A5 Hd) as (? & ? & ?). specialize (A6 Hd). specialize (A8 Hd). split_and!; eauto.
Qed.
End validate.

(** ** Examples *)
Module ValidationExample.
#[export] Instance hardforks : Hardforks := {|
  SPURIOUS_DRAGON := 5; LONDON := 12; SHANGHAI := 16; CANCUN := 17; PRAGUE := 18; OSAKA := 19;
  MAX_INITCODE_SIZE := 49152; default_tx_gas_limit_cap s := if 19 <=? s then 16777216 else 2 ^ 64 - 1 |}.
Definition env_at (s : Z) : EvmEnv :=
  mkEvmEnv (mkCfgEnv 31337 s false false None None) (mkBlockEnv 1 1000 0 0 None 7 30000000 (Some (0, 1))).
Definition the_validator : Validator := mkValidator 31337 (mkBlobParams 6 786432) Cheats.CheatsManager_default false (λ _, None).
Definition pending_of (tx : FoundryTxEnvelope) : PendingTransaction := {| pt_transaction := tx; pt_sender := 9; pt_hash := 1 |}.
Definition funded (n b : Z) : AccountInfo :=
  {| balance := b; nonce := n; code_hash := 0; account_id := None; code := None |}.
Definition paying (v : Z) : FoundryTxEnvelope := mkEnvelope Eip1559 2 3 21000 10 (Some 1) (Some 31337) (Some 7) v 0 0 None None 0.
(** 210000 for the gas and the value. *)
Lemma validate_exact_witness :
  validate_pool_transaction_for the_validator (pending_of (paying 5)) (funded 3 210005) (env_at 17) = Ok tt ∧
  (validate_pool_transaction_for the_validator (pending_of (paying 6)) (funded 3 210005) (env_at 17) = Ok tt ↔
   acceptable the_validator (pending_of (paying 6)) (funded 3 210005) (env_at 17)) ∧
  validate_pool_transaction_for the_validator (pending_of (paying 6)) (funded 3 210005) (env_at 17) = Err InsufficientFunds.
Proof.
  split; [vm_compute; reflexivity|]. split; [|vm_compute; reflexivity].
  apply (validate_exact the_validator (pending_of (paying 6)) (funded 3 210005) (env_at 17)).
  split; vm_compute; try (split; [discriminate|reflexivity || discriminate]); discriminate.
Defined.
Example errors_seen :
  (λ '(n, tx), validate_pool_transaction_for the_validator (pending_of tx) (funded n (10 ^ 18)) (env_at 17)) <$>
    [(4, paying 0); (3, mkEnvelope Eip1559 2 3 20999 10 None (Some 31337) (Some 7) 0 0 0 None None 0);
     (3, mkEnvelope Eip1559 2 3 21000 10 None (Some 1) (Some 7) 0 0 0 None None 0);
     (3, mkEnvelope Eip1559 2 3 21000 6 None None (Some 7) 0 0 0 None None 0);
     (3, mkEnvelope Eip1559 2 3 21000 10 (Some 11) None (Some 7) 0 0 0 None None 0);
     (3, mkEnvelope Eip1559 2 3 30000001 10 None None (Some 7) 0 0 0 None None 0);
     (3, mkEnvelope Eip1559 2 3 21000 10 None None None 0 49153 0 None None 0);
     (3, mkEnvelope Eip4844 3 3 21000 10 None None (Some 7) 0 0 0 (Some 0) (Some 1) 0);
     (3, mkEnvelope Eip4844 3 3 21000 10 None None (Some 7) 0 0 7 (Some 917504) (Some 1) 0);
     (3, mkEnvelope Eip4844 3 3 21000 10 None None (Some 7) 0 0 1 (Some 131072) (Some 0) 0);
     (3, mkEnvelope Eip1559 2 3 21000 (2 ^ 127) None None (Some 7) 0 0 0 None None 0)] =
  [Err NonceTooLow; Err GasTooLow; Err InvalidChainId; Err FeeCapTooLow; Err TipAboveFeeCap;
   Err (GasTooHigh "tx.gas_limit > env.block.gas_limit"); Err MaxInitCodeSizeExceeded; Err NoBlobHashes;
   Err (TooManyBlobs 7 6); Err (BlobFeeCapTooLow 0 1); Err InsufficientFunds].
Proof. vm_compute. reflexivity. Qed.

(** A legacy transaction of another chain is accepted: where its chain differs,
    the code asks again whether it has none. *)
Example foreign_legacy_accepted :
  validate_pool_transaction_for the_validator
    (pending_of (mkEnvelope Legacy 0 3 21000 10 None (Some 1) (Some 7) 0 0 0 None None 0)) (funded 3 210000) (env_at 17) = Ok tt.
Proof. vm_compute. reflexivity. Qed.
(** The cost of blobs wraps: one blob at [2 ^ 111] wei costs [2 ^ 128], and so
    nothing. *)
Example blob_cost_wraps :
  validate_pool_transaction_for the_validator
    (pending_of (mkEnvelope Eip4844 3 3 21000 10 None None (Some 7) 0 0 1 (Some 131072) (Some (2 ^ 111)) 0))
    (funded 3 210000) (env_at 17) = Ok tt.
Proof. vm_compute. reflexivity. Qed.
End ValidationExample.
