(* ===== verification/Executor.v ===== *)
(** * The executor of blocks

    Models [TransactionExecutor] of [anvil/src/eth/backend/executor.rs]: the
    attempt to execute one transaction, with the checks before it, and the block
    that is made of the attempts.  The EVM, the database and the hashes are the
    class [Executes]; the inspector only records, and the authorizations that a
    cheat overrides are part of what the EVM is given. *)
From S2P Require Import Prelude.
From S2P Require Import StateDb.
From S2P Require Import MultiFork.
From S2P Require Import PoolTx.
From S2P Require Import Validation.
Local Open Scope Z_scope.

Record Log := mkLog { log_address : Address; topics : list B256; log_data : list Z }.
Inductive Output := OutputCall (data : list Z) | OutputCreate (data : list Z) (address : option Address).
(** [Output::into_data] *)
Definition into_data (o : Output) : list Z := match o with OutputCall d | OutputCreate d _ => d end.
Inductive OpHaltReason {H : Type} := Base (h : H) | FailedDeposit.
Arguments OpHaltReason : clear implicits.

Record Receipt := mkReceipt {
  receipt_variant : TxVariant;
  status : bool;
  cumulative_gas_used : Z;
  receipt_logs : list Log;
}.

Class Executes := {
  State : Type;
  DbError : Type;
  SuccessReason : Type;
  HaltReason : Type;
  InstructionResult : Type;
  CallTraceNode : Type;
  Bloom : Type;
  (** [is_ok], [From] and constants of revm's [InstructionResult]. *)
  is_ok : InstructionResult → bool;
  success_result : SuccessReason → InstructionResult;
  halt_result : HaltReason → InstructionResult;
  Revert : InstructionResult;
  Stop : InstructionResult;
  empty_bloom : Bloom;
  accrue : list Z → Bloom → Bloom;
  calculate_receipt_root : list Receipt → B256;
  calculate_transaction_root : list FoundryTxEnvelope → B256;
  create_address : Address → Z → Address;
  maybe_state_root : State → option B256;
  basic : Address → State → result DbError (option AccountInfo) * State;
}.

Inductive ExecutionResult `{Executes} :=
| Success (reason : SuccessReason) (gas_used : Z) (logs : list Log) (output : Output)
| Reverted (gas_used : Z) (output : list Z)
| Halt (reason : OpHaltReason HaltReason) (gas_used : Z).
Inductive EVMError `{Executes} :=
| Database (e : DbError)
| Transaction (code : Z)
| OtherError.

(** [transact_commit] with an inspector that traces. *)
Class Evm `{Executes} := {
  transact_commit : EvmEnv → PendingTransaction → State → (result EVMError ExecutionResult * list CallTraceNode) * State;
}.

Section executor.
Context {Hf : Hardforks} {Ex : Executes} {Vm : Evm}.

Definition op_haltreason_to_instruction_result (r : OpHaltReason HaltReason) : InstructionResult :=
  match r with Base h => halt_result h | FailedDeposit => Stop end.

(** ** One transaction *)

Record ExecutedTransaction := mkExecuted {
  transaction : PoolTransaction;
  exit_reason : InstructionResult;
  out : option Output;
  gas_used : Z;
  logs : list Log;
  traces : list CallTraceNode;
  executed_nonce : Z;
}.
Inductive TransactionExecutionOutcome :=
| Executed (t : ExecutedTransaction)
| Invalid (t : PoolTransaction) (e : InvalidTransactionError)
| BlockGasExhausted (t : PoolTransaction)
| BlobGasExhausted (t : PoolTransaction)
| TransactionGasExhausted (t : PoolTransaction)
| FailedDatabase (t : PoolTransaction) (e : DbError).

Record TransactionExecutor := mkExecutor {
  db : State;
  validator : Validator;
  pending : list PoolTransaction;
  evm_env : EvmEnv;
  parent_hash : B256;
  used : Z;
  blob_used : Z;
  block_blob_params : BlobParams;        (* blob_params *)
}.
Definition set_db (d : State) (x : TransactionExecutor) : TransactionExecutor :=
  mkExecutor d (validator x) (pending x) (evm_env x) (parent_hash x) (used x) (blob_used x) (block_blob_params x).
Definition set_pending (l : list PoolTransaction) (x : TransactionExecutor) : TransactionExecutor :=
  mkExecutor (db x) (validator x) l (evm_env x) (parent_hash x) (used x) (blob_used x) (block_blob_params x).
Definition set_used (g b : Z) (x : TransactionExecutor) : TransactionExecutor :=
  mkExecutor (db x) (validator x) (pending x) (evm_env x) (parent_hash x) g b (block_blob_params x).

Definition account_default : AccountInfo :=
  {| balance := 0; nonce := 0; code_hash := 0xc5d2460186f7233c927e7db2dcc703c0e500b653ca82273b7bfad8045d85a470;
     account_id := None; code := Some [] |}.

(** The limits that a transaction must meet before it is validated. *)
Definition exhausted (x : TransactionExecutor) (t : PoolTransaction) : option TransactionExecutionOutcome :=
  let tx := pt_transaction (pending_transaction t) in
  let env := evm_env x in
  if negb (disable_block_gas_limit (cfg_env env))
     && (gas_limit (block_env env) <? u_saturating_add 64 (used x) (env_gas_limit tx))
  then Some (BlockGasExhausted t)
  else if match tx_gas_limit_cap (cfg_env env) with None => true | Some _ => false end
          && (gas_limit_cap (cfg_env env) <? env_gas_limit tx)
  then Some (TransactionGasExhausted t)
  else if max_blob_gas_per_block (block_blob_params x)
          <? u_saturating_add 64 (blob_used x) (default 0 (env_blob_gas_used tx))
  then Some (BlobGasExhausted t)
  else None.

(** What the result of an execution amounts to: the exit, the gas, the output and
    the logs. *)
Definition unpack (r : ExecutionResult) : InstructionResult * Z * option Output * option (list Log) :=
  match r with
  | Success reason gas logs output => (success_result reason, gas, Some output, Some logs)
  | Reverted gas output => (Revert, gas, Some (OutputCall output), None)
  | Halt reason gas => (op_haltreason_to_instruction_result reason, gas, None, None)
  end.

(** The transaction is next and meets the limits; [None] is a panic. *)
Definition execute_one (x : TransactionExecutor) (t : PoolTransaction) (account : AccountInfo)
    : option (TransactionExecutionOutcome * TransactionExecutor) :=
  let p := pending_transaction t in
  match validate_pool_transaction_for (validator x) p account (evm_env x) with
  | Err e => Some (Invalid t e, x)
  | Ok _ =>
      let '((result, traces), d) := transact_commit (evm_env x) p (db x) in
      let x := set_db d x in
      match result with
      | Err (Database e) => Some (FailedDatabase t e, x)
      | Err (Transaction code) => Some (Invalid t (FoundByEvm code), x)
      | Err OtherError => None
      | Ok r =>
          let '(exit, gas, output, l) := unpack r in
          Some (Executed (mkExecuted t exit output gas (default [] l) traces (nonce account)),
                set_used (u_saturating_add 64 (used x) gas)
                  match env_blob_gas_used (pt_transaction p) with
                  | Some blob_gas => u_saturating_add 64 (blob_used x) blob_gas
                  | None => blob_used x
                  end x)
      end
  end.

(** [Iterator::next] *)
Definition next (x : TransactionExecutor) : option (option TransactionExecutionOutcome * TransactionExecutor) :=
  match pending x with
  | [] => Some (None, x)
  | t :: rest =>
      let x := set_pending rest x in
      let '(found, d) := basic (pt_sender (pending_transaction t)) (db x) in
      let x := set_db d x in
      match found with
      | Err e => Some (Some (FailedDatabase t e), x)
      | Ok found =>
          match exhausted x t with
          | Some outcome => Some (Some outcome, x)
          | None => '(outcome, x) ← execute_one x t (default account_default found); Some (Some outcome, x)
          end
      end
  end.

(** ** The block *)

Record TransactionInfo := mkInfo {
  transaction_hash : B256;
  transaction_index : Z;
  from : Address;
  to : option Address;
  contract_address : option Address;
  info_traces : list CallTraceNode;
  exit : InstructionResult;
  info_out : option (list Z);
  info_nonce : Z;
  info_gas_used : Z;
}.

Record Header := mkHeader {
  h_parent_hash : B256;
  h_beneficiary : Address;
  h_state_root : B256;
  h_transactions_root : B256;
  h_receipts_root : B256;
  h_logs_bloom : Bloom;
  h_difficulty : Z;
  h_number : Z;
  h_gas_limit : Z;
  h_gas_used : Z;
  h_timestamp : Z;
  h_mix_hash : Z;
  h_base_fee_per_gas : option Z;
  h_parent_beacon_block_root : option B256;
  h_blob_gas_used : option Z;
  h_excess_blob_gas : option Z;
  h_withdrawals : bool;
  h_requests : bool;
}.
Record BlockInfo := mkBlockInfo {
  header : Header;
  body : list FoundryTxEnvelope;
  infos : list TransactionInfo;
  receipts : list Receipt;
}.
Record ExecutedTransactions := mkExecutedTransactions {
  block : BlockInfo;
  included : list PoolTransaction;
  invalid : list PoolTransaction;
}.

(** A receipt, and the gas of the block so far; [None] is the [todo!] of Tempo
    transactions. *)
Definition create_receipt (t : ExecutedTransaction) (cumulative : Z) : option (Receipt * Z) :=
  let cumulative := u_saturating_add 64 cumulative (gas_used t) in
  match env_variant (pt_transaction (pending_transaction (transaction t))) with
  | Tempo => None
  | v => Some (mkReceipt v (is_ok (exit_reason t)) cumulative (logs t), cumulative)
  end.

(** The bytes of the address and of the topics of every log. *)
Definition log_inputs (l : Log) : list (list Z) := be_bytes 20 (log_address l) :: (be_bytes 32 <$> topics l).
Definition build_logs_bloom (l : list Log) (b : Bloom) : Bloom :=
  foldl (λ b log, foldl (λ b i, accrue i b) b (log_inputs log)) b l.

(** What [execute] has gathered. *)
Record Gathered := mkGathered {
  g_transactions : list FoundryTxEnvelope;
  g_infos : list TransactionInfo;
  g_receipts : list Receipt;
  g_bloom : Bloom;
  g_gas : Z;
  g_blob_gas : option Z;
  g_invalid : list PoolTransaction;
  g_included : list PoolTransaction;
}.
Definition gathered_nothing (is_cancun : bool) : Gathered :=
  mkGathered [] [] [] empty_bloom 0 (if is_cancun then Some 0 else None) [] [].

Definition info_of (t : ExecutedTransaction) (index : nat) : TransactionInfo :=
  let p := pending_transaction (transaction t) in
  mkInfo (pt_hash p) (Z.of_nat index) (pt_sender p) (env_to (pt_transaction p))
    (match env_to (pt_transaction p) with
     | None => Some (create_address (pt_sender p) (executed_nonce t))
     | Some _ => None
     end)
    (traces t) (exit_reason t) (into_data <$> out t) (executed_nonce t) (gas_used t).

Definition gather_executed (is_cancun : bool) (g : Gathered) (t : ExecutedTransaction) : option Gathered :=
  let p := pending_transaction (transaction t) in
  let blob_gas := if is_cancun
                  then Some (u_saturating_add 64 (default 0 (g_blob_gas g)) (default 0 (env_blob_gas_used (pt_transaction p))))
                  else g_blob_gas g in
  '(receipt, gas) ← create_receipt t (g_gas g);
  Some (mkGathered (g_transactions g ++ [pt_transaction p]) (g_infos g ++ [info_of t (length (g_infos g))])
          (g_receipts g ++ [receipt]) (build_logs_bloom (logs t) (g_bloom g)) gas blob_gas
          (g_invalid g) (g_included g ++ [transaction t])).
Definition gather (is_cancun : bool) (g : Gathered) (o : TransactionExecutionOutcome) : option Gathered :=
  match o with
  | Executed t => gather_executed is_cancun g t
  | Invalid t _ =>
      Some (mkGathered (g_transactions g) (g_infos g) (g_receipts g) (g_bloom g) (g_gas g) (g_blob_gas g)
              (g_invalid g ++ [t]) (g_included g))
  | BlockGasExhausted _ | BlobGasExhausted _ | TransactionGasExhausted _ | FailedDatabase _ _ => Some g
  end.

(** The loop over the executor, in as many rounds as there are transactions. *)
Fixpoint run (is_cancun : bool) (rounds : nat) (x : TransactionExecutor) (g : Gathered)
    : option (Gathered * TransactionExecutor) :=
  match rounds with
  | O => Some (g, x)
  | S rounds =>
      '(o, x) ← next x;
      match o with
      | None => Some (g, x)
      | Some o => g ← gather is_cancun g o; run is_cancun rounds x g
      end
  end.

Definition create_block (h : Header) (txs : list FoundryTxEnvelope) (i : list TransactionInfo) (r : list Receipt) : BlockInfo :=
  mkBlockInfo
    (mkHeader (h_parent_hash h) (h_beneficiary h) (h_state_root h) (calculate_transaction_root txs)
       (h_receipts_root h) (h_logs_bloom h) (h_difficulty h) (h_number h) (h_gas_limit h) (h_gas_used h)
       (h_timestamp h) (h_mix_hash h) (h_base_fee_per_gas h) (h_parent_beacon_block_root h)
       (h_blob_gas_used h) (h_excess_blob_gas h) (h_withdrawals h) (h_requests h))
    txs i r.

Definition execute (x : TransactionExecutor) : option (ExecutedTransactions * State) :=
  let b := block_env (evm_env x) in
  let s := spec (cfg_env (evm_env x)) in
  let is_cancun := CANCUN <=? s in
  '(g, y) ← run is_cancun (S (length (pending x))) x (gathered_nothing is_cancun);
  let header :=
    mkHeader (parent_hash x) (beneficiary b) (default 0 (maybe_state_root (db y))) 0
      (calculate_receipt_root (g_receipts g)) (g_bloom g) (difficulty b) (Z.min (umax 64) (number b))
      (gas_limit b) (g_gas g) (Z.min (umax 64) (timestamp b)) (default 0 (prevrandao b))
      (if LONDON <=? s then Some (basefee b) else None)
      (if is_cancun then Some 0 else None) (g_blob_gas g)
      (if is_cancun then blob_excess_gas b else None) (SHANGHAI <=? s) (PRAGUE <=? s) in
  Some (mkExecutedTransactions (create_block header (g_transactions g) (g_infos g) (g_receipts g))
          (g_included g) (g_invalid g), db y).
End executor.
