(* ===== verification/ExecutorSpec.v ===== *)
(** * What the executor's blocks hold

    Over any EVM and database that keep the promises of [EvmLaws]: how a block is
    made of its transactions, the limits on its gas, and that no transaction is
    executed twice as long as no nonce is lowered between blocks. *)
From S2P Require Import Prelude.
From S2P Require Import StateDb.
From S2P Require Import MultiFork.
From S2P Require Import PoolTx.
From S2P Require Import Validation.
From S2P Require Import Executor.
Local Open Scope Z_scope.

Definition gas_of `{Executes} (r : ExecutionResult) : Z :=
  match r with Success _ gas _ _ => gas | Reverted gas _ => gas | Halt _ gas => gas end.

(** What is relied on of the EVM: an execution uses no more gas than its limit
    and reports no error but those of the database and the transaction; the
    nonces of accounts that are [owned], which no code can destroy, never fall, and
    a transaction other than a deposit is not executed with a nonce beyond that of
    its sender, which grows with it.  That the nonce is not one used before is not
    asked of the EVM: the executor validates it. *)
Class EvmLaws {Ex : Executes} {Vm : Evm} := {
  gas_within env p d r tr d' :
    transact_commit env p d = ((Ok r, tr), d') → 0 <= gas_of r <= env_gas_limit (pt_transaction p);
  known_error env p d tr d' : transact_commit env p d ≠ ((Err OtherError, tr), d');
  owned : Address → Prop;
  nonce_of : State → Address → Z;
  basic_nonce a d r d' : basic a d = (r, d') →
    (∀ b, nonce_of d' b = nonce_of d b) ∧ ∀ found, r = Ok found → nonce (default account_default found) = nonce_of d a;
  nonces_grow env p d r d' a : transact_commit env p d = (r, d') → owned a → nonce_of d a <= nonce_of d' a;
  nonce_used env p d r tr d' : transact_commit env p d = ((Ok r, tr), d') → is_deposit (pt_transaction p) = false →
    env_nonce (pt_transaction p) <= nonce_of d (pt_sender p) < nonce_of d' (pt_sender p);
}.

Section spec.
Context {Hf : Hardforks} {Ex : Executes} {Vm : Evm} {Laws : EvmLaws}.
Implicit Types (x y : TransactionExecutor) (o : TransactionExecutionOutcome) (os : list TransactionExecutionOutcome).

(** ** Attempts *)

Definition outcome_tx o : PoolTransaction :=
  match o with
  | Executed t => transaction t
  | Invalid t _ | BlockGasExhausted t | BlobGasExhausted t | TransactionGasExhausted t | FailedDatabase t _ => t
  end.
Definition executed_of o : option ExecutedTransaction := match o with Executed t => Some t | _ => None end.
Definition invalid_of o : option PoolTransaction := match o with Invalid t _ => Some t | _ => None end.
Definition envelope (t : PoolTransaction) : FoundryTxEnvelope := pt_transaction (pending_transaction t).
Definition executed_gas os : Z := zsum gas_used (omap executed_of os).
Definition blob_gas_of (t : ExecutedTransaction) : Z := default 0 (env_blob_gas_used (envelope (transaction t))).
Definition executed_blob_gas os : Z := zsum blob_gas_of (omap executed_of os).

Inductive attempts : TransactionExecutor → list TransactionExecutionOutcome → TransactionExecutor → Prop :=
| attempts_end x : pending x = [] → attempts x [] x
| attempts_next x o y os z : next x = Some (Some o, y) → attempts y os z → attempts x (o :: os) z.

(** What one attempt leaves. *)
Record attempted x o y : Prop := {
  at_pending : pending x = outcome_tx o :: pending y;
  at_same : evm_env y = evm_env x ∧ validator y = validator x ∧ parent_hash y = parent_hash x ∧ block_blob_params y = block_blob_params x;
  at_nonces a : owned a → nonce_of (db x) a <= nonce_of (db y) a;
  at_outcome : match executed_of o with
    | Some t =>
        exhausted x (transaction t) = None ∧ 0 <= gas_used t <= env_gas_limit (envelope (transaction t)) ∧
        used y = u_saturating_add 64 (used x) (gas_used t) ∧
        blob_used y = match env_blob_gas_used (envelope (transaction t)) with
                      | Some gas => u_saturating_add 64 (blob_used x) gas
                      | None => blob_used x
                      end ∧
        (is_deposit (envelope (transaction t)) = false →
         nonce_of (db x) (pt_sender (pending_transaction (transaction t))) = env_nonce (envelope (transaction t)) ∧
         nonce_of (db x) (pt_sender (pending_transaction (transaction t))) <
         nonce_of (db y) (pt_sender (pending_transaction (transaction t))))
    | None => used y = used x ∧ blob_used y = blob_used x
    end;
}.

Lemma validated_nonce v p account env :
  validate_pool_transaction_for v p account env = Ok tt → is_deposit (pt_transaction p) = false →
  nonce account <= env_nonce (pt_transaction p).
Proof.
  unfold validate_pool_transaction_for. cbn zeta. rewrite !ok_bind, ok_check, andb_false_iff, Z.ltb_ge, negb_false_iff. intros (_ & [Hn|Hd] & _) Hnd; [lia|congruence].
Qed.

Lemma execute_one_spec x t account :
  nonce account = nonce_of (db x) (pt_sender (pending_transaction t)) →
  ∃ o y, execute_one x t account = Some (o, y) ∧ pending y = pending x ∧ outcome_tx o = t ∧
    evm_env y = evm_env x ∧ validator y = validator x ∧ parent_hash y = parent_hash x ∧ block_blob_params y = block_blob_params x ∧
    (∀ a, owned a → nonce_of (db x) a <= nonce_of (db y) a) ∧
    match executed_of o with
    | Some e =>
        0 <= gas_used e <= env_gas_limit (envelope t) ∧
        used y = u_saturating_add 64 (used x) (gas_used e) ∧
        blob_used y = match env_blob_gas_used (envelope t) with
                      | Some gas => u_saturating_add 64 (blob_used x) gas
                      | None => blob_used x
                      end ∧
        (is_deposit (envelope t) = false →
         nonce_of (db x) (pt_sender (pending_transaction t)) = env_nonce (envelope t) ∧
         nonce_of (db x) (pt_sender (pending_transaction t)) < nonce_of (db y) (pt_sender (pending_transaction t)))
    | None => used y = used x ∧ blob_used y = blob_used x
    end.
Proof.
  intros Hacc. unfold execute_one.
  destruct (validate_pool_transaction_for _ _ _ _) as [[]|e] eqn:Hval; [|eexists _, _; split; [done|]; split_and!; try done; intros; cbn; lia].
  destruct (transact_commit _ _ _) as [[r tr] d] eqn:Hr. pose proof (λ a, nonces_grow _ _ _ _ _ a Hr) as Hgrow.
  destruct r as [r|[e|code|]]; [|eexists _, _; split; [done|]; split_and!; done|eexists _, _; split; [done|]; split_and!; done|destruct (known_error _ _ _ _ _ Hr)].
  pose proof (gas_within _ _ _ _ _ _ Hr) as Hgas. 
  assert (is_deposit (envelope t) = false →
    nonce_of (db x) (pt_sender (pending_transaction t)) = env_nonce (envelope t) ∧
    nonce_of (db x) (pt_sender (pending_transaction t)) < nonce_of d (pt_sender (pending_transaction t))) as Hnonce.
  { intros Hd. pose proof (nonce_used _ _ _ _ _ _ Hr Hd). pose proof (validated_nonce _ _ _ _ Hval Hd).
    unfold envelope in *. lia. }
  destruct r as [reason gas l output|gas output|reason gas]; cbn [unpack]; eexists _, _; split_and!; try done; cbn; by split_and!.
Qed.

Lemma executor_next_spec x :
  pending x ≠ [] → ∃ o y, next x = Some (Some o, y) ∧ attempted x o y.
Proof.
  intros Hp. unfold next. destruct (pending x) as [|t rest] eqn:Hpe; [done|].
  destruct (basic _ _) as [found d] eqn:Hb. destruct (basic_nonce _ _ _ _ Hb) as [Hsame Hfound]. cbn in Hsame, Hfound.
  destruct found as [found|e].
  - set (y := set_db d (set_pending rest x)). destruct (exhausted y t) as [o|] eqn:He.
    + exists o, y. split; [done|].
      assert (Ho : outcome_tx o = t ∧ executed_of o = None).
      { unfold exhausted in He. by repeat case_match; simplify_eq/=. }
      destruct Ho as [Ho Hex]. split; [by rewrite Hpe, Ho|done| |by rewrite Hex].
      intros a _. cbn. by rewrite Hsame.
    + destruct (execute_one_spec y t (default account_default found))
        as (o & z & -> & Hpz & Ho & He1 & He2 & He3 & He4 & Hn & Hout).
      { cbn. rewrite (Hfound found eq_refl). by rewrite Hsame. }
      exists o, z. split; [done|].
      split; [by rewrite Hpe, Ho, Hpz|done| |].
      * intros a Ha. cbn in Hn. specialize (Hn a Ha). cbn in Hn. rewrite Hsame in Hn. done.
      * destruct o as [e| | | | |]; cbn in Hout |- *; try done. cbn in Ho. subst t. rewrite Hsame in Hout. split; [exact He|exact Hout].
  - eexists _, _. split; [done|]. split; [done|done| |done]. intros a _. cbn. by rewrite Hsame.
Qed.

Lemma attempts_cons x o y : next x = Some (Some o, y) → attempted x o y.
Proof.
  intros Hn. destruct (decide (pending x = [])) as [Hp|Hp]; [unfold next in Hn; by rewrite Hp in Hn|].
  destruct (executor_next_spec x Hp) as (o' & y' & Hn' & Ha). rewrite Hn in Hn'. by simplify_eq.
Qed.

(** Every transaction is attempted, once and in the order given. *)
Lemma attempts_all x os y : attempts x os y → outcome_tx <$> os = pending x ∧ pending y = [].
Proof.
  induction 1 as [x Hp|x o y os z Hn _ [IH1 IH2]]; [by rewrite Hp|].
  destruct (attempts_cons _ _ _ Hn) as [Hp _ _ _]. rewrite Hp, fmap_cons, IH1. done.
Qed.
Lemma attempts_same x os y :
  attempts x os y → evm_env y = evm_env x ∧ validator y = validator x ∧ parent_hash y = parent_hash x ∧ block_blob_params y = block_blob_params x.
Proof.
  induction 1 as [|x o y os z Hn _ IH]; [done|]. destruct (attempts_cons _ _ _ Hn) as [_ (-> & -> & -> & ->) _ _] in IH. done.
Qed.

(** ** What is gathered *)

(** The gas up to and with a transaction of the block, in 64 bits. *)
Definition receipt_at (ts : list ExecutedTransaction) (i : nat) (t : ExecutedTransaction) : Receipt :=
  mkReceipt (env_variant (envelope (transaction t))) (is_ok (exit_reason t))
    (Z.min (umax 64) (zsum gas_used (take (S i) ts))) (logs t).

(** What has been gathered of the outcomes [os]. *)
Record holds (is_cancun : bool) os (g : Gathered) : Prop := {
  ho_included : g_included g = transaction <$> omap executed_of os;
  ho_invalid : g_invalid g = omap invalid_of os;
  ho_transactions : g_transactions g = envelope <$> g_included g;
  ho_infos : g_infos g = imap (λ i t, info_of t i) (omap executed_of os);
  ho_receipts : g_receipts g = imap (receipt_at (omap executed_of os)) (omap executed_of os);
  ho_gas : g_gas g = Z.min (umax 64) (executed_gas os);
  ho_blob : g_blob_gas g = if is_cancun then Some (Z.min (umax 64) (executed_blob_gas os)) else None;
  ho_bloom : g_bloom g = build_logs_bloom (concat (logs <$> omap executed_of os)) empty_bloom;
}.

(** The gas of an outcome is not negative. *)
Definition sensible o : Prop :=
  match executed_of o with
  | Some t => 0 <= gas_used t ∧ 0 <= blob_gas_of t ∧ env_variant (envelope (transaction t)) ≠ Tempo
  | None => True
  end.

Lemma saturating_sum a b : 0 <= b → u_saturating_add 64 (Z.min (umax 64) a) b = Z.min (umax 64) (a + b).
Proof. unfold u_saturating_add. lia. Qed.

Lemma gather_executed_holds c os g t :
  holds c os g → sensible (Executed t) → ∃ g', gather_executed c g t = Some g' ∧ holds c (os ++ [Executed t]) g'.
Proof.
  intros [H1 H2 H3 H4 H5 H6 H7 H8] (Hg & Hb & Hv). unfold gather_executed, create_receipt. cbn in Hg, Hb, Hv.
  assert (Hz : executed_gas (os ++ [Executed t]) = executed_gas os + gas_used t).
  { unfold executed_gas. rewrite omap_app, zsum_app. cbn. lia. }
  assert (Hzb : executed_blob_gas (os ++ [Executed t]) = executed_blob_gas os + blob_gas_of t).
  { unfold executed_blob_gas. rewrite omap_app, zsum_app. cbn. lia. }
  assert (Hr : match env_variant (pt_transaction (pending_transaction (transaction t))) with
      | Tempo => None
      | v => Some (mkReceipt v (is_ok (exit_reason t)) (u_saturating_add 64 (g_gas g) (gas_used t)) (logs t),
               u_saturating_add 64 (g_gas g) (gas_used t))
      end = Some (mkReceipt (env_variant (envelope (transaction t))) (is_ok (exit_reason t))
                    (Z.min (umax 64) (executed_gas os + gas_used t)) (logs t), Z.min (umax 64) (executed_gas os + gas_used t))).
  { rewrite H6, saturating_sum by done. unfold envelope in *. by destruct (env_variant _). }
  rewrite Hr. cbn. eexists. split; [done|].
  assert (Hex : omap executed_of (os ++ [Executed t]) = omap executed_of os ++ [t]) by (by rewrite omap_app).
  split; cbn; rewrite ?Hex, ?fmap_app, ?imap_app; cbn.
  - by rewrite H1.
  - rewrite omap_app, H2. by rewrite app_nil_r.
  - by rewrite H3.
  - rewrite H4, length_imap. by rewrite Nat.add_0_r.
  - rewrite H5. f_equal.
    + apply imap_ext. intros i u Hu. cbn. unfold receipt_at. do 3 f_equal.
      rewrite take_app_le; [done|]. apply lookup_lt_Some in Hu. lia.
    + unfold receipt_at. do 4 f_equal. rewrite Nat.add_0_r.
      rewrite take_ge by (rewrite length_app; cbn; lia). rewrite zsum_app. cbn. unfold executed_gas. lia.
  - by rewrite Hz.
  - rewrite Hzb. destruct c; [|by rewrite H7]. rewrite H7. cbn. by rewrite saturating_sum.
  - rewrite H8. unfold build_logs_bloom. rewrite concat_app, foldl_app. cbn. by rewrite ?app_nil_r.
Qed.

Lemma gather_holds c os g o :
  holds c os g → sensible o → ∃ g', gather c g o = Some g' ∧ holds c (os ++ [o]) g'.
Proof.
  intros Hh Ho. destruct o as [t|t e|t|t|t|t e]; [by apply gather_executed_holds|..]; cbn [gather].
  all: eexists; (split; [done|]); destruct Hh as [H1 H2 H3 H4 H5 H6 H7 H8].
  all: match goal with |- holds _ (?l ++ [?o]) _ =>
    assert (He : omap executed_of (l ++ [o]) = omap executed_of l) by (by rewrite omap_app, app_nil_r) end.
  all: split; unfold executed_gas, executed_blob_gas in *; rewrite ?He, ?omap_app; cbn; rewrite ?app_nil_r; try done.
  by rewrite H2.
Qed.

(** The loop makes every attempt, and gathers. *)
Lemma executor_run_spec c rounds x os g :
  holds c os g → (length (pending x) < rounds)%nat →
  Forall (λ t, env_variant (envelope t) ≠ Tempo ∧ 0 <= default 0 (env_blob_gas_used (envelope t))) (pending x) →
  ∃ os' g' y, run c rounds x g = Some (g', y) ∧ attempts x os' y ∧ holds c (os ++ os') g'.
Proof.
  revert x os g. induction rounds as [|rounds IH]; intros x os g Hh Hlen Hall; [lia|]. cbn [run].
  destruct (pending x) as [|t rest] eqn:Hp.
  { unfold next. rewrite Hp. cbn. exists [], g, x. rewrite app_nil_r. split; [done|]. split; [by constructor|done]. }
  destruct (executor_next_spec x) as (o & y & Hn & Ha); [by rewrite Hp|]. rewrite Hn. cbn [mbind option_bind].
  destruct Ha as [Hpy Hsame Hnon Hout]. rewrite Hp in Hpy. injection Hpy as Ho Hrest. subst t rest.
  apply Forall_cons in Hall as [Ht Hall].
  assert (Hs : sensible o).
  { unfold sensible. destruct o as [t| | | | |]; cbn in *; try done. destruct Hout as (_ & Hgas & _). split; [lia|]. by split; apply Ht. }
  destruct (gather_holds c os g o Hh Hs) as (g1 & Hg1 & Hh1). rewrite Hg1. cbn [mbind option_bind].
  destruct (IH y (os ++ [o]) g1 Hh1) as (os' & g' & z & Hrun & Hat & Hh'); [cbn in Hlen; lia|done|].
  exists (o :: os'), g', z. split; [done|]. split; [by eapply attempts_next|]. by rewrite <-app_assoc in Hh'.
Qed.

Lemma holds_nothing c : holds c [] (gathered_nothing c).
Proof. by split; destruct c. Qed.

(** Transactions of a kind that has receipts, with blob gas in range. *)
Definition has_receipt (t : PoolTransaction) : Prop :=
  env_variant (envelope t) ≠ Tempo ∧ 0 <= default 0 (env_blob_gas_used (envelope t)).

Lemma execute_spec x :
  Forall has_receipt (pending x) →
  ∃ e os y, execute x = Some (e, db y) ∧ attempts x os y ∧
    included e = transaction <$> omap executed_of os ∧ invalid e = omap invalid_of os ∧
    body (block e) = envelope <$> included e ∧
    infos (block e) = imap (λ i t, info_of t i) (omap executed_of os) ∧
    receipts (block e) = imap (receipt_at (omap executed_of os)) (omap executed_of os) ∧
    h_gas_used (header (block e)) = Z.min (umax 64) (executed_gas os) ∧
    h_blob_gas_used (header (block e)) =
      (if CANCUN <=? spec (cfg_env (evm_env x)) then Some (Z.min (umax 64) (executed_blob_gas os)) else None) ∧
    h_logs_bloom (header (block e)) = build_logs_bloom (concat (logs <$> omap executed_of os)) empty_bloom ∧
    h_gas_limit (header (block e)) = gas_limit (block_env (evm_env x)) ∧
    h_timestamp (header (block e)) = Z.min (umax 64) (timestamp (block_env (evm_env x))) ∧
    h_number (header (block e)) = Z.min (umax 64) (number (block_env (evm_env x))) ∧
    h_parent_hash (header (block e)) = parent_hash x.
Proof.
  intros Hall. unfold execute.
  destruct (executor_run_spec (CANCUN <=? spec (cfg_env (evm_env x))) (S (length (pending x))) x [] _ (holds_nothing _)) as
    (os & g & y & Hrun & Hat & [H1 H2 H3 H4 H5 H6 H7 H8]); [lia|done|]. rewrite Hrun. cbn [mbind option_bind].
  eexists _, os, y. split; [reflexivity|]. cbn. by split_and!.
Qed.

(** C21: A block is made of all its transactions: each of them is attempted once, in
    the order it came, and is either executed, invalid or left for later; the
    ones that were executed are the body, and for each of them, at its index, the
    block has the information and the receipt of its execution, the receipt with
    the gas of the transactions up to it; the header has the total. *)
Theorem block_is_made_of x :
  Forall has_receipt (pending x) →
  ∃ e os d, execute x = Some (e, d) ∧ outcome_tx <$> os = pending x ∧
    let ts := omap executed_of os in
    included e = transaction <$> ts ∧ invalid e = omap invalid_of os ∧
    body (block e) = envelope <$> included e ∧
    length (infos (block e)) = length ts ∧ length (receipts (block e)) = length ts ∧
    (∀ i t, ts !! i = Some t →
       infos (block e) !! i = Some (info_of t i) ∧
       receipts (block e) !! i = Some (mkReceipt (env_variant (envelope (transaction t))) (is_ok (exit_reason t))
         (Z.min (umax 64) (zsum gas_used (take (S i) ts))) (logs t))) ∧
    h_gas_used (header (block e)) = Z.min (umax 64) (zsum gas_used ts) ∧
    h_logs_bloom (header (block e)) = build_logs_bloom (concat (logs <$> ts)) empty_bloom.
Proof.
  intros Hall. destruct (execute_spec x Hall) as (e & os & y & He & Hat & H1 & H2 & H3 & H4 & H5 & H6 & _ & H8 & _).
  exists e, os, (db y). split; [done|]. split; [by eapply attempts_all|]. cbn zeta.
  rewrite H4, H5, !length_imap. split_and!; try done. intros i t Ht. by rewrite !list_lookup_imap, Ht.
Qed.

(** ** Limits *)

Lemma exhausted_limits x t :
  exhausted x t = None →
  (disable_block_gas_limit (cfg_env (evm_env x)) = false →
   u_saturating_add 64 (used x) (env_gas_limit (envelope t)) <= gas_limit (block_env (evm_env x))) ∧
  u_saturating_add 64 (blob_used x) (default 0 (env_blob_gas_used (envelope t))) <= max_blob_gas_per_block (block_blob_params x).
Proof.
  unfold exhausted, envelope. intros H. split.
  - intros Hd. rewrite Hd in H. cbn [negb andb] in H. case_match; [done|]. by apply Z.ltb_ge.
  - do 2 (case_match; [done|]). case_match eqn:Hb; [done|]. by apply Z.ltb_ge in Hb.
Qed.

Lemma attempts_nonneg x os y :
  attempts x os y → Forall has_receipt (pending x) → 0 <= executed_gas os ∧ 0 <= executed_blob_gas os.
Proof.
  induction 1 as [x Hp|x o y os z Hn Hat IH]; intros Hall; [done|].
  destruct (attempts_cons _ _ _ Hn) as [Hp _ _ Hout]. rewrite Hp in Hall. apply Forall_cons in Hall as [[_ Ht] Hall].
  destruct (IH Hall). unfold executed_gas, executed_blob_gas, blob_gas_of in *. destruct o as [t| | | | |]; cbn in *; try done.
  unfold envelope in *. lia.
Qed.

(** The counters of the executor stay within the limits, and are the sums of
    what was executed. *)
Lemma attempts_counters x os y :
  attempts x os y → Forall has_receipt (pending x) → used x <= umax 64 → blob_used x <= umax 64 →
  used y = Z.min (umax 64) (used x + executed_gas os) ∧
  blob_used y = Z.min (umax 64) (blob_used x + executed_blob_gas os) ∧
  (disable_block_gas_limit (cfg_env (evm_env x)) = false → used x <= gas_limit (block_env (evm_env x)) →
   used y <= gas_limit (block_env (evm_env x))) ∧
  (blob_used x <= max_blob_gas_per_block (block_blob_params x) →
   blob_used y <= max_blob_gas_per_block (block_blob_params x)).
Proof.
  induction 1 as [x Hp|x o y os z Hn Hat IH]; intros Hall Hu Hb.
  { unfold executed_gas, executed_blob_gas. cbn. split_and!; [lia|lia|done|done]. }
  destruct (attempts_cons _ _ _ Hn) as [Hp (He & _ & _ & Hv) _ Hout]. rewrite Hp in Hall.
  apply Forall_cons in Hall as [[_ Ht] Hall]. rewrite He, Hv in IH.
  assert (Hsum : used y = Z.min (umax 64) (used x + executed_gas [o]) ∧
    blob_used y = Z.min (umax 64) (blob_used x + executed_blob_gas [o]) ∧
    0 <= executed_gas [o] ∧ 0 <= executed_blob_gas [o] ∧
    (disable_block_gas_limit (cfg_env (evm_env x)) = false → used x <= gas_limit (block_env (evm_env x)) →
     used y <= gas_limit (block_env (evm_env x))) ∧
    (blob_used x <= max_blob_gas_per_block (block_blob_params x) →
     blob_used y <= max_blob_gas_per_block (block_blob_params x))).
  { unfold executed_gas, executed_blob_gas, blob_gas_of. destruct o as [t| | | | |]; cbn in Hout, Ht |- *;
      [|destruct Hout as [-> ->]; split_and!; try done; lia..].
    destruct Hout as (Hex & Hgas & Hu' & Hb' & _). destruct (exhausted_limits _ _ Hex) as [Hl1 Hl2].
    unfold envelope in *. rewrite Hu'. unfold u_saturating_add in *.
    destruct (env_blob_gas_used _) as [g|]; cbn in *; rewrite Hb'; split_and!; intros; try lia;
      specialize (Hl1 H); lia. }
  destruct Hsum as (Hu' & Hb' & Hg & Hbg & Hl1 & Hl2).
  destruct IH as (IH1 & IH2 & IH3 & IH4); [done|lia|lia|].
  assert (Hc : executed_gas (o :: os) = executed_gas [o] + executed_gas os ∧
    executed_blob_gas (o :: os) = executed_blob_gas [o] + executed_blob_gas os).
  { unfold executed_gas, executed_blob_gas. change (o :: os) with ([o] ++ os). by rewrite omap_app, !zsum_app. }
  destruct Hc as [-> ->].
  destruct (attempts_nonneg y os z Hat Hall) as [Hpos Hpos'].
  split_and!; [lia|lia|auto|auto].
Qed.

(** C22: A block stays within its limits: the gas of the header is at most the
    gas limit of the block, unless that limit is disabled, and the blob gas is at
    most the maximum of the hardfork, whichever transactions are offered; so
    neither counter saturates unless its limit is the largest number. *)
Theorem block_limits_kept x e d :
  Forall has_receipt (pending x) → used x = 0 → blob_used x = 0 → 0 <= gas_limit (block_env (evm_env x)) →
  0 <= max_blob_gas_per_block (block_blob_params x) → execute x = Some (e, d) →
  (disable_block_gas_limit (cfg_env (evm_env x)) = false →
   h_gas_used (header (block e)) <= h_gas_limit (header (block e))) ∧
  ∀ blob_gas, h_blob_gas_used (header (block e)) = Some blob_gas →
    blob_gas <= max_blob_gas_per_block (block_blob_params x).
Proof.
  intros Hall Hu Hb Hgl Hmb He. destruct (execute_spec x Hall) as (e' & os & y & He' & Hat & _ & _ & _ & _ & _ & Hg & Hbg & _ & Hl & _).
  rewrite He in He'. simplify_eq.
  destruct (attempts_counters x os y Hat Hall) as (H1 & H2 & H3 & H4); [unfold umax; lia..|].
  rewrite Hu, Z.add_0_l in H1. rewrite Hb, Z.add_0_l in H2. rewrite Hg, Hl, <-H1. split; [intros Hd; apply H3; [done|lia]|].
  rewrite Hbg, <-H2. intros blob_gas. case_match; [intros [= <-]|done]. apply H4. lia.
Qed.

(** ** Nonces *)

(** The transactions were executed, in this order, between two states of the
    nonces. *)
Inductive rising : (Address → Z) → list PoolTransaction → (Address → Z) → Prop :=
| rising_nil lo hi : (∀ a, owned a → lo a <= hi a) → rising lo [] hi
| rising_cons lo mid hi t l :
    (∀ a, owned a → lo a <= mid a) →
    (is_deposit (envelope t) = false → owned (pt_sender (pending_transaction t)) →
     lo (pt_sender (pending_transaction t)) <= env_nonce (envelope t) < mid (pt_sender (pending_transaction t))) →
    rising mid l hi → rising lo (t :: l) hi.

Lemma rising_lower lo lo' l hi : (∀ a, owned a → lo' a <= lo a) → rising lo l hi → rising lo' l hi.
Proof.
  intros Hlo. destruct 1 as [lo hi H|lo mid hi t l H Ht Hl].
  - apply rising_nil. intros a Ha. specialize (Hlo a Ha). specialize (H a Ha). lia.
  - apply (rising_cons _ mid); [|intros Hd Ho|done].
    + intros a Ha. specialize (Hlo a Ha). specialize (H a Ha). lia.
    + specialize (Hlo _ Ho). specialize (Ht Hd Ho). lia.
Qed.
Lemma rising_app lo l1 mid l2 hi : rising lo l1 mid → rising mid l2 hi → rising lo (l1 ++ l2) hi.
Proof.
  induction 1 as [lo mid H|lo mid' mid t l H Ht _ IH]; intros H2; [by eapply rising_lower|].
  apply (rising_cons _ mid'); auto.
Qed.
Lemma rising_over lo l hi t :
  rising lo l hi → t ∈ l → is_deposit (envelope t) = false → owned (pt_sender (pending_transaction t)) →
  lo (pt_sender (pending_transaction t)) <= env_nonce (envelope t).
Proof.
  induction 1 as [lo hi H|lo mid hi u l H Hu _ IH]; intros Ht Hd Ho; [by apply elem_of_nil in Ht|].
  apply elem_of_cons in Ht as [->|Ht]; [by apply Hu|]. specialize (IH Ht Hd Ho). specialize (H _ Ho). lia.
Qed.
Lemma rising_order lo l hi i j t u :
  rising lo l hi → (i < j)%nat → l !! i = Some t → l !! j = Some u →
  is_deposit (envelope t) = false → is_deposit (envelope u) = false →
  pt_sender (pending_transaction t) = pt_sender (pending_transaction u) → owned (pt_sender (pending_transaction t)) →
  env_nonce (envelope t) < env_nonce (envelope u).
Proof.
  intros Hr. revert i j. induction Hr as [lo hi H|lo mid hi v l H Hv Hl IH]; intros i j Hij Hi Hj Hdt Hdu Hs Ho; [done|].
  destruct j as [|j]; [lia|]. cbn in Hj. destruct i as [|i]; cbn in Hi; [|by apply (IH i j); [lia|..]].
  simplify_eq. specialize (Hv Hdt Ho). apply list_elem_of_lookup_2 in Hj.
  pose proof (rising_over _ _ _ _ Hl Hj Hdu) as Hover. rewrite <-Hs in Hover. specialize (Hover Ho). lia.
Qed.

Lemma attempts_rising x os y :
  attempts x os y → rising (nonce_of (db x)) (transaction <$> omap executed_of os) (nonce_of (db y)).
Proof.
  induction 1 as [x Hp|x o y os z Hn _ IH]; [by apply rising_nil|].
  destruct (attempts_cons _ _ _ Hn) as [_ _ Hgrow Hout].
  destruct o as [t| | | | |]; cbn in Hout |- *; try (eapply rising_lower; [exact Hgrow|exact IH]).
  apply (rising_cons _ (nonce_of (db y))); [done|intros Hd _|done].
  destruct Hout as (_ & _ & _ & _ & Hnonce). destruct (Hnonce Hd) as [Heq Hlt]. rewrite Heq in Hlt |- *. lia.
Qed.

(** Blocks that follow each other, with what is included in them; between
    blocks the state may change as long as no nonce falls. *)
Inductive mined : State → list PoolTransaction → State → Prop :=
| mined_nothing d : mined d [] d
| mined_block d x e d1 l d2 :
    (∀ a, owned a → nonce_of d a <= nonce_of (db x) a) → Forall has_receipt (pending x) →
    execute x = Some (e, d1) → mined d1 l d2 → mined d (included e ++ l) d2.

(** C6: No transaction is executed twice, in one block or in several, whatever
    transactions the blocks are offered, the same ones again included, as long as
    nothing lowers the nonce of an account between the blocks (no nonce is set and
    no snapshot reverted): what one sender has in the blocks has rising nonces.
    That a nonce is not behind the account's is the executor's validation, with
    the account of the moment; the EVM is relied on for refusing one that is ahead
    and for raising it.  Deposits are exempt, which have no nonce of the account. *)
Theorem mined_once d l d' i j t u :
  mined d l d' → (i < j)%nat → l !! i = Some t → l !! j = Some u →
  is_deposit (envelope t) = false → is_deposit (envelope u) = false →
  pt_sender (pending_transaction t) = pt_sender (pending_transaction u) → owned (pt_sender (pending_transaction t)) →
  env_nonce (envelope t) < env_nonce (envelope u).
Proof.
  intros Hm. apply (rising_order (nonce_of d) l (nonce_of d')).
  induction Hm as [d|d x e d1 l d2 Hd Hall He _ IH]; [by apply rising_nil|].
  destruct (execute_spec x Hall) as (e' & os & y & He' & Hat & Hinc & _). rewrite He in He'. simplify_eq.
  eapply rising_app; [|exact IH]. rewrite Hinc. eapply rising_lower; [exact Hd|]. by apply attempts_rising.
Qed.
End spec.

(** ** An example *)
Module ExecutorExample.
Export ValidationExample.

(** Balances and nonces; a transaction uses 21000 gas and moves its value, and
    its account may not go below zero. *)
#[export] Instance executes : Executes := {|
  State := gmap Address (Z * Z);
  DbError := unit;
  SuccessReason := unit;
  HaltReason := unit;
  InstructionResult := bool;
  CallTraceNode := unit;
  Bloom := list (list Z);
  is_ok r := r;
  success_result _ := true;
  halt_result _ := false;
  Executor.Revert := false;
  Stop := true;
  empty_bloom := [];
  accrue i b := b ++ [i];
  calculate_receipt_root l := Z.of_nat (length l);
  calculate_transaction_root l := Z.of_nat (length l);
  create_address a n := a + n;
  maybe_state_root _ := None;
  basic a d := (Ok ((λ p, {| balance := p.1; nonce := p.2; code_hash := 0; account_id := None; code := None |}) <$> d !! a), d);
|}.
Definition account_in (d : gmap Address (Z * Z)) (a : Address) : Z * Z := default (0, 0) (d !! a).
Definition spend (cost : Z) (next_nonce : Z) (a : Address) (d : gmap Address (Z * Z)) : gmap Address (Z * Z) :=
  <[a := ((account_in d a).1 - cost, next_nonce)]> d.
#[export] Instance evm : Evm := {|
  transact_commit env p d :=
    let tx := pt_transaction p in
    let '(b, n) := account_in d (pt_sender p) in
    if env_gas_limit tx <? 21000 then ((Err (Transaction 1), []), d)
    else if is_deposit tx then ((Ok (Success tt 21000 [] (OutputCall [])), []), d)
    else if negb (env_nonce tx =? n) then ((Err (Transaction 2), []), d)
    else if b <? env_value tx then ((Ok (Reverted 21000 []), []), spend 0 (n + 1) (pt_sender p) d)
    else ((Ok (Success tt 21000 [mkLog (pt_sender p) [1] []] (OutputCall [])), []), spend (env_value tx) (n + 1) (pt_sender p) d) |}.

Lemma spend_nonce c n a d b : (account_in (spend c n a d) b).2 = if decide (b = a) then n else (account_in d b).2.
Proof.
  unfold account_in at 1, spend. case_decide; [subst; by rewrite lookup_insert_eq|]. by rewrite lookup_insert_ne by done.
Qed.
#[export] Instance evm_laws : EvmLaws.
Proof.
  refine {| owned := λ _, True; nonce_of := λ d a, (account_in d a).2 |}; cbn.
  - intros env p d r tr d'. destruct (account_in d (pt_sender p)) as [b n]. destruct (Z.ltb_spec (env_gas_limit (pt_transaction p)) 21000); [done|].
    repeat case_match; intros [= <- <- <-]; cbn; lia.
  - intros env p d tr d'. destruct (account_in d (pt_sender p)) as [b n]. by repeat case_match.
  - intros a d r d' [= <- <-]. split; [done|]. intros found [= <-]. unfold account_in. by destruct (d !! a).
  - intros env p d r d' a. destruct (account_in d (pt_sender p)) as [b n] eqn:Ha. intros Hr _.
    repeat case_match; simplify_eq/=; rewrite ?spend_nonce; try case_decide; subst; rewrite ?Ha; cbn; lia.
  - intros env p d r tr d'. destruct (account_in d (pt_sender p)) as [b n] eqn:Ha. intros Hr Hd. rewrite Hd in Hr. cbn in *.
    destruct (Z.eqb_spec (env_nonce (pt_transaction p)) n); cbn in Hr; repeat case_match; simplify_eq/=;
      rewrite spend_nonce, decide_True by done; lia.
Defined.

Definition pool_tx (h a n v : Z) (k : TxVariant) : PoolTransaction :=
  PoolTransaction_new {| pt_transaction := mkEnvelope k 2 n 21000 10 (Some 1) (Some 31337) (Some 7) v 0 0 None None 0;
                         pt_sender := a; pt_hash := h |}.
Definition executor (d : gmap Address (Z * Z)) (l : list PoolTransaction) : TransactionExecutor :=
  mkExecutor d the_validator l
    (mkEvmEnv (mkCfgEnv 31337 17 false false None None) (mkBlockEnv 1 1000 0 0 None 7 70000 (Some (0, 1)))) 99 0 0 (blob_params the_validator).
Definition genesis : gmap Address (Z * Z) := {[ 1 := (1000000, 0); 2 := (300000, 5) ]}.
(** A nonce that is too high, and one that is used; the block has room for three
    transactions. *)
Definition offered : list PoolTransaction :=
  [pool_tx 11 1 0 5 Eip1559; pool_tx 12 2 7 0 Eip1559; pool_tx 13 1 1 0 Eip1559; pool_tx 14 1 0 0 Eip1559;
   pool_tx 15 2 5 80000 Eip1559; pool_tx 16 1 2 0 Eip1559].
Definition summary (x : TransactionExecutor) : option (list Z * list Z * list Z * Z * list (Z * Z)) :=
  (λ '(e, _), (hash <$> included e, hash <$> invalid e, cumulative_gas_used <$> receipts (block e), h_gas_used (header (block e)),
     (λ i, (transaction_hash i, transaction_index i)) <$> infos (block e))) <$> execute x.
Example first_block :
  summary (executor genesis offered) =
    Some ([11; 13; 15], [12; 14], [21000; 42000; 63000], 63000, [(11, 0); (13, 1); (15, 2)]).
Proof. vm_compute. reflexivity. Qed.

Lemma have_receipts : Forall has_receipt offered.
Proof. repeat apply Forall_cons_2; try apply Forall_nil_2; split; vm_compute; discriminate. Qed.
Definition result_of (x : TransactionExecutor) : ExecutedTransactions * State :=
  match execute x with
  | Some r => r
  | None => (mkExecutedTransactions (mkBlockInfo (mkHeader 0 0 0 0 0 [] 0 0 0 0 0 0 None None None None false false) [] [] []) [] [], ∅)
  end.

Lemma block_is_made_of_witness :
  let x := executor genesis offered in
  ∃ e os d, execute x = Some (e, d) ∧ outcome_tx <$> os = pending x ∧
    let ts := omap executed_of os in
    included e = transaction <$> ts ∧ invalid e = omap invalid_of os ∧
    body (block e) = envelope <$> included e ∧
    length (infos (block e)) = length ts ∧ length (receipts (block e)) = length ts ∧
    (∀ i t, ts !! i = Some t →
       infos (block e) !! i = Some (info_of t i) ∧
       receipts (block e) !! i = Some (mkReceipt (env_variant (envelope (transaction t))) (is_ok (exit_reason t))
         (Z.min (umax 64) (zsum gas_used (take (S i) ts))) (logs t))) ∧
    h_gas_used (header (block e)) = Z.min (umax 64) (zsum gas_used ts) ∧
    h_logs_bloom (header (block e)) = build_logs_bloom (concat (logs <$> ts)) empty_bloom.
Proof. apply (block_is_made_of (executor genesis offered)). exact have_receipts. Defined.

Lemma block_limits_kept_witness :
  let e := (result_of (executor genesis offered)).1 in
  h_gas_used (header (block e)) = 63000 ∧ h_gas_limit (header (block e)) = 70000 ∧
  ((false = false → h_gas_used (header (block e)) <= h_gas_limit (header (block e))) ∧
   ∀ blob_gas, h_blob_gas_used (header (block e)) = Some blob_gas → blob_gas <= 786432).
Proof.
  split; [vm_compute; reflexivity|]. split; [vm_compute; reflexivity|].
  apply (block_limits_kept (executor genesis offered) _ (result_of (executor genesis offered)).2).
  - exact have_receipts.
  - reflexivity.
  - reflexivity.
  - discriminate.
  - discriminate.
  - vm_compute. reflexivity.
Defined.

(** The second block is offered everything again. *)
Definition second : TransactionExecutor := executor (result_of (executor genesis offered)).2 offered.
Lemma two_blocks :
  mined genesis (included (result_of (executor genesis offered)).1 ++ included (result_of second).1 ++ [])
    (result_of second).2.
Proof.
  apply (mined_block _ (executor genesis offered) _ (result_of (executor genesis offered)).2);
    [intros; cbn; lia|exact have_receipts|vm_compute; reflexivity|].
  apply (mined_block _ second _ (result_of second).2); [intros; cbn; lia|exact have_receipts|vm_compute; reflexivity|].
  apply mined_nothing.
Qed.
Lemma mined_once_witness :
  hash <$> (included (result_of (executor genesis offered)).1 ++ included (result_of second).1 ++ []) = [11; 13; 15; 16] ∧
  env_nonce (envelope (pool_tx 13 1 1 0 Eip1559)) < env_nonce (envelope (pool_tx 16 1 2 0 Eip1559)).
Proof.
  split; [vm_compute; reflexivity|].
  apply (mined_once _ _ _ 1 3 (pool_tx 13 1 1 0 Eip1559) (pool_tx 16 1 2 0 Eip1559) two_blocks).
  - lia.
  - vm_compute. reflexivity.
  - vm_compute. reflexivity.
  - reflexivity.
  - reflexivity.
  - reflexivity.
  - exact I.
Defined.

(** A deposit that is offered twice is executed twice. *)
Example deposit_executed_twice :
  summary (executor genesis [pool_tx 21 1 0 0 Deposit; pool_tx 21 1 0 0 Deposit]) =
    Some ([21; 21], [], [21000; 42000], 42000, [(21, 0); (21, 1)]).
Proof. vm_compute. reflexivity. Qed.
(** A transaction of Tempo that is executed makes the node panic. *)
Example tempo_panics : summary (executor genesis [pool_tx 31 1 0 0 Tempo]) = None.
Proof. vm_compute. reflexivity. Qed.
End ExecutorExample.
