(* ===== verification/Node.v ===== *)
(** * The node's backend

    Models the operations of [Backend] in [anvil/src/eth/backend/mem/mod.rs] that
    join the parts of the node: the chain ([Chain]), the block environment, the
    fees ([Fees]), the clock ([TimeManager]), the validation ([Validation]) and
    the executor ([Executor]).  Mining a block, the pending block, snapshots and
    rollbacks with what they do to the environment and the clock, and the setters
    behind the RPC.

    The hashes, the calculations of fees of alloy, and the names of the chains of
    Arbitrum are the class [NodeLib].  The wall clock is an argument. *)
From S2P Require Import Prelude.
From S2P Require Import StateDb.
From S2P Require Import BlockStates.
From S2P Require Import Chain.
From S2P Require Import Fees.
From S2P Require Import TimeManager.
From S2P Require Import MultiFork.
From S2P Require Import PoolTx.
From S2P Require Import TxPool.
From S2P Require Import Validation.
From S2P Require Import Executor.
Local Open Scope Z_scope.

Class NodeLib {Ex : Executes} := {
  hash_slow : Header → B256;
  keccak256 : list Z → B256;
  (** The hash of a transaction in a block. *)
  tx_hash : FoundryTxEnvelope → B256;
  (** [NamedChain::try_from] and [is_arbitrum]. *)
  named_arbitrum : Z → bool;
  MERGE : Z;
  BERLIN : Z;
  cancun : BlobParams;
  prague : BlobParams;
  osaka : BlobParams;
  BaseFeeParams : Type;
  calc_next_block_base_fee : Z → Z → Z → BaseFeeParams → Z;
  next_block_excess_blob_gas_osaka : BlobParams → Z → Z → Z → Z;
  (** [BlobExcessGasAndPrice::new] with the fraction of the hardfork. *)
  get_blob_base_fee_update_fraction_by_spec_id : Z → Z;
  calc_blob_gasprice : Z → Z → Z;
  (** What revm's default environment has for blobs. *)
  default_blob_excess_gas_and_price : option (Z * Z);
  (** The check of blobs against the trusted setup. *)
  blob_tx_validate : PendingTransaction → option string;
  (** The parts of [Db] that the database implements. *)
  insert_block_hash : Z → B256 → State → State;
  insert_account : Address → AccountInfo → State → State;
  set_storage_at : Address → U256 → U256 → State → bool * State;
}.

(** ** The parts of [Db] that are written once for all databases *)
Section db.
Context {Ex : Executes} {Lib : NodeLib}.

Definition update_account (a : Address) (f : AccountInfo → AccountInfo) (d : State) : result DbError unit * State :=
  let '(found, d) := basic a d in
  match found with
  | Ok info => (Ok tt, insert_account a (f (default account_default info)) d)
  | Err e => (Err e, d)
  end.
Definition set_nonce (a : Address) (n : Z) : State → result DbError unit * State :=
  update_account a (λ i, {| balance := balance i; nonce := n; code_hash := code_hash i; account_id := account_id i; code := code i |}).
Definition set_balance (a : Address) (b : U256) : State → result DbError unit * State :=
  update_account a (λ i, {| balance := b; nonce := nonce i; code_hash := code_hash i; account_id := account_id i; code := code i |}).
Definition set_code (a : Address) (c : list Z) : State → result DbError unit * State :=
  update_account a (λ i,
    {| balance := balance i; nonce := nonce i;
       code_hash := if bool_decide (c = []) then code_hash account_default else keccak256 c;
       account_id := account_id i; code := Some c |}).
End db.

Section node.
Context {Hf : Hardforks} {Ex : Executes} {Vm : Evm} {Lib : NodeLib}.
Context {FS Path : Type} {Files : FileSystem FS Path} {Full : MaybeFullDatabase State}.

Abbreviation ChainBackend := (@Chain.Backend Header FoundryTxEnvelope TransactionInfo Receipt FS Path State).
Abbreviation FeeManager := (@Fees.FeeManager BlobParams (Z * Z) BaseFeeParams).
Abbreviation Block := (@Chain.Block Header FoundryTxEnvelope).

Record Node := mkNode {
  chain : ChainBackend;
  env : EvmEnv;
  fees : FeeManager;
  time : TimeManager.TimeManager;
  node_cheats : Cheats.CheatsManager;
  node_disable_pool_balance_checks : bool;
}.
Definition set_chain (c : ChainBackend) (n : Node) : Node :=
  mkNode c (env n) (fees n) (time n) (node_cheats n) (node_disable_pool_balance_checks n).
Definition set_env (e : EvmEnv) (n : Node) : Node :=
  mkNode (chain n) e (fees n) (time n) (node_cheats n) (node_disable_pool_balance_checks n).
Definition set_fees (f : FeeManager) (n : Node) : Node :=
  mkNode (chain n) (env n) f (time n) (node_cheats n) (node_disable_pool_balance_checks n).
Definition set_time (t : TimeManager.TimeManager) (n : Node) : Node :=
  mkNode (chain n) (env n) (fees n) t (node_cheats n) (node_disable_pool_balance_checks n).
Definition set_cheats (c : Cheats.CheatsManager) (n : Node) : Node :=
  mkNode (chain n) (env n) (fees n) (time n) c (node_disable_pool_balance_checks n).
Definition set_block_env (b : BlockEnv) (n : Node) : Node := set_env (mkEvmEnv (cfg_env (env n)) b) n.
Definition the_block_env (n : Node) : BlockEnv := block_env (env n).

(** ** Getters and setters *)
Definition storage (n : Node) := Chain.storage (chain n).
Definition best_hash (n : Node) : B256 := Chain.best_hash (storage n).
Definition best_number (n : Node) : Z := Chain.best_number (storage n).
Definition spec_id (n : Node) : Z := spec (cfg_env (env n)).
Definition is_eip1559 (n : Node) : bool := LONDON <=? spec_id n.
Definition is_eip3675 (n : Node) : bool := MERGE <=? spec_id n.
Definition is_eip2930 (n : Node) : bool := BERLIN <=? spec_id n.
Definition is_eip4844 (n : Node) : bool := CANCUN <=? spec_id n.
Definition is_eip7702 (n : Node) : bool := PRAGUE <=? spec_id n.
Inductive Unsupported := UnsupportedEip1559 | UnsupportedEip2930 | UnsupportedEip4844 | UnsupportedEip7702.
Definition ensure_eip1559_active (n : Node) : result Unsupported unit :=
  if is_eip1559 n then Ok tt else Err UnsupportedEip1559.
Definition ensure_eip2930_active (n : Node) : result Unsupported unit :=
  if is_eip2930 n then Ok tt else Err UnsupportedEip2930.
Definition ensure_eip4844_active (n : Node) : result Unsupported unit :=
  if is_eip4844 n then Ok tt else Err UnsupportedEip4844.
Definition ensure_eip7702_active (n : Node) : result Unsupported unit :=
  if is_eip7702 n then Ok tt else Err UnsupportedEip7702.
Definition blob_params (n : Node) : BlobParams :=
  if OSAKA <=? spec_id n then osaka else if PRAGUE <=? spec_id n then prague else cancun.
Definition base_fee (n : Node) : Z := Fees.base_fee LONDON (fees n).
Definition excess_blob_gas_and_price (n : Node) : option (Z * Z) := Fees.excess_blob_gas_and_price CANCUN (fees n).

Definition set_block_number (number : Z) (n : Node) : Node :=
  let b := the_block_env n in
  set_block_env (mkBlockEnv number (timestamp b) (beneficiary b) (difficulty b) (prevrandao b) (basefee b) (gas_limit b)
                   (blob_excess_gas_and_price b)) n.
Definition set_coinbase (a : Address) (n : Node) : Node :=
  let b := the_block_env n in
  set_block_env (mkBlockEnv (number b) (timestamp b) a (difficulty b) (prevrandao b) (basefee b) (gas_limit b)
                   (blob_excess_gas_and_price b)) n.
Definition set_gas_limit (gas_limit : Z) (n : Node) : Node :=
  let b := the_block_env n in
  set_block_env (mkBlockEnv (number b) (timestamp b) (beneficiary b) (difficulty b) (prevrandao b) (basefee b) gas_limit
                   (blob_excess_gas_and_price b)) n.
Definition set_chain_id (chain_id : Z) (n : Node) : Node :=
  let c := cfg_env (env n) in
  set_env (mkEvmEnv (mkCfgEnv chain_id (spec c) (disable_block_gas_limit c) (disable_base_fee c) (tx_gas_limit_cap c)
                       (limit_contract_code_size c)) (the_block_env n)) n.
Definition set_base_fee (fee : Z) (n : Node) : Node := set_fees (Fees.set_base_fee fee (fees n)) n.
Definition set_gas_price (price : Z) (n : Node) : Node := set_fees (Fees.set_gas_price price (fees n)) n.

(** The writes to the database behind the cheats of the RPC. *)
Definition on_db {E} (f : State → result E unit * State) (n : Node) : result E unit * Node :=
  let d := Chain.db (chain n) in
  let '(r, i) := f (inner d) in
  (r, set_chain (Chain.set_db {| inner := i; db_snapshots := db_snapshots d |} (chain n)) n).

(** ** Mining *)
Definition validator_of (n : Node) : Validator :=
  mkValidator (cfg_chain_id (cfg_env (env n))) (blob_params n) (node_cheats n) (node_disable_pool_balance_checks n)
    blob_tx_validate.

Definition is_arbitrum (chain_id : Z) : bool := named_arbitrum chain_id.

Definition next_env (now : Z) (n : Node) : EvmEnv :=
  let b := the_block_env n in
  mkEvmEnv (cfg_env (env n))
    (mkBlockEnv (u_saturating_add 256 (number b) 1) (TimeManager.current_call_timestamp now (time n)) (beneficiary b)
       (difficulty b) (prevrandao b) (base_fee n) (gas_limit b) (excess_blob_gas_and_price n)).

(** [with_pending_block]: the block; what is executed stays in a cache. *)
Definition pending_block (now : Z) (pool_transactions : list PoolTransaction) (n : Node) : option BlockInfo :=
  '(executed, _) ← execute (mkExecutor (inner (Chain.db (chain n))) (validator_of n) pool_transactions (next_env now n)
                             (best_hash n) 0 0 (blob_params n));
  Some (block executed).

(** The base fee is not enforced any more once it was 0, see [do_mine_block]. *)
Definition mining_cfg (n : Node) : CfgEnv :=
  let c := cfg_env (env n) in
  if basefee (the_block_env n) =? 0
  then mkCfgEnv (cfg_chain_id c) (spec c) (disable_block_gas_limit c) true (tx_gas_limit_cap c) (limit_contract_code_size c)
  else c.
Definition next_number (n : Node) : Z := u_saturating_add 64 (best_number n) 1.
(** The environment of the block that is mined, but for its timestamp. *)
Definition mining_env (timestamp : Z) (n : Node) : EvmEnv :=
  let b := the_block_env n in
  mkEvmEnv (mining_cfg n)
    (mkBlockEnv (if is_arbitrum (cfg_chain_id (cfg_env (env n))) then next_number n else u_saturating_add 256 (number b) 1)
       timestamp (beneficiary b) (difficulty b)
       (Some (keccak256 (be_bytes 32 (best_hash n) ++ le_bytes 8 (next_number n))))
       (base_fee n) (gas_limit b) (excess_blob_gas_and_price n)).

(** The chain's copy of [is_eip3675] is that of the environment. *)
Definition merge_of (n : Node) : ChainBackend :=
  let c := chain n in
  {| Chain.storage := Chain.storage c; Chain.db := Chain.db c; Chain.block_states := Chain.block_states c;
     Chain.active_state_snapshots := Chain.active_state_snapshots c;
     Chain.prune_state_history_config := Chain.prune_state_history_config c;
     Chain.transaction_block_keeper := Chain.transaction_block_keeper c;
     Chain.slots_in_an_epoch := Chain.slots_in_an_epoch c; Chain.is_eip3675 := is_eip3675 n |}.

(** What is handed to the chain. *)
Definition outcome_of (i : BlockInfo) (d : State) : @Chain.Executed Header FoundryTxEnvelope TransactionInfo Receipt State :=
  {| Chain.e_db := d; Chain.e_block := {| Chain.header := header i; Chain.transactions_of := body i |};
     Chain.e_transactions := zip (infos i) (receipts i) |}.

(** The fees of the next block; the arguments of the second calculation are in
    the order of the code. *)
Definition next_fees (h : Header) (spec : Z) (f : FeeManager) : FeeManager :=
  let next_block_base_fee :=
    Fees.get_next_block_base_fee_per_gas calc_next_block_base_fee LONDON f (h_gas_used h) (h_gas_limit h)
      (default 0 (h_base_fee_per_gas h)) in
  let next_block_excess_blob_gas :=
    Fees.get_next_block_blob_excess_gas next_block_excess_blob_gas_osaka LONDON f
      (default 0 (h_excess_blob_gas h)) (default 0 (h_blob_gas_used h)) in
  Fees.set_blob_excess_gas_and_price
    (next_block_excess_blob_gas,
     calc_blob_gasprice next_block_excess_blob_gas (get_blob_base_fee_update_fraction_by_spec_id spec))
    (Fees.set_base_fee next_block_base_fee f).

Definition do_mine_block (now : Z) (pool_transactions : list PoolTransaction) (n : Node)
    : option (Pool.MinedBlockOutcome * Node) :=
  let '(timestamp, time) := TimeManager.next_timestamp now (time n) in
  let e := mining_env timestamp n in
  '(executed, d) ← execute (mkExecutor (inner (Chain.db (chain n))) (validator_of n) pool_transactions e (best_hash n) 0 0 (blob_params n));
  c ← Chain.mine_block hash_slow h_number h_difficulty tx_hash transaction_hash insert_block_hash
        (outcome_of (block executed) d) (merge_of n);
  let b := block_env e in
  (* the difficulty is 0 from now on *)
  let e := mkEvmEnv (cfg_env e) (mkBlockEnv (number b) timestamp (beneficiary b) 0 (prevrandao b) (basefee b) (gas_limit b)
                                   (blob_excess_gas_and_price b)) in
  Some (Pool.mkMinedBlockOutcome (next_number n) (included executed) (invalid executed),
        mkNode c e (next_fees (header (block executed)) (spec (cfg_env e)) (fees n)) time (node_cheats n)
          (node_disable_pool_balance_checks n)).

(** ** Snapshots *)
Definition create_state_snapshot (n : Node) : U256 * Node :=
  let '(i, c) := Chain.create_snapshot (chain n) in (i, set_chain c n).

(** The block environment and the clock of a block that is gone back to. *)
Definition env_of_block (num : Z) (h : Header) (b : BlockEnv) : BlockEnv :=
  mkBlockEnv num (h_timestamp h) (beneficiary b) (h_difficulty h) (Some (h_mix_hash h)) (basefee b) (h_gas_limit h)
    default_blob_excess_gas_and_price.
Definition go_to_block (now num : Z) (h : Header) (n : Node) : Node :=
  set_block_env (env_of_block num h (the_block_env n)) (set_time (TimeManager.reset now (h_timestamp h) (time n)) n).

Definition revert_state_snapshot (now : Z) (i : U256) (n : Node) : result Chain.BlockchainError bool * Node :=
  let '(r, c) := Chain.revert_snapshot tx_hash i (chain n) in
  let reverted := set_chain c n in
  match Chain.active_state_snapshots (chain n) !! i with
  | None => (r, reverted)
  | Some (num, h) =>
      match Chain.get_block_by_hash h (Chain.storage c) with
      | None => (r, reverted)
      | Some b => (r, go_to_block now num (Chain.header b) reverted)
      end
  end.

(** ** Rollback *)
Section rollback.
Context `{HashIter}.

(** The environment follows when the state of the block is known. *)
Definition rollback (now : Z) (common_block : Block) (n : Node) : result Chain.BlockchainError unit * Node :=
  let '(r, c) := Chain.rollback hash_slow h_number tx_hash insert_block_hash insert_account set_storage_at common_block (chain n) in
  let rolled := set_chain c n in
  match r with
  | Err Chain.DataUnavailable => (r, rolled)
  | _ =>
      let h := Chain.header common_block in
      let b := the_block_env n in
      (r, set_block_env (mkBlockEnv (h_number h) (h_timestamp h) (beneficiary b) (h_difficulty h) (Some (h_mix_hash h)) (basefee b)
                           (h_gas_limit h) (blob_excess_gas_and_price b))
            (set_time (TimeManager.reset now (h_timestamp h) (time n)) rolled))
  end.
End rollback.
End node.
