(* ===== verification/NodeSpec.v ===== *)
(** * What the node's backend keeps

    The blocks form a chain, unless the clock is set back or a stale snapshot is
    reverted, the base fee follows from block to block, and every transaction of a block is found afterwards with
    its receipt. *)
From S2P Require Import Prelude.
From S2P Require Import StateDb.
From S2P Require Import BlockStates.
From S2P Require Import Chain.
From S2P Require Import ChainSpec.
From S2P Require Import Fees.
From S2P Require Import TimeManager.
From S2P Require Import MultiFork.
From S2P Require Import PoolTx.
From S2P Require Import TxPool.
From S2P Require Import Validation.
From S2P Require Import Executor.
From S2P Require Import ExecutorSpec.
From S2P Require Import Node.
Local Open Scope Z_scope.

(** ** The storage *)
Section storage.
Context {Head Tx Info Rc Inner : Type} (hash : Head → B256) (diff : Head → Z) (tx_h : Tx → B256) (info_h : Info → B256).
Implicit Types s : @BlockchainStorage Head Tx Info Rc.

Definition header_at s (k : Z) : option Head := h ← hashes s !! k; Chain.header <$> blocks s !! h.

Lemma clear_headers h s :
  hashes (remove_block_transactions tx_h h s) = hashes s ∧
  (∀ x, Chain.header <$> blocks (remove_block_transactions tx_h h s) !! x = Chain.header <$> blocks s !! x) ∧
  Chain.best_hash (remove_block_transactions tx_h h s) = Chain.best_hash s ∧
  Chain.best_number (remove_block_transactions tx_h h s) = Chain.best_number s.
Proof.
  unfold remove_block_transactions. destruct (blocks s !! h) as [b|] eqn:Hb; [|done]. split_and!; try done.
  intros x. cbn. destruct (decide (x = h)) as [->|Hx]; [by rewrite lookup_insert_eq, Hb|by rewrite lookup_insert_ne].
Qed.

(** Whatever is cleared of old transactions, the headers are those that were
    stored. *)
Lemma store_headers (o : @Chain.Executed Head Tx Info Rc Inner) bn keeper merged s :
  let bh := hash (Chain.header (e_block o)) in
  let s' := store_block hash diff tx_h info_h o bn keeper merged s in
  hashes s' = <[bn := bh]> (hashes s) ∧
  (∀ x, Chain.header <$> blocks s' !! x = Chain.header <$> <[bh := e_block o]> (blocks s) !! x) ∧
  Chain.best_hash s' = bh ∧ Chain.best_number s' = bn.
Proof.
  cbn zeta. unfold store_block. cbn zeta. destruct keeper as [keeper|]; [|by destruct merged].
  match goal with |- context [remove_block_transactions_by_number tx_h ?num ?st] => set (st' := st); set (num' := num) end.
  assert (Hst : hashes st' = <[bn := hash (Chain.header (e_block o))]> (hashes s) ∧
    blocks st' = <[hash (Chain.header (e_block o)) := e_block o]> (blocks s) ∧
    Chain.best_hash st' = hash (Chain.header (e_block o)) ∧ Chain.best_number st' = bn) by (subst st'; by destruct merged).
  destruct Hst as (H1 & H2 & H3 & H4). destruct (_ <? _); [|by rewrite H1, H2].
  unfold remove_block_transactions_by_number. destruct (hashes st' !! num') as [h|]; [|by rewrite H1, H2].
  destruct (clear_headers h st') as (C1 & C2 & C3 & C4). rewrite C1, C3, C4, H1. split_and!; try done.
  intros x. by rewrite C2, H2.
Qed.

Lemma dropped l s :
  (∀ k, hashes (foldl (drop_block tx_h) s l) !! k = if decide (k ∈ l) then None else hashes s !! k) ∧
  (∀ x, (∀ i, i ∈ l → hashes s !! i ≠ Some x) → blocks (foldl (drop_block tx_h) s l) !! x = blocks s !! x).
Proof.
  revert s. induction l as [|i l IH]; intros s; [split; [intros k; by rewrite decide_False by (by intros ?%elem_of_nil)|done]|].
  cbn [foldl]. destruct (IH (drop_block tx_h s i)) as [Hh Hb]. split.
  - intros k. rewrite Hh. unfold drop_block. destruct (hashes s !! i) as [h|] eqn:Hi; cbn.
    + destruct (decide (k ∈ l)), (decide (k ∈ i :: l)) as [Hk|Hk]; try done; [set_solver| |].
      * apply elem_of_cons in Hk as [->|]; [by rewrite lookup_delete_eq|done].
      * apply lookup_delete_ne. set_solver.
    + destruct (decide (k ∈ l)), (decide (k ∈ i :: l)) as [Hk|Hk]; try done; [set_solver|].
      apply elem_of_cons in Hk as [->|]; done.
  - intros x Hx. rewrite Hb.
    + unfold drop_block. destruct (hashes s !! i) as [h|] eqn:Hi; [|done]. cbn. apply lookup_delete_ne.
      intros ->. apply (Hx i); [left|done].
    + intros j Hj. unfold drop_block. destruct (hashes s !! i) as [h|] eqn:Hi; cbn; [|apply Hx; by right].
      intros Hl%lookup_delete_Some. apply (Hx j); [by right|apply Hl].
Qed.

Lemma elem_of_range lo hi k : k ∈ range_inclusive lo hi ↔ lo <= k <= hi.
Proof. unfold range_inclusive. rewrite elem_of_seqZ. lia. Qed.

(** Going back leaves the headers up to the number. *)
Lemma reverted_headers num h s :
  one_number s → 0 <= num < umax 64 → num <= Chain.best_number s →
  (∀ k x, hashes s !! k = Some x → k <= Chain.best_number s) →
  let s' := revert_storage tx_h num h s in
  (∀ k, hashes s' !! k = if decide (k <= num) then hashes s !! k else None) ∧
  (∀ k x, k <= num → hashes s !! k = Some x → blocks s' !! x = blocks s !! x) ∧
  Chain.best_hash s' = h ∧ Chain.best_number s' = num.
Proof.
  intros Hone Hnum Hle Hab s'. subst s'. unfold revert_storage. rewrite revert_loop, wrap_id by (unfold in_u; lia).
  destruct (dropped (rev (range_inclusive (num + 1) (Chain.best_number s))) s) as [Hh Hb]. cbn. split_and!; try done.
  - intros k. rewrite Hh. assert (He : k ∈ rev (range_inclusive (num + 1) (Chain.best_number s)) ↔ num + 1 <= k <= Chain.best_number s).
    { by rewrite <-elem_of_range, list_elem_of_In, <-in_rev, <-list_elem_of_In. }
    destruct (hashes s !! k) as [x|] eqn:Hk; [|by repeat case_decide]. specialize (Hab k x Hk).
    repeat case_decide; try done; exfalso; naive_solver lia.
  - intros k x Hk Hx. apply Hb. intros i Hi%list_elem_of_In%in_rev%list_elem_of_In%elem_of_range Hix.
    assert (i = k) by (by eapply Hone). lia.
Qed.
End storage.

(** ** One block *)
Section spec.
Context {Hf : Hardforks} {Ex : Executes} {Vm : Evm} {Lib : NodeLib}.
Context {FS Path : Type} {Files : FileSystem FS Path} {Full : MaybeFullDatabase State}.
Abbreviation Node := (@Node.Node Ex Lib FS Path).
Implicit Types n : Node.

Lemma execute_header x e d :
  execute x = Some (e, d) →
  let h := header (block e) in
  let s := spec (cfg_env (evm_env x)) in
  h_parent_hash h = parent_hash x ∧ h_timestamp h = Z.min (umax 64) (timestamp (block_env (evm_env x))) ∧
  h_number h = Z.min (umax 64) (number (block_env (evm_env x))) ∧ h_gas_limit h = gas_limit (block_env (evm_env x)) ∧
  h_base_fee_per_gas h = (if LONDON <=? s then Some (basefee (block_env (evm_env x))) else None) ∧
  h_excess_blob_gas h = (if CANCUN <=? s then blob_excess_gas (block_env (evm_env x)) else None) ∧
  h_mix_hash h = default 0 (prevrandao (block_env (evm_env x))).
Proof. intros ([g y] & _ & [= <- <-])%bind_Some. done. Qed.

(** What a block that is mined consists of. *)
Record mines (now : Z) (txs : list PoolTransaction) n (o : Pool.MinedBlockOutcome) n' (x : ExecutedTransactions) (d : State) : Prop := {
  mi_executed : execute (mkExecutor (inner (Chain.db (chain n))) (validator_of n) txs
    (mining_env (TimeManager.next_timestamp now (time n)).1 n) (best_hash n) 0 0 (blob_params n)) = Some (x, d);
  mi_outcome : o = Pool.mkMinedBlockOutcome (next_number n) (included x) (invalid x);
  mi_storage : storage n' = store_block hash_slow h_difficulty tx_hash transaction_hash (outcome_of (block x) d) (next_number n)
    (Chain.transaction_block_keeper (chain n)) (is_eip3675 n) (storage n);
  mi_db : Chain.db (chain n') = {| inner := insert_block_hash (h_number (header (block x))) (hash_slow (header (block x))) d;
                                   db_snapshots := db_snapshots (Chain.db (chain n)) |};
  mi_snapshots : Chain.active_state_snapshots (chain n') = Chain.active_state_snapshots (chain n);
  mi_keeper : Chain.transaction_block_keeper (chain n') = Chain.transaction_block_keeper (chain n);
  mi_time : time n' = (TimeManager.next_timestamp now (time n)).2;
  mi_fees : fees n' = next_fees (header (block x)) (spec_id n) (fees n);
  mi_spec : cfg_env (env n') = mining_cfg n;
  mi_cheats : node_cheats n' = node_cheats n;
}.

Lemma do_mine_spec now txs n o n' : do_mine_block now txs n = Some (o, n') → ∃ x d, mines now txs n o n' x d.
Proof.
  unfold do_mine_block. destruct (TimeManager.next_timestamp now (time n)) as [ts tm] eqn:Ht.
  intros ([x d] & Hx & (c & Hc & [= <- <-])%bind_Some)%bind_Some. exists x, d.
  assert (Hm : Chain.storage c = store_block hash_slow h_difficulty tx_hash transaction_hash (outcome_of (block x) d) (next_number n)
      (Chain.transaction_block_keeper (chain n)) (is_eip3675 n) (storage n) ∧
    Chain.db c = {| inner := insert_block_hash (h_number (header (block x))) (hash_slow (header (block x))) d;
                    db_snapshots := db_snapshots (Chain.db (chain n)) |} ∧
    Chain.active_state_snapshots c = Chain.active_state_snapshots (chain n) ∧
    Chain.transaction_block_keeper c = Chain.transaction_block_keeper (chain n)).
  { apply bind_Some in Hc as (b & Hb & [= <-]). destruct (is_state_history_supported _).
    - apply bind_Some in Hb as (st & _ & [= <-]). done.
    - simplify_eq. done. }
  destruct Hm as (M1 & M2 & M3 & M4).
  assert (Hs : spec (mining_cfg n) = spec_id n) by (unfold mining_cfg, spec_id; by destruct (_ =? 0)).
  split; rewrite ?Ht; try done. cbn. by rewrite Hs.
Qed.

(** ** A chain of blocks *)
Record is_chain (base : Z) n : Prop := {
  ic_base : 0 <= base <= best_number n;
  ic_headers k : base <= k <= best_number n → is_Some (header_at (storage n) k);
  ic_hash k h : base <= k → header_at (storage n) k = Some h → hashes (storage n) !! k = Some (hash_slow h);
  ic_best : hashes (storage n) !! best_number n = Some (best_hash n);
  ic_linked k p c : base <= k → header_at (storage n) k = Some p → header_at (storage n) (k + 1) = Some c →
    h_parent_hash c = hash_slow p ∧ h_timestamp p <= h_timestamp c;
  ic_above k h : hashes (storage n) !! k = Some h → k <= best_number n;
  ic_one : one_number (storage n);
  ic_stamps k h : base <= k → header_at (storage n) k = Some h → in_u 64 (h_timestamp h);
  ic_clock h : header_at (storage n) (best_number n) = Some h → h_timestamp h <= TimeManager.last_timestamp (time n);
  ic_time : TimeManager.wf (time n);
}.

(** A step that changes neither the blocks nor the time of the last one. *)
Lemma same_blocks base n n' :
  is_chain base n → storage n' = storage n → TimeManager.wf (time n') →
  (∀ h, header_at (storage n) (best_number n) = Some h → h_timestamp h <= TimeManager.last_timestamp (time n')) →
  is_chain base n'.
Proof.
  intros [H1 H2 H3 H4 H5 H6 H7 H8 H9 H10] Hs Hwf Hl.
  assert (Hb : best_number n' = best_number n ∧ best_hash n' = best_hash n) by (unfold best_number, best_hash; by rewrite Hs).
  destruct Hb as [Hb1 Hb2]. split; rewrite ?Hs, ?Hb1, ?Hb2; done.
Qed.
Lemma same_chain base n n' :
  is_chain base n → storage n' = storage n → TimeManager.wf (time n') →
  TimeManager.last_timestamp (time n') = TimeManager.last_timestamp (time n) → is_chain base n'.
Proof.
  intros Hc Hs Hwf Hl. apply (same_blocks base n n' Hc Hs Hwf). rewrite Hl. apply Hc.
Qed.

(** The headers after a block is stored. *)
Lemma mined_headers now txs n o n' x d base :
  mines now txs n o n' x d → is_chain base n → (∀ k, hashes (storage n) !! k ≠ Some (best_hash n')) → best_number n < umax 64 →
  best_number n' = best_number n + 1 ∧ best_hash n' = hash_slow (header (block x)) ∧
  hashes (storage n') = <[best_number n + 1 := hash_slow (header (block x))]> (hashes (storage n)) ∧
  ∀ k, header_at (storage n') k = if decide (k = best_number n + 1) then Some (header (block x)) else header_at (storage n) k.
Proof.
  intros Hm Hc Hfresh Hmax. pose proof (ic_base _ _ Hc) as Hb.
  pose proof (store_headers hash_slow h_difficulty tx_hash transaction_hash (outcome_of (block x) d) (next_number n)
    (Chain.transaction_block_keeper (chain n)) (is_eip3675 n) (storage n)) as (S1 & S2 & S3 & S4).
  rewrite <-(mi_storage _ _ _ _ _ _ _ Hm) in S1, S2, S3, S4. cbn in S1, S2, S3, S4.
  assert (Hn : next_number n = best_number n + 1) by (unfold next_number, u_saturating_add; lia).
  rewrite Hn in S1, S4. unfold best_hash in Hfresh at 1. rewrite S3 in Hfresh. split_and!; try done.
  intros k. unfold header_at. rewrite S1. case_decide as Hk.
  - subst k. rewrite lookup_insert_eq. cbn. rewrite S2. by rewrite lookup_insert_eq.
  - rewrite lookup_insert_ne by done. destruct (hashes (storage n) !! k) as [h|] eqn:Hh; [|done]. cbn. rewrite S2.
    rewrite lookup_insert_ne; [done|]. intros <-. by apply (Hfresh k).
Qed.

Lemma mine_chain now txs n o n' x d base :
  mines now txs n o n' x d → is_chain base n → (∀ k, hashes (storage n) !! k ≠ Some (best_hash n')) → best_number n < umax 64 →
  in_u 64 now → TimeManager.last_timestamp (time n) < umax 64 → is_chain base n'.
Proof.
  intros Hm Hc Hfresh Hmax Hnow Hlast. destruct (mined_headers _ _ _ _ _ _ _ _ Hm Hc Hfresh Hmax) as (N1 & N2 & N3 & N4).
  destruct (execute_header _ _ _ (mi_executed _ _ _ _ _ _ _ Hm)) as (E1 & E2 & _). cbn in E1, E2.
  set (ts := (TimeManager.next_timestamp now (time n)).1) in *.
  assert (Hwf' : TimeManager.wf (time n')).
  { rewrite (mi_time _ _ _ _ _ _ _ Hm). pose proof (TimeManager.step_wf now TimeManager.Next (time n) Hnow I (ic_time _ _ Hc)) as Hw.
    cbn in Hw. by destruct (TimeManager.next_timestamp now (time n)). }
  assert (Hts : TimeManager.last_timestamp (time n') = ts ∧ TimeManager.last_timestamp (time n) <= ts).
  { rewrite (mi_time _ _ _ _ _ _ _ Hm), TimeManager.next_timestamp_last. split; [done|]. subst ts.
    rewrite TimeManager.next_timestamp_fst. by apply TimeManager.compute_next_ge_last; [apply Hc|]. }
  destruct Hts as [Hts1 Hts2].
  assert (Hu : in_u 64 ts) by (rewrite <-Hts1; apply Hwf').
  assert (Hstamp : h_timestamp (header (block x)) = ts) by (rewrite E2; unfold in_u in Hu; lia).
  destruct Hc as [H1 H2 H3 H4 H5 H6 H7 H8 H9 H10].
  assert (Hnone : hashes (storage n) !! (best_number n + 1) = None).
  { destruct (hashes (storage n) !! (best_number n + 1)) eqn:Hh; [|done]. apply H6 in Hh. lia. }
  split.
  - lia.
  - intros k Hk. rewrite N4. case_decide; [done|]. apply H2. lia.
  - intros k h Hk. rewrite N4, N3. case_decide; [intros [= <-]; subst; by rewrite lookup_insert_eq|].
    rewrite lookup_insert_ne by done. by apply H3.
  - rewrite N1, N2, N3. by rewrite lookup_insert_eq.
  - intros k p c Hk. rewrite !N4. destruct (decide (k = best_number n + 1)) as [->|Hk'].
    + rewrite decide_False by lia. unfold header_at. destruct (hashes (storage n) !! (best_number n + 1 + 1)) eqn:Hh; [|done].
      apply H6 in Hh. lia.
    + case_decide as Hk1; [|by apply H5]. intros Hp [= <-]. replace k with (best_number n) in * by lia.
      pose proof (H3 _ _ Hk Hp) as Hh. rewrite H4 in Hh. injection Hh as Hh. rewrite E1, Hh, Hstamp. split; [done|].
      specialize (H9 _ Hp). lia.
  - intros k h. rewrite N3, N1. intros [[<- _]|[_ Hh%H6]]%lookup_insert_Some; lia.
  - intros i j h. rewrite N3. intros Hi Hj. rewrite N2 in Hfresh.
    apply lookup_insert_Some in Hi as [[<- Hi]|[_ Hi]], Hj as [[<- Hj]|[_ Hj]]; [done| | |by eapply H7]; exfalso; eapply Hfresh; simplify_eq; done.
  - intros k h Hk. rewrite N4. case_decide; [|by apply H8]. intros [= <-]. by rewrite Hstamp.
  - intros h. rewrite N1, N4, decide_True by done. intros [= <-]. rewrite Hstamp, Hts1. lia.
  - done.
Qed.

(** Going back to a block of the chain. *)
Lemma revert_snapshot_storage i (c c' : @Chain.Backend Header FoundryTxEnvelope TransactionInfo Receipt FS Path State) r :
  revert_snapshot tx_hash i c = (r, c') →
  Chain.storage c' = match Chain.active_state_snapshots c !! i with
                     | Some (num, h) => revert_storage tx_hash num h (Chain.storage c)
                     | None => Chain.storage c
                     end.
Proof.
  unfold revert_snapshot. cbn zeta. intros Hr. destruct (Chain.active_state_snapshots c !! i) as [[num h]|].
  - destruct (get_block_by_hash _ _); [|by injection Hr as <- <-].
    destruct (revert_state i RevertRemove _) as [ok d]. by injection Hr as <- <-.
  - destruct (revert_state i RevertRemove _) as [ok d]. by injection Hr as <- <-.
Qed.
Lemma revert_chain now i n r n' base :
  revert_state_snapshot now i n = (r, n') → is_chain base n → in_u 64 now → best_number n < umax 64 →
  (∀ num h, Chain.active_state_snapshots (chain n) !! i = Some (num, h) → base <= num ∧ hashes (storage n) !! num = Some h) →
  is_chain base n'.
Proof.
  unfold revert_state_snapshot. destruct (revert_snapshot tx_hash i (chain n)) as [r0 ch] eqn:Hrev.
  apply revert_snapshot_storage in Hrev. intros Hr Hc Hnow Hmax Hon. pose proof Hc as [H1 H2 H3 H4 H5 H6 H7 H8 H9 H10].
  destruct (Chain.active_state_snapshots (chain n) !! i) as [[num h]|].
  2: { injection Hr as <- <-. by apply (same_chain _ n). }
  destruct (Hon num h eq_refl) as [Hbase Hnum]. clear Hon. pose proof (H6 _ _ Hnum) as Hle.
  destruct (H2 num) as [hd Hhd]; [done|]. pose proof (H3 _ _ Hbase Hhd) as Hh. rewrite Hnum in Hh. injection Hh as ->.
  assert (Hn : 0 <= num < umax 64) by lia.
  destruct (reverted_headers tx_hash num (hash_slow hd) (storage n) H7 Hn Hle H6) as (R1 & R2 & R3 & R4).
  change (Chain.storage (chain n)) with (storage n) in Hrev. rewrite Hrev in Hr. set (s' := revert_storage tx_hash num (hash_slow hd) (storage n)) in *. clearbody s'.
  assert (Hat : ∀ k, header_at s' k = if decide (k <= num) then header_at (storage n) k else None).
  { intros k. unfold header_at. rewrite R1. case_decide; [|done].
    destruct (hashes (storage n) !! k) as [x|] eqn:Hk; [|done]. cbn. by rewrite (R2 k x). }
  assert (Hblock : ∃ b, blocks s' !! hash_slow hd = Some b ∧ Chain.header b = hd).
  { pose proof Hhd as Hhd'. unfold header_at in Hhd'. rewrite Hnum in Hhd'. cbn in Hhd'. rewrite (R2 num) by done.
    destruct (blocks (storage n) !! hash_slow hd) as [b|]; [|done]. exists b. split; [done|]. by injection Hhd'. }
  destruct Hblock as (b & Hb & Hbh). unfold get_block_by_hash in Hr. rewrite Hb in Hr. injection Hr as <- <-. rewrite Hbh.
  assert (Hst : in_u 64 (h_timestamp hd)) by (by eapply H8).
  split; unfold best_number, best_hash, storage, go_to_block; cbn; rewrite ?Hrev, ?R3, ?R4.
  - lia.
  - intros k Hk. rewrite Hat, decide_True by lia. apply H2. lia.
  - intros k h Hk. rewrite Hat, R1. case_decide; [by apply H3|done].
  - rewrite R1. by rewrite decide_True by done.
  - intros k p c Hk. rewrite !Hat. repeat (case_decide; [|done]). by apply H5.
  - intros k h. rewrite R1. by case_decide.
  - intros k j h. rewrite !R1. repeat (case_decide; [|done]). apply H7.
  - intros k h Hk. rewrite Hat. case_decide; [|done]. by apply H8.
  - intros h. rewrite Hat, decide_True by done. rewrite Hhd. intros [= <-]. lia.
  - exact (TimeManager.step_wf now (TimeManager.Reset (h_timestamp hd)) (time n) Hnow Hst H10).
Qed.

(** ** Runs *)
Inductive request :=
| Mine (txs : list PoolTransaction)
| SetBlockNumber (number : Z)
| SetCoinbase (a : Address)
| SetGasLimit (gas_limit : Z)
| SetChainId (chain_id : Z)
| SetBaseFee (fee : Z)
| SetGasPrice (price : Z)
| SetCheats (c : Cheats.CheatsManager)
| Clock (o : TimeManager.op)
| SetNonce (a : Address) (nonce : Z)
| SetBalance (a : Address) (balance : U256)
| SetCode (a : Address) (code : list Z)
| Snapshot
| RevertTo (i : U256).

(** A request at the time [now]; [None] is a panic. *)
Definition serve (n : Node) (nr : Z * request) : option Node :=
  let '(now, r) := nr in
  match r with
  | Mine txs => snd <$> do_mine_block now txs n
  | SetBlockNumber k => Some (set_block_number k n)
  | SetCoinbase a => Some (set_coinbase a n)
  | SetGasLimit g => Some (set_gas_limit g n)
  | SetChainId c => Some (set_chain_id c n)
  | SetBaseFee fee => Some (set_base_fee fee n)
  | SetGasPrice p => Some (set_gas_price p n)
  | SetCheats c => Some (set_cheats c n)
  | Clock o => Some (set_time (TimeManager.step now o (time n)).1 n)
  | SetNonce a k => Some (on_db (set_nonce a k) n).2
  | SetBalance a b => Some (on_db (set_balance a b) n).2
  | SetCode a c => Some (on_db (set_code a c) n).2
  | Snapshot => Some (create_state_snapshot n).2
  | RevertTo i => Some (revert_state_snapshot now i n).2
  end.

(** What the runs are about: no hash is found twice, numbers and times stay below
    the end of their range, the clock is not set to a time before the last block,
    and a snapshot that is reverted to is one whose block the chain still has. *)
Definition request_ok (base : Z) n (nr : Z * request) n' : Prop :=
  in_u 64 nr.1 ∧ best_number n < umax 64 ∧ TimeManager.last_timestamp (time n) < umax 64 ∧
  match nr.2 with
  | Mine _ => ∀ k, hashes (storage n) !! k ≠ Some (best_hash n')
  | Clock o => TimeManager.op_in_range o ∧ o ≠ TimeManager.Next ∧
      ∀ t h, o = TimeManager.Reset t → header_at (storage n) (best_number n) = Some h → h_timestamp h <= t
  | RevertTo i => ∀ num h, Chain.active_state_snapshots (chain n) !! i = Some (num, h) →
      base <= num ∧ hashes (storage n) !! num = Some h
  | _ => True
  end.
Inductive runs (base : Z) : Node → list (Z * request) → Node → Prop :=
| runs_nil n : runs base n [] n
| runs_cons n r n1 rs n2 : serve n r = Some n1 → request_ok base n r n1 → runs base n1 rs n2 → runs base n (r :: rs) n2.

Lemma serve_chain base n r n' : is_chain base n → serve n r = Some n' → request_ok base n r n' → is_chain base n'.
Proof.
  destruct r as [now r]. intros Hc Hs (Hnow & Hmax & Hlast & Hr). cbn in Hnow, Hr.
  destruct r as [txs|k|a|g|c|fee|p|c|o|a k|a b|a c| |i]; cbn in Hs; simplify_eq.
  - apply fmap_Some in Hs as ([o n1] & Hm & ->). destruct (do_mine_spec _ _ _ _ _ Hm) as (x & d & Hm').
    by eapply mine_chain.
  - by apply (same_chain _ n); try apply Hc.
  - by apply (same_chain _ n); try apply Hc.
  - by apply (same_chain _ n); try apply Hc.
  - by apply (same_chain _ n); try apply Hc.
  - by apply (same_chain _ n); try apply Hc.
  - by apply (same_chain _ n); try apply Hc.
  - by apply (same_chain _ n); try apply Hc.
  - destruct Hr as (Ho & Hnext & Hres). apply (same_blocks _ n); [done|done|exact (TimeManager.step_wf now o (time n) Hnow Ho (ic_time _ _ Hc))|].
    intros h Hh. destruct (TimeManager.is_reset o) eqn:Hro.
    { destruct o as [t| | | | |]; try done. cbn. by eapply Hres. }
    destruct (TimeManager.step now o (time n)) as [tm t] eqn:Hst. cbn.
    rewrite (TimeManager.step_keeps_last _ _ _ _ _ Hst Hro). pose proof (ic_clock _ _ Hc _ Hh).
    destruct o; cbn in Hst; by simplify_eq/=.
  - unfold on_db. destruct (set_nonce a k _) as [r' i]. by apply (same_chain _ n); try apply Hc.
  - unfold on_db. destruct (set_balance a b _) as [r' i]. by apply (same_chain _ n); try apply Hc.
  - unfold on_db. destruct (set_code a c _) as [r' i]. by apply (same_chain _ n); try apply Hc.
  - by apply (same_chain _ n); try apply Hc.
  - destruct (revert_state_snapshot now i n) as [r1 n1] eqn:Hrev. by apply (revert_chain now i n r1).
Qed.

(** C5: The blocks form one chain: while blocks are mined, settings changed, the
    clock moved, accounts edited, snapshots taken and reverted, as long as the
    clock is not set to a time before the last block and only snapshots are
    reverted to whose block is still there, each number from the first block to
    the best one has a block, filed under its own hash, whose parent is the block
    before it and whose time is not before its parent's; the best hash is that of
    the last one, and no number beyond it has a block.  Both conditions are
    needed: [clock_set_back], and a stale snapshot leaves a best block that does
    not exist ([ChainSpec]).  Hashes are taken not to collide. *)
Theorem blocks_form_a_chain base n rs n' :
  is_chain base n → runs base n rs n' →
  base <= best_number n' ∧
  (∀ k, base <= k <= best_number n' → ∃ h, header_at (storage n') k = Some h ∧ hashes (storage n') !! k = Some (hash_slow h)) ∧
  (∀ k p c, base <= k → header_at (storage n') k = Some p → header_at (storage n') (k + 1) = Some c →
     h_parent_hash c = hash_slow p ∧ h_timestamp p <= h_timestamp c) ∧
  hashes (storage n') !! best_number n' = Some (best_hash n') ∧
  ∀ k, best_number n' < k → hashes (storage n') !! k = None.
Proof.
  intros Hc Hr. induction Hr as [n|n r n1 rs n2 Hs Hok _ IH]; [|apply IH; by eapply serve_chain].
  split_and!; [apply Hc| |apply Hc|apply Hc|].
  - intros k Hk. destruct (ic_headers _ _ Hc k Hk) as [h Hh]. exists h. split; [done|]. apply (ic_hash _ _ Hc); [lia|done].
  - intros k Hk. destruct (hashes (storage n) !! k) eqn:Hh; [|done]. apply (ic_above _ _ Hc) in Hh. lia.
Qed.

(** ** The base fee *)

(** The base fee after a block; a fee of 0 stays. *)
Definition fee_after (params : BaseFeeParams) (h : Header) : Z :=
  if default 0 (h_base_fee_per_gas h) =? 0 then 0
  else calc_next_block_base_fee (h_gas_used h) (h_gas_limit h) (default 0 (h_base_fee_per_gas h)) params.

Record fees_follow (params : BaseFeeParams) (base : Z) n : Prop := {
  ff_params : Fees.base_fee_params (fees n) = params;
  ff_london : LONDON <= Fees.spec_id (fees n) ∧ LONDON <= spec_id n;
  ff_next h : header_at (storage n) (best_number n) = Some h → base_fee n = fee_after params h;
  ff_linked k p c : base <= k → header_at (storage n) k = Some p → header_at (storage n) (k + 1) = Some c →
    h_base_fee_per_gas c = Some (fee_after params p);
}.
Definition leaves_fees (nr : Z * request) : Prop :=
  match nr.2 with SetBaseFee _ | RevertTo _ => False | _ => True end.

Lemma same_fees params base n n' :
  fees_follow params base n → storage n' = storage n → spec_id n' = spec_id n →
  Fees.base_fee_params (fees n') = Fees.base_fee_params (fees n) → Fees.spec_id (fees n') = Fees.spec_id (fees n) →
  base_fee n' = base_fee n → fees_follow params base n'.
Proof.
  intros [H1 H2 H3 H4] Hs Hsp Hp Hfs Hb. assert (Hn : best_number n' = best_number n) by (unfold best_number; by rewrite Hs).
  by split; rewrite ?Hs, ?Hn, ?Hb, ?Hp, ?Hfs, ?Hsp.
Qed.

Lemma mine_fees now txs n o n' x d base params :
  mines now txs n o n' x d → is_chain base n → fees_follow params base n →
  (∀ k, hashes (storage n) !! k ≠ Some (best_hash n')) → best_number n < umax 64 → fees_follow params base n'.
Proof.
  intros Hm Hc [F1 [F2 F2'] F3 F4] Hfresh Hmax. destruct (mined_headers _ _ _ _ _ _ _ _ Hm Hc Hfresh Hmax) as (N1 & N2 & N3 & N4).
  destruct (execute_header _ _ _ (mi_executed _ _ _ _ _ _ _ Hm)) as (_ & _ & _ & _ & E & _). cbn in E.
  assert (Hspec : spec (mining_cfg n) = spec_id n) by (unfold mining_cfg, spec_id; by destruct (_ =? 0)).
  apply Z.leb_le in F2' as Hl. rewrite Hspec, Hl in E.
  assert (Hst : Fees.spec_id (fees n') = Fees.spec_id (fees n) ∧ Fees.base_fee_params (fees n') = Fees.base_fee_params (fees n)).
  { by rewrite (mi_fees _ _ _ _ _ _ _ Hm). }
  destruct Hst as [Hst1 Hst2].
  assert (Hs' : spec_id n' = spec_id n) by (unfold spec_id at 1; by rewrite (mi_spec _ _ _ _ _ _ _ Hm)).
  split; [by rewrite Hst2|by rewrite Hst1, Hs'| |].
  - intros h. rewrite N1, N4, decide_True by done. intros [= <-]. unfold base_fee at 1, Fees.base_fee, Fees.is_eip1559.
    rewrite Hst1. apply Z.leb_le in F2 as Hl'. rewrite Hl'. rewrite (mi_fees _ _ _ _ _ _ _ Hm). cbn.
    unfold fee_after, Fees.get_next_block_base_fee_per_gas. rewrite E, F1. cbn. by fold (base_fee n).
  - intros k p c Hk. rewrite !N4. destruct (decide (k = best_number n + 1)) as [->|Hk'].
    + rewrite decide_False by lia. unfold header_at. destruct (hashes (storage n) !! (best_number n + 1 + 1)) eqn:Hh; [|done].
      apply (ic_above _ _ Hc) in Hh. lia.
    + case_decide as Hk1; [|by apply F4]. intros Hp [= <-]. replace k with (best_number n) in * by lia.
      by rewrite E, (F3 _ Hp).
Qed.

Lemma serve_fees params base n r n' :
  is_chain base n → fees_follow params base n → serve n r = Some n' → request_ok base n r n' → leaves_fees r →
  fees_follow params base n'.
Proof.
  destruct r as [now r]. intros Hc Hff Hs (Hnow & Hmax & Hlast & Hr) Hl. cbn in Hnow, Hr, Hl.
  destruct r as [txs|k|a|g|c|fee|p|c|o|a k|a b|a c| |i]; cbn in Hs; simplify_eq; try done.
  all: try by apply (same_fees _ _ n).
  - apply fmap_Some in Hs as ([o n1] & Hm & ->). destruct (do_mine_spec _ _ _ _ _ Hm) as (x & d & Hm').
    by eapply mine_fees.
  - unfold on_db. destruct (set_nonce a k _) as [r' i]. by apply (same_fees _ _ n).
  - unfold on_db. destruct (set_balance a b _) as [r' i]. by apply (same_fees _ _ n).
  - unfold on_db. destruct (set_code a c _) as [r' i]. by apply (same_fees _ _ n).
Qed.

(** C9: The base fee is that of EIP-1559: as long as it is not set by hand and
    nothing is reverted, each block has the base fee that its parent's gas, gas
    limit and base fee give, whatever else is asked of the node between the
    blocks, a gas limit that is changed included. *)
Theorem base_fee_follows params base n rs n' :
  is_chain base n → fees_follow params base n → runs base n rs n' → Forall leaves_fees rs →
  (∀ k p c, base <= k → header_at (storage n') k = Some p → header_at (storage n') (k + 1) = Some c →
     h_base_fee_per_gas c = Some (fee_after params p)) ∧
  ∀ h, header_at (storage n') (best_number n') = Some h → base_fee n' = fee_after params h.
Proof.
  intros Hc Hff Hr. induction Hr as [n|n r n1 rs n2 Hs Hok _ IH]; intros Hl.
  - split; apply Hff.
  - apply Forall_cons in Hl as [Hl Hls]. apply IH; [by eapply serve_chain|by eapply serve_fees|done].
Qed.

(** ** The transactions of a block *)

Lemma stored_at {Info Rc} (h : Info → B256) (l : list (Info * Rc)) bh bn (m : gmap B256 (@MinedTransaction Info Rc)) i x :
  NoDup (h <$> l.*1) → l !! i = Some x →
  foldl (λ m '(info, receipt), <[h info := {| tx_info := info; receipt := receipt; block_hash := bh; block_number := bn |}]> m) m l
    !! h x.1 = Some {| tx_info := x.1; receipt := x.2; block_hash := bh; block_number := bn |}.
Proof.
  revert m i. induction l as [|[info rc] l IH]; intros m i Hnd Hi; [done|]. cbn in Hnd. apply NoDup_cons in Hnd as [Hn Hnd].
  destruct i as [|i]; cbn in Hi |- *; [|by eapply IH]. injection Hi as <-. cbn.
  rewrite (stored_txs h l bh bn); [by rewrite lookup_insert_eq|]. intros y Hy Heq. apply Hn. rewrite <-Heq.
  apply list_elem_of_fmap. exists y.1. split; [done|]. apply list_elem_of_fmap. by exists y.
Qed.

Context {Laws : EvmLaws}.

(** C10: What is mined is found: each transaction that a block includes is found
    under its hash with the index, the receipt, the hash and the number of that
    block, which is the best one from then on and has the transaction at that
    index of its body, the receipt with the gas of the transactions up to it; the
    outcome that is handed to the pool has the same transactions and number. *)
Theorem mined_are_found now txs n o n' :
  do_mine_block now txs n = Some (o, n') → Forall has_receipt txs → Chain.transaction_block_keeper (chain n) = None →
  NoDup (PoolTx.hash <$> Pool.included o) →
  Pool.block_number o = best_number n' ∧
  ∃ ts, transaction <$> ts = Pool.included o ∧
  ∀ i e, ts !! i = Some e →
    (∃ b, blocks (storage n') !! best_hash n' = Some b ∧ transactions_of b !! i = Some (envelope (transaction e))) ∧
    get_transaction_by_hash (PoolTx.hash (transaction e)) (storage n') =
      Some {| tx_info := info_of e i; receipt := receipt_at ts i e; block_hash := best_hash n'; block_number := best_number n' |}.
Proof.
  intros Hm Hall Hkeep Hnd. destruct (do_mine_spec _ _ _ _ _ Hm) as (x & d & [M1 M2 M3 _ _ _ _ _ _ _]).
  rewrite Hkeep in M3. match type of M1 with execute ?v = _ => destruct (execute_spec v Hall) as (x' & os & y & Hx & _ & E1 & _ & E3 & E4 & E5 & _) end.
  rewrite M1 in Hx. injection Hx as <- _. set (ts := omap executed_of os) in *.
  assert (Hz : zip (infos (block x)) (receipts (block x)) = imap (λ i e, (info_of e i, receipt_at ts i e)) ts).
  { rewrite E4, E5. apply list_eq. intros i. rewrite lookup_zip_with, !list_lookup_imap. by destruct (ts !! i). }
  assert (Hb : best_number n' = next_number n ∧ best_hash n' = hash_slow (header (block x)) ∧
    blocks (storage n') !! best_hash n' = Some (e_block (outcome_of (block x) d)) ∧
    transactions (storage n') = foldl (λ m '(info, receipt), <[transaction_hash info :=
      {| tx_info := info; receipt := receipt; block_hash := best_hash n'; block_number := best_number n' |}]> m)
      (transactions (storage n)) (zip (infos (block x)) (receipts (block x)))).
  { unfold best_number, best_hash. rewrite M3. unfold store_block. destruct (is_eip3675 n); cbn; by rewrite lookup_insert_eq. }
  destruct Hb as (B1 & B2 & B3 & B4). subst o. cbn in *. split; [done|]. exists ts. split; [by rewrite E1|].
  intros i e Hi. split.
  - exists (e_block (outcome_of (block x) d)). split; [done|]. cbn. rewrite E3, E1, !list_lookup_fmap, Hi. done.
  - unfold get_transaction_by_hash. rewrite B4, Hz.
    apply (stored_at transaction_hash _ _ _ _ i (info_of e i, receipt_at ts i e)); [|by rewrite list_lookup_imap, Hi].
    assert (He : transaction_hash <$> (imap (λ i e, (info_of e i, receipt_at ts i e)) ts).*1 = PoolTx.hash <$> included x).
    { rewrite E1. apply list_eq. intros j. rewrite !list_lookup_fmap, list_lookup_imap. by destruct (ts !! j). }
    by rewrite He.
Qed.
End spec.

(** ** An example *)
Module NodeExample.
Export ExecutorExample.
Abbreviation Files := (gmap (Z * B256) StateSnapshot).
#[export] Instance files : FileSystem Files Z := BlockStatesSpec.StatesExample.files_fs (λ _, true).
#[export] Instance full : MaybeFullDatabase (gmap Address (Z * Z)) := {|
  maybe_as_full_db _ := None;
  clear_into_state_snapshot d := (snapshot_default, ∅);
  read_as_state_snapshot _ := snapshot_default;
  init_from_state_snapshot _ d := d |}.

(** EIP-1559, EIP-4844 and EIP-7918; a fee for blobs that grows by a thousandth. *)
Definition next_base_fee (gas_used gas_limit fee : Z) (p : Z * Z) : Z :=
  let target := gas_limit / p.2 in
  if gas_used =? target then fee
  else if target <? gas_used then fee + Z.max 1 (fee * (gas_used - target) / target / p.1)
  else Z.max 0 (fee - fee * (target - gas_used) / target / p.1).
Definition blob_price (excess : Z) : Z := 1 + excess / 1000.
Definition next_excess (p : BlobParams) (excess used base_fee : Z) : Z :=
  let max := max_blob_gas_per_block p in
  let target := max * 2 / 3 in
  if excess + used <? target then 0
  else if 131072 * blob_price excess <? 8192 * base_fee then excess + used * (max - target) / max
  else excess + used - target.
#[export] Instance node_lib : NodeLib := {|
  hash_slow h := 1 + h_timestamp h + 100000 * h_number h;
  keccak256 l := foldl (λ a b, wrap 256 (31 * a + b)) 7 l;
  tx_hash tx := env_nonce tx;
  named_arbitrum c := c =? 42161;
  MERGE := 15;
  BERLIN := 11;
  cancun := mkBlobParams 6 786432;
  prague := mkBlobParams 9 1179648;
  osaka := mkBlobParams 9 1179648;
  BaseFeeParams := Z * Z;
  calc_next_block_base_fee := next_base_fee;
  next_block_excess_blob_gas_osaka := next_excess;
  get_blob_base_fee_update_fraction_by_spec_id _ := 1000;
  calc_blob_gasprice excess _ := blob_price excess;
  default_blob_excess_gas_and_price := Some (0, 1);
  blob_tx_validate _ := None;
  insert_block_hash _ _ d := d;
  insert_account a i d := <[a := (balance i, nonce i)]> d;
  set_storage_at _ _ _ d := (true, d) |}.

Definition params : @BaseFeeParams executes node_lib := (8, 2).
Definition genesis_header : Header :=
  mkHeader 0 0 0 0 0 [] 0 0 30000000 0 1000 0 (Some 1000) (Some 0) (Some 0) (Some 0) true false.
Definition node0 : @Node executes node_lib Files Z :=
  mkNode {| Chain.storage := storage_new hash_slow {| Chain.header := genesis_header; transactions_of := [] |} 0;
            Chain.db := MemDb_new {[ 1 := (10 ^ 18, 0); 2 := (10 ^ 18, 5) ]};
            Chain.block_states := BlockStates.new 10 0 BlockStatesSpec.StatesExample.cache;
            Chain.active_state_snapshots := ∅; Chain.prune_state_history_config := from_args None;
            Chain.transaction_block_keeper := None; Chain.slots_in_an_epoch := 32; Chain.is_eip3675 := true |}
    (mkEvmEnv (mkCfgEnv 31337 17 false false None None) (mkBlockEnv 0 1000 0 0 None 1000 30000000 (Some (0, 1))))
    (Fees.mkFeeManager 17 cancun 875 true (0, 1) 2000 (8, 2)) (TimeManager.new 1000 1000) Cheats.CheatsManager_default false.

Definition paying_tx (h a n : Z) : PoolTransaction :=
  PoolTransaction_new {| pt_transaction := mkEnvelope Eip1559 2 n 21000 1000 (Some 1) (Some 31337) (Some 7) 5 0 0 None None 0;
                         pt_sender := a; pt_hash := h |}.
Definition after (n : @Node executes node_lib Files Z) (r : Z * request) := default n (serve n r).
Lemma serves n r : match serve n r with Some _ => true | None => false end = true → serve n r = Some (after n r).
Proof. unfold after. by destruct (serve n r). Qed.

Definition r1 : Z * request := (1010, Mine [paying_tx 101 1 0; paying_tx 102 2 5]).
Definition r2 : Z * request := (1015, Snapshot).
Definition r3 : Z * request := (1020, Clock (TimeManager.IncreaseTime 60)).
Definition r4 : Z * request := (1020, Mine [paying_tx 103 1 1]).
Definition r5 : Z * request := (1030, SetGasLimit 20000000).
Definition r6 : Z * request := (1030, RevertTo 0).
Definition r7 : Z * request := (1040, Mine [paying_tx 104 1 1]).
Definition node1 := after node0 r1.
Definition node2 := after node1 r2.
Definition node3 := after node2 r3.
Definition node4 := after node3 r4.
Definition node5 := after node4 r5.
Definition node6 := after node5 r6.
Definition node7 := after node6 r7.
Definition chain_of (n : @Node executes node_lib Files Z) : list (option (Z * Z * Z)) :=
  (λ k, (λ h, (h_number h, h_timestamp h, default 0 (h_base_fee_per_gas h))) <$> header_at (storage n) k) <$> seqZ 0 4.
Example chains :
  chain_of node5 = [Some (0, 1000, 1000); Some (1, 1010, 875); Some (2, 1080, 766); None] ∧
  chain_of node7 = [Some (0, 1000, 1000); Some (1, 1010, 875); Some (2, 1020, 671); None].
Proof. vm_compute. split; reflexivity. Qed.

Lemma values_differ (m : gmap Z B256) (x : B256) : map_Forall (λ _ h, h ≠ x) m → ∀ k, m !! k ≠ Some x.
Proof. intros Hm k Hk. by apply (Hm k x Hk). Qed.
Ltac by_compute := apply (bool_decide_unpack _); vm_compute; exact I.
Ltac ok_step :=
  split; [split; vm_compute; discriminate|split; [vm_compute; reflexivity|split; [vm_compute; reflexivity|]]].

Ltac step n r n' := apply (runs_cons 0 n r n'); [apply serves; vm_compute; reflexivity|ok_step; unfold r; cbn [snd]|].
Ltac new_hash := apply values_differ; by_compute.

Lemma node0_chain : is_chain 0 node0.
Proof.
  assert (Hk : ∀ k x, hashes (storage node0) !! k = Some x → k = 0 ∧ x = 1001).
  { intros k x Hx. change (hashes (storage node0)) with ({[0 := 1001]} : gmap Z Z) in Hx. by apply lookup_singleton_Some in Hx as [<- <-]. }
  assert (Hh : ∀ k h, header_at (storage node0) k = Some h → k = 0 ∧ h = genesis_header).
  { intros k h (x & Hx & Hb)%bind_Some. destruct (Hk _ _ Hx) as [-> ->]. split; [done|]. vm_compute in Hb. by injection Hb. }
  split.
  - vm_compute. split; discriminate.
  - intros k Hb. change (best_number node0) with 0 in Hb. assert (k = 0) as -> by lia. vm_compute. eauto.
  - intros k h _ [-> ->]%Hh. vm_compute. reflexivity.
  - vm_compute. reflexivity.
  - intros k p c _ [-> _]%Hh [? _]%Hh. lia.
  - intros k h [-> _]%Hk. vm_compute. discriminate.
  - intros i j h [-> _]%Hk [-> _]%Hk. done.
  - intros k h _ [_ ->]%Hh. vm_compute. split; discriminate.
  - intros h [_ ->]%Hh. vm_compute. discriminate.
  - change (time node0) with (TimeManager.new 1000 1000). split; [by split|by split|done|done].
Qed.

Lemma the_run : runs 0 node0 [r1; r2; r3; r4; r5; r6; r7] node7.
Proof.
  step node0 r1 node1; [new_hash|]. step node1 r2 node2; [exact I|].
  step node2 r3 node3; [split; [vm_compute; split; discriminate|split; [done|by intros t h [=]]]|]. step node3 r4 node4; [new_hash|].
  step node4 r5 node5; [exact I|]. step node5 r6 node6.
  { intros num h Hs. vm_compute in Hs. injection Hs as <- <-. split; [done|vm_compute; reflexivity]. }
  step node6 r7 node7; [new_hash|]. apply runs_nil.
Qed.
Lemma blocks_form_a_chain_witness :
  (∃ h, header_at (storage node7) 2 = Some h ∧ hashes (storage node7) !! 2 = Some (hash_slow h)) ∧
  hashes (storage node7) !! 3 = None.
Proof.
  destruct (blocks_form_a_chain 0 node0 _ node7 node0_chain the_run) as (_ & H1 & _ & _ & H2). split.
  - apply H1. vm_compute. split; discriminate.
  - apply H2. vm_compute. reflexivity.
Defined.

Lemma node0_fees : fees_follow params 0 node0.
Proof.
  split; [done|split; vm_compute; discriminate| |].
  - intros h Hh. vm_compute in Hh. injection Hh as <-. vm_compute. reflexivity.
  - intros k p c Hk Hp Hc. destruct (ic_headers _ _ node0_chain 0) as [h Hh]; [vm_compute; split; discriminate|].
    apply bind_Some in Hc as (x & Hx & _). apply (ic_above _ _ node0_chain) in Hx. change (best_number node0) with 0 in Hx. lia.
Qed.
Lemma fees_run : runs 0 node0 [r1; r2; r3; r4; r5] node5.
Proof.
  step node0 r1 node1; [new_hash|]. step node1 r2 node2; [exact I|].
  step node2 r3 node3; [split; [vm_compute; split; discriminate|split; [done|by intros t h [=]]]|]. step node3 r4 node4; [new_hash|].
  step node4 r5 node5; [exact I|]. apply runs_nil.
Qed.
Lemma base_fee_follows_witness :
  ∃ p c, header_at (storage node5) 1 = Some p ∧ header_at (storage node5) 2 = Some c ∧
    h_base_fee_per_gas p = Some 875 ∧ h_gas_used p = 42000 ∧ h_base_fee_per_gas c = Some 766 ∧
    h_base_fee_per_gas c = Some (fee_after params p).
Proof.
  destruct (base_fee_follows params 0 node0 _ node5 node0_chain node0_fees fees_run) as [Hf _].
  - repeat (constructor; [exact I|]). constructor.
  - destruct (header_at (storage node5) 1) as [p|] eqn:Hp; [|vm_compute in Hp; discriminate Hp].
    destruct (header_at (storage node5) 2) as [c|] eqn:Hc; [|vm_compute in Hc; discriminate Hc].
    exists p, c. split; [reflexivity|]. split; [reflexivity|].
    split; [vm_compute in Hp; injection Hp as <-; reflexivity|].
    split; [vm_compute in Hp; injection Hp as <-; reflexivity|].
    split; [vm_compute in Hc; injection Hc as <-; reflexivity|]. apply (Hf 1); [lia|exact Hp|exact Hc].
Defined.

Definition outcome1 : Pool.MinedBlockOutcome := default (Pool.mkMinedBlockOutcome 0 [] []) (fst <$> do_mine_block 1010 [paying_tx 101 1 0; paying_tx 102 2 5] node0).
Lemma mined_are_found_witness :
  PoolTx.hash <$> Pool.included outcome1 = [101; 102] ∧
  (∃ ts, transaction <$> ts = Pool.included outcome1 ∧ ∀ i e, ts !! i = Some e →
     (∃ b, blocks (storage node1) !! best_hash node1 = Some b ∧ transactions_of b !! i = Some (envelope (transaction e))) ∧
     get_transaction_by_hash (PoolTx.hash (transaction e)) (storage node1) =
       Some {| tx_info := info_of e i; receipt := receipt_at ts i e; block_hash := best_hash node1; block_number := best_number node1 |}).
Proof.
  split; [vm_compute; reflexivity|].
  assert (Hm : do_mine_block 1010 [paying_tx 101 1 0; paying_tx 102 2 5] node0 = Some (outcome1, node1)).
  { assert (Hn : match do_mine_block 1010 [paying_tx 101 1 0; paying_tx 102 2 5] node0 with Some _ => true | None => false end = true)
      by (vm_compute; reflexivity).
    unfold outcome1, node1, after, serve, r1. revert Hn. by destruct (do_mine_block 1010 _ node0) as [[o n]|]. }
  apply (mined_are_found 1010 [paying_tx 101 1 0; paying_tx 102 2 5] node0 outcome1 node1 Hm).
  - repeat apply Forall_cons_2; try apply Forall_nil_2; split; vm_compute; discriminate.
  - reflexivity.
  - by_compute.
Defined.

(** The excess of blobs is calculated with the blob gas of the block for its
    excess and the other way around, which makes a difference since EIP-7918: here
    a block with an excess of 3000000 and no blobs is followed by an excess as if
    it had had 3000000 of blob gas, a third of it instead of all. *)
Definition no_blobs : Header :=
  mkHeader 0 0 0 0 0 [] 0 1 30000000 0 1000 0 (Some 100) (Some 0) (Some 0) (Some 3000000) true false.
Definition osaka_fees : @Fees.FeeManager BlobParams (Z * Z) (Z * Z) :=
  Fees.mkFeeManager 19 osaka 100 true (3000000, blob_price 3000000) 2000 (8, 2).
Example blob_arguments_swapped :
  (Fees.blob_excess_gas_and_price (next_fees no_blobs 19 osaka_fees)).1 = 1000000 ∧
  next_excess osaka 3000000 0 100 = 2213568.
Proof. vm_compute. split; reflexivity. Qed.

(** Where the clock is set to a time before the last block ([evm_setTime]), the
    next block is older than its parent. *)
Example clock_set_back :
  chain_of (after (after node1 (1020, Clock (TimeManager.Reset 500))) (1030, Mine [])) =
    [Some (0, 1000, 1000); Some (1, 1010, 875); Some (2, 510, 766); None].
Proof. vm_compute. reflexivity. Qed.

(** After a revert the base fee is not that of the block that was gone back to:
    here the first block after the revert has the fee that would have followed
    the block that is gone. *)
Example base_fee_after_revert :
  (base_fee node5, base_fee node6, (λ h, fee_after params h) <$> header_at (storage node6) 1) = (671, 671, Some 766).
Proof. vm_compute. reflexivity. Qed.

(** Once a block was mined with a base fee of 0, the check of the base fee is off
    for good, whatever the fee is set to afterwards. *)
Definition zero_fee : @Node executes node_lib Files Z :=
  after (after (after (after node0 (1, SetBaseFee 0)) (1010, Mine [])) (1020, SetBaseFee 50)) (1020, Mine []).
Definition back_on : @Node executes node_lib Files Z := after zero_fee (1030, Mine []).
Example base_fee_stays_off :
  (basefee (block_env (env zero_fee)), disable_base_fee (cfg_env (env zero_fee)),
   basefee (block_env (env back_on)), disable_base_fee (cfg_env (env back_on))) = (50, true, 44, true).
Proof. vm_compute. reflexivity. Qed.
End NodeExample.
