(* ===== verification/Miner.v ===== *)
(** * The miner and the service that drives it

    Models [anvil/src/eth/miner.rs] and [anvil/src/service.rs]: the modes of
    mining, the miner that picks the transactions of the next block, the producer
    that mines one block at a time, and the loop of [NodeService::poll] that joins
    them with the pool.

    The interval of tokio is the class [Intervals].  The backend is a parameter
    that mines a block; a poll of the task that mines finds it finished or not,
    which is an argument.  An iterator that is collected is run for at most
    [limit] transactions.  The wakers are not modelled: the theorems are about
    polls, however they come about. *)
From S2P Require Import Prelude.
From S2P Require Import PoolTx.
From S2P Require Import PendingPool.
From S2P Require Import ReadyPool.
From S2P Require Import TxPool.

Class Intervals := {
  Interval : Type;
  (** Whether the interval has ticked, and the interval afterwards. *)
  poll_tick : Interval → bool * Interval;
  (** [interval_at] of a period from now on; [period] in seconds. *)
  interval_at : Z → Interval;
  period : Interval → Z;
}.

Section miner.
Context `{HashIter} {Ticks : Intervals} (limit : nat).

(** [Poll::Pending] is [None]. *)
Record ReadyTransactionMiner := mkReadyMiner {
  max_transactions : nat;
  has_pending_txs : option bool;
  (** The notifications that wait in the channel. *)
  rx : list TxHash;
}.
Inductive MiningMode :=
| NoMining
| Auto (m : ReadyTransactionMiner)
| FixedBlockTime (interval : Interval)
| Mixed (auto : ReadyTransactionMiner) (interval : Interval).

Definition instant (max_transactions : nat) : MiningMode := Auto (mkReadyMiner max_transactions None []).

Definition ready_iter (p : PoolInner) : TransactionsIterator := ReadyTransactions.get_transactions (ready_transactions p).

(** [ReadyTransactionMiner::poll] *)
Definition poll_ready (p : PoolInner) (m : ReadyTransactionMiner) : option (list PoolTransaction) * ReadyTransactionMiner :=
  let has_pending := match rx m with [] => has_pending_txs m | _ => Some true end in
  if bool_decide (has_pending = Some false)
  then (None, mkReadyMiner (max_transactions m) has_pending [])
  else
    let transactions := TransactionsIterator.take_n (max_transactions m) (ready_iter p) in
    let m := mkReadyMiner (max_transactions m) (Some (max_transactions m <=? length transactions)%nat) [] in
    (match transactions with [] => None | _ => Some transactions end, m).

(** [FixedBlockTimeMiner::poll] *)
Definition poll_fixed (p : PoolInner) (i : Interval) : option (list PoolTransaction) * Interval :=
  let '(ticked, i) := poll_tick i in
  (if ticked then Some (TransactionsIterator.take_n limit (ready_iter p)) else None, i).

(** The transactions of the interval that are not in the list yet. *)
Definition combine (auto_txs fixed_txs : list PoolTransaction) : list PoolTransaction :=
  foldl (λ acc tx, if existsb (λ a, hash a =? hash tx)%Z acc then acc else acc ++ [tx]) auto_txs fixed_txs.

(** [MiningMode::poll] *)
Definition poll_mode (p : PoolInner) (mode : MiningMode) : option (list PoolTransaction) * MiningMode :=
  match mode with
  | NoMining => (None, NoMining)
  | Auto m => let '(txs, m) := poll_ready p m in (txs, Auto m)
  | FixedBlockTime i => let '(txs, i) := poll_fixed p i in (txs, FixedBlockTime i)
  | Mixed m i =>
      let '(auto_txs, m) := poll_ready p m in
      let '(fixed_txs, i) := poll_fixed p i in
      (match auto_txs, fixed_txs with
       | Some auto_txs, Some fixed_txs => Some (combine auto_txs fixed_txs)
       | Some auto_txs, None => Some auto_txs
       | None, fixed_txs => fixed_txs
       end, Mixed m i)
  end.

Record Miner := mkMiner { mode : MiningMode; force_transactions : option (list PoolTransaction) }.
Definition Miner_new (mode : MiningMode) : Miner := mkMiner mode None.
Definition with_forced_transactions (l : option (list PendingTransaction)) (m : Miner) : Miner :=
  mkMiner (mode m) (fmap (M := list) PoolTransaction_new <$> l).
Definition set_mining_mode (mode : MiningMode) (m : Miner) : Miner := mkMiner mode (force_transactions m).
Definition is_auto_mine (m : Miner) : bool := match mode m with Auto _ => true | _ => false end.
Definition get_interval (m : Miner) : option Z := match mode m with FixedBlockTime i => Some (period i) | _ => None end.

(** [Miner::poll] *)
Definition poll (p : PoolInner) (m : Miner) : option (list PoolTransaction) * Miner :=
  let '(next, mode) := poll_mode p (mode m) in
  match next with
  | None => (None, mkMiner mode (force_transactions m))
  | Some next =>
      match force_transactions m with
      | Some transactions => (Some (transactions ++ next), mkMiner mode None)
      | None => (Some next, mkMiner mode None)
      end
  end.

(** A hash that the pool sends to its listeners. *)
Definition notify (h : TxHash) (m : Miner) : Miner :=
  let push r := mkReadyMiner (max_transactions r) (has_pending_txs r) (rx r ++ [h]) in
  set_mining_mode
    match mode m with
    | Auto r => Auto (push r)
    | Mixed r i => Mixed (push r) i
    | mode => mode
    end m.

(** ** Requests to change the mode, of [eth/api.rs] *)
Definition anvil_set_auto_mine (enable_automine : bool) (m : Miner) : Miner :=
  if is_auto_mine m
  then if enable_automine then m else set_mining_mode NoMining m
  else if enable_automine then set_mining_mode (instant 1000) m else m.
Definition anvil_set_interval_mining (secs : Z) (m : Miner) : Miner :=
  set_mining_mode (if (secs =? 0)%Z then NoMining else FixedBlockTime (interval_at secs)) m.

(** ** The producer of blocks *)
Section service.
Context {Backend : Type} (mine_block : list PoolTransaction → Backend → option (Pool.MinedBlockOutcome * Backend)).

Record BlockProducer := mkProducer {
  idle_backend : option Backend;
  (** The task that mines, with what it was given. *)
  block_mining : option (list PoolTransaction * Backend);
  queued : list (list PoolTransaction);
}.
Definition BlockProducer_new (b : Backend) : BlockProducer := mkProducer (Some b) None [].

(** [poll_next]: [finished] is what a poll of the task finds; the outer [None] is
    a panic of the task. *)
Definition start (p : BlockProducer) : BlockProducer :=
  match queued p, idle_backend p with
  | transactions :: queued, Some backend => mkProducer None (Some (transactions, backend)) queued
  | _, _ => p
  end.
Definition poll_next (finished : bool) (p : BlockProducer) : option (option Pool.MinedBlockOutcome * BlockProducer) :=
  let p := start p in
  match block_mining p with
  | Some (transactions, backend) =>
      if finished then
        '(outcome, backend) ← mine_block transactions backend;
        Some (Some outcome, mkProducer (Some backend) None (queued p))
      else Some (None, p)
  | None => Some (None, p)
  end.

(** ** The service *)
Record NodeService := mkService {
  pool : PoolInner;
  block_producer : BlockProducer;
  miner : Miner;
}.

(** [Pool::on_mined_block], with the notifications of what is promoted. *)
Definition on_mined_block (outcome : Pool.MinedBlockOutcome) (p : PoolInner) (m : Miner) : option (PoolInner * Miner) :=
  '(res, p) ← Pool.on_mined_block outcome p;
  Some (p, foldl (λ m h, notify h m) m (mjoin (Pool.notify_ready <$> pr_promoted res))).

(** What a loop comes to within its fuel. *)
Inductive Loop (A : Type) := Returned (a : A) | Panicked | OutOfFuel.
Arguments Returned {A}.
Arguments Panicked {A}.
Arguments OutOfFuel {A}.

(** The inner loop: blocks are taken over until the producer is pending.  The
    list says of each poll of a task whether it is finished; when it ends the
    task is not. *)
Definition next_answer (s : BlockProducer) (answers : list bool) : bool * list bool :=
  match block_mining (start s) with
  | Some _ => (default false (head answers), tail answers)
  | None => (false, answers)
  end.
Fixpoint advance (fuel : nat) (answers : list bool) (s : NodeService) : Loop (list bool * NodeService) :=
  match fuel with
  | O => OutOfFuel
  | S fuel =>
      let '(finished, answers) := next_answer (block_producer s) answers in
      match poll_next finished (block_producer s) with
      | None => Panicked
      | Some (None, producer) => Returned (answers, mkService (pool s) producer (miner s))
      | Some (Some outcome, producer) =>
          match on_mined_block outcome (pool s) (miner s) with
          | None => Panicked
          | Some (p, m) => advance fuel answers (mkService p producer m)
          end
      end
  end.
(** A batch and the task in progress are finished at most once each. *)
Definition advance_all (answers : list bool) (s : NodeService) : Loop (list bool * NodeService) :=
  advance (S (S (length (queued (block_producer s))))) answers s.

(** [NodeService::poll] *)
Fixpoint service_poll (fuel : nat) (answers : list bool) (s : NodeService) : Loop NodeService :=
  match fuel with
  | O => OutOfFuel
  | S fuel =>
      match advance_all answers s with
      | Panicked => Panicked
      | OutOfFuel => OutOfFuel
      | Returned (answers, s) =>
          let '(transactions, m) := poll (pool s) (miner s) in
          let p := block_producer s in
          match transactions with
          | Some transactions =>
              service_poll fuel answers
                (mkService (pool s) (mkProducer (idle_backend p) (block_mining p) (queued p ++ [transactions])) m)
          | None => Returned (mkService (pool s) p m)
          end
      end
  end.
End service.
End miner.
Arguments Returned {A}.
Arguments Panicked {A}.
Arguments OutOfFuel {A}.
