(* ===== verification/MinerSpec.v ===== *)
(** * What the service does with its blocks

    The producer mines one batch at a time in the order they were queued, as if
    they were mined one after the other, and the loop of the service ends exactly
    when the miner has fewer transactions than fit in a block. *)
From S2P Require Import Prelude.
From S2P Require Import PoolTx.
From S2P Require Import PendingPool.
From S2P Require Import ReadyPool.
From S2P Require Import TxPool.
From S2P Require Import Miner.

Section spec.
Context `{HashIter} {Ticks : Intervals} (limit : nat).
Context {Backend : Type} (mine_block : list PoolTransaction → Backend → option (Pool.MinedBlockOutcome * Backend)).
Abbreviation Producer := (@BlockProducer Backend).
Abbreviation Service := (@NodeService _ Backend).
Abbreviation service_poll := (service_poll limit mine_block).
Abbreviation advance := (advance mine_block).
Abbreviation advance_all := (advance_all mine_block).
Implicit Types (p : Producer) (s : Service).

(** The backend, idle or mining, and the batches that are not mined yet. *)
Definition holder p : option Backend :=
  match idle_backend p, block_mining p with
  | Some b, None => Some b
  | None, Some (_, b) => Some b
  | _, _ => None
  end.
Definition outstanding p : list (list PoolTransaction) :=
  match block_mining p with Some (txs, _) => txs :: queued p | None => queued p end.

(** Batches that are mined one after the other, and the pool that takes their
    outcomes. *)
Fixpoint in_order (batches : list (list PoolTransaction)) (b : Backend) : option (list Pool.MinedBlockOutcome * Backend) :=
  match batches with
  | [] => Some ([], b)
  | txs :: batches => '(o, b) ← mine_block txs b; '(os, b) ← in_order batches b; Some (o :: os, b)
  end.
Definition take_outcome (p : PoolInner) (o : Pool.MinedBlockOutcome) : option PoolInner := snd <$> Pool.on_mined_block o p.

Lemma in_order_app l1 l2 b os1 b1 os2 b2 :
  in_order l1 b = Some (os1, b1) → in_order l2 b1 = Some (os2, b2) → in_order (l1 ++ l2) b = Some (os1 ++ os2, b2).
Proof.
  revert b os1. induction l1 as [|txs l1 IH]; intros b os1 H1 H2; cbn in H1 |- *; [by simplify_eq|].
  apply bind_Some in H1 as ([o b'] & Ho & ([os b''] & Hos & [= <- <-])%bind_Some).
  rewrite Ho. cbn. by rewrite (IH _ _ Hos H2).
Qed.

(** ** The producer *)
Lemma start_same p b : holder p = Some b →
  holder (start p) = Some b ∧ outstanding (start p) = outstanding p ∧
  (block_mining (start p) = None → queued (start p) = []).
Proof.
  unfold holder, start, outstanding. destruct (queued p) as [|txs q] eqn:Hq, (idle_backend p) as [i|] eqn:Hi, (block_mining p) as [[t j]|] eqn:Hb;
    intros [= <-]; cbn; rewrite ?Hi, ?Hb, ?Hq; done.
Qed.

Lemma poll_next_spec f p b r p' :
  holder p = Some b → poll_next mine_block f p = Some (r, p') →
  match r with
  | Some o => ∃ txs b', outstanding p = txs :: outstanding p' ∧ mine_block txs b = Some (o, b') ∧ holder p' = Some b'
  | None => outstanding p' = outstanding p ∧ holder p' = Some b ∧ p' = start p
  end.
Proof.
  intros Hh. destruct (start_same _ _ Hh) as (Hh' & <- & Hq). unfold poll_next.
  destruct (block_mining (start p)) as [[txs j]|] eqn:Hb; [|by intros [= <- <-]].
  assert (j = b) as -> by (unfold holder in Hh'; rewrite Hb in Hh'; by destruct (idle_backend (start p)); simplify_eq).
  destruct f; [|by intros [= <- <-]]. intros ([o b'] & Ho & [= <- <-])%bind_Some. exists txs, b'.
  unfold outstanding at 1. by rewrite Hb.
Qed.

Lemma advance_mines fuel answers s b answers' s' :
  holder (block_producer s) = Some b → advance fuel answers s = Returned (answers', s') →
  ∃ mined os b', outstanding (block_producer s) = mined ++ outstanding (block_producer s') ∧
    in_order mined b = Some (os, b') ∧ holder (block_producer s') = Some b' ∧ fold_opt take_outcome (pool s) os = Some (pool s').
Proof.
  revert answers s b. induction fuel as [|fuel IH]; intros answers s b Hh; [done|]. cbn [Miner.advance].
  destruct (next_answer (block_producer s) answers) as [f answers1].
  destruct (poll_next mine_block f (block_producer s)) as [[r p']|] eqn:Hp; [|done].
  pose proof (poll_next_spec _ _ _ _ _ Hh Hp) as Hs. destruct r as [o|].
  - destruct Hs as (txs & b' & Ho & Hm & Hh'). unfold on_mined_block.
    destruct (Pool.on_mined_block o (pool s)) as [[res p1]|] eqn:Hpool; [|done]. cbn. intros Hret.
    destruct (IH _ (mkService p1 p' _) b' Hh' Hret) as (mined & os & b2 & Hout & Hin & Hh2 & Hf). cbn in Hout, Hf.
    exists (txs :: mined), (o :: os), b2. split_and!; [by rewrite Ho, Hout|cbn; rewrite Hm; cbn; by rewrite Hin|done|].
    assert (Ht : take_outcome (pool s) o = Some p1) by (unfold take_outcome; by rewrite Hpool). cbn. by rewrite Ht.
  - intros [= <- <-]. destruct Hs as (Ho & Hh' & _). exists [], [], b. cbn. by rewrite Ho.
Qed.

(** Every outcome takes a batch, so the fuel of the inner loop suffices. *)
Lemma advance_enough fuel answers s b :
  holder (block_producer s) = Some b → length (outstanding (block_producer s)) < fuel → advance fuel answers s ≠ OutOfFuel.
Proof.
  revert answers s b. induction fuel as [|fuel IH]; intros answers s b Hh Hlen; [lia|]. cbn [Miner.advance].
  destruct (next_answer (block_producer s) answers) as [f answers1].
  destruct (poll_next mine_block f (block_producer s)) as [[r p']|] eqn:Hp; [|done].
  pose proof (poll_next_spec _ _ _ _ _ Hh Hp) as Hs. destruct r as [o|]; [|done].
  destruct Hs as (txs & b' & Ho & Hm & Hh'). destruct (on_mined_block o (pool s) (miner s)) as [[p1 m1]|]; [|done].
  apply (IH _ (mkService p1 p' m1) b' Hh'). cbn. rewrite Ho in Hlen. cbn in Hlen. lia.
Qed.
Lemma advance_all_enough answers s b : holder (block_producer s) = Some b → advance_all answers s ≠ OutOfFuel.
Proof.
  intros Hh. apply (advance_enough _ _ _ b Hh). unfold outstanding. destruct (block_mining _) as [[txs j]|]; cbn; lia.
Qed.

(** ** The service *)

(** C7: The service mines in order: whenever it returns, what it has mined are the
    oldest of the batches that were queued before and that the miner produced, one
    after the other on one backend, never two at a time; every outcome was handed
    to the pool in that order; and no batch is lost, the rest is still queued or
    being mined. *)
Theorem mined_in_order fuel answers s b s' :
  holder (block_producer s) = Some b → service_poll fuel answers s = Returned s' →
  ∃ produced mined os b',
    outstanding (block_producer s) ++ produced = mined ++ outstanding (block_producer s') ∧
    in_order mined b = Some (os, b') ∧ holder (block_producer s') = Some b' ∧
    fold_opt take_outcome (pool s) os = Some (pool s').
Proof.
  revert answers s b. induction fuel as [|fuel IH]; intros answers s b Hh; [done|]. cbn [Miner.service_poll].
  destruct (advance_all answers s) as [[answers1 s1]| |] eqn:Ha; [|done|done].
  destruct (advance_mines _ _ _ _ _ _ Hh Ha) as (mined & os & b1 & Hout & Hin & Hh1 & Hf).
  destruct (poll limit (pool s1) (miner s1)) as [txs m]. destruct txs as [txs|].
  - intros Hret. destruct (IH _ (mkService _ (mkProducer _ _ _) _) b1 Hh1 Hret) as (produced & mined2 & os2 & b2 & Hout2 & Hin2 & Hh2 & Hf2).
    cbn in Hout2, Hf2. exists (txs :: produced), (mined ++ mined2), (os ++ os2), b2. split_and!.
    + rewrite Hout, <-!app_assoc. f_equal. rewrite <-Hout2. unfold outstanding. cbn.
      destruct (block_mining (block_producer s1)) as [[t j]|]; cbn; by rewrite <-app_assoc.
    + by eapply in_order_app.
    + done.
    + rewrite fold_opt_app, Hf. done.
  - intros [= <-]. exists [], mined, os, b1. cbn. by rewrite app_nil_r.
Qed.

(** While the task is not finished nothing but the start of a task happens. *)
Lemma advance_stuck s b :
  holder (block_producer s) = Some b → advance_all [] s = Returned ([], mkService (pool s) (start (block_producer s)) (miner s)).
Proof.
  intros Hh. unfold Miner.advance_all. cbn [Miner.advance]. unfold next_answer, poll_next.
  destruct (block_mining (start (block_producer s))) as [[txs j]|]; cbn; done.
Qed.

(** Whether the miner of a mode that mines each transaction finds a full block. *)
Definition full (p : PoolInner) (m : ReadyTransactionMiner) : bool :=
  bool_decide (0 < max_transactions m) && (max_transactions m <=? length (TransactionsIterator.take_n (max_transactions m) (ready_iter p))).
Definition told (m : ReadyTransactionMiner) : bool := negb (bool_decide (rx m = [])) || negb (bool_decide (has_pending_txs m = Some false)).

Lemma poll_quiet (w : PoolInner) m : told m = false → poll_ready w m = (None, mkReadyMiner (max_transactions m) (Some false) []).
Proof.
  unfold told, poll_ready. intros Ht. apply orb_false_iff in Ht as [Hr Hp].
  apply negb_false_iff, bool_decide_eq_true_1 in Hr, Hp. rewrite Hr, Hp. by rewrite bool_decide_eq_true_2.
Qed.
Lemma poll_told (w : PoolInner) m : told m = true →
  poll_ready w m =
    (match TransactionsIterator.take_n (max_transactions m) (ready_iter w) with [] => None | l => Some l end,
     mkReadyMiner (max_transactions m)
       (Some (max_transactions m <=? length (TransactionsIterator.take_n (max_transactions m) (ready_iter w)))) []).
Proof.
  unfold told, poll_ready. intros Ht.
  assert (Hne : match rx m with [] => has_pending_txs m | _ => Some true end ≠ Some false).
  { destruct (rx m); [|done]. intros Hp. rewrite (bool_decide_eq_true_2 _ Hp), bool_decide_eq_true_2 in Ht by done. done. }
  rewrite bool_decide_eq_false_2 by done. by destruct (TransactionsIterator.take_n _ _).
Qed.
Lemma nonempty (l : list PoolTransaction) n : 0 < n → n <= length l → ∃ x k, l = x :: k.
Proof. destruct l as [|x k]; cbn; [lia|eauto]. Qed.

Abbreviation auto_service b w m f := (mkService w b (mkMiner (Auto m) f)).

Lemma busy fuel b w m f i :
  holder b = Some i → told m = true → full w m = true → service_poll fuel [] (auto_service b w m f) = OutOfFuel.
Proof.
  revert b m f. induction fuel as [|fuel IH]; intros b m f Hb Ht Hf; [done|]. cbn [Miner.service_poll].
  rewrite (advance_stuck (auto_service b w m f) i Hb). unfold poll, poll_mode. cbn [miner Miner.mode pool force_transactions].
  rewrite (poll_told _ _ Ht). unfold full in Hf. apply andb_prop in Hf as [H0 Hl].
  apply bool_decide_eq_true_1 in H0 as H0'. apply Nat.leb_le in Hl as Hl'.
  destruct (nonempty _ _ H0' Hl') as (x & k & Hk). rewrite Hk in *. rewrite Hl.
  destruct (start_same _ _ Hb) as (Hs & _).
  destruct f as [f|]; apply IH; try done; unfold full; cbn; rewrite H0, Hk; exact Hl.
Qed.

(** C8: The loop of the service ends exactly when the miner finds no full block:
    with automatic mining and a task that does not finish meanwhile, it returns if
    and only if the miner knows of no transactions, or fewer are ready than fit in
    a block; otherwise it never does, and queues the same transactions again and
    again. *)
Theorem poll_ends_iff b w m f i :
  holder b = Some i →
  (∃ fuel s', service_poll fuel [] (auto_service b w m f) = Returned s') ↔ told m = false ∨ full w m = false.
Proof.
  intros Hb. split.
  - intros (fuel & s' & Hret). destruct (told m) eqn:Ht; [|by left]. destruct (full w m) eqn:Hf; [|by right].
    by rewrite (busy _ _ _ _ _ _ Hb Ht Hf) in Hret.
  - intros Hend. exists 2. cbn [Miner.service_poll]. rewrite (advance_stuck (auto_service b w m f) i Hb). unfold poll, poll_mode.
    cbn [miner Miner.mode pool force_transactions block_producer]. destruct (told m) eqn:Ht.
    2: { rewrite (poll_quiet _ _ Ht). by eexists. }
    destruct Hend as [|Hf]; [done|]. rewrite (poll_told _ _ Ht).
    destruct (TransactionsIterator.take_n (max_transactions m) (ready_iter w)) as [|x k] eqn:Hk; [by eexists|].
    assert (Hn : (max_transactions m <=? length (x :: k)) = false).
    { unfold full in Hf. rewrite Hk in Hf. apply andb_false_iff in Hf as [Hf|Hf]; [|done].
      apply bool_decide_eq_false_1 in Hf. destruct (max_transactions m); [|lia]. done. }
    rewrite Hn. destruct (start_same _ _ Hb) as (Hs & _).
    assert (Hs2 : ∀ q, holder (mkProducer (idle_backend (start b)) (block_mining (start b)) q) = Some i) by (intros q; exact Hs).
    destruct f as [f|]; (rewrite (advance_stuck _ i); [|apply Hs2]); cbn [miner Miner.mode pool force_transactions block_producer];
      rewrite poll_quiet by done; by eexists.
Qed.
End spec.

(** ** The service over the node's backend *)
From S2P Require Import StateDb.
From S2P Require Import MultiFork.
From S2P Require Import Validation.
From S2P Require Import Executor.
From S2P Require Import Chain.
From S2P Require Import ChainSpec.
From S2P Require Import Node.
From S2P Require Import NodeSpec.
Module MinerExample.
Export NodeExample.
#[local] Existing Instance elements_iter.
#[export] Instance ticks : Intervals := {|
  Interval := Z * Z; poll_tick i := ((fst i <=? 0)%Z, (snd i, snd i)); interval_at p := (p, p); period := snd |}.

Abbreviation TheNode := (@Node executes node_lib Files Z).
Abbreviation Service := (@NodeService ticks TheNode).
(** The backend mines, at a fixed time. *)
Definition mine : list PoolTransaction → TheNode → option (Pool.MinedBlockOutcome * TheNode) := do_mine_block 2000.
Definition pool_with (l : list PoolTransaction) : PoolInner :=
  foldl (λ p tx, from_option snd p (PoolInner.add_transaction tx p)) pool_default l.
(** Automatic mining of blocks of at most [max] transactions. *)
Definition serving (max : nat) (l : list PoolTransaction) (n : TheNode) : Service :=
  mkService (pool_with l) (BlockProducer_new n) (Miner_new (instant max)).
Definition poll_service (fuel : nat) (answers : list bool) (s : Service) : Service :=
  match service_poll 100 mine fuel answers s with Returned s' => s' | _ => s end.
(** The transactions of each block, the batches still queued and the ready
    transactions. *)
Definition seen (s : Service) : option (list (list Z) * nat * list Z) :=
  n ← holder (block_producer s);
  Some ((λ b, env_nonce <$> transactions_of b) <$> omap (λ k, h ← hashes (Node.storage n) !! k; blocks (Node.storage n) !! h) (seqZ 1 (best_number n)),
        length (queued (block_producer s)), PoolTx.hash <$> TransactionsIterator.take_n 10 (ready_iter (pool s))).
Definition sent (h a n : Z) : PoolTransaction := rpc_pool_transaction Fifo (pending_transaction (paying_tx h a n)) n n.
Definition two : list PoolTransaction := [sent 101 1 0; sent 102 2 5].

Example both_mined : seen (poll_service 10 [true] (serving 1000 two node0)) = Some ([[0; 5]%Z], 0, []).
Proof. vm_compute. reflexivity. Qed.

Lemma mined_in_order_witness :
  ∃ s', service_poll 100 mine 10 [true] (serving 1000 two node0) = Returned s' ∧
  ∃ produced mined os b',
    outstanding (block_producer (serving 1000 two node0)) ++ produced = mined ++ outstanding (block_producer s') ∧
    in_order mine mined node0 = Some (os, b') ∧ holder (block_producer s') = Some b' ∧
    fold_opt take_outcome (pool_with two) os = Some (pool s').
Proof.
  exists (poll_service 10 [true] (serving 1000 two node0)).
  assert (Hr : service_poll 100 mine 10 [true] (serving 1000 two node0) = Returned (poll_service 10 [true] (serving 1000 two node0))).
  { assert (Hn : match service_poll 100 mine 10 [true] (serving 1000 two node0) with Returned _ => true | _ => false end = true)
      by (vm_compute; reflexivity).
    unfold poll_service. by destruct (service_poll 100 mine 10 [true] (serving 1000 two node0)). }
  split; [exact Hr|]. apply (mined_in_order 100 mine 10 [true] (serving 1000 two node0) node0 _ eq_refl Hr).
Defined.

Lemma poll_ends_iff_witness :
  (∃ fuel s', service_poll 100 mine fuel [] (serving 1000 two node0) = Returned s') ∧
  ((∃ fuel s', service_poll 100 mine fuel [] (serving 2 two node0) = Returned s') ↔ false = true).
Proof.
  split.
  - apply (poll_ends_iff 100 mine (BlockProducer_new node0) (pool_with two) (mkReadyMiner 1000 None []) None node0 eq_refl).
    right. vm_compute. reflexivity.
  - split; [|done]. intros Hex.
    apply (poll_ends_iff 100 mine (BlockProducer_new node0) (pool_with two) (mkReadyMiner 2 None []) None node0 eq_refl) in Hex.
    destruct Hex as [Ht|Hf]; [discriminate Ht|]. vm_compute in Hf. discriminate Hf.
Defined.

(** One transaction per block: until the first block is mined the same
    transaction is queued again with each turn, and the copies become empty
    blocks. *)
Example empty_blocks :
  seen (poll_service 20 [false; false; false; true; true; true; true; true] (serving 1 [sent 101 1 0] node0)) =
    Some ([[0]; []; []; []]%Z, 0, []).
Proof. vm_compute. reflexivity. Qed.

(** Two transactions and a block with gas for one of them: the other one stays in
    the pool, and no poll mines it until another transaction is announced. *)
Definition tight : Service := serving 1000 two (set_gas_limit 30000 node0).
Definition polled : Service := poll_service 10 [true] tight.
Example left_behind :
  seen polled = Some ([[0]%Z], 0, [102%Z]) ∧ seen (poll_service 10 [true; true] polled) = seen polled ∧
  seen (poll_service 10 [true] (mkService (pool polled) (block_producer polled) (notify 7 (miner polled)))) =
    Some ([[0]; [5]]%Z, 0, []).
Proof. vm_compute. split; [reflexivity|]. split; reflexivity. Qed.

(** Automatic mining next to an interval is not found on and cannot be switched
    off. *)
Example mixed_stays_automatic :
  let m := Miner_new (Mixed (mkReadyMiner 1000 None []) (interval_at 5)) in
  is_auto_mine m = false ∧ anvil_set_auto_mine false m = m ∧ get_interval m = None.
Proof. vm_compute. split; [reflexivity|]. split; reflexivity. Qed.
End MinerExample.
