(* ===== verification/EstimateGas.v ===== *)
(** * Estimation of gas

    Models [do_estimate_gas_with_state] of [anvil/src/eth/api.rs] and what it
    calls there: the shortcut for transfers, the cap by the sender's funds, the
    first call and the binary search for the least gas limit.  Executing a call
    is a parameter, as are the code and the balance of an account in the state. *)
From S2P Require Import Prelude.
From S2P Require Import StateDb.
From S2P Require Import Fees.
From S2P Require Import Validation.
Local Open Scope Z_scope.

(** revm's [InstructionResult]. *)
Inductive InstructionResult :=
| Stop | Return | SelfDestruct
| Revert | CallTooDeep | OutOfFunds | CreateInitCodeStartingEF00 | InvalidEOFInitCode | InvalidExtDelegateCallTarget
| OutOfGas | MemoryOOG | MemoryLimitOOG | PrecompileOOG | InvalidOperandOOG | ReentrancySentryOOG
| OpcodeNotFound | CallNotAllowedInsideStatic | StateChangeDuringStaticCall | InvalidFEOpcode | InvalidJump | NotActivated
| StackUnderflow | StackOverflow | OutOfOffset | CreateCollision | OverflowPayment | PrecompileError | NonceOverflow
| CreateContractSizeLimit | CreateContractStartingWithEF | CreateInitCodeSizeLimit | FatalExternalError.

(** The errors that are told apart here. *)
Inductive BlockchainError :=
| GasTooHigh
| BasicOutOfGas (gas : Z)
| ReversionError (output : option (list Z))
| InsufficientFunds
| EvmError (r : InstructionResult)
| InvalidFeeInput
| OtherError (code : Z).

Inductive GasEstimationCallResult :=
| Success (gas : Z)
| RanOutOfGas
| Reverted (output : option (list Z))
| Failed (r : InstructionResult).

Abbreviation CallResult := (result BlockchainError (InstructionResult * option (list Z) * Z)).

(** [GasEstimationCallResult::try_from] *)
Definition try_from (res : CallResult) : result BlockchainError GasEstimationCallResult :=
  match res with
  | Err GasTooHigh => Ok RanOutOfGas
  | Err err => Err err
  | Ok (exit, output, gas) =>
      match exit with
      | Stop | Return | SelfDestruct => Ok (Success gas)
      | Revert => Ok (Reverted output)
      | CallTooDeep | OutOfFunds | CreateInitCodeStartingEF00 | InvalidEOFInitCode | InvalidExtDelegateCallTarget => Ok (Failed exit)
      | OutOfGas | MemoryOOG | MemoryLimitOOG | PrecompileOOG | InvalidOperandOOG | ReentrancySentryOOG => Ok RanOutOfGas
      | OpcodeNotFound | CallNotAllowedInsideStatic | StateChangeDuringStaticCall | InvalidFEOpcode | InvalidJump | NotActivated
      | StackUnderflow | StackOverflow | OutOfOffset | CreateCollision | OverflowPayment | PrecompileError | NonceOverflow
      | CreateContractSizeLimit | CreateContractStartingWithEF | CreateInitCodeSizeLimit | FatalExternalError => Ok (Failed exit)
      end
  end.

(** [ensure_return_ok] *)
Definition ensure_return_ok (exit : InstructionResult) (out : option (list Z)) : result BlockchainError (list Z) :=
  let out := default [] out in
  match exit with
  | Stop | Return | SelfDestruct => Ok out
  | Revert | CallTooDeep | OutOfFunds | CreateInitCodeStartingEF00 | InvalidEOFInitCode | InvalidExtDelegateCallTarget =>
      Err (ReversionError (Some out))
  | reason => Err (EvmError reason)
  end.

Inductive TxKind := Call (to : Address) | Create.
Record TransactionRequest := mkRequest {
  req_from : option Address;
  req_to : option TxKind;
  req_input : option (list Z);
  (** The number of authorizations. *)
  req_authorization_list : option Z;
  has_access_list : bool;
  has_blob_versioned_hashes : bool;
  req_gas : option Z;
  req_value : option Z;
  req_gas_price : option Z;
  req_max_fee_per_gas : option Z;
  req_max_priority_fee_per_gas : option Z;
  req_max_fee_per_blob_gas : option Z;
}.
Definition set_gas (g : Z) (r : TransactionRequest) : TransactionRequest :=
  mkRequest (req_from r) (req_to r) (req_input r) (req_authorization_list r) (has_access_list r) (has_blob_versioned_hashes r)
    (Some g) (req_value r) (req_gas_price r) (req_max_fee_per_gas r) (req_max_priority_fee_per_gas r) (req_max_fee_per_blob_gas r).

Definition MIN_CREATE_GAS : Z := 53000.
Definition PER_EMPTY_ACCOUNT_COST : Z := 25000.
Definition determine_base_gas_by_kind (r : TransactionRequest) : Z :=
  match req_to r with
  | Some (Call _) =>
      MIN_TRANSACTION_GAS + match req_authorization_list r with Some auths => auths * PER_EMPTY_ACCOUNT_COST | None => 0 end
  | Some Create | None => MIN_CREATE_GAS
  end.

Section estimate.
Context (get_code : Address → option (list Z)) (get_balance : Address → result BlockchainError Z).
Context (call_with_state : TransactionRequest → FeeDetails → CallResult).

(** The request could be a simple transfer, and is one to an account without
    code. *)
Definition maybe_transfer (r : TransactionRequest) : bool :=
  match req_input r with None | Some [] => true | _ => false end
  && match req_authorization_list r with None => true | _ => false end
  && negb (has_access_list r) && negb (has_blob_versioned_hashes r).
Definition is_transfer (r : TransactionRequest) : bool :=
  maybe_transfer r && match req_to r with
                      | Some (Call to) => match get_code to with Some [] => true | _ => false end
                      | _ => false
                      end.

(** The highest limit: that of the request or the block, and what the sender can
    pay. *)
Definition highest_gas (block_gas_limit gas_price : Z) (r : TransactionRequest) : result BlockchainError Z :=
  let highest_gas_limit := default block_gas_limit (req_gas r) in
  match req_from r with
  | Some from =>
      if 0 <? gas_price then
        available_funds ← get_balance from;
        available_funds ← match req_value r with
                          | Some value => if available_funds <? value then Err InsufficientFunds else Ok (available_funds - value)
                          | None => Ok available_funds
                          end;
        Ok (Z.min highest_gas_limit (Z.min (umax 128) (available_funds / gas_price)))
      else Ok highest_gas_limit
  | None => Ok highest_gas_limit
  end.

(** A call with the gas limit, which is cast to 64 bits. *)
Definition attempt (r : TransactionRequest) (fees : FeeDetails) (gas : Z) : result BlockchainError GasEstimationCallResult :=
  try_from (call_with_state (set_gas (wrap 64 gas) r) fees).

(** The loop; [None] is out of fuel.  The difference is one of 128 bits without
    sign. *)
Fixpoint search (fuel : nat) (r : TransactionRequest) (fees : FeeDetails) (lowest highest mid : Z)
    : option (result BlockchainError Z) :=
  if 1 <? wrap 128 (highest - lowest) then
    match fuel with
    | O => None
    | S fuel =>
        match attempt r fees mid with
        | Err e => Some (Err e)
        | Ok (Success _) => search fuel r fees lowest mid ((mid + lowest) / 2)
        | Ok _ => search fuel r fees mid highest ((highest + mid) / 2)
        end
    end
  else Some (Ok highest).
(** Rounds that always suffice. *)
Definition rounds : nat := 66.

Definition do_estimate_gas_with_state (block_gas_limit : Z) (r : TransactionRequest) : option (result BlockchainError Z) :=
  if is_transfer r then Some (Ok MIN_TRANSACTION_GAS)
  else
    match FeeDetails_new (req_gas_price r) (req_max_fee_per_gas r) (req_max_priority_fee_per_gas r) (req_max_fee_per_blob_gas r) with
    | Err Fees.InvalidFeeInput => Some (Err InvalidFeeInput)
    | Ok fees =>
        let fees := or_zero_fees fees in
        match highest_gas block_gas_limit (default 0 (fd_gas_price fees)) r with
        | Err e => Some (Err e)
        | Ok highest =>
            match attempt r fees highest with
            | Err e => Some (Err e)
            | Ok RanOutOfGas => Some (Err (BasicOutOfGas highest))
            | Ok (Reverted output) => Some (Err (ReversionError output))
            | Ok (Failed err) => Some (Err (EvmError err))
            | Ok (Success gas_used) =>
                let lowest := determine_base_gas_by_kind r in
                search rounds r fees lowest highest (Z.min (gas_used * 3) ((highest + lowest) / 2))
            end
        end
    end.

(** ** The search *)
Section search.
Context (r : TransactionRequest) (fees : FeeDetails).

Definition succeeds (gas : Z) : bool := match attempt r fees gas with Ok (Success _) => true | _ => false end.

(** Whatever the calls do, the distance halves. *)
Lemma search_ends fuel lowest highest :
  lowest <= highest < 2 ^ 64 → 0 <= lowest → highest - lowest <= 2 ^ Z.of_nat fuel →
  is_Some (search fuel r fees lowest highest ((highest + lowest) / 2)).
Proof.
  revert lowest highest. induction fuel as [|fuel IH]; intros lowest highest Hle H0 Hd.
  { cbn [search]. rewrite wrap_id by (unfold in_u, umax; lia). destruct (Z.ltb_spec 1 (highest - lowest)); [cbn in Hd; lia|done]. }
  cbn [search]. rewrite wrap_id by (unfold in_u, umax; lia).
  destruct (Z.ltb_spec 1 (highest - lowest)) as [Hlt|]; [|done].
  assert (Hp : 2 ^ Z.of_nat (S fuel) = 2 * 2 ^ Z.of_nat fuel) by (rewrite Nat2Z.inj_succ, Z.pow_succ_r by lia; done).
  pose proof (Z.div_mod (highest + lowest) 2 ltac:(lia)) as Hdm. pose proof (Z.mod_pos_bound (highest + lowest) 2 ltac:(lia)).
  destruct (attempt r fees ((highest + lowest) / 2)) as [[g| |o|e]|e]; try done; apply IH; lia.
Qed.

(** The search over calls that succeed from some limit on. *)
Lemma search_finds need base fuel lowest highest mid x :
  (∀ g, 0 <= g < 2 ^ 64 → ∃ c, attempt r fees g = Ok c) → (∀ g, 0 <= g < 2 ^ 64 → succeeds g = bool_decide (need <= g)) →
  base <= need → need <= highest < 2 ^ 64 → 0 <= lowest <= highest → 0 <= mid <= highest → lowest = base ∨ lowest < need →
  search fuel r fees lowest highest mid = Some x →
  x = Ok need ∨ (need = base ∧ x = Ok (base + 1)).
Proof.
  intros Hok Hsucc Hbase. revert lowest highest mid. induction fuel as [|fuel IH]; intros lowest highest mid Hneed Hlow Hmid Hinv.
  all: cbn [search]; rewrite wrap_id by (unfold in_u, umax; lia); destruct (Z.ltb_spec 1 (highest - lowest)) as [Hlt|Hle].
  - done.
  - intros [= <-]. destruct (decide (highest = need)) as [->|]; [by left|]. right. split; [lia|]. f_equal. lia.
  - destruct (Hok mid) as [c Hc]; [lia|]. pose proof (Hsucc mid ltac:(lia)) as Hs. unfold succeeds in Hs. rewrite Hc in Hs |- *.
    pose proof (Z.div_mod (mid + lowest) 2 ltac:(lia)). pose proof (Z.mod_pos_bound (mid + lowest) 2 ltac:(lia)).
    pose proof (Z.div_mod (highest + mid) 2 ltac:(lia)). pose proof (Z.mod_pos_bound (highest + mid) 2 ltac:(lia)).
    destruct c as [g| |o|e]; symmetry in Hs; apply bool_decide_eq_true in Hs || apply bool_decide_eq_false in Hs.
    + destruct (decide (lowest <= mid)); [apply IH; lia|]. (* below the base *) lia.
    + apply IH; lia.
    + apply IH; lia.
    + apply IH; lia.
  - intros [= <-]. destruct (decide (highest = need)) as [->|]; [by left|]. right. split; [lia|]. f_equal. lia.
Qed.
End search.

Lemma highest_in_range block_gas_limit price r h :
  in_u 64 block_gas_limit → (∀ g, req_gas r = Some g → in_u 64 g) → 0 <= price →
  (∀ a f, get_balance a = Ok f → 0 <= f) → highest_gas block_gas_limit price r = Ok h → 0 <= h < 2 ^ 64.
Proof.
  intros Hb Hg Hp Hf Hh. assert (Hd : 0 <= default block_gas_limit (req_gas r) < 2 ^ 64).
  { unfold in_u, umax in *. destruct (req_gas r) as [g|]; cbn; [specialize (Hg g eq_refl)|]; lia. }
  unfold highest_gas in Hh. destruct (req_from r) as [a|]; [|injection Hh as <-; exact Hd].
  destruct (Z.ltb_spec 0 price) as [H0|]; [|injection Hh as <-; exact Hd].
  destruct (get_balance a) as [f|] eqn:Ha; [|done]. specialize (Hf a f Ha). cbn in Hh.
  assert (Hq : ∀ q, 0 <= q → 0 <= Z.min (default block_gas_limit (req_gas r)) (Z.min (umax 128) (q / price)) < 2 ^ 64).
  { intros q Hq. pose proof (Z.div_pos q price Hq H0). unfold umax. lia. }
  destruct (req_value r) as [v|]; cbn in Hh; [destruct (Z.ltb_spec f v); [done|]|]; injection Hh as <-; apply Hq; lia.
Qed.

(** What is relied on of a call: it does not succeed with less than the base of
    its kind, and reports how much gas it used. *)
Record intrinsic (r : TransactionRequest) : Prop := {
  in_base : ∀ fees g, 0 <= g < 2 ^ 64 → succeeds r fees g = true → determine_base_gas_by_kind r <= g;
  in_used : ∀ fees g used, attempt r fees g = Ok (Success used) → 0 <= used;
  in_auths : ∀ n, req_authorization_list r = Some n → 0 <= n;
}.
Lemma base_nonneg r : intrinsic r → 0 <= determine_base_gas_by_kind r.
Proof.
  intros [_ _ Ha]. unfold determine_base_gas_by_kind, MIN_TRANSACTION_GAS, MIN_CREATE_GAS, PER_EMPTY_ACCOUNT_COST.
  destruct (req_to r) as [[]|]; [|lia|lia]. destruct (req_authorization_list r) as [n|]; [specialize (Ha n eq_refl)|]; lia.
Qed.

(** C12: The estimation ends: whatever the calls do that it makes, whether or not
    more gas makes more of them succeed, it needs no more than 66 rounds of the
    search, as long as no call succeeds with less gas than its base. *)
Theorem estimate_ends block_gas_limit r :
  intrinsic r → in_u 64 block_gas_limit → (∀ g, req_gas r = Some g → in_u 64 g) →
  (∀ p, req_gas_price r = Some p → 0 <= p) → (∀ p, req_max_fee_per_gas r = Some p → 0 <= p) →
  (∀ a f, get_balance a = Ok f → 0 <= f) →
  is_Some (do_estimate_gas_with_state block_gas_limit r).
Proof.
  intros Hin Hb Hg Hp Hm Hf. unfold do_estimate_gas_with_state. destruct (is_transfer r); [done|].
  destruct (FeeDetails_new _ _ _ _) as [fees|[]] eqn:Hfee; [|done]. cbn zeta.
  destruct (highest_gas _ _ _) as [h|] eqn:Hh; [|done].
  assert (Hprice : 0 <= default 0 (fd_gas_price (or_zero_fees fees))).
  { cbn. destruct (bool_decide _ && _); [done|]. unfold FeeDetails_new in Hfee.
    destruct (req_gas_price r) as [p|], (req_max_fee_per_gas r) as [m|], (req_max_priority_fee_per_gas r) as [t|], (req_max_fee_per_blob_gas r) as [b|];
      cbn in Hfee; repeat case_match; simplify_eq/=; eauto; done. }
  pose proof (highest_in_range _ _ _ _ Hb Hg Hprice Hf Hh) as Hr. pose proof (base_nonneg _ Hin) as H0.
  destruct (attempt r _ h) as [[used| |o|e]|e] eqn:Ha; try done.
  assert (Hs : succeeds r (or_zero_fees fees) h = true) by (unfold succeeds; by rewrite Ha).
  pose proof (in_base _ Hin _ _ Hr Hs) as Hle. pose proof (in_used _ Hin _ _ _ Ha) as Hu.
  set (lo := determine_base_gas_by_kind r) in *. assert (Hn : ∃ n, rounds = S n ∧ 2 ^ 64 <= 2 ^ Z.of_nat n) by (by exists 65%nat).
  destruct Hn as (n & -> & Hn). cbn [search]. rewrite wrap_id by (unfold in_u, umax; lia).
  destruct (Z.ltb_spec 1 (h - lo)) as [Hlt|]; [|done].
  pose proof (Z.div_mod (h + lo) 2 ltac:(lia)). pose proof (Z.mod_pos_bound (h + lo) 2 ltac:(lia)).
  set (mid := Z.min (used * 3) ((h + lo) / 2)) in *. assert (Hmid : 0 <= mid <= h) by lia.
  destruct (attempt r (or_zero_fees fees) mid) as [[g| |o|e]|e] eqn:Hc; try done; apply search_ends; try lia.
  assert (Hsm : succeeds r (or_zero_fees fees) mid = true) by (unfold succeeds; by rewrite Hc).
  pose proof (in_base _ Hin _ mid ltac:(lia) Hsm). fold lo in H1. lia.
Qed.

(** C11: The estimate is the least gas that suffices: for a call that succeeds from
    some limit on and fails below it, the result is that limit, or one more where
    it is the base of the kind, which the search does not try; if the highest limit
    does not suffice the result is the error of the call with it. *)
Theorem estimate_is_least block_gas_limit r fees highest need x :
  is_transfer r = false → intrinsic r → 
  FeeDetails_new (req_gas_price r) (req_max_fee_per_gas r) (req_max_priority_fee_per_gas r) (req_max_fee_per_blob_gas r) = Ok fees →
  highest_gas block_gas_limit (default 0 (fd_gas_price (or_zero_fees fees))) r = Ok highest → 0 <= highest < 2 ^ 64 →
  (∀ g, 0 <= g < 2 ^ 64 → ∃ c, attempt r (or_zero_fees fees) g = Ok c) →
  (∀ g, 0 <= g < 2 ^ 64 → succeeds r (or_zero_fees fees) g = bool_decide (need <= g)) →
  do_estimate_gas_with_state block_gas_limit r = Some x →
  if need <=? highest
  then x = Ok need ∨ (need = determine_base_gas_by_kind r ∧ x = Ok (need + 1))
  else match attempt r (or_zero_fees fees) highest with
       | Ok RanOutOfGas => x = Err (BasicOutOfGas highest)
       | Ok (Reverted output) => x = Err (ReversionError output)
       | Ok (Failed err) => x = Err (EvmError err)
       | _ => False
       end.
Proof.
  intros Ht Hin Hfee Hh Hr Hok Hsucc. unfold do_estimate_gas_with_state. rewrite Ht, Hfee. cbn zeta. rewrite Hh.
  pose proof (Hsucc highest Hr) as Hs. unfold succeeds in Hs. destruct (Hok highest Hr) as [c Hc]. rewrite Hc in Hs |- *.
  destruct (Z.leb_spec need highest) as [Hle|Hlt].
  2: { rewrite bool_decide_eq_false_2 in Hs by lia. destruct c as [g| |o|e]; [done|by intros [= <-]..]. }
  rewrite bool_decide_eq_true_2 in Hs by lia. destruct c as [used| |o|e]; try done. clear Hs. intros Hx.
  pose proof (base_nonneg _ Hin) as H0. pose proof (in_used _ Hin _ _ _ Hc) as Hu.
  assert (Hbase : determine_base_gas_by_kind r <= Z.max need 0).
  { apply (in_base _ Hin (or_zero_fees fees)); [lia|]. rewrite Hsucc by lia. apply bool_decide_eq_true_2. lia. }
  set (lo := determine_base_gas_by_kind r) in *.
  destruct (decide (need <= 0)) as [Hneg|].
  - (* a base of 0 is none *) exfalso. unfold lo, determine_base_gas_by_kind, MIN_TRANSACTION_GAS, MIN_CREATE_GAS, PER_EMPTY_ACCOUNT_COST in *.
    destruct (req_to r) as [[]|]; [|lia|lia]. destruct (req_authorization_list r) as [n|] eqn:Hn; [pose proof (in_auths _ Hin n Hn)|]; lia.
  - pose proof (Z.div_mod (highest + lo) 2 ltac:(lia)). pose proof (Z.mod_pos_bound (highest + lo) 2 ltac:(lia)).
    destruct (search_finds r (or_zero_fees fees) need lo rounds lo highest (Z.min (used * 3) ((highest + lo) / 2)) x Hok Hsucc)
      as [->|[-> ->]]; try lia; try done; [by left|right]. done.
Qed.
End estimate.

(** ** Examples *)
Module EstimateExample.
(** Account 7 has code; a call of it needs the gas that its input says, and the
    base. *)
Definition get_code (a : Address) : option (list Z) := Some (if a =? 7 then [0] else []).
Definition get_balance (a : Address) : result BlockchainError Z := Ok (Z.abs a * 1000000).
Definition needed (r : TransactionRequest) : Z := Z.max (determine_base_gas_by_kind r) (default 0 (default [] (req_input r) !! 0%nat)).
Definition call (r : TransactionRequest) (f : FeeDetails) : CallResult :=
  let gas := default 0 (req_gas r) in
  if gas <? determine_base_gas_by_kind r then Err GasTooHigh
  else if gas <? needed r then Ok (OutOfGas, None, gas) else Ok (Stop, Some [], needed r).
Definition asks (to : Address) (needs : Z) : TransactionRequest :=
  mkRequest (Some 5) (Some (Call to)) (Some [needs]) None false false None (Some 1) None None None None.
Abbreviation estimate := (do_estimate_gas_with_state get_code get_balance call 30000000).

Lemma call_intrinsic to needs : intrinsic call (asks to needs).
Proof.
  split; [|intros fees g used|done].
  - intros fees g Hg. unfold succeeds, attempt, call. cbn -[wrap determine_base_gas_by_kind needed Z.ltb]. rewrite (wrap_id 64 g) by (unfold in_u, umax; lia).
    change (determine_base_gas_by_kind (set_gas g (asks to needs))) with (determine_base_gas_by_kind (asks to needs)).
    destruct (Z.ltb_spec g (determine_base_gas_by_kind (asks to needs))); done.
  - unfold attempt, call. destruct (_ <? _); [done|]. destruct (_ <? _); [done|]. intros [= <-]. apply Z.le_trans with 21000; [done|apply (Z.le_max_l 21000)].
Qed.
Lemma call_succeeds to needs fees g :
  0 <= g < 2 ^ 64 → succeeds call (asks to needs) fees g = bool_decide (Z.max 21000 needs <= g).
Proof.
  intros Hg. unfold succeeds, attempt, call. cbn -[wrap Z.ltb Z.max Z.le]. rewrite (wrap_id 64 g) by (unfold in_u, umax; lia).
  unfold needed. cbn -[Z.ltb Z.max Z.le]. change (MIN_TRANSACTION_GAS + 0) with 21000.
  destruct (Z.ltb_spec g 21000); [by rewrite bool_decide_eq_false_2 by lia|].
  destruct (Z.ltb_spec g (Z.max 21000 needs)); [by rewrite bool_decide_eq_false_2 by lia|by rewrite bool_decide_eq_true_2 by lia].
Qed.
Lemma call_ok to needs fees g : ∃ c, attempt call (asks to needs) fees g = Ok c.
Proof. unfold attempt, call. destruct (_ <? _); [by eexists|]. destruct (_ <? _); by eexists. Qed.

Lemma estimate_ends_witness : is_Some (estimate (asks 7 300000)) ∧ estimate (asks 7 300000) = Some (Ok 300000).
Proof.
  split; [|vm_compute; reflexivity].
  apply (estimate_ends get_code get_balance call 30000000 (asks 7 300000) (call_intrinsic _ _)).
  - vm_compute. split; discriminate.
  - discriminate.
  - discriminate.
  - discriminate.
  - intros a f [= <-]. lia.
Defined.

(** The least gas is found, but for the base, where it is one more. *)
Lemma estimate_is_least_witness :
  estimate (asks 7 123456) = Some (Ok 123456) ∧ estimate (asks 7 0) = Some (Ok 21001) ∧
  (if 21000 <=? 30000000
   then Ok (E := BlockchainError) 21001 = Ok 21000 ∨ (21000 = determine_base_gas_by_kind (asks 7 0) ∧ Ok (E := BlockchainError) 21001 = Ok (21000 + 1))
   else match attempt call (asks 7 0) (or_zero_fees (mkFeeDetails None None None None)) 30000000 with
        | Ok RanOutOfGas => Ok (E := BlockchainError) 21001 = Err (BasicOutOfGas 30000000)
        | Ok (Reverted output) => Ok (E := BlockchainError) 21001 = Err (ReversionError output)
        | Ok (Failed err) => Ok (E := BlockchainError) 21001 = Err (EvmError err)
        | _ => False
        end).
Proof.
  split; [vm_compute; reflexivity|]. split; [vm_compute; reflexivity|].
  apply (estimate_is_least get_code get_balance call 30000000 (asks 7 0) (mkFeeDetails None None None None) 30000000 21000 (Ok 21001)).
  - vm_compute. reflexivity.
  - apply call_intrinsic.
  - reflexivity.
  - reflexivity.
  - lia.
  - intros g _. apply call_ok.
  - intros g Hg. by rewrite call_succeeds.
  - vm_compute. reflexivity.
Defined.

Example others :
  estimate (mkRequest (Some 5) (Some (Call 8)) None None false false None (Some 1) None None None None) = Some (Ok 21000) ∧
  estimate (asks 7 40000000) = Some (Err (BasicOutOfGas 30000000)) ∧
  estimate (mkRequest (Some 5) (Some (Call 7)) (Some [30000]) None false false None (Some 6000000) (Some 1) None None None) =
    Some (Err InsufficientFunds) ∧
  estimate (mkRequest (Some 5) (Some (Call 7)) (Some [30000]) None false false None (Some 4975000) (Some 1) None None None) =
    Some (Err (BasicOutOfGas 25000)) ∧
  estimate (mkRequest (Some 5) (Some (Call 7)) (Some [30000]) None false false None None None (Some 1) (Some 2) None) =
    Some (Err InvalidFeeInput).
Proof. vm_compute. repeat split. Qed.
End EstimateExample.
