(* ===== verification/Api.v ===== *)
(** * The RPC of the node

    Models handlers of [anvil/src/eth/api.rs] that change the node or depend on
    its pool: sending transactions and the nonces they get, mining on request, the
    cheats for accounts, the clock, fees and the chain.  They join the backend
    ([Node]), the pool ([TxPool]) and the miner ([Miner]).

    Decoding, building and signing a transaction are arguments; a handler that
    panics gives [None].  Requests to a fork are not modelled. *)
From S2P Require Import Prelude.
From S2P Require Import StateDb.
From S2P Require Import BlockStates.
From S2P Require Import Chain.
From S2P Require Import TimeManager.
From S2P Require Import MultiFork.
From S2P Require Import PoolTx.
From S2P Require Import PendingPool.
From S2P Require Import ReadyPool.
From S2P Require Import TxPool.
From S2P Require Import Validation.
From S2P Require Import Executor.
From S2P Require Import Miner.
From S2P Require Import Node.
Local Open Scope Z_scope.

Section api.
Context {Hf : Hardforks} {Ex : Executes} {Vm : Evm} {Lib : NodeLib} {Ticks : Intervals}.
Context {FS Path : Type} {Files : FileSystem FS Path} {Full : MaybeFullDatabase State} {Order : HashIter}.
(** The transactions that an iterator of the pool is collected for. *)
Context (limit : nat).
Abbreviation Node := (@Node.Node Ex Lib FS Path).

Record EthApi := mkApi {
  backend : Node;
  pool : PoolInner;
  miner : Miner;
  transaction_order : TransactionOrder;
  is_optimism : bool;
}.
Definition set_backend (n : Node) (a : EthApi) : EthApi := mkApi n (pool a) (miner a) (transaction_order a) (is_optimism a).
Definition set_pool (p : PoolInner) (a : EthApi) : EthApi := mkApi (backend a) p (miner a) (transaction_order a) (is_optimism a).
Definition set_miner (m : Miner) (a : EthApi) : EthApi := mkApi (backend a) (pool a) m (transaction_order a) (is_optimism a).
Definition set_transaction_order (o : TransactionOrder) (a : EthApi) : EthApi :=
  mkApi (backend a) (pool a) (miner a) o (is_optimism a).

Inductive ApiError :=
| InvalidTransaction (e : InvalidTransactionError)
| UnsupportedTransaction (e : Unsupported)
| DepositTransactionUnsupported
| FailedToDecode
| NoSignerAvailable
| PoolFailure (e : PoolError)
| DatabaseFailure (e : DbError)
| InvalidParams
| ChainFailure (e : Chain.BlockchainError)
| TimestampFailure (timestamp : Z).

(** ** Nonces *)
Definition ready_transactions (a : EthApi) : list PoolTransaction := TransactionsIterator.take_n limit (ready_iter (pool a)).

Definition get_pool_transactions_nonce (txs : list PoolTransaction) (address : Address) : option Z :=
  let nonces := (λ tx, env_nonce (pt_transaction (pending_transaction tx))) <$>
                filter (λ tx, pt_sender (pending_transaction tx) = address) txs in
  match nonces with [] => None | n :: l => Some (u_saturating_add 64 (foldl Z.max n l) 1) end.

(** The account in the current database. *)
Definition get_account (address : Address) (n : Node) : result DbError AccountInfo :=
  match (basic address (inner (Chain.db (chain n)))).1 with
  | Ok found => Ok (default account_default found)
  | Err e => Err e
  end.
Definition current_nonce (address : Address) (n : Node) : result DbError Z :=
  match get_account address n with Ok i => Ok (nonce i) | Err e => Err e end.

(** [get_transaction_count] for the pending block. *)
Definition pending_nonce (address : Address) (a : EthApi) : result ApiError Z :=
  match get_pool_transactions_nonce (ready_transactions a) address with
  | Some n => Ok n
  | None => match current_nonce address (backend a) with Ok n => Ok n | Err e => Err (DatabaseFailure e) end
  end.
Definition request_nonce (nonce : option Z) (from : Address) (a : EthApi) : result ApiError (Z * Z) :=
  match pending_nonce from a with
  | Ok highest_nonce => Ok (default highest_nonce nonce, highest_nonce)
  | Err e => Err e
  end.

(** ** Sending transactions *)
Definition transaction_priority (tx : FoundryTxEnvelope) (a : EthApi) : Z := TransactionOrder_priority (transaction_order a) tx.

(** The [todo!] of Tempo transactions is a panic. *)
Definition ensure_typed_transaction_supported (tx : FoundryTxEnvelope) (a : EthApi) : option (result ApiError unit) :=
  let active r := Some match r with Ok u => Ok u | Err e => Err (UnsupportedTransaction e) end in
  match env_variant tx with
  | Eip2930 => active (ensure_eip2930_active (backend a))
  | Eip1559 => active (ensure_eip1559_active (backend a))
  | Eip4844 => active (ensure_eip4844_active (backend a))
  | Eip7702 => active (ensure_eip7702_active (backend a))
  | Deposit => Some (if is_optimism a then Ok tt else Err DepositTransactionUnsupported)
  | Legacy => Some (Ok tt)
  | Tempo => None
  end.

Definition validate_pool_transaction (now : Z) (tx : PendingTransaction) (n : Node) : result ApiError unit :=
  match get_account (pt_sender tx) n with
  | Err e => Err (DatabaseFailure e)
  | Ok account =>
      match validate_pool_transaction_for (validator_of n) tx account (next_env now n) with
      | Ok u => Ok u
      | Err e => Err (InvalidTransaction e)
      end
  end.

(** [Pool::add_transaction], with its notifications. *)
Definition add_to_pool (tx : PoolTransaction) (a : EthApi) : option (result ApiError TxHash * EthApi) :=
  '(added, p) ← PoolInner.add_transaction tx (pool a);
  match added with
  | Err e => Some (Err (PoolFailure e), set_pool p a)
  | Ok added =>
      Some (Ok (AddedTransaction_hash added),
            set_miner (foldl (λ m h, notify h m) (miner a) (Pool.notify_ready added)) (set_pool p a))
  end.
Definition add_pending_transaction (tx : PendingTransaction) (requires provides : list TxMarker) (a : EthApi)
    : option (result ApiError TxHash * EthApi) :=
  add_to_pool (mkPoolTransaction tx requires provides (transaction_priority (pt_transaction tx) a)) a.

(** The checks before a transaction is added. *)
Definition supported (tx : FoundryTxEnvelope) (a : EthApi) (k : option (result ApiError TxHash * EthApi))
    : option (result ApiError TxHash * EthApi) :=
  ok ← ensure_typed_transaction_supported tx a;
  match ok with Err e => Some (Err e, a) | Ok _ => k end.
Definition validated (now : Z) (tx : PendingTransaction) (a : EthApi) (k : option (result ApiError TxHash * EthApi))
    : option (result ApiError TxHash * EthApi) :=
  match validate_pool_transaction now tx (backend a) with Err e => Some (Err e, a) | Ok _ => k end.

(** [build] makes the transaction for a nonce: [build_tx_request] and the
    signature, or its bypass when the sender is impersonated. *)
Definition send_transaction (now : Z) (requested : option Z) (from : Address) (build : Z → result ApiError PendingTransaction)
    (a : EthApi) : option (result ApiError TxHash * EthApi) :=
  match request_nonce requested from a with
  | Err e => Some (Err e, a)
  | Ok (nonce, on_chain_nonce) =>
      match build nonce with
      | Err e => Some (Err e, a)
      | Ok tx =>
          supported (pt_transaction tx) a
            (validated now tx a
               (add_pending_transaction tx (required_marker nonce on_chain_nonce from) [to_marker nonce from] a))
      end
  end.

(** [decoded] is what the bytes decode to, and [recover] finds the sender. *)
Definition send_raw_transaction (now : Z) (decoded : result ApiError FoundryTxEnvelope)
    (recover : FoundryTxEnvelope → result ApiError PendingTransaction) (a : EthApi) : option (result ApiError TxHash * EthApi) :=
  match decoded with
  | Err e => Some (Err e, a)
  | Ok tx =>
      supported tx a
        match recover tx with
        | Err e => Some (Err e, a)
        | Ok tx =>
            validated now tx a
              match current_nonce (pt_sender tx) (backend a) with
              | Err e => Some (Err (DatabaseFailure e), a)
              | Ok on_chain_nonce =>
                  add_to_pool (rpc_pool_transaction (transaction_order a) tx (env_nonce (pt_transaction tx)) on_chain_nonce) a
              end
        end
  end.

(** ** Mining *)
Definition mine_one (now : Z) (a : EthApi) : option EthApi :=
  '(outcome, n) ← do_mine_block now (ready_transactions a) (backend a);
  '(p, m) ← on_mined_block outcome (pool a) (miner a);
  Some (set_miner m (set_pool p (set_backend n a))).

(** The loops mine at the times of [clock]: the wall clock when each block is
    mined. *)
Fixpoint mine_all (interval : option Z) (clock : list Z) (a : EthApi) : option EthApi :=
  match clock with
  | [] => Some a
  | now :: clock =>
      let a := match interval with
               | Some i => set_backend (set_time (TimeManager.increase_time i (time (backend a))).2 (backend a)) a
               | None => a
               end in
      a ← mine_one now a; mine_all interval clock a
  end.
Definition anvil_mine (num_blocks : option Z) (interval : option Z) (clock : list Z) (a : EthApi) : option EthApi :=
  mine_all interval (take (Z.to_nat (default 1 num_blocks)) clock) a.

Definition evm_set_next_block_timestamp (seconds : Z) (a : EthApi) : result ApiError unit * EthApi :=
  let '(r, t) := TimeManager.set_next_block_timestamp seconds (time (backend a)) in
  (match r with Ok u => Ok u | Err (TimeManager.TimestampError t) => Err (TimestampFailure t) end,
   set_backend (set_time t (backend a)) a).

(** [MineOptions] *)
Definition do_evm_mine (timestamp : option Z) (blocks : option Z) (clock : list Z) (a : EthApi) : option (result ApiError Z * EthApi) :=
  let blocks_to_mine := default 1 blocks in
  let '(r, a) := match timestamp with
                 | Some timestamp => evm_set_next_block_timestamp timestamp a
                 | None => (Ok tt, a)
                 end in
  match r with
  | Err e => Some (Err e, a)
  | Ok _ => a ← mine_all None (take (Z.to_nat blocks_to_mine) clock) a; Some (Ok blocks_to_mine, a)
  end.

(** ** Reorganisation *)
Fixpoint mine_batches (clock : list Z) (batches : list (list PoolTransaction)) (n : Node) : option Node :=
  match clock, batches with
  | now :: clock, txs :: batches => '(_, n) ← do_mine_block now txs n; mine_batches clock batches n
  | _, _ => Some n
  end.
(** [Backend::reorg]; the first time of the clock is that of the rollback. *)
Definition reorg (now : Z) (clock : list Z) (depth : Z) (tx_pairs : gmap Z (list PoolTransaction)) (common_block : Chain.Block) (n : Node)
    : option (result ApiError unit * Node) :=
  match rollback now common_block n with
  | (Err e, n) => Some (Err (ChainFailure e), n)
  | (Ok _, n) => n ← mine_batches clock ((λ i, default [] (tx_pairs !! i)) <$> seqZ 0 depth) n; Some (Ok tt, n)
  end.
(** The transactions of the pairs come built, one list for each block. *)
Definition anvil_reorg (now : Z) (clock : list Z) (depth : Z) (tx_block_pairs : gmap Z (list PoolTransaction)) (a : EthApi)
    : option (result ApiError unit * EthApi) :=
  let current_height := best_number (backend a) in
  if current_height <? depth then Some (Err InvalidParams, a)
  else
    match Chain.get_block_with_hash (Number (current_height - depth)) (chain (backend a)) with
    | None => Some (Err (ChainFailure BlockNotFound), a)
    | Some (common_block, _) =>
        if bool_decide (map_Forall (λ num _, num < depth) tx_block_pairs) then
          '(r, n) ← reorg now clock depth tx_block_pairs common_block (backend a); Some (r, set_backend n a)
        else Some (Err InvalidParams, a)
    end.

(** ** Cheats *)
(** [Uint::to] panics when the value does not fit. *)
Definition to_u (bits : Z) (x : U256) : option Z := if bool_decide (in_u bits x) then Some x else None.

Definition db_cheat (f : State → result DbError unit * State) (a : EthApi) : result ApiError unit * EthApi :=
  let '(r, n) := on_db f (backend a) in
  (match r with Ok u => Ok u | Err e => Err (DatabaseFailure e) end, set_backend n a).
Definition anvil_set_balance (address : Address) (balance : U256) : EthApi → result ApiError unit * EthApi :=
  db_cheat (set_balance address balance).
Definition anvil_add_balance (address : Address) (b : U256) (a : EthApi) : result ApiError unit * EthApi :=
  match get_account address (backend a) with
  | Err e => (Err (DatabaseFailure e), a)
  | Ok i => db_cheat (set_balance address (u_saturating_add 256 (balance i) b)) a
  end.
Definition anvil_set_code (address : Address) (code : list Z) : EthApi → result ApiError unit * EthApi :=
  db_cheat (set_code address code).
Definition anvil_set_nonce (address : Address) (nonce : U256) : EthApi → result ApiError unit * EthApi :=
  db_cheat (set_nonce address (Z.min (umax 64) nonce)).

Definition anvil_set_min_gas_price (gas : U256) (a : EthApi) : option (result ApiError unit * EthApi) :=
  if is_eip1559 (backend a) then Some (Err InvalidParams, a)
  else gas ← to_u 128 gas; Some (Ok tt, set_backend (set_gas_price gas (backend a)) a).
Definition anvil_set_next_block_base_fee_per_gas (basefee : U256) (a : EthApi) : option (result ApiError unit * EthApi) :=
  if negb (is_eip1559 (backend a)) then Some (Err InvalidParams, a)
  else basefee ← to_u 64 basefee; Some (Ok tt, set_backend (set_base_fee basefee (backend a)) a).
Definition evm_set_block_gas_limit (gas_limit : U256) (a : EthApi) : option (bool * EthApi) :=
  gas_limit ← to_u 64 gas_limit; Some (true, set_backend (set_gas_limit gas_limit (backend a)) a).
Definition anvil_set_coinbase (address : Address) (a : EthApi) : EthApi := set_backend (set_coinbase address (backend a)) a.
Definition anvil_set_chain_id (chain_id : Z) (a : EthApi) : EthApi := set_backend (set_chain_id chain_id (backend a)) a.

Definition anvil_impersonate_account (address : Address) (a : EthApi) : EthApi :=
  set_backend (set_cheats (Cheats.impersonate address (node_cheats (backend a))).2 (backend a)) a.
Definition anvil_stop_impersonating_account (address : Address) (a : EthApi) : EthApi :=
  set_backend (set_cheats (Cheats.stop_impersonating address (node_cheats (backend a))) (backend a)) a.
Definition anvil_auto_impersonate_account (enabled : bool) (a : EthApi) : EthApi :=
  set_backend (set_cheats (Cheats.set_auto_impersonate_account enabled (node_cheats (backend a))) (backend a)) a.

(** [i128] to [i64] *)
Definition to_i64 (x : Z) : Z := (x + 2 ^ 63) mod 2 ^ 64 - 2 ^ 63.
Definition evm_increase_time (seconds : U256) (a : EthApi) : Z * EthApi :=
  let '(total, t) := TimeManager.increase_time (Z.min (umax 64) seconds) (time (backend a)) in
  (to_i64 total, set_backend (set_time t (backend a)) a).
(** [Duration::from_millis] of the difference in seconds. *)
Definition evm_set_time (now timestamp : Z) (a : EthApi) : Z * EthApi :=
  let current := TimeManager.current_call_timestamp now (time (backend a)) in
  (u_saturating_sub timestamp current / 1000,
   set_backend (set_time (TimeManager.reset now timestamp (time (backend a))) (backend a)) a).
Definition evm_set_block_timestamp_interval (seconds : Z) (a : EthApi) : EthApi :=
  set_backend (set_time (TimeManager.set_block_timestamp_interval seconds (time (backend a))) (backend a)) a.
Definition evm_remove_block_timestamp_interval (a : EthApi) : bool * EthApi :=
  let '(r, t) := TimeManager.remove_block_timestamp_interval (time (backend a)) in (r, set_backend (set_time t (backend a)) a).

Definition evm_snapshot (a : EthApi) : U256 * EthApi :=
  let '(i, n) := create_state_snapshot (backend a) in (i, set_backend n a).
Definition evm_revert (now : Z) (i : U256) (a : EthApi) : result ApiError bool * EthApi :=
  let '(r, n) := revert_state_snapshot now i (backend a) in
  (match r with Ok b => Ok b | Err e => Err (ChainFailure e) end, set_backend n a).

Definition anvil_drop_transaction (tx_hash : TxHash) (a : EthApi) : option (option TxHash * EthApi) :=
  '(r, p) ← Pool.drop_transaction tx_hash (pool a); Some (fmap (M := option) PoolTx.hash r, set_pool p a).
Definition anvil_drop_all_transactions (a : EthApi) : EthApi := set_pool (PoolInner.clear (pool a)) a.
Definition anvil_remove_pool_transactions (address : Address) (a : EthApi) : option EthApi :=
  '(_, p) ← PoolInner.remove_transactions_by_address limit address (pool a); Some (set_pool p a).
End api.
