(* ===== verification/ApiSpec.v ===== *)
(** * What the RPC of the node does

    Blocks that are mined on request come on schedule, and a reorganisation keeps
    the height of the chain. *)
From S2P Require Import Prelude.
From S2P Require Import StateDb.
From S2P Require Import BlockStates.
From S2P Require Import Chain.
From S2P Require Import ChainSpec.
From S2P Require Import TimeManager.
From S2P Require Import MultiFork.
From S2P Require Import PoolTx.
From S2P Require Import PendingPool.
From S2P Require Import ReadyPool.
From S2P Require Import TxPool.
From S2P Require Import Validation.
From S2P Require Import Executor.
From S2P Require Import ExecutorSpec.
From S2P Require Import Miner.
From S2P Require Import Node.
From S2P Require Import NodeSpec.
From S2P Require Import Api.
Local Open Scope Z_scope.

Section spec.
Context {Hf : Hardforks} {Ex : Executes} {Vm : Evm} {Lib : NodeLib} {Ticks : Intervals}.
Context {FS Path : Type} {Files : FileSystem FS Path} {Full : MaybeFullDatabase State} {Order : HashIter} (limit : nat).
Abbreviation Node := (@Node.Node Ex Lib FS Path).
Abbreviation EthApi := (@Api.EthApi Ex Lib Ticks FS Path).
Implicit Types (n : Node) (a : EthApi).

Definition best_header n : option Header := Chain.header <$> blocks (storage n) !! best_hash n.

(** The block that is mined is the best one. *)
Lemma mined_best now txs n o n' :
  do_mine_block now txs n = Some (o, n') →
  best_number n' = next_number n ∧ time n' = (TimeManager.next_timestamp now (time n)).2 ∧
  ∃ h, best_header n' = Some h ∧ h_timestamp h = Z.min (umax 64) (TimeManager.next_timestamp now (time n)).1.
Proof.
  intros (x & d & Hm)%do_mine_spec.
  pose proof (store_headers hash_slow h_difficulty tx_hash transaction_hash (outcome_of (block x) d) (next_number n)
    (Chain.transaction_block_keeper (chain n)) (is_eip3675 n) (storage n)) as (_ & S2 & S3 & S4).
  rewrite <-(mi_storage _ _ _ _ _ _ _ Hm) in S2, S3, S4.
  destruct (execute_header _ _ _ (mi_executed _ _ _ _ _ _ _ Hm)) as (_ & E & _).
  split; [exact S4|]. split; [apply Hm|]. exists (header (block x)). split; [|exact E].
  unfold best_header, best_hash. by rewrite S3, S2, lookup_insert_eq.
Qed.

Lemma mine_one_spec now a a' :
  mine_one limit now a = Some a' →
  best_number (backend a') = next_number (backend a) ∧
  time (backend a') = (TimeManager.next_timestamp now (time (backend a))).2 ∧
  ∃ h, best_header (backend a') = Some h ∧
    h_timestamp h = Z.min (umax 64) (TimeManager.next_timestamp now (time (backend a))).1.
Proof.
  intros ([o n] & Hn%mined_best & ([p m] & _ & [= <-])%bind_Some)%bind_Some. exact Hn.
Qed.

(** The clock follows the wall clock, and is not ahead of it. *)
Record follows_clock (now : Z) (t : TimeManager.TimeManager) : Prop := {
  fc_exact : TimeManager.next_exact_timestamp t = None;
  fc_interval : TimeManager.interval t = None;
  fc_last : TimeManager.last_timestamp t <= now + TimeManager.offset t;
}.

Lemma free_timestamp now t :
  follows_clock now t → in_u 64 (now + TimeManager.offset t) →
  TimeManager.next_timestamp now t =
    (now + TimeManager.offset t,
     {| TimeManager.offset := TimeManager.offset t; TimeManager.last_timestamp := now + TimeManager.offset t;
        TimeManager.next_exact_timestamp := None; TimeManager.interval := None |}).
Proof.
  intros [He Hi Hl] Hu. unfold TimeManager.next_timestamp, TimeManager.compute_next_timestamp. rewrite He, Hi.
  assert (Hs : i_saturating_add 128 now (TimeManager.offset t) = now + TimeManager.offset t).
  { unfold i_saturating_add, imin, imax, in_u, umax in *. lia. }
  rewrite Hs, (wrap_id 64) by (done || lia). destruct (Z.ltb_spec (now + TimeManager.offset t) (TimeManager.last_timestamp t)); [lia|]. done.
Qed.

(** The times at which blocks are mined: rising, and the clock with its offset and
    [i] more for each block in range. *)
Record on_time (i : Z) (clock : list Z) (t : TimeManager.TimeManager) : Prop := {
  ot_step : 0 <= i;
  ot_sorted : Sorted Z.le clock;
  ot_start now : head clock = Some now → TimeManager.last_timestamp t <= now + TimeManager.offset t + i;
  ot_offset : in_i 128 (TimeManager.offset t);
  ot_free : TimeManager.next_exact_timestamp t = None ∧ TimeManager.interval t = None;
  ot_range : Forall (λ now, 0 <= now ∧ 0 <= now + TimeManager.offset t ∧
                            now + TimeManager.offset t + i * Z.of_nat (length clock) <= umax 64) clock;
}.

Lemma mine_all_schedule i clock a a' k now :
  on_time i clock (time (backend a)) → 0 <= best_number (backend a) → best_number (backend a) + Z.of_nat (length clock) <= umax 64 →
  mine_all limit (Some i) clock a = Some a' → clock !! k = Some now →
  ∃ ak h, mine_all limit (Some i) (take (S k) clock) a = Some ak ∧
    best_number (backend ak) = best_number (backend a) + Z.of_nat (S k) ∧ best_header (backend ak) = Some h ∧
    h_timestamp h = now + TimeManager.offset (time (backend a)) + i * Z.of_nat (S k).
Proof.
  revert a k. induction clock as [|c clock IH]; intros a k [H0 Hs Hst Ho [He Hi] Hr] Hb Hmax Hm Hk; [done|].
  cbn [mine_all take] in Hm |- *. set (a0 := Api.set_backend _ a) in *. apply bind_Some in Hm as (a1 & Hone & Hrest).
  rewrite Hone. cbn [mbind option_bind]. destruct (mine_one_spec _ _ _ Hone) as (N1 & N2 & h & N3 & N4).
  apply Forall_cons in Hr as [(Hc0 & Hc1 & Hc2) Hr]. specialize (Hst c eq_refl). cbn [length] in Hc2, Hmax, Hr.
  pose proof (Nat2Z.is_nonneg (length clock)) as Hlen.
  assert (Hi1 : 0 <= i * Z.of_nat (length clock)) by (by apply Z.mul_nonneg_nonneg).
  assert (Hi2 : i * Z.of_nat (S (length clock)) = i + i * Z.of_nat (length clock)) by lia. rewrite Hi2 in *.
  set (o := TimeManager.offset (time (backend a))) in *.
  assert (Hoff : TimeManager.offset (time (backend a0)) = o + i).
  { subst a0. cbn. unfold i_saturating_add. fold o. unfold in_i, imin, imax, umax in *. lia. }
  assert (Hfree : follows_clock c (time (backend a0))).
  { split; [exact He|exact Hi|]. rewrite Hoff. change (TimeManager.last_timestamp (time (backend a0))) with (TimeManager.last_timestamp (time (backend a))). lia. }
  assert (Hu : in_u 64 (c + TimeManager.offset (time (backend a0)))) by (rewrite Hoff; unfold in_u; lia).
  rewrite (free_timestamp _ _ Hfree Hu) in N2, N4. cbn [fst snd] in N2, N4. rewrite Hoff in N2, N4.
  assert (Hn : best_number (backend a1) = best_number (backend a) + 1).
  { rewrite N1. change (next_number (backend a0)) with (next_number (backend a)). unfold next_number, u_saturating_add. lia. }
  destruct k as [|k]; cbn in Hk |- *.
  { injection Hk as <-. exists a1, h. rewrite firstn_O. cbn. split; [done|]. split; [lia|]. split; [done|]. rewrite N4. unfold in_u in Hu. rewrite Hoff in Hu. lia. }
  apply Sorted_inv in Hs as [Hs Hd].
  destruct (IH a1 k) as (ak & h' & R1 & R2 & R3 & R4); [|lia|lia|done|done|].
  - rewrite N2. split; cbn; try done.
    + intros now' Hnow. destruct clock as [|c' clock]; [done|]. injection Hnow as ->. apply HdRel_inv in Hd. lia.
    + unfold in_i, imin, imax, umax in *. lia.
    + eapply Forall_impl; [exact Hr|]. cbn. intros t Ht. lia.
  - exists ak, h'. split; [done|]. split; [lia|]. split; [done|]. rewrite R4, N2. cbn [TimeManager.offset]. lia.
Qed.

(** C13: Blocks that are mined with an interval come on schedule: after each of the
    blocks of [anvil_mine] the chain is one block longer, and the new best block
    has the time of the clock, with its offset, moved forward by the interval once
    for each of the blocks so far; nothing else moves the clock. *)
Theorem mined_on_schedule i clock a a' k now :
  on_time i clock (time (backend a)) → 0 <= best_number (backend a) → best_number (backend a) + Z.of_nat (length clock) <= umax 64 →
  anvil_mine limit (Some (Z.of_nat (length clock))) (Some i) clock a = Some a' → clock !! k = Some now →
  ∃ ak h, anvil_mine limit (Some (Z.of_nat (S k))) (Some i) clock a = Some ak ∧
    best_number (backend ak) = best_number (backend a) + Z.of_nat (S k) ∧ best_header (backend ak) = Some h ∧
    h_timestamp h = now + TimeManager.offset (time (backend a)) + i * Z.of_nat (S k).
Proof.
  assert (Ht : ∀ m, take (Z.to_nat (default 1 (Some (Z.of_nat m)))) clock = take m clock) by (intros m; cbn; by rewrite Nat2Z.id).
  unfold anvil_mine. rewrite !Ht, firstn_all. apply mine_all_schedule.
Qed.

(** ** Reorganisation *)
Lemma mine_batches_number clock batches n n' :
  0 <= best_number n → best_number n + Z.of_nat (length batches) <= umax 64 → (length batches <= length clock)%nat →
  mine_batches clock batches n = Some n' → best_number n' = best_number n + Z.of_nat (length batches).
Proof.
  revert batches n. induction clock as [|now clock IH]; intros [|txs batches] n H0 Hmax Hlen Hm; cbn in Hm, Hlen; simplify_eq/=; try lia.
  apply bind_Some in Hm as ([o n1] & (Hn & _ & _)%mined_best & Hm). cbn in Hmax.
  assert (Hn1 : best_number n1 = best_number n + 1) by (rewrite Hn; unfold next_number, u_saturating_add; lia).
  apply IH in Hm; lia.
Qed.

Lemma rollback_number now b n n' : rollback now b n = (Ok tt, n') → best_number n' = h_number (Chain.header b).
Proof.
  unfold rollback. destruct (Chain.rollback _ _ _ _ _ _ b (chain n)) as [r c] eqn:Hc. intros Hr.
  assert (r = Ok tt ∧ storage n' = Chain.storage c) as [-> Hst].
  { destruct r as [[]|[]]; by simplify_eq/=. }
  unfold best_number. rewrite Hst. clear Hr Hst. unfold Chain.rollback in Hc.
  destruct (match get_state _ _ with Some d => _ | None => _ end) as [found st].
  destruct (found ≫= _) as [common|]; [|done].
  destruct (until_error _ _ _) as [ok d]. destruct (negb ok); [done|]. injection Hc as <-. cbn.
  unfold unwind_to. by destruct (foldl _ _ _).
Qed.

(** A reorganisation keeps the height: whenever [anvil_reorg] answers that it
    is done, the best number is what it was, whatever blocks and transactions were
    asked for, as long as the blocks carry the number they are filed under. *)
Theorem reorg_keeps_height now clock depth pairs a a' :
  0 <= depth → 0 <= best_number (backend a) <= umax 64 → (Z.to_nat depth <= length clock)%nat →
  (∀ b h, Chain.get_block_with_hash (Number (best_number (backend a) - depth)) (chain (backend a)) = Some (b, h) →
          h_number (Chain.header b) = best_number (backend a) - depth) →
  anvil_reorg now clock depth pairs a = Some (Ok tt, a') → best_number (backend a') = best_number (backend a).
Proof.
  intros H0 Hb Hlen Hnum. unfold anvil_reorg. destruct (Z.ltb_spec (best_number (backend a)) depth); [done|].
  destruct (Chain.get_block_with_hash _ _) as [[b h]|]; [|done]. specialize (Hnum b h eq_refl).
  case_bool_decide; [|done]. intros ([r n] & Hr & [= -> <-])%bind_Some. cbn. unfold reorg in Hr.
  destruct (rollback now b (backend a)) as [[[]|e] n0] eqn:Hrb; [|done]. apply rollback_number in Hrb.
  apply bind_Some in Hr as (n1 & Hm & [= <-]).
  assert (Hl : length ((λ i, default [] (pairs !! i)) <$> seqZ 0 depth) = Z.to_nat depth) by (by rewrite length_fmap, length_seqZ).
  apply mine_batches_number in Hm; rewrite ?Hl in *; lia.
Qed.
End spec.

(** ** Examples *)
Module ApiExample.
Export NodeExample.
#[local] Existing Instance elements_iter.
#[local] Instance ticks : Intervals := {|
  Interval := unit; poll_tick _ := (false, tt); interval_at _ := tt; period _ := 0 |}.
Abbreviation Api := (@Api.EthApi executes node_lib ticks Files Z).
Definition api0 : Api := mkApi node0 pool_default (Miner_new NoMining) Fees false.

(** Three blocks, a minute apart. *)
Definition clock : list Z := [1010; 1010; 1013].
Definition mined : Api := default api0 (anvil_mine 100 (Some 3) (Some 60) clock api0).
Example times : chain_of (backend mined) = [Some (0, 1000, 1000); Some (1, 1070, 875); Some (2, 1130, 766); Some (3, 1193, 671)].
Proof. vm_compute. reflexivity. Qed.
Lemma mined_on_schedule_witness :
  ∃ ak h, anvil_mine 100 (Some 2) (Some 60) clock api0 = Some ak ∧ best_number (backend ak) = 0 + 2 ∧
    best_header (backend ak) = Some h ∧ h_timestamp h = 1010 + 0 + 60 * 2.
Proof.
  apply (mined_on_schedule 100 60 clock api0 mined 1 1010).
  - split; [done|repeat constructor; lia| |vm_compute; split; discriminate|done|].
    + intros now [= <-]. vm_compute. discriminate.
    + repeat apply Forall_cons_2; try apply Forall_nil_2; vm_compute; (split; [discriminate|split; discriminate]).
  - vm_compute. discriminate.
  - vm_compute. discriminate.
  - assert (Hm : match anvil_mine 100 (Some 3) (Some 60) clock api0 with Some _ => true | None => false end = true) by (vm_compute; reflexivity).
    unfold mined. change (Some (Z.of_nat (length clock))) with (Some 3). revert Hm. by destruct (anvil_mine 100 (Some 3) (Some 60) clock api0).
  - reflexivity.
Defined.

(** The last two of the three blocks are replaced, on a database that can be
    restored. *)
#[local] Instance restorable : MaybeFullDatabase (gmap Address (Z * Z)) := {|
  maybe_as_full_db d := Some ((λ p, {| info := funded p.2 p.1; account_state := StateDb.NotExisting; StateDb.storage := ∅ |}) <$> d);
  clear_into_state_snapshot d := (snapshot_default, ∅);
  read_as_state_snapshot _ := snapshot_default;
  init_from_state_snapshot _ d := d |}.
Definition three : Api := default api0 (anvil_mine (Full := restorable) 100 (Some 3) (Some 60) clock api0).
Definition replaced : Api :=
  from_option snd three (anvil_reorg (Ex := executes) (Full := restorable) 1020 [1020; 1021] 2 {[1 := [paying_tx 105 1 0]]} three).
Definition same_best (a b : Api) : Prop := best_number (backend a) = best_number (backend b).
Lemma reorg_keeps_height_witness :
  chain_of (backend replaced) = [Some (0, 1000, 1000); Some (1, 1070, 875); Some (2, 1070, 588); Some (3, 1071, 515)] ∧
  same_best replaced three.
Proof.
  split; [vm_compute; reflexivity|].
  apply (reorg_keeps_height (Ex := executes) (Full := restorable) 1020 [1020; 1021] 2 {[1 := [paying_tx 105 1 0]]} three replaced).
  - lia.
  - vm_compute. split; discriminate.
  - vm_compute. lia.
  - intros b h Hb.
    assert (Hn : match Chain.get_block_with_hash (Number (best_number (backend three) - 2)) (chain (backend three)) with
                 | Some (b, _) => h_number (Chain.header b) =? 1
                 | None => true
                 end = true) by (vm_compute; reflexivity).
    rewrite Hb in Hn. apply Z.eqb_eq in Hn. rewrite Hn. vm_compute. reflexivity.
  - assert (Hn : match anvil_reorg (Ex := executes) (Full := restorable) 1020 [1020; 1021] 2 {[1 := [paying_tx 105 1 0]]} three with
                 | Some (Ok _, _) => true | _ => false end = true) by (vm_compute; reflexivity).
    unfold replaced. revert Hn. by destruct (anvil_reorg (Ex := executes) (Full := restorable) 1020 [1020; 1021] 2 {[1 := [paying_tx 105 1 0]]} three) as [[[[]|e] a]|].
Defined.

Definition sent (fee : Z) (h a n : Z) : PendingTransaction :=
  {| pt_transaction := mkEnvelope Eip1559 2 n 21000 fee (Some 1) (Some 31337) (Some 7) 5 0 0 None None 0; pt_sender := a; pt_hash := h |}.
(** Two transactions of account 1 without a nonce, the second one with the higher
    fee, and a block with what is ready. *)
Definition send (fee h : Z) (a : Api) : Api := from_option snd a (send_transaction 100 1010 None 1 (λ n, Ok (sent fee h 1 n)) a).
Definition both_sent : Api := send 2000 102 (send 1000 101 api0).
Definition one_mined : Api := default both_sent (mine_one 100 1010 both_sent).
(** The nonces in the pool, and the block with the nonces of its transactions. *)
Definition pooled (a : Api) : list Z := (λ t, env_nonce (envelope t)) <$> (ready_transactions 100 a ++ Pool.pending_transactions (pool a)).
Definition last_block (a : Api) : option (list Z) := (λ b, env_nonce <$> transactions_of b) <$> blocks (Node.storage (backend a)) !! best_hash (backend a).

(** The second transaction comes first, since it does not require the first one:
    its nonce is the highest of the pool, which is taken for that of the chain.  It
    is found invalid in the block, and dropped. *)
Example second_is_dropped :
  pooled both_sent = [1; 0] ∧ last_block one_mined = Some [0] ∧ pooled one_mined = [].
Proof. vm_compute. split; [reflexivity|]. split; reflexivity. Qed.
(** The same transactions, sent raw, stay in order. *)
Definition send_raw (fee h n : Z) (a : Api) : Api :=
  from_option snd a (send_raw_transaction 1010 (Ok (pt_transaction (sent fee h 1 n))) (λ _, Ok (sent fee h 1 n)) a).
Definition raw_sent : Api := send_raw 2000 102 1 (send_raw 1000 101 0 api0).
Definition raw_mined : Api := default raw_sent (mine_one 100 1010 raw_sent).
Example raw_in_order : pooled raw_sent = [0; 1] ∧ last_block raw_mined = Some [0; 1] ∧ pooled raw_mined = [].
Proof. vm_compute. split; [reflexivity|]. split; reflexivity. Qed.

(** The nonce of the pending block is that of the pool, also when the chain is
    ahead of it: after the nonce is set the next transaction cannot be sent. *)
Definition nonce_set : Api := (anvil_set_nonce 1 7 (send 1000 101 api0)).2.
Example stale_nonce :
  request_nonce 100 None 1 nonce_set = Ok (1, 1) ∧
  (fst <$> send_transaction 100 1010 None 1 (λ n, Ok (sent 1000 103 1 n)) nonce_set) = Some (Err (InvalidTransaction NonceTooLow)).
Proof. vm_compute. split; reflexivity. Qed.

(** [evm_setTime] answers in thousandths of the difference. *)
Example set_time_answer : (evm_set_time 1000 4600 api0).1 = 3.
Proof. vm_compute. reflexivity. Qed.
(** A base fee that does not fit 64 bits is a panic. *)
Example large_fee_panics :
  match anvil_set_next_block_base_fee_per_gas (2 ^ 64) api0 with None => true | Some _ => false end = true.
Proof. vm_compute. reflexivity. Qed.
End ApiExample.
